(* ===== verification/_CoqProject ===== *)
-Q . S2P
Prelude.v
Depot.v
Random.v
Time.v
Errors.v
Host.v
Packet.v
PacketFacts.v
Response.v
ResponseFacts.v
Frames.v
FramesFacts.v
Index.v
Config.v
Transactions.v
Query.v
Answers.v
RegistryFacts.v
QueryFacts.v
Ledger.v
LedgerFacts.v
StartFacts.v
Queries.v
QueriesFacts.v
Store.v
StoreFacts.v
Promises.v
Lookup.v
LookupFacts.v
Hole.v
Timer.v
TimerFacts.v
Health.v
Round.v
Members.v
MembersFacts.v
ReconcileFacts.v
SnapshotFacts.v
Routes.v
RoutesFacts.v
Dials.v
DialsFacts.v
Pool.v
PoolFacts.v
PoolRuns.v
PoolLaws.v
PoolExamples.v
Resident.v
Deadlines.v
DeadlinesFacts.v
ReadySet.v
ReadySetFacts.v
ReadyArena.v
ArenaFacts.v
LanesFacts.v
TopologyFacts.v
WakeFacts.v
ArenaLaws.v
ArenaRuns.v
ArenaExamples.v
Sequence.v
SequenceFacts.v
CreditTree.v
CreditAvl.v
CreditTreeFacts.v
CreditRemoval.v
CreditState.v
CreditQueue.v
CreditFacts.v
CreditRuns.v
CreditExamples.v
