(* ===== verification/Prelude.v ===== *)
(** * A verification of the dope network runtime.

    dope is a runtime for network services in Rust. [src/layer0] talks to the
    kernel (rings, descriptors, the driver and its timers), [src/layer1] builds
    a runtime and connection manifolds on it, [src/layer2] holds protocols: the
    DNS resolver, fibers, test support. This development models the resolver
    [src/layer2/dns] from the bytes of a packet to the endpoints a service
    learns, the service pool of [src/layer1/manifold] that dials those
    endpoints, the deadlines that listeners and connectors keep for their
    connections, the queue in which links wait for egress credit
    ([src/layer1/net]), and the parts of the lower layers they stand on that are
    logic of their own: the ready scheduler and the timers of the driver, completion
    tokens and slot tables, clocks, retry backoff, keyed randomness.

    ** How the parts work together

    A [Discovery] ([lookup/mod.rs]) is polled by a service. It holds one lane of
    the query store ([storage/queries]) and starts a lookup in it: one row per
    address family, each with a request that is pending, waits for a reply
    under a transaction identity, or is finished. The UDP and TCP sockets
    ([net]) take pending requests out of the store, send the queries
    [wire/frames.rs] builds, and hand packets back; the store finds the request
    by the packet's identity, decodes the packet against the request's question
    ([wire/response]) and moves the row: an answer, an alias to follow, a retry
    with the next server, a switch to a stream, a failure. When both rows are
    finished the poll collects the answer, and the discovery publishes it with a
    deadline, ages it and withdraws it.

    A [Pool] ([manifold/service/pool]) takes a published snapshot of endpoints
    as its members. Its slots of dials wait in a line; a poll gives the turn to
    a member, and the slot at the head of the line an attempt to connect to it.
    A connection makes its member healthy; the end of an attempt gives the
    member back, with a retry after a backoff when it failed, and the slot goes
    to the end of the line under the next generation of its key. A later
    snapshot keeps, adds and retires members under live dials.

    Whatever is to be polled is woken through the ready scheduler
    ([core/driver/schedule/ready]). An arena of cells holds dispatch slots, tasks
    and topologies; its free cells are chained, some of them leased to pools of
    tasks. A wake resolves a key - index and generation - and queues the task in
    its topology, then goes on to the task's parent, until a dispatch target or a
    descriptor joins the ready set. The driver drains the ready set in batches,
    and whoever is woken drains its topology in batches.

    What a link sends is charged to its lane of a pool of credit
    ([net/link/egress/load/credit]): entries and bytes, some protected for the lane,
    the rest shared. A lane that the shared credit does not cover waits in a queue:
    its record holds what it asked for, and a node of three search trees its demand
    and its ticket. Whatever gives credit back marks the pool as pending; its owner
    then maintains it, and each permit selects the earliest lane that is covered,
    charges its account, and wakes its task. An oldest lane that is not covered may
    be passed over once for each other lane, then all wait for it.

    ** The files

    Vocabulary and interfaces
    - [Prelude] — the outcome type [run] ([Ok], [Err], or [Stuck] by a panic,
      undefined behaviour or lack of fuel), its bind, bytes, ASCII, loops.
    - [Depot], [Hole] — the crate [o3], whose source is not in the repository:
      each container is a class of operations with a class of laws (its
      documented behaviour) and a concrete instance for the witnesses.

    Base
    - [Time] — [Instant] and [Duration], [schedule/clock], [runtime/civil.rs],
      [manifold/timing/interval]; one alarm as its holder sees it.
    - [Timer], [TimerFacts] — [schedule/clock/timer]: the leased heap and the
      timer commands.
    - [Health] — [manifold/service/health.rs]: retry backoff.
    - [Random] — [runtime/random]: SipHash as a stream, the keyed root.

    Packets
    - [Errors], [Host] — [lookup/error.rs], [host.rs].
    - [Packet], [PacketFacts] — [wire/packet], [wire/records.rs]: one reader in
      a checked and an unchecked mode ([Raw.Checked], [Raw.Validated]).
    - [Response], [ResponseFacts] — [wire/response], [wire/cookies.rs],
      [query/answer]: the decoder.
    - [Frames], [FramesFacts] — [wire/frames.rs], [net/stream/codec.rs],
      [net/stream/cursor.rs]: queries and stream framing.

    The query store
    - [Index], [Config] — [storage/queries/index], [config].
    - [Transactions] — [storage/queries/tx], [net/entropy]: identities, cookies.
    - [Query], [Answers] — [storage/queries/state]: requests, rows, results.
    - [RegistryFacts], [QueryFacts] — what a row owes the registry.
    - [Ledger], [LedgerFacts], [StartFacts] — [storage/queries/ledger]: slots,
      claims, and the starts that put a request on the wire.
    - [Queries], [QueriesFacts] — [storage/queries/mod.rs], [receive.rs].
    - [Store], [StoreFacts] — [storage/plan.rs], [store.rs], [peer.rs]; the
      events of a running store and the states they reach.
    - [Promises] — the theorems about every such state.

    Discoveries
    - [Lookup], [LookupFacts] — [lookup], [storage/state.rs] and what they use
      of [manifold/service].

    Service pools
    - [Round] — the round set and the keyed minimum of the crate [o3], as classes
      with laws and an executable table of each.
    - [Members], [MembersFacts], [ReconcileFacts], [SnapshotFacts] —
      [service/pool/members]: the members, one operation at a time, then the
      reconciliation with a snapshot and its specification.
    - [Dials], [DialsFacts] — [service/pool/dials]: the slots and their line.
    - [Pool], [PoolFacts] — [service/pool/mod.rs], [control.rs], [peer.rs],
      [service/sync.rs], [service/discover.rs], [client/close.rs]: the pool over
      both, and the invariant that joins them.
    - [PoolRuns], [PoolLaws] — the theorems about every history of a pool, and
      about its parts; [PoolExamples] applies them to one pool at work.

    Deadlines of connections
    - [Resident] — the keyed minimum with residents of the crate [o3], as a class
      with laws and an executable one; lanes of deadlines over it.
    - [Deadlines], [DeadlinesFacts] — [network/listener/writer/deadline.rs] with
      the timing of [listener/handler]; [client/deadline] with its alarm, expiry
      loop, refresh and retries from [client/conn/engine]. One lane per
      connection, one heap for all of them, one alarm over the heap. A slot that
      Rust pairs with its book is the book and the connection's key; whatever a
      caller observes of a connection is an argument.

    Tokens and identities
    - [Routes], [RoutesFacts] — [core/driver/route]: routes, slots, capacities,
      segments of tables, kinds and packed tokens.
    - [Sequence], [SequenceFacts] — [schedule/sequence.rs], the roots of
      [runtime/random/mod.rs], the progress reports of [schedule/mod.rs]: the
      identities a driver issues, one at a time ([Owner]) or from reserved chunks
      of 2^32 ([Block]), and what is derived from each.

    The ready scheduler
    - [ReadySet], [ReadySetFacts] — [ready/arena/set]: two bits per index, the
      summaries of the words, the sides and their cursors; then the two sets they
      stand for, the batches of drains, and how long an index waits.
    - [ReadyArena] — [ready/arena], [ready/state.rs], [ready/key], [ready/task]:
      cells with their packed words ([Cells]), free chains and leases
      ([FreePool]), the lanes of a topology ([Topo]), keys, wakes, admissions and
      everything that is dropped ([Arena]).
    - [ArenaFacts] — packed words, chains of free cells as lists, the account of
      every free cell; how cells age.
    - [LanesFacts], [TopologyFacts] — the state word, the doubly linked lanes as
      lists, then each operation of a topology on its batch and its queue.
    - [WakeFacts] — all topologies of a table at once.
    - [ArenaLaws] — the invariant of an arena; wakes and validation of parents.
    - [ArenaRuns] — the steps that owners of keys can take, the invariant over
      every history, stale keys; [ArenaExamples] applies the theorems to one
      small arena.

    Egress credit
    - [CreditTree] — [credit/wait/tree], [wait/store/nodes.rs]: the table of nodes,
      insertion, removal and rebalancing through parent links, and the three trees.
    - [CreditAvl] — the trees as a data type: balance, order, the oldest ticket, the
      path of an element; heights against sizes.
    - [CreditTreeFacts], [CreditRemoval], [CreditState] — the nodes that represent
      a tree, each operation on it, and the three trees as one map of waiting lanes.
    - [CreditQueue] — [credit/amount.rs], [demand.rs], [mod.rs], [ready.rs],
      [wait/queue.rs], [wait/store/mod.rs]: packed amounts, records, the choice of
      a lane, the pool; the credit of the crate [o3] is a class with laws.
    - [CreditFacts] — packing, and that every operation keeps the queue sound.
    - [CreditRuns] — the theorems about every history of a queue;
      [CreditExamples] applies them to a pool with three lanes.

    Each definition that models code names its source in the comment before it.
    A Rust method [f(&mut self, ..)] is a function from the state to the new
    state; a borrow of a part of the state is the part and a write back; a
    [Result] is [run]; a lifetime brand has no data and is left out.

    ** What the theorems show

    - No failure that the types do not announce: every operation of a running
      store returns, in every reachable state and for all inputs
      ([Promises.store_never_fails]); so do the decoder on any bytes
      ([ResponseFacts.decoder_is_total]), the packet reader
      ([PacketFacts.packet_reading_is_total]), the timers and the discoveries.
      A pool survives every history ([PoolRuns.pool_never_fails]), and so do
      the ready arena ([ArenaRuns.Steps.arena_never_stuck]) and the queue for
      credit ([CreditRuns.CreditRuns.credit_queue_never_stuck]).
    - Invariants: the registry agrees with the rows
      ([Promises.registry_books_agree]), the claims on members with the dials
      ([PoolRuns.claims_are_dials]), every free cell of the arena is in one chain
      ([ArenaFacts.PoolLaw.free_slots_accounted]).
    - The scheduler: the packed ready set is two sets, drains are stable batches,
      what is ready waits only for what is ahead of it ([ReadySetFacts.SetLaws]); a topology is a batch and a
      queue, wake-ups during a drain wait, a topology outlives its tasks
      ([TopologyFacts.TopologyLaws]); a wake reaches its root and none is lost,
      parents are validated exactly ([ArenaLaws.Wakes]); the key of what was freed
      never names anything again ([ArenaRuns.Steps.stale_keys_ignored]).
    - Credit: the linked trees are a map of waiting lanes
      ([CreditRuns.TreesRefine.waiting_trees_refine]); the lane selected is the
      earliest that is covered, no lane waits for ever, and credit that a lane could
      have never lies without pending work ([CreditRuns.CreditRuns]).
    - Pools: a snapshot is installed exactly and always finds room, members take
      turns, failures count once, connections restore, the line of dials is a
      queue, late events at most ask for a poll, the first permanent failure is
      kept and reported once,
      a retirement scan covers its table, a gate's demand settles
      ([PoolRuns], [PoolLaws]).
    - Deadlines: every operation leaves exactly its deadlines to its connection
      and keeps the others', deadlines fire in order and each once, an expired
      one is resolved, the alarm stands for the earliest ([DeadlinesFacts]).
    - Refinement: a discovery steps a phase-and-revision machine
      ([LookupFacts.discovery_refines_lifecycle]), the timer store is a map of
      independent alarms ([TimerFacts.timers_refine_alarms]), the transaction
      table a pair of maps, a lookup's result that of a reference
      ([Answers.lookup_result_exact]), the streaming hasher SipHash.
    - Security: only a matching reply changes the store
      ([Promises.datagram_must_answer]) and its content is used only with our
      cookie echoed by the packet's one OPT record, replies answer the question,
      cookies are authentic and never repeat, addresses are backed by records, and no
      identity of a driver, hence no input of a random root, is issued twice
      ([SequenceFacts.Issuing.identities_never_repeat]).
    - Progress and bounds: polls complete by the hard deadline
      ([Promises.poll_makes_progress]), expiry fires what is due, backoff and
      deadlines stay within their bounds, publications are timed as configured, a
      discovery that failed for good looks nothing up again.
    - Round trips of queries, names, frames, and exact specifications of the
      parsers and of the validation.

    ** Bounds and fuel

    Machine integers are [Z] with their wrap or their trap written out; time is
    nanoseconds. Loops whose Rust has no evident bound carry fuel and a theorem
    that it suffices: a name has at most 255 bytes and 32 pointers
    ([Packet]), an alias chain 16 hops ([Response.Aliases.CHASE_FUEL]), the
    bisection of a clamped deadline [2^96] steps by doubling ([Time]). A work
    budget is its number of permits. A wake climbs at most through every task once
    before it meets one that is queued, so one turn more than the table has cells
    is enough fuel for it, even where parents run in a circle; popping a schedule
    needs no more turns than its connections have deadlines. A path through a tree
    of waiting lanes has fewer nodes than the table, whose length plus one is the
    fuel of its loops; the heights of its nodes stay below 66, far from the end of a
    byte. [Stuck Fuel] is an outcome the totality theorems exclude.

    ** What is not modelled

    The sockets that drive the store (their calls are [StoreFacts.Event]), the
    parser of targets (the standard library's address parsers), connections,
    listeners, files and the application layer of [manifold], the bindings of
    pools to fixed slots, the entries of route tables and the life cycle of the
    driver, the kernel backends, fibers, macros and test support. Most are effects
    of the operating system or glue: what a socket, a file or a ring does next is
    the kernel's answer. The request flow of client sessions, the entries of route
    tables and the links of [net] have logic of their own that is left out for its
    size; of the links, only the queue for egress credit is modelled, without the
    partitions of a grant among the pieces of a message. Around the ready arena, the registries that keep wakes for later are
    queues of the crate [o3] over the modelled wakes, and the quotas of a turn are
    the permits of the modelled budgets; the table of descriptors is an argument,
    the target it gives a slot; the type of a key is the kind of its cell, which
    the steps of [ArenaRuns] take as their guard. Of the deadlines of connections
    the close that an expiry orders is outside. Destruction of values
    is modelled only where code runs on it (leases, lanes, ledgers, alarms). *)

From Stdlib Require Export ZArith Lia.
From stdpp Require Export base tactics list numbers option sets.

#[export] Set Warnings "-notation-overridden,-clear-no-such-hyp".

Declare Scope run_scope.
Delimit Scope run_scope with run.
#[global] Open Scope run_scope.
#[global] Open Scope Z_scope.

(** Why a computation has no Rust value: a panic ([unreachable!], an index out
    of range, an overflow that a debug build traps), undefined behaviour of an
    [unsafe] block whose precondition fails, or the model's loop fuel. *)
Inductive stuck := Panic | Undefined | Fuel.

(** A fallible Rust computation: [Ok], [Err] as in [Result], or stuck. *)
Inductive run (E A : Type) :=
  | Ok (a : A)
  | Err (e : E)
  | Stuck (w : stuck).
Arguments Ok {E A} a.
Arguments Err {E A} e.
Arguments Stuck {E A} w.

Definition bind {E A B} (m : run E A) (k : A -> run E B) : run E B :=
  match m with Ok a => k a | Err e => Err e | Stuck w => Stuck w end.

Definition map_err {E F A} (f : E -> F) (m : run E A) : run F A :=
  match m with Ok a => Ok a | Err e => Err (f e) | Stuck w => Stuck w end.

(** [match result { Ok(a) => .., Err(e) => .. }], a stuck scrutinee staying stuck. *)
Definition cases {E F A B} (m : run E A) (ok : A -> run F B) (err : E -> run F B) : run F B :=
  match m with Ok a => ok a | Err e => err e | Stuck w => Stuck w end.

Definition ok_or {E A} (o : option A) (e : E) : run E A :=
  match o with Some a => Ok a | None => Err e end.

(** A function body that returns early: [Err (inr a)] is [return Ok(a)]. *)
Definition returning {E A} (m : run (E + A) A) : run E A :=
  match m with
  | Ok a => Ok a
  | Err (inl e) => Err e
  | Err (inr a) => Ok a
  | Stuck w => Stuck w
  end.

Definition not_stuck {E A} (m : run E A) : Prop :=
  match m with Stuck _ => False | _ => True end.

Notation "'let!' x ':=' m 'in' k" := (bind m (fun x => k))
  (at level 10, x pattern, m at level 100, k at level 200) : run_scope.

(** ** Reasoning about outcomes *)

Lemma bind_Ok {E A B} (m : run E A) (k : A -> run E B) b :
  bind m k = Ok b <-> exists a, m = Ok a /\ k a = Ok b.
Proof. destruct m; naive_solver. Qed.

Lemma map_err_Ok {E F A} (f : E -> F) (m : run E A) a :
  map_err f m = Ok a <-> m = Ok a.
Proof. destruct m; naive_solver. Qed.

Lemma ok_or_Ok {E A} (o : option A) (e : E) a : ok_or o e = Ok a <-> o = Some a.
Proof. destruct o; naive_solver. Qed.

Lemma cases_Ok {E F A B} (m : run E A) (k : A -> run F B) h b :
  cases m k h = Ok b <->
  (exists a, m = Ok a /\ k a = Ok b) \/ (exists e, m = Err e /\ h e = Ok b).
Proof. destruct m; naive_solver. Qed.

Lemma not_stuck_bind {E A B} (m : run E A) (k : A -> run E B) :
  not_stuck m -> (forall a, m = Ok a -> not_stuck (k a)) -> not_stuck (bind m k).
Proof. destruct m; naive_solver. Qed.

Lemma not_stuck_map_err {E F A} (f : E -> F) (m : run E A) :
  not_stuck m -> not_stuck (map_err f m).
Proof. by destruct m. Qed.

Lemma not_stuck_cases {E F A B} (m : run E A) (k : A -> run F B) h :
  not_stuck m -> (forall a, m = Ok a -> not_stuck (k a)) ->
  (forall e, m = Err e -> not_stuck (h e)) -> not_stuck (cases m k h).
Proof. destruct m; naive_solver. Qed.

(** [m] returns, with a value that satisfies [Q]. *)
Definition yields {E A} (m : run E A) (Q : A -> Prop) : Prop := exists a, m = Ok a /\ Q a.

Lemma yields_Ok {E A} (a : A) (Q : A -> Prop) : Q a -> yields (Ok (E := E) a) Q.
Proof. intros HQ. by exists a. Qed.
Lemma yields_bind {E A B} (m : run E A) (k : A -> run E B) (P : A -> Prop) (Q : B -> Prop) :
  yields m P -> (forall a, P a -> yields (k a) Q) -> yields (bind m k) Q.
Proof. intros (a & -> & Ha) Hk. by apply Hk. Qed.
Lemma yields_impl {E A} (m : run E A) (P Q : A -> Prop) :
  yields m P -> (forall a, P a -> Q a) -> yields m Q.
Proof. intros (a & -> & Ha) HPQ. exists a. auto. Qed.

Create HintDb run.
Create Rewrite HintDb lens.
#[export] Hint Resolve not_stuck_bind not_stuck_map_err : run.

(** Opens every hypothesis that says a bind, a [map_err] or a test succeeded. *)
Ltac run_step :=
  match goal with
  | H : bind _ _ = Ok _ |- _ => apply bind_Ok in H as (? & ? & H)
  | H : map_err _ _ = Ok _ |- _ => apply map_err_Ok in H
  | H : ok_or _ _ = Ok _ |- _ => apply ok_or_Ok in H
  | H : Ok _ = Ok _ |- _ => injection H as H
  | H : Err _ = Ok _ |- _ => discriminate H
  | H : Stuck _ = Ok _ |- _ => discriminate H
  | H : Some _ = None |- _ => discriminate H
  | H : None = Some _ |- _ => discriminate H
  | H : (let '(_, _) := ?p in _) = Ok _ |- _ => destruct p as [? ?] eqn:?
  | H : (if ?b then _ else _) = Ok _ |- _ => destruct b eqn:?
  | H : (match ?o with _ => _ end) = Ok _ |- _ => destruct o eqn:?
  end.
Ltac run_inv := repeat (run_step; simplify_eq/=).

(** Boolean comparisons on [Z] and connectives, as propositions. *)
Ltac zbool :=
  repeat match goal with
  | H : (_ || _)%bool = true |- _ => apply orb_true_iff in H
  | H : (_ || _)%bool = false |- _ => apply orb_false_iff in H as [? ?]
  | H : (_ && _)%bool = true |- _ => apply andb_true_iff in H as [? ?]
  | H : (_ && _)%bool = false |- _ => apply andb_false_iff in H
  | H : negb _ = true |- _ => apply negb_true_iff in H
  | H : negb _ = false |- _ => apply negb_false_iff in H
  | H : (_ =? _) = true |- _ => apply Z.eqb_eq in H
  | H : (_ =? _) = false |- _ => apply Z.eqb_neq in H
  | H : (_ <? _) = true |- _ => apply Z.ltb_lt in H
  | H : (_ <? _) = false |- _ => apply Z.ltb_ge in H
  | H : (_ <=? _) = true |- _ => apply Z.leb_le in H
  | H : (_ <=? _) = false |- _ => apply Z.leb_gt in H
  | H : (_ >? _) = true |- _ => rewrite Z.gtb_ltb in H
  | H : (_ >? _) = false |- _ => rewrite Z.gtb_ltb in H
  | H : (_ >=? _) = true |- _ => rewrite Z.geb_leb in H
  | H : (_ >=? _) = false |- _ => rewrite Z.geb_leb in H
  end.

(** ** Machine integers and bytes *)

Definition wrap (w z : Z) : Z := z mod 2 ^ w.
Definition as_u16 (z : Z) : Z := wrap 16 z.

Lemma wrap_range w z : 0 <= w -> 0 <= wrap w z < 2 ^ w.
Proof. intros. apply Z.mod_pos_bound. by apply Z.pow_pos_nonneg. Qed.

Lemma wrap_small w z : 0 <= z < 2 ^ w -> wrap w z = z.
Proof. apply Z.mod_small. Qed.

Lemma as_u16_small z : 0 <= z < 65536 -> as_u16 z = z.
Proof. apply Z.mod_small. Qed.

(** Bytes are integers [0 .. 255]; slices are lists of them. *)
Abbreviation bytes := (list Z).
Definition is_byte (b : Z) : Prop := 0 <= b < 256.
Definition len (l : bytes) : Z := Z.of_nat (length l).

(** [uN::from_be_bytes] and [to_be_bytes]. *)
Definition of_be (l : bytes) : Z := fold_left (fun acc b => acc * 256 + b) l 0.
Fixpoint to_be (n : nat) (z : Z) : bytes :=
  match n with
  | O => []
  | S n => to_be n (z / 256) ++ [z mod 256]
  end.

(** [l.get(off..off + n)]: the slice, when the range is inside [l]. *)
Definition slice (l : bytes) (off n : Z) : bytes :=
  take (Z.to_nat n) (drop (Z.to_nat off) l).
(** Indexing a slice whose bound is known; out of range is not reached. *)
Definition byte_at (l : bytes) (i : nat) : Z := default 0 (l !! i).

Lemma len_nonneg l : 0 <= len l.
Proof. unfold len; lia. Qed.
Lemma len_nil : len [] = 0.
Proof. done. Qed.
Lemma len_cons b l : len (b :: l) = 1 + len l.
Proof. unfold len; simpl; lia. Qed.
Lemma len_app l k : len (l ++ k) = len l + len k.
Proof. unfold len; rewrite length_app; lia. Qed.
Lemma len_0 l : len l = 0 <-> l = [].
Proof. unfold len; destruct l; simpl; split; intros; try done; lia. Qed.

Lemma len_slice l off n :
  0 <= off -> 0 <= n -> off + n <= len l -> len (slice l off n) = n.
Proof. unfold len, slice; intros. rewrite length_take, length_drop. lia. Qed.

Lemma to_be_length n z : length (to_be n z) = n.
Proof. revert z. induction n; intros; simpl; [done|]. rewrite length_app, IHn; simpl; lia. Qed.

Lemma to_be_bytes n z : Forall is_byte (to_be n z).
Proof.
  revert z. induction n; intros; simpl; [constructor|].
  apply Forall_app_2; [done|]. constructor; [|constructor].
  apply Z.mod_pos_bound; lia.
Qed.

Lemma of_be_app l k : of_be (l ++ k) = fold_left (fun acc b => acc * 256 + b) k (of_be l).
Proof. unfold of_be. by rewrite fold_left_app. Qed.

Lemma of_be_to_be n z : 0 <= z < 256 ^ Z.of_nat n -> of_be (to_be n z) = z.
Proof.
  revert z. induction n; intros z Hz.
  - simpl in *. unfold of_be; simpl; lia.
  - cbn [to_be]. rewrite of_be_app; simpl fold_left.
    rewrite IHn; [pose proof (Z.div_mod z 256); lia|].
    rewrite Nat2Z.inj_succ, Z.pow_succ_r in Hz by lia.
    split; [apply Z.div_pos; lia|]. apply Z.div_lt_upper_bound; lia.
Qed.

Lemma to_be_of_be l : Forall is_byte l -> to_be (length l) (of_be l) = l.
Proof.
  induction l as [|b l IH] using rev_ind; [done|].
  intros [Hl Hb]%Forall_app. apply Forall_cons in Hb as [Hb _]. unfold is_byte in Hb.
  rewrite length_app. simpl. rewrite Nat.add_1_r. cbn [to_be]. rewrite of_be_app. simpl fold_left.
  rewrite (Z.add_comm (of_be l * 256)), Z.div_add, Z.mod_add by lia.
  rewrite Z.div_small, Z.mod_small, Z.add_0_l by lia. by rewrite IH.
Qed.

#[export] Hint Rewrite len_nil len_cons len_app : lens.
#[export] Hint Resolve len_nonneg to_be_bytes : run.

(** ** ASCII text *)

Definition dot : Z := 46.

(** [u8::is_ascii_alphanumeric], [u8::to_ascii_lowercase]. *)
Definition is_ascii_uppercase (b : Z) : bool := (65 <=? b) && (b <=? 90).
Definition is_ascii_alphanumeric (b : Z) : bool :=
  ((48 <=? b) && (b <=? 57)) || is_ascii_uppercase b || ((97 <=? b) && (b <=? 122)).
Definition to_ascii_lowercase (b : Z) : Z := if is_ascii_uppercase b then b + 32 else b.
(** [<[u8]>::eq_ignore_ascii_case]. *)
Definition eq_ignore_ascii_case (a b : bytes) : bool :=
  bool_decide (map to_ascii_lowercase a = map to_ascii_lowercase b).

Lemma lower_idem b : to_ascii_lowercase (to_ascii_lowercase b) = to_ascii_lowercase b.
Proof.
  unfold to_ascii_lowercase, is_ascii_uppercase.
  destruct ((65 <=? b) && (b <=? 90)) eqn:E; [|by rewrite E]. zbool.
  destruct ((65 <=? b + 32) && (b + 32 <=? 90)) eqn:E'; [zbool; lia|done].
Qed.

Lemma lower_map_idem l :
  map to_ascii_lowercase (map to_ascii_lowercase l) = map to_ascii_lowercase l.
Proof. rewrite map_map. apply map_ext, lower_idem. Qed.

(** [slice.split(|b| b == d)] and [str.split(d)]. *)
Fixpoint split (d : Z) (l : bytes) : list bytes :=
  match l with
  | [] => [[]]
  | b :: l =>
      if b =? d then [] :: split d l
      else match split d l with
           | w :: ws => (b :: w) :: ws
           | [] => [[b]]
           end
  end.

(** Every part after the first, each behind its separator. *)
Definition dotted (ws : list bytes) : bytes := concat (map (cons dot) ws).
Definition join (ws : list bytes) : bytes :=
  match ws with [] => [] | w :: ws => w ++ dotted ws end.

Lemma dotted_cons w ws : dotted (w :: ws) = (dot :: w) ++ dotted ws.
Proof. done. Qed.

Lemma split_nonnil d l : split d l <> [].
Proof. induction l as [|b l IH]; simpl; [done|]. destruct (b =? d); [done|]. by destruct (split d l). Qed.

Lemma join_split l : join (split dot l) = l.
Proof.
  induction l as [|b l IH]; simpl; [done|].
  pose proof (split_nonnil dot l). destruct (Z.eqb_spec b dot) as [->|].
  - destruct (split dot l) as [|w ws] eqn:E; [done|]. simpl in *. by rewrite dotted_cons, <- IH.
  - destruct (split dot l) as [|w ws]; [done|]. simpl in *. by rewrite <- IH.
Qed.

Lemma split_no_dot d l : Forall (fun w => d ∉ w) (split d l).
Proof.
  induction l as [|b l IH]; simpl; [repeat constructor; set_solver|].
  destruct (Z.eqb_spec b d); [constructor; [set_solver|done]|].
  destruct (split d l) as [|w ws]; [repeat constructor; set_solver|].
  apply Forall_cons in IH as [? ?]. constructor; [set_solver|done].
Qed.

Lemma split_app w l : dot ∉ w ->
  split dot (w ++ l) = match split dot l with h :: t => (w ++ h) :: t | [] => [] end.
Proof.
  induction w as [|b w IH]; intros Hn; simpl.
  - by destruct (split dot l).
  - destruct (Z.eqb_spec b dot); [set_solver|]. rewrite IH by set_solver.
    pose proof (split_nonnil dot l). by destruct (split dot l).
Qed.

Lemma split_join ws : ws <> [] -> Forall (fun w => dot ∉ w) ws -> split dot (join ws) = ws.
Proof.
  intros Hne Hf. destruct ws as [|w ws]; [done|]. clear Hne. simpl.
  revert w Hf. induction ws as [|w' ws IH]; intros w Hf; apply Forall_cons in Hf as [? Hf].
  - rewrite split_app by done. simpl. by rewrite app_nil_r.
  - rewrite split_app by done. rewrite dotted_cons. simpl. rewrite (IH w') by done.
    by rewrite app_nil_r.
Qed.

(** ** Loops whose fuel is a power of two *)

Section iterate.
Context {S R : Type} (step : S -> S + R).

(** Runs [step] at most [2^k] times, stopping at the first result. *)
Fixpoint iterate (k : nat) (s : S) : S + R :=
  match k with
  | O => step s
  | Datatypes.S k =>
      match iterate k s with
      | inl s' => iterate k s'
      | inr r => inr r
      end
  end.

(** An invariant with a measure below [2^k] brings the loop to a result. *)
Lemma iterate_total (I : S -> Prop) (Q : R -> Prop) (m : S -> Z) :
  (forall s, I s -> 0 <= m s) ->
  (forall s, I s -> match step s with
                    | inl s' => I s' /\ m s' < m s
                    | inr r => Q r
                    end) ->
  forall k s, I s -> m s < 2 ^ Z.of_nat k ->
  exists r, iterate k s = inr r /\ Q r.
Proof.
  intros Hpos Hstep.
  assert (Hgen : forall k s, I s ->
    match iterate k s with
    | inl s' => I s' /\ m s' + 2 ^ Z.of_nat k <= m s
    | inr r => Q r
    end).
  { induction k as [|k IH]; intros s Hs.
    - specialize (Hstep s Hs). simpl. destruct (step s) as [s'|r]; [|done].
      destruct Hstep; split; [done|]. lia.
    - specialize (IH s Hs) as H1. cbn [iterate].
      destruct (iterate k s) as [s'|r]; [|done]. destruct H1 as [Hs' H1].
      specialize (IH s' Hs') as H2. destruct (iterate k s') as [s''|r]; [|done].
      destruct H2 as [? H2]. split; [done|].
      rewrite Nat2Z.inj_succ, Z.pow_succ_r by lia. lia. }
  intros k s Hs Hm. specialize (Hgen k s Hs).
  destruct (iterate k s) as [s'|r]; [|eauto].
  destruct Hgen as [HI' ?]. specialize (Hpos s' HI'). lia.
Qed.
End iterate.

(** ** Filters of lists *)

(** A filter that lets everything through. *)
Lemma filter_all {X} (P : X -> Prop) `{!forall x, Decision (P x)} (l : list X) :
  (forall x, x ∈ l -> P x) -> filter P l = l.
Proof.
  induction l as [|x l IH]; intros Hall; [done|]. rewrite filter_cons, decide_True by (apply Hall; set_solver).
  f_equal. apply IH. intros y Hy. apply Hall. set_solver.
Qed.
(** A filter that lets nothing through. *)
Lemma filter_none {X} (P : X -> Prop) `{!forall x, Decision (P x)} (l : list X) :
  (forall x, x ∈ l -> ~ P x) -> filter P l = [].
Proof.
  intros Hn. destruct (filter P l) as [|x xs] eqn:E; [done|exfalso].
  assert (Hx : x ∈ filter P l) by (rewrite E; set_solver). apply list_elem_of_filter in Hx as [? ?]. by eapply Hn.
Qed.
(** Filters by predicates that agree on the list. *)
Lemma filter_iff_in {X} (P Q : X -> Prop) `{!forall x, Decision (P x)} `{!forall x, Decision (Q x)} (l : list X) :
  (forall x, x ∈ l -> P x <-> Q x) -> filter P l = filter Q l.
Proof.
  induction l as [|x l IH]; intros Hall; [done|]. rewrite !filter_cons.
  rewrite IH by (intros y Hy; apply Hall; set_solver).
  pose proof (Hall x (list_elem_of_here x l)). destruct (decide (P x)), (decide (Q x)); naive_solver.
Qed.
