(* ===== verification/Depot.v ===== *)
(** * Interfaces of the [o3] crate.

    The program takes its containers and a few number helpers from the crate
    [o3], whose source is not in the repository. Each class below is one such
    piece: its operations are parameters of the model, its [Laws] class states
    the documented behaviour the program relies on. The instances at the end
    of the file are the concrete functions the witnesses run with. *)

From stdpp Require Import gmap.
From S2P Require Import Prelude.

(** [o3::base::time::DurationExt::average::<2>]. *)
Class Average := average : Z -> Z -> Z.
Class AverageLaws `{Average} :=
  average_between a b : a <= b -> a <= average a b <= b.

(** [o3::depot::array::copy::Vec<T, N>] and [array::Vec<T, N>]: a vector of at
    most [N] values. [cv_insert n x v] is [v.vacancy()] followed by
    [Vacancy::insert(x)], [None] when there is no vacancy; [cv_map_from f v]
    is [map_from], which passes every value with its slot. *)
Class CopyVec (V : Type -> Type) := {
  cv_new : forall {A}, V A;
  cv_one : forall {A}, A -> V A;
  cv_slice : forall {A}, V A -> list A;
  cv_insert : forall {A}, nat -> A -> V A -> option (V A);
  cv_map_from : forall {A B}, (nat -> A -> B) -> V A -> V B;
}.
Class CopyVecLaws (V : Type -> Type) `{CopyVec V} := {
  cv_slice_new A : cv_slice (cv_new (A := A)) = [];
  cv_slice_one A (x : A) : cv_slice (cv_one x) = [x];
  cv_insert_vacant A n (x : A) v :
    (length (cv_slice v) < n)%nat ->
    exists v', cv_insert n x v = Some v' /\ cv_slice v' = cv_slice v ++ [x];
  cv_insert_full A n (x : A) v :
    (n <= length (cv_slice v))%nat -> cv_insert n x v = None;
  cv_slice_map_from A B (f : nat -> A -> B) v :
    cv_slice (cv_map_from f v) = imap f (cv_slice v);
}.

(** [o3::buffer::storage::inline::Bytes<CAP>] and [bytes::Prefix<CAP>]:
    [ib_reserve cap n] is the error of reserving [n] bytes in a capacity of
    [cap], [None] when they fit; [ib_output n] is what the reserved output
    slice of [n] bytes holds before it is written. *)
Class InlineBytes := {
  consume_Error : Type;
  ib_reserve : Z -> Z -> option consume_Error;
  ib_output : Z -> bytes;
}.
Class InlineBytesLaws `{InlineBytes} := {
  ib_reserve_fits cap n : ib_reserve cap n = None <-> n <= cap;
  ib_output_len n : 0 <= n -> len (ib_output n) = n;
}.

(** [o3::buffer::pool::Fill] and [storage::inline::Fill]: [fill_write] appends
    a run of bytes to the buffer under construction, and [fill_update] writes
    through the view of a run already appended, at its offset in the buffer. *)
Class Fill (B : Type) := {
  fill_new : B;
  fill_write : B -> bytes -> B;
  fill_update : B -> nat -> bytes -> B;
  fill_bytes : B -> bytes;
}.
Class FillLaws (B : Type) `{Fill B} := {
  fill_bytes_new : fill_bytes fill_new = [];
  fill_bytes_write b l : fill_bytes (fill_write b l) = fill_bytes b ++ l;
  fill_bytes_update b off l :
    (off + length l <= length (fill_bytes b))%nat ->
    fill_bytes (fill_update b off l)
    = take off (fill_bytes b) ++ l ++ drop (off + length l) (fill_bytes b);
}.

(** [o3::buffer::hold::scope::Input]: the bytes a parser may take. [try_plan]
    retains a range of them, [try_prefix] the end of a prefix to consume; a
    range outside the input is an error that knows its end. *)
Class ScopeInput (E : Type) := {
  range_Error : Type;
  range_end : range_Error -> Z;
  try_plan : bytes -> Z -> Z -> run range_Error bytes;
  try_prefix : bytes -> Z -> Z -> run E Z;
}.
Class ScopeInputLaws (E : Type) `{ScopeInput E} (MAX_BYTES : Z) := {
  try_plan_inside l a b : 0 <= a <= b -> b <= len l -> try_plan l a b = Ok (slice l a (b - a));
  try_plan_outside l a b :
    0 <= a <= b -> len l < b -> exists e, try_plan l a b = Err e /\ range_end e = b;
  try_prefix_inside l n : 1 <= n <= MAX_BYTES -> n <= len l -> try_prefix l 0 n = Ok n;
}.

(** [o3::base::time]: civil timestamps in nanoseconds since the Unix epoch,
    with the errors of their checked arithmetic. *)
Class UnixTime := {
  time_Add : Type;
  time_Sub : Type;
  unix_try_add : Z -> Z -> run time_Add Z;
  unix_try_sub : Z -> Z -> run time_Sub Z;
}.
Class UnixTimeLaws `{UnixTime} := {
  unix_try_add_ok t d : 0 <= d -> t + d < 2 ^ 64 -> unix_try_add t d = Ok (t + d);
  unix_try_add_sound t d r : unix_try_add t d = Ok r -> r = t + d;
  unix_try_add_not_stuck t d : not_stuck (unix_try_add t d);
}.

(** [o3::base::time::Positive]: a duration above zero. [positive d] is
    [Positive::try_new(d)], whose only error is [Zero]. *)
Class Positive := positive : Z -> option Z.
Class PositiveLaws `{Positive} :=
  positive_exact d p : 0 <= d -> positive d = Some p <-> d <> 0 /\ p = d.

(** [o3::depot::index::Domain<I, u16>]: the number of indices of a typed
    index space, with the error of one that does not fit. *)
Class Domain := {
  capacity_Error : Type;
  domain_try_new : Z -> run capacity_Error Z;
}.
Class DomainLaws `{Domain} := {
  domain_fits n : 0 <= n <= 65536 -> domain_try_new n = Ok n;
  domain_sound n c : domain_try_new n = Ok c -> c = n;
  domain_not_stuck n : not_stuck (domain_try_new n);
}.

(** [o3::depot::index::set::State<I, u16, PLANES, Mode>]: sets of indices, one
    per plane. [ps_take], [ps_take_from] and [ps_take_front] remove an index
    from one plane (any one, the first from a start on, the first one);
    [ps_set] and [ps_clear] are [Entry::set], [Entry::insert] and
    [Entry::restore], and [Entry::clear]. [ps_full cap p] is the set a
    [try_disjoint] over [cap] indices starts with, all in plane [p], and
    [ps_none cap] the one [try_new] starts with, all planes empty. *)
Class PlaneSet (T : Type) := {
  ps_full : Z -> nat -> T;
  ps_none : Z -> T;
  ps_mem : T -> nat -> Z -> bool;
  ps_empty : T -> nat -> bool;
  ps_take : T -> nat -> option (Z * T);
  ps_take_from : T -> nat -> Z -> option (Z * T);
  ps_take_front : T -> nat -> option (Z * T);
  ps_set : T -> nat -> Z -> T;
  ps_clear : T -> nat -> Z -> T;
}.

(** Removing one index of a plane, or finding the plane empty. *)
Definition takes {T} `{PlaneSet T} (s : T) (p : nat) (o : option (Z * T)) : Prop :=
  match o with
  | Some (i, s') => ps_mem s p i = true
      /\ forall q j, ps_mem s' q j = ps_mem s q j && negb (bool_decide (p = q /\ i = j))
  | None => forall i, ps_mem s p i = false
  end.
Class PlaneSetLaws (T : Type) `{PlaneSet T} := {
  ps_mem_full cap p q i : ps_mem (ps_full cap p) q i = bool_decide (p = q /\ 0 <= i < cap);
  ps_mem_none cap q i : ps_mem (ps_none cap) q i = false;
  ps_empty_mem s p : ps_empty s p = true <-> forall i, ps_mem s p i = false;
  ps_takes s p : takes s p (ps_take s p);
  ps_takes_from s p i : takes s p (ps_take_from s p i);
  ps_takes_front s p : takes s p (ps_take_front s p);
  ps_mem_set s p i q j : ps_mem (ps_set s p i) q j = bool_decide (p = q /\ i = j) || ps_mem s q j;
  ps_mem_clear s p i q j :
    ps_mem (ps_clear s p i) q j = ps_mem s q j && negb (bool_decide (p = q /\ i = j));
}.

(** [o3::alloc]: an allocation that hands the value back or reports its error,
    and [set::State::try_entry], which resolves an index inside a capacity. *)
Class Allocation := {
  alloc_Error : Type;
  bitmap_Error : Type;
  allocate {A : Type} : A -> run alloc_Error A;
  try_entry : Z -> Z -> run bitmap_Error Z;
}.
Class AllocationLaws `{Allocation} := {
  allocate_exact A (a : A) : allocate a = Ok a \/ exists e, allocate a = Err e;
  try_entry_inside cap i : 0 <= i < cap -> try_entry cap i = Ok i;
}.

(** ** Concrete instances *)

Module Concrete.

#[export] Instance average_floor : Average := fun a b => (a + b) / 2.
#[export] Instance average_floor_laws : AverageLaws.
Proof.
  intros a b Hab. unfold average, average_floor. split.
  - apply Z.div_le_lower_bound; lia.
  - apply Z.div_le_upper_bound; lia.
Qed.

#[export] Instance list_copy_vec : CopyVec list := {|
  cv_new _ := [];
  cv_one _ x := [x];
  cv_slice _ v := v;
  cv_insert _ n x v := if (length v <? n)%nat then Some (v ++ [x]) else None;
  cv_map_from _ _ f v := imap f v;
|}.
#[export] Instance list_copy_vec_laws : CopyVecLaws list.
Proof.
  split; intros; simpl in *; try done.
  - destruct (Nat.ltb_spec (length v) n); [eauto|lia].
  - destruct (Nat.ltb_spec (length v) n); [lia|done].
Qed.

#[export] Instance unit_inline_bytes : InlineBytes := {|
  consume_Error := unit;
  ib_reserve cap n := if n <=? cap then None else Some tt;
  ib_output n := replicate (Z.to_nat n) 0;
|}.
#[export] Instance unit_inline_bytes_laws : InlineBytesLaws.
Proof.
  split; intros; simpl.
  - destruct (Z.leb_spec n cap); naive_solver lia.
  - unfold len. rewrite length_replicate. lia.
Qed.

#[export] Instance list_fill : Fill bytes := {|
  fill_new := []; fill_write b l := b ++ l; fill_bytes b := b;
  fill_update b off l := take off b ++ l ++ drop (off + length l) b;
|}.
#[export] Instance list_fill_laws : FillLaws bytes.
Proof. by split. Qed.

#[export] Instance list_scope_input : ScopeInput unit := {|
  range_Error := Z; range_end e := e;
  try_plan l a b := if b <=? len l then Ok (slice l a (b - a)) else Err b;
  try_prefix l a n := if a + n <=? len l then Ok (a + n) else Err tt;
|}.
#[export] Instance list_scope_input_laws M : ScopeInputLaws unit M.
Proof.
  split; intros; unfold try_plan, try_prefix, list_scope_input.
  - destruct (Z.leb_spec b (len l)); [done|lia].
  - destruct (Z.leb_spec b (len l)); [lia|eauto].
  - rewrite Z.add_0_l. destruct (Z.leb_spec n (len l)); [done|lia].
Qed.

#[export] Instance checked_unix_time : UnixTime := {|
  time_Add := unit; time_Sub := unit;
  unix_try_add t d := if t + d <? 2 ^ 64 then Ok (t + d) else Err tt;
  unix_try_sub t d := if d <=? t then Ok (t - d) else Err tt;
|}.
#[export] Instance checked_unix_time_laws : UnixTimeLaws.
Proof.
  split; intros; simpl in *.
  - destruct (Z.ltb_spec (t + d) (2 ^ 64)); [done|lia].
  - destruct (t + d <? 2 ^ 64); naive_solver.
  - by destruct (t + d <? 2 ^ 64).
Qed.
#[export] Instance plain_positive : Positive := fun d => if d =? 0 then None else Some d.
#[export] Instance plain_positive_laws : PositiveLaws.
Proof. intros d p Hd. unfold positive, plain_positive. destruct (Z.eqb_spec d 0); naive_solver. Qed.

#[export] Instance plain_domain : Domain := {|
  capacity_Error := unit;
  domain_try_new n := if n <=? 65536 then Ok n else Err tt;
|}.
#[export] Instance plain_domain_laws : DomainLaws.
Proof. split; intros; simpl in *; destruct (Z.leb_spec n 65536); naive_solver lia. Qed.

#[export] Instance plain_allocation : Allocation := {|
  alloc_Error := unit;
  bitmap_Error := unit;
  allocate A a := Ok a;
  try_entry cap i := if (0 <=? i) && (i <? cap) then Ok i else Err tt;
|}.
#[export] Instance plain_allocation_laws : AllocationLaws.
Proof.
  split; [by left|]. intros. simpl.
  destruct (Z.leb_spec 0 i), (Z.ltb_spec i cap); (done || lia).
Qed.

(** Planes as a list of their members. *)
Definition pairs_take (s : list (nat * Z)) (p : nat) : option (Z * list (nat * Z)) :=
  match filter (fun x => x.1 = p) s with
  | [] => None
  | (_, i) :: _ => Some (i, filter (fun x => x <> (p, i)) s)
  end.
Definition pairs_take_from (s : list (nat * Z)) (p : nat) (start : Z)
    : option (Z * list (nat * Z)) :=
  match filter (fun x => x.1 = p /\ start <= x.2) s with
  | [] => pairs_take s p
  | (_, i) :: _ => Some (i, filter (fun x => x <> (p, i)) s)
  end.

#[export] Instance pair_planes : PlaneSet (list (nat * Z)) := {|
  ps_full cap p := map (pair p) (seqZ 0 cap);
  ps_none _ := [];
  ps_mem s p i := bool_decide ((p, i) ∈ s);
  ps_empty s p := bool_decide (filter (fun x => x.1 = p) s = []);
  ps_take := pairs_take;
  ps_take_from := pairs_take_from;
  ps_take_front := pairs_take;
  ps_set s p i := if decide ((p, i) ∈ s) then s else (p, i) :: s;
  ps_clear s p i := filter (fun x => x <> (p, i)) s;
|}.

Lemma pairs_removed (s : list (nat * Z)) p i q j :
  bool_decide ((q, j) ∈ filter (fun x => x <> (p, i)) s)
  = bool_decide ((q, j) ∈ s) && negb (bool_decide (p = q /\ i = j)).
Proof.
  rewrite <- bool_decide_not, <- bool_decide_and. apply bool_decide_ext.
  rewrite list_elem_of_filter. naive_solver.
Qed.

Lemma pairs_takes (s : list (nat * Z)) p : takes s p (pairs_take s p).
Proof.
  unfold pairs_take. destruct (filter _ s) as [|[q i] l] eqn:E; simpl.
  - intros i. apply bool_decide_eq_false_2. intros Hin.
    assert (Hf : (p, i) ∈ filter (fun x => x.1 = p) s) by (by apply list_elem_of_filter).
    rewrite E in Hf. set_solver.
  - assert (Hf : (q, i) ∈ filter (fun x => x.1 = p) s) by (rewrite E; set_solver).
    apply list_elem_of_filter in Hf as [Hq Hin]. simpl in Hq. subst q.
    split; [by apply bool_decide_eq_true_2|]. intros. apply pairs_removed.
Qed.

#[export] Instance pair_planes_laws : PlaneSetLaws (list (nat * Z)).
Proof.
  split; intros; simpl.
  - apply bool_decide_ext. rewrite list_elem_of_fmap.
    split; [intros (? & ? & ?%elem_of_seqZ); naive_solver lia|].
    intros [-> ?]. exists i. rewrite elem_of_seqZ. split; [done|lia].
  - done.
  - rewrite bool_decide_eq_true. split.
    + intros E i. apply bool_decide_eq_false_2. intros Hin.
      assert (Hf : (p, i) ∈ filter (fun x => x.1 = p) s) by (by apply list_elem_of_filter).
      rewrite E in Hf. set_solver.
    + intros Hall. destruct (filter _ s) as [|[q i] l] eqn:E; [done|].
      assert (Hf : (q, i) ∈ filter (fun x => x.1 = p) s) by (rewrite E; set_solver).
      apply list_elem_of_filter in Hf as [<- Hin]. specialize (Hall i).
      apply bool_decide_eq_false in Hall. done.
  - apply pairs_takes.
  - unfold pairs_take_from. destruct (filter _ s) as [|[q j] l] eqn:E; [apply pairs_takes|].
    assert (Hf : (q, j) ∈ filter (fun x => x.1 = p /\ i <= x.2) s) by (rewrite E; set_solver).
    apply list_elem_of_filter in Hf as [[Hq _] Hin]. simpl in Hq. subst q.
    split; [by apply bool_decide_eq_true_2|]. intros. apply pairs_removed.
  - apply pairs_takes.
  - rewrite <- bool_decide_or. apply bool_decide_ext. destruct (decide _); set_solver.
  - apply pairs_removed.
Qed.
End Concrete.
