(* ===== verification/Random.v ===== *)
(** * Keyed randomness ([dope-runtime], [src/layer1/runtime/src/random]).

Module [Sip] is the streaming SipHash-C-D hasher of [random/sip.rs]; module
[Key] is the keyed root of [random/mod.rs] (words, permutations, derived
keys), whose Feistel permutation supplies the DNS client cookies. *)

From S2P Require Import Prelude.

(** ** 64-bit words and little-endian packing *)

Definition wrap64 (z : Z) : Z := wrap 64 z.
Definition u64_add (a b : Z) : Z := wrap64 (a + b).
(** [x.rotate_left(n)] on [u64]. *)
Definition rotl (x n : Z) : Z := Z.lor (wrap64 (Z.shiftl x n)) (Z.shiftr x (64 - n)).
(** [x << n] on [u64]: the bits above 64 are discarded. *)
Definition u64_shl (x n : Z) : Z := wrap64 (Z.shiftl x n).
(** [uN::from_le_bytes]. *)
Fixpoint of_le (l : bytes) : Z :=
  match l with
  | [] => 0
  | b :: l => b + 256 * of_le l
  end.

Module Sip.
(** [Sip], src/layer1/runtime/src/random/sip.rs:9-14. The four state words [v0 .. v3]. *)
Record Words := words { v0 : Z; v1 : Z; v2 : Z; v3 : Z }.

(** [Sip], src/layer1/runtime/src/random/sip.rs:9-14. The hasher: bytes seen, state, and the packed unfinished block. *)
Record Sip := sip { length : Z; state : Words; tail : Z }.

(** [Sip::round], src/layer1/runtime/src/random/sip.rs:31-43. *)
Definition round (s : Words) : Words :=
  let a := u64_add (v0 s) (v1 s) in
  let b := Z.lxor (rotl (v1 s) 13) a in
  let a := rotl a 32 in
  let c := u64_add (v2 s) (v3 s) in
  let d := Z.lxor (rotl (v3 s) 16) c in
  let a := u64_add a d in
  let d := Z.lxor (rotl d 21) a in
  let c := u64_add c b in
  let b := Z.lxor (rotl b 17) c in
  let c := rotl c 32 in
  words a b c d.

(** [Sip::rounds], src/layer1/runtime/src/random/sip.rs:45-49. *)
Definition rounds (s : Words) (count : nat) : Words := Nat.iter count round s.

Section params.
(** The compile-time round counts [Sip<C, D>]. *)
Context (C D : nat).

(** [Sip::new], src/layer1/runtime/src/random/sip.rs:17-29. *)
Definition new (k0 k1 : Z) : Sip :=
  sip 0
    (words (Z.lxor k0 0x736f6d6570736575) (Z.lxor k1 0x646f72616e646f6d)
           (Z.lxor k0 0x6c7967656e657261) (Z.lxor k1 0x7465646279746573))
    0.

(** [Sip::compress], src/layer1/runtime/src/random/sip.rs:51-55. *)
Definition compress (s : Words) (word : Z) : Words :=
  let s := words (v0 s) (v1 s) (v2 s) (Z.lxor (v3 s) word) in
  let s := rounds s C in
  words (Z.lxor (v0 s) word) (v1 s) (v2 s) (v3 s).

(** [Sip::pack], src/layer1/runtime/src/random/sip.rs:57-74. Packs at most seven bytes: a four-byte chunk, a two-byte chunk, a byte. *)
Definition pack (l : bytes) : Z :=
  let '(word, l, shift) :=
    match l with
    | a :: b :: c :: d :: rest => (of_le [a; b; c; d], rest, 32)
    | _ => (0, l, 0)
    end in
  let '(word, l, shift) :=
    match l with
    | a :: b :: rest => (Z.lor word (u64_shl (of_le [a; b]) shift), rest, shift + 16)
    | _ => (word, l, shift)
    end in
  match l with
  | byte :: _ => Z.lor word (u64_shl byte shift)
  | [] => word
  end.

(** [Sip::blocks], src/layer1/runtime/src/random/sip.rs:76-82. Compresses every whole eight-byte chunk and returns the rest. *)
Fixpoint blocks (s : Words) (l : bytes) : Words * bytes :=
  match l with
  | a :: b :: c :: d :: e :: f :: g :: h :: rest =>
      blocks (compress s (of_le [a; b; c; d; e; f; g; h])) rest
  | _ => (s, l)
  end.

(** [Sip::short_write], src/layer1/runtime/src/random/sip.rs:84-93. *)
Definition short_write (self : Sip) (size : Z) (value : Z) : Sip :=
  let ntail := Z.land (length self) 7 in
  let length := wrap64 (length self + size) in
  let needed := 8 - ntail in
  let tail := Z.lor (tail self) (u64_shl value (8 * ntail)) in
  if needed <=? size
  then sip length (compress (state self) tail)
         (if needed <? 8 then Z.shiftr value (8 * needed) else 0)
  else sip length (state self) tail.

(** [Sip::finish], src/layer1/runtime/src/random/sip.rs:104-111. *)
Definition finish (self : Sip) : Z :=
  let end_ := Z.lor (Z.shiftl (Z.land (length self) 0xff) 56) (tail self) in
  let s := compress (state self) end_ in
  let s := rounds (words (v0 s) (v1 s) (Z.lxor (v2 s) 0xff) (v3 s)) D in
  Z.lxor (Z.lxor (Z.lxor (v0 s) (v1 s)) (v2 s)) (v3 s).

(** [Sip::write], src/layer1/runtime/src/random/sip.rs:113-128. *)
Definition write (self : Sip) (l : bytes) : Sip :=
  let ntail := Z.to_nat (Z.land (length self) 7) in
  let length := wrap64 (length self + len l) in
  let full (s : Words) (l : bytes) :=
    let '(s, rest) := blocks s l in sip length s (pack rest) in
  if (ntail =? 0)%nat then full (state self) l
  else
    let n := Nat.min (List.length l) (8 - ntail) in
    let tail := Z.lor (tail self) (u64_shl (pack (take n l)) (8 * Z.of_nat ntail)) in
    let l := drop n l in
    if (ntail + n <? 8)%nat then sip length (state self) tail
    else full (compress (state self) tail) l.

(** [Sip::hash], src/layer1/runtime/src/random/sip.rs:95-100. The one-shot hash of a complete byte string. *)
Definition hash (self : Sip) (l : bytes) : Z :=
  let '(s, rest) := blocks (state self) l in
  finish (sip (wrap64 (len l)) s (pack rest)).

(** [Sip::write_u8], src/layer1/runtime/src/random/sip.rs:130-132. *)
Definition write_u8 (self : Sip) (v : Z) : Sip := short_write self 1 v.
(** [Sip::write_u16], src/layer1/runtime/src/random/sip.rs:134-136. *)
Definition write_u16 (self : Sip) (v : Z) : Sip := short_write self 2 v.
(** [Sip::write_u32], src/layer1/runtime/src/random/sip.rs:138-140. *)
Definition write_u32 (self : Sip) (v : Z) : Sip := short_write self 4 v.
(** [Sip::write_u64], src/layer1/runtime/src/random/sip.rs:142-144. *)
Definition write_u64 (self : Sip) (v : Z) : Sip := short_write self 8 v.
(** [Sip::write_usize], src/layer1/runtime/src/random/sip.rs:146-148. *)
Definition write_usize (self : Sip) (v : Z) : Sip := short_write self 8 v.
End params.
End Sip.

(** Test vector of the SipHash-2-4 paper: key [00 .. 0f], message [00 .. 0e]. *)
Example siphash24_vector :
  Sip.hash 2 4 (Sip.new 0x0706050403020100 0x0f0e0d0c0b0a0908) (seqZ 0 15)
  = 0xa129ca6149be45e5.
Proof. vm_compute. reflexivity. Qed.

(** ** The keyed root *)

Module Key.
Import Sip.

(** [Key], src/layer1/runtime/src/random/mod.rs:236-236. Two secret key words. *)
Record Key := key { word0 : Z; word1 : Z }.

(** [Domain], src/layer1/runtime/src/random/mod.rs:333-336. One owned namespace (eight bytes) and one exact instance of it. *)
Record Domain := domain { namespace : bytes; instance : Z }.

(** [Namespace::fixed], src/layer1/runtime/src/random/mod.rs:319-321. *)
Definition Namespace_fixed (name : bytes) : Domain := domain name 0.

(** [Word::into_bytes], src/layer1/runtime/src/random/mod.rs:348-350. [Word::into_bytes]: the canonical big-endian encoding. *)
Definition Word_into_bytes (w : Z) : bytes := to_be 8 w.

(** [Key::prefix], src/layer1/runtime/src/random/mod.rs:301-306. *)
Definition prefix (k : Key) (d : Domain) : Sip :=
  let state := new (word0 k) (word1 k) in
  let state := write 2 state (namespace d) in
  write_u64 2 state (instance d).

(** [Key::lane], src/layer1/runtime/src/random/mod.rs:294-299. *)
Definition lane (k : Key) (LANE kind : Z) : Sip :=
  let state := new (word0 k) (word1 k) in
  let state := write_u64 2 state LANE in
  write_u8 2 state kind.

(** [Key::from_hasher], src/layer1/runtime/src/random/mod.rs:253-259. *)
Definition from_hasher (state : Sip) : Key :=
  let w i := finish 2 4 (write_u64 2 state i) in key (w 0) (w 1).

(** [Key::derive], src/layer1/runtime/src/random/mod.rs:247-251. [feed] is the [hash::Hash] implementation of the instance type. *)
Definition derive (k : Key) (d : Domain) (feed : Sip -> Sip) : Key :=
  from_hasher (feed (prefix k d)).

(** [Key::hash], src/layer1/runtime/src/random/mod.rs:271-275. [feed] is the [hash::Hash] implementation of the input type. *)
Definition hash (k : Key) (LANE : Z) (feed : Sip -> Sip) : Z :=
  finish 2 4 (feed (lane k LANE 0)).

(** [Key::hash_seed], src/layer1/runtime/src/random/mod.rs:265-269. *)
Definition hash_seed (k : Key) (LANE : Z) : Key := from_hasher (lane k LANE 2).

(** [Key::permute], src/layer1/runtime/src/random/mod.rs:277-292. One turn of [permute]'s loop: the halves are swapped and mixed. *)
Definition permute_round (state : Sip) (round : Z) (lr : Z * Z) : Z * Z :=
  let '(l, r) := lr in
  let input := Z.lor (Z.shiftl round 32) r in
  let next := Z.lxor l (wrap 32 (finish 2 4 (write_u64 2 state input))) in
  (r, next).

(** [Key::permute], src/layer1/runtime/src/random/mod.rs:277-292. *)
Definition permute (k : Key) (LANE value : Z) : Z :=
  let state := lane k LANE 1 in
  let lr := (wrap 32 (Z.shiftr value 32), wrap 32 value) in
  let '(l, r) := fold_left (fun lr i => permute_round state i lr) [0; 1; 2; 3] lr in
  Z.lor (Z.shiftl l 32) r.

(** [Root::word], src/layer1/runtime/src/random/mod.rs:190-192. [Entropy::word] on a [u64] input. *)
Definition word (k : Key) (LANE input : Z) : Z :=
  hash k LANE (fun s => write_u64 2 s input).
End Key.

(** ** Little-endian arithmetic *)

Lemma lor_shiftl a b k :
  0 <= k -> 0 <= a < 2 ^ k -> Z.lor a (Z.shiftl b k) = a + b * 2 ^ k.
Proof.
  intros Hk Ha. rewrite <- Z.add_lor_land, Z.shiftl_mul_pow2 by done.
  enough (Z.land a (b * 2 ^ k) = 0) by lia.
  rewrite <- Z.shiftl_mul_pow2 by done. apply Z.bits_inj'. intros n Hn.
  rewrite Z.land_spec, Z.bits_0, Z.shiftl_spec by done.
  destruct (decide (n < k)).
  - by rewrite (Z.testbit_neg_r b), andb_false_r by lia.
  - destruct (decide (a = 0)) as [->|]; [by rewrite Z.testbit_0_l|].
    rewrite Z.bits_above_log2; [done| lia |].
    apply Z.log2_lt_pow2; [lia|]. assert (2 ^ k <= 2 ^ n) by (apply Z.pow_le_mono_r; lia). lia.
Qed.

Definition p256 (n : nat) : Z := 256 ^ Z.of_nat n.

Lemma p256_S n : p256 (S n) = 256 * p256 n.
Proof. unfold p256. rewrite Nat2Z.inj_succ, Z.pow_succ_r; lia. Qed.
Lemma p256_pos n : 0 < p256 n.
Proof. unfold p256. apply Z.pow_pos_nonneg; lia. Qed.
Lemma p256_pow2 n : p256 n = 2 ^ (8 * Z.of_nat n).
Proof. unfold p256. by rewrite Z.pow_mul_r by lia. Qed.
Lemma p256_add m n : p256 (m + n) = p256 m * p256 n.
Proof. unfold p256. rewrite Nat2Z.inj_add, Z.pow_add_r; lia. Qed.

Lemma of_le_range l : Forall is_byte l -> 0 <= of_le l < p256 (length l).
Proof.
  induction 1 as [|b l Hb Hl IH]; [unfold p256; simpl; lia|].
  cbn [of_le length]. rewrite p256_S. unfold is_byte in Hb. lia.
Qed.

Lemma of_le_app l k : of_le (l ++ k) = of_le l + p256 (length l) * of_le k.
Proof.
  induction l as [|b l IH]; [unfold p256; simpl; lia|].
  cbn [app of_le length]. rewrite IH, p256_S. lia.
Qed.

Fixpoint to_le (n : nat) (v : Z) : bytes :=
  match n with O => [] | S n => v mod 256 :: to_le n (v / 256) end.

Lemma to_le_length n v : length (to_le n v) = n.
Proof. revert v; induction n; intros; simpl; auto. Qed.

Lemma to_le_bytes n v : Forall is_byte (to_le n v).
Proof.
  revert v; induction n; intros; simpl; constructor; [|done].
  apply Z.mod_pos_bound; lia.
Qed.

Lemma of_le_take_to_le n v k :
  (k <= n)%nat -> of_le (take k (to_le n v)) = v mod p256 k.
Proof.
  revert v k; induction n as [|n IH]; intros v [|k] Hk; try lia.
  - simpl. by rewrite Z.mod_1_r.
  - simpl. by rewrite Z.mod_1_r.
  - cbn [to_le take of_le]. rewrite IH by lia. rewrite p256_S.
    pose proof (p256_pos k). rewrite (Z.rem_mul_r v 256) by lia. lia.
Qed.

Lemma of_le_drop_to_le n v k :
  0 <= v < p256 n -> (k <= n)%nat -> of_le (drop k (to_le n v)) = v / p256 k.
Proof.
  revert v k; induction n as [|n IH]; intros v k Hv Hk.
  - replace k with 0%nat by lia. unfold p256 in *. simpl in *.
    rewrite Z.div_1_r; lia.
  - rewrite p256_S in Hv. destruct k as [|k].
    + unfold p256 at 1. simpl drop. rewrite Z.div_1_r. cbn [of_le to_le].
      specialize (IH (v / 256) 0%nat). rewrite drop_0 in IH.
      rewrite IH; [|split; [apply Z.div_pos; lia|apply Z.div_lt_upper_bound; lia]|lia].
      unfold p256. simpl. rewrite Z.div_1_r. pose proof (Z.div_mod v 256). lia.
    + cbn [drop to_le].
      rewrite IH; [|split; [apply Z.div_pos; lia|apply Z.div_lt_upper_bound; lia]|lia].
      rewrite p256_S, Z.div_div; [done|lia|apply p256_pos].
Qed.

(** ** The streaming hasher refines SipHash over the concatenated input *)

Section reference.
Import Sip.
Context (C D : nat).

(** SipHash one byte at a time: a block is compressed as soon as it is full. *)
Definition absorb_byte (p : Words * bytes) (b : Z) : Words * bytes :=
  let pend := p.2 ++ [b] in
  if (List.length pend =? 8)%nat then (compress C p.1 (of_le pend), []) else (p.1, pend).

Definition absorb (m : bytes) (p : Words * bytes) : Words * bytes :=
  fold_left absorb_byte m p.

(** The reference SipHash-C-D of a message: absorb it, compress the last
    block (length modulo 256 in its top byte), then finalize. *)
Definition siphash (k0 k1 : Z) (m : bytes) : Z :=
  let '(s, pend) := absorb m (state (new k0 k1), []) in
  let s := compress C s (len m mod 256 * 2 ^ 56 + of_le pend) in
  let s := rounds (words (v0 s) (v1 s) (Z.lxor (v2 s) 0xff) (v3 s)) D in
  Z.lxor (Z.lxor (Z.lxor (v0 s) (v1 s)) (v2 s)) (v3 s).

Lemma absorb_app a b p : absorb (a ++ b) p = absorb b (absorb a p).
Proof. apply fold_left_app. Qed.

Lemma absorb_short s pend l :
  (List.length pend + List.length l < 8)%nat -> absorb l (s, pend) = (s, pend ++ l).
Proof.
  revert pend; induction l as [|b l IH]; intros pend Hl; [by rewrite app_nil_r|].
  unfold absorb; simpl fold_left. unfold absorb_byte at 2; simpl.
  rewrite length_app; simpl in *.
  replace (List.length pend + 1 =? 8)%nat with false by (symmetry; apply Nat.eqb_neq; lia).
  fold (absorb l (s, pend ++ [b])). rewrite IH by (rewrite length_app; simpl; lia).
  by rewrite <- app_assoc.
Qed.

Lemma absorb_full s pend l :
  l <> [] -> (List.length pend + List.length l = 8)%nat ->
  absorb l (s, pend) = (compress C s (of_le (pend ++ l)), []).
Proof.
  intros Hne Hl. destruct l as [|b l _] using rev_ind; [done|].
  rewrite length_app in Hl; simpl in Hl.
  rewrite absorb_app, absorb_short by lia.
  unfold absorb; simpl fold_left. unfold absorb_byte; simpl.
  rewrite !length_app; simpl.
  replace (_ =? 8)%nat with true by (symmetry; apply Nat.eqb_eq; lia).
  by rewrite app_assoc.
Qed.

Lemma blocks_absorb s l : blocks C s l = absorb l (s, []).
Proof.
  remember (List.length l) as n eqn:Hn. revert s l Hn.
  induction n as [n IH] using lt_wf_ind; intros s l ->.
  destruct (decide (List.length l < 8)%nat) as [Hl|Hl].
  - rewrite absorb_short by (simpl; lia).
    do 8 (destruct l as [|? l]; [done|]). simpl in Hl; lia.
  - do 8 (destruct l as [|? l]; [simpl in Hl; lia|]). clear Hl.
    simpl blocks.
    match goal with |- _ = absorb ?l _ =>
      change l with (take 8 l ++ drop 8 l) end.
    rewrite absorb_app, absorb_full by done. simpl. rewrite drop_0.
    eapply IH; [|done]. simpl; lia.
Qed.

Lemma blocks_rest s l : (List.length (blocks C s l).2 < 8)%nat.
Proof.
  remember (List.length l) as n eqn:Hn. revert s l Hn.
  induction n as [n IH] using lt_wf_ind; intros s l ->.
  do 8 (destruct l as [|? l]; [simpl; lia|]).
  simpl blocks. eapply IH; [|done]. simpl; lia.
Qed.

Lemma blocks_bytes s l : Forall is_byte l -> Forall is_byte (blocks C s l).2.
Proof.
  remember (List.length l) as n eqn:Hn. revert s l Hn.
  induction n as [n IH] using lt_wf_ind; intros s l -> Hl.
  do 8 (destruct l as [|? l]; [done|]).
  simpl blocks. eapply IH; [|done|]; [simpl; lia|].
  by rewrite !Forall_cons_iff in Hl; destruct_and!.
Qed.

Lemma lor_u64_shl w v sh :
  0 <= sh -> 0 <= w < 2 ^ sh -> 0 <= v -> v * 2 ^ sh < 2 ^ 64 ->
  Z.lor w (u64_shl v sh) = w + v * 2 ^ sh.
Proof.
  intros. unfold u64_shl. rewrite Z.shiftl_mul_pow2 by done.
  unfold wrap64. rewrite wrap_small by nia.
  rewrite <- (lor_shiftl w v sh) by done. by rewrite Z.shiftl_mul_pow2.
Qed.

Lemma pack_of_le l : Forall is_byte l -> (List.length l < 8)%nat -> pack l = of_le l.
Proof.
  intros Hl Hlen.
  do 8 (destruct l as [|? l]; [
    rewrite ?Forall_cons_iff in Hl; unfold is_byte in Hl; destruct_and?;
    unfold pack; cbn [of_le];
    repeat match goal with
    | |- context [Z.lor ?w (u64_shl ?v ?k)] =>
        lazymatch w with
        | context [u64_shl] => fail
        | _ => rewrite (lor_u64_shl w v k) by lia
        end
    end; lia |]).
  simpl in Hlen; lia.
Qed.

Lemma absorb_pend m s p s' p' :
  absorb m (s, p) = (s', p') -> (List.length p < 8)%nat ->
  Forall is_byte m -> Forall is_byte p ->
  Z.of_nat (List.length p') = (Z.of_nat (List.length p) + len m) mod 8
  /\ Forall is_byte p'.
Proof.
  revert s p; induction m as [|b m IH]; intros s p Ha Hp Hm Hb.
  - unfold absorb in Ha; simpl in Ha; simplify_eq.
    rewrite len_nil, Z.add_0_r, Z.mod_small by lia. done.
  - apply Forall_cons_iff in Hm as [Hb' Hm]. unfold absorb in Ha; simpl in Ha.
    unfold absorb_byte at 2 in Ha; simpl in Ha.
    assert (Forall is_byte (p ++ [b])) by (apply Forall_app_2; [done|by constructor]).
    rewrite length_app in Ha; simpl in Ha. rewrite len_cons.
    destruct (Nat.eqb_spec (List.length p + 1) 8) as [Heq|Hne].
    + apply IH in Ha as [-> ?]; [|simpl; lia|done|done]. split; [|done].
      replace (Z.of_nat (List.length p)) with 7 by lia. simpl List.length.
      rewrite (Z.add_assoc 7), <- (Z.add_mod_idemp_l (7 + 1)) by lia. done.
    + apply IH in Ha as [-> ?]; [|rewrite length_app; simpl; lia|done|done].
      split; [|done]. rewrite length_app; simpl. f_equal; lia.
Qed.

(** A hasher holds message [m]: its state and tail are [m]'s absorption. *)
Definition Holds (k0 k1 : Z) (m : bytes) (self : Sip) : Prop :=
  exists pend, absorb m (state (new k0 k1), []) = (state self, pend)
    /\ tail self = of_le pend /\ length self = wrap64 (len m).

Lemma holds_new k0 k1 : Holds k0 k1 [] (new k0 k1).
Proof. by exists []. Qed.

Lemma wrap64_mod n k : (k | 2 ^ 64) -> 0 < k -> wrap64 n mod k = n mod k.
Proof. intros. unfold wrap64, wrap. by apply Z.mod_mod_divide. Qed.

Lemma holds_ntail k0 k1 m self pend :
  Forall is_byte m -> absorb m (state (new k0 k1), []) = (state self, pend) ->
  length self = wrap64 (len m) ->
  Z.land (length self) 7 = Z.of_nat (List.length pend) /\ (List.length pend < 8)%nat
  /\ Forall is_byte pend.
Proof.
  intros Hm Ha Hl. apply absorb_pend in Ha as [Hp ?]; [|simpl; lia|done|done].
  rewrite Hl. change 7 with (Z.ones 3) at 1. rewrite Z.land_ones by lia.
  rewrite wrap64_mod by (try lia; by exists (2 ^ 61)). change (Z.of_nat (List.length (@nil Z))) with 0 in Hp. rewrite Z.add_0_l in Hp.
  split; [by rewrite Hp|]. split; [|done].
  pose proof (Z.mod_pos_bound (len m) 8 ltac:(lia)). lia.
Qed.

Lemma holds_absorb k0 k1 m x self self' pend pend' :
  absorb m (state (new k0 k1), []) = (state self, pend) ->
  length self = wrap64 (len m) ->
  absorb x (state self, pend) = (state self', pend') ->
  tail self' = of_le pend' -> length self' = wrap64 (length self + len x) ->
  Holds k0 k1 (m ++ x) self'.
Proof.
  intros Ha Hl Hx Ht Hl'. exists pend'. rewrite absorb_app, Ha. split; [done|].
  split; [done|]. rewrite Hl', Hl, len_app. unfold wrap64, wrap.
  by rewrite Z.add_mod_idemp_l by lia.
Qed.

(** ** Every write operation appends its bytes to the held message *)

Lemma write_holds k0 k1 m self x :
  Forall is_byte m -> Forall is_byte x ->
  Holds k0 k1 m self -> Holds k0 k1 (m ++ x) (write C self x).
Proof.
  intros Hm Hx (pend & Ha & Ht & Hl).
  destruct (holds_ntail _ _ _ _ _ Hm Ha Hl) as (Hn & Hp & Hb).
  assert (Hfull : forall s l, Forall is_byte l ->
    let '(s', rest) := blocks C s l in
    absorb l (s, []) = (s', rest) /\ pack rest = of_le rest).
  { intros s l Hlb. rewrite <- blocks_absorb. pose proof (blocks_rest s l).
    pose proof (blocks_bytes s l Hlb). destruct (blocks C s l); simpl in *.
    split; [done|]. by apply pack_of_le. }
  unfold write. rewrite Hn, Nat2Z.id.
  destruct (Nat.eqb_spec (List.length pend) 0) as [Hz|Hz].
  { destruct pend; [|done]. specialize (Hfull (state self) x Hx).
    destruct (blocks C (state self) x) as [s' rest]. destruct Hfull.
    by eapply holds_absorb. }
  set (n := Nat.min (List.length x) (8 - List.length pend)).
  rewrite pack_of_le; [|by apply Forall_take|rewrite length_take; lia].
  pose proof (of_le_range pend Hb). pose proof (of_le_range (take n x) ltac:(by apply Forall_take)).
  assert (Htail : Z.lor (tail self) (u64_shl (of_le (take n x)) (8 * Z.of_nat (List.length pend)))
                  = of_le (pend ++ take n x)).
  { rewrite Ht, lor_u64_shl, of_le_app, p256_pow2; [lia|lia|by rewrite <- p256_pow2|lia|].
    rewrite <- p256_pow2. change (2 ^ 64) with (p256 8).
    apply Z.lt_le_trans with (p256 (List.length (take n x)) * p256 (List.length pend)).
    - apply Z.mul_lt_mono_pos_r; [apply p256_pos|lia].
    - rewrite <- p256_add. unfold p256. apply Z.pow_le_mono_r; [lia|].
      rewrite length_take. lia. }
  rewrite Htail.
  destruct (Nat.ltb_spec (List.length pend + n) 8).
  - assert (n = List.length x) as Hnx by lia. rewrite Hnx, firstn_all.
    eapply holds_absorb; [done|done|apply absorb_short; lia|done|done].
  - specialize (Hfull (compress C (state self) (of_le (pend ++ take n x))) (drop n x)
      ltac:(by apply Forall_drop)).
    destruct (blocks C _ (drop n x)) as [s' rest]. destruct Hfull as [Hf ?].
    eapply holds_absorb; [done|done| |done|done].
    rewrite <- (take_drop n x) at 1. rewrite absorb_app, absorb_full; [done| |].
    + intros Hnil%(f_equal List.length). rewrite length_take in Hnil; simpl in Hnil. lia.
    + rewrite length_take. lia.
Qed.

Lemma short_write_holds k0 k1 m self n v :
  Forall is_byte m -> (n <= 8)%nat -> 0 <= v < p256 n ->
  Holds k0 k1 m self -> Holds k0 k1 (m ++ to_le n v) (short_write C self (Z.of_nat n) v).
Proof.
  intros Hm Hn8 Hv (pend & Ha & Ht & Hl).
  destruct (holds_ntail _ _ _ _ _ Hm Ha Hl) as (Hn & Hp & Hb).
  pose proof (of_le_range pend Hb) as Hr. set (t := List.length pend) in *.
  assert (Hlen : wrap64 (length self + Z.of_nat n) = wrap64 (length self + len (to_le n v)))
    by (unfold len; by rewrite to_le_length).
  unfold short_write. rewrite Hn. cbn zeta.
  set (k := Nat.min n (8 - t)).
  (* the bits that fit above the pending bytes are the first [k] bytes of [v] *)
  assert (Htail : Z.lor (tail self) (u64_shl v (8 * Z.of_nat t))
                  = of_le (pend ++ take k (to_le n v))).
  { rewrite of_le_app, of_le_take_to_le by lia. fold t.
    assert (u64_shl v (8 * Z.of_nat t) = Z.shiftl (v mod p256 k) (8 * Z.of_nat t)) as ->.
    { unfold u64_shl, wrap64, wrap. rewrite !Z.shiftl_mul_pow2, <- p256_pow2 by lia.
      change (2 ^ 64) with (p256 8). replace 8%nat with ((8 - t) + t)%nat by lia.
      rewrite p256_add, Z.mul_mod_distr_r by (pose proof (p256_pos (8 - t)); pose proof (p256_pos t); lia).
      f_equal. unfold k. destruct (Nat.min_spec n (8 - t)) as [[Hlt ->]|[_ ->]]; [|done].
      rewrite !Z.mod_small; [done|done|].
      split; [lia|]. apply Z.lt_le_trans with (p256 n); [lia|].
      unfold p256. apply Z.pow_le_mono_r; lia. }
    rewrite Ht, lor_shiftl by (rewrite <- ?p256_pow2; lia).
    rewrite <- p256_pow2. lia. }
  rewrite Htail.
  destruct (Z.leb_spec (8 - Z.of_nat t) (Z.of_nat n)) as [Hfull|Hpart].
  - replace k with (8 - t)%nat by lia.
    assert (Hrest : (if 8 - Z.of_nat t <? 8 then Z.shiftr v (8 * (8 - Z.of_nat t)) else 0)
                    = of_le (drop (8 - t) (to_le n v))).
    { rewrite of_le_drop_to_le by lia.
      replace (8 - Z.of_nat t) with (Z.of_nat (8 - t)) by lia.
      rewrite Z.shiftr_div_pow2, <- p256_pow2 by lia.
      destruct (Z.ltb_spec (Z.of_nat (8 - t)) 8) as [|He]; [done|].
      symmetry. apply Z.div_small. split; [lia|].
      apply Z.lt_le_trans with (p256 n); [lia|].
      unfold p256. apply Z.pow_le_mono_r; lia. }
    rewrite Hrest. eapply holds_absorb; [done|done| |done|done].
    rewrite <- (take_drop (8 - t) (to_le n v)) at 1. rewrite absorb_app, absorb_full.
    + apply absorb_short. rewrite length_drop, to_le_length. simpl. lia.
    + intros Hnil%(f_equal List.length). rewrite length_take, to_le_length in Hnil; simpl in Hnil. lia.
    + rewrite length_take, to_le_length. fold t. lia.
  - replace k with n by lia. rewrite take_ge by (rewrite to_le_length; lia).
    eapply holds_absorb; [done|done|apply absorb_short|done|done].
    rewrite to_le_length. fold t. lia.
Qed.

Lemma finish_holds k0 k1 m self :
  Forall is_byte m -> Holds k0 k1 m self -> finish C D self = siphash k0 k1 m.
Proof.
  intros Hm (pend & Ha & Ht & Hl).
  destruct (holds_ntail _ _ _ _ _ Hm Ha Hl) as (_ & Hp & Hb).
  pose proof (of_le_range pend Hb) as Hr.
  unfold siphash. rewrite Ha. unfold finish. rewrite Ht, Hl. cbn zeta.
  assert (Hend : Z.lor (Z.shiftl (Z.land (wrap64 (len m)) 0xff) 56) (of_le pend)
                 = len m mod 256 * 2 ^ 56 + of_le pend).
  { change 0xff with (Z.ones 8). rewrite Z.land_ones by lia.
    rewrite wrap64_mod by (try lia; by exists (2 ^ 56)).
    rewrite Z.lor_comm, lor_shiftl; [change (2 ^ 8) with 256; lia|lia|].
    split; [lia|]. apply Z.lt_le_trans with (p256 (List.length pend)); [lia|].
    change (2 ^ 56) with (p256 7). unfold p256. apply Z.pow_le_mono_r; lia. }
  by rewrite Hend.
Qed.

(** ** Streams of hasher calls *)

(** The [Hasher] calls a value's [Hash] implementation makes. *)
Inductive call := CBytes (l : bytes) | CU8 (v : Z) | CU16 (v : Z) | CU32 (v : Z) | CU64 (v : Z).

Definition feed (self : Sip) (c : call) : Sip :=
  match c with
  | CBytes l => write C self l
  | CU8 v => write_u8 C self v
  | CU16 v => write_u16 C self v
  | CU32 v => write_u32 C self v
  | CU64 v => write_u64 C self v
  end.

Definition call_bytes (c : call) : bytes :=
  match c with
  | CBytes l => l
  | CU8 v => to_le 1 v
  | CU16 v => to_le 2 v
  | CU32 v => to_le 4 v
  | CU64 v => to_le 8 v
  end.

Definition call_ok (c : call) : Prop :=
  match c with
  | CBytes l => Forall is_byte l
  | CU8 v => 0 <= v < p256 1
  | CU16 v => 0 <= v < p256 2
  | CU32 v => 0 <= v < p256 4
  | CU64 v => 0 <= v < p256 8
  end.

Lemma feed_holds k0 k1 cs : forall m self,
  Forall is_byte m -> Forall call_ok cs -> Holds k0 k1 m self ->
  Forall is_byte (m ++ concat (map call_bytes cs))
  /\ Holds k0 k1 (m ++ concat (map call_bytes cs)) (fold_left feed cs self).
Proof.
  induction cs as [|c cs IH]; intros m self Hm Hcs Hh; simpl; [by rewrite app_nil_r|].
  apply Forall_cons_iff in Hcs as [Hc Hcs]. rewrite app_assoc.
  apply IH; [|done|].
  - apply Forall_app_2; [done|].
    destruct c; [done|apply to_le_bytes..].
  - destruct c as [l|v|v|v|v]; simpl in Hc; [by apply write_holds| | | |].
    + apply (short_write_holds _ _ _ _ 1 v); done || lia.
    + apply (short_write_holds _ _ _ _ 2 v); done || lia.
    + apply (short_write_holds _ _ _ _ 4 v); done || lia.
    + apply (short_write_holds _ _ _ _ 8 v); done || lia.
Qed.
End reference.

(** C39. The streaming hasher computes SipHash of everything it was fed. For any
    sequence of [write], [write_u8], [write_u16], [write_u32] and [write_u64]
    calls, split across block boundaries in any way, [finish] returns the
    reference SipHash-C-D of the concatenated little-endian bytes. *)
Theorem sip_stream_refines_siphash C D k0 k1 cs :
  Forall call_ok cs ->
  Sip.finish C D (fold_left (feed C) cs (Sip.new k0 k1))
  = siphash C D k0 k1 (concat (map call_bytes cs)).
Proof.
  intros Hcs. destruct (feed_holds C k0 k1 cs [] (Sip.new k0 k1)) as [? ?];
    [constructor|done|apply holds_new|]. by apply finish_holds.
Qed.

Lemma sip_stream_refines_siphash_witness :
  Forall call_ok [CBytes [1; 2; 3]; CU64 0xdeadbeef; CU8 7]
  /\ Sip.finish 2 4 (fold_left (feed 2) [CBytes [1; 2; 3]; CU64 0xdeadbeef; CU8 7] (Sip.new 1 2))
     = siphash 2 4 1 2 (concat (map call_bytes [CBytes [1; 2; 3]; CU64 0xdeadbeef; CU8 7])).
Proof.
  assert (H : Forall call_ok [CBytes [1; 2; 3]; CU64 0xdeadbeef; CU8 7]).
  { repeat (apply Forall_cons_2; [simpl; unfold p256; try (split; lia)|]); [|constructor].
    repeat constructor; lia. }
  split; [exact H|]. exact (sip_stream_refines_siphash 2 4 1 2 _ H).
Defined.

(** ** The keyed permutation *)

Section permutation.
Import Sip Key.

(** One Feistel turn, run backwards. *)
Definition unpermute_round (state : Sip) (round : Z) (lr : Z * Z) : Z * Z :=
  let '(l, r) := lr in
  let input := Z.lor (Z.shiftl round 32) l in
  (Z.lxor r (wrap 32 (finish 2 4 (write_u64 2 state input))), l).

(** The inverse of [Key.permute]: the turns backwards, in reverse order. *)
Definition unpermute (k : Key) (LANE w : Z) : Z :=
  let state := lane k LANE 1 in
  let lr := (Z.shiftr w 32, wrap 32 w) in
  let '(l, r) := fold_left (fun lr i => unpermute_round state i lr) [3; 2; 1; 0] lr in
  Z.lor (Z.shiftl l 32) r.

Definition u32_pair (lr : Z * Z) : Prop := 0 <= lr.1 < 2 ^ 32 /\ 0 <= lr.2 < 2 ^ 32.

Lemma lxor_range a b k : 0 <= k -> 0 <= a < 2 ^ k -> 0 <= b < 2 ^ k -> 0 <= Z.lxor a b < 2 ^ k.
Proof.
  intros Hk [Ha Ha'] [Hb Hb']. assert (0 <= Z.lxor a b) by (apply Z.lxor_nonneg; lia).
  split; [done|]. destruct (decide (Z.lxor a b = 0)) as [->|]; [lia|].
  apply Z.log2_lt_pow2; [lia|]. apply Z.le_lt_trans with (Z.max (Z.log2 a) (Z.log2 b)).
  - by apply Z.log2_lxor.
  - destruct (decide (0 < k)) as [Hpos|].
    + apply Z.max_lub_lt.
      * destruct (decide (a = 0)) as [->|]; [simpl; lia|]. apply Z.log2_lt_pow2; lia.
      * destruct (decide (b = 0)) as [->|]; [simpl; lia|]. apply Z.log2_lt_pow2; lia.
    + replace k with 0 in * by lia. assert (a = 0) as -> by lia. assert (b = 0) as -> by lia. done.
Qed.

Lemma permute_round_pair st i lr : u32_pair lr -> u32_pair (permute_round st i lr).
Proof.
  destruct lr as [l r]. intros [Hl Hr]; simpl in *. split; [done|]; simpl.
  apply lxor_range; [lia|done|]. by apply wrap_range.
Qed.

Lemma unpermute_round_inverse st i lr : unpermute_round st i (permute_round st i lr) = lr.
Proof.
  destruct lr as [l r]; simpl. f_equal.
  by rewrite Z.lxor_assoc, Z.lxor_nilpotent, Z.lxor_0_r.
Qed.

Lemma join_halves l r :
  u32_pair (l, r) ->
  Z.shiftr (Z.lor (Z.shiftl l 32) r) 32 = l /\ wrap 32 (Z.lor (Z.shiftl l 32) r) = r
  /\ 0 <= Z.lor (Z.shiftl l 32) r < 2 ^ 64.
Proof.
  intros [Hl Hr]; simpl in *. rewrite Z.lor_comm, lor_shiftl by lia.
  split; [|split; [|lia]].
  - rewrite Z.shiftr_div_pow2 by lia. rewrite Z.div_add by lia. rewrite Z.div_small; lia.
  - unfold wrap. rewrite Z.mod_add by lia. by apply Z.mod_small.
Qed.

Lemma split_halves v :
  0 <= v < 2 ^ 64 ->
  u32_pair (wrap 32 (Z.shiftr v 32), wrap 32 v)
  /\ Z.lor (Z.shiftl (wrap 32 (Z.shiftr v 32)) 32) (wrap 32 v) = v.
Proof.
  intros Hv. assert (Hw : u32_pair (wrap 32 (Z.shiftr v 32), wrap 32 v))
    by (split; simpl; by apply wrap_range).
  split; [done|]. destruct Hw as [Hl Hr]; simpl in *.
  rewrite Z.lor_comm, lor_shiftl by lia.
  rewrite Z.shiftr_div_pow2 in * by lia. unfold wrap in *.
  rewrite (Z.mod_small (v / 2 ^ 32)).
  - pose proof (Z.div_mod v (2 ^ 32)). lia.
  - split; [apply Z.div_pos; lia|]. apply Z.div_lt_upper_bound; lia.
Qed.

Lemma unpermute_permute k LANE v :
  0 <= v < 2 ^ 64 -> unpermute k LANE (permute k LANE v) = v.
Proof.
  intros Hv. apply split_halves in Hv as [Hp Hv].
  unfold unpermute, permute. set (st := lane k LANE 1). cbn [fold_left].
  set (p0 := (wrap 32 (Z.shiftr v 32), wrap 32 v)) in *.
  set (p4 := permute_round st 3 (permute_round st 2 (permute_round st 1 (permute_round st 0 p0)))).
  assert (Hp4 : u32_pair p4) by (by repeat apply permute_round_pair).
  assert (Hback : unpermute_round st 0 (unpermute_round st 1
            (unpermute_round st 2 (unpermute_round st 3 p4))) = p0)
    by (unfold p4; by rewrite !unpermute_round_inverse).
  destruct p4 as [l r]. destruct (join_halves l r Hp4) as (-> & -> & _).
  rewrite Hback. done.
Qed.

Lemma permute_range k LANE v :
  0 <= v < 2 ^ 64 -> 0 <= permute k LANE v < 2 ^ 64.
Proof.
  intros [Hp _]%split_halves. unfold permute. cbn [fold_left].
  match goal with |- context [permute_round ?st 3 ?x] =>
    assert (Hq : u32_pair (permute_round st 3 x)) by (by repeat apply permute_round_pair);
    destruct (permute_round st 3 x) as [l r] end.
  by apply join_halves.
Qed.
End permutation.

(** The keyed permutation loses nothing. For every key and lane, [permute]
    maps [u64] into [u64] injectively, whatever the hash rounds compute, so
    distinct identity inputs always give distinct public words. *)
Theorem permute_injective k LANE a b :
  0 <= a < 2 ^ 64 -> 0 <= b < 2 ^ 64 ->
  0 <= Key.permute k LANE a < 2 ^ 64
  /\ (Key.permute k LANE a = Key.permute k LANE b -> a = b).
Proof.
  intros Ha Hb. split; [by apply permute_range|]. intros Heq%(f_equal (unpermute k LANE)).
  by rewrite !unpermute_permute in Heq.
Qed.

Lemma permute_injective_witness :
  0 <= 5 < 2 ^ 64 /\ 0 <= 6 < 2 ^ 64
  /\ (0 <= Key.permute (Key.key 1 2) 3 5 < 2 ^ 64
      /\ (Key.permute (Key.key 1 2) 3 5 = Key.permute (Key.key 1 2) 3 6 -> 5 = 6)).
Proof.
  split; [lia|]. split; [lia|]. apply (permute_injective (Key.key 1 2) 3 5 6); lia.
Defined.
