(* ===== verification/Time.v ===== *)
(** * Monotonic and civil time.

    [Instant] and [Duration] of the standard library on 64-bit Unix, then
    [Clock], the driver-branded moments and deadlines of
    [src/layer0/core/src/driver/schedule/clock], [Civil], the anchored civil
    clock of [src/layer1/runtime/src/civil.rs], and [Interval], the cadence of
    [src/layer1/manifold/src/timing/interval]. The lifetime brands are checked
    by the Rust compiler and carry no data; a moment is its instant. *)

From S2P Require Import Prelude Depot.

(** ** The standard library's clock types *)

(** An [Instant] is a count of nanoseconds: 64-bit signed seconds and a
    sub-second part. [checked_add] and [checked_sub] fail outside the range. *)
Definition NANOS : Z := 1000000000.
Definition INSTANT_MAX : Z := (2 ^ 63 - 1) * NANOS + (NANOS - 1).
Definition INSTANT_MIN : Z := - 2 ^ 63 * NANOS.
Definition is_instant (t : Z) : Prop := INSTANT_MIN <= t <= INSTANT_MAX.

(** A [Duration] is nanoseconds too: 64-bit unsigned seconds and sub-seconds. *)
Definition DURATION_MAX : Z := (2 ^ 64 - 1) * NANOS + (NANOS - 1).
Definition is_duration (d : Z) : Prop := 0 <= d <= DURATION_MAX.
Definition from_secs (s : Z) : Z := s * NANOS.
Definition as_secs (d : Z) : Z := d / NANOS.

Definition checked_add (t d : Z) : option Z :=
  if t + d <=? INSTANT_MAX then Some (t + d) else None.
Definition checked_sub (t d : Z) : option Z :=
  if INSTANT_MIN <=? t - d then Some (t - d) else None.
(** [duration_since] saturates to zero, [checked_duration_since] does not. *)
Definition duration_since (t earlier : Z) : Z := Z.max 0 (t - earlier).
Definition checked_duration_since (t earlier : Z) : option Z :=
  if earlier <=? t then Some (t - earlier) else None.
Definition duration_saturating_sub (a b : Z) : Z := Z.max 0 (a - b).
Definition duration_saturating_add (a b : Z) : Z := Z.min DURATION_MAX (a + b).
Definition duration_saturating_mul (a k : Z) : Z := Z.min DURATION_MAX (a * k).

Module Clock.
(** [Range], src/layer0/core/src/driver/schedule/clock/range.rs:8-11. A
    deadline beyond the platform's range. *)
Record Range := range { origin : Z; duration : Z }.

(** [Point::try_add], src/layer0/core/src/driver/schedule/clock/mod.rs:121-129. *)
Definition try_add (at_ duration : Z) : run Range Z :=
  match checked_add at_ duration with
  | Some at_ => Ok at_
  | None => Err (range at_ duration)
  end.

Section furthest.
Context `{Average}.

(** [Range::furthest], src/layer0/core/src/driver/schedule/clock/range.rs:27-46,
    one turn of its loop over [(lower, upper, at)]. *)
Definition furthest_step (origin : Z) (s : Z * Z * Z) : Z * Z * Z + Z :=
  let '(lower, upper, at_) := s in
  if lower <? upper then
    let middle := average lower upper in
    let next := if middle =? lower then upper else middle in
    match checked_add origin next with
    | Some value => inl (next, upper, value)
    | None => inl (lower, duration_saturating_sub next 1, at_)
    end
  else inr at_.

(** [Range::furthest], src/layer0/core/src/driver/schedule/clock/range.rs:27-46.
    Fuel [2^96] exceeds every duration, whatever the average converges by. *)
Definition furthest (r : Range) : Z :=
  match iterate (furthest_step (origin r)) 96 (0, duration r, origin r) with
  | inr at_ => at_
  | inl (_, _, at_) => at_
  end.

(** [Point::clamp_add], src/layer0/core/src/driver/schedule/clock/mod.rs:131-136. *)
Definition clamp_add (at_ duration : Z) : Z :=
  match try_add at_ duration with
  | Ok point => point
  | Err exceeded => furthest exceeded
  | Stuck _ => at_
  end.
End furthest.

(** [Moment::since], src/layer0/core/src/driver/schedule/clock/mod.rs:263-265. *)
Definition since (t earlier : Z) : Z := duration_since t earlier.
(** [Moment::clamp_since], src/layer0/core/src/driver/schedule/clock/mod.rs:267-269. *)
Definition clamp_since (t earlier : Z) : Z := duration_since t earlier.
(** [Moment::try_since], src/layer0/core/src/driver/schedule/clock/mod.rs:271-273. *)
Definition try_since (t earlier : Z) : option Z := checked_duration_since t earlier.
(** [Moment::past_due], src/layer0/core/src/driver/schedule/clock/mod.rs:275-277. *)
Definition past_due (t earlier : Z) : Z := duration_since t earlier.
(** [Deadline::checked_sub], src/layer0/core/src/driver/schedule/clock/mod.rs:298-303. *)
Definition deadline_checked_sub (t d : Z) : option Z := checked_sub t d.
(** [Deadline::is_due], src/layer0/core/src/driver/schedule/clock/mod.rs:305-307. *)
Definition is_due (deadline now : Z) : bool := deadline <=? now.
(** [Deadline::try_left], src/layer0/core/src/driver/schedule/clock/mod.rs:309-311. *)
Definition try_left (deadline now : Z) : option Z := checked_duration_since deadline now.
End Clock.

Module Civil.
Section civil.
Context `{UnixTime}.

(** [Error], src/layer1/runtime/src/civil.rs:9-15. *)
Inductive Error :=
  | BeforeUnixEpoch (delta : Z)
  | NanosecondsOverflow (duration : Z)
  | Add (source : time_Add)
  | Sub (source : time_Sub)
  | MonotonicRegression (origin observed : Z).

(** [Anchor], src/layer1/runtime/src/civil.rs:86-89. *)
Record Anchor := anchor_at { epoch : Z; origin : Z }.

(** [Source::anchor], src/layer1/runtime/src/civil.rs:44-54. [sample] is the
    civil reading with the monotonic instant that precedes it. *)
Definition anchor (sample : run Error (Z * Z)) (witness : Z) : run Error Anchor :=
  let! (epoch, observed) := sample in
  let origin := witness in
  let! elapsed := ok_or (checked_duration_since observed origin)
                    (MonotonicRegression origin observed) in
  let! epoch := map_err Sub (unix_try_sub epoch elapsed) in
  Ok (anchor_at epoch witness).

(** [Anchor::observe], src/layer1/runtime/src/civil.rs:92-100. *)
Definition observe (a : Anchor) (witness : Z) : run Error Z :=
  let! elapsed := ok_or (Clock.try_since witness (origin a))
                    (MonotonicRegression (origin a) witness) in
  map_err Add (unix_try_add (epoch a) elapsed).

(** [System::read], src/layer1/runtime/src/civil.rs:68-81. [now] is
    [SystemTime::now] in nanoseconds since the epoch, negative before it. *)
Definition system_read (now : Z) : run Error Z :=
  if now <? 0 then Err (BeforeUnixEpoch (- now))
  else if now <? 2 ^ 64 then Ok now
  else Err (NanosecondsOverflow now).
End civil.
End Civil.

(** One alarm as its holder sees it: the state of its slot in the timer store. *)
Module Alarm.
(** [State], src/layer0/core/src/driver/schedule/clock/timer/heap/tokens/state.rs:3-7,
    with the deadline of an armed slot. *)
Inductive State := Idle | Armed (due : Z) | Fired.

(** [Timer::has_alarm], src/layer0/core/src/driver/schedule/clock/timer/mod.rs:113-115. *)
Definition is_armed (s : State) : bool := match s with Idle => false | _ => true end.

(** [Timer::arm], src/layer0/core/src/driver/schedule/clock/timer/mod.rs:117-119. *)
Definition arm (s : State) (due : Z) : State := Armed due.

(** [Timer::arm_and_poll], src/layer0/core/src/driver/schedule/clock/timer/mod.rs:121-137.
    The boolean is [Poll::Ready]. *)
Definition arm_and_poll (s : State) (due now : Z) : bool * State :=
  if due <=? now then (true, Idle) else (false, Armed due).

(** [Timer::poll], src/layer0/core/src/driver/schedule/clock/timer/mod.rs:139-159. *)
Definition poll (s : State) (now : Z) : bool * State :=
  match s with
  | Fired => (true, Idle)
  | Armed due => if due <=? now then (true, Idle) else (false, Armed due)
  | Idle => (false, Idle)
  end.

(** [Timer::clear], src/layer0/core/src/driver/schedule/clock/timer/mod.rs:161-163. *)
Definition clear (s : State) : State := Idle.
End Alarm.

Module Interval.
(** [PERIOD], src/layer1/manifold/src/timing/interval/mod.rs:18-18. *)
Definition PERIOD : Z := from_secs 1.

Section interval.
Context `{Average}.

(** [Interval::next], src/layer1/manifold/src/timing/interval/mod.rs:92-101. *)
Definition next (previous now : Z) : option Z :=
  let next := Clock.clamp_add previous PERIOD in
  if now <? next then Some next
  else
    let skipped := Z.min (2 ^ 64 - 1) (as_secs (Clock.past_due now next) + 1) in
    let next := Clock.clamp_add next (from_secs skipped) in
    if now <? next then Some next else None.

(** [Cadence], src/layer1/manifold/src/timing/interval/mod.rs:51-55. *)
Inductive Cadence := Starting | Next (deadline : Z) | Stopped.
(** [Tick], src/layer1/manifold/src/timing/interval/mod.rs:58-61. *)
Inductive Tick := Empty | Ready.

(** [Interval], src/layer1/manifold/src/timing/interval/mod.rs:43-48. The
    timer route is its alarm. *)
Record Interval := interval { route : Alarm.State; cadence : Cadence; tick : Tick }.

(** [Interval::every_second], src/layer1/manifold/src/timing/interval/mod.rs:84-90. *)
Definition every_second : Interval := interval Alarm.Idle Starting Empty.

(** [Control::take_tick], src/layer1/manifold/src/timing/interval/mod.rs:77-80. *)
Definition take_tick (self : Interval) : Tick * Interval :=
  (tick self, interval (route self) (cadence self) Empty).

(** [Interval::pre_park], src/layer1/manifold/src/timing/interval/raw.rs:39-64. *)
Definition pre_park (self : Interval) (now : Z) : Interval :=
  if Alarm.is_armed (route self) then self
  else
    match cadence self with
    | Next deadline => interval (Alarm.arm (route self) deadline) (cadence self) (tick self)
    | Starting =>
        let deadline := Clock.clamp_add now PERIOD in
        if deadline <=? now then interval (route self) Stopped (tick self)
        else interval (Alarm.arm (route self) deadline) (Next deadline) (tick self)
    | Stopped => self
    end.

(** [Interval::shutdown], src/layer1/manifold/src/timing/interval/raw.rs:66-76. *)
Definition shutdown (self : Interval) : Interval :=
  interval (Alarm.clear (route self)) Stopped Empty.

(** [Interval::activate], src/layer1/manifold/src/timing/interval/raw.rs:103-118. *)
Definition activate (self : Interval) (now : Z) : Interval :=
  match cadence self with
  | Next previous =>
      let '(ready, route) := Alarm.poll (route self) now in
      if ready then
        interval route
          (match next previous now with Some d => Next d | None => Stopped end) Ready
      else interval route (cadence self) (tick self)
  | _ => self
  end.
End interval.
End Interval.

(** ** Clamped deadlines *)

Section clock.
Context `{AverageLaws}.
Import Clock.

(** The bisection keeps the furthest representable offset between its bounds. *)
Definition furthest_inv (o d : Z) (s : Z * Z * Z) : Prop :=
  let '(lower, upper, at_) := s in
  0 <= lower <= upper /\ upper <= d /\ at_ = o + lower /\ at_ <= INSTANT_MAX
  /\ Z.min (o + d) INSTANT_MAX <= o + upper.

Lemma furthest_correct o d :
  is_instant o -> is_duration d ->
  furthest (range o d) = Z.min (o + d) INSTANT_MAX.
Proof.
  intros Ho Hd. unfold is_instant, is_duration in *.
  unfold furthest; simpl origin; simpl duration.
  destruct (iterate_total (furthest_step o) (furthest_inv o d)
              (fun r => r = Z.min (o + d) INSTANT_MAX)
              (fun s => s.1.2 - s.1.1)) with (k := 96%nat) (s := (0, d, o))
    as (r & -> & ->); [| | | |done].
  - intros [[l u] a] (? & _); simpl; lia.
  - intros [[l u] a] (Hl & Hu & Ha & Hmax & Hmin). unfold furthest_step.
    destruct (Z.ltb_spec l u) as [Hlt|]; [|simpl; lia]. cbn zeta.
    pose proof (average_between l u ltac:(lia)) as Hm.
    set (n := if average l u =? l then u else average l u).
    assert (l < n <= u) by (unfold n; destruct (Z.eqb_spec (average l u) l); lia).
    unfold checked_add. destruct (Z.leb_spec (o + n) INSTANT_MAX); simpl.
    + repeat split; lia.
    + unfold duration_saturating_sub. repeat split; lia.
  - simpl. unfold furthest_inv. repeat split; lia.
  - simpl. assert (DURATION_MAX < 2 ^ 96) by (by vm_compute). lia.
Qed.

Lemma clamp_add_min t d :
  is_instant t -> is_duration d -> clamp_add t d = Z.min (t + d) INSTANT_MAX.
Proof.
  intros. unfold clamp_add, try_add, checked_add.
  destruct (Z.leb_spec (t + d) INSTANT_MAX); [lia|].
  rewrite <- furthest_correct by assumption. reflexivity.
Qed.

(** Clamped deadlines. Adding a duration to a moment gives the exact sum
    when the platform can represent it and otherwise the furthest instant it
    can, for every averaging function that stays between its arguments; the
    bisection that finds it always ends. *)
Theorem clamp_add_exact_or_furthest t d :
  is_instant t -> is_duration d ->
  is_instant (clamp_add t d) /\ t <= clamp_add t d
  /\ (t + d <= INSTANT_MAX -> clamp_add t d = t + d)
  /\ (INSTANT_MAX < t + d -> clamp_add t d = INSTANT_MAX).
Proof.
  intros Ht Hd. rewrite clamp_add_min by assumption. unfold is_instant, is_duration in *. lia.
Qed.

(** An interval keeps its phase. The next deadline after a tick lies
    strictly in the future, on the grid of whole periods from the previous
    deadline (up to the platform's last instant), and is the first such
    point; there is none exactly at the last instant. *)
Theorem interval_next_keeps_cadence prev now :
  is_instant prev -> is_instant now ->
  match Interval.next prev now with
  | Some d => now < d /\ exists k, 1 <= k
      /\ d = Z.min (prev + k * Interval.PERIOD) INSTANT_MAX
      /\ (k = 1 \/ prev + (k - 1) * Interval.PERIOD <= now)
  | None => now = INSTANT_MAX
  end.
Proof.
  unfold Interval.next. intros Hp Hn.
  assert (HP : is_duration Interval.PERIOD) by (vm_compute; split; discriminate).
  rewrite (clamp_add_min prev) by assumption. set (n1 := Z.min (prev + Interval.PERIOD) INSTANT_MAX).
  destruct (Z.ltb_spec now n1) as [|Hle].
  { split; [done|]. exists 1. rewrite Z.mul_1_l. auto with lia. }
  unfold past_due, duration_since, as_secs, from_secs.
  unfold is_instant, is_duration, Interval.PERIOD, INSTANT_MIN, INSTANT_MAX, DURATION_MAX,
    from_secs, NANOS in *.
  assert (Hq : 0 <= Z.max 0 (now - n1) / 1000000000 <= 2 ^ 64 - 2).
  { split; [apply Z.div_pos; lia|]. apply Z.lt_succ_r, Z.div_lt_upper_bound; lia. }
  pose proof (Z.div_mod (Z.max 0 (now - n1)) 1000000000 ltac:(lia)) as Hdm.
  pose proof (Z.mod_pos_bound (Z.max 0 (now - n1)) 1000000000 ltac:(lia)) as Hmp.
  set (q := Z.max 0 (now - n1) / 1000000000) in *.
  rewrite Z.min_r by lia.
  rewrite clamp_add_min by (unfold is_instant, is_duration, INSTANT_MIN, INSTANT_MAX, DURATION_MAX, NANOS; lia).
  unfold INSTANT_MAX, NANOS.
  match goal with |- context [now <? ?x] => destruct (Z.ltb_spec now x) end; [|lia].
  split; [done|]. exists (q + 2). lia.
Qed.
End clock.

Section witnesses.
Import Depot.Concrete.

Lemma clamp_add_exact_or_furthest_witness :
  is_instant INSTANT_MAX /\ is_duration 5
  /\ (is_instant (Clock.clamp_add INSTANT_MAX 5) /\ INSTANT_MAX <= Clock.clamp_add INSTANT_MAX 5
      /\ (INSTANT_MAX + 5 <= INSTANT_MAX -> Clock.clamp_add INSTANT_MAX 5 = INSTANT_MAX + 5)
      /\ (INSTANT_MAX < INSTANT_MAX + 5 -> Clock.clamp_add INSTANT_MAX 5 = INSTANT_MAX)).
Proof.
  assert (H1 : is_instant INSTANT_MAX) by (vm_compute; split; discriminate).
  assert (H2 : is_duration 5) by (vm_compute; split; discriminate).
  split; [exact H1|]. split; [exact H2|].
  exact (clamp_add_exact_or_furthest INSTANT_MAX 5 H1 H2).
Defined.

Lemma interval_next_keeps_cadence_witness :
  is_instant 0 /\ is_instant 3500000000 /\ Interval.next 0 3500000000 = Some 4000000000
  /\ match Interval.next 0 3500000000 with
     | Some d => 3500000000 < d /\ exists k, 1 <= k
         /\ d = Z.min (0 + k * Interval.PERIOD) INSTANT_MAX
         /\ (k = 1 \/ 0 + (k - 1) * Interval.PERIOD <= 3500000000)
     | None => 3500000000 = INSTANT_MAX
     end.
Proof.
  assert (H1 : is_instant 0) by (vm_compute; split; discriminate).
  assert (H2 : is_instant 3500000000) by (vm_compute; split; discriminate).
  split; [exact H1|]. split; [exact H2|]. split; [vm_compute; reflexivity|].
  exact (interval_next_keeps_cadence 0 3500000000 H1 H2).
Defined.
End witnesses.
