(* ===== verification/Errors.v ===== *)
(** * The typed failures of the DNS crate.

    The enumerations of [src/layer2/dns/src/lookup/error.rs], with the host,
    family and transport errors they carry, and [Kind::is_terminal], the test
    that decides whether a failed lookup may be retried. *)

From S2P Require Import Prelude Depot Time.

(** Payloads of other crates that the DNS code stores and never inspects. *)
Class Payloads := {
  scope_Error : Type;      (* o3::buffer::write::consume::scope::Error *)
  load_Error : Type;       (* dope_net::link::egress::load::Error *)
  exact_Failure : Type;    (* dope_net::link::egress::reserve::exact::Failure *)
  receive_Failure : Type;  (* dope_manifold::app::receive::Failure *)
  park_Arm : Type;         (* dope_net::link::event::Arm *)
  register_Error : Type;   (* o3 entry::Error<conn::Capacity> *)
  gso_Shape : Type;        (* dope_core::io::datagram::Shape *)
  socket_Create : Type;    (* dope_core::io::socket::Create *)
  conn_State : Type;       (* o3 rc::Error *)
}.

Module Family.
(** [Version], src/layer2/dns/src/query/family.rs:7-10. *)
Inductive Version := Four | Six.
#[export] Instance version_eq_dec : EqDecision Version.
Proof. solve_decision. Defined.

(** [Error], src/layer2/dns/src/query/family.rs:13-17. *)
Record Error := error { version : Version; actual : Z; expected : Z }.

(** [ALL], src/layer2/dns/src/query/family.rs:20-20. *)
Definition ALL : list Version := [Four; Six].

(** [Version::index], src/layer2/dns/src/query/family.rs:23-25. *)
Definition index (v : Version) : nat := match v with Four => 0 | Six => 1 end.

(** [Version::from_bit], src/layer2/dns/src/query/family.rs:59-61. *)
Definition from_bit (bit : Z) : Version := if bit =? 0 then Four else Six.
End Family.

Module HostError.
Section host_error.
Context `{InlineBytes}.
(** [Error], src/layer2/dns/src/host.rs:9-32. *)
Inductive Error :=
  | NoLabels
  | Capacity (e : consume_Error)
  | NameLength (actual minimum maximum : Z)
  | LabelLength (index actual minimum maximum : Z)
  | LabelHyphen (index offset : Z)
  | LabelCharacter (index offset value : Z).
End host_error.

(** [Mismatch], src/layer2/dns/src/host.rs:35-55. *)
Inductive Mismatch :=
  | MLabelLength (index actual expected : Z)
  | MLabelByte (index offset actual expected : Z)
  | MExtraLabel (index actual : Z)
  | MMissingLabel (index expected : Z).
End HostError.

(** ** Causes the transport reports *)

Module Transport.
(** [SubmitCause], src/layer0/core/src/driver/result/mod.rs:188-193. *)
Inductive SubmitCause := Full | IdentityExhausted.

(** [Exhaustion], src/layer1/net/src/link/pool/change/opening.rs:22-25. *)
Inductive Exhaustion := Identity | Submission (cause : SubmitCause).

(** [Kind], src/layer1/manifold/src/client/deadline/mod.rs:6-11. *)
Inductive DeadlineKind := DConnect | DInbound | DSend | DLifetime.

(** [Capacity], src/layer1/manifold/src/client/close.rs:40-45. *)
Inductive CloseCapacity :=
  | IngressStaging | IngressRetention | CTransport | CIdentityExhausted.

(** [LocalOrigin], src/layer1/manifold/src/client/close.rs:48-56. *)
Inductive LocalOrigin :=
  | ApiRequest | SideComplete | OperationCancelled | Superseded
  | ScheduledRotation | RuntimeShutdown | ResourceFailure.

Section payloads.
Context `{Payloads}.

(** [ConnectError], src/layer1/net/src/link/event.rs:19-26. *)
Inductive ConnectError :=
  | Create (e : socket_Create) | Option_ (errno : Z) | Admission (cause : SubmitCause)
  | Connect (errno : Z) | State (e : conn_State) | Receive (errno : Z).

(** [ParkError], src/layer1/net/src/link/event.rs:120-127. *)
Inductive ParkError :=
  | ParkSubmit (cause : SubmitCause) | Credit (arm : park_Arm)
  | Register (e : register_Error) | ParkFull | Occupied | Unavailable.

(** [Reason], src/layer1/manifold/src/client/close.rs:8-20. *)
Inductive Reason :=
  | Local (origin : LocalOrigin)
  | RCapacity (capacity : CloseCapacity)
  | EndpointRetired
  | RTransport
  | Timeout (kind : DeadlineKind)
  | Protocol
  | Remote
  | RReceive (e : ParkError)
  | Ingress (e : receive_Failure)
  | Egress (e : exact_Failure).

(** [RejectCause], src/layer1/manifold/src/network/datagram/mod.rs:62-81. *)
Inductive RejectCause :=
  | Inactive
  | QueueFull
  | RIdentityExhausted
  | RSubmit (cause : SubmitCause)
  | Slot (requested capacity : Z)
  | Transfer (overflow : Z)
  | BudgetMissing (required : Z)
  | Resident (required available : Z)
  | GsoUnavailable
  | GsoShape (shape : gso_Shape).
End payloads.
End Transport.

Module LookupError.
(** [Identity], src/layer2/dns/src/lookup/error.rs:35-39. *)
Inductive Identity :=
  | IdCookie (epoch servers : Z)
  | IdDatagram (capacity : Z)
  | IdStream (id : Z).

(** [Packet], src/layer2/dns/src/lookup/error.rs:42-73. *)
Inductive Packet :=
  | Length (actual maximum : Z)
  | Truncated (offset required actual : Z)
  | Pointer (offset target length : Z)
  | Label (offset value : Z)
  | NameLength (actual maximum : Z)
  | PointerHops (actual maximum : Z)
  | RecordName (actual expected : Z).

Section inline.
Context `{InlineBytes}.

(** [Cookie], src/layer2/dns/src/lookup/error.rs:76-92. *)
Inductive Cookie :=
  | CookieCapacity (e : consume_Error)
  | CookiePacket (e : Packet)
  | ClientLength (actual required : Z)
  | Client (actual expected : Z)
  | ServerLength (actual minimum maximum : Z).

(** [Malformed], src/layer2/dns/src/lookup/error.rs:95-111. *)
Inductive Malformed :=
  | MPacket (e : Packet)
  | Flags (actual : Z)
  | QuestionCount (actual expected : Z)
  | QuestionName (mismatch : HostError.Mismatch)
  | QuestionKind (actual expected : Z)
  | QuestionClass (actual expected : Z)
  | OptDuplicate (offset : Z)
  | OptName (mismatch : HostError.Mismatch)
  | MCookie (e : Cookie)
  | Address (e : Family.Error)
  | Trailing (offset actual : Z)
  | AliasRecords (actual maximum : Z)
  | AliasHops (actual maximum : Z)
  | AliasConflict
  | Name (e : HostError.Error).
End inline.

(** [Timing], src/layer2/dns/src/lookup/error.rs:114-123. *)
Inductive Timing :=
  | Duration (started completed : Z)
  | Expiry (received ttl : Z).

Section payloads.
Context `{InlineBytes} `{Payloads}.

(** [Datagram], src/layer2/dns/src/lookup/error.rs:173-181. *)
Inductive Datagram :=
  | Rejected (cause : Transport.RejectCause)
  | Submit (cause : Transport.SubmitCause)
  | Partial (sent expected : Z)
  | Shutdown.

(** [Error], src/layer2/dns/src/net/stream/codec.rs:9-12. *)
Inductive StreamError :=
  | Input (e : scope_Error)
  | StreamTruncated (actual required : Z).

(** [Kind], src/layer2/dns/src/lookup/error.rs:126-145. *)
Inductive Kind :=
  | KStream (e : StreamError)
  | KOpening (e : Transport.Exhaustion)
  | KTimeout
  | KTransport (errno : Z)
  | KDatagram (e : Datagram)
  | KEgress (e : load_Error)
  | KClose (reason : Transport.Reason)
  | KName
  | KRefused
  | KServer (code : Z)
  | KTruncated
  | KEmpty
  | KCapacity (limit actual : Z)
  | KClock (e : Clock.Range)
  | KDeadline (e : Clock.Range)
  | KTiming (e : Timing)
  | KIdentity (e : Identity)
  | KMalformed (e : Malformed).

(** [Kind::is_terminal], src/layer2/dns/src/lookup/error.rs:148-169. *)
Definition is_terminal (k : Kind) : bool :=
  match k with
  | KDatagram (Submit cause)
  | KDatagram (Rejected (Transport.RSubmit cause))
  | KClose (Transport.RReceive (Transport.ParkSubmit cause)) =>
      match cause with Transport.IdentityExhausted => true | Transport.Full => false end
  | KOpening _
  | KClock _
  | KDeadline _
  | KDatagram (Rejected Transport.Inactive)
  | KDatagram (Rejected Transport.RIdentityExhausted)
  | KDatagram Shutdown
  | KClose (Transport.RCapacity Transport.CIdentityExhausted)
  | KIdentity (IdCookie _ _) => true
  | _ => false
  end.
End payloads.
End LookupError.

Module ConcretePayloads.
#[export] Instance unit_payloads : Payloads := {|
  scope_Error := unit; load_Error := unit; exact_Failure := unit;
  receive_Failure := unit; park_Arm := unit; register_Error := unit;
  gso_Shape := unit; socket_Create := unit; conn_State := unit;
|}.
End ConcretePayloads.
