(* ===== verification/Host.v ===== *)
(** * Host names.

    Model of [src/layer2/dns/src/host.rs]: the parser of presentation names,
    the assembler shared with the decoder of wire names, and the accessors of
    the canonical form. *)

From S2P Require Import Prelude Depot Errors.

Module Host.
Import HostError.

(** [MAX_PRESENTATION_LEN], src/layer2/dns/src/host.rs:57-57. *)
Definition MAX_PRESENTATION_LEN : Z := 253.
(** [MIN_PRESENTATION_LEN], src/layer2/dns/src/host.rs:58-58. *)
Definition MIN_PRESENTATION_LEN : Z := 1.
(** [MAX_LABEL_LEN], src/layer2/dns/src/host.rs:59-59. *)
Definition MAX_LABEL_LEN : Z := 63.
(** [MIN_LABEL_LEN], src/layer2/dns/src/host.rs:60-60. *)
Definition MIN_LABEL_LEN : Z := 1.

(** [Name], src/layer2/dns/src/host.rs:65-67. The inline byte string. *)
Definition Name := bytes.

(** [Name::MAX_WIRE_LEN], src/layer2/dns/src/host.rs:70-70. *)
Definition MAX_WIRE_LEN : Z := MAX_PRESENTATION_LEN + 2.

(** [Name::wire_len], src/layer2/dns/src/host.rs:72-74. *)
Definition wire_len (self : Name) : Z := len self + 2.

(** [Name::labels], src/layer2/dns/src/host.rs:159-161. *)
Definition labels (self : Name) : list bytes := split dot self.

(** [Name::as_str], src/layer2/dns/src/host.rs:154-157. *)
Definition as_str (self : Name) : bytes := self.

Definition hyphen : Z := 45.
Definition underscore : Z := 95.

(** [Name::assemble], src/layer2/dns/src/host.rs:91-152. The bytes of a label that [assemble] lets through. *)
Definition label_byte (value : Z) : bool :=
  is_ascii_alphanumeric value || (value =? hyphen) || (value =? underscore).

Section assemble.
Context `{InlineBytes}.

(** [Name::assemble], src/layer2/dns/src/host.rs:91-152. The loop over a label's bytes. *)
Fixpoint check_bytes (index offset : nat) (label : bytes) : run Error unit :=
  match label with
  | [] => Ok tt
  | value :: label =>
      if negb (label_byte value)
      then Err (LabelCharacter (Z.of_nat index) (Z.of_nat offset) value)
      else check_bytes index (S offset) label
  end.

(** [Name::assemble], src/layer2/dns/src/host.rs:91-152. [if label.first() == Some(&b'-')], [if label.last() == Some(&b'-')]. *)
Definition check_hyphens (index offset : nat) (label : bytes) : run Error unit :=
  if decide (head label = Some hyphen)
  then Err (LabelHyphen (Z.of_nat index) (Z.of_nat offset))
  else if decide (last label = Some hyphen)
  then Err (LabelHyphen (Z.of_nat index) (Z.of_nat (offset + length label - 1)))
  else Ok tt.

(** [Name::assemble], src/layer2/dns/src/host.rs:91-152. [if index != 0 { .. *dot = b'.'; offset += 1 }]. *)
Definition put_dot (index : nat) (output : bytes) (offset : nat) : run Error (bytes * nat) :=
  match index with
  | O => Ok (output, offset)
  | S _ =>
      if (offset <? length output)%nat
      then Ok (<[offset := dot]> output, S offset)
      else Stuck Panic
  end.

(** [Name::assemble], src/layer2/dns/src/host.rs:91-152. [output.get_mut(offset..end)] and the copy of the label in lower case. *)
Definition put_label (output : bytes) (offset : nat) (label : bytes) : run Error bytes :=
  let end_ := (offset + length label)%nat in
  if (end_ <=? length output)%nat
  then Ok (take offset output ++ map to_ascii_lowercase label ++ drop end_ output)
  else Stuck Panic.

(** [Name::assemble], src/layer2/dns/src/host.rs:91-152. The loop [for (index, label) in labels.enumerate()] of [Name::assemble]. *)
Fixpoint assemble_loop (output : bytes) (offset index : nat) (ls : list bytes)
    : run Error bytes :=
  match ls with
  | [] => Ok output
  | label :: ls =>
      if negb ((MIN_LABEL_LEN <=? len label) && (len label <=? MAX_LABEL_LEN))
      then Err (LabelLength (Z.of_nat index) (len label) MIN_LABEL_LEN MAX_LABEL_LEN)
      else
        let! (output, offset) := put_dot index output offset in
        let! _ := check_hyphens index offset label in
        let! _ := check_bytes index offset label in
        let! output := put_label output offset label in
        assemble_loop output (offset + length label) (S index) ls
  end.

(** [Name::assemble], src/layer2/dns/src/host.rs:91-152. *)
Definition assemble (total : Z) (ls : list bytes) : run Error Name :=
  if total <? MIN_PRESENTATION_LEN
  then Err (NameLength total MIN_PRESENTATION_LEN MAX_PRESENTATION_LEN)
  else
    match ib_reserve MAX_PRESENTATION_LEN total with
    | Some error => Err (Capacity error)
    | None => assemble_loop (ib_output total) 0 0 ls
    end.

(** [Name::parse], src/layer2/dns/src/host.rs:76-82. [input.strip_suffix('.')], or [input] itself. *)
Definition strip_dot (input : bytes) : bytes :=
  if decide (last input = Some dot) then removelast input else input.

(** [Name::parse], src/layer2/dns/src/host.rs:76-82. *)
Definition parse (input : bytes) : run Error Name :=
  let input := strip_dot input in
  assemble (len input) (split dot input).

(** [Name::try_decode], src/layer2/dns/src/host.rs:84-89. The argument is
    [expanded.into_parts()]. *)
Definition try_decode (parts : option Z * list bytes) : run Error Name :=
  match parts with
  | (Some total, ls) => assemble total ls
  | (None, _) => Err NoLabels
  end.
End assemble.

(** ** Which names are accepted *)

(** A label the resolver accepts: 1 to 63 letters, digits, hyphens or
    underscores, with no hyphen at either end. *)
Definition label_ok (label : bytes) : Prop :=
  1 <= len label <= 63 /\ head label <> Some hyphen /\ last label <> Some hyphen /\
  Forall (fun b => label_byte b = true) label.
#[export] Instance label_ok_dec label : Decision (label_ok label).
Proof. unfold label_ok. apply _. Defined.

Section facts.
Context `{InlineBytesLaws}.

Lemma check_bytes_Ok index off label :
  check_bytes index off label = Ok tt <-> Forall (fun b => label_byte b = true) label.
Proof.
  revert off. induction label as [|b l IH]; intros off; cbn [check_bytes].
  - split; [constructor|done].
  - destruct (label_byte b) eqn:E; simpl.
    + rewrite IH. rewrite Forall_cons. tauto.
    + split; [done|]. rewrite Forall_cons. intros [? ?]; congruence.
Qed.

Lemma check_bytes_not_stuck index off label : not_stuck (check_bytes index off label).
Proof.
  revert off. induction label as [|b l IH]; intros off; cbn [check_bytes]; [done|].
  destruct (label_byte b); simpl; [apply IH|done].
Qed.

Lemma check_hyphens_Ok index off label :
  check_hyphens index off label = Ok tt <-> head label <> Some hyphen /\ last label <> Some hyphen.
Proof.
  unfold check_hyphens. case_decide; [|case_decide]; split; try done; intros []; done.
Qed.

Lemma put_label_Ok output off label :
  (off + length label <= length output)%nat ->
  put_label output off label
  = Ok (take off output ++ map to_ascii_lowercase label ++ drop (off + length label) output).
Proof. intros Hl. unfold put_label. apply Nat.leb_le in Hl as ->. done. Qed.

Lemma put_dot_S index output off :
  (off < length output)%nat ->
  put_dot (S index) output off = Ok (<[off := dot]> output, S off).
Proof. intros Hl. unfold put_dot. apply Nat.ltb_lt in Hl as ->. done. Qed.

Lemma write_label (output label : bytes) off (rest : bytes) :
  length output = (off + length label + length rest)%nat ->
  take (off + length label)
    (take off output ++ map to_ascii_lowercase label ++ drop (off + length label) output)
  = take off output ++ map to_ascii_lowercase label.
Proof.
  intros Hl. rewrite app_assoc, take_app_le.
  - apply take_ge. rewrite length_app, length_take, length_map. lia.
  - rewrite length_app, length_take, length_map. lia.
Qed.

Lemma write_length (output label : bytes) off :
  (off + length label <= length output)%nat ->
  length (take off output ++ map to_ascii_lowercase label ++ drop (off + length label) output)
  = length output.
Proof. intros. rewrite !length_app, length_take, length_map, length_drop. lia. Qed.

Lemma label_len_ok label :
  negb ((MIN_LABEL_LEN <=? len label) && (len label <=? MAX_LABEL_LEN)) = false <->
  1 <= len label <= 63.
Proof.
  unfold MIN_LABEL_LEN, MAX_LABEL_LEN. rewrite negb_false_iff, andb_true_iff, !Z.leb_le. done.
Qed.

(** The part of an iteration after its length test, outcome by outcome. *)
Lemma label_step index off output label (k : bytes -> run Error bytes) :
  (off + length label <= length output)%nat ->
  let w := take off output ++ map to_ascii_lowercase label
           ++ drop (off + length label) output in
  let body :=
    let! _ := check_hyphens index off label in
    let! _ := check_bytes index off label in
    let! output := put_label output off label in k output in
  not_stuck (k w) ->
  not_stuck body /\
  forall o, body = Ok o <->
    (head label <> Some hyphen /\ last label <> Some hyphen /\
     Forall (fun b => label_byte b = true) label) /\ k w = Ok o.
Proof.
  intros Hl w body Hk. unfold body. rewrite put_label_Ok by done. fold w. simpl bind at 3.
  pose proof (check_hyphens_Ok index off label) as Hh.
  pose proof (check_bytes_Ok index off label) as Hb.
  pose proof (check_bytes_not_stuck index off label) as Hns.
  destruct (check_hyphens index off label) as [[]|e|x] eqn:E; simpl.
  - destruct (check_bytes index off label) as [[]|e|x]; simpl; [naive_solver| |done].
    split; [done|]. intros o. split; [done|]. intros [(_ & _ & h) _].
    apply Hb in h. done.
  - split; [done|]. intros o. split; [done|]. intros [(h1 & h2 & _) _].
    destruct Hh as [_ Hh]. by specialize (Hh (conj h1 h2)).
  - exfalso. revert E. unfold check_hyphens. repeat case_decide; done.
Qed.

(** The iterations after the first. *)
Lemma assemble_loop_spec ls : forall output off index,
  length output = (off + length (dotted ls))%nat ->
  not_stuck (assemble_loop output off (S index) ls) /\
  forall o, assemble_loop output off (S index) ls = Ok o <->
    Forall label_ok ls /\ o = take off output ++ map to_ascii_lowercase (dotted ls).
Proof.
  induction ls as [|label ls IH]; intros output off index Hl; cbn [assemble_loop].
  { split; [done|]. intros o. simpl in Hl. rewrite app_nil_r, take_ge by lia.
    split; [intros [= <-]; split; [constructor|done]|intros [_ ->]; done]. }
  rewrite dotted_cons, length_app in Hl; cbn [length] in Hl.
  destruct (negb _) eqn:Hlen.
  { split; [done|]. intros o. split; [done|]. rewrite Forall_cons. intros [[[h _] _] _].
    apply label_len_ok in h. simpl in h. congruence. }
  apply label_len_ok in Hlen. rewrite put_dot_S by lia.
  set (out1 := <[off := dot]> output).
  assert (Ht1 : length out1 = length output) by apply length_insert.
  destruct (IH (take (S off) out1 ++ map to_ascii_lowercase label ++
                drop (S off + length label) out1) (S off + length label)%nat (S index))
    as [Hn Hok].
  { rewrite write_length; lia. }
  destruct (label_step (S index) (S off) out1 label
    (fun output => assemble_loop output (S off + length label) (S (S index)) ls))
    as [Hns Hstep]; [lia|done|].
  split; [done|]. intros o. cbn [bind]. rewrite Hstep, Hok, Forall_cons.
  rewrite (write_label _ _ _ (dotted ls)) by lia.
  assert (Htk : take (S off) out1 = take off output ++ [dot]).
  { rewrite (take_S_r _ _ dot) by (apply list_lookup_insert_eq; lia).
    f_equal. unfold out1. apply take_insert_ge. lia. }
  rewrite Htk, dotted_cons, map_app, <- !app_assoc. unfold label_ok. naive_solver.
Qed.

(** The whole loop, on labels that fill the output exactly. *)
Lemma assemble_labels ls output :
  ls <> [] -> length output = length (join ls) ->
  not_stuck (assemble_loop output 0 0 ls) /\
  forall o, assemble_loop output 0 0 ls = Ok o <->
    Forall label_ok ls /\ o = map to_ascii_lowercase (join ls).
Proof.
  intros Hne Hl. destruct ls as [|label ls]; [done|].
  simpl in Hl. rewrite length_app in Hl. cbn [assemble_loop].
  destruct (negb _) eqn:Hlen.
  { split; [done|]. intros o. split; [done|]. rewrite Forall_cons. intros [[[h _] _] _].
    apply label_len_ok in h. simpl in h. congruence. }
  apply label_len_ok in Hlen. cbn [put_dot bind].
  destruct (assemble_loop_spec ls (take 0 output ++ map to_ascii_lowercase label
      ++ drop (0 + length label) output) (0 + length label)%nat 0) as [Hn Hok].
  { rewrite write_length; lia. }
  destruct (label_step 0 0 output label
    (fun output => assemble_loop output (0 + length label) 1 ls)) as [Hns Hstep]; [lia|done|].
  split; [done|]. intros o. rewrite Hstep, Hok, Forall_cons.
  rewrite (write_label _ _ _ (dotted ls)) by lia. simpl join.
  rewrite map_app. unfold label_ok. naive_solver.
Qed.

(** [assemble] on labels whose joined length is the announced total. *)
Lemma assemble_spec total ls :
  ls <> [] -> total = len (join ls) ->
  not_stuck (assemble total ls) /\
  forall n, assemble total ls = Ok n <->
    1 <= total <= 253 /\ Forall label_ok ls /\ n = map to_ascii_lowercase (join ls).
Proof.
  intros Hne ->. unfold assemble, MIN_PRESENTATION_LEN, MAX_PRESENTATION_LEN.
  destruct (_ <? 1) eqn:E1; zbool; [split; [done|]; intros; split; [done|lia]|].
  destruct (ib_reserve 253 (len (join ls))) eqn:E2.
  { split; [done|]. intros. split; [done|]. intros [? _]. exfalso.
    assert (ib_reserve 253 (len (join ls)) = None) by (apply ib_reserve_fits; lia). congruence. }
  apply ib_reserve_fits in E2.
  destruct (assemble_labels ls (ib_output (len (join ls)))) as [Hn Hok]; [done| |].
  { pose proof (ib_output_len (len (join ls)) (len_nonneg _)). unfold len in *. lia. }
  split; [done|]. intros n. rewrite Hok. naive_solver lia.
Qed.

(** ** Where an error points *)

Definition located (t : bytes) (ls : list bytes) (e : Error) : Prop :=
  match e with
  | LabelLength i actual minimum maximum =>
      exists l, ls !! Z.to_nat i = Some l /\ actual = len l /\ ~ (minimum <= actual <= maximum)
  | LabelHyphen i off =>
      exists l, ls !! Z.to_nat i = Some l /\ t !! Z.to_nat off = Some hyphen /\
        (head l = Some hyphen \/ last l = Some hyphen)
  | LabelCharacter i off value =>
      exists l, ls !! Z.to_nat i = Some l /\ t !! Z.to_nat off = Some value /\ value ∈ l /\
        label_byte value = false
  | NameLength actual minimum maximum => actual = len t /\ actual < minimum
  | Capacity e => ib_reserve MAX_PRESENTATION_LEN (len t) = Some e /\ 253 < len t
  | NoLabels => False
  end.

Lemma check_bytes_Err index off label e :
  check_bytes index off label = Err e ->
  exists i v, label !! i = Some v /\ label_byte v = false /\
    e = LabelCharacter (Z.of_nat index) (Z.of_nat (off + i)) v.
Proof.
  revert off. induction label as [|b l IH]; intros off; cbn [check_bytes]; [done|].
  destruct (label_byte b) eqn:E; simpl.
  - intros (i & v & ? & ? & ->)%IH. exists (S i), v. repeat split; try done. do 2 f_equal. lia.
  - intros [= <-]. exists 0%nat, b. repeat split; try done. do 2 f_equal. lia.
Qed.

Lemma check_hyphens_Err index off label e :
  label <> [] -> check_hyphens index off label = Err e ->
  exists i, label !! i = Some hyphen /\ (head label = Some hyphen \/ last label = Some hyphen) /\
    e = LabelHyphen (Z.of_nat index) (Z.of_nat (off + i)).
Proof.
  intros Hne. unfold check_hyphens. repeat case_decide; [intros [= <-]|intros [= <-]|done].
  - exists 0%nat. rewrite Nat.add_0_r. destruct label; naive_solver.
  - exists (length label - 1)%nat. rewrite last_lookup in *.
    replace (Nat.pred (length label)) with (length label - 1)%nat in * by lia.
    repeat split; [done|by right|]. do 2 f_equal. destruct label; simpl; [done|lia].
Qed.

Lemma label_err_located t all index off label e :
  label <> [] -> all !! index = Some label ->
  take (length label) (drop off t) = label ->
  check_hyphens index off label = Err e \/ check_bytes index off label = Err e ->
  located t all e.
Proof.
  intros Hne Hi Ht He.
  assert (Hlook : forall i v, label !! i = Some v -> t !! (off + i)%nat = Some v).
  { intros i v Hv. rewrite <- lookup_drop. rewrite <- Ht in Hv.
    by apply lookup_take_Some in Hv as [? _]. }
  destruct He as [He|He].
  - apply check_hyphens_Err in He as (i & ? & ? & ->); [|done]. simpl.
    rewrite !Nat2Z.id. eauto.
  - apply check_bytes_Err in He as (i & v & ? & ? & ->). simpl.
    rewrite !Nat2Z.id. exists label. repeat split; eauto.
    by apply list_elem_of_lookup_2 with i.
Qed.

Lemma length_err_located t all index label :
  all !! index = Some label ->
  negb ((MIN_LABEL_LEN <=? len label) && (len label <=? MAX_LABEL_LEN)) = true ->
  located t all (LabelLength (Z.of_nat index) (len label) MIN_LABEL_LEN MAX_LABEL_LEN).
Proof.
  intros Hi Hn. simpl. rewrite Nat2Z.id. exists label. repeat split; [done|].
  intros Hin. apply label_len_ok in Hin. congruence.
Qed.

Lemma bind_Err {E A B} (m : run E A) (k : A -> run E B) e :
  bind m k = Err e -> m = Err e \/ exists a, m = Ok a /\ k a = Err e.
Proof. destruct m; simpl; naive_solver. Qed.

Lemma assemble_loop_located t all ls : forall output off index e,
  (forall i l, ls !! i = Some l -> all !! (S index + i)%nat = Some l) ->
  drop off t = dotted ls ->
  assemble_loop output off (S index) ls = Err e -> located t all e.
Proof.
  induction ls as [|label ls IH]; intros output off index e Hall Ht; cbn [assemble_loop]; [done|].
  assert (Hi : all !! S index = Some label).
  { rewrite <- (Nat.add_0_r (S index)). by apply Hall. }
  rewrite dotted_cons in Ht.
  assert (Ht' : drop (S off) t = label ++ dotted ls).
  { rewrite <- Nat.add_1_r, <- drop_drop, Ht. done. }
  destruct (negb _) eqn:Hlen; [intros [= <-]; by apply length_err_located|].
  apply label_len_ok in Hlen.
  assert (label <> []) by (intros ->; unfold len in Hlen; simpl in Hlen; lia).
  assert (take (length label) (drop (S off) t) = label).
  { rewrite Ht'. by rewrite take_app_length. }
  intros Herr. apply bind_Err in Herr as [Herr|([out1 off1] & Hd & Herr)].
  { unfold put_dot in Herr. by destruct (off <? _)%nat. }
  assert (off1 = S off) as ->.
  { unfold put_dot in Hd. destruct (off <? _)%nat; naive_solver. }
  apply bind_Err in Herr as [Herr|([] & _ & Herr)]; [eapply label_err_located; eauto|].
  apply bind_Err in Herr as [Herr|([] & _ & Herr)]; [eapply label_err_located; eauto|].
  apply bind_Err in Herr as [Herr|(out2 & _ & Herr)].
  { unfold put_label in Herr. by destruct (_ <=? _)%nat. }
  eapply IH; [| |exact Herr].
  - intros i l Hl. replace (S (S index) + i)%nat with (S index + S i)%nat by lia. by apply Hall.
  - rewrite <- drop_drop, Ht'. by rewrite drop_app_length.
Qed.

Lemma assemble_located ls e :
  ls <> [] -> assemble (len (join ls)) ls = Err e -> located (join ls) ls e.
Proof.
  intros Hne. unfold assemble.
  destruct (_ <? _) eqn:E1; zbool; [intros [= <-]; done|].
  destruct (ib_reserve _ _) as [c|] eqn:E2.
  { intros [= <-]. split; [done|]. destruct (Z.le_gt_cases (len (join ls)) 253) as [h|]; [|done].
    apply ib_reserve_fits in h. unfold MAX_PRESENTATION_LEN in E2. congruence. }
  destruct ls as [|label ls]; [done|]. cbn [assemble_loop].
  set (t := join (label :: ls)) in *.
  destruct (negb _) eqn:Hlen; [intros [= <-]; by apply (length_err_located t _ 0)|].
  apply label_len_ok in Hlen. cbn [put_dot bind].
  assert (label <> []) by (intros ->; unfold len in Hlen; simpl in Hlen; lia).
  assert (take (length label) (drop 0 t) = label) by (apply take_app_length).
  intros Herr.
  apply bind_Err in Herr as [Herr|([] & _ & Herr)]; [by eapply (label_err_located t _ 0); eauto|].
  apply bind_Err in Herr as [Herr|([] & _ & Herr)]; [by eapply (label_err_located t _ 0); eauto|].
  apply bind_Err in Herr as [Herr|(out2 & _ & Herr)].
  { unfold put_label in Herr. by destruct (_ <=? _)%nat. }
  eapply assemble_loop_located; [| |exact Herr].
  - intros i l Hl. done.
  - apply drop_app_length.
Qed.

(** ** Round trip *)

Lemma label_byte_lower b : label_byte b = true -> label_byte (to_ascii_lowercase b) = true.
Proof.
  unfold to_ascii_lowercase, label_byte, is_ascii_alphanumeric. destruct (is_ascii_uppercase b) eqn:E; [|by rewrite E].
  unfold is_ascii_uppercase in *. zbool. intros _.
  assert ((97 <=? b + 32) && (b + 32 <=? 122) = true) as ->.
  { apply andb_true_iff. rewrite !Z.leb_le. lia. }
  by rewrite !orb_true_r.
Qed.

Lemma label_byte_dot b : label_byte b = true -> b <> dot.
Proof. by intros Hb ->. Qed.

Lemma lower_dot b : b <> dot -> to_ascii_lowercase b <> dot.
Proof.
  unfold to_ascii_lowercase. destruct (is_ascii_uppercase b) eqn:E; [|done].
  unfold is_ascii_uppercase in E. zbool. unfold dot. lia.
Qed.

Lemma lower_hyphen b : to_ascii_lowercase b = hyphen -> b = hyphen.
Proof.
  unfold to_ascii_lowercase. destruct (is_ascii_uppercase b) eqn:E; [|done].
  unfold is_ascii_uppercase in E. zbool. unfold hyphen. lia.
Qed.

Lemma label_ok_lower l : label_ok l -> label_ok (map to_ascii_lowercase l).
Proof.
  intros (? & Hh & Hl & Hf). unfold label_ok, len in *. rewrite length_map.
  assert (head (map to_ascii_lowercase l) = to_ascii_lowercase <$> head l) as -> by by destruct l.
  rewrite fmap_last. repeat split; try lia.
  - destruct (head l) as [x|]; [|done]. simpl. intros [= E]. apply lower_hyphen in E. congruence.
  - destruct (last l) as [x|]; [|done]. simpl. intros [= E]. apply lower_hyphen in E. congruence.
  - apply Forall_map. eapply Forall_impl; [exact Hf|]. intros; by apply label_byte_lower.
Qed.

Lemma label_ok_no_dot l : label_ok l -> dot ∉ l.
Proof.
  intros (_ & _ & _ & Hf) Hin. rewrite Forall_forall in Hf. by apply Hf, label_byte_dot in Hin.
Qed.

Lemma dotted_lower ws :
  map to_ascii_lowercase (dotted ws) = dotted (map (map to_ascii_lowercase) ws).
Proof.
  induction ws as [|w ws IH]; [done|]. rewrite dotted_cons, map_app, IH. done.
Qed.

Lemma join_lower ws :
  map to_ascii_lowercase (join ws) = join (map (map to_ascii_lowercase) ws).
Proof. destruct ws; [done|]. simpl. by rewrite map_app, dotted_lower. Qed.

(** The labels of an assembled name are the given labels in lower case. *)
Lemma labels_join ls :
  ls <> [] -> Forall label_ok ls ->
  labels (map to_ascii_lowercase (join ls)) = map (map to_ascii_lowercase) ls.
Proof.
  intros Hne Hf. unfold labels. rewrite join_lower. apply split_join.
  - by destruct ls.
  - apply Forall_map. eapply Forall_impl; [exact Hf|].
    intros l Hl. by apply label_ok_no_dot, label_ok_lower.
Qed.

Lemma last_label_app pre l : label_ok l -> last (pre ++ l) <> Some dot.
Proof.
  intros Hok. rewrite last_app. pose proof (label_ok_no_dot l Hok).
  destruct (last l) as [x|] eqn:E.
  - intros [= ->]. apply last_Some in E as [? ->]. set_solver.
  - apply last_None in E as ->. destruct Hok as [? _]. unfold len in *. simpl in *. lia.
Qed.

Lemma last_dotted ws pre :
  Forall label_ok ws -> last pre <> Some dot -> last (pre ++ dotted ws) <> Some dot.
Proof.
  revert pre. induction ws as [|w ws IH]; intros pre Hf Hl.
  - by rewrite app_nil_r.
  - apply Forall_cons in Hf as [? ?]. rewrite dotted_cons, app_assoc. apply IH; [done|].
    replace (pre ++ dot :: w) with ((pre ++ [dot]) ++ w) by by rewrite <- app_assoc.
    by apply last_label_app.
Qed.

Lemma strip_join ls : Forall label_ok ls -> strip_dot (join ls) = join ls.
Proof.
  intros Hf. unfold strip_dot. case_decide as Hl; [|done].
  exfalso. revert Hl. destruct ls as [|l ls]; [done|]. apply Forall_cons in Hf as [? ?].
  apply last_dotted; [done|]. by apply (last_label_app []).
Qed.

Lemma assemble_Ok total ls n :
  ls <> [] -> total = len (join ls) -> assemble total ls = Ok n ->
  1 <= total <= 253 /\ Forall label_ok ls /\ n = map to_ascii_lowercase (join ls).
Proof. intros ? ? Hn. by apply (assemble_spec total ls). Qed.

(** The name of accepted labels, parsed again. *)
Lemma parse_canonical ls :
  ls <> [] -> Forall label_ok ls -> len (join ls) <= 253 ->
  parse (map to_ascii_lowercase (join ls)) = Ok (map to_ascii_lowercase (join ls)).
Proof.
  intros Hne Hf Hl. set (ls' := map (map to_ascii_lowercase) ls).
  assert (Hf' : Forall label_ok ls').
  { apply Forall_map. eapply Forall_impl; [exact Hf|]. apply label_ok_lower. }
  assert (Hne' : ls' <> []) by by destruct ls.
  unfold parse. rewrite join_lower. fold ls'. rewrite strip_join by done.
  rewrite split_join; [|done|]; cycle 1.
  { eapply Forall_impl; [exact Hf'|]. apply label_ok_no_dot. }
  apply (assemble_spec (len (join ls')) ls' Hne' eq_refl).
  split; [|split; [done|]].
  - assert (len (join ls') = len (join ls)) as ->.
    { unfold ls'. rewrite <- join_lower. unfold len. by rewrite length_map. }
    split; [|done]. destruct ls as [|l ls]; [done|]. apply Forall_cons in Hf as [[? _] _].
    simpl. rewrite len_app. pose proof (len_nonneg (dotted ls)). lia.
  - unfold ls'. rewrite <- !join_lower. by rewrite lower_map_idem.
Qed.
End facts.

(** ** Properties *)

(** [parse] never panics, and it accepts exactly the host names: at most
    253 bytes before an optional final dot, in labels of 1 to 63 letters,
    digits, hyphens and underscores with no hyphen at an end. What it stores
    is the name in lower case, without the final dot. *)
Theorem parse_accepts_exactly_host_names `{InlineBytesLaws} (input : bytes) :
  not_stuck (parse input) /\
  forall n, parse input = Ok n <->
    1 <= len (strip_dot input) <= 253 /\
    Forall label_ok (split dot (strip_dot input)) /\
    n = map to_ascii_lowercase (strip_dot input).
Proof.
  pose proof (assemble_spec (len (strip_dot input)) (split dot (strip_dot input))) as Hs.
  rewrite join_split in Hs. apply Hs; [apply split_nonnil|done].
Qed.

(** A stored name is canonical: its text parses back to itself, and its
    labels are the accepted labels of the input in lower case. *)
Theorem parse_round_trip `{InlineBytesLaws} (input : bytes) (n : Name) :
  parse input = Ok n ->
  parse (as_str n) = Ok n /\ 3 <= wire_len n <= MAX_WIRE_LEN /\
  labels n = map (map to_ascii_lowercase) (split dot (strip_dot input)) /\
  Forall label_ok (labels n).
Proof.
  intros Hp. set (ls := split dot (strip_dot input)).
  assert (Hne : ls <> []) by apply split_nonnil.
  assert (Hj : join ls = strip_dot input) by apply join_split.
  unfold parse in Hp. fold ls in Hp. rewrite <- Hj in Hp.
  apply assemble_Ok in Hp as (Hlen & Hf & ->); [|done|done].
  split; [apply parse_canonical; [done|done|lia]|]. split.
  { unfold wire_len, MAX_WIRE_LEN, MAX_PRESENTATION_LEN, len in *. rewrite length_map. lia. }
  rewrite labels_join by done. split; [done|].
  apply Forall_map. eapply Forall_impl; [exact Hf|]. apply label_ok_lower.
Qed.

(** A rejection points at its cause: the label an error names is that
    label of the input, with the length the error gives or the offending byte
    at the offset the error gives. *)
Theorem parse_error_locates `{InlineBytesLaws} (input : bytes) (e : Error) :
  parse input = Err e -> located (strip_dot input) (split dot (strip_dot input)) e.
Proof.
  unfold parse. intros He. pose proof (assemble_located (split dot (strip_dot input)) e) as Hl.
  rewrite join_split in Hl. apply Hl; [apply split_nonnil|done].
Qed.

(** ** Concrete inputs *)

Import Concrete.

(** [Dns_1.Ex.] *)
Definition sample : bytes := [68; 110; 115; 95; 49; 46; 69; 120; 46].

Lemma parse_accepts_exactly_host_names_witness :
  parse sample = Ok [100; 110; 115; 95; 49; 46; 101; 120] /\
  Forall label_ok (split dot (strip_dot sample)).
Proof.
  pose proof (proj2 (parse_accepts_exactly_host_names sample) [100; 110; 115; 95; 49; 46; 101; 120])
    as Hs.
  split; [reflexivity|]. apply Hs. reflexivity.
Defined.

Lemma parse_round_trip_witness :
  parse sample = Ok [100; 110; 115; 95; 49; 46; 101; 120] /\
  parse [100; 110; 115; 95; 49; 46; 101; 120] = Ok [100; 110; 115; 95; 49; 46; 101; 120].
Proof.
  split; [reflexivity|].
  apply (parse_round_trip sample [100; 110; 115; 95; 49; 46; 101; 120]). reflexivity.
Defined.

(** [a.-b]: the hyphen at offset 2. *)
Lemma parse_error_locates_witness :
  parse [97; 46; 45; 98] = Err (LabelHyphen 1 2) /\
  located [97; 46; 45; 98] [[97]; [45; 98]] (LabelHyphen 1 2).
Proof.
  split; [reflexivity|]. apply (parse_error_locates [97; 46; 45; 98]). reflexivity.
Defined.
End Host.
