(* ===== verification/Packet.v ===== *)
(** * Reading DNS packets.

    Model of [src/layer2/dns/src/wire/packet] with [offset.rs] and
    [records.rs]: one decoder in two modes. The checked mode reports every
    malformed byte as an error. The validated mode repeats a traversal that
    the checked mode finished, with unchecked reads: a read outside the packet
    is undefined behaviour there, and the outcome [Stuck Undefined] here.

    The brand ['id] that ties a name or a span to its packet exists only at
    compile time; a definition that takes a name takes the packet beside it. *)

From S2P Require Import Prelude Depot Errors Host.

(** ** Record types and classes *)

Module Records.
(** [Kind], src/layer2/dns/src/wire/records.rs:5-5. *)
Definition Kind := Z.
(** [Kind::A], src/layer2/dns/src/wire/records.rs:8-8. *)
Definition A : Kind := 1.
(** [Kind::CNAME], src/layer2/dns/src/wire/records.rs:9-9. *)
Definition CNAME : Kind := 5.
(** [Kind::AAAA], src/layer2/dns/src/wire/records.rs:10-10. *)
Definition AAAA : Kind := 28.
(** [Kind::OPT], src/layer2/dns/src/wire/records.rs:11-11. *)
Definition OPT : Kind := 41.
(** [Kind::from_wire], src/layer2/dns/src/wire/records.rs:13-15. *)
Definition Kind_from_wire (value : Z) : Kind := value.
(** [Kind::wire], src/layer2/dns/src/wire/records.rs:17-19. *)
Definition Kind_wire (self : Kind) : Z := self.
(** [Class], src/layer2/dns/src/wire/records.rs:24-24. *)
Definition Class_ := Z.
(** [Class::IN], src/layer2/dns/src/wire/records.rs:27-27. *)
Definition IN : Class_ := 1.
(** [Class::from_wire], src/layer2/dns/src/wire/records.rs:29-31. *)
Definition Class_from_wire (value : Z) : Class_ := value.
(** [Class::wire], src/layer2/dns/src/wire/records.rs:33-35. *)
Definition Class_wire (self : Class_) : Z := self.
End Records.

(** ** Access modes *)

Module Raw.
(** [Read], src/layer2/dns/src/wire/packet/mod.rs:78-81. *)
Record Read := read { bytes_ : bytes; end_ : Z }.

(** [Part], src/layer2/dns/src/wire/packet/mod.rs:83-86. *)
Inductive Part := PLabel (r : Read) | PPointer (target end_ : Z).

(** [Part::end], src/layer2/dns/src/wire/packet/mod.rs:89-94. *)
Definition Part_end (self : Part) : Z :=
  match self with PLabel r => end_ r | PPointer _ e => e end.

(** [packet::bytes], src/layer2/dns/src/wire/packet/mod.rs:331-350. *)
Definition bytes_at (packet : bytes) (offset required : Z) : run LookupError.Packet Read :=
  let actual := Z.max 0 (len packet - offset) in
  let stop := offset + required in
  if stop <=? len packet
  then Ok (read (slice packet offset required) (as_u16 stop))
  else Err (LookupError.Truncated offset required actual).

(** [Mode], src/layer2/dns/src/wire/packet/raw.rs:23-50. *)
Class Mode (E : Type) := {
  m_check : run LookupError.Packet unit -> run E unit;
  m_read : bytes -> Z -> Z -> run E Read;
}.

(** [impl Mode for Checked], src/layer2/dns/src/wire/packet/raw.rs:52-66. *)
Definition Checked : Mode LookupError.Packet := {|
  m_check test := test;
  m_read := bytes_at;
|}.

(** [impl Mode for Validated], src/layer2/dns/src/wire/packet/raw.rs:68-88. The range of
    [get_unchecked] must lie in the packet. *)
Definition Validated : Mode Empty_set := {|
  m_check _ := Ok tt;
  m_read packet position length :=
    let start := position in
    let stop := start + length in
    if stop <=? len packet
    then Ok (read (slice packet start length) (as_u16 stop))
    else Stuck Undefined;
|}.

Section mode.
Context {E : Type} (M : Mode E).

(** [Mode::array], src/layer2/dns/src/wire/packet/raw.rs:40-49. *)
Definition array (N : Z) (packet : bytes) (position : Z) : run E (bytes * Z) :=
  let! r := m_read packet position N in Ok (bytes_ r, end_ r).

(** [Label::decode], src/layer2/dns/src/wire/packet/raw.rs:125-158. *)
Definition decode (packet : bytes) (position : Z) : run E Part :=
  let! (head, end1) := array 1 packet position in
  let length := byte_at head 0 in
  if Z.land length 0xc0 =? 0xc0 then
    let! (head2, end2) := array 2 packet position in
    let low := byte_at head2 1 in
    let target := of_be [Z.land length 0x3f; low] in
    let! _ := m_check
      (if (len packet <=? target) || (position <=? target)
       then Err (LookupError.Pointer position target (len packet))
       else Ok tt) in
    Ok (PPointer target end2)
  else
    let! _ := m_check
      (if negb (Z.land length 0xc0 =? 0)
       then Err (LookupError.Label position length)
       else Ok tt) in
    let! r := m_read packet end1 length in
    Ok (PLabel r).
End mode.
End Raw.

(** ** Cursors and records *)

Module Packet.
Import Raw.

(** [Packet], src/layer2/dns/src/wire/packet/mod.rs:26-28. *)
Definition Packet := bytes.

(** [Packet::try_new], src/layer2/dns/src/wire/packet/mod.rs:98-106. *)
Definition try_new (b : bytes) : run LookupError.Packet Packet :=
  if 65535 <? len b
  then Err (LookupError.Length (len b) 65535)
  else Ok b.

(** [Name], src/layer2/dns/src/wire/packet/mod.rs:37-40. *)
Definition Name := Z.

(** [Span], src/layer2/dns/src/wire/packet/raw.rs:10-14. *)
Record Span := span { s_start : Z; s_end : Z }.

(** [Record], src/layer2/dns/src/wire/packet/mod.rs:43-49. *)
Record Record_ := record_ {
  owner : Name; kind : Records.Kind; class : Records.Class_; ttl : Z; data : Span }.

(** [Cursor], src/layer2/dns/src/wire/packet/raw.rs:255-259. *)
Record Cursor := cursor { packet : Packet; position : Z }.

(** The loop of [Cursor::name] runs at most 128 times: every label adds at
    least two bytes to a prefix that stops the loop beyond 254. *)
Definition NAME_FUEL : nat := 128.
(** A name follows at most 32 pointers. *)
Definition HOP_FUEL : nat := 33.

Section mode.
Context {E : Type} (M : Mode E).

(** [Cursor::name], src/layer2/dns/src/wire/packet/raw.rs:166-200. The loop of [Cursor::name]. *)
Fixpoint name_loop (fuel : nat) (self : Cursor) (prefix : Z) : run E Cursor :=
  match fuel with
  | O => Stuck Fuel
  | S fuel =>
      let! part := decode M (packet self) (position self) in
      let self := cursor (packet self) (Part_end part) in
      match part with
      | PPointer _ _ => Ok self
      | PLabel label =>
          if len (bytes_ label) =? 0 then Ok self
          else
            let prefix := prefix + (len (bytes_ label) + 1) in
            let! _ := m_check
              (if Host.MAX_WIRE_LEN <? prefix + 1
               then Err (LookupError.NameLength (prefix + 1) Host.MAX_WIRE_LEN)
               else Ok tt) in
            name_loop fuel self prefix
      end
  end.

(** [Cursor::name], src/layer2/dns/src/wire/packet/raw.rs:166-200. *)
Definition name (self : Cursor) : run E (Name * Cursor) :=
  let offset := position self in
  let! self := name_loop NAME_FUEL self 0 in
  Ok (offset, self).

(** [Cursor::array], src/layer2/dns/src/wire/packet/raw.rs:210-215. *)
Definition c_array (N : Z) (self : Cursor) : run E (bytes * Cursor) :=
  let! (b, stop) := array M N (packet self) (position self) in
  Ok (b, cursor (packet self) stop).

(** [Cursor::u16], src/layer2/dns/src/wire/packet/raw.rs:202-204. *)
Definition u16 (self : Cursor) : run E (Z * Cursor) :=
  let! (b, self) := c_array 2 self in Ok (of_be b, self).

(** [Cursor::u32], src/layer2/dns/src/wire/packet/raw.rs:206-208. *)
Definition u32 (self : Cursor) : run E (Z * Cursor) :=
  let! (b, self) := c_array 4 self in Ok (of_be b, self).

(** [Cursor::bytes], src/layer2/dns/src/wire/packet/raw.rs:245-250. *)
Definition take_bytes (length : Z) (self : Cursor) : run E (bytes * Cursor) :=
  let! r := m_read (packet self) (position self) length in
  Ok (bytes_ r, cursor (packet self) (end_ r)).

(** [Cursor::record], src/layer2/dns/src/wire/packet/raw.rs:218-243. *)
Definition record (self : Cursor) : run E (Record_ * Cursor) :=
  let! (owner, self) := name self in
  let! (kind, self) := u16 self in
  let! (class, self) := u16 self in
  let! (ttl, self) := u32 self in
  let ttl :=
    if negb (kind =? Records.OPT) && negb (Z.land ttl 0x80000000 =? 0) then 0 else ttl in
  let! (length, self) := u16 self in
  let start := position self in
  let! (_, self) := take_bytes length self in
  Ok (record_ owner kind class ttl (span start (position self)), self).
End mode.

(** [Records], src/layer2/dns/src/wire/packet/mod.rs:52-55. *)
Record Records_ := records_ { r_cursor : Cursor; left : nat }.

(** [Records::next], src/layer2/dns/src/wire/packet/mod.rs:60-66. *)
Definition Records_next (self : Records_) : run Empty_set (option Record_ * Records_) :=
  match left self with
  | O => Ok (None, self)
  | S n =>
      let! (r, c) := record Validated (r_cursor self) in
      Ok (Some r, records_ c n)
  end.

(** [validated], src/layer2/dns/src/wire/packet/mod.rs:18-23. *)
Definition validated {E A} (result : run Empty_set A) : run E A :=
  map_err (fun never : Empty_set => match never with end) result.

(** A loop [for record in records] whose body threads a state. *)
Fixpoint for_records {E S} (count : nat) (body : S -> Record_ -> run E S)
    (self : Records_) (s : S) : run E S :=
  match count with
  | O => Stuck Fuel
  | Datatypes.S count =>
      let! (r, self) := validated (Records_next self) in
      match r with
      | None => Ok s
      | Some r => let! s := body s r in for_records count body self s
      end
  end.

(** [Cursor::records], src/layer2/dns/src/wire/packet/raw.rs:262-279. The loop [for _ in 0..count { read(self.record()?)?; }]. *)
Fixpoint records_loop {S} (count : nat) (read : S -> Record_ -> run LookupError.Packet S)
    (self : Cursor) (s : S) : run LookupError.Packet (Cursor * S) :=
  match count with
  | O => Ok (self, s)
  | Datatypes.S count =>
      let! (r, self) := record Checked self in
      let! s := read s r in
      records_loop count read self s
  end.

(** [Cursor::records], src/layer2/dns/src/wire/packet/raw.rs:262-279. The
    closure's captured state is threaded through. *)
Definition records {S} (count : Z) (read : S -> Record_ -> run LookupError.Packet S)
    (self : Cursor) (s : S) : run LookupError.Packet (Records_ * Cursor * S) :=
  let start := self in
  let! (self, s) := records_loop (Z.to_nat count) read self s in
  Ok (records_ (cursor (packet start) (position start)) (Z.to_nat count), self, s).

(** [Span::slice], src/layer2/dns/src/wire/packet/raw.rs:91-103. *)
Definition Span_slice (p : Packet) (self : Span) : run Empty_set bytes :=
  let! r := m_read (Mode := Validated) p (s_start self)
              (as_u16 (s_end self - s_start self)) in
  Ok (bytes_ r).

(** [Record::name], src/layer2/dns/src/wire/packet/mod.rs:270-283. *)
Definition Record_name (p : Packet) (self : Record_) : run LookupError.Packet Name :=
  let! (n, c) := name Checked (cursor p (s_start (data self))) in
  if negb (position c =? s_end (data self))
  then Err (LookupError.RecordName (position c) (s_end (data self)))
  else Ok n.

(** ** Labels of a name, across compression pointers *)

(** [MAX_POINTER_HOPS], src/layer2/dns/src/wire/packet/mod.rs:11-11. *)
Definition MAX_POINTER_HOPS : Z := 32.

(** [Labels], src/layer2/dns/src/wire/packet/mod.rs:71-76. *)
Record Labels := labels_ {
  l_packet : Packet; l_position : Z; pointer_hops : Z; expanded_len : Z }.

(** [Bound::labels], src/layer2/dns/src/wire/packet/mod.rs:239-250. *)
Definition labels (p : Packet) (n : Name) : Labels := labels_ p n 0 0.

(** [Labels::next], src/layer2/dns/src/wire/packet/mod.rs:289-328. The loop of [Labels::next]. *)
Fixpoint next_loop (fuel : nat) (self : Labels)
    : run LookupError.Packet (option bytes * Labels) :=
  match fuel with
  | O => Stuck Fuel
  | S fuel =>
      let! part := decode Checked (l_packet self) (l_position self) in
      match part with
      | PPointer target _ =>
          let hops := pointer_hops self + 1 in
          if MAX_POINTER_HOPS <? hops
          then Err (LookupError.PointerHops hops MAX_POINTER_HOPS)
          else next_loop fuel (labels_ (l_packet self) target hops (expanded_len self))
      | PLabel label =>
          if len (bytes_ label) =? 0 then Ok (None, self)
          else
            let total := expanded_len self + len (bytes_ label) + 1 in
            if Host.MAX_WIRE_LEN <? total + 1
            then Err (LookupError.NameLength (total + 1) Host.MAX_WIRE_LEN)
            else Ok (Some (bytes_ label),
                     labels_ (l_packet self) (end_ label) (pointer_hops self) total)
      end
  end.

(** [Labels::next], src/layer2/dns/src/wire/packet/mod.rs:289-328. An error
    is the item [Some(Err(error))], on which callers drop the iterator. *)
Definition Labels_next (self : Labels) : run LookupError.Packet (option bytes * Labels) :=
  next_loop HOP_FUEL self.

(** [Bound::eq_host], src/layer2/dns/src/wire/packet/mod.rs:131-149.
    The loop of [Bound::eq_host]; [expected] is the iterator over the labels
    of the host name. *)
Fixpoint eq_host_loop (actual : Labels) (expected : list bytes) : run LookupError.Packet bool :=
  let! (a, actual) := Labels_next actual in
  match a, expected with
  | Some a, e :: expected =>
      if negb (eq_ignore_ascii_case a e) then Ok false else eq_host_loop actual expected
  | None, [] => Ok true
  | _, _ => Ok false
  end.

(** [Bound::eq_host], src/layer2/dns/src/wire/packet/mod.rs:131-149. *)
Definition eq_host (p : Packet) (n : Name) (expected : Host.Name) : run LookupError.Packet bool :=
  eq_host_loop (labels p n) (Host.labels expected).

(** [Bound::compare_host], src/layer2/dns/src/wire/packet/mod.rs:151-196. The first byte of two labels of one length that differ beyond case. *)
Fixpoint first_mismatch (index offset : Z) (a e : bytes) : option HostError.Mismatch :=
  match a, e with
  | x :: a, y :: e =>
      if negb (to_ascii_lowercase x =? to_ascii_lowercase y)
      then Some (HostError.MLabelByte index offset x y)
      else first_mismatch index (offset + 1) a e
  | _, _ => None
  end.

(** [Bound::compare_host], src/layer2/dns/src/wire/packet/mod.rs:151-196. The loop of [Bound::compare_host]. *)
Fixpoint compare_host_loop (actual : Labels) (index : Z) (expected : list bytes)
    : run LookupError.Packet (option HostError.Mismatch) :=
  let! (a, actual) := Labels_next actual in
  match a, expected with
  | Some a, e :: expected =>
      if negb (len a =? len e)
      then Ok (Some (HostError.MLabelLength index (len a) (len e)))
      else
        match first_mismatch index 0 a e with
        | Some m => Ok (Some m)
        | None => compare_host_loop actual (index + 1) expected
        end
  | None, [] => Ok None
  | Some a, [] => Ok (Some (HostError.MExtraLabel index (len a)))
  | None, e :: _ => Ok (Some (HostError.MMissingLabel index (len e)))
  end.

(** [Bound::compare_host], src/layer2/dns/src/wire/packet/mod.rs:151-196. *)
Definition compare_host (p : Packet) (n : Name) (expected : Host.Name)
    : run LookupError.Packet (option HostError.Mismatch) :=
  compare_host_loop (labels p n) 0 (Host.labels expected).

(** [Bound::eq_name], src/layer2/dns/src/wire/packet/mod.rs:198-216.
    The loop of [Bound::eq_name]. A name has at most 127 labels, so 128
    rounds reach its end. *)
Fixpoint eq_name_loop (fuel : nat) (actual expected : Labels) : run LookupError.Packet bool :=
  match fuel with
  | O => Stuck Fuel
  | S fuel =>
      let! (a, actual) := Labels_next actual in
      let! (e, expected) := Labels_next expected in
      match a, e with
      | Some a, Some e =>
          if negb (eq_ignore_ascii_case a e) then Ok false
          else eq_name_loop fuel actual expected
      | None, None => Ok true
      | _, _ => Ok false
      end
  end.

(** [Bound::eq_name], src/layer2/dns/src/wire/packet/mod.rs:198-216. *)
Definition eq_name (p : Packet) (actual expected : Name) : run LookupError.Packet bool :=
  eq_name_loop NAME_FUEL (labels p actual) (labels p expected).

(** [Bound::compare_root], src/layer2/dns/src/wire/packet/mod.rs:218-230. *)
Definition compare_root (p : Packet) (n : Name)
    : run LookupError.Packet (option HostError.Mismatch) :=
  let! (a, _) := Labels_next (labels p n) in
  Ok (match a with
      | Some a => Some (HostError.MExtraLabel 0 (len a))
      | None => None
      end).

(** ** Validated names *)

(** [Expanded], src/layer2/dns/src/wire/packet/expanded.rs:7-11. *)
Record Expanded := expanded { x_packet : Packet; x_position : Z; remaining : Z }.

(** [Expanded::try_new], src/layer2/dns/src/wire/packet/expanded.rs:14-22. The loop [while scan.next().transpose()?.is_some() {}]. *)
Fixpoint scan_loop (fuel : nat) (scan : Labels) : run LookupError.Packet Labels :=
  match fuel with
  | O => Stuck Fuel
  | S fuel =>
      let! (a, scan) := Labels_next scan in
      match a with
      | Some _ => scan_loop fuel scan
      | None => Ok scan
      end
  end.

(** [Expanded::try_new], src/layer2/dns/src/wire/packet/expanded.rs:14-22. *)
Definition Expanded_try_new (ls : Labels) : run LookupError.Packet Expanded :=
  let! scan := scan_loop NAME_FUEL ls in
  Ok (expanded (l_packet ls) (l_position ls) (expanded_len scan)).

(** [Bound::expand], src/layer2/dns/src/wire/packet/mod.rs:232-237. *)
Definition expand (p : Packet) (n : Name) : run LookupError.Packet Expanded :=
  Expanded_try_new (labels p n).

(** [Expanded::next], src/layer2/dns/src/wire/packet/expanded.rs:32-55. The loop of [Expanded::next]; [usize] subtraction below zero panics. *)
Fixpoint Expanded_loop (fuel : nat) (self : Expanded) : run Empty_set (option bytes * Expanded) :=
  match fuel with
  | O => Stuck Fuel
  | S fuel =>
      let! part := decode Validated (x_packet self) (x_position self) in
      match part with
      | PPointer target _ => Expanded_loop fuel (expanded (x_packet self) target (remaining self))
      | PLabel label =>
          let n := len (bytes_ label) + 1 in
          if remaining self <? n then Stuck Panic
          else Ok (Some (bytes_ label), expanded (x_packet self) (end_ label) (remaining self - n))
      end
  end.

(** [Expanded::next], src/layer2/dns/src/wire/packet/expanded.rs:32-55. *)
Definition Expanded_next (self : Expanded) : run Empty_set (option bytes * Expanded) :=
  if remaining self =? 0 then Ok (None, self) else Expanded_loop HOP_FUEL self.

(** [Expanded::next], src/layer2/dns/src/wire/packet/expanded.rs:32-55. The items of the iterator, in order. *)
Fixpoint Expanded_items (fuel : nat) (self : Expanded) : run Empty_set (list bytes) :=
  match fuel with
  | O => Stuck Fuel
  | S fuel =>
      let! (a, self) := Expanded_next self in
      match a with
      | None => Ok []
      | Some a => let! rest := Expanded_items fuel self in Ok (a :: rest)
      end
  end.

(** [Expanded::into_parts], src/layer2/dns/src/wire/packet/expanded.rs:24-26. *)
Definition into_parts (self : Expanded) : run Empty_set (option Z * list bytes) :=
  let! items := Expanded_items NAME_FUEL self in
  Ok (if 1 <=? remaining self then Some (remaining self - 1) else None, items).
End Packet.
