(* ===== verification/PacketFacts.v ===== *)
(** * Packet reading: what the two modes promise each other.

    Lemmas and properties of [Packet]. [Spells] is the specification of a
    compressed domain name; every traversal of the packet code is compared
    with it. *)

From S2P Require Import Prelude Depot Errors Host Packet.

Import Raw Packet.

(** ** Names on the wire *)

(** [Spells p pos h ls]: at [pos] the packet holds the labels [ls], reached
    across [h] compression pointers, each to an earlier byte. *)
Inductive Spells (p : bytes) : Z -> Z -> list bytes -> Prop :=
  | Spells_end pos : p !! Z.to_nat pos = Some 0 -> Spells p pos 0 []
  | Spells_label pos n h ls :
      p !! Z.to_nat pos = Some n -> 1 <= n < 64 -> pos + 1 + n <= len p ->
      Spells p (pos + 1 + n) h ls ->
      Spells p pos h (slice p (pos + 1) n :: ls)
  | Spells_pointer pos hi lo h ls :
      p !! Z.to_nat pos = Some hi -> 192 <= hi -> p !! Z.to_nat (pos + 1) = Some lo ->
      (hi - 192) * 256 + lo < pos ->
      Spells p ((hi - 192) * 256 + lo) h ls ->
      Spells p pos (h + 1) ls.

(** The bytes the labels take with their length bytes, the root label apart. *)
Definition wire_size (ls : list bytes) : Z := foldr (fun l n => len l + 1 + n) 0 ls.

(** A packet the decoder accepts: at most 65535 bytes. *)
Definition packet_ok (p : bytes) : Prop := Forall is_byte p /\ len p <= 65535.

(** The name at [pos] spells [ls] within the limits of the reader. *)
Definition reads_as (p : bytes) (pos : Z) (ls : list bytes) : Prop :=
  exists h, Spells p pos h ls /\ h <= MAX_POINTER_HOPS /\ wire_size ls + 1 <= Host.MAX_WIRE_LEN.

(** ** Bits of a length byte *)

Section bits.
Definition tag_facts (b : Z) : bool :=
  Bool.eqb (Z.land b 0xc0 =? 0xc0) (192 <=? b) &&
  Bool.eqb (Z.land b 0xc0 =? 0) (b <? 64) &&
  (if 192 <=? b then Z.land b 0x3f =? b - 192 else true).

Lemma tag_facts_all b : is_byte b -> tag_facts b = true.
Proof.
  intros Hb.
  assert (Hall : forallb tag_facts (map Z.of_nat (seq 0 256)) = true) by by vm_compute.
  rewrite forallb_forall in Hall. apply Hall. unfold is_byte in Hb.
  apply in_map_iff. exists (Z.to_nat b). split; [lia|]. apply in_seq. lia.
Qed.

Lemma tag_pointer b : is_byte b -> (Z.land b 0xc0 =? 0xc0) = (192 <=? b).
Proof. intros Hb. pose proof (tag_facts_all b Hb) as H. unfold tag_facts in H. zbool. by apply eqb_prop. Qed.
Lemma tag_label b : is_byte b -> (Z.land b 0xc0 =? 0) = (b <? 64).
Proof. intros Hb. pose proof (tag_facts_all b Hb) as H. unfold tag_facts in H. zbool. by apply eqb_prop. Qed.
Lemma tag_low b : is_byte b -> 192 <= b -> Z.land b 0x3f = b - 192.
Proof.
  intros Hb Hl. pose proof (tag_facts_all b Hb) as H. unfold tag_facts in H. zbool.
  apply Z.leb_le in Hl. rewrite Hl in *. by zbool.
Qed.
End bits.

Lemma byte_of p i b : Forall is_byte p -> p !! i = Some b -> is_byte b.
Proof. intros Hp Hi. by eapply Forall_lookup_1. Qed.

Lemma lookup_len (p : bytes) i b : 0 <= i -> p !! Z.to_nat i = Some b -> i < len p.
Proof. intros ? Hi. apply lookup_lt_Some in Hi. unfold len. lia. Qed.

Lemma slice_head p pos n : 0 <= pos -> 1 <= n -> byte_at (slice p pos n) 0 = byte_at p (Z.to_nat pos).
Proof.
  intros. unfold byte_at, slice. rewrite lookup_take_lt by lia. by rewrite lookup_drop, Nat.add_0_r.
Qed.
Lemma slice_second p pos n :
  0 <= pos -> 2 <= n -> byte_at (slice p pos n) 1 = byte_at p (Z.to_nat (pos + 1)).
Proof.
  intros. unfold byte_at, slice. rewrite lookup_take_lt by lia. rewrite lookup_drop.
  do 2 f_equal. lia.
Qed.

Lemma lookup_byte_at (p : bytes) i : 0 <= i < len p -> p !! Z.to_nat i = Some (byte_at p (Z.to_nat i)).
Proof.
  intros Hi. unfold byte_at, len in *. destruct (lookup_lt_is_Some_2 p (Z.to_nat i)) as [b Hb]; [lia|].
  by rewrite Hb.
Qed.

(** ** Decoding one label *)

Definition part_at (p : bytes) (pos : Z) (part : Part) : Prop :=
  exists b, p !! Z.to_nat pos = Some b /\
    match part with
    | PLabel r => b < 64 /\ pos + 1 + b <= len p /\ r = read (slice p (pos + 1) b) (pos + 1 + b)
    | PPointer target e =>
        192 <= b /\ e = pos + 2 /\ target < pos /\
        exists lo, p !! Z.to_nat (pos + 1) = Some lo /\ target = (b - 192) * 256 + lo
    end.

Lemma bytes_at_Ok p off n r :
  len p <= 65535 -> 0 <= off -> 0 <= n ->
  bytes_at p off n = Ok r <-> off + n <= len p /\ r = read (slice p off n) (off + n).
Proof.
  intros. unfold bytes_at. destruct (_ <=? _) eqn:E; zbool; [|naive_solver lia].
  rewrite as_u16_small by lia. naive_solver.
Qed.

Lemma bytes_at_not_stuck p off n : not_stuck (bytes_at p off n).
Proof. unfold bytes_at. by destruct (_ <=? _). Qed.
#[export] Hint Resolve bytes_at_not_stuck : run.

Lemma array_Ok p off n b e :
  len p <= 65535 -> 0 <= off -> 0 <= n ->
  array Checked n p off = Ok (b, e) <-> off + n <= len p /\ b = slice p off n /\ e = off + n.
Proof.
  intros. unfold array. simpl m_read. rewrite bind_Ok. setoid_rewrite bytes_at_Ok; [|done..].
  naive_solver.
Qed.

Lemma array_not_stuck n p off : not_stuck (array Checked n p off).
Proof. unfold array. apply not_stuck_bind; [apply bytes_at_not_stuck|done]. Qed.

Lemma decode_not_stuck p pos : not_stuck (decode Checked p pos).
Proof.
  unfold decode. apply not_stuck_bind; [apply array_not_stuck|]. intros [h e] _.
  destruct (_ =? _).
  - apply not_stuck_bind; [apply array_not_stuck|]. intros [h2 e2] _.
    simpl. by destruct (_ || _).
  - simpl. destruct (negb _); simpl; [done|].
    apply not_stuck_bind; [apply bytes_at_not_stuck|done].
Qed.

Lemma decode_sound p pos part :
  packet_ok p -> 0 <= pos -> decode Checked p pos = Ok part -> part_at p pos part.
Proof.
  intros [Hp Hl] Hpos. unfold decode. intros Hd.
  apply bind_Ok in Hd as ([h e] & Ha & Hd). apply array_Ok in Ha as (H1 & -> & ->); [|lia..].
  rewrite slice_head in Hd by lia.
  assert (Hb : p !! Z.to_nat pos = Some (byte_at p (Z.to_nat pos))) by (apply lookup_byte_at; lia).
  set (b := byte_at p (Z.to_nat pos)) in *. pose proof (byte_of _ _ _ Hp Hb) as Hbyte.
  exists b. split; [done|]. rewrite tag_pointer, tag_label in Hd by done.
  destruct (192 <=? b) eqn:Eb; zbool.
  - apply bind_Ok in Hd as ([h2 e2] & Ha & Hd). apply array_Ok in Ha as (H2 & -> & ->); [|lia..].
    rewrite slice_second in Hd by lia. rewrite tag_low in Hd by done.
    assert (Hlo : p !! Z.to_nat (pos + 1) = Some (byte_at p (Z.to_nat (pos + 1))))
      by (apply lookup_byte_at; lia).
    set (lo := byte_at p (Z.to_nat (pos + 1))) in *.
    change (of_be [b - 192; lo]) with ((0 * 256 + (b - 192)) * 256 + lo) in Hd.
    simpl m_check in Hd. destruct (_ || _) eqn:E; simpl in Hd; [done|]. injection Hd as <-.
    zbool. repeat split; try lia. exists lo. split; [done|lia].
  - destruct (b <? 64) eqn:E64; simpl in Hd; [|done]. zbool.
    apply bind_Ok in Hd as (r & Hr & [= <-]). unfold is_byte in Hbyte.
    apply bytes_at_Ok in Hr as [? ->]; [|lia..]. repeat split; try lia.
Qed.

Lemma decode_complete p pos part :
  packet_ok p -> 0 <= pos -> part_at p pos part -> decode Checked p pos = Ok part.
Proof.
  intros [Hp Hl] Hpos (b & Hb & Hpart). pose proof (lookup_len _ _ _ Hpos Hb).
  pose proof (byte_of _ _ _ Hp Hb) as Hbyte. unfold is_byte in *.
  assert (Hat : byte_at p (Z.to_nat pos) = b) by (unfold byte_at; by rewrite Hb).
  unfold decode. rewrite (proj2 (array_Ok p pos 1 (slice p pos 1) (pos + 1) Hl Hpos ltac:(lia)))
    by (repeat split; lia). cbn [bind].
  rewrite slice_head, Hat, tag_pointer, tag_label by (done || lia).
  destruct part as [r|t e].
  - destruct Hpart as (? & ? & ->). destruct (192 <=? b) eqn:E1; zbool; [lia|].
    destruct (b <? 64) eqn:E2; zbool; [|lia]. simpl.
    by rewrite (proj2 (bytes_at_Ok p (pos + 1) b (read (slice p (pos + 1) b) (pos + 1 + b))
      Hl ltac:(lia) ltac:(lia))).
  - destruct Hpart as (? & -> & ? & lo & Hlo & ->).
    pose proof (lookup_len p (pos + 1) lo ltac:(lia) Hlo).
    destruct (192 <=? b) eqn:E1; zbool; [|lia].
    rewrite (proj2 (array_Ok p pos 2 (slice p pos 2) (pos + 2) Hl Hpos ltac:(lia)))
      by (repeat split; lia). cbn [bind].
    assert (Hat2 : byte_at p (Z.to_nat (pos + 1)) = lo) by (unfold byte_at; by rewrite Hlo).
    rewrite slice_second, Hat2, tag_low by (done || lia).
    change (of_be [b - 192; lo]) with ((0 * 256 + (b - 192)) * 256 + lo).
    replace ((0 * 256 + (b - 192)) * 256 + lo) with ((b - 192) * 256 + lo) by lia.
    simpl. destruct (_ || _) eqn:E; [|done]. zbool. destruct E; zbool; lia.
Qed.

(** A label other than the root has 1 to 63 bytes. *)
Lemma part_label_len p pos r :
  packet_ok p -> 0 <= pos -> part_at p pos (PLabel r) -> p !! Z.to_nat pos = Some (len (bytes_ r)) /\
  0 <= len (bytes_ r) < 64 /\ end_ r = pos + 1 + len (bytes_ r) /\ end_ r <= len p /\
  bytes_ r = slice p (pos + 1) (len (bytes_ r)).
Proof.
  intros [Hp Hl] Hpos (b & Hb & ? & ? & ->). pose proof (byte_of _ _ _ Hp Hb) as Hbyte.
  unfold is_byte in *. simpl. rewrite len_slice by lia. repeat split; try done; lia.
Qed.

(** ** The validated mode repeats the checked mode *)

Definition replays {A} (checked : run LookupError.Packet A) (validated : run Empty_set A) : Prop :=
  forall a, checked = Ok a -> validated = Ok a.

Lemma replays_bind {A B} m m' (k : A -> run LookupError.Packet B) k' :
  replays m m' -> (forall a, replays (k a) (k' a)) -> replays (bind m k) (bind m' k').
Proof. intros Hm Hk b Hb. apply bind_Ok in Hb as (a & Ha & Hb). rewrite (Hm a Ha). by apply Hk. Qed.

Lemma replays_ret {A} (a : A) : replays (Ok a) (Ok a).
Proof. by intros b [= ->]. Qed.

Lemma replays_check {A} test (k : unit -> run LookupError.Packet A) k' :
  replays (k tt) (k' tt) ->
  replays (bind (m_check (Mode := Checked) test) k) (bind (m_check (Mode := Validated) test) k').
Proof. intros Hk b Hb. apply bind_Ok in Hb as ([] & _ & Hb). by apply Hk. Qed.

Lemma replays_read p off n : replays (bytes_at p off n) (m_read (Mode := Validated) p off n).
Proof. intros r. unfold bytes_at. simpl. destruct (_ <=? _); [by intros [= <-]|done]. Qed.

Lemma replays_array n p off : replays (array Checked n p off) (array Validated n p off).
Proof. apply replays_bind; [apply replays_read|]. intros. apply replays_ret. Qed.

#[export] Hint Resolve replays_ret replays_read replays_array : run.

Lemma replays_decode p pos : replays (decode Checked p pos) (decode Validated p pos).
Proof.
  unfold decode. apply replays_bind; [apply replays_array|]. intros [h e]. destruct (_ =? _).
  - apply replays_bind; [apply replays_array|]. intros [h2 e2]. apply replays_check, replays_ret.
  - apply replays_check. apply replays_bind; [apply replays_read|]. intros. apply replays_ret.
Qed.

Lemma replays_name_loop fuel : forall c prefix,
  replays (name_loop Checked fuel c prefix) (name_loop Validated fuel c prefix).
Proof.
  induction fuel as [|fuel IH]; intros c prefix; [intros ? [=]|]. cbn [name_loop].
  apply replays_bind; [apply replays_decode|]. intros [r|t e]; [|apply replays_ret].
  destruct (_ =? _); [apply replays_ret|]. apply replays_check, IH.
Qed.

Lemma replays_name c : replays (name Checked c) (name Validated c).
Proof. apply replays_bind; [apply replays_name_loop|]. intros. apply replays_ret. Qed.

Lemma replays_c_array n c : replays (c_array Checked n c) (c_array Validated n c).
Proof. apply replays_bind; [apply replays_array|]. intros []. apply replays_ret. Qed.

Lemma replays_u16 c : replays (u16 Checked c) (u16 Validated c).
Proof. apply replays_bind; [apply replays_c_array|]. intros []. apply replays_ret. Qed.

Lemma replays_u32 c : replays (u32 Checked c) (u32 Validated c).
Proof. apply replays_bind; [apply replays_c_array|]. intros []. apply replays_ret. Qed.

Lemma replays_take_bytes n c : replays (take_bytes Checked n c) (take_bytes Validated n c).
Proof. apply replays_bind; [apply replays_read|]. intros. apply replays_ret. Qed.

#[export] Hint Resolve replays_name replays_u16 replays_u32 replays_take_bytes : run.

Lemma replays_record c : replays (record Checked c) (record Validated c).
Proof.
  unfold record. repeat (apply replays_bind; [auto with run|]; intros [? ?]). apply replays_ret.
Qed.

(** ** The checked mode is total *)

Lemma name_loop_not_stuck fuel : forall c prefix,
  256 - prefix <= 2 * Z.of_nat fuel -> prefix <= 254 ->
  not_stuck (name_loop Checked fuel c prefix).
Proof.
  induction fuel as [|fuel IH]; intros c prefix Hf Hp; [lia|]. cbn [name_loop].
  apply not_stuck_bind; [apply decode_not_stuck|]. intros [r|t e] _; [|done].
  destruct (_ =? 0) eqn:E; zbool; [done|]. simpl.
  pose proof (len_nonneg (bytes_ r)). destruct (_ <? _) eqn:E2; simpl; [done|]. zbool.
  unfold Host.MAX_WIRE_LEN, Host.MAX_PRESENTATION_LEN in *. apply IH; lia.
Qed.

Lemma name_not_stuck c : not_stuck (name Checked c).
Proof.
  apply not_stuck_bind; [|done]. apply name_loop_not_stuck; unfold NAME_FUEL; lia.
Qed.

Lemma c_array_not_stuck n c : not_stuck (c_array Checked n c).
Proof. apply not_stuck_bind; [apply array_not_stuck|]. by intros [] _. Qed.
Lemma u16_not_stuck c : not_stuck (u16 Checked c).
Proof. apply not_stuck_bind; [apply c_array_not_stuck|]. by intros [] _. Qed.
Lemma u32_not_stuck c : not_stuck (u32 Checked c).
Proof. apply not_stuck_bind; [apply c_array_not_stuck|]. by intros [] _. Qed.
Lemma take_bytes_not_stuck n c : not_stuck (take_bytes Checked n c).
Proof. apply not_stuck_bind; [apply bytes_at_not_stuck|done]. Qed.
#[export] Hint Resolve name_not_stuck u16_not_stuck u32_not_stuck take_bytes_not_stuck : run.

Lemma record_not_stuck c : not_stuck (record Checked c).
Proof.
  unfold record. repeat (apply not_stuck_bind; [auto with run|]; intros [? ?] _). done.
Qed.

Lemma next_loop_not_stuck fuel : forall l,
  33 <= pointer_hops l + Z.of_nat fuel -> pointer_hops l <= 32 -> not_stuck (next_loop fuel l).
Proof.
  induction fuel as [|fuel IH]; intros l Hf Hh; [lia|]. cbn [next_loop].
  apply not_stuck_bind; [apply decode_not_stuck|]. intros [r|t e] _.
  - destruct (_ =? 0); [done|]. by destruct (_ <? _).
  - destruct (_ <? _) eqn:E; [done|]. zbool. unfold MAX_POINTER_HOPS in *. apply IH; simpl; lia.
Qed.

(** An iterator no error has stopped yet. *)
Definition labels_ok (l : Labels) : Prop :=
  0 <= pointer_hops l <= 32 /\ 0 <= expanded_len l <= 254.

Lemma next_loop_ok fuel : forall l o l',
  labels_ok l -> next_loop fuel l = Ok (o, l') ->
  labels_ok l' /\ (forall a, o = Some a -> expanded_len l + 2 <= expanded_len l').
Proof.
  induction fuel as [|fuel IH]; intros l o l' Hl; [done|]. cbn [next_loop].
  intros Hn. apply bind_Ok in Hn as ([r|t e] & _ & Hn).
  - destruct (_ =? 0) eqn:E0; [injection Hn as <- <-; split; [done|intros ? [=]]|]. zbool.
    destruct (_ <? _) eqn:E1; [done|]. zbool. injection Hn as <- <-.
    pose proof (len_nonneg (bytes_ r)).
    unfold labels_ok, Host.MAX_WIRE_LEN, Host.MAX_PRESENTATION_LEN in *; simpl.
    split; [lia|]. intros. lia.
  - destruct (_ <? _) eqn:E1; [done|]. zbool. apply IH in Hn; [done|].
    unfold labels_ok, MAX_POINTER_HOPS in *; simpl. lia.
Qed.

Lemma Labels_next_not_stuck l : labels_ok l -> not_stuck (Labels_next l).
Proof. intros [? ?]. apply next_loop_not_stuck; unfold HOP_FUEL; lia. Qed.

Lemma Labels_next_eq l : Labels_next l = next_loop HOP_FUEL l.
Proof. reflexivity. Qed.

Lemma Labels_next_ok l o l' :
  labels_ok l -> Labels_next l = Ok (o, l') ->
  labels_ok l' /\ (forall a, o = Some a -> expanded_len l + 2 <= expanded_len l').
Proof. rewrite Labels_next_eq. apply next_loop_ok. Qed.

Lemma labels_start_ok p n : labels_ok (labels p n).
Proof. split; simpl; lia. Qed.
#[export] Hint Resolve Labels_next_not_stuck labels_start_ok : run.

Lemma eq_host_loop_not_stuck ls : forall l, labels_ok l -> not_stuck (eq_host_loop l ls).
Proof.
  induction ls as [|e ls IH]; intros l Hl; cbn [eq_host_loop];
    (apply not_stuck_bind; [by apply Labels_next_not_stuck|]);
    intros [[a|] l'] Hn; try done.
  destruct (negb _); [done|]. apply IH. exact (proj1 (Labels_next_ok _ _ _ Hl Hn)).
Qed.

Lemma compare_host_loop_not_stuck ls : forall l i, labels_ok l -> not_stuck (compare_host_loop l i ls).
Proof.
  induction ls as [|e ls IH]; intros l i Hl; cbn [compare_host_loop];
    (apply not_stuck_bind; [by apply Labels_next_not_stuck|]);
    intros [[a|] l'] Hn; try done.
  destruct (negb _); [done|]. destruct (first_mismatch _ _ _ _); [done|].
  apply IH. exact (proj1 (Labels_next_ok _ _ _ Hl Hn)).
Qed.

Lemma eq_name_loop_not_stuck fuel : forall l m, labels_ok l -> labels_ok m ->
  256 - expanded_len l <= 2 * Z.of_nat fuel -> not_stuck (eq_name_loop fuel l m).
Proof.
  induction fuel as [|fuel IH]; intros l m Hl Hm Hf; [destruct Hl; lia|]. cbn [eq_name_loop].
  apply not_stuck_bind; [by apply Labels_next_not_stuck|]. intros [a l'] Hn.
  apply not_stuck_bind; [by apply Labels_next_not_stuck|]. intros [e m'] Hn'.
  apply Labels_next_ok in Hn as [? Hgrow]; [|assumption].
  apply Labels_next_ok in Hn' as [? _]; [|assumption].
  destruct a as [a|], e as [e|]; try done. destruct (negb _); [done|].
  specialize (Hgrow a eq_refl). apply IH; [done..|lia].
Qed.

Lemma scan_loop_not_stuck fuel : forall l, labels_ok l ->
  256 - expanded_len l <= 2 * Z.of_nat fuel -> not_stuck (scan_loop fuel l).
Proof.
  induction fuel as [|fuel IH]; intros l Hl Hf; [destruct Hl; lia|]. cbn [scan_loop].
  apply not_stuck_bind; [by apply Labels_next_not_stuck|]. intros [[a|] l'] Hn; [|done].
  apply Labels_next_ok in Hn as [? Hgrow]; [|assumption]. specialize (Hgrow a eq_refl).
  apply IH; [done|lia].
Qed.

Lemma records_loop_not_stuck {S} count (f : S -> Record_ -> run LookupError.Packet S) : 
  (forall s r, not_stuck (f s r)) ->
  forall c s, not_stuck (records_loop count f c s).
Proof.
  intros Hf. induction count as [|count IH]; intros c s; [done|]. cbn [records_loop].
  apply not_stuck_bind; [apply record_not_stuck|]. intros [r c'] _.
  apply not_stuck_bind; [apply Hf|]. intros. apply IH.
Qed.

Lemma Record_name_not_stuck p r : not_stuck (Record_name p r).
Proof.
  apply not_stuck_bind; [apply name_not_stuck|]. intros [n c] _. by destruct (negb _).
Qed.

Lemma eq_host_not_stuck p n h : not_stuck (eq_host p n h).
Proof. apply eq_host_loop_not_stuck, labels_start_ok. Qed.
Lemma compare_host_not_stuck p n h : not_stuck (compare_host p n h).
Proof. apply compare_host_loop_not_stuck, labels_start_ok. Qed.
Lemma eq_name_not_stuck p n m : not_stuck (eq_name p n m).
Proof.
  apply eq_name_loop_not_stuck; [apply labels_start_ok..|].
  change (expanded_len _) with 0. unfold NAME_FUEL. lia.
Qed.
Lemma compare_root_not_stuck p n : not_stuck (compare_root p n).
Proof. apply not_stuck_bind; [auto with run|]. by intros [] _. Qed.
Lemma expand_not_stuck p n : not_stuck (expand p n).
Proof.
  apply not_stuck_bind; [|done]. apply scan_loop_not_stuck; [apply labels_start_ok|].
  change (expanded_len _) with 0. unfold NAME_FUEL. lia.
Qed.
#[export] Hint Resolve record_not_stuck Record_name_not_stuck eq_host_not_stuck
  compare_host_not_stuck eq_name_not_stuck compare_root_not_stuck expand_not_stuck : run.

(** ** Positions stay inside the packet *)

Definition cursor_ok (c : Cursor) : Prop :=
  packet_ok (packet c) /\ 0 <= position c <= len (packet c).

(** [c'] reads the same packet, [n] bytes or more further on. *)
Definition advanced (n : Z) (c c' : Cursor) : Prop :=
  cursor_ok c' /\ packet c' = packet c /\ position c + n <= position c'.

Lemma advanced_trans m n c c' c'' : advanced m c c' -> advanced n c' c'' -> advanced (m + n) c c''.
Proof. unfold advanced. intros (? & ? & ?) (? & ? & ?). split; [done|]. split; [congruence|lia]. Qed.

Lemma name_loop_advanced fuel : forall c prefix c',
  cursor_ok c -> name_loop Checked fuel c prefix = Ok c' -> advanced 1 c c'.
Proof.
  induction fuel as [|fuel IH]; intros c prefix c' Hc; [done|]. cbn [name_loop].
  intros Hn. apply bind_Ok in Hn as (part & Hd & Hn). destruct Hc as [Hp Hpos].
  apply decode_sound in Hd; [|done|lia]. destruct part as [r|t e].
  - destruct (part_label_len _ _ _ Hp (proj1 Hpos) Hd) as (_ & Hlen & He & Hin & _).
    assert (Hc1 : advanced 1 c (cursor (packet c) (end_ r))).
    { repeat split; simpl; try apply Hp; try done; lia. }
    destruct (_ =? 0) eqn:E; simpl in Hn; [by injection Hn as <-|].
    apply bind_Ok in Hn as (_ & _ & Hn). apply IH in Hn; [|apply Hc1].
    pose proof (advanced_trans _ _ _ _ _ Hc1 Hn) as (? & ? & ?).
    repeat split; try done; try apply H; lia.
  - injection Hn as <-. destruct Hd as (b & Hb & ? & -> & ? & lo & Hlo & ->).
    pose proof (lookup_len (packet c) (position c + 1) lo ltac:(lia) Hlo).
    repeat split; simpl; try apply Hp; try done; lia.
Qed.

Lemma name_advanced c n c' :
  cursor_ok c -> name Checked c = Ok (n, c') -> n = position c /\ advanced 1 c c'.
Proof.
  unfold name. intros Hc Hn. apply bind_Ok in Hn as (c1 & Hn & [= <- <-]).
  split; [done|]. by eapply name_loop_advanced.
Qed.

Lemma c_array_advanced n c b c' : 0 <= n ->
  cursor_ok c -> c_array Checked n c = Ok (b, c') ->
  b = slice (packet c) (position c) n /\ position c' = position c + n /\ advanced n c c'.
Proof.
  unfold c_array. intros Hn [[Hp Hl] Hpos] Ha. apply bind_Ok in Ha as ([b1 e] & Ha & [= <- <-]).
  apply array_Ok in Ha as (? & -> & ->); [|lia..]. repeat split; simpl; try done; lia.
Qed.

Lemma of_be_bound l : Forall is_byte l -> 0 <= of_be l < 256 ^ len l.
Proof.
  induction l as [|b l IH] using rev_ind; intros Hf; [by vm_compute|].
  apply Forall_app in Hf as [Hf Hb]. apply Forall_cons in Hb as [Hb _].
  rewrite of_be_app. simpl. specialize (IH Hf). rewrite len_app, len_cons, len_nil.
  replace (len l + (1 + 0)) with (len l + 1) by lia.
  rewrite Z.pow_add_r by (try apply len_nonneg; lia). unfold is_byte in Hb. lia.
Qed.

Lemma slice_bytes p off n : Forall is_byte p -> Forall is_byte (slice p off n).
Proof. intros. unfold slice. by apply Forall_take, Forall_drop. Qed.

Lemma u16_advanced c v c' : cursor_ok c -> u16 Checked c = Ok (v, c') ->
  v = of_be (slice (packet c) (position c) 2) /\ 0 <= v < 65536 /\
  position c' = position c + 2 /\ advanced 2 c c'.
Proof.
  unfold u16. intros Hc Hu. apply bind_Ok in Hu as ([b c1] & Ha & [= <- <-]).
  apply c_array_advanced in Ha as (-> & ? & Hadv); [|lia|done].
  split; [done|]. split; [|done]. destruct Hc as [[Hp _] Hpos], Hadv as ((_ & Hc1) & Hpk & ?).
  pose proof (of_be_bound _ (slice_bytes _ (position c) 2 Hp)) as Hb.
  rewrite len_slice in Hb by (rewrite <- ?Hpk; lia). done.
Qed.

Lemma u32_advanced c v c' : cursor_ok c -> u32 Checked c = Ok (v, c') ->
  v = of_be (slice (packet c) (position c) 4) /\ 0 <= v < 2 ^ 32 /\
  position c' = position c + 4 /\ advanced 4 c c'.
Proof.
  unfold u32. intros Hc Hu. apply bind_Ok in Hu as ([b c1] & Ha & [= <- <-]).
  apply c_array_advanced in Ha as (-> & ? & Hadv); [|lia|done].
  split; [done|]. split; [|done]. destruct Hc as [[Hp _] Hpos], Hadv as ((_ & Hc1) & Hpk & ?).
  pose proof (of_be_bound _ (slice_bytes _ (position c) 4 Hp)) as Hb.
  rewrite len_slice in Hb by (rewrite <- ?Hpk; lia). done.
Qed.

Lemma take_bytes_advanced n c b c' : 0 <= n -> cursor_ok c -> take_bytes Checked n c = Ok (b, c') ->
  b = slice (packet c) (position c) n /\ position c' = position c + n /\ advanced n c c'.
Proof.
  unfold take_bytes. simpl m_read. intros Hn [[Hp Hl] Hpos] Ha.
  apply bind_Ok in Ha as (r & Ha & [= <- <-]).
  apply bytes_at_Ok in Ha as [? ->]; [|lia..]. repeat split; simpl; try done; lia.
Qed.

(** The data of a record lies in the packet, after the record's header. *)
Definition span_ok (p : bytes) (s : Span) : Prop := 0 <= s_start s <= s_end s /\ s_end s <= len p.

Lemma record_advanced c r c' :
  cursor_ok c -> record Checked c = Ok (r, c') ->
  advanced 11 c c' /\ span_ok (packet c) (data r) /\ owner r = position c /\
  s_end (data r) = position c' /\ 0 <= ttl r < 2 ^ 32 /\ 0 <= kind r < 65536 /\ 0 <= class r < 65536.
Proof.
  unfold record. intros Hc Hr.
  apply bind_Ok in Hr as ([n c1] & Hn & Hr). apply name_advanced in Hn as [-> A1]; [|done].
  apply bind_Ok in Hr as ([k c2] & Hk & Hr). apply u16_advanced in Hk as (_ & Hk & _ & A2); [|apply A1].
  apply bind_Ok in Hr as ([cl c3] & Hcl & Hr). apply u16_advanced in Hcl as (_ & Hcl & _ & A3); [|apply A2].
  apply bind_Ok in Hr as ([t c4] & Ht & Hr). apply u32_advanced in Ht as (_ & Ht & _ & A4); [|apply A3].
  apply bind_Ok in Hr as ([l c5] & Hl & Hr). apply u16_advanced in Hl as (_ & Hl & _ & A5); [|apply A4].
  apply bind_Ok in Hr as ([d c6] & Hd & Hr).
  apply take_bytes_advanced in Hd as (_ & Hp & A6); [|lia|apply A5].
  injection Hr as <- <-. simpl.
  pose proof (advanced_trans _ _ _ _ _ A1 (advanced_trans _ _ _ _ _ A2 (advanced_trans _ _ _ _ _ A3
    (advanced_trans _ _ _ _ _ A4 A5)))) as (Hc5 & Hpk & Hpos5).
  destruct A6 as (Hc6 & Hpk6 & ?). pose proof Hc6 as [_ Hb6]. rewrite Hpk6, Hpk in Hb6.
  destruct Hc5 as [_ Hb5]. destruct Hc as [? Hc].
  assert (0 <= (if negb (k =? Records.OPT) && negb (Z.land t 0x80000000 =? 0) then 0 else t) < 2 ^ 32)
    by (destruct (_ && _); lia).
  split; [split; [done|]; split; [congruence|lia]|].
  unfold span_ok; simpl. split; [lia|]. split; [done|]. split; [done|]. lia.
Qed.

(** ** Reading a known prefix *)

Lemma bytes_at_app p pos a rest : len p <= 65535 -> 0 <= pos <= len p ->
  drop (Z.to_nat pos) p = a ++ rest ->
  bytes_at p pos (len a) = Ok (read a (pos + len a)) /\
  drop (Z.to_nat (pos + len a)) p = rest /\ 0 <= pos + len a <= len p.
Proof.
  intros Hl Hpos Hd. pose proof (len_nonneg a).
  assert (Hlen : pos + len a + len rest = len p).
  { apply (f_equal length) in Hd. rewrite length_drop, length_app in Hd. unfold len in *. lia. }
  pose proof (len_nonneg rest). split; [|split; [|lia]].
  - apply bytes_at_Ok; [lia..|]. split; [lia|]. f_equal. unfold slice. rewrite Hd.
    rewrite take_app_length'; [done|]. unfold len. lia.
  - replace (Z.to_nat (pos + len a)) with (Z.to_nat pos + length a)%nat by (unfold len; lia).
    by rewrite <- drop_drop, Hd, drop_app_length.
Qed.

(** [c] stands before the bytes [l]. *)
Definition before (c : Cursor) (l : bytes) : Prop :=
  cursor_ok c /\ drop (Z.to_nat (position c)) (packet c) = l.

Lemma take_bytes_before c a rest : before c (a ++ rest) ->
  exists c', take_bytes Checked (len a) c = Ok (a, c') /\ before c' rest /\
    packet c' = packet c /\ position c' = position c + len a.
Proof.
  intros [[[Hp Hl] Hpos] Hd]. destruct (bytes_at_app _ _ _ _ Hl Hpos Hd) as (Hr & Hd' & Hp').
  unfold take_bytes. simpl m_read. rewrite Hr. eexists. split; [reflexivity|].
  split; [|done]. split; [|exact Hd']. split; [by split|exact Hp'].
Qed.

Lemma c_array_before c a rest : before c (a ++ rest) ->
  exists c', c_array Checked (len a) c = Ok (a, c') /\ before c' rest /\
    packet c' = packet c /\ position c' = position c + len a.
Proof.
  intros [[[Hp Hl] Hpos] Hd]. destruct (bytes_at_app _ _ _ _ Hl Hpos Hd) as (Hr & Hd' & Hp').
  unfold c_array, array. simpl m_read. rewrite Hr. eexists. split; [reflexivity|].
  split; [|done]. split; [|exact Hd']. split; [by split|exact Hp'].
Qed.

Lemma len_to_be n v : len (to_be n v) = Z.of_nat n.
Proof. unfold len. by rewrite to_be_length. Qed.

Lemma u16_before c v rest : 0 <= v < 65536 -> before c (to_be 2 v ++ rest) ->
  exists c', u16 Checked c = Ok (v, c') /\ before c' rest /\
    packet c' = packet c /\ position c' = position c + 2.
Proof.
  intros Hv Hb. destruct (c_array_before _ _ _ Hb) as (c' & Hc & H). rewrite len_to_be in *.
  exists c'. split; [|done]. unfold u16. change 2 with (Z.of_nat 2). rewrite Hc.
  cbn [bind]. by rewrite of_be_to_be.
Qed.

Lemma u32_before c v rest : 0 <= v < 2 ^ 32 -> before c (to_be 4 v ++ rest) ->
  exists c', u32 Checked c = Ok (v, c') /\ before c' rest /\
    packet c' = packet c /\ position c' = position c + 4.
Proof.
  intros Hv Hb. destruct (c_array_before _ _ _ Hb) as (c' & Hc & H). rewrite len_to_be in *.
  exists c'. split; [|done]. unfold u32. change 4 with (Z.of_nat 4). rewrite Hc.
  cbn [bind]. by rewrite of_be_to_be.
Qed.

Lemma before_len c l : before c l -> position c + len l = len (packet c).
Proof.
  intros [[_ Hpos] Hd]. apply (f_equal length) in Hd. rewrite length_drop in Hd. unfold len in *. lia.
Qed.

(** What an unread packet holds, from a successful read. *)
Lemma advanced_before c n b c' : cursor_ok c -> 0 <= n ->
  b = slice (packet c) (position c) n -> position c' = position c + n -> advanced n c c' ->
  drop (Z.to_nat (position c)) (packet c) = b ++ drop (Z.to_nat (position c')) (packet c').
Proof.
  intros [_ Hpos] Hn -> Hp (_ & -> & _). rewrite Hp. unfold slice.
  replace (Z.to_nat (position c + n)) with (Z.to_nat (position c) + Z.to_nat n)%nat by lia.
  rewrite <- drop_drop. by rewrite take_drop.
Qed.

(** ** Traversals against the specification of names *)

Lemma wire_size_cons l ls : wire_size (l :: ls) = len l + 1 + wire_size ls.
Proof. done. Qed.
Lemma wire_size_nonneg ls : 0 <= wire_size ls.
Proof. induction ls as [|l ls IH]; [simpl; lia|]. rewrite wire_size_cons. pose proof (len_nonneg l). lia. Qed.
Lemma wire_size_length ls : 2 * Z.of_nat (length ls) <= wire_size ls \/ Exists (fun l => l = []) ls.
Proof.
  induction ls as [|l ls IH]; [by left|]. rewrite wire_size_cons.
  destruct l as [|b l]; [right; by constructor|]. destruct IH as [IH|IH]; [left|right; by constructor].
  rewrite len_cons. pose proof (len_nonneg l). cbn [length]. lia.
Qed.

Lemma Spells_hops p pos h ls : Spells p pos h ls -> 0 <= h.
Proof. induction 1; lia. Qed.

Lemma Spells_label_lens p pos h ls : 0 <= pos -> Spells p pos h ls -> packet_ok p ->
  Forall (fun l => 1 <= len l < 64) ls.
Proof.
  intros Hpos Hs [Hp Hl]. induction Hs as [|pos n h ls Hn Hr Hin Hs IH|pos hi lo h ls Hhi H1 Hlo Ht Hs IH].
  - constructor.
  - constructor; [rewrite len_slice; lia|]. apply IH. lia.
  - apply IH. pose proof (byte_of _ _ _ Hp Hlo). unfold is_byte in *. lia.
Qed.

Lemma Spells_size p pos h ls : 0 <= pos -> Spells p pos h ls -> packet_ok p ->
  2 * Z.of_nat (length ls) <= wire_size ls.
Proof.
  intros Hpos Hs Hp. pose proof (Spells_label_lens _ _ _ _ Hpos Hs Hp) as Hf.
  destruct (wire_size_length ls) as [?|He]; [done|]. exfalso.
  apply Exists_exists in He as (l & Hin & ->). rewrite Forall_forall in Hf.
  apply Hf in Hin. rewrite len_nil in Hin. lia.
Qed.

(** One step of the iterator, from its outcome. *)
Lemma next_loop_sound fuel : forall l o l',
  packet_ok (l_packet l) -> 0 <= l_position l -> 0 <= pointer_hops l ->
  next_loop fuel l = Ok (o, l') ->
  exists k, pointer_hops l' = pointer_hops l + k /\ 0 <= k /\
    l_packet l' = l_packet l /\ 0 <= l_position l' /\
    match o with
    | None => Spells (l_packet l) (l_position l) k [] /\ expanded_len l' = expanded_len l
    | Some a =>
        1 <= len a /\ expanded_len l' = expanded_len l + len a + 1 /\ expanded_len l' <= 254 /\
        forall h ls, Spells (l_packet l) (l_position l') h ls ->
                     Spells (l_packet l) (l_position l) (h + k) (a :: ls)
    end.
Proof.
  induction fuel as [|fuel IH]; intros l o l' Hp Hpos Hh; [done|]. cbn [next_loop].
  intros Hn. apply bind_Ok in Hn as ([r|t e] & Hd & Hn).
  - apply decode_sound in Hd; [|done..].
    destruct (part_label_len _ _ _ Hp Hpos Hd) as (Hb & Hlen & He & Hin & Hsl).
    destruct (_ =? 0) eqn:E0; zbool.
    + injection Hn as <- <-. exists 0. repeat split; try done; try lia.
      constructor. by rewrite <- E0.
    + destruct (_ <? _) eqn:E1; [done|]. zbool. injection Hn as <- <-. simpl.
      unfold Host.MAX_WIRE_LEN, Host.MAX_PRESENTATION_LEN in E1.
      exists 0. repeat split; try done; try lia. intros h ls Hs. rewrite Hsl, Z.add_0_r.
      apply Spells_label; [done|lia|lia|]. by rewrite <- He.
  - apply decode_sound in Hd as (hi & Hhi & ? & -> & ? & lo & Hlo & ->); [|done..].
    pose proof (byte_of _ _ _ (proj1 Hp) Hlo) as Hby. unfold is_byte in Hby.
    destruct (_ <? _) eqn:E1; [done|].
    apply IH in Hn; simpl in *; [|done|lia|lia].
    destruct Hn as (k & Hk & Hk0 & Hpk & Hp' & Ho). exists (k + 1).
    split; [lia|]. split; [lia|]. split; [done|]. split; [done|].
    destruct o as [a|].
    + destruct Ho as (? & ? & ? & Hs). repeat split; try done. intros h ls Hls.
      rewrite Z.add_assoc. eapply Spells_pointer; eauto.
    + destruct Ho as [Hs ?]. split; [|done]. eapply Spells_pointer; eauto.
Qed.

Lemma next_loop_hops fuel : forall l o l',
  pointer_hops l <= 32 -> next_loop fuel l = Ok (o, l') -> pointer_hops l' <= 32.
Proof.
  induction fuel as [|fuel IH]; intros l o l' Hh; [done|]. cbn [next_loop].
  intros Hn. apply bind_Ok in Hn as ([r|t e] & _ & Hn).
  - destruct (_ =? 0); [by injection Hn as <- <-|]. destruct (_ <? _); [done|].
    by injection Hn as <- <-.
  - destruct (_ <? _) eqn:E; [done|]. zbool. by apply IH in Hn.
Qed.

(** One step of the iterator, from what the packet spells. *)
Lemma next_loop_complete p pos h ls : Spells p pos h ls ->
  packet_ok p -> 0 <= pos ->
  forall fuel h0 el, 0 <= h0 -> h0 + h <= 32 -> 33 <= h0 + Z.of_nat fuel ->
  0 <= el -> el + wire_size ls <= 254 ->
  exists l', next_loop fuel (labels_ p pos h0 el) = Ok (head ls, l') /\
    0 <= l_position l' /\ l_packet l' = p /\ h0 <= pointer_hops l' /\
    match ls with
    | [] => expanded_len l' = el
    | a :: ls => expanded_len l' = el + len a + 1 /\
        Spells p (l_position l') (h0 + h - pointer_hops l') ls
    end.
Proof.
  intros Hs Hp. induction Hs as [pos H0|pos n h ls Hn Hr Hin Hs IH|pos hi lo h ls Hhi H1 Hlo Ht Hs IH];
    intros Hpos fuel h0 el Hh0 Hh Hf Hel Hsz.
  - destruct fuel as [|fuel]; [lia|]. cbn [next_loop l_packet l_position].
    rewrite (decode_complete p pos (PLabel (read (slice p (pos + 1) 0) (pos + 1 + 0)))); [|done..|]; cycle 1.
    { pose proof (lookup_len _ _ _ Hpos H0). exists 0. repeat split; try done; lia. }
    simpl. eexists. split; [done|]. simpl. repeat split; lia.
  - destruct fuel as [|fuel]; [pose proof (Spells_hops _ _ _ _ Hs); lia|].
    cbn [next_loop l_packet l_position].
    rewrite (decode_complete p pos (PLabel (read (slice p (pos + 1) n) (pos + 1 + n)))); [|done..|]; cycle 1.
    { exists n. repeat split; try done; lia. }
    cbn [bind bytes_ end_]. rewrite len_slice by lia. rewrite wire_size_cons, len_slice in Hsz by lia.
    pose proof (wire_size_nonneg ls).
    destruct (n =? 0) eqn:E0; zbool; [lia|]. cbn [expanded_len].
    destruct (_ <? _) eqn:E1; zbool.
    { unfold Host.MAX_WIRE_LEN, Host.MAX_PRESENTATION_LEN in *; lia. }
    eexists. split; [done|]. simpl. repeat split; try lia.
    by replace (h0 + h - h0) with h by lia.
  - destruct fuel as [|fuel]; [pose proof (Spells_hops _ _ _ _ Hs); lia|].
    pose proof (byte_of _ _ _ (proj1 Hp) Hlo) as Hby. unfold is_byte in Hby.
    cbn [next_loop l_packet l_position].
    rewrite (decode_complete p pos (PPointer ((hi - 192) * 256 + lo) (pos + 2))); [|done..|]; cycle 1.
    { exists hi. repeat split; try done. eauto. }
    cbn [bind pointer_hops]. pose proof (Spells_hops _ _ _ _ Hs).
    destruct (_ <? _) eqn:E1; zbool; [unfold MAX_POINTER_HOPS in *; lia|]. cbn [expanded_len].
    destruct (IH ltac:(lia) fuel (h0 + 1) el) as (l' & Hn & ? & ? & ? & Hm); [lia..|].
    exists l'. split; [done|]. split; [done|]. split; [done|]. split; [lia|].
    destruct ls as [|a ls]; [done|]. destruct Hm as [? Hm]. split; [done|].
    by replace (h0 + (h + 1) - pointer_hops l') with (h0 + 1 + h - pointer_hops l') by lia.
Qed.

Lemma next_complete p pos h ls h0 el : Spells p pos h ls ->
  packet_ok p -> 0 <= pos -> 0 <= h0 -> h0 + h <= 32 -> 0 <= el -> el + wire_size ls <= 254 ->
  exists l', Labels_next (labels_ p pos h0 el) = Ok (head ls, l') /\
    0 <= l_position l' /\ l_packet l' = p /\ h0 <= pointer_hops l' /\
    match ls with
    | [] => expanded_len l' = el
    | a :: ls => expanded_len l' = el + len a + 1 /\
        Spells p (l_position l') (h0 + h - pointer_hops l') ls
    end.
Proof.
  intros Hs Hp Hpos Hh0 Hh Hel Hsz.
  assert (Hf : 33 <= h0 + Z.of_nat HOP_FUEL) by (unfold HOP_FUEL; lia).
  rewrite Labels_next_eq. exact (next_loop_complete _ _ _ _ Hs Hp Hpos HOP_FUEL h0 el Hh0 Hh Hf Hel Hsz).
Qed.

Lemma next_sound l o l' : packet_ok (l_packet l) -> 0 <= l_position l -> labels_ok l ->
  Labels_next l = Ok (o, l') ->
  labels_ok l' /\ exists k, pointer_hops l' = pointer_hops l + k /\ 0 <= k /\
    l_packet l' = l_packet l /\ 0 <= l_position l' /\
    match o with
    | None => Spells (l_packet l) (l_position l) k [] /\ expanded_len l' = expanded_len l
    | Some a =>
        1 <= len a /\ expanded_len l' = expanded_len l + len a + 1 /\ expanded_len l' <= 254 /\
        forall h ls, Spells (l_packet l) (l_position l') h ls ->
                     Spells (l_packet l) (l_position l) (h + k) (a :: ls)
    end.
Proof.
  intros Hp Hpos Hl Hn. pose proof (Labels_next_ok _ _ _ Hl Hn) as [Hl' _]. split; [exact Hl'|].
  rewrite Labels_next_eq in Hn. exact (next_loop_sound HOP_FUEL l o l' Hp Hpos (proj1 (proj1 Hl)) Hn).
Qed.

(** What is left of a name, within the limits the iterator has left. *)
Definition rest_reads (l : Labels) (ls : list bytes) : Prop :=
  exists h, Spells (l_packet l) (l_position l) h ls /\
    pointer_hops l + h <= 32 /\ expanded_len l + wire_size ls <= 254.

Definition iter_ok (l : Labels) : Prop :=
  packet_ok (l_packet l) /\ 0 <= l_position l /\ labels_ok l.

Lemma next_iter_ok l o l' : iter_ok l -> Labels_next l = Ok (o, l') -> iter_ok l'.
Proof.
  intros (Hp & Hpos & Hl) Hn. destruct (next_sound l o l' Hp Hpos Hl Hn) as (? & k & _ & _ & Hpk & ? & _).
  split; [by rewrite Hpk|]. done.
Qed.

(** The step relation of the iterator, both ways. *)
Lemma next_reads_cons l a l' ls : iter_ok l ->
  Labels_next l = Ok (Some a, l') -> rest_reads l' ls -> rest_reads l (a :: ls).
Proof.
  intros (Hp & Hpos & Hl) Hn (h & Hs & Hh & Hsz).
  destruct (next_sound _ _ _ Hp Hpos Hl Hn) as (_ & k & Hk & _ & Hpk & _ & _ & Hel & _ & Hcons).
  exists (h + k). rewrite Hpk in Hs. split; [by apply Hcons|]. rewrite wire_size_cons. lia.
Qed.

Lemma next_reads_nil l l' : iter_ok l -> Labels_next l = Ok (None, l') -> rest_reads l [].
Proof.
  intros (Hp & Hpos & Hl) Hn.
  destruct (next_sound _ _ _ Hp Hpos Hl Hn) as ([? ?] & k & Hk & _ & Hpk & _ & Hs & Hel).
  exists k. split; [done|]. split; [lia|]. simpl. lia.
Qed.

Lemma reads_next l ls : iter_ok l -> rest_reads l ls ->
  exists l', Labels_next l = Ok (head ls, l') /\
    match ls with
    | [] => expanded_len l' = expanded_len l
    | a :: ls => rest_reads l' ls
    end.
Proof.
  intros (Hp & Hpos & [Hh Hel]) (h & Hs & Hhs & Hsz). destruct l as [p pos h0 el]; simpl in *.
  destruct (next_complete p pos h ls h0 el) as (l' & Hn & ? & Hpk & ? & Hm); [done..|lia|lia|lia|lia|].
  exists l'. split; [exact Hn|]. destruct ls as [|a ls]; [done|]. destruct Hm as [Hel' Hs'].
  rewrite wire_size_cons in Hsz. exists (h0 + h - pointer_hops l'). rewrite Hpk.
  split; [done|]. lia.
Qed.

Lemma scan_reads fuel : forall l l', iter_ok l -> scan_loop fuel l = Ok l' ->
  exists ls, rest_reads l ls /\ expanded_len l' = expanded_len l + wire_size ls.
Proof.
  induction fuel as [|fuel IH]; intros l l' Hl; [done|]. cbn [scan_loop].
  intros Hs. apply bind_Ok in Hs as ([[a|] l1] & Hn & Hs).
  - pose proof (next_iter_ok _ _ _ Hl Hn) as Hl1.
    apply IH in Hs as (ls & Hls & Hel); [|exact Hl1]. exists (a :: ls).
    split; [by eapply next_reads_cons|]. destruct Hl as (Hp & Hpos & Hl).
    destruct (next_sound _ _ _ Hp Hpos Hl Hn) as (_ & k & _ & _ & _ & _ & _ & Hel1 & _).
    rewrite wire_size_cons. lia.
  - injection Hs as <-. exists []. split; [by eapply next_reads_nil|].
    destruct Hl as (Hp & Hpos & Hl).
    destruct (next_sound _ _ _ Hp Hpos Hl Hn) as (_ & k & _ & _ & _ & _ & _ & Hel1).
    simpl. lia.
Qed.

Lemma reads_scan ls : forall fuel l, iter_ok l -> rest_reads l ls -> (length ls < fuel)%nat ->
  exists l', scan_loop fuel l = Ok l'.
Proof.
  induction ls as [|a ls IH]; intros fuel l Hl Hr Hf;
    (destruct fuel as [|fuel]; [lia|]); cbn [scan_loop length] in *;
    destruct (reads_next _ _ Hl Hr) as (l1 & Hn & Hm); rewrite Hn; cbn [bind head].
  - by eexists.
  - apply IH; [by eapply next_iter_ok|done|lia].
Qed.

Lemma labels_iter_ok p n : packet_ok p -> 0 <= n -> iter_ok (labels p n).
Proof. intros. split; [done|]. split; [done|]. apply labels_start_ok. Qed.

Lemma labels_reads p n ls : rest_reads (labels p n) ls <-> reads_as p n ls.
Proof.
  unfold rest_reads, reads_as, MAX_POINTER_HOPS, Host.MAX_WIRE_LEN, Host.MAX_PRESENTATION_LEN. simpl.
  split; intros (h & ? & ? & ?); exists h; (split; [done|lia]).
Qed.

Lemma rest_reads_length l ls : iter_ok l -> rest_reads l ls -> (length ls <= 127)%nat.
Proof.
  intros (Hp & Hpos & [_ Hl]) (h & Hs & _ & Hsz). pose proof (Spells_size _ _ _ _ Hpos Hs Hp). lia.
Qed.

(** ** Replaying a scanned name *)

Lemma Expanded_loop_spells p pos h a ls : Spells p pos h (a :: ls) ->
  packet_ok p -> 0 <= pos -> forall fuel rem, h < Z.of_nat fuel -> len a + 1 <= rem ->
  exists pos' h', Expanded_loop fuel (expanded p pos rem) = Ok (Some a, expanded p pos' (rem - (len a + 1))) /\
    0 <= pos' /\ h' <= h /\ Spells p pos' h' ls.
Proof.
  intros Hs Hp. remember (a :: ls) as ls' eqn:Heq. revert a ls Heq.
  induction Hs as [pos H0|pos n h ls' Hn Hr Hin Hs IH|pos hi lo h ls' Hhi H1 Hlo Ht Hs IH];
    intros a ls Heq Hpos fuel rem Hf Hrem; [done|..].
  - destruct fuel as [|fuel]; [pose proof (Spells_hops _ _ _ _ Hs); lia|].
    cbn [Expanded_loop x_packet x_position].
    rewrite (replays_decode p pos (PLabel (read (slice p (pos + 1) n) (pos + 1 + n)))); cycle 1.
    { apply decode_complete; [done..|]. exists n. repeat split; try done; lia. }
    injection Heq as <- <-. cbn [bind remaining bytes_ end_].
    destruct (_ <? _) eqn:E; zbool; [lia|].
    exists (pos + 1 + n), h. repeat split; try done; lia.
  - destruct fuel as [|fuel]; [pose proof (Spells_hops _ _ _ _ Hs); lia|].
    pose proof (byte_of _ _ _ (proj1 Hp) Hlo) as Hby. unfold is_byte in Hby.
    cbn [Expanded_loop x_packet x_position].
    rewrite (replays_decode p pos (PPointer ((hi - 192) * 256 + lo) (pos + 2))); cycle 1.
    { apply decode_complete; [done..|]. exists hi. repeat split; try done. eauto. }
    cbn [bind remaining].
    destruct (IH a ls Heq ltac:(lia) fuel rem ltac:(lia) Hrem) as (pos' & h' & He & ? & ? & ?).
    exists pos', h'. repeat split; try done; lia.
Qed.

Lemma Expanded_items_spells ls : forall p pos h fuel,
  Spells p pos h ls -> packet_ok p -> 0 <= pos -> h <= 32 -> (length ls < fuel)%nat ->
  Expanded_items fuel (expanded p pos (wire_size ls)) = Ok ls.
Proof.
  induction ls as [|a ls IH]; intros p pos h fuel Hs Hp Hpos Hh Hf;
    (destruct fuel as [|fuel]; [lia|]); cbn [Expanded_items]; unfold Expanded_next;
    cbn [remaining].
  - done.
  - rewrite wire_size_cons. pose proof (wire_size_nonneg ls). pose proof (len_nonneg a).
    destruct (_ =? 0) eqn:E; zbool; [lia|].
    destruct (Expanded_loop_spells _ _ _ _ _ Hs Hp Hpos HOP_FUEL (len a + 1 + wire_size ls))
      as (pos' & h' & He & ? & ? & Hs'); [unfold HOP_FUEL; lia|lia|].
    rewrite He. cbn [bind].
    replace (len a + 1 + wire_size ls - (len a + 1)) with (wire_size ls) by lia.
    rewrite (IH p pos' h' fuel Hs' Hp) by (simpl in Hf; lia). done.
Qed.

(** ** Comparing names *)

Lemma eq_host_loop_true exp : forall l, iter_ok l ->
  eq_host_loop l exp = Ok true <->
  exists ls, rest_reads l ls /\
    map (map to_ascii_lowercase) ls = map (map to_ascii_lowercase) exp.
Proof.
  induction exp as [|e exp IH]; intros l Hl; cbn [eq_host_loop]; split.
  - intros Hn. apply bind_Ok in Hn as ([[a|] l'] & Hn & He); [done|].
    exists []. split; [by eapply next_reads_nil|done].
  - intros ([|a ls] & Hr & Hm); [|done].
    destruct (reads_next _ _ Hl Hr) as (l1 & Hn & _). by rewrite Hn.
  - intros Hn. apply bind_Ok in Hn as ([[a|] l'] & Hn & He); [|done].
    unfold eq_ignore_ascii_case in He. case_bool_decide as Hae; [|done].
    apply IH in He as (ls & Hr & Hm); [|by eapply next_iter_ok].
    exists (a :: ls). split; [by eapply next_reads_cons|]. simpl. congruence.
  - intros ([|a ls] & Hr & Hm); [done|]. simpl in Hm. injection Hm as Hae Hm.
    destruct (reads_next _ _ Hl Hr) as (l1 & Hn & Hr1). rewrite Hn. cbn [bind head].
    unfold eq_ignore_ascii_case. rewrite bool_decide_eq_true_2 by done. simpl.
    apply IH; [by eapply next_iter_ok|]. eauto.
Qed.

Lemma first_mismatch_None i off a e : len a = len e ->
  first_mismatch i off a e = None <-> map to_ascii_lowercase a = map to_ascii_lowercase e.
Proof.
  revert off e. induction a as [|x a IH]; intros off [|y e] Hl; rewrite ?len_cons, ?len_nil in Hl;
    [done|pose proof (len_nonneg e); lia|pose proof (len_nonneg a); lia|].
  simpl. destruct (Z.eqb_spec (to_ascii_lowercase x) (to_ascii_lowercase y)); simpl.
  - rewrite IH by lia. split; [congruence|]. by intros [= _ ?].
  - split; [done|]. intros [= ? _]. done.
Qed.

Lemma lower_len a e : map to_ascii_lowercase a = map to_ascii_lowercase e -> len a = len e.
Proof. intros H. unfold len. rewrite <- (length_map to_ascii_lowercase a), H, length_map. done. Qed.

(** [compare_host] finds no mismatch exactly where [eq_host] says yes. *)
Lemma compare_host_loop_None exp : forall l i,
  compare_host_loop l i exp = Ok None <-> eq_host_loop l exp = Ok true.
Proof.
  induction exp as [|e exp IH]; intros l i; cbn [compare_host_loop eq_host_loop];
    destruct (Labels_next l) as [[[a|] l']|err|w]; cbn [bind]; try (split; done).
  unfold eq_ignore_ascii_case. destruct (len a =? len e) eqn:El; zbool; simpl.
  - pose proof (first_mismatch_None i 0 a e El) as Hm. destruct (first_mismatch i 0 a e).
    + case_bool_decide as Hd; simpl; [|split; done]. apply Hm in Hd. done.
    + rewrite bool_decide_eq_true_2 by (by apply Hm). simpl. apply IH.
  - rewrite bool_decide_eq_false_2; [split; done|]. intros Hd. by apply lower_len in Hd.
Qed.

Lemma eq_name_eq p n m : eq_name p n m = eq_name_loop NAME_FUEL (labels p n) (labels p m).
Proof. reflexivity. Qed.

Lemma eq_name_loop_true fuel : forall l m, iter_ok l -> iter_ok m ->
  eq_name_loop fuel l m = Ok true ->
  exists ls ms, rest_reads l ls /\ rest_reads m ms /\
    map (map to_ascii_lowercase) ls = map (map to_ascii_lowercase) ms.
Proof.
  induction fuel as [|fuel IH]; intros l m Hl Hm; [done|]. cbn [eq_name_loop].
  intros He. apply bind_Ok in He as ([a l'] & Hn & He). apply bind_Ok in He as ([e m'] & Hn' & He).
  destruct a as [a|], e as [e|]; try done.
  - unfold eq_ignore_ascii_case in He. case_bool_decide as Hae; [|done]. simpl in He.
    apply IH in He as (ls & ms & Hr & Hr' & Hmap); [|exact (next_iter_ok _ _ _ Hl Hn)|exact (next_iter_ok _ _ _ Hm Hn')].
    exists (a :: ls), (e :: ms). split; [by eapply next_reads_cons|].
    split; [by eapply next_reads_cons|]. simpl. congruence.
  - exists [], []. split; [by eapply next_reads_nil|]. split; [by eapply next_reads_nil|done].
Qed.

Lemma eq_name_loop_complete ls : forall ms fuel l m, iter_ok l -> iter_ok m ->
  rest_reads l ls -> rest_reads m ms -> (length ls < fuel)%nat ->
  map (map to_ascii_lowercase) ls = map (map to_ascii_lowercase) ms ->
  eq_name_loop fuel l m = Ok true.
Proof.
  induction ls as [|a ls IH]; intros ms fuel l m Hl Hm Hr Hr' Hf Hmap;
    (destruct fuel as [|fuel]; [lia|]); destruct ms as [|e ms]; try done; cbn [eq_name_loop];
    destruct (reads_next _ _ Hl Hr) as (l1 & Hn & Hrl);
    destruct (reads_next _ _ Hm Hr') as (m1 & Hn' & Hrm); rewrite Hn, Hn'; cbn [bind head].
  - done.
  - simpl in Hmap. injection Hmap as Hae Hmap.
    unfold eq_ignore_ascii_case. rewrite bool_decide_eq_true_2 by done. simpl.
    apply (IH ms); try assumption; [exact (next_iter_ok _ _ _ Hl Hn)|exact (next_iter_ok _ _ _ Hm Hn')|].
    simpl in Hf. lia.
Qed.

Lemma Spells_fun p pos h ls : Spells p pos h ls -> packet_ok p ->
  forall h' ls', Spells p pos h' ls' -> h = h' /\ ls = ls'.
Proof.
  intros Hs Hp. induction Hs as [pos H0|pos n h ls Hn Hr Hin Hs IH|pos hi lo h ls Hhi H1 Hlo Ht Hs IH];
    intros h' ls' Hs'; inversion Hs'; subst; simplify_eq; try lia; try done.
  - edestruct IH as [-> ->]; [eassumption|]. done.
  - edestruct IH as [-> ->]; [eassumption|]. done.
Qed.

Lemma reads_as_fun p n ls ls' : packet_ok p -> reads_as p n ls -> reads_as p n ls' -> ls = ls'.
Proof.
  intros Hp (h & Hs & _) (h' & Hs' & _). by destruct (Spells_fun _ _ _ _ Hs Hp _ _ Hs').
Qed.

Lemma dotted_size ls : len (dotted ls) = wire_size ls.
Proof.
  induction ls as [|l ls IH]; [done|]. rewrite dotted_cons, wire_size_cons, len_app, len_cons, IH. lia.
Qed.

Lemma join_size ls : ls <> [] -> len (join ls) = wire_size ls - 1.
Proof.
  destruct ls as [|l ls]; [done|]. intros _. simpl join.
  rewrite len_app, dotted_size, wire_size_cons. lia.
Qed.

(** ** Properties *)

(** Reading a packet never gets stuck: every loop of the checked mode ends
    within its bound (128 labels, 33 hops), and no read, error included, panics
    or leaves the packet, whatever the bytes and the positions are. *)
Theorem packet_reading_is_total {S} (p : bytes) (n m : Name) (h : Host.Name) (c : Cursor)
    (r : Record_) (count : Z) (f : S -> Record_ -> run LookupError.Packet S) (s : S) :
  (forall s r, not_stuck (f s r)) ->
  not_stuck (try_new p) /\ not_stuck (name Checked c) /\ not_stuck (record Checked c) /\
  not_stuck (records count f c s) /\ not_stuck (Record_name p r) /\
  not_stuck (eq_host p n h) /\ not_stuck (compare_host p n h) /\ not_stuck (eq_name p n m) /\
  not_stuck (compare_root p n) /\ not_stuck (expand p n).
Proof.
  intros Hf. split; [unfold try_new; by destruct (_ <? _)|].
  repeat (split; [solve [auto with run |
    apply not_stuck_bind; [by apply records_loop_not_stuck|]; by intros [] _]|]).
  auto with run.
Qed.

Lemma packet_reading_is_total_witness :
  not_stuck (records 3 (fun s r => Ok (s + ttl r)) (cursor [192; 0; 7] 0) 0).
Proof.
  apply (packet_reading_is_total [] 0 0 [] (cursor [192; 0; 7] 0)
    (record_ 0 0 0 0 (span 0 0)) 3 (fun s r => Ok (s + ttl r)) 0). done.
Defined.

(** What a closure that sees the records [rs] in order makes of its state. *)
Fixpoint feed {E S} (f : S -> Record_ -> run E S) (rs : list Record_) (s : S) : run E S :=
  match rs with [] => Ok s | r :: rs => let! s := f s r in feed f rs s end.

(** The checked records between two positions. *)
Fixpoint traversed (c : Cursor) (rs : list Record_) (c' : Cursor) : Prop :=
  match rs with
  | [] => c' = c
  | r :: rs => exists c1, record Checked c = Ok (r, c1) /\ traversed c1 rs c'
  end.

Lemma records_loop_traversed {S} (f : S -> Record_ -> run LookupError.Packet S) count :
  forall c s c' s', records_loop count f c s = Ok (c', s') ->
  exists rs, length rs = count /\ feed f rs s = Ok s' /\ traversed c rs c'.
Proof.
  induction count as [|count IH]; intros c s c' s'; cbn [records_loop].
  - intros [= <- <-]. by exists [].
  - intros Hr. apply bind_Ok in Hr as ([r c1] & Hrec & Hr). apply bind_Ok in Hr as (s1 & Hf & Hr).
    apply IH in Hr as (rs & Hl & Hfeed & Ht). exists (r :: rs).
    split; [simpl; congruence|]. split; [simpl; by rewrite Hf|]. simpl. eauto.
Qed.

Lemma for_records_feed {E S} (g : S -> Record_ -> run E S) rs : forall c c' s k,
  traversed c rs c' -> (length rs < k)%nat ->
  for_records k g (records_ c (length rs)) s = feed g rs s.
Proof.
  induction rs as [|r rs IH]; intros c c' s k Ht Hk; (destruct k as [|k]; [simpl in Hk; lia|]);
    cbn [for_records feed]; unfold Records_next; cbn [left length].
  - done.
  - destruct Ht as (c1 & Hr & Ht). cbn [r_cursor]. rewrite (replays_record _ _ Hr).
    cbn [bind validated map_err]. destruct (g s r) as [s1|e|w]; cbn [bind]; [|done..].
    eapply IH; [exact Ht|simpl in Hk; lia].
Qed.

Lemma traversed_advanced rs : forall c c', cursor_ok c -> traversed c rs c' ->
  advanced (11 * Z.of_nat (length rs)) c c' /\ Forall (fun r => span_ok (packet c) (data r)) rs.
Proof.
  induction rs as [|r rs IH]; intros c c' Hc Ht.
  - simpl in Ht. subst c'. split; [|constructor]. split; [done|]. split; [done|]. simpl. lia.
  - destruct Ht as (c1 & Hr & Ht). apply record_advanced in Hr as (Ha & Hsp & _); [|done].
    destruct (IH c1 c' (proj1 Ha) Ht) as [Ha' Hf]. split.
    + pose proof (advanced_trans _ _ _ _ _ Ha Ha') as H. cbn [length].
      replace (11 * Z.of_nat (Datatypes.S (length rs))) with (11 + 11 * Z.of_nat (length rs)) by lia.
      exact H.
    + constructor; [done|]. destruct Ha as (_ & Hpk & _). by rewrite Hpk in Hf.
Qed.

Lemma Span_slice_ok p sp : len p <= 65535 -> span_ok p sp ->
  Span_slice p sp = Ok (slice p (s_start sp) (s_end sp - s_start sp)).
Proof.
  intros Hl [? ?]. unfold Span_slice. rewrite as_u16_small by lia. simpl.
  destruct (_ <=? _) eqn:E; zbool; [done|lia].
Qed.

(** C37. The unchecked replay is safe and exact: the records a checked traversal
    hands out are, when they are read again without checks, the very records
    its closure saw, in order and without undefined behaviour. *)
Theorem records_replay_exact {S} (count : Z) (f : S -> Record_ -> run LookupError.Packet S)
    (c : Cursor) (s : S) (recs : Records_) (c' : Cursor) (s' : S) :
  records count f c s = Ok (recs, c', s') ->
  exists rs, length rs = Z.to_nat count /\ feed f rs s = Ok s' /\
    forall E T (g : T -> Record_ -> run E T) (t : T),
      for_records (Datatypes.S (left recs)) g recs t = feed g rs t.
Proof.
  unfold records. intros Hr. apply bind_Ok in Hr as ([c1 s1] & Hr & [= <- <- <-]).
  apply records_loop_traversed in Hr as (rs & Hl & Hf & Ht). exists rs.
  split; [done|]. split; [done|]. intros E T g t. cbn [left]. rewrite <- Hl.
  eapply for_records_feed; [|lia]. destruct c. exact Ht.
Qed.

(** A record of the root name: type 1, class 1, lifetime 9, two bytes of data. *)
Definition one_record : bytes := [0; 0; 1; 0; 1; 0; 0; 0; 9; 0; 2; 5; 6].

Lemma records_replay_exact_witness :
  exists rs, length rs = 1%nat /\ feed (E := LookupError.Packet) (fun s r => Ok (s + ttl r)) rs 0 = Ok 9 /\
    for_records 2 (fun s r => Ok (s + kind r)) (records_ (cursor one_record 0) 1) 0
    = feed (E := LookupError.Packet) (fun s r => Ok (s + kind r)) rs 0.
Proof.
  destruct (records_replay_exact 1 (fun s r => Ok (s + ttl r)) (cursor one_record 0) 0
    (records_ (cursor one_record 0) 1) (cursor one_record 13) 9) as (rs & Hl & Hf & Hg).
  { vm_compute. reflexivity. }
  exists rs. split; [exact Hl|]. split; [exact Hf|]. apply Hg.
Defined.

(** A record lies inside its packet: reading one moves the cursor at least
    11 bytes and never past the end, the 16-bit positions do not wrap, and the
    unchecked slice of the record's data is exactly those bytes of the packet. *)
Theorem record_in_bounds (c : Cursor) (r : Record_) (c' : Cursor) :
  cursor_ok c -> record Checked c = Ok (r, c') ->
  packet c' = packet c /\ position c + 11 <= position c' <= len (packet c) /\
  owner r = position c /\ s_end (data r) = position c' /\
  Span_slice (packet c) (data r)
  = Ok (slice (packet c) (s_start (data r)) (position c' - s_start (data r))).
Proof.
  intros Hc Hr. apply record_advanced in Hr as (((? & ?) & Hpk & ?) & Hsp & Ho & He & _); [|done].
  rewrite Hpk in *. repeat (split; [first [done | lia]|]).
  rewrite Span_slice_ok; [by rewrite He| |done]. apply Hc.
Qed.

Lemma record_in_bounds_witness :
  record Checked (cursor one_record 0) = Ok (record_ 0 1 1 9 (span 11 13), cursor one_record 13) /\
  Span_slice one_record (span 11 13) = Ok [5; 6].
Proof.
  split; [reflexivity|].
  apply (record_in_bounds (cursor one_record 0) (record_ 0 1 1 9 (span 11 13)) (cursor one_record 13)).
  - split; [|by vm_compute]. split; [|by vm_compute]. repeat constructor; by vm_compute.
  - reflexivity.
Defined.

(** What an expanded name is, and what it gives. *)
Lemma expand_Ok (p : bytes) (n : Name) e : packet_ok p -> 0 <= n -> expand p n = Ok e ->
  exists ls, reads_as p n ls /\ e = expanded p n (wire_size ls).
Proof.
  intros Hp Hn. pose proof (labels_iter_ok p n Hp Hn) as Hit.
  unfold expand, Expanded_try_new. intros He. apply bind_Ok in He as (l' & Hs & [= <-]).
  apply scan_reads in Hs as (ls & Hr & Hel); [|exact Hit]. exists ls.
  split; [by apply labels_reads|]. simpl in *. by rewrite Hel.
Qed.

Lemma into_parts_reads (p : bytes) (n : Name) ls : packet_ok p -> 0 <= n -> reads_as p n ls ->
  into_parts (expanded p n (wire_size ls))
  = Ok (if 1 <=? wire_size ls then Some (wire_size ls - 1) else None, ls).
Proof.
  intros Hp Hn (h & Hs & Hh & Hsz). pose proof (Spells_size _ _ _ _ Hn Hs Hp) as Hlen.
  unfold Host.MAX_WIRE_LEN, Host.MAX_PRESENTATION_LEN in Hsz. unfold MAX_POINTER_HOPS in Hh.
  unfold into_parts.
  rewrite (Expanded_items_spells ls p n h NAME_FUEL Hs Hp Hn Hh) by (unfold NAME_FUEL; lia).
  cbn [bind remaining]. reflexivity.
Qed.

(** A name that expands decodes to a host name or a typed error. *)
Lemma alias_decodes `{InlineBytesLaws} (p : bytes) (n : Name) e :
  packet_ok p -> 0 <= n -> expand p n = Ok e ->
  exists parts, into_parts e = Ok parts /\ not_stuck (Host.try_decode parts)
    /\ forall m, Host.try_decode parts = Ok m -> Host.parse m = Ok m.
Proof.
  intros Hp Hn He. destruct (expand_Ok p n e Hp Hn He) as (ls & Hr & ->).
  rewrite (into_parts_reads p n ls Hp Hn Hr). eexists. split; [done|].
  destruct ls as [|a ls]; [done|].
  destruct (1 <=? wire_size (a :: ls)); [|done].
  destruct (Host.assemble_spec (wire_size (a :: ls) - 1) (a :: ls)) as [Hns Hok]; [done| |].
  { by rewrite (join_size (a :: ls)). }
  split; [exact Hns|]. intros m Hm. apply Hok in Hm as (Hlen & Hls & ->).
  apply Host.parse_canonical; [done|exact Hls|]. rewrite (join_size (a :: ls)) by done. lia.
Qed.

(** [expand] accepts exactly the names that spell labels across at most 32
    pointers, each backwards, in at most 255 bytes; its unchecked iteration
    then yields those labels, and a host name decoded from it is their
    canonical join. *)
Theorem expand_replays_name `{InlineBytesLaws} (p : bytes) (n : Name) :
  packet_ok p -> 0 <= n ->
  ((exists e, expand p n = Ok e) <-> exists ls, reads_as p n ls) /\
  forall e, expand p n = Ok e -> exists ls parts,
    reads_as p n ls /\ into_parts e = Ok (parts, ls) /\
    (ls <> [] -> Forall Host.label_ok ls ->
     Host.try_decode (parts, ls) = Ok (map to_ascii_lowercase (join ls))) /\
    (ls = [] -> Host.try_decode (parts, ls) = Err HostError.NoLabels).
Proof.
  intros Hp Hn. pose proof (labels_iter_ok p n Hp Hn) as Hit. split; [split|].
  - intros (e & He). destruct (expand_Ok p n e Hp Hn He) as (ls & ? & _). eauto.
  - intros (ls & Hr). apply labels_reads in Hr.
    destruct (reads_scan ls NAME_FUEL _ Hit Hr) as (l' & Hs).
    { pose proof (rest_reads_length _ _ Hit Hr). unfold NAME_FUEL. lia. }
    unfold expand, Expanded_try_new. rewrite Hs. by eexists.
  - intros e He. destruct (expand_Ok p n e Hp Hn He) as (ls & Hr & ->). exists ls.
    rewrite (into_parts_reads p n ls Hp Hn Hr). eexists. split; [exact Hr|]. split; [reflexivity|].
    destruct Hr as (h & Hs & Hh & Hsz). pose proof (Spells_size _ _ _ _ Hn Hs Hp) as Hlen.
    unfold Host.MAX_WIRE_LEN, Host.MAX_PRESENTATION_LEN in Hsz.
    destruct ls as [|a ls]; [split; [done|]; intros _; reflexivity|]. split; [|done].
    intros Hne Hok. pose proof (join_size _ Hne) as Hj.
    assert (1 <= wire_size (a :: ls)) by (cbn [length] in Hlen; lia).
    destruct (1 <=? wire_size (a :: ls)) eqn:E; zbool; [|lia].
    apply (Host.assemble_spec (wire_size (a :: ls) - 1) (a :: ls) Hne (eq_sym Hj)).
    split; [|done]. apply Forall_cons in Hok as [[? _] _]. rewrite wire_size_cons in *.
    pose proof (wire_size_nonneg ls). lia.
Qed.

(** The name [b.a] at 3, whose last label is a pointer to the name at 0. *)
Definition two_names : bytes := [1; 97; 0; 1; 98; 192; 0].

Lemma expand_replays_name_witness :
  expand two_names 3 = Ok (expanded two_names 3 4) /\
  exists ls, reads_as two_names 3 ls /\ into_parts (expanded two_names 3 4) = Ok (Some 3, ls).
Proof.
  split; [reflexivity|].
  destruct (expand_replays_name (H0 := Concrete.unit_inline_bytes_laws) two_names 3)
    as [_ He].
  - split; [|by vm_compute]. repeat constructor; by vm_compute.
  - lia.
  - destruct (He _ eq_refl) as (ls & parts & Hr & Hp & _). exists ls. split; [exact Hr|].
    revert Hp. vm_compute. intros [= <- <-]. reflexivity.
Defined.

(** [eq_host] says yes exactly where the packet spells the host name,
    upper and lower case alike, and [compare_host] reports a mismatch exactly
    where it does not. *)
Theorem eq_host_exact (p : bytes) (n : Name) (h : Host.Name) :
  packet_ok p -> 0 <= n ->
  (eq_host p n h = Ok true <->
   exists ls, reads_as p n ls /\
     map (map to_ascii_lowercase) ls = map (map to_ascii_lowercase) (Host.labels h)) /\
  (compare_host p n h = Ok None <-> eq_host p n h = Ok true).
Proof.
  intros Hp Hn. split; [|apply compare_host_loop_None].
  unfold eq_host. rewrite eq_host_loop_true by by apply labels_iter_ok.
  setoid_rewrite labels_reads. done.
Qed.

(** [B.a] on the wire is the host [b.a]. *)
Lemma eq_host_exact_witness :
  exists ls, reads_as [1; 97; 0; 1; 66; 192; 0] 3 ls /\
    map (map to_ascii_lowercase) ls = [[98]; [97]].
Proof.
  apply (eq_host_exact [1; 97; 0; 1; 66; 192; 0] 3 [98; 46; 97]).
  - split; [|by vm_compute]. repeat constructor; by vm_compute.
  - lia.
  - reflexivity.
Defined.

(** [eq_name] says yes exactly where both positions spell names and the
    names agree up to case, whatever pointers they are compressed with. *)
Theorem eq_name_exact (p : bytes) (n m : Name) :
  packet_ok p -> 0 <= n -> 0 <= m ->
  eq_name p n m = Ok true <->
  exists ls ms, reads_as p n ls /\ reads_as p m ms /\
    map (map to_ascii_lowercase) ls = map (map to_ascii_lowercase) ms.
Proof.
  intros Hp Hn Hm. pose proof (labels_iter_ok p n Hp Hn) as Hl.
  pose proof (labels_iter_ok p m Hp Hm) as Hl'. rewrite eq_name_eq. split.
  - intros He. apply eq_name_loop_true in He as (ls & ms & Hr & Hr' & ?); [|done..].
    exists ls, ms. by rewrite <- !labels_reads.
  - intros (ls & ms & Hr & Hr' & Hmap). rewrite <- labels_reads in Hr, Hr'.
    eapply eq_name_loop_complete; try eassumption.
    pose proof (rest_reads_length _ _ Hl Hr). unfold NAME_FUEL. lia.
Qed.

Lemma eq_name_exact_witness :
  eq_name [1; 97; 0; 1; 65; 0] 0 3 = Ok true /\
  exists ls ms, reads_as [1; 97; 0; 1; 65; 0] 0 ls /\ reads_as [1; 97; 0; 1; 65; 0] 3 ms /\
    map (map to_ascii_lowercase) ls = map (map to_ascii_lowercase) ms.
Proof.
  split; [reflexivity|]. apply (eq_name_exact [1; 97; 0; 1; 65; 0] 0 3); [|lia|lia|reflexivity].
  split; [|by vm_compute]. repeat constructor; by vm_compute.
Defined.
