(* ===== verification/Response.v ===== *)
(** * Decoding responses.

    Model of [src/layer2/dns/src/wire/cookies.rs], [wire/tx/id.rs],
    [wire/response], [query/answer] and [query/family.rs]: server cookies, the
    sets of addresses, alias chains, and the decoder that turns a packet into
    a reply to one question. *)

From S2P Require Import Prelude Depot Errors Host Packet.

Import Packet.

(** ** Families *)

Module FamilyCode.
Import Family.

(** An address, by its bytes ([std::net::IpAddr]). *)
Inductive IpAddr := V4 (octets : bytes) | V6 (octets : bytes).
#[export] Instance ip_addr_eq_dec : EqDecision IpAddr.
Proof. solve_decision. Defined.

(** [Version::kind], src/layer2/dns/src/query/family.rs:27-32. *)
Definition kind (self : Version) : Records.Kind :=
  match self with Four => Records.A | Six => Records.AAAA end.

(** [Version::decode], src/layer2/dns/src/query/family.rs:34-57. *)
Definition decode (self : Version) (data : bytes) : run Error IpAddr :=
  match self with
  | Four =>
      if len data =? 4 then Ok (V4 data) else Err (error self (len data) 4)
  | Six =>
      if len data =? 16 then Ok (V6 data) else Err (error self (len data) 16)
  end.
End FamilyCode.

(** ** Transaction identities *)

Module Tx.
(** [Id], src/layer2/dns/src/wire/tx/id.rs:7-7. *)
Definition Id := Z.
(** [Id::CAPACITY], src/layer2/dns/src/wire/tx/id.rs:10-10. *)
Definition CAPACITY : Z := 65535 + 1.
(** [Id::from_bytes], src/layer2/dns/src/wire/tx/id.rs:12-14. *)
Definition from_bytes (id : bytes) : Id := of_be id.
(** [Id::from_wire], src/layer2/dns/src/wire/tx/id.rs:16-18. *)
Definition from_wire (id : Z) : Id := id.
(** [Id::wrapping_add], src/layer2/dns/src/wire/tx/id.rs:24-26. *)
Definition wrapping_add (self : Id) (offset : Z) : Id := as_u16 (self + offset).
(** [Id::wire], src/layer2/dns/src/wire/tx/id.rs:28-30. *)
Definition wire (self : Id) : Z := self.
End Tx.

(** ** Cookies *)

Module Cookies.

(** [CLIENT_BYTES], src/layer2/dns/src/wire/cookies.rs:10-10. *)
Definition CLIENT_BYTES : Z := 8.
(** [MIN_SERVER_BYTES], src/layer2/dns/src/wire/cookies.rs:11-11. *)
Definition MIN_SERVER_BYTES : Z := 8.
(** [MAX_SERVER_BYTES], src/layer2/dns/src/wire/cookies.rs:12-12. *)
Definition MAX_SERVER_BYTES : Z := 32.
(** [OPTION], src/layer2/dns/src/wire/cookies.rs:13-13. *)
Definition OPTION : Z := 10.

(** [Client], src/layer2/dns/src/wire/cookies.rs:17-17. *)
Definition Client := Z.
(** [Server], src/layer2/dns/src/wire/cookies.rs:21-21. *)
Definition Server := bytes.

(** [Client::from_bytes], src/layer2/dns/src/wire/cookies.rs:24-26. *)
Definition from_bytes (value : bytes) : Client := of_be value.
(** [Client::into_bytes], src/layer2/dns/src/wire/cookies.rs:28-30. *)
Definition into_bytes (self : Client) : bytes := to_be 8 self.

Section inline.
Context `{InlineBytes}.

(** The loop of [Server::from_options], src/layer2/dns/src/wire/cookies.rs:34-74.
    Every round reads at least the four bytes of an option header. *)
Fixpoint options_loop (fuel : nat) (options : bytes) (expected : Client) (c : Cursor)
    (cookie : option Server) : run LookupError.Cookie (option Server) :=
  match fuel with
  | O => Stuck Fuel
  | S fuel =>
      if negb (position c <? len options) then Ok cookie
      else
        let! (code, c) := map_err LookupError.CookiePacket (u16 Raw.Checked c) in
        let! (length, c) := map_err LookupError.CookiePacket (u16 Raw.Checked c) in
        let! (data, c) := map_err LookupError.CookiePacket (take_bytes Raw.Checked length c) in
        if negb (code =? OPTION) || bool_decide (is_Some cookie)
        then options_loop fuel options expected c cookie
        else
          if len data <? CLIENT_BYTES then Err (LookupError.ClientLength (len data) CLIENT_BYTES)
          else
            let client := of_be (take 8 data) in
            let server := drop 8 data in
            if negb (client =? expected) then Err (LookupError.Client client expected)
            else if len server <? MIN_SERVER_BYTES
            then Err (LookupError.ServerLength (len server) MIN_SERVER_BYTES MAX_SERVER_BYTES)
            else
              match ib_reserve MAX_SERVER_BYTES (len server) with
              | Some error => Err (LookupError.CookieCapacity error)
              | None => options_loop fuel options expected c (Some server)
              end
  end.

(** [Server::from_options], src/layer2/dns/src/wire/cookies.rs:34-74. *)
Definition from_options (options : bytes) (expected : Client) : run LookupError.Cookie (option Server) :=
  let! packet := map_err LookupError.CookiePacket (try_new options) in
  options_loop (S (length options)) options expected (cursor packet 0) None.
End inline.
End Cookies.

(** ** Answers *)

Module Answer.
Import FamilyCode.

(** [MAX_ALIAS_HOPS], src/layer2/dns/src/query/answer/reply.rs:5-5. *)
Definition MAX_ALIAS_HOPS : Z := 16.
(** [Hops], src/layer2/dns/src/query/answer/reply.rs:10-10. *)
Definition Hops := Z.
(** [Hops::ZERO], src/layer2/dns/src/query/answer/reply.rs:13-13. *)
Definition ZERO : Hops := 0.
(** [Hops::add], src/layer2/dns/src/query/answer/reply.rs:23-29. The error is
    the sum. *)
Definition add (self added : Hops) : run Z Hops :=
  let actual := self + added in
  if MAX_ALIAS_HOPS <? actual then Err actual else Ok actual.
(** [Hops::advance], src/layer2/dns/src/query/answer/reply.rs:19-21. *)
Definition advance (self : Hops) : run Z Hops := add self 1.

(** [Insert], src/layer2/dns/src/query/answer/addr.rs:12-16. *)
Inductive Insert := Added | Present | Full.

Section vec.
Context {V : Type -> Type} `{CopyVec V} (N : nat).

(** [Addresses], src/layer2/dns/src/query/answer/addr.rs:8-10. *)
Definition Addresses := V IpAddr.

(** [Addresses::new], src/layer2/dns/src/query/answer/addr.rs:27-32. *)
Definition new : Addresses := cv_new.
(** [Addresses::singleton], src/layer2/dns/src/query/answer/addr.rs:34-39. *)
Definition singleton (value : IpAddr) : Addresses := cv_one value.

(** [Addresses::insert], src/layer2/dns/src/query/answer/addr.rs:41-50. *)
Definition insert (self : Addresses) (value : IpAddr) : Insert * Addresses :=
  if bool_decide (value ∈ cv_slice self) then (Present, self)
  else match cv_insert N value self with
       | None => (Full, self)
       | Some self => (Added, self)
       end.

(** [Addresses::len], src/layer2/dns/src/query/answer/addr.rs:52-54. *)
Definition addr_len (self : Addresses) : Z := Z.of_nat (length (cv_slice self)).
(** [Addresses::is_empty], src/layer2/dns/src/query/answer/addr.rs:68-70. *)
Definition is_empty (self : Addresses) : bool := bool_decide (cv_slice self = []).
(** [Addresses::as_slice], src/layer2/dns/src/query/answer/addr.rs:72-74. *)
Definition as_slice (self : Addresses) : list IpAddr := cv_slice self.

Context `{InlineBytes}.

(** [Reply], src/layer2/dns/src/query/answer/reply.rs:32-54. *)
Inductive Reply :=
  | RAddresses (values : Addresses) (ttl : Z) (alias_hops : Hops)
  | RAlias (name : Expanded) (ttl : Z) (hops : Hops)
  | RNoData
  | RTruncated
  | RNameError
  | RRefused
  | RServer (code : Z)
  | RCapacity (actual : Z)
  | RMalformed (e : LookupError.Malformed).
End vec.
Arguments Addresses : clear implicits.
Arguments Reply V {_}.
End Answer.

(** ** Alias chains *)

Module Aliases.
Import Answer.

(** [MAX_RECORDS], src/layer2/dns/src/wire/response/aliases.rs:14-14. *)
Definition MAX_RECORDS : nat := 32.

(** [Edge], src/layer2/dns/src/wire/response/aliases.rs:17-21. *)
Record Edge := edge { e_owner : Packet.Name; e_target : Packet.Name; e_ttl : Z }.

(** [Current], src/layer2/dns/src/wire/response/aliases.rs:24-27. *)
Inductive Current := Expected | Wire (n : Packet.Name).

Section chain.
Context `{InlineBytes} {V : Type -> Type} `{CopyVec V} (N : nat).

(** [Current::matches], src/layer2/dns/src/wire/response/aliases.rs:30-41. *)
Definition matches (self : Current) (packet : Packet) (actual : Name) (expected : Host.Name)
    : run LookupError.Malformed bool :=
  map_err LookupError.MPacket
    (match self with
     | Expected => eq_host packet actual expected
     | Wire name => eq_name packet actual name
     end).

(** [Chain], src/layer2/dns/src/wire/response/aliases.rs:44-47. *)
Record Chain := chain { edges : V Edge; aliases : Z }.

(** [Chain::new], src/layer2/dns/src/wire/response/aliases.rs:50-55. *)
Definition chain_new : Chain := chain cv_new 0.

(** The closure of [Chain::read], src/layer2/dns/src/wire/response/aliases.rs:57-80.
    The [u16] counter traps on overflow. *)
Definition read_record (packet : Packet) (self : Chain) (record : Record_)
    : run LookupError.Packet Chain :=
  if negb (class record =? Records.IN) || negb (kind record =? Records.CNAME)
  then Ok self
  else
    let! target := Record_name packet record in
    if 65535 <? aliases self + 1 then Stuck Panic
    else
      Ok (chain
        (match cv_insert MAX_RECORDS (edge (owner record) target (ttl record)) (edges self) with
         | Some edges => edges
         | None => edges self
         end) (aliases self + 1)).

(** [Chain::read], src/layer2/dns/src/wire/response/aliases.rs:57-80. *)
Definition read (self : Chain) (c : Cursor) (packet : Packet) (count : Z)
    : run LookupError.Malformed (Records_ * Cursor * Chain) :=
  map_err LookupError.MPacket (records count (read_record packet) c self).

(** [Chain::take], src/layer2/dns/src/wire/response/aliases.rs:82-87. *)
Definition take (self : Chain) : option LookupError.Malformed :=
  if Z.of_nat MAX_RECORDS <? aliases self
  then Some (LookupError.AliasRecords (aliases self) (Z.of_nat MAX_RECORDS))
  else None.

(** The loop [for edge in &self.edges] of [Chain::resolve],
    src/layer2/dns/src/wire/response/aliases.rs:89-168. *)
Fixpoint next_edge (packet : Packet) (name : Host.Name) (owner : Current) (es : list Edge)
    (next : option Edge) : run LookupError.Malformed (option Edge) :=
  match es with
  | [] => Ok next
  | e :: es =>
      let! same := matches owner packet (e_owner e) name in
      if negb same then next_edge packet name owner es next
      else
        match next with
        | Some first =>
            let! agree := map_err LookupError.MPacket (eq_name packet (e_target first) (e_target e)) in
            if negb agree then Err LookupError.AliasConflict
            else
              next_edge packet name owner es
                (Some (edge (e_owner first) (e_target first) (Z.min (e_ttl first) (e_ttl e))))
        | None => next_edge packet name owner es (Some e)
        end
  end.

(** The first loop of [Chain::resolve], src/layer2/dns/src/wire/response/aliases.rs:89-168:
    17 rounds at most, the last one failing [Hops::advance]. *)
Definition CHASE_FUEL : nat := 17.
(** [Chain::resolve], src/layer2/dns/src/wire/response/aliases.rs:89-168. *)
Fixpoint chase (fuel : nat) (es : list Edge) (packet : Packet) (name : Host.Name)
    (owner : Current) (ttl : Z) (hops : Hops)
    : run (LookupError.Malformed + Reply V) (Current * Z * Hops) :=
  match fuel with
  | O => Stuck Fuel
  | S fuel =>
      let! next := map_err inl (next_edge packet name owner es None) in
      match next with
      | None => Ok (owner, ttl, hops)
      | Some e =>
          let! hops := map_err
            (fun actual => inr (RMalformed (LookupError.AliasHops actual MAX_ALIAS_HOPS))) (advance hops) in
          chase fuel es packet name (Wire (e_target e)) (Z.min ttl (e_ttl e)) hops
      end
  end.

(** [Chain::resolve], src/layer2/dns/src/wire/response/aliases.rs:89-168. The body of the loop over the answer records. *)
Definition collect (packet : Packet) (name : Host.Name) (family : Family.Version)
    (owner : Current) (st : Addresses V * Z) (record : Record_)
    : run (LookupError.Malformed + Reply V) (Addresses V * Z) :=
  let '(values, min) := st in
  let! same := map_err inl (matches owner packet (Packet.owner record) name) in
  if (class record =? Records.IN) && (kind record =? FamilyCode.kind family) && same
  then
    let! data := validated (Span_slice packet (data record)) in
    let! value := map_err (fun e => inl (LookupError.Address e)) (FamilyCode.decode family data) in
    match insert N values value with
    | (Added, values) | (Present, values) => Ok (values, Z.min min (ttl record))
    | (Full, values) => Err (inr (RCapacity (addr_len values + 1)))
    end
  else Ok (values, min).

(** [Chain::resolve], src/layer2/dns/src/wire/response/aliases.rs:89-168. *)
Definition resolve (self : Chain) (packet : Packet) (records : Records_)
    (name : Host.Name) (family : Family.Version) : run LookupError.Malformed (Reply V) :=
  returning (
    let! (owner, ttl, hops) :=
      chase CHASE_FUEL (cv_slice (edges self)) packet name Expected (2 ^ 32 - 1) ZERO in
    let! (values, min) :=
      for_records (S (left records)) (collect packet name family owner) records (new, ttl) in
    if negb (is_empty values) then Ok (RAddresses values min hops)
    else match owner with
         | Expected => Ok RNoData
         | Wire name =>
             let! e := map_err (fun e => inl (LookupError.MPacket e)) (expand packet name) in
             Ok (RAlias e ttl hops)
         end).
End chain.
Arguments Chain V : clear implicits.
End Aliases.

(** ** The decoder *)

Module Response.
Import Answer Aliases.

(** [HEADER_BYTES], src/layer2/dns/src/wire/response/mod.rs:11-11. *)
Definition HEADER_BYTES : Z := 12.
(** [BAD_COOKIE], src/layer2/dns/src/wire/response/mod.rs:12-12. *)
Definition BAD_COOKIE : Z := 23.
(** [TRANSACTION_BYTES], src/layer2/dns/src/wire/response/mod.rs:13-13. *)
Definition TRANSACTION_BYTES : Z := 2.

Section decoder.
Context `{InlineBytes} {V : Type -> Type} `{CopyVec V} (N : nat).

(** [Datagram], src/layer2/dns/src/wire/response/mod.rs:15-24. *)
Inductive Datagram :=
  | Authenticated (reply : Reply V) (server_cookie : Cookies.Server)
  | BadCookie (server_cookie : Cookies.Server)
  | StreamRequired.

(** [Envelope], src/layer2/dns/src/wire/response/mod.rs:26-30. *)
Record Envelope := envelope {
  reply : Reply V; response_code : Z; server_cookie : option Cookies.Server }.

(** [Decoder], src/layer2/dns/src/wire/response/mod.rs:32-35. *)
Record Decoder := decoder { d_packet : Packet; d_transaction : Tx.Id }.

(** [Decoder::try_new], src/layer2/dns/src/wire/response/mod.rs:38-52. *)
Definition try_new (b : bytes) : run LookupError.Packet Decoder :=
  let! packet := Packet.try_new b in
  match b with
  | a :: b' :: _ => Ok (decoder packet (Tx.from_wire (of_be [a; b'])))
  | _ => Err (LookupError.Truncated 0 TRANSACTION_BYTES (len b))
  end.

(** [Decoder::transaction], src/layer2/dns/src/wire/response/mod.rs:54-56. *)
Definition transaction (self : Decoder) : Tx.Id := d_transaction self.

(** [Decoder::read], src/layer2/dns/src/wire/response/mod.rs:95-198. What the loop over the authority and additional sections keeps. *)
Record Extra := extra { x_cursor : Cursor; ext : Z; opt : bool; cookie : option Cookies.Server }.

(** The body of [while left != 0] in [Decoder::read],
    src/layer2/dns/src/wire/response/mod.rs:95-198. *)
Definition extra_record (packet : Packet) (seed : option Cookies.Client) (part : nat)
    (st : Extra) : run LookupError.Malformed Extra :=
  let offset := position (x_cursor st) in
  let! (record, c) := map_err LookupError.MPacket (record Raw.Checked (x_cursor st)) in
  if bool_decide (part = 1%nat) && (kind record =? Records.OPT)
  then
    if opt st then Err (LookupError.OptDuplicate offset)
    else
      let! mismatch := map_err LookupError.MPacket (compare_root packet (owner record)) in
      match mismatch with
      | Some mismatch => Err (LookupError.OptName mismatch)
      | None =>
          let ext := wrap 8 (Z.shiftr (ttl record) 24) in
          match seed with
          | Some seed =>
              let! options := validated (Span_slice packet (data record)) in
              let! cookie := map_err LookupError.MCookie (Cookies.from_options options seed) in
              Ok (extra c ext true cookie)
          | None => Ok (extra c ext true (cookie st))
          end
      end
  else Ok (extra c (ext st) (opt st) (cookie st)).

(** The loop over a section in [Decoder::read], src/layer2/dns/src/wire/response/mod.rs:95-198. *)
Fixpoint extra_loop (left : nat) (packet : Packet) (seed : option Cookies.Client)
    (part : nat) (st : Extra) : run LookupError.Malformed Extra :=
  match left with
  | O => Ok st
  | S left =>
      let! st := extra_record packet seed part st in
      extra_loop left packet seed part st
  end.

(** [Decoder::read], src/layer2/dns/src/wire/response/mod.rs:95-198. *)
Definition read (packet : Packet) (name : Host.Name) (family : Family.Version)
    (seed : option Cookies.Client) : run LookupError.Malformed Envelope :=
  let header := cursor packet 2 in
  let! (flags, header) := map_err LookupError.MPacket (u16 Raw.Checked header) in
  if (Z.land flags 0x8000 =? 0) || negb (Z.land flags 0x7800 =? 0)
  then Err (LookupError.Flags flags)
  else
  let! (query, header) := map_err LookupError.MPacket (u16 Raw.Checked header) in
  let! (answer, header) := map_err LookupError.MPacket (u16 Raw.Checked header) in
  let! (auth, header) := map_err LookupError.MPacket (u16 Raw.Checked header) in
  let! (extra_, header) := map_err LookupError.MPacket (u16 Raw.Checked header) in
  if negb (query =? 1) then Err (LookupError.QuestionCount query 1)
  else
  let c := cursor packet HEADER_BYTES in
  let! (qname, c) := map_err LookupError.MPacket (Packet.name Raw.Checked c) in
  let! (qkind, c) := map_err LookupError.MPacket (u16 Raw.Checked c) in
  let! (class, c) := map_err LookupError.MPacket (u16 Raw.Checked c) in
  let! mismatch := map_err LookupError.MPacket (compare_host packet qname name) in
  match mismatch with
  | Some mismatch => Err (LookupError.QuestionName mismatch)
  | None =>
  if negb (qkind =? FamilyCode.kind family)
  then Err (LookupError.QuestionKind qkind (FamilyCode.kind family))
  else if negb (class =? Records.IN)
  then Err (LookupError.QuestionClass class Records.IN)
  else
  let! (records, c, chn) := Aliases.read chain_new c packet answer in
  let! st := extra_loop (Z.to_nat auth) packet seed 0 (extra c 0 false None) in
  let! st := extra_loop (Z.to_nat extra_) packet seed 1 st in
  let c := x_cursor st in
  if negb (position c =? len packet)
  then
    if len packet <? position c then Stuck Panic
    else Err (LookupError.Trailing (position c) (len packet - position c))
  else
  let code := Z.lor (Z.shiftl (ext st) 4) (Z.land flags 0x000f) in
  let! reply :=
    (if negb (Z.land flags 0x0200 =? 0) then Ok RTruncated
     else match Aliases.take chn with
          | Some error => Ok (RMalformed error)
          | None =>
              if code =? 0 then resolve N chn packet records name family
              else if code =? 3 then Ok RNameError
              else if code =? 5 then Ok RRefused
              else Ok (RServer code)
          end) in
  Ok (envelope reply code (cookie st))
  end.

(** [Decoder::body], src/layer2/dns/src/wire/response/mod.rs:85-93. *)
Definition body (self : Decoder) (name : Host.Name) (family : Family.Version)
    (seed : option Cookies.Client) : run LookupError.Malformed Envelope :=
  read (d_packet self) name family seed.

(** [Decoder::decode], src/layer2/dns/src/wire/response/mod.rs:58-64. *)
Definition decode (self : Decoder) (name : Host.Name) (family : Family.Version)
    : run LookupError.Malformed (Reply V) :=
  let! body := body self name family None in Ok (reply body).

(** [Decoder::udp], src/layer2/dns/src/wire/response/mod.rs:66-83. *)
Definition udp (self : Decoder) (name : Host.Name) (family : Family.Version)
    (seed : Cookies.Client) : run LookupError.Malformed Datagram :=
  let! body := body self name family (Some seed) in
  Ok (match server_cookie body with
      | Some cookie =>
          if response_code body =? BAD_COOKIE then BadCookie cookie
          else Authenticated (reply body) cookie
      | None => StreamRequired
      end).
End decoder.
End Response.
