(* ===== verification/ResponseFacts.v ===== *)
(** * Responses: totality, binding and soundness.

    Lemmas and properties of [Response]. The decoder never gets stuck on any
    packet; a decoded body is a response to the question asked; a cookie it
    returns is the server's answer to ours; a set of addresses is backed by
    records the alias chain leads to. *)

From S2P Require Import Prelude Depot Errors Host Packet PacketFacts Response.

Import Packet.

(** ** Cookie options *)

(** An EDNS option: its code and its data. *)
Definition encode_option (o : Z * bytes) : bytes := to_be 2 o.1 ++ to_be 2 (len o.2) ++ o.2.
Definition encode_options (os : list (Z * bytes)) : bytes := concat (map encode_option os).
Definition option_ok (o : Z * bytes) : Prop := 0 <= o.1 < 65536 /\ len o.2 < 65536.

(** A cookie option that answers the client cookie [expected]. *)
Definition answers (expected : Cookies.Client) (data : bytes) : Prop :=
  16 <= len data <= 40 /\ of_be (take 8 data) = expected.
#[export] Instance answers_dec e d : Decision (answers e d).
Proof. unfold answers. apply _. Defined.

(** The first cookie option decides: the outer [None] is an error. *)
Fixpoint first_cookie (expected : Cookies.Client) (os : list (Z * bytes)) : option (option Cookies.Server) :=
  match os with
  | [] => Some None
  | (code, data) :: os =>
      if code =? Cookies.OPTION then
        (if decide (answers expected data) then Some (Some (drop 8 data)) else None)
      else first_cookie expected os
  end.

Section cookies.
Context `{InlineBytesLaws}.
Import Cookies.

(** What the options still unread decide, given a cookie already found. *)
Definition verdict (expected : Client) (cookie : option Server) (os : list (Z * bytes))
    : option (option Server) :=
  match cookie with Some s => Some (Some s) | None => first_cookie expected os end.

(** The header and data of one option, read and unread. *)
Lemma option_read c code n data c1 c2 c3 :
  cursor_ok c -> u16 Raw.Checked c = Ok (code, c1) -> u16 Raw.Checked c1 = Ok (n, c2) ->
  take_bytes Raw.Checked n c2 = Ok (data, c3) ->
  option_ok (code, data) /\ advanced 4 c c3 /\
  drop (Z.to_nat (position c)) (packet c)
  = encode_option (code, data) ++ drop (Z.to_nat (position c3)) (packet c3).
Proof.
  intros Hc H1 H2 H3.
  apply u16_advanced in H1 as (E1 & R1 & P1 & A1); [|done].
  apply u16_advanced in H2 as (E2 & R2 & P2 & A2); [|apply A1].
  apply take_bytes_advanced in H3 as (E3 & P3 & A3); [|lia|apply A2].
  pose proof (advanced_before _ 2 _ _ Hc ltac:(lia) eq_refl P1 A1) as B1.
  pose proof (advanced_before _ 2 _ _ (proj1 A1) ltac:(lia) eq_refl P2 A2) as B2.
  pose proof (advanced_before _ n _ _ (proj1 A2) ltac:(lia) E3 P3 A3) as B3.
  pose proof (advanced_trans _ _ _ _ _ A1 (advanced_trans _ _ _ _ _ A2 A3)) as A.
  assert (Hn : len data = n).
  { rewrite E3. apply len_slice; [apply A2|lia|].
    destruct A3 as ((_ & ?) & Hpk & _). rewrite Hpk in *. lia. }
  assert (Hs : forall c' v, cursor_ok c' -> position c' + 2 <= len (packet c') ->
    v = of_be (slice (packet c') (position c') 2) -> to_be 2 v = slice (packet c') (position c') 2).
  { intros c' v [[Hb _] Hpos] Hin ->.
    assert (Hl2 : length (slice (packet c') (position c') 2) = 2%nat).
    { pose proof (len_slice (packet c') (position c') 2 ltac:(lia) ltac:(lia) Hin) as Hl.
      unfold len in Hl. lia. }
    rewrite <- Hl2 at 1. apply to_be_of_be. by apply slice_bytes. }
  split; [split; simpl; lia|]. split.
  - destruct A as (? & ? & ?). split; [done|]. split; [done|lia].
  - unfold encode_option. simpl fst. simpl snd. rewrite Hn, B1, B2, B3, <- !app_assoc.
    destruct A1 as ((? & ?) & Hpk1 & ?), A2 as ((? & ?) & Hpk2 & ?).
    rewrite (Hs c code Hc ltac:(rewrite <- Hpk1; lia) E1).
    rewrite (Hs c1 n ltac:(done) ltac:(rewrite <- Hpk2; lia) E2). done.
Qed.

Lemma option_before c o rest : option_ok o -> before c (encode_option o ++ rest) ->
  exists c1 c2 c3, u16 Raw.Checked c = Ok (o.1, c1) /\ u16 Raw.Checked c1 = Ok (len o.2, c2) /\
    take_bytes Raw.Checked (len o.2) c2 = Ok (o.2, c3) /\ before c3 rest /\ packet c3 = packet c /\
    position c3 = position c + 4 + len o.2.
Proof.
  intros [Ho1 Ho2] Hb. unfold encode_option in Hb. rewrite <- !app_assoc in Hb.
  destruct (u16_before _ _ _ Ho1 Hb) as (c1 & H1 & Hb1 & Hp1 & P1).
  pose proof (len_nonneg o.2) as Hnn.
  destruct (u16_before c1 (len o.2) _ ltac:(lia) Hb1) as (c2 & H2 & Hb2 & Hp2 & P2).
  destruct (take_bytes_before _ _ _ Hb2) as (c3 & H3 & Hb3 & Hp3 & P3).
  exists c1, c2, c3. repeat (split; [done|]). split; [congruence|lia].
Qed.

(** One round's verdict on a cookie option. *)
Lemma cookie_data_verdict expected data (k : option Server -> run LookupError.Cookie (option Server)) r :
  (if len data <? CLIENT_BYTES then Err (LookupError.ClientLength (len data) CLIENT_BYTES)
   else
     let client := of_be (take 8 data) in
     let server := drop 8 data in
     if negb (client =? expected) then Err (LookupError.Client client expected)
     else if len server <? MIN_SERVER_BYTES
     then Err (LookupError.ServerLength (len server) MIN_SERVER_BYTES MAX_SERVER_BYTES)
     else match ib_reserve MAX_SERVER_BYTES (len server) with
          | Some error => Err (LookupError.CookieCapacity error)
          | None => k (Some server)
          end) = Ok r <->
  answers expected data /\ k (Some (drop 8 data)) = Ok r.
Proof.
  unfold answers, CLIENT_BYTES, MIN_SERVER_BYTES, MAX_SERVER_BYTES.
  destruct (_ <? 8) eqn:E1; zbool; [split; [done|lia]|].
  assert (Hd : len (drop 8 data) = len data - 8) by (unfold len in *; rewrite length_drop; lia).
  destruct (Z.eqb_spec (of_be (take 8 data)) expected) as [He|He]; simpl; [|split; [done|tauto]].
  rewrite Hd. destruct (_ <? 8) eqn:E2; zbool; [split; [done|lia]|].
  pose proof (ib_reserve_fits 32 (len data - 8)) as Hf.
  destruct (ib_reserve 32 (len data - 8)).
  - split; [done|]. intros [[? ?] _]. destruct Hf as [_ Hf]. discriminate Hf. lia.
  - split; [|tauto]. intros Hk. split; [|done]. split; [|done]. assert (len data - 8 <= 32) by by apply Hf.
    lia.
Qed.

Lemma options_loop_spec fuel : forall options expected c cookie r,
  cursor_ok c -> packet c = options -> len options - position c < Z.of_nat fuel ->
  options_loop fuel options expected c cookie = Ok r <->
  exists os, drop (Z.to_nat (position c)) options = encode_options os /\ Forall option_ok os /\
    verdict expected cookie os = Some r.
Proof.
  induction fuel as [|fuel IH]; intros options expected c cookie r Hc Hpk Hf;
    [destruct Hc; subst options; lia|]. cbn [options_loop].
  assert (Hempty : forall os, encode_options os = [] -> os = []) by by intros [|[] ?].
  destruct (position c <? len options) eqn:E; zbool; simpl negb; cycle 1.
  { cbn iota. assert (Hd : drop (Z.to_nat (position c)) options = []).
    { apply drop_ge. unfold len in E. lia. }
    rewrite Hd. split.
    - intros [= <-]. exists []. split; [done|]. split; [constructor|]. by destruct cookie.
    - intros (os & Hos & _ & Hv). apply eq_sym, Hempty in Hos as ->. by destruct cookie; injection Hv as <-. }
  cbn iota. split.
  - intros Hr. apply bind_Ok in Hr as ([code c1] & H1 & Hr). apply map_err_Ok in H1.
    apply bind_Ok in Hr as ([n c2] & H2 & Hr). apply map_err_Ok in H2.
    apply bind_Ok in Hr as ([data c3] & H3 & Hr). apply map_err_Ok in H3.
    destruct (option_read _ _ _ _ _ _ _ Hc H1 H2 H3) as (Hok & (Hc3 & Hpk3 & Hp3) & Hd).
    assert (IH' : forall ck, options_loop fuel options expected c3 ck = Ok r <->
      exists os, drop (Z.to_nat (position c3)) options = encode_options os /\ Forall option_ok os /\
        verdict expected ck os = Some r).
    { intros ck. apply IH; [done|congruence|lia]. }
    rewrite Hpk in Hd. rewrite Hpk3, Hpk in Hd.
    destruct (_ || _) eqn:Eskip.
    + apply IH' in Hr as (os & Hos & Hfo & Hv). exists ((code, data) :: os).
      split; [by rewrite Hd, Hos|]. split; [by constructor|].
      destruct cookie as [s|]; [done|]. simpl in *.
      rewrite orb_false_r, negb_true_iff in Eskip. by rewrite Eskip.
    + apply orb_false_iff in Eskip as [Ecode Eck]. apply negb_false_iff in Ecode.
      destruct cookie as [s|]; [done|]. apply cookie_data_verdict in Hr as [Ha Hr].
      apply IH' in Hr as (os & Hos & Hfo & Hv). exists ((code, data) :: os).
      split; [by rewrite Hd, Hos|]. split; [by constructor|]. simpl.
      rewrite Ecode. by rewrite decide_True.
  - intros (os & Hos & Hfo & Hv).
    destruct os as [|[code data] os].
    { destruct Hc as [_ [Hc0 _]]. apply (f_equal length) in Hos. rewrite length_drop in Hos. unfold len in E. simpl in Hos. lia. }
    apply Forall_cons in Hfo as [Hok Hfo].
    assert (Hb : before c (encode_option (code, data) ++ encode_options os)).
    { split; [done|]. by rewrite Hpk. }
    destruct (option_before _ _ _ Hok Hb) as (c1 & c2 & c3 & H1 & H2 & H3 & [Hc3 Hb3] & Hpk3 & Hp3).
    simpl in H1, H2, H3, Hp3. rewrite H1; simpl bind. rewrite H2; simpl bind. rewrite H3; simpl bind.
    pose proof (len_nonneg data).
    assert (IH' : forall ck, verdict expected ck os = Some r ->
      options_loop fuel options expected c3 ck = Ok r).
    { intros ck Hck. apply IH; [done|congruence|lia|]. exists os.
      split; [by rewrite <- Hb3, Hpk3, Hpk|]. done. }
    destruct cookie as [s|]; simpl.
    + rewrite orb_true_r. by apply IH'.
    + rewrite orb_false_r. simpl in Hv. destruct (code =? OPTION); simpl; [|by apply IH'].
      case_decide; [|done]. apply cookie_data_verdict. split; [done|]. by apply IH'.
Qed.

Lemma options_loop_not_stuck fuel : forall options expected c cookie,
  cursor_ok c -> packet c = options -> len options - position c < Z.of_nat fuel ->
  not_stuck (options_loop fuel options expected c cookie).
Proof.
  induction fuel as [|fuel IH]; intros options expected c cookie Hc Hpk Hf;
    [destruct Hc; subst options; lia|]. cbn [options_loop].
  destruct (negb _); [done|].
  apply not_stuck_bind; [auto with run|]. intros [code c1] H1. apply map_err_Ok in H1.
  apply not_stuck_bind; [auto with run|]. intros [n c2] H2. apply map_err_Ok in H2.
  apply not_stuck_bind; [auto with run|]. intros [data c3] H3. apply map_err_Ok in H3.
  destruct (option_read _ _ _ _ _ _ _ Hc H1 H2 H3) as (_ & (Hc3 & Hpk3 & Hp3) & _).
  assert (Hk : forall ck, not_stuck (options_loop fuel options expected c3 ck)).
  { intros ck. apply IH; [done|congruence|lia]. }
  destruct (_ || _); [apply Hk|]. destruct (_ <? _); [done|]. cbv zeta.
  destruct (negb _); [done|]. destruct (_ <? _); [done|]. by destruct (ib_reserve _ _).
Qed.

Lemma from_options_not_stuck options expected :
  Forall is_byte options -> not_stuck (from_options options expected).
Proof.
  intros Hb. unfold from_options, try_new. destruct (_ <? _) eqn:E; [done|]. zbool. cbn [map_err bind].
  apply options_loop_not_stuck; [|done|cbn [position]; unfold len; lia].
  split; [by split|]. simpl. pose proof (len_nonneg options). lia.
Qed.
End cookies.

(** The cookie scan is exact: it succeeds precisely on option lists that
    parse to the end, and its result is decided by the first cookie option,
    which must echo the client cookie and carry 8 to 32 bytes of the server's;
    later cookie options are skipped, and without one there is no cookie. *)
Theorem from_options_exact `{InlineBytesLaws} (options : bytes) (expected : Cookies.Client)
    (r : option Cookies.Server) :
  Forall is_byte options ->
  not_stuck (Cookies.from_options options expected) /\
  (Cookies.from_options options expected = Ok r <->
   len options <= 65535 /\
   exists os, options = encode_options os /\ Forall option_ok os /\ first_cookie expected os = Some r).
Proof.
  intros Hb. split; [by apply from_options_not_stuck|].
  unfold Cookies.from_options, try_new. destruct (_ <? _) eqn:E; zbool; cbn [map_err bind].
  { split; [done|]. lia. }
  rewrite options_loop_spec.
  - cbn [position]. rewrite drop_0. naive_solver.
  - split; [by split|]. simpl. pose proof (len_nonneg options). lia.
  - done.
  - simpl. unfold len. lia.
Qed.

(** Option 3 without data, then our cookie [7] with the server's [1..8]. *)
Definition sample_options : bytes :=
  [0; 3; 0; 0; 0; 10; 0; 16; 0; 0; 0; 0; 0; 0; 0; 7; 1; 2; 3; 4; 5; 6; 7; 8].

Lemma from_options_exact_witness :
  Cookies.from_options (H := Concrete.unit_inline_bytes) sample_options 7 = Ok (Some [1; 2; 3; 4; 5; 6; 7; 8]) /\
  exists os, sample_options = encode_options os /\ Forall option_ok os /\
    first_cookie 7 os = Some (Some [1; 2; 3; 4; 5; 6; 7; 8]).
Proof.
  split; [reflexivity|].
  apply (from_options_exact (H0 := Concrete.unit_inline_bytes_laws) sample_options 7
    (Some [1; 2; 3; 4; 5; 6; 7; 8])).
  - repeat constructor; by vm_compute.
  - reflexivity.
Defined.

(** ** Address sets *)

Section vec.
Context {V : Type -> Type} `{CopyVecLaws V} (N : nat).
Import Answer FamilyCode.

Lemma insert_slice (v : Addresses V) x i v' :
  Answer.insert N v x = (i, v') ->
  match i with
  | Added => (x ∉ as_slice v) /\ as_slice v' = as_slice v ++ [x] /\ (length (as_slice v) < N)%nat
  | Present => x ∈ as_slice v /\ v' = v
  | Full => (x ∉ as_slice v) /\ v' = v /\ (N <= length (as_slice v))%nat
  end.
Proof.
  unfold Answer.insert, as_slice. case_bool_decide as Hin; [by intros [= <- <-]|].
  destruct (Nat.lt_ge_cases (length (cv_slice v)) N) as [Hl|Hl].
  - destruct (cv_insert_vacant _ N x v Hl) as (w & -> & Hw). by intros [= <- <-].
  - rewrite cv_insert_full by done. by intros [= <- <-].
Qed.
End vec.

(** ** The decoder never gets stuck *)

Section decoder.
Context `{InlineBytesLaws} {V : Type -> Type} `{CopyVecLaws V} (N : nat).
Import Answer Aliases Response.

Lemma not_stuck_returning {E A} (m : run (E + A) A) : not_stuck m -> not_stuck (returning m).
Proof. by destruct m as [a|[e|a]|w]. Qed.

Lemma matches_not_stuck cur p n h : not_stuck (matches cur p n h).
Proof. unfold matches. destruct cur; auto with run. Qed.
Hint Resolve matches_not_stuck : run.

Lemma next_edge_not_stuck p h cur es : forall next, not_stuck (next_edge p h cur es next).
Proof.
  induction es as [|e es IH]; intros next; cbn [next_edge]; [done|].
  apply not_stuck_bind; [auto with run|]. intros [] _; simpl; [|apply IH].
  destruct next as [first|]; [|apply IH].
  apply not_stuck_bind; [auto with run|]. intros [] _; simpl; [apply IH|done].
Qed.

Lemma chase_not_stuck fuel : forall es p h cur t hops,
  17 <= hops + Z.of_nat fuel -> hops <= 16 ->
  not_stuck (chase (V := V) fuel es p h cur t hops).
Proof.
  induction fuel as [|fuel IH]; intros es p h cur t hops Hf Hh; [lia|]. cbn [chase].
  apply not_stuck_bind; [apply not_stuck_map_err, next_edge_not_stuck|].
  intros [e|] _; [|done]. unfold advance, add, MAX_ALIAS_HOPS.
  destruct (_ <? _) eqn:E; simpl; [done|]. zbool. apply IH; lia.
Qed.

Lemma feed_not_stuck {E S} (f : S -> Record_ -> run E S) rs (P : Record_ -> Prop) :
  (forall s r, P r -> not_stuck (f s r)) -> Forall P rs -> forall s, not_stuck (feed f rs s).
Proof.
  intros Hf HP. induction HP as [|r rs Hr HP IH]; intros s; simpl; [done|].
  apply not_stuck_bind; auto.
Qed.

Lemma collect_not_stuck p h fam cur st r :
  len p <= 65535 -> span_ok p (data r) -> not_stuck (collect N p h fam cur st r).
Proof.
  intros Hl Hsp. unfold collect. destruct st as [values min].
  apply not_stuck_bind; [auto with run|]. intros same _.
  destruct (_ && _); [|done]. rewrite Span_slice_ok by done. cbn [validated map_err].
  cbn [Prelude.bind]. assert (Hd : forall d, not_stuck (FamilyCode.decode fam d)).
  { intros d. destruct fam; simpl; by destruct (_ =? _). }
  specialize (Hd (slice p (s_start (data r)) (s_end (data r) - s_start (data r)))).
  destruct (FamilyCode.decode _ _) as [v|e|w]; cbn [map_err Prelude.bind]; [|done|done].
  by destruct (Answer.insert N values v) as [[] ?].
Qed.

(** What [resolve] does is a pass over the records that [read] checked. *)
Lemma resolve_eq chn p c rs c' h fam : traversed c rs c' ->
  resolve N chn p (records_ c (length rs)) h fam
  = returning (
      let! (owner, ttl, hops) :=
        chase CHASE_FUEL (cv_slice (edges chn)) p h Expected (2 ^ 32 - 1) ZERO in
      let! (values, min) := feed (collect N p h fam owner) rs (new, ttl) in
      if negb (is_empty values) then Ok (RAddresses values min hops)
      else match owner with
           | Expected => Ok RNoData
           | Wire name =>
               let! e := map_err (fun e => inl (LookupError.MPacket e)) (expand p name) in
               Ok (RAlias e ttl hops)
           end).
Proof.
  intros Ht. unfold resolve. f_equal.
  destruct (chase _ _ _ _ _ _ _) as [[[owner ttl] hops]|e|w]; cbn [Prelude.bind]; try done.
  cbn [left]. erewrite for_records_feed; [done|exact Ht|lia].
Qed.

Lemma resolve_not_stuck chn p c rs c' h fam :
  cursor_ok c -> packet c = p -> traversed c rs c' ->
  not_stuck (resolve N chn p (records_ c (length rs)) h fam).
Proof.
  intros Hc Hpk Ht. rewrite (resolve_eq _ _ _ _ _ _ _ Ht). apply not_stuck_returning.
  apply not_stuck_bind; [apply chase_not_stuck; unfold CHASE_FUEL, ZERO; lia|].
  intros [[owner t] hops] _.
  destruct (traversed_advanced _ _ _ Hc Ht) as [_ Hsp]. rewrite Hpk in Hsp.
  apply not_stuck_bind.
  { eapply feed_not_stuck; [|exact Hsp]. intros s r Hr. apply collect_not_stuck; [|done].
    rewrite <- Hpk. apply Hc. }
  intros [values min] _. destruct (negb _); [done|]. destruct owner; [done|].
  apply not_stuck_bind; [auto with run|done].
Qed.

(** The alias counter counts at most one per record. *)
Lemma read_record_aliases p (chn : Chain V) r :
  aliases chn < 65535 -> not_stuck (read_record p chn r) /\
  forall chn', read_record p chn r = Ok chn' -> aliases chn' <= aliases chn + 1.
Proof.
  intros Ha. unfold read_record. destruct (_ || _).
  { split; [done|]. intros ? [= <-]. lia. }
  split.
  - apply not_stuck_bind; [auto with run|]. intros t _. destruct (_ <? _) eqn:E; [zbool; lia|done].
  - intros chn' Hr. apply bind_Ok in Hr as (t & _ & Hr). destruct (_ <? _); [done|].
    injection Hr as <-. simpl. lia.
Qed.

Lemma records_loop_aliases p count : forall c (chn : Chain V),
  aliases chn + Z.of_nat count <= 65535 ->
  not_stuck (records_loop count (read_record p) c chn).
Proof.
  induction count as [|count IH]; intros c chn Hc; cbn [records_loop]; [done|].
  apply not_stuck_bind; [auto with run|]. intros [r c1] _.
  destruct (read_record_aliases p chn r) as [Hn Ha]; [lia|].
  apply not_stuck_bind; [done|]. intros chn' Hr. apply Ha in Hr. apply IH. lia.
Qed.

Lemma read_spec (chn : Chain V) c p count recs c' chn' :
  Aliases.read chn c p count = Ok (recs, c', chn') ->
  exists rs, length rs = Z.to_nat count /\ feed (read_record p) rs chn = Ok chn' /\
    traversed c rs c' /\ recs = records_ c (length rs).
Proof.
  unfold Aliases.read, records. intros Hr. apply map_err_Ok in Hr.
  apply bind_Ok in Hr as ([c1 s1] & Hr & [= <- <- <-]).
  apply records_loop_traversed in Hr as (rs & Hl & Hf & Ht). exists rs.
  repeat (split; [done|]). rewrite Hl. by destruct c.
Qed.

Lemma extra_record_spec p seed part st :
  cursor_ok (x_cursor st) -> packet (x_cursor st) = p ->
  not_stuck (extra_record p seed part st) /\
  forall st', extra_record p seed part st = Ok st' -> advanced 11 (x_cursor st) (x_cursor st').
Proof.
  intros Hc Hpk. unfold extra_record.
  destruct (record Raw.Checked (x_cursor st)) as [[r c']|e|w] eqn:Er; simpl.
  2: { split; done. }
  2: { pose proof (record_not_stuck (x_cursor st)) as Hns. by rewrite Er in Hns. }
  apply record_advanced in Er as (Ha & Hsp & _); [|done]. rewrite Hpk in Hsp.
  assert (Hl : len p <= 65535) by (rewrite <- Hpk; apply Hc).
  assert (Hb : Forall is_byte p) by (rewrite <- Hpk; apply Hc).
  destruct (_ && _); [|split; [done|by intros ? [= <-]]].
  destruct (opt st); [done|]. split.
  - apply not_stuck_bind; [auto with run|]. intros [m|] _; [done|]. destruct seed; [|done].
    rewrite Span_slice_ok by done. cbn [validated map_err Prelude.bind].
    apply not_stuck_bind; [|done]. apply not_stuck_map_err, from_options_not_stuck.
    by apply slice_bytes.
  - intros st' Hx. apply bind_Ok in Hx as ([m|] & _ & Hx); [done|].
    destruct seed; [|by injection Hx as <-].
    apply bind_Ok in Hx as (o & _ & Hx). apply bind_Ok in Hx as (k & _ & Hx). by injection Hx as <-.
Qed.

Lemma extra_loop_spec left : forall p seed part st,
  cursor_ok (x_cursor st) -> packet (x_cursor st) = p ->
  not_stuck (extra_loop left p seed part st) /\
  forall st', extra_loop left p seed part st = Ok st' -> advanced 0 (x_cursor st) (x_cursor st').
Proof.
  induction left as [|left IH]; intros p seed part st Hc Hpk; cbn [extra_loop].
  { split; [done|]. intros ? [= <-]. split; [done|]. split; [done|lia]. }
  destruct (extra_record_spec p seed part st Hc Hpk) as [Hn Ha]. split.
  - apply not_stuck_bind; [done|]. intros st1 Hs. apply Ha in Hs as (? & ? & _).
    apply IH; [done|congruence].
  - intros st' Hs. apply bind_Ok in Hs as (st1 & Hx1 & Hs). apply Ha in Hx1 as (Hc1 & Hp1 & ?).
    destruct (IH p seed part st1 Hc1) as [_ Ha1]; [congruence|]. apply Ha1 in Hs as (? & ? & ?).
    split; [done|]. split; [congruence|lia].
Qed.

(** The question and the records of a body that decoded, field by field. *)
Definition field (p : bytes) (pos : Z) : Z := of_be (slice p pos 2).

(** The reply a response code and the alias chain determine. *)
Definition reply_for (p : bytes) (chn : Chain V) (recs : Records_) (h : Host.Name)
    (fam : Family.Version) (flags code : Z) : run LookupError.Malformed (Reply V) :=
  if negb (Z.land flags 0x0200 =? 0) then Ok RTruncated
  else match Aliases.take chn with
       | Some error => Ok (RMalformed error)
       | None =>
           if code =? 0 then resolve N chn p recs h fam
           else if code =? 3 then Ok RNameError
           else if code =? 5 then Ok RRefused
           else Ok (RServer code)
       end.

(** A response to the question [h]/[fam] whose answer section is [rs],
    standing at [c]. *)
Record question (p : bytes) (h : Host.Name) (fam : Family.Version) (c : Cursor)
    (rs : list Record_) : Prop := {
  q_response : Z.land (field p 2) 0x8000 <> 0;
  q_opcode : Z.land (field p 2) 0x7800 = 0;
  q_count : field p 4 = 1;
  q_name : compare_host p 12 h = Ok None;
  q_kind : field p (position c - 4) = FamilyCode.kind fam;
  q_class : field p (position c - 2) = Records.IN;
  q_cursor : cursor_ok c /\ packet c = p /\ 12 <= position c - 4;
  q_answers : exists c', traversed c rs c' /\ Z.of_nat (length rs) = field p 6;
}.

Lemma u16_step {A} c (k : Z * Cursor -> run LookupError.Malformed A) a :
  cursor_ok c -> Prelude.bind (map_err LookupError.MPacket (u16 Raw.Checked c)) k = Ok a ->
  exists c', position c' = position c + 2 /\ packet c' = packet c /\ cursor_ok c' /\
    k (field (packet c) (position c), c') = Ok a.
Proof.
  intros Hc Hr. apply bind_Ok in Hr as ([v c'] & Hu & Hr). apply map_err_Ok in Hu.
  apply u16_advanced in Hu as (-> & _ & P & Hc' & Hpk & _); [|done]. eauto 6.
Qed.

Lemma read_trace p h fam seed env :
  packet_ok p -> 2 <= len p -> Response.read N p h fam seed = Ok env ->
  exists c rs chn st ca st1,
    (cursor_ok ca /\ packet ca = p /\ traversed c rs ca /\
     extra_loop (Z.to_nat (field p 8)) p seed 0 (extra ca 0 false None) = Ok st1 /\
     extra_loop (Z.to_nat (field p 10)) p seed 1 st1 = Ok st /\ position (x_cursor st) = len p) /\
    question p h fam c rs /\ feed (read_record p) rs chain_new = Ok chn /\
    response_code env = Z.lor (Z.shiftl (ext st) 4) (Z.land (field p 2) 0x000f) /\
    server_cookie env = Response.cookie st /\
    reply_for p chn (records_ c (length rs)) h fam (field p 2) (response_code env)
    = Ok (reply env).
Proof.
  intros Hp Hl Hr. unfold Response.read in Hr.
  assert (Hc2 : cursor_ok (cursor p 2)) by (split; [done|simpl; lia]).
  apply u16_step in Hr as (h1 & P1 & K1 & C1 & Hr); [|done]. simpl in P1, K1, Hr.
  destruct (_ || _) eqn:Efl; [done|]. apply orb_false_iff in Efl as [Ef1 Ef2].
  apply Z.eqb_neq in Ef1. apply negb_false_iff, Z.eqb_eq in Ef2.
  apply u16_step in Hr as (h2 & P2 & K2 & C2 & Hr); [|done]. rewrite K1, P1 in *. 
  apply u16_step in Hr as (h3 & P3 & K3 & C3 & Hr); [|done]. rewrite K2, P2 in *.
  apply u16_step in Hr as (h4 & P4 & K4 & C4 & Hr); [|done]. rewrite K3, P3 in *.
  apply u16_step in Hr as (h5 & P5 & K5 & C5 & Hr); [|done]. rewrite K4, P4 in *.
  simpl Z.add in *. destruct (negb _) eqn:Eq; [done|]. apply negb_false_iff, Z.eqb_eq in Eq.
  assert (Hc12 : cursor_ok (cursor p HEADER_BYTES)).
  { split; [done|]. destruct C5 as [_ C5]. rewrite K5 in C5. simpl. unfold HEADER_BYTES. lia. }
  apply bind_Ok in Hr as ([n c0] & En & Hr). apply map_err_Ok in En.
  apply name_advanced in En as (-> & C0 & K0 & P0); [|done]. simpl in K0, P0.
  apply u16_step in Hr as (c1 & P6 & K6 & C6 & Hr); [|done]. rewrite K0 in *.
  apply u16_step in Hr as (c & P7 & K7 & C7 & Hr); [|done]. rewrite K6 in *.
  simpl position in Hr. apply bind_Ok in Hr as ([m|] & Em & Hr); [done|].
  apply map_err_Ok in Em.
  destruct (negb (_ =? FamilyCode.kind fam)) eqn:Ek; [done|].
  destruct (negb (_ =? Records.IN)) eqn:Ei; [done|].
  apply negb_false_iff, Z.eqb_eq in Ek. apply negb_false_iff, Z.eqb_eq in Ei.
  apply bind_Ok in Hr as ([[recs ca] chn] & Ea & Hr).
  apply read_spec in Ea as (rs & Hlen & Hfeed & Ht & ->).
  apply bind_Ok in Hr as (st1 & Es1 & Hr). apply bind_Ok in Hr as (st & Es & Hr).
  destruct (negb _) eqn:Et; [by destruct (_ <? _)|]. apply negb_false_iff, Z.eqb_eq in Et.
  apply bind_Ok in Hr as (rep & Erep & [= <-]).
  exists c, rs, chn, st, ca, st1.
  destruct (traversed_advanced _ _ _ C7 Ht) as [(Cca & Kca & _) _].
  split; [split; [exact Cca|split; [congruence|split; [exact Ht|split; [exact Es1|split; [exact Es|exact Et]]]]]|].
  split; [|split; [exact Hfeed|split; [reflexivity|split; [reflexivity|]]]].
  - unfold HEADER_BYTES in *. constructor; try assumption.
    + by replace (position c - 4) with (position c0) by lia.
    + by replace (position c - 2) with (position c1) by lia.
    + split; [done|]. split; [done|]. lia.
    + exists ca. split; [done|]. rewrite Hlen, Z2Nat.id; [done|].
      apply of_be_bound, slice_bytes, Hp.
  - exact Erep.
Qed.

Lemma read_Ok p h fam seed env :
  packet_ok p -> 2 <= len p -> Response.read N p h fam seed = Ok env ->
  exists c rs chn st,
    question p h fam c rs /\ feed (read_record p) rs chain_new = Ok chn /\
    response_code env = Z.lor (Z.shiftl (ext st) 4) (Z.land (field p 2) 0x000f) /\
    server_cookie env = Response.cookie st /\
    reply_for p chn (records_ c (length rs)) h fam (field p 2) (response_code env)
    = Ok (reply env).
Proof.
  intros Hp Hl Hr. destruct (read_trace _ _ _ _ _ Hp Hl Hr) as (c & rs & chn & st & ? & ? & _ & Hx).
  by exists c, rs, chn, st.
Qed.

Lemma read_extra p h fam seed env :
  packet_ok p -> 2 <= len p -> Response.read N p h fam seed = Ok env ->
  exists c rs ca st1 st, question p h fam c rs /\ cursor_ok ca /\ packet ca = p /\ traversed c rs ca /\
    extra_loop (Z.to_nat (field p 8)) p seed 0 (extra ca 0 false None) = Ok st1 /\
    extra_loop (Z.to_nat (field p 10)) p seed 1 st1 = Ok st /\ position (x_cursor st) = len p /\
    server_cookie env = Response.cookie st.
Proof.
  intros Hp Hl Hr.
  destruct (read_trace _ _ _ _ _ Hp Hl Hr) as (c & rs & chn & st & ca & st1 & (? & ? & ? & ? & ? & ?) & Hx).
  exists c, rs, ca, st1, st. naive_solver.
Qed.

Lemma u16_step_not_stuck {A} c (k : Z * Cursor -> run LookupError.Malformed A) :
  cursor_ok c ->
  (forall c', position c' = position c + 2 -> packet c' = packet c -> cursor_ok c' ->
    not_stuck (k (field (packet c) (position c), c'))) ->
  not_stuck (Prelude.bind (map_err LookupError.MPacket (u16 Raw.Checked c)) k).
Proof.
  intros Hc Hk. apply not_stuck_bind; [auto with run|]. intros [v c'] Hu. apply map_err_Ok in Hu.
  apply u16_advanced in Hu as (-> & _ & P & Hc' & Hpk & _); [|done]. by apply Hk.
Qed.

Lemma read_not_stuck p h fam seed :
  packet_ok p -> 2 <= len p -> not_stuck (Response.read N p h fam seed).
Proof.
  intros Hp Hl. unfold Response.read.
  assert (Hc2 : cursor_ok (cursor p 2)) by (split; [done|simpl; lia]).
  apply u16_step_not_stuck; [done|]. intros h1 P1 K1 C1. destruct (_ || _); [done|].
  apply u16_step_not_stuck; [done|]. intros h2 P2 K2 C2.
  apply u16_step_not_stuck; [done|]. intros h3 P3 K3 C3.
  apply u16_step_not_stuck; [done|]. intros h4 P4 K4 C4.
  apply u16_step_not_stuck; [done|]. intros h5 P5 K5 C5.
  destruct (negb _); [done|]. simpl in P1, K1.
  assert (Hc12 : cursor_ok (cursor p HEADER_BYTES)).
  { split; [done|]. destruct C5 as [_ C5]. simpl. unfold HEADER_BYTES.
    rewrite K5, K4, K3, K2, K1 in C5. lia. }
  apply not_stuck_bind; [auto with run|]. intros [n c0] En. apply map_err_Ok in En.
  apply name_advanced in En as (-> & C0 & K0 & P0); [|done]. simpl in K0, P0.
  apply u16_step_not_stuck; [done|]. intros c1 P6 K6 C6.
  apply u16_step_not_stuck; [done|]. intros c P7 K7 C7.
  apply not_stuck_bind; [auto with run|]. intros [m|] _; [done|].
  destruct (negb _); [done|]. destruct (negb _); [done|].
  assert (Kc : packet c = p) by congruence.
  assert (Hcount : 0 <= field (packet h2) (position h2) < 65536).
  { assert (packet h2 = p) as -> by congruence. assert (position h2 + 2 <= len p).
    { destruct C5 as [_ C5]. rewrite K5, K4, K3, K2, K1 in C5. lia. }
    pose proof (of_be_bound _ (slice_bytes p (position h2) 2 (proj1 Hp))) as Hb.
    rewrite len_slice in Hb by lia. done. }
  apply not_stuck_bind.
  { apply not_stuck_map_err, not_stuck_bind; [|by intros [] _].
    apply records_loop_aliases. simpl. lia. }
  intros [[recs ca] chn] Ea. apply read_spec in Ea as (rs & Hlen & _ & Ht & ->).
  destruct (traversed_advanced _ _ _ C7 Ht) as [(Cca & Kca & _) _].
  destruct (extra_loop_spec (Z.to_nat (field (packet h3) (position h3))) p seed 0
    (extra ca 0 false None)) as [Hn1 Ha1]; [done|simpl; congruence|].
  apply not_stuck_bind; [exact Hn1|]. intros st1 Es1. apply Ha1 in Es1 as (C8 & K8 & _). simpl in K8.
  destruct (extra_loop_spec (Z.to_nat (field (packet h4) (position h4))) p seed 1 st1)
    as [Hn2 Ha2]; [done|congruence|].
  apply not_stuck_bind; [exact Hn2|]. intros st Es. apply Ha2 in Es as (C9 & K9 & _).
  destruct (negb _).
  { destruct C9 as [_ C9]. rewrite K9, K8, Kca, Kc in C9.
    destruct (_ <? _) eqn:E; [zbool; lia|done]. }
  apply not_stuck_bind; [|done]. destruct (negb _); [done|]. destruct (Aliases.take chn); [done|].
  destruct (_ =? 0); [by eapply resolve_not_stuck|]. destruct (_ =? 3); [done|]. by destruct (_ =? 5).
Qed.

Lemma try_new_Ok b d : Forall is_byte b -> Response.try_new b = Ok d ->
  packet_ok (d_packet d) /\ 2 <= len (d_packet d) /\ d_packet d = b /\
  d_transaction d = of_be (slice b 0 2).
Proof.
  intros Hb Hd. unfold Response.try_new, Packet.try_new in Hd. destruct (_ <? _) eqn:E; [done|].
  zbool. simpl in Hd. destruct b as [|x [|y b]]; try done. injection Hd as <-. simpl.
  split; [by split|]. split; [rewrite !len_cons; pose proof (len_nonneg b); lia|]. done.
Qed.

(** ** Cookies come from the OPT record of the packet *)

(** An OPT record owned by the root, whose options decide for the cookie [k]. *)
Definition opt_data (p : bytes) (seed : Cookies.Client) (r : Record_) (k : option Cookies.Server) : Prop :=
  compare_root p (owner r) = Ok None /\
  exists os, slice p (s_start (data r)) (s_end (data r) - s_start (data r)) = encode_options os /\
    Forall option_ok os /\ first_cookie seed os = Some k.
(** A response to the question whose additional section, which ends the packet,
    has exactly one OPT record; its first cookie option echoes the client cookie
    and carries the server cookie [s]. *)
Definition cookie_from (p : bytes) (h : Host.Name) (fam : Family.Version) (seed : Cookies.Client) (s : Cookies.Server) : Prop :=
  exists c rs ca auth cb extras ce r,
    question p h fam c rs /\ traversed c rs ca /\
    traversed ca auth cb /\ Z.of_nat (length auth) = field p 8 /\
    traversed cb extras ce /\ Z.of_nat (length extras) = field p 10 /\ position ce = len p /\
    filter (fun r => kind r = Records.OPT) extras = [r] /\ opt_data p seed r (Some s).

Lemma extra_record_opt p seed part st st' :
  cursor_ok (x_cursor st) -> packet (x_cursor st) = p -> extra_record p (Some seed) part st = Ok st' ->
  exists r, record Raw.Checked (x_cursor st) = Ok (r, x_cursor st') /\
    ((part <> 1%nat \/ kind r <> Records.OPT) /\ opt st' = opt st /\ Response.cookie st' = Response.cookie st
     \/ part = 1%nat /\ kind r = Records.OPT /\ opt st = false /\ opt st' = true /\ opt_data p seed r (Response.cookie st')).
Proof.
  intros Hc Hpk Hx. unfold extra_record in Hx. apply bind_Ok in Hx as ([r c'] & Er & Hx).
  apply map_err_Ok in Er. pose proof Er as Er'. apply record_advanced in Er' as (_ & Hsp & _); [|done]. rewrite Hpk in Hsp.
  exists r. destruct (bool_decide (part = 1%nat) && (kind r =? Records.OPT)) eqn:Eb; cycle 1.
  { injection Hx as <-. split; [exact Er|]. left. split; [|done].
    apply andb_false_iff in Eb as [?%bool_decide_eq_false|?%Z.eqb_neq]; auto. }
  apply andb_true_iff in Eb as [Hpart%bool_decide_eq_true Hk%Z.eqb_eq]. destruct (opt st) eqn:Eo; [done|].
  apply bind_Ok in Hx as ([m|] & Hroot & Hx); [done|]. apply map_err_Ok in Hroot.
  rewrite Span_slice_ok in Hx by (try done; rewrite <- Hpk; apply Hc).
  cbn [validated map_err Prelude.bind] in Hx. apply bind_Ok in Hx as (k & Hck & [= <-]). apply map_err_Ok in Hck.
  split; [exact Er|]. right. do 4 (split; [done|]). split; [exact Hroot|].
  apply from_options_exact in Hck as (_ & os & Hos & Hok & Hf); [by exists os|]. apply slice_bytes. rewrite <- Hpk. apply Hc.
Qed.

(** The records of a section that the loop reads, and what an OPT record among them
    does. *)
Lemma extra_loop_opt left : forall p seed part st st',
  cursor_ok (x_cursor st) -> packet (x_cursor st) = p -> extra_loop left p (Some seed) part st = Ok st' ->
  exists rs, length rs = left /\ traversed (x_cursor st) rs (x_cursor st') /\
    let opts := filter (fun r => kind r = Records.OPT) rs in
    if decide (part = 1%nat /\ opts <> [])
    then exists r, opts = [r] /\ opt st = false /\ opt_data p seed r (Response.cookie st')
    else opt st' = opt st /\ Response.cookie st' = Response.cookie st.
Proof.
  induction left as [|left IH]; intros p seed part st st' Hc Hpk Hx; cbn [extra_loop] in Hx.
  { injection Hx as <-. exists []. split; [done|]. split; [done|]. simpl. rewrite decide_False; [done|tauto]. }
  apply bind_Ok in Hx as (st1 & Hx1 & Hx).
  destruct (extra_record_spec p (Some seed) part st Hc Hpk) as [_ Ha]. destruct (Ha _ Hx1) as (Hc1 & Hp1 & _).
  destruct (extra_record_opt p seed part st st1 Hc Hpk Hx1) as (r & Hr & Hcase).
  destruct (IH p seed part st1 st') as (rs & Hl & Ht & Hrs); [done|congruence|done|]. exists (r :: rs).
  split; [by simpl; f_equal|]. split; [by exists (x_cursor st1)|]. rewrite filter_cons. cbv zeta in *.
  destruct Hcase as [(Hno & Ho & Hk)|(Hpart & Hkr & Ho & Ho1 & Hd)].
  - destruct (decide (kind r = Records.OPT)) as [Hkr|Hkr].
    + assert (part <> 1%nat) by tauto. rewrite decide_False in Hrs by tauto. rewrite decide_False by tauto. destruct Hrs as [-> ->]. done.
    + case_decide as Hd; [|destruct Hrs as [-> ->]; done]. destruct Hrs as (r' & ? & ? & ?). exists r'. rewrite <- Ho. done.
  - rewrite (decide_True _ _ Hkr). rewrite (decide_True (P := part = 1%nat /\ _)) by done. case_decide as Hopts.
    + destruct Hrs as (r' & _ & Hf & _). congruence.
    + destruct Hrs as [_ Hck]. rewrite Hck. exists r. split; [|done]. f_equal.
      destruct (filter _ rs); [done|]. destruct Hopts. done.
Qed.

(** What counts as a reply with a server cookie has it from the OPT record. *)
Lemma udp_cookie_from b d h fam seed (r : Datagram (V := V)) s :
  Forall is_byte b -> Response.try_new b = Ok d -> Response.udp N d h fam seed = Ok r ->
  (exists rep, r = Authenticated rep s) \/ r = BadCookie s -> cookie_from b h fam seed s.
Proof.
  intros Hb Hd Hu Hs. destruct (try_new_Ok _ _ Hb Hd) as (Hp & Hl & Hpk & _).
  unfold Response.udp in Hu. apply bind_Ok in Hu as (env & Hr & Hu). injection Hu as Hu.
  assert (Hcookie : server_cookie env = Some s).
  { destruct (server_cookie env) as [s'|]; [|naive_solver]. destruct (_ =? _); naive_solver. }
  clear Hu Hs. unfold Response.body in Hr. rewrite Hpk in *.
  destruct (read_extra _ _ _ _ _ Hp Hl Hr) as (c & rs & ca & st1 & st & Hq & Hca & Kca & Hrs & Hx1 & Hx2 & Hend & Hck).
  destruct (extra_loop_spec (Z.to_nat (field b 8)) b (Some seed) 0 (extra ca 0 false None)) as [_ Ha]; [done|done|].
  destruct (Ha _ Hx1) as (C1 & K1 & _). simpl in K1.
  apply (extra_loop_opt _ b seed 0 _ st1) in Hx1 as (auth & La & Ta & Hauth); [|done..].
  rewrite decide_False in Hauth by naive_solver. destruct Hauth as [Ho1 Hk1]. simpl in Ho1, Hk1, Ta.
  apply (extra_loop_opt _ b seed 1 st1 st) in Hx2 as (extras & Le & Te & Hex); [|done|congruence].
  cbv zeta in Hex. case_decide as Hd1; [|destruct Hex as [_ Hx]; congruence].
  destruct Hex as (o & Hf & _ & Ho). rewrite <- Hck, Hcookie in Ho.
  exists c, rs, ca, auth, (x_cursor st1), extras, (x_cursor st), o.
  assert (Hfield : forall pos, Z.of_nat (Z.to_nat (field b pos)) = field b pos).
  { intros pos. apply Z2Nat.id. apply of_be_bound, slice_bytes, Hp. }
  rewrite La, Le, !Hfield. done.
Qed.
Lemma cookie_from_bounds p h fam seed s : cookie_from p h fam seed s -> 8 <= len s <= 32.
Proof.
  intros (? & ? & ? & ? & ? & ? & ? & ? & _ & _ & _ & _ & _ & _ & _ & _ & _ & os & _ & _ & Hf).
  induction os as [|[code data] os IH]; simpl in Hf; [done|].
  destruct (code =? _); [|by apply IH]. case_decide as Ha; [|done]. injection Hf as <-.
  destruct Ha as [? _]. unfold len in *. rewrite length_drop. lia.
Qed.

(** ** Alias chains *)

(** The alias edges of an answer section. *)
Definition alias_edges (p : bytes) (rs : list Record_) : list Edge :=
  omap (fun r =>
    if (class r =? Records.IN) && (kind r =? Records.CNAME) then
      match Record_name p r with Ok t => Some (edge (owner r) t (ttl r)) | _ => None end
    else None) rs.

Lemma feed_read_record p rs : forall chn chn' : Chain V,
  feed (read_record p) rs chn = Ok chn' ->
  aliases chn' = aliases chn + Z.of_nat (length (alias_edges p rs)) /\
  (Z.of_nat (length (cv_slice (edges chn))) = aliases chn ->
   aliases chn' <= Z.of_nat MAX_RECORDS ->
   cv_slice (edges chn') = cv_slice (edges chn) ++ alias_edges p rs).
Proof.
  induction rs as [|r rs IH]; intros chn chn' Hf.
  { injection Hf as <-. simpl. rewrite app_nil_r. split; [lia|done]. }
  simpl in Hf. apply bind_Ok in Hf as (chn1 & Hr & Hf). apply IH in Hf as [Ha Hs].
  unfold read_record in Hr. unfold alias_edges in *. cbn [omap list_omap].
  rewrite <- negb_andb in Hr.
  destruct (_ && _); cbn [negb] in Hr; [|by injection Hr as ->].
  apply bind_Ok in Hr as (t & Ht & Hr). rewrite Ht.
  destruct (_ <? _) eqn:E; [done|]. zbool. injection Hr as <-. cbn [aliases edges] in *.
  split; [cbn [length]; lia|]. intros Hlen Hle.
  assert (Hvac : (length (cv_slice (edges chn)) < MAX_RECORDS)%nat) by lia.
  destruct (cv_insert_vacant _ MAX_RECORDS (edge (owner r) t (ttl r)) _ Hvac) as (w & Hw & Hsl).
  rewrite Hw in *. rewrite Hs; [|rewrite Hsl, length_app; simpl; lia|done].
  rewrite Hsl, <- app_assoc. done.
Qed.

(** Where an alias chain leads: the name its last hop names, the number of
    hops, and a lifetime no longer than that of any edge taken. *)
Inductive chased (p : bytes) (h : Host.Name) (es : list Edge) : Current -> Hops -> Z -> Prop :=
  | chased_start : chased p h es Expected 0 (2 ^ 32 - 1)
  | chased_hop cur hops t e t' :
      chased p h es cur hops t -> e ∈ es ->
      matches cur p (e_owner e) h = Ok true ->
      (forall e', e' ∈ es -> matches cur p (e_owner e') h = Ok true ->
         (e_target e' = e_target e \/ eq_name p (e_target e) (e_target e') = Ok true) /\
         t' <= e_ttl e') ->
      t' <= t ->
      chased p h es (Wire (e_target e)) (hops + 1) t'.

Lemma next_edge_spec p h cur es : forall next e,
  next_edge p h cur es next = Ok (Some e) ->
  (match next with
   | Some f => e_target e = e_target f /\ e_ttl e <= e_ttl f
   | None => exists f, f ∈ es /\ matches cur p (e_owner f) h = Ok true /\ e_target e = e_target f
   end) /\
  forall e', e' ∈ es -> matches cur p (e_owner e') h = Ok true ->
    (e_target e' = e_target e \/ eq_name p (e_target e) (e_target e') = Ok true) /\
    e_ttl e <= e_ttl e'.
Proof.
  induction es as [|x es IH]; intros next e Hn; cbn [next_edge] in Hn.
  { injection Hn as ->. split; [by split|]. intros e' He'. by apply elem_of_nil in He'. }
  apply bind_Ok in Hn as ([] & Hm & Hn); simpl in Hn; cycle 1.
  { apply IH in Hn as [Hx Hall]. split.
    - destruct next; [done|]. destruct Hx as (f & ? & ?). exists f. split; [by right|done].
    - intros e' He' Hm'. apply elem_of_cons in He' as [->|He']; [congruence|]. by apply Hall. }
  destruct next as [first|].
  - apply bind_Ok in Hn as ([] & Hq & Hn); simpl in Hn; [|done]. apply map_err_Ok in Hq.
    apply IH in Hn as [[Ht Hl] Hall]. simpl in Ht, Hl. split; [split; [done|lia]|].
    intros e' He' Hm'. apply elem_of_cons in He' as [->|He']; [|by apply Hall].
    split; [right; by rewrite Ht|lia].
  - apply IH in Hn as [[Ht Hl] Hall]. split.
    + exists x. split; [by left|done].
    + intros e' He' Hm'. apply elem_of_cons in He' as [->|He']; [|by apply Hall]. by split; [left|].
Qed.

Lemma chase_chased fuel : forall p h es cur hops t owner t' hops',
  chase (V := V) fuel es p h cur t hops = Ok (owner, t', hops') ->
  0 <= hops -> hops <= 16 -> chased p h es cur hops t ->
  chased p h es owner hops' t' /\ 0 <= hops' <= 16 /\
  next_edge p h owner es None = Ok None.
Proof.
  induction fuel as [|fuel IH]; intros p h es cur hops t owner t' hops' Hc H0' H16 Hch; [done|].
  cbn [chase] in Hc. apply bind_Ok in Hc as ([e|] & Hn & Hc); apply map_err_Ok in Hn; cycle 1.
  { by injection Hc as <- <- <-. }
  apply bind_Ok in Hc as (hops1 & Hadv & Hc). apply map_err_Ok in Hadv.
  unfold advance, add, MAX_ALIAS_HOPS in Hadv. destruct (_ <? _) eqn:E; [done|]. zbool.
  injection Hadv as <-. apply IH in Hc; [done|lia|lia|].
  apply next_edge_spec in Hn as [(f & Hf & Hm & Ht) Hall]. rewrite Ht.
  eapply chased_hop; [exact Hch|exact Hf|exact Hm| |lia].
  intros e' He' Hm'. destruct (Hall e' He' Hm') as [Ho Hl]. rewrite Ht in Ho. split; [done|lia].
Qed.

(** The early returns carry no addresses and no alias. *)
Definition no_addresses (r : Reply V) : Prop :=
  match r with RAddresses _ _ _ | RAlias _ _ _ => False | _ => True end.

Lemma chase_Err fuel : forall p h es cur hops t r,
  chase fuel es p h cur t hops = Err (inr r) -> no_addresses r.
Proof.
  induction fuel as [|fuel IH]; intros p h es cur hops t r Hc; [done|]. cbn [chase] in Hc.
  destruct (next_edge _ _ _ _ _) as [[e|]|x|w]; cbn [map_err Prelude.bind] in Hc; try done.
  destruct (advance hops) as [hops1|x|w]; cbn [map_err Prelude.bind] in Hc; try done.
  - by eapply IH.
  - by injection Hc as <-.
Qed.

Lemma feed_collect_Err p h fam owner rs : forall st r,
  feed (collect N p h fam owner) rs st = Err (inr r) -> no_addresses r.
Proof.
  induction rs as [|x rs IH]; intros st r Hf; [done|]. simpl in Hf.
  destruct (collect N p h fam owner st x) as [st'|e|w] eqn:Ec; cbn [Prelude.bind] in Hf;
    [by eapply IH| |done].
  injection Hf as ->. unfold collect in Ec. destruct st as [values min].
  destruct (matches _ _ _ _) as [same|e|w]; cbn [map_err Prelude.bind] in Ec; try done.
  destruct (_ && _); [|done].
  destruct (Span_slice _ _) as [dat|[]|w]; cbn [validated map_err Prelude.bind] in Ec; try done.
  destruct (FamilyCode.decode _ _) as [v|e|w]; cbn [map_err Prelude.bind] in Ec; try done.
  destruct (Answer.insert N values v) as [[] ?]; try done. by injection Ec as <-.
Qed.

(** A record that answers for [owner]: its value is in the set. *)
Definition answers_for (p : bytes) (h : Host.Name) (fam : Family.Version) (owner : Current)
    (r : Record_) (v : FamilyCode.IpAddr) : Prop :=
  class r = Records.IN /\ kind r = FamilyCode.kind fam /\
  matches owner p (Packet.owner r) h = Ok true /\
  FamilyCode.decode fam (slice p (s_start (data r)) (s_end (data r) - s_start (data r))) = Ok v.

Lemma feed_collect p h fam owner rs : len p <= 65535 ->
  Forall (fun r => span_ok p (data r)) rs -> forall values min values' min',
  feed (collect (V := V) N p h fam owner) rs (values, min) = Ok (values', min') ->
  NoDup (as_slice values) -> (length (as_slice values) <= N)%nat ->
  NoDup (as_slice values') /\ (length (as_slice values') <= N)%nat /\ min' <= min /\
  (forall v, v ∈ as_slice values' <->
     v ∈ as_slice values \/ exists r, r ∈ rs /\ answers_for p h fam owner r v) /\
  (forall r v, r ∈ rs -> answers_for p h fam owner r v -> min' <= ttl r).
Proof.
  intros Hl Hsp. induction Hsp as [|r rs Hr Hsp IH]; intros values min values' min' Hf Hnd Hlen.
  { injection Hf as <- <-. split; [done|]. split; [done|]. split; [lia|]. split; [|set_solver].
    intros v. split; [by left|]. intros [?|(r & Hr & _)]; [done|set_solver]. }
  simpl in Hf. apply bind_Ok in Hf as ([values1 min1] & Hc & Hf).
  unfold collect in Hc. apply bind_Ok in Hc as (same & Hm & Hc). apply map_err_Ok in Hm.
  rewrite Span_slice_ok in Hc by done. cbn [validated map_err Prelude.bind] in Hc.
  destruct (_ && _) eqn:Eif; cycle 1.
  { injection Hc as <- <-. destruct (IH _ _ _ _ Hf Hnd Hlen) as (? & ? & ? & Hin & Hmin).
    assert (Hno : forall v, ~ answers_for p h fam owner r v).
    { intros v (Hcl & Hk & Hmm & _). rewrite Hcl, Hk, !Z.eqb_refl in Eif. simpl in Eif. congruence. }
    split; [done|]. split; [done|]. split; [done|]. split.
    - intros v. rewrite Hin. split; (intros [?|(r' & Hr' & Ha')]; [by left|right]).
      + exists r'. split; [by right|done].
      + apply elem_of_cons in Hr' as [->|?]; [by apply Hno in Ha'|]. eauto.
    - intros r' v Hr' Ha. apply elem_of_cons in Hr' as [->|?]; [by apply Hno in Ha|eauto]. }
  apply andb_true_iff in Eif as [Eif ->]. apply andb_true_iff in Eif as [Ecl Ek].
  apply Z.eqb_eq in Ecl, Ek.
  apply bind_Ok in Hc as (v & Hdec & Hc). apply map_err_Ok in Hdec.
  assert (Hans : forall v', answers_for p h fam owner r v' <-> v' = v).
  { intros v'. unfold answers_for. rewrite Hdec. split; [|intros ->; done]. intros (_ & _ & _ & [= ->]). done. }
  assert (Hmid : NoDup (as_slice values1) /\ (length (as_slice values1) <= N)%nat /\
    min1 = Z.min min (ttl r) /\ forall v', v' ∈ as_slice values1 <-> v' ∈ as_slice values \/ v' = v).
  { destruct (insert N values v) as [i w] eqn:Ei. apply insert_slice in Ei. destruct i; try done;
      injection Hc as <- <-.
    - destruct Ei as (Hnin & -> & Hlt). split.
      { apply NoDup_app. split; [done|]. split; [set_solver|apply NoDup_singleton]. }
      split; [rewrite length_app; simpl; lia|]. split; [done|]. set_solver.
    - destruct Ei as [Hin ->]. split; [done|]. split; [done|]. split; [done|]. set_solver. }
  destruct Hmid as (Hnd1 & Hlen1 & -> & Hin1).
  destruct (IH _ _ _ _ Hf Hnd1 Hlen1) as (? & ? & ? & Hin & Hmin).
  split; [done|]. split; [done|]. split; [lia|]. split.
  - intros v'. rewrite Hin, Hin1. split.
    + intros [[?|Hv]|(r' & Hr' & ?)]; [by left|right; exists r; split; [by left|by apply Hans]|].
      right. exists r'. split; [by right|done].
    + intros [?|(r' & Hr' & Ha)]; [by left; left|].
      apply elem_of_cons in Hr' as [->|?]; [left; right; by apply Hans|right; eauto].
  - intros r' v' Hr' Ha. apply elem_of_cons in Hr' as [->|?]; [lia|eauto].
Qed.
End decoder.

(** ** Properties *)

Section properties.
Context `{InlineBytesLaws} {V : Type -> Type} `{CopyVecLaws V}.
Import Answer Aliases Response.

(** C34. The decoder is total and memory safe: on any bytes it returns a
    reply or an error. No loop runs out of its bound, no counter overflows,
    no unchecked read leaves the packet. *)
Theorem decoder_is_total (N : nat) (b : bytes) (h : Host.Name) (fam : Family.Version)
    (seed : Cookies.Client) :
  Forall is_byte b ->
  not_stuck (Response.try_new b) /\
  forall d, Response.try_new b = Ok d ->
    not_stuck (Response.decode (V := V) N d h fam) /\
    not_stuck (Response.udp (V := V) N d h fam seed).
Proof.
  intros Hb. split.
  - unfold Response.try_new, Packet.try_new. destruct (_ <? _); simpl; [done|].
    by destruct b as [|x [|y b]].
  - intros d Hd. destruct (try_new_Ok _ _ Hb Hd) as (Hp & Hl & _).
    split; (apply not_stuck_bind; [by apply read_not_stuck|done]).
Qed.

(** A decoded reply answers the question asked: the packet is a response
    of the standard opcode with exactly one question, which spells the host
    name, for this family's record type and class IN; the reply carries the
    packet's transaction identity, and the low bits of its code. *)
Theorem reply_answers_question (N : nat) (b : bytes) (d : Decoder) (h : Host.Name)
    (fam : Family.Version) (seed : option Cookies.Client) (env : Envelope (V := V)) :
  Forall is_byte b -> Response.try_new b = Ok d -> Response.body N d h fam seed = Ok env ->
  transaction d = of_be (slice b 0 2) /\
  (exists ls, reads_as b 12 ls /\
    map (map to_ascii_lowercase) ls = map (map to_ascii_lowercase) (Host.labels h)) /\
  (exists c rs, question b h fam c rs) /\
  Z.land (response_code env) 0x000f = Z.land (of_be (slice b 2 2)) 0x000f.
Proof.
  intros Hb Hd Hr. destruct (try_new_Ok _ _ Hb Hd) as (Hp & Hl & Hpk & Ht).
  unfold Response.body in Hr. rewrite Hpk in *.
  destruct (read_Ok N _ _ _ _ _ Hp Hl Hr) as (c & rs & chn & st & Hq & _ & Hcode & _).
  split; [exact Ht|]. split.
  { apply eq_host_exact; [done|lia|]. apply eq_host_exact; [done|lia|]. apply Hq. }
  split; [by exists c, rs|]. rewrite Hcode. unfold field.
  apply Z.bits_inj'. intros n Hn. rewrite !Z.land_spec, Z.lor_spec, Z.land_spec.
  rewrite Z.shiftl_spec by done. destruct (Z.testbit 0x000f n) eqn:E; [|by rewrite !andb_false_r].
  rewrite !andb_true_r.
  destruct (Z.lt_ge_cases n 4) as [|Hge]; [by rewrite (Z.testbit_neg_r _ (n - 4)) by lia|].
  rewrite Z.bits_above_log2 in E; [done|lia|]. simpl. lia.
Qed.

(** C35. Over UDP, a reply counts as authenticated, and a bad-cookie notice is
    believed, only when the additional section of the packet has exactly one OPT
    record, owned by the root, whose first cookie option echoes our client cookie;
    the server cookie is the rest of that option and has 8 to 32 bytes. *)
Theorem udp_cookie_authentic (N : nat) (b : bytes) (d : Decoder) (h : Host.Name)
    (fam : Family.Version) (seed : Cookies.Client) (r : Datagram (V := V)) (s : Cookies.Server) :
  Forall is_byte b -> Response.try_new b = Ok d -> Response.udp N d h fam seed = Ok r ->
  (exists rep, r = Authenticated rep s) \/ r = BadCookie s ->
  cookie_from b h fam seed s /\ 8 <= len s <= 32.
Proof.
  intros Hb Hd Hu Hs. pose proof (udp_cookie_from N b d h fam seed r s Hb Hd Hu Hs) as Hf.
  split; [exact Hf|by eapply cookie_from_bounds].
Qed.

(** A set of addresses is backed by the packet. It is nonempty, without
    duplicates and within capacity; it holds exactly the values of the answer
    records for the name the alias chain of at most 16 hops ends at, with no
    further alias there; and the lifetime is at most that of every record
    used and of every alias taken. *)
Theorem addresses_are_backed (N : nat) (b : bytes) (d : Decoder) (h : Host.Name)
    (fam : Family.Version) (values : Addresses V) (t : Z) (hops : Hops) :
  Forall is_byte b -> Response.try_new b = Ok d ->
  Response.decode N d h fam = Ok (RAddresses values t hops) ->
  as_slice values <> [] /\ NoDup (as_slice values) /\ (length (as_slice values) <= N)%nat /\
  0 <= hops <= MAX_ALIAS_HOPS /\
  exists c rs owner t0, question b h fam c rs /\ chased b h (alias_edges b rs) owner hops t0 /\
    next_edge b h owner (alias_edges b rs) None = Ok None /\
    (forall v, v ∈ as_slice values <-> exists r, r ∈ rs /\ answers_for b h fam owner r v) /\
    t <= t0 /\ forall r v, r ∈ rs -> answers_for b h fam owner r v -> t <= ttl r.
Proof.
  intros Hb Hd Hdec. destruct (try_new_Ok _ _ Hb Hd) as (Hp & Hl & Hpk & _).
  unfold Response.decode in Hdec. apply bind_Ok in Hdec as (env & Hr & Hrep). injection Hrep as Hrep.
  unfold Response.body in Hr. rewrite Hpk in *.
  destruct (read_Ok N _ _ _ _ _ Hp Hl Hr) as (c & rs & chn & st & Hq & Hfeed & _ & _ & Hfor).
  rewrite Hrep in Hfor. unfold reply_for in Hfor. destruct (negb _); [done|].
  destruct (Aliases.take chn) eqn:Etake; [done|].
  destruct (_ =? 0); [|destruct (_ =? 3); [done|by destruct (_ =? 5)]].
  pose proof Hq as Hquestion. destruct Hq as [_ _ _ _ _ _ Hc (c' & Ht & _)]. rewrite (resolve_eq N _ _ _ _ _ _ _ Ht) in Hfor.
  apply feed_read_record in Hfeed as [Ha Hs]. simpl in Ha.
  assert (Hedges : cv_slice (edges chn) = alias_edges b rs).
  { rewrite Hs; simpl; rewrite ?cv_slice_new; [done|done|].
    unfold Aliases.take in Etake. destruct (_ <? _) eqn:E; [done|]. by zbool. }
  rewrite Hedges in Hfor.
  destruct (chase _ _ _ _ _ _ _) as [[[owner t0] hops0]|e|w] eqn:Ech; cbn [Prelude.bind] in Hfor;
    [|destruct e as [e|rep]; [done|]|done]; cycle 1.
  { apply chase_Err in Ech. injection Hfor as ->. destruct Ech. }
  destruct (traversed_advanced _ _ _ (proj1 Hc) Ht) as [_ Hsp]. rewrite (proj1 (proj2 Hc)) in Hsp.
  destruct (feed (collect _ _ _ _ _) _ _) as [[vs min]|e|w] eqn:Ef; cbn [Prelude.bind] in Hfor;
    [|destruct e as [e|rep]; [done|]|done]; cycle 1.
  { apply feed_collect_Err in Ef. injection Hfor as ->. destruct Ef. }
  destruct (negb (is_empty vs)) eqn:Eempty; cycle 1.
  { destruct owner; [done|]. by destruct (expand _ _). }
  injection Hfor as -> -> ->.
  apply negb_true_iff in Eempty. unfold is_empty in Eempty.
  apply bool_decide_eq_false in Eempty. split; [exact Eempty|].
  assert (Hnew : as_slice (Answer.new (V := V)) = []) by apply cv_slice_new.
  apply feed_collect in Ef as (Hnd & Hlen & Hmin & Hin & Hall);
    [|apply Hp|exact Hsp|rewrite Hnew; constructor|rewrite Hnew; simpl; lia].
  apply chase_chased in Ech as (Hch & Hhops & Hend);
    [|unfold ZERO; lia|unfold ZERO; lia|apply chased_start].
  split; [exact Hnd|]. split; [exact Hlen|]. split; [unfold MAX_ALIAS_HOPS; lia|].
  exists c, rs, owner, t0. split; [exact Hquestion|]. split; [exact Hch|]. split; [exact Hend|].
  split; [|split; [exact Hmin|exact Hall]].
  intros v. rewrite Hin, Hnew. set_solver.
Qed.
End properties.

(** ** Replies can be applied: an alias they carry names a host or an error *)

Section replies.
Context `{InlineBytesLaws} {V : Type -> Type} `{CopyVecLaws V} (N : nat).
Import Answer Aliases Response.

Definition reply_ok (r : Reply V) : Prop :=
  match r with
  | RAlias e _ _ => exists p n, packet_ok p /\ 0 <= n /\ expand p n = Ok e
  | _ => True
  end.

Lemma no_addresses_ok r : no_addresses r -> reply_ok r.
Proof. by destruct r. Qed.

Lemma Record_name_pos p r t : packet_ok p -> span_ok p (data r) -> Record_name p r = Ok t -> 0 <= t.
Proof.
  intros Hp [? ?] Hr. unfold Record_name in Hr. apply bind_Ok in Hr as ([m c] & Hn & Hr).
  destruct (negb _); [done|]. injection Hr as <-.
  apply name_advanced in Hn as [-> _]; [simpl; lia|]. split; [done|]. simpl. lia.
Qed.

Lemma alias_edges_pos p rs e : packet_ok p -> Forall (fun r => span_ok p (data r)) rs ->
  e ∈ alias_edges p rs -> 0 <= e_target e.
Proof.
  intros Hp Hrs He. unfold alias_edges in He. apply list_elem_of_omap in He as (r & Hr & He).
  rewrite Forall_forall in Hrs. specialize (Hrs r Hr). destruct (_ && _); [|done].
  destruct (Record_name p r) as [t|? |?] eqn:Ht; try done. injection He as <-. simpl.
  by eapply Record_name_pos.
Qed.

Lemma chased_pos p h es owner hops t name : chased p h es owner hops t -> owner = Wire name ->
  (forall e, e ∈ es -> 0 <= e_target e) -> 0 <= name.
Proof. intros Hc Hw He. destruct Hc as [|cur hops t e t' ? Hin]; [done|]. injection Hw as <-. by apply He. Qed.

Lemma resolve_reply_ok chn p c rs c' h fam r :
  cursor_ok c -> packet c = p -> traversed c rs c' -> cv_slice (edges chn) = alias_edges p rs ->
  resolve N chn p (records_ c (length rs)) h fam = Ok r -> reply_ok r.
Proof.
  intros Hc Hpk Ht Hed Hr. rewrite (resolve_eq N _ _ _ _ _ _ _ Ht), Hed in Hr.
  destruct (chase _ _ _ _ _ _ _) as [[[owner t0] hops0]|e|w] eqn:Ech; cbn [Prelude.bind] in Hr;
    [|destruct e as [e|rep]; [done|]|done]; cycle 1.
  { injection Hr as <-. by eapply no_addresses_ok, chase_Err. }
  destruct (traversed_advanced _ _ _ Hc Ht) as [_ Hsp]. rewrite Hpk in Hsp.
  destruct (feed (collect _ _ _ _ _) _ _) as [[vs min]|e|w] eqn:Ef; cbn [Prelude.bind] in Hr;
    [|destruct e as [e|rep]; [done|]|done]; cycle 1.
  { injection Hr as <-. by eapply no_addresses_ok, feed_collect_Err. }
  destruct (negb (is_empty vs)); [by injection Hr as <-|]. destruct owner as [|name]; [by injection Hr as <-|].
  destruct (expand p name) as [e|e|w] eqn:Ee; try done. injection Hr as <-.
  exists p, name. assert (Hp : packet_ok p) by (rewrite <- Hpk; apply Hc).
  split; [exact Hp|]. split; [|exact Ee].
  apply chase_chased in Ech as (Hch & _); [|unfold ZERO; lia|unfold ZERO; lia|apply chased_start].
  eapply chased_pos; [exact Hch|reflexivity|]. intros x Hx. by eapply alias_edges_pos.
Qed.

Lemma read_reply_ok p h fam seed env : packet_ok p -> 2 <= len p ->
  Response.read N p h fam seed = Ok env -> reply_ok (reply env).
Proof.
  intros Hp Hl Hr. destruct (read_Ok N _ _ _ _ _ Hp Hl Hr) as (c & rs & chn & st & Hq & Hfeed & _ & _ & Hfor).
  unfold reply_for in Hfor. destruct (negb _); [by injection Hfor as <-|].
  destruct (Aliases.take chn) eqn:Etake; [by injection Hfor as <-|].
  destruct (_ =? 0); [|destruct (_ =? 3); [by injection Hfor as <-|];
    destruct (_ =? 5); by injection Hfor as <-].
  destruct Hq as [_ _ _ _ _ _ (Hc & Hpk & _) (c' & Ht & _)].
  eapply resolve_reply_ok; [exact Hc|exact Hpk|exact Ht| |exact Hfor].
  apply feed_read_record in Hfeed as [Ha Hs]. simpl in Ha.
  rewrite Hs; simpl; rewrite ?cv_slice_new; [done|done|].
  unfold Aliases.take in Etake. destruct (_ <? _) eqn:E; [done|]. by zbool.
Qed.

Lemma decode_reply_ok b d h fam r : Forall is_byte b -> Response.try_new b = Ok d ->
  Response.decode N d h fam = Ok r -> reply_ok r.
Proof.
  intros Hb Hd Hr. destruct (try_new_Ok _ _ Hb Hd) as (Hp & Hl & _).
  unfold Response.decode, Response.body in Hr. apply bind_Ok in Hr as (env & Hr & He).
  injection He as <-. exact (read_reply_ok _ _ _ _ _ Hp Hl Hr).
Qed.

Lemma udp_reply_ok b d h fam seed r s : Forall is_byte b -> Response.try_new b = Ok d ->
  Response.udp N d h fam seed = Ok (Authenticated r s) -> reply_ok r.
Proof.
  intros Hb Hd Hr. destruct (try_new_Ok _ _ Hb Hd) as (Hp & Hl & _).
  unfold Response.udp, Response.body in Hr. apply bind_Ok in Hr as (env & Hr & Ho).
  destruct (server_cookie env); [|discriminate Ho]. destruct (_ =? _); [discriminate Ho|].
  injection Ho as <- _. exact (read_reply_ok _ _ _ _ _ Hp Hl Hr).
Qed.

(** The decoder's operations are total on what [try_new] accepts. *)
Lemma decode_not_stuck_of b d h fam : Forall is_byte b -> Response.try_new b = Ok d ->
  not_stuck (Response.decode (V := V) N d h fam).
Proof.
  intros Hb Hd. destruct (try_new_Ok _ _ Hb Hd) as (Hp & Hl & _).
  apply not_stuck_bind; [by apply read_not_stuck|done].
Qed.
Lemma udp_not_stuck_of b d h fam seed : Forall is_byte b -> Response.try_new b = Ok d ->
  not_stuck (Response.udp (V := V) N d h fam seed).
Proof.
  intros Hb Hd. destruct (try_new_Ok _ _ Hb Hd) as (Hp & Hl & _).
  apply not_stuck_bind; [by apply read_not_stuck|done].
Qed.
End replies.

(** ** Concrete responses *)

Module Samples.
Import Concrete.

(** A response to [a.b]: an alias to [c.b] and the address 10.0.0.1 of [c.b]. *)
Definition alias_response : bytes :=
  [0x12; 0x34; 0x81; 0x80; 0; 1; 0; 2; 0; 0; 0; 0;
   1; 97; 1; 98; 0; 0; 1; 0; 1;
   0xc0; 12; 0; 5; 0; 1; 0; 0; 0; 60; 0; 4; 1; 99; 0xc0; 14;
   0xc0; 33; 0; 1; 0; 1; 0; 0; 0; 30; 0; 4; 10; 0; 0; 1].

Definition host_ab : Host.Name := [97; 46; 98].
Definition alias_decoder : Response.Decoder := Response.decoder alias_response 0x1234.

Lemma decoded : Response.decode (V := list) 4 alias_decoder host_ab Family.Four
  = Ok (Answer.RAddresses [FamilyCode.V4 [10; 0; 0; 1]] 30 1).
Proof. vm_compute. reflexivity. Qed.

Ltac all_bytes := repeat constructor; by vm_compute.

Lemma decoder_is_total_witness :
  not_stuck (Response.decode (V := list) 4 alias_decoder host_ab Family.Four).
Proof.
  destruct (decoder_is_total (V := list) 4 alias_response host_ab Family.Four 0) as [_ Hd]; [all_bytes|].
  destruct (Hd alias_decoder) as [Hd1 _]; [reflexivity|]. exact Hd1.
Defined.

Lemma reply_answers_question_witness :
  exists ls, reads_as alias_response 12 ls /\
    map (map to_ascii_lowercase) ls = map (map to_ascii_lowercase) [[97]; [98]].
Proof.
  assert (Hb : exists env, Response.body (V := list) 4 alias_decoder host_ab Family.Four None = Ok env).
  { eexists. vm_compute. reflexivity. }
  destruct Hb as (env & Hb).
  destruct (reply_answers_question 4 alias_response alias_decoder host_ab Family.Four None env)
    as (_ & Hn & _); [all_bytes|reflexivity|exact Hb|]. exact Hn.
Defined.

Lemma addresses_are_backed_witness :
  exists c rs owner t0, question alias_response host_ab Family.Four c rs /\
    chased alias_response host_ab (alias_edges alias_response rs) owner 1 t0 /\ 30 <= t0.
Proof.
  destruct (addresses_are_backed 4 alias_response alias_decoder host_ab Family.Four
    [FamilyCode.V4 [10; 0; 0; 1]] 30 1) as (_ & _ & _ & _ & c & rs & owner & t0 & Hq & Hc & _ & _ & Ht & _);
    [all_bytes|reflexivity|vm_compute; reflexivity|].
  exists c, rs, owner, t0. split; [exact Hq|]. split; [exact Hc|exact Ht].
Defined.

(** A response to [a] whose OPT record carries [ResponseFacts.sample_options]. *)
Definition cookie_response : bytes :=
  [0x12; 0x34; 0x81; 0x80; 0; 1; 0; 0; 0; 0; 0; 1;
   1; 97; 0; 0; 1; 0; 1;
   0; 0; 41; 4; 208; 0; 0; 0; 0; 0; 24] ++ sample_options.

Lemma udp_cookie_authentic_witness :
  cookie_from cookie_response [97] Family.Four 7 [1; 2; 3; 4; 5; 6; 7; 8].
Proof.
  destruct (udp_cookie_authentic 4 cookie_response (Response.decoder cookie_response 0x1234) [97]
    Family.Four 7 (Response.Authenticated (V := list) Answer.RNoData [1; 2; 3; 4; 5; 6; 7; 8])
    [1; 2; 3; 4; 5; 6; 7; 8]);
    [all_bytes|reflexivity|vm_compute; reflexivity|left; by eexists|]. assumption.
Defined.
End Samples.
