(* ===== verification/Frames.v ===== *)
(** * Building queries and framing them on streams.

    Model of [src/layer2/dns/src/wire/frames.rs], [net/stream/codec.rs] with
    the input view it parses ([src/layer1/manifold/src/client/session/codec]),
    and [net/stream/cursor.rs]: the bytes of a query over UDP and TCP, the
    two-byte length framing of streams, and the cursor over transaction ids. *)

From S2P Require Import Prelude Depot Errors Host Packet Response.

(** ** Queries *)

Module Frames.
(** [LEGACY_DATAGRAM_BYTES], src/layer2/dns/src/wire/frames.rs:12-12. *)
Definition LEGACY_DATAGRAM_BYTES : Z := 512.
(** [HEADER_BYTES], src/layer2/dns/src/wire/frames.rs:13-13. *)
Definition HEADER_BYTES : Z := 12.
(** [QUESTION_TRAILER_BYTES], src/layer2/dns/src/wire/frames.rs:14-14. *)
Definition QUESTION_TRAILER_BYTES : Z := 4.
(** [OPT_RECORD_BYTES], src/layer2/dns/src/wire/frames.rs:15-15. *)
Definition OPT_RECORD_BYTES : Z := 11.
(** [OPTION_HEADER_BYTES], src/layer2/dns/src/wire/frames.rs:16-16. *)
Definition OPTION_HEADER_BYTES : Z := 4.
(** [MAX_COOKIE_OPTION_BYTES], src/layer2/dns/src/wire/frames.rs:17-18. *)
Definition MAX_COOKIE_OPTION_BYTES : Z :=
  OPTION_HEADER_BYTES + Cookies.CLIENT_BYTES + Cookies.MAX_SERVER_BYTES.
(** [QUERY_OVERHEAD_BYTES], src/layer2/dns/src/wire/frames.rs:19-20. *)
Definition QUERY_OVERHEAD_BYTES : Z :=
  HEADER_BYTES + QUESTION_TRAILER_BYTES + OPT_RECORD_BYTES + MAX_COOKIE_OPTION_BYTES.
(** [MAX_QUERY_BYTES], src/layer2/dns/src/wire/frames.rs:21-21. *)
Definition MAX_QUERY_BYTES : Z := QUERY_OVERHEAD_BYTES + Host.MAX_WIRE_LEN.
(** [STREAM_PREFIX_BYTES], src/layer2/dns/src/wire/frames.rs:22-22. *)
Definition STREAM_PREFIX_BYTES : Z := 2.
(** [EDNS_PAYLOAD], src/layer2/dns/src/wire/frames.rs:23-23. *)
Definition EDNS_PAYLOAD : Z := 1232.
(** [MAX_STREAM_FRAME_BYTES], src/layer2/dns/src/wire/frames.rs:24-25. *)
Definition MAX_STREAM_FRAME_BYTES : Z :=
  STREAM_PREFIX_BYTES + MAX_QUERY_BYTES - MAX_COOKIE_OPTION_BYTES.

(** [array[off..off + n].copy_from_slice(l)], in the range of the array. *)
Definition copy_at (array : bytes) (off : nat) (l : bytes) : bytes :=
  take off array ++ l ++ drop (off + length l) array.

(** [Builder::name], src/layer2/dns/src/wire/frames.rs:122-133. The loop runs
    from the last byte to the first: it turns every dot into the length of
    the label after it, and leaves the length of the first label. *)
Fixpoint name {E} (bs : bytes) : run E (Z * bytes) :=
  match bs with
  | [] => Ok (0, [])
  | byte :: bs =>
      let! (label, bs) := name bs in
      if byte =? dot then Ok (0, label :: bs)
      else if 255 <? label + 1 then Stuck Panic
      else Ok (label + 1, byte :: bs)
  end.

Section build.
Context {B : Type} `{Fill B}.

(** [Datagram], src/layer2/dns/src/wire/frames.rs:29-34. *)
Record Datagram := datagram { id : Tx.Id; epoch : Z; buffer : B }.

(** [Builder], src/layer2/dns/src/wire/frames.rs:36-40. *)
Record Builder := builder { b_id : Tx.Id; b_name : Host.Name; family : Family.Version }.

(** The header of [Builder::udp], src/layer2/dns/src/wire/frames.rs:51-94. *)
Definition udp_header (self : Builder) : bytes :=
  let header := replicate 13 0 in
  let header := copy_at header 0 (to_be 2 (Tx.wire (b_id self))) in
  let header := <[2%nat := 1]> header in
  let header := <[5%nat := 1]> header in
  <[11%nat := 1]> header.

(** The bytes after the name in [Builder::udp], src/layer2/dns/src/wire/frames.rs:51-94. *)
Definition udp_tail (self : Builder) (client : Cookies.Client) (server_len : Z) : bytes :=
  let length := as_u16 (Cookies.CLIENT_BYTES + as_u16 server_len) in
  let tail := replicate 28 0 in
  let tail := copy_at tail 1 (to_be 2 (Records.Kind_wire (FamilyCode.kind (family self)))) in
  let tail := copy_at tail 3 (to_be 2 (Records.Class_wire Records.IN)) in
  let tail := copy_at tail 6 (to_be 2 (Records.Kind_wire Records.OPT)) in
  let tail := copy_at tail 8 (to_be 2 EDNS_PAYLOAD) in
  let tail := copy_at tail 14 (to_be 2 (OPTION_HEADER_BYTES + length)) in
  let tail := copy_at tail 16 (to_be 2 Cookies.OPTION) in
  let tail := copy_at tail 18 (to_be 2 length) in
  copy_at tail 20 (Cookies.into_bytes client).

(** [Builder::udp], src/layer2/dns/src/wire/frames.rs:51-94. *)
Definition udp {E} (self : Builder) (epoch : Z) (client : Cookies.Client)
    (server : option Cookies.Server) : run E Datagram :=
  let server := default [] server in
  let fill := fill_write fill_new (udp_header self) in
  let fill := fill_write fill (b_name self) in
  let! (first, labels) := name (b_name self) in
  let fill := fill_update fill 12 [first] in
  let fill := fill_update fill 13 labels in
  let fill := fill_write fill (udp_tail self client (len server)) in
  Ok (datagram (b_id self) epoch (fill_write fill server)).

(** The header of [Builder::tcp], src/layer2/dns/src/wire/frames.rs:96-120. *)
Definition tcp_header (self : Builder) : bytes :=
  let length :=
    as_u16 (QUERY_OVERHEAD_BYTES - MAX_COOKIE_OPTION_BYTES + Host.wire_len (b_name self)) in
  let header := replicate 15 0 in
  let header := copy_at header 0 (to_be 2 length) in
  let header := copy_at header 2 (to_be 2 (Tx.wire (b_id self))) in
  let header := <[4%nat := 1]> header in
  let header := <[7%nat := 1]> header in
  <[13%nat := 1]> header.

(** The bytes after the name in [Builder::tcp], src/layer2/dns/src/wire/frames.rs:96-120. *)
Definition tcp_tail (self : Builder) : bytes :=
  let tail := replicate 16 0 in
  let tail := copy_at tail 1 (to_be 2 (Records.Kind_wire (FamilyCode.kind (family self)))) in
  let tail := copy_at tail 3 (to_be 2 (Records.Class_wire Records.IN)) in
  let tail := copy_at tail 6 (to_be 2 (Records.Kind_wire Records.OPT)) in
  copy_at tail 8 (to_be 2 EDNS_PAYLOAD).

(** [Builder::tcp], src/layer2/dns/src/wire/frames.rs:96-120. *)
Definition tcp {E} (self : Builder) : run E B :=
  let fill := fill_write fill_new (tcp_header self) in
  let fill := fill_write fill (b_name self) in
  let! (first, labels) := name (b_name self) in
  let fill := fill_update fill 14 [first] in
  let fill := fill_update fill 15 labels in
  Ok (fill_write fill (tcp_tail self)).

(** [Datagram::transaction], src/layer2/dns/src/wire/frames.rs:137-139. *)
Definition transaction (self : Datagram) : Tx.Id * Z := (id self, epoch self).
(** [Datagram::as_ref], src/layer2/dns/src/wire/frames.rs:143-145. *)
Definition as_ref (self : Datagram) : bytes := fill_bytes (buffer self).
End build.
Arguments Datagram B : clear implicits.
End Frames.

(** ** Stream framing *)

Module Codec.
Import LookupError.

(** [Bound], src/layer1/manifold/src/client/session/codec/staging/mod.rs:25-28. *)
Inductive Bound := Direct | Buffered (limit : Z).

(** [Input], src/layer1/manifold/src/client/session/codec/input.rs:12-15. *)
Record Input := input { slice_ : bytes; limit : Bound }.

(** [Need], src/layer1/manifold/src/client/session/codec/mod.rs:25-28. What
    [Input::need_to] builds: nothing consumed, an exact target. *)
Record Need := need { consumed : option Z; target : option Z }.

(** [Parse], src/layer1/manifold/src/client/session/codec/mod.rs:31-39. *)
Inductive Parse :=
  | More (n : Need)
  | Blocked
  | CapacityExhausted
  | Item (head : bytes) (consumed : Z).

(** [Finish], src/layer1/manifold/src/client/session/codec/mod.rs:42-46. *)
Inductive Finish := Empty | FinishCapacityExhausted | FinishItem (head : bytes).

(** [Input::need_to], src/layer1/manifold/src/client/session/codec/input.rs:171-184. *)
Definition need_to (self : Input) (t : Z) : option Need :=
  let left := len (slice_ self) in
  match limit self with
  | Direct => None
  | Buffered limit => if (t <=? left) || (limit <? t) then None else Some (need None (Some t))
  end.

Section codec.
Context `{Payloads} `{!ScopeInput scope_Error}.

(** [Input::try_consumed], src/layer1/manifold/src/client/session/codec/input.rs:144-150. *)
Definition try_consumed (self : Input) (amount : Z) : run scope_Error Z :=
  try_prefix (slice_ self) 0 amount.

(** [Prefix::staging], src/layer2/dns/src/net/stream/codec.rs:26-30. The
    warm and the largest staging size. *)
Definition staging : Z * Z :=
  let WARM := 16 * 1024 in
  let limit := 2 + 65535 in
  (Z.min limit WARM, limit).

Definition more_or_exhausted (n : option Need) : Parse :=
  match n with Some n => More n | None => CapacityExhausted end.

(** [Prefix::parse], src/layer2/dns/src/net/stream/codec.rs:34-65. *)
Definition parse (buf : Input) : run StreamError Parse :=
  let PREFIX := 2 in
  let b := slice_ buf in
  if len b <? PREFIX then Ok (more_or_exhausted (need_to buf PREFIX))
  else
    let length := of_be [byte_at b 0; byte_at b 1] in
    let total := 1 + (PREFIX - 1 + length) in
    match try_plan b PREFIX total with
    | Ok payload =>
        let! consumed := map_err LookupError.Input (try_consumed buf total) in
        Ok (Item payload consumed)
    | Err error => Ok (more_or_exhausted (need_to buf (range_end error)))
    | Stuck w => Stuck w
    end.

(** [Prefix::finish], src/layer2/dns/src/net/stream/codec.rs:69-92. *)
Definition finish (buf : Input) : run StreamError Finish :=
  let PREFIX := 2 in
  let b := slice_ buf in
  let left := len b in
  if left =? 0 then Ok Empty
  else
    let required :=
      if left <? PREFIX then PREFIX
      else PREFIX + of_be [byte_at b 0; byte_at b 1] in
    Err (StreamTruncated left required).
End codec.
End Codec.

(** ** The cursor over transaction identities *)

Module StreamCursor.
(** [Cursor], src/layer2/dns/src/net/stream/cursor.rs:6-9. *)
Record Cursor := cursor { start : Tx.Id; issued : Z }.

(** [Cursor::new], src/layer2/dns/src/net/stream/cursor.rs:12-14. *)
Definition new (start : Tx.Id) : Cursor := cursor start 0.

(** [Cursor::next], src/layer2/dns/src/net/stream/cursor.rs:16-28. *)
Definition next (self : Cursor) : option (Tx.Id * Cursor) :=
  if Tx.CAPACITY <=? issued self then None
  else
    let id := Tx.wrapping_add (start self) (as_u16 (issued self)) in
    Some (id, cursor (start self) (issued self + 1)).

(** The identities the cursor issues, in order. *)
Fixpoint issue (n : nat) (self : Cursor) : list Tx.Id :=
  match n with
  | O => []
  | S n =>
      match next self with
      | None => []
      | Some (id, self) => id :: issue n self
      end
  end.
End StreamCursor.
