(* ===== verification/FramesFacts.v ===== *)
(** * Queries and frames: what is sent is what is read.

    Lemmas and properties of [Frames], [Codec] and [StreamCursor]. *)

From S2P Require Import Prelude Depot Errors Host Packet PacketFacts Response ResponseFacts Frames.

Import Packet.

(** ** Uncompressed names *)

(** Labels behind their length bytes, without the root. *)
Definition wire_labels (ls : list bytes) : bytes := concat (map (fun l => len l :: l) ls).

Lemma wire_labels_cons l ls : wire_labels (l :: ls) = (len l :: l) ++ wire_labels ls.
Proof. done. Qed.

Lemma wire_labels_len ls : len (wire_labels ls) = wire_size ls.
Proof.
  induction ls as [|l ls IH]; [done|]. rewrite wire_labels_cons, wire_size_cons, len_app, len_cons, IH. lia.
Qed.

Lemma label_ok_len l : Host.label_ok l -> 1 <= len l <= 63.
Proof. by intros [? _]. Qed.

Lemma label_byte_is_byte b : Host.label_byte b = true -> is_byte b.
Proof.
  unfold Host.label_byte, is_ascii_alphanumeric, is_ascii_uppercase, Host.hyphen, Host.underscore, is_byte.
  intros Hb. repeat (apply orb_true_iff in Hb as [Hb|Hb]); zbool; lia.
Qed.

Lemma label_ok_bytes l : Host.label_ok l -> Forall is_byte l.
Proof. intros (_ & _ & _ & Hf). eapply Forall_impl; [exact Hf|]. apply label_byte_is_byte. Qed.

Lemma wire_labels_bytes ls : Forall Host.label_ok ls -> Forall is_byte (wire_labels ls).
Proof.
  induction 1 as [|l ls Hl Hls IH]; [constructor|]. rewrite wire_labels_cons. apply Forall_app.
  split; [|done]. constructor; [|by apply label_ok_bytes].
  apply label_ok_len in Hl. unfold is_byte. lia.
Qed.

(** [Builder::name] turns dots into length bytes. *)
Lemma name_word {E} w rest n out : dot ∉ w -> Frames.name (E := E) rest = Ok (n, out) ->
  0 <= n -> n + len w <= 255 -> Frames.name (E := E) (w ++ rest) = Ok (n + len w, w ++ out).
Proof.
  intros Hw Hr Hn Hl. induction w as [|b w IH]; simpl.
  - by rewrite Z.add_0_r.
  - rewrite len_cons in Hl. pose proof (len_nonneg w).
    rewrite IH by (try set_solver; lia). simpl.
    destruct (Z.eqb_spec b dot); [set_solver|].
    destruct (_ <? _) eqn:E1; zbool; [lia|]. rewrite len_cons. do 2 f_equal. lia.
Qed.

Lemma name_dotted {E} ls : Forall Host.label_ok ls ->
  Frames.name (E := E) (dotted ls) = Ok (0, wire_labels ls).
Proof.
  induction 1 as [|l ls Hl Hls IH]; [done|]. rewrite dotted_cons, wire_labels_cons. simpl.
  apply label_ok_len in Hl as Hlen.
  rewrite (name_word l _ 0 (wire_labels ls)); [|by apply Host.label_ok_no_dot|done|lia|lia]. done.
Qed.

Lemma name_join {E} l ls : Forall Host.label_ok (l :: ls) ->
  Frames.name (E := E) (join (l :: ls)) = Ok (len l, l ++ wire_labels ls).
Proof.
  intros Hf. apply Forall_cons in Hf as [Hl Hls]. apply label_ok_len in Hl as Hlen. simpl.
  apply (name_word l _ 0); [by apply Host.label_ok_no_dot|by apply name_dotted|lia|lia].
Qed.

(** An uncompressed name is read back. *)
Lemma decode_before c b l rest : 0 <= b < 64 -> len l = b ->
  before c ((b :: l) ++ rest) ->
  exists c', Raw.decode Raw.Checked (packet c) (position c)
             = Ok (Raw.PLabel (Raw.read l (position c'))) /\
    before c' rest /\ packet c' = packet c /\ position c' = position c + 1 + len l /\
    packet c !! Z.to_nat (position c) = Some b /\
    slice (packet c) (position c + 1) b = l.
Proof.
  intros Hb Hl Hbef. pose proof Hbef as [[[Hp Hlen] Hpos] Hd].
  assert (Hin : packet c !! Z.to_nat (position c) = Some b).
  { pose proof (lookup_drop (packet c) (Z.to_nat (position c)) 0) as Hx.
    rewrite Nat.add_0_r in Hx. refine (eq_trans (eq_sym Hx) _). by rewrite Hd. }
  assert (Hd1 : drop (Z.to_nat (position c + 1)) (packet c) = l ++ rest).
  { replace (Z.to_nat (position c + 1)) with (Z.to_nat (position c) + 1)%nat by lia.
    by rewrite <- drop_drop, Hd. }
  assert (Hpos1 : 0 <= position c + 1 <= len (packet c)).
  { pose proof (before_len _ _ Hbef) as Hx. rewrite len_app, len_cons in Hx.
    pose proof (len_nonneg l). pose proof (len_nonneg rest). lia. }
  destruct (bytes_at_app _ _ _ _ Hlen Hpos1 Hd1) as (Hr & Hd2 & Hp2).
  apply bytes_at_Ok in Hr as [_ Hr]; [|done|lia|apply len_nonneg].
  injection Hr as Hslice. rewrite Hl in Hslice.
  exists (cursor (packet c) (position c + 1 + len l)). simpl. split; [|split; [|by rewrite Hslice]].
  - apply decode_complete; [by split|lia|]. exists b. split; [done|]. split; [lia|]. split; [lia|].
    by rewrite <- Hslice, Hl.
  - split; [split; [by split|exact Hp2]|exact Hd2].
Qed.

Lemma name_loop_before ls : forall fuel c rest prefix,
  Forall (fun l => 1 <= len l < 64) ls -> before c (wire_labels ls ++ [0] ++ rest) ->
  prefix + wire_size ls <= 254 -> (length ls < fuel)%nat ->
  exists c', name_loop Raw.Checked fuel c prefix = Ok c' /\ before c' rest /\
    packet c' = packet c /\ position c' = position c + wire_size ls + 1 /\
    Spells (packet c) (position c) 0 ls.
Proof.
  induction ls as [|l ls IH]; intros fuel c rest prefix Hf Hb Hs Hfuel;
    (destruct fuel as [|fuel]; [lia|]); cbn [name_loop].
  - destruct (decode_before c 0 [] rest) as (c' & Hd & Hb' & Hpk & Hp & Hl & _); [lia|done|done|].
    rewrite Hd. simpl. exists c'. rewrite <- Hpk at 1.
    split; [by destruct c'|]. split; [done|]. split; [done|]. split; [rewrite Hp, len_nil; simpl; lia|].
    by constructor.
  - apply Forall_cons in Hf as [Hl Hf]. rewrite wire_labels_cons in Hb. rewrite wire_size_cons in *.
    rewrite <- app_assoc in Hb. pose proof (wire_size_nonneg ls).
    destruct (decode_before c (len l) l (wire_labels ls ++ [0] ++ rest))
      as (c1 & Hd & Hb1 & Hpk & Hp & Hlook & Hsl); [lia|done|done|].
    rewrite Hd. cbn [Prelude.bind Raw.bytes_ Raw.Part_end Raw.end_].
    destruct (_ =? 0) eqn:E0; zbool; [lia|]. cbn [Raw.m_check Raw.Checked].
    destruct (_ <? _) eqn:E1; zbool; [unfold Host.MAX_WIRE_LEN, Host.MAX_PRESENTATION_LEN in *; lia|].
    cbn [Prelude.bind].
    destruct (IH fuel c1 rest (prefix + (len l + 1))) as (c' & Hn & Hb' & Hpk' & Hp' & Hsp);
      [done|done|lia|simpl in Hfuel; lia|].
    exists c'. replace (cursor (packet c) (position c1)) with c1 by (rewrite <- Hpk; by destruct c1).
    split; [done|]. split; [done|]. split; [congruence|]. split; [lia|].
    rewrite <- Hsl. apply Spells_label; [done|lia| |].
    + pose proof (before_len _ _ Hb1) as Hx. rewrite Hpk in Hx.
      pose proof (len_nonneg (wire_labels ls ++ [0] ++ rest)). lia.
    + rewrite <- Hp, <- Hpk. exact Hsp.
Qed.

Lemma name_before ls c rest : Forall (fun l => 1 <= len l < 64) ls ->
  before c (wire_labels ls ++ [0] ++ rest) -> wire_size ls <= 254 ->
  exists c', name Raw.Checked c = Ok (position c, c') /\ before c' rest /\
    packet c' = packet c /\ position c' = position c + wire_size ls + 1 /\
    reads_as (packet c) (position c) ls.
Proof.
  intros Hf Hb Hs. assert (Hlen : (length ls < NAME_FUEL)%nat).
  { unfold NAME_FUEL. assert (2 * Z.of_nat (length ls) <= wire_size ls); [|lia].
    destruct (wire_size_length ls) as [?|He]; [done|]. apply Exists_exists in He as (l & Hin & ->).
    rewrite Forall_forall in Hf. apply Hf in Hin. rewrite len_nil in Hin. lia. }
  destruct (name_loop_before ls NAME_FUEL c rest 0 Hf Hb ltac:(lia) Hlen) as (c' & Hn & ? & ? & ? & Hsp).
  exists c'. split; [unfold name; by rewrite Hn|]. repeat (split; [done|]).
  exists 0. split; [done|]. unfold MAX_POINTER_HOPS, Host.MAX_WIRE_LEN, Host.MAX_PRESENTATION_LEN. lia.
Qed.

(** ** The bytes of a query *)

(** The question and the OPT record that follow the name. *)
Definition question_tail (fam : Family.Version) (options : bytes) : bytes :=
  to_be 2 (FamilyCode.kind fam) ++ to_be 2 Records.IN ++
  [0] ++ to_be 2 Records.OPT ++ to_be 2 Frames.EDNS_PAYLOAD ++ to_be 4 0 ++
  to_be 2 (len options) ++ options.

(** The packet both builders send. *)
Definition query_bytes (id : Tx.Id) (ls : list bytes) (fam : Family.Version) (options : bytes) : bytes :=
  to_be 2 id ++ [1; 0; 0; 1; 0; 0; 0; 0; 0; 1] ++ wire_labels ls ++ [0] ++ question_tail fam options.

Definition cookie_option (client : Cookies.Client) (server : option Cookies.Server) : bytes :=
  encode_option (Cookies.OPTION, Cookies.into_bytes client ++ default [] server).

(** A query as its receiver reads it: header, question and OPT record. *)
Record reads_query (p : bytes) (id : Tx.Id) (ls : list bytes) (fam : Family.Version)
    (options : bytes) : Prop := {
  rq_id : field p 0 = id;
  rq_flags : field p 2 = 0x0100;
  rq_counts : [field p 4; field p 6; field p 8; field p 10] = [1; 0; 0; 1];
  rq_question : exists c, name Raw.Checked (cursor p 12) = Ok (12, c) /\ reads_as p 12 ls /\
    field p (position c) = FamilyCode.kind fam /\ field p (position c + 2) = Records.IN /\
    exists r c', record Raw.Checked (cursor p (position c + 4)) = Ok (r, c') /\
      position c' = len p /\ compare_root p (owner r) = Ok None /\ kind r = Records.OPT /\
      class r = Frames.EDNS_PAYLOAD /\ ttl r = 0 /\ Span_slice p (data r) = Ok options;
}.

Lemma field_before c v rest : 0 <= v < 65536 -> before c (to_be 2 v ++ rest) ->
  field (packet c) (position c) = v.
Proof.
  intros Hv [_ Hd]. unfold field, slice. rewrite Hd. change (Z.to_nat 2) with 2%nat.
  rewrite take_app_length' by by rewrite to_be_length. by apply of_be_to_be.
Qed.

Lemma kind_range fam : 0 <= FamilyCode.kind fam < 65536.
Proof. destruct fam; simpl; unfold Records.A, Records.AAAA; lia. Qed.

(** The OPT record, read. *)
Lemma opt_record_before c options : len options < 65536 ->
  before c ([0] ++ to_be 2 Records.OPT ++ to_be 2 Frames.EDNS_PAYLOAD ++ to_be 4 0 ++
            to_be 2 (len options) ++ options) ->
  exists r c', record Raw.Checked c = Ok (r, c') /\ position c' = len (packet c) /\
    compare_root (packet c) (owner r) = Ok None /\ kind r = Records.OPT /\
    class r = Frames.EDNS_PAYLOAD /\ ttl r = 0 /\ Span_slice (packet c) (data r) = Ok options.
Proof.
  intros Ho Hb. pose proof (len_nonneg options).
  destruct (name_before [] c _ ltac:(constructor) Hb ltac:(simpl; lia)) as (c1 & H1 & B1 & K1 & P1 & R1).
  destruct (u16_before c1 Records.OPT _ ltac:(unfold Records.OPT; lia) B1) as (c2 & H2 & B2 & K2 & P2).
  destruct (u16_before c2 Frames.EDNS_PAYLOAD _ ltac:(unfold Frames.EDNS_PAYLOAD; lia) B2) as (c3 & H3 & B3 & K3 & P3).
  destruct (u32_before c3 0 _ ltac:(lia) B3) as (c4 & H4 & B4 & K4 & P4).
  destruct (u16_before c4 (len options) _ ltac:(lia) B4) as (c5 & H5 & B5 & K5 & P5).
  rewrite <- (app_nil_r options) in B5.
  destruct (take_bytes_before c5 _ _ B5) as (c6 & H6 & B6 & K6 & P6).
  assert (Hpk : packet c5 = packet c) by congruence.
  eexists _, c6. split.
  { unfold record. rewrite H1. cbn [bind]. rewrite H2. cbn [bind]. rewrite H3. cbn [bind].
    rewrite H4. cbn [bind]. rewrite H5. cbn [bind]. rewrite H6. cbn [bind]. reflexivity. }
  pose proof (before_len _ _ B6) as Hend. rewrite len_nil in Hend. cbn [owner kind class ttl data].
  destruct Hb as [Hc _]. split; [rewrite K6, Hpk in Hend; lia|].
  split; [|split; [done|split; [done|split; [done|]]]].
  - unfold compare_root.
    destruct (reads_next (labels (packet c) (position c)) []) as (l' & Hn & _).
    + apply labels_iter_ok; apply Hc.
    + by apply labels_reads.
    + rewrite Hn. done.
  - rewrite Span_slice_ok; cbn [s_start s_end].
    + f_equal. rewrite P6. replace (position c5 + len options - position c5) with (len options) by lia.
      destruct B5 as [_ B5]. rewrite Hpk in B5. unfold slice. rewrite B5, app_nil_r.
      unfold len. rewrite Nat2Z.id. by apply take_ge.
    + apply Hc.
    + split; cbn [s_start s_end]; [destruct B5 as [[_ ?] _]; lia|].
      destruct B6 as [[_ B6] _]. rewrite K6, Hpk in B6. lia.
Qed.

Lemma query_bytes_read id ls fam options :
  0 <= id < 65536 -> Forall Host.label_ok ls -> wire_size ls <= 254 ->
  Forall is_byte options -> len options < 60000 ->
  reads_query (query_bytes id ls fam options) id ls fam options.
Proof.
  intros Hid Hls Hsz Hob Hol. set (p := query_bytes id ls fam options).
  pose proof (kind_range fam) as Hk. pose proof (len_nonneg options) as Hnn.
  assert (Hlens : Forall (fun l => 1 <= len l < 64) ls).
  { eapply Forall_impl; [exact Hls|]. intros l Hl. apply label_ok_len in Hl. lia. }
  assert (Hp : packet_ok p).
  { split.
    - unfold p, query_bytes, question_tail.
      repeat first [ apply to_be_bytes | apply Forall_app_2 | by apply wire_labels_bytes | assumption
                   | apply Forall_cons_2; [unfold is_byte; lia|] | apply Forall_nil_2 ].
    - unfold p, query_bytes, question_tail.
      rewrite !len_app, !len_to_be, wire_labels_len, !len_cons, !len_nil. lia. }
  assert (Hlp : 12 <= len p).
  { unfold p, query_bytes. rewrite !len_app, !len_to_be, !len_cons, !len_nil, wire_labels_len.
    pose proof (wire_size_nonneg ls). pose proof (len_nonneg (question_tail fam options)). lia. }
  assert (H12 : before (cursor p 12) (wire_labels ls ++ [0] ++ question_tail fam options)).
  { split; [split; [done|simpl; lia]|]. reflexivity. }
  assert (Hhead : forall k (v : Z), (k <= 5)%nat -> 0 <= v < 65536 ->
    take 2 (drop (2 * k) (to_be 2 id ++ [1; 0; 0; 1; 0; 0; 0; 0; 0; 1])) = to_be 2 v ->
    field p (2 * Z.of_nat k) = v).
  { intros k v Hk5 Hv Ht. unfold field, slice. replace (Z.to_nat (2 * Z.of_nat k)) with (2 * k)%nat by lia.
    unfold p, query_bytes. rewrite app_assoc, drop_app_le by (rewrite length_app, to_be_length; simpl; lia).
    rewrite take_app_le; [change (Z.to_nat 2) with 2%nat; rewrite Ht; by apply of_be_to_be|].
    rewrite length_drop, length_app, to_be_length. simpl. lia. }
  constructor.
  - apply (Hhead 0%nat); [lia|done|]. reflexivity.
  - apply (Hhead 1%nat); [lia|lia|]. reflexivity.
  - assert (field p 4 = 1) as -> by (apply (Hhead 2%nat); [lia|lia|reflexivity]).
    assert (field p 6 = 0) as -> by (apply (Hhead 3%nat); [lia|lia|reflexivity]).
    assert (field p 8 = 0) as -> by (apply (Hhead 4%nat); [lia|lia|reflexivity]).
    assert (field p 10 = 1) as -> by (apply (Hhead 5%nat); [lia|lia|reflexivity]).
    reflexivity.
  - destruct (name_before ls _ _ Hlens H12 Hsz) as (c & Hn & B & K & P & R).
    unfold question_tail in B. simpl in K, P.
    pose proof (field_before _ _ _ Hk B) as F1. rewrite K in F1.
    destruct (u16_before _ _ _ Hk B) as (c1 & _ & B1 & K1 & P1).
    pose proof (field_before _ Records.IN _ ltac:(unfold Records.IN; lia) B1) as F2.
    destruct (u16_before _ Records.IN _ ltac:(unfold Records.IN; lia) B1) as (c2 & _ & B2 & K2 & P2).
    destruct (opt_record_before c2 options ltac:(lia) B2) as (r & c3 & Hr & Hrest).
    exists c. split; [exact Hn|]. split; [exact R|]. split; [exact F1|].
    split; [by rewrite <- P1, <- K, <- K1|]. exists r, c3.
    assert (Hp2 : packet c2 = p) by congruence. rewrite Hp2 in Hrest. split; [|exact Hrest].
    replace (cursor p (position c + 4)) with c2; [exact Hr|].
    destruct c2 as [p2 pos2]; cbn [packet position] in Hp2, P2 |- *. f_equal; [exact Hp2|lia].
Qed.

(** ** The builders *)

Section builders.
Context {B : Type} `{FillLaws B}.

(** A run appended at [pre], rewritten in place. *)
Lemma fill_patch b pre old new : fill_bytes b = pre ++ old -> length new = length old ->
  fill_bytes (fill_update b (length pre) new) = pre ++ new.
Proof.
  intros Hb Hl. rewrite fill_bytes_update by (rewrite Hb, length_app; lia).
  rewrite Hb, take_app_length, Hl, <- length_app, drop_ge by lia. by rewrite app_nil_r.
Qed.

(** Writing a name after a header whose last byte is its first length byte. *)
Lemma fill_name {E} pre ls : ls <> [] -> Forall Host.label_ok ls ->
  exists first labels, Frames.name (E := E) (map to_ascii_lowercase (join ls)) = Ok (first, labels) /\
    fill_bytes (fill_update (fill_update
      (fill_write (fill_write fill_new (pre ++ [0])) (map to_ascii_lowercase (join ls)))
      (length pre) [first]) (S (length pre)) labels)
    = pre ++ wire_labels (map (map to_ascii_lowercase) ls).
Proof.
  intros Hne Hls. rewrite Host.join_lower.
  assert (Hls' : Forall Host.label_ok (map (map to_ascii_lowercase) ls)).
  { apply Forall_map. eapply Forall_impl; [exact Hls|]. apply Host.label_ok_lower. }
  destruct ls as [|l ls]; [done|]. cbn [map] in *.
  set (l' := map to_ascii_lowercase l) in *. set (ls' := map (map to_ascii_lowercase) ls) in *.
  exists (len l'), (l' ++ wire_labels ls'). split; [by apply name_join|].
  assert (Hlen : length (wire_labels ls') = length (dotted ls')).
  { assert (len (wire_labels ls') = len (dotted ls')) by by rewrite wire_labels_len, dotted_size.
    unfold len in *. lia. }
  set (b0 := fill_write (fill_write fill_new (pre ++ [0])) (join (l' :: ls'))).
  assert (H0' : fill_bytes b0 = (pre ++ [0]) ++ join (l' :: ls')).
  { unfold b0. by rewrite !fill_bytes_write, fill_bytes_new. }
  assert (H1' : fill_bytes (fill_update b0 (length pre) [len l']) = (pre ++ [len l']) ++ join (l' :: ls')).
  { rewrite fill_bytes_update by (rewrite H0', !length_app; simpl; lia).
    rewrite H0', <- app_assoc, take_app_length. simpl length. rewrite <- app_assoc.
    rewrite drop_app_ge by lia. by replace (length pre + 1 - length pre)%nat with 1%nat by lia. }
  replace (S (length pre)) with (length (pre ++ [len l'])) by (rewrite length_app; simpl; lia).
  rewrite (fill_patch _ _ _ _ H1') by (simpl join; rewrite !length_app; lia).
  rewrite wire_labels_cons, <- app_assoc. done.
Qed.

Lemma parse_labels `{InlineBytesLaws} input n : Host.parse input = Ok n ->
  exists ls, ls <> [] /\ Forall Host.label_ok ls /\ n = map to_ascii_lowercase (join ls) /\
    Host.labels n = map (map to_ascii_lowercase) ls /\ len n = wire_size (Host.labels n) - 1 /\
    1 <= len n <= 253.
Proof.
  intros Hp. set (ls := split dot (Host.strip_dot input)).
  assert (Hne : ls <> []) by apply split_nonnil.
  unfold Host.parse in Hp. fold ls in Hp. rewrite <- (join_split (Host.strip_dot input)) in Hp.
  fold ls in Hp. apply Host.assemble_Ok in Hp as (Hlen & Hf & ->); [|done|done].
  exists ls. split; [done|]. split; [done|]. split; [done|].
  rewrite Host.labels_join by done. split; [done|].
  assert (len (map to_ascii_lowercase (join ls)) = len (join ls)) as -> by (unfold len; by rewrite length_map).
  split; [|done]. rewrite join_size by done. f_equal.
  clear. induction ls as [|l ls IH]; [done|]. cbn [map]. rewrite !wire_size_cons, IH.
  unfold len. by rewrite length_map.
Qed.

Lemma udp_bytes {E} `{InlineBytesLaws} input n id fam epoch client server :
  Host.parse input = Ok n -> 0 <= id < 65536 -> len (default [] server) <= 32 ->
  exists d, Frames.udp (E := E) (Frames.builder id n fam) epoch client server = Ok d /\
    Frames.transaction d = (id, epoch) /\
    Frames.as_ref d = query_bytes id (Host.labels n) fam (cookie_option client server).
Proof.
  intros Hp Hid Hs. destruct (parse_labels _ _ Hp) as (ls & Hne & Hls & -> & Hlab & Hlen & Hb).
  rewrite Hlab. unfold Frames.udp. cbn [Frames.b_name Frames.b_id].
  assert (Hh : Frames.udp_header (Frames.builder id (map to_ascii_lowercase (join ls)) fam)
    = (to_be 2 id ++ [1; 0; 0; 1; 0; 0; 0; 0; 0; 1]) ++ [0]) by reflexivity.
  rewrite Hh.
  destruct (fill_name (E := E) (to_be 2 id ++ [1; 0; 0; 1; 0; 0; 0; 0; 0; 1]) ls Hne Hls)
    as (first & labels & Hn & Hfill).
  rewrite Hn. cbn [Prelude.bind]. eexists. split; [reflexivity|]. split; [done|].
  unfold Frames.as_ref. cbn [Frames.buffer]. rewrite !fill_bytes_write.
  change (length (to_be 2 id ++ [1; 0; 0; 1; 0; 0; 0; 0; 0; 1])) with 12%nat in Hfill.
  rewrite Hfill. unfold query_bytes. rewrite <- !app_assoc. do 3 f_equal.
  unfold Frames.udp_tail, question_tail, cookie_option, encode_option. cbn [fst snd].
  set (s := default [] server) in *. pose proof (len_nonneg s).
  assert (Hc : len (Cookies.into_bytes client) = 8) by (unfold Cookies.into_bytes; by rewrite len_to_be).
  rewrite !len_app, !len_to_be, Hc. unfold Cookies.CLIENT_BYTES, Frames.OPTION_HEADER_BYTES.
  rewrite (as_u16_small (len s)) by lia. rewrite as_u16_small by lia.
  change (Z.of_nat 2) with 2. replace (2 + (2 + (8 + len s))) with (4 + (8 + len s)) by lia.
  reflexivity.
Qed.

Lemma tcp_bytes {E} `{InlineBytesLaws} input n id fam :
  Host.parse input = Ok n -> 0 <= id < 65536 ->
  exists b, Frames.tcp (E := E) (Frames.builder id n fam) = Ok b /\
    fill_bytes b = to_be 2 (len (query_bytes id (Host.labels n) fam []))
                   ++ query_bytes id (Host.labels n) fam [].
Proof.
  intros Hp Hid. destruct (parse_labels _ _ Hp) as (ls & Hne & Hls & -> & Hlab & Hlen & Hb).
  rewrite Hlab in *. unfold Frames.tcp. cbn [Frames.b_name Frames.b_id].
  set (m := map to_ascii_lowercase (join ls)) in *.
  assert (Hq : len (query_bytes id (map (map to_ascii_lowercase) ls) fam [])
    = Frames.QUERY_OVERHEAD_BYTES - Frames.MAX_COOKIE_OPTION_BYTES + Host.wire_len m).
  { unfold query_bytes, question_tail.
    rewrite !len_app, !len_to_be, wire_labels_len, !len_cons, !len_nil.
    unfold Host.wire_len. rewrite Hlen. vm_compute (Frames.QUERY_OVERHEAD_BYTES - _). lia. }
  set (L := len (query_bytes id (map (map to_ascii_lowercase) ls) fam [])) in *.
  assert (HL : 0 <= L < 65536).
  { rewrite Hq. unfold Host.wire_len. vm_compute (Frames.QUERY_OVERHEAD_BYTES - _). lia. }
  assert (Hh : Frames.tcp_header (Frames.builder id m fam)
    = (to_be 2 L ++ to_be 2 id ++ [1; 0; 0; 1; 0; 0; 0; 0; 0; 1]) ++ [0]).
  { unfold Frames.tcp_header. cbn [Frames.b_name Frames.b_id]. rewrite <- Hq, as_u16_small by done.
    reflexivity. }
  rewrite Hh.
  destruct (fill_name (E := E) (to_be 2 L ++ to_be 2 id ++ [1; 0; 0; 1; 0; 0; 0; 0; 0; 1]) ls Hne Hls)
    as (first & labels & Hn & Hfill). fold m in Hn, Hfill.
  rewrite Hn. cbn [Prelude.bind]. eexists. split; [reflexivity|].
  rewrite fill_bytes_write.
  change (length (to_be 2 L ++ to_be 2 id ++ [1; 0; 0; 1; 0; 0; 0; 0; 0; 1])) with 14%nat in Hfill.
  rewrite Hfill. unfold query_bytes. rewrite <- !app_assoc. do 4 f_equal.
Qed.
(** Building never fails on a host name. *)
Lemma udp_builds {E} `{InlineBytesLaws} n id fam epoch client server :
  Host.parse n = Ok n ->
  exists d, Frames.udp (E := E) (Frames.builder id n fam) epoch client server = Ok d.
Proof.
  intros Hp. destruct (parse_labels _ _ Hp) as (ls & Hne & Hls & Hn & _).
  destruct (fill_name (E := E) [] ls Hne Hls) as (first & labels & He & _). rewrite <- Hn in He.
  unfold Frames.udp. cbn [Frames.b_name]. rewrite He. by eexists.
Qed.
Lemma tcp_builds {E} `{InlineBytesLaws} n id fam :
  Host.parse n = Ok n -> exists b, Frames.tcp (E := E) (Frames.builder id n fam) = Ok b.
Proof.
  intros Hp. destruct (parse_labels _ _ Hp) as (ls & Hne & Hls & Hn & _).
  destruct (fill_name (E := E) [] ls Hne Hls) as (first & labels & He & _). rewrite <- Hn in He.
  unfold Frames.tcp. cbn [Frames.b_name]. rewrite He. by eexists.
Qed.
End builders.

Section properties.
Context {B : Type} `{FillLaws B} `{InlineBytesLaws}.

(** C36. A UDP query says what was asked. For every valid host name, identity,
    cookie and server cookie of 8 to 32 bytes, the built datagram fits the
    legacy 512 bytes and is read back, by the checked reader, as a query
    with that identity for that name, type and class, with an OPT record
    whose only option is the cookie; a responder that scans the option for
    our client cookie finds exactly the server cookie. *)
Theorem udp_query_round_trip (input : bytes) (n : Host.Name) (id : Tx.Id) (fam : Family.Version)
    (epoch : Z) (client : Cookies.Client) (server : option Cookies.Server) :
  Host.parse input = Ok n -> 0 <= id < 65536 -> 0 <= client < 2 ^ 64 ->
  (forall s, server = Some s -> 8 <= len s <= 32 /\ Forall is_byte s) ->
  exists d, Frames.udp (E := False) (B := B) (Frames.builder id n fam) epoch client server = Ok d /\
    Frames.transaction d = (id, epoch) /\
    len (Frames.as_ref d) <= Frames.MAX_QUERY_BYTES /\
    Frames.MAX_QUERY_BYTES <= Frames.LEGACY_DATAGRAM_BYTES /\
    reads_query (Frames.as_ref d) id (Host.labels n) fam (cookie_option client server) /\
    forall s, server = Some s ->
      Cookies.from_options (cookie_option client server) client = Ok (Some s).
Proof.
  intros Hp Hid Hcl Hs.
  assert (Hlen : len (default [] server) <= 32 /\ Forall is_byte (default [] server)).
  { destruct server as [s|]; simpl; [|split; [done|constructor]].
    destruct (Hs s eq_refl) as [[? ?] ?]. by split. }
  destruct Hlen as [Hlen Hsb].
  destruct (udp_bytes (E := False) input n id fam epoch client server Hp Hid Hlen)
    as (d & Hd & Ht & Hb).
  exists d. split; [exact Hd|]. split; [exact Ht|]. rewrite Hb.
  destruct (parse_labels _ _ Hp) as (ls & Hne & Hls & -> & Hlab & Hsz & Hr). rewrite Hlab in *.
  pose proof (len_nonneg (default [] server)).
  assert (Ho : len (cookie_option client server) = 12 + len (default [] server)).
  { unfold cookie_option, encode_option. cbn [fst snd]. unfold Cookies.into_bytes.
    rewrite !len_app, !len_to_be. lia. }
  assert (Hob : Forall is_byte (cookie_option client server)).
  { unfold cookie_option, encode_option, Cookies.into_bytes. cbn [fst snd].
    repeat first [apply to_be_bytes | assumption | apply Forall_app_2]. }
  split.
  { unfold query_bytes, question_tail.
    rewrite !len_app, !len_to_be, wire_labels_len, !len_cons, !len_nil, Ho.
    change Frames.MAX_QUERY_BYTES with 326. lia. }
  split; [by vm_compute|]. split.
  - apply query_bytes_read; [done| |lia|done|lia].
    apply Forall_map. eapply Forall_impl; [exact Hls|]. apply Host.label_ok_lower.
  - intros s ->. destruct (Hs s eq_refl) as [Hs1 Hs2]. simpl in Hlen, Hsb, Ho.
    apply from_options_exact; [done|]. split; [lia|].
    assert (Hi : len (Cookies.into_bytes client) = 8) by (unfold Cookies.into_bytes; by rewrite len_to_be).
    exists [(Cookies.OPTION, Cookies.into_bytes client ++ s)]. split; [|split].
    + unfold cookie_option, encode_options. simpl. by rewrite app_nil_r.
    + constructor; [|constructor]. split; cbn [fst snd]; [unfold Cookies.OPTION; lia|].
      rewrite len_app, Hi. lia.
    + cbn [first_cookie]. rewrite Z.eqb_refl. rewrite decide_True; [done|]. split; [rewrite len_app, Hi; lia|].
      unfold Cookies.into_bytes. rewrite take_app_length' by by rewrite to_be_length.
      apply of_be_to_be. done.
Qed.

(** A TCP query is one frame: a two-byte length, exactly the length of the
    rest, then the query for that identity, name, type and class with an
    OPT record without options; the frame fits its fixed buffer. *)
Theorem tcp_query_round_trip (input : bytes) (n : Host.Name) (id : Tx.Id) (fam : Family.Version) :
  Host.parse input = Ok n -> 0 <= id < 65536 ->
  exists b p, Frames.tcp (E := False) (B := B) (Frames.builder id n fam) = Ok b /\
    fill_bytes b = to_be 2 (len p) ++ p /\ len p < 65536 /\
    len (fill_bytes b) <= Frames.MAX_STREAM_FRAME_BYTES /\
    reads_query p id (Host.labels n) fam [].
Proof.
  intros Hp Hid. destruct (tcp_bytes (E := False) input n id fam Hp Hid) as (b & Hb & Hbytes).
  destruct (parse_labels _ _ Hp) as (ls & Hne & Hls & -> & Hlab & Hsz & Hr). rewrite Hlab in *.
  eexists b, _. split; [exact Hb|]. split; [exact Hbytes|].
  assert (Hq : len (query_bytes id (map (map to_ascii_lowercase) ls) fam []) <= 282).
  { unfold query_bytes, question_tail.
    rewrite !len_app, !len_to_be, wire_labels_len, !len_cons, !len_nil. lia. }
  split; [lia|]. split; [rewrite Hbytes, len_app, len_to_be; change Frames.MAX_STREAM_FRAME_BYTES with 284; lia|].
  apply query_bytes_read; [done| |lia|constructor|rewrite len_nil; lia].
  apply Forall_map. eapply Forall_impl; [exact Hls|]. apply Host.label_ok_lower.
Qed.
End properties.

(** ** Stream framing *)

Section codec.
Context `{Payloads} `{!ScopeInput scope_Error}.
Import Codec.

(** The stream framing is exact. A whole frame is one item, its payload,
    and consumes precisely the frame whatever follows; a proper prefix of a
    frame asks for exactly the bytes up to the next boundary it can know,
    and at the end of the stream it is a truncation error with the required
    length; an empty stream ends cleanly. *)
Theorem stream_framing_exact (MAX_BYTES : Z) (payload rest : bytes) (cut : nat) :
  ScopeInputLaws scope_Error MAX_BYTES -> 65537 <= MAX_BYTES ->
  Forall is_byte payload -> len payload <= 65535 ->
  let frame := to_be 2 (len payload) ++ payload in
  let total := 2 + len payload in
  let head := take cut frame in
  let next := if len head <? 2 then 2 else total in
  parse (input (frame ++ rest) (Buffered (staging).2)) = Ok (Item payload total) /\
  ((cut < length frame)%nat ->
     parse (input head (Buffered (staging).2)) = Ok (More (need None (Some next))) /\
     len head < next <= total /\
     finish (input head (Buffered (staging).2))
     = (if len head =? 0 then Ok Empty else Err (LookupError.StreamTruncated (len head) next))).
Proof.
  intros HL HM Hp Hl frame total head next. pose proof (len_nonneg payload) as Hnn.
  assert (Hframe : len frame = total).
  { unfold frame, total. rewrite len_app, len_to_be. lia. }
  assert (Hlen2 : of_be (to_be 2 (len payload)) = len payload).
  { apply of_be_to_be. simpl. lia. }
  assert (Hhead : forall l, to_be 2 (len payload) ++ l =
    byte_at (to_be 2 (len payload) ++ l) 0 :: byte_at (to_be 2 (len payload) ++ l) 1 :: l) by done.
  assert (Hbytes : forall l, of_be [byte_at (to_be 2 (len payload) ++ l) 0;
    byte_at (to_be 2 (len payload) ++ l) 1] = len payload) by (intros; exact Hlen2).
  split.
  - unfold parse. cbn [slice_]. unfold frame. rewrite <- app_assoc, Hbytes.
    rewrite !len_app, len_to_be. pose proof (len_nonneg rest).
    destruct (Z.of_nat 2 + _ <? 2) eqn:E; zbool; [lia|].
    replace (1 + (2 - 1 + len payload)) with total by (unfold total; lia).
    rewrite try_plan_inside; [|unfold total; lia|unfold total; rewrite !len_app, len_to_be; lia].
    unfold try_consumed. cbn [slice_].
    rewrite try_prefix_inside; [|unfold total; lia|unfold total; rewrite !len_app, len_to_be; lia].
    cbn [map_err bind]. do 2 f_equal. unfold slice. change (Z.to_nat 2) with 2%nat.
    rewrite drop_app_length' by by rewrite to_be_length.
    apply take_app_length'. unfold len, total. unfold len. lia.
  - intros Hcut. assert (Hcl : len head = Z.of_nat cut).
    { unfold head, len. rewrite length_take. lia. }
    assert (Hct : len head < total) by (rewrite Hcl; unfold len in Hframe; lia).
    assert (Hnext : len head < next <= total).
    { unfold next. destruct (_ <? 2) eqn:E; zbool; [|done]. unfold total in *. lia. }
    assert (Hlim : (staging).2 = 65537) by done. rewrite Hlim.
    assert (Hneed : need_to (input head (Buffered 65537)) next = Some (need None (Some next))).
    { unfold need_to. cbn [limit slice_]. destruct (_ || _) eqn:E; [|done]. zbool.
      destruct E; zbool; unfold total in *; lia. }
    assert (Hb2 : 2 <= len head -> of_be [byte_at head 0; byte_at head 1] = len payload).
    { intros H2. assert (Hc2 : (2 <= cut)%nat) by lia. unfold head.
      assert (Hsplit : take cut frame = to_be 2 (len payload) ++ take (cut - 2) payload).
      { unfold frame. by rewrite take_app_ge by (rewrite to_be_length; lia). }
      rewrite Hsplit. apply Hbytes. }
    split; [|split; [exact Hnext|]].
    + unfold parse. cbn [slice_]. unfold next in *. destruct (len head <? 2) eqn:E; zbool.
      * by rewrite Hneed.
      * rewrite Hb2 by done. replace (1 + (2 - 1 + len payload)) with total by (unfold total; lia).
        destruct (try_plan_outside head 2 total) as (e & -> & ->);
          [unfold total; lia|done|]. by rewrite Hneed.
    + unfold finish. cbn [slice_]. destruct (len head =? 0) eqn:E0; [done|]. unfold next.
      destruct (len head <? 2) eqn:E; zbool; [done|]. by rewrite Hb2.
Qed.
End codec.

(** ** The transaction cursor *)

Lemma issue_spec n : forall c, 0 <= StreamCursor.start c < 65536 -> 0 <= StreamCursor.issued c ->
  StreamCursor.issued c + Z.of_nat n <= 65536 ->
  StreamCursor.issue n c
  = map (fun k => (StreamCursor.start c + (StreamCursor.issued c + Z.of_nat k)) mod 65536) (seq 0 n).
Proof.
  induction n as [|n IH]; intros [s i] Hs Hi Hn; [done|]. cbn [StreamCursor.issue seq map]. simpl in *.
  unfold StreamCursor.next. cbn [StreamCursor.issued StreamCursor.start]. unfold Tx.CAPACITY.
  destruct (_ <=? i) eqn:E; zbool; [lia|].
  rewrite IH by (simpl; lia). cbn [StreamCursor.issued StreamCursor.start].
  f_equal.
  - unfold Tx.wrapping_add. rewrite (as_u16_small i) by lia. unfold as_u16, wrap.
    do 2 f_equal. lia.
  - rewrite <- seq_shift, map_map. apply map_ext. intros k. f_equal. lia.
Qed.

(** The identities reached from a start by [m] steps of one, modulo [m]. *)
Lemma rotation_enumerates (m : nat) (start : Z) : 0 < Z.of_nat m -> 0 <= start < Z.of_nat m ->
  let ids := map (fun k => (start + Z.of_nat k) mod Z.of_nat m) (seq 0 m) in
  NoDup ids /\ forall id, id ∈ ids <-> 0 <= id < Z.of_nat m.
Proof.
  intros Hm Hs ids. split.
  - apply NoDup_fmap_2_strong; [|apply NoDup_seq].
    intros x y Hx Hy Heq. apply elem_of_seq in Hx, Hy.
    assert (Hd : (Z.of_nat x - Z.of_nat y) mod Z.of_nat m = 0).
    { replace (Z.of_nat x - Z.of_nat y) with ((start + Z.of_nat x) - (start + Z.of_nat y)) by lia.
      rewrite Zminus_mod, Heq, Z.sub_diag. by rewrite Z.mod_0_l by lia. }
    apply (proj1 (Z.mod_divide _ (Z.of_nat m) ltac:(lia))) in Hd as [k Hk]. destruct (Z.lt_trichotomy k 0) as [Hn|[->|Hn]]; [nia|lia|nia].
  - intros id. unfold ids. rewrite list_elem_of_fmap. split.
    + intros (k & -> & _). by apply Z.mod_pos_bound.
    + intros Hid. exists (Z.to_nat ((id - start) mod Z.of_nat m)).
      pose proof (Z.mod_pos_bound (id - start) (Z.of_nat m) Hm).
      rewrite Z2Nat.id by lia. split; [|apply elem_of_seq; lia].
      rewrite Zplus_mod_idemp_r. replace (start + (id - start)) with id by lia.
      by rewrite Z.mod_small.
Qed.

(** A connection never reuses a transaction identity: from any start, the
    cursor issues all 65536 identities, each exactly once, and then none. *)
Theorem cursor_issues_each_identity_once (start : Tx.Id) (n : nat) :
  0 <= start < 65536 ->
  let ids := StreamCursor.issue (Z.to_nat Tx.CAPACITY + n) (StreamCursor.new start) in
  length ids = Z.to_nat Tx.CAPACITY /\ NoDup ids /\ forall id, id ∈ ids <-> 0 <= id < 65536.
Proof.
  intros Hs ids.
  assert (Hids : ids = map (fun k => (start + Z.of_nat k) mod 65536) (seq 0 (Z.to_nat 65536))).
  { unfold ids. change Tx.CAPACITY with 65536.
    assert (Hsplit : forall m c, 0 <= StreamCursor.issued c ->
      StreamCursor.issued c + Z.of_nat m = 65536 ->
      StreamCursor.issue (m + n) c = StreamCursor.issue m c).
    { induction m as [|m IH]; intros c Hc Hm; simpl.
      - destruct n; [done|]. cbn [StreamCursor.issue]. unfold StreamCursor.next, Tx.CAPACITY.
        destruct (_ <=? StreamCursor.issued c) eqn:E; zbool; [done|lia].
      - unfold StreamCursor.next, Tx.CAPACITY.
        destruct (_ <=? StreamCursor.issued c) eqn:E; [done|]. f_equal.
        apply IH; cbn [StreamCursor.issued]; lia. }
    rewrite Hsplit by (cbn [StreamCursor.new StreamCursor.issued]; lia).
    rewrite issue_spec by (cbn [StreamCursor.new StreamCursor.issued StreamCursor.start]; lia).
    done. }
  rewrite Hids. split; [rewrite length_map, length_seq; reflexivity|].
  pose proof (rotation_enumerates (Z.to_nat 65536) start) as Hr. rewrite Z2Nat.id in Hr by lia.
  apply Hr; lia.
Qed.

(** ** Concrete queries *)

Module Samples.
Import Concrete ConcretePayloads.

Definition ab_c : bytes := [65; 98; 46; 99].

Lemma udp_query_round_trip_witness :
  exists d, Frames.udp (E := False) (B := bytes) (Frames.builder 0x1234 [97; 98; 46; 99] Family.Six) 3 7
      (Some [1; 2; 3; 4; 5; 6; 7; 8]) = Ok d /\
    reads_query (Frames.as_ref d) 0x1234 [[97; 98]; [99]] Family.Six
      (cookie_option 7 (Some [1; 2; 3; 4; 5; 6; 7; 8])).
Proof.
  destruct (udp_query_round_trip (B := bytes) ab_c [97; 98; 46; 99] 0x1234 Family.Six 3 7
    (Some [1; 2; 3; 4; 5; 6; 7; 8])) as (d & Hd & _ & _ & _ & Hr & _).
  - reflexivity.
  - lia.
  - lia.
  - intros s [= <-]. split; [split; by vm_compute|]. repeat constructor; by vm_compute.
  - exists d. split; [exact Hd|exact Hr].
Defined.

Lemma tcp_query_round_trip_witness :
  exists b p, Frames.tcp (E := False) (B := bytes) (Frames.builder 0x1234 [97; 98; 46; 99] Family.Six) = Ok b /\
    b = to_be 2 (len p) ++ p /\ reads_query p 0x1234 [[97; 98]; [99]] Family.Six [].
Proof.
  destruct (tcp_query_round_trip (B := bytes) ab_c [97; 98; 46; 99] 0x1234 Family.Six)
    as (b & p & Hb & Hp & _ & _ & Hr); [reflexivity|lia|].
  exists b, p. split; [exact Hb|]. split; [exact Hp|exact Hr].
Defined.

Lemma stream_framing_exact_witness :
  Codec.parse (Codec.input [0; 2; 5; 6; 9] (Codec.Buffered 65537)) = Ok (Codec.Item [5; 6] 4) /\
  Codec.parse (Codec.input [0; 2; 5] (Codec.Buffered 65537))
  = Ok (Codec.More (Codec.need None (Some 4))).
Proof.
  destruct (stream_framing_exact 65537 [5; 6] [9] 3) as [H1 H2].
  - apply list_scope_input_laws.
  - lia.
  - repeat constructor; by vm_compute.
  - by vm_compute.
  - split; [exact H1|]. apply H2. by vm_compute; lia.
Defined.

Lemma cursor_issues_each_identity_once_witness :
  NoDup (StreamCursor.issue (Z.to_nat Tx.CAPACITY + 0) (StreamCursor.new 65535)).
Proof.
  destruct (cursor_issues_each_identity_once 65535 0) as (_ & Hnd & _); [lia|]. exact Hnd.
Defined.
End Samples.
