(* ===== verification/Index.v ===== *)
(** * Indices of the query store.

    Model of [src/layer2/dns/src/storage/queries/index]: the four-valued
    server index and the arrays it selects in, lanes, the packed branch index
    (a lane and an address family in one non-zero [u16]), and the cursor that
    visits every branch once when a stream connection retires. *)

From S2P Require Import Prelude Depot Errors.

(** [config::MAX_SERVERS], src/layer2/dns/src/config/mod.rs:7-7. *)
Definition MAX_SERVERS : nat := 4.

(** ** Servers and the arrays they index *)

(** [Server], src/layer2/dns/src/storage/queries/index/mod.rs:18-18. An
    [array::Index<4>]: one of four slots. *)
Inductive Server := Slot0 | Slot1 | Slot2 | Slot3.
#[export] Instance server_eq_dec : EqDecision Server.
Proof. solve_decision. Defined.

(** [Server::from], src/layer2/dns/src/storage/queries/index/mod.rs:31-33. The
    slot of a vacancy is below [MAX_SERVERS]. *)
Definition of_slot (slot : nat) : Server :=
  match slot with 0%nat => Slot0 | 1%nat => Slot1 | 2%nat => Slot2 | _ => Slot3 end.
Definition slot_of (s : Server) : nat :=
  match s with Slot0 => 0 | Slot1 => 1 | Slot2 => 2 | Slot3 => 3 end.

(** [[T; MAX_SERVERS]]: total in its index, so never out of range. *)
Definition Array (T : Type) : Type := Server -> T.
Definition repeat_array {T} (x : T) : Array T := fun _ => x.
(** [Server::get], src/layer2/dns/src/storage/queries/index/mod.rs:21-23. *)
Definition get {T} (self : Server) (values : Array T) : T := values self.
(** [Server::get_mut], src/layer2/dns/src/storage/queries/index/mod.rs:25-27. *)
Definition put {T} (self : Server) (values : Array T) (x : T) : Array T :=
  fun s => if decide (s = self) then x else values s.

Definition all_servers : list Server := [Slot0; Slot1; Slot2; Slot3].

Lemma put_same {T} s (a : Array T) x : put s a x s = x.
Proof. unfold put. by rewrite decide_True. Qed.
Lemma put_other {T} s s' (a : Array T) x : s' <> s -> put s a x s' = a s'.
Proof. intros. unfold put. by rewrite decide_False. Qed.
Lemma slot_of_of_slot n : (n < 4)%nat -> slot_of (of_slot n) = n.
Proof. intros. destruct n as [|[|[|[|n]]]]; simpl; lia. Qed.
Lemma of_slot_slot_of s : of_slot (slot_of s) = s.
Proof. by destruct s. Qed.
Lemma of_slot_inj n m : (n < 4)%nat -> (m < 4)%nat -> of_slot n = of_slot m -> n = m.
Proof. intros Hn Hm He. by rewrite <- (slot_of_of_slot n), He, slot_of_of_slot. Qed.

(** ** Lanes and branches *)

(** [Lane], src/layer2/dns/src/storage/queries/index/lane.rs:7-7. *)
Definition Lane := Z.
(** [Branch], src/layer2/dns/src/storage/queries/index/branch.rs:9-9. A non-zero
    [u16]. *)
Definition Branch := Z.

Module Branch.
Import Family.

(** [family as u16]. *)
Definition bit (v : Version) : Z := match v with Four => 0 | Six => 1 end.

(** [Branch::from_ordinal], src/layer2/dns/src/storage/queries/index/branch.rs:21-25.
    [NonZero::<u16>::MIN.saturating_add]. *)
Definition from_ordinal (index : Z) : Branch := Z.min 65535 (1 + index).
(** [Branch::new], src/layer2/dns/src/storage/queries/index/branch.rs:16-18. *)
Definition new (lane : Lane) (v : Version) : Branch :=
  from_ordinal (Z.lor (as_u16 (Z.shiftl lane 1)) (bit v)).
(** [Branch::raw], src/layer2/dns/src/storage/queries/index/branch.rs:35-37. *)
Definition raw (self : Branch) : Z := self - 1.
(** [Branch::lane], src/layer2/dns/src/storage/queries/index/branch.rs:27-29. *)
Definition lane (self : Branch) : Lane := Z.shiftr (raw self) 1.
(** [Branch::family], src/layer2/dns/src/storage/queries/index/branch.rs:31-33. *)
Definition family (self : Branch) : Version := from_bit (Z.land (raw self) 1).
(** [Branch::ordinal], src/layer2/dns/src/storage/queries/index/branch.rs:39-41. *)
Definition ordinal (self : Branch) : Z := raw self.
End Branch.

(** The lanes a layout admits: two branches each, all ordinals below [u16::MAX]. *)
Definition MAX_LANES : Z := 32767.

Lemma branch_new_raw l v :
  0 <= l < MAX_LANES -> Branch.new l v = 2 * l + Branch.bit v + 1.
Proof.
  unfold MAX_LANES. intros Hl. unfold Branch.new, Branch.from_ordinal, as_u16.
  rewrite Z.shiftl_mul_pow2, wrap_small by lia. change (2 ^ 1) with 2.
  assert (Z.lor (l * 2) (Branch.bit v) = l * 2 + Branch.bit v) as ->.
  { destruct v; simpl Branch.bit; [by rewrite Z.lor_0_r, Z.add_0_r|].
    rewrite <- Z.add_lor_land. enough (Z.land (l * 2) 1 = 0) by lia.
    change 1 with (Z.ones 1). rewrite Z.land_ones by lia. apply Z.mod_mul; lia. }
  destruct v; simpl; lia.
Qed.

Lemma branch_split i :
  0 <= i < 65535 ->
  Branch.raw (Branch.from_ordinal i) = i
  /\ Branch.lane (Branch.from_ordinal i) = i / 2
  /\ Branch.bit (Branch.family (Branch.from_ordinal i)) = i mod 2.
Proof.
  intros Hi. unfold Branch.lane, Branch.family, Branch.raw, Branch.from_ordinal.
  replace (Z.min 65535 (1 + i) - 1) with i by lia.
  split; [done|]. rewrite Z.shiftr_div_pow2 by lia. split; [done|].
  change 1 with (Z.ones 1). rewrite Z.land_ones by lia. change (2 ^ 1) with 2.
  unfold Family.from_bit. pose proof (Z.mod_pos_bound i 2 ltac:(lia)).
  destruct (Z.eqb_spec (i mod 2) 0); simpl; lia.
Qed.

Lemma branch_lane l v : 0 <= l < MAX_LANES -> Branch.lane (Branch.new l v) = l.
Proof.
  intros Hl. rewrite branch_new_raw by done. unfold Branch.lane, Branch.raw.
  rewrite Z.shiftr_div_pow2 by lia. change (2 ^ 1) with 2.
  symmetry. apply Z.div_unique with (r := Branch.bit v); destruct v; simpl; lia.
Qed.

Lemma branch_family l v : 0 <= l < MAX_LANES -> Branch.family (Branch.new l v) = v.
Proof.
  intros Hl. rewrite branch_new_raw by done. unfold Branch.family, Branch.raw, Family.from_bit.
  change 1 with (Z.ones 1) at 3. rewrite Z.land_ones by lia. change (2 ^ 1) with 2.
  replace (2 * l + Branch.bit v + 1 - 1) with (Branch.bit v + l * 2) by lia.
  rewrite Z.mod_add by lia. by destruct v.
Qed.

Lemma branch_new_split i :
  0 <= i < 2 * MAX_LANES ->
  Branch.new (Branch.lane (Branch.from_ordinal i)) (Branch.family (Branch.from_ordinal i))
  = Branch.from_ordinal i.
Proof.
  unfold MAX_LANES. intros Hi. destruct (branch_split i) as (_ & Hl & Hf); [lia|].
  pose proof (Z.div_mod i 2 ltac:(lia)). pose proof (Z.mod_pos_bound i 2 ltac:(lia)).
  rewrite branch_new_raw by (unfold MAX_LANES; lia). rewrite Hl, Hf.
  unfold Branch.from_ordinal. lia.
Qed.

(** Branch indices pack without loss. For every lane a layout admits and
    either family, the packed branch is a non-zero 16-bit word below
    [u16::MAX] that gives back the lane, the family and the ordinal
    [2 * lane + family]; and every ordinal in range is the branch of its lane
    and family, so branches and (lane, family) pairs correspond one to one. *)
Theorem branch_packing_exact l v i :
  0 <= l < MAX_LANES -> 0 <= i < 2 * MAX_LANES ->
  (1 <= Branch.new l v < 65535
   /\ Branch.lane (Branch.new l v) = l /\ Branch.family (Branch.new l v) = v
   /\ Branch.ordinal (Branch.new l v) = 2 * l + Branch.bit v)
  /\ Branch.ordinal (Branch.from_ordinal i) = i
  /\ Branch.new (Branch.lane (Branch.from_ordinal i)) (Branch.family (Branch.from_ordinal i))
     = Branch.from_ordinal i
  /\ 0 <= Branch.lane (Branch.from_ordinal i) < MAX_LANES.
Proof.
  intros Hl Hi. rewrite branch_lane, branch_family, branch_new_split by done.
  unfold MAX_LANES in *. destruct (branch_split i) as (Hr & -> & _); [lia|].
  rewrite branch_new_raw by (unfold MAX_LANES; lia).
  unfold Branch.ordinal. rewrite Hr. unfold Branch.raw.
  pose proof (Z.div_mod i 2 ltac:(lia)). pose proof (Z.mod_pos_bound i 2 ltac:(lia)).
  split; [destruct v; simpl; repeat split; lia|]. repeat split; lia.
Qed.

Lemma branch_packing_exact_witness :
  0 <= 32766 < MAX_LANES /\ 0 <= 65533 < 2 * MAX_LANES
  /\ (1 <= Branch.new 32766 Family.Six < 65535
      /\ Branch.lane (Branch.new 32766 Family.Six) = 32766
      /\ Branch.family (Branch.new 32766 Family.Six) = Family.Six
      /\ Branch.ordinal (Branch.new 32766 Family.Six) = 65533)
     /\ Branch.ordinal (Branch.from_ordinal 65533) = 65533
     /\ Branch.new (Branch.lane (Branch.from_ordinal 65533))
          (Branch.family (Branch.from_ordinal 65533)) = Branch.from_ordinal 65533
     /\ 0 <= Branch.lane (Branch.from_ordinal 65533) < MAX_LANES.
Proof.
  assert (H1 : 0 <= 32766 < MAX_LANES) by (unfold MAX_LANES; lia).
  assert (H2 : 0 <= 65533 < 2 * MAX_LANES) by (unfold MAX_LANES; lia).
  split; [exact H1|]. split; [exact H2|].
  exact (branch_packing_exact 32766 Family.Six 65533 H1 H2).
Defined.

(** ** Visiting every branch *)

Module Retirement.
Section lanes.
(** The compile-time lane count. *)
Context (LANES : Z).

(** [Retirement], src/layer2/dns/src/storage/queries/index/branch.rs:13-13. *)
Definition Retirement := Z.
(** [Retirement::VALID], src/layer2/dns/src/storage/queries/index/branch.rs:45-48. *)
Definition VALID : bool := negb (LANES =? 0) && (LANES <=? (65535 - 1) / 2).
(** [Retirement::LIMIT], src/layer2/dns/src/storage/queries/index/branch.rs:50-53. *)
Definition LIMIT : Z := as_u16 (LANES * 2).
(** [Retirement::new], src/layer2/dns/src/storage/queries/index/branch.rs:55-58. *)
Definition new : Retirement := 0.
(** [Retirement::next], src/layer2/dns/src/storage/queries/index/branch.rs:60-66. *)
Definition next (self : Retirement) : option (Branch * Retirement) :=
  if self =? LIMIT then None
  else Some (Branch.from_ordinal self, self + 1).

(** The branches [n] calls of [next] return. *)
Fixpoint visit (n : nat) (self : Retirement) : list Branch * Retirement :=
  match n with
  | O => ([], self)
  | S n =>
      match next self with
      | None => ([], self)
      | Some (b, self) => let '(bs, self) := visit n self in (b :: bs, self)
      end
  end.
End lanes.
End Retirement.

(** Retirement visits every branch exactly once. For every lane count the
    code compiles with, [2 * LANES] calls of [next] return the branches of all
    lanes and both families, in ordinal order and without repetition, and the
    next call returns [None]. *)
Theorem retirement_visits_each_branch_once LANES :
  Retirement.VALID LANES = true -> 0 <= LANES ->
  let '(bs, rest) := Retirement.visit LANES (Z.to_nat (2 * LANES)) Retirement.new in
  bs = map Branch.from_ordinal (seqZ 0 (2 * LANES)) /\ NoDup bs
  /\ (forall l v, 0 <= l < LANES -> Branch.new l v ∈ bs)
  /\ Retirement.next LANES rest = None.
Proof.
  unfold Retirement.VALID. intros Hv Hpos. zbool.
  change ((65535 - 1) / 2) with MAX_LANES in *.
  assert (Hle : LANES <= MAX_LANES) by done. clear - Hle Hpos.
  assert (HL : Retirement.LIMIT LANES = 2 * LANES).
  { unfold Retirement.LIMIT. rewrite as_u16_small; unfold MAX_LANES in *; lia. }
  assert (Hvis : forall n i, i + Z.of_nat n = 2 * LANES ->
            Retirement.visit LANES n i
            = (map Branch.from_ordinal (seqZ i (Z.of_nat n)), 2 * LANES)).
  { induction n as [|n IH]; intros i Hi; simpl Retirement.visit.
    - f_equal. lia.
    - unfold Retirement.next. rewrite HL. destruct (Z.eqb_spec i (2 * LANES)); [lia|].
      rewrite IH by lia. rewrite (seqZ_cons i) by lia. simpl.
      replace (Z.pred (Z.of_nat (S n))) with (Z.of_nat n) by lia. done. }
  rewrite Hvis by (unfold Retirement.new; lia). rewrite Z2Nat.id by lia.
  unfold MAX_LANES, Retirement.new in *. split; [done|]. split; [|split].
  - apply NoDup_fmap_2_strong; [|apply NoDup_seqZ].
    intros x y Hx%elem_of_seqZ Hy%elem_of_seqZ. unfold Branch.from_ordinal. intros. lia.
  - intros l v Hl. apply list_elem_of_fmap. exists (2 * l + Branch.bit v).
    rewrite branch_new_raw by (unfold MAX_LANES; lia). unfold Branch.from_ordinal.
    rewrite elem_of_seqZ. destruct v; simpl; lia.
  - unfold Retirement.next. rewrite HL. by rewrite Z.eqb_refl.
Qed.

Lemma retirement_visits_each_branch_once_witness :
  Retirement.VALID 2 = true /\ 0 <= 2
  /\ let '(bs, rest) := Retirement.visit 2 (Z.to_nat (2 * 2)) Retirement.new in
     bs = map Branch.from_ordinal (seqZ 0 (2 * 2)) /\ NoDup bs
     /\ (forall l v, 0 <= l < 2 -> Branch.new l v ∈ bs)
     /\ Retirement.next 2 rest = None.
Proof.
  assert (H1 : Retirement.VALID 2 = true) by reflexivity.
  assert (H2 : 0 <= 2) by lia.
  split; [exact H1|]. split; [exact H2|].
  exact (retirement_visits_each_branch_once 2 H1 H2).
Defined.
