(* ===== verification/Config.v ===== *)
(** * Resolver configuration.

    Model of [src/layer2/dns/src/config]: the bounded server list, the
    validation that turns a [Config] into a [Validated] one, the cyclic server
    table requests walk through, and the layout of the query store
    ([storage/queries/index/layout.rs]). *)

From S2P Require Import Prelude Depot Time Index.

(** ** Socket addresses ([std::net::SocketAddr]) *)

Module Net.
Inductive SocketAddr :=
  | V4 (octets : bytes) (port : Z)
  | V6 (octets : bytes) (port flowinfo scope_id : Z).
#[export] Instance socket_addr_eq_dec : EqDecision SocketAddr.
Proof. solve_decision. Defined.

Definition port (a : SocketAddr) : Z :=
  match a with V4 _ port => port | V6 _ port _ _ => port end.
Definition is_ipv4 (a : SocketAddr) : bool :=
  match a with V4 _ _ => true | V6 _ _ _ _ => false end.
End Net.

Module Config.
Import Net.

(** [Error], src/layer2/dns/src/config/mod.rs:12-64. *)
Inductive Error :=
  | OutboundBytes (outbound per_query : Z)
  | NoServers
  | ServerPort (server : SocketAddr)
  | ServerCount (limit : Z) (server : SocketAddr)
  | ServerDuplicate (first duplicate : Z) (server : SocketAddr)
  | QueryAttemptTimeoutZero
  | QueryTotalTimeoutZero
  | QueryTotalTimeoutShort (attempt total : Z)
  | QueryAttemptsZero
  | RefreshMinimumZero
  | RefreshBackoffBaseZero
  | RefreshBackoffOrder (base maximum : Z)
  | RefreshMaximumTtlZero
  | RefreshMinimumExceedsTtl (minimum maximum : Z)
  | RefreshLeadExceedsTtl (before maximum : Z)
  | AddressFamily (bind server : SocketAddr)
  | LaneBound (requested minimum : Z)
  | LaneAddressSpace (requested limit : Z).

(** [IndexError], src/layer2/dns/src/config/mod.rs:73-76. *)
Record IndexError := index_error { ie_index : Z; ie_count : Z }.

(** [Query], src/layer2/dns/src/config/mod.rs:140-147. *)
Record Query := query { attempt_timeout : Z; total_timeout : Z; attempts : Z }.

(** [Backoff], src/layer2/dns/src/config/mod.rs:150-153. *)
Record Backoff := backoff { base : Z; max : Z }.

(** [Refresh], src/layer2/dns/src/config/mod.rs:156-164. *)
Record Refresh := refresh {
  minimum : Z; r_backoff : Backoff; maximum_ttl : Z; before : Z; stale : Z }.

(** [Refresh::validate], src/layer2/dns/src/config/mod.rs:218-247. *)
Definition validate (self : Refresh) : run Error Refresh :=
  if minimum self =? 0 then Err RefreshMinimumZero
  else if base (r_backoff self) =? 0 then Err RefreshBackoffBaseZero
  else if max (r_backoff self) <? base (r_backoff self)
  then Err (RefreshBackoffOrder (base (r_backoff self)) (max (r_backoff self)))
  else if maximum_ttl self =? 0 then Err RefreshMaximumTtlZero
  else if maximum_ttl self <? minimum self
  then Err (RefreshMinimumExceedsTtl (minimum self) (maximum_ttl self))
  else if maximum_ttl self <? before self
  then Err (RefreshLeadExceedsTtl (before self) (maximum_ttl self))
  else Ok self.

Section vec.
Context {V : Type -> Type} `{CopyVec V}.

(** [Servers], src/layer2/dns/src/config/mod.rs:68-70. *)
Definition Servers : Type := V SocketAddr.

(** [Servers::empty], src/layer2/dns/src/config/mod.rs:79-83. *)
Definition empty : Servers := cv_new.
(** [Servers::as_slice], src/layer2/dns/src/config/mod.rs:118-120. *)
Definition as_slice (self : Servers) : list SocketAddr := cv_slice self.
(** [Servers::len], src/layer2/dns/src/config/mod.rs:122-124. *)
Definition servers_len (self : Servers) : Z := Z.of_nat (length (cv_slice self)).
(** [Servers::is_empty], src/layer2/dns/src/config/mod.rs:126-128. *)
Definition is_empty (self : Servers) : bool := bool_decide (cv_slice self = []).

(** [iter().position(|seen| *seen == server)], counting from [i]. *)
Fixpoint position (server : SocketAddr) (i : Z) (seen : list SocketAddr) : option Z :=
  match seen with
  | [] => None
  | s :: seen => if decide (s = server) then Some i else position server (i + 1) seen
  end.

(** [Servers::try_push], src/layer2/dns/src/config/mod.rs:94-114. An error
    leaves the list as it was. *)
Definition try_push (self : Servers) (server : SocketAddr) : run Error Servers :=
  if port server =? 0 then Err (ServerPort server)
  else
    let index := servers_len self in
    match position server 0 (as_slice self) with
    | Some first => Err (ServerDuplicate first index server)
    | None =>
        match cv_insert MAX_SERVERS server self with
        | None => Err (ServerCount (Z.of_nat MAX_SERVERS) server)
        | Some self => Ok self
        end
    end.

(** The loop of [Servers::try_new], src/layer2/dns/src/config/mod.rs:85-91. *)
Fixpoint push_all (self : Servers) (addrs : list SocketAddr) : run Error Servers :=
  match addrs with
  | [] => Ok self
  | server :: addrs => let! self := try_push self server in push_all self addrs
  end.

(** [Servers::try_new], src/layer2/dns/src/config/mod.rs:85-91. *)
Definition try_new (addrs : list SocketAddr) : run Error Servers := push_all empty addrs.

(** [Servers::try_get], src/layer2/dns/src/config/mod.rs:131-136. *)
Definition try_get (self : Servers) (index : Z) : run IndexError SocketAddr :=
  ok_or (as_slice self !! Z.to_nat index) (index_error index (servers_len self)).

(** [Row], src/layer2/dns/src/config/servers.rs:8-13. *)
Record Row := row { address : SocketAddr; r_index : Index.Server; r_next : Z }.

(** [Configured], src/layer2/dns/src/config/servers.rs:17-19. *)
Definition Configured : Type := V Row.

(** [Selected], src/layer2/dns/src/config/servers.rs:24-27. *)
Record Selected := selected { s_row : Row; s_owner : Configured }.

(** [Configured::try_new], src/layer2/dns/src/config/servers.rs:39-52. *)
Definition configure (servers : Servers) : run Error Configured :=
  let count := wrap 8 (servers_len servers) in
  if count =? 0 then Err NoServers
  else
    Ok (cv_map_from (fun slot address =>
          row address (of_slot slot)
            (if Z.of_nat slot + 1 =? count then 0 else wrap 8 (Z.of_nat slot + 1)))
        servers).

(** [Configured::map], src/layer2/dns/src/config/servers.rs:30-37. *)
Definition map_rows {T} (self : Configured) (f : Index.Server -> SocketAddr -> T) : V T :=
  cv_map_from (fun _ r => f (r_index r) (address r)) self.

(** [Proof::<_, Initialized<()>>::new((&rows, i))]: undefined behaviour unless
    row [i] is initialized. *)
Definition proof_at {E} (self : Configured) (i : nat) : run E Selected :=
  match cv_slice self !! i with
  | Some r => Ok (selected r self)
  | None => Stuck Undefined
  end.

(** [Configured::first], src/layer2/dns/src/config/servers.rs:54-58. *)
Definition first {E} (self : Configured) : run E Selected := proof_at self 0.
(** [Selected::index], src/layer2/dns/src/config/servers.rs:67-69. *)
Definition selected_index (self : Selected) : Index.Server := r_index (s_row self).
(** [Selected::address], src/layer2/dns/src/config/servers.rs:71-73. *)
Definition selected_address (self : Selected) : SocketAddr := address (s_row self).
(** [Selected::next], src/layer2/dns/src/config/servers.rs:76-90. *)
Definition next {E} (self : Selected) : run E Selected :=
  proof_at (s_owner self) (Z.to_nat (r_next (s_row self))).

(** [Config], src/layer2/dns/src/config/mod.rs:167-172. *)
Record Config := config {
  bind_ : SocketAddr; servers : Servers; c_query : Query; c_refresh : Refresh }.

(** [Validated], src/layer2/dns/src/config/mod.rs:175-180. *)
Record Validated := validated {
  v_bind : SocketAddr; v_servers : Configured; v_query : Query; v_refresh : Refresh }.

(** The loop over the servers in [Validated::try_new], src/layer2/dns/src/config/mod.rs:183-214. *)
Fixpoint check_families (bind : SocketAddr) (servers : list SocketAddr) : run Error unit :=
  match servers with
  | [] => Ok tt
  | server :: servers =>
      if negb (eqb (is_ipv4 bind) (is_ipv4 server)) then Err (AddressFamily bind server)
      else check_families bind servers
  end.

Context `{Positive}.

(** [Validated::try_new], src/layer2/dns/src/config/mod.rs:183-214. *)
Definition validated_try_new (c : Config) : run Error Validated :=
  let q := c_query c in
  let! servers_ := configure (servers c) in
  let! attempt := ok_or (positive (attempt_timeout q)) QueryAttemptTimeoutZero in
  let! total := ok_or (positive (total_timeout q)) QueryTotalTimeoutZero in
  if total <? attempt then Err (QueryTotalTimeoutShort attempt total)
  else if attempts q =? 0 then Err QueryAttemptsZero
  else
    let! refresh_ := validate (c_refresh c) in
    let! _ := check_families (bind_ c) (as_slice (servers c)) in
    Ok (validated (bind_ c) servers_ (query attempt total (attempts q)) refresh_).
End vec.
Arguments Servers : clear implicits.
Arguments Configured : clear implicits.
Arguments Selected : clear implicits.
Arguments Config V : clear implicits.
Arguments Validated V : clear implicits.
End Config.

(** ** The layout of the query store *)

Module Layout.
Section layout.
Context `{Domain} `{Allocation} `{UnixTime}.

(** [Error], src/layer2/dns/src/storage/error.rs:10-18. *)
Inductive Error :=
  | EConfig (e : Config.Error)
  | Lanes (e : capacity_Error)
  | Branches (e : capacity_Error)
  | Transactions (e : capacity_Error)
  | EAllocation (e : alloc_Error)
  | Entries (e : bitmap_Error)
  | EClock (e : Civil.Error).

(** [Layout], src/layer2/dns/src/storage/queries/index/layout.rs:12-16. The
    capacities of the three index domains. *)
Record Layout := layout { lanes : Z; branches : Z; transactions : Z }.

(** [Layout::LANE_LIMIT], src/layer2/dns/src/storage/queries/index/layout.rs:19-19. *)
Definition LANE_LIMIT : Z := (65535 - 1) / 2.

(** [Layout::new], src/layer2/dns/src/storage/queries/index/layout.rs:21-45. *)
Definition new (requested : Z) : run Error Layout :=
  if requested =? 0 then Err (EConfig (Config.LaneBound requested 1))
  else
    let! lanes := map_err Lanes (domain_try_new requested) in
    let count := lanes * 2 in
    if 65535 <=? count then Err (EConfig (Config.LaneAddressSpace lanes LANE_LIMIT))
    else
      let! branches := map_err Branches (domain_try_new count) in
      let! ids := map_err Transactions (domain_try_new 65536) in
      Ok (layout lanes branches ids).
End layout.
End Layout.

(** ** Server lists *)

Section facts.
Import Net Config.
Context {V : Type -> Type} `{CopyVecLaws V}.

(** What a server list promises: at most four distinct servers with a port. *)
Definition servers_ok (l : list SocketAddr) : Prop :=
  (length l <= MAX_SERVERS)%nat /\ NoDup l /\ Forall (fun s => port s <> 0) l.

(** Why a list of servers was refused after the accepted prefix [pre]. *)
Definition refused (pre : list SocketAddr) (server : SocketAddr) (e : Error) : Prop :=
  (e = ServerPort server /\ port server = 0)
  \/ (port server <> 0 /\ exists first : nat,
        e = ServerDuplicate (Z.of_nat first) (Z.of_nat (length pre)) server
        /\ pre !! first = Some server)
  \/ (e = ServerCount 4 server /\ port server <> 0 /\ (server ∉ pre)
      /\ length pre = MAX_SERVERS).

Lemma position_spec server l : forall i,
  match position server i l with
  | Some first => exists n, first = i + Z.of_nat n /\ l !! n = Some server
  | None => server ∉ l
  end.
Proof.
  induction l as [|s l IH]; intros i; simpl; [set_solver|].
  destruct (decide (s = server)) as [->|].
  { exists 0%nat. split; [lia|done]. }
  specialize (IH (i + 1)). destruct (position server (i + 1) l) as [f|].
  - destruct IH as (k & -> & ?). exists (S k). split; [lia|done].
  - set_solver.
Qed.

Lemma try_push_spec (self : Servers V) server :
  servers_ok (as_slice self) ->
  match try_push self server with
  | Ok self' => as_slice self' = as_slice self ++ [server] /\ servers_ok (as_slice self')
  | Err e => refused (as_slice self) server e
  | Stuck _ => False
  end.
Proof.
  intros (Hlen & Hdup & Hport). unfold try_push.
  destruct (Z.eqb_spec (port server) 0); [by left|].
  pose proof (position_spec server (as_slice self) 0) as Hp.
  destruct (position server 0 (as_slice self)) as [f|].
  { right; left. split; [done|]. destruct Hp as (k & -> & Hk). exists k. split; [|done].
    by rewrite Z.add_0_l. }
  unfold as_slice in *. destruct (decide (length (cv_slice self) < MAX_SERVERS)%nat) as [Hlt|].
  - destruct (cv_insert_vacant _ _ server _ Hlt) as (v & -> & Hv). rewrite Hv.
    split; [done|]. split; [rewrite length_app; simpl; lia|]. split.
    + apply NoDup_app. split; [done|]. split; [set_solver|apply NoDup_singleton].
    + apply Forall_app. split; [done|]. by constructor.
  - rewrite cv_insert_full by lia. right; right. repeat split; [done|done|lia].
Qed.

Lemma push_all_spec addrs : forall self : Servers V,
  servers_ok (as_slice self) ->
  match push_all self addrs with
  | Ok self' => as_slice self' = as_slice self ++ addrs /\ servers_ok (as_slice self')
  | Err e => exists pre server post, addrs = pre ++ server :: post
      /\ servers_ok (as_slice self ++ pre) /\ refused (as_slice self ++ pre) server e
  | Stuck _ => False
  end.
Proof.
  induction addrs as [|a addrs IH]; intros self Hok; simpl; [by rewrite app_nil_r|].
  pose proof (try_push_spec self a Hok) as Hp. destruct (try_push self a) as [self'|e|]; simpl.
  - destruct Hp as [Hs Hok']. specialize (IH self' Hok'). rewrite Hs in IH.
    destruct (push_all self' addrs) as [s|e|]; [by rewrite <- app_assoc in IH| |done].
    destruct IH as (pre & server & post & -> & ?). exists (a :: pre), server, post.
    rewrite <- app_assoc in *. by split.
  - exists [], a, addrs. by rewrite app_nil_r.
  - done.
Qed.

(** Server lists are exact. [Servers::try_new] accepts a list precisely
    when it holds at most four distinct addresses with non-zero ports, and
    keeps them in order; otherwise its error is the one of the first offending
    server: no port, a duplicate of an earlier entry at the reported
    positions, or no room after four. *)
Theorem server_list_exact addrs :
  match try_new (V := V) addrs with
  | Ok s => as_slice s = addrs /\ servers_ok addrs
  | Err e => exists pre server post, addrs = pre ++ server :: post
      /\ servers_ok pre /\ refused pre server e
  | Stuck _ => False
  end.
Proof.
  unfold try_new, empty. pose proof (push_all_spec addrs (cv_new (V := V))) as Hp.
  unfold as_slice in *. rewrite cv_slice_new in Hp. simpl in Hp.
  destruct (push_all cv_new addrs) as [s|e|]; [| |].
  - destruct Hp as [Hs Hok]; [repeat constructor; simpl; lia|]. by rewrite <- Hs.
  - apply Hp. repeat constructor; simpl; lia.
  - apply Hp. repeat constructor; simpl; lia.
Qed.

(** ** The cycle of configured servers *)

(** Row [k] of a table over [l]: its own slot, the next one cyclically. *)
Definition cycle_row (l : list SocketAddr) (k : nat) (a : SocketAddr) : Row :=
  row a (of_slot k) (Z.of_nat (S k mod length l)).

Lemma configure_spec (s : Servers V) :
  servers_ok (as_slice s) ->
  match configure s with
  | Ok cfg => as_slice s <> [] /\ cv_slice cfg = imap (cycle_row (as_slice s)) (as_slice s)
  | Err e => e = NoServers /\ as_slice s = []
  | Stuck _ => False
  end.
Proof.
  intros (Hlen & _ & _). unfold configure, servers_len, as_slice in *. unfold MAX_SERVERS in Hlen.
  rewrite wrap_small by (change (2 ^ 8) with 256; lia).
  destruct (Z.eqb_spec (Z.of_nat (length (cv_slice s))) 0) as [Hz|Hz].
  { split; [done|]. by destruct (cv_slice s). }
  split; [by intros Hn; rewrite Hn in Hz|]. cbn. rewrite cv_slice_map_from. apply imap_ext.
  intros k a Hk%lookup_lt_Some. unfold cycle_row. f_equal.
  destruct (Z.eqb_spec (Z.of_nat k + 1) (Z.of_nat (length (cv_slice s)))) as [He|].
  - replace (S k) with (length (cv_slice s)) by lia. by rewrite Nat.Div0.mod_same.
  - rewrite Nat.mod_small by lia. rewrite wrap_small by (change (2 ^ 8) with 256; lia). lia.
Qed.

(** A selection that names row [k] of the table over [l]. *)
Definition selects (l : list SocketAddr) (sel : Selected V) (k : nat) : Prop :=
  cv_slice (s_owner sel) = imap (cycle_row l) l
  /\ exists a, l !! k = Some a /\ s_row sel = cycle_row l k a.

Lemma selects_at {E} (l : list SocketAddr) (cfg : Configured V) k :
  cv_slice cfg = imap (cycle_row l) l -> (k < length l)%nat ->
  exists sel, proof_at (E := E) cfg k = Ok sel /\ selects l sel k.
Proof.
  intros Hc [a Ha]%lookup_lt_is_Some_2. unfold proof_at. rewrite Hc, list_lookup_imap, Ha. simpl.
  eexists. split; [done|]. split; [done|]. by exists a.
Qed.

Lemma selects_next {E} (l : list SocketAddr) sel k :
  selects l sel k ->
  exists sel', next (E := E) sel = Ok sel' /\ selects l sel' (S k mod length l).
Proof.
  intros (Hc & a & Ha & Hr). unfold next. rewrite Hr. unfold cycle_row; simpl r_next.
  rewrite Nat2Z.id. apply selects_at; [done|]. apply lookup_lt_Some in Ha.
  apply Nat.mod_upper_bound. lia.
Qed.

(** [n] steps along the cycle. *)
Fixpoint walk {E} (n : nat) (sel : Selected V) : run E (Selected V) :=
  match n with
  | O => Ok sel
  | S n => let! sel := walk n sel in next sel
  end.

(** The server cycle visits every server in turn. Walking [n] steps from the
    first row of a configured table never leaves its initialized rows, and
    selects server [n mod count] of the list with the matching slot index. *)
Theorem server_cycle_visits_all (s : Servers V) cfg n :
  servers_ok (as_slice s) -> configure s = Ok cfg ->
  exists sel0 sel, first (E := Empty_set) cfg = Ok sel0 /\ walk (E := Empty_set) n sel0 = Ok sel
  /\ Some (selected_address sel) = as_slice s !! (n mod length (as_slice s))%nat
  /\ slot_of (selected_index sel) = (n mod length (as_slice s))%nat.
Proof.
  intros Hok Hcfg. pose proof (configure_spec s Hok) as Hc. rewrite Hcfg in Hc.
  destruct Hc as [Hne Hc]. set (l := as_slice s) in *.
  assert (Hl : (0 < length l)%nat) by (destruct l; simpl; [done|lia]).
  destruct (selects_at (E := Empty_set) l cfg 0 Hc Hl) as (sel0 & Hf & Hs0).
  assert (Hw : exists sel, walk (E := Empty_set) n sel0 = Ok sel /\ selects l sel (n mod length l)).
  { induction n as [|n (sel & Hw & Hs)]; simpl walk.
    - rewrite Nat.Div0.mod_0_l. eauto.
    - rewrite Hw. simpl. destruct (selects_next (E := Empty_set) l sel _ Hs) as (sel' & -> & Hs').
      eexists; split; [done|]. rewrite <- Nat.add_1_r, <- Nat.Div0.add_mod_idemp_l, Nat.add_1_r. done. }
  destruct Hw as (sel & Hw & Hs). exists sel0, sel. do 2 (split; [done|]).
  destruct Hs as (_ & a & Ha & Hr). unfold selected_address, selected_index. rewrite Hr; simpl.
  split; [done|]. apply slot_of_of_slot. destruct Hok as [Hlen _]. unfold MAX_SERVERS in Hlen.
  fold l in Hlen. pose proof (Nat.mod_upper_bound n (length l)). lia.
Qed.
End facts.

(** ** Validation *)

Section validation.
Import Net Config.
Context {V : Type -> Type} `{CopyVecLaws V} `{PositiveLaws}.

(** What a refresh policy promises. *)
Definition refresh_ok (r : Refresh) : Prop :=
  minimum r <> 0 /\ base (r_backoff r) <> 0 /\ base (r_backoff r) <= Config.max (r_backoff r)
  /\ maximum_ttl r <> 0 /\ minimum r <= maximum_ttl r /\ before r <= maximum_ttl r.

(** What a configuration promises. *)
Definition config_ok (c : Config V) : Prop :=
  let q := c_query c in
  as_slice (servers c) <> [] /\ attempt_timeout q <> 0 /\ total_timeout q <> 0
  /\ attempt_timeout q <= total_timeout q /\ attempts q <> 0 /\ refresh_ok (c_refresh c)
  /\ Forall (fun s => is_ipv4 s = is_ipv4 (bind_ c)) (as_slice (servers c)).

Lemma validate_spec r :
  (validate r = Ok r /\ refresh_ok r) \/ (~ refresh_ok r /\ exists e, validate r = Err e).
Proof.
  unfold validate, refresh_ok.
  repeat match goal with
  | |- context [if ?b then _ else _] => destruct b eqn:?
  end; zbool; try (right; split; [lia|eauto]; fail). left; split; [done|lia].
Qed.

Lemma check_families_spec b l :
  (check_families b l = Ok tt /\ Forall (fun s => is_ipv4 s = is_ipv4 b) l)
  \/ (~ Forall (fun s => is_ipv4 s = is_ipv4 b) l /\ exists e, check_families b l = Err e).
Proof.
  induction l as [|s l IH]; simpl; [left; split; [done|constructor]|].
  destruct (eqb (is_ipv4 b) (is_ipv4 s)) eqn:E; simpl.
  - apply eqb_prop in E. destruct IH as [[? ?]|[Hn ?]]; [left|right].
    + split; [done|]. by constructor.
    + split; [|done]. by intros [? ?]%Forall_cons.
  - right. split; [|eauto]. intros [He ?]%Forall_cons. rewrite He in E. by rewrite eqb_reflx in E.
Qed.

Lemma positive_spec d : 0 <= d -> (positive d = Some d /\ d <> 0) \/ (positive d = None /\ d = 0).
Proof.
  intros Hd. destruct (positive d) as [p|] eqn:E; [left|right].
  - apply positive_exact in E as [? ->]; done.
  - split; [done|]. destruct (decide (d = 0)); [done|].
    assert (positive d = Some d) by (by apply positive_exact). congruence.
Qed.

Lemma validated_spec (c : Config V) :
  servers_ok (as_slice (servers c)) ->
  0 <= attempt_timeout (c_query c) -> 0 <= total_timeout (c_query c) ->
  match validated_try_new c with
  | Ok v => config_ok c /\ v_bind v = bind_ c /\ v_query v = c_query c
      /\ v_refresh v = c_refresh c
      /\ cv_slice (v_servers v)
         = imap (cycle_row (as_slice (servers c))) (as_slice (servers c))
  | Err _ => ~ config_ok c
  | Stuck _ => False
  end.
Proof.
  intros Hs Ha Ht. unfold validated_try_new, config_ok.
  pose proof (configure_spec _ Hs) as Hc.
  destruct (configure (servers c)) as [cfg|e|]; simpl; [|naive_solver|done].
  destruct Hc as [Hne Hc].
  destruct (positive_spec _ Ha) as [[-> ?]|[-> ?]]; simpl; [|naive_solver].
  destruct (positive_spec _ Ht) as [[-> ?]|[-> ?]]; simpl; [|naive_solver].
  destruct (Z.ltb_spec (total_timeout (c_query c)) (attempt_timeout (c_query c))); [lia|].
  destruct (Z.eqb_spec (attempts (c_query c)) 0); [naive_solver|].
  destruct (validate_spec (c_refresh c)) as [[-> ?]|[? [e ->]]]; simpl; [|naive_solver].
  destruct (check_families_spec (bind_ c) (as_slice (servers c))) as [[-> ?]|[? [e ->]]];
    simpl; [|naive_solver].
  split; [done|]. split; [done|]. split; [by destruct (c_query c)|]. done.
Qed.

(** Validation accepts exactly the sound configurations. With a server list
    that came from [Servers::try_new] and unsigned durations, [Validated::try_new]
    returns a value precisely when every documented constraint holds, it then
    keeps the bind address, timings and refresh policy and a cyclic table over
    exactly the listed servers, and in every other case it returns an error. *)
Theorem validation_exact (c : Config V) :
  servers_ok (as_slice (servers c)) ->
  0 <= attempt_timeout (c_query c) -> 0 <= total_timeout (c_query c) ->
  match validated_try_new c with
  | Ok v => config_ok c /\ v_bind v = bind_ c /\ v_query v = c_query c
      /\ v_refresh v = c_refresh c
      /\ cv_slice (v_servers v)
         = imap (cycle_row (as_slice (servers c))) (as_slice (servers c))
  | Err _ => ~ config_ok c
  | Stuck _ => False
  end.
Proof. intros Hs Ha Ht. exact (validated_spec c Hs Ha Ht). Qed.
End validation.

(** ** Layouts *)

(** Layouts are sized exactly. [Layout::new] accepts precisely the lane counts
    from 1 to 32767 and then has that many lanes, two branches per lane and all
    65536 transaction identities; zero lanes and too many lanes are reported
    with the count and the limit. *)
Theorem layout_exact `{DomainLaws} `{Allocation} `{UnixTime} n :
  0 <= n <= 65536 ->
  Layout.new n =
    (if decide (n = 0) then Err (Layout.EConfig (Config.LaneBound 0 1))
     else if decide (n <= MAX_LANES) then Ok (Layout.layout n (2 * n) 65536)
     else Err (Layout.EConfig (Config.LaneAddressSpace n MAX_LANES))).
Proof.
  intros Hn. unfold Layout.new. destruct (Z.eqb_spec n 0) as [->|].
  { by rewrite decide_True. }
  rewrite decide_False by done. rewrite domain_fits by lia. simpl bind.
  unfold MAX_LANES. destruct (Z.leb_spec 65535 (n * 2)).
  - rewrite decide_False by lia. done.
  - rewrite decide_True by lia. rewrite !domain_fits by lia. simpl. do 2 f_equal. lia.
Qed.

Section witnesses.
Import Depot.Concrete Net Config.

Definition example_servers : list SocketAddr := [V4 [10; 0; 0; 1] 53; V4 [10; 0; 0; 2] 53].
Definition example_config : Config list :=
  config (V4 [0; 0; 0; 0] 0) example_servers (query 2 10 3) (refresh 1 (backoff 1 8) 100 5 0).

Lemma example_servers_ok : servers_ok example_servers.
Proof.
  split; [cbv; lia|]. split; [apply (bool_decide_unpack _); vm_compute; exact I|].
  repeat constructor; discriminate.
Qed.

Lemma server_list_exact_witness :
  match try_new (V := list) (example_servers ++ [V4 [10; 0; 0; 1] 53]) with
  | Ok s => as_slice s = example_servers ++ [V4 [10; 0; 0; 1] 53]
      /\ servers_ok (example_servers ++ [V4 [10; 0; 0; 1] 53])
  | Err e => exists pre server post,
      example_servers ++ [V4 [10; 0; 0; 1] 53] = pre ++ server :: post
      /\ servers_ok pre /\ refused pre server e
  | Stuck _ => False
  end
  /\ try_new (V := list) (example_servers ++ [V4 [10; 0; 0; 1] 53])
     = Err (ServerDuplicate 0 2 (V4 [10; 0; 0; 1] 53)).
Proof.
  split; [|reflexivity].
  exact (server_list_exact (V := list) (example_servers ++ [V4 [10; 0; 0; 1] 53])).
Defined.

Lemma server_cycle_visits_all_witness :
  servers_ok example_servers
  /\ exists cfg, configure (V := list) example_servers = Ok cfg
  /\ exists sel0 sel, first (E := Empty_set) cfg = Ok sel0 /\ walk (E := Empty_set) 5 sel0 = Ok sel
     /\ Some (selected_address sel) = as_slice (V := list) example_servers !! (5 mod 2)%nat
     /\ slot_of (selected_index sel) = (5 mod 2)%nat.
Proof.
  pose proof example_servers_ok as Hok. split; [exact Hok|]. eexists; split; [reflexivity|].
  exact (server_cycle_visits_all (V := list) example_servers _ 5 Hok eq_refl).
Defined.

Lemma validation_exact_witness :
  servers_ok example_servers
  /\ match validated_try_new example_config with
     | Ok v => config_ok example_config /\ v_bind v = bind_ example_config
         /\ v_query v = c_query example_config /\ v_refresh v = c_refresh example_config
         /\ cv_slice (v_servers v) = imap (cycle_row example_servers) example_servers
     | Err _ => ~ config_ok example_config
     | Stuck _ => False
     end.
Proof.
  pose proof example_servers_ok as Hok. split; [exact Hok|].
  assert (Ha : 0 <= attempt_timeout (c_query example_config)) by (vm_compute; discriminate).
  assert (Ht : 0 <= total_timeout (c_query example_config)) by (vm_compute; discriminate).
  exact (validation_exact example_config Hok Ha Ht).
Defined.

Lemma layout_exact_witness :
  0 <= 8 <= 65536
  /\ Layout.new 8 = (if decide (8 = 0) then Err (Layout.EConfig (Config.LaneBound 0 1))
     else if decide (8 <= MAX_LANES) then Ok (Layout.layout 8 (2 * 8) 65536)
     else Err (Layout.EConfig (Config.LaneAddressSpace 8 MAX_LANES))).
Proof.
  assert (H8 : 0 <= 8 <= 65536) by lia.
  split; [exact H8|]. exact (layout_exact 8 H8).
Defined.
End witnesses.
