(* ===== verification/Transactions.v ===== *)
(** * Transactions: identities, cookies and stream leases.

    Model of [src/layer2/dns/src/storage/queries/tx] (the table of transaction
    identities, the per-server cookie cache and their leases), of
    [storage/queries/stream] (the counts of requests that wait for a stream)
    and of [net/entropy] (where identities and cookies come from). *)

From stdpp Require Import gmap.
From S2P Require Import Prelude Depot Random Time Errors Host Packet Response Frames Index.

(** ** Entropy *)

Module Entropy.
Import Random.Key.

(** [TRANSACTION_LANE], src/layer2/dns/src/net/entropy/datagram.rs:10-10. The bytes [transact]. *)
Definition TRANSACTION_LANE : Z := of_be [116; 114; 97; 110; 115; 97; 99; 116].
(** [COOKIE_LANE], src/layer2/dns/src/net/entropy/datagram.rs:11-11. The bytes [cookies\0]. *)
Definition COOKIE_LANE : Z := of_be [99; 111; 111; 107; 105; 101; 115; 0].
(** [CONNECTION_LANE], src/layer2/dns/src/net/entropy/stream.rs:9-9. The bytes [conn IDs]. *)
Definition CONNECTION_LANE : Z := of_be [99; 111; 110; 110; 32; 73; 68; 115].

(** [Datagram], src/layer2/dns/src/net/entropy/datagram.rs:20-22. *)
Definition Datagram := Key.
(** [Stream], src/layer2/dns/src/net/entropy/stream.rs:18-20. *)
Definition Stream := Key.

(** [Datagram::start], src/layer2/dns/src/net/entropy/datagram.rs:29-32. *)
Definition start (self : Datagram) (cursor : Z) : Tx.Id :=
  Tx.from_bytes (drop 6 (Word_into_bytes (word self TRANSACTION_LANE cursor))).
(** [Datagram::cookie], src/layer2/dns/src/net/entropy/datagram.rs:34-36. *)
Definition cookie (self : Datagram) (input : Z) : Cookies.Client :=
  Cookies.from_bytes (Word_into_bytes (permute self COOKIE_LANE input)).
(** [Stream::start], src/layer2/dns/src/net/entropy/stream.rs:27-30. [feed] is
    the [hash::Hash] implementation of the connection. *)
Definition stream_start (self : Stream) (feed : Sip.Sip -> Sip.Sip) : Tx.Id :=
  Tx.from_bytes (drop 6 (Word_into_bytes (hash self CONNECTION_LANE feed))).
End Entropy.

(** ** Epochs *)

(** A [u64] result: overflow panics in a debug build, so it must not happen. *)
Definition u64 {E} (z : Z) : run E Z := if z <? 2 ^ 64 then Ok z else Stuck Panic.

Module Epoch.
(** [Epoch], src/layer2/dns/src/storage/queries/tx/table.rs:22-22. *)
Definition Epoch := Z.
(** [Epoch::MAX], src/layer2/dns/src/storage/queries/tx/table.rs:173-173. *)
Definition MAX : Z := (2 ^ 64 - 1) / Z.of_nat MAX_SERVERS.
(** [Epoch::OFFSETS], src/layer2/dns/src/storage/queries/tx/table.rs:174-174. *)
Definition OFFSETS : Array Z :=
  fun s => match s with Slot0 => 0 | Slot1 => 1 | Slot2 => 2 | Slot3 => 3 end.
(** [Epoch::ZERO], src/layer2/dns/src/storage/queries/tx/table.rs:175-175. *)
Definition ZERO : Epoch := 0.

(** [Epoch::cookie], src/layer2/dns/src/storage/queries/tx/table.rs:177-179. *)
Definition cookie {E} (self : Epoch) (server : Server) : run E Z :=
  u64 (self * Z.of_nat MAX_SERVERS + get server OFFSETS).

(** [Epoch::try_next], src/layer2/dns/src/storage/queries/tx/table.rs:181-190. *)
Definition try_next (self : Epoch) : run LookupError.Identity Epoch :=
  let! next := u64 (self + 1) in
  if MAX <? next then Err (LookupError.IdCookie next (Z.of_nat MAX_SERVERS)) else Ok next.
End Epoch.

(** ** The cookie cache *)

Module CookieCache.
(** [Cookie], src/layer2/dns/src/storage/queries/tx/cookies.rs:17-20. *)
Record Cookie := cookie { client : Cookies.Client; c_generation : Epoch.Epoch }.
(** [Pair], src/layer2/dns/src/storage/queries/tx/cookies.rs:29-32. *)
Record Pair := pair_of { p_cookie : Cookie; p_server : Cookies.Server }.
(** [Cookies], src/layer2/dns/src/storage/queries/tx/cookies.rs:9-13. *)
Record Cache := cache_of {
  generation : Epoch.Epoch; retired : Epoch.Epoch; values : Array (option Pair) }.

(** [Cookies::new], src/layer2/dns/src/storage/queries/tx/cookies.rs:35-41. *)
Definition new : Cache := cache_of Epoch.ZERO Epoch.ZERO (repeat_array None).

(** [Cookies::issue], src/layer2/dns/src/storage/queries/tx/cookies.rs:44-59. An
    error leaves the cache as it was. *)
Definition issue (self : Cache) (server : Server) (random : Entropy.Datagram)
    : run LookupError.Identity (Cookie * Cache) :=
  match get server (values self) with
  | Some p => Ok (p_cookie p, self)
  | None =>
      let! next := Epoch.try_next (generation self) in
      let! input := Epoch.cookie next server in
      let client := Entropy.cookie random input in
      Ok (cookie client next, cache_of next (retired self) (values self))
  end.

(** [Cookies::clear], src/layer2/dns/src/storage/queries/tx/cookies.rs:61-64. *)
Definition clear (self : Cache) : Cache :=
  cache_of (generation self) (generation self) (repeat_array None).

(** [Cookies::active], src/layer2/dns/src/storage/queries/tx/cookies.rs:66-71. *)
Definition active (self : Cache) (server : Server) : option Cookies.Server :=
  option_map p_server (get server (values self)).

(** [Cookies::cache], src/layer2/dns/src/storage/queries/tx/cookies.rs:73-87. *)
Definition cache (self : Cache) (c : Cookie) (server : Server) (value : Cookies.Server)
    : bool * Cache :=
  if c_generation c <=? retired self then (false, self)
  else (true, cache_of (generation self) (retired self)
                (put server (values self) (Some (pair_of c value)))).
End CookieCache.

(** ** Leases *)

Module Lease.
Import CookieCache.
(** [Udp], src/layer2/dns/src/storage/queries/tx/lease.rs:28-33. The index of
    the removed entry with the epoch and cookie of the transaction. *)
Record Udp := udp { removed : Z; u_epoch : Epoch.Epoch; u_cookie : Cookie }.
(** [Lease], src/layer2/dns/src/storage/queries/tx/lease.rs:14-25. *)
Inductive Lease := LUdp (u : Udp) | LTcp (id : Tx.Id).
(** [Tcp], src/layer2/dns/src/storage/queries/tx/lease.rs:36-36. *)
Inductive Tcp := tcp.
(** [Commit], src/layer2/dns/src/storage/queries/tx/lease.rs:39-39. *)
Record Commit := commit_of { commit_id : Tx.Id }.
(** [Cancel], src/layer2/dns/src/storage/queries/tx/lease.rs:42-42. *)
Record Cancel := cancel_of { cancel_id : Tx.Id }.

(** [Lease::id], src/layer2/dns/src/storage/queries/tx/lease.rs:45-50. *)
Definition id (self : Lease) : Tx.Id :=
  match self with LUdp u => removed u | LTcp id => id end.
(** [Udp::client], src/layer2/dns/src/storage/queries/tx/lease.rs:54-56. *)
Definition client (self : Udp) : Cookies.Client := CookieCache.client (u_cookie self).
(** [Tcp::commit], src/layer2/dns/src/storage/queries/tx/lease.rs:86-91. *)
Definition commit (self : Tcp) (c : Commit) : Lease := LTcp (commit_id c).
End Lease.

(** ** The table of transactions *)

Module Table.
Import CookieCache Lease.
Section table.
Context {T : Type} `{PlaneSet T}.

(** [Table], src/layer2/dns/src/storage/queries/tx/table.rs:24-32. The pool is
    the borrowed set of free identities; the boxed array of owners holds the
    UDP owners at [id] and the TCP owners at [Id::CAPACITY + id]. *)
Record Table := table {
  pool : T; epochs : nat * nat; owners : gmap Z Branch;
  streams : Z; cursor : Z; epoch : Epoch.Epoch; cookies : Cache }.

Definition with_pool (self : Table) (p : T) : Table :=
  table p (epochs self) (owners self) (streams self) (cursor self) (epoch self) (cookies self).
Definition with_cookies (self : Table) (c : Cache) : Table :=
  table (pool self) (epochs self) (owners self) (streams self) (cursor self) (epoch self) c.
Definition with_owners (self : Table) (o : gmap Z Branch) (n : Z) : Table :=
  table (pool self) (epochs self) o n (cursor self) (epoch self) (cookies self).

(** [Table::try_new], src/layer2/dns/src/storage/queries/tx/table.rs:36-51. *)
Definition try_new (pool : T) : Table :=
  table pool (0%nat, 1%nat) ∅ 0 0 Epoch.ZERO CookieCache.new.

(** [Table::bind_udp], src/layer2/dns/src/storage/queries/tx/table.rs:53-55. *)
Definition bind_udp (self : Table) : Table := with_cookies self (clear (cookies self)).

(** [Table::try_rotate], src/layer2/dns/src/storage/queries/tx/table.rs:163-169. *)
Definition try_rotate (self : Table) : run LookupError.Identity Table :=
  let! next := Epoch.try_next (epoch self) in
  let '(a, b) := epochs self in
  Ok (table (pool self) (b, a) (owners self) (streams self) (cursor self) next
        (clear (cookies self))).

(** The end of [Table::try_udp], src/layer2/dns/src/storage/queries/tx/table.rs:58-91,
    once identity [i] left plane [plane]. *)
Definition admit_udp (self : Table) (owner : Branch) (server : Server)
    (random : Entropy.Datagram) (plane : nat) (i : Z)
    : run Empty_set ((Udp + LookupError.Identity) * Table) :=
  cases (issue (cookies self) server random)
    (fun '(ck, c) =>
      Ok (inl (udp i (epoch self) ck),
          table (pool self) (epochs self) (<[i := owner]> (owners self)) (streams self)
            (wrap64 (cursor self + 1)) (epoch self) c))
    (fun error => Ok (inr error, with_pool self (ps_set (pool self) plane i))).

(** [Table::try_udp], src/layer2/dns/src/storage/queries/tx/table.rs:58-91. *)
Definition try_udp (self : Table) (owner : Branch) (server : Server)
    (random : Entropy.Datagram) : run Empty_set ((Udp + LookupError.Identity) * Table) :=
  let start := Entropy.start random (cursor self) in
  let '(current, previous) := epochs self in
  match ps_take_from (pool self) current start with
  | Some (i, pool) => admit_udp (with_pool self pool) owner server random current i
  | None =>
      match ps_take_from (pool self) previous start with
      | None => Ok (inr (LookupError.IdDatagram Tx.CAPACITY), self)
      | Some (i, pool) =>
          let self := with_pool self pool in
          cases (try_rotate self)
            (fun self => admit_udp self owner server random previous i)
            (fun error => Ok (inr error, with_pool self (ps_set pool previous i)))
      end
  end.

(** [Table::cookies], src/layer2/dns/src/storage/queries/tx/table.rs:93-95. *)
Definition active_cookie (self : Table) (server : Server) : option Cookies.Server :=
  active (cookies self) server.

(** [Table::try_tcp], src/layer2/dns/src/storage/queries/tx/table.rs:97-109. *)
Definition try_tcp (self : Table) (owner : Branch) (id : Tx.Id)
    : run LookupError.Identity (Tcp * Table) :=
  let slot := Tx.CAPACITY + Tx.wire id in
  match owners self !! slot with
  | Some _ => Err (LookupError.IdStream (Tx.wire id))
  | None =>
      if streams self + 1 <? 2 ^ 32
      then Ok (tcp, with_owners self (<[slot := owner]> (owners self)) (streams self + 1))
      else Stuck Panic
  end.

(** [Table::clear_tcp], src/layer2/dns/src/storage/queries/tx/table.rs:154-161. *)
Definition clear_tcp {E} (self : Table) (id : Tx.Id) : run E Table :=
  let slot := Tx.CAPACITY + Tx.wire id in
  match owners self !! slot with
  | Some _ =>
      if streams self =? 0 then Stuck Panic
      else Ok (with_owners self (delete slot (owners self)) (streams self - 1))
  | None => Ok self
  end.

(** [Table::release], src/layer2/dns/src/storage/queries/tx/table.rs:111-127. *)
Definition release {E} (self : Table) (lease : Lease) : run E Table :=
  match lease with
  | LTcp id => clear_tcp self id
  | LUdp u =>
      let owners := delete (removed u) (owners self) in
      let free := if u_epoch u =? epoch self then (epochs self).2 else (epochs self).1 in
      Ok (table (ps_set (pool self) free (removed u)) (epochs self) owners (streams self)
            (cursor self) (epoch self) (cookies self))
  end.

(** [Table::cancel], src/layer2/dns/src/storage/queries/tx/table.rs:129-131. *)
Definition cancel {E} (self : Table) (c : Cancel) : run E Table := clear_tcp self (cancel_id c).

(** [Table::udp_owner], src/layer2/dns/src/storage/queries/tx/table.rs:133-135. *)
Definition udp_owner (self : Table) (id : Tx.Id) : option Branch := owners self !! Tx.wire id.
(** [Table::stream_owner], src/layer2/dns/src/storage/queries/tx/table.rs:137-139. *)
Definition stream_owner (self : Table) (id : Tx.Id) : option Branch :=
  owners self !! (Tx.CAPACITY + Tx.wire id).
(** [Table::has_stream], src/layer2/dns/src/storage/queries/tx/table.rs:141-143. *)
Definition has_stream (self : Table) : bool := negb (streams self =? 0).
(** [Table::cache], src/layer2/dns/src/storage/queries/tx/table.rs:145-152. *)
Definition cache (self : Table) (c : Cookie) (server : Server) (value : Cookies.Server)
    : bool * Table :=
  let '(kept, c) := CookieCache.cache (cookies self) c server value in
  (kept, with_cookies self c).
End table.
Arguments Table T : clear implicits.
End Table.

(** ** Requests that wait for a stream *)

Module Live.
(** [Lease], src/layer2/dns/src/storage/queries/stream/lease.rs:7-7. *)
Definition Lease := Server.
(** [Live], src/layer2/dns/src/storage/queries/stream/live.rs:8-10. Counts are [u16]. *)
Definition Live := Array Z.
(** [Live::new], src/layer2/dns/src/storage/queries/stream/live.rs:13-17. *)
Definition new : Live := repeat_array 0.

(** [*counts += 1] and [*counts -= 1], trapping outside [u16]. *)
Definition up {E} (self : Live) (server : Server) : run E Live :=
  if self server + 1 <? 2 ^ 16 then Ok (put server self (self server + 1)) else Stuck Panic.
Definition down {E} (self : Live) (server : Server) : run E Live :=
  if self server =? 0 then Stuck Panic else Ok (put server self (self server - 1)).

(** [Live::acquire], src/layer2/dns/src/storage/queries/stream/live.rs:19-22. *)
Definition acquire {E} (self : Live) (server : Server) : run E (Lease * Live) :=
  let! self := up self server in Ok (server, self).
(** [Live::transfer], src/layer2/dns/src/storage/queries/stream/live.rs:24-36. *)
Definition transfer {E} (self : Live) (lease : Lease) (to : Server) : run E (Lease * Live) :=
  let from := lease in
  if decide (from = to) then Ok (lease, self)
  else
    let! self := down self from in
    let! self := up self to in
    Ok (to, self).
(** [Live::release], src/layer2/dns/src/storage/queries/stream/live.rs:38-41. *)
Definition release {E} (self : Live) (lease : Lease) : run E Live := down self lease.
(** [Live::any], src/layer2/dns/src/storage/queries/stream/live.rs:43-45. *)
Definition any (self : Live) : bool := existsb (fun s => negb (self s =? 0)) all_servers.
(** [Live::contains], src/layer2/dns/src/storage/queries/stream/live.rs:47-49. *)
Definition contains (self : Live) (server : Server) : bool := negb (get server self =? 0).
End Live.

(** ** Client cookies *)

Lemma entropy_cookie_eq k a : 0 <= a < 2 ^ 64 ->
  Entropy.cookie k a = Random.Key.permute k Entropy.COOKIE_LANE a.
Proof.
  intros Ha. unfold Entropy.cookie, Cookies.from_bytes, Random.Key.Word_into_bytes.
  apply of_be_to_be. change (256 ^ Z.of_nat 8) with (2 ^ 64). by apply permute_range.
Qed.

Lemma entropy_cookie_inj k a b :
  0 <= a < 2 ^ 64 -> 0 <= b < 2 ^ 64 -> Entropy.cookie k a = Entropy.cookie k b -> a = b.
Proof.
  intros Ha Hb. rewrite !entropy_cookie_eq by done. intros He.
  rewrite <- (unpermute_permute k Entropy.COOKIE_LANE a), He by done.
  by rewrite unpermute_permute.
Qed.

(** The permutation input of a server and generation. *)
Definition cookie_input (s : Server) (g : Z) : Z := g * 4 + Z.of_nat (slot_of s).

Lemma epoch_max : Epoch.MAX = 2 ^ 62 - 1.
Proof. reflexivity. Qed.

Lemma epoch_cookie_ok {E} g s : 0 <= g <= Epoch.MAX ->
  Epoch.cookie (E := E) g s = Ok (cookie_input s g) /\ 0 <= cookie_input s g < 2 ^ 64.
Proof.
  rewrite epoch_max. intros Hg. unfold Epoch.cookie, cookie_input, u64, get.
  assert (Epoch.OFFSETS s = Z.of_nat (slot_of s)) as -> by (by destruct s).
  assert (0 <= Z.of_nat (slot_of s) < 4) by (destruct s; simpl; lia).
  change (Z.of_nat MAX_SERVERS) with 4.
  destruct (Z.ltb_spec (g * 4 + Z.of_nat (slot_of s)) (2 ^ 64)); [|lia]. split; [done|lia].
Qed.

Lemma cookie_input_inj s g s' g' :
  cookie_input s g = cookie_input s' g' -> s = s' /\ g = g'.
Proof.
  unfold cookie_input. intros He.
  assert (0 <= Z.of_nat (slot_of s) < 4) by (destruct s; simpl; lia).
  assert (0 <= Z.of_nat (slot_of s') < 4) by (destruct s'; simpl; lia).
  assert (g = g') by lia. assert (slot_of s = slot_of s') as Hs by lia.
  split; [|done]. by rewrite <- (of_slot_slot_of s), Hs, of_slot_slot_of.
Qed.

Lemma try_next_spec g : 0 <= g <= Epoch.MAX ->
  Epoch.try_next g = (if decide (g = Epoch.MAX) then Err (LookupError.IdCookie (2 ^ 62) 4)
                      else Ok (g + 1)).
Proof.
  intros Hg. unfold Epoch.try_next, u64. rewrite epoch_max in *.
  destruct (Z.ltb_spec (g + 1) (2 ^ 64)); [|lia]. simpl bind.
  destruct (Z.ltb_spec (2 ^ 62 - 1) (g + 1)).
  - rewrite decide_True by lia. replace (g + 1) with (2 ^ 62) by lia. done.
  - by rewrite decide_False by lia.
Qed.

Section cookie_facts.
Import CookieCache.
Context (k : Entropy.Datagram).

(** A cookie of server [s]: the permuted input of its generation. *)
Definition genuine (s : Server) (c : Cookie) : Prop :=
  0 < c_generation c <= Epoch.MAX
  /\ client c = Entropy.cookie k (cookie_input s (c_generation c)).

Lemma genuine_inj s c s' c' :
  genuine s c -> genuine s' c' -> client c = client c' -> s = s' /\ c_generation c = c_generation c'.
Proof.
  intros [Hg Hc] [Hg' Hc'] He. rewrite Hc, Hc' in He. apply cookie_input_inj.
  eapply entropy_cookie_inj; [| |exact He]; eapply (epoch_cookie_ok (E := Empty_set)); lia.
Qed.

Definition cache_ok (c : Cache) : Prop :=
  0 <= retired c <= generation c /\ generation c <= Epoch.MAX
  /\ forall s p, values c s = Some p ->
       genuine s (p_cookie p) /\ retired c < c_generation (p_cookie p) <= generation c.

Lemma cache_ok_new : cache_ok new.
Proof. repeat split; simpl; rewrite ?epoch_max; try lia; done. Qed.

Lemma cache_ok_clear c : cache_ok c -> cache_ok (clear c).
Proof. intros (Hr & Hg & _). repeat split; simpl; try lia; done. Qed.

(** What [issue] gives: an associated cookie, a fresh one of the next
    generation, or exhaustion of all generations. *)
Lemma cookie_issue_spec c s : cache_ok c ->
  match issue c s k with
  | Ok (ck, c') => cache_ok c' /\ retired c' = retired c /\ genuine s ck
      /\ generation c <= generation c'
      /\ retired c < c_generation ck <= generation c'
      /\ values c' = values c
  | Err e => e = LookupError.IdCookie (2 ^ 62) 4 /\ generation c = Epoch.MAX /\ values c s = None
  | Stuck _ => False
  end.
Proof.
  intros Hok. pose proof Hok as (Hr & Hg & Hv). unfold issue, get.
  destruct (values c s) as [p|] eqn:Hs.
  { destruct (Hv _ _ Hs). split; [done|]. split; [done|]. split; [done|]. split; [lia|]. done. }
  rewrite try_next_spec by lia. case_decide; simpl; [done|].
  assert (Hn : 0 <= generation c + 1 <= Epoch.MAX) by lia.
  destruct (epoch_cookie_ok (E := LookupError.Identity) _ s Hn) as [-> _]. simpl.
  split.
  { split; [simpl; lia|]. split; [simpl; lia|]. simpl. intros s' p Hp.
    destruct (Hv _ _ Hp). split; [done|lia]. }
  split; [done|]. split; [split; [simpl; lia|done]|]. repeat split; simpl; lia.
Qed.

Lemma cache_ok_cache c ck s v : cache_ok c -> genuine s ck -> c_generation ck <= generation c ->
  let '(kept, c') := cache c ck s v in
  cache_ok c' /\ generation c' = generation c /\ retired c' = retired c
  /\ (kept = true <-> retired c < c_generation ck)
  /\ (kept = true -> active c' s = Some v) /\ (kept = false -> c' = c).
Proof.
  intros (Hr & Hg & Hv) Hck Hle. unfold cache.
  destruct (Z.leb_spec (c_generation ck) (retired c)).
  { repeat split; try done; try lia; intros; eapply Hv; done. }
  split; [|repeat split; try done; unfold active, get; simpl; by rewrite put_same].
  split; [done|]. split; [done|]. simpl. intros s' p. unfold put.
  destruct (decide (s' = s)) as [->|]; [|apply Hv].
  intros [= <-]. simpl. split; [done|lia].
Qed.

(** A history of the cache. [Adopt i v] caches the server cookie [v] a reply
    carried for the request that was issued the [i]-th cookie. *)
Inductive cookie_op := Issue (s : Server) | Clear | Adopt (i : nat) (v : Cookies.Server).

Definition history : Type := list (Server * Cookie) * Cache.

Definition cookie_step (h : history) (o : cookie_op) : run LookupError.Identity history :=
  let '(log, c) := h in
  match o with
  | Issue s => let! (ck, c) := issue c s k in Ok (log ++ [(s, ck)], c)
  | Clear => Ok (log, clear c)
  | Adopt i v =>
      match log !! i with
      | Some (s, ck) => Ok (log, (cache c ck s v).2)
      | None => Ok h
      end
  end.

Fixpoint cookie_run (h : history) (os : list cookie_op) : run LookupError.Identity history :=
  match os with
  | [] => Ok h
  | o :: os => let! h := cookie_step h o in cookie_run h os
  end.

Definition logged (c : Cache) (x : Server * Cookie) : Prop :=
  genuine x.1 x.2 /\ c_generation x.2 <= generation c.

Lemma cookie_step_spec log c o :
  cache_ok c -> Forall (logged c) log ->
  match cookie_step (log, c) o with
  | Ok (log', c') => cache_ok c' /\ Forall (logged c') log' /\ retired c <= retired c'
      /\ exists new, log' = log ++ new /\ Forall (fun x => retired c < c_generation x.2) new
  | Err e => e = LookupError.IdCookie (2 ^ 62) 4
  | Stuck _ => False
  end.
Proof.
  intros Hok Hlog. unfold cookie_step. destruct o as [s| |i v].
  - pose proof (cookie_issue_spec c s Hok) as Hi. destruct (issue c s k) as [[ck c']|e|]; simpl; [|naive_solver|done].
    destruct Hi as (? & Hr & ? & ? & ? & ?). split; [done|]. split; [|split; [lia|]].
    + apply Forall_app. split; [|apply Forall_singleton; split; [done|simpl; lia]].
      eapply Forall_impl; [exact Hlog|]. intros x [? ?]. split; [done|lia].
    + exists [(s, ck)]. split; [done|]. repeat constructor; simpl; lia.
  - split; [by apply cache_ok_clear|]. split; [done|]. split; [destruct Hok; simpl; lia|].
    exists []. by rewrite app_nil_r.
  - destruct (log !! i) as [[s ck]|] eqn:Hi.
    + pose proof (Forall_lookup_1 _ _ _ _ Hlog Hi) as [Hg Hle]. simpl in *.
      pose proof (cache_ok_cache c ck s v Hok Hg Hle) as Hc.
      destruct (cache c ck s v) as [kept c']. simpl. destruct Hc as (? & He & Hr & _).
      split; [done|]. split; [|split; [lia|exists []; by rewrite app_nil_r]].
      eapply Forall_impl; [exact Hlog|]. intros x [? ?]. split; [done|lia].
    + split; [done|]. split; [done|]. split; [lia|]. exists []. by rewrite app_nil_r.
Qed.

Lemma cookie_run_spec os : forall log c,
  cache_ok c -> Forall (logged c) log ->
  match cookie_run (log, c) os with
  | Ok (log', c') => cache_ok c' /\ Forall (logged c') log' /\ retired c <= retired c'
      /\ exists new, log' = log ++ new /\ Forall (fun x => retired c < c_generation x.2) new
  | Err e => e = LookupError.IdCookie (2 ^ 62) 4
  | Stuck _ => False
  end.
Proof.
  induction os as [|o os IH]; intros log c Hok Hlog; cbn [cookie_run].
  { do 2 (split; [done|]). split; [lia|]. exists []. by rewrite app_nil_r. }
  pose proof (cookie_step_spec log c o Hok Hlog) as Hs.
  destruct (cookie_step (log, c) o) as [[log1 c1]|e|]; cbn [bind]; [|exact Hs|done].
  destruct Hs as (Hok1 & Hlog1 & Hr1 & new1 & -> & Hn1).
  specialize (IH _ _ Hok1 Hlog1). destruct (cookie_run _ os) as [[log2 c2]|e|]; [|done|done].
  destruct IH as (? & ? & ? & new2 & -> & Hn2). do 2 (split; [done|]). split; [lia|].
  exists (new1 ++ new2). rewrite app_assoc. split; [done|]. apply Forall_app. split; [done|].
  eapply Forall_impl; [exact Hn2|]. simpl. intros. lia.
Qed.
End cookie_facts.

(** C33. Client cookies never repeat. Over any history of issuing, adopting server
    cookies and clearing the cache, no arithmetic overflows and the only
    failure is the exhaustion of all 2^62 generations; two requests are given
    the same client cookie only for the same server and generation, and a
    cookie issued before the cache was cleared is never issued again. *)
Theorem client_cookies_never_repeat k ops1 ops2 :
  match cookie_run k ([], CookieCache.new) ops1 with
  | Ok (log1, c1) =>
      match cookie_run k (log1, CookieCache.clear c1) ops2 with
      | Ok (log2, _) =>
          (forall i j s ck s' ck', log2 !! i = Some (s, ck) -> log2 !! j = Some (s', ck') ->
             CookieCache.client ck = CookieCache.client ck' ->
             s = s' /\ CookieCache.c_generation ck = CookieCache.c_generation ck')
          /\ exists later, log2 = log1 ++ later
             /\ forall x y, x ∈ log1 -> y ∈ later ->
                  CookieCache.client x.2 <> CookieCache.client y.2
      | Err e => e = LookupError.IdCookie (2 ^ 62) 4
      | Stuck _ => False
      end
  | Err e => e = LookupError.IdCookie (2 ^ 62) 4
  | Stuck _ => False
  end.
Proof.
  pose proof (cookie_run_spec k ops1 [] CookieCache.new (cache_ok_new k) (Forall_nil_2 _)) as H1.
  destruct (cookie_run k ([], CookieCache.new) ops1) as [[log1 c1]|e|]; [|done|done].
  destruct H1 as (Hok1 & Hlog1 & _).
  pose proof (cookie_run_spec k ops2 log1 (CookieCache.clear c1) (cache_ok_clear k _ Hok1) Hlog1) as H2.
  destruct (cookie_run k (log1, CookieCache.clear c1) ops2) as [[log2 c2]|e|]; [|done|done].
  destruct H2 as (_ & Hlog2 & _ & later & -> & Hnew). split.
  - intros i j s ck s' ck' Hi Hj He.
    pose proof (Forall_lookup_1 _ _ _ _ Hlog2 Hi) as [? _].
    pose proof (Forall_lookup_1 _ _ _ _ Hlog2 Hj) as [? _]. by eapply genuine_inj.
  - exists later. split; [done|]. intros x y Hx Hy He.
    assert (Hy2 : y ∈ log1 ++ later) by set_solver.
    rewrite Forall_forall in Hlog1, Hlog2, Hnew.
    destruct (Hlog1 _ Hx) as [Hgx Hlx]. destruct (Hlog2 _ Hy2) as [Hgy _].
    specialize (Hnew _ Hy). simpl in Hnew.
    destruct (genuine_inj k _ _ _ _ Hgx Hgy He). lia.
Qed.

(** ** The table refines two maps of owners

    Abstractly the table is a pair of maps: which branch owns each identity
    over UDP, and which over TCP. The free pool is the complement of the
    first, the stream count the size of the second. *)

Definition is_id (id : Z) : Prop := 0 <= id < 65536.

Definition in_range (c : CookieCache.Cache) : Prop :=
  0 <= CookieCache.generation c <= Epoch.MAX.

Lemma issue_range c s k : in_range c ->
  match CookieCache.issue c s k with
  | Ok (_, c') => in_range c'
  | Err e => exists n, e = LookupError.IdCookie n 4
  | Stuck _ => False
  end.
Proof.
  unfold in_range, CookieCache.issue, get. intros Hc.
  destruct (CookieCache.values c s) as [p|]; [done|].
  rewrite try_next_spec by done. case_decide; simpl; [eauto|].
  destruct (epoch_cookie_ok (E := LookupError.Identity) (CookieCache.generation c + 1) s)
    as [-> _]; [lia|]. simpl. lia.
Qed.

Section table_facts.
Import Lease Table.
Context {T : Type} `{PlaneSetLaws T}.

(** The free identities: every identity without an owner, in one of two planes. *)
Definition pool_ok (pool : T) (U : gmap Z Branch) : Prop :=
  (forall p i, ps_mem pool p i = true -> (p = 0 \/ p = 1)%nat /\ is_id i /\ U !! i = None)
  /\ forall i, is_id i -> U !! i = None -> ps_mem pool 0 i = negb (ps_mem pool 1 i).

Record Table_ok (t : Table T) (U S : gmap Z Branch) : Prop := {
  t_pool : pool_ok (pool t) U;
  t_udp : forall i, U !! i = if decide (is_id i) then owners t !! i else None;
  t_tcp : forall i, S !! i = if decide (is_id i) then owners t !! (65536 + i) else None;
  t_streams : streams t = Z.of_nat (size S);
  t_epochs : epochs t = (0%nat, 1%nat) \/ epochs t = (1%nat, 0%nat);
  t_epoch : 0 <= epoch t <= Epoch.MAX;
  t_cache : in_range (cookies t);
}.

Lemma pool_take pool U p o (own : Branch) :
  pool_ok pool U -> takes pool p o ->
  match o with
  | Some (i, pool') => is_id i /\ U !! i = None /\ (p = 0 \/ p = 1)%nat
      /\ pool_ok pool' (<[i := own]> U)
  | None => forall i, ps_mem pool p i = false
  end.
Proof.
  intros [Hin Hfree] Ht. destruct o as [[j pool']|]; [|done]. destruct Ht as [Hj Hmem].
  destruct (Hin _ _ Hj) as (Hp & Hid & Hu). do 3 (split; [done|]). split.
  - intros q x Hq. rewrite Hmem in Hq. apply andb_true_iff in Hq as [Hq Hne].
    destruct (Hin _ _ Hq) as (? & Hx & Hux). do 2 (split; [done|]).
    assert (x <> j) as Hxj.
    { intros ->. apply negb_true_iff, bool_decide_eq_false in Hne.
      assert (p <> q) by naive_solver. specialize (Hfree j Hx Hux).
      destruct Hp as [->| ->], H1 as [->| ->]; try done; rewrite Hj, Hq in Hfree; done. }
    by rewrite lookup_insert_ne.
  - intros x Hx Hux. assert (j <> x) by (intros ->; by rewrite lookup_insert_eq in Hux).
    rewrite lookup_insert_ne in Hux by done. rewrite !Hmem, !bool_decide_eq_false_2 by naive_solver.
    rewrite !andb_true_r. by apply Hfree.
Qed.

Lemma pool_put pool U p i :
  pool_ok pool U -> is_Some (U !! i) -> is_id i -> (p = 0 \/ p = 1)%nat ->
  pool_ok (ps_set pool p i) (delete i U).
Proof.
  intros [Hin Hfree] [b Hb] Hi Hp.
  assert (Hout : forall q, ps_mem pool q i = false).
  { intros q. destruct (ps_mem pool q i) eqn:E; [|done]. destruct (Hin _ _ E) as (_ & _ & ?). congruence. }
  split.
  - intros q x. rewrite ps_mem_set. intros [Hq%bool_decide_eq_true|Hq]%orb_true_iff.
    + destruct Hq as [<- <-]. by rewrite lookup_delete_eq.
    + destruct (Hin _ _ Hq) as (? & ? & ?). by rewrite lookup_delete_None; auto.
  - intros x Hx Hux. rewrite !ps_mem_set. destruct (decide (x = i)) as [->|Hne].
    + rewrite !Hout, !orb_false_r. symmetry. destruct Hp as [->| ->].
      * by rewrite (bool_decide_eq_true_2 (0%nat = 0%nat /\ i = i)), bool_decide_eq_false_2 by naive_solver.
      * by rewrite (bool_decide_eq_true_2 (1%nat = 1%nat /\ i = i)), bool_decide_eq_false_2 by naive_solver.
    + rewrite lookup_delete_ne in Hux by done.
      rewrite !(bool_decide_eq_false_2 (_ /\ i = x)) by naive_solver. by apply Hfree.
Qed.

Lemma size_ids (U : gmap Z Branch) :
  (forall i, is_Some (U !! i) -> is_id i) -> (size U <= Z.to_nat 65536)%nat.
Proof.
  intros Hi. rewrite <- size_dom. transitivity (size (list_to_set (seqZ 0 65536) : gset Z)).
  - apply subseteq_size. intros i Hd. apply elem_of_dom in Hd. apply Hi in Hd.
    apply elem_of_list_to_set, elem_of_seqZ. unfold is_id in Hd. lia.
  - rewrite size_list_to_set by apply NoDup_seqZ. by rewrite length_seqZ.
Qed.

Lemma lookup_is_id (f : Z -> option Branch) (U : gmap Z Branch) :
  (forall i, U !! i = if decide (is_id i) then f i else None) ->
  forall i, is_Some (U !! i) -> is_id i.
Proof. intros HU i. rewrite HU. case_decide; [done|]. by intros [? ?]. Qed.

Lemma table_ok_new pool : pool_ok pool ∅ -> Table_ok (try_new pool) ∅ ∅.
Proof.
  intros Hp. assert (Hz : 0 <= Epoch.ZERO <= Epoch.MAX) by (rewrite epoch_max; unfold Epoch.ZERO; lia).
  split; simpl; [done|intros i; by case_decide|intros i; by case_decide|done|by left|done|done].
Qed.

Lemma bind_udp_spec t U S : Table_ok t U S -> Table_ok (bind_udp t) U S.
Proof. intros []; by split. Qed.

Lemma cache_spec t U S c s v : Table_ok t U S -> Table_ok (cache t c s v).2 U S.
Proof.
  intros []. unfold cache, CookieCache.cache. destruct (_ <=? _); by split.
Qed.

(** Inserting an owner of a free identity, on either side. *)
Lemma udp_insert (t : Table T) (U : gmap Z Branch) i b (o : gmap Z Branch) :
  o = <[i := b]> (owners t) -> is_id i ->
  (forall j, U !! j = if decide (is_id j) then owners t !! j else None) ->
  forall j, <[i := b]> U !! j = if decide (is_id j) then o !! j else None.
Proof.
  intros -> Hi HU j. destruct (decide (i = j)) as [<-|Hne].
  - by rewrite !lookup_insert_eq, decide_True.
  - by rewrite !lookup_insert_ne.
Qed.

Lemma tcp_untouched (t : Table T) (S : gmap Z Branch) i b :
  is_id i ->
  (forall j, S !! j = if decide (is_id j) then owners t !! (65536 + j) else None) ->
  forall j, S !! j = if decide (is_id j) then <[i := b]> (owners t) !! (65536 + j) else None.
Proof.
  unfold is_id. intros Hi HS j. rewrite HS. case_decide; [|done].
  by rewrite lookup_insert_ne by lia.
Qed.

(** The outcome of taking a UDP identity for [owner]. *)
Definition udp_outcome (U S : gmap Z Branch) (owner : Branch)
    (r : (Udp + LookupError.Identity) * Table T) : Prop :=
  match r.1 with
  | inl l => is_id (removed l) /\ U !! removed l = None
      /\ Table_ok r.2 (<[removed l := owner]> U) S
  | inr (LookupError.IdDatagram n) =>
      n = 65536 /\ Table_ok r.2 U S /\ forall i, is_id i -> is_Some (U !! i)
  | inr e => (exists n, e = LookupError.IdCookie n 4) /\ Table_ok r.2 U S
  end.

Lemma admit_udp_spec t U S owner server k plane i :
  Table_ok (with_pool t (ps_set (pool t) plane i)) U S ->
  pool_ok (pool t) (<[i := owner]> U) -> is_id i -> U !! i = None ->
  exists r, admit_udp t owner server k plane i = Ok r /\ udp_outcome U S owner r.
Proof.
  intros Hok Hp Hi Hu. unfold admit_udp.
  pose proof (issue_range (cookies t) server k) as Hr.
  destruct (CookieCache.issue _ _ _) as [[ck c']|e|]; simpl.
  - eexists. split; [done|]. unfold udp_outcome; simpl. do 2 (split; [done|]).
    destruct Hok. split; simpl in *; try done; [by eapply udp_insert|by apply tcp_untouched|].
    by apply Hr.
  - destruct Hr as [n ->]; [by destruct Hok|]. eexists. split; [done|].
    unfold udp_outcome; simpl. split; [by eexists|]. done.
  - exfalso. apply Hr. by destruct Hok.
Qed.

Lemma pool_restore pool' U plane i b :
  pool_ok pool' (<[i := b]> U) -> is_id i -> U !! i = None -> (plane = 0 \/ plane = 1)%nat ->
  pool_ok (ps_set pool' plane i) U.
Proof.
  intros Hp Hi Hu Hpl. rewrite <- (delete_insert_id U i b Hu).
  apply pool_put; [done|by rewrite lookup_insert_eq|done|done].
Qed.

Lemma try_udp_spec t U S owner server k :
  Table_ok t U S ->
  exists r, try_udp t owner server k = Ok r /\ udp_outcome U S owner r.
Proof.
  intros Hok. pose proof Hok as [Hpool Hudp Htcp Hstr Hep Hepoch Hcache]. unfold try_udp.
  destruct (epochs t) as [cur prev] eqn:Hepq.
  set (start := Entropy.start k (cursor t)).
  pose proof (pool_take (pool t) U cur _ owner Hpool (ps_takes_from _ _ start)) as Hc.
  destruct (ps_take_from (pool t) cur start) as [[i p']|].
  { destruct Hc as (Hi & Hu & Hpl & Hp'). apply admit_udp_spec; simpl; try done.
    destruct Hok. split; simpl in *; try done. by eapply pool_restore. }
  pose proof (pool_take (pool t) U prev _ owner Hpool (ps_takes_from _ _ start)) as Hq.
  destruct (ps_take_from (pool t) prev start) as [[i p']|].
  - destruct Hq as (Hi & Hu & Hpl & Hp'). unfold try_rotate; simpl.
    rewrite try_next_spec by done. rewrite Hepq. case_decide; simpl.
    + eexists. split; [done|]. unfold udp_outcome; simpl. split; [by eexists|].
      destruct Hok. split; simpl in *; try done. by eapply pool_restore.
    + apply admit_udp_spec; simpl; try done. split; simpl; try done.
      * by eapply pool_restore.
      * naive_solver.
      * lia.
  - eexists. split; [done|]. unfold udp_outcome; simpl. split; [done|]. split; [done|].
    intros i Hi. destruct (U !! i) eqn:Hu; [done|]. exfalso.
    destruct Hpool as [_ Hfree]. specialize (Hfree i Hi Hu).
    destruct Hep as [[= -> ->]|[= -> ->]]; rewrite Hc, Hq in Hfree; done.
Qed.

Lemma delete_untouched (t : Table T) (S : gmap Z Branch) i :
  is_id i ->
  (forall j, S !! j = if decide (is_id j) then owners t !! (65536 + j) else None) ->
  forall j, S !! j = if decide (is_id j) then delete i (owners t) !! (65536 + j) else None.
Proof.
  unfold is_id. intros Hi HS j. rewrite HS. case_decide; [|done].
  by rewrite lookup_delete_ne by lia.
Qed.

Lemma release_udp_spec {E} t U S u :
  Table_ok t U S -> is_Some (U !! removed u) ->
  exists t', release (E := E) t (LUdp u) = Ok t' /\ Table_ok t' (delete (removed u) U) S.
Proof.
  intros Hok Hu. pose proof Hok as [Hpool Hudp Htcp Hstr Hep Hepoch Hcache].
  assert (Hi : is_id (removed u)) by exact (lookup_is_id _ _ Hudp _ Hu).
  eexists. split; [done|]. split; simpl; try done.
  - apply pool_put; try done. destruct Hep as [-> | ->], (_ =? _); auto.
  - intros j. destruct (decide (removed u = j)) as [<-|].
    + rewrite !lookup_delete_eq. by case_decide.
    + rewrite !lookup_delete_ne by done. done.
  - by apply delete_untouched.
Qed.

Lemma try_tcp_spec t U S owner i :
  Table_ok t U S -> is_id i ->
  match S !! i with
  | Some _ => try_tcp t owner i = Err (LookupError.IdStream i)
  | None => exists t', try_tcp t owner i = Ok (tcp, t') /\ Table_ok t' U (<[i := owner]> S)
  end.
Proof.
  intros Hok Hi. pose proof Hok as [Hpool Hudp Htcp Hstr Hep Hepoch Hcache].
  rewrite Htcp, decide_True by done. unfold try_tcp, Tx.wire, Tx.CAPACITY.
  change (65535 + 1) with 65536.
  destruct (owners t !! (65536 + i)) eqn:Ho; [done|].
  assert (Hnone : S !! i = None) by (by rewrite Htcp, decide_True).
  pose proof (size_ids S (lookup_is_id _ _ Htcp)) as Hsz.
  destruct (Z.ltb_spec (streams t + 1) (2 ^ 32)); [|lia].
  eexists. split; [done|]. split; simpl; try done.
  - intros j. rewrite Hudp. case_decide; [|done]. unfold is_id in *. by rewrite lookup_insert_ne by lia.
  - intros j. destruct (decide (i = j)) as [<-|Hne].
    + by rewrite !lookup_insert_eq, decide_True.
    + rewrite lookup_insert_ne, Htcp by done. case_decide; [|done].
      by rewrite lookup_insert_ne by lia.
  - rewrite map_size_insert_None by done. lia.
Qed.

Lemma clear_tcp_spec {E} t U S i :
  Table_ok t U S -> is_id i ->
  exists t', clear_tcp (E := E) t i = Ok t' /\ Table_ok t' U (delete i S).
Proof.
  intros Hok Hi. pose proof Hok as [Hpool Hudp Htcp Hstr Hep Hepoch Hcache].
  unfold clear_tcp, Tx.wire, Tx.CAPACITY. change (65535 + 1) with 65536.
  assert (Hs : S !! i = owners t !! (65536 + i)) by (by rewrite Htcp, decide_True).
  destruct (owners t !! (65536 + i)) as [b|] eqn:Ho.
  - assert (Hsz : size S = Datatypes.S (size (delete i S))).
    { rewrite <- (insert_delete_id S i b Hs) at 1.
      by rewrite map_size_insert_None by apply lookup_delete_eq. }
    destruct (Z.eqb_spec (streams t) 0); [lia|].
    eexists. split; [done|]. split; simpl; try done.
    + intros j. rewrite Hudp. case_decide; [|done]. unfold is_id in *. by rewrite lookup_delete_ne by lia.
    + intros j. destruct (decide (i = j)) as [<-|Hne].
      * rewrite !lookup_delete_eq. by case_decide.
      * rewrite lookup_delete_ne, Htcp by done. case_decide; [|done].
        by rewrite lookup_delete_ne by lia.
    + lia.
  - eexists. split; [done|]. by rewrite delete_id.
Qed.
End table_facts.

Section refinement.
Import Lease Table.
Context {T : Type} `{PlaneSetLaws T}.

(** The operations of the table, as its callers use them. *)
Inductive table_op :=
  | TakeUdp (owner : Branch) (server : Server)
  | TakeTcp (owner : Branch) (id : Tx.Id)
  | Release (l : Lease)
  | CancelTcp (id : Tx.Id)
  | BindUdp
  | CacheCookie (c : CookieCache.Cookie) (s : Server) (v : Cookies.Server).

Inductive table_answer := Granted (l : Lease) | Refused (e : LookupError.Identity) | Done.

Definition table_exec (k : Entropy.Datagram) (t : Table T) (o : table_op)
    : run Empty_set (table_answer * Table T) :=
  match o with
  | TakeUdp owner server =>
      let! (r, t) := try_udp t owner server k in
      Ok (match r with inl l => Granted (LUdp l) | inr e => Refused e end, t)
  | TakeTcp owner id =>
      cases (try_tcp t owner id)
        (fun '(cap, t) => Ok (Granted (commit cap (commit_of id)), t))
        (fun e => Ok (Refused e, t))
  | Release l => let! t := release t l in Ok (Done, t)
  | CancelTcp id => let! t := cancel t (cancel_of id) in Ok (Done, t)
  | BindUdp => Ok (Done, bind_udp t)
  | CacheCookie c s v => Ok (Done, (cache t c s v).2)
  end.

(** What the table promises, over the two maps of owners. *)
Abbreviation owners_map := (gmap Z Branch).
Inductive table_spec (U S : owners_map) : table_op -> table_answer -> owners_map -> owners_map -> Prop :=
  | udp_granted owner server l : is_id (removed l) -> U !! removed l = None ->
      table_spec U S (TakeUdp owner server) (Granted (LUdp l)) (<[removed l := owner]> U) S
  | udp_exhausted owner server : (forall i, is_id i -> is_Some (U !! i)) ->
      table_spec U S (TakeUdp owner server) (Refused (LookupError.IdDatagram 65536)) U S
  | udp_cookies owner server n :
      table_spec U S (TakeUdp owner server) (Refused (LookupError.IdCookie n 4)) U S
  | tcp_granted owner id : S !! id = None ->
      table_spec U S (TakeTcp owner id) (Granted (LTcp id)) U (<[id := owner]> S)
  | tcp_taken owner id : is_Some (S !! id) ->
      table_spec U S (TakeTcp owner id) (Refused (LookupError.IdStream id)) U S
  | released_udp u :
      table_spec U S (Release (LUdp u)) Done (delete (removed u) U) S
  | released_tcp id : table_spec U S (Release (LTcp id)) Done U (delete id S)
  | cancelled_tcp id : table_spec U S (CancelTcp id) Done U (delete id S)
  | bound : table_spec U S BindUdp Done U S
  | cached c s v : table_spec U S (CacheCookie c s v) Done U S.

(** Calls the types and the single ownership of leases allow. *)
Definition allowed (U : owners_map) (o : table_op) : Prop :=
  match o with
  | TakeTcp _ id | CancelTcp id | Release (LTcp id) => is_id id
  | Release (LUdp u) => is_Some (U !! removed u)
  | _ => True
  end.

Lemma streams_empty t U S : Table_ok (T := T) t U S -> has_stream t = bool_decide (S <> ∅).
Proof.
  intros [_ _ _ Hs _ _ _]. unfold has_stream. rewrite Hs.
  destruct (decide (S = ∅)) as [->|Hne]; [done|]. rewrite bool_decide_eq_true_2 by done.
  assert (size S <> 0%nat) by (by rewrite map_size_ne_0_lookup; apply map_choose in Hne as (i & x & ?); exists i; eauto).
  destruct (Z.eqb_spec (Z.of_nat (size S)) 0); [lia|done].
Qed.

(** The transaction table refines two maps of owners. Starting from empty
    maps, every call returns without panicking and does what the maps allow:
    a UDP identity is granted only while nobody owns it and refused only when
    all 65536 are owned or cookie generations ran out; a stream identity is
    granted exactly when it is free; releasing or cancelling frees it again.
    The owner lookups and the stream test read the maps. *)
Theorem transaction_table_refines k :
  Table_ok (try_new (ps_full (T := T) 65536 0)) ∅ ∅
  /\ forall t U S o, Table_ok (T := T) t U S -> allowed U o ->
     exists a t' U' S', table_exec k t o = Ok (a, t') /\ table_spec U S o a U' S'
     /\ Table_ok t' U' S'
     /\ (forall id, is_id id -> udp_owner t' id = U' !! id /\ stream_owner t' id = S' !! id)
     /\ has_stream t' = bool_decide (S' <> ∅).
Proof.
  split.
  { apply table_ok_new. split.
    - intros p i. rewrite ps_mem_full. intros [<- ?]%bool_decide_eq_true. auto.
    - intros i Hi _. rewrite !ps_mem_full, bool_decide_eq_true_2 by done.
      by rewrite bool_decide_eq_false_2 by naive_solver. }
  intros t U S o Hok Hal.
  enough (exists a t' U' S', table_exec k t o = Ok (a, t') /\ table_spec U S o a U' S'
            /\ Table_ok t' U' S') as (a & t' & U' & S' & He & Hs & Hok').
  { exists a, t', U', S'. do 3 (split; [done|]). split; [|by eapply streams_empty].
    intros id Hid. destruct Hok' as [_ -> -> _ _ _ _]. rewrite !decide_True by done. done. }
  destruct o as [owner s|owner id|[u|id]|id| |c s v]; simpl in Hal |- *.
  - destruct (try_udp_spec t U S owner s k Hok) as ([[l|e] t'] & -> & Ho); unfold udp_outcome in Ho; simpl in *.
    + destruct Ho as (Hi & Hu & Hok'). do 4 eexists. split; [done|].
      split; [exact (udp_granted U S owner s l Hi Hu)|done].
    + destruct e as [n m|n|n].
      * destruct Ho as [[? [= -> ->]] Hok']. do 4 eexists. split; [done|].
        split; [apply udp_cookies|done].
      * destruct Ho as (-> & Hok' & Hall). do 4 eexists. split; [done|].
        split; [exact (udp_exhausted U S owner s Hall)|done].
      * by destruct Ho as [[? [=]] ?].
  - pose proof (try_tcp_spec t U S owner id Hok Hal) as Ht.
    case_match eqn:Hs.
    + rewrite Ht. simpl. do 4 eexists. split; [done|]. split; [by apply tcp_taken|done].
    + destruct Ht as (t' & -> & ?). simpl. do 4 eexists. split; [done|].
      split; [exact (tcp_granted U S owner id Hs)|done].
  - destruct (release_udp_spec (E := Empty_set) t U S u Hok Hal) as (t' & He & ?).
    simpl in He. injection He as <-. do 4 eexists. split; [done|].
    split; [apply released_udp|done].
  - destruct (clear_tcp_spec (E := Empty_set) t U S id Hok Hal) as (t' & -> & ?). simpl.
    do 4 eexists. split; [done|]. split; [apply released_tcp|done].
  - destruct (clear_tcp_spec (E := Empty_set) t U S id Hok Hal) as (t' & Hc & ?).
    unfold cancel. simpl. rewrite Hc. simpl. do 4 eexists. split; [done|].
    split; [apply cancelled_tcp|done].
  - do 4 eexists. split; [done|]. split; [apply bound|by apply bind_udp_spec].
  - do 4 eexists. split; [done|]. split; [apply cached|by apply cache_spec].
Qed.
End refinement.

Section witnesses.
Import Depot.Concrete.

Lemma client_cookies_never_repeat_witness :
  let k := Random.Key.key 1 2 in
  match cookie_run k ([], CookieCache.new) [Issue Slot0; Adopt 0 [7]; Issue Slot0] with
  | Ok (log1, c1) =>
      match cookie_run k (log1, CookieCache.clear c1) [Issue Slot0] with
      | Ok (log2, _) =>
          length log2 = 3%nat
          /\ ((forall i j s ck s' ck', log2 !! i = Some (s, ck) -> log2 !! j = Some (s', ck') ->
                 CookieCache.client ck = CookieCache.client ck' ->
                 s = s' /\ CookieCache.c_generation ck = CookieCache.c_generation ck')
              /\ exists later, log2 = log1 ++ later
                 /\ forall x y, x ∈ log1 -> y ∈ later ->
                      CookieCache.client x.2 <> CookieCache.client y.2)
      | _ => False
      end
  | _ => False
  end.
Proof.
  split; [vm_compute; reflexivity|].
  exact (client_cookies_never_repeat (Random.Key.key 1 2)
           [Issue Slot0; Adopt 0 [7]; Issue Slot0] [Issue Slot0]).
Defined.

Lemma transaction_table_refines_witness :
  let t := Table.try_new (ps_full (T := list (nat * Z)) 65536 0) in
  let k := Random.Key.key 1 2 in
  Table_ok t ∅ ∅ /\ allowed ∅ (TakeTcp 1 7)
  /\ exists a t' U' S', table_exec k t (TakeTcp 1 7) = Ok (a, t')
     /\ table_spec ∅ ∅ (TakeTcp 1 7) a U' S' /\ Table_ok t' U' S'
     /\ (forall id, is_id id -> Table.udp_owner t' id = U' !! id /\ Table.stream_owner t' id = S' !! id)
     /\ Table.has_stream t' = bool_decide (S' <> ∅).
Proof.
  intros t k.
  assert (Hok : Table_ok t ∅ ∅) by exact (proj1 (transaction_table_refines k)).
  assert (Ha : allowed ∅ (TakeTcp 1 7)) by (simpl; unfold is_id; lia).
  split; [exact Hok|]. split; [exact Ha|].
  exact (proj2 (transaction_table_refines k) t ∅ ∅ (TakeTcp 1 7) Hok Ha).
Defined.
End witnesses.
