(* ===== verification/Query.v ===== *)
(** * The state of one lookup.

    Model of [src/layer2/dns/src/storage/queries/state]: requests and their
    attempts, the rows of a query (one per address family) and how replies,
    failures and retries move them, and the completion of a lookup. A row
    changes the registry it is filed in (the pending set and the stream
    counts of [storage/queries/ledger/registry.rs]), which is passed
    explicitly. *)

From stdpp Require Import gmap.
From S2P Require Import Prelude Depot Random Time Errors Host Packet Response Frames Index Config Transactions.

(** ** Lookup reasons *)

Module Reason.
Section payloads.
Context `{Payloads}.
(** [Reason], src/layer2/dns/src/lookup/reason.rs:5-12. *)
Inductive Reason :=
  | Startup | Scheduled | ConnectFailure (e : Transport.ConnectError)
  | ConnectTimeout | TransportFailure | IdleFailure.
End payloads.
End Reason.

(** ** The registry *)

Module Registry.
Section registry.
Context `{InlineBytes} `{Payloads} {T : Type} `{PlaneSet T}.

(** [Registry], src/layer2/dns/src/storage/queries/ledger/registry.rs:8-13. The
    pending set holds branch ordinals: plane 0 for UDP, one plane per server
    for streams. *)
Record Registry := registry {
  pending : T; live : Live.Live; ids : Table.Table T;
  stream_failure : option LookupError.Kind }.

Definition with_pending (self : Registry) (p : T) : Registry :=
  registry p (live self) (ids self) (stream_failure self).
Definition with_live (self : Registry) (l : Live.Live) : Registry :=
  registry (pending self) l (ids self) (stream_failure self).
Definition with_ids (self : Registry) (t : Table.Table T) : Registry :=
  registry (pending self) (live self) t (stream_failure self).
Definition with_failure (self : Registry) (k : option LookupError.Kind) : Registry :=
  registry (pending self) (live self) (ids self) k.

(** [Pending::SERVERS], src/layer2/dns/src/storage/queries/ledger/mod.rs:245-250. *)
Definition SERVERS : Array nat :=
  fun s => match s with Slot0 => 1%nat | Slot1 => 2%nat | Slot2 => 3%nat | Slot3 => 4%nat end.
(** [Pending::id], src/layer2/dns/src/storage/queries/ledger/mod.rs:283-290. *)
Definition plane_id (server : option Server) : nat :=
  match server with Some server => get server SERVERS | None => 0%nat end.
(** [Pending::has_udp], src/layer2/dns/src/storage/queries/ledger/mod.rs:275-277. *)
Definition has_udp (self : Registry) : bool := negb (ps_empty (pending self) 0).
(** [Pending::has_server], src/layer2/dns/src/storage/queries/ledger/mod.rs:279-281. *)
Definition has_server (self : Registry) (server : Server) : bool :=
  negb (ps_empty (pending self) (plane_id (Some server))).
End registry.
Arguments Registry {_ _} T.
End Registry.

(** ** Requests *)

Module Request.
Section request.
Context `{InlineBytes} {V : Type -> Type} `{CopyVec V}.

(** [Probe], src/layer2/dns/src/storage/queries/state/request.rs:22-22. *)
Definition Probe := Z.
(** [Probe::ZERO], src/layer2/dns/src/storage/queries/state/request.rs:25-25. *)
Definition ZERO : Probe := 0.
(** [Probe::next], src/layer2/dns/src/storage/queries/state/request.rs:27-34. *)
Definition probe_next (self : Probe) (attempts : Z) : option Probe :=
  let last := attempts - 1 in
  if last <=? self then None else Some (self + 1).

(** [Request], src/layer2/dns/src/storage/queries/state/request.rs:10-18. *)
Record Request := request {
  name : Host.Name; valid_until : option Z; r_hops : Answer.Hops; attempt : Probe;
  r_server : Config.Selected V; r_stream : option Live.Lease; cookie_retry : bool }.

(** [Request::new], src/layer2/dns/src/storage/queries/state/request.rs:38-51. *)
Definition new (name : Host.Name) (server : Config.Selected V) : Request :=
  request name None Answer.ZERO ZERO server None false.
(** [Request::server], src/layer2/dns/src/storage/queries/state/request.rs:57-59. *)
Definition server (self : Request) : Server := Config.selected_index (r_server self).
(** [Request::address], src/layer2/dns/src/storage/queries/state/request.rs:61-63. *)
Definition address (self : Request) : Net.SocketAddr := Config.selected_address (r_server self).
(** [Request::stream], src/layer2/dns/src/storage/queries/state/request.rs:65-70. *)
Definition stream (self : Request) : option Server := r_stream self.

Definition with_stream (self : Request) (s : option Live.Lease) : Request :=
  request (name self) (valid_until self) (r_hops self) (attempt self) (r_server self) s
    (cookie_retry self).

(** [Request::retry_cookie], src/layer2/dns/src/storage/queries/state/request.rs:76-82.
    The boolean is [ControlFlow::Continue]. *)
Definition retry_cookie (self : Request) : bool * Request :=
  (negb (cookie_retry self),
   request (name self) (valid_until self) (r_hops self) (attempt self) (r_server self)
     (r_stream self) true).

(** [Request::try_expiry], src/layer2/dns/src/storage/queries/state/request.rs:84-97. *)
Definition try_expiry {E} (wrap_error : LookupError.Timing -> E) (self : Request) (received ttl : Z)
    : run E Z :=
  let ttl := from_secs ttl in
  let! until := ok_or (checked_add received ttl) (wrap_error (LookupError.Expiry received ttl)) in
  Ok (match valid_until self with Some prior => Z.min until prior | None => until end).

(** [Request::hops], src/layer2/dns/src/storage/queries/state/request.rs:99-109. *)
Definition hops (self : Request) (h : Answer.Hops) : run LookupError.Malformed Answer.Hops :=
  map_err (fun actual => LookupError.AliasHops actual Answer.MAX_ALIAS_HOPS)
    (Answer.add (r_hops self) h).

(** [Request::retry], src/layer2/dns/src/storage/queries/state/request.rs:111-124. *)
Definition retry {E} (self : Request) (attempt : Probe) (live : Live.Live)
    : run E (Request * Live.Live) :=
  let! server := Config.next (r_server self) in
  match r_stream self with
  | None =>
      Ok (request (name self) (valid_until self) (r_hops self) attempt server None false, live)
  | Some lease =>
      let! (lease, live) := Live.transfer live lease (Config.selected_index server) in
      Ok (request (name self) (valid_until self) (r_hops self) attempt server (Some lease) false,
          live)
  end.

(** [Request::try_alias], src/layer2/dns/src/storage/queries/state/request.rs:126-139. *)
Definition try_alias (self : Request) (name : Host.Name) (until : Z) (h : Answer.Hops)
    : run LookupError.Malformed Request :=
  let! total := hops self h in
  Ok (request name (Some until) total ZERO (r_server self) (r_stream self) false).

(** [Request::start_stream], src/layer2/dns/src/storage/queries/state/request.rs:141-150.
    [None] is [ControlFlow::Break]. *)
Definition start_stream {E} (self : Request) (live : Live.Live)
    : run E (option (Request * Live.Live)) :=
  if bool_decide (is_Some (r_stream self)) then Ok None
  else
    let! (lease, live) := Live.acquire live (server self) in
    Ok (Some (with_stream self (Some lease), live)).

(** [Request::release], src/layer2/dns/src/storage/queries/state/request.rs:152-156. *)
Definition release {E} (self : Request) (live : Live.Live) : run E Live.Live :=
  match r_stream self with Some lease => Live.release live lease | None => Ok live end.
End request.
Arguments Request V : clear implicits.
End Request.

(** ** Retry policy *)

Module Retry.
(** [Retry], src/layer2/dns/src/storage/queries/state/retry.rs:9-12. *)
Record Retry := retry_of { attempts : Z; timeout : Z }.
(** [Retry::from_config], src/layer2/dns/src/storage/queries/state/retry.rs:15-20. *)
Definition from_config {V} (config : Config.Validated V) : Retry :=
  retry_of (Config.attempts (Config.v_query config))
           (Config.attempt_timeout (Config.v_query config)).
(** [Retry::deadline], src/layer2/dns/src/storage/queries/state/retry.rs:22-29. *)
Definition deadline (self : Retry) (now hard : Z) : Z :=
  match checked_add now (timeout self) with Some end_ => Z.min end_ hard | None => hard end.
End Retry.

(** ** Attempts, rows and queries *)

Module Query.
Import Registry LookupError.
Section query.
Context `{InlineBytes} `{Payloads} {V : Type -> Type} `{CopyVec V} (N : nat)
  {T : Type} `{PlaneSet T}.

Abbreviation Registry := (Registry T).
Abbreviation Kind := LookupError.Kind.

(** [Attempt], src/layer2/dns/src/storage/queries/state/attempt.rs:11-14. *)
Record Attempt := attempt { request : Request.Request V; deadline : Z }.

(** [Branch], src/layer2/dns/src/storage/queries/state/branch.rs:9-21. *)
Inductive Branch :=
  | Pending (a : Attempt)
  | Waiting (a : Attempt) (transaction : Lease.Lease)
  | Done (addresses : Answer.Addresses V) (valid_until : Z)
  | Empty
  | Failed (error : Kind).

(** [Outcome], src/layer2/dns/src/storage/queries/state/branch.rs:23-30. *)
Inductive Outcome :=
  | ODone (addresses : Answer.Addresses V) (valid_until : Z)
  | OEmpty
  | OFailed (error : Kind).

(** [Row], src/layer2/dns/src/storage/queries/state/row.rs:3-6. The entry is the
    branch's index in the pending set. *)
Record Row := row { value : Branch; entry : Z }.
Definition with_value (self : Row) (v : Branch) : Row := row v (entry self).

(** [Branch::is_stream], src/layer2/dns/src/storage/queries/state/branch.rs:33-40. *)
Definition is_stream (self : Branch) : bool :=
  match self with
  | Pending probe | Waiting probe _ => bool_decide (is_Some (Request.stream (request probe)))
  | _ => false
  end.
(** [Branch::deadline], src/layer2/dns/src/storage/queries/state/branch.rs:42-47. *)
Definition branch_deadline (self : Branch) : option Z :=
  match self with
  | Pending probe | Waiting probe _ => Some (deadline probe)
  | _ => None
  end.

(** [Row::register], src/layer2/dns/src/storage/queries/state/row.rs:24-26. *)
Definition register (self : Row) (r : Request.Request V) (reg : Registry) : Registry :=
  with_pending reg (ps_set (pending reg) (plane_id (Request.stream r)) (entry self)).
(** [Row::unregister], src/layer2/dns/src/storage/queries/state/row.rs:28-30. *)
Definition unregister (self : Row) (r : Request.Request V) (reg : Registry) : Registry :=
  with_pending reg (ps_clear (pending reg) (plane_id (Request.stream r)) (entry self)).
(** [Row::pending], src/layer2/dns/src/storage/queries/state/row.rs:32-35. *)
Definition row_pending (self : Row) (probe : Attempt) (reg : Registry) : Row * Registry :=
  (with_value self (Pending probe), register self (request probe) reg).
(** [Row::finish], src/layer2/dns/src/storage/queries/state/row.rs:37-49. *)
Definition row_finish (self : Row) (outcome : Outcome) : Row :=
  with_value self
    match outcome with
    | ODone addrs until => Done addrs until
    | OEmpty => Empty
    | OFailed error => Failed error
    end.
(** [Row::new], src/layer2/dns/src/storage/queries/state/row.rs:13-22. *)
Definition row_new (e : Z) (probe : Attempt) (reg : Registry) : Row * Registry :=
  let self := row (Pending probe) e in (self, register self (request probe) reg).

(** [Attempt::initial], src/layer2/dns/src/storage/queries/state/attempt.rs:17-26. *)
Definition initial (name : Host.Name) (end_ : Z) (server : Config.Selected V) : Attempt :=
  attempt (Request.new name server) end_.

(** A transition of one row: the row, and the registry it is filed in. *)
Abbreviation step := (run Empty_set (Row * Registry)).

(** [Attempt::release], src/layer2/dns/src/storage/queries/state/attempt.rs:36-38. *)
Definition attempt_release (self : Attempt) (reg : Registry) : run Empty_set Registry :=
  let! live := Request.release (request self) (live reg) in Ok (with_live reg live).

(** [Attempt::finish], src/layer2/dns/src/storage/queries/state/attempt.rs:179-187. *)
Definition attempt_finish (self : Attempt) (reg : Registry) (next : Outcome) (slot : Row) : step :=
  let! reg := attempt_release self reg in Ok (row_finish slot next, reg).

(** [Attempt::stream], src/layer2/dns/src/storage/queries/state/attempt.rs:143-154. *)
Definition attempt_stream (self : Attempt) (reg : Registry) (slot : Row) : step :=
  let! started := Request.start_stream (request self) (live reg) in
  match started with
  | Some (req, live) => Ok (row_pending slot (attempt req (deadline self)) (with_live reg live))
  | None => attempt_finish self reg (OFailed KTruncated) slot
  end.

(** [Attempt::cookie], src/layer2/dns/src/storage/queries/state/attempt.rs:132-141. *)
Definition attempt_cookie (self : Attempt) (reg : Registry) (slot : Row) : step :=
  let '(go, req) := Request.retry_cookie (request self) in
  let self := attempt req (deadline self) in
  if go then Ok (row_pending slot self reg) else attempt_stream self reg slot.

(** [Attempt::retry], src/layer2/dns/src/storage/queries/state/attempt.rs:156-177. *)
Definition attempt_retry (self : Attempt) (retry : Retry.Retry) (hard now : Z) (reg : Registry)
    (error : Kind) (slot : Row) : step :=
  if is_terminal error then attempt_finish self reg (OFailed error) slot
  else if hard <=? now then attempt_finish self reg (OFailed KTimeout) slot
  else
    match Request.probe_next (Request.attempt (request self)) (Retry.attempts retry) with
    | Some next =>
        let! (req, live) := Request.retry (request self) next (live reg) in
        let self := attempt req (Retry.deadline retry now hard) in
        Ok (row_pending slot self (with_live reg live))
    | None => attempt_finish self reg (OFailed error) slot
    end.

(** The host name of an alias: [Name::try_decode(name)]. *)
Definition decode_alias (name : Packet.Expanded) : run HostError.Error Host.Name :=
  match Packet.into_parts name with
  | Ok parts => Host.try_decode parts
  | Err e => match e with end
  | Stuck w => Stuck w
  end.

(** [Attempt::apply], src/layer2/dns/src/storage/queries/state/attempt.rs:40-128. *)
Definition attempt_apply (self : Attempt) (reply : Answer.Reply V) (retry : Retry.Retry)
    (hard now : Z) (reg : Registry) (slot : Row) : step :=
  match reply with
  | Answer.RAddresses values ttl hops =>
      cases (Request.hops (request self) hops)
        (fun _ =>
          cases (Request.try_expiry id (request self) now ttl)
            (fun until => attempt_finish self reg (ODone values until) slot)
            (fun cause => attempt_finish self reg (OFailed (KTiming cause)) slot))
        (fun cause => attempt_finish self reg (OFailed (KMalformed cause)) slot)
  | Answer.RAlias name ttl hops =>
      cases (decode_alias name)
        (fun name =>
          cases (Request.try_expiry id (request self) now ttl)
            (fun until =>
              cases (Request.try_alias (request self) name until hops)
                (fun req =>
                  let self := attempt req (Retry.deadline retry now hard) in
                  Ok (row_pending slot self reg))
                (fun cause =>
                  let! reg := attempt_release self reg in
                  Ok (row_finish slot (OFailed (KMalformed cause)), reg)))
            (fun cause => attempt_finish self reg (OFailed (KTiming cause)) slot))
        (fun cause => attempt_finish self reg (OFailed (KMalformed (Name cause))) slot)
  | Answer.RNoData => attempt_finish self reg OEmpty slot
  | Answer.RTruncated => attempt_stream self reg slot
  | Answer.RNameError => attempt_finish self reg (OFailed KName) slot
  | Answer.RRefused => attempt_retry self retry hard now reg KRefused slot
  | Answer.RServer code => attempt_retry self retry hard now reg (KServer code) slot
  | Answer.RCapacity actual =>
      attempt_finish self reg (OFailed (KCapacity (Z.of_nat N) actual)) slot
  | Answer.RMalformed cause => attempt_finish self reg (OFailed (KMalformed cause)) slot
  end.

(** [Answer], src/layer2/dns/src/storage/queries/state/answer.rs:6-11. *)
Record Answered := answered {
  addresses : Answer.Addresses V; a_started_at : Z; completed_at : Z; a_valid_until : Z }.

(** [Ready], src/layer2/dns/src/storage/queries/state/poll/ready.rs:10-15. *)
Record Ready := ready {
  reason : Reason.Reason; started_unix : Z; ready_at : Z; result : Answered + Kind }.

(** [State], src/layer2/dns/src/storage/queries/state/poll/state.rs:5-9. *)
Inductive Poll := PollIdle | PollPending (at_ : option Z) | PollComplete (r : Ready).

(** [Query], src/layer2/dns/src/storage/queries/state/query.rs:13-19. The
    branches are indexed by [Version::index]. *)
Record Query := query {
  q_reason : Reason.Reason; started_unix_ns : Z; started_at : Z; hard_deadline : Z;
  four : Row; six : Row }.

(** [Query::branch_mut], src/layer2/dns/src/storage/queries/state/query.rs:84-89:
    reading the row, and writing it back. *)
Definition branch (self : Query) (family : Family.Version) : Row :=
  match family with Family.Four => four self | Family.Six => six self end.
Definition with_branch (self : Query) (family : Family.Version) (r : Row) : Query :=
  let '(a, b) := match family with
                 | Family.Four => (r, six self) | Family.Six => (four self, r) end in
  query (q_reason self) (started_unix_ns self) (started_at self) (hard_deadline self) a b.

(** [Query::entries], src/layer2/dns/src/storage/queries/state/query.rs:80-82. *)
Definition query_entries (self : Query) : Z * Z := (entry (four self), entry (six self)).

(** [Seed], src/layer2/dns/src/storage/queries/state/query.rs:21-29. *)
Record Seed := seed {
  s_reason : Reason.Reason; s_unix : Z; s_started_at : Z; s_hard : Z; s_end : Z;
  s_name : Host.Name; s_server : Config.Selected V }.

(** [Seed::new], src/layer2/dns/src/storage/queries/state/query.rs:33-53. *)
Definition seed_new (reason : Reason.Reason) (unix start hard : Z) (name : Host.Name)
    (config : Config.Validated V) : run Empty_set Seed :=
  let end_ := Retry.deadline (Retry.from_config config) start hard in
  let! server := Config.first (Config.v_servers config) in
  Ok (seed reason unix start hard end_ name server).

(** [Seed::into_query], src/layer2/dns/src/storage/queries/state/query.rs:55-76. *)
Definition into_query (self : Seed) (entries : Z * Z) (reg : Registry) : Query * Registry :=
  let '(a, b) := entries in
  let '(f, reg) := row_new a (initial (s_name self) (s_end self) (s_server self)) reg in
  let '(s, reg) := row_new b (initial (s_name self) (s_end self) (s_server self)) reg in
  (query (s_reason self) (s_unix self) (s_started_at self) (s_hard self) f s, reg).

(** What the loop of [Query::complete] keeps,
    src/layer2/dns/src/storage/queries/state/query.rs:91-149. *)
Record Gather := gather {
  g_answer : option Answered; g_cap : option Z; g_failed : option Kind }.

(** One address of a finished branch, in [Query::complete],
    src/layer2/dns/src/storage/queries/state/query.rs:91-150. *)
Definition gather_address (st : Answered * option Z) (value : FamilyCode.IpAddr)
    : Answered * option Z :=
  let '(a, cap) := st in
  match Answer.insert N (addresses a) value with
  | (Answer.Full, _) => (a, Some (Answer.addr_len (addresses a) + 1))
  | (_, addrs) => (answered addrs (a_started_at a) (completed_at a) (a_valid_until a), cap)
  end.

(** One branch, in [Query::complete], src/layer2/dns/src/storage/queries/state/query.rs:91-150. *)
Definition gather_branch (self : Query) (now : Z) (st : Gather) (b : Branch) : option Gather :=
  match b with
  | Done values until =>
      let a := default (answered Answer.new (started_at self) now until) (g_answer st) in
      let a := answered (addresses a) (a_started_at a) (completed_at a)
                 (Z.min (a_valid_until a) until) in
      let '(a, cap) := fold_left gather_address (Answer.as_slice values) (a, g_cap st) in
      Some (gather (Some a) cap (g_failed st))
  | Failed kind =>
      let first := match g_failed st with
                   | None => true
                   | Some prior => is_terminal kind && negb (is_terminal prior)
                   end in
      Some (if first then gather (g_answer st) (g_cap st) (Some kind) else st)
  | Empty => Some st
  | Pending _ | Waiting _ _ => None
  end.

(** [Query::complete], src/layer2/dns/src/storage/queries/state/query.rs:91-150. *)
Definition query_complete (self : Query) (now : Z) : option (Answered + Kind) :=
  let unfinished b := match b with Pending _ | Waiting _ _ => true | _ => false end in
  if unfinished (value (four self)) || unfinished (value (six self)) then None
  else
    match gather_branch self now (gather None None None) (value (four self)) with
    | None => None
    | Some st =>
        match gather_branch self now st (value (six self)) with
        | None => None
        | Some st =>
            match g_cap st, g_failed st, g_answer st with
            | Some actual, _, _ => Some (inr (KCapacity (Z.of_nat N) actual))
            | None, Some kind, _ => Some (inr kind)
            | None, None, Some a =>
                Some (if Answer.is_empty (addresses a) then inr KEmpty else inl a)
            | None, None, None => Some (inr KEmpty)
            end
        end
    end.

(** [Query::deadline], src/layer2/dns/src/storage/queries/state/query.rs:152-157. *)
Definition query_deadline (self : Query) : option Z :=
  match branch_deadline (value (four self)), branch_deadline (value (six self)) with
  | Some a, Some b => Some (Z.min a b)
  | Some a, None | None, Some a => Some a
  | None, None => None
  end.

(** [Query::has_stream], src/layer2/dns/src/storage/queries/state/query.rs:159-161. *)
Definition query_has_stream (self : Query) : bool :=
  is_stream (value (four self)) || is_stream (value (six self)).

(** [Registry::retire], src/layer2/dns/src/storage/queries/ledger/registry.rs:16-34. *)
Definition retire (reg : Registry) (r : Row) : step :=
  let empty := with_value r Empty in
  match value r with
  | Pending probe =>
      let reg := unregister empty (request probe) reg in
      let! reg := attempt_release probe reg in Ok (empty, reg)
  | Waiting probe id =>
      let! reg := attempt_release probe reg in
      let! t := Table.release (ids reg) id in
      Ok (empty, with_ids reg t)
  | _ => Ok (empty, reg)
  end.
End query.
Arguments Attempt V : clear implicits.
Arguments Branch {_ _} V.
Arguments Row {_ _} V.
Arguments Query {_ _} V.
Arguments Seed {_} V.
Arguments Ready {_ _} V.
Arguments Gather {_ _} V.
Arguments Outcome {_ _} V.
Arguments Answered V : clear implicits.
Arguments Poll {_ _} V.
End Query.
