(* ===== verification/Answers.v ===== *)
(** * The result of a lookup.

    A reference for [Query::complete]: the distinct addresses of both families
    in order, and the failure that wins. *)

From stdpp Require Import gmap.
From S2P Require Import Prelude Depot Random Time Errors Host Packet PacketFacts Response ResponseFacts Frames Index Config Transactions Query.

Import FamilyCode Query LookupError.

Section answers.
Context `{InlineBytes} `{Payloads} {V : Type -> Type} `{CopyVecLaws V} (N : nat).

(** ** Distinct addresses, in order of first appearance *)

Definition add_distinct (acc : list IpAddr) (v : IpAddr) : list IpAddr :=
  if bool_decide (v ∈ acc) then acc else acc ++ [v].
Definition distinct (acc l : list IpAddr) : list IpAddr := fold_left add_distinct l acc.

(** What the loop keeps: the first [N] of the distinct addresses seen so far,
    and the size it reports once there were more. *)
Definition gathers (st : Answered V * option Z) (D : list IpAddr) : Prop :=
  NoDup D /\ Answer.as_slice (addresses st.1) = take N D
  /\ st.2 = if decide (length D <= N)%nat then None else Some (Z.of_nat N + 1).

Lemma gather_step st D v : gathers st D -> gathers (gather_address N st v) (add_distinct D v).
Proof.
  destruct st as [a cap]. intros (Hnd & Ha & Hc). simpl in Ha, Hc.
  assert (Hnd' : v ∉ D -> NoDup (D ++ [v])).
  { intros. apply NoDup_app. split; [done|]. split; [set_solver|apply NoDup_singleton]. }
  unfold gather_address. destruct (Answer.insert N (addresses a) v) as [r a'] eqn:Hi.
  pose proof (insert_slice N (addresses a) v r a' Hi) as Hspec. rewrite Ha in Hspec.
  unfold add_distinct. destruct (decide (length D <= N)%nat) as [Hle|Hgt].
  - rewrite take_ge in Hspec, Ha by done. destruct r.
    + destruct Hspec as (Hv & Hs & Hlt). rewrite bool_decide_eq_false_2 by done.
      split; [auto|]. simpl. rewrite Hs, take_ge by (rewrite length_app; simpl; lia).
      split; [done|]. rewrite decide_True by (rewrite length_app; simpl; lia). done.
    + destruct Hspec as [Hv ->]. rewrite bool_decide_eq_true_2 by done.
      split; [done|]. simpl. rewrite take_ge by done. split; [done|]. by rewrite decide_True.
    + destruct Hspec as (Hv & -> & Hge). rewrite bool_decide_eq_false_2 by done.
      split; [auto|]. simpl. rewrite take_app_le, take_ge by lia. split; [done|].
      rewrite decide_False by (rewrite length_app; simpl; lia).
      unfold Answer.addr_len, Answer.as_slice in *. rewrite Ha. f_equal. lia.
  - assert (Hlen : length (take N D) = N) by (rewrite length_take; lia). destruct r.
    + destruct Hspec as (_ & _ & ?). lia.
    + destruct Hspec as [Hv ->].
      assert (v ∈ D) by (rewrite <- (take_drop N D); set_solver).
      rewrite bool_decide_eq_true_2 by done. split; [done|]. simpl. split; [done|]. by rewrite decide_False.
    + destruct Hspec as (Hv & -> & _). case_bool_decide.
      * split; [done|]. simpl. split; [done|]. rewrite decide_False by done.
        unfold Answer.addr_len, Answer.as_slice in *. rewrite Ha, Hlen. done.
      * split; [auto|]. simpl. rewrite take_app_le by lia. split; [done|].
        rewrite decide_False by (rewrite length_app; simpl; lia).
        unfold Answer.addr_len, Answer.as_slice in *. rewrite Ha, Hlen. done.
Qed.

Lemma gather_all l : forall st D, gathers st D ->
  gathers (fold_left (gather_address N) l st) (distinct D l).
Proof. induction l as [|v l IH]; intros st D Hg; [done|]. apply IH. by apply gather_step. Qed.

Lemma gather_meta l : forall (a : Answered V) cap,
  let '(a', _) := fold_left (gather_address N) l (a, cap) in
  a_started_at a' = a_started_at a /\ completed_at a' = completed_at a
  /\ a_valid_until a' = a_valid_until a.
Proof.
  induction l as [|v l IH]; intros a cap; [done|]. cbn [fold_left].
  unfold gather_address at 2. destruct (Answer.insert N (addresses a) v) as [[] a'];
    match goal with |- context [fold_left _ l (?b, ?c)] => specialize (IH b c) end;
    destruct (fold_left _ l _); done.
Qed.

(** ** The reference *)

Definition open_row (v : Branch V) : Prop :=
  match v with Pending _ | Waiting _ _ => True | _ => False end.
#[local] Instance open_row_dec v : Decision (open_row v).
Proof. destruct v; apply _. Defined.
Lemma open_row_bool v :
  match v with Pending _ | Waiting _ _ => true | _ => false end = bool_decide (open_row v).
Proof. by destruct v. Qed.
Definition found (v : Branch V) : list IpAddr :=
  match v with Done values _ => Answer.as_slice values | _ => [] end.
Definition until (v : Branch V) : option Z := match v with Done _ u => Some u | _ => None end.
Definition failure (v : Branch V) : option Kind := match v with Failed k => Some k | _ => None end.

(** The failure reported: the first, unless only the second is terminal. *)
Definition preferred (a b : option Kind) : option Kind :=
  match a, b with
  | Some k, Some k' => Some (if is_terminal k' && negb (is_terminal k) then k' else k)
  | Some k, None | None, Some k => Some k
  | None, None => None
  end.
Definition earliest (a b : option Z) : option Z :=
  match a, b with
  | Some u, Some u' => Some (Z.min u u')
  | Some u, None | None, Some u => Some u
  | None, None => None
  end.

(** The loop of [complete], from a state over the distinct addresses [D]. *)
Definition gathered (q : Query V) (now : Z) (st : Gather V) (D : list IpAddr) (u : option Z)
    (k : option Kind) : Prop :=
  g_failed st = k /\ NoDup D
  /\ g_cap st = (if decide (length D <= N)%nat then None else Some (Z.of_nat N + 1))
  /\ match g_answer st with
     | None => D = [] /\ u = None
     | Some a => Answer.as_slice (addresses a) = take N D /\ a_started_at a = started_at q
         /\ completed_at a = now /\ u = Some (a_valid_until a)
     end.

Lemma gather_branch_spec q now st D u k v : gathered q now st D u k -> ~ open_row v ->
  exists st', gather_branch N q now st v = Some st'
    /\ gathered q now st' (distinct D (found v)) (earliest u (until v)) (preferred k (failure v)).
Proof.
  intros (Hk & Hnd & Hc & Ha) Hv. destruct v as [a|a x|values w| |kind]; try done; simpl.
  - set (a0 := default _ (g_answer st)).
    assert (Ha0 : Answer.as_slice (addresses a0) = take N D /\ a_started_at a0 = started_at q
      /\ completed_at a0 = now /\ earliest u (Some w) = Some (Z.min (a_valid_until a0) w)).
    { unfold a0. destruct (g_answer st) as [a|]; simpl.
      - destruct Ha as (? & ? & ? & ->). done.
      - destruct Ha as [-> ->]. rewrite take_nil. unfold Answer.as_slice, Answer.new.
        rewrite cv_slice_new. simpl. by rewrite Z.min_id. }
    destruct Ha0 as (Hs & Hst & Hnow & Hu).
    set (a1 := answered _ _ _ _).
    pose proof (gather_all (Answer.as_slice values) (a1, g_cap st) D) as Hall.
    pose proof (gather_meta (Answer.as_slice values) a1 (g_cap st)) as Hm.
    destruct (fold_left _ _ _) as [a' cap]. eexists. split; [done|].
    destruct Hall as (Hnd' & Hs' & Hc'); [by split|]. destruct Hm as (Hm1 & Hm2 & Hm3).
    split; simpl; [by destruct k|]. split; [done|]. split; [done|]. split; [done|].
    rewrite Hm1, Hm2, Hm3. unfold a1. simpl. split; [done|]. split; [done|]. exact Hu.
  - eexists. split; [done|]. split; [by destruct k|]. split; [done|]. split; [done|].
    by destruct u.
  - eexists. split; [done|]. subst k. destruct (g_failed st) as [k|] eqn:Hf; simpl.
    + destruct (is_terminal kind && negb (is_terminal k)); (split; [done|]); (split; [done|]);
        (split; [done|]); by destruct u.
    + split; [done|]. split; [done|]. split; [done|]. by destruct u.
Qed.

(** C19. The result of a lookup is exact. A query has a result precisely when
    neither family is still asking; the result then depends on the distinct
    addresses of both families in order of appearance: more of them than the
    capacity is a capacity error with the limit, otherwise a failure of a
    family is reported (the first, unless only the other is terminal),
    otherwise no address is the empty error, and otherwise the answer holds
    exactly these addresses, the start of the query, the moment of completion
    and the earliest expiry. *)
Theorem lookup_result_exact (q : Query V) (now : Z) :
  let a := value (four q) in
  let b := value (six q) in
  let D := distinct (distinct [] (found a)) (found b) in
  match query_complete N q now with
  | None => open_row a \/ open_row b
  | Some r => ~ open_row a /\ ~ open_row b /\
      if decide (N < length D)%nat then r = inr (KCapacity (Z.of_nat N) (Z.of_nat N + 1))
      else match preferred (failure a) (failure b) with
           | Some k => r = inr k
           | None =>
               match D with
               | [] => r = inr KEmpty
               | _ => exists w, r = inl w /\ Answer.as_slice (addresses w) = D
                   /\ a_started_at w = started_at q /\ completed_at w = now
                   /\ Some (a_valid_until w) = earliest (until a) (until b)
               end
           end
  end.
Proof.
  intros a b D. unfold query_complete. fold a b. cbv zeta. rewrite !open_row_bool.
  case_bool_decide as Ha; [by left|]. case_bool_decide as Hb; [by right|]. simpl.
  destruct (gather_branch_spec q now (gather None None None) [] None None a) as (st & -> & Hst);
    [|done|].
  { split; [done|]. split; [apply NoDup_nil_2|]. split; [by rewrite decide_True by (simpl; lia)|done]. }
  destruct (gather_branch_spec q now st _ _ _ b Hst Hb) as (st' & -> & Hk & Hnd & Hc & Hans).
  fold D in Hnd, Hc, Hans. clearbody D.
  assert (HN : preferred None (failure a) = failure a) by (by destruct (failure a)).
  assert (HE : earliest None (until a) = until a) by (by destruct (until a)).
  rewrite HN in Hk. rewrite HE in Hans. rewrite Hk, Hc.
  destruct (decide (N < length D)%nat) as [Hgt|Hle].
  { rewrite decide_False by lia. done. }
  rewrite decide_True by lia.
  assert (Hle' : (length D <= N)%nat) by lia.
  destruct (preferred (failure a) (failure b)) as [k|] eqn:Hp; [done|].
  revert Hans. destruct (g_answer st') as [w|]; intros Hans.
  - destruct Hans as (Hs & Hst2 & Hnow & Hu). rewrite take_ge in Hs by done.
    unfold Answer.is_empty, Answer.as_slice in *. rewrite Hs.
    case_bool_decide as He; (split; [done|]); (split; [done|]).
    + by rewrite He.
    + destruct D; [done|]. exists w. done.
  - destruct Hans as [-> _]. done.
Qed.
End answers.

(** ** A concrete lookup *)

Section witness.
Import Depot.Concrete ConcretePayloads.

Definition ip (d : Z) : IpAddr := V4 [10; 0; 0; d].
(** Both families answered, with one address in common. *)
Definition answered_query : Query list :=
  query Reason.Startup 100 5 50 (row (Done [ip 1; ip 2] 40) 0) (row (Done [ip 2; ip 3] 30) 1).

Lemma lookup_result_exact_witness :
  let a := value (four answered_query) in
  let b := value (six answered_query) in
  let D := distinct (distinct [] (found a)) (found b) in
  query_complete 4 answered_query 9
    = Some (inl (answered [ip 1; ip 2; ip 3] 5 9 30))
  /\ query_complete 2 answered_query 9 = Some (inr (KCapacity 2 3))
  /\ match query_complete 4 answered_query 9 with
     | None => open_row a \/ open_row b
     | Some r => ~ open_row a /\ ~ open_row b /\
         if decide (4 < length D)%nat then r = inr (KCapacity (Z.of_nat 4) (Z.of_nat 4 + 1))
         else match preferred (failure a) (failure b) with
              | Some k => r = inr k
              | None =>
                  match D with
                  | [] => r = inr KEmpty
                  | _ => exists w, r = inl w /\ Answer.as_slice (addresses w) = D
                      /\ a_started_at w = started_at answered_query /\ completed_at w = 9
                      /\ Some (a_valid_until w) = earliest (until a) (until b)
                  end
              end
     end.
Proof.
  intros a b D. split; [reflexivity|]. split; [reflexivity|].
  exact (lookup_result_exact 4 answered_query 9).
Defined.
End witness.
