(* ===== verification/RegistryFacts.v ===== *)
(** * The registry accounts for every request.

    What the pending set, the stream counts and the transaction table hold is
    determined by where each branch's request is: nowhere, in flight inside an
    operation, queued, or leased to a transaction. [Reg_ok] states this over a
    map from branch ordinals to such holds; each primitive the rows use moves
    one branch between holds and keeps the registry in step. *)

From stdpp Require Import gmap.
From S2P Require Import Prelude Depot Random Time Errors Host Packet Response Frames Index Config Transactions Query.

Import Registry Query.

Section registry_facts.
Context `{InlineBytes} `{Payloads} {V : Type -> Type} `{CopyVecLaws V} {T : Type} `{PlaneSetLaws T}.

(** Where the request of a branch is. *)
Inductive Hold := HNone | HHeld (a : Attempt V) | HQueued (a : Attempt V)
  | HLeased (a : Attempt V) (l : Lease.Lease).

Definition att_stream (a : Attempt V) : option Server := Request.stream (request a).
Definition hold_stream (x : Hold) : option Server :=
  match x with HNone => None | HHeld a | HQueued a | HLeased a _ => att_stream a end.
Definition hold_of (v : Branch V) : Hold :=
  match v with
  | Pending a => HQueued a
  | Waiting a l => HLeased a l
  | Done _ _ | Empty | Failed _ => HNone
  end.

Definition upd (h : Z -> Hold) (i : Z) (x : Hold) : Z -> Hold :=
  fun j => if decide (j = i) then x else h j.
Lemma upd_same h i x : upd h i x i = x.
Proof. unfold upd. by rewrite decide_True. Qed.
Lemma upd_other h i x j : j <> i -> upd h i x j = h j.
Proof. intros. unfold upd. by rewrite decide_False. Qed.

(** ** Counting stream requests *)

Definition one (o : option Server) (s : Server) : Z := if decide (o = Some s) then 1 else 0.
Definition total (h : Z -> Hold) (s : Server) (l : list Z) : Z :=
  foldr (fun i n => one (hold_stream (h i)) s + n) 0 l.

Lemma one_range o s : 0 <= one o s <= 1.
Proof. unfold one. case_decide; lia. Qed.

Lemma total_cons h s i l : total h s (i :: l) = one (hold_stream (h i)) s + total h s l.
Proof. done. Qed.

Lemma total_ext h h' s l : (forall i, i ∈ l -> h i = h' i) -> total h s l = total h' s l.
Proof.
  induction l as [|i l IH]; intros Hl; [done|]. rewrite !total_cons, Hl by set_solver.
  f_equal. apply IH. set_solver.
Qed.

Lemma total_upd h i x s l : NoDup l -> i ∈ l ->
  total (upd h i x) s l = total h s l - one (hold_stream (h i)) s + one (hold_stream x) s.
Proof.
  induction 1 as [|j l Hj Hl IH]; intros Hi; [set_solver|]. rewrite !total_cons.
  destruct (decide (j = i)) as [->|Hne].
  - rewrite upd_same, (total_ext (upd h i x) h); [lia|].
    intros k Hk. apply upd_other. set_solver.
  - rewrite upd_other by done. rewrite IH by set_solver. lia.
Qed.

Lemma total_range h s l : 0 <= total h s l <= Z.of_nat (length l).
Proof.
  induction l as [|i l IH]; [done|]. rewrite total_cons. simpl length.
  pose proof (one_range (hold_stream (h i)) s). lia.
Qed.

Lemma total_pos h s l i : i ∈ l -> hold_stream (h i) = Some s -> 1 <= total h s l.
Proof.
  intros Hi Hs. induction l as [|j l IH]; [set_solver|]. rewrite total_cons.
  pose proof (one_range (hold_stream (h j)) s). pose proof (total_range h s l).
  apply elem_of_cons in Hi as [<-|Hi].
  - unfold one. rewrite decide_True by done. lia.
  - specialize (IH Hi). lia.
Qed.

(** ** The invariant *)

(** The number of branches. *)
Context (n : Z) (Hn : 0 <= n <= 65534).

Definition ordinal (i : Z) : Prop := 0 <= i < n.
Definition ordinals : list Z := seqZ 0 n.
Lemma elem_ordinals i : i ∈ ordinals <-> ordinal i.
Proof. unfold ordinals, ordinal. rewrite elem_of_seqZ. lia. Qed.

(** Owners of identities are exactly the leases of one transport. *)
Definition owned (lease_id : Lease.Lease -> option Z) (h : Z -> Hold) (U : gmap Z Index.Branch) : Prop :=
  (forall i a l id, ordinal i -> h i = HLeased a l -> lease_id l = Some id ->
     U !! id = Some (Branch.from_ordinal i))
  /\ forall id b, U !! id = Some b ->
     exists i a l, ordinal i /\ b = Branch.from_ordinal i /\ h i = HLeased a l
       /\ lease_id l = Some id.

Definition udp_id (l : Lease.Lease) : option Z :=
  match l with Lease.LUdp u => Some (Lease.removed u) | Lease.LTcp _ => None end.
Definition tcp_id (l : Lease.Lease) : option Z :=
  match l with Lease.LUdp _ => None | Lease.LTcp id => Some id end.

(** A UDP lease carries a request that does not wait for a stream, a TCP lease
    one that does. *)
Definition lease_fits (a : Attempt V) (l : Lease.Lease) : Prop :=
  match l with Lease.LUdp _ => att_stream a = None | Lease.LTcp _ => att_stream a <> None end.

Record Reg_ok (h : Z -> Hold) (g : Registry T) : Prop := {
  g_pending : forall p i, ps_mem (pending g) p i = true <->
    ordinal i /\ exists a, h i = HQueued a /\ p = plane_id (att_stream a);
  g_live : forall s, live g s = total h s ordinals;
  g_leases : forall i a l, ordinal i -> h i = HLeased a l -> lease_fits a l;
  g_table : exists U S, Table_ok (ids g) U S /\ owned udp_id h U /\ owned tcp_id h S;
}.

Lemma plane_id_inj o o' : plane_id o = plane_id o' -> o = o'.
Proof. destruct o as [[]|], o' as [[]|]; done. Qed.

Lemma owned_ext f h h' U : (forall i, ordinal i -> h i = h' i) -> owned f h U -> owned f h' U.
Proof.
  intros He [H1' H2']. split.
  - intros i a l id Hi Hh. rewrite <- He in Hh by done. by eapply H1'.
  - intros id b Hb. destruct (H2' id b Hb) as (i & a & l & Hi & -> & Hh & Hl).
    exists i, a, l. rewrite <- He by done. done.
Qed.

Lemma Reg_ext h h' g : (forall i, ordinal i -> h i = h' i) -> Reg_ok h g -> Reg_ok h' g.
Proof.
  intros He [Hp Hl Hf (U & S & Ht & Hu & Hs)]. split.
  - intros p i. rewrite Hp. split; intros (Hi & a & Ha & ->); (split; [done|]); exists a;
      [rewrite <- He|rewrite He]; done.
  - intros s. rewrite Hl. apply total_ext. intros i Hi%elem_ordinals. by apply He.
  - intros i a l Hi Hh. rewrite <- He in Hh by done. by eapply Hf.
  - exists U, S. split; [done|]. split; by eapply owned_ext.
Qed.

(** A branch whose hold keeps its lease (or the lack of one) keeps the owners. *)
Definition hold_lease (x : Hold) : option Lease.Lease :=
  match x with HLeased _ l => Some l | _ => None end.

Lemma owned_same f h U i x :
  hold_lease x = hold_lease (h i) -> owned f h U -> owned f (upd h i x) U.
Proof.
  intros He [Ho1 Ho2]. split.
  - intros j a l id Hj Hh Hl. destruct (decide (j = i)) as [->|].
    + rewrite upd_same in Hh. subst x. simpl in He. destruct (h i) eqn:Hhi; simplify_eq/=.
      by eapply Ho1.
    + rewrite upd_other in Hh by done. by eapply Ho1.
  - intros id b Hb. destruct (Ho2 id b Hb) as (j & a & l & Hj & -> & Hh & Hl).
    destruct (decide (j = i)) as [->|].
    + rewrite Hh in He. simpl in He. destruct x as [| | |a' l']; simplify_eq/=.
      exists i, a', l. by rewrite upd_same.
    + exists j, a, l. by rewrite upd_other.
Qed.

Lemma owned_none f h U i x :
  (forall l, hold_lease (h i) = Some l -> f l = None) ->
  (forall l, hold_lease x = Some l -> f l = None) -> owned f h U -> owned f (upd h i x) U.
Proof.
  intros Hi Hx [Ho1 Ho2]. split.
  - intros j a l id Hj Hh Hl. destruct (decide (j = i)) as [->|].
    + rewrite upd_same in Hh. subst x. rewrite (Hx l) in Hl; done.
    + rewrite upd_other in Hh by done. by eapply Ho1.
  - intros id b Hb. destruct (Ho2 id b Hb) as (j & a & l & Hj & -> & Hh & Hl).
    destruct (decide (j = i)) as [->|].
    + rewrite (Hi l) in Hl; [done|]. by rewrite Hh.
    + exists j, a, l. by rewrite upd_other.
Qed.

Lemma owned_insert f h U i a l id :
  ordinal i -> hold_lease (h i) = None -> f l = Some id -> U !! id = None -> owned f h U ->
  owned f (upd h i (HLeased a l)) (<[id := Branch.from_ordinal i]> U).
Proof.
  intros Hi Hno Hl Hu [Ho1 Ho2]. split.
  - intros j a' l' id' Hj Hh Hl'. destruct (decide (j = i)) as [->|].
    + rewrite upd_same in Hh. simplify_eq. by rewrite lookup_insert_eq.
    + rewrite upd_other in Hh by done. rewrite lookup_insert_ne; [by eapply Ho1|].
      intros <-. rewrite (Ho1 _ _ _ _ Hj Hh Hl') in Hu. done.
  - intros id' b Hb. destruct (decide (id = id')) as [<-|].
    + rewrite lookup_insert_eq in Hb. injection Hb as <-. exists i, a, l. by rewrite upd_same.
    + rewrite lookup_insert_ne in Hb by done.
      destruct (Ho2 _ _ Hb) as (j & a' & l' & Hj & -> & Hh & Hl').
      assert (j <> i) by (intros ->; by rewrite Hh in Hno).
      exists j, a', l'. by rewrite upd_other.
Qed.

Lemma from_ordinal_inj i j : ordinal i -> ordinal j -> Branch.from_ordinal i = Branch.from_ordinal j -> i = j.
Proof. unfold ordinal, Branch.from_ordinal. lia. Qed.

Lemma owned_delete f h U i a l id x :
  ordinal i -> h i = HLeased a l -> f l = Some id -> hold_lease x = None -> owned f h U ->
  owned f (upd h i x) (delete id U).
Proof.
  intros Hi Hhi Hl Hx [Ho1 Ho2]. pose proof (Ho1 _ _ _ _ Hi Hhi Hl) as Hid. split.
  - intros j a' l' id' Hj Hh Hl'. destruct (decide (j = i)) as [->|Hne].
    + rewrite upd_same in Hh. by subst x.
    + rewrite upd_other in Hh by done. pose proof (Ho1 _ _ _ _ Hj Hh Hl') as Hj'.
      rewrite lookup_delete_ne; [done|]. intros <-. rewrite Hid in Hj'. injection Hj' as He.
      by apply Hne, from_ordinal_inj.
  - intros id' b Hb. apply lookup_delete_Some in Hb as [Hne Hb].
    destruct (Ho2 _ _ Hb) as (j & a' & l' & Hj & -> & Hh & Hl').
    assert (j <> i) by (intros ->; rewrite Hhi in Hh; simplify_eq).
    exists j, a', l'. by rewrite upd_other.
Qed.

(** ** Moving one branch *)

(** The registry after one branch moved from its hold to [x]. *)
Definition moves (h : Z -> Hold) (i : Z) (x : Hold) (g : Registry T) : Prop :=
  Reg_ok (upd h i x) g.

Lemma total_move h i x s : ordinal i ->
  total (upd h i x) s ordinals
  = total h s ordinals - one (hold_stream (h i)) s + one (hold_stream x) s.
Proof. intros Hi. apply total_upd; [apply NoDup_seqZ|by apply elem_ordinals]. Qed.

(** A move between holds without a lease, for a given pending set and counts. *)
Lemma reg_move h g i x p l :
  ordinal i -> Reg_ok h g -> hold_lease (h i) = None -> hold_lease x = None ->
  (forall q j, ps_mem p q j = true <->
     ordinal j /\ exists a, upd h i x j = HQueued a /\ q = plane_id (att_stream a)) ->
  (forall s, l s = live g s - one (hold_stream (h i)) s + one (hold_stream x) s) ->
  moves h i x (registry p l (ids g) (stream_failure g)).
Proof.
  intros Hi [Hp Hl Hf (U & S & Ht & Hu & Hs)] Ho Hx Hp' Hl'. split; simpl.
  - done.
  - intros s. rewrite Hl', Hl, total_move by done. done.
  - intros j a l' Hj Hh. destruct (decide (j = i)) as [->|].
    + rewrite upd_same in Hh. by subst x.
    + rewrite upd_other in Hh by done. by eapply Hf.
  - exists U, S. split; [done|]. split; apply owned_same; congruence.
Qed.

(** The pending set does not change when the branch was and stays unqueued. *)
Lemma pending_keep h g i x :
  Reg_ok h g -> (forall a, h i <> HQueued a) -> (forall a, x <> HQueued a) ->
  forall q j, ps_mem (pending g) q j = true <->
    ordinal j /\ exists a, upd h i x j = HQueued a /\ q = plane_id (att_stream a).
Proof.
  intros [Hp _ _ _] Hh Hx q j. rewrite Hp. destruct (decide (j = i)) as [->|].
  - rewrite upd_same. split; intros (? & a & Ha & _); [by destruct (Hh a)|by destruct (Hx a)].
  - by rewrite upd_other.
Qed.

Lemma one_eq o o' s : o = o' -> one o s = one o' s.
Proof. by intros ->. Qed.

Lemma reg_held h g i x a :
  ordinal i -> Reg_ok h g -> h i = x -> (x = HNone \/ exists a', x = HHeld a') ->
  hold_stream x = att_stream a -> moves h i (HHeld a) g.
Proof.
  intros Hi Hok Hh Hx Hs. destruct g as [p l t f].
  apply (reg_move h (registry p l t f)); try done.
  - rewrite Hh. by destruct Hx as [->|[a' ->]].
  - apply (pending_keep h (registry p l t f) i); [done|rewrite Hh; by destruct Hx as [->|[a' ->]]|done].
  - intros s. rewrite Hh, Hs. simpl. lia.
Qed.

Lemma reg_queue h g i a :
  ordinal i -> Reg_ok h g -> h i = HHeld a ->
  moves h i (HQueued a) (with_pending g (ps_set (pending g) (plane_id (att_stream a)) i)).
Proof.
  intros Hi Hok Hh. apply (reg_move h g); try done; [by rewrite Hh| |intros s; rewrite Hh; simpl; lia].
  destruct Hok as [Hp _ _ _]. intros q j. rewrite ps_mem_set, orb_true_iff, bool_decide_eq_true, Hp.
  destruct (decide (j = i)) as [->|].
  - rewrite upd_same, Hh. naive_solver.
  - rewrite upd_other by done. naive_solver.
Qed.

Lemma reg_unqueue h g i a p :
  ordinal i -> Reg_ok h g -> h i = HQueued a ->
  (forall q j, ps_mem p q j
     = ps_mem (pending g) q j && negb (bool_decide (plane_id (att_stream a) = q /\ i = j))) ->
  moves h i (HHeld a) (with_pending g p).
Proof.
  intros Hi Hok Hh Hp'. apply (reg_move h g); try done; [by rewrite Hh| |intros s; rewrite Hh; simpl; lia].
  destruct Hok as [Hp _ _ _]. intros q j.
  rewrite Hp', andb_true_iff, negb_true_iff, bool_decide_eq_false, Hp.
  destruct (decide (j = i)) as [->|].
  - rewrite upd_same, Hh. naive_solver.
  - rewrite upd_other by done. naive_solver.
Qed.

Lemma live_bound h g s : Reg_ok h g -> 0 <= live g s <= n.
Proof.
  intros [_ Hl _ _]. rewrite Hl. pose proof (total_range h s ordinals) as Hr.
  unfold ordinals in *. rewrite length_seqZ in Hr. lia.
Qed.

Lemma live_pos h g i s : ordinal i -> Reg_ok h g -> hold_stream (h i) = Some s -> 1 <= live g s.
Proof.
  intros Hi [_ Hl _ _] Hs. rewrite Hl. eapply total_pos; [|done]. by apply elem_ordinals.
Qed.

Lemma put_spec (l : Live.Live) s x s' :
  put s l x s' = if decide (s' = s) then x else l s'.
Proof. done. Qed.

(** Releasing the request in flight frees its place on its stream. *)
Lemma reg_release h g i a :
  ordinal i -> Reg_ok h g -> h i = HHeld a ->
  exists g', attempt_release a g = Ok g' /\ stream_failure g' = stream_failure g
    /\ moves h i HNone g'.
Proof.
  intros Hi Hok Hh. unfold attempt_release, Request.release.
  assert (Hs : hold_stream (h i) = att_stream a) by (by rewrite Hh).
  assert (Hpk := pending_keep h g i HNone Hok).
  unfold att_stream, Request.stream in Hs.
  destruct (Request.r_stream (request a)) as [s|] eqn:Hr; simpl.
  - unfold Live.release, Live.down. pose proof (live_pos _ _ _ _ Hi Hok Hs).
    destruct (Z.eqb_spec (live g s) 0); [lia|]. simpl. eexists. split; [done|]. split; [done|].
    apply (reg_move h g); try done; [by rewrite Hh|apply Hpk; [by rewrite Hh|done]|].
    intros s'. rewrite put_spec, Hs. simpl. unfold one. repeat case_decide; simplify_eq; lia.
  - eexists. split; [done|]. split; [done|].
    apply (reg_move h g); try done; [by rewrite Hh|apply Hpk; [by rewrite Hh|done]|].
    intros s'. rewrite Hs. unfold one; simpl. lia.
Qed.

(** Counting a request up on its stream. *)
Lemma reg_up {E} h g i a s (r : Request.Request V) :
  ordinal i -> Reg_ok h g -> h i = HHeld a -> att_stream a = None -> Request.stream r = Some s ->
  forall d, exists l', Live.up (E := E) (live g) s = Ok l'
    /\ moves h i (HHeld (attempt r d)) (with_live g l').
Proof.
  intros Hi Hok Hh Ha Hr d. unfold Live.up. pose proof (live_bound _ _ s Hok).
  destruct (Z.ltb_spec (live g s + 1) (2 ^ 16)); [|lia]. eexists. split; [done|].
  apply (reg_move h g); try done; [by rewrite Hh|apply (pending_keep h g i); [done|by rewrite Hh|done]|].
  intros s'. rewrite put_spec, Hh. simpl. rewrite Ha. unfold att_stream; simpl. rewrite Hr.
  unfold one. repeat case_decide; simplify_eq; lia.
Qed.

(** Moving a request to the next server of its cycle moves its place, too. *)
Lemma reg_transfer {E} h g i a s to (r : Request.Request V) :
  ordinal i -> Reg_ok h g -> h i = HHeld a -> att_stream a = Some s ->
  Request.stream r = Some to -> forall d, exists l',
    Live.transfer (E := E) (live g) s to = Ok (to, l')
    /\ moves h i (HHeld (attempt r d)) (with_live g l').
Proof.
  intros Hi Hok Hh Ha Hr d. unfold Live.transfer.
  assert (Hs : hold_stream (h i) = Some s) by (by rewrite Hh).
  case_decide as Hne; [subst to|].
  { eexists. split; [done|]. destruct g as [p l t f]. apply (reg_move h (registry p l t f)); try done;
      [by rewrite Hh|apply (pending_keep h (registry p l t f) i); [done|by rewrite Hh|done]|].
    intros s'. rewrite Hs. unfold hold_stream, att_stream; simpl. rewrite Hr. lia. }
  unfold Live.down. pose proof (live_pos _ _ _ _ Hi Hok Hs).
  destruct (Z.eqb_spec (live g s) 0); [lia|]. simpl.
  unfold Live.up. rewrite put_other by congruence. pose proof (live_bound _ _ to Hok).
  destruct (Z.ltb_spec (live g to + 1) (2 ^ 16)); [|lia]. simpl. eexists. split; [done|].
  apply (reg_move h g); try done; [by rewrite Hh|apply (pending_keep h g i); [done|by rewrite Hh|done]|].
  intros s'. rewrite !put_spec, Hs. unfold hold_stream, att_stream; simpl. rewrite Hr.
  unfold one. repeat case_decide; simplify_eq; lia.
Qed.

(** ** Moving into and out of transactions *)

Lemma reg_move_lease h g i x t U S :
  ordinal i -> Reg_ok h g -> (forall a, h i <> HQueued a) -> (forall a, x <> HQueued a) ->
  hold_stream x = hold_stream (h i) ->
  (forall a l, x = HLeased a l -> lease_fits a l) ->
  Table_ok t U S -> owned udp_id (upd h i x) U -> owned tcp_id (upd h i x) S ->
  moves h i x (with_ids g t).
Proof.
  intros Hi Hok Hh Hx He Hfit Ht Hu Hs. split; simpl.
  - by apply pending_keep.
  - intros s. destruct Hok as [_ Hl _ _]. rewrite Hl, total_move, He by done. lia.
  - intros j a l Hj Hhj. destruct (decide (j = i)) as [->|].
    + rewrite upd_same in Hhj. by eapply Hfit.
    + rewrite upd_other in Hhj by done. by eapply (g_leases _ _ Hok).
  - by exists U, S.
Qed.

(** Releasing a lease never fails, and leaves the request in flight. *)
Lemma reg_unlease h g i a l :
  ordinal i -> Reg_ok h g -> h i = HLeased a l ->
  exists t', Table.release (E := Empty_set) (ids g) l = Ok t' /\ moves h i (HHeld a) (with_ids g t').
Proof.
  intros Hi Hok Hh. pose proof Hok as [_ _ Hf (U & S & Ht & Hu & Hs)].
  assert (Hlease : hold_lease (h i) = Some l) by (by rewrite Hh).
  destruct l as [u|id].
  - assert (Hown : U !! Lease.removed u = Some (Branch.from_ordinal i)).
    { destruct Hu as [Hu _]. by eapply Hu. }
    destruct (release_udp_spec (E := Empty_set) (ids g) U S u Ht (mk_is_Some _ _ Hown))
      as (t' & Hr & Ht').
    exists t'. split; [exact Hr|].
    eapply (reg_move_lease h g i (HHeld a) t'); try done; [by rewrite Hh|by rewrite Hh| |].
    + by eapply owned_delete.
    + apply owned_none; [|done|done]. intros l' Hl'. by simplify_eq.
  - assert (Hown : S !! id = Some (Branch.from_ordinal i)).
    { destruct Hs as [Hs _]. by eapply Hs. }
    assert (Hid : is_id id).
    { exact (lookup_is_id _ _ (t_tcp _ _ _ Ht) _ (mk_is_Some _ _ Hown)). }
    destruct (clear_tcp_spec (E := Empty_set) (ids g) U S id Ht Hid) as (t' & Hr & Ht').
    exists t'. split; [exact Hr|].
    eapply (reg_move_lease h g i (HHeld a) t'); try done; [by rewrite Hh|by rewrite Hh| |].
    + apply owned_none; [|done|done]. intros l' Hl'. by simplify_eq.
    + by eapply owned_delete.
Qed.

Lemma reg_lease_udp h g i a u t U S :
  ordinal i -> Reg_ok h g -> h i = HHeld a -> att_stream a = None ->
  Table_ok (ids g) U S -> owned udp_id h U -> owned tcp_id h S ->
  U !! Lease.removed u = None ->
  Table_ok t (<[Lease.removed u := Branch.from_ordinal i]> U) S ->
  moves h i (HLeased a (Lease.LUdp u)) (with_ids g t).
Proof.
  intros Hi Hok Hh Ha Ht Hu Hs Hfree Ht'.
  eapply (reg_move_lease h g i _ t); try done; [by rewrite Hh|by rewrite Hh| | |].
  - intros a' l [= <- <-]. done.
  - apply owned_insert; try done. by rewrite Hh.
  - apply owned_none; [by rewrite Hh| |done]. intros l [= <-]. done.
Qed.

Lemma reg_lease_tcp h g i a id t U S :
  ordinal i -> Reg_ok h g -> h i = HHeld a -> att_stream a <> None ->
  Table_ok (ids g) U S -> owned udp_id h U -> owned tcp_id h S ->
  S !! id = None -> Table_ok t U (<[id := Branch.from_ordinal i]> S) ->
  moves h i (HLeased a (Lease.LTcp id)) (with_ids g t).
Proof.
  intros Hi Hok Hh Ha Ht Hu Hs Hfree Ht'.
  eapply (reg_move_lease h g i _ t); try done; [by rewrite Hh|by rewrite Hh| | |].
  - intros a' l [= <- <-]. done.
  - apply owned_none; [by rewrite Hh| |done]. intros l [= <-]. done.
  - apply owned_insert; try done. by rewrite Hh.
Qed.

(** Replacing the table under the same owners. *)
Lemma reg_table h g t U S :
  Reg_ok h g -> Table_ok t U S -> owned udp_id h U -> owned tcp_id h S ->
  Reg_ok h (with_ids g t).
Proof. intros [Hp Hl Hf _] Ht Hu Hs. split; try done. by exists U, S. Qed.

Lemma reg_failure h g k : Reg_ok h g -> Reg_ok h (with_failure g k).
Proof. intros [Hp Hl Hf Ht]. by split. Qed.

Lemma upd_upd h i x y : forall j, upd (upd h i x) i y j = upd h i y j.
Proof. intros j. unfold upd. by case_decide. Qed.

Lemma moves_again h g i x y : moves (upd h i x) i y g -> moves h i y g.
Proof. apply Reg_ext. intros j _. apply upd_upd. Qed.

Lemma moves_self h g i x : h i = x -> moves h i x g <-> Reg_ok h g.
Proof.
  intros Hx. split; apply Reg_ext; intros j _; unfold upd; case_decide; congruence.
Qed.
End registry_facts.
Arguments Hold V : clear implicits.
