(* ===== verification/QueryFacts.v ===== *)
(** * Rows move soundly.

    Every transition of a row — applying a reply, retrying, switching to a
    stream, failing — leaves the registry in step with the row ([Reg_ok] of
    [RegistryFacts]) and keeps the bounds of the lookup: attempts, alias hops,
    deadlines, and the server a stream request is filed under. *)

From stdpp Require Import gmap.
From S2P Require Import Prelude Depot Random Time Errors Host Packet PacketFacts Response ResponseFacts Frames Index Config Transactions Query RegistryFacts.

Import Registry Query.

Section query_facts.
Context `{InlineBytes} `{Payloads} {V : Type -> Type} `{CopyVecLaws V} (N : nat)
  {T : Type} `{PlaneSetLaws T}.
(** The number of branches, the servers and the attempts of the configuration. *)
Context (n : Z) (Hn : 0 <= n <= 65534) (l : list Net.SocketAddr) (attempts : Z)
  (Hattempts : 1 <= attempts).

(** A request within its bounds; a stream request is filed under its server. *)
Definition req_ok (r : Request.Request V) : Prop :=
  0 <= Request.attempt r < attempts /\ Request.r_hops r <= 16
  /\ (exists k, selects l (Request.r_server r) k)
  /\ (forall s, Request.stream r = Some s -> s = Request.server r)
  /\ Host.parse (Request.name r) = Ok (Request.name r).
Definition att_ok (hard : Z) (a : Attempt V) : Prop := deadline a <= hard /\ req_ok (request a).
Definition val_ok (hard : Z) (v : Branch V) : Prop :=
  match v with Pending a | Waiting a _ => att_ok hard a | _ => True end.

(** The transition ends, with the row and the registry in step. *)
Definition settles (hard : Z) (h : Z -> Hold V) (i : Z) (g : Registry T) (m : run Empty_set (Row V * Registry T)) : Prop :=
  exists r g', m = Ok (r, g') /\ entry r = i /\ val_ok hard (value r)
    /\ (forall a lease, value r <> Waiting a lease)
    /\ stream_failure g' = stream_failure g /\ moves n h i (hold_of (value r)) g'.

Context (h : Z -> Hold V) (i : Z) (Hi : ordinal n i).

Lemma finish_settles hard a g next slot :
  Reg_ok n h g -> h i = HHeld a -> entry slot = i ->
  settles hard h i g (attempt_finish a g next slot).
Proof.
  intros Hok Hh He. unfold attempt_finish.
  destruct (reg_release n h g i a Hi Hok Hh) as (g' & -> & Hf & Hm). simpl.
  eexists _, g'. split; [done|]. split; [done|]. by destruct next.
Qed.

Lemma row_pending_settles hard a g slot :
  Reg_ok n h g -> h i = HHeld a -> entry slot = i -> att_ok hard a ->
  settles hard h i g (Ok (row_pending slot a g)).
Proof.
  intros Hok Hh He Ha. eexists _, _. split; [done|]. split; [done|]. split; [done|].
  split; [done|]. split; [done|]. simpl. unfold register. rewrite He.
  by apply reg_queue.
Qed.

(** Going through another attempt of the same branch in flight. *)
Lemma settles_via hard g g' a m :
  moves n h i (HHeld a) g' -> stream_failure g' = stream_failure g ->
  (Reg_ok n (upd h i (HHeld a)) g' -> upd h i (HHeld a) i = HHeld a ->
   settles hard (upd h i (HHeld a)) i g' m) -> settles hard h i g m.
Proof.
  intros Hm Hf Hs. destruct (Hs Hm (upd_same _ _ _)) as (r & g2 & -> & He & Hv & Hw & Hf2 & Hm2).
  exists r, g2. do 4 (split; [done|]). split; [congruence|]. by eapply moves_again.
Qed.
End query_facts.

Section transitions.
Context `{InlineBytes} `{Payloads} {V : Type -> Type} `{CopyVecLaws V} (N : nat)
  {T : Type} `{PlaneSetLaws T}.
Context (n : Z) (Hn : 0 <= n <= 65534) (l : list Net.SocketAddr) (attempts : Z)
  (Hattempts : 1 <= attempts).

Abbreviation settles := (settles (V := V) (T := T) n l attempts).
Abbreviation att_ok := (att_ok (V := V) l attempts).

(** Replacing the request in flight by one on the same stream. *)
Lemma settles_change hard h i (g : Registry T) a a' m :
  ordinal n i -> Reg_ok n h g -> h i = HHeld a -> att_stream a' = att_stream a ->
  (Reg_ok n (upd h i (HHeld a')) g -> upd h i (HHeld a') i = HHeld a' ->
   settles hard (upd h i (HHeld a')) i g m) -> settles hard h i g m.
Proof.
  intros Hi Hok Hh Hs Hk. eapply settles_via; [|done|exact Hk].
  eapply (reg_held n h g i (HHeld a)); eauto.
Qed.

Lemma pending_change hard h i (g : Registry T) a a' slot :
  ordinal n i -> Reg_ok n h g -> h i = HHeld a -> att_stream a' = att_stream a ->
  entry slot = i -> att_ok hard a' -> settles hard h i g (Ok (row_pending slot a' g)).
Proof.
  intros Hi Hok Hh Hs He Ha. eapply settles_change; try done.
  intros. by apply row_pending_settles.
Qed.

Lemma stream_settles hard h i g a slot :
  ordinal n i -> Reg_ok n h g -> h i = HHeld a -> entry slot = i -> att_ok hard a ->
  settles hard h i g (attempt_stream a g slot).
Proof.
  intros Hi Hok Hh He [Hd Ha]. unfold attempt_stream, Request.start_stream.
  case_bool_decide as Hs; simpl; [by apply finish_settles|].
  assert (Hnone : att_stream a = None) by (apply eq_None_not_Some; exact Hs).
  destruct (reg_up n Hn (E := Empty_set) h g i a (Request.server (request a))
              (Request.with_stream (request a) (Some (Request.server (request a))))
              Hi Hok Hh Hnone eq_refl (deadline a)) as (l' & Hup & Hm).
  unfold Live.acquire. rewrite Hup. simpl.
  eapply settles_via; [exact Hm|done|]. intros Hok' Hh'. apply row_pending_settles; try done.
  split; [done|]. destruct Ha as (? & ? & ? & _ & ?). do 3 (split; [done|]). split; [|done].
  intros s Hst. simpl in Hst. by injection Hst as <-.
Qed.

Lemma cookie_settles hard h i g a slot :
  ordinal n i -> Reg_ok n h g -> h i = HHeld a -> entry slot = i -> att_ok hard a ->
  settles hard h i g (attempt_cookie a g slot).
Proof.
  intros Hi Hok Hh He Ha. unfold attempt_cookie, Request.retry_cookie.
  set (r := Request.request _ _ _ _ _ _ true).
  assert (Hr : att_ok hard (attempt r (deadline a))) by exact Ha.
  destruct (negb (Request.cookie_retry (request a))).
  - by eapply pending_change.
  - apply (settles_change hard h i g a (attempt r (deadline a))); try done.
    intros. by apply stream_settles.
Qed.

Lemma probe_next_spec p q :
  0 <= p < attempts -> Request.probe_next p attempts = Some q -> q = p + 1 /\ 0 <= q < attempts.
Proof.
  intros Hp. unfold Request.probe_next. destruct (Z.leb_spec (attempts - 1) p); [done|].
  intros [= <-]. lia.
Qed.

Lemma deadline_hard retry now hard : Retry.deadline retry now hard <= hard.
Proof. unfold Retry.deadline. destruct (checked_add _ _); lia. Qed.

Lemma retry_settles hard h i g a slot retry now error :
  ordinal n i -> Reg_ok n h g -> h i = HHeld a -> entry slot = i -> att_ok hard a ->
  Retry.attempts retry = attempts ->
  settles hard h i g (attempt_retry a retry hard now g error slot).
Proof.
  intros Hi Hok Hh He [Hd (Hp & Hhops & [k Hk] & Hst & Hname)] Hr. unfold attempt_retry.
  destruct (LookupError.is_terminal error); [by apply finish_settles|].
  destruct (hard <=? now); [by apply finish_settles|]. rewrite Hr.
  destruct (Request.probe_next (Request.attempt (request a)) attempts) as [q|] eqn:Hq;
    [|by apply finish_settles].
  apply probe_next_spec in Hq as [-> Hq]; [|done].
  unfold Request.retry. destruct (selects_next (E := Empty_set) l _ _ Hk) as (sel & -> & Hsel).
  pose proof (deadline_hard retry now hard) as Hdl.
  destruct (Request.r_stream (request a)) as [s|] eqn:Hs; simpl.
  - destruct (reg_transfer n Hn (E := Empty_set) h g i a s (Config.selected_index sel)
      (Request.request (Request.name (request a)) (Request.valid_until (request a))
         (Request.r_hops (request a)) (Request.attempt (request a) + 1) sel
         (Some (Config.selected_index sel)) false) Hi Hok Hh Hs eq_refl
      (Retry.deadline retry now hard)) as (l' & -> & Hm).
    simpl. eapply settles_via; [exact Hm|done|]. intros. apply row_pending_settles; try done.
    split; [done|]. repeat split; simpl; try lia; [by eexists| |done].
    intros s' Hs'. by injection Hs' as <-.
  - destruct g as [p lv t f].
    match goal with |- context [row_pending slot ?a' _] =>
      apply (pending_change hard h i _ a a' slot); try done end.
    split; [done|]. repeat split; simpl; try lia; [by eexists|done|done].
Qed.
End transitions.

Section apply.
Context `{InlineBytesLaws} `{Payloads} {V : Type -> Type} `{CopyVecLaws V} (N : nat)
  {T : Type} `{PlaneSetLaws T}.
Context (n : Z) (Hn : 0 <= n <= 65534) (l : list Net.SocketAddr) (attempts : Z)
  (Hattempts : 1 <= attempts).

Abbreviation settles := (settles (V := V) (T := T) n l attempts).
Abbreviation att_ok := (att_ok (V := V) l attempts).

Lemma decode_alias_not_stuck e ttl hops :
  reply_ok (V := V) (Answer.RAlias e ttl hops) ->
  not_stuck (decode_alias e) /\ forall m, decode_alias e = Ok m -> Host.parse m = Ok m.
Proof.
  intros (p & m & Hp & Hm & He). destruct (alias_decodes p m e Hp Hm He) as (parts & Hparts & Hns).
  unfold decode_alias. by rewrite Hparts.
Qed.

Lemma hops_spec (r : Request.Request V) k : 
  match Request.hops r k with
  | Ok total => total <= 16
  | Err _ => True
  | Stuck _ => False
  end.
Proof.
  unfold Request.hops, Answer.add. destruct (_ <? _) eqn:E; simpl; [done|].
  zbool. unfold Answer.MAX_ALIAS_HOPS in E. lia.
Qed.

Lemma try_expiry_not_stuck {E} (w : LookupError.Timing -> E) (r : Request.Request V) now ttl :
  not_stuck (Request.try_expiry w r now ttl).
Proof. unfold Request.try_expiry. by destruct (checked_add _ _). Qed.

Lemma apply_settles hard h i (g : Registry T) a slot reply retry now :
  ordinal n i -> Reg_ok n h g -> h i = HHeld a -> entry slot = i -> att_ok hard a ->
  Retry.attempts retry = attempts -> reply_ok reply ->
  settles hard h i g (attempt_apply N a reply retry hard now g slot).
Proof.
  intros Hi Hok Hh He Ha Hr Hrep.
  assert (Hfin : forall next, settles hard h i g (attempt_finish a g next slot))
    by (intros; by apply finish_settles).
  unfold attempt_apply. destruct reply as [values ttl hops|name ttl hops| | | | |code|actual|m].
  - pose proof (hops_spec (request a) hops). destruct (Request.hops _ _); [|apply Hfin|done]. simpl.
    pose proof (try_expiry_not_stuck id (request a) now ttl).
    destruct (Request.try_expiry _ _ _ _); [apply Hfin|apply Hfin|done].
  - destruct (decode_alias_not_stuck name ttl hops Hrep) as [Hns Hname].
    destruct (decode_alias name) as [host|e|]; [|apply Hfin|done]. simpl.
    pose proof (try_expiry_not_stuck id (request a) now ttl).
    destruct (Request.try_expiry _ _ _ _) as [until|e|]; [|apply Hfin|done]. simpl.
    unfold Request.try_alias. pose proof (hops_spec (request a) hops) as Hh16.
    destruct (Request.hops _ _) as [tot|e|]; simpl; [|apply Hfin|done].
    match goal with |- context [row_pending slot ?a' _] =>
      apply (pending_change n Hn l attempts hard h i g a a' slot); try done end.
    destruct Ha as [Hd (Hp & Hhops & Hk & Hst & _)].
    split; [apply deadline_hard|]. split; [simpl; unfold Request.ZERO; lia|].
    split; [done|]. split; [done|]. split; [exact Hst|]. by apply Hname.
  - apply Hfin.
  - by apply stream_settles.
  - apply Hfin.
  - by apply retry_settles.
  - by apply retry_settles.
  - apply Hfin.
  - apply Hfin.
Qed.
End apply.
