(* ===== verification/Ledger.v ===== *)
(** * The ledger of lookups.

    Model of [src/layer2/dns/src/storage/queries/ledger]: the slots that hold
    one lookup per lane, the claims on the pending set, the waiting requests a
    reply or a failure takes out, and the starts that turn a pending request
    into a transaction on the wire. Mutable borrows into the ledger are
    modelled by the ledger itself with the row written back. *)

From stdpp Require Import gmap.
From S2P Require Import Prelude Depot Random Time Errors Host Packet Response Frames Index Config Transactions Query.

(** ** Frames on streams *)

Module Stream.
Section frame.
Context `{Payloads} {B : Type}.

(** [Frame], src/layer2/dns/src/storage/queries/stream/mod.rs:43-46. *)
Record Frame := frame { output : B; f_id : Tx.Id }.
(** [Frame::prepare], src/layer2/dns/src/storage/queries/stream/mod.rs:56-59. *)
Definition prepare (self : Frame) : Frame * Lease.Commit := (self, Lease.commit_of (f_id self)).
(** [Frame::cancel], src/layer2/dns/src/storage/queries/stream/mod.rs:61-63. *)
Definition cancel (self : Frame) : Tx.Id := f_id self.
(** [Tcp::cancel], src/layer2/dns/src/storage/queries/tx/lease.rs:93-96. *)
Definition lease_cancel (self : Lease.Tcp) (returned : Frame) : Lease.Cancel :=
  Lease.cancel_of (cancel returned).

(** [Admission], src/layer2/dns/src/storage/queries/stream/mod.rs:21-27. *)
Inductive Admission :=
  | ACommitted (c : Lease.Commit)
  | Exhausted (f : Frame)
  | Saturated (f : Frame)
  | ARejected (f : Frame) (cause : load_Error)
  | Unavailable (f : Frame) (cause : exact_Failure).

(** [Submission], src/layer2/dns/src/storage/queries/stream/mod.rs:29-33. *)
Inductive Submission := Committed | Deferred | Rejected.

(** The identity an admission carries. Frames and commits are linear: only the
    submitted frame can be returned, and only it makes a commit. *)
Definition admission_id (a : Admission) : Tx.Id :=
  match a with
  | ACommitted c => Lease.commit_id c
  | Exhausted f | Saturated f | ARejected f _ | Unavailable f _ => f_id f
  end.
Definition linear (submit : Frame -> Admission) : Prop :=
  forall f, admission_id (submit f) = f_id f.
End frame.
Arguments Frame B : clear implicits.
Arguments Admission {_} B.
End Stream.

Module Ledger.
Import Net Registry Query LookupError.
Section ledger.
Context `{InlineBytes} `{Payloads} {V : Type -> Type} `{CopyVec V} (N : nat)
  {T : Type} `{PlaneSet T}.

Abbreviation Registry := (Registry T).
Abbreviation Query := (Query V).
Abbreviation Row := (Row V).

(** ** Slots *)

(** [Slot], src/layer2/dns/src/storage/queries/ledger/slot.rs:18-24. *)
Inductive Slot := Idle (entries : Z * Z) (completion : option (Ready V)) | Active (q : Query).

(** [Slot::entries], src/layer2/dns/src/storage/queries/ledger/slot.rs:43-48. *)
Definition slot_entries (self : Slot) : Z * Z :=
  match self with Idle entries _ => entries | Active q => query_entries q end.

(** [Slot::complete], src/layer2/dns/src/storage/queries/ledger/slot.rs:50-66. *)
Definition slot_complete (self : Slot) (now : Z) : Slot :=
  match self with
  | Idle _ _ => self
  | Active q =>
      match query_complete N q now with
      | None => self
      | Some result =>
          Idle (query_entries q) (Some (ready (q_reason q) (started_unix_ns q) now result))
      end
  end.

(** [for family in Version::ALL] over a state that may get stuck. *)
Definition for_families {A} (f : Family.Version -> A -> run Empty_set A) (a : A)
    : run Empty_set A :=
  let! a := f Family.Four a in f Family.Six a.

(** ** Waiting requests *)

(** [State], src/layer2/dns/src/storage/queries/ledger/waiting/state.rs:13-16.
    A claimed request with the row and the registry it borrows. *)
Record WaitState := wait_state {
  w_slot : Row; w_reg : Registry; w_probe : Attempt V; w_hard : Z }.

(** [State::apply], src/layer2/dns/src/storage/queries/ledger/waiting/state.rs:37-46. *)
Definition wait_apply (self : WaitState) (reply : Answer.Reply V) (retry : Retry.Retry) (now : Z)
    : run Empty_set (Row * Registry) :=
  attempt_apply N (w_probe self) reply retry (w_hard self) now (w_reg self) (w_slot self).
(** [State::deadline], src/layer2/dns/src/storage/queries/ledger/waiting/state.rs:48-50. *)
Definition wait_deadline (self : WaitState) : Z := deadline (w_probe self).
(** [State::failed], src/layer2/dns/src/storage/queries/ledger/waiting/state.rs:52-61. *)
Definition wait_failed (self : WaitState) (retry : Retry.Retry) (now : Z) (cause : Kind)
    : run Empty_set (Row * Registry) :=
  attempt_retry (w_probe self) retry (w_hard self) now (w_reg self) cause (w_slot self).
(** [State::stream], src/layer2/dns/src/storage/queries/ledger/waiting/state.rs:63-66. *)
Definition wait_stream (self : WaitState) : run Empty_set (Row * Registry) :=
  attempt_stream (w_probe self) (w_reg self) (w_slot self).
(** [State::cache], src/layer2/dns/src/storage/queries/ledger/waiting/state.rs:68-80. *)
Definition wait_cache (self : WaitState) (c : CookieCache.Cookie) (server : Server)
    (value : Cookies.Server) : bool * WaitState :=
  let '(kept, t) := Table.cache (ids (w_reg self)) c server value in
  (kept, wait_state (w_slot self) (with_ids (w_reg self) t) (w_probe self) (w_hard self)).
(** [State::cookie], src/layer2/dns/src/storage/queries/ledger/waiting/state.rs:82-85. *)
Definition wait_cookie (self : WaitState) : run Empty_set (Row * Registry) :=
  attempt_cookie (w_probe self) (w_reg self) (w_slot self).
(** [Active::return_item], src/layer2/dns/src/storage/queries/ledger/waiting/state.rs:95-97.
    Dropping the state. *)
Definition wait_drop (self : WaitState) : run Empty_set (Row * Registry) :=
  Ok (row_pending (w_slot self) (w_probe self) (w_reg self)).

(** ** Polling a slot *)

(** The first loop of [Slot::poll], src/layer2/dns/src/storage/queries/ledger/slot.rs:69-127. *)
Definition fail_stream (cause : Kind) (family : Family.Version) (s : Query * Registry)
    : run Empty_set (Query * Registry) :=
  let '(q, reg) := s in
  let r := branch q family in
  if is_stream (value r) then
    let! (r, reg) := retire reg r in
    Ok (with_branch q family (with_value r (Failed cause)), reg)
  else Ok (q, reg).

(** The second loop of [Slot::poll], src/layer2/dns/src/storage/queries/ledger/slot.rs:69-127. *)
Definition expire (retry : Retry.Retry) (now : Z) (family : Family.Version) (s : Query * Registry)
    : run Empty_set (Query * Registry) :=
  let '(q, reg) := s in
  let hard := hard_deadline q in
  let slot := branch q family in
  let due := match branch_deadline (value slot) with Some d => d <=? now | None => false end in
  if negb due then Ok (q, reg)
  else
    let previous := value slot in
    let slot := with_value slot Empty in
    match previous with
    | Waiting probe lease =>
        let! t := Table.release (ids reg) lease in
        let! (slot, reg) := wait_failed (wait_state slot (with_ids reg t) probe hard) retry now
                              KTimeout in
        Ok (with_branch q family slot, reg)
    | Pending probe =>
        let reg := unregister slot (request probe) reg in
        let! (slot, reg) := attempt_retry probe retry hard now reg KTimeout slot in
        Ok (with_branch q family slot, reg)
    | previous => Ok (with_branch q family (with_value slot previous), reg)
    end.

(** [Slot::poll], src/layer2/dns/src/storage/queries/ledger/slot.rs:69-127. *)
Definition slot_poll (self : Slot) (now : Z) (retry : Retry.Retry) (reg : Registry)
    : run Empty_set (Poll V * Slot * Registry) :=
  let! (self, reg) :=
    match self with
    | Active q =>
        let! (q, reg) :=
          match stream_failure reg with
          | Some cause => for_families (fail_stream cause) (q, reg)
          | None => Ok (q, reg)
          end in
        let! (q, reg) := for_families (expire retry now) (q, reg) in
        Ok (slot_complete (Active q) now, reg)
    | Idle _ _ => Ok (self, reg)
    end in
  match self with
  | Active q => Ok (PollPending (query_deadline q), self, reg)
  | Idle entries (Some done_) => Ok (PollComplete done_, Idle entries None, reg)
  | Idle entries None => Ok (PollIdle, self, reg)
  end.

(** [Slot::is_ready], src/layer2/dns/src/storage/queries/ledger/slot.rs:129-136. *)
Definition slot_is_ready (self : Slot) (stopped : bool) : bool :=
  match self with
  | Idle _ completion => bool_decide (is_Some completion)
  | Active q => stopped && query_has_stream q
  end.

(** One row of [Slot::retire], src/layer2/dns/src/storage/queries/ledger/slot.rs:147-157. *)
Definition retire_family (family : Family.Version) (s : Query * Registry)
    : run Empty_set (Query * Registry) :=
  let '(q, reg) := s in
  let! (r, reg) := retire reg (branch q family) in
  Ok (with_branch q family r, reg).

(** [Slot::retire], src/layer2/dns/src/storage/queries/ledger/slot.rs:147-157. *)
Definition slot_retire (self : Slot) (reg : Registry) : run Empty_set (Slot * Registry) :=
  let! (self, reg) :=
    match self with
    | Active q =>
        let! (q, reg) := for_families retire_family (q, reg) in Ok (Active q, reg)
    | Idle _ _ => Ok (self, reg)
    end in
  Ok (Idle (slot_entries self) None, reg).

(** [Slot::start], src/layer2/dns/src/storage/queries/ledger/slot.rs:138-145. *)
Definition slot_start (self : Slot) (s : Seed V) (reg : Registry) : run Empty_set (Slot * Registry) :=
  let! (self, reg) := slot_retire self reg in
  let '(q, reg) := into_query s (slot_entries self) reg in
  Ok (Active q, reg).

(** ** The ledger *)

(** [Ledger], src/layer2/dns/src/storage/queries/ledger/mod.rs:69-72. *)
Record Ledger := ledger { slots : list Slot; reg : Registry }.

Definition with_reg (self : Ledger) (r : Registry) : Ledger := ledger (slots self) r.
Definition put_slot (self : Ledger) (lane : Lane) (s : Slot) : Ledger :=
  ledger (<[Z.to_nat lane := s]> (slots self)) (reg self).
Definition slot_at (self : Ledger) (lane : Lane) : option Slot := slots self !! Z.to_nat lane.

(** The end of a borrow of a row and the registry. *)
Definition write_back (self : Ledger) (lane : Lane) (family : Family.Version)
    (s : Row * Registry) : Ledger :=
  match slot_at self lane with
  | Some (Active q) =>
      put_slot (with_reg self s.2) lane (Active (with_branch q family s.1))
  | _ => with_reg self s.2
  end.

(** [Ledger::write], src/layer2/dns/src/storage/queries/ledger/mod.rs:212-219, and
    [Ledger::read]: [get_unchecked] is undefined beyond the slots. *)
Definition ledger_write (self : Ledger) (lane : Lane) : run Empty_set (Slot * Registry) :=
  match slot_at self lane with
  | Some s => Ok (s, reg self)
  | None => Stuck Undefined
  end.

(** [Ledger::complete], src/layer2/dns/src/storage/queries/ledger/mod.rs:197-201. *)
Definition complete (self : Ledger) (lane : Lane) (now : Z) : Ledger :=
  match slot_at self lane with
  | Some s => put_slot self lane (slot_complete s now)
  | None => self
  end.

(** [Ledger::retire_lane], src/layer2/dns/src/storage/queries/ledger/mod.rs:221-224. *)
Definition retire_lane (self : Ledger) (lane : Lane) : run Empty_set Ledger :=
  let! (slot, r) := ledger_write self lane in
  let! (slot, r) := slot_retire slot r in
  Ok (put_slot (with_reg self r) lane slot).

(** [Ledger::start], src/layer2/dns/src/storage/queries/ledger/mod.rs:226-229. *)
Definition start (self : Ledger) (lane : Lane) (s : Seed V) : run Empty_set Ledger :=
  let! (slot, r) := ledger_write self lane in
  let! (slot, r) := slot_start slot s r in
  Ok (put_slot (with_reg self r) lane slot).

(** [Filter], src/layer2/dns/src/storage/queries/ledger/mod.rs:30-42. *)
Inductive Filter :=
  | FId (id : Tx.Id)
  | FDatagram (id : Tx.Id) (epoch : Epoch.Epoch) (server : Net.SocketAddr)
  | FLive (id : Tx.Id) (now : Z)
  | FStream (server : Server).

(** [Filter::matches], src/layer2/dns/src/storage/queries/ledger/mod.rs:45-66. *)
Definition matches (self : Filter) (probe : Attempt V) (lease : Lease.Lease) : bool :=
  match self with
  | FId want => Lease.id lease =? want
  | FDatagram id epoch server =>
      match lease with
      | Lease.LUdp u =>
          (Lease.removed u =? id) && (Lease.u_epoch u =? epoch)
          && bool_decide (Request.stream (request probe) = None)
          && bool_decide (Request.address (request probe) = server)
      | Lease.LTcp _ => false
      end
  | FLive want now => (Lease.id lease =? want) && (now <? deadline probe)
  | FStream server => bool_decide (Request.stream (request probe) = Some server)
  end.

(** [Ledger::accept], src/layer2/dns/src/storage/queries/ledger/mod.rs:151-184. The
    ledger is the one the waiting state borrows; [decode] only reads. *)
Definition accept {A} (self : Ledger) (lane : Lane) (family : Family.Version) (filter : Filter)
    (decode : Request.Request V -> Lease.Lease -> run Empty_set (option A))
    : run Empty_set (option (WaitState * A)) :=
  match slot_at self lane with
  | Some (Active q) =>
      let hard := hard_deadline q in
      let slot := branch q family in
      match value slot with
      | Waiting probe lease =>
          if negb (matches filter probe lease) then Ok None
          else
            let! decoded := decode (request probe) lease in
            match decoded with
            | None => Ok None
            | Some decoded =>
                let! t := Table.release (ids (reg self)) lease in
                Ok (Some (wait_state (with_value slot Empty) (with_ids (reg self) t) probe hard,
                          decoded))
            end
      | _ => Ok None
      end
  | _ => Ok None
  end.

(** [Ledger::claim], src/layer2/dns/src/storage/queries/ledger/mod.rs:141-149. *)
Definition claim (self : Ledger) (lane : Lane) (family : Family.Version) (filter : Filter)
    : run Empty_set (option WaitState) :=
  let! o := accept self lane family filter (fun _ _ => Ok (Some tt)) in
  Ok (option_map fst o).

(** [Ledger::rollback], src/layer2/dns/src/storage/queries/ledger/mod.rs:186-195. *)
Definition rollback (self : Ledger) (lane : Lane) (family : Family.Version) (id : Tx.Id)
    : run Empty_set Ledger :=
  let! o := claim self lane family (FId id) in
  match o with
  | Some wait => let! s := wait_drop wait in Ok (write_back self lane family s)
  | None => Ok self
  end.
End ledger.
End Ledger.

(** ** Starting a pending request *)

Module Starts.
Import Registry Query LookupError Ledger.
Section starts.
Context `{InlineBytes} `{Payloads} {V : Type -> Type} `{CopyVec V} {N : nat}
  {T : Type} `{PlaneSet T} {B : Type} `{Fill B}.

Abbreviation Ledger := (Ledger (V := V) (T := T)).

(** [Submission], src/layer2/dns/src/storage/queries/mod.rs:47-51. *)
Inductive Submission := Committed | Deferred | FailedBy (cause : Kind).

(** [Finish], src/layer2/dns/src/storage/queries/mod.rs:54-57. *)
Inductive Finish (A : Type) := FDone (a : A) | FComplete (a : A) (lane : Lane).
Arguments FDone {A} a.
Arguments FComplete {A} a lane.

(** [Finish::apply], src/layer2/dns/src/storage/queries/mod.rs:60-72. *)
Definition finish_apply {A} (self : Finish A) (inner : Ledger) (now : Z) : A * Ledger :=
  match self with
  | FDone value => (value, inner)
  | FComplete value lane => (value, complete N inner lane now)
  end.

(** [Claim], src/layer2/dns/src/storage/queries/ledger/mod.rs:294-296. The index
    taken out of the pending set and the plane it came from. *)
Record Claim := claim_of { c_index : Z; c_plane : nat }.

(** [Pending::claim_udp], src/layer2/dns/src/storage/queries/ledger/mod.rs:258-263, and
    [Pending::claim_stream]: the first pending index of a plane. *)
Definition claim_plane (reg : Registry T) (plane : nat) : option (Claim * Registry T) :=
  match ps_take_front (pending reg) plane with
  | Some (i, p) => Some (claim_of i plane, with_pending reg p)
  | None => None
  end.

(** [Restore::return_item], src/layer2/dns/src/storage/queries/ledger/mod.rs:315-317.
    Dropping a claim puts the index back; [Claim::commit] leaves it out. *)
Definition claim_drop (c : Claim) (self : Ledger) : Ledger :=
  with_reg self (with_pending (reg self) (ps_set (pending (reg self)) (c_plane c) (c_index c))).

(** [Ready], src/layer2/dns/src/storage/queries/ledger/starts.rs:33-41. *)
Record ReadyStart := ready_start {
  rs_claim : Claim; rs_lane : Lane; rs_family : Family.Version; rs_probe : Attempt V }.

(** [slot.value = value] through the row a start borrows. *)
Definition set_row (self : Ledger) (lane : Lane) (family : Family.Version) (v : Branch V) : Ledger :=
  match slot_at self lane with
  | Some (Active q) =>
      put_slot self lane (Active (with_branch q family (with_value (branch q family) v)))
  | _ => self
  end.

(** [Candidate::take], src/layer2/dns/src/storage/queries/ledger/starts.rs:189-225.
    A stale claim is committed, one past its deadline is dropped. *)
Definition take (self : Ledger) (c : Claim) (now : Z) : option ReadyStart * Ledger :=
  let b := Branch.from_ordinal (c_index c) in
  let family := Branch.family b in
  let lane := Branch.lane b in
  match slot_at self lane with
  | Some (Active q) =>
      match value (branch q family) with
      | Pending probe =>
          if deadline probe <=? now then (None, claim_drop c self)
          else (Some (ready_start c lane family probe), set_row self lane family Empty)
      | _ => (None, self)
      end
  | _ => (None, self)
  end.

(** [Ready::commit], src/layer2/dns/src/storage/queries/ledger/starts.rs:229-238. *)
Definition ready_commit (r : ReadyStart) (lease : Lease.Lease) (self : Ledger) : Ledger :=
  set_row self (rs_lane r) (rs_family r) (Waiting (rs_probe r) lease).

(** [Ready::fail], src/layer2/dns/src/storage/queries/ledger/starts.rs:240-253. *)
Definition ready_fail (r : ReadyStart) (cause : Kind) (self : Ledger)
    : run Empty_set (Lane * Ledger) :=
  let! g := attempt_release (rs_probe r) (reg self) in
  Ok (rs_lane r, set_row (with_reg self g) (rs_lane r) (rs_family r) (Failed cause)).

Definition with_table (self : Ledger) (t : Table.Table T) : Ledger :=
  with_reg self (with_ids (reg self) t).

(** [Ready::reject], src/layer2/dns/src/storage/queries/ledger/starts.rs:255-258. *)
Definition ready_reject (r : ReadyStart) (c : Lease.Cancel) (cause : Kind) (self : Ledger)
    : run Empty_set (Lane * Ledger) :=
  let! t := Table.cancel (ids (reg self)) c in
  ready_fail r cause (with_table self t).

(** [Ready::defer], src/layer2/dns/src/storage/queries/ledger/starts.rs:260-266. The
    claim is dropped at the end. *)
Definition ready_defer (r : ReadyStart) (c : Lease.Cancel) (self : Ledger) : run Empty_set Ledger :=
  let! t := Table.cancel (ids (reg self)) c in
  Ok (claim_drop (rs_claim r)
        (set_row (with_table self t) (rs_lane r) (rs_family r) (Pending (rs_probe r)))).

(** [Ready::rollback], src/layer2/dns/src/storage/queries/ledger/starts.rs:268-274. *)
Definition ready_rollback (r : ReadyStart) (lease : Lease.Udp) (self : Ledger)
    : run Empty_set Ledger :=
  let! t := Table.release (ids (reg self)) (Lease.LUdp lease) in
  Ok (claim_drop (rs_claim r)
        (set_row (with_table self t) (rs_lane r) (rs_family r) (Pending (rs_probe r)))).

(** [Udp::start], src/layer2/dns/src/storage/queries/ledger/starts.rs:56-102. *)
Definition udp_start (self : Ledger) (c : Claim) (now : Z) (random : Entropy.Datagram)
    (submit : Frames.Datagram B -> Server -> Submission)
    : run Empty_set (Finish Submission * Ledger) :=
  let '(o, self) := take self c now in
  match o with
  | None => Ok (FDone Deferred, self)
  | Some rdy =>
      let owner := Branch.new (rs_lane rdy) (rs_family rdy) in
      let req := request (rs_probe rdy) in
      let server := Request.server req in
      let name := Request.name req in
      let! (r, t) := Table.try_udp (ids (reg self)) owner server random in
      let self := with_table self t in
      match r with
      | inr cause =>
          let! (lane, self) := ready_fail rdy (KIdentity cause) self in
          Ok (FComplete Deferred lane, self)
      | inl lease =>
          let client := Lease.client lease in
          let cookie := Table.active_cookie (ids (reg self)) server in
          let id := Lease.removed lease in
          let! datagram := Frames.udp (Frames.builder id name (rs_family rdy))
                             (Lease.u_epoch lease) client cookie in
          let status := submit datagram server in
          match status with
          | Committed => Ok (FDone status, ready_commit rdy (Lease.LUdp lease) self)
          | Deferred =>
              let! self := ready_rollback rdy lease self in Ok (FDone status, self)
          | FailedBy cause =>
              let! t := Table.release (ids (reg self)) (Lease.LUdp lease) in
              let! (lane, self) := ready_fail rdy cause (with_table self t) in
              Ok (FComplete status lane, self)
          end
      end
  end.

(** [Tcp::submit], src/layer2/dns/src/storage/queries/ledger/starts.rs:120-169. *)
Definition tcp_submit (self : Ledger) (c : Claim) (now : Z) (id : Tx.Id)
    (submit : Stream.Frame B -> Stream.Admission B)
    : run Empty_set (Finish Stream.Submission * Ledger) :=
  let '(o, self) := take self c now in
  match o with
  | None => Ok (FDone Stream.Deferred, self)
  | Some rdy =>
      let owner := Branch.new (rs_lane rdy) (rs_family rdy) in
      cases (Table.try_tcp (ids (reg self)) owner id)
        (fun '(lease, t) =>
          let self := with_table self t in
          let req := request (rs_probe rdy) in
          let! value := Frames.tcp (Frames.builder id (Request.name req) (rs_family rdy)) in
          match submit (Stream.frame value id) with
          | Stream.ACommitted commit =>
              Ok (FDone Stream.Committed, ready_commit rdy (Lease.commit lease commit) self)
          | Stream.Exhausted frame | Stream.Saturated frame =>
              let! self := ready_defer rdy (Stream.lease_cancel lease frame) self in
              Ok (FDone Stream.Deferred, self)
          | Stream.ARejected load cause =>
              let! (lane, self) :=
                ready_reject rdy (Stream.lease_cancel lease load) (KEgress cause) self in
              Ok (FComplete Stream.Rejected lane, self)
          | Stream.Unavailable load cause =>
              let! (lane, self) :=
                ready_reject rdy (Stream.lease_cancel lease load)
                  (KClose (Transport.Egress cause)) self in
              Ok (FComplete Stream.Rejected lane, self)
          end)
        (fun cause =>
          let! (lane, self) := ready_fail rdy (KIdentity cause) self in
          Ok (FComplete Stream.Deferred lane, self))
  end.

(** [Ledger::start_udp], src/layer2/dns/src/storage/queries/ledger/mod.rs:104-116, and
    [Ledger::start_tcp]: the claim, with the ledger it borrows. *)
Definition start_plane (self : Ledger) (plane : nat) : option (Claim * Ledger) :=
  match claim_plane (reg self) plane with
  | Some (c, g) => Some (c, with_reg self g)
  | None => None
  end.
End starts.
Arguments Submission {_ _}.
Arguments FDone {A} a.
Arguments FComplete {A} a lane.
End Starts.
