(* ===== verification/LedgerFacts.v ===== *)
(** * The ledger keeps the registry in step.

    [Ledger_ok]: every slot is well formed and the registry accounts for every
    request ([Reg_ok] over the holds of all branches). Each operation on a slot
    or through a claim ends without panicking and keeps the invariant. *)

From stdpp Require Import gmap.
From S2P Require Import Prelude Depot Random Time Errors Host Packet PacketFacts Response ResponseFacts Frames Index Config Transactions Query RegistryFacts QueryFacts Ledger.

Import Registry Query Ledger.
#[local] Existing Instance Family.version_eq_dec.

(** The ordinal of a branch. *)
Definition ord (lane : Lane) (f : Family.Version) : Z := 2 * lane + Branch.bit f.

Lemma ord_split i : 0 <= i < 65535 ->
  ord (Branch.lane (Branch.from_ordinal i)) (Branch.family (Branch.from_ordinal i)) = i.
Proof.
  intros Hi. unfold ord. destruct (branch_split i Hi) as (_ & -> & ->).
  pose proof (Z.div_mod i 2 ltac:(lia)). lia.
Qed.

Lemma from_ordinal_ord lane f : 0 <= lane < MAX_LANES -> Branch.from_ordinal (ord lane f) = Branch.new lane f.
Proof.
  intros Hl. rewrite branch_new_raw by done. unfold Branch.from_ordinal, ord.
  unfold MAX_LANES in Hl. destruct f; simpl; lia.
Qed.

Lemma ord_inj lane f lane' f' : ord lane f = ord lane' f' -> lane = lane' /\ f = f'.
Proof. unfold ord. destruct f, f'; simpl; intros; split; (done || lia). Qed.

Section ledger_facts.
Context `{InlineBytesLaws} `{Payloads} {V : Type -> Type} `{CopyVecLaws V} (N : nat)
  {T : Type} `{PlaneSetLaws T}.
Context (LANES : Z) (HL : 0 <= LANES <= MAX_LANES) (l : list Net.SocketAddr) (attempts : Z)
  (Hattempts : 1 <= attempts).

Abbreviation n := (2 * LANES).
Abbreviation Ledger := (Ledger (V := V) (T := T)).
Abbreviation Slot := (Slot (V := V)).
Abbreviation settles := (settles (V := V) (T := T) n l attempts).

Lemma branches_bound : 0 <= n <= 65534.
Proof. unfold MAX_LANES in HL. lia. Qed.

Definition slot_hold (s : Slot) (f : Family.Version) : Hold V :=
  match s with Active q => hold_of (value (branch q f)) | Idle _ _ => HNone end.

(** Where the request of each branch is. *)
Definition view (L : Ledger) (i : Z) : Hold V :=
  match slot_at L (Branch.lane (Branch.from_ordinal i)) with
  | Some s => slot_hold s (Branch.family (Branch.from_ordinal i))
  | None => HNone
  end.

Definition query_ok (lane : Lane) (q : Query.Query V) : Prop :=
  forall f, entry (branch q f) = ord lane f
    /\ val_ok l attempts (hard_deadline q) (value (branch q f)).
Definition slot_ok (lane : Lane) (s : Slot) : Prop :=
  match s with
  | Idle entries _ => entries = (ord lane Family.Four, ord lane Family.Six)
  | Active q => query_ok lane q
  end.

Record Ledger_ok (L : Ledger) : Prop := {
  l_length : Z.of_nat (length (slots L)) = LANES;
  l_slots : forall lane s, 0 <= lane -> slot_at L lane = Some s -> slot_ok lane s;
  l_reg : Reg_ok n (view L) (reg L);
}.

Lemma slot_lane (L : Ledger) lane s : Ledger_ok L -> 0 <= lane -> slot_at L lane = Some s -> lane < LANES.
Proof.
  intros [Hlen _ _] Hl Hs. unfold slot_at in Hs. apply lookup_lt_Some in Hs. lia.
Qed.

Lemma slot_exists (L : Ledger) lane : Ledger_ok L -> 0 <= lane < LANES -> exists s, slot_at L lane = Some s.
Proof.
  intros [Hlen _ _] Hl. unfold slot_at. apply lookup_lt_is_Some_2. lia.
Qed.

Lemma slot_at_put (L : Ledger) lane lane' s : 0 <= lane -> 0 <= lane' -> slot_at L lane <> None ->
  slot_at (put_slot L lane s) lane' = if decide (lane' = lane) then Some s else slot_at L lane'.
Proof.
  intros Hl Hl' Hs. unfold slot_at, put_slot in *; simpl. case_decide as He.
  - subst lane'. apply list_lookup_insert_eq, lookup_lt_is_Some_1. by apply not_eq_None_Some.
  - apply list_lookup_insert_ne. lia.
Qed.

Lemma lane_nonneg i : ordinal n i -> 0 <= Branch.lane (Branch.from_ordinal i) < LANES.
Proof.
  unfold ordinal. pose proof branches_bound. intros Hi.
  destruct (branch_split i) as (_ & -> & _); [lia|].
  split; [apply Z.div_pos; lia|]. apply Z.div_lt_upper_bound; lia.
Qed.

Lemma ord_ordinal lane f : 0 <= lane < LANES -> ordinal n (ord lane f).
Proof. unfold ordinal, ord. destruct f; simpl; lia. Qed.

Lemma view_ord (L : Ledger) lane f : 0 <= lane < LANES ->
  view L (ord lane f) = match slot_at L lane with Some s => slot_hold s f | None => HNone end.
Proof.
  intros Hl. unfold view. unfold MAX_LANES in HL.
  rewrite from_ordinal_ord by (unfold MAX_LANES; lia).
  by rewrite branch_lane, branch_family by (unfold MAX_LANES; lia).
Qed.

(** Two holds maps that agree outside a lane, and on its two branches. *)
Lemma view_put (L : Ledger) lane s i : 0 <= lane < LANES -> slot_at L lane <> None -> ordinal n i ->
  view (put_slot L lane s) i
  = if decide (Branch.lane (Branch.from_ordinal i) = lane)
    then slot_hold s (Branch.family (Branch.from_ordinal i)) else view L i.
Proof.
  intros Hl Hs Hi. pose proof (lane_nonneg i Hi). unfold view.
  rewrite slot_at_put by (done || lia). repeat case_decide; done.
Qed.

Lemma view_reg (L : Ledger) g i : view (with_reg L g) i = view L i.
Proof. done. Qed.

Lemma branch_with (q : Query.Query V) f r f' :
  branch (with_branch q f r) f' = if decide (f' = f) then r else branch q f'.
Proof. destruct f, f'; done. Qed.
Lemma hard_with (q : Query.Query V) f r : hard_deadline (with_branch q f r) = hard_deadline q.
Proof. by destruct f. Qed.

(** The ledger while one lane's query is being worked on. *)
Definition Mid (L : Ledger) (lane : Lane) (q : Query.Query V) (g : Registry T) : Prop :=
  Reg_ok n (view (put_slot L lane (Active q))) g /\ query_ok lane q.

Section lane.
Context (L : Ledger) (lane : Lane) (Hlane : 0 <= lane < LANES) (Hslot : slot_at L lane <> None).

Lemma put_reg_ext s s' g : (forall f, slot_hold s f = slot_hold s' f) ->
  Reg_ok n (view (put_slot L lane s)) g -> Reg_ok n (view (put_slot L lane s')) g.
Proof.
  intros He. apply Reg_ext. intros i Hi. rewrite !view_put by done. by case_decide.
Qed.

(** Writing a row back is moving its branch. *)
Lemma mid_write q f r g :
  query_ok lane q -> entry r = ord lane f -> val_ok l attempts (hard_deadline q) (value r) ->
  moves n (view (put_slot L lane (Active q))) (ord lane f) (hold_of (value r)) g ->
  Mid L lane (with_branch q f r) g.
Proof.
  intros Hq He Hv Hm. split.
  - revert Hm. apply Reg_ext. intros i Hi. unfold upd. rewrite !view_put by done.
    pose proof branches_bound as Hb. unfold ordinal in Hi. pose proof (ord_split i ltac:(lia)) as Ho.
    case_decide as Hio.
    + assert (Hs : ord (Branch.lane (Branch.from_ordinal i)) (Branch.family (Branch.from_ordinal i))
                   = ord lane f) by congruence.
      apply ord_inj in Hs as [-> ->]. rewrite decide_True by done. simpl.
      by rewrite branch_with, decide_True.
    + case_decide as Hl'; [|done]. simpl. rewrite branch_with. case_decide as Hf'; [|done].
      destruct Hio. by rewrite <- Ho, Hl', Hf'.
  - intros f'. rewrite branch_with, hard_with. case_decide; [by subst|]. apply Hq.
Qed.

Lemma mid_settles q g f m : Mid L lane q g -> 
  settles (hard_deadline q) (view (put_slot L lane (Active q))) (ord lane f) g m ->
  exists r g', m = Ok (r, g') /\ Mid L lane (with_branch q f r) g'
    /\ stream_failure g' = stream_failure g /\ forall a x, value r <> Waiting a x.
Proof.
  intros [_ Hq] (r & g' & -> & He & Hv & Hw & Hf & Hm). exists r, g'. split; [done|].
  split; [|done]. by apply mid_write.
Qed.

Lemma mid_hold q g f : Mid L lane q g ->
  view (put_slot L lane (Active q)) (ord lane f) = hold_of (value (branch q f)).
Proof. intros _. rewrite view_ord by done. rewrite slot_at_put, decide_True by (done || lia). done. Qed.
End lane.

(** ** Single rows *)

(** Retiring a row always succeeds and frees everything it held. *)
Lemma retire_spec (h : Z -> Hold V) i (g : Registry T) r : ordinal n i -> Reg_ok n h g -> entry r = i ->
  h i = hold_of (value r) ->
  exists g', retire g r = Ok (with_value r Empty, g') /\ stream_failure g' = stream_failure g
    /\ moves n h i HNone g'.
Proof.
  intros Hi Hok He Hh. pose proof branches_bound as Hb. unfold retire.
  destruct (value r) as [a|a x|v u| |k] eqn:Hv; simpl in Hh.
  - assert (Hm : moves n h i (HHeld a) (unregister (with_value r Empty) (request a) g)).
    { unfold unregister. simpl. rewrite He. apply (reg_unqueue n Hb h g i a); try done.
      intros q j. by rewrite ps_mem_clear. }
    destruct (reg_release n _ _ i a Hi Hm (upd_same _ _ _)) as (g' & -> & Hf & Hm').
    simpl. exists g'. split; [done|]. split; [done|]. by eapply moves_again.
  - destruct (reg_unlease n Hb h g i a x Hi Hok Hh) as (t & Ht & Hm).
    destruct (reg_release n _ _ i a Hi Hm (upd_same _ _ _)) as (g' & Hr & Hf & Hm').
    unfold attempt_release in *. destruct (Request.release (request a) (live g)) as [lv|[]|w] eqn:E;
      simpl in Hr; rewrite E in Hr; simpl in Hr; try done.
    injection Hr as <-. simpl. rewrite Ht. simpl. eexists. split; [done|]. split; [done|].
    by eapply moves_again.
  - exists g. split; [done|]. split; [done|]. by apply moves_self.
  - exists g. split; [done|]. split; [done|]. by apply moves_self.
  - exists g. split; [done|]. split; [done|]. by apply moves_self.
Qed.

(** ** Slots *)

Section slots.
Context (L : Ledger) (lane : Lane) (Hlane : 0 <= lane < LANES) (Hslot : slot_at L lane <> None).

Lemma mid_retire q g f v : Mid L lane q g -> hold_of v = HNone -> val_ok l attempts (hard_deadline q) v ->
  exists g', retire g (branch q f) = Ok (with_value (branch q f) Empty, g')
    /\ stream_failure g' = stream_failure g
    /\ Mid L lane (with_branch q f (with_value (branch q f) v)) g'.
Proof.
  intros Hmid Hv Hok. pose proof Hmid as [Hreg Hq]. destruct (Hq f) as [He Hval].
  destruct (retire_spec _ (ord lane f) g (branch q f) (ord_ordinal lane f Hlane) Hreg He
              (mid_hold L lane Hlane Hslot q g f Hmid)) as (g' & -> & Hf & Hm).
  exists g'. split; [done|]. split; [done|]. apply mid_write; try done. simpl. by rewrite Hv.
Qed.

Lemma fail_stream_mid cause f q g : Mid L lane q g ->
  exists q' g', fail_stream cause f (q, g) = Ok (q', g') /\ Mid L lane q' g'
    /\ hard_deadline q' = hard_deadline q /\ stream_failure g' = stream_failure g.
Proof.
  intros Hmid. unfold fail_stream. destruct (is_stream (value (branch q f))).
  - destruct (mid_retire q g f (Failed cause) Hmid eq_refl I) as (g' & -> & Hf & Hm). simpl.
    do 2 eexists. split; [done|]. split; [exact Hm|]. by rewrite hard_with.
  - by exists q, g.
Qed.

(** A row past its deadline goes through a timeout. *)
Lemma expire_mid retry now f q g : Retry.attempts retry = attempts -> Mid L lane q g ->
  exists q' g', expire retry now f (q, g) = Ok (q', g') /\ Mid L lane q' g'
    /\ hard_deadline q' = hard_deadline q /\ stream_failure g' = stream_failure g.
Proof.
  intros Hr Hmid. pose proof branches_bound as Hb. unfold expire.
  pose proof Hmid as [Hreg Hq]. destruct (Hq f) as [He Hval].
  pose proof (mid_hold L lane Hlane Hslot q g f Hmid) as Hh.
  pose proof (ord_ordinal lane f Hlane) as Hi.
  destruct (negb _); [by exists q, g|].
  set (h := view (put_slot L lane (Active q))) in *.
  assert (Hsame : with_branch q f (with_value (with_value (branch q f) Empty) (value (branch q f))) = q).
  { destruct q as [? ? ? ? [] []], f; done. }
  destruct (value (branch q f)) as [a|a x|v u| |k] eqn:Hv; simpl in Hh, Hval;
    try (exists q, g; split; [by rewrite Hsame|done]).
  - assert (Hm : moves n h (ord lane f) (HHeld a)
        (unregister (with_value (branch q f) Empty) (request a) g)).
    { unfold unregister. simpl. rewrite He. apply (reg_unqueue n Hb h g (ord lane f) a); try done.
      intros p j. by rewrite ps_mem_clear. }
    edestruct (mid_settles L lane Hlane Hslot q g f) as (r & g' & -> & Hm' & Hf & _); [done| |].
    { eapply settles_via; [exact Hm|done|]. intros Hok Hhh.
      apply (retry_settles n Hb l attempts (hard_deadline q) _ (ord lane f) _ a _ retry now); try done. }
    simpl. do 2 eexists. split; [done|]. by rewrite hard_with.
  - destruct (reg_unlease n Hb h g _ a x Hi Hreg Hh) as (t & -> & Hm). simpl.
    edestruct (mid_settles L lane Hlane Hslot q g f) as (r & g' & Hw & Hm' & Hf & _); [done| |].
    { eapply settles_via; [exact Hm|done|]. intros Hok Hhh.
      apply (retry_settles n Hb l attempts (hard_deadline q) _ (ord lane f) _ a
               (with_value (branch q f) Empty) retry now LookupError.KTimeout); try done. }
    unfold wait_failed; simpl. rewrite Hw. simpl. do 2 eexists. split; [done|]. by rewrite hard_with.
Qed.

Lemma for_families_mid (step : Family.Version -> Query.Query V * Registry T
    -> run Empty_set (Query.Query V * Registry T)) :
  (forall f q g, Mid L lane q g -> exists q' g', step f (q, g) = Ok (q', g') /\ Mid L lane q' g'
     /\ hard_deadline q' = hard_deadline q /\ stream_failure g' = stream_failure g) ->
  forall q g, Mid L lane q g -> exists q' g', for_families step (q, g) = Ok (q', g')
    /\ Mid L lane q' g' /\ hard_deadline q' = hard_deadline q
    /\ stream_failure g' = stream_failure g.
Proof.
  intros Hs q g Hm. unfold for_families.
  destruct (Hs Family.Four q g Hm) as (q1 & g1 & -> & Hm1 & Hd1 & Hf1). simpl.
  destruct (Hs Family.Six q1 g1 Hm1) as (q2 & g2 & -> & Hm2 & Hd2 & Hf2).
  exists q2, g2. do 2 (split; [done|]). split; congruence.
Qed.

Lemma retire_family_mid f q g : Mid L lane q g ->
  exists q' g', retire_family f (q, g) = Ok (q', g') /\ Mid L lane q' g'
    /\ hard_deadline q' = hard_deadline q /\ stream_failure g' = stream_failure g.
Proof.
  intros Hmid. unfold retire_family.
  destruct (mid_retire q g f Empty Hmid eq_refl I) as (g' & -> & Hf & Hm). simpl.
  do 2 eexists. split; [done|]. split; [exact Hm|]. by rewrite hard_with.
Qed.

(** The ledger with the lane's slot replaced. *)
Lemma ledger_put s g : Ledger_ok L -> slot_ok lane s ->
  Reg_ok n (view (put_slot L lane s)) g -> Ledger_ok (put_slot (with_reg L g) lane s).
Proof.
  intros [Hlen Hsl _] Hs Hreg. split.
  - simpl. by rewrite length_insert.
  - intros lane' s' Hl'. rewrite slot_at_put by (try done; lia).
    case_decide; [intros [= <-]; by subst|by apply Hsl].
  - done.
Qed.

Lemma mid_ledger q g : Ledger_ok L -> Mid L lane q g -> Ledger_ok (put_slot (with_reg L g) lane (Active q)).
Proof. intros HLok [Hreg Hq]. by apply ledger_put. Qed.

Lemma ledger_mid q : Ledger_ok L -> slot_at L lane = Some (Active q) -> Mid L lane q (reg L).
Proof.
  intros [Hlen Hsl Hreg] Hs. split; [|exact (Hsl lane _ ltac:(lia) Hs)].
  revert Hreg. apply Reg_ext. intros i Hi. rewrite view_put by done. case_decide as Hl'; [|done].
  unfold view. rewrite Hl'. by rewrite Hs.
Qed.

Lemma ledger_idle s : Ledger_ok L -> slot_at L lane = Some s ->
  Reg_ok n (view (put_slot L lane s)) (reg L).
Proof.
  intros [Hlen Hsl Hreg] Hs. revert Hreg. apply Reg_ext. intros i Hi. rewrite view_put by done.
  case_decide as Hl'; [|done]. unfold view. by rewrite Hl', Hs.
Qed.

(** Completion only ends a query whose branches hold nothing. *)
Lemma complete_holds q now : forall r, query_complete N q now = Some r ->
  hold_of (value (four q)) = HNone /\ hold_of (value (six q)) = HNone.
Proof.
  intros r. unfold query_complete. destruct (value (four q)), (value (six q)); simpl; done.
Qed.

Lemma complete_slot q g now : Mid L lane q g ->
  slot_ok lane (slot_complete N (Active q) now)
  /\ Reg_ok n (view (put_slot L lane (slot_complete N (Active q) now))) g.
Proof.
  intros [Hreg Hq]. unfold slot_complete. destruct (query_complete N q now) as [r|] eqn:Hc; [|done].
  apply complete_holds in Hc as [H4' H6']. split.
  - simpl. unfold query_entries. destruct (Hq Family.Four) as [<- _], (Hq Family.Six) as [<- _]. done.
  - eapply put_reg_ext; [exact Hlane|exact Hslot| |exact Hreg]. intros []; simpl; done.
Qed.
End slots.

(** ** Operations on a lane *)

Lemma ledger_eta (L : Ledger) : with_reg L (reg L) = L.
Proof. by destruct L. Qed.

Lemma poll_slot L lane s now retry : Ledger_ok L -> 0 <= lane < LANES -> slot_at L lane = Some s ->
  Retry.attempts retry = attempts ->
  exists p s' g', slot_poll N s now retry (reg L) = Ok (p, s', g')
    /\ Ledger_ok (put_slot (with_reg L g') lane s') /\ stream_failure g' = stream_failure (reg L).
Proof.
  intros HLok Hl Hs Hr. assert (Hne : slot_at L lane <> None) by (by rewrite Hs).
  assert (Hsok : slot_ok lane s) by (eapply (l_slots L HLok); [lia|done]).
  unfold slot_poll. destruct s as [entries completion|q]; cbn [Prelude.bind].
  - pose proof (ledger_idle L lane Hl Hne _ HLok Hs) as Hreg.
    destruct completion as [done_|]; do 3 eexists; (split; [done|]); (split; [|done]).
    + apply ledger_put; try done. eapply put_reg_ext; [exact Hl|exact Hne| |exact Hreg]. done.
    + by apply ledger_put.
  - assert (H1' : exists q1 g1, match stream_failure (reg L) with
        | Some cause => for_families (fail_stream cause) (q, reg L)
        | None => Ok (q, reg L) end = Ok (q1, g1) /\ Mid L lane q1 g1
        /\ stream_failure g1 = stream_failure (reg L)).
    { pose proof (ledger_mid L lane Hl Hne q HLok Hs) as Hmid.
      destruct (stream_failure (reg L)) as [cause|] eqn:Hfl; [|by exists q, (reg L)].
      destruct (for_families_mid L lane (fail_stream cause)
        (fail_stream_mid L lane Hl Hne cause) q (reg L) Hmid)
        as (q1 & g1 & He & Hm & _ & Hf).
      exists q1, g1. split; [exact He|]. split; [exact Hm|]. congruence. }
    destruct H1' as (q1 & g1 & -> & Hm1 & Hf1). cbn [Prelude.bind].
    destruct (for_families_mid L lane (expire retry now)
        (fun f q g => expire_mid L lane Hl Hne retry now f q g Hr) q1 g1 Hm1)
      as (q2 & g2 & -> & Hm2 & _ & Hf2). cbn [Prelude.bind].
    destruct (complete_slot L lane Hl Hne q2 g2 now Hm2) as [Hsok' Hreg'].
    assert (HL' : Ledger_ok (put_slot (with_reg L g2) lane (slot_complete N (Active q2) now)))
      by (by apply ledger_put).
    destruct (slot_complete N (Active q2) now) as [entries [done_|]|q3].
    + do 3 eexists. split; [done|]. split; [|congruence]. apply ledger_put; try done.
      eapply put_reg_ext; [exact Hl|exact Hne| |exact Hreg']. done.
    + do 3 eexists. split; [done|]. split; [done|congruence].
    + do 3 eexists. split; [done|]. split; [done|congruence].
Qed.

Lemma retire_slot L lane s : Ledger_ok L -> 0 <= lane < LANES -> slot_at L lane = Some s ->
  exists g', slot_retire s (reg L) = Ok (Idle (ord lane Family.Four, ord lane Family.Six) None, g')
    /\ Ledger_ok (put_slot (with_reg L g') lane (Idle (ord lane Family.Four, ord lane Family.Six) None))
    /\ stream_failure g' = stream_failure (reg L).
Proof.
  intros HLok Hl Hs. assert (Hne : slot_at L lane <> None) by (by rewrite Hs).
  assert (Hsok : slot_ok lane s) by (eapply (l_slots L HLok); [lia|done]).
  unfold slot_retire. destruct s as [entries completion|q]; cbn [Prelude.bind].
  - simpl in Hsok. subst entries. exists (reg L). split; [done|]. split; [|done].
    apply ledger_put; try done. eapply put_reg_ext; [exact Hl|exact Hne| |by eapply ledger_idle]. done.
  - pose proof (ledger_mid L lane Hl Hne q HLok Hs) as Hmid. pose proof Hmid as [_ Hq0].
    unfold for_families, retire_family.
    destruct (mid_retire L lane Hl Hne q (reg L) Family.Four Empty Hmid eq_refl I)
      as (g1 & -> & Hf1 & Hm1). cbn [Prelude.bind].
    destruct (mid_retire L lane Hl Hne _ g1 Family.Six Empty Hm1 eq_refl I)
      as (g2 & Hr2 & Hf2 & Hm2). rewrite Hr2. simpl.
    assert (He : slot_entries (Active (with_branch (with_branch q Family.Four
        (with_value (four q) Empty)) Family.Six (with_value (six q) Empty)))
        = (ord lane Family.Four, ord lane Family.Six)).
    { destruct (Hq0 Family.Four) as [E4 _], (Hq0 Family.Six) as [E6 _]. simpl in *. by rewrite <- E4, <- E6. }
    exists g2. split; [by rewrite <- He|]. split; [|congruence].
    apply ledger_put; try done. destruct Hm2 as [Hreg _].
    eapply put_reg_ext; [exact Hl|exact Hne| |exact Hreg]. intros []; done.
Qed.

Definition seed_ok (s : Seed V) : Prop :=
  s_end s <= s_hard s /\ (exists k, selects l (s_server s) k)
  /\ Host.parse (s_name s) = Ok (s_name s).

Lemma initial_ok s : seed_ok s -> att_ok l attempts (s_hard s) (initial (s_name s) (s_end s) (s_server s)).
Proof.
  intros (He & Hk & Hname). split; [done|]. split; [simpl; unfold Request.ZERO; lia|].
  split; [simpl; unfold Answer.ZERO; lia|]. split; [done|]. split; [by intros s' Hs'|done].
Qed.

(** A fresh row is queued for UDP. *)
Lemma row_new_spec h i a (g : Registry T) : ordinal n i -> Reg_ok n h g -> h i = HNone ->
  att_stream (V := V) a = None ->
  moves n h i (HQueued a) (row_new i a g).2.
Proof.
  intros Hi Hok Hh Ha. pose proof branches_bound as Hb.
  assert (Hm : moves n h i (HHeld a) g).
  { apply (reg_held n h g i HNone a); [done|done|done|by left|by rewrite Ha]. }
  exact (moves_again n h _ i _ _ (reg_queue n Hb _ g i a Hi Hm (upd_same _ _ _))).
Qed.

Lemma start_slot L lane s sd : Ledger_ok L -> 0 <= lane < LANES -> slot_at L lane = Some s ->
  seed_ok sd ->
  exists q g', slot_start s sd (reg L) = Ok (Active q, g')
    /\ Ledger_ok (put_slot (with_reg L g') lane (Active q))
    /\ stream_failure g' = stream_failure (reg L) /\ hard_deadline q = s_hard sd.
Proof.
  intros HLok Hl Hs Hsd. assert (Hne : slot_at L lane <> None) by (by rewrite Hs).
  destruct (retire_slot L lane s HLok Hl Hs) as (g1 & Hr & HL1 & Hf1).
  unfold slot_start. rewrite Hr. simpl.
  set (a := initial (s_name sd) (s_end sd) (s_server sd)).
  eexists _, _. split; [reflexivity|].
  split; [|split; [exact Hf1|done]]. pose proof HL1 as [Hlen1 Hsl1 Hreg1].
  set (h1 := view (put_slot (with_reg L g1) lane (Idle (ord lane Family.Four, ord lane Family.Six) None))) in *.
  assert (Hh1 : forall f, h1 (ord lane f) = HNone).
  { intros f. unfold h1. rewrite view_ord by done. by rewrite slot_at_put, decide_True by (done || lia). }
  pose proof (row_new_spec h1 (ord lane Family.Four) a g1 (ord_ordinal _ _ Hl) Hreg1 (Hh1 _) eq_refl) as Hm1.
  assert (Hh2 : upd h1 (ord lane Family.Four) (HQueued a) (ord lane Family.Six) = HNone).
  { rewrite upd_other; [apply Hh1|]. intros Hx%ord_inj. by destruct Hx. }
  pose proof (row_new_spec _ (ord lane Family.Six) a _ (ord_ordinal _ _ Hl) Hm1 Hh2 eq_refl) as Hm2.
  apply ledger_put; try done.
  - intros f. split; [by destruct f|]. destruct f; by apply initial_ok.
  - revert Hm2. apply Reg_ext. intros i Hi. rewrite view_put by done.
    pose proof branches_bound as Hb. unfold ordinal in Hi. pose proof (ord_split i ltac:(lia)) as Ho.
    unfold upd. case_decide as H6'; [|case_decide as H4'].
    + assert (Hx : ord (Branch.lane (Branch.from_ordinal i)) (Branch.family (Branch.from_ordinal i))
        = ord lane Family.Six) by congruence. apply ord_inj in Hx as [-> ->]. by rewrite decide_True.
    + assert (Hx : ord (Branch.lane (Branch.from_ordinal i)) (Branch.family (Branch.from_ordinal i))
        = ord lane Family.Four) by congruence. apply ord_inj in Hx as [-> ->]. by rewrite decide_True.
    + unfold h1. rewrite view_put by done. case_decide as Hl'; [|done].
      destruct (Branch.family (Branch.from_ordinal i)); [destruct H4'|destruct H6'];
        by rewrite <- Ho, Hl'.
Qed.

(** ** Operations of the ledger *)

Lemma complete_ok L lane now : Ledger_ok L -> 0 <= lane -> Ledger_ok (complete N L lane now).
Proof.
  intros HLok Hl. unfold complete. destruct (slot_at L lane) as [s|] eqn:Hs; [|done].
  pose proof (slot_lane L lane s HLok Hl Hs) as Hlt. assert (Hne : slot_at L lane <> None) by (by rewrite Hs).
  assert (Hl' : 0 <= lane < LANES) by lia.
  rewrite <- (ledger_eta L) at 1. destruct s as [e c|q].
  - apply ledger_put; try done; [eapply (l_slots L HLok); [lia|done]|by apply ledger_idle].
  - destruct (complete_slot L lane Hl' Hne q (reg L) now) as [Hsok Hreg]; [by apply ledger_mid|].
    by apply ledger_put.
Qed.

Lemma retire_lane_ok L lane : Ledger_ok L -> 0 <= lane < LANES ->
  exists L', retire_lane L lane = Ok L' /\ Ledger_ok L'
    /\ slot_at L' lane = Some (Idle (ord lane Family.Four, ord lane Family.Six) None)
    /\ stream_failure (reg L') = stream_failure (reg L).
Proof.
  intros HLok Hl. destruct (slot_exists L lane HLok Hl) as [s Hs].
  destruct (retire_slot L lane s HLok Hl Hs) as (g' & Hr & HL' & Hf).
  unfold retire_lane, ledger_write. rewrite Hs. simpl. rewrite Hr. simpl.
  eexists. split; [done|]. split; [done|]. split; [|done].
  assert (Hne : slot_at (with_reg L g') lane <> None) by (unfold slot_at in *; simpl; by rewrite Hs).
  by rewrite slot_at_put, decide_True by (try done; lia).
Qed.

Lemma start_ok L lane sd : Ledger_ok L -> 0 <= lane < LANES -> seed_ok sd ->
  exists L' q, start L lane sd = Ok L' /\ Ledger_ok L' /\ slot_at L' lane = Some (Active q)
    /\ hard_deadline q = s_hard sd /\ stream_failure (reg L') = stream_failure (reg L).
Proof.
  intros HLok Hl Hsd. destruct (slot_exists L lane HLok Hl) as [s Hs].
  destruct (start_slot L lane s sd HLok Hl Hs Hsd) as (q & g' & Hr & HL' & Hf & Hh).
  unfold start, ledger_write. rewrite Hs. cbn [Prelude.bind]. rewrite Hr. cbn [Prelude.bind].
  eexists _, q. split; [done|]. split; [done|]. split; [|done].
  assert (Hne : slot_at (with_reg L g') lane <> None) by (unfold slot_at in *; simpl; by rewrite Hs).
  by rewrite slot_at_put, decide_True by (try done; lia).
Qed.

(** A request taken out of its transaction: still in flight, its row empty. *)
Record Taken (L : Ledger) (lane : Lane) (f : Family.Version) (w : WaitState (V := V) (T := T))
    (q : Query.Query V) (x : Lease.Lease) : Prop := {
  k_slot : slot_at L lane = Some (Active q);
  k_value : value (branch q f) = Waiting (w_probe w) x;
  k_row : w_slot w = with_value (branch q f) Empty;
  k_hard : w_hard w = hard_deadline q;
  k_att : att_ok l attempts (hard_deadline q) (w_probe w);
  k_failure : stream_failure (w_reg w) = stream_failure (reg L);
  k_reg : moves n (view L) (ord lane f) (HHeld (w_probe w)) (w_reg w);
}.

Lemma accept_spec {A} L lane f filter
    (decode : Request.Request V -> Lease.Lease -> run Empty_set (option A)) :
  Ledger_ok L -> 0 <= lane -> (forall r x, not_stuck (decode r x)) ->
  (accept L lane f filter decode = Ok None)
  \/ exists w d q x, accept L lane f filter decode = Ok (Some (w, d)) /\ Taken L lane f w q x
       /\ matches filter (w_probe w) x = true /\ decode (request (w_probe w)) x = Ok (Some d).
Proof.
  intros HLok Hl Hns. pose proof branches_bound as Hb. unfold accept.
  destruct (slot_at L lane) as [[e c|q]|] eqn:Hs; [by left| |by left].
  pose proof (slot_lane L lane _ HLok Hl Hs) as Hlt. assert (Hl' : 0 <= lane < LANES) by lia.
  destruct (value (branch q f)) as [a|a x|v u| |k] eqn:Hv; try by left.
  destruct (matches filter a x) eqn:Hmt; simpl; [|by left].
  pose proof (Hns (request a) x) as Hd. destruct (decode (request a) x) as [[d|]|[]|w] eqn:Hdec;
    simpl; [|by left|done].
  destruct (l_slots L HLok lane _ Hl Hs f) as [He Hval]. rewrite Hv in Hval. simpl in Hval.
  assert (Hh : view L (ord lane f) = HLeased a x).
  { rewrite view_ord, Hs by done. simpl. by rewrite Hv. }
  destruct (reg_unlease n Hb (view L) (reg L) (ord lane f) a x (ord_ordinal _ _ Hl')
    (l_reg L HLok) Hh) as (t & -> & Hm). simpl.
  right. do 2 eexists. exists q, x. split; [done|]. split; [|done]. by split.
Qed.

(** Settling a taken request writes its row back. *)
Lemma settle_ok L lane f w q x m : Ledger_ok L -> 0 <= lane -> Taken L lane f w q x ->
  settles (hard_deadline q) (view L) (ord lane f) (reg L) m ->
  exists s, m = Ok s /\ Ledger_ok (write_back L lane f s)
    /\ stream_failure (reg (write_back L lane f s)) = stream_failure (reg L)
    /\ exists q', slot_at (write_back L lane f s) lane = Some (Active q')
        /\ hard_deadline q' = hard_deadline q /\ forall a y, value (branch q' f) <> Waiting a y.
Proof.
  intros HLok Hl Ht (r & g' & -> & He & Hv & Hw & Hf & Hm). pose proof (k_slot _ _ _ _ _ _ Ht) as Hs.
  pose proof (slot_lane L lane _ HLok Hl Hs) as Hlt. assert (Hl' : 0 <= lane < LANES) by lia.
  assert (Hne : slot_at L lane <> None) by (by rewrite Hs).
  exists (r, g'). split; [done|]. unfold write_back. rewrite Hs. simpl.
  destruct (ledger_mid L lane Hl' Hne q HLok Hs) as [_ Hq].
  split; [|split; [exact Hf|]].
  - apply mid_ledger; try done. apply mid_write; try done.
    revert Hm. apply Reg_ext. intros i Hi. unfold upd. case_decide; [done|].
    rewrite view_put by done. case_decide as Hl2; [|done]. unfold view. by rewrite Hl2, Hs.
  - eexists. rewrite slot_at_put, decide_True by (try done; lia). split; [done|].
    rewrite hard_with. split; [done|]. rewrite branch_with, decide_True by done. exact Hw.
Qed.

(** What each transition of a taken request settles to. *)
Lemma taken_settles L lane f w q x (m : WaitState (V := V) (T := T) -> run Empty_set (Row V * Registry T)) :
  Ledger_ok L -> 0 <= lane < LANES -> Taken L lane f w q x ->
  (forall h, Reg_ok n h (w_reg w) -> h (ord lane f) = HHeld (w_probe w) ->
     entry (w_slot w) = ord lane f -> att_ok l attempts (w_hard w) (w_probe w) ->
     settles (w_hard w) h (ord lane f) (w_reg w) (m w)) ->
  settles (hard_deadline q) (view L) (ord lane f) (reg L) (m w).
Proof.
  intros HLok Hl Ht Hm. destruct Ht as [Hs Hv Hr Hh Ha Hf Hreg]. rewrite Hh in Hm.
  eapply settles_via; [exact Hreg|exact Hf|]. intros Hok Hhh. apply Hm; try done.
  rewrite Hr. simpl. apply (l_slots L HLok lane _ ltac:(lia) Hs).
Qed.

Lemma wait_failed_settles h lane f w retry now cause : 0 <= lane < LANES ->
  Retry.attempts retry = attempts -> Reg_ok n h (w_reg w) -> h (ord lane f) = HHeld (w_probe w) ->
  entry (w_slot w) = ord lane f -> att_ok l attempts (w_hard w) (w_probe w) ->
  settles (w_hard w) h (ord lane f) (w_reg w) (wait_failed w retry now cause).
Proof.
  intros Hl Hr Hok Hh He Ha. pose proof branches_bound as Hb.
  apply (retry_settles n Hb l attempts); try done. by apply ord_ordinal.
Qed.

Lemma wait_drop_settles h lane f w : 0 <= lane < LANES ->
  Reg_ok n h (w_reg w) -> h (ord lane f) = HHeld (w_probe w) ->
  entry (w_slot w) = ord lane f -> att_ok l attempts (w_hard w) (w_probe w) ->
  settles (w_hard w) h (ord lane f) (w_reg w) (wait_drop w).
Proof.
  intros Hl Hok Hh He Ha. pose proof branches_bound as Hb.
  apply row_pending_settles; try done. by apply ord_ordinal.
Qed.
End ledger_facts.
