(* ===== verification/StartFacts.v ===== *)
(** * Starting requests keeps the ledger in step.

    Claims on the pending set and the two starts: whatever the submission
    reports, the request ends in exactly one place — on the wire with a
    transaction, back in the pending set, or failed — and nothing leaks. *)

From stdpp Require Import gmap.
From S2P Require Import Prelude Depot Random Time Errors Host Packet PacketFacts Response ResponseFacts Frames FramesFacts Index Config Transactions Query RegistryFacts QueryFacts Ledger LedgerFacts.

Import Registry Query Ledger Starts.
#[local] Existing Instance Family.version_eq_dec.

Section start_facts.
Context `{InlineBytesLaws} `{Payloads} {V : Type -> Type} `{CopyVecLaws V} (N : nat)
  {T : Type} `{PlaneSetLaws T} {B : Type} `{FillLaws B}.
Context (LANES : Z) (HL : 0 <= LANES <= MAX_LANES) (l : list Net.SocketAddr) (attempts : Z)
  (Hattempts : 1 <= attempts).

Abbreviation n := (2 * LANES).
Abbreviation Ledger := (Ledger (V := V) (T := T)).
Abbreviation Ledger_ok := (Ledger_ok (V := V) (T := T) LANES l attempts).

(** The ledger while the pending request [a] of a branch is claimed: its bit
    is out of the pending set, its row still says [Pending]. *)
Record Claimed (L : Ledger) (c : Claim) (lane : Lane) (f : Family.Version)
    (q : Query.Query V) (a : Attempt V) : Prop := {
  c_lane : 0 <= lane < LANES;
  c_ord : c_index c = ord lane f;
  c_plane_id : c_plane c = plane_id (att_stream a);
  c_slot : slot_at L lane = Some (Active q);
  c_value : value (branch q f) = Pending a;
  c_length : Z.of_nat (length (slots L)) = LANES;
  c_slots : forall lane s, 0 <= lane -> slot_at L lane = Some s -> slot_ok l attempts lane s;
  c_reg : moves n (view L) (ord lane f) (HHeld a) (reg L);
}.

Lemma start_plane_spec L plane : Ledger_ok L ->
  match start_plane L plane with
  | None => forall i, ps_mem (pending (reg L)) plane i = false
  | Some (c, L') => exists lane f q a, Claimed L' c lane f q a /\ c_plane c = plane
      /\ slots L' = slots L /\ stream_failure (reg L') = stream_failure (reg L)
      /\ live (reg L') = live (reg L) /\ ids (reg L') = ids (reg L)
      /\ forall p j, ps_mem (pending (reg L')) p j
           = ps_mem (pending (reg L)) p j && negb (bool_decide (plane = p /\ c_index c = j))
  end.
Proof.
  intros [Hlen Hsl Hreg]. pose proof (branches_bound LANES HL) as Hb. unfold start_plane, claim_plane.
  pose proof (ps_takes_front (pending (reg L)) plane) as Ht.
  destruct (ps_take_front (pending (reg L)) plane) as [[i p]|]; [|done].
  destruct Ht as [Hmem Hp]. pose proof Hreg as [Hpend _ _ _].
  apply Hpend in Hmem as (Hi & a & Ha & ->).
  pose proof (lane_nonneg LANES HL i Hi) as Hlane.
  set (lane := Branch.lane (Branch.from_ordinal i)) in *.
  set (f := Branch.family (Branch.from_ordinal i)).
  assert (Ho : ord lane f = i) by (apply ord_split; unfold ordinal in Hi; lia).
  pose proof Ha as Hview. rewrite <- Ho, (view_ord LANES HL) in Hview by done.
  destruct (slot_at L lane) as [[e cm|q]|] eqn:Hs; try done. simpl in Hview.
  assert (Hv : value (branch q f) = Pending a).
  { destruct (value (branch q f)); simplify_eq/=; done. }
  exists lane, f, q, a. split; [|done]. split; simpl; try done.
  rewrite Ho. apply (reg_unqueue n Hb (view L) (reg L) i a); done.
Qed.

(** Dropping the claim puts the request back. *)
Lemma claim_drop_ok L c lane f q a : Claimed L c lane f q a -> Ledger_ok (claim_drop c L).
Proof.
  intros [Hl Hi Hp Hs Hv Hlen Hsl Hreg]. pose proof (branches_bound LANES HL) as Hb.
  split; [done|done|]. unfold claim_drop. simpl. rewrite Hi, Hp.
  assert (Hh : view L (ord lane f) = HQueued a).
  { rewrite (view_ord LANES HL), Hs by done. simpl. by rewrite Hv. }
  apply (moves_self n _ _ (ord lane f) (HQueued a)); [exact Hh|].
  eapply moves_again, (reg_queue n Hb); [by apply ord_ordinal|exact Hreg|apply upd_same].
Qed.

(** The ledger while a start works on a request: its row is empty, and the
    request is in flight inside the operation. *)
Record Open (L : Ledger) (r : ReadyStart (V := V)) (q : Query.Query V) : Prop := {
  o_lane : 0 <= rs_lane r < LANES;
  o_claim : c_index (rs_claim r) = ord (rs_lane r) (rs_family r);
  o_plane : c_plane (rs_claim r) = plane_id (att_stream (rs_probe r));
  o_slot : slot_at L (rs_lane r) = Some (Active q);
  o_value : value (branch q (rs_family r)) = Empty;
  o_att : att_ok l attempts (hard_deadline q) (rs_probe r);
  o_length : Z.of_nat (length (slots L)) = LANES;
  o_slots : forall lane s, 0 <= lane -> slot_at L lane = Some s -> slot_ok l attempts lane s;
}.
Abbreviation at_ r := (ord (rs_lane r) (rs_family r)).
Abbreviation holds L r x := (moves n (view L) (at_ r) x (reg L)).

Lemma take_spec L c lane f q a now : Claimed L c lane f q a ->
  match take L c now with
  | (None, L') => L' = claim_drop c L /\ deadline a <= now
  | (Some r, L') => r = ready_start c lane f a /\ now < deadline a
      /\ (exists q', Open L' r q' /\ q' = with_branch q f (with_value (branch q f) Empty))
      /\ holds L' r (HHeld a) /\ reg L' = reg L
      /\ L' = put_slot L lane (Active (with_branch q f (with_value (branch q f) Empty)))
  end.
Proof.
  intros Hc. pose proof Hc as [Hl Hi Hp Hs Hv Hlen Hsl Hreg]. pose proof (branches_bound LANES HL) as Hb.
  unfold take. rewrite Hi, from_ordinal_ord by (unfold MAX_LANES in *; lia).
  rewrite branch_lane, branch_family by (unfold MAX_LANES in *; lia). rewrite Hs, Hv.
  destruct (Z.leb_spec (deadline a) now); [done|].
  assert (Hne : slot_at L lane <> None) by (by rewrite Hs).
  unfold set_row. rewrite Hs. set (q' := with_branch q f (with_value (branch q f) Empty)).
  destruct (Hsl lane _ ltac:(lia) Hs f) as [He Ha]. rewrite Hv in Ha.
  split; [done|]. split; [done|]. split; [|split; [|done]].
  - exists q'. split; [|done]. split; simpl; try done.
    + by rewrite slot_at_put, decide_True by (done || lia).
    + unfold q'. by rewrite branch_with, decide_True.
    + unfold q'. by rewrite hard_with.
    + by rewrite length_insert.
    + intros lane' s' Hl'. rewrite slot_at_put by (done || lia). case_decide; [|by apply Hsl].
      intros [= <-]. subst lane'. intros f'. unfold q'. rewrite branch_with, hard_with.
      case_decide; [by subst|]. by apply (Hsl lane _ ltac:(lia) Hs).
  - simpl. revert Hreg. apply Reg_ext. intros i Hi'. unfold upd. case_decide as Hne'; [done|].
    rewrite (view_put LANES HL) by done. case_decide as Hl'; [|done]. unfold view. rewrite Hl', Hs. simpl.
    unfold q'. rewrite branch_with. case_decide as Hf; [|done]. destruct Hne'.
    unfold ordinal in Hi'. rewrite <- (ord_split i) by lia. by rewrite Hl', Hf.
Qed.

(** Closing a start: the row gets its value, the registry agrees. *)
Lemma set_row_ok L r q v g : Open L r q -> val_ok l attempts (hard_deadline q) v ->
  moves n (view L) (at_ r) (hold_of v) g ->
  Ledger_ok (set_row (with_reg L g) (rs_lane r) (rs_family r) v).
Proof.
  intros [Hl Hi Hp Hs Hv Ha Hlen Hsl] Hok Hm. pose proof (branches_bound LANES HL) as Hb.
  unfold set_row. replace (slot_at (with_reg L g) (rs_lane r)) with (slot_at L (rs_lane r)) by done.
  rewrite Hs. assert (Hne : slot_at L (rs_lane r) <> None) by (by rewrite Hs).
  assert (Hlok : Mid LANES l attempts L (rs_lane r)
            (with_branch q (rs_family r) (with_value (branch q (rs_family r)) v)) g).
  { apply (mid_write LANES HL); try done.
    - exact (Hsl (rs_lane r) _ ltac:(lia) Hs).
    - apply (Hsl (rs_lane r) _ ltac:(lia) Hs).
    - revert Hm. apply Reg_ext. intros i Hi'. unfold upd. case_decide; [done|].
      rewrite (view_put LANES HL) by done. case_decide as Hl2; [|done]. unfold view. by rewrite Hl2, Hs. }
  destruct Hlok as [Hreg Hq]. split; [by simpl; rewrite length_insert| |done].
  intros lane s' Hl'. rewrite slot_at_put by (try done; lia).
  case_decide; [intros [= <-]; by subst|by apply Hsl].
Qed.

(** A registry for the request back in the pending set. *)
Lemma requeue L r q g : Open L r q -> moves n (view L) (at_ r) (HHeld (rs_probe r)) g ->
  Ledger_ok (claim_drop (rs_claim r)
    (set_row (with_reg L g) (rs_lane r) (rs_family r) (Pending (rs_probe r)))).
Proof.
  intros Ho Hm. pose proof (branches_bound LANES HL) as Hb.
  pose proof (set_row_ok L r q (Pending (rs_probe r))
    (with_pending g (ps_set (pending g) (c_plane (rs_claim r)) (c_index (rs_claim r)))) Ho (o_att _ _ _ Ho)) as Hset.
  assert (He : forall g', claim_drop (rs_claim r) (set_row (with_reg L g') (rs_lane r) (rs_family r) (Pending (rs_probe r)))
    = set_row (with_reg L (with_pending g' (ps_set (pending g') (c_plane (rs_claim r)) (c_index (rs_claim r)))))
        (rs_lane r) (rs_family r) (Pending (rs_probe r))).
  { intros g'. unfold set_row. replace (slot_at (with_reg L g') (rs_lane r)) with (slot_at L (rs_lane r)) by done.
    rewrite (o_slot _ _ _ Ho).
    replace (slot_at (with_reg L _) (rs_lane r)) with (slot_at L (rs_lane r)) by done.
    by rewrite (o_slot _ _ _ Ho). }
  rewrite He. apply Hset. simpl. rewrite (o_claim _ _ _ Ho), (o_plane _ _ _ Ho).
  eapply moves_again, (reg_queue n Hb); [apply ord_ordinal, (o_lane _ _ _ Ho)|exact Hm|apply upd_same].
Qed.

(** Failing the request gives everything back. *)
Lemma ready_fail_ok L r q cause g : Open L r q ->
  moves n (view L) (at_ r) (HHeld (rs_probe r)) g ->
  exists L', ready_fail r cause (with_reg L g) = Ok (rs_lane r, L') /\ Ledger_ok L'
    /\ stream_failure (reg L') = stream_failure g.
Proof.
  intros Ho Hm. unfold ready_fail.
  destruct (reg_release n _ g (at_ r) (rs_probe r) (ord_ordinal _ _ _ (o_lane _ _ _ Ho)) Hm (upd_same _ _ _))
    as (g' & Hr & Hf & Hm'). simpl. rewrite Hr. simpl. eexists. split; [done|]. split.
  - apply (set_row_ok L r q (Failed cause) g' Ho I). by eapply moves_again.
  - unfold set_row. destruct (slot_at _ _) as [[]|]; done.
Qed.

Definition finish_lane {A} (f : Finish A) : Prop :=
  match f with FDone _ => True | FComplete _ lane => 0 <= lane end.

(** The outcome of a start: it ended, and nothing leaked. *)
Definition started {A} (L : Ledger) (m : run Empty_set (Finish A * Ledger)) : Prop :=
  exists fin L', m = Ok (fin, L') /\ Ledger_ok L' /\ finish_lane fin
    /\ stream_failure (reg L') = stream_failure (reg L).

Lemma failure_set_row (L : Ledger) lane f v : stream_failure (reg (set_row L lane f v)) = stream_failure (reg L).
Proof. unfold set_row. by destruct (slot_at L lane) as [[]|]. Qed.

Lemma fail_started {A} (L0 L : Ledger) r q cause g (v : A) : Open L r q ->
  moves n (view L) (at_ r) (HHeld (rs_probe r)) g -> stream_failure g = stream_failure (reg L0) ->
  started L0 (let! (lane, L) := ready_fail r cause (with_reg L g) in Ok (FComplete v lane, L)).
Proof.
  intros Ho Hm Hf. destruct (ready_fail_ok L r q cause g Ho Hm) as (L' & -> & HL' & Hf').
  do 2 eexists. split; [done|]. split; [done|]. split; [apply (o_lane _ _ _ Ho)|congruence].
Qed.

Lemma udp_start_ok L c lane f q a now random (submit : Frames.Datagram B -> Server -> Starts.Submission) :
  Claimed L c lane f q a -> c_plane c = 0%nat -> started L (udp_start L c now random submit).
Proof.
  intros Hc Hpl. pose proof (branches_bound LANES HL) as Hb. unfold udp_start.
  pose proof (take_spec L c lane f q a now Hc) as Ht. pose proof Hc as [Hl _ Hplane _ _ _ _ _].
  assert (Hnone : att_stream a = None) by (apply plane_id_inj; simpl; congruence).
  destruct (take L c now) as [[r|] L1]; cycle 1.
  { destruct Ht as [-> _]. do 2 eexists. split; [done|]. split; [by eapply claim_drop_ok|done]. }
  destruct Ht as (-> & _ & (q' & Ho & _) & Hm & Hreg & _). cbn [rs_lane rs_family rs_probe].
  set (r := ready_start c lane f a) in *.
  pose proof Hm as [_ _ _ (U & S & Htab & Hu & Hs)].
  pose proof (ord_ordinal LANES lane f Hl) as Hi.
  destruct (try_udp_spec (ids (reg L1)) U S (Branch.new lane f) (Request.server (request a)) random Htab)
    as ([[u|e] t] & -> & Hout); cbn [Prelude.bind]; unfold udp_outcome in Hout; cbn [fst snd] in Hout.
  - destruct Hout as (Hid & Hfree & Ht').
    assert (Hlease : moves n (view L1) (ord lane f) (HLeased a (Lease.LUdp u)) (with_ids (reg L1) t)).
    { eapply moves_again.
      eapply (reg_lease_udp n _ (reg L1) (ord lane f) a u t U S); try done; [apply upd_same|].
      rewrite from_ordinal_ord by (unfold MAX_LANES in *; lia). exact Ht'. }
    assert (Hname : Host.parse (Request.name (request a)) = Ok (Request.name (request a))).
    { apply (o_att _ _ _ Ho). }
    destruct (udp_builds (E := Empty_set) (B := B) (Request.name (request a)) (Lease.removed u) f
      (Lease.u_epoch u) (Lease.client u)
      (Table.active_cookie (ids (reg (with_table L1 t))) (Request.server (request a))) Hname) as (d & ->).
    cbn [Prelude.bind]. destruct (reg_unlease n Hb (upd (view L1) (ord lane f) (HLeased a (Lease.LUdp u)))
      (with_ids (reg L1) t) (ord lane f) a (Lease.LUdp u) Hi Hlease (upd_same _ _ _)) as (t2 & Hr2 & Hm2).
    apply moves_again in Hm2.
    destruct (submit d (Request.server (request a))) as [| |cause].
    + do 2 eexists. split; [done|]. split; [|split; [done|]].
      * apply (set_row_ok L1 r q' (Waiting a (Lease.LUdp u)) (with_ids (reg L1) t) Ho); [|done].
        apply (o_att _ _ _ Ho).
      * unfold ready_commit. rewrite failure_set_row. simpl. congruence.
    + unfold ready_rollback. simpl. do 2 eexists. split; [done|]. split; [|split; [done|]].
      * simpl in Hr2. injection Hr2 as <-. by apply (requeue L1 r q').
      * unfold claim_drop. simpl. rewrite failure_set_row. simpl. congruence.
    + simpl in Hr2. simpl Table.release. cbn [Prelude.bind]. injection Hr2 as <-.
      apply (fail_started L L1 r q' cause _ (FailedBy cause) Ho Hm2). simpl. congruence.
  - assert (Ht' : Table_ok t U S) by (destruct e; naive_solver).
    apply (fail_started L L1 r q' (LookupError.KIdentity e) (with_ids (reg L1) t) Deferred Ho);
      [|simpl; congruence].
    by eapply reg_table.
Qed.

Lemma tcp_start_ok L c lane f q a s now id (submit : Stream.Frame B -> Stream.Admission B) :
  Claimed L c lane f q a -> c_plane c = plane_id (Some s) -> is_id id -> Stream.linear submit ->
  started L (tcp_submit L c now id submit).
Proof.
  intros Hc Hpl Hid Hlin. pose proof (branches_bound LANES HL) as Hb. unfold tcp_submit.
  pose proof (take_spec L c lane f q a now Hc) as Ht. pose proof Hc as [Hl _ Hplane _ _ _ _ _].
  assert (Hsome : att_stream a = Some s) by (apply plane_id_inj; simpl in *; congruence).
  destruct (take L c now) as [[r|] L1]; cycle 1.
  { destruct Ht as [-> _]. do 2 eexists. split; [done|]. split; [by eapply claim_drop_ok|done]. }
  destruct Ht as (-> & _ & (q' & Ho & _) & Hm & Hreg & _). cbn [rs_lane rs_family rs_probe].
  set (r := ready_start c lane f a) in *.
  pose proof Hm as [_ _ _ (U & S & Htab & Hu & Hs)].
  pose proof (ord_ordinal LANES lane f Hl) as Hi.
  pose proof (try_tcp_spec (ids (reg L1)) U S (Branch.new lane f) id Htab Hid) as Htcp.
  case_match eqn:Hown.
  { rewrite Htcp. cbn [cases].
    apply (fail_started L L1 r q' (LookupError.KIdentity _) (reg L1) Stream.Deferred Ho Hm).
    congruence. }
  destruct Htcp as (t & -> & Ht'). cbn [cases].
  assert (Hname : Host.parse (Request.name (request a)) = Ok (Request.name (request a))).
  { apply (o_att _ _ _ Ho). }
  destruct (tcp_builds (E := Empty_set) (B := B) (Request.name (request a)) id f Hname) as (b & ->).
  cbn [Prelude.bind]. rewrite <- from_ordinal_ord in Ht' by (unfold MAX_LANES in *; lia).
  assert (Hlease : moves n (view L1) (ord lane f) (HLeased a (Lease.LTcp id)) (with_ids (reg L1) t)).
  { eapply moves_again.
    eapply (reg_lease_tcp n _ (reg L1) (ord lane f) a id t U S); try done;
      [apply upd_same|by rewrite Hsome]. }
  destruct (reg_unlease n Hb (upd (view L1) (ord lane f) (HLeased a (Lease.LTcp id)))
    (with_ids (reg L1) t) (ord lane f) a (Lease.LTcp id) Hi Hlease (upd_same _ _ _)) as (t2 & Hr2 & Hm2).
  apply moves_again in Hm2. simpl Table.release in Hr2. change (ids (with_ids (reg L1) t)) with t in Hr2.
  specialize (Hlin (Stream.frame b id)). simpl Stream.f_id in Hlin.
  assert (Hcancel : forall fr : Stream.Frame B, Stream.f_id fr = id ->
    Table.cancel (E := Empty_set) (ids (reg (with_table L1 t))) (Stream.lease_cancel Lease.tcp fr) = Ok t2).
  { intros fr Hfr. unfold Table.cancel, Stream.lease_cancel, Stream.cancel. simpl. by rewrite Hfr. }
  assert (Hdefer : forall fr : Stream.Frame B, Stream.f_id fr = id ->
    started L (let! L' := ready_defer r (Stream.lease_cancel Lease.tcp fr) (with_table L1 t) in
               Ok (FDone Stream.Deferred, L'))).
  { intros fr Hfr. unfold ready_defer. rewrite Hcancel by done. cbn [Prelude.bind].
    do 2 eexists. split; [done|]. split; [|split; [done|]].
    - by apply (requeue L1 r q' (with_ids (reg L1) t2)).
    - unfold claim_drop. simpl. rewrite failure_set_row. simpl. congruence. }
  assert (Hreject : forall (fr : Stream.Frame B) cause, Stream.f_id fr = id ->
    started L (let! (lane, L') := ready_reject r (Stream.lease_cancel Lease.tcp fr) cause (with_table L1 t) in
               Ok (FComplete Stream.Rejected lane, L'))).
  { intros fr cause Hfr. unfold ready_reject. rewrite Hcancel by done. cbn [Prelude.bind].
    apply (fail_started L L1 r q' cause (with_ids (reg L1) t2) Stream.Rejected Ho); [done|].
    simpl. congruence. }
  destruct (submit (Stream.frame b id)) as [cm|fr|fr|fr cause|fr cause]; simpl in Hlin;
    [|by apply Hdefer|by apply Hdefer|by apply Hreject|by apply Hreject].
  do 2 eexists. split; [done|]. split; [|split; [done|]].
  - unfold Lease.commit. rewrite Hlin.
    apply (set_row_ok L1 r q' (Waiting a (Lease.LTcp id)) (with_ids (reg L1) t) Ho); [|done].
    apply (o_att _ _ _ Ho).
  - unfold ready_commit. rewrite failure_set_row. simpl. congruence.
Qed.
End start_facts.
