(* ===== verification/Queries.v ===== *)
(** * The query store.

    Model of [src/layer2/dns/src/storage/queries/mod.rs] and [receive.rs]: the
    ledger behind its lane set, the operations the sockets call (admit a UDP
    request, submit a stream request, deliver a packet, report a failed
    datagram or a closed stream) and the lanes lookups hold. A work budget is
    its remaining number of permits. *)

From stdpp Require Import gmap.
From S2P Require Import Prelude Depot Random Time Errors Host Packet Response Frames Index Config Transactions Query Ledger.

Module Queries.
Import Net Registry Query LookupError Ledger Starts.

(** [Retirement], src/layer2/dns/src/storage/queries/mod.rs:82-86. *)
Inductive Retirement `{InlineBytes} `{Payloads} := Resume | Expired | Fail (error : LookupError.Kind).
(** [RetireStream], src/layer2/dns/src/storage/queries/mod.rs:76-79. *)
Inductive RetireStream := RetireDone | RetireRetry.
(** [StreamStatus], src/layer2/dns/src/storage/queries/mod.rs:121-126. *)
Record StreamStatus := stream_status {
  pending_for_server : bool; st_live : bool; live_for_server : bool; transactions : bool }.
(** [quota::Admission]: the outcome of work under a budget. *)
Inductive Admission (A : Type) := AEmpty | AExhausted | AItem (a : A).
Arguments AEmpty {A}.
Arguments AExhausted {A}.
Arguments AItem {A} a.

Section queries.
Context `{InlineBytes} `{Payloads} {V : Type -> Type} `{CopyVec V} (N : nat) (LANES : Z)
  {T : Type} `{PlaneSet T} {B : Type} `{Fill B}.

(** [Retirement::from_close], src/layer2/dns/src/storage/queries/mod.rs:89-117. *)
Definition from_close (reason : Transport.Reason) : Retirement :=
  match reason with
  | Transport.Local _ | Transport.EndpointRetired | Transport.Timeout Transport.DLifetime => Resume
  | Transport.Timeout Transport.DInbound => Expired
  | Transport.Timeout Transport.DConnect | Transport.Timeout Transport.DSend
  | Transport.RCapacity _ | Transport.Protocol | Transport.RReceive _ | Transport.Ingress _
  | Transport.Egress _ | Transport.RTransport | Transport.Remote => Fail (KClose reason)
  end.

(** [Queries], src/layer2/dns/src/storage/queries/mod.rs:39-44. Lanes in plane 0
    are cancelled, in plane 1 free, in neither held by a lookup. *)
Record Queries := queries {
  inner : Ledger (V := V) (T := T); lanes : T; q_config : Config.Validated V }.

Definition with_inner (self : Queries) (l : Ledger (V := V) (T := T)) : Queries :=
  queries l (lanes self) (q_config self).
Definition with_lanes (self : Queries) (l : T) : Queries :=
  queries (inner self) l (q_config self).

(** [StreamStatus::read], src/layer2/dns/src/storage/queries/mod.rs:129-141. *)
Definition read_status (self : Queries) (server : Server) : StreamStatus :=
  let g := reg (inner self) in
  stream_status (has_server g server) (Live.any (live g)) (Live.contains (live g) server)
    (Table.has_stream (ids g)).

(** [Queries::is_cancelled], src/layer2/dns/src/storage/queries/mod.rs:152-154. *)
Definition is_cancelled (self : Queries) (lane : Lane) : bool := ps_mem (lanes self) 0 lane.

(** [Queries::cleanup], src/layer2/dns/src/storage/queries/mod.rs:174-190. Returns
    whether it went through, and the permits left. *)
Fixpoint cleanup (work : nat) (self : Queries) : run Empty_set (bool * nat * Queries) :=
  match ps_take (lanes self) 0 with
  | None => Ok (true, work, self)
  | Some (lane, rest) =>
      match work with
      | O => Ok (false, O, with_lanes self (ps_set rest 0 lane))
      | S work =>
          let! l := retire_lane (inner self) lane in
          cleanup work (queries l (ps_set rest 1 lane) (q_config self))
      end
  end.

(** [Queries::claim], src/layer2/dns/src/storage/queries/mod.rs:192-205. The lane
    it returns is held until [lane_drop]. *)
Definition lane_claim (self : Queries) : run Empty_set (option Lane * Queries) :=
  match ps_take (lanes self) 1 with
  | Some (lane, rest) => Ok (Some lane, with_lanes self rest)
  | None =>
      match ps_take (lanes self) 0 with
      | None => Ok (None, self)
      | Some (lane, rest) =>
          let! l := retire_lane (inner self) lane in
          Ok (Some lane, queries l rest (q_config self))
      end
  end.

(** [Cancel::return_item], src/layer2/dns/src/storage/queries/mod.rs:392-394. *)
Definition lane_drop (self : Queries) (lane : Lane) : Queries :=
  with_lanes self (ps_set (lanes self) 0 lane).

(** [Queries::admit_udp], src/layer2/dns/src/storage/queries/mod.rs:207-225. *)
Definition admit_udp (self : Queries) (now : Z) (work : nat) (random : Entropy.Datagram)
    (submit : Frames.Datagram B -> Server -> Starts.Submission)
    : run Empty_set (Admission Starts.Submission * nat * Queries) :=
  match start_plane (inner self) 0 with
  | None => Ok (AEmpty, work, self)
  | Some (c, l) =>
      match work with
      | O => Ok (AExhausted, O, with_inner self (claim_drop c l))
      | S work =>
          let! (finish, l) := udp_start l c now random submit in
          let '(status, l) := finish_apply (N := N) finish l now in
          Ok (AItem status, work, with_inner self l)
      end
  end.

(** [Queries::submit], src/layer2/dns/src/storage/queries/mod.rs:227-244. *)
Definition submit_stream (self : Queries) (now : Z) (server : Server) (id : Tx.Id)
    (submit : Stream.Frame B -> Stream.Admission B)
    : run Empty_set (Stream.Submission * Queries) :=
  if negb (ps_empty (lanes self) 0) then Ok (Stream.Deferred, self)
  else
    match start_plane (inner self) (plane_id (Some server)) with
    | None => Ok (Stream.Deferred, self)
    | Some (c, l) =>
        let! (finish, l) := tcp_submit l c now id submit in
        let '(status, l) := finish_apply (N := N) finish l now in
        Ok (status, with_inner self l)
    end.

(** [Queries::has_udp], src/layer2/dns/src/storage/queries/mod.rs:246-253. *)
Definition q_has_udp (self : Queries) (spare : Z) : bool :=
  negb (ps_empty (lanes self) 0) || (negb (spare =? 0) && has_udp (reg (inner self))).
(** [Queries::has_stream], src/layer2/dns/src/storage/queries/mod.rs:255-257. *)
Definition q_has_stream (self : Queries) : bool := Live.any (live (reg (inner self))).
(** [Queries::has_pending], src/layer2/dns/src/storage/queries/mod.rs:259-266. *)
Definition q_has_pending (self : Queries) (server : Server) : bool :=
  ps_empty (lanes self) 0 && has_server (reg (inner self)) server.
(** [Queries::has_live], src/layer2/dns/src/storage/queries/mod.rs:268-274. *)
Definition q_has_live (self : Queries) (server : Server) : bool :=
  Live.contains (live (reg (inner self))) server.

Definition map_reg (self : Queries) (f : Registry T -> Registry T) : Queries :=
  with_inner self (with_reg (inner self) (f (reg (inner self)))).

(** [Queries::bind_udp], src/layer2/dns/src/storage/queries/mod.rs:276-278. *)
Definition q_bind_udp (self : Queries) : Queries :=
  map_reg self (fun g => with_ids g (Table.bind_udp (ids g))).
(** [Queries::exhaust_tcp], src/layer2/dns/src/storage/queries/mod.rs:280-286. *)
Definition exhaust_tcp (self : Queries) (cause : Kind) : Queries :=
  map_reg self (fun g => with_failure g (Some (default cause (stream_failure g)))).

(** The end of an operation on one claimed request: its row is written back. *)
Definition settle (self : Queries) (lane : Lane) (family : Family.Version)
    (s : Row V * Registry T) (now : Z) : Queries :=
  with_inner self (complete N (write_back (inner self) lane family s) lane now).

(** [Queries::fail_udp], src/layer2/dns/src/storage/queries/mod.rs:288-315. *)
Definition fail_udp (self : Queries) (id : Tx.Id) (epoch : Epoch.Epoch) (server : SocketAddr)
    (cause : Kind) (now : Z) : run Empty_set Queries :=
  let retry := Retry.from_config (q_config self) in
  match Table.udp_owner (ids (reg (inner self))) id with
  | None => Ok self
  | Some owner =>
      let lane := Branch.lane owner in
      if is_cancelled self lane then Ok self
      else
        let family := Branch.family owner in
        let! o := claim (inner self) lane family (FDatagram id epoch server) in
        match o with
        | None => Ok self
        | Some wait =>
            let! s := wait_failed wait retry now cause in
            Ok (settle self lane family s now)
        end
  end.

(** [Queries::undo_stream], src/layer2/dns/src/storage/queries/mod.rs:317-326. *)
Definition undo_stream (self : Queries) (id : Tx.Id) : run Empty_set Queries :=
  match Table.stream_owner (ids (reg (inner self))) id with
  | None => Ok self
  | Some owner =>
      if is_cancelled self (Branch.lane owner) then Ok self
      else
        let! l := rollback (inner self) (Branch.lane owner) (Branch.family owner) id in
        Ok (with_inner self l)
  end.

(** The work of one permit in [Queries::retire],
    src/layer2/dns/src/storage/queries/mod.rs:328-371. *)
Definition retire_branch (self : Queries) (server : Server) (end_ : Retirement) (now : Z)
    (owner : Index.Branch) : run Empty_set Queries :=
  let retry := Retry.from_config (q_config self) in
  let lane := Branch.lane owner in
  if is_cancelled self lane then Ok self
  else
    let family := Branch.family owner in
    let! o := claim (inner self) lane family (FStream server) in
    match o with
    | None => Ok self
    | Some wait =>
        let! s :=
          match end_ with
          | Resume => wait_drop wait
          | Expired =>
              if wait_deadline wait <=? now then wait_failed wait retry now KTimeout
              else wait_drop wait
          | Fail error => wait_failed wait retry now error
          end in
        Ok (settle self lane family s now)
    end.

(** The loop of [Queries::retire], src/layer2/dns/src/storage/queries/mod.rs:328-371. *)
Fixpoint retire_loop (work : nat) (self : Queries) (server : Server) (end_ : Retirement) (now : Z)
    (branches : Index.Retirement.Retirement)
    : run Empty_set (RetireStream * nat * Index.Retirement.Retirement * Queries) :=
  match Index.Retirement.next LANES branches with
  | None => Ok (RetireDone, work, branches, self)
  | Some (branch, next) =>
      match work with
      | O => Ok (RetireRetry, O, branches, self)
      | S work =>
          let! self := retire_branch self server end_ now branch in
          retire_loop work self server end_ now next
      end
  end.

(** [Queries::retire], src/layer2/dns/src/storage/queries/mod.rs:328-371. *)
Definition q_retire (work : nat) (self : Queries) (server : Server) (end_ : Retirement) (now : Z)
    (branches : Index.Retirement.Retirement)
    : run Empty_set (RetireStream * nat * Index.Retirement.Retirement * Queries) :=
  let g := reg (inner self) in
  if negb (Table.has_stream (ids g)) then Ok (RetireDone, work, branches, self)
  else
    let end_ := match stream_failure g with Some k => Fail k | None => end_ end in
    retire_loop work self server end_ now branches.

(** A result that is only used when it is [Ok]. *)
Definition ok_of {E A} (m : run E A) : run Empty_set (option A) :=
  match m with Ok a => Ok (Some a) | Err _ => Ok None | Stuck w => Stuck w end.

(** The decoder passed to [accept] in [udp],
    src/layer2/dns/src/storage/queries/receive.rs:12-72. *)
Definition decode_udp (msg : Response.Decoder) (source : SocketAddr) (family : Family.Version)
    (req : Request.Request V) (lease : Lease.Lease)
    : run Empty_set (option (Response.Datagram (V := V) * CookieCache.Cookie * Server)) :=
  match lease with
  | Lease.LTcp _ => Ok None
  | Lease.LUdp u =>
      if bool_decide (is_Some (Request.stream req))
         || negb (bool_decide (source = Request.address req))
      then Ok None
      else
        let! o := ok_of (Response.udp N msg (Request.name req) family
                           (CookieCache.client (Lease.u_cookie u))) in
        Ok (option_map (fun data => (data, Lease.u_cookie u, Request.server req)) o)
  end.

(** The end of [udp], src/layer2/dns/src/storage/queries/receive.rs:12-72: what a
    decoded datagram does to the request it answers. *)
Definition answer_udp (wait : WaitState (V := V) (T := T)) (data : Response.Datagram (V := V))
    (cookie : CookieCache.Cookie) (server : Server) (retry : Retry.Retry) (now : Z)
    : run Empty_set (Row V * Registry T) :=
  match data with
  | Response.Authenticated reply value =>
      let '(_, wait) := wait_cache wait cookie server value in
      wait_apply N wait reply retry now
  | Response.BadCookie value =>
      let '(kept, wait) := wait_cache wait cookie server value in
      if kept then wait_cookie wait else wait_stream wait
  | Response.StreamRequired => wait_stream wait
  end.

(** [udp], src/layer2/dns/src/storage/queries/receive.rs:12-72. *)
Definition receive_udp (self : Queries) (source : SocketAddr) (packet : bytes) (now : Z)
    : run Empty_set Queries :=
  let! o := ok_of (Response.try_new packet) in
  match o with
  | None => Ok self
  | Some msg =>
      let id := Response.transaction msg in
      let retry := Retry.from_config (q_config self) in
      match Table.udp_owner (ids (reg (inner self))) id with
      | None => Ok self
      | Some owner =>
          let lane := Branch.lane owner in
          if is_cancelled self lane then Ok self
          else
            let family := Branch.family owner in
            let! o := accept (inner self) lane family (FLive id now)
                        (decode_udp msg source family) in
            match o with
            | None => Ok self
            | Some (wait, (data, cookie, server)) =>
                let! s := answer_udp wait data cookie server retry now in
                Ok (settle self lane family s now)
            end
      end
  end.

(** The decoder passed to [accept] in [stream],
    src/layer2/dns/src/storage/queries/receive.rs:74-115. *)
Definition decode_stream (msg : Response.Decoder) (server : Server) (family : Family.Version)
    (req : Request.Request V) (lease : Lease.Lease)
    : run Empty_set (option (Answer.Reply V + Malformed)) :=
  match lease with
  | Lease.LUdp _ => Ok None
  | Lease.LTcp _ =>
      if negb (bool_decide (Request.stream req = Some server)) then Ok None
      else
        cases (Response.decode N msg (Request.name req) family)
          (fun reply => Ok (Some (inl reply)))
          (fun e => Ok (Some (inr e)))
  end.

(** [stream], src/layer2/dns/src/storage/queries/receive.rs:74-115. *)
Definition receive_stream (self : Queries) (server : Server) (msg : Response.Decoder) (now : Z)
    : run Empty_set (StreamStatus * Queries) :=
  let id := Response.transaction msg in
  let retry := Retry.from_config (q_config self) in
  match Table.stream_owner (ids (reg (inner self))) id with
  | None => Ok (read_status self server, self)
  | Some owner =>
      let lane := Branch.lane owner in
      if is_cancelled self lane then Ok (read_status self server, self)
      else
        let family := Branch.family owner in
        let! o := accept (inner self) lane family (FLive id now)
                    (decode_stream msg server family) in
        match o with
        | None => Ok (read_status self server, self)
        | Some (wait, decoded) =>
            let! s :=
              match decoded with
              | inl reply => wait_apply N wait reply retry now
              | inr error => wait_failed wait retry now (KMalformed error)
              end in
            let self := settle self lane family s now in
            Ok (read_status self server, self)
        end
  end.

(** [Lane::start], src/layer2/dns/src/storage/queries/mod.rs:426-440. *)
Definition lane_start (self : Queries) (lane : Lane) (reason : Reason.Reason) (unix : Z)
    (name : Host.Name) (now : Z) : run Empty_set (option Clock.Range * Queries) :=
  match Clock.try_add now (Config.total_timeout (Config.v_query (q_config self))) with
  | Err range => Ok (Some range, self)
  | Stuck w => Stuck w
  | Ok hard =>
      let! s := seed_new reason unix now hard name (q_config self) in
      let! l := start (inner self) lane s in
      Ok (None, with_inner self l)
  end.

(** [Lane::poll], src/layer2/dns/src/storage/queries/mod.rs:442-450. *)
Definition lane_poll (self : Queries) (lane : Lane) (now : Z)
    : run Empty_set (Poll V * Queries) :=
  let retry := Retry.from_config (q_config self) in
  let! (slot, g) := ledger_write (inner self) lane in
  let! (p, slot, g) := slot_poll N slot now retry g in
  Ok (p, with_inner self (put_slot (with_reg (inner self) g) lane slot)).

(** [Lane::is_ready], src/layer2/dns/src/storage/queries/mod.rs:452-455. *)
Definition lane_is_ready (self : Queries) (lane : Lane) : run Empty_set bool :=
  let! (slot, g) := ledger_write (inner self) lane in
  Ok (slot_is_ready slot (bool_decide (is_Some (stream_failure g)))).
End queries.
Arguments Queries {_ _} V T.
End Queries.
