(* ===== verification/QueriesFacts.v ===== *)
(** * The query store is safe.

    Every operation of the query store ends without a panic, without undefined
    behaviour and with the registry in step with the lookups, in every state
    any sequence of operations can reach. *)

From stdpp Require Import gmap.
From S2P Require Import Prelude Depot Random Time Errors Host Packet PacketFacts Response ResponseFacts Frames FramesFacts Index Config Transactions Query RegistryFacts QueryFacts Ledger LedgerFacts StartFacts Queries.

Import Registry Query Ledger Starts Queries.
#[local] Existing Instance Family.version_eq_dec.

Section queries_facts.
Context `{InlineBytesLaws} `{Payloads} {V : Type -> Type} `{CopyVecLaws V} (N : nat)
  {T : Type} `{PlaneSetLaws T} {B : Type} `{FillLaws B}.
Context (LANES : Z) (HL : 0 <= LANES <= MAX_LANES) (l : list Net.SocketAddr).

Abbreviation n := (2 * LANES).
Abbreviation Queries := (Queries V T).

(** A configuration that came through validation, over the servers [l]. *)
Record config_sound (c : Config.Validated V) : Prop := {
  cs_servers : cv_slice (Config.v_servers c) = imap (cycle_row l) l;
  cs_nonempty : l <> [];
  cs_attempts : 1 <= Config.attempts (Config.v_query c);
  cs_timeout : 0 < Config.attempt_timeout (Config.v_query c);
}.

Record Queries_ok (q : Queries) : Prop := {
  z_ledger : Ledger_ok LANES l (Config.attempts (Config.v_query (q_config q))) (inner q);
  z_lanes : forall p i, ps_mem (lanes q) p i = true -> (p = 0 \/ p = 1)%nat /\ 0 <= i < LANES;
  z_apart : forall i, ps_mem (lanes q) 0 i = true -> ps_mem (lanes q) 1 i = false;
  z_config : config_sound (q_config q);
}.

(** A lane some lookup holds: neither free nor cancelled. *)
Definition held (q : Queries) (lane : Lane) : Prop :=
  0 <= lane < LANES /\ ps_mem (lanes q) 0 lane = false /\ ps_mem (lanes q) 1 lane = false.

Lemma inner_ok q L : Queries_ok q ->
  Ledger_ok LANES l (Config.attempts (Config.v_query (q_config q))) L -> Queries_ok (with_inner q L).
Proof. intros [Hi Hl Ha Hc] HL'. by split. Qed.

(** ** Lanes *)

Lemma lanes_set q p i : Queries_ok q -> (p = 0 \/ p = 1)%nat -> held q i ->
  Queries_ok (with_lanes q (ps_set (lanes q) p i)).
Proof.
  intros [Hi Hl Ha Hc] Hp (Hr & H0' & H1'). split; simpl; try done.
  - intros p' j. rewrite ps_mem_set. intros [[<- <-]%bool_decide_eq_true|Hm]%orb_true_iff; [done|by apply Hl].
  - intros j. rewrite !ps_mem_set. intros [[-> ->]%bool_decide_eq_true|Hm]%orb_true_iff.
    + rewrite H1', orb_false_r. apply bool_decide_eq_false_2. by intros [? _].
    + rewrite (Ha _ Hm), orb_false_r. apply bool_decide_eq_false_2. intros [_ ->]. congruence.
Qed.

Lemma lanes_take q p i rest : Queries_ok q -> takes (lanes q) p (Some (i, rest)) ->
  Queries_ok (with_lanes q rest) /\ held (with_lanes q rest) i.
Proof.
  intros [Hi Hl Ha Hc] [Hm Hrest]. destruct (Hl _ _ Hm) as [Hp Hr]. split.
  - split; simpl; try done.
    + intros p' j. rewrite Hrest. intros [Hm' _]%andb_true_iff. by apply Hl.
    + intros j. rewrite !Hrest. intros [Hm' _]%andb_true_iff. by rewrite (Ha _ Hm').
  - split; [done|]. simpl. rewrite !Hrest.
    destruct Hp as [-> | ->].
    + rewrite (Ha _ Hm), andb_false_l. split; [|done].
      by rewrite bool_decide_eq_true_2, andb_false_r.
    + assert (ps_mem (lanes q) 0 i = false) as ->.
      { destruct (ps_mem (lanes q) 0 i) eqn:E; [|done]. apply Ha in E. congruence. }
      split; [done|]. by rewrite bool_decide_eq_true_2, andb_false_r.
Qed.

Lemma cleanup_ok work : forall q, Queries_ok q ->
  exists b w q', cleanup work q = Ok (b, w, q') /\ Queries_ok q'.
Proof.
  induction work as [|work IH]; intros q Hq; cbn [cleanup];
    pose proof (ps_takes (lanes q) 0) as Ht; destruct (ps_take (lanes q) 0) as [[i rest]|];
    try (do 3 eexists; done); destruct (lanes_take q 0 i rest Hq Ht) as [Hq1 Hh].
  - do 3 eexists. split; [done|]. apply (lanes_set (with_lanes q rest)); auto.
  - destruct (retire_lane_ok (T := T) LANES HL l _ (inner q) i (z_ledger _ Hq) (proj1 Hh))
      as (L' & -> & HL' & _). simpl. apply IH.
    apply (inner_ok (with_lanes q (ps_set rest 1 i)) L'); [|done].
    apply (lanes_set (with_lanes q rest)); auto.
Qed.

Lemma lane_claim_ok q : Queries_ok q ->
  exists o q', lane_claim q = Ok (o, q') /\ Queries_ok q'
    /\ match o with Some lane => held q' lane | None => True end.
Proof.
  intros Hq. unfold lane_claim. pose proof (ps_takes (lanes q) 1) as Ht.
  destruct (ps_take (lanes q) 1) as [[i rest]|].
  { destruct (lanes_take q 1 i rest Hq Ht). do 2 eexists. done. }
  clear Ht. pose proof (ps_takes (lanes q) 0) as Ht.
  destruct (ps_take (lanes q) 0) as [[i rest]|]; [|do 2 eexists; done].
  destruct (lanes_take q 0 i rest Hq Ht) as [Hq1 Hh].
  destruct (retire_lane_ok (T := T) LANES HL l _ (inner q) i (z_ledger _ Hq) (proj1 Hh))
    as (L' & -> & HL' & _). simpl. do 2 eexists. split; [done|]. split; [|done].
  by apply (inner_ok (with_lanes q rest) L').
Qed.

(** ** Starting *)

Lemma finish_ok {A} q (fin : Finish A) L now : Queries_ok q ->
  Ledger_ok LANES l (Config.attempts (Config.v_query (q_config q))) L -> finish_lane fin ->
  Queries_ok (with_inner q (finish_apply (N := N) fin L now).2).
Proof.
  intros Hq HL' Hf. apply inner_ok; [done|]. destruct fin as [a|a lane]; [done|].
  by apply complete_ok.
Qed.

Lemma admit_udp_ok q now work random (submit : Frames.Datagram B -> Server -> Starts.Submission) :
  Queries_ok q -> exists a w q', admit_udp N q now work random submit = Ok (a, w, q') /\ Queries_ok q'.
Proof.
  intros Hq. unfold admit_udp. pose proof (cs_attempts _ (z_config _ Hq)) as Ha.
  pose proof (start_plane_spec LANES HL l _ (inner q) 0 (z_ledger _ Hq)) as Hs.
  destruct (start_plane (inner q) 0) as [[c L]|]; [|by do 3 eexists].
  destruct Hs as (lane & f & qq & a & Hc & Hp & _).
  destruct work as [|work].
  { do 3 eexists. split; [done|]. apply inner_ok; [done|]. by eapply claim_drop_ok. }
  destruct (udp_start_ok LANES HL l _ L c lane f qq a now random submit Hc Hp)
    as (fin & L' & -> & HL' & Hf & _). cbn [Prelude.bind].
  pose proof (finish_ok q fin L' now Hq HL' Hf) as Hfin.
  destruct (finish_apply fin L' now) as [st L2]. do 3 eexists. split; [done|]. exact Hfin.
Qed.

Lemma submit_stream_ok q now server id (submit : Stream.Frame B -> Stream.Admission B) :
  Queries_ok q -> is_id id -> Stream.linear submit ->
  exists st q', submit_stream N q now server id submit = Ok (st, q') /\ Queries_ok q'.
Proof.
  intros Hq Hid Hlin. unfold submit_stream. pose proof (cs_attempts _ (z_config _ Hq)) as Ha.
  destruct (negb (ps_empty (lanes q) 0)); [by do 2 eexists|].
  pose proof (start_plane_spec LANES HL l _ (inner q) (plane_id (Some server)) (z_ledger _ Hq)) as Hs.
  destruct (start_plane (inner q) (plane_id (Some server))) as [[c L]|]; [|by do 2 eexists].
  destruct Hs as (lane & f & qq & a & Hc & Hp & _).
  destruct (tcp_start_ok LANES HL l _ L c lane f qq a server now id submit Hc Hp Hid Hlin)
    as (fin & L' & -> & HL' & Hf & _). cbn [Prelude.bind].
  pose proof (finish_ok q fin L' now Hq HL' Hf) as Hfin.
  destruct (finish_apply fin L' now) as [st L2]. do 2 eexists. split; [done|]. exact Hfin.
Qed.

(** ** Registry-wide changes *)

Lemma map_reg_ok q g : Queries_ok q -> Reg_ok n (view (inner q)) g ->
  Queries_ok (with_inner q (with_reg (inner q) g)).
Proof. intros Hq Hg. apply inner_ok; [done|]. destruct (z_ledger _ Hq). by split. Qed.

Lemma bind_udp_ok q : Queries_ok q -> Queries_ok (q_bind_udp q).
Proof.
  intros Hq. apply map_reg_ok; [done|].
  destruct (l_reg _ _ _ _ (z_ledger _ Hq)) as [Hp Hlv Hf (U & S & Ht & Hu & Hs)].
  eapply reg_table; [by split; [| | |by exists U, S]|by apply bind_udp_spec|done|done].
Qed.

Lemma exhaust_tcp_ok q cause : Queries_ok q -> Queries_ok (exhaust_tcp q cause).
Proof. intros Hq. apply map_reg_ok; [done|]. apply reg_failure, (z_ledger _ Hq). Qed.

(** ** Taken requests *)

Lemma udp_owner_lane q id b : Queries_ok q -> is_id id ->
  Table.udp_owner (ids (reg (inner q))) id = Some b ->
  exists i, ordinal n i /\ b = Branch.from_ordinal i.
Proof.
  intros Hq Hid Hb. destruct (l_reg _ _ _ _ (z_ledger _ Hq)) as [_ _ _ (U & S & Ht & [_ Hu] & _)].
  destruct (Hu id b) as (i & a & x & Hi & -> & _); [|by exists i].
  by rewrite (t_udp _ _ _ Ht), decide_True by done.
Qed.

Lemma stream_owner_lane q id b : Queries_ok q -> is_id id ->
  Table.stream_owner (ids (reg (inner q))) id = Some b ->
  exists i, ordinal n i /\ b = Branch.from_ordinal i.
Proof.
  intros Hq Hid Hb. destruct (l_reg _ _ _ _ (z_ledger _ Hq)) as [_ _ _ (U & S & Ht & _ & [_ Hs])].
  destruct (Hs id b) as (i & a & x & Hi & -> & _); [|by exists i].
  by rewrite (t_tcp _ _ _ Ht), decide_True by done.
Qed.

Lemma lane_of_ordinal i : ordinal n i -> 0 <= Branch.lane (Branch.from_ordinal i) < LANES.
Proof. apply lane_nonneg. exact HL. Qed.

(** A taken request, settled and completed. *)
Lemma settle_queries q lane f w qq x now m : Queries_ok q -> 0 <= lane ->
  Taken LANES l (Config.attempts (Config.v_query (q_config q))) (inner q) lane f w qq x ->
  settles n l (Config.attempts (Config.v_query (q_config q))) (hard_deadline qq) (view (inner q))
    (ord lane f) (reg (inner q)) m ->
  exists s, m = Ok s /\ Queries_ok (settle N q lane f s now).
Proof.
  intros Hq Hl Ht Hm. destruct (settle_ok LANES HL l _ (inner q) lane f w qq x m (z_ledger _ Hq) Hl Ht Hm)
    as (s & -> & Hw & _). exists s. split; [done|]. apply inner_ok; [done|]. by apply complete_ok.
Qed.

(** A taken request, moved by a transition of its row. *)
Lemma taken_queries q lane f w qq x now m : Queries_ok q -> 0 <= lane < LANES ->
  Taken LANES l (Config.attempts (Config.v_query (q_config q))) (inner q) lane f w qq x ->
  (forall h, Reg_ok n h (w_reg w) -> h (ord lane f) = HHeld (w_probe w) ->
     entry (w_slot w) = ord lane f ->
     att_ok l (Config.attempts (Config.v_query (q_config q))) (w_hard w) (w_probe w) ->
     settles n l (Config.attempts (Config.v_query (q_config q))) (w_hard w) h (ord lane f) (w_reg w) (m w)) ->
  exists s, m w = Ok s /\ Queries_ok (settle N q lane f s now).
Proof.
  intros Hq Hl Ht Hm. eapply settle_queries; [done|lia|exact Ht|].
  eapply (taken_settles LANES l _ _ lane f w qq x m); [apply Hq|done|exact Ht|exact Hm].
Qed.

Lemma claim_spec q lane f filter : Queries_ok q -> 0 <= lane < LANES ->
  claim (inner q) lane f filter = Ok None
  \/ exists w qq x, claim (inner q) lane f filter = Ok (Some w)
       /\ Taken LANES l (Config.attempts (Config.v_query (q_config q))) (inner q) lane f w qq x
       /\ matches filter (w_probe w) x = true.
Proof.
  intros Hq Hl. unfold claim.
  destruct (accept_spec LANES HL l _ (inner q) lane f filter (fun _ _ => Ok (Some tt))
    (z_ledger _ Hq) ltac:(lia) ltac:(done)) as [->|(w & d & qq & x & -> & Ht & Hm & _)]; simpl.
  - by left.
  - right. exists w, qq, x. done.
Qed.

Lemma failed_ok q lane f w qq x now cause : Queries_ok q -> 0 <= lane < LANES ->
  Taken LANES l (Config.attempts (Config.v_query (q_config q))) (inner q) lane f w qq x ->
  exists s, wait_failed w (Retry.from_config (q_config q)) now cause = Ok s
    /\ Queries_ok (settle N q lane f s now).
Proof.
  intros Hq Hl Ht. pose proof (cs_attempts _ (z_config _ Hq)) as Ha.
  eapply (taken_queries q lane f w qq x now
    (fun w => wait_failed w (Retry.from_config (q_config q)) now cause)); try done.
  intros h Hok Hh He Hatt. by eapply wait_failed_settles.
Qed.

Lemma dropped_ok q lane f w qq x now : Queries_ok q -> 0 <= lane < LANES ->
  Taken LANES l (Config.attempts (Config.v_query (q_config q))) (inner q) lane f w qq x ->
  exists s, wait_drop w = Ok s /\ Queries_ok (settle N q lane f s now).
Proof.
  intros Hq Hl Ht. eapply (taken_queries q lane f w qq x now wait_drop); try done.
  intros h Hok Hh He Hatt. by eapply wait_drop_settles.
Qed.

(** ** Failures reported by the sockets *)

Lemma fail_udp_ok q id epoch server cause now : Queries_ok q -> is_id id ->
  exists q', fail_udp N q id epoch server cause now = Ok q' /\ Queries_ok q'.
Proof.
  intros Hq Hid. unfold fail_udp.
  destruct (Table.udp_owner _ id) as [b|] eqn:Hb; [|by eexists].
  destruct (udp_owner_lane q id b Hq Hid Hb) as (i & Hi & ->).
  pose proof (lane_of_ordinal i Hi) as Hlane.
  destruct (is_cancelled q _); [by eexists|].
  destruct (claim_spec q _ (Branch.family (Branch.from_ordinal i)) (FDatagram id epoch server) Hq Hlane)
    as [->|(w & qq & x & -> & Ht & _)]; cbn [Prelude.bind]; [by eexists|].
  destruct (failed_ok q _ _ w qq x now cause Hq Hlane Ht) as (s & -> & Hs). by eexists.
Qed.

Lemma undo_stream_ok q id : Queries_ok q -> is_id id ->
  exists q', undo_stream q id = Ok q' /\ Queries_ok q'.
Proof.
  intros Hq Hid. unfold undo_stream.
  destruct (Table.stream_owner _ id) as [b|] eqn:Hb; [|by eexists].
  destruct (stream_owner_lane q id b Hq Hid Hb) as (i & Hi & ->).
  pose proof (lane_of_ordinal i Hi) as Hlane.
  destruct (is_cancelled q _); [by eexists|]. unfold rollback.
  destruct (claim_spec q _ (Branch.family (Branch.from_ordinal i)) (FId id) Hq Hlane)
    as [->|(w & qq & x & -> & Ht & _)]; cbn [Prelude.bind].
  { eexists. split; [done|]. apply inner_ok; [done|apply Hq]. }
  eexists. split; [done|]. apply inner_ok; [done|].
  destruct (settle_ok LANES HL l _ (inner q) _ _ w qq x (wait_drop w) (z_ledger _ Hq) (proj1 Hlane) Ht)
    as (s & [= <-] & Hw & _); [|exact Hw].
  eapply (taken_settles LANES l _ _ _ _ w qq x wait_drop); [apply Hq|done|exact Ht|].
  intros h Hok Hh He Hatt. by eapply wait_drop_settles.
Qed.

Lemma retire_branch_ok q server e now b : Queries_ok q -> 0 <= Branch.lane b < LANES ->
  exists q', retire_branch N q server e now b = Ok q' /\ Queries_ok q'.
Proof.
  intros Hq Hlane. unfold retire_branch. destruct (is_cancelled q _); [by eexists|].
  destruct (claim_spec q _ (Branch.family b) (FStream server) Hq Hlane)
    as [->|(w & qq & x & -> & Ht & _)]; cbn [Prelude.bind]; [by eexists|].
  destruct e as [| |error].
  - destruct (dropped_ok q _ _ w qq x now Hq Hlane Ht) as (s & -> & Hs). by eexists.
  - case_match.
    + destruct (failed_ok q _ _ w qq x now LookupError.KTimeout Hq Hlane Ht) as (s & -> & Hs). by eexists.
    + destruct (dropped_ok q _ _ w qq x now Hq Hlane Ht) as (s & -> & Hs). by eexists.
  - destruct (failed_ok q _ _ w qq x now error Hq Hlane Ht) as (s & -> & Hs). by eexists.
Qed.

(** ** Retiring a stream *)

Lemma retire_next branches : 0 <= branches ->
  match Index.Retirement.next LANES branches with
  | None => branches = 2 * LANES
  | Some (b, rest) => rest = branches + 1 /\ (branches <= 2 * LANES ->
      ordinal n branches /\ b = Branch.from_ordinal branches)
  end.
Proof.
  intros Hb. unfold Index.Retirement.next, Index.Retirement.LIMIT.
  pose proof (branches_bound LANES HL). rewrite as_u16_small by lia. rewrite Z.mul_comm.
  destruct (Z.eqb_spec branches (2 * LANES)); [done|]. split; [done|]. unfold ordinal. intros. split; [lia|done].
Qed.

Definition visited (branches : Z) : Prop := 0 <= branches <= 2 * LANES.

Lemma retire_loop_ok server e now work : forall q branches, Queries_ok q -> visited branches ->
  exists r w b q', retire_loop N LANES work q server e now branches = Ok (r, w, b, q')
    /\ Queries_ok q' /\ visited b /\ branches <= b
    /\ match r with RetireDone => b = 2 * LANES | RetireRetry => w = O /\ b = branches + Z.of_nat work /\ b < 2 * LANES end.
Proof.
  induction work as [|work IH]; intros q branches Hq Hc; cbn [retire_loop];
    pose proof (retire_next branches (proj1 Hc)) as Hnext;
    destruct (Index.Retirement.next LANES branches) as [[b rest]|].
  - destruct Hnext as [_ Hord]. destruct (Hord (proj2 Hc)) as [[_ Hlt] _].
    do 4 eexists. split; [done|]. split; [done|]. split; [done|]. split; [lia|]. split; [done|lia].
  - do 4 eexists. split; [done|]. split; [done|]. split; [done|]. split; [lia|done].
  - destruct Hnext as [-> Hord]. destruct Hc as [Hc1 Hc2]. destruct (Hord Hc2) as [Hi ->].
    destruct (retire_branch_ok q server e now _ Hq (lane_of_ordinal _ Hi)) as (q' & -> & Hq').
    cbn [Prelude.bind].
    destruct (IH q' (branches + 1) Hq') as (r & w & b & q2 & -> & Hq2 & Hc' & Hle & Hr).
    { unfold visited, ordinal in *. lia. }
    do 4 eexists. split; [done|]. split; [done|]. split; [done|]. split; [lia|].
    destruct r; [done|]. split; [apply Hr|]. destruct Hr as (_ & -> & ?). lia.
  - do 4 eexists. split; [done|]. split; [done|]. split; [done|]. split; [lia|done].
Qed.

Lemma q_retire_ok work q server e now branches : Queries_ok q -> visited branches ->
  exists r w b q', q_retire N LANES work q server e now branches = Ok (r, w, b, q')
    /\ Queries_ok q' /\ visited b.
Proof.
  intros Hq Hc. unfold q_retire. destruct (negb _); [by do 4 eexists|].
  destruct (retire_loop_ok server
    (match stream_failure (reg (inner q)) with Some k => Fail k | None => e end) now work q branches Hq Hc)
    as (r & w & b & q' & -> & Hq' & Hc' & _). by do 4 eexists.
Qed.

(** ** Replies *)

Lemma ok_of_not_stuck {E A} (m : run E A) : not_stuck m -> exists o, ok_of m = Ok o.
Proof. destruct m; simpl; [by eexists|by eexists|done]. Qed.

Lemma decoded_transaction packet d : Forall is_byte packet -> Response.try_new packet = Ok d ->
  is_id (Response.transaction d).
Proof.
  intros Hb Hd. destruct (try_new_Ok _ _ Hb Hd) as (_ & Hl & Hp & Ht). unfold Response.transaction.
  rewrite Ht. rewrite Hp in Hl. unfold slice. destruct packet as [|x [|y r]]; try done.
  inversion_clear Hb as [|?? Hx Hr]. inversion_clear Hr as [|?? Hy _].
  unfold is_id, is_byte, of_be in *. simpl. lia.
Qed.

Lemma decode_udp_not_stuck packet d source f req x : Forall is_byte packet ->
  Response.try_new packet = Ok d -> not_stuck (decode_udp (V := V) N d source f req x).
Proof.
  intros Hb Hd. unfold decode_udp. destruct x as [u|id]; [|done]. case_match; [done|].
  destruct (ok_of_not_stuck _ (udp_not_stuck_of (V := V) N packet d (Request.name req) f
    (CookieCache.client (Lease.u_cookie u)) Hb Hd)) as (o & ->). done.
Qed.

(** What [decode_udp] accepts answers the request. *)
Lemma decode_udp_Ok packet d source f req x data ck srv : Forall is_byte packet ->
  Response.try_new packet = Ok d ->
  decode_udp (V := V) N d source f req x = Ok (Some (data, ck, srv)) ->
  exists u, x = Lease.LUdp u /\ ck = Lease.u_cookie u /\ srv = Request.server req
    /\ Request.stream req = None /\ source = Request.address req
    /\ Response.udp N d (Request.name req) f (CookieCache.client ck) = Ok data.
Proof.
  intros Hb Hd. unfold decode_udp. destruct x as [u|id]; [|done].
  destruct (_ || _) eqn:Ho; [done|]. apply orb_false_iff in Ho as [Hs Ha].
  apply bool_decide_eq_false in Hs. apply negb_false_iff, bool_decide_eq_true in Ha.
  destruct (Response.udp _ _ _ _ _) as [r|e|w] eqn:Hu; simpl; try done.
  intros [= <- <- <-]. exists u. do 3 (split; [done|]). split; [by apply eq_None_not_Some|]. done.
Qed.

Lemma answer_ok q lane f w qq x data ck srv now : Queries_ok q -> 0 <= lane < LANES ->
  Taken LANES l (Config.attempts (Config.v_query (q_config q))) (inner q) lane f w qq x ->
  (forall reply s, data = Response.Authenticated reply s -> reply_ok reply) ->
  exists s, answer_udp N w data ck srv (Retry.from_config (q_config q)) now = Ok s
    /\ Queries_ok (settle N q lane f s now).
Proof.
  intros Hq Hl Ht Hd. pose proof (cs_attempts _ (z_config _ Hq)) as Ha.
  pose proof (branches_bound LANES HL) as Hb. pose proof (ord_ordinal LANES lane f Hl) as Hi.
  eapply (taken_queries q lane f w qq x now
    (fun w => answer_udp N w data ck srv (Retry.from_config (q_config q)) now)); try done.
  intros h Hok Hh He Hatt.
  assert (Hc : forall value, Reg_ok n h (with_ids (w_reg w) (Table.cache (ids (w_reg w)) ck srv value).2)).
  { intros value. pose proof Hok as [_ _ _ (U & S & Htab & Hu & Hs)].
    eapply reg_table; [exact Hok|by apply cache_spec|exact Hu|exact Hs]. }
  destruct data as [reply value|value|]; unfold answer_udp, wait_cache.
  - specialize (Hc value). destruct (Table.cache _ _ _ _) as [kept t]. unfold wait_apply. simpl in *.
    eapply (apply_settles N n Hb l _ Ha (w_hard w) h (ord lane f) (with_ids (w_reg w) t)); try done.
    by eapply Hd.
  - specialize (Hc value). destruct (Table.cache _ _ _ _) as [kept t]. simpl in *.
    destruct kept; unfold wait_cookie, wait_stream; simpl.
    + by apply (cookie_settles n Hb l _ (w_hard w) h (ord lane f) (with_ids (w_reg w) t)).
    + by apply (stream_settles n Hb l _ (w_hard w) h (ord lane f) (with_ids (w_reg w) t)).
  - unfold wait_stream. by apply stream_settles.
Qed.

Lemma receive_udp_ok q source packet now : Queries_ok q -> Forall is_byte packet ->
  exists q', receive_udp N q source packet now = Ok q' /\ Queries_ok q'.
Proof.
  intros Hq Hb. unfold receive_udp. destruct (Response.try_new packet) as [d|e|w] eqn:Hd; simpl.
  2: by eexists.
  2: { unfold Response.try_new, Packet.try_new in Hd. destruct (_ <? _); [done|]. simpl in Hd.
       by destruct packet as [|? [|??]]. }
  pose proof (decoded_transaction packet d Hb Hd) as Hid.
  destruct (Table.udp_owner _ _) as [b|] eqn:Howner; [|by eexists].
  destruct (udp_owner_lane q _ b Hq Hid Howner) as (i & Hi & ->).
  pose proof (lane_of_ordinal i Hi) as Hlane. destruct (is_cancelled q _); [by eexists|].
  set (f := Branch.family (Branch.from_ordinal i)). set (lane := Branch.lane (Branch.from_ordinal i)) in *.
  destruct (accept_spec LANES HL l _ (inner q) lane f (FLive (Response.transaction d) now)
    (decode_udp N d source f) (z_ledger _ Hq) (proj1 Hlane)
    (fun r x => decode_udp_not_stuck packet d source f r x Hb Hd))
    as [->|(w & [[data ck] srv] & qq & x & -> & Ht & _ & Hdec)]; cbn [Prelude.bind]; [by eexists|].
  destruct (decode_udp_Ok packet d source f _ x data ck srv Hb Hd Hdec) as (u & _ & _ & _ & _ & _ & Hu).
  destruct (answer_ok q lane f w qq x data ck srv now Hq Hlane Ht) as (s & -> & Hs).
  - intros reply s ->. by eapply udp_reply_ok.
  - by eexists.
Qed.

Lemma decode_stream_spec packet d server f req x : Forall is_byte packet ->
  Response.try_new packet = Ok d ->
  not_stuck (decode_stream (V := V) N d server f req x)
  /\ forall v, decode_stream (V := V) N d server f req x = Ok (Some v) ->
       (exists t, x = Lease.LTcp t) /\ Request.stream req = Some server
       /\ match v with
          | inl reply => reply_ok reply /\ Response.decode N d (Request.name req) f = Ok reply
          | inr e => Response.decode (V := V) N d (Request.name req) f = Err e
          end.
Proof.
  intros Hb Hd. unfold decode_stream. destruct x as [u|id]; [done|]. case_bool_decide as Hs; simpl; [|done].
  pose proof (decode_not_stuck_of (V := V) N packet d (Request.name req) f Hb Hd) as Hns.
  destruct (Response.decode _ _ _ _) as [reply|e|w] eqn:Hdec; simpl; [| |done].
  - split; [done|]. intros v [= <-]. split; [by eexists|]. split; [done|].
    split; [by eapply decode_reply_ok|done].
  - split; [done|]. intros v [= <-]. split; [by eexists|done].
Qed.

Lemma apply_ok q lane f w qq x reply now : Queries_ok q -> 0 <= lane < LANES ->
  Taken LANES l (Config.attempts (Config.v_query (q_config q))) (inner q) lane f w qq x ->
  reply_ok reply ->
  exists s, wait_apply N w reply (Retry.from_config (q_config q)) now = Ok s
    /\ Queries_ok (settle N q lane f s now).
Proof.
  intros Hq Hl Ht Hr. pose proof (cs_attempts _ (z_config _ Hq)) as Ha.
  pose proof (branches_bound LANES HL) as Hb.
  eapply (taken_queries q lane f w qq x now
    (fun w => wait_apply N w reply (Retry.from_config (q_config q)) now)); try done.
  intros h Hok Hh He Hatt. apply (apply_settles N n Hb l _ Ha); try done. by apply ord_ordinal.
Qed.

Lemma receive_stream_ok q server packet d now : Queries_ok q -> Forall is_byte packet ->
  Response.try_new packet = Ok d ->
  exists st q', receive_stream N q server d now = Ok (st, q') /\ Queries_ok q'
    /\ st = read_status q' server.
Proof.
  intros Hq Hb Hd. unfold receive_stream. pose proof (decoded_transaction packet d Hb Hd) as Hid.
  destruct (Table.stream_owner _ _) as [b|] eqn:Howner; [|by do 2 eexists].
  destruct (stream_owner_lane q _ b Hq Hid Howner) as (i & Hi & ->).
  pose proof (lane_of_ordinal i Hi) as Hlane. destruct (is_cancelled q _); [by do 2 eexists|].
  set (f := Branch.family (Branch.from_ordinal i)). set (lane := Branch.lane (Branch.from_ordinal i)) in *.
  destruct (accept_spec LANES HL l _ (inner q) lane f (FLive (Response.transaction d) now)
    (decode_stream N d server f) (z_ledger _ Hq) (proj1 Hlane)
    (fun r x => proj1 (decode_stream_spec packet d server f r x Hb Hd)))
    as [->|(w & v & qq & x & -> & Ht & _ & Hdec)]; cbn [Prelude.bind]; [by do 2 eexists|].
  apply (decode_stream_spec packet d server f _ x Hb Hd) in Hdec as (_ & _ & Hv).
  destruct v as [reply|e].
  - destruct (apply_ok q lane f w qq x reply now Hq Hlane Ht (proj1 Hv)) as (s & -> & Hs).
    by do 2 eexists.
  - destruct (failed_ok q lane f w qq x now (LookupError.KMalformed e) Hq Hlane Ht) as (s & -> & Hs).
    by do 2 eexists.
Qed.

(** ** Lanes of lookups *)

Lemma lane_drop_ok q lane : Queries_ok q -> held q lane -> Queries_ok (lane_drop q lane).
Proof. intros Hq Hh. apply lanes_set; auto. Qed.

Lemma seed_new_ok q reason unix now hard name : Queries_ok q -> Host.parse name = Ok name ->
  exists sd, seed_new reason unix now hard name (q_config q) = Ok sd
    /\ seed_ok l sd /\ s_hard sd = hard.
Proof.
  intros Hq Hname. destruct (z_config _ Hq) as [Hsv Hne Ha _]. unfold seed_new.
  destruct (selects_at (E := Empty_set) l _ 0 Hsv) as (sel & Hsel & Hok).
  { destruct l; [done|simpl; lia]. }
  unfold Config.first. rewrite Hsel. simpl. eexists. split; [done|]. split; [|done].
  split; [apply deadline_hard|]. split; [by eexists|done].
Qed.

Lemma lane_start_ok q lane reason unix name now : Queries_ok q -> 0 <= lane < LANES ->
  Host.parse name = Ok name ->
  exists o q', lane_start q lane reason unix name now = Ok (o, q') /\ Queries_ok q'
    /\ lanes q' = lanes q.
Proof.
  intros Hq Hl Hname. unfold lane_start.
  destruct (Clock.try_add now _) as [hard|r|w] eqn:Hadd; [|by do 2 eexists|].
  - destruct (seed_new_ok q reason unix now hard name Hq Hname) as (sd & -> & Hsd & _).
    cbn [Prelude.bind].
    destruct (start_ok LANES HL l _ (cs_attempts _ (z_config _ Hq)) (inner q) lane sd (z_ledger _ Hq) Hl Hsd)
      as (L' & qq & -> & HL' & _). cbn [Prelude.bind].
    do 2 eexists. split; [done|]. split; [by apply inner_ok|done].
  - unfold Clock.try_add in Hadd. by destruct (checked_add _ _).
Qed.

Lemma lane_poll_ok q lane now : Queries_ok q -> 0 <= lane < LANES ->
  exists p q', lane_poll N q lane now = Ok (p, q') /\ Queries_ok q' /\ lanes q' = lanes q.
Proof.
  intros Hq Hl. unfold lane_poll, ledger_write.
  destruct (slot_exists LANES l _ (inner q) lane (z_ledger _ Hq) Hl) as [s Hs]. rewrite Hs.
  cbn [Prelude.bind].
  destruct (poll_slot N LANES HL l _ (inner q) lane s now
    (Retry.from_config (q_config q)) (z_ledger _ Hq) Hl Hs eq_refl) as (p & s' & g' & -> & HL' & _).
  cbn [Prelude.bind]. do 2 eexists. split; [done|]. split; [by apply inner_ok|done].
Qed.

Lemma lane_is_ready_ok q lane : Queries_ok q -> 0 <= lane < LANES ->
  exists b, lane_is_ready q lane = Ok b.
Proof.
  intros Hq Hl. unfold lane_is_ready, ledger_write.
  destruct (slot_exists LANES l _ (inner q) lane (z_ledger _ Hq) Hl) as [s ->]. by eexists.
Qed.
End queries_facts.
