(* ===== verification/Store.v ===== *)
(** * Building the query store.

    Model of [src/layer2/dns/src/storage]: the plan of a resolver, the store it
    allocates, the ledger and the lanes it is built into, the peer a stream
    session talks to, and the end of the ledger. Allocation may fail at any
    point; the driver's clock is the sample passed to [try_build]. *)

From stdpp Require Import gmap.
From S2P Require Import Prelude Depot Random Time Errors Host Packet Response Frames Index Config Transactions Query Ledger Queries.

Module Store.
Import Net Registry Query Ledger Queries.
Section store.
Context `{InlineBytes} `{Payloads} {V : Type -> Type} `{CopyVec V} (N : nat)
  {T : Type} `{PlaneSet T} `{Allocation} `{Domain} `{UnixTime}.

(** [Store], src/layer2/dns/src/storage/store.rs:9-13. The pending set comes with
    the capacity its entries are resolved against. *)
Record Store := store { config : Config.Validated V; s_ids : T; s_pending : T; s_branches : Z }.

(** [Store::try_new], src/layer2/dns/src/storage/store.rs:16-28. *)
Definition store_try_new (layout : Layout.Layout) (config : Config.Validated V)
    : run alloc_Error Store :=
  let! ids := allocate (ps_full (Layout.transactions layout) 0) in
  let! pending := allocate (ps_none (Layout.branches layout)) in
  Ok (store config ids pending (Layout.branches layout)).

(** [Slot::try_new], src/layer2/dns/src/storage/queries/ledger/slot.rs:27-41. *)
Definition slot_try_new (self : Store) (lane : Lane) : run bitmap_Error (Slot (V := V)) :=
  let! four := try_entry (s_branches self) (Branch.ordinal (Branch.new lane Family.Four)) in
  let! six := try_entry (s_branches self) (Branch.ordinal (Branch.new lane Family.Six)) in
  Ok (Idle (four, six) None).

(** The loop of [Ledger::try_new], src/layer2/dns/src/storage/queries/ledger/mod.rs:83-102:
    the slots of the lanes from [lane] on. *)
Fixpoint push_slots (self : Store) (count : nat) (lane : Z)
    : run Layout.Error (list (Slot (V := V))) :=
  match count with
  | O => Ok []
  | S count =>
      let! slot := map_err Layout.Entries (slot_try_new self (as_u16 lane)) in
      let! slots := push_slots self count (lane + 1) in
      Ok (slot :: slots)
  end.

(** [Ledger::try_new], src/layer2/dns/src/storage/queries/ledger/mod.rs:83-102. *)
Definition ledger_try_new (LANES : Z) (self : Store) : run Layout.Error (Ledger (V := V) (T := T)) :=
  let! _ := map_err Layout.EAllocation (allocate tt) in
  let! slots := push_slots self (Z.to_nat LANES) 0 in
  let! ids := map_err Layout.EAllocation (allocate (Table.try_new (s_ids self))) in
  Ok (ledger slots (registry (s_pending self) Live.new ids None)).

(** [Ledger::drop], src/layer2/dns/src/storage/queries/ledger/mod.rs:75-79: every slot is
    retired. *)
Fixpoint drop_slots (count : nat) (lane : Z) (self : Ledger (V := V) (T := T))
    : run Empty_set (Ledger (V := V) (T := T)) :=
  match count with
  | O => Ok self
  | S count =>
      let! self := retire_lane self lane in
      drop_slots count (lane + 1) self
  end.
Definition ledger_drop (self : Ledger (V := V) (T := T)) : run Empty_set (Ledger (V := V) (T := T)) :=
  drop_slots (length (slots self)) 0 self.

(** [Plan], src/layer2/dns/src/storage/plan.rs:17-20. *)
Record Plan := plan_of { p_layout : Layout.Layout; p_config : Config.Validated V }.

Context `{Positive}.

(** [Plan::new], src/layer2/dns/src/storage/plan.rs:23-28. *)
Definition plan_new (LANES : Z) (config : Config.Config V) : run Layout.Error Plan :=
  let! config := map_err Layout.EConfig (Config.validated_try_new config) in
  let! layout := Layout.new LANES in
  Ok (plan_of layout config).

(** [Plan::try_store], src/layer2/dns/src/storage/plan.rs:47-52. *)
Definition try_store (self : Plan) : run Layout.Error Store :=
  map_err Layout.EAllocation (store_try_new (p_layout self) (p_config self)).

(** [State], src/layer2/dns/src/storage/state.rs:12-15. *)
Record State := state { queries : Queries V T; clock : Civil.Anchor }.

(** [Plan::try_build], src/layer2/dns/src/storage/plan.rs:54-76. *)
Definition try_build (LANES : Z) (self : Plan) (st : Store) (sample : run Civil.Error (Z * Z))
    (now : Z) : run Layout.Error State :=
  let! clock := map_err Layout.EClock (Civil.anchor sample now) in
  let st := store (p_config self) (s_ids st) (s_pending st) (s_branches st) in
  let! inner := ledger_try_new LANES st in
  let! lanes := map_err Layout.EAllocation (allocate (ps_full (Layout.lanes (p_layout self)) 1)) in
  Ok (state (Queries.queries inner lanes (config st)) clock).

(** What the driver does with a plan: the store first, then the state in it. *)
Definition build (LANES : Z) (c : Config.Config V) (sample : run Civil.Error (Z * Z)) (now : Z)
    : run Layout.Error State :=
  let! plan := plan_new LANES c in
  let! st := try_store plan in
  try_build LANES plan st sample now.
End store.
Arguments Store V T : clear implicits.
Arguments State {_ _} V T.
Arguments Plan V : clear implicits.
End Store.

Module Peer.
Section peer.
Context `{InlineBytes} `{Payloads} {V : Type -> Type} `{CopyVec V} (N : nat)
  {T : Type} `{PlaneSet T}.

(** [Peer::status], src/layer2/dns/src/storage/peer.rs:34-39. *)
Definition status (self : Queries.Queries V T) (server : Server) : Queries.StreamStatus :=
  Queries.read_status self server.

(** [Peer::try_recv], src/layer2/dns/src/storage/peer.rs:41-51. *)
Definition try_recv (self : Queries.Queries V T) (server : Server) (frame : bytes) (now : Z)
    : run LookupError.Packet (Queries.StreamStatus * Queries.Queries V T) :=
  let! msg := Response.try_new frame in
  match Queries.receive_stream N self server msg now with
  | Ok r => Ok r
  | Err e => match e with end
  | Stuck w => Stuck w
  end.
End peer.
End Peer.
