(* ===== verification/StoreFacts.v ===== *)
(** * Every reachable store is sound.

    A plan that builds gives a store that satisfies [Queries_ok], and every
    operation the sockets and the lookups may call keeps it: none panics or
    reaches undefined behaviour. [Promises] reads the theorems off this. *)

From stdpp Require Import gmap.
From S2P Require Import Prelude Depot Random Time Errors Host Packet PacketFacts Response ResponseFacts Frames FramesFacts Index Config Transactions Query RegistryFacts QueryFacts Ledger LedgerFacts StartFacts Queries QueriesFacts Store.

Import Registry Query Ledger Starts Queries Store.
#[local] Existing Instance Family.version_eq_dec.

(** ** Building *)

Section building.
Context `{InlineBytesLaws} `{Payloads} {V : Type -> Type} `{CopyVecLaws V} (N : nat)
  {T : Type} `{PlaneSetLaws T} `{AllocationLaws} `{DomainLaws} `{UnixTime} `{PositiveLaws}.

Lemma allocate_Ok {A} (a b : A) : allocate a = Ok b -> b = a.
Proof. intros Hab. destruct (allocate_exact A a) as [He|[e He]]; congruence. Qed.

(** A lane whose slot was just built. *)
Definition idle_slot (lane : Lane) : Slot (V := V) :=
  Idle (ord lane Family.Four, ord lane Family.Six) None.

Lemma slot_try_new_spec (st : Store V T) lane : 0 <= lane < MAX_LANES ->
  2 * lane + 1 < s_branches st -> slot_try_new st lane = Ok (idle_slot lane).
Proof.
  intros Hl Hb. unfold slot_try_new. rewrite !branch_new_raw by done.
  unfold Branch.ordinal, Branch.raw. simpl Branch.bit.
  rewrite !try_entry_inside by lia. simpl. unfold idle_slot, ord. simpl Branch.bit.
  do 3 f_equal; lia.
Qed.

Lemma push_slots_spec (st : Store V T) count : forall lane,
  0 <= lane -> lane + Z.of_nat count <= MAX_LANES -> 2 * (lane + Z.of_nat count) <= s_branches st ->
  push_slots st count lane = Ok (map idle_slot (seqZ lane (Z.of_nat count))).
Proof.
  induction count as [|count IH]; intros lane Hl Hm Hb; [done|]. cbn [push_slots].
  unfold MAX_LANES in *. rewrite as_u16_small by lia.
  rewrite slot_try_new_spec by (unfold MAX_LANES; lia). simpl. rewrite IH by lia. simpl.
  rewrite (seqZ_cons lane) by lia. simpl. do 4 f_equal. lia.
Qed.

Context (c : Config.Config V) (LANES : Z).

(** The inputs the types of the configuration guarantee. *)
Record input_ok : Prop := {
  i_servers : servers_ok (Config.as_slice (Config.servers c));
  i_attempt : 0 <= Config.attempt_timeout (Config.c_query c);
  i_total : 0 <= Config.total_timeout (Config.c_query c);
  i_attempts : 0 <= Config.attempts (Config.c_query c);
  i_lanes : 0 <= LANES;
}.

Abbreviation servers_ := (Config.as_slice (Config.servers c)).

Lemma layout_spec y : 0 <= LANES -> Layout.new LANES = Ok y ->
  1 <= LANES <= MAX_LANES /\ y = Layout.layout LANES (2 * LANES) 65536.
Proof.
  intros Hl. unfold Layout.new. destruct (Z.eqb_spec LANES 0); [done|].
  destruct (domain_try_new LANES) as [k|e|] eqn:Hk; simpl; [|done|done].
  apply domain_sound in Hk as ->. destruct (Z.leb_spec 65535 (LANES * 2)); [done|].
  destruct (domain_try_new (LANES * 2)) as [k|e|] eqn:Hk; simpl; [|done|done].
  apply domain_sound in Hk as ->.
  destruct (domain_try_new 65536) as [k|e|] eqn:Hk; simpl; [|done|done].
  apply domain_sound in Hk as ->. intros [= <-]. unfold MAX_LANES. split; [lia|]. f_equal. lia.
Qed.

(** A registry nothing is filed in. *)
Lemma empty_registry_ok (h : Z -> Hold V) : (forall i, h i = HNone) ->
  Reg_ok (2 * LANES) h (registry (ps_none (2 * LANES)) Live.new
    (Table.try_new (ps_full 65536 0)) None : Registry T).
Proof.
  intros Hh. split; simpl.
  - intros p i. rewrite ps_mem_none. split; [done|]. intros (_ & a & Ha & _). by rewrite Hh in Ha.
  - intros s. induction (ordinals (2 * LANES)) as [|i l IH]; [done|].
    rewrite total_cons, <- IH, Hh. done.
  - intros i a x _ Ha. by rewrite Hh in Ha.
  - exists ∅, ∅. split; [|split; split; try done].
    + apply table_ok_new. split.
      * intros p i. rewrite ps_mem_full. intros [<- ?]%bool_decide_eq_true. auto.
      * intros i Hi _. rewrite !ps_mem_full, bool_decide_eq_true_2 by done.
        by rewrite bool_decide_eq_false_2 by naive_solver.
    + intros i a x id _ Ha. by rewrite Hh in Ha.
    + intros i a x id _ Ha. by rewrite Hh in Ha.
Qed.

Lemma build_ok sample now st : input_ok -> build (T := T) LANES c sample now = Ok st ->
  1 <= LANES <= MAX_LANES /\ Queries_ok LANES servers_ (queries st)
  /\ lanes (queries st) = ps_full LANES 1.
Proof.
  intros [Hs Ha Ht Hat Hl] Hb. unfold build, plan_new in Hb.
  pose proof (validated_spec c Hs Ha Ht) as Hv.
  destruct (Config.validated_try_new c) as [v|e|w]; simpl in Hb; [|done|done].
  destruct (Layout.new LANES) as [y|e|w] eqn:Hy; simpl in Hb; [|done|done].
  apply layout_spec in Hy as [HL ->]; [|done]. unfold try_store, store_try_new in Hb. simpl in Hb.
  destruct (allocate (ps_full (T := T) 65536 0)) as [ids|e|w] eqn:Hids; simpl in Hb; [|done|done].
  destruct (allocate (ps_none (T := T) (2 * LANES))) as [pd|e|w] eqn:Hpd; simpl in Hb; [|done|done].
  apply allocate_Ok in Hids as ->, Hpd as ->. unfold try_build in Hb. simpl in Hb.
  destruct (Civil.anchor sample now) as [ck|e|w]; simpl in Hb; [|done|done].
  unfold ledger_try_new in Hb.
  destruct (allocate tt) as [[]|e|w]; simpl in Hb; [|done|done].
  rewrite push_slots_spec in Hb by (simpl; lia). simpl in Hb.
  destruct (allocate (Table.try_new _)) as [tb|e|w] eqn:Htb; simpl in Hb; [|done|done].
  apply allocate_Ok in Htb as ->.
  destruct (allocate (ps_full (T := T) LANES 1)) as [ln|e|w] eqn:Hln; simpl in Hb; [|done|done].
  apply allocate_Ok in Hln as ->. injection Hb as <-. split; [done|]. split; [|done].
  destruct Hv as ((Hne & Hat0 & Htt & Hle & Hn0 & _) & _ & Hvq & _ & Hvs).
  split; simpl.
  - assert (Hslot : forall lane s, 0 <= lane ->
      slot_at (ledger (map idle_slot (seqZ 0 (Z.of_nat (Z.to_nat LANES))))
        (registry (ps_none (2 * LANES)) Live.new (Table.try_new (ps_full (T := T) 65536 0)) None)) lane
      = Some s -> s = idle_slot lane).
    { intros lane s Hlane. unfold slot_at. simpl. rewrite list_lookup_fmap_Some.
      intros (k & -> & Hk). apply lookup_seqZ in Hk as [-> _]. f_equal. lia. }
    split.
    + simpl. rewrite length_map, length_seqZ. lia.
    + intros lane s Hlane Hsl. apply Hslot in Hsl as ->; done.
    + simpl reg. apply empty_registry_ok. intros i. unfold view.
      destruct (slot_at _ _) as [s|] eqn:E; [|done]. unfold slot_at in E. simpl in E.
      apply list_lookup_fmap_Some in E as (k & -> & _). done.
  - intros p i. rewrite ps_mem_full. intros [<- ?]%bool_decide_eq_true. auto.
  - intros i. rewrite ps_mem_full. intros [? _]%bool_decide_eq_true. done.
  - split; [exact Hvs|exact Hne| |]; rewrite Hvq; lia.
Qed.
End building.

(** ** Operations and reachable states *)

Section reachable.
Context `{InlineBytesLaws} `{Payloads} {V : Type -> Type} `{CopyVecLaws V} (N : nat)
  {T : Type} `{PlaneSetLaws T} {B : Type} `{FillLaws B}.
Context (LANES : Z).

(** What the sockets and the lookups ask of the store. *)
Inductive Event :=
  | ECleanup (work : nat)
  | EClaim
  | EDrop (lane : Lane)
  | EAdmit (now : Z) (work : nat) (random : Entropy.Datagram)
      (submit : Frames.Datagram B -> Server -> Starts.Submission)
  | ESubmit (now : Z) (server : Server) (id : Tx.Id) (submit : Stream.Frame B -> Stream.Admission B)
  | EBind
  | EExhaust (cause : LookupError.Kind)
  | EFail (id : Tx.Id) (epoch : Epoch.Epoch) (server : Net.SocketAddr) (cause : LookupError.Kind) (now : Z)
  | EUndo (id : Tx.Id)
  | ERetire (work : nat) (server : Server) (end_ : Retirement) (now : Z) (branches : Z)
  | EDatagram (source : Net.SocketAddr) (packet : bytes) (now : Z)
  | EFrame (server : Server) (frame : bytes) (now : Z)
  | EStart (lane : Lane) (reason : Reason.Reason) (unix : Z) (name : Host.Name) (now : Z)
  | EPoll (lane : Lane) (now : Z)
  | EReady (lane : Lane).

(** The store after an event; a refused frame leaves it alone. *)
Definition exec (q : Queries V T) (e : Event) : run Empty_set (Queries V T) :=
  match e with
  | ECleanup work => let! r := cleanup work q in Ok r.2
  | EClaim => let! r := lane_claim q in Ok r.2
  | EDrop lane => Ok (lane_drop q lane)
  | EAdmit now work random submit => let! r := admit_udp N q now work random submit in Ok r.2
  | ESubmit now server id submit => let! r := submit_stream N q now server id submit in Ok r.2
  | EBind => Ok (q_bind_udp q)
  | EExhaust cause => Ok (exhaust_tcp q cause)
  | EFail id epoch server cause now => fail_udp N q id epoch server cause now
  | EUndo id => undo_stream q id
  | ERetire work server e now b => let! r := q_retire N LANES work q server e now b in Ok r.2
  | EDatagram source packet now => receive_udp N q source packet now
  | EFrame server frame now => cases (Peer.try_recv N q server frame now) (fun r => Ok r.2) (fun _ => Ok q)
  | EStart lane reason unix name now => let! r := lane_start q lane reason unix name now in Ok r.2
  | EPoll lane now => let! r := lane_poll N q lane now in Ok r.2
  | EReady lane => let! _ := lane_is_ready q lane in Ok q
  end.

(** What the types of the callers guarantee: a lane is used while it is held,
    an identity is a [u16], a packet is bytes, a frame is returned only to the
    submission it came from, a name is a parsed host name, and a retirement
    cursor comes from [Retirement::new]. *)
Definition allowed (q : Queries V T) (e : Event) : Prop :=
  match e with
  | EDrop lane | EPoll lane _ | EReady lane => held LANES q lane
  | EStart lane _ _ name _ => held LANES q lane /\ Host.parse name = Ok name
  | ESubmit _ _ id submit => is_id id /\ Stream.linear submit
  | EFail id _ _ _ _ | EUndo id => is_id id
  | ERetire _ _ _ _ b => 0 <= b <= 2 * LANES
  | EDatagram _ p _ | EFrame _ p _ => Forall is_byte p
  | ECleanup _ | EClaim | EAdmit _ _ _ _ | EBind | EExhaust _ => True
  end.

(** The states a built store gets to. *)
Inductive reachable (q : Queries V T) : Queries V T -> Prop :=
  | reachable_start : reachable q q
  | reachable_step r e r' :
      reachable q r -> allowed r e -> exec r e = Ok r' -> reachable q r'.

Context (HL : 0 <= LANES <= MAX_LANES) (l : list Net.SocketAddr).

Lemma exec_ok q e : Queries_ok LANES l q -> allowed q e ->
  exists q', exec q e = Ok q' /\ Queries_ok LANES l q'.
Proof.
  intros Hq Ha. destruct e; simpl in Ha |- *.
  - edestruct cleanup_ok as (b & w & q' & -> & Hq'); try eassumption. by eexists.
  - edestruct lane_claim_ok as (o & q' & -> & Hq' & _); try eassumption. by eexists.
  - eexists. split; [done|]. by eapply lane_drop_ok.
  - edestruct (admit_udp_ok (B := B) N) as (a & w & q' & -> & Hq'); try eassumption. by eexists.
  - destruct Ha as [Hid Hlin].
    edestruct (submit_stream_ok (B := B) N) as (st & q' & -> & Hq'); try eassumption. by eexists.
  - eexists. split; [done|]. by apply bind_udp_ok.
  - eexists. split; [done|]. by apply exhaust_tcp_ok.
  - edestruct fail_udp_ok as (q' & -> & Hq'); try eassumption. by eexists.
  - edestruct undo_stream_ok as (q' & -> & Hq'); try eassumption. by eexists.
  - edestruct q_retire_ok as (r & w & b & q' & -> & Hq' & _); try eassumption. by eexists.
  - edestruct receive_udp_ok as (q' & -> & Hq'); try eassumption. by eexists.
  - unfold Peer.try_recv. destruct (Response.try_new frame) as [d|e|w] eqn:Hd; simpl.
    + edestruct receive_stream_ok as (st & q' & -> & Hq' & _); try eassumption. by eexists.
    + by eexists.
    + unfold Response.try_new, Packet.try_new in Hd. destruct (_ <? _); [done|]. simpl in Hd.
      by destruct frame as [|? [|??]].
  - destruct Ha as [[Hl _] Hname].
    edestruct lane_start_ok as (o & q' & -> & Hq' & _); try eassumption. by eexists.
  - destruct Ha as [Hl _].
    edestruct lane_poll_ok as (p & q' & -> & Hq' & _); try eassumption. by eexists.
  - destruct Ha as [Hl _].
    edestruct lane_is_ready_ok as (b & ->); try eassumption. by eexists.
Qed.

Lemma reachable_ok q r : Queries_ok LANES l q -> reachable q r -> Queries_ok LANES l r.
Proof.
  intros Hq. induction 1 as [|r e r' _ IH Ha He]; [done|].
  destruct (exec_ok r e IH Ha) as (r2 & He2 & Hr2). congruence.
Qed.
End reachable.
Arguments Event {_ _} B.
