(* ===== verification/Promises.v ===== *)
(** * What the query store promises.

    The theorems about every state a built store can reach: operations never
    panic, the registry's books agree with the rows, a poll always makes
    progress towards the lookup's hard deadline, and only a reply to a request
    in flight can change the store. *)

From stdpp Require Import gmap.
From S2P Require Import Prelude Depot Random Time Errors Host Packet PacketFacts Response ResponseFacts Frames FramesFacts Index Config Transactions Query RegistryFacts QueryFacts Ledger LedgerFacts StartFacts Queries QueriesFacts Store StoreFacts.

Import Registry Query Ledger Queries Store.
#[local] Existing Instance Family.version_eq_dec.

(** ** Polling makes progress *)

Section polling.
Context `{InlineBytes} `{Payloads} {V : Type -> Type} `{CopyVec V} (N : nat)
  {T : Type} `{PlaneSet T}.
Context (retry : Retry.Retry) (Hretry : 0 < Retry.timeout retry) (now : Z).

(** Every deadline left in a row lies in the future. *)
Definition awake (v : Branch V) : Prop := forall d, branch_deadline v = Some d -> now < d.

Lemma finish_awake a (g : Registry T) next slot r g' :
  attempt_finish a g next slot = Ok (r, g') -> awake (value r).
Proof.
  unfold attempt_finish. intros Hf. apply bind_Ok in Hf as (g1 & _ & Hf). injection Hf as <- _.
  by destruct next.
Qed.

Lemma retry_awake a (g : Registry T) hard error slot r g' :
  attempt_retry a retry hard now g error slot = Ok (r, g') -> awake (value r).
Proof.
  unfold attempt_retry. destruct (LookupError.is_terminal error); [apply finish_awake|].
  destruct (Z.leb_spec hard now); [apply finish_awake|].
  destruct (Request.probe_next _ _); [|apply finish_awake].
  intros Hr. apply bind_Ok in Hr as ([req lv] & _ & Hr). injection Hr as <- _.
  intros d [= <-]. unfold Retry.deadline, checked_add. destruct (_ <=? _); lia.
Qed.

(** A row may move; the lookup it belongs to stays the same. *)
Definition keeps (q' q : Query.Query V) : Prop :=
  hard_deadline q' = hard_deadline q /\ q_reason q' = q_reason q
  /\ started_unix_ns q' = started_unix_ns q /\ started_at q' = started_at q.
Lemma keeps_with q f r : keeps (with_branch q f r) q.
Proof. by destruct f. Qed.
Lemma keeps_trans q1 q2 q3 : keeps q1 q2 -> keeps q2 q3 -> keeps q1 q3.
Proof. unfold keeps. naive_solver congruence. Qed.

Lemma expire_awake f (q q' : Query.Query V) (g g' : Registry T) :
  expire retry now f (q, g) = Ok (q', g') ->
  awake (value (branch q' f)) /\ (forall f', f' <> f -> branch q' f' = branch q f')
  /\ keeps q' q.
Proof.
  unfold expire. intros He.
  assert (Hwith : forall r, let q2 := with_branch q f r in awake (value r) ->
    awake (value (branch q2 f)) /\ (forall f', f' <> f -> branch q2 f' = branch q f')
    /\ keeps q2 q).
  { intros r q2 Hr. unfold q2. rewrite branch_with, decide_True by done.
    split; [done|]. split; [|apply keeps_with]. intros f' Hf'. by rewrite branch_with, decide_False. }
  destruct (branch_deadline (value (branch q f))) as [d|] eqn:Hd; simpl in He.
  - destruct (Z.leb_spec d now); simpl in He.
    + destruct (value (branch q f)) as [a|a x|v u| |k]; try done.
      * apply bind_Ok in He as ([r g1] & Hr & He). injection He as <- _.
        eapply Hwith, retry_awake, Hr.
      * apply bind_Ok in He as (t & _ & He). apply bind_Ok in He as ([r g1] & Hr & He).
        injection He as <- _. eapply Hwith, retry_awake, Hr.
    + injection He as <- _. split; [|done]. intros d' Hd'. rewrite Hd in Hd'. injection Hd' as <-. lia.
  - injection He as <- _. split; [|done]. intros d' Hd'. congruence.
Qed.

Lemma fail_stream_keeps cause f (q q' : Query.Query V) (g g' : Registry T) :
  fail_stream cause f (q, g) = Ok (q', g') -> keeps q' q.
Proof.
  unfold fail_stream. destruct (is_stream _); [|by intros [= <- _]]. intros He.
  apply bind_Ok in He as ([r g1] & _ & He). injection He as <- _. apply keeps_with.
Qed.

Lemma query_complete_pending (q : Query.Query V) :
  query_complete N q now = None -> query_deadline q <> None.
Proof.
  unfold query_complete, query_deadline.
  destruct (value (four q)) as [| |v u| |k], (value (six q)) as [| |v2 u2| |k2];
    simpl; try done; repeat case_match; done.
Qed.

Lemma for_families_keeps (step : Family.Version -> Query.Query V * Registry T
    -> run Empty_set (Query.Query V * Registry T)) q g q' g' :
  (forall f q g q' g', step f (q, g) = Ok (q', g') -> keeps q' q) ->
  for_families step (q, g) = Ok (q', g') -> keeps q' q.
Proof.
  intros Hs. unfold for_families. intros Hf. apply bind_Ok in Hf as ([q1 g1] & H1' & H2').
  eapply keeps_trans; eauto.
Qed.

Lemma expire_all q (g : Registry T) q' g' : for_families (expire retry now) (q, g) = Ok (q', g') ->
  (forall f, awake (value (branch q' f))) /\ keeps q' q.
Proof.
  unfold for_families. intros Hf. apply bind_Ok in Hf as ([q1 g1] & H4' & H6').
  apply expire_awake in H4' as (Ha4 & _ & Hk4), H6' as (Ha6 & Ho6 & Hk6).
  split; [|by eapply keeps_trans]. intros []; [by rewrite Ho6|done].
Qed.

Lemma slot_poll_awake (q : Query.Query V) (g g' : Registry T) p s' :
  slot_poll N (Active q) now retry g = Ok (p, s', g') ->
  match p with
  | PollIdle => False
  | PollPending at_ => exists q' d f, s' = Active q' /\ at_ = Some d /\ now < d /\ keeps q' q
      /\ branch_deadline (value (branch q' f)) = Some d
  | PollComplete r => (exists e, s' = Idle e None) /\ ready_at r = now
      /\ reason r = q_reason q /\ started_unix r = started_unix_ns q
  end.
Proof.
  unfold slot_poll. intros Hp. apply bind_Ok in Hp as ([s g0] & Hs & Hp).
  apply bind_Ok in Hs as ([q1 g1] & H1' & Hs). apply bind_Ok in Hs as ([q2 g2] & H2' & Hs).
  assert (Hk1 : keeps q1 q).
  { destruct (stream_failure g); [|by injection H1' as <- _].
    eapply for_families_keeps, H1'. intros *. apply fail_stream_keeps. }
  apply expire_all in H2' as [Ha Hk2]. pose proof (keeps_trans _ _ _ Hk2 Hk1) as Hk.
  injection Hs as <- <-. unfold slot_complete in Hp.
  destruct (query_complete N q2 now) as [r|] eqn:Hc.
  - injection Hp as <- <- <-. destruct Hk as (_ & Hr & Hu & _). split; [by eexists|done].
  - injection Hp as <- <- <-. apply query_complete_pending in Hc. pose proof (Ha Family.Four) as Ha4.
    pose proof (Ha Family.Six) as Ha6. unfold awake in *. simpl in Ha4, Ha6. unfold query_deadline in *.
    destruct (branch_deadline (value (four q2))) as [d4|] eqn:E4,
      (branch_deadline (value (six q2))) as [d6|] eqn:E6; try done; exists q2.
    + specialize (Ha4 _ eq_refl). specialize (Ha6 _ eq_refl). exists (Z.min d4 d6).
      destruct (Z.min_spec d4 d6) as [[_ ->]|[_ ->]]; [exists Family.Four|exists Family.Six];
        (do 4 (split; [done|])); simpl; congruence.
    + exists d4, Family.Four. specialize (Ha4 _ eq_refl). done.
    + exists d6, Family.Six. specialize (Ha6 _ eq_refl). done.
Qed.
End polling.

(** ** The books of the registry *)

Section books.
Context `{InlineBytesLaws} `{Payloads} {V : Type -> Type} `{CopyVecLaws V}
  {T : Type} `{PlaneSetLaws T}.
Context (LANES : Z) (HL : 0 <= LANES <= MAX_LANES) (l : list Net.SocketAddr).

(** The state of one address family of one lane's lookup. *)
Definition row_at (q : Queries V T) (lane : Lane) (f : Family.Version) : option (Branch V) :=
  match slot_at (inner q) lane with
  | Some (Active qq) => Some (value (branch qq f))
  | _ => None
  end.
Definition in_lanes (lane : Lane) : Prop := 0 <= lane < LANES.

(** A row with a request in it. *)
Definition asks (q : Queries V T) lane f (a : Attempt V) : Prop :=
  in_lanes lane /\ (row_at q lane f = Some (Pending a) \/ exists x, row_at q lane f = Some (Waiting a x)).

Record books (q : Queries V T) : Prop := {
  b_pending p i : ps_mem (pending (reg (inner q))) p i = true <->
    exists lane f a, in_lanes lane /\ i = 2 * lane + Branch.bit f
      /\ row_at q lane f = Some (Pending a) /\ p = plane_id (Request.stream (request a));
  b_udp id b : is_id id -> Table.udp_owner (ids (reg (inner q))) id = Some b <->
    exists lane f a u, in_lanes lane /\ b = Branch.new lane f
      /\ row_at q lane f = Some (Waiting a (Lease.LUdp u)) /\ Lease.removed u = id;
  b_tcp id b : is_id id -> Table.stream_owner (ids (reg (inner q))) id = Some b <->
    exists lane f a, in_lanes lane /\ b = Branch.new lane f
      /\ row_at q lane f = Some (Waiting a (Lease.LTcp id));
  b_live s : Live.contains (live (reg (inner q))) s = true <->
    exists lane f a, asks q lane f a /\ Request.stream (request a) = Some s;
  b_wire lane f a x : in_lanes lane -> row_at q lane f = Some (Waiting a x) ->
    match x with
    | Lease.LUdp _ => Request.stream (request a) = None
    | Lease.LTcp _ => Request.stream (request a) <> None
    end;
  b_bounds lane f a : asks q lane f a ->
    (exists qq, slot_at (inner q) lane = Some (Active qq) /\ deadline a <= hard_deadline qq)
    /\ 0 <= Request.attempt (request a) < Config.attempts (Config.v_query (q_config q))
    /\ Request.r_hops (request a) <= 16 /\ (Request.address (request a) ∈ l)
    /\ (forall s, Request.stream (request a) = Some s -> s = Request.server (request a));
}.

Lemma row_hold q lane f : in_lanes lane ->
  view (inner q) (ord lane f) = match row_at q lane f with Some v => hold_of v | None => HNone end.
Proof.
  intros Hl. rewrite (view_ord LANES HL) by done. unfold row_at.
  by destruct (slot_at (inner q) lane) as [[]|].
Qed.

Lemma hold_queued q lane f a : in_lanes lane ->
  view (inner q) (ord lane f) = HQueued a <-> row_at q lane f = Some (Pending a).
Proof.
  intros Hl. rewrite row_hold by done. destruct (row_at q lane f) as [[]|]; simpl; naive_solver.
Qed.
Lemma hold_leased q lane f a x : in_lanes lane ->
  view (inner q) (ord lane f) = HLeased a x <-> row_at q lane f = Some (Waiting a x).
Proof.
  intros Hl. rewrite row_hold by done. destruct (row_at q lane f) as [[]|]; simpl; naive_solver.
Qed.

(** Ordinals in range are the branches of the lanes. *)
Lemma ordinal_lane i : ordinal (2 * LANES) i -> exists lane f, in_lanes lane /\ i = ord lane f.
Proof.
  intros Hi. pose proof (lane_nonneg LANES HL i Hi). pose proof (branches_bound LANES HL).
  exists (Branch.lane (Branch.from_ordinal i)), (Branch.family (Branch.from_ordinal i)).
  split; [done|]. symmetry. apply ord_split. unfold ordinal in Hi. lia.
Qed.
Lemma branch_ord lane f : in_lanes lane -> Branch.from_ordinal (ord lane f) = Branch.new lane f.
Proof. unfold in_lanes. intros. apply from_ordinal_ord. lia. Qed.

Lemma total_find (h : Z -> Hold V) s k : 1 <= total h s k -> exists i, i ∈ k /\ hold_stream (h i) = Some s.
Proof.
  induction k as [|i k IH]; [done|]. rewrite total_cons. unfold one.
  case_decide; [exists i; set_solver|]. intros Hk. destruct IH as (j & Hj & Hs); [lia|].
  exists j. set_solver.
Qed.

Lemma hold_asks q lane f s : in_lanes lane ->
  hold_stream (view (inner q) (ord lane f)) = Some s ->
  exists a, asks q lane f a /\ Request.stream (request a) = Some s.
Proof.
  intros Hl. rewrite row_hold by done. destruct (row_at q lane f) as [[a|a x|v u| |k]|] eqn:Hr; simpl; try done.
  - intros Hs. exists a. split; [|done]. split; [done|by left].
  - intros Hs. exists a. split; [|done]. split; [done|]. right. by exists x.
Qed.

Lemma asks_hold q lane f a : asks q lane f a ->
  hold_stream (view (inner q) (ord lane f)) = Request.stream (request a).
Proof. intros [Hl [Hr|[x Hr]]]; rewrite row_hold, Hr by done; done. Qed.

Lemma asks_ok q lane f a : Queries_ok LANES l q -> asks q lane f a ->
  exists qq, slot_at (inner q) lane = Some (Active qq)
    /\ att_ok l (Config.attempts (Config.v_query (q_config q))) (hard_deadline qq) a.
Proof.
  intros Hq [Hl Hr]. unfold row_at in Hr.
  destruct (slot_at (inner q) lane) as [[e c|qq]|] eqn:Hs; [naive_solver| |naive_solver].
  exists qq. split; [done|].
  destruct (l_slots _ _ _ _ (z_ledger _ _ _ Hq) lane _ (proj1 Hl) Hs f) as [_ Hv].
  destruct Hr as [Hr|[x Hr]]; injection Hr as Hr; by rewrite Hr in Hv.
Qed.

Lemma books_of q : Queries_ok LANES l q -> books q.
Proof.
  intros Hq. pose proof (z_ledger _ _ _ Hq) as [_ _ [Hp Hlv Hf (U & S & Ht & [Hu1 Hu2] & [Hs1 Hs2])]].
  split.
  - intros p i. rewrite Hp. split.
    + intros (Hi & a & Ha & ->). destruct (ordinal_lane i Hi) as (lane & f & Hl & ->).
      exists lane, f, a. apply hold_queued in Ha; done.
    + intros (lane & f & a & Hl & -> & Ha & ->). split; [by apply (ord_ordinal LANES lane f)|].
      exists a. split; [|done]. by apply (hold_queued q lane f a Hl).
  - intros id b Hid. change (Table.udp_owner _ id) with (Table.owners (ids (reg (inner q))) !! id).
    pose proof (t_udp _ _ _ Ht id) as Hown. rewrite decide_True in Hown by done. rewrite <- Hown. split.
    + intros Hb. destruct (Hu2 id b Hb) as (i & a & x & Hi & -> & Hx & Hxi).
      destruct (ordinal_lane i Hi) as (lane & f & Hl & ->). destruct x as [u|]; [|done].
      exists lane, f, a, u. rewrite branch_ord by done. apply hold_leased in Hx; [|done].
      simpl in Hxi. by injection Hxi.
    + intros (lane & f & a & u & Hl & -> & Hr & <-). rewrite <- branch_ord by done.
      apply (Hu1 (ord lane f) a (Lease.LUdp u)); [by apply ord_ordinal|by apply hold_leased|done].
  - intros id b Hid. change (Table.stream_owner _ id) with (Table.owners (ids (reg (inner q))) !! (65536 + id)).
    pose proof (t_tcp _ _ _ Ht id) as Hown. rewrite decide_True in Hown by done. rewrite <- Hown. split.
    + intros Hb. destruct (Hs2 id b Hb) as (i & a & x & Hi & -> & Hx & Hxi).
      destruct (ordinal_lane i Hi) as (lane & f & Hl & ->). destruct x as [|x]; [done|].
      exists lane, f, a. rewrite branch_ord by done. apply hold_leased in Hx; [|done].
      simpl in Hxi. injection Hxi as <-. done.
    + intros (lane & f & a & Hl & -> & Hr). rewrite <- branch_ord by done.
      apply (Hs1 (ord lane f) a (Lease.LTcp id)); [by apply ord_ordinal|by apply hold_leased|done].
  - intros s. unfold Live.contains, get. rewrite negb_true_iff, Z.eqb_neq, Hlv.
    pose proof (total_range (view (inner q)) s (ordinals (2 * LANES))) as Hr. split.
    + intros Hne. destruct (total_find (view (inner q)) s (ordinals (2 * LANES))) as (i & Hi & Hs); [lia|].
      apply elem_ordinals in Hi. destruct (ordinal_lane i Hi) as (lane & f & Hl & ->).
      destruct (hold_asks q lane f s Hl Hs) as (a & Ha & Hst). by exists lane, f, a.
    + intros (lane & f & a & Ha & Hst).
      enough (1 <= total (view (inner q)) s (ordinals (2 * LANES))) by lia.
      apply (total_pos _ s _ (ord lane f)); [apply elem_ordinals, ord_ordinal, Ha|].
      by rewrite (asks_hold q lane f a Ha).
  - intros lane f a x Hl Hr. apply (hold_leased q lane f a x Hl) in Hr.
    specialize (Hf _ a x (ord_ordinal LANES lane f Hl) Hr). by destruct x.
  - intros lane f a Ha. destruct (asks_ok q lane f a Hq Ha) as (qq & Hs & Hd & Hat & Hh & (k & Hk) & Hst & _).
    split; [by exists qq|]. split; [done|]. split; [done|]. split; [|done].
    destruct Hk as (_ & ad & Hk & Hrow). unfold Request.address, Config.selected_address.
    rewrite Hrow. simpl. by eapply list_elem_of_lookup_2.
Qed.
End books.

(** ** What a settled request changes *)

Section changes.
Context `{InlineBytes} `{Payloads} {V : Type -> Type} `{CopyVec V} (N : nat)
  {T : Type} `{PlaneSet T}.

Abbreviation waits q lane f a x := (row_at q lane f = Some (Waiting a x)).

(** Only the lane of the request changes. *)
Lemma settle_other (q : Queries V T) lane f s now lane' : 0 <= lane -> 0 <= lane' -> lane' <> lane ->
  slot_at (inner (settle N q lane f s now)) lane' = slot_at (inner q) lane'.
Proof.
  intros Hl Hl' Hne. unfold settle, with_inner, complete, write_back; simpl.
  assert (Hput : forall (L : Ledger (V := V) (T := T)) x, slot_at (put_slot L lane x) lane' = slot_at L lane').
  { intros L x. unfold slot_at, put_slot. simpl. apply list_lookup_insert_ne. lia. }
  destruct (slot_at (inner q) lane) as [[e c|qq]|]; case_match; by rewrite ?Hput.
Qed.

(** A settled row is no longer on the wire, and no other row gets there. *)
Lemma settle_waits (q : Queries V T) lane f s now lane' f' a x : 0 <= lane -> 0 <= lane' ->
  (forall a y, value s.1 <> Waiting a y) -> slot_at (inner q) lane <> None ->
  waits (settle N q lane f s now) lane' f' a x ->
  waits q lane' f' a x /\ ((lane', f') <> (lane, f) \/ forall qq, slot_at (inner q) lane <> Some (Active qq)).
Proof.
  intros Hl Hl' Hs Hne Hw. destruct (decide (lane' = lane)) as [->|Hd]; cycle 1.
  { unfold row_at in *. rewrite settle_other in Hw by done. split; [done|]. left. congruence. }
  unfold row_at, settle, with_inner, complete, write_back in *. simpl in Hw.
  destruct (slot_at (inner q) lane) as [[e c|qq]|] eqn:Hq; [| |done].
  - replace (slot_at (with_reg (inner q) s.2) lane) with (slot_at (inner q) lane) in Hw by done.
    rewrite Hq in Hw. simpl in Hw. rewrite slot_at_put, decide_True in Hw; try done.
    replace (slot_at (with_reg (inner q) s.2) lane) with (slot_at (inner q) lane) by done. by rewrite Hq.
  - assert (Hne2 : slot_at (with_reg (inner q) s.2) lane <> None).
    { replace (slot_at (with_reg (inner q) s.2) lane) with (slot_at (inner q) lane) by done. by rewrite Hq. }
    assert (Hne3 : forall y, slot_at (put_slot (with_reg (inner q) s.2) lane y) lane <> None).
    { intros y. by rewrite slot_at_put, decide_True. }
    rewrite slot_at_put, decide_True in Hw by done. unfold slot_complete in Hw.
    destruct (query_complete _ _ _) as [r|].
    + by rewrite slot_at_put, decide_True in Hw by auto.
    + rewrite slot_at_put, decide_True in Hw by auto.
      simpl in Hw. rewrite branch_with in Hw. case_decide as Hf.
      * simplify_eq/=. by destruct (Hs a x).
      * split; [done|]. left. congruence.
Qed.

(** A request that is sent again stays in its row. *)
Lemma settle_pending (q : Queries V T) lane f s now qq r : 0 <= lane -> slot_at (inner q) lane = Some (Active qq) ->
  value s.1 = Pending r -> row_at (settle N q lane f s now) lane f = Some (Pending r).
Proof.
  intros Hl Hq Hs. unfold row_at, settle, with_inner, complete, write_back. simpl. rewrite Hq. simpl.
  assert (Hne : slot_at (with_reg (inner q) s.2) lane <> None).
  { replace (slot_at (with_reg (inner q) s.2) lane) with (slot_at (inner q) lane) by done. by rewrite Hq. }
  rewrite slot_at_put, decide_True by done. unfold slot_complete.
  assert (Hopen : query_complete N (with_branch qq f s.1) now = None).
  { unfold query_complete. destruct f; simpl; rewrite Hs; [done|]. by rewrite orb_true_r. }
  assert (Hne3 : forall y, slot_at (put_slot (with_reg (inner q) s.2) lane y) lane <> None).
  { intros y. by rewrite slot_at_put, decide_True. }
  rewrite Hopen, slot_at_put, decide_True by auto. by rewrite branch_with, decide_True, Hs.
Qed.
(** A datagram request that is to go over a stream does, to the same server. *)
Lemma stream_again (a : Attempt V) (g : Registry T) slot s : Request.stream (request a) = None -> attempt_stream a g slot = Ok s ->
  exists r, value s.1 = Pending r /\ deadline r = deadline a /\ Request.name (request r) = Request.name (request a)
    /\ Request.r_server (request r) = Request.r_server (request a) /\ Request.stream (request r) = Some (Request.server (request a)).
Proof.
  intros Hn. unfold attempt_stream, Request.start_stream, Request.stream in *. rewrite Hn, bool_decide_eq_false_2 by (by intros []).
  destruct (Live.acquire _ _) as [[x g']| |] eqn:Ea; cbn [Prelude.bind]; [|done..]. intros [= <-]. simpl.
  unfold Live.acquire in Ea. destruct (Live.up _ _); cbn [Prelude.bind] in Ea; [|done..]. injection Ea as <- _.
  eexists. split; [done|]. done.
Qed.
Lemma cookie_again (a : Attempt V) (g : Registry T) slot s : Request.stream (request a) = None -> attempt_cookie a g slot = Ok s ->
  exists r, value s.1 = Pending r /\ deadline r = deadline a /\ Request.name (request r) = Request.name (request a)
    /\ Request.r_server (request r) = Request.r_server (request a).
Proof.
  intros Hn. unfold attempt_cookie, Request.retry_cookie. destruct (negb _).
  - intros [= <-]. eexists. by split.
  - intros Hs. apply stream_again in Hs as (r & ? & ? & ? & ? & _); [|done]. by exists r.
Qed.
End changes.

(** ** Retiring a server's connection *)

Section retiring.
Context `{InlineBytes} `{Payloads} {V : Type -> Type} `{CopyVec V} (N : nat)
  {T : Type} `{PlaneSet T}.

Abbreviation waits q lane f a x := (row_at q lane f = Some (Waiting a x)).

Lemma finish_waits a0 (g : Registry T) next slot r g' :
  attempt_finish a0 g next slot = Ok (r, g') -> forall (a : Attempt V) x, value r <> Waiting a x.
Proof.
  unfold attempt_finish. intros Hf. apply bind_Ok in Hf as (g1 & _ & Hf). injection Hf as <- _.
  by destruct next.
Qed.

Lemma retry_waits a0 retry (g : Registry T) hard now error slot r g' :
  attempt_retry a0 retry hard now g error slot = Ok (r, g') ->
  forall (a : Attempt V) x, value r <> Waiting a x.
Proof.
  unfold attempt_retry. destruct (LookupError.is_terminal error); [apply finish_waits|].
  destruct (hard <=? now); [apply finish_waits|].
  destruct (Request.probe_next _ _); [|apply finish_waits].
  intros Hr. apply bind_Ok in Hr as ([req lv] & _ & Hr). by injection Hr as <- _.
Qed.

Lemma claim_none (q : Queries V T) lane f filter a x :
  claim (inner q) lane f filter = Ok None -> waits q lane f a x -> matches filter a x = false.
Proof.
  unfold claim, accept, row_at. destruct (slot_at (inner q) lane) as [[e c|qq]|]; try done.
  intros Hc [= Hw]. rewrite Hw in Hc. destruct (matches filter a x); [|done]. simpl in Hc.
  by destruct (Table.release _ _).
Qed.

Lemma claim_some (q : Queries V T) lane f filter w :
  claim (inner q) lane f filter = Ok (Some w) -> exists qq, slot_at (inner q) lane = Some (Active qq).
Proof.
  unfold claim, accept. destruct (slot_at (inner q) lane) as [[e c|qq]|]; try done. by exists qq.
Qed.

(** One step of the loop takes its branch off the server, and puts nothing on
    the wire. *)
Lemma retire_branch_waits (q q' : Queries V T) server e now b :
  0 <= Branch.lane b -> retire_branch N q server e now b = Ok q' ->
  lanes q' = lanes q /\
  forall lane f a x, 0 <= lane -> waits q' lane f a x -> waits q lane f a x
    /\ (lane = Branch.lane b -> f = Branch.family b -> is_cancelled q lane = false ->
        Request.stream (request a) <> Some server).
Proof.
  intros Hl. unfold retire_branch. destruct (is_cancelled q (Branch.lane b)) eqn:Hcan.
  { intros [= <-]. split; [done|]. intros lane f a x _ Hw. split; [done|]. intros -> ? ?. congruence. }
  intros Hr. apply bind_Ok in Hr as ([w|] & Hc & Hr).
  - apply bind_Ok in Hr as (s & Hs & Hr). injection Hr as <-.
    assert (Hns : forall (a : Attempt V) y, value s.1 <> Waiting a y).
    { destruct s as [r g]. destruct e; [| |].
      - by injection Hs as <- _.
      - destruct (_ <=? _); [by eapply retry_waits|by injection Hs as <- _].
      - by eapply retry_waits. }
    destruct (claim_some _ _ _ _ _ Hc) as [qq Hq]. split; [done|]. intros lane f a x Hl' Hw.
    apply settle_waits in Hw as [Hw [Hne|Hno]]; try done; [| |by rewrite Hq].
    + split; [done|]. intros -> ->. by destruct Hne.
    + by destruct (Hno qq).
  - injection Hr as <-. split; [done|]. intros lane f a x _ Hw. split; [done|]. intros -> -> _ Hst.
    apply (claim_none _ _ _ _ _ _ Hc) in Hw. simpl in Hw. apply bool_decide_eq_false in Hw. done.
Qed.

(** The branch the cursor hands out is the one of the ordinal it stands at. *)
Lemma cursor_branch LANES branches b rest : 0 <= LANES <= MAX_LANES -> 0 <= branches <= 2 * LANES ->
  Index.Retirement.next LANES branches = Some (b, rest) ->
  0 <= Branch.lane b < LANES /\ rest = branches + 1 /\ branches < 2 * LANES
  /\ branches = ord (Branch.lane b) (Branch.family b).
Proof.
  intros HL Hb Hn. pose proof (retire_next LANES HL branches (proj1 Hb)) as Hs. rewrite Hn in Hs.
  destruct Hs as [-> Hord]. destruct (Hord (proj2 Hb)) as [Hi ->]. unfold ordinal in Hi.
  split; [by apply lane_of_ordinal|]. split; [done|]. split; [lia|].
  symmetry. apply ord_split. unfold MAX_LANES in HL. lia.
Qed.

Lemma retire_loop_waits LANES server e now work : forall (q q' : Queries V T) branches w b,
  0 <= LANES <= MAX_LANES -> 0 <= branches <= 2 * LANES ->
  retire_loop N LANES work q server e now branches = Ok (RetireDone, w, b, q') ->
  lanes q' = lanes q /\
  forall lane f a x, 0 <= lane -> waits q' lane f a x -> waits q lane f a x
    /\ (lane < LANES -> branches <= ord lane f -> is_cancelled q lane = false ->
        Request.stream (request a) <> Some server).
Proof.
  assert (Hend : forall LANES branches, 0 <= LANES <= MAX_LANES -> 0 <= branches <= 2 * LANES ->
    Index.Retirement.next LANES branches = None -> branches = 2 * LANES).
  { intros L br HL Hb Hn. pose proof (retire_next L HL br (proj1 Hb)) as Hs. by rewrite Hn in Hs. }
  assert (Hbound : forall (lane : Z) f, 0 <= lane -> lane < LANES -> ord lane f < 2 * LANES)
    by (intros lane []; unfold ord; simpl; lia).
  induction work as [|work IH]; intros q q' branches w b HL Hb; cbn [retire_loop];
    destruct (Index.Retirement.next LANES branches) as [[bi rest]|] eqn:Hn; try done.
  1, 3: intros [= <- <- <-]; apply Hend in Hn; [|done|done]; (split; [done|]);
    intros lane f a x Hl Hw; (split; [done|]); intros Hlt Hge; specialize (Hbound lane f Hl Hlt); lia.
  apply cursor_branch in Hn as (Hlane & -> & Hlt & Heq); [|done|done].
  intros Hr. apply bind_Ok in Hr as (q1 & Hstep & Hr).
  apply IH in Hr as [Hln Hw]; [|done|lia].
  apply retire_branch_waits in Hstep as [Hln1 Hw1]; [|lia].
  split; [congruence|]. intros lane f a x Hl Hx. destruct (Hw _ _ _ _ Hl Hx) as [Hx1 Hgt].
  destruct (Hw1 _ _ _ _ Hl Hx1) as [Hx0 Hat]. split; [done|]. intros Hll Hge Hcan.
  destruct (decide (branches = ord lane f)) as [He|Hne].
  - rewrite Heq in He. apply ord_inj in He as [He1 He2]. by apply Hat.
  - apply Hgt; [done|lia|]. unfold is_cancelled in *. by rewrite Hln1.
Qed.
End retiring.

(** ** The promises *)

Section promises.
Context `{InlineBytesLaws} `{Payloads} {V : Type -> Type} `{CopyVecLaws V} (N : nat)
  {T : Type} `{PlaneSetLaws T} {B : Type} `{FillLaws B}
  `{AllocationLaws} `{DomainLaws} `{UnixTime} `{PositiveLaws}.

(** [q] is a state of the store built from the configuration [c]. *)
Definition runs (LANES : Z) (c : Config.Config V) (q : Queries V T) : Prop :=
  input_ok c LANES /\ exists sample now st, build (T := T) LANES c sample now = Ok st
    /\ reachable (B := B) N LANES (queries st) q.

Lemma runs_ok LANES c q : runs LANES c q ->
  0 <= LANES <= MAX_LANES /\ Queries_ok LANES (Config.as_slice (Config.servers c)) q.
Proof.
  intros (Hin & sample & now & st & Hb & Hr). apply build_ok in Hb as (HL & Hq & _); [|done].
  assert (HL' : 0 <= LANES <= MAX_LANES) by lia.
  split; [done|]. eapply reachable_ok; eassumption.
Qed.

Lemma runs_step LANES c q e : runs LANES c q -> allowed LANES q e ->
  exists q', exec N LANES q e = Ok q' /\ runs LANES c q'.
Proof.
  intros Hr Ha. destruct (runs_ok _ _ _ Hr) as [HL Hq].
  edestruct (exec_ok (B := B) N LANES) as (q' & He & _); try eassumption. exists q'. split; [done|].
  destruct Hr as (Hin & sample & now & st & Hb & Hr). split; [done|].
  exists sample, now, st. split; [done|]. by eapply reachable_step.
Qed.

(** C1. The query store never fails. In every state a built store can reach,
    every operation the sockets and the lookups may call returns: no counter
    overflows, no table is indexed out of range, no unchecked read is
    undefined, whatever the packets, clocks, permits and submission outcomes;
    and the state it leaves is again one of these. *)
Theorem store_never_fails LANES c q (e : Event B) :
  runs LANES c q -> allowed LANES q e ->
  exists q', exec N LANES q e = Ok q' /\ runs LANES c q'.
Proof. apply runs_step. Qed.

(** C14. The books agree with the rows. In every reachable state a pending bit is
    set exactly for the rows that wait to be sent, in the plane of their
    transport; an identity is owned exactly by the row that waits for a reply
    under it, so no two requests share one; the stream counters are non-zero
    exactly for servers some request wants a stream to; a request on the wire
    uses the transport it was leased for; and every request stays within its
    attempts, 16 alias hops, the configured servers and the hard deadline. *)
Theorem registry_books_agree LANES c q :
  runs LANES c q -> books LANES (Config.as_slice (Config.servers c)) q.
Proof. intros Hr. destruct (runs_ok _ _ _ Hr) as [HL Hq]. by apply books_of. Qed.

(** C16. A poll makes progress. Polling a lane whose lookup is running ends; the
    lookup is then complete, with the reason and start it was begun with, or
    the poll asks to be woken at a moment later than now and no later than the
    lookup's hard deadline. So a poll at the hard deadline completes. *)
Theorem poll_makes_progress LANES c q lane now qq :
  runs LANES c q -> held LANES q lane -> slot_at (inner q) lane = Some (Active qq) ->
  exists p q', lane_poll N q lane now = Ok (p, q') /\
    match p with
    | PollIdle => False
    | PollPending at_ => exists d, at_ = Some d /\ now < d <= hard_deadline qq
    | PollComplete r => ready_at r = now /\ reason r = q_reason qq
        /\ started_unix r = started_unix_ns qq /\ exists e, slot_at (inner q') lane = Some (Idle e None)
    end.
Proof.
  intros Hr Hh Hs. destruct (runs_ok _ _ _ Hr) as [HL Hq]. destruct Hh as [Hl _].
  destruct (lane_poll_ok N LANES HL _ q lane now Hq Hl) as (p & q' & Hp & Hq' & _).
  exists p, q'. split; [done|]. unfold lane_poll, ledger_write in Hp. rewrite Hs in Hp.
  cbn [Prelude.bind] in Hp. apply bind_Ok in Hp as ([[p' s'] g'] & Hpoll & Hp).
  injection Hp as -> Hp. apply (slot_poll_awake N (Retry.from_config (q_config q))) in Hpoll;
    [|simpl; pose proof (cs_timeout _ _ (z_config _ _ _ Hq)); done].
  assert (Hsl : slot_at (inner q') lane = Some s').
  { rewrite <- Hp. simpl. rewrite slot_at_put, decide_True; try done; try apply Hl.
    unfold slot_at in *. simpl. by rewrite Hs. }
  destruct p as [|at_|r]; [done| |].
  - destruct Hpoll as (q2 & d & f & -> & -> & Hd & (Hk & _) & Hb). exists d. split; [done|].
    split; [done|]. rewrite <- Hk.
    destruct (l_slots _ _ _ _ (z_ledger _ _ _ Hq') lane _ (proj1 Hl) Hsl f) as [_ Hv].
    destruct (value (branch q2 f)); simplify_eq/=; apply Hv.
  - destruct Hpoll as ((e & ->) & ? & ? & ?). do 3 (split; [done|]). by exists e.
Qed.

(** C17. Only an answer changes the store. Whatever datagram arrives, from
    wherever, the store is unchanged unless the packet carries the identity of
    a request waiting over UDP, comes from the server it was sent to before its
    deadline passed, and decodes as a reply to exactly its question; and then only
    the lookup of that request's lane changes. Anything of the reply is used only
    if the one OPT record of the packet echoes the request's client cookie. A
    notice of a bad cookie that does so makes the same request be sent again; a
    reply without such a cookie is worth no more than that the same request goes to
    the same server over a stream, with the deadline it had. *)
Theorem datagram_must_answer LANES c q source packet now :
  runs LANES c q -> Forall is_byte packet ->
  exists q', receive_udp N q source packet now = Ok q' /\
  (q' = q \/ exists d lane f a u data,
     Response.try_new packet = Ok d
     /\ in_lanes LANES lane /\ is_cancelled q lane = false
     /\ row_at q lane f = Some (Waiting a (Lease.LUdp u))
     /\ Lease.removed u = Response.transaction d
     /\ Request.stream (request a) = None /\ source = Request.address (request a)
     /\ now < deadline a
     /\ Response.udp N d (Request.name (request a)) f (CookieCache.client (Lease.u_cookie u)) = Ok data
     /\ lanes q' = lanes q
     /\ (forall lane', 0 <= lane' -> lane' <> lane -> slot_at (inner q') lane' = slot_at (inner q) lane')
     /\ let again r := row_at q' lane f = Some (Pending r) /\ deadline r = deadline a
          /\ Request.name (request r) = Request.name (request a) /\ Request.r_server (request r) = Request.r_server (request a) in
        let authentic s := cookie_from packet (Request.name (request a)) f (CookieCache.client (Lease.u_cookie u)) s in
        match data with
        | Response.Authenticated _ s => authentic s
        | Response.BadCookie s => authentic s /\ exists r, again r
        | Response.StreamRequired => exists r, again r /\ Request.stream (request r) = Some (Request.server (request a))
        end).
Proof.
  intros Hr Hb. destruct (runs_ok _ _ _ Hr) as [HL Hq].
  destruct (receive_udp_ok N LANES HL _ q source packet now Hq Hb) as (q' & He & _).
  exists q'. split; [exact He|]. unfold receive_udp in He.
  destruct (Response.try_new packet) as [d|e|w] eqn:Hd; simpl in He; [|left; congruence|done].
  pose proof (decoded_transaction packet d Hb Hd) as Hid.
  destruct (Table.udp_owner _ _) as [b|] eqn:Howner; [|left; congruence].
  destruct (udp_owner_lane LANES _ q _ b Hq Hid Howner) as (i & Hi & ->).
  pose proof (lane_of_ordinal LANES HL i Hi) as Hlane.
  set (lane := Branch.lane (Branch.from_ordinal i)) in *. set (f := Branch.family (Branch.from_ordinal i)) in *.
  destruct (is_cancelled q lane) eqn:Hcan; [left; congruence|].
  destruct (accept_spec LANES HL _ _ (inner q) lane f (FLive (Response.transaction d) now)
    (decode_udp N d source f) (z_ledger _ _ _ Hq) (proj1 Hlane)
    (fun r x => decode_udp_not_stuck N packet d source f r x Hb Hd))
    as [Hac|(w & [[data ck] srv] & qq & x & Hac & Ht & Hm & Hdec)]; rewrite Hac in He;
    cbn [Prelude.bind] in He; [left; congruence|right].
  destruct (decode_udp_Ok N packet d source f _ x data ck srv Hb Hd Hdec) as (u & -> & -> & _ & Hst & Hsrc & Hu).
  destruct Ht as [Hsl Hv _ _ _ _ _]. simpl in Hm. apply andb_true_iff in Hm as [Hm1 Hm2]. zbool.
  exists d, lane, f, (w_probe w), u, data. split; [done|]. split; [done|]. split; [done|].
  split; [unfold row_at; rewrite Hsl; by rewrite Hv|].
  split; [done|]. split; [done|]. split; [done|]. split; [done|]. split; [done|].
  apply bind_Ok in He as (s & Hans & He). injection He as <-. split; [done|].
  split; [intros lane' Hl' Hne; apply settle_other; [lia|done|done]|].
  pose proof (fun s => udp_cookie_from N packet d _ f _ data s Hb Hd Hu) as Hauth. cbv zeta. unfold answer_udp in Hans. destruct data as [reply sv|sv|].
  - apply Hauth. left. by eexists.
  - split; [apply Hauth; by right|]. unfold wait_cache in Hans. destruct (Table.cache _ _ _ _) as [kept tb]. cbv beta iota in Hans.
    assert (Hag : exists r, value s.1 = Pending r /\ deadline r = deadline (w_probe w) /\ Request.name (request r) = Request.name (request (w_probe w))
      /\ Request.r_server (request r) = Request.r_server (request (w_probe w))).
    { destruct kept; [by apply cookie_again in Hans|]. apply stream_again in Hans as (r & ? & ? & ? & ? & _); [|done]. by exists r. }
    destruct Hag as (r & Hv' & Hrest). exists r. split; [|done]. by eapply settle_pending; [lia|done|].
  - apply stream_again in Hans as (r & Hv' & ? & ? & ? & ?); [|done]. exists r. split; [|done]. split; [|done]. by eapply settle_pending; [lia|done|].
Qed.

(** C18. A retired connection leaves nothing behind. Retiring a server from a
    fresh cursor always returns, is done when there is a permit for every
    branch, and when it is done no lookup that is still held has a request on
    that server's stream: each was sent again, failed, or timed out. *)
Theorem retirement_clears_server LANES c q work server e now :
  runs LANES c q ->
  exists r w b q', q_retire N LANES work q server e now Index.Retirement.new = Ok (r, w, b, q')
    /\ (2 * LANES <= Z.of_nat work -> r = RetireDone)
    /\ (r = RetireDone -> forall lane f a x, in_lanes LANES lane -> is_cancelled q lane = false ->
          row_at q' lane f = Some (Waiting a x) -> Request.stream (request a) <> Some server).
Proof.
  intros Hr. destruct (runs_ok _ _ _ Hr) as [HL Hq]. unfold q_retire, Index.Retirement.new.
  destruct (Table.has_stream _) eqn:Hhas; cbn [negb].
  - set (e' := match stream_failure _ with Some k => Fail k | None => e end).
    destruct (retire_loop_ok N LANES HL _ server e' now work q 0 Hq) as (r & w & b & q' & Hrun & Hq' & Hv & Hle & Hres);
      [unfold visited; lia|].
    exists r, w, b, q'. split; [exact Hrun|]. split.
    + intros Hw. destruct r; [done|]. destruct Hres as (_ & Hb & Hlt). lia.
    + intros ->. apply retire_loop_waits in Hrun as [_ Hw]; [|done|lia].
      intros lane f a x [Hl1 Hl2] Hcan Hrow. apply (Hw _ _ _ _ Hl1 Hrow); [done| |done].
      unfold ord. destruct f; simpl; lia.
  - exists RetireDone, work, 0, q. split; [done|]. split; [done|].
    intros _ lane f a x Hl _ Hrow Hst.
    pose proof (b_wire _ _ _ (books_of LANES HL _ q Hq) lane f a x Hl Hrow) as Hwire.
    destruct x as [u|id]; [congruence|].
    pose proof (z_ledger _ _ _ Hq) as [_ _ [_ _ _ (U & S & Ht & _ & [Hs1 _])]].
    assert (HS : S !! id = Some (Branch.from_ordinal (ord lane f))).
    { apply (Hs1 (ord lane f) a (Lease.LTcp id)); [by apply ord_ordinal|by apply (hold_leased LANES HL)|done]. }
    unfold Table.has_stream in Hhas. rewrite (t_streams _ _ _ Ht) in Hhas.
    apply negb_false_iff, Z.eqb_eq in Hhas. assert (size S = 0%nat) as Hz by lia.
    apply map_size_empty_inv in Hz. by rewrite Hz, lookup_empty in HS.
Qed.
End promises.

(** ** A concrete store *)

Section witnesses.
Import Depot.Concrete ConcretePayloads.

Abbreviation planes := (list (nat * Z)).
Abbreviation World := (Queries list planes).
Abbreviation run_event := (exec (V := list) (T := planes) (B := bytes) 4 2).

(** Two lanes over the two servers of [example_config], just built. *)
Definition w_config : Config.Validated list :=
  match Config.validated_try_new example_config with
  | Ok v => v
  | _ => Config.validated (Net.V4 [] 0) [] (Config.query 0 0 0) (Config.refresh 0 (Config.backoff 0 0) 0 0 0)
  end.
Definition w_start : World :=
  Queries.queries (ledger [Idle (0, 1) None; Idle (2, 3) None]
             (registry (ps_none 4) Live.new (Table.try_new (ps_full 65536 0)) None))
    (ps_full 2 1) w_config.

Definition after (q : World) (e : Event bytes) : World :=
  match run_event q e with Ok q' => q' | _ => q end.

(** Lane 0 claimed, and a lookup of [a.b] running in it. *)
Definition w_host : Host.Name := [97; 46; 98].
Definition w_lookup : Event bytes := EStart 0 Reason.Startup 1000 w_host 10.
Definition w_running : World := after (after w_start EClaim) w_lookup.

Lemma w_input : input_ok example_config 2.
Proof.
  split; [exact example_servers_ok|vm_compute; discriminate..].
Qed.

Lemma w_built : runs (B := bytes) 4 2 example_config w_start.
Proof.
  split; [exact w_input|]. exists (Ok (100, 7)), 5. eexists. split; [reflexivity|].
  apply reachable_start.
Qed.

Lemma w_after q e : runs (B := bytes) 4 2 example_config q -> allowed 2 q e ->
  run_event q e = Ok (after q e) -> runs (B := bytes) 4 2 example_config (after q e).
Proof.
  intros (Hin & sample & now & st & Hb & Hr) Ha He. split; [done|].
  exists sample, now, st. split; [done|]. by eapply reachable_step.
Qed.

Lemma w_held : held 2 w_running 0.
Proof. split; [lia|]. split; reflexivity. Qed.

Lemma w_runs : runs (B := bytes) 4 2 example_config w_running.
Proof.
  apply w_after; [|split; [split; [lia|split; reflexivity]|reflexivity]|reflexivity].
  apply w_after; [exact w_built|exact I|reflexivity].
Qed.

(** The lookup is polled at once. *)
Definition w_poll : Event bytes := EPoll 0 10.

Lemma store_never_fails_witness :
  runs (B := bytes) 4 2 example_config w_running /\ allowed 2 w_running w_poll
  /\ exists q', run_event w_running w_poll = Ok q' /\ runs (B := bytes) 4 2 example_config q'.
Proof.
  split; [exact w_runs|]. split; [exact w_held|].
  exact (store_never_fails (B := bytes) 4 2 example_config w_running w_poll w_runs w_held).
Defined.

Lemma registry_books_agree_witness :
  runs (B := bytes) 4 2 example_config w_running
  /\ books 2 (Config.as_slice (Config.servers example_config)) w_running
  /\ ps_mem (pending (reg (inner w_running))) 0 1 = true.
Proof.
  split; [exact w_runs|]. split; [|reflexivity].
  exact (registry_books_agree (B := bytes) 4 2 example_config w_running w_runs).
Defined.

Lemma poll_makes_progress_witness :
  exists qq, runs (B := bytes) 4 2 example_config w_running /\ held 2 w_running 0
  /\ slot_at (inner w_running) 0 = Some (Active qq) /\ hard_deadline qq = 20
  /\ exists p q', lane_poll 4 w_running 0 20 = Ok (p, q') /\
    match p with
    | PollIdle => False
    | PollPending at_ => exists d, at_ = Some d /\ 20 < d <= hard_deadline qq
    | PollComplete r => ready_at r = 20 /\ reason r = q_reason qq
        /\ started_unix r = started_unix_ns qq /\ exists e, slot_at (inner q') 0 = Some (Idle e None)
    end.
Proof.
  eexists. split; [exact w_runs|]. split; [exact w_held|]. split; [reflexivity|]. split; [reflexivity|].
  exact (poll_makes_progress (B := bytes) 4 2 example_config w_running 0 20 _ w_runs w_held eq_refl).
Defined.

(** A reply to nobody: an empty response under identity 1. *)
Definition w_packet : bytes := [0; 1; 128; 0; 0; 0; 0; 0; 0; 0; 0; 0].
Definition w_source : Net.SocketAddr := Net.V4 [10; 0; 0; 1] 53.

Lemma datagram_must_answer_witness :
  runs (B := bytes) 4 2 example_config w_running /\ Forall is_byte w_packet
  /\ receive_udp 4 w_running w_source w_packet 11 = Ok w_running
  /\ exists q', receive_udp 4 w_running w_source w_packet 11 = Ok q' /\
  (q' = w_running \/ exists d lane f a u data,
     Response.try_new w_packet = Ok d
     /\ in_lanes 2 lane /\ is_cancelled w_running lane = false
     /\ row_at w_running lane f = Some (Waiting a (Lease.LUdp u))
     /\ Lease.removed u = Response.transaction d
     /\ Request.stream (request a) = None /\ w_source = Request.address (request a)
     /\ 11 < deadline a
     /\ Response.udp 4 d (Request.name (request a)) f (CookieCache.client (Lease.u_cookie u)) = Ok data
     /\ lanes q' = lanes w_running
     /\ (forall lane', 0 <= lane' -> lane' <> lane -> slot_at (inner q') lane' = slot_at (inner w_running) lane')
     /\ match data with
        | Response.Authenticated _ s =>
            cookie_from w_packet (Request.name (request a)) f (CookieCache.client (Lease.u_cookie u)) s
        | Response.BadCookie s =>
            cookie_from w_packet (Request.name (request a)) f (CookieCache.client (Lease.u_cookie u)) s
            /\ exists r, row_at q' lane f = Some (Pending r) /\ deadline r = deadline a
               /\ Request.name (request r) = Request.name (request a) /\ Request.r_server (request r) = Request.r_server (request a)
        | Response.StreamRequired =>
            exists r, (row_at q' lane f = Some (Pending r) /\ deadline r = deadline a
               /\ Request.name (request r) = Request.name (request a) /\ Request.r_server (request r) = Request.r_server (request a))
               /\ Request.stream (request r) = Some (Request.server (request a))
        end).
Proof.
  assert (Hb : Forall is_byte w_packet) by (repeat constructor; vm_compute; discriminate).
  split; [exact w_runs|]. split; [exact Hb|]. split; [reflexivity|].
  exact (datagram_must_answer (B := bytes) 4 2 example_config w_running w_source w_packet 11 w_runs Hb).
Defined.

Lemma retirement_clears_server_witness :
  runs (B := bytes) 4 2 example_config w_running
  /\ exists r w b q',
    q_retire 4 2 4 w_running Slot0 Resume 11 Index.Retirement.new = Ok (r, w, b, q')
    /\ (2 * 2 <= Z.of_nat 4 -> r = RetireDone)
    /\ (r = RetireDone -> forall lane f a x, in_lanes 2 lane -> is_cancelled w_running lane = false ->
          row_at q' lane f = Some (Waiting a x) -> Request.stream (request a) <> Some Slot0).
Proof.
  split; [exact w_runs|].
  exact (retirement_clears_server (B := bytes) 4 2 example_config w_running 4 Slot0 Resume 11 w_runs).
Defined.
End witnesses.
