(* ===== verification/Lookup.v ===== *)
(** * Discovery: lookups as an endpoint source.

    Model of [src/layer2/dns/src/lookup] and of what it uses of the service
    layer ([src/layer1/manifold/src/service]): revisions and snapshots, refresh
    policies, the refresh schedule, the metadata of a published answer, and the
    state machine [Discovery] that polls one lane of the query store, publishes
    its answers, marks them stale, withdraws them and retries failures. *)

From S2P Require Import Prelude Depot Time Errors Host Response Index Config Transactions Query Ledger Queries Store.

(** ** The service layer *)

Module Service.
(** [Revision], src/layer1/manifold/src/service/mod.rs:62-62. A [u64]. *)
Definition Revision := Z.
(** [Exhausted], src/layer1/manifold/src/service/mod.rs:66-66. *)
Inductive Exhausted := exhausted.
(** [Revision::INITIAL], src/layer1/manifold/src/service/mod.rs:75-75. *)
Definition INITIAL : Revision := 0.
(** [Revision::try_next], src/layer1/manifold/src/service/mod.rs:85-90. *)
Definition try_next (self : Revision) : run Exhausted Revision :=
  if self + 1 <? 2 ^ 64 then Ok (self + 1) else Err exhausted.

(** [Endpoint], src/layer1/manifold/src/service/mod.rs:40-43. *)
Record Endpoint (I A : Type) := endpoint { id : I; addr : A }.
Arguments endpoint {I A} id addr.
Arguments id {I A} e.
Arguments addr {I A} e.

(** [Snapshot], src/layer1/manifold/src/service/mod.rs:94-97. *)
Record Snapshot (V : Type -> Type) (E : Type) := snapshot { s_revision : Revision; endpoints : V E }.
Arguments snapshot {V E} s_revision endpoints.
Arguments s_revision {V E} s.
Arguments endpoints {V E} s.

Section cause.
Context `{Payloads}.
(** [Cause], src/layer1/manifold/src/service/health.rs:22-29. *)
Inductive Cause :=
  | CConnect (e : Transport.ConnectError) | CConnectTimeout | CTransport | CIdle | CProtocol | CRemote.
(** [Reason], src/layer1/manifold/src/service/discover.rs:9-12. *)
Inductive Reason := RStartup | RFailure (cause : Cause).
End cause.

(** [Action], src/layer1/manifold/src/service/discover.rs:15-38. *)
Inductive Action (V : Type -> Type) (I A M E : Type) :=
  | APending (poll_at : option Z)
  | APublished (s : Snapshot V (Endpoint I A)) (metadata : M) (poll_at : option Z)
  | AStale (revision : Revision) (poll_at : option Z)
  | AExpired (revision : Revision) (poll_at : option Z)
  | AFailed (error : E) (poll_at : option Z).
Arguments APending {V I A M E} poll_at.
Arguments APublished {V I A M E} s metadata poll_at.
Arguments AStale {V I A M E} revision poll_at.
Arguments AExpired {V I A M E} revision poll_at.
Arguments AFailed {V I A M E} error poll_at.
End Service.

(** ** Refresh policies *)

Module Refresh.
Section refresh.
Context `{Payloads}.
Import Service.
(** [Transport::reason], src/layer2/dns/src/lookup/refresh.rs:14-21. *)
Definition transport_reason (cause : Cause) : option Reason.Reason :=
  match cause with
  | CConnect cause => Some (Reason.ConnectFailure cause)
  | CConnectTimeout => Some Reason.ConnectTimeout
  | CTransport => Some Reason.TransportFailure
  | CIdle | CProtocol | CRemote => None
  end.
(** [Availability::reason], src/layer2/dns/src/lookup/refresh.rs:28-33. *)
Definition availability_reason (cause : Cause) : option Reason.Reason :=
  match cause with
  | CIdle => Some Reason.IdleFailure
  | cause => transport_reason cause
  end.
End refresh.
End Refresh.

(** ** The refresh schedule *)

Module Schedule.
Section schedule.
Context `{Payloads}.

(** [State], src/layer2/dns/src/lookup/schedule.rs:5-18. *)
Inductive State :=
  | Idle (next : option Z)
  | Fresh (next until stale_until : Z)
  | Stale (next until : Z).
(** [Age], src/layer2/dns/src/lookup/schedule.rs:20-24. *)
Inductive Age := AgeFresh | AgeStale (next : Z) | AgeExpired.
(** [Retry], src/layer2/dns/src/lookup/schedule.rs:27-27. A [u8]. *)
Definition Retry := Z.
(** [Retry::ZERO], src/layer2/dns/src/lookup/schedule.rs:173-173. *)
Definition ZERO : Retry := 0.
(** [Retry::LIMIT], src/layer2/dns/src/lookup/schedule.rs:174-174. *)
Definition LIMIT : Z := 16.
(** [Retry::factor], src/layer2/dns/src/lookup/schedule.rs:176-178. A shift of
    32 or more would trap. *)
Definition factor {E} (self : Retry) : run E Z :=
  if self <? 32 then Ok (Z.shiftl 1 self) else Stuck Panic.

(** [Schedule], src/layer2/dns/src/lookup/schedule.rs:29-34. *)
Record Schedule := schedule {
  requested : option Reason.Reason; refresh_at : option Z; state : State; failures : option Retry }.

(** [Schedule::new], src/layer2/dns/src/lookup/schedule.rs:37-44. *)
Definition new : Schedule := schedule None None (Idle None) (Some ZERO).

Definition with_requested (self : Schedule) (r : option Reason.Reason) : Schedule :=
  schedule r (refresh_at self) (state self) (failures self).
Definition with_refresh_at (self : Schedule) (at_ : option Z) : Schedule :=
  schedule (requested self) at_ (state self) (failures self).
Definition with_state (self : Schedule) (s : State) : Schedule :=
  schedule (requested self) (refresh_at self) s (failures self).

(** [Schedule::is_active], src/layer2/dns/src/lookup/schedule.rs:107-109. *)
Definition is_active (self : Schedule) : bool := bool_decide (is_Some (failures self)).

(** [Schedule::request], src/layer2/dns/src/lookup/schedule.rs:46-62. *)
Definition request (self : Schedule) (reason : Reason.Reason) : Schedule :=
  let pending := match requested self with
                 | Some (Reason.ConnectFailure _) | Some Reason.ConnectTimeout
                 | Some Reason.TransportFailure | Some Reason.IdleFailure => true
                 | _ => false
                 end in
  let weak := match reason with Reason.Startup | Reason.Scheduled => true | _ => false end in
  if negb (is_active self) || (pending && weak) then self
  else with_requested self (Some reason).

(** [Schedule::deadline], src/layer2/dns/src/lookup/schedule.rs:64-69. *)
Definition deadline (self : Schedule) : option Z :=
  match state self with
  | Idle _ => None
  | Fresh _ until _ | Stale _ until => Some until
  end.

(** [Schedule::next], src/layer2/dns/src/lookup/schedule.rs:71-79. *)
Definition next (self : Schedule) : option Z :=
  if negb (is_active self) then None
  else match state self with
       | Idle next => next
       | Fresh next _ _ | Stale next _ => Some next
       end.

(** [Schedule::delay], src/layer2/dns/src/lookup/schedule.rs:81-86. *)
Definition delay (self : Schedule) (due : Z) : Schedule :=
  with_state self match state self with
    | Idle _ => Idle (Some due)
    | Fresh _ until stale => Fresh due until stale
    | Stale _ until => Stale due until
    end.

(** [Schedule::allow], src/layer2/dns/src/lookup/schedule.rs:88-95. *)
Definition allow (self : Schedule) (due : Z) : Schedule :=
  if negb (is_active self) then self
  else match state self with
       | Idle next => with_state self (Idle (Some (default due next)))
       | _ => self
       end.

(** [Schedule::fail], src/layer2/dns/src/lookup/schedule.rs:97-105. *)
Definition fail (self : Schedule) : option Retry * Schedule :=
  match failures self with
  | None => (None, self)
  | Some retry =>
      let next := if retry <? LIMIT then retry + 1 else retry in
      (Some retry, schedule (requested self) (refresh_at self) (state self) (Some next))
  end.

(** [Schedule::stop], src/layer2/dns/src/lookup/schedule.rs:111-115. *)
Definition stop (self : Schedule) : Schedule := schedule None None (state self) None.

(** [Schedule::advance], src/layer2/dns/src/lookup/schedule.rs:117-146. *)
Definition advance (self : Schedule) (now : Z) : Age * Schedule :=
  match state self with
  | Idle _ => (AgeFresh, self)
  | Fresh next until stale =>
      if Clock.is_due stale now then (AgeExpired, self)
      else if Clock.is_due until now then (AgeStale next, with_state self (Stale next stale))
      else (AgeFresh, self)
  | Stale _ until =>
      if Clock.is_due until now then (AgeExpired, self) else (AgeFresh, self)
  end.

(** [Schedule::install], src/layer2/dns/src/lookup/schedule.rs:148-164. *)
Definition install (self : Schedule) (next : Z) (at_ : option Z) (fresh : option (Z * Z)) : Schedule :=
  schedule (requested self) at_
    match fresh with
    | Some (until, stale) => Fresh next until stale
    | None => Idle (Some next)
    end (Some ZERO).

(** [Schedule::expire], src/layer2/dns/src/lookup/schedule.rs:166-169. *)
Definition expire (self : Schedule) (now : Z) : Schedule :=
  let self := with_state self (Idle (next self)) in
  with_refresh_at self (if is_active self then Some now else None).
End schedule.
End Schedule.

(** ** Published metadata *)

Module Metadata.
(** [Range], src/layer2/dns/src/storage/range.rs:4-7. *)
Record Range := range { start : Z; done_ : Z }.
(** [Range::at], src/layer2/dns/src/storage/range.rs:14-16. *)
Definition at_ (stamp : Z) : Range := range stamp stamp.

Section metadata.
Context `{Payloads}.
(** [Metadata], src/layer2/dns/src/lookup/metadata.rs:13-20. *)
Record Metadata := metadata {
  reason : Reason.Reason; started_unix_ns : Z; completed_unix_ns : Z;
  duration : Z; ttl : Z; refresh_in : option Z }.

(** [Metadata::try_new], src/layer2/dns/src/lookup/metadata.rs:24-46. *)
Definition try_new (reason : Reason.Reason) (times : Range) (start_ done valid : Z)
    (at_ : option Z) : run LookupError.Timing Metadata :=
  let! duration := ok_or (Clock.try_since done start_) (LookupError.Duration start_ done) in
  let ttl := duration_since valid done in
  let refresh := option_map (fun at_ => duration_since at_ done) at_ in
  Ok (metadata reason (start times) (done_ times) duration ttl refresh).
End metadata.
End Metadata.

(** ** Failures of a lookup *)

Module Failure.
Import LookupError.
Section failure.
Context `{InlineBytes} `{Payloads} `{UnixTime}.

(** [Failure], src/layer2/dns/src/lookup/error.rs:186-212. *)
Inductive Failure (C : Type) :=
  | Query (kind : Kind) (started_unix_ns completed_unix_ns : Z)
  | FClock (source : Civil.Error)
  | AnswerClock (completion : C) (source : Civil.Error)
  | QueryClock (kind : Kind) (started_unix_ns : Z) (source : Civil.Error)
  | QueryRevision (source : Service.Exhausted) (started_unix_ns completed_unix_ns : Z)
  | Revision (source : Service.Exhausted).
Arguments Query {C} kind started_unix_ns completed_unix_ns.
Arguments FClock {C} source.
Arguments AnswerClock {C} completion source.
Arguments QueryClock {C} kind started_unix_ns source.
Arguments QueryRevision {C} source started_unix_ns completed_unix_ns.
Arguments Revision {C} source.

(** [Failure::terminal], src/layer2/dns/src/lookup/error.rs:215-247. *)
Definition terminal {C} (self : Failure C) : option (Failure Empty_set) :=
  match self with
  | Query kind s c => if is_terminal kind then Some (Query kind s c) else None
  | QueryClock kind s source => if is_terminal kind then Some (QueryClock kind s source) else None
  | QueryRevision source s c => Some (QueryRevision source s c)
  | Revision source => Some (Revision source)
  | FClock _ | AnswerClock _ _ => None
  end.

(** [Failure::query], src/layer2/dns/src/lookup/error.rs:249-255. *)
Definition query {C} (kind : Kind) (times : Metadata.Range) : Failure C :=
  Query kind (Metadata.start times) (Metadata.done_ times).

(** [Failure::times], src/layer2/dns/src/lookup/error.rs:257-274. *)
Definition times {C} (self : Failure C) : option (Z * Z) :=
  match self with
  | Query _ start done_ | QueryRevision _ start done_ => Some (start, done_)
  | _ => None
  end.

(** [Completion::ttl], src/layer2/dns/src/lookup/error.rs:294-298. A completion
    is the answer it wraps. *)
Definition completion_ttl {V} (answer : Query.Answered V) : Z :=
  duration_since (Query.a_valid_until answer) (Query.completed_at answer).
End failure.
Arguments Failure {_ _ _} C.
Arguments Query {_ _ _ C} kind started_unix_ns completed_unix_ns.
Arguments FClock {_ _ _ C} source.
Arguments AnswerClock {_ _ _ C} completion source.
Arguments QueryClock {_ _ _ C} kind started_unix_ns source.
Arguments QueryRevision {_ _ _ C} source started_unix_ns completed_unix_ns.
Arguments Revision {_ _ _ C} source.
End Failure.

(** ** Discovery *)

Module Discovery.
Import Net Service Query Queries.
Section discovery.
Context `{InlineBytes} `{Payloads} `{UnixTime} {V : Type -> Type} `{CopyVec V} (N : nat)
  {T : Type} `{PlaneSet T}.

(** [Source], src/layer2/dns/src/lookup/source.rs:5-11. *)
Inductive Source := Literal (address : SocketAddr) | SQuery (name : Host.Name) (lane : Lane).

(** [Discovery], src/layer2/dns/src/lookup/mod.rs:31-40. The policy is the
    function passed to [refresh_at]; the bound value carries nothing. *)
Record Discovery := discovery {
  source : Source; port : Z; refresh : Config.Refresh; revision : Revision;
  sched : Schedule.Schedule; clock : Civil.Anchor }.

Definition with_sched (self : Discovery) (s : Schedule.Schedule) : Discovery :=
  discovery (source self) (port self) (refresh self) (revision self) s (clock self).
Definition with_revision (self : Discovery) (r : Revision) : Discovery :=
  discovery (source self) (port self) (refresh self) r (sched self) (clock self).

(** [Discovery::new], src/layer2/dns/src/lookup/mod.rs:89-105. *)
Definition new (src : Source) (port : Z) (cfg : Config.Refresh) (clock : Civil.Anchor) : Discovery :=
  discovery src port cfg INITIAL Schedule.new clock.
(** [Discovery::literal], src/layer2/dns/src/lookup/mod.rs:70-77. *)
Definition literal (address : SocketAddr) := new (Literal address).
(** [Discovery::query], src/layer2/dns/src/lookup/mod.rs:79-87. *)
Definition query_ (name : Host.Name) (port : Z) (lane : Lane) := new (SQuery name lane) port.

Definition is_query (self : Discovery) : bool :=
  match source self with SQuery _ _ => true | Literal _ => false end.

Abbreviation Error := (Failure.Failure (Answered V)).
Abbreviation Action := (Action V SocketAddr SocketAddr Metadata.Metadata Error).

(** [Discovery::retry_delay], src/layer2/dns/src/lookup/mod.rs:120-123. *)
Definition retry_delay {E} (self : Discovery) (retry : Schedule.Retry) : run E Z :=
  let backoff := Config.r_backoff (refresh self) in
  let! factor := Schedule.factor retry in
  Ok (Z.min (duration_saturating_mul (Config.base backoff) factor) (Config.max backoff)).

(** [Discovery::publication], src/layer2/dns/src/lookup/mod.rs:126-132. *)
Definition publication (self : Discovery) : run Exhausted Revision :=
  let! next := try_next (revision self) in
  let! _ := if is_query self then try_next next else Ok next in
  Ok next.

(** [Discovery::next_poll], src/layer2/dns/src/lookup/mod.rs:134-139. *)
Definition next_poll (self : Discovery) (next : option Z) : option Z :=
  match next, Schedule.deadline (sched self) with
  | Some next, Some due => Some (Z.min next due)
  | next, None => next
  | None, next => next
  end.

Context `{Average}.

(** [Discovery::failed], src/layer2/dns/src/lookup/mod.rs:141-169. *)
Definition failed (self : Discovery) (now : Z) (reason : Reason.Reason) (error : Error)
    : run Empty_set (Action * Discovery) :=
  let! (due, self) :=
    match Failure.terminal error with
    | Some _ => Ok (None, with_sched self (Schedule.stop (sched self)))
    | None =>
        match Schedule.fail (sched self) with
        | (None, s) => Ok (None, with_sched self s)
        | (Some retry, s) =>
            let! delay := retry_delay self retry in
            let due := Clock.clamp_add now delay in
            let s := Schedule.delay (Schedule.request s reason) due in
            Ok (Some due, with_sched self s)
        end
    end in
  Ok (AFailed error (next_poll self due), self).

(** [Addresses::bind], src/layer2/dns/src/query/answer/addr.rs:56-66. *)
Definition bind_ (self : Answer.Addresses V) (port : Z) : V (Endpoint SocketAddr SocketAddr) :=
  cv_map_from (fun _ address =>
    let addr := match address with
                | FamilyCode.V4 o => V4 o port
                | FamilyCode.V6 o => V6 o port 0 0
                end in
    endpoint addr addr) self.

(** [Discovery::publish/timing], src/layer2/dns/src/lookup/mod.rs:216-230. *)
Definition timing (self : Discovery) (now done until : Z)
    : run Clock.Range (Z * Z * option Z * option (Z * Z)) :=
  let! next := Clock.try_add now (Config.minimum (refresh self)) in
  if negb (is_query self) then Ok (next, until, None, None)
  else
    let! cap := Clock.try_add done (Config.maximum_ttl (refresh self)) in
    let valid := Z.min until cap in
    let pref := match Clock.deadline_checked_sub valid (Config.before (refresh self)) with
                | Some pref => pref
                | None => now
                end in
    let at_ := Some (Z.min (Z.max pref next) valid) in
    let! stale := Clock.try_add valid (Config.stale (refresh self)) in
    Ok (next, valid, at_, Some (valid, stale)).

(** [Discovery::publish], src/layer2/dns/src/lookup/mod.rs:171-261. *)
Definition publish (self : Discovery) (now : Z) (reason : Reason.Reason) (answer : Answered V)
    (times : Metadata.Range) : run Empty_set (Action * Discovery) :=
  let '(answered addrs start done until) := answer in
  cases (publication self)
    (fun rev =>
      let addrs := match source self with
                   | Literal address => cv_one (endpoint address address)
                   | SQuery _ _ => bind_ addrs (port self)
                   end in
      let view := snapshot rev addrs in
      cases (timing self now done until)
        (fun '(next, valid, at_, fresh) =>
          cases (Metadata.try_new reason times start done valid at_)
            (fun metadata =>
              let self := with_sched (with_revision self rev)
                            (Schedule.install (sched self) next at_ fresh) in
              Ok (APublished view metadata
                    match Schedule.requested (sched self) with
                    | Some _ => next_poll self (Schedule.next (sched self))
                    | None => next_poll self at_
                    end, self))
            (fun source => failed self now reason (Failure.query (LookupError.KTiming source) times)))
        (fun source => failed self now reason (Failure.query (LookupError.KClock source) times)))
    (fun source =>
      failed self now reason
        (Failure.QueryRevision source (Metadata.start times) (Metadata.done_ times))).

(** [Discovery::expire], src/layer2/dns/src/lookup/mod.rs:263-290. *)
Definition expire (self : Discovery) (now : Z) : run Empty_set (Action * Discovery) :=
  let self := with_sched self (Schedule.expire (sched self) now) in
  cases (try_next (revision self))
    (fun rev =>
      let self := with_revision self rev in
      Ok (AExpired rev (Schedule.refresh_at (sched self)), self))
    (fun source =>
      let self := with_sched self (Schedule.stop (sched self)) in
      Ok (AFailed (Failure.Revision source) None, self)).

(** [Discovery::resolve], src/layer2/dns/src/lookup/mod.rs:292-328. *)
Definition resolve (self : Discovery) (now : Z) (reason : Reason.Reason) (address : SocketAddr)
    : run Empty_set (Action * Discovery) :=
  cases (Civil.observe (clock self) now)
    (fun unix =>
      let times := Metadata.at_ unix in
      cases (Clock.try_add now (from_secs 86400))
        (fun until =>
          let ip := match address with
                    | V4 o _ => FamilyCode.V4 o | V6 o _ _ _ => FamilyCode.V6 o end in
          publish self now reason (answered (Answer.singleton ip) now now until) times)
        (fun source => failed self now reason (Failure.query (LookupError.KClock source) times)))
    (fun source => failed self now reason (Failure.FClock source)).

(** [Discovery::refresh_at], src/layer2/dns/src/lookup/mod.rs:345-357. *)
Definition refresh_at (policy : Cause -> option Reason.Reason) (self : Discovery) (now : Z)
    (reason : Service.Reason) : Discovery :=
  let request reason :=
    let s := Schedule.allow (sched self) now in
    with_sched self (Schedule.request s reason) in
  match reason with
  | RStartup => request Reason.Startup
  | RFailure cause => match policy cause with None => self | Some reason => request reason end
  end.

(** [Discovery::is_ready], src/layer2/dns/src/lookup/mod.rs:366-371. *)
Definition is_ready (self : Discovery) (q : Queries V T) : run Empty_set bool :=
  match source self with
  | Literal _ => Ok false
  | SQuery _ lane => lane_is_ready q lane
  end.

(** [Discovery::poll_at/complete], src/layer2/dns/src/lookup/mod.rs:394-422. The arm
    of a lookup that completed. *)
Definition completed (self : Discovery) (now : Z) (r : Ready V) : run Empty_set (Action * Discovery) :=
  let '(ready reason start done result) := r in
  cases (Civil.observe (clock self) done)
    (fun done =>
      let times := Metadata.range start done in
      match result with
      | inl answer => publish self now reason answer times
      | inr kind => failed self now reason (Failure.query kind times)
      end)
    (fun source =>
      match result with
      | inl answer => failed self now reason (Failure.AnswerClock answer source)
      | inr kind => failed self now reason (Failure.QueryClock kind start source)
      end).

(** [Discovery::poll_at/begin], src/layer2/dns/src/lookup/mod.rs:448-491. Its end,
    once the current answer has been aged: a new lookup is begun when one is
    requested and due. *)
Definition begin_ (self : Discovery) (q : Queries V T) (now : Z)
    : run Empty_set (Action * Discovery * Queries V T) :=
  let s := sched self in
  let due := match Schedule.refresh_at s with Some at_ => Clock.is_due at_ now | None => false end in
  let s := if bool_decide (Schedule.requested s = None) && due
           then Schedule.request s Reason.Scheduled else s in
  let self := with_sched self s in
  let wait := match Schedule.next s with
              | Some next => if Clock.is_due next now then None else Some next
              | None => None
              end in
  match wait with
  | Some next => Ok (APending (next_poll self (Some next)), self, q)
  | None =>
      match Schedule.requested s with
      | None => Ok (APending (next_poll self (Schedule.refresh_at s)), self, q)
      | Some reason =>
          let self := with_sched self (Schedule.with_requested s None) in
          cases (publication self)
            (fun _ =>
              match source self with
              | Literal address =>
                  let! (a, self) := resolve self now reason address in Ok (a, self, q)
              | SQuery name lane =>
                  cases (Civil.observe (clock self) now)
                    (fun stamp =>
                      let! (start, q) := lane_start q lane reason stamp name now in
                      match start with
                      | Some range =>
                          let! (a, self) := failed self now reason
                            (Failure.query (LookupError.KDeadline range) (Metadata.at_ stamp)) in
                          Ok (a, self, q)
                      | None => Ok (APending (next_poll self (Some now)), self, q)
                      end)
                    (fun source =>
                      let! (a, self) := failed self now reason (Failure.FClock source) in
                      Ok (a, self, q))
              end)
            (fun source =>
              let! (a, self) := failed self now reason (Failure.Revision source) in Ok (a, self, q))
      end
  end.

(** [Discovery::poll_at], src/layer2/dns/src/lookup/mod.rs:373-492. *)
Definition poll_at (self : Discovery) (q : Queries V T) (now : Z)
    : run Empty_set (Action * Discovery * Queries V T) :=
  let! (polled, q) :=
    match source self with
    | Literal _ => Ok (PollIdle, q)
    | SQuery _ lane => lane_poll N q lane now
    end in
  match polled with
  | PollComplete r => let! (a, self) := completed self now r in Ok (a, self, q)
  | _ =>
      let '(busy, due) := match polled with PollPending at_ => (true, at_) | _ => (false, None) end in
      let '(age, s) := Schedule.advance (sched self) now in
      let self := with_sched self s in
      match age with
      | Schedule.AgeStale next =>
          let s := Schedule.with_refresh_at (sched self) None in
          let s := if busy then s else Schedule.request s Reason.Scheduled in
          let self := with_sched self s in
          let due := if busy then next_poll self due
                     else next_poll self (if Schedule.is_active s then Some (Z.max next now) else None) in
          Ok (AStale (revision self) due, self, q)
      | Schedule.AgeExpired => let! (a, self) := expire self now in Ok (a, self, q)
      | Schedule.AgeFresh =>
          if busy then Ok (APending (next_poll self due), self, q) else begin_ self q now
      end
  end.

(** Dropping a discovery gives its lane back ([Cancel::return_item],
    src/layer2/dns/src/storage/queries/mod.rs:392-394). *)
Definition drop_ (self : Discovery) (q : Queries V T) : Queries V T :=
  match source self with Literal _ => q | SQuery _ lane => lane_drop q lane end.
End discovery.
End Discovery.

(** ** Creating discoveries *)

Module Create.
Import Net Discovery.
(** [Host], src/layer2/dns/src/lib.rs:165-168. *)
Inductive Host := HName (name : Host.Name) | HAddress (address : SocketAddr).
(** [Target], src/layer2/dns/src/lib.rs:171-174. *)
Record Target := target { host : Host; t_port : Z }.
(** [Error], src/layer2/dns/src/lookup/create.rs:2-8. *)
Inductive Error := LaneCapacity (target : Target) (capacity : Z) | LiteralName (target : Target).

Section create.
Context `{InlineBytes} `{Payloads} {V : Type -> Type} `{CopyVec V} {T : Type} `{PlaneSet T}.

(** [State::discovery], src/layer2/dns/src/storage/state.rs:25-57. *)
Definition state_discovery (LANES : Z) (q : Queries.Queries V T) (clock : Civil.Anchor) (t : Target)
    : run Error (Discovery * Queries.Queries V T) :=
  let cfg := Config.v_refresh (Queries.q_config q) in
  match host t with
  | HAddress address => Ok (literal address (t_port t) cfg clock, q)
  | HName name =>
      match Queries.lane_claim q with
      | Ok (Some lane, q) => Ok (query_ name (t_port t) lane cfg clock, q)
      | Ok (None, _) => Err (LaneCapacity (target (HName name) (t_port t)) LANES)
      | Err e => match e with end
      | Stuck w => Stuck w
      end
  end.

(** [Plan::new], src/layer2/dns/src/storage/literal/plan.rs:16-20, of the plan
    for IP literals: a refresh policy. *)
Definition literal_plan (refresh : Config.Refresh) : run Config.Error Config.Refresh :=
  Config.validate refresh.
(** [State::discovery], src/layer2/dns/src/storage/literal/state.rs:17-31. *)
Definition literal_discovery (refresh : Config.Refresh) (clock : Civil.Anchor) (t : Target)
    : run Error Discovery :=
  match host t with
  | HAddress address => Ok (literal address (t_port t) refresh clock)
  | HName _ => Err (LiteralName t)
  end.
End create.
End Create.
