(* ===== verification/LookupFacts.v ===== *)
(** * Discoveries follow their life cycle.

    Abstractly a discovery is a phase — no answer, a current one, a stale one —
    and a revision. [poll_at] refines the relation [life] on these, always
    asks to be woken by the deadline of its phase, and, with the query store
    it polls, never fails. *)

From stdpp Require Import gmap.
From S2P Require Import Prelude Depot Time Errors Host Response Index Config Transactions Query Ledger Queries QueriesFacts Store StoreFacts Promises Lookup.

Import Service Lookup.Discovery.

Section discovery_facts.
Context `{InlineBytesLaws} `{Payloads} `{UnixTimeLaws} {V : Type -> Type} `{CopyVecLaws V} (N : nat)
  {T : Type} `{PlaneSetLaws T} `{AverageLaws}.

Abbreviation Action := (Service.Action V Net.SocketAddr Net.SocketAddr Metadata.Metadata
  (Failure.Failure (Query.Answered V))).

Lemma imap_map {X Y} (f : X -> Y) l : imap (fun _ => f) l = map f l.
Proof. apply imap_const. Qed.

(** ** The abstract machine *)

(** What is published: nothing, an answer until it goes stale and then
    withdrawn, or a stale one until it is withdrawn. *)
Inductive phase := Absent | Current (until withdraw : Z) | Aged (withdraw : Z).

Definition phase_deadline (p : phase) : option Z :=
  match p with Absent => None | Current u _ => Some u | Aged w => Some w end.
Definition over (now : Z) (p : phase) : Prop :=
  match p with Absent => False | Current _ w | Aged w => w <= now end.
Definition quiet (now : Z) (p : phase) : Prop :=
  match p with Absent => True | Current u _ | Aged u => now < u end.

(** One poll at [now], from a phase and revision to the next. *)
Inductive life (query : bool) (now : Z) : phase * Z -> Action -> phase * Z -> Prop :=
  | life_pending p r at_ : quiet now p -> life query now (p, r) (APending at_) (p, r)
  | life_failed p r e at_ : life query now (p, r) (AFailed e at_) (p, r)
  | life_published p r s m at_ p' : s_revision s = r + 1 ->
      (if query then exists u w, p' = Current u w /\ u <= w else p' = Absent) ->
      life query now (p, r) (APublished s m at_) (p', r + 1)
  | life_stale u w r at_ : u <= now < w -> life query now (Current u w, r) (AStale r at_) (Aged w, r)
  | life_expired p r at_ : over now p -> life query now (p, r) (AExpired (r + 1) at_) (Absent, r + 1).

Definition action_poll (a : Action) : option Z :=
  match a with
  | APending at_ | APublished _ _ at_ | AStale _ at_ | AExpired _ at_ | AFailed _ at_ => at_
  end.
(** A deadline of the phase is never slept through. *)
Definition wakes (p : phase) (a : Action) : Prop :=
  forall d, phase_deadline p = Some d -> exists t, action_poll a = Some t /\ t <= d.

(** ** The concrete one *)

Definition phase_of (d : Discovery) : phase :=
  match Schedule.state (sched d) with
  | Schedule.Idle _ => Absent
  | Schedule.Fresh _ u w => Current u w
  | Schedule.Stale _ w => Aged w
  end.
Definition shape (d : Discovery) : phase * Z := (phase_of d, revision d).

(** What every operation preserves: the revision has room for the withdrawal of
    a published answer, failures are counted up to 16, and durations are not
    negative. *)
Record lively (d : Discovery) : Prop := {
  d_revision : 0 <= revision d < 2 ^ 64;
  d_room : phase_of d <> Absent -> is_query d = true /\ revision d + 1 < 2 ^ 64;
  d_order : match phase_of d with Current u w => u <= w | _ => True end;
  d_failures : match Schedule.failures (sched d) with Some k => 0 <= k <= 16 | None => True end;
  d_stale : 0 <= Config.stale (refresh d);
}.

(** The parts no operation changes. *)
Definition same (d' d : Discovery) : Prop :=
  source d' = source d /\ port d' = port d /\ refresh d' = refresh d /\ clock d' = clock d.
Lemma same_refl d : same d d.
Proof. done. Qed.
Lemma same_trans d1 d2 d3 : same d1 d2 -> same d2 d3 -> same d1 d3.
Proof. unfold same. naive_solver congruence. Qed.
Lemma same_sched d s : same (with_sched d s) d.
Proof. done. Qed.
Lemma same_is_query d' d : same d' d -> is_query d' = is_query d.
Proof. intros [Hs _]. unfold is_query. by rewrite Hs. Qed.

Lemma deadline_phase d : Schedule.deadline (sched d) = phase_deadline (phase_of d).
Proof. unfold Schedule.deadline, phase_of. by destruct (Schedule.state (sched d)). Qed.

Lemma next_poll_wakes d x t : phase_deadline (phase_of d) = Some t ->
  exists t', next_poll d x = Some t' /\ t' <= t.
Proof.
  intros Ht. unfold next_poll. rewrite deadline_phase, Ht.
  destruct x as [x|]; eexists; (split; [done|]); lia.
Qed.

(** Replacing the schedule by one in the same phase. *)
Lemma lively_sched d s : lively d ->
  phase_of (with_sched d s) = phase_of d ->
  match Schedule.failures s with Some k => 0 <= k <= 16 | None => True end ->
  lively (with_sched d s) /\ shape (with_sched d s) = shape d.
Proof.
  intros [Hr Hm Ho Hf Hs] Hp Hk. unfold shape. rewrite Hp. split; [|done].
  split; simpl; rewrite ?Hp; done.
Qed.

Lemma request_state s r : Schedule.state (Schedule.request s r) = Schedule.state s
  /\ Schedule.failures (Schedule.request s r) = Schedule.failures s.
Proof. unfold Schedule.request. by destruct (_ || _). Qed.

(** An operation that ends well: its action is a step of the abstract machine,
    the invariant holds again, and the discovery is woken in time. *)
Definition good (now : Z) (d : Discovery) (m : run Empty_set (Action * Discovery)) : Prop :=
  exists a d', m = Ok (a, d') /\ lively d' /\ life (is_query d) now (shape d) a (shape d')
    /\ same d' d /\ wakes (phase_of d') a.

Lemma good_from now d1 d m : same d1 d -> shape d1 = shape d -> good now d1 m -> good now d m.
Proof.
  intros Hs Hp (a & d' & -> & Hl & Hlife & Hs' & Hw). exists a, d'. split; [done|]. split; [done|].
  rewrite <- Hp, <- (same_is_query d1 d Hs). split; [done|]. split; [by eapply same_trans|done].
Qed.

(** Ending in the schedule [s] of the same phase with a failure. *)
Lemma failed_end now d due e s : lively d -> phase_of (with_sched d s) = phase_of d ->
  match Schedule.failures s with Some k => 0 <= k <= 16 | None => True end ->
  good now d (Ok (AFailed e (next_poll (with_sched d s) due), with_sched d s)).
Proof.
  intros Hd Hp Hk. destruct (lively_sched d s Hd Hp Hk) as [Hl Hs]. do 2 eexists. split; [done|].
  split; [done|]. rewrite Hs. split; [apply life_failed|]. split; [done|].
  intros t Ht. by apply next_poll_wakes.
Qed.

Lemma failed_good d now reason e : lively d -> good now d (failed (V := V) d now reason e).
Proof.
  intros Hd. pose proof Hd as [_ _ _ Hf _]. unfold failed, Schedule.fail.
  destruct (Failure.terminal e) as [x|]; cbn [Prelude.bind].
  { by apply failed_end. }
  destruct (Schedule.failures (sched d)) as [k|] eqn:Hk; cbn [Prelude.bind].
  - unfold retry_delay, Schedule.factor. destruct (Z.ltb_spec k 32); [|lia]. cbn [Prelude.bind].
    match goal with |- context [Schedule.request ?s reason] =>
      destruct (request_state s reason) as [Hst Hfl]; set (s2 := Schedule.request s reason) in * end.
    apply failed_end; [done| |].
    + unfold phase_of. simpl. rewrite Hst. simpl. by destruct (Schedule.state (sched d)).
    + simpl. rewrite Hfl. simpl. unfold Schedule.LIMIT. destruct (Z.ltb_spec k 16); lia.
  - apply failed_end; [done|done|]. by rewrite Hk.
Qed.

(** ** Withdrawing *)

Lemma publication_room d : lively d -> match publication d with
  | Ok r => r = revision d + 1 /\ r < 2 ^ 64 /\ (is_query d = true -> r + 1 < 2 ^ 64)
  | Err _ => True
  | Stuck _ => False
  end.
Proof.
  intros [Hr _ _ _ _]. unfold publication, try_next.
  destruct (Z.ltb_spec (revision d + 1) (2 ^ 64)); cbn [Prelude.bind]; [|done].
  destruct (is_query d); cbn [Prelude.bind]; [|done].
  destruct (Z.ltb_spec (revision d + 1 + 1) (2 ^ 64)); done.
Qed.

Lemma idle_phase d s : Schedule.state s = Schedule.Idle (Schedule.next (sched d)) ->
  phase_of (with_sched d s) = Absent.
Proof. unfold phase_of. simpl. by intros ->. Qed.

Lemma expire_good d now : lively d -> phase_of d <> Absent -> over now (phase_of d) ->
  good now d (expire (V := V) d now).
Proof.
  intros [Hr Hm Ho Hf Hs] Hp Hv. destruct (Hm Hp) as [Hq Hroom]. unfold expire, try_next. simpl revision.
  destruct (Z.ltb_spec (revision d + 1) (2 ^ 64)); [|lia]. cbn [cases].
  set (s := Schedule.expire (sched d) now).
  assert (Hst : phase_of (with_revision (with_sched d s) (revision d + 1)) = Absent).
  { unfold phase_of, s, Schedule.expire. done. }
  do 2 eexists. split; [done|]. unfold shape. rewrite Hst. split.
  - split; rewrite ?Hst; simpl; try done; lia.
  - split; [by apply life_expired|]. split; [done|]. intros t Ht. done.
Qed.

(** ** Publishing *)

Lemma timing_spec d now done until : match timing d now done until with
  | Ok (next, valid, at_, fresh) =>
      next = now + Config.minimum (refresh d) /\
      if is_query d
      then valid = Z.min until (done + Config.maximum_ttl (refresh d))
        /\ fresh = Some (valid, valid + Config.stale (refresh d))
        /\ exists t, at_ = Some t /\ Z.min next valid <= t <= valid
      else valid = until /\ at_ = None /\ fresh = None
  | Err _ => True
  | Stuck _ => False
  end.
Proof.
  unfold timing, Clock.try_add, checked_add.
  destruct (_ <=? INSTANT_MAX); cbn [Prelude.bind]; [|done].
  destruct (is_query d); cbn [negb Prelude.bind]; [|done].
  destruct (_ <=? INSTANT_MAX); cbn [Prelude.bind]; [|done].
  match goal with |- context [match Clock.deadline_checked_sub ?v ?b with _ => _ end] =>
    set (pref := match Clock.deadline_checked_sub v b with Some p => p | None => now end) end.
  destruct (_ <=? INSTANT_MAX); cbn [Prelude.bind]; [|done].
  split; [done|]. split; [done|]. split; [done|]. eexists. split; [done|]. lia.
Qed.

Lemma publish_good d now reason answer times : lively d ->
  good now d (publish d now reason answer times).
Proof.
  intros Hd. destruct answer as [addrs start done_ until]. unfold publish.
  pose proof (publication_room d Hd) as Hpub. destruct (publication d) as [rev|e|]; [|by apply failed_good|done].
  destruct Hpub as (-> & Hrev & Hroom). cbn [cases].
  pose proof (timing_spec d now done_ until) as Ht.
  destruct (timing d now done_ until) as [[[[next valid] at_] fresh]|e|]; [|by apply failed_good|done].
  destruct Ht as [Hnext Ht]. cbn [cases]. unfold Metadata.try_new.
  destruct (ok_or _ _) as [dur|e|] eqn:Hdur; cbn [Prelude.bind cases];
    [|by apply failed_good|unfold ok_or in Hdur; by destruct (Clock.try_since _ _)].
  set (d2 := with_sched _ _). pose proof Hd as [Hr _ _ _ Hs].
  assert (Hp : if is_query d
    then exists u, phase_of d2 = Current u (u + Config.stale (refresh d)) else phase_of d2 = Absent).
  { unfold phase_of, d2. simpl. destruct (is_query d); destruct Ht as (_ & Hf & Hf');
      [subst fresh|subst fresh]; [by eexists|done]. }
  do 2 eexists. split; [done|]. split; [|split; [|split]].
  - split.
    + simpl. lia.
    + intros Hne. change (is_query d2) with (is_query d). destruct (is_query d); [|done].
      split; [done|]. simpl. by apply Hroom.
    + destruct (is_query d); [|by rewrite Hp]. destruct Hp as [u ->]. lia.
    + simpl. unfold Schedule.ZERO. lia.
    + done.
  - unfold shape. change (revision d2) with (revision d + 1). apply life_published; [done|].
    destruct (is_query d); [|done]. destruct Hp as [u Hp]. exists u, (u + Config.stale (refresh d)).
    split; [done|]. lia.
  - done.
  - intros t Ht'. destruct (Schedule.requested _); by apply next_poll_wakes.
Qed.

Lemma observe_not_stuck c now : not_stuck (Civil.observe c now).
Proof.
  unfold Civil.observe, ok_or. destruct (Clock.try_since _ _); simpl; [|done].
  apply not_stuck_map_err, unix_try_add_not_stuck.
Qed.

Lemma completed_good d now r : lively d -> good now d (completed d now r).
Proof.
  intros Hd. destruct r as [reason start done_ result]. unfold completed.
  pose proof (observe_not_stuck (clock d) done_).
  destruct (Civil.observe (clock d) done_); cbn [cases]; [| |done];
    destruct result; by (apply publish_good || apply failed_good).
Qed.

Lemma resolve_good d now reason address : lively d -> good now d (resolve (V := V) d now reason address).
Proof.
  intros Hd. unfold resolve. pose proof (observe_not_stuck (clock d) now).
  destruct (Civil.observe (clock d) now); cbn [cases]; [|by apply failed_good|done].
  unfold Clock.try_add. destruct (checked_add _ _); cbn [cases]; [by apply publish_good|by apply failed_good].
Qed.

(** ** Beginning a lookup and polling it *)

(** The store a poll leaves is one of the running program's, with the same
    lanes held. *)
Context {B : Type} `{FillLaws B}
  `{AllocationLaws} `{DomainLaws} `{PositiveLaws} (LANES : Z) (c : Config.Config V).
Abbreviation runs := (runs (B := B) N LANES c).

(** The lane of a query discovery is its own, and its name was parsed. *)
Definition owns (q : Queries.Queries V T) (d : Discovery) : Prop :=
  match source d with
  | Literal _ => True
  | SQuery name lane => held LANES q lane /\ Host.parse name = Ok name
  end.

Definition good_with (now : Z) (d : Discovery) (m : run Empty_set (Action * Discovery * Queries.Queries V T)) : Prop :=
  exists a d' q', m = Ok (a, d', q') /\ lively d' /\ life (is_query d) now (shape d) a (shape d')
    /\ same d' d /\ wakes (phase_of d') a /\ runs q' /\ owns q' d'.

Lemma good_store now d m q : runs q -> owns q d -> good now d m ->
  good_with now d (let! (a, d') := m in Ok (a, d', q)).
Proof.
  intros Hr Ho (a & d' & -> & Hl & Hlife & Hs & Hw). exists a, d', q. do 6 (split; [done|]).
  unfold owns. destruct Hs as [-> _]. done.
Qed.

Lemma good_with_from now d1 d m : same d1 d -> shape d1 = shape d -> good_with now d1 m -> good_with now d m.
Proof.
  intros Hs Hp (a & d' & q' & -> & Hl & Hlife & Hs' & Hw). exists a, d', q'. split; [done|]. split; [done|].
  rewrite <- Hp, <- (same_is_query d1 d Hs). split; [done|]. split; [by eapply same_trans|done].
Qed.

Lemma pending_good now d q at_ : lively d -> runs q -> owns q d -> quiet now (phase_of d) ->
  good_with now d (Ok (APending (next_poll d at_), d, q)).
Proof.
  intros Hd Hr Ho Hq. do 3 eexists. split; [done|]. split; [done|].
  split; [by apply life_pending|]. split; [done|]. split; [|done]. intros t Ht. by apply next_poll_wakes.
Qed.

Lemma start_runs q lane reason stamp name now : runs q -> held LANES q lane -> Host.parse name = Ok name ->
  exists o q', Queries.lane_start q lane reason stamp name now = Ok (o, q') /\ runs q' /\ held LANES q' lane.
Proof.
  intros Hr Hh Hn. destruct (runs_ok _ _ _ _ Hr) as [HL Hq].
  destruct (lane_start_ok LANES HL _ q lane reason stamp name now Hq (proj1 Hh) Hn) as (o & q' & He & _ & Hl).
  destruct (runs_step N LANES c q (EStart lane reason stamp name now) Hr (conj Hh Hn)) as (q2 & He2 & Hr2).
  simpl in He2. rewrite He in He2. injection He2 as <-. exists o, q'. split; [done|]. split; [done|].
  unfold held in *. by rewrite Hl.
Qed.

Lemma poll_runs q lane now : runs q -> held LANES q lane ->
  exists p q', Queries.lane_poll N q lane now = Ok (p, q') /\ runs q' /\ held LANES q' lane.
Proof.
  intros Hr Hh. destruct (runs_ok _ _ _ _ Hr) as [HL Hq].
  destruct (lane_poll_ok N LANES HL _ q lane now Hq (proj1 Hh)) as (p & q' & He & _ & Hl).
  destruct (runs_step N LANES c q (EPoll lane now) Hr Hh) as (q2 & He2 & Hr2).
  simpl in He2. rewrite He in He2. injection He2 as <-. exists p, q'. split; [done|]. split; [done|].
  unfold held in *. by rewrite Hl.
Qed.

Lemma request_same d r :
  let d' := with_sched d (Schedule.request (sched d) r) in
  lively d -> lively d' /\ same d' d /\ shape d' = shape d.
Proof.
  intros d' Hd. destruct (request_state (sched d) r) as [Hs Hf].
  destruct (lively_sched d (Schedule.request (sched d) r) Hd); [| |done].
  - unfold phase_of. simpl. by rewrite Hs.
  - rewrite Hf. apply Hd.
Qed.

Lemma begin_good d q now : lively d -> runs q -> owns q d -> quiet now (phase_of d) ->
  good_with now d (begin_ d q now).
Proof.
  intros Hd Hr Ho Hq. unfold begin_.
  set (due := match Schedule.refresh_at (sched d) with Some at_ => _ | None => _ end).
  set (s := if bool_decide _ && due then _ else _).
  assert (Hs : lively (with_sched d s) /\ same (with_sched d s) d /\ shape (with_sched d s) = shape d).
  { unfold s. destruct (_ && _); [by apply request_same|]. by destruct d. }
  destruct Hs as (Hd1 & Hs1 & Hp1). set (d1 := with_sched d s) in *.
  apply (good_with_from now d1 d _ Hs1 Hp1).
  assert (Ho1 : owns q d1) by done.
  assert (Hq1 : quiet now (phase_of d1)) by (unfold shape in Hp1; congruence).
  destruct (match Schedule.next s with Some next => _ | None => _ end) as [next|]; [by apply pending_good|].
  destruct (Schedule.requested s) as [reason|]; [|by apply pending_good].
  set (s2 := Schedule.with_requested s None). set (d2 := with_sched d1 s2).
  assert (Hd2 : lively d2 /\ shape d2 = shape d1) by (apply lively_sched; [done|done|apply Hd1]).
  destruct Hd2 as [Hd2 Hp2]. apply (good_with_from now d2 d1); [done|done|].
  assert (Ho2 : owns q d2) by done.
  assert (Hq2 : quiet now (phase_of d2)) by (unfold shape in Hp2; congruence).
  pose proof (publication_room d2 Hd2) as Hpub.
  destruct (publication d2) as [rev|e|]; [|by apply good_store, failed_good|done]. cbn [cases].
  destruct (source d2) as [address|name lane] eqn:Hsrc; [by apply good_store, resolve_good|].
  pose proof (observe_not_stuck (clock d2) now).
  destruct (Civil.observe (clock d2) now) as [stamp|e|]; [|by apply good_store, failed_good|done]. cbn [cases].
  unfold owns in Ho2. rewrite Hsrc in Ho2. destruct Ho2 as [Hh Hn].
  destruct (start_runs q lane reason stamp name now Hr Hh Hn) as (o & q' & -> & Hr' & Hh'). cbn [Prelude.bind].
  assert (Ho' : owns q' d2) by (unfold owns; by rewrite Hsrc).
  destruct o; [by apply good_store, failed_good|by apply pending_good].
Qed.

(** Ageing the answer: the phase after [advance], and what it says of the time. *)
Lemma advance_phase d now : lively d ->
  let '(age, s) := Schedule.advance (sched d) now in
  match age with
  | Schedule.AgeFresh => s = sched d /\ quiet now (phase_of d)
  | Schedule.AgeStale _ => exists u w, phase_of d = Current u w /\ u <= now < w
      /\ phase_of (with_sched d s) = Aged w /\ Schedule.failures s = Schedule.failures (sched d)
  | Schedule.AgeExpired => s = sched d /\ phase_of d <> Absent /\ over now (phase_of d)
  end.
Proof.
  intros Hd. pose proof (d_order d Hd) as Ho. unfold Schedule.advance, Clock.is_due, phase_of in *.
  destruct (Schedule.state (sched d)) as [n|n u w|n w]; [done| |].
  - destruct (Z.leb_spec w now); [done|]. destruct (Z.leb_spec u now); [by exists u, w|done].
  - destruct (Z.leb_spec w now); done.
Qed.

Lemma stale_good d q now u w s due : lively d -> runs q -> owns q d ->
  phase_of d = Current u w -> u <= now < w -> phase_of (with_sched d s) = Aged w ->
  Schedule.failures s = Schedule.failures (sched d) ->
  good_with now d (Ok (AStale (revision d) (next_poll (with_sched d s) due), with_sched d s, q)).
Proof.
  intros Hd Hr Ho Hp Hn Hp' Hf. pose proof Hd as [H1' H2' _ H4' H5'].
  do 3 eexists. split; [done|]. split; [|split; [|split; [done|split; [|done]]]].
  - split; try done; [|by rewrite Hp'|by simpl; rewrite Hf].
    intros _. apply H2'. by rewrite Hp.
  - unfold shape. rewrite Hp, Hp'. by apply life_stale.
  - intros t Ht. by apply next_poll_wakes.
Qed.

Lemma poll_good d q now : lively d -> runs q -> owns q d -> good_with now d (poll_at N d q now).
Proof.
  intros Hd Hr Ho. unfold poll_at.
  assert (Hp : exists p q', match source d with
      | Literal _ => Ok (Query.PollIdle, q) | SQuery _ lane => Queries.lane_poll N q lane now end
    = Ok (E := Empty_set) (p, q') /\ runs q' /\ owns q' d).
  { unfold owns in *. destruct (source d) as [a|name lane]; [by do 2 eexists|]. destruct Ho as [Hh Hn].
    destruct (poll_runs q lane now Hr Hh) as (p & q' & -> & ? & ?). by do 2 eexists. }
  destruct Hp as (p & q' & -> & Hr' & Ho'). cbn [Prelude.bind].
  pose proof (advance_phase d now Hd) as Ha.
  destruct p as [|at_|r]; [| |by apply good_store, completed_good].
  all: destruct (Schedule.advance (sched d) now) as [[|next|] s].
  1, 4: destruct Ha as [-> Hq]; destruct d; by (apply begin_good || apply pending_good).
  2, 4: destruct Ha as (-> & Hne & Hov); destruct d; by apply good_store, expire_good.
  all: destruct Ha as (u & w & Hp & Hn & Hp' & Hf); apply (stale_good d q' now u w); try done.
  all: revert Hp' Hf; unfold phase_of; simpl Discovery.sched.
  all: destruct (request_state (Schedule.with_refresh_at s None) Reason.Scheduled) as [Hs1 Hs2].
  all: rewrite ?Hs1, ?Hs2; done.
Qed.

(** C20. Discoveries follow their life cycle. Polling a discovery that owns its
    lane, over any store the program can reach, returns; the invariant, the
    store and the lane survive; what the poll reports is exactly one step of
    the abstract machine: pending and failed polls change nothing that is
    published, a publication raises the revision by one and names it, a current
    answer is declared stale once its time is up, an answer is withdrawn under
    a fresh revision once its deadline passed and only then; and the poll asks
    to be woken no later than the next of these deadlines. *)
Theorem discovery_refines_lifecycle d q now :
  runs q -> owns q d -> lively d ->
  exists a d' q', poll_at N d q now = Ok (a, d', q')
    /\ lively d' /\ runs q' /\ owns q' d'
    /\ life (is_query d) now (shape d) a (shape d') /\ wakes (phase_of d') a.
Proof.
  intros Hr Ho Hd. destruct (poll_good d q now Hd Hr Ho) as (a & d' & q' & He & ? & ? & _ & ? & ? & ?).
  by exists a, d', q'.
Qed.

(** Creating a discovery. A literal target always gives a discovery. A host
    name claims a lane of the store: the discovery then owns it, and the only
    failure is that no lane is free. Either starts with nothing published,
    revision 0, and satisfies the invariant its polls rely on. *)
Theorem creation_exact q clock t : runs q ->
  0 <= Config.stale (Config.v_refresh (Queries.q_config q)) ->
  match Create.host t with Create.HName name => Host.parse name = Ok name | _ => True end ->
  match Create.state_discovery LANES q clock t with
  | Ok (d, q') => runs q' /\ owns q' d /\ lively d /\ shape d = (Absent, 0)
      /\ Schedule.failures (sched d) = Some 0 /\ port d = Create.t_port t
      /\ match Create.host t, source d with
         | Create.HAddress a, Literal a' => a' = a /\ q' = q
         | Create.HName name, SQuery name' _ => name' = name
         | _, _ => False
         end
  | Err e => e = Create.LaneCapacity t LANES
      /\ ps_take (Queries.lanes q) 0 = None /\ ps_take (Queries.lanes q) 1 = None
  | Stuck _ => False
  end.
Proof.
  intros Hr Hs Hn. unfold Create.state_discovery. destruct t as [[name|address] tp]; cbn [Create.host Create.t_port] in *.
  - destruct (runs_ok _ _ _ _ Hr) as [HL Hq].
    destruct (lane_claim_ok LANES HL _ q Hq) as (o & q' & He & _ & Ho).
    destruct (runs_step N LANES c q EClaim Hr I) as (q2 & He2 & Hr2).
    simpl in He2. rewrite He in He2. injection He2 as <-. rewrite He.
    destruct o as [lane|].
    + split; [done|]. split; [done|]. split; [|done]. by split.
    + split; [done|]. revert He. unfold Queries.lane_claim.
      destruct (ps_take (Queries.lanes q) 1) as [[]|]; [done|].
      destruct (ps_take (Queries.lanes q) 0) as [[]|]; [|done].
      intros He. apply bind_Ok in He as (? & _ & He). done.
  - split; [done|]. split; [done|]. split; [|done]. by split.
Qed.

(** ** Publications and failures *)

(** The timing of a publication. When the deadlines are representable and
    the revision has room, an answer is published under the next revision: its
    addresses, in order, at the discovery's port; it is current until it
    expires or the configured lifetime is over, and withdrawn the configured
    grace later; the reported lifetime is what is left of that; no lookup is
    begun before the configured minimum; the next is requested between the
    minimum and the end of the lifetime; and the failure count starts over. *)
Theorem publication_timing d now reason addrs start done_ until times name lane :
  source d = SQuery name lane -> revision d + 2 < 2 ^ 64 -> start <= done_ ->
  0 <= Config.maximum_ttl (refresh d) -> 0 <= Config.stale (refresh d) ->
  now + Config.minimum (refresh d) <= INSTANT_MAX ->
  done_ + Config.maximum_ttl (refresh d) + Config.stale (refresh d) <= INSTANT_MAX ->
  let v := Z.min until (done_ + Config.maximum_ttl (refresh d)) in
  exists s m at_ d',
    publish d now reason (Query.answered addrs start done_ until) times = Ok (APublished s m at_, d')
    /\ s_revision s = revision d + 1 /\ revision d' = revision d + 1
    /\ map Service.addr (cv_slice (endpoints s)) = map (fun ip => match ip with
        | FamilyCode.V4 o => Net.V4 o (port d) | FamilyCode.V6 o => Net.V6 o (port d) 0 0 end)
        (Answer.as_slice addrs)
    /\ phase_of d' = Current v (v + Config.stale (refresh d))
    /\ Metadata.duration m = done_ - start
    /\ Metadata.ttl m = Z.max 0 (v - done_) /\ Metadata.ttl m <= Config.maximum_ttl (refresh d)
    /\ (Schedule.is_active (sched d') = true /\ Schedule.next (sched d') = Some (now + Config.minimum (refresh d)))
    /\ (exists t, Schedule.refresh_at (sched d') = Some t
        /\ Z.min (now + Config.minimum (refresh d)) v <= t <= v)
    /\ Schedule.failures (sched d') = Some 0.
Proof.
  intros Hsrc Hrev Hst Hmax Hstale Hmin Hdone v. unfold publish.
  assert (Hq : is_query d = true) by (unfold is_query; by rewrite Hsrc).
  assert (Hpub : publication d = Ok (revision d + 1)).
  { unfold publication, try_next. rewrite (proj2 (Z.ltb_lt (revision d + 1) _)) by lia. cbn [Prelude.bind].
    rewrite Hq, (proj2 (Z.ltb_lt (revision d + 1 + 1) _)) by lia. done. }
  rewrite Hpub. cbn [cases].
  assert (Hadd : forall a b, a + b <= INSTANT_MAX -> Clock.try_add a b = Ok (a + b)).
  { intros a b Hab. unfold Clock.try_add, checked_add. by rewrite (proj2 (Z.leb_le _ _) Hab). }
  pose proof (timing_spec d now done_ until) as Ht.
  unfold timing in *. rewrite Hq in *. cbn [negb] in *.
  rewrite (Hadd now) in * by done. cbn [Prelude.bind] in *.
  rewrite (Hadd done_) in * by lia. cbn [Prelude.bind] in *. fold v in Ht |- *.
  rewrite (Hadd v) in * by lia. cbn [Prelude.bind] in *.
  destruct Ht as (_ & _ & _ & t & Hat & Hbt).
  unfold Metadata.try_new, Clock.try_since, checked_duration_since. cbn [cases].
  rewrite (proj2 (Z.leb_le _ _) Hst). cbn [ok_or Prelude.bind cases]. rewrite Hsrc.
  do 4 eexists. split; [done|]. split; [done|]. split; [done|]. split.
  { unfold endpoints, bind_. rewrite cv_slice_map_from. unfold Answer.as_slice.
    rewrite imap_map, map_map. apply map_ext. by intros []. }
  split; [done|]. split; [done|]. split; [done|]. split; [simpl; unfold duration_since; lia|].
  split; [done|]. split; [exists t; by rewrite <- Hat|done].
Qed.

(** ** Discoveries that stopped *)

(** No lookup runs in the lane of a discovery, and none waits to be taken. A
    lane is started by its own discovery alone, and the poll that takes a
    finished lookup leaves it so ([taken_lane_quiet]). *)
Definition lane_quiet d (q : Queries.Queries V T) : Prop :=
  match source d with
  | SQuery _ lane => exists e, Ledger.slot_at (Queries.inner q) lane = Some (Ledger.Idle e None)
  | Literal _ => True
  end.

(** The poll that hands a discovery its finished lookup leaves its lane quiet. *)
Lemma taken_lane_quiet d name lane q now r q' : source d = SQuery name lane ->
  Queries.lane_poll N q lane now = Ok (Query.PollComplete r, q') -> lane_quiet d q'.
Proof.
  intros Hs. unfold lane_quiet, Queries.lane_poll, Ledger.ledger_write. rewrite Hs.
  destruct (Ledger.slot_at _ lane) as [slot|] eqn:Hl; [|done]. cbn [Prelude.bind]. unfold Ledger.slot_poll.
  match goal with |- context [Prelude.bind (Prelude.bind ?m _) _] => destruct m as [sg|[]|] end; [destruct sg as [s g]|]; cbn [Prelude.bind]; [|done].
  destruct s as [e [fin|]|a]; cbn [Prelude.bind]; [|done..]. intros [= _ <-]. exists e.
  unfold Ledger.slot_at, Ledger.put_slot. simpl. apply list_lookup_insert_eq, lookup_lt_is_Some. by exists slot.
Qed.

End discovery_facts.

(** ** A concrete discovery *)

Section witnesses.
Import Depot.Concrete ConcretePayloads.

Abbreviation w_runs_ := (runs (B := bytes) 4 2 example_config).

(** The discovery of [a.b:80] whose lookup runs in lane 0 of [w_running]. *)
Definition w_refresh : Config.Refresh := Config.c_refresh example_config.
Definition w_clock : Civil.Anchor := Civil.anchor_at 100 7.
Definition w_discovery : Discovery := query_ w_host 80 0 w_refresh w_clock.

Lemma w_owns : owns 2 w_running w_discovery.
Proof. split; [exact w_held|reflexivity]. Qed.
Lemma w_lively : lively w_discovery.
Proof. by split. Qed.

Lemma discovery_refines_lifecycle_witness :
  w_runs_ w_running /\ owns 2 w_running w_discovery /\ lively w_discovery
  /\ (exists d' q', poll_at 4 w_discovery w_running 20
        = Ok (AFailed (Failure.Query LookupError.KTimeout 1000 113) (Some 21), d', q'))
  /\ exists a d' q', poll_at 4 w_discovery w_running 20 = Ok (a, d', q')
      /\ lively d' /\ w_runs_ q' /\ owns 2 q' d'
      /\ life (is_query w_discovery) 20 (shape w_discovery) a (shape d') /\ wakes (phase_of d') a.
Proof.
  split; [exact w_runs|]. split; [exact w_owns|]. split; [exact w_lively|].
  split; [do 2 eexists; reflexivity|].
  exact (discovery_refines_lifecycle (B := bytes) 4 2 example_config w_discovery w_running 20
           w_runs w_owns w_lively).
Defined.

Definition w_target : Create.Target := Create.target (Create.HName w_host) 80.

Lemma creation_exact_witness :
  w_runs_ w_start /\ Host.parse w_host = Ok w_host
  /\ match Create.state_discovery 2 w_start w_clock w_target with
     | Ok (d, q') => w_runs_ q' /\ owns 2 q' d /\ lively d /\ shape d = (Absent, 0)
         /\ Schedule.failures (sched d) = Some 0 /\ port d = 80
         /\ match source d with
            | Literal _ => False
            | SQuery name' _ => name' = w_host
            end
     | Err e => e = Create.LaneCapacity w_target 2
         /\ ps_take (Queries.lanes w_start) 0 = None /\ ps_take (Queries.lanes w_start) 1 = None
     | Stuck _ => False
     end.
Proof.
  assert (Hs : 0 <= Config.stale (Config.v_refresh (Queries.q_config w_start)))
    by (apply Z.leb_le; reflexivity).
  split; [exact w_built|]. split; [reflexivity|].
  exact (creation_exact (B := bytes) 4 2 example_config w_start w_clock w_target w_built Hs eq_refl).
Defined.

(** An answer of one address, looked up from 11 to 13 and good until 200. *)
Definition w_answer : Query.Answered list := Query.answered [FamilyCode.V4 [10; 0; 0; 9]] 11 13 200.

Lemma publication_timing_witness :
  exists s m at_ d',
    publish w_discovery 14 Reason.Startup (Query.answered [FamilyCode.V4 [10; 0; 0; 9]] 11 13 200)
      (Metadata.range 104 106) = Ok (APublished s m at_, d')
    /\ s_revision s = 1 /\ revision d' = 1
    /\ map Service.addr (cv_slice (endpoints s)) = map (fun ip => match ip with
        | FamilyCode.V4 o => Net.V4 o 80 | FamilyCode.V6 o => Net.V6 o 80 0 0 end)
        (Answer.as_slice [FamilyCode.V4 [10; 0; 0; 9]])
    /\ phase_of d' = Current 113 (113 + 0)
    /\ Metadata.duration m = 13 - 11
    /\ Metadata.ttl m = Z.max 0 (113 - 13) /\ Metadata.ttl m <= 100
    /\ (Schedule.is_active (sched d') = true /\ Schedule.next (sched d') = Some (14 + 1))
    /\ (exists t, Schedule.refresh_at (sched d') = Some t /\ Z.min (14 + 1) 113 <= t <= 113)
    /\ Schedule.failures (sched d') = Some 0.
Proof.
  apply (publication_timing w_discovery 14 Reason.Startup [FamilyCode.V4 [10; 0; 0; 9]] 11 13 200
    (Metadata.range 104 106) w_host 0); vm_compute; congruence.
Defined.


End witnesses.
