(* ===== verification/Hole.v ===== *)
(** * The heap engine of the o3 crate, as an interface.

    [o3::depot::heap::hole] keeps a minimum heap in storage it reaches only
    through callbacks, [hole::raw::Source]. Its code is not part of this
    repository: here are the callbacks as a record, what makes a source
    faithful to a list of entries, and the promise of the engine to every
    faithful source. A minimum-first array shows that the promise can be kept. *)

From S2P Require Import Prelude.

(** [hole::raw::Source]: the callbacks. [src_compare] compares a value with a
    stored entry, [src_direction] a replacement with the entry it replaces,
    [src_shift s from to] moves an entry into the hole at [to], [src_write place]
    fills a hole ([place] is the const parameter [PLACE]). *)
Record Source (S V : Type) := source {
  src_len : S -> Z;
  src_set_len : S -> Z -> S;
  src_compare : S -> nat -> V -> run Empty_set comparison;
  src_direction : S -> nat -> V -> run Empty_set comparison;
  src_compare_at : S -> nat -> nat -> run Empty_set comparison;
  src_read : S -> nat -> run Empty_set V;
  src_shift : S -> nat -> nat -> run Empty_set S;
  src_write : bool -> S -> nat -> V -> run Empty_set S;
}.
Arguments source {S V}.
Arguments src_len {S V}.
Arguments src_set_len {S V}.
Arguments src_compare {S V}.
Arguments src_direction {S V}.
Arguments src_compare_at {S V}.
Arguments src_read {S V}.
Arguments src_shift {S V}.
Arguments src_write {S V}.

(** Where the storage lacks the entry the list has: nowhere; at a position the
    entry was moved to; or at one where only its key has to be rewritten. *)
Inductive Gap := Filled | Moved (at_ : nat) | InPlace (at_ : nat).
Definition gap_at (g : Gap) : option nat :=
  match g with Filled => None | Moved i | InPlace i => Some i end.

(** A comparison that decides a total order. *)
Record ordering {V} (cmp : V -> V -> comparison) : Prop := {
  cmp_flip x y : cmp x y = CompOpp (cmp y x);
  cmp_trans x y z : cmp x y <> Gt -> cmp y z <> Gt -> cmp x z <> Gt;
}.

(** The source stores the list [l] of entries, up to a gap, when [rep s l gap];
    [same v x] says that [v] may replace [x] without changing its identity. *)
Record faithful {S V} (src : Source S V) (cmp : V -> V -> comparison) (same : V -> V -> Prop)
    (rep : S -> list V -> Gap -> Prop) : Prop := {
  f_set_len s l g n : rep s l g -> rep (src_set_len src s n) l g;
  f_len s n : src_len src (src_set_len src s n) = n;
  f_compare s l g i x v : rep s l g -> gap_at g <> Some i -> l !! i = Some x ->
    src_compare src s i v = Ok (cmp v x);
  f_direction s l i x v : rep s l Filled -> l !! i = Some x -> same v x ->
    src_direction src s i v = Ok (cmp v x);
  f_compare_at s l g i j x y : rep s l g -> gap_at g <> Some i -> gap_at g <> Some j ->
    l !! i = Some x -> l !! j = Some y -> src_compare_at src s i j = Ok (cmp x y);
  f_read s l g i x : rep s l g -> gap_at g <> Some i -> l !! i = Some x -> src_read src s i = Ok x;
  f_open s l i x v : rep s l Filled -> l !! i = Some x -> same v x -> rep s (<[i:=v]> l) (InPlace i);
  f_moved s l i : rep s l (InPlace i) -> rep s l (Moved i);
  f_pop s l x : rep s (l ++ [x]) Filled -> rep s l Filled;
  f_take s l i x v : rep s (l ++ [v]) Filled -> l !! i = Some x -> rep s (<[i:=v]> l) (Moved i);
  f_shift s l i j x v : rep s l (Moved j) -> i <> j -> l !! i = Some x -> l !! j = Some v ->
    exists s', src_shift src s i j = Ok s' /\ src_len src s' = src_len src s
      /\ rep s' (<[i:=v]> (<[j:=x]> l)) (Moved i);
  f_place s l i v : rep s l (Moved i) -> l !! i = Some v ->
    exists s', src_write src true s i v = Ok s' /\ src_len src s' = src_len src s /\ rep s' l Filled;
  f_replace s l i v : rep s l (InPlace i) -> l !! i = Some v ->
    exists s', src_write src false s i v = Ok s' /\ src_len src s' = src_len src s /\ rep s' l Filled;
}.

(** [Entry::update], [Entry::remove] and [Vacancy::store]. *)
Class Hole := {
  hole_update : forall {S V}, Source S V -> S -> nat -> V -> run Empty_set S;
  hole_remove : forall {S V}, Source S V -> S -> nat -> run Empty_set (V * S);
  hole_store : forall {S V}, Source S V -> S -> V -> run Empty_set S;
}.

(** The promise: over a faithful source, each operation returns, changes the
    entries as its name says, up to their order, and keeps the heap [ordered],
    whose first entry is a least one. *)
Class HoleLaws `{Hole} := {
  hole_ordered : forall {V}, (V -> V -> comparison) -> list V -> Prop;
  hole_ordered_nil V (cmp : V -> V -> comparison) : hole_ordered cmp [];
  hole_ordered_first V (cmp : V -> V -> comparison) l x y : ordering cmp ->
    hole_ordered cmp (x :: l) -> y ∈ x :: l -> cmp x y <> Gt;
  hole_updates S V (src : Source S V) cmp same rep s l i x v :
    ordering cmp -> faithful src cmp same rep ->
    rep s l Filled -> src_len src s = Z.of_nat (length l) -> hole_ordered cmp l ->
    l !! i = Some x -> same v x ->
    exists s' l', hole_update src s i v = Ok s' /\ rep s' l' Filled
      /\ src_len src s' = Z.of_nat (length l') /\ hole_ordered cmp l' /\ l' ≡ₚ <[i:=v]> l;
  hole_removes S V (src : Source S V) cmp same rep s l i x :
    ordering cmp -> faithful src cmp same rep ->
    rep s l Filled -> src_len src s = Z.of_nat (length l) -> hole_ordered cmp l ->
    l !! i = Some x ->
    exists s' l', hole_remove src s i = Ok (x, s') /\ rep s' l' Filled
      /\ src_len src s' = Z.of_nat (length l') /\ hole_ordered cmp l' /\ x :: l' ≡ₚ l;
  hole_stores S V (src : Source S V) cmp same rep s l v :
    ordering cmp -> faithful src cmp same rep ->
    rep s l Filled -> src_len src s = Z.of_nat (length l) -> hole_ordered cmp l ->
    rep s (l ++ [v]) (Moved (length l)) ->
    exists s' l', hole_store src s v = Ok s' /\ rep s' l' Filled
      /\ src_len src s' = Z.of_nat (length l') /\ hole_ordered cmp l' /\ l' ≡ₚ l ++ [v];
}.

(** ** A concrete engine: a least entry is kept first *)

Module FirstLeast.
Section engine.
Context {S V : Type} (src : Source S V).

(** The position of a least entry among [best] and [todo] ones from [k] on. *)
Fixpoint least (s : S) (best k todo : nat) : run Empty_set nat :=
  match todo with
  | O => Ok best
  | Datatypes.S todo =>
      let! c := src_compare_at src s k best in
      least s (match c with Lt => k | _ => best end) (Datatypes.S k) todo
  end.

(** Fills the gap at 0 with [v] or, when another entry is less, with that one. *)
Definition settle (place : bool) (s : S) (n : nat) (v : V) : run Empty_set S :=
  if (n <=? 1)%nat then src_write src place s 0 v
  else
    let! m := least s 1 2 (n - 2) in
    let! c := src_compare src s m v in
    match c with
    | Gt => let! s := src_shift src s m 0 in src_write src true s m v
    | _ => src_write src place s 0 v
    end.

(** Fills the gap at [i], not the first, with [v], or moves the first there. *)
Definition challenge (place : bool) (s : S) (i : nat) (v : V) : run Empty_set S :=
  let! c := src_compare src s 0 v in
  match c with
  | Lt => let! s := src_shift src s 0 i in src_write src true s 0 v
  | _ => src_write src place s i v
  end.

Definition fill (place : bool) (s : S) (n i : nat) (v : V) : run Empty_set S :=
  match i with O => settle place s n v | _ => challenge place s i v end.

Definition update (s : S) (i : nat) (v : V) : run Empty_set S :=
  fill false s (Z.to_nat (src_len src s)) i v.
Definition store (s : S) (v : V) : run Empty_set S :=
  let n := Z.to_nat (src_len src s) in
  fill true (src_set_len src s (Z.of_nat n + 1)) (n + 1) n v.
Definition remove (s : S) (i : nat) : run Empty_set (V * S) :=
  let n := (Z.to_nat (src_len src s) - 1)%nat in
  let! x := src_read src s i in
  let s' := src_set_len src s (Z.of_nat n) in
  if (i =? n)%nat then Ok (x, s')
  else
    let! v := src_read src s n in
    let! s' := fill true s' n i v in Ok (x, s').
End engine.

(** *** It keeps the promise *)

Definition first_least {V} (cmp : V -> V -> comparison) (l : list V) : Prop :=
  match l with [] => True | x :: _ => forall y, y ∈ l -> cmp x y <> Gt end.

Section order.
Context {V : Type} (cmp : V -> V -> comparison) (Hcmp : ordering cmp).
Lemma le_refl x : cmp x x <> Gt.
Proof. pose proof (cmp_flip cmp Hcmp x x). by destruct (cmp x x). Qed.
Lemma gt_le x y : cmp x y = Gt -> cmp y x <> Gt.
Proof. intros Hc. rewrite (cmp_flip cmp Hcmp), Hc. done. Qed.
Lemma lt_le x y : cmp x y = Lt -> cmp x y <> Gt.
Proof. by intros ->. Qed.

Lemma first_least_lookup l : first_least cmp l <->
  forall x i y, l !! 0%nat = Some x -> l !! i = Some y -> cmp x y <> Gt.
Proof.
  destruct l as [|x l]; simpl; [split; [naive_solver|done]|]. split.
  - intros Hl x' i y [= <-] Hy. apply Hl. by eapply list_elem_of_lookup_2.
  - intros Hl y [i Hy]%list_elem_of_lookup_1. by eapply Hl.
Qed.
End order.

Section laws.
Context {S V : Type} (src : Source S V) (cmp : V -> V -> comparison) (same : V -> V -> Prop)
  (rep : S -> list V -> Gap -> Prop) (Hcmp : ordering cmp) (Hf : faithful src cmp same rep).

(** A gap that is [place]d was moved to; the other kind holds still. *)
Definition gap (place : bool) (i : nat) : Gap := if place then Moved i else InPlace i.
Lemma gap_moved place i s l : rep s l (gap place i) -> rep s l (Moved i).
Proof. destruct place; [done|]. apply (f_moved _ _ _ _ Hf). Qed.
Lemma gap_gap place i : gap_at (gap place i) = Some i.
Proof. by destruct place. Qed.

Definition settled (s : S) (l : list V) (m : run Empty_set S) : Prop :=
  exists s' l', m = Ok s' /\ rep s' l' Filled /\ src_len src s' = src_len src s
    /\ first_least cmp l' /\ l' ≡ₚ l.

Lemma write_settled place s l i v : rep s l (gap place i) -> l !! i = Some v ->
  first_least cmp l -> settled s l (src_write src place s i v).
Proof.
  intros Hr Hi Hl. destruct place.
  - destruct (f_place _ _ _ _ Hf s l i v Hr Hi) as (s' & -> & ? & ?). by exists s', l.
  - destruct (f_replace _ _ _ _ Hf s l i v Hr Hi) as (s' & -> & ? & ?). by exists s', l.
Qed.

Lemma shift_settled s l i j x v : rep s l (Moved j) -> i <> j -> l !! i = Some x -> l !! j = Some v ->
  first_least cmp (<[i:=v]> (<[j:=x]> l)) ->
  settled s l (let! s := src_shift src s i j in src_write src true s i v).
Proof.
  intros Hr Hij Hi Hj Hl. destruct (f_shift _ _ _ _ Hf s l i j x v Hr Hij Hi Hj) as (s1 & -> & Hn1 & Hr1).
  cbn [bind]. destruct (write_settled true s1 _ i v Hr1) as (s' & l' & -> & Hr' & Hn' & Hl' & Hp'); [|done|].
  { apply list_lookup_insert_eq. rewrite length_insert. by eapply lookup_lt_Some. }
  exists s', l'. split; [done|]. split; [done|]. split; [congruence|]. split; [done|].
  rewrite Hp'. by apply Permutation_insert_swap.
Qed.

Lemma least_spec s l g : rep s l g -> gap_at g = Some 0%nat ->
  forall todo best k, (1 <= best)%nat -> (1 <= k)%nat -> (best < length l)%nat -> (k + todo = length l)%nat ->
  exists m x, least src s best k todo = Ok m /\ (1 <= m)%nat /\ l !! m = Some x
    /\ forall j y, (j = best \/ (k <= j)%nat) -> l !! j = Some y -> cmp x y <> Gt.
Proof.
  intros Hr Hg. induction todo as [|todo IH]; intros best k Hb1 Hk1 Hb Hk; cbn [least].
  { destruct (lookup_lt_is_Some_2 l best Hb) as [x Hx]. exists best, x. do 3 (split; [done|]).
    intros j y [->|Hj] Hy; [rewrite Hx in Hy; injection Hy as <-; by apply le_refl|].
    apply lookup_lt_Some in Hy. lia. }
  destruct (lookup_lt_is_Some_2 l best Hb) as [x Hx].
  destruct (lookup_lt_is_Some_2 l k) as [y Hy]; [lia|].
  rewrite (f_compare_at _ _ _ _ Hf s l g k best y x) by (done || (rewrite Hg; intros [= <-]; lia)).
  cbn [bind]. set (best' := match cmp y x with Lt => k | _ => best end).
  destruct (IH best' (Datatypes.S k)) as (m & z & -> & Hm & Hz & Hall);
    [unfold best'; destruct (cmp y x); lia..|]. exists m, z. do 3 (split; [done|]).
  assert (Hxy : cmp z x <> Gt /\ cmp z y <> Gt).
  { unfold best' in Hall. destruct (cmp y x) eqn:Hc.
    - pose proof (Hall best x (or_introl eq_refl) Hx). split; [done|].
      eapply (cmp_trans cmp Hcmp); [done|]. rewrite (cmp_flip cmp Hcmp), Hc. done.
    - pose proof (Hall k y (or_introl eq_refl) Hy). split; [|done].
      eapply (cmp_trans cmp Hcmp); [done|]. by rewrite Hc.
    - pose proof (Hall best x (or_introl eq_refl) Hx). split; [done|].
      eapply (cmp_trans cmp Hcmp); [done|]. by apply gt_le. }
  intros j w Hj Hw. destruct (decide (j = best)) as [->|]; [naive_solver|].
  destruct (decide (j = k)) as [->|]; [naive_solver|]. apply (Hall j w); [right; lia|done].
Qed.

Lemma settle_spec place s l v : rep s l (gap place 0) -> l !! 0%nat = Some v ->
  settled s l (settle src place s (length l) v).
Proof.
  intros Hr Hv. unfold settle. destruct (Nat.leb_spec (length l) 1) as [Hle|Hgt].
  { apply write_settled; [done|done|]. apply first_least_lookup. intros x i y Hx Hy.
    pose proof (lookup_lt_Some _ _ _ Hy). assert (i = 0%nat) as -> by lia. simplify_eq. by apply le_refl. }
  destruct (least_spec s l _ Hr (gap_gap place 0) (length l - 2) 1 2) as (m & x & -> & Hm & Hx & Hall); [lia..|].
  cbn [bind]. rewrite (f_compare _ _ _ _ Hf s l _ m x v Hr) by (done || (rewrite gap_gap; intros [= <-]; lia)).
  cbn [bind].
  assert (Hall' : forall i y, i <> 0%nat -> l !! i = Some y -> cmp x y <> Gt).
  { intros i y Hi. apply Hall. lia. }
  assert (Hstay : cmp v x <> Gt -> first_least cmp l).
  { intros Hc. apply first_least_lookup. intros z i y Hz Hy. simplify_eq.
    destruct (decide (i = 0%nat)) as [->|]; [simplify_eq; by apply le_refl|].
    eapply (cmp_trans cmp Hcmp); eauto. }
  destruct (cmp v x) eqn:Hc; [by apply write_settled; auto..|].
  apply (shift_settled s l m 0 x v); [by eapply gap_moved|lia|done|done|].
  apply first_least_lookup. intros z i y. pose proof (lookup_lt_Some _ _ _ Hx).
  rewrite list_lookup_insert_ne by lia. rewrite list_lookup_insert_eq by lia. intros [= <-].
  destruct (decide (i = m)) as [->|].
  - rewrite list_lookup_insert_eq by (rewrite length_insert; lia). intros [= <-].
    by apply gt_le.
  - rewrite list_lookup_insert_ne by done. destruct (decide (i = 0%nat)) as [->|].
    + rewrite list_lookup_insert_eq by lia. intros [= <-]. by apply le_refl.
    + rewrite list_lookup_insert_ne by done. by apply Hall'.
Qed.

Lemma challenge_spec place s l i h v : rep s l (gap place i) -> l !! i = Some v -> i <> 0%nat ->
  l !! 0%nat = Some h -> (forall j y, j <> i -> l !! j = Some y -> cmp h y <> Gt) ->
  settled s l (challenge src place s i v).
Proof.
  intros Hr Hv Hi Hh Hall. unfold challenge.
  rewrite (f_compare _ _ _ _ Hf s l _ 0 h v Hr) by (done || (rewrite gap_gap; congruence)). cbn [bind].
  assert (Hstay : cmp v h <> Lt -> first_least cmp l).
  { intros Hc. apply first_least_lookup. intros z j y Hz Hy. simplify_eq.
    destruct (decide (j = i)) as [->|]; [|eauto]. simplify_eq.
    match goal with |- cmp ?a ?b <> _ => rewrite (cmp_flip cmp Hcmp a b); by destruct (cmp b a) end. }
  destruct (cmp v h) eqn:Hc; [by apply write_settled; auto| |by apply write_settled; auto].
  apply (shift_settled s l 0 i h v); [by eapply gap_moved|done|done|done|].
  pose proof (lookup_lt_Some _ _ _ Hv). pose proof (lookup_lt_Some _ _ _ Hh).
  apply first_least_lookup. intros z j y.
  rewrite list_lookup_insert_eq by (rewrite length_insert; lia). intros [= <-].
  destruct (decide (j = 0%nat)) as [->|].
  { rewrite list_lookup_insert_eq by (rewrite length_insert; lia). intros [= <-]. by apply le_refl. }
  rewrite list_lookup_insert_ne by done.
  destruct (decide (j = i)) as [->|].
  - rewrite list_lookup_insert_eq by lia. intros [= <-]. by rewrite Hc.
  - rewrite list_lookup_insert_ne by done. intros Hy.
    eapply (cmp_trans cmp Hcmp); [by rewrite Hc|]. by eapply Hall.
Qed.

(** A list whose entries but the [i]th were first-least. *)
Lemma fill_spec place s l i v : rep s l (gap place i) -> l !! i = Some v ->
  (i <> 0%nat -> exists h, l !! 0%nat = Some h /\ forall j y, j <> i -> l !! j = Some y -> cmp h y <> Gt) ->
  settled s l (fill src place s (length l) i v).
Proof.
  intros Hr Hv Hall. destruct i as [|i]; [by apply settle_spec|].
  destruct Hall as (h & Hh & Hall); [done|]. by eapply challenge_spec.
Qed.
End laws.
End FirstLeast.

Module ConcreteHole.
Import FirstLeast.

#[export] Instance first_least_hole : Hole := {|
  hole_update _ _ := FirstLeast.update;
  hole_remove _ _ := FirstLeast.remove;
  hole_store _ _ := FirstLeast.store;
|}.

Section operations.
Context {S V : Type} (src : Source S V) (cmp : V -> V -> comparison) (same : V -> V -> Prop)
  (rep : S -> list V -> Gap -> Prop) (Hcmp : ordering cmp) (Hf : faithful src cmp same rep).

Lemma update_ok s l i x v : rep s l Filled -> src_len src s = Z.of_nat (length l) -> first_least cmp l ->
  l !! i = Some x -> same v x ->
  exists s' l', update src s i v = Ok s' /\ rep s' l' Filled
    /\ src_len src s' = Z.of_nat (length l') /\ first_least cmp l' /\ l' ≡ₚ <[i:=v]> l.
Proof.
  intros Hr Hn Hl Hx Hs.
  pose proof (lookup_lt_Some _ _ _ Hx) as Hi. simpl. unfold update. rewrite Hn, Nat2Z.id.
  destruct (fill_spec src cmp same rep Hcmp Hf false s (<[i:=v]> l) i v) as (s' & l' & He & Hr' & Hn' & Hl' & Hp).
  + by eapply (f_open _ _ _ _ Hf).
  + by apply list_lookup_insert_eq.
  + intros Hi0. destruct (lookup_lt_is_Some_2 l 0) as [h Hh]; [lia|]. exists h.
    rewrite list_lookup_insert_ne by done. split; [done|]. intros j y Hj.
    rewrite list_lookup_insert_ne by done. apply (proj1 (first_least_lookup cmp l) Hl h j y Hh).
  + rewrite length_insert in He. exists s', l'. split; [done|]. split; [done|].
    split; [rewrite Hn', Hn, Hp, length_insert; done|]. done.
Qed.

Lemma remove_ok s l i x : rep s l Filled -> src_len src s = Z.of_nat (length l) -> first_least cmp l ->
  l !! i = Some x ->
  exists s' l', remove src s i = Ok (x, s') /\ rep s' l' Filled
    /\ src_len src s' = Z.of_nat (length l') /\ first_least cmp l' /\ x :: l' ≡ₚ l.
Proof.
  intros Hr Hn Hl Hx.
  pose proof (lookup_lt_Some _ _ _ Hx) as Hi. simpl. unfold remove. rewrite Hn, Nat2Z.id.
  destruct l as [|v l _] using rev_ind; [done|]. rewrite length_app in *. simpl in *.
  replace (length l + 1 - 1)%nat with (length l) by lia.
  rewrite (f_read _ _ _ _ Hf s _ Filled i x Hr) by done. cbn [bind].
  assert (Hl0 : forall h j y, l !! 0%nat = Some h -> l !! j = Some y -> cmp h y <> Gt).
  { intros h j y Hh Hy. apply (proj1 (first_least_lookup cmp _) Hl h j y); by apply lookup_app_l_Some. }
  destruct (Nat.eqb_spec i (length l)) as [->|Hne].
  + rewrite lookup_app_r, Nat.sub_diag in Hx by lia. injection Hx as <-.
    exists (src_set_len src s (Z.of_nat (length l))), l. split; [done|].
    split; [by eapply (f_set_len _ _ _ _ Hf), (f_pop _ _ _ _ Hf)|].
    split; [by apply (f_len _ _ _ _ Hf)|]. split; [by apply first_least_lookup|].
    by rewrite Permutation_app_comm.
  + rewrite lookup_app_l in Hx by lia.
    rewrite (f_read _ _ _ _ Hf s _ Filled (length l) v Hr) by (done || by apply list_lookup_middle).
    cbn [bind]. set (s1 := src_set_len src s (Z.of_nat (length l))).
    assert (Hlv : forall j y, j <> i -> <[i:=v]> l !! j = Some y -> l !! j = Some y).
    { intros j y Hj. by rewrite list_lookup_insert_ne. }
    destruct (fill_spec src cmp same rep Hcmp Hf true s1 (<[i:=v]> l) i v) as (s' & l' & He & Hr' & Hn' & Hl' & Hp).
    * by eapply (f_set_len _ _ _ _ Hf), (f_take _ _ _ _ Hf).
    * apply list_lookup_insert_eq. lia.
    * intros Hi0. destruct (lookup_lt_is_Some_2 l 0) as [h Hh]; [lia|]. exists h.
      rewrite list_lookup_insert_ne by done. split; [done|]. intros j y Hj Hy. eauto.
    * rewrite length_insert in He. rewrite He. cbn [bind]. exists s', l'. split; [done|]. split; [done|].
      split; [rewrite Hn'; unfold s1; rewrite (f_len _ _ _ _ Hf), Hp, length_insert; done|].
      split; [done|]. rewrite Hp. rewrite (Permutation_app_comm l [v]). simpl.
      rewrite insert_take_drop by lia. rewrite <- (take_drop_middle l i x Hx) at 3.
      rewrite <- !Permutation_middle. apply Permutation_swap.
Qed.

Lemma store_ok s l v : rep s l Filled -> src_len src s = Z.of_nat (length l) -> first_least cmp l ->
  rep s (l ++ [v]) (Moved (length l)) ->
  exists s' l', store src s v = Ok s' /\ rep s' l' Filled
    /\ src_len src s' = Z.of_nat (length l') /\ first_least cmp l' /\ l' ≡ₚ l ++ [v].
Proof.
  intros Hr Hn Hl Hr1. simpl. unfold store. rewrite Hn, Nat2Z.id.
  set (s1 := src_set_len src s _).
  destruct (fill_spec src cmp same rep Hcmp Hf true s1 (l ++ [v]) (length l) v) as (s' & l' & He & Hr' & Hn' & Hl' & Hp).
  + by eapply (f_set_len _ _ _ _ Hf).
  + by apply list_lookup_middle.
  + intros Hi0. destruct (lookup_lt_is_Some_2 l 0) as [h Hh]; [lia|]. exists h.
    split; [by apply lookup_app_l_Some|]. intros j y Hj Hy.
    assert (Hjl : l !! j = Some y).
    { apply lookup_app_Some in Hy as [Hy|[Hy1 Hy2]]; [done|]. apply list_lookup_singleton_Some in Hy2 as [? _]. lia. }
    by apply (proj1 (first_least_lookup cmp l) Hl h j y Hh).
  + rewrite length_app in He. simpl in He. exists s', l'. split; [done|]. split; [done|].
    split; [rewrite Hn'; unfold s1; rewrite (f_len _ _ _ _ Hf), Hp, length_app; simpl; lia|]. done.
Qed.
End operations.

#[export] Instance first_least_hole_laws : HoleLaws.
Proof.
  refine {| hole_ordered _ cmp l := first_least cmp l |}.
  - done.
  - intros V cmp l x y _ Hl Hy. by apply Hl.
  - intros S V src cmp same rep s l i x v Hcmp Hf. exact (update_ok src cmp same rep Hcmp Hf s l i x v).
  - intros S V src cmp same rep s l i x Hcmp Hf. exact (remove_ok src cmp same rep Hcmp Hf s l i x).
  - intros S V src cmp same rep s l v Hcmp Hf. exact (store_ok src cmp same rep Hcmp Hf s l v).
Qed.
End ConcreteHole.
