(* ===== verification/Timer.v ===== *)
(** * The driver's timers.

    Model of [src/layer0/core/src/driver/schedule/clock/timer]: a heap of fixed
    capacity whose entries carry a deadline and the slot of a leased resident,
    the state of every slot, the free list that runs through the slots nobody
    leases, and the timer commands on it: arm, poll, clear, and the expiry that
    fires what is due and wakes its tasks. The heap engine is [Hole]. *)

From S2P Require Import Prelude Depot Hole.

Module Heap.
(** [FREE], src/layer0/core/src/driver/schedule/clock/timer/heap/mod.rs:18-18. *)
Definition FREE : Z := 2 ^ 32 - 1.
(** [IDLE], src/layer0/core/src/driver/schedule/clock/timer/heap/mod.rs:19-19. *)
Definition IDLE : Z := 2 ^ 32 - 2.
(** [FIRED], src/layer0/core/src/driver/schedule/clock/timer/heap/mod.rs:20-20. *)
Definition FIRED : Z := 2 ^ 32 - 3.

(** [Slot], src/layer0/core/src/driver/schedule/clock/timer/heap/tokens/mod.rs:6-6. A [u32]. *)
Definition Slot := Z.
(** [Live], src/layer0/core/src/driver/schedule/clock/timer/heap/tokens/mod.rs:10-10. A [usize]. *)
Definition Live := Z.
(** [Live::from_slot], src/layer0/core/src/driver/schedule/clock/timer/heap/tokens/mod.rs:13-15. *)
Definition from_slot (slot : Slot) : Live := slot.
(** [Live::slot], src/layer0/core/src/driver/schedule/clock/timer/heap/tokens/mod.rs:17-19. *)
Definition slot_of (self : Live) : Slot := wrap 32 self.
(** [Lease], src/layer0/core/src/driver/schedule/clock/timer/heap/tokens/lease.rs:9-13. The
    slot plus one. *)
Definition Lease := Z.
(** [Lease::from_live], src/layer0/core/src/driver/schedule/clock/timer/heap/tokens/lease.rs:16-24. *)
Definition from_live (live : Live) : Lease := slot_of live + 1.
(** [Lease::live], src/layer0/core/src/driver/schedule/clock/timer/heap/tokens/lease.rs:26-28. *)
Definition live (self : Lease) : Live := self - 1.

(** [State], src/layer0/core/src/driver/schedule/clock/timer/heap/tokens/state.rs:3-7. *)
Inductive State := Idle | Armed | Fired.
(** [Position], src/layer0/core/src/driver/schedule/clock/timer/heap/order.rs:15-15. *)
Definition Position := nat.
(** [Position::from_state], src/layer0/core/src/driver/schedule/clock/timer/heap/order.rs:65-67. *)
Definition from_state (state : Z) : Position := Z.to_nat state.
(** [Phase], src/layer0/core/src/driver/schedule/clock/timer/heap/core.rs:32-36. *)
Inductive Phase := PArmed (p : Position) | PIdle | PFired.
(** [Free], src/layer0/core/src/driver/schedule/clock/timer/heap/core.rs:30-30. A
    proof that a slot is free. *)
Inductive Free := free_proof.
(** [Root], src/layer0/core/src/driver/schedule/clock/timer/heap/order.rs:11-11. *)
Inductive Root := root_proof.

(** [Resident], src/layer0/core/src/driver/schedule/clock/timer/heap/core.rs:15-18. A union:
    reading the other field is undefined. *)
Inductive Resident (R : Type) := RNext (next : Z) | RValue (value : R).
Arguments RNext {R} next.
Arguments RValue {R} value.

(** [Core], src/layer0/core/src/driver/schedule/clock/timer/heap/core.rs:20-22.
    Four planes of one length; the slots and priorities beyond [len] are
    uninitialised. A priority is an instant. *)
Record Core (R : Type) := core {
  slots : list (option Slot); priorities : list (option Z);
  states : list Z; residents : list (Resident R);
  len : Z; free_head : Z }.
Arguments core {R}.
Arguments slots {R}.
Arguments priorities {R}.
Arguments states {R}.
Arguments residents {R}.
Arguments len {R}.
Arguments free_head {R}.

(** The error of [Core::try_new]: the capacity overflows, or an allocation failed. *)
Inductive NewError (A : Type) := EOverflow | EAlloc (e : A).
Arguments EOverflow {A}.
Arguments EAlloc {A} e.

(** [alloc::raw::Rows::EXTRA_MAX]: the longest planes that can be laid out. *)
Class Rows := EXTRA_MAX : Z.

Section heap.
Context {R : Type} `{Hole}.
Abbreviation Core := (Core R).

Definition with_slots (self : Core) x : Core :=
  core x (priorities self) (states self) (residents self) (len self) (free_head self).
Definition with_priorities (self : Core) x : Core :=
  core (slots self) x (states self) (residents self) (len self) (free_head self).
Definition with_states (self : Core) x : Core :=
  core (slots self) (priorities self) x (residents self) (len self) (free_head self).
Definition with_residents (self : Core) x : Core :=
  core (slots self) (priorities self) (states self) x (len self) (free_head self).
Definition with_len (self : Core) x : Core :=
  core (slots self) (priorities self) (states self) (residents self) x (free_head self).
Definition with_free (self : Core) x : Core :=
  core (slots self) (priorities self) (states self) (residents self) (len self) x.

(** [get_unchecked] of a plane and [assume_init]: both are undefined out of
    the initialised part. *)
Definition at_unchecked {A} (l : list A) (i : nat) : run Empty_set A :=
  match l !! i with Some a => Ok a | None => Stuck Undefined end.
Definition assume_init {A} (o : option A) : run Empty_set A :=
  match o with Some a => Ok a | None => Stuck Undefined end.
Definition set_unchecked {A} (l : list A) (i : nat) (a : A) : run Empty_set (list A) :=
  match l !! i with Some _ => Ok (<[i:=a]> l) | None => Stuck Undefined end.

(** [Capacity::new], src/layer0/core/src/driver/schedule/clock/timer/heap/capacity.rs:14-24. *)
Definition capacity_new `{Rows} `{Allocation} (capacity : Z) : run (NewError alloc_Error) Z :=
  if (2 ^ 32 - 3 <? capacity) || (EXTRA_MAX <? capacity) then Err EOverflow
  else Ok (wrap 32 capacity).

(** [Core::try_new], src/layer0/core/src/driver/schedule/clock/timer/heap/core.rs:39-58. *)
Definition try_new `{Rows} `{Allocation} (cap : Z) : run (NewError alloc_Error) Core :=
  let! count := capacity_new cap in
  let next index := if index + 1 =? count then FREE else wrap 32 (index + 1) in
  let n := Z.to_nat count in
  map_err EAlloc (allocate
    (core (replicate n None) (replicate n None) (replicate n FREE)
       (map (fun index => RNext (next index)) (seqZ 0 count))
       0 (if count =? 0 then FREE else 0))).

(** [Core::write_state], src/layer0/core/src/driver/schedule/clock/timer/heap/core.rs:148-152. *)
Definition write_state (self : Core) (slot : Slot) (state : Z) : run Empty_set Core :=
  let! s := set_unchecked (states self) (Z.to_nat slot) state in Ok (with_states self s).

(** [Core::priority_at], src/layer0/core/src/driver/schedule/clock/timer/heap/order.rs:18-28. *)
Definition priority_at (self : Core) (pos : Position) : run Empty_set Z :=
  let! p := at_unchecked (priorities self) pos in assume_init p.
(** [Core::slot], src/layer0/core/src/driver/schedule/clock/timer/heap/order.rs:49-53. *)
Definition slot (self : Core) (pos : Position) : run Empty_set Slot :=
  let! s := at_unchecked (slots self) pos in assume_init s.
(** [Core::cmp], src/layer0/core/src/driver/schedule/clock/timer/heap/order.rs:55-59. *)
Definition cmp (self : Core) (priority : Z) (s : Slot) (position : Position)
    : run Empty_set comparison :=
  let! p := priority_at self position in
  match priority ?= p with
  | Eq => let! s' := slot self position in Ok (s ?= s')
  | c => Ok c
  end.

(** [read], src/layer0/core/src/driver/schedule/clock/timer/heap/order.rs:149-160. *)
Definition read (self : Core) (position : nat) : run Empty_set (Slot * Z) :=
  let! s := slot self position in
  let! p := priority_at self position in Ok (s, p).

(** [write], src/layer0/core/src/driver/schedule/clock/timer/heap/order.rs:162-182. *)
Definition write (place : bool) (self : Core) (position : nat) (v : Slot * Z) : run Empty_set Core :=
  let '(s, priority) := v in
  let! self :=
    if place then let! x := set_unchecked (slots self) position (Some s) in Ok (with_slots self x)
    else Ok self in
  let! x := set_unchecked (priorities self) position (Some priority) in
  let self := with_priorities self x in
  if place then write_state self s (wrap 32 (Z.of_nat position)) else Ok self.

(** [Storage/Source], src/layer0/core/src/driver/schedule/clock/timer/heap/order.rs:101-147. The
    callbacks of the heap engine. *)
Definition storage : Source Core (Slot * Z) := source
  len with_len
  (fun self position '(s, priority) => cmp self priority s position)
  (fun self position '(_, priority) => let! p := priority_at self position in Ok (priority ?= p))
  (fun self left right =>
    let! p := priority_at self left in
    let! s := slot self left in cmp self p s right)
  read
  (fun self source target => let! v := read self source in write true self target v)
  write.

(** [Core::root], src/layer0/core/src/driver/schedule/clock/timer/heap/order.rs:30-32. *)
Definition root (self : Core) : option Root := if len self =? 0 then None else Some root_proof.
(** [Core::min_slot], src/layer0/core/src/driver/schedule/clock/timer/heap/order.rs:34-37. *)
Definition min_slot (self : Core) (r : Root) : run Empty_set Slot := slot self 0%nat.
(** [Core::min_priority], src/layer0/core/src/driver/schedule/clock/timer/heap/order.rs:39-42. *)
Definition min_priority (self : Core) (r : Root) : run Empty_set Z := priority_at self 0%nat.
(** [Core::peek], src/layer0/core/src/driver/schedule/clock/timer/heap/order.rs:44-47. *)
Definition peek (self : Core) : run Empty_set (option Z) :=
  match root self with
  | None => Ok None
  | Some r => let! p := min_priority self r in Ok (Some p)
  end.
(** [Core::set_at], src/layer0/core/src/driver/schedule/clock/timer/heap/order.rs:75-84. *)
Definition set_at (self : Core) (position : Position) (s : Slot) (prio : Z) : run Empty_set Core :=
  hole_update storage self position (s, prio).
(** [Core::remove_at], src/layer0/core/src/driver/schedule/clock/timer/heap/order.rs:86-91. *)
Definition remove_at (self : Core) (position : Position) : run Empty_set Core :=
  let! (_, self) := hole_remove storage self position in Ok self.
(** [insert], src/layer0/core/src/driver/schedule/clock/timer/heap/order.rs:94-97. *)
Definition insert (self : Core) (s : Slot) (prio : Z) : run Empty_set Core :=
  hole_store storage self (s, prio).

(** [Core::free], src/layer0/core/src/driver/schedule/clock/timer/heap/core.rs:60-62. *)
Definition free (self : Core) : option Free :=
  if free_head self =? FREE then None else Some free_proof.

(** [Core::lease], src/layer0/core/src/driver/schedule/clock/timer/heap/core.rs:64-76. *)
Definition lease (self : Core) (item : R) (f : Free) : run Empty_set (Live * Core) :=
  let slot := free_head self in
  let! entry := at_unchecked (residents self) (Z.to_nat slot) in
  match entry with
  | RValue _ => Stuck Undefined
  | RNext next =>
      let self := with_residents self (<[Z.to_nat slot:=RValue item]> (residents self)) in
      let! self := write_state (with_free self next) slot IDLE in
      Ok (from_slot slot, self)
  end.

(** [Core::phase], src/layer0/core/src/driver/schedule/clock/timer/heap/core.rs:154-161. *)
Definition phase (self : Core) (l : Live) : run Empty_set Phase :=
  let! state := at_unchecked (states self) (Z.to_nat (slot_of l)) in
  Ok (if state =? IDLE then PIdle else if state =? FIRED then PFired else PArmed (from_state state)).

(** [Core::clear], src/layer0/core/src/driver/schedule/clock/timer/heap/core.rs:131-138. Its
    beginning, shared with [Core::release]: an armed priority leaves the heap. *)
Definition disarm (self : Core) (l : Live) : run Empty_set Core :=
  let! ph := phase self l in
  match ph with
  | PArmed position => remove_at self position
  | PIdle | PFired => Ok self
  end.

(** [Core::release], src/layer0/core/src/driver/schedule/clock/timer/heap/core.rs:78-94. *)
Definition release (self : Core) (l : Live) : run Empty_set (R * Core) :=
  let! self := disarm self l in
  let slot := slot_of l in
  let next := free_head self in
  let! entry := at_unchecked (residents self) (Z.to_nat slot) in
  match entry with
  | RNext _ => Stuck Undefined
  | RValue item =>
      let self := with_residents self (<[Z.to_nat slot:=RNext next]> (residents self)) in
      let! self := write_state (with_free self slot) slot FREE in
      Ok (item, self)
  end.

(** [Core::state], src/layer0/core/src/driver/schedule/clock/timer/heap/core.rs:96-102. *)
Definition state (self : Core) (l : Live) : run Empty_set State :=
  let! ph := phase self l in
  Ok match ph with PArmed _ => Armed | PIdle => Idle | PFired => Fired end.

(** [Core::priority], src/layer0/core/src/driver/schedule/clock/timer/heap/core.rs:104-109. *)
Definition priority (self : Core) (l : Live) : run Empty_set (option Z) :=
  let! ph := phase self l in
  match ph with
  | PArmed position => let! p := priority_at self position in Ok (Some p)
  | PIdle | PFired => Ok None
  end.

(** [Core::resident], src/layer0/core/src/driver/schedule/clock/timer/heap/core.rs:111-122. *)
Definition resident (self : Core) (l : Live) : run Empty_set R :=
  let! entry := at_unchecked (residents self) (Z.to_nat (slot_of l)) in
  match entry with RValue value => Ok value | RNext _ => Stuck Undefined end.

(** Writing through a cell inside the resident [Core::resident] lends. *)
Definition set_resident (self : Core) (l : Live) (value : R) : run Empty_set Core :=
  let! _ := resident self l in
  Ok (with_residents self (<[Z.to_nat (slot_of l):=RValue value]> (residents self))).

(** [Core::set], src/layer0/core/src/driver/schedule/clock/timer/heap/core.rs:124-129. *)
Definition set (self : Core) (l : Live) (prio : Z) : run Empty_set Core :=
  let! ph := phase self l in
  match ph with
  | PArmed position => set_at self position (slot_of l) prio
  | PIdle | PFired => insert self (slot_of l) prio
  end.

(** [Core::clear], src/layer0/core/src/driver/schedule/clock/timer/heap/core.rs:131-138. *)
Definition clear (self : Core) (l : Live) : run Empty_set Core :=
  let! self := disarm self l in
  write_state self (slot_of l) IDLE.

(** [Core::fire], src/layer0/core/src/driver/schedule/clock/timer/heap/core.rs:140-146. *)
Definition fire (self : Core) (r : Root) : run Empty_set (Live * Core) :=
  let! s := min_slot self r in
  let! self := remove_at self 0%nat in
  let! self := write_state self s FIRED in
  Ok (from_slot s, self).
End heap.
Arguments Core R : clear implicits.
End Heap.

(** ** Timer commands *)

Module Timer.
Import Heap.
Section timer.
(** [W] is the stored wake target of a task; [wake] reports it. *)
Context {W : Type} `{Hole}.
(** [slot::Slot], src/layer0/core/src/driver/schedule/ready/wake/resident/slot.rs:8-10. *)
Definition Cell := option W.
Abbreviation Core := (Core Cell).

(** [Exhausted], src/layer0/core/src/driver/schedule/clock/timer/mod.rs:19-21. *)
Inductive Exhausted := Slots.

(** [Timer::earliest], src/layer0/core/src/driver/schedule/clock/timer/mod.rs:35-38. *)
Definition earliest (c : Core) : run Empty_set (option Z) := peek c.

(** [Timer::try_alarm], src/layer0/core/src/driver/schedule/clock/timer/mod.rs:40-48. With
    [Min::vacancy] and [Vacancy::lease]. *)
Definition try_alarm (c : Core) : run Exhausted (Lease * Core) :=
  match free c with
  | None => Err Slots
  | Some f =>
      match lease c None f with
      | Ok (l, c) => Ok (from_live l, c)
      | Err e => match e with end
      | Stuck w => Stuck w
      end
  end.

(** [Command::due], src/layer0/core/src/driver/schedule/clock/timer/mod.rs:84-90. *)
Definition due (c : Core) (now : Z) : run Empty_set (option Root) :=
  match root c with
  | None => Ok None
  | Some r => let! p := min_priority c r in Ok (if p <=? now then Some r else None)
  end.

(** [Command::set_target], src/layer0/core/src/driver/schedule/clock/timer/mod.rs:92-94. *)
Definition set_target (c : Core) (l : Lease) (wake : W) : run Empty_set Core :=
  set_resident c (live l) (Some wake).

(** [Command::arm_alarm], src/layer0/core/src/driver/schedule/clock/timer/mod.rs:96-104. *)
Definition arm_alarm (c : Core) (l : Lease) (due : Z) (wake : W) : run Empty_set Core :=
  let! c := set_target c l wake in set c (live l) due.

(** [Command::clear_alarm], src/layer0/core/src/driver/schedule/clock/timer/mod.rs:106-109. *)
Definition clear_alarm (c : Core) (l : Lease) : run Empty_set Core :=
  let! c := clear c (live l) in set_resident c (live l) None.

(** [Timer::has_alarm], src/layer0/core/src/driver/schedule/clock/timer/mod.rs:113-115. *)
Definition has_alarm (c : Core) (l : Lease) : run Empty_set bool :=
  let! s := state c (live l) in Ok match s with Idle => false | _ => true end.

(** [Timer::arm], src/layer0/core/src/driver/schedule/clock/timer/mod.rs:117-119. *)
Definition arm (c : Core) (l : Lease) (due : Z) (target : W) : run Empty_set Core :=
  arm_alarm c l due target.

(** [Timer::arm_and_poll], src/layer0/core/src/driver/schedule/clock/timer/mod.rs:121-137. The
    boolean is [Poll::Ready]. *)
Definition arm_and_poll (c : Core) (l : Lease) (due now : Z) (target : W)
    : run Empty_set (bool * Core) :=
  if due <=? now then let! c := clear_alarm c l in Ok (true, c)
  else let! c := arm_alarm c l due target in Ok (false, c).

(** [Timer::poll], src/layer0/core/src/driver/schedule/clock/timer/mod.rs:139-159. *)
Definition poll (c : Core) (l : Lease) (now : Z) (target : W) : run Empty_set (bool * Core) :=
  let! state := state c (live l) in
  let! due :=
    match state with
    | Fired => Ok true
    | _ => let! p := priority c (live l) in
           Ok match p with Some due => due <=? now | None => false end
    end in
  if due : bool then let! c := clear_alarm c l in Ok (true, c)
  else match state with
       | Armed => let! c := set_target c l target in Ok (false, c)
       | _ => Ok (false, c)
       end.

(** [Timer::clear], src/layer0/core/src/driver/schedule/clock/timer/mod.rs:161-163. *)
Definition clear_ (c : Core) (l : Lease) : run Empty_set Core := clear_alarm c l.

(** [Slot::wake_once], src/layer0/core/src/driver/schedule/ready/wake/resident/slot.rs:21-27.
    The target it takes out of the cell is woken. *)
Definition wake_once (c : Core) (l : Live) : run Empty_set (list W * Core) :=
  let! target := resident c l in
  match target with
  | None => Ok ([], c)
  | Some target => let! c := set_resident c l None in Ok ([target], c)
  end.

(** [Timer::expire], src/layer0/core/src/driver/schedule/clock/timer/mod.rs:165-176. Its loop,
    with [work] permits left in the budget; the woken targets in order. *)
Fixpoint expire (c : Core) (now : Z) (work : nat) : run Empty_set (list W * Core) :=
  let! d := due c now in
  match d, work with
  | None, _ | _, O => Ok ([], c)
  | Some root, S work =>
      let! (l, c) := fire c root in
      let! (woken, c) := wake_once c l in
      let! (rest, c) := expire c now work in
      Ok (woken ++ rest, c)
  end.

(** [Access::return_item], src/layer0/core/src/driver/schedule/clock/timer/mod.rs:263-267.
    Dropping an alarm. *)
Definition return_item (c : Core) (l : Lease) : run Empty_set Core :=
  let! (_, c) := release c (live l) in Ok c.
End timer.
End Timer.
