(* ===== verification/TimerFacts.v ===== *)
(** * Timers are independent alarms.

    Abstractly the timer store is a finite map from leased slots to an alarm,
    idle, armed with a deadline or fired, and the resident kept with it. The
    concrete store, with its heap planes, its reverse map and its free list,
    implements every operation on this map; expiry fires what is due, least
    deadline first. *)

From Stdlib Require Import Sorted.
From stdpp Require Import gmap.
From S2P Require Import Prelude Depot Time Hole Timer.

Import Heap.

(** ** The storage of the heap is a faithful source *)

(** Deadlines first, then slots. *)
Definition entry_cmp (a b : Slot * Z) : comparison :=
  match a.2 ?= b.2 with Eq => a.1 ?= b.1 | c => c end.
Definition same_slot (v x : Slot * Z) : Prop := v.1 = x.1.

Lemma entry_ordering : ordering entry_cmp.
Proof.
  unfold entry_cmp. split.
  - intros [s p] [s' p']. simpl. rewrite (Z.compare_antisym p p'), (Z.compare_antisym s s').
    by destruct (p ?= p'), (s ?= s').
  - intros [s p] [s' p'] [s'' p'']. simpl.
    destruct (Z.compare_spec p p'), (Z.compare_spec p' p''), (Z.compare_spec p p''); try lia; try congruence;
      destruct (Z.compare_spec s s'), (Z.compare_spec s' s''), (Z.compare_spec s s''); intros; try lia; congruence.
Qed.

Lemma entry_cmp_min a b : entry_cmp a b <> Gt -> a.2 <= b.2.
Proof. unfold entry_cmp. destruct (Z.compare_spec a.2 b.2); try done; lia. Qed.

Section storage.
Context {R : Type} (n : nat) (Hn : Z.of_nat n <= 2 ^ 32 - 3).
Abbreviation Core := (Core R).

(** The four planes have room for [n] entries. *)
Record planes (c : Core) : Prop := {
  pl_slots : length (slots c) = n;
  pl_priorities : length (priorities c) = n;
  pl_states : length (states c) = n;
  pl_residents : length (residents c) = n;
}.
Definition in_slots (s : Slot) : Prop := 0 <= s < Z.of_nat n.

(** An entry of the heap and the reverse map that points to it. *)
Definition holds (c : Core) (i : nat) (s : Slot) : Prop :=
  slots c !! i = Some (Some s) /\ states c !! Z.to_nat s = Some (Z.of_nat i).
Definition stored (c : Core) (i : nat) (v : Slot * Z) : Prop :=
  holds c i v.1 /\ priorities c !! i = Some (Some v.2).

Definition entry_at (c : Core) (g : Gap) (i : nat) (v : Slot * Z) : Prop :=
  match g with
  | Filled => stored c i v
  | Moved j => i <> j -> stored c i v
  | InPlace j => if decide (i = j) then holds c i v.1 else stored c i v
  end.

(** The core stores the entries [l] up to the gap; of [c0] it has changed at
    most the heap and the states of the slots in [D]. *)
Record rep (c0 : Core) (D : list Slot) (c : Core) (l : list (Slot * Z)) (g : Gap) : Prop := {
  r_planes : planes c;
  r_length : (length l <= n)%nat;
  r_nodup : NoDup l.*1;
  r_slots s : s ∈ l.*1 -> in_slots s /\ s ∈ D;
  r_entries i v : l !! i = Some v -> entry_at c g i v;
  r_residents : residents c = residents c0;
  r_free : free_head c = free_head c0;
  r_states s : 0 <= s -> s ∉ D -> states c !! Z.to_nat s = states c0 !! Z.to_nat s;
}.

Lemma nodup_slot (l : list (Slot * Z)) i j v w : NoDup l.*1 ->
  l !! i = Some v -> l !! j = Some w -> v.1 = w.1 -> i = j.
Proof.
  intros Hd Hi Hj He. eapply (NoDup_lookup l.*1); [done| |]; rewrite list_lookup_fmap.
  - rewrite Hi. done.
  - rewrite Hj. simpl. by rewrite He.
Qed.

Lemma entry_stored c g i v : gap_at g <> Some i -> entry_at c g i v -> stored c i v.
Proof. destruct g as [|j|j]; simpl; [done| |]; intros Hne; [|rewrite decide_False by congruence]; naive_solver. Qed.

Lemma stored_read c i v : stored c i v -> read c i = Ok v.
Proof.
  intros [[Hs _] Hp]. unfold read, slot, priority_at, at_unchecked. rewrite Hs, Hp. by destruct v.
Qed.
Lemma stored_cmp c i v p s : stored c i v -> cmp c p s i = Ok (entry_cmp (s, p) v).
Proof.
  intros [[Hs _] Hp]. unfold cmp, slot, priority_at, at_unchecked. rewrite Hs, Hp.
  unfold entry_cmp. simpl. by destruct (p ?= v.2).
Qed.
Lemma stored_priority c i v : stored c i v -> priority_at c i = Ok v.2.
Proof. intros [_ Hp]. unfold priority_at, at_unchecked. by rewrite Hp. Qed.
Lemma stored_slot c i v : stored c i v -> slot c i = Ok v.1.
Proof. intros [[Hs _] _]. unfold slot, at_unchecked. by rewrite Hs. Qed.

Lemma set_unchecked_ok {A} (l : list A) i a : (i < length l)%nat -> set_unchecked l i a = Ok (<[i:=a]> l).
Proof. intros Hi. unfold set_unchecked. destruct (lookup_lt_is_Some_2 l i Hi) as [x ->]. done. Qed.

(** A filled gap: the planes after a write. *)
Definition written (place : bool) (c : Core) (i : nat) (v : Slot * Z) : Core :=
  core (if place then <[i:=Some v.1]> (slots c) else slots c) (<[i:=Some v.2]> (priorities c))
    (if place then <[Z.to_nat v.1:=Z.of_nat i]> (states c) else states c)
    (residents c) (len c) (free_head c).

Lemma write_ok place c i v : planes c -> (i < n)%nat -> in_slots v.1 ->
  write place c i v = Ok (written place c i v).
Proof.
  intros [H1 H2 H3 H4] Hi Hv. destruct v as [s p]. unfold write, written, in_slots in *. simpl in *.
  destruct place; simpl.
  - rewrite set_unchecked_ok by lia. simpl. rewrite set_unchecked_ok by lia. simpl.
    unfold write_state. simpl. rewrite set_unchecked_ok by lia. simpl.
    rewrite wrap_small by lia. done.
  - rewrite set_unchecked_ok by lia. simpl. by destruct c.
Qed.

Lemma written_planes place c i v : planes c -> planes (written place c i v).
Proof. intros [H1 H2 H3 H4]. split; simpl; destruct place; by rewrite ?length_insert. Qed.

Lemma written_stored c i v : planes c -> (i < n)%nat -> in_slots v.1 -> stored (written true c i v) i v.
Proof.
  intros [H1 H2 H3 H4] Hi Hv. unfold in_slots in Hv.
  split; [split|]; simpl; apply list_lookup_insert_eq; lia.
Qed.
Lemma written_other place c i v j w : stored c j w -> j <> i -> 0 <= v.1 -> 0 <= w.1 -> v.1 <> w.1 ->
  stored (written place c i v) j w.
Proof.
  intros [[Hs Ht] Hp] Hne Hv Hw Hvw. assert (Z.to_nat v.1 <> Z.to_nat w.1) by lia.
  split; [split|]; simpl; destruct place; try done; by rewrite list_lookup_insert_ne.
Qed.

Section faithful.
Context (c0 : Core) (D : list Slot).
Abbreviation rep := (rep c0 D).

Lemma rep_slot c l g i v : rep c l g -> l !! i = Some v -> in_slots v.1 /\ v.1 ∈ D /\ (i < n)%nat.
Proof.
  intros Hr Hi. pose proof (lookup_lt_Some _ _ _ Hi). pose proof (r_length _ _ _ _ _ Hr).
  destruct (r_slots _ _ _ _ _ Hr v.1) as [? ?]; [|split; [done|split; [done|lia]]].
  apply list_elem_of_fmap. exists v. split; [done|]. by eapply list_elem_of_lookup_2.
Qed.
Lemma rep_stored c l g i v : rep c l g -> gap_at g <> Some i -> l !! i = Some v -> stored c i v.
Proof. intros Hr Hg Hi. eapply entry_stored; [done|]. by eapply r_entries. Qed.

(** Writing the entry [v] of the list where it belongs. *)
Lemma rep_write place c l g l' g' i v : rep c l g -> (place = false -> holds c i v.1) ->
  l' ≡ₚ l -> l' !! i = Some v -> gap_at g' <> Some i ->
  (forall j w, j <> i -> gap_at g' <> Some j -> l' !! j = Some w -> stored c j w) ->
  match g' with InPlace _ => False | _ => True end ->
  exists c', write place c i v = Ok c' /\ len c' = len c /\ rep c' l' g'.
Proof.
  intros Hr Hh Hp Hi Hg Hother Hg'.
  assert (Hv : in_slots v.1 /\ v.1 ∈ D).
  { apply (r_slots _ _ _ _ _ Hr). rewrite <- Hp. apply list_elem_of_fmap. exists v. split; [done|].
    by eapply list_elem_of_lookup_2. }
  destruct Hv as [Hv HD]. pose proof (lookup_lt_Some _ _ _ Hi) as Hlt. rewrite Hp in Hlt.
  assert (Hin : (i < n)%nat) by (pose proof (r_length _ _ _ _ _ Hr); lia).
  assert (Hd : NoDup l'.*1) by (rewrite Hp; apply Hr).
  exists (written place c i v). split; [by apply write_ok; [apply Hr| |]|]. split; [done|].
  split; try apply Hr.
  - by apply written_planes, Hr.
  - rewrite Hp. apply Hr.
  - done.
  - intros s. rewrite Hp. apply Hr.
  - intros j w Hj. assert (Hs : gap_at g' <> Some j -> stored (written place c i v) j w).
    { intros Hgj. destruct (decide (j = i)) as [->|Hne].
      - rewrite Hi in Hj. injection Hj as <-. destruct place; [by apply written_stored; [apply Hr| |]|].
        destruct (Hh eq_refl) as [? ?]. split; [done|]. simpl.
        apply list_lookup_insert_eq. rewrite (pl_priorities _ (r_planes _ _ _ _ _ Hr)). lia.
      - assert (Hw : in_slots w.1).
        { apply (r_slots _ _ _ _ _ Hr). rewrite <- Hp. apply list_elem_of_fmap. exists w. split; [done|].
          by eapply list_elem_of_lookup_2. }
        apply written_other; [by apply Hother|done|apply Hv|apply Hw|].
        intros He. by apply Hne, (nodup_slot l' j i w v). }
    destruct g' as [|k|k]; simpl; [by apply Hs| |done]. intros Hne. apply Hs. simpl. congruence.
  - intros s Hs HnD. rewrite <- (r_states _ _ _ _ _ Hr s Hs HnD). simpl. destruct place; [|done].
    apply list_lookup_insert_ne. intros He. apply HnD. unfold in_slots in Hv.
    by replace s with v.1 by lia.
Qed.

(** Opening an entry in place for a new deadline of its slot. *)
Lemma rep_open c l i x v : rep c l Filled -> l !! i = Some x -> same_slot v x -> rep c (<[i:=v]> l) (InPlace i).
Proof.
  intros Hr Hi Hs. pose proof (lookup_lt_Some _ _ _ Hi) as Hlt. unfold same_slot in Hs.
  assert (Hf : (<[i:=v]> l).*1 = l.*1).
  { rewrite list_fmap_insert. apply list_insert_id. rewrite list_lookup_fmap, Hi. simpl. by rewrite Hs. }
  split; try apply Hr.
  + rewrite length_insert. apply Hr.
  + rewrite Hf. apply Hr.
  + rewrite Hf. apply Hr.
  + intros j w Hj. simpl. apply list_lookup_insert_Some in Hj as [(-> & -> & _)|[Hne Hj]].
    * rewrite decide_True by done. rewrite Hs.
      by destruct (r_entries _ _ _ _ _ Hr _ x Hi).
    * rewrite decide_False by done. apply (r_entries _ _ _ _ _ Hr j w Hj).
Qed.

(** The last entry takes the place of another. *)
Lemma rep_take c l i x v : rep c (l ++ [v]) Filled -> l !! i = Some x -> rep c (<[i:=v]> l) (Moved i).
Proof.
  intros Hr Hi. pose proof (lookup_lt_Some _ _ _ Hi) as Hlt.
  assert (Hp : x :: <[i:=v]> l ≡ₚ l ++ [v]).
  { rewrite (Permutation_app_comm l [v]). simpl. rewrite insert_take_drop by lia.
    rewrite <- (take_drop_middle l i x Hi) at 3. rewrite <- !Permutation_middle. apply Permutation_swap. }
  assert (Hd : NoDup (x :: <[i:=v]> l).*1) by (rewrite Hp; apply Hr).
  split; try apply Hr.
  + rewrite length_insert. pose proof (r_length _ _ _ _ _ Hr) as Hl. rewrite length_app in Hl. simpl in Hl. lia.
  + simpl in Hd. by apply NoDup_cons in Hd as [_ ?].
  + intros s Hs. apply (r_slots _ _ _ _ _ Hr). rewrite <- Hp. simpl. set_solver.
  + intros j w Hj. simpl. intros Hne. rewrite list_lookup_insert_ne in Hj by done.
    apply (r_entries _ _ _ _ _ Hr j w). by apply lookup_app_l_Some.
Qed.

Lemma storage_faithful : faithful (storage (R := R)) entry_cmp same_slot rep.
Proof.
  split.
  - intros c l g k [[] ? ? ? ? ? ? ?]. split; try done; by split.
  - done.
  - intros c l g i x [s p] Hr Hg Hi. simpl. by eapply stored_cmp, rep_stored.
  - intros c l i x [s p] Hr Hi Hs. simpl. rewrite (stored_priority c i x) by (by eapply rep_stored).
    simpl. unfold entry_cmp, same_slot in *. simpl in *. rewrite Hs, Z.compare_refl.
    by destruct (p ?= x.2).
  - intros c l g i j x y Hr Hi Hj Hx Hy. simpl.
    rewrite (stored_priority c i x), (stored_slot c i x) by (by eapply rep_stored). simpl.
    rewrite (stored_cmp c j y) by (by eapply rep_stored). by destruct x.
  - intros c l g i x Hr Hg Hi. simpl. by eapply stored_read, rep_stored.
  - intros c l i x v. apply rep_open.
  - intros c l i Hr. split; try apply Hr. intros j w Hj Hne.
    pose proof (r_entries _ _ _ _ _ Hr j w Hj) as He. simpl in He. by rewrite decide_False in He.
  - intros c l x Hr. split; try apply Hr.
    + pose proof (r_length _ _ _ _ _ Hr) as Hl. rewrite length_app in Hl. simpl in Hl. lia.
    + pose proof (r_nodup _ _ _ _ _ Hr) as Hd. rewrite fmap_app in Hd. by apply NoDup_app in Hd as [? _].
    + intros s Hs. apply (r_slots _ _ _ _ _ Hr). rewrite fmap_app. set_solver.
    + intros i v Hi. apply (r_entries _ _ _ _ _ Hr i v). by apply lookup_app_l_Some.
  - intros c l i x v. apply rep_take.
  - intros c l i j x v Hr Hij Hi Hj. simpl.
    rewrite (stored_read c i x) by (by eapply rep_stored; [done|simpl; congruence|]). cbn [bind].
    pose proof (lookup_lt_Some _ _ _ Hi). pose proof (lookup_lt_Some _ _ _ Hj).
    apply (rep_write true c l (Moved j)); try done.
    + by apply Permutation_insert_swap.
    + rewrite list_lookup_insert_ne by done. by apply list_lookup_insert_eq.
    + simpl. congruence.
    + intros k w Hk Hg Hw. simpl in Hg. rewrite !list_lookup_insert_ne in Hw by congruence.
      by eapply rep_stored; [done|simpl; congruence|].
  - intros c l i v Hr Hi. simpl.
    apply (rep_write true c l (Moved i)); try done.
    intros j w Hj _ Hw. by eapply rep_stored; [done|simpl; congruence|].
  - intros c l i v Hr Hi. simpl.
    apply (rep_write false c l (InPlace i)); try done.
    + intros _. pose proof (r_entries _ _ _ _ _ Hr i v Hi) as He. simpl in He. by rewrite decide_True in He.
    + intros j w Hj _ Hw. by eapply rep_stored; [done|simpl; congruence|].
Qed.
End faithful.
End storage.

(** ** The store implements a map of alarms *)

Section models.
Context {R : Type} `{HoleLaws} (cap : Z) (Hcap : 0 <= cap <= 2 ^ 32 - 3).
Abbreviation n := (Z.to_nat cap).
Abbreviation Core := (Core R).
Abbreviation Alarms := (gmap Slot (Alarm.State * R)).
Abbreviation rep := (rep (R := R) n).
Abbreviation in_slots := (in_slots n).

Lemma n_small : Z.of_nat n <= 2 ^ 32 - 3.
Proof. lia. Qed.
Lemma n_cap : Z.of_nat n = cap.
Proof. lia. Qed.

(** The free list from [head]: its slots in order, each linked to the next. *)
Fixpoint chain (rs : list (Resident R)) (head : Z) (F : list Slot) : Prop :=
  match F with
  | [] => head = FREE
  | s :: F => head = s /\ exists next, rs !! Z.to_nat s = Some (RNext next) /\ chain rs next F
  end.

(** The heap holds the entries [l]: the armed alarms, least first. *)
Record heap (c : Core) (m : Alarms) (l : list (Slot * Z)) : Prop := {
  h_rep : rep c l.*1 c l Filled;
  h_len : len c = Z.of_nat (length l);
  h_ordered : hole_ordered entry_cmp l;
  h_armed s p : (s, p) ∈ l <-> exists r, m !! s = Some (Alarm.Armed p, r);
}.
(** What the slots say: of the alarms not in the heap, and of those nobody has. *)
Record slots_ok (c : Core) (m : Alarms) (F : list Slot) : Prop := {
  o_idle s r : m !! s = Some (Alarm.Idle, r) -> states c !! Z.to_nat s = Some IDLE;
  o_fired s r : m !! s = Some (Alarm.Fired, r) -> states c !! Z.to_nat s = Some FIRED;
  o_leased s a r : m !! s = Some (a, r) -> in_slots s /\ residents c !! Z.to_nat s = Some (RValue r);
  o_nodup : NoDup F;
  o_free s : s ∈ F <-> in_slots s /\ m !! s = None;
  o_chain : chain (residents c) (free_head c) F;
}.
Definition models (c : Core) (m : Alarms) : Prop := exists l F, heap c m l /\ slots_ok c m F.

Lemma rep_self c0 D c l g : rep c0 D c l g -> rep c l.*1 c l g.
Proof.
  intros [H1 H2 H3 H4 H5 H6 H7 H8]. split; try done.
  intros s Hs. split; [by apply H4|done].
Qed.
Lemma rep_weaken c0 D D' c l g : rep c0 D c l g -> D ⊆ D' -> rep c0 D' c l g.
Proof.
  intros [H1 H2 H3 H4 H5 H6 H7 H8] HD. split; try done.
  - intros s Hs. destruct (H4 s Hs). auto.
  - intros s Hs HnD. apply H8; auto.
Qed.

Lemma slots_bounded (ks : list Slot) : NoDup ks -> (forall s, s ∈ ks -> in_slots s) -> (length ks <= n)%nat.
Proof.
  intros Hd Hk. transitivity (length (seqZ 0 (Z.of_nat n))); [|rewrite length_seqZ; lia].
  apply submseteq_length, NoDup_submseteq; [done|]. intros s Hs. apply elem_of_seqZ.
  apply Hk in Hs. unfold TimerFacts.in_slots in Hs. lia.
Qed.

Lemma chain_ext rs rs' F : forall head, (forall s, s ∈ F -> rs' !! Z.to_nat s = rs !! Z.to_nat s) ->
  chain rs head F -> chain rs' head F.
Proof.
  induction F as [|s F IH]; intros head Hs; simpl; [done|]. intros (-> & next & Hn & Hc).
  split; [done|]. exists next. rewrite Hs by set_solver. split; [done|]. apply IH; [set_solver|done].
Qed.

(** A leased slot is one of the store, and the casts keep it. *)
Lemma slot_of_in s : in_slots s -> slot_of s = s.
Proof. intros Hs. unfold slot_of. apply wrap_small. unfold TimerFacts.in_slots in Hs. lia. Qed.

Lemma heap_lookup c m l i s p : heap c m l -> l !! i = Some (s, p) ->
  exists r, m !! s = Some (Alarm.Armed p, r).
Proof. intros Hh Hi. apply (h_armed _ _ _ Hh). by eapply list_elem_of_lookup_2. Qed.

Lemma phase_spec c m l F (s : Slot) a r : heap c m l -> slots_ok c m F -> m !! s = Some (a, r) ->
  match a with
  | Alarm.Idle => phase c s = Ok PIdle
  | Alarm.Fired => phase c s = Ok PFired
  | Alarm.Armed p => exists i, l !! i = Some (s, p) /\ phase c s = Ok (PArmed i)
  end.
Proof.
  intros Hh Ho Hs. destruct (o_leased _ _ _ Ho _ _ _ Hs) as [Hin _].
  unfold phase. rewrite slot_of_in by done. unfold at_unchecked. destruct a as [|p|].
  - by rewrite (o_idle _ _ _ Ho _ _ Hs).
  - destruct (list_elem_of_lookup_1 l (s, p)) as [i Hi]; [by apply (h_armed _ _ _ Hh); exists r|].
    exists i. split; [done|]. pose proof (h_rep _ _ _ Hh) as Hr.
    destruct (rep_slot n c l.*1 c l Filled i _ Hr Hi) as (_ & _ & Hlt).
    destruct (r_entries _ _ _ _ _ _ Hr i _ Hi) as [[_ Hst] _]. simpl in Hst. rewrite Hst. simpl.
    unfold IDLE, FIRED, from_state. rewrite !(proj2 (Z.eqb_neq _ _)) by lia. by rewrite Nat2Z.id.
  - by rewrite (o_fired _ _ _ Ho _ _ Hs).
Qed.

(** An operation on the heap of the slot [s]: everything else stays, and the
    heap then holds [s] exactly when it says so. *)
Record touched (c : Core) (l : list (Slot * Z)) (s : Slot) (p : option Z) (c' : Core) (l' : list (Slot * Z)) : Prop := {
  t_rep : rep c (s :: l.*1) c' l' Filled;
  t_len : len c' = Z.of_nat (length l');
  t_ordered : hole_ordered entry_cmp l';
  t_other s' p' : s' <> s -> (s', p') ∈ l' <-> (s', p') ∈ l;
  t_this p' : (s, p') ∈ l' <-> p = Some p';
}.

Lemma this_slot (l : list (Slot * Z)) s p p' : NoDup l.*1 -> (s, p) ∈ l -> (s, p') ∈ l -> p = p'.
Proof.
  intros Hd [i Hi]%list_elem_of_lookup_1 [j Hj]%list_elem_of_lookup_1.
  assert (i = j) as <- by (by eapply (nodup_slot l i j)). congruence.
Qed.

Lemma remove_touched c m l i s p : heap c m l -> l !! i = Some (s, p) ->
  exists c' l', hole_remove storage c i = Ok ((s, p), c') /\ touched c l s None c' l'.
Proof.
  intros [Hr Hl Ho Ha] Hi.
  destruct (hole_removes _ _ storage entry_cmp same_slot (rep c l.*1) c l i (s, p) entry_ordering
    (storage_faithful n n_small c l.*1) Hr Hl Ho Hi) as (c' & l' & He & Hr' & Hl' & Ho' & Hp).
  exists c', l'. split; [done|].
  assert (Hd : NoDup ((s, p) :: l').*1) by (rewrite Hp; apply Hr). simpl in Hd. apply NoDup_cons in Hd as [Hn Hd].
  assert (Hns : forall p', (s, p') ∉ l').
  { intros p' Hin. apply Hn. apply list_elem_of_fmap. by exists (s, p'). }
  split; [|done|done| |].
  - eapply rep_weaken; [done|set_solver].
  - intros s' p' Hne. rewrite <- Hp. set_solver.
  - intros p'. split; [intros Hin; by apply Hns in Hin|done].
Qed.

Lemma remove_at_touched c m l i s p : heap c m l -> l !! i = Some (s, p) ->
  exists c' l', remove_at c i = Ok c' /\ touched c l s None c' l'.
Proof.
  intros Hh Hi. unfold remove_at. destruct (remove_touched c m l i s p Hh Hi) as (c' & l' & -> & Ht).
  by exists c', l'.
Qed.

Lemma touched_entry c l s p c' l' : rep c (s :: l.*1) c' l' Filled -> len c' = Z.of_nat (length l') ->
  hole_ordered entry_cmp l' -> (forall s' p', (s', p') ∈ l' <-> ((s', p') ∈ l /\ s' <> s) \/ (s', p') = (s, p)) ->
  touched c l s (Some p) c' l'.
Proof.
  intros ? ? ? Hl'. split; [done|done|done| |].
  - intros s' p' Hne. rewrite Hl'. naive_solver.
  - intros p'. rewrite Hl'. naive_solver.
Qed.

(** A slot that is not in the heap enters it. *)
Lemma store_touched c m l s p : heap c m l -> in_slots s -> (forall p', (s, p') ∉ l) ->
  exists c' l', hole_store storage c (s, p) = Ok c' /\ touched c l s (Some p) c' l'.
Proof.
  intros [Hr Hl Hord Ha] Hin.
  intros Hns.
  assert (Hnot : s ∉ l.*1) by (intros [[? p'] [-> Hx]]%list_elem_of_fmap; by apply (Hns p')).
  assert (Hd : NoDup (s :: l.*1)) by (apply NoDup_cons; split; [done|apply Hr]).
  assert (Hbound : (length (s :: l.*1) <= n)%nat).
  { apply slots_bounded; [done|]. intros k [->|Hk]%elem_of_cons; [done|]. by apply Hr. }
  simpl in Hbound. rewrite length_fmap in Hbound.
  assert (Hrs : rep c (s :: l.*1) c l Filled) by (eapply rep_weaken; [done|set_solver]).
  destruct (hole_stores _ _ storage entry_cmp same_slot (rep c (s :: l.*1)) c l (s, p) entry_ordering
    (storage_faithful n n_small c (s :: l.*1)) Hrs Hl Hord) as (c' & l' & He & Hr' & Hl' & Ho' & Hp).
  { split; try apply Hrs.
    - rewrite length_app. simpl. lia.
    - rewrite fmap_app. simpl. by rewrite (Permutation_app_comm l.*1).
    - intros k. rewrite fmap_app. simpl. intros [Hk|Hk]%elem_of_app; [by apply Hrs|].
      assert (k = s) as -> by set_solver. split; [done|set_solver].
    - intros j v Hj. simpl. intros Hne. apply (r_entries _ _ _ _ _ _ Hrs j v).
      apply lookup_app_Some in Hj as [?|[? Hx]]; [done|].
      apply list_lookup_singleton_Some in Hx as [? _]. lia. }
  exists c', l'. split; [done|]. apply touched_entry; try done. intros s' p'. rewrite Hp, elem_of_app, list_elem_of_singleton.
  split; [|naive_solver]. intros [Hx|Hx]; [left|by right]. split; [done|]. intros ->. by apply (Hns p').
Qed.

Lemma set_touched c m l F (s : Slot) a r p : heap c m l -> slots_ok c m F -> m !! s = Some (a, r) ->
  exists c' l', set c s p = Ok c' /\ touched c l s (Some p) c' l'.
Proof.
  intros Hh Ho Hs. pose proof (phase_spec c m l F s a r Hh Ho Hs) as Hph.
  destruct (o_leased _ _ _ Ho _ _ _ Hs) as [Hin _]. pose proof Hh as [Hr Hl Hord Ha].
  unfold set, set_at, insert. rewrite slot_of_in by done.
  assert (Hnotarmed : (forall q, a <> Alarm.Armed q) -> forall p', (s, p') ∉ l).
  { intros Hna p' Hx. apply Ha in Hx as [r' Hx]. rewrite Hs in Hx. injection Hx as -> _. by apply (Hna p'). }
  destruct a as [|q|].
  - rewrite Hph. cbn [bind]. eapply store_touched; eauto.
  - destruct Hph as (i & Hi & ->). cbn [bind].
    assert (Hrs : rep c (s :: l.*1) c l Filled) by (eapply rep_weaken; [done|set_solver]).
    destruct (hole_updates _ _ storage entry_cmp same_slot (rep c (s :: l.*1)) c l i (s, q) (s, p) entry_ordering
      (storage_faithful n n_small c (s :: l.*1)) Hrs Hl Hord Hi eq_refl) as (c' & l' & He & Hr' & Hl' & Ho' & Hp).
    exists c', l'. split; [done|]. apply touched_entry; try done. intros s' p'. rewrite Hp. split.
    + intros [j Hj]%list_elem_of_lookup_1. apply list_lookup_insert_Some in Hj as [(-> & Hx & _)|[Hne Hj]]; [by right|].
      left. split; [by eapply list_elem_of_lookup_2|]. intros ->. apply Hne. by eapply (nodup_slot l); [apply Hr| | |].
    + intros [[Hx Hne]|Hx].
      * apply list_elem_of_lookup_1 in Hx as [j Hj]. apply (list_elem_of_lookup_2 _ j).
        rewrite list_lookup_insert_ne; [done|]. intros ->. pose proof (eq_trans (eq_sym Hi) Hj). naive_solver.
      * rewrite Hx. apply (list_elem_of_lookup_2 _ i), list_lookup_insert_eq. by eapply lookup_lt_Some.
  - rewrite Hph. cbn [bind]. eapply store_touched; eauto.
Qed.

Lemma disarm_touched c m l F (s : Slot) a r : heap c m l -> slots_ok c m F -> m !! s = Some (a, r) ->
  exists c' l', disarm c s = Ok c' /\ touched c l s None c' l'.
Proof.
  intros Hh Ho Hs. pose proof (phase_spec c m l F s a r Hh Ho Hs) as Hph. unfold disarm.
  assert (Hstay : (forall q, a <> Alarm.Armed q) -> touched c l s None c l).
  { intros Hna. destruct Hh as [Hr Hl Hord Ha]. split; try done.
    - eapply rep_weaken; [done|set_solver].
    - intros p'. split; [|done]. intros Hx. apply Ha in Hx as [r' Hx]. rewrite Hs in Hx. injection Hx as -> _.
      by destruct (Hna p'). }
  destruct a as [|p|].
  - rewrite Hph. exists c, l. split; [done|]. by apply Hstay.
  - destruct Hph as (i & Hi & ->). cbn [bind]. by eapply remove_at_touched.
  - rewrite Hph. exists c, l. split; [done|]. by apply Hstay.
Qed.
(** ** Operations of the heap *)

Lemma unlisted c m l s a r : heap c m l -> m !! (s : Slot) = Some (a, r) -> (forall p, a <> Alarm.Armed p) -> s ∉ l.*1.
Proof.
  intros Hh Hs Ha [[s' p] [-> Hx]]%list_elem_of_fmap. apply (h_armed _ _ _ Hh) in Hx as [r' Hx].
  pose proof (eq_trans (eq_sym Hs) Hx) as He. injection He as -> _. by apply (Ha p).
Qed.
Lemma unlisted_none c m l s : heap c m l -> m !! (s : Slot) = None -> s ∉ l.*1.
Proof.
  intros Hh Hs [[s' p] [-> Hx]]%list_elem_of_fmap. apply (h_armed _ _ _ Hh) in Hx as [r' Hx].
  by pose proof (eq_trans (eq_sym Hs) Hx).
Qed.

Lemma write_state_rep c0 D c l s st : rep c0 D c l Filled -> s ∈ D -> in_slots s -> s ∉ l.*1 ->
  exists c', write_state c s st = Ok c' /\ rep c0 D c' l Filled
    /\ c' = with_states c (<[Z.to_nat s:=st]> (states c)).
Proof.
  intros Hr HD Hs Hn. unfold write_state. unfold TimerFacts.in_slots in Hs.
  rewrite set_unchecked_ok by (rewrite (pl_states _ _ (r_planes _ _ _ _ _ _ Hr)); lia). cbn [bind].
  eexists. split; [done|]. split; [|done]. split; try apply Hr.
  - destruct (r_planes _ _ _ _ _ _ Hr). split; simpl; by rewrite ?length_insert.
  - intros i v Hi. destruct (r_entries _ _ _ _ _ _ Hr i v Hi) as [[H1' H2'] H3'].
    assert (Hv : v.1 ∈ l.*1) by (apply list_elem_of_fmap; exists v; split; [done|by eapply list_elem_of_lookup_2]).
    destruct (r_slots _ _ _ _ _ _ Hr _ Hv) as [Hin _]. unfold TimerFacts.in_slots in Hin.
    split; [split|]; simpl; try done. rewrite list_lookup_insert_ne; [done|]. intros He. apply Hn.
    by replace s with v.1 by lia.
  - intros k Hk HnD. rewrite <- (r_states _ _ _ _ _ _ Hr k Hk HnD). simpl.
    apply list_lookup_insert_ne. intros He. apply HnD. by replace k with s by lia.
Qed.

(** The map after the operation on [s]. *)
Lemma commit c m l F s a0 r p a c1 l1 c2 : heap c m l -> slots_ok c m F -> m !! (s : Slot) = Some (a0, r) ->
  touched c l s p c1 l1 -> rep c (s :: l.*1) c2 l1 Filled -> len c2 = len c1 ->
  (forall p', p = Some p' <-> a = Alarm.Armed p') ->
  (a = Alarm.Idle -> states c2 !! Z.to_nat s = Some IDLE) ->
  (a = Alarm.Fired -> states c2 !! Z.to_nat s = Some FIRED) ->
  models c2 (<[s:=(a, r)]> m).
Proof.
  intros Hh Ho Hs [_ Hl1 Ho1 Hot Hth] Hr2 Hlen Hap Hi Hf. exists l1, F.
  assert (Hst : forall k ak rk, k <> s -> m !! (k : Slot) = Some (ak, rk) -> (forall p, ak <> Alarm.Armed p) ->
    states c2 !! Z.to_nat k = states c !! Z.to_nat k).
  { intros k ak rk Hne Hk Hak. apply (r_states _ _ _ _ _ _ Hr2).
    - apply (o_leased _ _ _ Ho) in Hk as [[? _] _]. done.
    - intros [->|Hx]%elem_of_cons; [done|]. by eapply unlisted. }
  split.
  - split; [by eapply rep_self|congruence|done|]. intros s' p'. destruct (decide (s' = s)) as [->|Hne].
    + rewrite Hth, Hap, lookup_insert_eq. split; [intros ->; by exists r|]. intros [r' [= -> _]]. done.
    + rewrite Hot, (h_armed _ _ _ Hh), lookup_insert_ne by done. done.
  - split.
    + intros k rk. destruct (decide (k = s)) as [->|Hne].
      * rewrite lookup_insert_eq. intros [= -> _]. auto.
      * rewrite lookup_insert_ne by done. intros Hk. rewrite (Hst k _ _ Hne Hk) by done. by eapply (o_idle _ _ _ Ho).
    + intros k rk. destruct (decide (k = s)) as [->|Hne].
      * rewrite lookup_insert_eq. intros [= -> _]. auto.
      * rewrite lookup_insert_ne by done. intros Hk. rewrite (Hst k _ _ Hne Hk) by done. by eapply (o_fired _ _ _ Ho).
    + rewrite (r_residents _ _ _ _ _ _ Hr2). intros k ak rk. destruct (decide (k = s)) as [->|Hne].
      * rewrite lookup_insert_eq. intros [= _ <-]. by eapply (o_leased _ _ _ Ho).
      * rewrite lookup_insert_ne by done. apply (o_leased _ _ _ Ho).
    + apply Ho.
    + intros k. rewrite (o_free _ _ _ Ho). destruct (decide (k = s)) as [->|Hne].
      * rewrite lookup_insert_eq, Hs. split; [intros [_ ?]|intros [_ ?]]; done.
      * by rewrite lookup_insert_ne.
    + rewrite (r_residents _ _ _ _ _ _ Hr2), (r_free _ _ _ _ _ _ Hr2). apply Ho.
Qed.

Lemma set_models c m s a r p : models c m -> m !! (s : Slot) = Some (a, r) ->
  exists c', set c s p = Ok c' /\ models c' (<[s:=(Alarm.Armed p, r)]> m).
Proof.
  intros (l & F & Hh & Ho) Hs. destruct (set_touched c m l F s a r p Hh Ho Hs) as (c' & l' & -> & Ht).
  exists c'. split; [done|]. eapply (commit c m l F s a r (Some p) (Alarm.Armed p) c' l' c'); try done; [apply Ht|].
  naive_solver.
Qed.

(** The state word of a slot that has left the heap. *)
Lemma commit_state c m l F s a0 r a st c1 l1 : heap c m l -> slots_ok c m F -> m !! (s : Slot) = Some (a0, r) ->
  touched c l s None c1 l1 -> a = Alarm.Idle /\ st = IDLE \/ a = Alarm.Fired /\ st = FIRED ->
  exists c', write_state c1 s st = Ok c' /\ models c' (<[s:=(a, r)]> m).
Proof.
  intros Hh Ho Hs Ht Ha. destruct (o_leased _ _ _ Ho _ _ _ Hs) as [Hin _].
  assert (Hn : s ∉ l1.*1).
  { intros [[s' p] [-> Hx]]%list_elem_of_fmap. by apply (t_this _ _ _ _ _ _ Ht) in Hx. }
  destruct (write_state_rep c (s :: l.*1) c1 l1 s st (t_rep _ _ _ _ _ _ Ht)) as (c' & -> & Hr & Hc');
    [set_solver|done|done|]. exists c'. split; [done|].
  assert (Hst : states c' !! Z.to_nat s = Some st).
  { rewrite Hc'. simpl. apply list_lookup_insert_eq.
    rewrite (pl_states _ _ (r_planes _ _ _ _ _ _ (t_rep _ _ _ _ _ _ Ht))). unfold TimerFacts.in_slots in Hin. lia. }
  eapply (commit c m l F s a0 r None a c1 l1 c'); try done; [by subst c'| | |]; naive_solver.
Qed.

Lemma clear_models c m s a r : models c m -> m !! (s : Slot) = Some (a, r) ->
  exists c', clear c s = Ok c' /\ models c' (<[s:=(Alarm.Idle, r)]> m).
Proof.
  intros (l & F & Hh & Ho) Hs. unfold clear.
  destruct (disarm_touched c m l F s a r Hh Ho Hs) as (c1 & l1 & -> & Ht). cbn [bind].
  rewrite slot_of_in by apply (o_leased _ _ _ Ho _ _ _ Hs). eapply commit_state; eauto.
Qed.

(** Writing the resident of a leased slot. *)
Lemma set_resident_models c m s a r v : models c m -> m !! (s : Slot) = Some (a, r) ->
  exists c', set_resident c s v = Ok c' /\ models c' (<[s:=(a, v)]> m).
Proof.
  intros (l & F & Hh & Ho) Hs. destruct (o_leased _ _ _ Ho _ _ _ Hs) as [Hin Hres].
  unfold set_resident, resident. rewrite slot_of_in by done. unfold at_unchecked. rewrite Hres. cbn [bind].
  eexists. split; [done|]. exists l, F. split.
  - destruct Hh as [Hr Hl Hord Ha]. split; [|done|done|].
    + destruct Hr as [[P1 P2 P3 P4] H2' H3' H4' H5' H6' H7' H8']. split; try done.
      split; simpl; by rewrite ?length_insert.
    + intros s' p'. rewrite Ha. destruct (decide (s' = s)) as [->|Hne].
      * rewrite lookup_insert_eq, Hs. naive_solver.
      * by rewrite lookup_insert_ne.
  - split; simpl.
    + intros k rk. destruct (decide (k = s)) as [->|Hne].
      * rewrite lookup_insert_eq. intros [= -> _]. by eapply (o_idle _ _ _ Ho).
      * rewrite lookup_insert_ne by done. apply (o_idle _ _ _ Ho).
    + intros k rk. destruct (decide (k = s)) as [->|Hne].
      * rewrite lookup_insert_eq. intros [= -> _]. by eapply (o_fired _ _ _ Ho).
      * rewrite lookup_insert_ne by done. apply (o_fired _ _ _ Ho).
    + intros k ak rk. destruct (decide (k = s)) as [->|Hne].
      * rewrite lookup_insert_eq. intros [= _ <-]. split; [done|]. apply list_lookup_insert_eq.
        by eapply lookup_lt_Some.
      * rewrite lookup_insert_ne by done. intros Hk. destruct (o_leased _ _ _ Ho _ _ _ Hk) as [Hkin Hk'].
        split; [done|]. rewrite list_lookup_insert_ne; [done|]. unfold TimerFacts.in_slots in *. lia.
    + apply Ho.
    + intros k. rewrite (o_free _ _ _ Ho). destruct (decide (k = s)) as [->|Hne].
      * rewrite lookup_insert_eq, Hs. split; [intros [_ ?]|intros [_ ?]]; done.
      * by rewrite lookup_insert_ne.
    + eapply chain_ext; [|apply Ho]. intros k Hk. apply list_lookup_insert_ne. intros He.
      apply (o_free _ _ _ Ho) in Hk as [Hkin Hk]. assert (k = s) as -> by (unfold TimerFacts.in_slots in *; lia).
      by pose proof (eq_trans (eq_sym Hs) Hk).
Qed.

Lemma resident_models c m s a r : models c m -> m !! (s : Slot) = Some (a, r) -> resident c s = Ok r.
Proof.
  intros (l & F & Hh & Ho) Hs. destruct (o_leased _ _ _ Ho _ _ _ Hs) as [Hin Hres].
  unfold resident. rewrite slot_of_in by done. unfold at_unchecked. by rewrite Hres.
Qed.

Definition state_of (a : Alarm.State) : State :=
  match a with Alarm.Idle => Idle | Alarm.Armed _ => Armed | Alarm.Fired => Fired end.
Definition due_of (a : Alarm.State) : option Z :=
  match a with Alarm.Armed p => Some p | _ => None end.

Lemma state_models c m s a r : models c m -> m !! (s : Slot) = Some (a, r) ->
  state c s = Ok (state_of a) /\ priority c s = Ok (due_of a).
Proof.
  intros (l & F & Hh & Ho) Hs. pose proof (phase_spec c m l F s a r Hh Ho Hs) as Hph.
  unfold state, priority. destruct a as [|p|]; [by rewrite Hph| |by rewrite Hph].
  destruct Hph as (i & Hi & ->). cbn [bind]. split; [done|].
  rewrite (stored_priority c i (s, p)); [done|]. apply (r_entries _ _ _ _ _ _ (h_rep _ _ _ Hh) i _ Hi).
Qed.

(** The first entry is a least armed alarm. *)
Definition least_armed (m : Alarms) (s : Slot) (p : Z) : Prop :=
  (exists r, m !! s = Some (Alarm.Armed p, r))
  /\ forall s' p' r', m !! s' = Some (Alarm.Armed p', r') -> p < p' \/ p = p' /\ s <= s'.

Lemma root_models c m : models c m ->
  match root c with
  | None => forall s p r, m !! (s : Slot) <> Some (Alarm.Armed p, r)
  | Some rt => exists s p, min_priority c rt = Ok p /\ least_armed m s p
      /\ exists c' r, m !! s = Some (Alarm.Armed p, r) /\ fire c rt = Ok (s, c')
           /\ models c' (<[s:=(Alarm.Fired, r)]> m)
  end.
Proof.
  intros (l & F & Hh & Ho). unfold root. rewrite (h_len _ _ _ Hh). destruct l as [|[s p] l].
  { intros s p r Hs. assert (Hx : (s, p) ∈ []) by (apply (h_armed _ _ _ Hh); by exists r). set_solver. }
  simpl. exists s, p.
  pose proof (r_entries _ _ _ _ _ _ (h_rep _ _ _ Hh) 0%nat (s, p) eq_refl) as Hst.
  assert (Hsp : exists r, m !! s = Some (Alarm.Armed p, r)) by (apply (h_armed _ _ _ Hh); set_solver).
  split; [apply (stored_priority c 0%nat (s, p) Hst)|]. split.
  - split; [done|]. intros s' p' r' Hs'.
    assert (Hx : (s', p') ∈ (s, p) :: l) by (apply (h_armed _ _ _ Hh); by exists r').
    pose proof (hole_ordered_first _ _ _ _ _ entry_ordering (h_ordered _ _ _ Hh) Hx) as Hc.
    unfold entry_cmp in Hc. simpl in Hc. destruct (Z.compare_spec p p'); [|lia|done].
    destruct (Z.compare_spec s s'); try done; lia.
  - destruct Hsp as [r Hs]. destruct (remove_at_touched c m _ 0%nat s p Hh eq_refl) as (c1 & l1 & He & Ht).
    destruct (commit_state c m _ F s (Alarm.Armed p) r Alarm.Fired FIRED c1 l1 Hh Ho Hs Ht) as (c' & Hw & Hm); [by right|].
    exists c', r. split; [done|]. split; [|done]. unfold fire, min_slot.
    rewrite (stored_slot c 0%nat (s, p) Hst). cbn [bind]. rewrite He. cbn [bind]. simpl fst. rewrite Hw. done.
Qed.
(** ** Leasing and releasing slots *)

Lemma heap_ext c c' m m' l : heap c m l -> rep c (l.*1) c' l Filled -> len c' = len c ->
  (forall s p r, m' !! (s : Slot) = Some (Alarm.Armed p, r) <-> m !! s = Some (Alarm.Armed p, r)) -> heap c' m' l.
Proof.
  intros [Hr Hl Ho Ha] Hr' Hlen Hm. split; [by eapply rep_self|congruence|done|].
  intros s p. rewrite Ha. by setoid_rewrite Hm.
Qed.

(** Rewriting a resident and the head of the free list leaves the heap alone. *)
Lemma rep_residents c0 D c l g rs f : rep c0 D c l g -> length rs = n ->
  rep (with_free (with_residents c rs) f) D (with_free (with_residents c rs) f) l g.
Proof.
  intros [[P1 P2 P3 P4] H2' H3' H4' H5' H6' H7' H8'] Hrs. split; try done.
Qed.

Lemma lease_models c m item : models c m ->
  match free c with
  | None => forall s, in_slots s -> m !! (s : Slot) <> None
  | Some f => exists s c', in_slots s /\ m !! s = None /\ lease c item f = Ok (s, c')
      /\ models c' (<[s:=(Alarm.Idle, item)]> m)
  end.
Proof.
  intros (l & F & Hh & Ho). pose proof (o_chain _ _ _ Ho) as Hc. unfold free. destruct F as [|s F].
  { simpl in Hc. rewrite Hc, Z.eqb_refl. intros s Hs Hm.
    assert (s ∈ []) by (apply (o_free _ _ _ Ho); done). set_solver. }
  simpl in Hc. destruct Hc as (Hhead & next & Hn & Hc).
  assert (Hs : in_slots s /\ m !! s = None) by (apply (o_free _ _ _ Ho); set_solver). destruct Hs as [Hin Hs].
  rewrite Hhead, (proj2 (Z.eqb_neq s FREE)) by (unfold TimerFacts.in_slots, FREE in *; lia).
  pose proof (o_nodup _ _ _ Ho) as Hnd. apply NoDup_cons in Hnd as [HsF HF].
  pose proof (unlisted_none c m l s Hh Hs) as Hnl.
  set (rs := <[Z.to_nat s:=RValue item]> (residents c)).
  assert (Hrs : length rs = n) by (unfold rs; rewrite length_insert; apply (r_planes _ _ _ _ _ _ (h_rep _ _ _ Hh))).
  pose proof (rep_residents c l.*1 c l Filled rs next (h_rep _ _ _ Hh) Hrs) as Hr1.
  set (c1 := with_free (with_residents c rs) next) in *.
  destruct (write_state_rep c1 (s :: l.*1) c1 l s IDLE) as (c' & Hw & Hr & Hc');
    [eapply rep_weaken; [done|set_solver]|set_solver|done|done|].
  exists s, c'. split; [done|]. split; [done|]. split.
  { unfold lease. rewrite Hhead. unfold at_unchecked. rewrite Hn. cbn [bind]. fold rs c1. by rewrite Hw. }
  exists l, F. split.
  - destruct Hh as [_ Hl Hord Ha]. split; [by eapply rep_self|by rewrite Hc'|done|].
    intros s' p. rewrite Ha. destruct (decide (s' = s)) as [->|Hne]; [|by rewrite lookup_insert_ne].
    rewrite lookup_insert_eq, Hs. naive_solver.
  - assert (Hst : states c' = <[Z.to_nat s:=IDLE]> (states c)) by (by rewrite Hc').
    assert (Hother : forall k a r, k <> s -> m !! (k : Slot) = Some (a, r) -> states c' !! Z.to_nat k = states c !! Z.to_nat k
      /\ residents c' !! Z.to_nat k = residents c !! Z.to_nat k).
    { intros k a r Hne Hk. destruct (o_leased _ _ _ Ho _ _ _ Hk) as [Hkin _]. rewrite Hst, Hc'. simpl. unfold rs.
      unfold TimerFacts.in_slots in *. rewrite !list_lookup_insert_ne by lia. done. }
    split.
    + intros k r. destruct (decide (k = s)) as [->|Hne].
      * intros _. rewrite Hst. apply list_lookup_insert_eq.
        rewrite (pl_states _ _ (r_planes _ _ _ _ _ _ (h_rep _ _ _ Hh))). unfold TimerFacts.in_slots in Hin. lia.
      * rewrite lookup_insert_ne by done. intros Hk. destruct (Hother k _ _ Hne Hk) as [-> _]. by eapply (o_idle _ _ _ Ho).
    + intros k r. destruct (decide (k = s)) as [->|Hne]; [by rewrite lookup_insert_eq|].
      rewrite lookup_insert_ne by done. intros Hk. destruct (Hother k _ _ Hne Hk) as [-> _]. by eapply (o_fired _ _ _ Ho).
    + intros k a r. destruct (decide (k = s)) as [->|Hne].
      * rewrite lookup_insert_eq. intros [= _ <-]. split; [done|]. rewrite Hc'. simpl. unfold rs.
        apply list_lookup_insert_eq. by eapply lookup_lt_Some.
      * rewrite lookup_insert_ne by done. intros Hk. destruct (Hother k _ _ Hne Hk) as [_ ->]. by eapply (o_leased _ _ _ Ho).
    + done.
    + intros k. destruct (decide (k = s)) as [->|Hne].
      * rewrite lookup_insert_eq. split; [done|intros [_ ?]; done].
      * rewrite lookup_insert_ne, <- (o_free _ _ _ Ho) by done. set_solver.
    + rewrite Hc'. simpl. eapply chain_ext; [|exact Hc]. intros k Hk. unfold rs. apply list_lookup_insert_ne.
      assert (Hkin : in_slots k /\ m !! k = None) by (apply (o_free _ _ _ Ho); set_solver).
      intros He. assert (k = s) as -> by (unfold TimerFacts.in_slots in *; lia). done.
Qed.

Lemma release_models c m s a r : models c m -> m !! (s : Slot) = Some (a, r) ->
  exists c', release c s = Ok (r, c') /\ models c' (delete s m).
Proof.
  intros (l & F & Hh & Ho) Hs. destruct (o_leased _ _ _ Ho _ _ _ Hs) as [Hin Hres].
  destruct (disarm_touched c m l F s a r Hh Ho Hs) as (c1 & l1 & Hd & [Hr1 Hl1 Ho1 Hot Hth]).
  set (rs := <[Z.to_nat s:=RNext (free_head c1)]> (residents c1)).
  assert (Hrs : length rs = n) by (unfold rs; rewrite length_insert; apply (r_planes _ _ _ _ _ _ Hr1)).
  pose proof (rep_residents _ _ _ _ _ rs s Hr1 Hrs) as Hr2. set (c2 := with_free (with_residents c1 rs) s) in *.
  assert (Hnl : s ∉ l1.*1).
  { intros [[s' p] [-> Hx]]%list_elem_of_fmap. by apply Hth in Hx. }
  destruct (write_state_rep c2 (s :: l.*1) c2 l1 s FREE Hr2) as (c' & Hw & Hr & Hc'); [set_solver|done|done|].
  exists c'. split.
  { unfold release. rewrite Hd. cbn [bind]. rewrite slot_of_in by done. unfold at_unchecked.
    rewrite (r_residents _ _ _ _ _ _ Hr1), Hres. cbn [bind]. rewrite <- (r_residents _ _ _ _ _ _ Hr1).
    fold rs c2. by rewrite Hw. }
  assert (Hst : forall k ak rk, k <> s -> m !! (k : Slot) = Some (ak, rk) -> (forall p, ak <> Alarm.Armed p) ->
    states c' !! Z.to_nat k = states c !! Z.to_nat k).
  { intros k ak rk Hne Hk Hak. destruct (o_leased _ _ _ Ho _ _ _ Hk) as [Hkin _]. rewrite Hc'. simpl.
    rewrite list_lookup_insert_ne by (unfold TimerFacts.in_slots in *; lia). apply (r_states _ _ _ _ _ _ Hr1); [apply Hkin|].
    intros [->|Hx]%elem_of_cons; [done|]. by eapply unlisted. }
  assert (HsF : s ∉ F) by (rewrite (o_free _ _ _ Ho), Hs; naive_solver).
  exists l1, (s :: F). split.
  - split; [by eapply rep_self|by rewrite Hc'|done|]. intros s' p. destruct (decide (s' = s)) as [->|Hne].
    + rewrite Hth, lookup_delete_eq. naive_solver.
    + by rewrite Hot, (h_armed _ _ _ Hh), lookup_delete_ne.
  - split.
    + intros k rk [Hne Hk]%lookup_delete_Some. rewrite (Hst k _ _ (not_eq_sym Hne) Hk) by done. by eapply (o_idle _ _ _ Ho).
    + intros k rk [Hne Hk]%lookup_delete_Some. rewrite (Hst k _ _ (not_eq_sym Hne) Hk) by done. by eapply (o_fired _ _ _ Ho).
    + intros k ak rk [Hne Hk]%lookup_delete_Some. destruct (o_leased _ _ _ Ho _ _ _ Hk) as [Hkin Hkr].
      split; [done|]. rewrite Hc'. simpl. unfold rs.
      rewrite list_lookup_insert_ne by (unfold TimerFacts.in_slots in *; lia). by rewrite (r_residents _ _ _ _ _ _ Hr1).
    + apply NoDup_cons. split; [done|apply Ho].
    + intros k. rewrite elem_of_cons, (o_free _ _ _ Ho). destruct (decide (k = s)) as [->|Hne].
      * rewrite lookup_delete_eq. naive_solver.
      * rewrite lookup_delete_ne by done. naive_solver.
    + rewrite Hc'. simpl. split; [done|]. exists (free_head c1). split.
      { unfold rs. apply list_lookup_insert_eq. rewrite (pl_residents _ _ (r_planes _ _ _ _ _ _ Hr1)).
        unfold TimerFacts.in_slots in Hin. lia. }
      rewrite (r_free _ _ _ _ _ _ Hr1). eapply chain_ext; [|apply Ho]. intros k Hk. unfold rs.
      rewrite list_lookup_insert_ne; [by rewrite (r_residents _ _ _ _ _ _ Hr1)|].
      intros He. apply (o_free _ _ _ Ho) in Hk as Hk'. destruct Hk' as [Hkin _].
      assert (k = s) as -> by (unfold TimerFacts.in_slots in *; lia). done.
Qed.

(** ** A new store *)

Lemma chain_new count k : forall i, 0 <= i -> i + Z.of_nat k = count -> count <= 2 ^ 32 - 3 ->
  forall rs, (forall j, i <= j < count -> rs !! Z.to_nat j
    = Some (RNext (R := R) (if j + 1 =? count then FREE else wrap 32 (j + 1)))) ->
  chain rs (if i =? count then FREE else i) (seqZ i (Z.of_nat k)).
Proof.
  induction k as [|k IH]; intros i Hi Hk Hc rs Hrs.
  { simpl. rewrite (proj2 (Z.eqb_eq _ _)) by lia. done. }
  rewrite (proj2 (Z.eqb_neq i count)) by lia. rewrite (seqZ_cons i) by lia. simpl. split; [done|].
  eexists. split; [apply Hrs; lia|]. replace (Z.succ i) with (i + 1) by lia. replace (Z.pred _) with (Z.of_nat k) by lia.
  specialize (IH (i + 1) ltac:(lia) ltac:(lia) Hc rs ltac:(intros; apply Hrs; lia)).
  destruct (i + 1 =? count) eqn:E; [exact IH|]. apply Z.eqb_neq in E. rewrite wrap_small by lia. exact IH.
Qed.

Lemma try_new_models `{Rows} `{AllocationLaws} c : try_new cap = Ok c -> models c ∅.
Proof.
  unfold try_new, capacity_new. destruct (_ || _); cbn [bind]; [done|]. rewrite wrap_small by lia.
  rewrite map_err_Ok. set (c1 := core _ _ _ _ _ _). intros Ha.
  assert (c = c1) as ->.
  { destruct (allocate_exact _ c1) as [He|[e He]]; rewrite He in Ha; congruence. }
  exists [], (seqZ 0 cap). split.
  - split; [|done|apply hole_ordered_nil|].
    + split; try done.
      * split; simpl; rewrite ?length_replicate, ?length_map, ?length_seqZ; done.
      * simpl. lia.
      * apply NoDup_nil_2.
      * set_solver.
    + intros s p. rewrite lookup_empty. set_solver.
  - split; try (intros *; rewrite lookup_empty; done).
    + apply NoDup_seqZ.
    + intros s. rewrite elem_of_seqZ, lookup_empty. unfold TimerFacts.in_slots. split; [intros; split; [lia|done]|lia].
    + replace (seqZ 0 cap) with (seqZ 0 (Z.of_nat n)) by (f_equal; lia).
      replace (free_head c1) with (if 0 =? cap then FREE else 0) by (rewrite (Z.eqb_sym 0 cap); done).
      apply (chain_new cap); [lia..|]. intros j Hj. simpl. rewrite list_lookup_fmap, lookup_seqZ_lt by lia.
      simpl. rewrite Z.add_0_l, Z2Nat.id by lia. done.
Qed.
End models.

(** ** The timer commands *)

Section timers.
Context {W : Type} `{HoleLaws} (cap : Z) (Hcap : 0 <= cap <= 2 ^ 32 - 3).
Abbreviation Core := (Core (Timer.Cell (W := W))).
Abbreviation Alarms := (gmap Slot (Alarm.State * Timer.Cell (W := W))).
Abbreviation models := (models (R := Timer.Cell (W := W)) cap).

(** What the holders of alarms and the driver ask for, and the answers. *)
Inductive Op :=
  | TryAlarm
  | Drop (l : Lease)
  | Arm (l : Lease) (due : Z) (target : W)
  | ArmAndPoll (l : Lease) (due now : Z) (target : W)
  | Poll (l : Lease) (now : Z) (target : W)
  | Clear (l : Lease)
  | HasAlarm (l : Lease)
  | Earliest
  | Expire (now : Z) (work : nat).
Inductive Answer :=
  | ADone | ALease (l : Lease) | AFull | ABool (b : bool) | AWhen (at_ : option Z) | AWoken (targets : list W).

Definition perform (c : Core) (op : Op) : run Empty_set (Answer * Core) :=
  match op with
  | TryAlarm => cases (Timer.try_alarm c) (fun '(l, c) => Ok (ALease l, c)) (fun _ => Ok (AFull, c))
  | Drop l => let! c := Timer.return_item c l in Ok (ADone, c)
  | Arm l due w => let! c := Timer.arm c l due w in Ok (ADone, c)
  | ArmAndPoll l due now w => let! (b, c) := Timer.arm_and_poll c l due now w in Ok (ABool b, c)
  | Poll l now w => let! (b, c) := Timer.poll c l now w in Ok (ABool b, c)
  | Clear l => let! c := Timer.clear_ c l in Ok (ADone, c)
  | HasAlarm l => let! b := Timer.has_alarm c l in Ok (ABool b, c)
  | Earliest => let! o := Timer.earliest c in Ok (AWhen o, c)
  | Expire now work => let! (ws, c) := Timer.expire c now work in Ok (AWoken ws, c)
  end.

(** Firing at [now], with [work] permits, the least due alarm each time. *)
Inductive expires (now : Z) : nat -> Alarms -> list Slot -> Alarms -> Prop :=
  | expires_end work m : work = 0%nat \/ (forall s p r, m !! s = Some (Alarm.Armed p, r) -> now < p) ->
      expires now work m [] m
  | expires_fire work m s p r ks m' : least_armed m s p -> p <= now -> m !! s = Some (Alarm.Armed p, r) ->
      expires now work (<[s:=(Alarm.Fired, None)]> m) ks m' ->
      expires now (Datatypes.S work) m (s :: ks) m'.

(** The targets kept by the alarms [ks], in that order. *)
Definition target (m : Alarms) (k : Slot) : option W :=
  match m !! k with Some (_, r) => r | None => None end.
Definition targets (m : Alarms) (ks : list Slot) : list W := omap (target m) ks.

(** The store as independent alarms ([Time.Alarm]): a command on one lease
    changes that alarm only. *)
Inductive alarms (m : Alarms) : Op -> Answer -> Alarms -> Prop :=
  | al_lease s : 0 <= s < cap -> m !! s = None ->
      alarms m TryAlarm (ALease (s + 1)) (<[s:=(Alarm.Idle, None)]> m)
  | al_full : (forall s, 0 <= s < cap -> m !! s <> None) -> alarms m TryAlarm AFull m
  | al_drop l : alarms m (Drop l) ADone (delete (l - 1) m)
  | al_arm l a r due w : m !! (l - 1) = Some (a, r) ->
      alarms m (Arm l due w) ADone (<[l - 1:=(Alarm.arm a due, Some w)]> m)
  | al_arm_and_poll l a r due now w b a' : m !! (l - 1) = Some (a, r) ->
      Alarm.arm_and_poll a due now = (b, a') ->
      alarms m (ArmAndPoll l due now w) (ABool b) (<[l - 1:=(a', if b then None else Some w)]> m)
  | al_poll l a r now w b a' : m !! (l - 1) = Some (a, r) -> Alarm.poll a now = (b, a') ->
      alarms m (Poll l now w) (ABool b)
        (<[l - 1:=(a', if b then None else match a with Alarm.Armed _ => Some w | _ => r end)]> m)
  | al_clear l a r : m !! (l - 1) = Some (a, r) ->
      alarms m (Clear l) ADone (<[l - 1:=(Alarm.clear a, None)]> m)
  | al_has l a r : m !! (l - 1) = Some (a, r) -> alarms m (HasAlarm l) (ABool (Alarm.is_armed a)) m
  | al_never : (forall s p r, m !! s <> Some (Alarm.Armed p, r)) -> alarms m Earliest (AWhen None) m
  | al_earliest s p : least_armed m s p -> alarms m Earliest (AWhen (Some p)) m
  | al_expire now work ks m' : expires now work m ks m' ->
      alarms m (Expire now work) (AWoken (targets m ks)) m'.

(** The holder of a lease still has it. *)
Definition leased (m : Alarms) (op : Op) : Prop :=
  match op with
  | Drop l | Arm l _ _ | ArmAndPoll l _ _ _ | Poll l _ _ | Clear l | HasAlarm l => is_Some (m !! (l - 1))
  | TryAlarm | Earliest | Expire _ _ => True
  end.

Lemma arm_models c (m : Alarms) l a r due w : models c m -> m !! (l - 1) = Some (a, r) ->
  exists c', Timer.arm_alarm c l due w = Ok c' /\ models c' (<[l - 1:=(Alarm.Armed due, Some w)]> m).
Proof.
  intros Hm Hs. unfold Timer.arm_alarm, Timer.set_target, live.
  destruct (set_resident_models cap Hcap c m (l - 1) a r (Some w) Hm Hs) as (c1 & -> & Hm1). cbn [bind].
  destruct (set_models cap Hcap c1 _ (l - 1) a (Some w) due Hm1) as (c2 & -> & Hm2); [apply lookup_insert_eq|].
  rewrite insert_insert_eq in Hm2. by exists c2.
Qed.

Lemma clear_alarm_models c (m : Alarms) l a r : models c m -> m !! (l - 1) = Some (a, r) ->
  exists c', Timer.clear_alarm c l = Ok c' /\ models c' (<[l - 1:=(Alarm.Idle, None)]> m).
Proof.
  intros Hm Hs. unfold Timer.clear_alarm, live.
  destruct (clear_models cap Hcap c m (l - 1) a r Hm Hs) as (c1 & -> & Hm1). cbn [bind].
  destruct (set_resident_models cap Hcap c1 _ (l - 1) Alarm.Idle r None Hm1) as (c2 & -> & Hm2); [apply lookup_insert_eq|].
  rewrite insert_insert_eq in Hm2. by exists c2.
Qed.

Lemma wake_models c (m : Alarms) s r : models c m -> m !! s = Some (Alarm.Fired, r) ->
  exists c', Timer.wake_once c s = Ok (match r with Some w => [w] | None => [] end, c')
    /\ models c' (<[s:=(Alarm.Fired, None)]> m).
Proof.
  intros Hm Hs. unfold Timer.wake_once. rewrite (resident_models cap Hcap c m s _ r Hm Hs). cbn [bind].
  destruct r as [w|].
  - destruct (set_resident_models cap Hcap c m s _ _ None Hm Hs) as (c' & -> & Hm'). by exists c'.
  - exists c. split; [done|]. by rewrite insert_id.
Qed.

Lemma due_models c (m : Alarms) now : models c m ->
  (Timer.due c now = Ok None /\ forall s p r, m !! (s : Slot) = Some (Alarm.Armed p, r) -> now < p)
  \/ (Timer.due c now = Ok (Some root_proof) /\ exists s p r c', least_armed m s p /\ p <= now
      /\ m !! s = Some (Alarm.Armed p, r) /\ fire c root_proof = Ok (s, c')
      /\ models c' (<[s:=(Alarm.Fired, r)]> m)).
Proof.
  intros Hm. unfold Timer.due. pose proof (root_models cap Hcap c m Hm) as Hr.
  destruct (root c) as [[]|]; cycle 1.
  { left. split; [done|]. intros s p r Hs. by destruct (Hr s p r). }
  destruct Hr as (s & p & -> & Hl & c' & r & Hs & Hf & Hm'). cbn [bind].
  destruct (Z.leb_spec p now); [right|left]; (split; [done|]); [by exists s, p, r, c'|].
  intros s' p' r' Hs'. destruct Hl as [_ Hl]. specialize (Hl s' p' r' Hs'). lia.
Qed.

(** A fired alarm has no target and is not in the heap: the targets of the
    others stay. *)
Lemma targets_fired (m : Alarms) s p r ks : m !! s = Some (Alarm.Armed p, r) -> s ∉ ks ->
  targets m (s :: ks) = match r with Some w => [w] | None => [] end
    ++ targets (<[s:=(Alarm.Fired, None)]> m) ks.
Proof.
  intros Hs Hn.
  assert (Hne : forall k, k <> s -> target (<[s:=(Alarm.Fired, None)]> m) k = target m k).
  { intros k Hk. unfold target. by rewrite lookup_insert_ne. }
  assert (Hk : targets (<[s:=(Alarm.Fired, None)]> m) ks = targets m ks).
  { unfold targets. induction ks as [|k ks IH]; [done|]. cbn [omap list_omap].
    rewrite Hne by set_solver. destruct (target m k); [f_equal|]; apply IH; set_solver. }
  rewrite Hk. unfold targets. cbn [omap list_omap].
  assert (target m s = r) as -> by (unfold target; by rewrite Hs). by destruct r.
Qed.

Lemma expires_armed now work m ks m' : expires now work m ks m' ->
  forall k, k ∈ ks -> exists p r, m !! k = Some (Alarm.Armed p, r) /\ p <= now.
Proof.
  induction 1 as [|work m s p r ks m' Hl Hp Hs _ IH]; intros k Hk; [set_solver|].
  apply elem_of_cons in Hk as [->|Hk]; [by exists p, r|].
  destruct (IH k Hk) as (p' & r' & Hk' & ?). destruct (decide (k = s)) as [->|Hne].
  - by rewrite lookup_insert_eq in Hk'.
  - rewrite lookup_insert_ne in Hk' by done. by exists p', r'.
Qed.

Lemma expire_models now work : forall c (m : Alarms), models c m ->
  exists ks c' m', Timer.expire c now work = Ok (targets m ks, c') /\ expires now work m ks m' /\ models c' m'.
Proof.
  induction work as [|work IH]; intros c m Hm; cbn [Timer.expire];
    destruct (due_models c m now Hm) as [[-> Hn]|[-> (s & p & r & c1 & Hl & Hp & Hs & Hf & Hm1)]]; cbn [bind].
  1, 2: exists [], c, m; (split; [done|]); (split; [|done]); apply expires_end; by left.
  { exists [], c, m. split; [done|]. split; [|done]. apply expires_end. by right. }
  rewrite Hf. cbn [bind].
  destruct (wake_models c1 _ s r Hm1) as (c2 & -> & Hm2); [apply lookup_insert_eq|]. cbn [bind].
  rewrite insert_insert_eq in Hm2.
  destruct (IH c2 _ Hm2) as (ks & c' & m' & -> & He & Hm'). cbn [bind].
  exists (s :: ks), c', m'. split; [|split; [by eapply expires_fire|done]].
  rewrite (targets_fired m s p r ks Hs); [done|]. intros Hk.
  destruct (expires_armed _ _ _ _ _ He s Hk) as (p' & r' & Hs' & _). by rewrite lookup_insert_eq in Hs'.
Qed.

(** C31. The timer store is a set of independent alarms. A new store has none.
    Every command on a store that represents a map of alarms returns, without
    undefined behaviour, with the answer and the map of the specification:
    leasing takes a slot nobody has and fails exactly when all are taken;
    arming, polling, clearing and dropping act on the alarm of the lease as
    [Alarm] says and on no other; the earliest deadline is the least of the
    armed ones; expiry fires the least due alarm, again and again, and wakes
    the targets of the fired ones in this order. *)
Theorem timers_refine_alarms `{Rows} `{AllocationLaws} :
  (forall c, try_new cap = Ok c -> models c ∅)
  /\ forall c m op, models c m -> leased m op ->
     exists ans c' m', perform c op = Ok (ans, c') /\ alarms m op ans m' /\ models c' m'.
Proof.
  split; [by apply try_new_models|]. intros c m op Hm Ha.
  destruct op as [|l|l due w|l due now w|l now w|l|l| |now work]; simpl in Ha |- *;
    try match type of Ha with is_Some _ => destruct Ha as [[a r] Hs] end.
  - pose proof (lease_models cap Hcap c m None Hm) as Hl. unfold Timer.try_alarm. destruct (free c) as [f|].
    + destruct Hl as (s & c' & Hin & Hs & -> & Hm'). cbn [cases]. unfold in_slots in Hin.
      do 3 eexists. split; [done|]. split; [|done].
      unfold from_live. rewrite slot_of_in with (cap := cap) by done. apply al_lease; [lia|done].
    + do 3 eexists. split; [done|]. split; [|done]. apply al_full. intros s Hs. apply Hl. unfold in_slots. lia.
  - unfold Timer.return_item, live. destruct (release_models cap Hcap c m (l - 1) a r Hm Hs) as (c' & -> & Hm').
    do 3 eexists. split; [done|]. split; [by apply al_drop|done].
  - unfold Timer.arm. destruct (arm_models c m l a r due w Hm Hs) as (c' & -> & Hm').
    do 3 eexists. split; [done|]. split; [by eapply (al_arm m l a r due w)|done].
  - unfold Timer.arm_and_poll. destruct (Z.leb_spec due now) as [Hd|Hd].
    + destruct (clear_alarm_models c m l a r Hm Hs) as (c' & -> & Hm').
      do 3 eexists. split; [done|]. split; [|done]. apply (al_arm_and_poll m l a r due now w true Alarm.Idle Hs).
      unfold Alarm.arm_and_poll. by rewrite (proj2 (Z.leb_le _ _) Hd).
    + destruct (arm_models c m l a r due w Hm Hs) as (c' & -> & Hm').
      do 3 eexists. split; [done|]. split; [|done].
      apply (al_arm_and_poll m l a r due now w false (Alarm.Armed due) Hs).
      unfold Alarm.arm_and_poll. by rewrite (proj2 (Z.leb_gt _ _) Hd).
  - unfold Timer.poll, live. destruct (state_models cap Hcap c m (l - 1) a r Hm Hs) as [-> Hp].
    cbn [bind]. rewrite Hp. destruct (clear_alarm_models c m l a r Hm Hs) as (c1 & Hc1 & Hm1).
    destruct (set_resident_models cap Hcap c m (l - 1) a r (Some w) Hm Hs) as (c2 & Hc2 & Hm2).
    destruct a as [|d|]; cbn [state_of bind due_of].
    + do 3 eexists. split; [done|]. split; [by eapply (al_poll m l Alarm.Idle r now w)|]. by rewrite insert_id.
    + destruct (Z.leb_spec d now) as [Hd|Hd].
      * rewrite Hc1. do 3 eexists. split; [done|]. split; [|exact Hm1].
        apply (al_poll m l (Alarm.Armed d) r now w true Alarm.Idle Hs). simpl. by rewrite (proj2 (Z.leb_le _ _) Hd).
      * unfold Timer.set_target, live. rewrite Hc2. do 3 eexists. split; [done|]. split; [|exact Hm2].
        apply (al_poll m l (Alarm.Armed d) r now w false (Alarm.Armed d) Hs). simpl. by rewrite (proj2 (Z.leb_gt _ _) Hd).
    + rewrite Hc1. do 3 eexists. split; [done|]. split; [|exact Hm1].
      by apply (al_poll m l Alarm.Fired r now w true Alarm.Idle Hs).
  - unfold Timer.clear_. destruct (clear_alarm_models c m l a r Hm Hs) as (c' & -> & Hm').
    do 3 eexists. split; [done|]. split; [by eapply (al_clear m l a r)|done].
  - unfold Timer.has_alarm, live. destruct (state_models cap Hcap c m (l - 1) a r Hm Hs) as [-> _].
    do 3 eexists. split; [done|]. split; [|done].
    destruct a; [by eapply (al_has m l Alarm.Idle r)|by eapply (al_has m l (Alarm.Armed due) r)|by eapply (al_has m l Alarm.Fired r)].
  - unfold Timer.earliest, peek. pose proof (root_models cap Hcap c m Hm) as Hr. destruct (root c) as [rt|].
    + destruct Hr as (s & p & -> & Hl & _). do 3 eexists. split; [done|]. split; [by eapply al_earliest|done].
    + do 3 eexists. split; [done|]. split; [by apply al_never|done].
  - destruct (expire_models now work c m Hm) as (ks & c' & m' & -> & He & Hm').
    do 3 eexists. split; [done|]. split; [by apply al_expire|done].
Qed.

(** What a run of [expires] amounts to. *)
Record fired (now : Z) (work : nat) (m : Alarms) (ks : list Slot) (m' : Alarms) : Prop := {
  fd_nodup : NoDup ks;
  fd_work : (length ks <= work)%nat;
  fd_map k : m' !! k = if decide (k ∈ ks) then Some (Alarm.Fired, None) else m !! k;
  fd_due k : k ∈ ks -> exists p r, m !! k = Some (Alarm.Armed p, r) /\ p <= now;
  fd_all : (length ks < work)%nat -> forall k p r, m' !! (k : Slot) = Some (Alarm.Armed p, r) -> now < p;
  fd_sorted : StronglySorted (fun k k' => forall p p' r r',
    m !! k = Some (Alarm.Armed p, r) -> m !! k' = Some (Alarm.Armed p', r') -> p <= p') ks;
  fd_first k p r k' p' r' : k ∈ ks -> m !! k = Some (Alarm.Armed p, r) ->
    m' !! k' = Some (Alarm.Armed p', r') -> p <= p';
}.

Lemma expires_fired now work m ks m' : expires now work m ks m' -> fired now work m ks m'.
Proof.
  intros He. pose proof (expires_armed _ _ _ _ _ He) as Hdue. induction He as [work m Hend|work m s p r ks m' Hl Hp Hs He IH].
  { split; simpl; [apply NoDup_nil_2|lia|done|done| |constructor|set_solver].
    intros Hw. destruct Hend as [->|Hend]; [lia|done]. }
  pose proof (expires_armed _ _ _ _ _ He) as Hdue1. destruct (IH Hdue1) as [Hd Hw Hm _ Hall Hso Hfi].
  assert (Hn : s ∉ ks).
  { intros Hk. destruct (Hdue1 s Hk) as (p' & r' & Hx & _). by rewrite lookup_insert_eq in Hx. }
  assert (Hin : forall k, k ∈ ks -> <[s:=(Alarm.Fired, None)]> m !! k = m !! k).
  { intros k Hk. apply lookup_insert_ne. set_solver. }
  assert (Hle : forall k' p' r', m !! (k' : Slot) = Some (Alarm.Armed p', r') -> p <= p').
  { intros k' p' r' Hk'. destruct Hl as [_ Hl]. specialize (Hl k' p' r' Hk'). lia. }
  split.
  - by apply NoDup_cons.
  - simpl. lia.
  - intros k. rewrite Hm. destruct (decide (k = s)) as [->|Hne].
    + rewrite decide_False, decide_True, lookup_insert_eq by set_solver. done.
    + rewrite lookup_insert_ne by done. do 2 case_decide; set_solver.
  - done.
  - simpl. intros Hlt. apply Hall. lia.
  - constructor.
    + clear -Hso Hin. induction Hso as [|k l Hso IH Hf]; [constructor|].
      constructor; [apply IH; set_solver|]. rewrite Forall_forall in Hf |- *. intros k' Hk' q q' t t' Hq Hq'.
      apply (Hf k' Hk' q q' t t'); rewrite Hin by set_solver; done.
    + apply Forall_forall. intros k' Hk' q q' t t' Hq Hq'. rewrite Hs in Hq. injection Hq as <- _. by eapply Hle.
  - intros k q t k' q' t' [->|Hk]%elem_of_cons Hq Hq'.
    + rewrite Hs in Hq. injection Hq as <- _. rewrite Hm in Hq'. case_decide; [done|].
      destruct (decide (k' = s)) as [->|Hne]; [by rewrite lookup_insert_eq in Hq'|].
      rewrite lookup_insert_ne in Hq' by done. by eapply Hle.
    + eapply (Hfi k q t); [done| |done]. by rewrite Hin.
Qed.

(** C32. Expiry fires what is due. On a store that represents a map of alarms,
    expiring at [now] with [work] permits returns and fires distinct armed
    alarms that are due, no more than the permits, in order of their deadlines
    and none later than one it leaves armed; with a permit left nothing due
    stays armed; the fired alarms are marked and their wake targets, each taken
    once, are woken in that order; no other alarm changes. *)
Theorem expiry_fires_what_is_due c m now work : models c m ->
  exists ks c' m', Timer.expire c now work = Ok (targets m ks, c') /\ models c' m' /\ fired now work m ks m'.
Proof.
  intros Hm. destruct (expire_models now work c m Hm) as (ks & c' & m' & He & Hx & Hm').
  exists ks, c', m'. split; [done|]. split; [done|]. by apply expires_fired.
Qed.
End timers.

(** ** A concrete store *)

Section witnesses.
Import Depot.Concrete ConcreteHole.
#[local] Instance example_rows : Rows := 2 ^ 20.

Abbreviation TimerCore := (Core (Timer.Cell (W := Z))).
Abbreviation run_op := (perform (W := Z)).

(** Two slots, both leased, alarms at 30 and 20. *)
Definition t_new : TimerCore :=
  match try_new 2 with Ok c => c | _ => core [] [] [] [] 0 FREE end.
Definition t_do (c : TimerCore) (op : Op) : TimerCore :=
  match run_op c op with Ok (_, c') => c' | _ => c end.
Definition t_armed : TimerCore :=
  t_do (t_do (t_do (t_do t_new TryAlarm) TryAlarm) (Arm 1 30 7)) (Arm 2 20 8).

Lemma t_cap : 0 <= 2 <= 2 ^ 32 - 3.
Proof. lia. Qed.
Lemma t_new_models : models (R := Timer.Cell (W := Z)) 2 t_new ∅.
Proof. by apply (try_new_models 2 t_cap). Qed.

(** One alarm more, and one armed. *)
Lemma t_leased c m s : models 2 c m -> free c = Some free_proof ->
  lease (R := Timer.Cell (W := Z)) c None free_proof = Ok (s, t_do c TryAlarm) ->
  models 2 (t_do c TryAlarm) (<[s:=(Alarm.Idle, None)]> m).
Proof.
  intros Hm Hf He. pose proof (lease_models 2 t_cap c m None Hm) as Hl. rewrite Hf in Hl.
  destruct Hl as (s' & c' & _ & _ & He' & Hm'). rewrite He in He'. by injection He' as <- <-.
Qed.
Lemma t_armed_step c m l a r due w : models 2 c m -> m !! (l - 1) = Some (a, r) ->
  Timer.arm_alarm c l due w = Ok (t_do c (Arm l due w)) ->
  models 2 (t_do c (Arm l due w)) (<[l - 1:=(Alarm.Armed due, Some w)]> m).
Proof.
  intros Hm Hs He. destruct (arm_models 2 t_cap c m l a r due w Hm Hs) as (c' & He' & Hm').
  rewrite He in He'. by injection He' as <-.
Qed.

Definition t_alarms : gmap Slot (Alarm.State * Timer.Cell (W := Z)) :=
  <[1:=(Alarm.Armed 20, Some 8)]> (<[0:=(Alarm.Armed 30, Some 7)]>
    (<[1:=(Alarm.Idle, None)]> (<[0:=(Alarm.Idle, None)]> ∅))).

Lemma t_models : models 2 t_armed t_alarms.
Proof.
  assert (H0 := t_leased t_new ∅ 0 t_new_models eq_refl eq_refl).
  assert (H1 := t_leased _ _ 1 H0 eq_refl eq_refl).
  assert (H2 := t_armed_step _ _ 1 Alarm.Idle None 30 7 H1 eq_refl eq_refl).
  exact (t_armed_step _ _ 2 Alarm.Idle None 20 8 H2 eq_refl eq_refl).
Qed.

Lemma timers_refine_alarms_witness :
  models 2 t_armed t_alarms /\ leased t_alarms (Poll 2 25 9)
  /\ run_op t_armed TryAlarm = Ok (AFull, t_armed)
  /\ run_op t_armed Earliest = Ok (AWhen (Some 20), t_armed)
  /\ match run_op t_armed (Poll 2 25 9) with Ok (ans, _) => ans = ABool true | _ => False end
  /\ exists ans c' m', run_op t_armed (Poll 2 25 9) = Ok (ans, c')
      /\ alarms 2 t_alarms (Poll 2 25 9) ans m' /\ models 2 c' m'.
Proof.
  assert (Hl : leased t_alarms (Poll 2 25 9)) by (by eexists).
  split; [exact t_models|]. split; [exact Hl|]. split; [reflexivity|]. split; [reflexivity|].
  split; [vm_compute; reflexivity|].
  exact (proj2 (timers_refine_alarms (W := Z) 2 t_cap) t_armed t_alarms (Poll 2 25 9) t_models Hl).
Defined.

Lemma expiry_fires_what_is_due_witness :
  models 2 t_armed t_alarms
  /\ match Timer.expire t_armed 40 5 with Ok (woken, _) => woken = [8; 7] | _ => False end
  /\ exists ks c' m', Timer.expire t_armed 40 5 = Ok (targets t_alarms ks, c')
      /\ models 2 c' m' /\ fired 40 5 t_alarms ks m'.
Proof.
  split; [exact t_models|]. split; [vm_compute; reflexivity|].
  exact (expiry_fires_what_is_due 2 t_cap t_armed t_alarms 40 5 t_models).
Defined.
End witnesses.
