(* ===== verification/Health.v ===== *)
(** * Retry backoff of services.

    Model of [src/layer1/manifold/src/service/health.rs]: the retry bounds
    admitted at construction, the doubling and jittered deadline of each retry,
    and the generations that tell late events from current ones. *)

From S2P Require Import Prelude Depot Time.

Module Health.
(** [Error], src/layer1/manifold/src/service/health.rs:44-50. *)
Inductive Error := Base | Order (base maximum : Z).
(** [Plan], src/layer1/manifold/src/service/health.rs:38-41. *)
Record Plan := plan { base : Z; maximum : Z }.
(** [Backoff], src/layer1/manifold/src/service/health.rs:31-34. *)
Record Backoff := backoff { b_plan : Plan; rng : Z }.

(** [Plan::new], src/layer1/manifold/src/service/health.rs:53-62. *)
Definition plan_new `{Positive} (base maximum : Z) : run Error Plan :=
  let! base := ok_or (positive base) Base in
  if maximum <? base then Err (Order base maximum) else Ok (plan base maximum).

(** [Plan::bind], src/layer1/manifold/src/service/health.rs:64-67. [hash] is the
    keyed hash of the two bounds in nanoseconds. *)
Definition bind_plan (self : Plan) (hash : Z -> Z -> Z) : Backoff :=
  backoff self (hash (base self) (maximum self)).

(** [Generation], src/layer1/manifold/src/service/health.rs:72-72. A [u64]. *)
Definition Generation := Z.
(** [Next], src/layer1/manifold/src/service/health.rs:74-77. *)
Inductive Next := Advanced (g : Generation) | Exhausted.
(** [Generation::INITIAL], src/layer1/manifold/src/service/health.rs:80-80. *)
Definition INITIAL : Generation := 0.
(** [Generation::LAST], src/layer1/manifold/src/service/health.rs:81-81. *)
Definition LAST : Generation := 2 ^ 64 - 1.
(** [Generation::next], src/layer1/manifold/src/service/health.rs:83-89. *)
Definition generation_next (self : Generation) : Next :=
  if self =? LAST then Exhausted else Advanced (self + 1).

(** [Failures], src/layer1/manifold/src/service/health.rs:93-93. A [u8]. *)
Definition Failures := Z.
(** [Retry], src/layer1/manifold/src/service/health.rs:95-98. *)
Inductive Retry := Scale (factor : Z) | Maximum.
(** [Failures::new], src/layer1/manifold/src/service/health.rs:101-103. *)
Definition failures_new : Failures := 0.
(** [Failures::advance], src/layer1/manifold/src/service/health.rs:105-112. *)
Definition advance (self : Failures) : Retry * Failures :=
  if 32 <=? self then (Maximum, self) else (Scale (Z.shiftl 1 self), self + 1).

Definition mul64 (a b : Z) : Z := wrap 64 (a * b).
(** [Backoff::next_rand], src/layer1/manifold/src/service/health.rs:116-122. *)
Definition next_rand (self : Backoff) : Z * Backoff :=
  let rng := wrap 64 (rng self + 0x9E3779B97F4A7C15) in
  let x := rng in
  let x := mul64 (Z.lxor x (Z.shiftr x 30)) 0xBF58476D1CE4E5B9 in
  let x := mul64 (Z.lxor x (Z.shiftr x 27)) 0x94D049BB133111EB in
  (Z.lxor x (Z.shiftr x 31), backoff (b_plan self) rng).

Section deadline.
Context `{Average}.
(** [Backoff::deadline], src/layer1/manifold/src/service/health.rs:125-148. *)
Definition deadline (self : Backoff) (now : Z) (retry : Retry) : Z * Backoff :=
  let scaled := match retry with
                | Scale factor =>
                    Z.min (duration_saturating_mul (base (b_plan self)) factor) (maximum (b_plan self))
                | Maximum => maximum (b_plan self)
                end in
  let half := scaled / 2 in
  let '(random, self) := next_rand self in
  let span := half in
  let nanos := if span =? 0 then 1
               else if 2 ^ 64 - 1 <? span then random
               else random mod span in
  let jitter := nanos in
  let delay := duration_saturating_add half jitter in
  (Clock.clamp_add now delay, self).

(** [Backoff::retry_at], src/layer1/manifold/src/service/health.rs:150-157. *)
Definition retry_at (self : Backoff) (failures : Failures) (now : Z) : Z * Failures * Backoff :=
  let '(retry, failures) := advance failures in
  let '(d, self) := deadline self now retry in (d, failures, self).
End deadline.
End Health.

(** ** Bounds of a retry *)

Section facts.
Context `{AverageLaws} `{PositiveLaws}.
Import Health.

Lemma mul64_range a b : 0 <= mul64 a b < 2 ^ 64.
Proof. by apply wrap_range. Qed.

Lemma mixed_range x k : 0 <= x < 2 ^ 64 -> 0 <= k -> 0 <= Z.lxor x (Z.shiftr x k) < 2 ^ 64.
Proof.
  intros Hx Hk. assert (Hs : 0 <= Z.shiftr x k < 2 ^ 64).
  { rewrite Z.shiftr_div_pow2 by done. assert (0 < 2 ^ k) by (by apply Z.pow_pos_nonneg).
    split; [apply Z.div_pos; lia|]. apply Z.div_lt_upper_bound; nia. }
  assert (Hnn : 0 <= Z.lxor x (Z.shiftr x k)) by (apply Z.lxor_nonneg; lia).
  split; [done|]. destruct (Z.eq_dec (Z.lxor x (Z.shiftr x k)) 0) as [->|Hne]; [lia|].
  apply Z.log2_lt_pow2; [lia|]. eapply Z.le_lt_trans; [apply Z.log2_lxor; lia|].
  assert (Hlog : forall y, 0 <= y < 2 ^ 64 -> Z.log2 y < 64).
  { intros y Hy. destruct (Z.eq_dec y 0) as [->|]; [done|]. apply Z.log2_lt_pow2; lia. }
  apply Z.max_lub_lt; by apply Hlog.
Qed.

Lemma next_rand_range b : let '(r, b') := next_rand b in 0 <= r < 2 ^ 64 /\ b_plan b' = b_plan b.
Proof. split; [|done]. apply mixed_range; [apply mul64_range|lia]. Qed.

Lemma plan_new_Ok x y p : 0 <= x -> plan_new x y = Ok p -> p = plan x y /\ 0 < x <= y.
Proof.
  intros Hx. unfold plan_new. destruct (positive x) as [z|] eqn:Hp; simpl; [|done].
  apply positive_exact in Hp as [Hne ->]; [|done].
  destruct (Z.ltb_spec y x); [done|]. intros [= <-]. split; [done|lia].
Qed.

(** C40. A retry waits long enough and not too long. For every admitted plan and
    every state of the generator, the retry after [k] failures as they are
    counted is due after at least half of the scaled delay and at most all of
    it, never at once, clamped to the platform's last instant. The scaled delay
    is the base doubled [k] times and at most the maximum, for [k] below 32, and
    the maximum at 32, where the count stops: the shift never overflows. *)
Theorem retry_waits_within_bounds base_ maximum_ p r k now :
  0 <= base_ -> maximum_ <= DURATION_MAX -> plan_new base_ maximum_ = Ok p -> 0 <= k <= 32 -> is_instant now ->
  let scaled := if k <? 32 then Z.min (base_ * 2 ^ k) maximum_ else maximum_ in
  exists d delay b', retry_at (backoff p r) k now = (d, Z.min (k + 1) 32, b')
    /\ b_plan b' = p
    /\ d = Z.min (now + delay) INSTANT_MAX /\ 0 < delay /\ scaled / 2 <= delay <= scaled.
Proof.
  intros Hb Hm Hp Hk Hn scaled. apply plan_new_Ok in Hp as [-> Hbm]; [|done].
  assert (Hpow : 0 < 2 ^ k) by (apply Z.pow_pos_nonneg; lia).
  assert (Hsc : 1 <= scaled <= maximum_).
  { unfold scaled. destruct (k <? 32); [|lia]. nia. }
  unfold retry_at. assert (Hadv : exists retry, advance k = (retry, Z.min (k + 1) 32)
    /\ match retry with
       | Scale factor => Z.min (duration_saturating_mul base_ factor) maximum_
       | Maximum => maximum_
       end = scaled).
  { unfold advance, scaled. destruct (Z.leb_spec 32 k), (Z.ltb_spec k 32); try lia.
    - exists Maximum. split; [f_equal; lia|done].
    - exists (Scale (Z.shiftl 1 k)). split; [f_equal; lia|].
      rewrite Z.shiftl_1_l. unfold duration_saturating_mul. lia. }
  destruct Hadv as (retry & -> & Hretry). unfold deadline. simpl base. simpl maximum. rewrite Hretry.
  pose proof (next_rand_range (backoff (plan base_ maximum_) r)) as Hr.
  destruct (next_rand _) as [random b']. destruct Hr as [Hr Hplan].
  set (half := scaled / 2). set (nanos := if half =? 0 then 1 else _).
  assert (Hhalf : 0 <= half /\ 2 * half <= scaled <= 2 * half + 1).
  { unfold half. pose proof (Z.div_mod scaled 2). pose proof (Z.mod_pos_bound scaled 2). lia. }
  assert (Hnanos : 0 <= nanos /\ 0 < half + nanos <= scaled).
  { unfold nanos. destruct (Z.eqb_spec half 0); [lia|]. destruct (Z.ltb_spec (2 ^ 64 - 1) half); [lia|].
    pose proof (Z.mod_pos_bound random half). lia. }
  assert (Hsat : duration_saturating_add half nanos = half + nanos) by (unfold duration_saturating_add; lia).
  rewrite Hsat, clamp_add_min; [|exact Hn|split; lia].
  exists (Z.min (now + (half + nanos)) INSTANT_MAX), (half + nanos), b'.
  split; [done|]. split; [done|]. split; [done|]. lia.
Qed.
End facts.

Section witness.
Import Depot.Concrete Health.

Lemma retry_waits_within_bounds_witness :
  plan_new 1000 60000 = Ok (plan 1000 60000) /\ is_instant 5
  /\ exists d delay b', retry_at (backoff (plan 1000 60000) 42) 3 5 = (d, Z.min (3 + 1) 32, b')
    /\ b_plan b' = plan 1000 60000
    /\ d = Z.min (5 + delay) INSTANT_MAX /\ 0 < delay
    /\ Z.min (1000 * 2 ^ 3) 60000 / 2 <= delay <= Z.min (1000 * 2 ^ 3) 60000.
Proof.
  assert (H5 : is_instant 5) by (vm_compute; split; discriminate).
  assert (Hm : 60000 <= DURATION_MAX) by (vm_compute; discriminate).
  split; [reflexivity|]. split; [exact H5|].
  exact (retry_waits_within_bounds 1000 60000 (plan 1000 60000) 42 3 5 ltac:(lia) Hm eq_refl ltac:(lia) H5).
Defined.
End witness.
