(* ===== verification/Round.v ===== *)
(** * The scheduled containers of the o3 crate, as interfaces.

    A service pool keeps its members in [o3::depot::queue::round::Set], a slot
    table whose residents may be linked into one round of turns, and its retries
    in [o3::depot::heap::keyed::Min], a minimum heap addressed by key. Neither
    is part of this repository: here are their operations, what the pool relies
    on, and concrete functions that satisfy it. *)

From stdpp Require Import gmap.
From S2P Require Import Prelude.

(** What the iteration over a table finds at a position: nothing, a resident,
    or a position whose identities are spent, which the iteration skips. *)
Inductive Entry (K : Type) := Vacant | Occupied (k : K) | Gone.
Arguments Vacant {K}.
Arguments Occupied {K} k.
Arguments Gone {K}.

(** [round::Set<R, ..>] with keys [K]: [rs_get] is [try_entry] followed by
    [get]; [rs_ready] tells [set::State::Ready] from [set::State::Idle];
    [rs_put] writes through [get_mut]. On an entry: [rs_insert] links an idle
    one, [rs_remove] and [rs_requeue] act on a linked one, [rs_discard] removes
    an idle resident, [rs_fill] fills a vacant position, [rs_replace] is
    [Reuse::replace] where [Reuse::try_from] succeeds, which [rs_reusable]
    tells of a key. [rs_turn] is the key of [turn()], [rs_advance] its [advance]. *)
Class RoundSet (K R S : Type) := {
  rs_new : Z -> S;
  rs_get : S -> K -> option R;
  rs_ready : S -> K -> bool;
  rs_put : S -> K -> R -> S;
  rs_insert : S -> K -> S;
  rs_remove : S -> K -> S;
  rs_requeue : S -> K -> S;
  rs_discard : S -> K -> S;
  rs_turn : S -> option K;
  rs_advance : S -> S;
  rs_entries : S -> list (Entry K);
  rs_fill : S -> nat -> R -> K * S;
  rs_reusable : K -> bool;
  rs_replace : S -> K -> R -> K * S;
}.

(** [l] without [k]. *)
Definition without {K} `{EqDecision K} (k : K) (l : list K) : list K := filter (fun x => x <> k) l.
(** [l] with [k'] for [k]. *)
Definition renamed {K} `{EqDecision K} (k k' : K) (l : list K) : list K :=
  (fun x => if decide (x = k) then k' else x) <$> l.

(** What one operation does to the three views of a table: its residents, its
    round and its positions. *)
Record moves {K R S} `{RoundSet K R S} (s' : S) (get : K -> option R) (round : S -> list K)
    (order : list K) (entries : list (Entry K)) : Prop := {
  mv_get k : rs_get s' k = get k;
  mv_order : round s' = order;
  mv_entries : rs_entries s' = entries;
}.
Arguments mv_get {K R S H s' get round order entries}.
Arguments mv_order {K R S H s' get round order entries}.
Arguments mv_entries {K R S H s' get round order entries}.

Definition upd {K R} `{EqDecision K} (f : K -> option R) (k : K) (o : option R) : K -> option R :=
  fun x => if decide (x = k) then o else f x.

(** The promise. [rs_ok] holds of the tables a sequence of operations yields,
    [rs_order] is the round from the current turn on, [rs_issued] the keys that
    ever named a resident: a key is never issued twice. *)
Class RoundSetLaws (K R S : Type) `{EqDecision K} `{RoundSet K R S} := {
  rs_ok : S -> Prop;
  rs_order : S -> list K;
  rs_issued : S -> K -> Prop;
  rs_order_NoDup s : rs_ok s -> NoDup (rs_order s);
  rs_order_live s k : rs_ok s -> k ∈ rs_order s -> is_Some (rs_get s k);
  rs_ready_order s k : rs_ok s -> rs_ready s k = bool_decide (k ∈ rs_order s);
  rs_turn_head s : rs_ok s -> rs_turn s = head (rs_order s);
  rs_issued_live s k : rs_ok s -> is_Some (rs_get s k) -> rs_issued s k;
  rs_entries_live s k : rs_ok s -> is_Some (rs_get s k) <-> Occupied k ∈ rs_entries s;
  rs_entries_inj s i j k : rs_ok s -> rs_entries s !! i = Some (Occupied k) ->
    rs_entries s !! j = Some (Occupied k) -> i = j;
  rs_news n : 0 <= n -> rs_ok (rs_new n) /\ rs_order (rs_new n) = []
    /\ rs_entries (rs_new n) = replicate (Z.to_nat n) Vacant;
  rs_puts s k r : rs_ok s -> is_Some (rs_get s k) ->
    rs_ok (rs_put s k r) /\ (forall x, rs_issued (rs_put s k r) x <-> rs_issued s x)
    /\ moves (rs_put s k r) (upd (rs_get s) k (Some r)) rs_order (rs_order s) (rs_entries s);
  rs_inserts s k : rs_ok s -> is_Some (rs_get s k) -> k ∉ rs_order s ->
    rs_ok (rs_insert s k) /\ (forall x, rs_issued (rs_insert s k) x <-> rs_issued s x)
    /\ moves (rs_insert s k) (rs_get s) rs_order (rs_order s ++ [k]) (rs_entries s);
  rs_removes s k : rs_ok s -> k ∈ rs_order s ->
    rs_ok (rs_remove s k) /\ (forall x, rs_issued (rs_remove s k) x <-> rs_issued s x)
    /\ moves (rs_remove s k) (rs_get s) rs_order (without k (rs_order s)) (rs_entries s);
  rs_requeues s k : rs_ok s -> k ∈ rs_order s ->
    rs_ok (rs_requeue s k) /\ (forall x, rs_issued (rs_requeue s k) x <-> rs_issued s x)
    /\ moves (rs_requeue s k) (rs_get s) rs_order (without k (rs_order s) ++ [k]) (rs_entries s);
  rs_advances s k l : rs_ok s -> rs_order s = k :: l ->
    rs_ok (rs_advance s) /\ (forall x, rs_issued (rs_advance s) x <-> rs_issued s x)
    /\ moves (rs_advance s) (rs_get s) rs_order (l ++ [k]) (rs_entries s);
  rs_discards s i k : rs_ok s -> k ∉ rs_order s -> rs_entries s !! i = Some (Occupied k) ->
    rs_ok (rs_discard s k) /\ (forall x, rs_issued (rs_discard s k) x <-> rs_issued s x)
    /\ moves (rs_discard s k) (upd (rs_get s) k None) rs_order (rs_order s)
         (<[i:=if rs_reusable k then Vacant else Gone]> (rs_entries s));
  rs_fills s i r : rs_ok s -> rs_entries s !! i = Some Vacant ->
    let '(k, s') := rs_fill s i r in
    rs_ok s' /\ ~ rs_issued s k /\ (forall x, rs_issued s' x <-> rs_issued s x \/ x = k)
    /\ moves s' (upd (rs_get s) k (Some r)) rs_order (rs_order s)
         (<[i:=Occupied k]> (rs_entries s));
  rs_replaces s i k r : rs_ok s -> rs_entries s !! i = Some (Occupied k) ->
    rs_reusable k = true ->
    let '(k', s') := rs_replace s k r in
    rs_ok s' /\ ~ rs_issued s k' /\ (forall x, rs_issued s' x <-> rs_issued s x \/ x = k')
    /\ moves s' (upd (upd (rs_get s) k None) k' (Some r)) rs_order (renamed k k' (rs_order s))
         (<[i:=Occupied k']> (rs_entries s));
}.

(** [keyed::Min<K, P, ..>] with priorities in [Z]: [km_first] is [first_entry]
    and [peek]; [km_retire] forgets a key, present or not. *)
Class KeyedMin (K H : Type) := {
  km_new : H;
  km_get : H -> K -> option Z;
  km_first : H -> option (K * Z);
  km_insert : H -> K -> Z -> H;
  km_remove : H -> K -> H;
  km_retire : H -> K -> H;
}.
Class KeyedMinLaws (K H : Type) `{EqDecision K} `{KeyedMin K H} := {
  km_get_new k : km_get km_new k = None;
  km_first_None h : km_first h = None -> forall k, km_get h k = None;
  km_first_Some h k p : km_first h = Some (k, p) ->
    km_get h k = Some p /\ forall k' p', km_get h k' = Some p' -> p <= p';
  km_get_insert h k p x : km_get (km_insert h k p) x = upd (km_get h) k (Some p) x;
  km_get_remove h k x : km_get (km_remove h k) x = upd (km_get h) k None x;
  km_get_retire h k x : km_get (km_retire h k) x = upd (km_get h) k None x;
}.

(** [o3::depot::arena::slab::key::Generation]: a bounded count of the uses of
    a slot; [checked_add] fails past the bound. *)
Class SlotGeneration := { GEN_MIN : Z; GEN_MAX : Z }.
Class SlotGenerationLaws `{SlotGeneration} := gen_min_max : GEN_MIN <= GEN_MAX.
Definition gen_checked_add `{SlotGeneration} (g n : Z) : option Z :=
  if g + n <=? GEN_MAX then Some (g + n) else None.

Section upd.
Context {K R : Type} `{EqDecision K} (f : K -> option R).
Lemma upd_eq k o : upd f k o k = o.
Proof. unfold upd. by rewrite decide_True. Qed.
Lemma upd_ne k o x : x <> k -> upd f k o x = f x.
Proof. intros. unfold upd. by rewrite decide_False. Qed.
Lemma upd_Some k o x r : upd f k o x = Some r <-> (x = k /\ o = Some r) \/ (x <> k /\ f x = Some r).
Proof. unfold upd. destruct (decide (x = k)); naive_solver. Qed.
End upd.
Create Rewrite HintDb upd.
#[export] Hint Rewrite @upd_eq : upd.
#[export] Hint Rewrite @upd_ne using congruence : upd.

Section without.
Context {K : Type} `{EqDecision K}.
Lemma elem_without (k x : K) l : x ∈ without k l <-> x <> k /\ x ∈ l.
Proof. unfold without. by rewrite list_elem_of_filter. Qed.
Lemma without_NoDup (k : K) l : NoDup l -> NoDup (without k l).
Proof. apply NoDup_filter. Qed.
Lemma without_absent (k : K) l : k ∉ l -> without k l = l.
Proof.
  induction l as [|x l IH]; intros Hn; [done|]. unfold without in *. rewrite filter_cons.
  rewrite not_elem_of_cons in Hn. rewrite decide_True by naive_solver. f_equal. apply IH; naive_solver.
Qed.
Lemma without_head (k : K) l : k ∉ l -> without k (k :: l) = l.
Proof.
  intros Hn. unfold without. rewrite filter_cons, decide_False by naive_solver. by apply without_absent.
Qed.
Lemma elem_renamed (k k' x : K) l :
  x ∈ renamed k k' l <-> (x = k' /\ k ∈ l) \/ (x <> k /\ x ∈ l).
Proof.
  unfold renamed. rewrite list_elem_of_fmap. split.
  - intros (y & -> & Hy). destruct (decide (y = k)); naive_solver.
  - intros [[-> Hk]|[Hne Hx]]; [exists k|exists x]; destruct (decide _); naive_solver.
Qed.
Lemma renamed_NoDup (k k' : K) l : k' ∉ l -> NoDup l -> NoDup (renamed k k' l).
Proof.
  intros Hn. induction 1 as [|x l Hx Hl IH]; simpl; constructor.
  - change ((if decide (x = k) then k' else x) ∉ renamed k k' l). rewrite elem_renamed.
    destruct (decide (x = k)) as [->|]; set_solver.
  - apply IH. set_solver.
Qed.
Lemma without_renamed (k k' : K) l : k' ∉ l -> without k' (renamed k k' l) = without k l.
Proof.
  induction l as [|x l IH]; intros Hn; [done|]. simpl. unfold without in *. rewrite !filter_cons.
  rewrite not_elem_of_cons in Hn. fold (renamed k k' l). rewrite IH by naive_solver.
  destruct (decide (x = k)) as [->|Hx].
  - rewrite decide_False by naive_solver. rewrite decide_False by naive_solver. done.
  - rewrite decide_True by naive_solver. rewrite decide_True by naive_solver. done.
Qed.
End without.

(** ** Concrete instances *)

Module Cells.
(** A table: its residents by key, its positions, its round, the next key. *)
Record Table (R : Type) := table {
  residents : gmap nat R; positions : list (Entry nat); ring : list nat; next : nat
}.
Arguments table {R}.
Arguments residents {R}.
Arguments positions {R}.
Arguments ring {R}.
Arguments next {R}.
#[export] Instance entry_dec : EqDecision (Entry nat).
Proof. solve_decision. Defined.

Section cells.
Context {R : Type}.
Implicit Types (s : Table R) (k : nat).

Definition relink s (l : list nat) : Table R := table (residents s) (positions s) l (next s).
Definition put s k (r : R) : Table R :=
  table (<[k:=r]> (residents s)) (positions s) (ring s) (next s).
Definition set_position (k : nat) (e : Entry nat) (l : list (Entry nat)) : list (Entry nat) :=
  (fun x => if decide (x = Occupied k) then e else x) <$> l.
Definition fill s (i : nat) (r : R) : nat * Table R :=
  (next s, table (<[next s:=r]> (residents s)) (<[i:=Occupied (next s)]> (positions s)) (ring s) (S (next s))).
Definition discard s k : Table R :=
  table (delete k (residents s)) (set_position k Vacant (positions s)) (ring s) (next s).
Definition replace s k (r : R) : nat * Table R :=
  (next s, table (<[next s:=r]> (delete k (residents s))) (set_position k (Occupied (next s)) (positions s))
             (renamed k (next s) (ring s)) (S (next s))).

#[export] Instance cell_set : RoundSet nat R (Table R) := {|
  rs_new n := table ∅ (replicate (Z.to_nat n) Vacant) [] O;
  rs_get s k := residents s !! k;
  rs_ready s k := bool_decide (k ∈ ring s);
  rs_put := put;
  rs_insert s k := relink s (ring s ++ [k]);
  rs_remove s k := relink s (without k (ring s));
  rs_requeue s k := relink s (without k (ring s) ++ [k]);
  rs_discard := discard;
  rs_turn s := head (ring s);
  rs_advance s := relink s (match ring s with [] => [] | k :: l => l ++ [k] end);
  rs_entries := positions;
  rs_fill := fill;
  rs_reusable _ := true;
  rs_replace := replace;
|}.

Record ok s : Prop := {
  ok_ring : NoDup (ring s);
  ok_live k : k ∈ ring s -> is_Some (residents s !! k);
  ok_next k : is_Some (residents s !! k) -> (k < next s)%nat;
  ok_positions k : is_Some (residents s !! k) <-> Occupied k ∈ positions s;
  ok_inj i j k : positions s !! i = Some (Occupied k) -> positions s !! j = Some (Occupied k) -> i = j;
}.

Lemma set_position_at s i k e : ok s -> positions s !! i = Some (Occupied k) ->
  set_position k e (positions s) = <[i:=e]> (positions s).
Proof.
  intros Hok Hi. apply list_eq. intros j. unfold set_position. rewrite list_lookup_fmap.
  destruct (decide (i = j)) as [<-|Hne].
  - rewrite list_lookup_insert_eq by (by eapply lookup_lt_Some). rewrite Hi. simpl. by rewrite decide_True.
  - rewrite list_lookup_insert_ne by done. destruct (positions s !! j) as [x|] eqn:Hj; [|done]. simpl.
    destruct (decide (x = Occupied k)) as [->|]; [|done]. by destruct Hne; eapply ok_inj.
Qed.

Lemma relinked s l : ok s -> NoDup l -> (forall k, k ∈ l -> is_Some (residents s !! k)) -> ok (relink s l).
Proof. intros [] Hl Hlive. by split. Qed.

(** Position [i] held nothing, or [o]; it gets [c], and nothing else changes. *)
Lemma refilled s s' i e : ok s -> positions s !! i = Some e -> (next s <= next s')%nat ->
  NoDup (ring s') ->
  (forall k, k ∈ ring s' -> is_Some (residents s' !! k)) ->
  forall c, positions s' = <[i:=c]> (positions s) ->
  (forall k, is_Some (residents s' !! k) <->
    c = Occupied k \/ (e <> Occupied k /\ is_Some (residents s !! k))) ->
  (forall k, c = Occupied k -> next s <= k < next s')%nat ->
  ok s'.
Proof.
  intros Hok Hi Hn Hl Hlive c Hp Hres Hfresh. assert (Hlen := lookup_lt_Some _ _ _ Hi). split; [done|done| | |].
  - intros k [Hk|[_ Hk]]%Hres; [by apply Hfresh in Hk; lia|]. apply (ok_next s Hok) in Hk. lia.
  - intros k. rewrite Hres, Hp, (ok_positions s Hok). split.
    + intros [->|[Hne [j Hj]%list_elem_of_lookup]]; apply list_elem_of_lookup.
      * exists i. by apply list_lookup_insert_eq.
      * exists j. rewrite list_lookup_insert_ne; [done|]. intros ->. simplify_eq.
    + intros [j Hj]%list_elem_of_lookup. destruct (decide (i = j)) as [<-|Hne].
      * rewrite list_lookup_insert_eq in Hj by done. naive_solver.
      * rewrite list_lookup_insert_ne in Hj by done. right. split.
        -- intros ->. by destruct Hne; eapply (ok_inj s Hok).
        -- apply list_elem_of_lookup. eauto.
  - intros j j' k. rewrite Hp. destruct (decide (i = j)) as [<-|Hj], (decide (i = j')) as [<-|Hj']; [done|..];
      rewrite ?list_lookup_insert_eq, ?list_lookup_insert_ne by done.
    + intros [= ->] Hk. assert (Hlk : is_Some (residents s !! k)).
      { apply (ok_positions s Hok), list_elem_of_lookup. eauto. }
      apply (ok_next s Hok) in Hlk. specialize (Hfresh k eq_refl). lia.
    + intros Hk [= ->]. assert (Hlk : is_Some (residents s !! k)).
      { apply (ok_positions s Hok), list_elem_of_lookup. eauto. }
      apply (ok_next s Hok) in Hlk. specialize (Hfresh k eq_refl). lia.
    + apply (ok_inj s Hok).
Qed.

#[export] Instance cell_set_laws : RoundSetLaws nat R (Table R).
Proof.
  refine {| rs_ok := ok; rs_order := ring; rs_issued s k := (k < next s)%nat |}.
  - apply ok_ring.
  - intros. by apply ok_live.
  - done.
  - done.
  - intros s k ?. by apply ok_next.
  - intros s k ?. by apply ok_positions.
  - intros s i j k ?. by apply ok_inj.
  - intros n Hn. split; [|done]. split; simpl; try set_solver.
    + constructor.
    + intros k [? Hk]. by rewrite lookup_empty in Hk.
    + intros k. rewrite lookup_empty. split; [intros []; done|]. intros Hk%elem_of_replicate. naive_solver.
    + intros i j k [? ?]%lookup_replicate. done.
  - intros s k r Hok [r0 Hr]. split; [|split; [done|]].
    + split; simpl; try apply Hok.
      * intros x Hx. rewrite lookup_insert_is_Some'. right. by apply Hok.
      * intros x [->|Hx]%lookup_insert_is_Some'; apply (ok_next s Hok); eauto.
      * intros x. rewrite lookup_insert_is_Some', <- (ok_positions s Hok). split; [|by right]. intros [->|?]; eauto.
    + split; [|done|done]. intros x. simpl. unfold upd. destruct (decide (x = k)) as [->|];
        by simplify_map_eq.
  - intros s k Hok Hk Hn. split; [|split; [done|by split]]. apply relinked; [done| |].
    + apply NoDup_app. split; [apply Hok|]. split; [set_solver|apply NoDup_singleton].
    + intros x [Hx|Hx]%elem_of_app; [by apply Hok|]. by apply list_elem_of_singleton in Hx as ->.
  - intros s k Hok Hk. split; [|split; [done|by split]]. apply relinked; [done| |].
    + apply without_NoDup, Hok.
    + intros x [_ Hx]%elem_without. by apply Hok.
  - intros s k Hok Hk. split; [|split; [done|by split]]. apply relinked; [done| |].
    + apply NoDup_app. split; [apply without_NoDup, Hok|]. split; [|apply NoDup_singleton].
      intros x [? _]%elem_without. set_solver.
    + intros x [[_ Hx]%elem_without|Hx]%elem_of_app; [by apply Hok|]. apply list_elem_of_singleton in Hx as ->. by apply Hok.
  - intros s k l Hok Hl. simpl in *. rewrite Hl. assert (Hnd := ok_ring s Hok). rewrite Hl in Hnd.
    split; [|split; [done|by split]]. apply relinked; [done| |].
    + apply NoDup_app. apply NoDup_cons in Hnd as [? ?]. split; [done|]. split; [set_solver|apply NoDup_singleton].
    + intros x Hx. apply (ok_live s Hok). rewrite Hl. set_solver.
  - intros s i k Hok Hk Hi. simpl in *. assert (Hs := set_position_at s i k Vacant Hok Hi). split; [|split; [done|]].
    + eapply (refilled s (discard s k) i (Occupied k) Hok Hi); simpl; [done|apply Hok| |exact Hs| |done].
      * intros x Hx. rewrite lookup_delete_ne by set_solver. by apply Hok.
      * intros x. rewrite lookup_delete_is_Some. naive_solver.
    + split; [|done|exact Hs]. intros x. simpl. unfold upd. destruct (decide (x = k)) as [->|]; by simplify_map_eq.
  - intros s i r Hok Hi. simpl in *. split; [|split; [lia|split; [lia|]]].
    + eapply (refilled s (fill s i r).2 i Vacant Hok Hi); simpl; [lia|apply Hok| |done| |].
      * intros x Hx. rewrite lookup_insert_is_Some'. right. by apply Hok.
      * intros x. rewrite lookup_insert_is_Some'. naive_solver.
      * intros x [= <-]. lia.
    + split; [|done|done]. intros x. simpl. unfold upd. destruct (decide (x = next s)) as [->|]; by simplify_map_eq.
  - intros s i k r Hok Hi _. simpl in *. split; [|split; [lia|split; [lia|]]].
    + assert (Hk : is_Some (residents s !! k)) by (apply (ok_positions s Hok), list_elem_of_lookup; eauto).
      assert (Hfresh : next s ∉ ring s). { intros Hx. apply (ok_live s Hok), (ok_next s Hok) in Hx. lia. }
      eapply (refilled s (replace s k r).2 i (Occupied k) Hok Hi); simpl;
        [lia|apply renamed_NoDup; [done|apply Hok]| |by apply set_position_at| |].
      * intros x [[-> _]|[Hne Hx]]%elem_renamed; rewrite lookup_insert_is_Some'; [by left|right].
        rewrite lookup_delete_ne by done. by apply Hok.
      * intros x. rewrite lookup_insert_is_Some', lookup_delete_is_Some. naive_solver.
      * intros x [= <-]. lia.
    + split; [|done|by apply set_position_at]. intros x. simpl. unfold upd.
      destruct (decide (x = next s)) as [->|]; [by simplify_map_eq|].
      destruct (decide (x = k)) as [->|]; by simplify_map_eq.
Qed.
End cells.

(** Retries: a map, its least entry found by a search. *)
Definition least (l : list (nat * Z)) : option (nat * Z) :=
  foldr (fun x m => match m with Some y => if x.2 <=? y.2 then Some x else m | None => Some x end) None l.
Lemma least_entry l : match least l with
                     | Some x => x ∈ l /\ forall y, y ∈ l -> x.2 <= y.2
                     | None => l = []
                     end.
Proof.
  induction l as [|x l IH]; simpl; [done|]. destruct (least l) as [y|].
  - destruct IH as [Hy Hmin]. destruct (Z.leb_spec x.2 y.2).
    + split; [set_solver|]. intros z [->|Hz]%elem_of_cons; [lia|]. specialize (Hmin z Hz). lia.
    + split; [set_solver|]. intros z [->|Hz]%elem_of_cons; [lia|]. by apply Hmin.
  - subst. split; [set_solver|]. intros z ->%list_elem_of_singleton. lia.
Qed.
#[export] Instance map_min : KeyedMin nat (gmap nat Z) := {|
  km_new := ∅;
  km_get h k := h !! k;
  km_first h := least (map_to_list h);
  km_insert h k p := <[k:=p]> h;
  km_remove h k := delete k h;
  km_retire h k := delete k h;
|}.
#[export] Instance map_min_laws : KeyedMinLaws nat (gmap nat Z).
Proof.
  split; simpl.
  - intros k. apply lookup_empty.
  - intros h Hf k. pose proof (least_entry (map_to_list h)) as Hl. rewrite Hf in Hl.
    apply map_to_list_empty_iff in Hl as ->. apply lookup_empty.
  - intros h k p Hf. pose proof (least_entry (map_to_list h)) as Hl. rewrite Hf in Hl.
    destruct Hl as [Hk%elem_of_map_to_list Hmin]. split; [done|].
    intros k' p' Hk'%elem_of_map_to_list. exact (Hmin (k', p') Hk').
  - intros h k p x. unfold upd. destruct (decide (x = k)) as [->|]; by simplify_map_eq.
  - intros h k x. unfold upd. destruct (decide (x = k)) as [->|]; by simplify_map_eq.
  - intros h k x. unfold upd. destruct (decide (x = k)) as [->|]; by simplify_map_eq.
Qed.
#[export] Instance wide_generation : SlotGeneration := {| GEN_MIN := 1; GEN_MAX := 2 ^ 64 - 1 |}.
#[export] Instance wide_generation_laws : SlotGenerationLaws.
Proof. unfold SlotGenerationLaws. simpl. lia. Qed.
End Cells.
