(* ===== verification/Members.v ===== *)
(** * Members of a service pool.

    Model of [src/layer1/manifold/src/service/pool/members]: the endpoints of
    the installed snapshot with their health, the round of members that may be
    dialled, the heap of retries, and the reconciliation with a new snapshot.
    The guards [Occupied], [Unlinked], [Backoff] and [Failure] borrow one entry
    of the table: here they are its key, checked where the guard is made. The
    containers are the classes of [Round]. *)

From S2P Require Import Prelude Depot Time Health Round.

Module Service.
(** [Revision], src/layer1/manifold/src/service/mod.rs:62-62. A [u64]. *)
Definition Revision := Z.
(** [Revision::INITIAL], src/layer1/manifold/src/service/mod.rs:75-75. *)
Definition INITIAL : Revision := 0.
(** [MAX_ENDPOINTS], src/layer1/manifold/src/service/mod.rs:28-28. *)
Definition MAX_ENDPOINTS : nat := 16.
(** [Endpoint], src/layer1/manifold/src/service/mod.rs:40-43. *)
Record Endpoint (I A : Type) := endpoint { e_id : I; e_addr : A }.
Arguments endpoint {I A}.
Arguments e_id {I A}.
Arguments e_addr {I A}.
(** [Snapshot], src/layer1/manifold/src/service/mod.rs:94-97. *)
Record Snapshot (I A : Type) := snapshot { s_revision : Revision; endpoints : list (Endpoint I A) }.
Arguments snapshot {I A}.
Arguments s_revision {I A}.
Arguments endpoints {I A}.
(** [Change], src/layer1/manifold/src/service/mod.rs:138-142. *)
Record Change := change { added : Z; retained : Z; retired : Z }.
(** [Reconcile], src/layer1/manifold/src/service/mod.rs:145-158. *)
Inductive Reconcile :=
  | Stale (current incoming : Revision)
  | Duplicate (first duplicate : nat)
  | Capacity (actual limit : Z).
End Service.

Module Record_.
(** [Demand], src/layer1/manifold/src/service/pool/members/record.rs:68-73. *)
Inductive Demand := Absent | Eligible | Retained | Both.
(** [Demand::new], src/layer1/manifold/src/service/pool/members/record.rs:76-83. *)
Definition demand_new (eligible retained : bool) : Demand :=
  match eligible, retained with
  | false, false => Absent
  | true, false => Eligible
  | false, true => Retained
  | true, true => Both
  end.
(** [Demand::is_retained], src/layer1/manifold/src/service/pool/members/record.rs:85-87. *)
Definition is_retained (self : Demand) : bool :=
  match self with Retained | Both => true | _ => false end.
#[export] Instance demand_dec : EqDecision Demand.
Proof. solve_decision. Defined.

(** [Ready], src/layer1/manifold/src/service/pool/members/record.rs:91-94. *)
Inductive Ready := Healthy | Probe.
(** [Idle], src/layer1/manifold/src/service/pool/members/record.rs:97-101. *)
Inductive Idle := Backoff | Probing | Spent.
#[export] Instance ready_dec : EqDecision Ready.
Proof. solve_decision. Defined.
#[export] Instance idle_dec : EqDecision Idle.
Proof. solve_decision. Defined.

(** [Health], src/layer1/manifold/src/service/pool/members/record.rs:12-21.
    [Idle::Exhausted] is [Spent]; [owners] is a [u32]. *)
Record Health := health {
  generation : Health.Generation; failures : Health.Failures;
  idle : Idle; ready : Ready; demand : option Demand; owners : Z
}.
(** [Exhausted], src/layer1/manifold/src/service/pool/members/record.rs:24-24. *)
Inductive Exhausted := exhausted.

(** [Health::new], src/layer1/manifold/src/service/pool/members/record.rs:27-36. *)
Definition health_new : Health :=
  health Health.INITIAL Health.failures_new Spent Healthy (Some Both) 0.
Definition with_idle (self : Health) (i : Idle) : Health :=
  health (generation self) (failures self) i (ready self) (demand self) (owners self).
Definition with_demand (self : Health) (d : option Demand) : Health :=
  health (generation self) (failures self) (idle self) (ready self) d (owners self).
Definition with_owners (self : Health) (n : Z) : Health :=
  health (generation self) (failures self) (idle self) (ready self) (demand self) n.
Definition with_failures (self : Health) (f : Health.Failures) : Health :=
  health (generation self) f (idle self) (ready self) (demand self) (owners self).

(** [Health::try_ready], src/layer1/manifold/src/service/pool/members/record.rs:48-64. *)
Definition try_ready (self : Health) (r : Ready) : run Exhausted unit * Health :=
  match Health.generation_next (generation self) with
  | Health.Advanced epoch =>
      (Ok tt, health epoch
                (match r with Healthy => Health.failures_new | Probe => failures self end)
                Spent r (demand self) (owners self))
  | Health.Exhausted => (Err exhausted, with_idle self Spent)
  end.

(** [Record], src/layer1/manifold/src/service/pool/members/record.rs:103-107. *)
Record Rec (I A : Type) := record { id : I; addr : A; r_health : Health }.
Arguments record {I A}.
Arguments id {I A}.
Arguments addr {I A}.
Arguments r_health {I A}.
Section rec.
Context {I A : Type}.
(** [Record::new], src/layer1/manifold/src/service/pool/members/record.rs:110-116. *)
Definition record_new (i : I) (a : A) : Rec I A := record i a health_new.
(** [Record::is_desired], src/layer1/manifold/src/service/pool/members/record.rs:118-120. *)
Definition is_desired (self : Rec I A) : bool :=
  match demand (r_health self) with Some _ => true | None => false end.
Definition on_health (f : Health -> Health) (self : Rec I A) : Rec I A :=
  record (id self) (addr self) (f (r_health self)).
Definition with_addr (self : Rec I A) (a : A) : Rec I A := record (id self) a (r_health self).
End rec.
End Record_.

Module Members.
Import Record_.

(** [Target], src/layer1/manifold/src/service/pool/mod.rs:38-41. A member's key
    is the key of its table entry. *)
Record Target (K : Type) := target { member : K; t_health : Health.Generation }.
Arguments target {K}.
Arguments member {K}.
Arguments t_health {K}.
(** [Update], src/layer1/manifold/src/service/pool/members/mod.rs:24-29. *)
Inductive Update := Applied | Ignored | UExhausted | Missing.
(** [Peer], src/layer1/manifold/src/service/pool/members/mod.rs:32-37. *)
Inductive Peer (K R : Type) :=
  PeerReady (t : Target K) (output : R) | PeerMissing | PeerDisabled | PeerExhausted.
Arguments PeerReady {K R}.
Arguments PeerMissing {K R}.
Arguments PeerDisabled {K R}.
Arguments PeerExhausted {K R}.
(** [Selection], src/layer1/manifold/src/service/pool/members/mod.rs:39-44. *)
Inductive Selection (K A : Type) :=
  SelReady (t : Target K) (a : A) | SelIdle | SelBackoff (at_ : Z) | SelExhausted.
Arguments SelReady {K A}.
Arguments SelIdle {K A}.
Arguments SelBackoff {K A}.
Arguments SelExhausted {K A}.
(** [Unready], src/layer1/manifold/src/service/pool/members/backoff.rs:5-8. *)
Inductive Unready := UnProbing | UnExhausted.
(** [Vacant], src/layer1/manifold/src/service/pool/members/entries.rs:8-11. *)
Inductive Vacancy (K : Type) := Free (i : nat) | Reuse (k : K).
Arguments Free {K}.
Arguments Reuse {K}.
(** [Entry], src/layer1/manifold/src/service/pool/members/entries.rs:13-29. *)
Inductive Slot (K I A : Type) :=
  | Keep (k : K) (value : Service.Endpoint I A)
  | New (v : Vacancy K) (value : Service.Endpoint I A).
Arguments Keep {K I A}.
Arguments New {K I A}.

(** [Set], src/layer1/manifold/src/service/pool/members/mod.rs:65-71, with the
    heap of [Queue], src/layer1/manifold/src/service/pool/members/queues.rs. *)
Record Set_ (S H : Type) := mset {
  revision : Service.Revision; records : S; retries : H; desired : Z
}.
Arguments mset {S H}.
Arguments revision {S H}.
Arguments records {S H}.
Arguments retries {S H}.
Arguments desired {S H}.

Section members.
Context {K I A S H : Type} `{EqDecision K} `{EqDecision I} `{RS : !RoundSet K (Rec I A) S}
  `{KM : !KeyedMin K H} `{Average}.
(** [Policy::AUTHORITATIVE] of the pool's synchronization policy. *)
Context (AUTHORITATIVE : bool).
Abbreviation Members := (Set_ S H).
Abbreviation Rec := (Rec I A).
Abbreviation Target := (Target K).

Definition with_records (self : Members) (s : S) : Members :=
  mset (revision self) s (retries self) (desired self).
Definition with_retries (self : Members) (h : H) : Members :=
  mset (revision self) (records self) h (desired self).
Definition put (self : Members) (k : K) (r : Rec) : Members :=
  with_records self (rs_put (records self) k r).
(** The resident of a guard. *)
Definition resident (self : Members) (k : K) : run Empty_set Rec :=
  match rs_get (records self) k with Some r => Ok r | None => Stuck Undefined end.

(** [Set::try_with], src/layer1/manifold/src/service/pool/members/mod.rs:74-89.
    The set it builds when both allocations succeed. *)
Definition members_new (limit : Z) : Members := mset Service.INITIAL (rs_new limit) km_new 0.
(** [Set::contains], src/layer1/manifold/src/service/pool/members/mod.rs:93-95. *)
Definition contains (self : Members) (k : K) : bool :=
  match rs_get (records self) k with Some _ => true | None => false end.
(** [Set::is_empty], src/layer1/manifold/src/service/pool/members/mod.rs:117-119. *)
Definition is_empty (self : Members) : bool := desired self =? 0.

(** [Health::target], src/layer1/manifold/src/service/pool/members/record.rs:37-42. *)
Definition health_target (h : Health) (k : K) : Target := target k (generation h).
(** [Health::matches], src/layer1/manifold/src/service/pool/members/record.rs:44-46. *)
Definition matches (h : Health) (t : Target) : bool := generation h =? t_health t.

(** [Set::is_retained], src/layer1/manifold/src/service/pool/members/mod.rs:97-115. *)
Definition set_is_retained (self : Members) (k : K) (retained : I -> bool) : bool * Members :=
  match rs_get (records self) k with
  | None => (false, self)
  | Some r =>
      if negb (retained (id r)) then (false, self)
      else
        match demand (r_health r) with
        | Some d =>
            let d := match d with Absent => Retained | Eligible => Both | current => current end in
            (true, put self k (on_health (fun h => with_demand h (Some d)) r))
        | None => (true, self)
        end
  end.

(** The residents of the table, in the order of its iteration. *)
Definition occupied (self : Members) : list K :=
  omap (fun e => match e with Occupied k => Some k | _ => None end) (rs_entries (records self)).

(** [Set::is_stale], src/layer1/manifold/src/service/pool/members/mod.rs:125-129. *)
Definition set_is_stale (self : Members) (f : I -> Demand) : bool :=
  existsb (fun k => match rs_get (records self) k with
                    | Some r => is_desired r && negb (bool_decide (demand (r_health r) = Some (f (id r))))
                    | None => false
                    end) (occupied self).

(** [Set::set_demand], src/layer1/manifold/src/service/pool/members/mod.rs:131-144,
    the loop over the entries. *)
Fixpoint demand_loop (ks : list K) (self : Members) (withdrawn : bool) (f : I -> Demand) : bool * Members :=
  match ks with
  | [] => (withdrawn, self)
  | k :: ks =>
      match rs_get (records self) k with
      | Some r =>
          match demand (r_health r) with
          | None => demand_loop ks self withdrawn f
          | Some previous =>
              let next := f (id r) in
              let withdrawn := withdrawn || (is_retained previous && negb (is_retained next)) in
              demand_loop ks (put self k (on_health (fun h => with_demand h (Some next)) r)) withdrawn f
          end
      | None => demand_loop ks self withdrawn f
      end
  end.
(** [Set::set_demand], src/layer1/manifold/src/service/pool/members/mod.rs:131-144. *)
Definition set_demand (self : Members) (f : I -> Demand) : bool * Members :=
  demand_loop (occupied self) self false f.

(** [Backoff::try_new], src/layer1/manifold/src/service/pool/members/backoff.rs:16-24. *)
Definition backoff_try_new (r : Rec) : run Unready unit :=
  match idle (r_health r) with
  | Backoff => Ok tt
  | Probing => Err UnProbing
  | Spent => Err UnExhausted
  end.

(** [Queue::recover], src/layer1/manifold/src/service/pool/members/queues.rs:43-55,
    with [Backoff::release] (backoff.rs). [Occupied::from_live] needs the key in
    the heap. *)
Definition queue_recover (self : Members) (k : K) (r : Rec) : run Empty_set Members :=
  match km_get (retries self) k with
  | None => Stuck Undefined
  | Some _ =>
      Ok (put (with_retries self (km_remove (retries self) k)) k (on_health (fun h => with_idle h Spent) r))
  end.

(** [Queue::remove], src/layer1/manifold/src/service/pool/members/queues.rs:63-74. *)
Definition queue_remove (self : Members) (k : K) : run Empty_set Members :=
  let! r := resident self k in
  if rs_ready (records self) k then Ok (with_records self (rs_remove (records self) k))
  else
    match backoff_try_new r with
    | Ok _ => queue_recover self k r
    | _ => Ok self
    end.

(** [Queue::backoff], src/layer1/manifold/src/service/pool/members/queues.rs:28-41,
    with [Failure::commit] (failure.rs). [Vacant::from_live] needs the key
    outside of the heap. *)
Definition queue_backoff (self : Members) (k : K) (r : Rec) (retry_at : Z) : run Empty_set Members :=
  match km_get (retries self) k with
  | Some _ => Stuck Undefined
  | None =>
      Ok (put (with_retries self (km_insert (retries self) k retry_at)) k
            (on_health (fun h => with_idle h Backoff) r))
  end.

(** [Queue::retry_at], src/layer1/manifold/src/service/pool/members/queues.rs:81-83. *)
Definition retry_at (self : Members) : option Z := snd <$> km_first (retries self).

Definition discard (self : Members) (k : K) : Members :=
  with_records self (rs_discard (records self) k).

(** [Record::try_resume], src/layer1/manifold/src/service/pool/members/record.rs:123-129. *)
Definition try_resume (self : Members) (k : K) (rdy : Ready) : run Empty_set (run Exhausted unit * Members) :=
  let! r := resident self k in
  let '(o, h) := try_ready (r_health r) rdy in
  let self := put self k (on_health (fun _ => h) r) in
  match o with
  | Ok _ => Ok (o, with_records self (rs_insert (records self) k))
  | _ => Ok (o, self)
  end.

(** [Record::cancel], src/layer1/manifold/src/service/pool/members/record.rs:131-145. *)
Definition record_cancel (self : Members) (t : Target) : run Empty_set (Update * Members) :=
  let k := member t in
  let! r := resident self k in
  if negb (matches (r_health r) t) then Ok (Ignored, self)
  else if rs_ready (records self) k then Ok (Ignored, self)
  else
    match idle (r_health r) with
    | Probing =>
        let! (o, self) := try_resume self k Probe in
        Ok (match o with Ok _ => Applied | _ => UExhausted end, self)
    | _ => Ok (Ignored, self)
    end.

(** [Set::settle], src/layer1/manifold/src/service/pool/members/mod.rs:222-237.
    Whether the entry is still the caller's. *)
Definition settle (self : Members) (k : K) : run Empty_set (bool * Members) :=
  if AUTHORITATIVE then Ok (true, self)
  else
    let! r := resident self k in
    let n := owners (r_health r) in
    if n =? 0 then Stuck Panic
    else
      let self := put self k (on_health (fun h => with_owners h (owners h - 1)) r) in
      if is_desired r then Ok (true, self)
      else if n - 1 =? 0 then let! self := queue_remove self k in Ok (false, discard self k)
      else Ok (false, self).

(** [Set::cancel], src/layer1/manifold/src/service/pool/members/mod.rs:211-219. *)
Definition cancel (self : Members) (t : Target) : run Empty_set (Update * Members) :=
  if contains self (member t) then
    let! (o, self) := settle self (member t) in
    if o then record_cancel self t else Ok (Ignored, self)
  else Ok (Missing, self).

(** [Set::cancel_if], src/layer1/manifold/src/service/pool/members/mod.rs:146-161. *)
Definition cancel_if (self : Members) (t : Target) (f : I -> bool)
    : run Empty_set (option Update * Members) :=
  match rs_get (records self) (member t) with
  | None => Ok (Some Missing, self)
  | Some r =>
      if negb (f (id r)) then Ok (None, self)
      else
        let! (o, self) := settle self (member t) in
        if o then let! (u, self) := record_cancel self t in Ok (Some u, self)
        else Ok (Some Ignored, self)
  end.

(** [Set::recover], src/layer1/manifold/src/service/pool/members/mod.rs:163-208. *)
Definition recover (self : Members) (t : Target) (retained : I -> bool)
    : run Empty_set (Peer K I * Members) :=
  let k := member t in
  match rs_get (records self) k with
  | None => Ok (PeerMissing, self)
  | Some r =>
      if negb (retained (id r)) then Ok (PeerDisabled, self)
      else if negb (is_desired r) then Ok (PeerReady t (id r), self)
      else if rs_ready (records self) k then
        if bool_decide (ready (r_health r) <> Healthy) || matches (r_health r) t then
          let '(o, h) := try_ready (r_health r) Healthy in
          let self := put self k (on_health (fun _ => h) r) in
          match o with
          | Ok _ => Ok (PeerReady (health_target h k) (id r), self)
          | _ => Ok (PeerExhausted, with_records self (rs_remove (records self) k))
          end
        else Ok (PeerReady (health_target (r_health r) k) (id r), self)
      else
        let resume self :=
          let! (o, self) := try_resume self k Healthy in
          match o with
          | Ok _ => let! r := resident self k in Ok (PeerReady (health_target (r_health r) k) (id r), self)
          | _ => Ok (PeerExhausted, self)
          end in
        match backoff_try_new r with
        | Ok _ => let! self := queue_recover self k r in resume self
        | Err UnProbing => resume self
        | _ => Ok (PeerExhausted, self)
        end
  end.

(** [Failure::try_new], src/layer1/manifold/src/service/pool/members/failure.rs:16-33.
    [None] when the failure is not admitted. *)
Definition failure_try_new (self : Members) (t : Target) (r : Rec) : option Members :=
  let k := member t in
  if negb (matches (r_health r) t) then None
  else if rs_ready (records self) k then
    if bool_decide (ready (r_health r) = Probe) then None
    else Some (with_records self (rs_remove (records self) k))
  else match idle (r_health r) with Probing => Some self | _ => None end.

(** [Failure::apply], src/layer1/manifold/src/service/pool/members/failure.rs:35-43. *)
Definition failure_apply (self : Members) (k : K) (b : Health.Backoff) (now : Z)
    : run Empty_set (Members * Health.Backoff) :=
  let! r := resident self k in
  let '(at_, f, b) := Health.retry_at b (failures (r_health r)) now in
  let! self := queue_backoff self k (on_health (fun h => with_failures h f) r) at_ in
  Ok (self, b).

(** [Set::fail], src/layer1/manifold/src/service/pool/members/mod.rs:240-257. *)
Definition fail (self : Members) (t : Target) (b : Health.Backoff) (now : Z)
    : run Empty_set (Update * Members * Health.Backoff) :=
  if contains self (member t) then
    let! (o, self) := settle self (member t) in
    if o then
      let! r := resident self (member t) in
      match failure_try_new self t r with
      | None => Ok (Ignored, self, b)
      | Some self => let! (self, b) := failure_apply self (member t) b now in Ok (Applied, self, b)
      end
    else Ok (Ignored, self, b)
  else Ok (Missing, self, b).

(** [Set::try_promote], src/layer1/manifold/src/service/pool/members/mod.rs:259-276.
    [Unlinked::from_live] needs a resident outside of the round. *)
Definition try_promote (self : Members) (now : Z) : run Empty_set (run Exhausted unit * Members) :=
  match km_first (retries self) with
  | None => Ok (Ok tt, self)
  | Some (k, p) =>
      if now <? p then Ok (Ok tt, self)
      else if negb (contains self k) || rs_ready (records self) k then Stuck Undefined
      else try_resume (with_retries self (km_remove (retries self) k)) k Probe
  end.

(** [Set::choose], src/layer1/manifold/src/service/pool/members/mod.rs:278-322,
    the loop that passes members over; what is left of its count. *)
Fixpoint pass_over (left : nat) (self : Members) (eligible : I -> bool) : run Empty_set (nat * Members) :=
  match left with
  | O => Ok (O, self)
  | Datatypes.S left' =>
      match rs_turn (records self) with
      | None => Ok (left, self)
      | Some k =>
          let! r := resident self k in
          if eligible (id r) then Ok (left, self)
          else pass_over left' (with_records self (rs_advance (records self))) eligible
      end
  end.

(** [Set::choose], src/layer1/manifold/src/service/pool/members/mod.rs:278-322,
    taking the turn of [k]. *)
Definition take_turn (self : Members) (k : K) : run Empty_set (Selection K A * Members) :=
  let! r := resident self k in
  let t := health_target (r_health r) k in
  let '(r, self) := match ready (r_health r) with
                    | Healthy => (r, with_records self (rs_advance (records self)))
                    | Probe =>
                        let self := with_records self (rs_remove (records self) k) in
                        let r := on_health (fun h => with_idle h Probing) r in
                        (r, put self k r)
                    end in
  if AUTHORITATIVE then Ok (SelReady t (addr r), self)
  else if owners (r_health r) =? 2 ^ 32 - 1 then Stuck Panic
  else Ok (SelReady t (addr r),
           put self k (on_health (fun h => with_owners h (owners h + 1)) r)).

(** [Set::choose], src/layer1/manifold/src/service/pool/members/mod.rs:278-322. *)
Definition choose (self : Members) (now : Z) (eligible : I -> bool)
    : run Empty_set (Selection K A * Members) :=
  let! (o, self) := try_promote self now in
  match o with
  | Ok _ =>
      let! (rest, self) := pass_over (Z.to_nat (desired self)) self eligible in
      match rest, rs_turn (records self) with
      | Datatypes.S _, Some k => take_turn self k
      | _, _ =>
          Ok (match retry_at self with Some at_ => SelBackoff at_ | None => SelIdle end, self)
      end
  | _ => Ok (SelExhausted, self)
  end.

(** ** Reconciliation with a snapshot *)

(** The endpoint of a snapshot a record may stay for: the first with its
    identity. *)
Fixpoint find_endpoint (i : I) (l : list (Service.Endpoint I A)) : option nat :=
  match l with
  | [] => None
  | e :: l => if decide (i = Service.e_id e) then Some O else Datatypes.S <$> find_endpoint i l
  end.

(** What the pass over the entries has found: the entry kept for each endpoint,
    the spare places, and the count of entries kept. *)
Record Pass := pass { keep : list (option K); spare : list (Vacancy K); kept : nat }.

(** [entries::try_apply], src/layer1/manifold/src/service/pool/members/entries.rs:31-90,
    one entry of the pass. A record that cannot be reused is passed over, and so
    is a place when [N] are found. *)
Definition pass_entry (self : Members) (N : nat) (eps : list (Service.Endpoint I A)) (preserve : bool)
    (i : nat) (e : Entry K) (p : Pass) : Pass :=
  let place v := if (length (spare p) <? N)%nat then pass (keep p) (spare p ++ [v]) (kept p) else p in
  match e with
  | Vacant => place (Free i)
  | Gone => p
  | Occupied k =>
      match rs_get (records self) k with
      | None => p
      | Some r =>
          match (if is_desired r then find_endpoint (id r) eps else None) with
          | Some j =>
              pass (<[j:=Some k]> (keep p)) (spare p)
                (kept p + match keep p !! j with Some (Some _) => 0 | _ => 1 end)
          | None =>
              if preserve && negb (owners (r_health r) =? 0) then p
              else if rs_reusable k then place (Reuse k) else p
          end
      end
  end.
(** [entries::try_apply], src/layer1/manifold/src/service/pool/members/entries.rs:31-90,
    the pass. *)
Fixpoint pass_loop (self : Members) (N : nat) (eps : list (Service.Endpoint I A)) (preserve : bool)
    (i : nat) (es : list (Entry K)) (p : Pass) : Pass :=
  match es with
  | [] => p
  | e :: es => pass_loop self N eps preserve (i + 1) es (pass_entry self N eps preserve i e p)
  end.

(** [entries::try_apply], src/layer1/manifold/src/service/pool/members/entries.rs:31-90,
    the loop that gives every endpoint its entry. [None] when places run out. *)
Fixpoint assign (eps : list (Service.Endpoint I A)) (keep : list (option K)) (spare : list (Vacancy K))
    : option (list (Slot K I A)) :=
  match eps, keep with
  | value :: eps, Some k :: keep => cons (Keep k value) <$> assign eps keep spare
  | value :: eps, None :: keep =>
      match spare with
      | [] => None
      | v :: spare => cons (New v value) <$> assign eps keep spare
      end
  | _, _ => Some []
  end.

(** [Vacant::insert], src/layer1/manifold/src/service/pool/members/entries.rs:111-134. *)
Definition vacant_insert (self : Members) (v : Vacancy K) (r : Rec) : K * Members :=
  match v with
  | Free i =>
      let '(k, s) := rs_fill (records self) i r in
      (k, with_records self (rs_insert s k))
  | Reuse k =>
      let self := with_retries self (km_retire (retries self) k) in
      let '(k, s) := rs_replace (records self) k r in
      (k, with_records self (if rs_ready s k then rs_requeue s k else rs_insert s k))
  end.

(** [Queue::reorder], src/layer1/manifold/src/service/pool/members/queues.rs:57-61. *)
Definition reorder (self : Members) (k : K) : Members :=
  if rs_ready (records self) k then with_records self (rs_requeue (records self) k) else self.

(** [Entry::commit], src/layer1/manifold/src/service/pool/members/entries.rs:93-107. *)
Definition commit (self : Members) (e : Slot K I A) : run Empty_set (K * Members) :=
  match e with
  | Keep k value =>
      let! r := resident self k in
      Ok (k, reorder (put self k (with_addr r (Service.e_addr value))) k)
  | New v value => Ok (vacant_insert self v (record_new (Service.e_id value) (Service.e_addr value)))
  end.

(** [entries::try_apply], src/layer1/manifold/src/service/pool/members/entries.rs:31-90. *)
Fixpoint commit_all (self : Members) (es : list (Slot K I A)) : run Empty_set (list K * Members) :=
  match es with
  | [] => Ok ([], self)
  | e :: es =>
      let! (k, self) := commit self e in
      let! (ks, self) := commit_all self es in
      Ok (k :: ks, self)
  end.

(** An outcome that is no error of its own, in a function with errors. *)
Definition certain {E B} (m : run Empty_set B) : run E B :=
  match m with Ok b => Ok b | Err e => match e with end | Stuck w => Stuck w end.

(** [entries::try_apply], src/layer1/manifold/src/service/pool/members/entries.rs:31-90.
    [N] is the endpoint capacity of the snapshot. *)
Definition entries_try_apply (self : Members) (N : nat) (snap : Service.Snapshot I A) (preserve : bool)
    : run Service.Reconcile (list K * nat * Members) :=
  let eps := Service.endpoints snap in
  let p := pass_loop self N eps preserve 0 (rs_entries (records self)) (pass (replicate N None) [] 0) in
  let limit := Z.of_nat (kept p + length (spare p)) in
  match assign eps (keep p) (spare p) with
  | None => Err (Service.Capacity (Z.of_nat (length eps)) limit)
  | Some es =>
      let! (ks, self) := certain (commit_all self es) in
      Ok (ks, kept p, self)
  end.

(** [Set::prune], src/layer1/manifold/src/service/pool/members/mod.rs:324-338,
    the loop over the entries. *)
Fixpoint prune_loop (ks : list K) (self : Members) (current : list K) : run Empty_set Members :=
  match ks with
  | [] => Ok self
  | k :: ks =>
      let! r := resident self k in
      if is_desired r && negb (bool_decide (k ∈ current)) then
        let! self := queue_remove self k in
        let! r := resident self k in
        let self := if negb AUTHORITATIVE && negb (owners (r_health r) =? 0)
                    then put self k (on_health (fun h => with_demand h None) r)
                    else discard self k in
        prune_loop ks self current
      else prune_loop ks self current
  end.
(** [Set::prune], src/layer1/manifold/src/service/pool/members/mod.rs:324-338. *)
Definition prune (self : Members) (current : list K) : run Empty_set Members :=
  prune_loop (occupied self) self current.

(** [Set::try_apply], src/layer1/manifold/src/service/pool/members/mod.rs:342-380:
    the first endpoint whose identity an earlier one has. *)
Fixpoint find_duplicate (seen : list I) (l : list (Service.Endpoint I A)) : option (nat * nat) :=
  match l with
  | [] => None
  | e :: l =>
      match list_find (fun i => i = Service.e_id e) seen with
      | Some (first, _) => Some (first, length seen)
      | None => find_duplicate (seen ++ [Service.e_id e]) l
      end
  end.

(** [Set::try_apply], src/layer1/manifold/src/service/pool/members/mod.rs:342-380.
    The subtractions of the counts trap in a debug build. *)
Definition try_apply (self : Members) (N : nat) (snap : Service.Snapshot I A)
    : run Service.Reconcile (Service.Change * Members) :=
  let rev := Service.s_revision snap in
  if rev <=? revision self then Err (Service.Stale (revision self) rev)
  else
    match find_duplicate [] (Service.endpoints snap) with
    | Some (first, dup) => Err (Service.Duplicate first dup)
    | None =>
        let actual := Z.of_nat (length (Service.endpoints snap)) in
        let prior := desired self in
        let! (keys, kept, self) := entries_try_apply self N snap (negb AUTHORITATIVE) in
        let! self := certain (prune self keys) in
        let kept := Z.of_nat kept in
        if (actual <? kept) || (prior <? kept) then Stuck Panic
        else
          Ok (Service.change (actual - kept) kept (prior - kept),
              mset rev (records self) (retries self) actual)
    end.
End members.
End Members.
