(* ===== verification/MembersFacts.v ===== *)
(** * What the members of a pool keep.

    The invariant of [Members.Set_] and, for every operation, that it returns,
    keeps the invariant and changes one member only. *)

From S2P Require Import Prelude Depot Time Health Round Members.
Import Record_ Members.

Section facts.
Context {K I A S H : Type} `{EqDecision K} `{EqDecision I} {RS : RoundSet K (Rec I A) S}
  {RSL : RoundSetLaws K (Rec I A) S} {KM : KeyedMin K H} {KML : KeyedMinLaws K H} `{AverageLaws}.
Context (AUTH : bool).
Abbreviation Members := (Set_ S H).
Abbreviation Rec := (Rec I A).
Implicit Types (self : Members) (k : K) (r : Rec) (t : Target K).

Definition get self k : option Rec := rs_get (records self) k.
Definition order self : list K := rs_order (records self).
Definition heap self k : option Z := km_get (retries self) k.
Definition issued self k : Prop := rs_issued (records self) k.

(** ** Steps: what a primitive does to one member *)

(** The table has [n] positions, and none of them is spent while every resident
    may be replaced. *)
Definition roomy (n : nat) self : Prop :=
  length (rs_entries (records self)) = n
  /\ ((forall k, rs_reusable k = true) -> Gone ∉ rs_entries (records self)).

(** From [self] to [self'] only member [k] changes: its record becomes [o], it
    is in the round as [rdy] says, and its retry is [h]. *)
Record step self self' k (o : option Rec) (rdy : bool) (h : option Z) : Prop := {
  s_ok : rs_ok (records self');
  s_get x : get self' x = upd (get self) k o x;
  s_order : without k (order self') = without k (order self);
  s_ready : k ∈ order self' <-> rdy = true;
  s_heap x : heap self' x = upd (heap self) k h x;
  s_same : desired self' = desired self /\ revision self' = revision self;
  s_issued x : issued self' x <-> issued self x;
  s_room n : roomy n self -> roomy n self';
}.
Arguments s_ok {self self' k o rdy h}.
Arguments s_get {self self' k o rdy h}.
Arguments s_order {self self' k o rdy h}.
Arguments s_ready {self self' k o rdy h}.
Arguments s_heap {self self' k o rdy h}.
Arguments s_same {self self' k o rdy h}.
Arguments s_issued {self self' k o rdy h}.
Arguments s_room {self self' k o rdy h}.

Lemma upd_id {X} (f : K -> option X) k x : upd f k (f k) x = f x.
Proof. unfold upd. by destruct (decide (x = k)) as [->|]. Qed.
Lemma upd_again {X} (f g : K -> option X) k o o' x :
  (forall y, g y = upd f k o y) -> upd g k o' x = upd f k o' x.
Proof. intros Hg. unfold upd. destruct (decide (x = k)); [done|]. rewrite Hg. by rewrite upd_ne. Qed.

Lemma step_trans a b c k o rdy h o' rdy' h' :
  step a b k o rdy h -> step b c k o' rdy' h' -> step a c k o' rdy' h'.
Proof.
  intros Hab Hbc. split.
  - apply Hbc.
  - intros x. rewrite (s_get Hbc). eapply upd_again, (s_get Hab).
  - by rewrite (s_order Hbc), (s_order Hab).
  - apply Hbc.
  - intros x. rewrite (s_heap Hbc). eapply upd_again, (s_heap Hab).
  - destruct (s_same Hab), (s_same Hbc). split; congruence.
  - intros x. by rewrite (s_issued Hbc), (s_issued Hab).
  - intros n Hn. by apply (s_room Hbc), (s_room Hab).
Qed.

Lemma ready_order self k : rs_ok (records self) -> rs_ready (records self) k = bool_decide (k ∈ order self).
Proof. apply rs_ready_order. Qed.
Lemma ready_true self k : rs_ok (records self) -> rs_ready (records self) k = true <-> k ∈ order self.
Proof. intros Hok. rewrite ready_order by done. apply bool_decide_eq_true. Qed.

Lemma step_refl self k : rs_ok (records self) ->
  step self self k (get self k) (rs_ready (records self) k) (heap self k).
Proof.
  intros Hok. split; try done.
  - intros x. by rewrite upd_id.
  - by rewrite ready_true.
  - intros x. by rewrite upd_id.
Qed.

(** A step that only moves the table, from what the table's operation does. *)
Lemma step_moves self s k o rdy l es : rs_ok s ->
  (forall x, rs_issued s x <-> issued self x) ->
  moves s (upd (get self) k o) rs_order l es ->
  without k l = without k (order self) -> (k ∈ l <-> rdy = true) ->
  (forall n, roomy n self -> length es = n /\ ((forall k, rs_reusable k = true) -> Gone ∉ es)) ->
  step self (with_records self s) k o rdy (heap self k).
Proof.
  intros Hok Hiss [Hget Hord Hent] Hl Hk Hroom. split; simpl; try done.
  - unfold order. simpl. by rewrite Hord.
  - unfold order. simpl. by rewrite Hord.
  - intros x. by rewrite upd_id.
  - intros n Hn. unfold roomy. simpl. rewrite Hent. by apply Hroom.
Qed.

Lemma moves_upd s k get (o : option Rec) l es :
  get k = o -> moves s get rs_order l es -> moves s (upd get k o) rs_order l es.
Proof. intros <- [Hg Ho He]. split; [|done|done]. intros x. rewrite upd_id. apply Hg. Qed.

Lemma step_put self k r r' : rs_ok (records self) -> get self k = Some r ->
  step self (put self k r') k (Some r') (rs_ready (records self) k) (heap self k).
Proof.
  intros Hok Hg. destruct (rs_puts (records self) k r' Hok) as (Hok' & Hiss & Hmv); [by exists r|].
  eapply step_moves; [done|apply Hiss|exact Hmv|done| |done]. by rewrite ready_true.
Qed.

Lemma without_snoc k l : without k (l ++ [k]) = without k l.
Proof. unfold without. rewrite filter_app, filter_cons, decide_False, filter_nil, app_nil_r by naive_solver. done. Qed.
Lemma without_idemp k l : without k (without k l) = without k l.
Proof. apply without_absent. rewrite elem_without. naive_solver. Qed.

Lemma step_insert self k r : rs_ok (records self) -> get self k = Some r ->
  rs_ready (records self) k = false ->
  step self (with_records self (rs_insert (records self) k)) k (Some r) true (heap self k).
Proof.
  intros Hok Hg Hn. rewrite ready_order, bool_decide_eq_false in Hn by done.
  destruct (rs_inserts (records self) k Hok) as (Hok' & Hiss & Hmv); [by exists r|done|].
  eapply step_moves; [done|apply Hiss|by apply moves_upd; [exact Hg|exact Hmv]|apply without_snoc| |done].
  split; [done|]. intros _. set_solver.
Qed.

Lemma step_remove self k r : rs_ok (records self) -> get self k = Some r ->
  rs_ready (records self) k = true ->
  step self (with_records self (rs_remove (records self) k)) k (Some r) false (heap self k).
Proof.
  intros Hok Hg Hn. rewrite ready_true in Hn by done.
  destruct (rs_removes (records self) k Hok Hn) as (Hok' & Hiss & Hmv).
  eapply step_moves; [done|apply Hiss|by apply moves_upd; [exact Hg|exact Hmv]|apply without_idemp| |done].
  rewrite elem_without. naive_solver.
Qed.

Lemma step_requeue self k r : rs_ok (records self) -> get self k = Some r ->
  rs_ready (records self) k = true ->
  step self (with_records self (rs_requeue (records self) k)) k (Some r) true (heap self k).
Proof.
  intros Hok Hg Hn. rewrite ready_true in Hn by done.
  destruct (rs_requeues (records self) k Hok Hn) as (Hok' & Hiss & Hmv).
  eapply step_moves; [done|apply Hiss|by apply moves_upd; [exact Hg|exact Hmv]| | |done].
  - by rewrite without_snoc, without_idemp.
  - split; [done|]. intros _. set_solver.
Qed.

Lemma step_advance self k r : rs_ok (records self) -> get self k = Some r ->
  rs_turn (records self) = Some k ->
  step self (with_records self (rs_advance (records self))) k (Some r) true (heap self k).
Proof.
  intros Hok Hg Ht. rewrite rs_turn_head in Ht by done.
  destruct (rs_order (records self)) as [|k' l] eqn:Hl; [done|]. injection Ht as ->.
  destruct (rs_advances (records self) k l Hok Hl) as (Hok' & Hiss & Hmv).
  eapply step_moves; [done|apply Hiss|by apply moves_upd; [exact Hg|exact Hmv]| | |done].
  - unfold order. rewrite Hl, without_snoc. unfold without. by rewrite filter_cons, decide_False by naive_solver.
  - split; [done|]. intros _. set_solver.
Qed.

Lemma step_retries self k h o : rs_ok (records self) -> get self k = o ->
  (forall x, km_get h x = upd (heap self) k (km_get h k) x) ->
  step self (with_retries self h) k o (rs_ready (records self) k) (km_get h k).
Proof.
  intros Hok Hg Hh. split; try done.
  - intros x. subst o. by rewrite upd_id.
  - by rewrite <- ready_true.
Qed.
Lemma step_heap_remove self k o : rs_ok (records self) -> get self k = o ->
  step self (with_retries self (km_remove (retries self) k)) k o (rs_ready (records self) k) None.
Proof.
  intros Hok Hg. assert (Hk : km_get (km_remove (retries self) k) k = None)
    by (by rewrite km_get_remove, upd_eq).
  rewrite <- Hk. apply step_retries; [done..|]. intros x. rewrite Hk. apply km_get_remove.
Qed.
Lemma step_heap_insert self k o p : rs_ok (records self) -> get self k = o ->
  step self (with_retries self (km_insert (retries self) k p)) k o (rs_ready (records self) k) (Some p).
Proof.
  intros Hok Hg. assert (Hk : km_get (km_insert (retries self) k p) k = Some p)
    by (by rewrite km_get_insert, upd_eq).
  rewrite <- Hk. apply step_retries; [done..|]. intros x. rewrite Hk. apply km_get_insert.
Qed.

Lemma step_discard self k r : rs_ok (records self) -> get self k = Some r ->
  rs_ready (records self) k = false ->
  step self (discard self k) k None false (heap self k).
Proof.
  intros Hok Hg Hn. rewrite ready_order, bool_decide_eq_false in Hn by done.
  assert (Hocc : Occupied k ∈ rs_entries (records self)) by (apply rs_entries_live; [done|by exists r]).
  apply list_elem_of_lookup in Hocc as [i Hi].
  destruct (rs_discards (records self) i k Hok Hn Hi) as (Hok' & Hiss & Hmv).
  eapply step_moves; [done|apply Hiss|exact Hmv|done| |].
  - split; [|done]. intros. exfalso. by apply Hn.
  - intros n [Hn' Hg']. rewrite length_insert. split; [done|]. intros Hall.
    rewrite Hall. intros [j Hj]%list_elem_of_lookup. destruct (decide (i = j)) as [<-|].
    + rewrite list_lookup_insert_eq in Hj by (by eapply lookup_lt_Some). done.
    + rewrite list_lookup_insert_ne in Hj by done. apply (Hg' Hall). apply list_elem_of_lookup. eauto.
Qed.

(** The state after a step, at the member. *)
Lemma step_here self self' k o rdy h : step self self' k o rdy h ->
  get self' k = o /\ rs_ready (records self') k = rdy /\ heap self' k = h.
Proof.
  intros Hs. rewrite (s_get Hs), (s_heap Hs), !upd_eq. split; [done|]. split; [|done].
  pose proof (s_ready Hs) as Hr. rewrite <- (ready_true self' k (s_ok Hs)) in Hr.
  destruct (rs_ready _ _), rdy; naive_solver.
Qed.
(** The state after a step, elsewhere. *)
Lemma step_there self self' k o rdy h x : rs_ok (records self) -> step self self' k o rdy h -> x <> k ->
  get self' x = get self x /\ rs_ready (records self') x = rs_ready (records self) x
  /\ heap self' x = heap self x.
Proof.
  intros Hok Hs Hx. rewrite (s_get Hs), (s_heap Hs), !upd_ne by done. split; [done|]. split; [|done].
  rewrite !ready_order by (done || apply Hs). apply bool_decide_ext.
  assert (Hw : x ∈ without k (order self') <-> x ∈ without k (order self)) by (by rewrite (s_order Hs)).
  rewrite !elem_without in Hw. naive_solver.
Qed.

(** ** The invariant *)

(** A health value within its types. *)
Definition wf (h : Health) : Prop :=
  0 <= generation h <= Health.LAST /\ 0 <= failures h <= 32 /\ 0 <= owners h < 2 ^ 32.

(** One member: [rdy], it is in the round; [h], its retry. *)
Record member_ok r (rdy : bool) (h : option Z) : Prop := {
  m_wf : wf (r_health r);
  m_ready : rdy = true -> is_desired r = true /\ idle (r_health r) = Spent;
  m_heap : is_Some h <-> idle (r_health r) = Backoff;
  m_backoff : idle (r_health r) = Backoff -> is_desired r = true;
  m_retired : is_desired r = false -> AUTH = false /\ owners (r_health r) <> 0;
  m_owned : AUTH = true -> owners (r_health r) = 0;
}.
Definition desires self k : Prop := exists r, get self k = Some r /\ is_desired r = true.

(** The members, between two operations and inside of one. *)
Record core self : Prop := {
  i_ok : rs_ok (records self);
  i_member k r : get self k = Some r -> member_ok r (rs_ready (records self) k) (heap self k);
  i_heap k : get self k = None -> heap self k = None;
  i_ids k k' r r' : get self k = Some r -> get self k' = Some r' -> id r = id r' ->
    is_desired r = true -> is_desired r' = true -> k = k';
}.
(** [n] members are desired. *)
Definition counted self (n : Z) : Prop :=
  exists l, NoDup l /\ (forall k, k ∈ l <-> desires self k) /\ n = Z.of_nat (length l).
(** The members of a running pool. *)
Record inv self : Prop := {
  i_core :> core self;
  i_desired : counted self (desired self);
}.

Lemma i_retries self k : core self -> is_Some (heap self k) ->
  exists r, get self k = Some r /\ idle (r_health r) = Backoff.
Proof.
  intros Hi Hk. destruct (get self k) as [r|] eqn:Hg.
  - exists r. split; [done|]. by apply (m_heap _ _ _ (i_member _ Hi _ _ Hg)).
  - rewrite (i_heap _ Hi _ Hg) in Hk. by destruct Hk.
Qed.

Lemma desires_step self self' k r r' rdy h x : get self k = Some r -> is_desired r' = is_desired r ->
  step self self' k (Some r') rdy h -> desires self' x <-> desires self x.
Proof.
  intros Hg Hd Hs. unfold desires. rewrite (s_get Hs). unfold upd.
  destruct (decide (x = k)) as [->|]; [|done]. split; intros (r0 & ? & ?); simplify_eq; eexists; naive_solver.
Qed.

(** A step that keeps the identity of a member, and does not make it desired,
    keeps what holds of all of them. *)
Lemma core_step self self' k r r' rdy h : core self -> get self k = Some r ->
  step self self' k (Some r') rdy h -> id r' = id r -> (is_desired r' = true -> is_desired r = true) ->
  member_ok r' rdy h -> core self'.
Proof.
  intros Hi Hg Hs Hid Hd Hm. pose proof (step_here _ _ _ _ _ _ Hs) as (Hk & Hr & Hh).
  assert (Hget : forall x r1, get self' x = Some r1 ->
    exists r0, get self x = Some r0 /\ id r1 = id r0 /\ (is_desired r1 = true -> is_desired r0 = true)).
  { intros x r1 Hx. rewrite (s_get Hs), upd_Some in Hx. destruct Hx as [[-> [= <-]]|[_ ?]]; eauto. }
  split.
  - apply Hs.
  - intros x rx Hx. destruct (decide (x = k)) as [->|Hne].
    + rewrite Hk in Hx. injection Hx as <-. by rewrite Hr, Hh.
    + destruct (step_there _ _ _ _ _ _ x (i_ok _ Hi) Hs Hne) as (E & -> & ->). rewrite E in Hx.
      by apply Hi.
  - intros x Hx. assert (Hne : x <> k) by (intros ->; congruence).
    destruct (step_there _ _ _ _ _ _ x (i_ok _ Hi) Hs Hne) as (E & _ & ->). apply Hi. congruence.
  - intros x y rx ry Hx Hy E Dx Dy. destruct (Hget _ _ Hx) as (rx0 & Gx & Ex & Fx).
    destruct (Hget _ _ Hy) as (ry0 & Gy & Ey & Fy). eapply (i_ids _ Hi); eauto; congruence.
Qed.
Lemma counted_ext self self' n : (forall x, desires self' x <-> desires self x) -> counted self n -> counted self' n.
Proof. intros He (l & Hl & Hin & Hn). exists l. split; [done|]. split; [|done]. intros x. by rewrite Hin, He. Qed.
Lemma inv_step self self' k r r' rdy h : inv self -> get self k = Some r ->
  step self self' k (Some r') rdy h -> id r' = id r -> is_desired r' = is_desired r ->
  member_ok r' rdy h -> inv self'.
Proof.
  intros Hi Hg Hs Hid Hd Hm. split; [eapply core_step; [apply Hi|exact Hg|exact Hs|done|by rewrite Hd|done]|]. destruct (s_same Hs) as [-> _].
  eapply counted_ext; [|apply Hi]. intros x. by eapply desires_step.
Qed.

(** A member goes. *)
Lemma core_gone self self' k rdy : core self -> step self self' k None rdy None -> core self'.
Proof.
  intros Hi Hs. pose proof (step_here _ _ _ _ _ _ Hs) as (Hk & Hr & Hh).
  assert (Hget : forall x r1, get self' x = Some r1 -> x <> k /\ get self x = Some r1).
  { intros x r1 Hx. rewrite (s_get Hs), upd_Some in Hx. naive_solver. }
  split.
  - apply Hs.
  - intros x rx Hx. destruct (Hget _ _ Hx) as [Hne Gx].
    destruct (step_there _ _ _ _ _ _ x (i_ok _ Hi) Hs Hne) as (_ & -> & ->). by apply Hi.
  - intros x Hx. destruct (decide (x = k)) as [->|Hne]; [done|].
    destruct (step_there _ _ _ _ _ _ x (i_ok _ Hi) Hs Hne) as (E & _ & ->). apply Hi. congruence.
  - intros x y rx ry [_ Gx]%Hget [_ Gy]%Hget. by apply (i_ids _ Hi).
Qed.
Lemma inv_gone self self' k r rdy : inv self -> get self k = Some r -> is_desired r = false ->
  step self self' k None rdy None -> inv self'.
Proof.
  intros Hi Hg Hd Hs. split; [by eapply core_gone; [apply Hi|]|]. destruct (s_same Hs) as [-> _].
  eapply counted_ext; [|apply Hi]. intros x. unfold desires. rewrite (s_get Hs). unfold upd.
  destruct (decide (x = k)) as [->|]; [|done]. split; intros (r0 & ? & ?); congruence.
Qed.

(** The claims on a member: how many dials it was chosen for. *)
Definition owed self k : Z := match get self k with Some r => owners (r_health r) | None => 0 end.

Lemma owed_step self self' k o rdy h x : step self self' k o rdy h ->
  owed self' x = if decide (x = k) then match o with Some r => owners (r_health r) | None => 0 end else owed self x.
Proof. intros Hs. unfold owed. rewrite (s_get Hs). unfold upd. by destruct (decide (x = k)). Qed.

(** What an operation on the claim of [k] leaves: the invariant, the room, no
    new key, and on every member as many claims as before, less [n] on [k]. *)
Record settles self self' k (n : Z) : Prop := {
  st_inv : inv self';
  st_owed x : AUTH = false -> owed self' x = owed self x - (if decide (x = k) then n else 0);
  st_issued x : issued self' x <-> issued self x;
  st_room m : roomy m self -> roomy m self';
  st_same : desired self' = desired self /\ revision self' = revision self;
  st_frame x : x <> k -> get self' x = get self x /\ rs_ready (records self') x = rs_ready (records self) x
    /\ heap self' x = heap self x;
  st_order : without k (order self') = without k (order self);
}.
Lemma settles_step self self' k o rdy h n : rs_ok (records self) -> step self self' k o rdy h -> inv self' ->
  (AUTH = false -> match o with Some r => owners (r_health r) | None => 0 end = owed self k - n) ->
  settles self self' k n.
Proof.
  intros Hok Hs Hi Ho. split; [done| | | | | |].
  - intros x Ha. rewrite (owed_step _ _ _ _ _ _ x Hs). destruct (decide (x = k)) as [->|]; [auto|lia].
  - apply Hs.
  - apply Hs.
  - apply Hs.
  - intros x Hx. by eapply step_there.
  - apply Hs.
Qed.
Lemma settles_refl self k : inv self -> settles self self k 0.
Proof.
  intros Hi. split; try done. intros x _. destruct (decide (x = k)); lia.
Qed.
Lemma settles_trans a b c k n m : settles a b k n -> settles b c k m -> settles a c k (n + m).
Proof.
  intros Hab Hbc. split.
  - apply Hbc.
  - intros x Ha. rewrite (st_owed _ _ _ _ Hbc x Ha), (st_owed _ _ _ _ Hab x Ha). destruct (decide (x = k)); lia.
  - intros x. by rewrite (st_issued _ _ _ _ Hbc), (st_issued _ _ _ _ Hab).
  - intros n' Hn. by apply (st_room _ _ _ _ Hbc), (st_room _ _ _ _ Hab).
  - destruct (st_same _ _ _ _ Hab), (st_same _ _ _ _ Hbc). split; congruence.
  - intros x Hx. destruct (st_frame _ _ _ _ Hbc x Hx) as (-> & -> & ->). by apply (st_frame _ _ _ _ Hab).
  - by rewrite (st_order _ _ _ _ Hbc), (st_order _ _ _ _ Hab).
Qed.

(** ** Claims and events *)

Lemma wf_try_ready h rdy : wf h ->
  match try_ready h rdy with
  | (Ok _, h') => generation h < Health.LAST /\ h' = health (generation h + 1)
        (match rdy with Healthy => 0 | Probe => failures h end) Spent rdy (demand h) (owners h) /\ wf h'
  | (Err _, h') => generation h = Health.LAST /\ h' = with_idle h Spent /\ wf h'
  | _ => False
  end.
Proof.
  intros (Hg & Hf & Ho). unfold try_ready, Health.generation_next.
  destruct (Z.eqb_spec (generation h) Health.LAST); [done|].
  split; [lia|]. split; [by destruct rdy|]. split; [simpl; lia|]. simpl. destruct rdy; [|lia].
  unfold Health.failures_new. lia.
Qed.

Lemma resident_get self k r : get self k = Some r -> resident self k = Ok r.
Proof. unfold get, resident. by intros ->. Qed.

(** Resuming an idle member that is neither in the heap nor retired, in a state
    [self] that is one step from a proper one. *)
Lemma try_resume_spec self0 self k r0 r rdy : inv self0 -> get self0 k = Some r0 ->
  step self0 self k (Some r) false None -> id r = id r0 -> is_desired r = is_desired r0 ->
  is_desired r0 = true -> wf (r_health r) -> owners (r_health r) = owners (r_health r0) ->
  exists o self', try_resume self k rdy = Ok (o, self') /\ settles self0 self' k 0
    /\ match o with
       | Ok _ => generation (r_health r) < Health.LAST
           /\ step self0 self' k (Some (on_health (fun h => (try_ready h rdy).2) r)) true None
           /\ order self' = order self ++ [k]
       | Err _ => generation (r_health r) = Health.LAST
           /\ step self0 self' k (Some (on_health (fun h => with_idle h Spent) r)) false None
       | Stuck _ => False
       end.
Proof.
  intros Hi Hg0 Hs0 Hid Hdr Hd Hwf Hown. rewrite Hd in Hdr.
  destruct (step_here _ _ _ _ _ _ Hs0) as (Hg & Hr & Hh).
  destruct (i_member _ Hi _ _ Hg0) as [_ _ _ _ _ Hauth].
  unfold try_resume. rewrite (resident_get _ _ _ Hg). cbn [bind].
  pose proof (wf_try_ready _ rdy Hwf) as Ht. destruct (try_ready (r_health r) rdy) as [o h'] eqn:E.
  set (r' := on_health (fun _ => h') r).
  pose proof (step_put self k r r' (s_ok Hs0) Hg) as Hp. rewrite Hh, Hr in Hp.
  pose proof (step_here _ _ _ _ _ _ Hp) as (Hg' & Hr' & Hh').
  pose proof (step_trans _ _ _ _ _ _ _ _ _ _ Hs0 Hp) as Hp0.
  assert (Hd' : is_desired r' = true /\ owners (r_health r') = owners (r_health r0)
    /\ idle (r_health r') = Spent /\ wf (r_health r')).
  { destruct o as [[]|[]|w]; [..|done]; destruct Ht as (_ & -> & ?); by rewrite <- Hdr, <- Hown. }
  destruct Hd' as (Hd' & Ho' & Hidle & Hwf').
  assert (Hm : forall b, member_ok r' b None).
  { intros b. split; rewrite ?Hd', ?Hidle, ?Ho'; try done. }
  assert (Hdone : forall self' b, step self0 self' k (Some r') b None -> settles self0 self' k 0).
  { intros self' b Hs. eapply settles_step; [apply Hi|exact Hs| |].
    - eapply inv_step; [exact Hi|exact Hg0|exact Hs|exact Hid|by rewrite Hd'|apply Hm].
    - intros _. unfold owed. rewrite Hg0. lia. }
  destruct o as [[]|[]|w]; [..|done]; destruct Ht as (Hgen & Hh'' & _).
  - pose proof (step_insert _ k r' (s_ok Hp) Hg' Hr') as Hins. rewrite Hh' in Hins.
    pose proof (step_trans _ _ _ _ _ _ _ _ _ _ Hp0 Hins) as Hs.
    eexists _, _. split; [done|]. split; [by eapply Hdone|]. split; [done|]. split.
    + assert (E' : r' = on_health (fun h => (try_ready h rdy).2) r) by (unfold r', on_health; by rewrite E).
      by rewrite <- E'.
    + destruct (rs_inserts (records (put self k r')) k (s_ok Hp)) as (_ & _ & Hmv).
      * by exists r'.
      * intros Hin. apply (ready_true (put self k r') k (s_ok Hp)) in Hin. congruence.
      * transitivity (order (put self k r') ++ [k]); [apply Hmv|]. f_equal.
        destruct (rs_puts (records self) k r' (s_ok Hs0)) as (_ & _ & Hmv'); [by exists r|]. apply Hmv'.
  - eexists _, _. split; [done|]. split; [by eapply Hdone|]. split; [done|].
    assert (E' : r' = on_health (fun h => with_idle h Spent) r) by (unfold r', on_health; by rewrite Hh'').
    by rewrite <- E'.
Qed.

(** A member that is retired for good leaves the round or the heap. *)
Lemma queue_remove_spec self k r : core self -> get self k = Some r ->
  exists self' r', queue_remove self k = Ok self' /\ step self self' k (Some r') false None
    /\ owners (r_health r') = owners (r_health r) /\ id r' = id r /\ addr r' = addr r
    /\ is_desired r' = is_desired r /\ idle (r_health r') <> Backoff /\ wf (r_health r').
Proof.
  intros Hi Hg. pose proof (i_member _ Hi _ _ Hg) as Hm. unfold queue_remove.
  rewrite (resident_get _ _ _ Hg). simpl. destruct (rs_ready (records self) k) eqn:Hr.
  - destruct (m_ready _ _ _ Hm eq_refl) as [Hd Hid]. assert (Hh : heap self k = None).
    { destruct (heap self k) eqn:E; [|done]. assert (idle (r_health r) = Backoff) by (apply Hm; eauto). congruence. }
    exists (with_records self (rs_remove (records self) k)), r. split; [done|].
    rewrite <- Hh. split; [by eapply step_remove; [apply Hi|..]|]. rewrite Hid. by repeat split; try apply Hm.
  - unfold backoff_try_new. destruct (idle (r_health r)) eqn:Hidle.
    + unfold queue_recover. destruct (km_get (retries self) k) as [p|] eqn:Hp; [|].
      * pose proof (step_heap_remove self k _ (i_ok _ Hi) Hg) as Q1. rewrite Hr in Q1.
        pose proof (step_here _ _ _ _ _ _ Q1) as (Hg1 & Hr1 & Hh1).
        pose proof (step_put _ k r (on_health (fun h => with_idle h Spent) r) (s_ok Q1) Hg1) as Q2.
        rewrite Hr1, Hh1 in Q2. eexists _, _. split; [done|]. split; [eapply step_trans; [exact Q1|exact Q2]|].
        by repeat split; try apply Hm.
      * assert (is_Some (heap self k)) as [? E] by (by apply Hm). unfold heap in E. congruence.
    + exists self, r. split; [done|]. assert (Hh : heap self k = None).
      { destruct (heap self k) eqn:E; [|done]. assert (idle (r_health r) = Backoff) by (apply Hm; eauto). congruence. }
      rewrite <- Hh, <- Hr, <- Hg. split; [by apply step_refl, Hi|]. rewrite Hidle. by repeat split; try apply Hm.
    + exists self, r. split; [done|]. assert (Hh : heap self k = None).
      { destruct (heap self k) eqn:E; [|done]. assert (idle (r_health r) = Backoff) by (apply Hm; eauto). congruence. }
      rewrite <- Hh, <- Hr, <- Hg. split; [by apply step_refl, Hi|]. rewrite Hidle. by repeat split; try apply Hm.
Qed.

(** Giving a claim back: the entry is still desired, or it is not and goes with
    its last claim. *)
Lemma claim_settle_spec self k r : inv self -> get self k = Some r ->
  (AUTH = false -> owners (r_health r) <> 0) ->
  exists o self', settle AUTH self k = Ok (o, self') /\ settles self self' k 1
    /\ o = is_desired r
    /\ (o = true ->
        let r' := if AUTH then r else on_health (fun h => with_owners h (owners h - 1)) r in
        step self self' k (Some r') (rs_ready (records self) k) (heap self k)
        /\ order self' = order self).
Proof.
  intros Hi Hg Hown. pose proof (i_member _ Hi _ _ Hg) as Hm. unfold settle.
  destruct AUTH eqn:Ha.
  - exists true, self. split; [done|]. split.
    { destruct (settles_refl self k Hi) as []. split; try done. intros x ?. congruence. }
    split; [destruct (is_desired r) eqn:E; [done|]; destruct (m_retired _ _ _ Hm E); congruence|].
    intros _. simpl. split; [|done]. rewrite <- Hg. apply step_refl, Hi.
  - rewrite (resident_get _ _ _ Hg). cbn [bind]. specialize (Hown eq_refl).
    destruct (Z.eqb_spec (owners (r_health r)) 0); [done|]. destruct (m_wf _ _ _ Hm) as (Hw1 & Hw2 & Hw3).
    set (r' := on_health (fun h => with_owners h (owners h - 1)) r).
    pose proof (step_put self k r r' (i_ok _ Hi) Hg) as Hp.
    assert (Hwf : wf (r_health r')) by (repeat split; simpl; lia).
    destruct (is_desired r) eqn:Hd.
    + assert (Hok' : member_ok r' (rs_ready (records self) k) (heap self k)).
      { destruct Hm. split; try done; intros E; [change (is_desired r = false) in E|]; congruence. }
      exists true, (put self k r'). split; [done|]. split; [|split; [done|]].
      * eapply settles_step; [apply Hi|exact Hp|by eapply inv_step|]. intros _. unfold owed. rewrite Hg. simpl. lia.
      * intros _. split; [exact Hp|].
        destruct (rs_puts (records self) k r' (i_ok _ Hi)) as (_ & _ & Hmv'); [by exists r|]. apply Hmv'.
    + pose proof (step_here _ _ _ _ _ _ Hp) as (Hg1 & Hr1 & Hh1).
      destruct (Z.eqb_spec (owners (r_health r) - 1) 0) as [Q1|Q1].
      * assert (Hr : rs_ready (records self) k = false).
        { destruct (rs_ready (records self) k) eqn:E; [|done]. destruct (m_ready _ _ _ Hm eq_refl). congruence. }
        assert (Hid : idle (r_health r) <> Backoff) by (intros E; apply (m_backoff _ _ _ Hm) in E; congruence).
        assert (Hh : heap self k = None).
        { destruct (heap self k) eqn:E; [|done]. exfalso. apply Hid, (m_heap _ _ _ Hm). eauto. }
        rewrite Hr in Hr1. rewrite Hh in Hh1.
        assert (Hq : queue_remove (put self k r') k = Ok (put self k r')).
        { unfold queue_remove. rewrite (resident_get _ _ _ Hg1). cbn [bind]. rewrite Hr1.
          unfold backoff_try_new. simpl. by destruct (idle (r_health r)). }
        rewrite Hq. cbn [bind]. eexists _, _. split; [done|].
        pose proof (step_discard _ k r' (s_ok Hp) Hg1 Hr1) as Hdis. rewrite Hh1 in Hdis.
        pose proof (step_trans _ _ _ _ _ _ _ _ _ _ Hp Hdis) as Hs.
        split; [|by split]. eapply settles_step; [apply Hi|exact Hs|by eapply inv_gone|].
        intros _. unfold owed. rewrite Hg. lia.
      * assert (Hok' : member_ok r' (rs_ready (records self) k) (heap self k)).
        { destruct Hm. split; try done; intros E; (congruence || (split; [done|]; simpl; lia)). }
        eexists _, _. split; [done|]. split; [|by split].
        eapply settles_step; [apply Hi|exact Hp|by eapply inv_step|]. intros _. unfold owed. rewrite Hg. simpl. lia.
Qed.

Lemma heap_free self k r : core self -> get self k = Some r -> idle (r_health r) <> Backoff -> heap self k = None.
Proof.
  intros Hi Hg Hid. destruct (heap self k) eqn:E; [|done]. destruct Hid.
  apply (m_heap _ _ _ (i_member _ Hi _ _ Hg)). eauto.
Qed.

Lemma record_cancel_spec self t r : inv self -> get self (member t) = Some r -> is_desired r = true ->
  exists u self', record_cancel self t = Ok (u, self') /\ settles self self' (member t) 0
    /\ (u = Ignored -> self' = self) /\ (generation (r_health r) <> t_health t -> u = Ignored)
    /\ u <> Missing.
Proof.
  intros Hi Hg Hd. pose proof (i_member _ Hi _ _ Hg) as Hm.
  unfold record_cancel. rewrite (resident_get _ _ _ Hg). cbn [bind].
  assert (Hno : exists u self', Ok (E := Empty_set) (Ignored, self) = Ok (u, self')
    /\ settles self self' (member t) 0 /\ (u = Ignored -> self' = self)
    /\ (generation (r_health r) <> t_health t -> u = Ignored) /\ u <> Missing).
  { exists Ignored, self. split; [done|]. split; [by apply settles_refl|done]. }
  unfold matches. destruct (Z.eqb_spec (generation (r_health r)) (t_health t)) as [Hgen|Hgen]; [|done]. simpl negb.
  destruct (rs_ready (records self) (member t)) eqn:Hr; [done|].
  destruct (idle (r_health r)) eqn:Hidle; [done| |done].
  assert (Hh : heap self (member t) = None) by (eapply heap_free; [apply Hi|eauto|congruence]).
  assert (Hs : step self self (member t) (Some r) false None).
  { rewrite <- Hh, <- Hr, <- Hg. apply step_refl, Hi. }
  destruct (try_resume_spec self self (member t) r r Probe Hi Hg Hs) as (o & self' & -> & Hst & Ho); try done.
  { apply Hm. }
  cbn [bind]. eexists _, _. split; [done|]. split; [done|]. by destruct o.
Qed.

(** Releasing a claim, whatever the caller holds of it. *)
Definition claimed self k : Prop := AUTH = false -> owed self k <> 0.

Lemma claimed_owners self k r : get self k = Some r -> claimed self k ->
  AUTH = false -> owners (r_health r) <> 0.
Proof. unfold claimed, owed. intros ->. auto. Qed.
Lemma unclaimed self k : claimed self k -> get self k = None -> AUTH = true.
Proof. unfold claimed, owed. intros Hc Hg. rewrite Hg in Hc. destruct AUTH; [done|]. by destruct Hc. Qed.
Lemma settles_missing self k n : inv self -> AUTH = true -> settles self self k n.
Proof. intros Hi Ha. destruct (settles_refl self k Hi). split; try done. congruence. Qed.

Lemma contains_get self k : contains self k = match get self k with Some _ => true | None => false end.
Proof. done. Qed.

Lemma cancel_settled self self1 t r : inv self -> get self (member t) = Some r -> is_desired r = true ->
  settles self self1 (member t) 1 ->
  let r' := if AUTH then r else on_health (fun h => with_owners h (owners h - 1)) r in
  step self self1 (member t) (Some r') (rs_ready (records self) (member t)) (heap self (member t)) ->
  exists u self', record_cancel self1 t = Ok (u, self') /\ settles self self' (member t) 1
    /\ (generation (r_health r) <> t_health t -> u = Ignored /\ self' = self1) /\ u <> Missing.
Proof.
  intros Hi Hg Hd Hst r' Hs. destruct (step_here _ _ _ _ _ _ Hs) as (Hg' & _ & _).
  assert (Hr' : is_desired r' = true /\ generation (r_health r') = generation (r_health r))
    by (unfold r'; by destruct AUTH). destruct Hr' as [Hd' Hgen].
  destruct (record_cancel_spec self1 t r' (st_inv _ _ _ _ Hst) Hg' Hd') as (u & self' & E & Hst' & Hu & Hig & Hmiss).
  exists u, self'. split; [done|]. split; [exact (settles_trans _ _ _ _ _ _ Hst Hst')|].
  rewrite Hgen in Hig. naive_solver.
Qed.

Lemma cancel_spec self t : inv self -> claimed self (member t) ->
  exists u self', cancel AUTH self t = Ok (u, self') /\ settles self self' (member t) 1
    /\ (u = Missing <-> get self (member t) = None).
Proof.
  intros Hi Hc. unfold cancel. rewrite contains_get. destruct (get self (member t)) as [r|] eqn:Hg.
  - destruct (claim_settle_spec self (member t) r Hi Hg) as (o & self1 & -> & Hst & -> & Hs); [by eapply claimed_owners|].
    cbn [bind]. destruct (is_desired r) eqn:Hd.
    + destruct (Hs eq_refl) as [Hs' _].
      destruct (cancel_settled self self1 t r) as (u & self' & E & Hst' & _ & Hu); [done..|].
      exists u, self'. split; [done|]. by split.
    + exists Ignored, self1. split; [done|]. by split.
  - exists Missing, self. split; [done|]. split; [|done]. apply settles_missing; [done|by eapply unclaimed].
Qed.

Lemma cancel_if_spec self t f : inv self -> claimed self (member t) ->
  exists u self', cancel_if AUTH self t f = Ok (u, self')
    /\ match u with
       | None => self' = self /\ exists r, get self (member t) = Some r /\ f (id r) = false
       | Some u => settles self self' (member t) 1 /\ (u = Missing <-> get self (member t) = None)
       end.
Proof.
  intros Hi Hc. unfold cancel_if. fold (get self (member t)). destruct (get self (member t)) as [r|] eqn:Hg.
  - destruct (f (id r)) eqn:Hf; simpl negb; [|by exists None, self; naive_solver].
    destruct (claim_settle_spec self (member t) r Hi Hg) as (o & self1 & -> & Hst & -> & Hs); [by eapply claimed_owners|].
    cbn [bind]. destruct (is_desired r) eqn:Hd.
    + destruct (Hs eq_refl) as [Hs' _].
      destruct (cancel_settled self self1 t r) as (u & self' & E & Hst' & _ & Hu); [done..|].
      cbv zeta beta iota. rewrite E. cbn [bind]. exists (Some u), self'. split; [done|]. by split.
    + exists (Some Ignored), self1. split; [done|]. by split.
  - exists (Some Missing), self. split; [done|]. split; [|done]. apply settles_missing; [done|by eapply unclaimed].
Qed.

(** ** Failures *)

Lemma retry_at_failures b f now : 0 <= f <= 32 -> 0 <= (Health.retry_at b f now).1.2 <= 32.
Proof.
  intros Hf. unfold Health.retry_at, Health.advance.
  destruct (Z.leb_spec 32 f); destruct (Health.deadline _ _ _); simpl; lia.
Qed.

(** Whether a failure counts against a member. *)
Definition admits self t r : bool :=
  (generation (r_health r) =? t_health t)
  && (if rs_ready (records self) (member t) then bool_decide (ready (r_health r) <> Probe)
      else bool_decide (idle (r_health r) = Probing)).

Lemma failure_try_new_spec self t r : inv self -> get self (member t) = Some r ->
  match failure_try_new self t r with
  | Some self' => admits self t r = true /\ step self self' (member t) (Some r) false None
      /\ is_desired r = true
  | None => admits self t r = false
  end \/ (is_desired r = false /\ AUTH = false).
Proof.
  intros Hi Hg. pose proof (i_member _ Hi _ _ Hg) as Hm.
  destruct (is_desired r) eqn:Hd; [left|right; split; [done|]; by destruct (m_retired _ _ _ Hm Hd)].
  unfold failure_try_new, admits, matches. destruct (generation (r_health r) =? t_health t); simpl; [|done].
  destruct (rs_ready (records self) (member t)) eqn:Hr.
  - destruct (m_ready _ _ _ Hm eq_refl) as [_ Hidle]. destruct (ready (r_health r)); simpl; [|done].
    split; [done|]. split; [|done]. rewrite <- (heap_free self (member t) r (i_core _ Hi) Hg) by congruence.
    by apply step_remove; [apply Hi|..].
  - destruct (idle (r_health r)) eqn:Hidle; simpl; [done| |done]. split; [done|]. split; [|done].
    assert (Hh : heap self (member t) = None) by (eapply heap_free; [apply Hi|eauto|congruence]).
    rewrite <- Hh, <- Hr, <- Hg. apply step_refl, Hi.
Qed.

(** A member after one more failure, to be tried again at [at_]. *)
Definition failed_record r (f : Z) : Rec := on_health (fun h => with_idle (with_failures h f) Backoff) r.

Lemma failure_apply_spec self0 self k r b now : inv self0 -> get self0 k = Some r -> is_desired r = true ->
  step self0 self k (Some r) false None ->
  exists self' b', failure_apply self k b now = Ok (self', b') /\ settles self0 self' k 0
    /\ (exists at_ f, Health.retry_at b (failures (r_health r)) now = (at_, f, b')
        /\ step self0 self' k (Some (failed_record r f)) false (Some at_)).
Proof.
  intros Hi Hg0 Hd Hs0. destruct (step_here _ _ _ _ _ _ Hs0) as (Hg & Hr & Hh).
  pose proof (i_member _ Hi _ _ Hg0) as Hm. unfold failure_apply. rewrite (resident_get _ _ _ Hg). cbn [bind].
  destruct (m_wf _ _ _ Hm) as (Hw1 & Hw2 & Hw3). pose proof (retry_at_failures b _ now Hw2) as Hf.
  destruct (Health.retry_at b (failures (r_health r)) now) as [[at_ f] b'] eqn:E. simpl in Hf.
  unfold queue_backoff. fold (heap self k). rewrite Hh. cbn [bind].
  pose proof (step_heap_insert self k _ at_ (s_ok Hs0) Hg) as Hs1. rewrite Hr in Hs1.
  destruct (step_here _ _ _ _ _ _ Hs1) as (Hg1 & Hr1 & Hh1).
  pose proof (step_put _ k r (failed_record r f) (s_ok Hs1) Hg1) as Hs2. rewrite Hr1, Hh1 in Hs2.
  pose proof (step_trans _ _ _ _ _ _ _ _ _ _ Hs0 (step_trans _ _ _ _ _ _ _ _ _ _ Hs1 Hs2)) as Hs.
  eexists _, _. split; [done|]. split; [|exists at_, f; by split].
  eapply settles_step; [apply Hi|exact Hs| |intros _; unfold owed; rewrite Hg0; simpl; lia].
  eapply inv_step; [exact Hi|exact Hg0|exact Hs|done..|].
  split; simpl; try done; [intros E'; change (is_desired r = false) in E'; congruence|apply (m_owned _ _ _ Hm)].
Qed.

Lemma fail_spec self t b now : inv self -> claimed self (member t) ->
  exists u self' b', fail AUTH self t b now = Ok (u, self', b') /\ settles self self' (member t) 1
    /\ (u = Missing <-> get self (member t) = None)
    /\ (forall r, get self (member t) = Some r ->
        let owned := if AUTH then r else on_health (fun h => with_owners h (owners h - 1)) r in
        if is_desired r && admits self t r then
          u = Applied /\ exists at_ f, Health.retry_at b (failures (r_health r)) now = (at_, f, b')
            /\ step self self' (member t) (Some (failed_record owned f)) false (Some at_)
        else u = Ignored /\ b' = b
          /\ (is_desired r = true ->
              step self self' (member t) (Some owned) (rs_ready (records self) (member t)) (heap self (member t)))).
Proof.
  intros Hi Hc. unfold fail. rewrite contains_get. destruct (get self (member t)) as [r|] eqn:Hg.
  - destruct (claim_settle_spec self (member t) r Hi Hg) as (o & self1 & -> & Hst & -> & Hs); [by eapply claimed_owners|].
    cbn [bind]. destruct (is_desired r) eqn:Hd.
    + destruct (Hs eq_refl) as [Hs' _]. cbv zeta in Hs'.
      set (r1 := if AUTH then r else on_health (fun h => with_owners h (owners h - 1)) r) in *.
      destruct (step_here _ _ _ _ _ _ Hs') as (Hg1 & Hr1 & Hh1).
      assert (Hr1' : is_desired r1 = true /\ generation (r_health r1) = generation (r_health r)
        /\ ready (r_health r1) = ready (r_health r) /\ idle (r_health r1) = idle (r_health r)
        /\ failures (r_health r1) = failures (r_health r)) by (unfold r1; by destruct AUTH).
      destruct Hr1' as (Hd1 & Hgen & Hrdy & Hidl & Hfl).
      assert (Hadm : admits self1 t r1 = admits self t r) by (unfold admits; by rewrite Hgen, Hrdy, Hidl, Hr1).
      rewrite (resident_get _ _ _ Hg1). cbn [bind].
      destruct (failure_try_new_spec self1 t r1 (st_inv _ _ _ _ Hst) Hg1) as [Hf|[? _]]; [|congruence].
      destruct (failure_try_new self1 t r1) as [self2|].
      * destruct Hf as (Ha & Hs2 & _).
        destruct (failure_apply_spec self1 self2 (member t) r1 b now) as (self' & b' & -> & Hst' & Hx);
          [apply Hst|done..|].
        cbn [bind]. exists Applied, self', b'. split; [done|].
        split; [exact (settles_trans _ _ _ _ _ _ Hst Hst')|]. split; [done|].
        intros ? [= <-]. rewrite Hd. rewrite <- Hadm, Ha. simpl. split; [done|].
        destruct Hx as (at_ & f & Hx & Hs3). exists at_, f. rewrite <- Hfl. split; [done|].
        eapply step_trans; [exact Hs'|exact Hs3].
      * exists Ignored, self1, b. split; [done|]. split; [done|]. split; [done|].
        intros ? [= <-]. rewrite Hd, <- Hadm, Hf. simpl. by split.
    + exists Ignored, self1, b. split; [done|]. split; [done|]. split; [done|].
      intros ? [= <-]. rewrite Hd. simpl. by split.
  - exists Missing, self, b. split; [done|]. split; [|done]. apply settles_missing; [done|by eapply unclaimed].
Qed.

(** ** Connections *)

(** A desired member that is back in the round, proved healthy, or that has
    used up its generations. *)
Definition back_in self' k r (p : Peer K I) : Prop :=
  match p with
  | PeerReady t' i => member t' = k /\ i = id r
      /\ exists r', get self' k = Some r' /\ t_health t' = generation (r_health r')
      /\ rs_ready (records self') k = true /\ ready (r_health r') = Healthy
  | PeerExhausted => exists r', get self' k = Some r' /\ is_desired r' = true
      /\ rs_ready (records self') k = false /\ heap self' k = None
  | _ => False
  end.

Lemma try_ready_fields h rdy : wf h ->
  demand (try_ready h rdy).2 = demand h /\ owners (try_ready h rdy).2 = owners h
  /\ idle (try_ready h rdy).2 = Spent /\ wf (try_ready h rdy).2
  /\ match (try_ready h rdy).1 with Ok _ => ready (try_ready h rdy).2 = rdy | Err _ => True | Stuck _ => False end.
Proof.
  intros Hwf. pose proof (wf_try_ready h rdy Hwf) as Ht.
  destruct (try_ready h rdy) as [[[]|[]|w] h']; [..|done]; by destruct Ht as (_ & -> & ?).
Qed.

Lemma recover_ready self k r : inv self -> get self k = Some r -> is_desired r = true ->
  rs_ready (records self) k = true ->
  let '(o, h) := try_ready (r_health r) Healthy in
  let self1 := put self k (on_health (fun _ => h) r) in
  match o with
  | Ok _ => settles self self1 k 0 /\ back_in self1 k r (PeerReady (health_target h k) (id r))
  | Err _ => let self2 := with_records self1 (rs_remove (records self1) k) in
      settles self self2 k 0 /\ back_in self2 k r PeerExhausted
  | Stuck _ => False
  end.
Proof.
  intros Hi Hg Hd Hr. pose proof (i_member _ Hi _ _ Hg) as Hm.
  assert (Hidle := proj2 (m_ready _ _ _ Hm Hr)).
  assert (Hh : heap self k = None) by (eapply heap_free; [apply Hi|eauto|congruence]).
  destruct (try_ready_fields _ Healthy (m_wf _ _ _ Hm)) as (Ed & Eo & Ei & Ew & Er).
  destruct (try_ready (r_health r) Healthy) as [o h']. simpl in *. set (r' := on_health (fun _ => h') r).
  assert (Hd' : is_desired r' = is_desired r) by (unfold is_desired; simpl; by rewrite Ed).
  pose proof (step_put self k r r' (i_ok _ Hi) Hg) as Hp. rewrite Hh, Hr in Hp.
  destruct (step_here _ _ _ _ _ _ Hp) as (Hg' & Hr' & Hh').
  assert (Hdone : forall self' b, step self self' k (Some r') b None -> settles self self' k 0).
  { intros self' b Hs. eapply settles_step; [apply Hi|exact Hs| |intros _; unfold owed; rewrite Hg; simpl; lia].
    eapply inv_step; [exact Hi|exact Hg|exact Hs|done|done|].
    split; rewrite ?Hd'; simpl; rewrite ?Ei, ?Eo; try done; [congruence|apply Hm]. }
  destruct o as [[]|[]|w]; [..|done].
  - split; [by eapply Hdone|]. split; [done|]. split; [done|]. exists r'. by repeat split.
  - pose proof (step_remove _ k r' (s_ok Hp) Hg' Hr') as Hrem. rewrite Hh' in Hrem.
    pose proof (step_trans _ _ _ _ _ _ _ _ _ _ Hp Hrem) as Hs.
    destruct (step_here _ _ _ _ _ _ Hs) as (Hg2 & Hr2 & Hh2).
    split; [by eapply Hdone|]. exists r'. split; [done|]. split; [congruence|done].
Qed.

Lemma recover_resume self self1 k r r1 : inv self -> get self k = Some r -> is_desired r = true ->
  step self self1 k (Some r1) false None -> id r1 = id r -> is_desired r1 = is_desired r ->
  wf (r_health r1) -> owners (r_health r1) = owners (r_health r) ->
  exists p self', (let! (o, self) := try_resume self1 k Healthy in
    match o with
    | Ok _ => let! r := resident self k in Ok (PeerReady (health_target (r_health r) k) (id r), self)
    | _ => Ok (PeerExhausted, self)
    end) = Ok (p, self') /\ settles self self' k 0 /\ back_in self' k r p.
Proof.
  intros Hi Hg Hd Hs1 Hid1 Hd1 Hwf1 Ho1.
  destruct (try_resume_spec self self1 k r r1 Healthy Hi Hg Hs1) as (o & self' & -> & Hst & Ho); [done..|].
  cbn [bind]. destruct o as [[]|[]|w]; [..|done].
  - destruct Ho as (Hgen & Hs & _). destruct (step_here _ _ _ _ _ _ Hs) as (Hg2 & Hr2 & Hh2).
    rewrite (resident_get _ _ _ Hg2). cbn [bind]. eexists _, _. split; [done|]. split; [done|].
    split; [done|]. split; [done|]. eexists. split; [done|]. split; [done|]. split; [done|]. simpl.
    pose proof (wf_try_ready _ Healthy Hwf1) as Ht.
    destruct (try_ready (r_health r1) Healthy) as [[[]|[]|w] h']; [by destruct Ht as (_ & -> & _)| |done].
    destruct Ht. lia.
  - destruct Ho as (Hgen & Hs). destruct (step_here _ _ _ _ _ _ Hs) as (Hg2 & Hr2 & Hh2).
    eexists _, _. split; [done|]. split; [done|]. eexists. split; [done|]. split; [|done]. by rewrite <- Hd, <- Hd1.
Qed.

Lemma recover_idle self k r : inv self -> get self k = Some r -> is_desired r = true ->
  rs_ready (records self) k = false ->
  let resume self :=
    let! (o, self) := try_resume self k Healthy in
    match o with
    | Ok _ => let! r := resident self k in Ok (PeerReady (health_target (r_health r) k) (id r), self)
    | _ => Ok (PeerExhausted, self)
    end in
  exists p self', match backoff_try_new r with
    | Ok _ => let! self := queue_recover self k r in resume self
    | Err UnProbing => resume self
    | _ => Ok (PeerExhausted, self)
    end = Ok (p, self') /\ settles self self' k 0 /\ back_in self' k r p.
Proof.
  intros Hi Hg Hd Hr resume. pose proof (i_member _ Hi _ _ Hg) as Hm.
  unfold backoff_try_new. destruct (idle (r_health r)) eqn:Hidle.
  - assert (Hsome : is_Some (heap self k)) by (by apply (m_heap _ _ _ Hm)).
    unfold queue_recover. fold (heap self k). destruct Hsome as [p ->]. cbn [bind].
    pose proof (step_heap_remove self k _ (i_ok _ Hi) Hg) as Hs1. rewrite Hr in Hs1.
    destruct (step_here _ _ _ _ _ _ Hs1) as (Hg1 & Hr1 & Hh1).
    pose proof (step_put _ k r (on_health (fun h => with_idle h Spent) r) (s_ok Hs1) Hg1) as Hs2.
    rewrite Hr1, Hh1 in Hs2.
    eapply recover_resume; [exact Hi|exact Hg|done|eapply step_trans; [exact Hs1|exact Hs2]|done..|by apply Hm|done].
  - assert (Hh : heap self k = None) by (eapply heap_free; [apply Hi|eauto|congruence]).
    eapply recover_resume; [exact Hi|exact Hg|done| |done|done|by apply Hm|done].
    rewrite <- Hh, <- Hr, <- Hg. apply step_refl, Hi.
  - exists PeerExhausted, self. split; [done|]. split; [by apply settles_refl|]. exists r.
    split; [done|]. split; [done|]. split; [done|]. eapply heap_free; [apply Hi|eauto|congruence].
Qed.

(** What [recover] says of the member of [t], and leaves of it. *)
Definition peer_post self self' t (f : I -> bool) (p : Peer K I) : Prop :=
  match get self (member t) with
  | None => p = PeerMissing
  | Some r =>
      if negb (f (id r)) then p = PeerDisabled
      else if is_desired r then back_in self' (member t) r p
      else p = PeerReady t (id r)
  end.

Lemma recover_spec self t f : inv self ->
  exists p self', recover self t f = Ok (p, self') /\ settles self self' (member t) 0
    /\ peer_post self self' t f p.
Proof.
  intros Hi. unfold recover, peer_post. fold (get self (member t)). set (k := member t).
  assert (Hno : settles self self k 0) by (by apply settles_refl).
  destruct (get self k) as [r|] eqn:Hg; [|by exists PeerMissing, self].
  destruct (f (id r)) eqn:Hf; simpl negb; cbv iota; [|by exists PeerDisabled, self].
  destruct (is_desired r) eqn:Hd; simpl negb; cbv iota; [|by exists (PeerReady t (id r)), self].
  destruct (rs_ready (records self) k) eqn:Hr; [|by apply recover_idle].
  destruct (_ || _) eqn:Hc.
  - pose proof (recover_ready self k r Hi Hg Hd Hr) as Hrec.
    destruct (try_ready (r_health r) Healthy) as [[[]|[]|w] h]; [..|done]; eexists _, _; by split.
  - eexists _, _. split; [done|]. split; [done|]. split; [done|]. split; [done|]. exists r.
    apply orb_false_iff in Hc as [Hc _]. apply bool_decide_eq_false in Hc.
    split; [done|]. split; [done|]. split; [done|]. destruct (ready (r_health r)); [done|]. by destruct Hc.
Qed.

(** ** Choosing *)

(** [settles] for an operation that reaches more than one member: [d] tells the
    claims it gives back. *)
Record claims self self' (d : K -> Z) : Prop := {
  c_inv : inv self';
  c_owed x : AUTH = false -> owed self' x = owed self x - d x;
  c_issued x : issued self x -> issued self' x;
  c_room m : roomy m self -> roomy m self';
}.
Lemma settles_claims self self' k n : settles self self' k n ->
  claims self self' (fun x => if decide (x = k) then n else 0).
Proof. intros []. split; try done. intros x. naive_solver. Qed.
Lemma claims_trans a b c d e : claims a b d -> claims b c e -> claims a c (fun x => d x + e x).
Proof.
  intros [? Ho ? ?] [? Ho' ? ?]. split; try done; [|naive_solver..].
  intros x Ha. rewrite Ho', Ho by done. lia.
Qed.
Lemma claims_ext a b d e : claims a b d -> (forall x, d x = e x) -> claims a b e.
Proof. intros [? Ho ? ?] He. split; try done. intros x Ha. rewrite <- He. by apply Ho. Qed.
Lemma claims_refl self : inv self -> claims self self (fun _ => 0).
Proof. intros Hi. split; try done. intros. lia. Qed.
Lemma claims_settle_0 self self' k : settles self self' k 0 -> claims self self' (fun _ => 0).
Proof. intros Hs. eapply claims_ext; [by apply settles_claims|]. intros x. simpl. by destruct (decide _). Qed.

Lemma try_promote_spec self now : inv self ->
  exists o self', try_promote self now = Ok (o, self') /\ claims self self' (fun _ => 0)
    /\ ((o = Ok tt /\ self' = self /\ forall k p, heap self k = Some p -> now < p)
        \/ exists k p r, heap self k = Some p /\ p <= now /\ get self k = Some r /\ is_desired r = true
            /\ (forall k' p', heap self k' = Some p' -> p <= p')
            /\ match o with
               | Ok _ => step self self' k (Some (on_health (fun h => (try_ready h Probe).2) r)) true None
                   /\ order self' = order self ++ [k] /\ generation (r_health r) < Health.LAST
               | Err _ => generation (r_health r) = Health.LAST
               | Stuck _ => False
               end).
Proof.
  intros Hi. unfold try_promote. destruct (km_first (retries self)) as [[k p]|] eqn:Hf.
  2: { exists (Ok tt), self. split; [done|]. split; [by apply claims_refl|]. left. split; [done|]. split; [done|].
       intros k p Hk. unfold heap in Hk. by rewrite (km_first_None _ Hf k) in Hk. }
  destruct (km_first_Some _ _ _ Hf) as [Hk Hmin]. fold (heap self k) in Hk.
  destruct (Z.ltb_spec now p) as [Hlt|Hle].
  { exists (Ok tt), self. split; [done|]. split; [by apply claims_refl|]. left. split; [done|]. split; [done|].
    intros k' p' Hk'. apply Hmin in Hk'. lia. }
  destruct (i_retries self k Hi) as (r & Hg & Hidle); [eauto|]. pose proof (i_member _ Hi _ _ Hg) as Hm.
  assert (Hr : rs_ready (records self) k = false).
  { destruct (rs_ready (records self) k) eqn:E; [|done]. destruct (m_ready _ _ _ Hm eq_refl). congruence. }
  assert (Hd := m_backoff _ _ _ Hm Hidle). rewrite contains_get, Hg, Hr. simpl.
  pose proof (step_heap_remove self k _ (i_ok _ Hi) Hg) as Hs1. rewrite Hr in Hs1.
  destruct (try_resume_spec self _ k r r Probe Hi Hg Hs1) as (o & self' & -> & Hst & Ho); try done.
  { apply Hm. }
  exists o, self'. split; [done|]. split; [by eapply claims_settle_0|]. right. exists k, p, r.
  do 5 (split; [done|]). destruct o as [[]|[]|w]; [..|done].
  - by destruct Ho as (? & ? & ?).
  - by destruct Ho.
Qed.

(** Only the round turns. *)
Definition turned self self' : Prop :=
  (forall x, get self' x = get self x) /\ (forall x, heap self' x = heap self x) /\ order self' ≡ₚ order self.

Definition wanted self (e : I -> bool) k : bool :=
  match get self k with Some r => e (id r) | None => false end.
(** The round from the first member that [e] accepts on. *)
Definition from_first self (e : I -> bool) : option (list K) :=
  '(i, _) ← list_find (fun k => wanted self e k = true) (order self);
  Some (drop i (order self) ++ take i (order self)).

Lemma advance_spec self k l : inv self -> order self = k :: l ->
  let self' := with_records self (rs_advance (records self)) in
  claims self self' (fun _ => 0) /\ turned self self' /\ order self' = l ++ [k].
Proof.
  intros Hi Hl self'. assert (Hlive : is_Some (get self k)).
  { apply rs_order_live; [apply Hi|]. change (k ∈ order self). rewrite Hl. set_solver. }
  destruct Hlive as [r Hg].
  assert (Hturn : rs_turn (records self) = Some k).
  { rewrite rs_turn_head by apply Hi. change (head (order self) = Some k). by rewrite Hl. }
  pose proof (step_advance self k r (i_ok _ Hi) Hg Hturn) as Hs.
  assert (Hr : rs_ready (records self) k = true) by (apply ready_true; [apply Hi|]; rewrite Hl; set_solver).
  destruct (rs_advances (records self) k l (i_ok _ Hi) Hl) as (_ & _ & Hmv).
  assert (Hord : order self' = l ++ [k]) by apply Hmv.
  split; [|split; [|done]].
  - eapply claims_settle_0, settles_step; [apply Hi|exact Hs| |intros _; unfold owed; rewrite Hg; lia].
    eapply inv_step; [done..|]. rewrite <- Hr. by apply Hi.
  - split; [apply Hmv|]. split; [done|]. rewrite Hord, Hl. by rewrite (Permutation_app_comm l [k]).
Qed.

Lemma turned_wanted self self' e k : turned self self' -> wanted self' e k = wanted self e k.
Proof. intros (Hg & _). unfold wanted. by rewrite Hg. Qed.
Lemma turned_trans a b c : turned a b -> turned b c -> turned a c.
Proof.
  intros (H1g & H1h & H1o) (H2g & H2h & H2o). split; [|split].
  - intros x. by rewrite H2g.
  - intros x. by rewrite H2h.
  - by rewrite H2o.
Qed.

(** The outcome of passing members over, when those of [todo] are yet to be
    asked and those of [done_] were refused. *)
Definition passed self (e : I -> bool) (todo done_ : list K) (m : run Empty_set (nat * Members)) : Prop :=
  exists rest self', m = Ok (rest, self') /\ claims self self' (fun _ => 0) /\ turned self self'
    /\ match list_find (fun k => wanted self e k = true) todo with
       | Some (i, _) => rest <> O /\ order self' = drop i todo ++ done_ ++ take i todo
       | None => rest = O \/ order self' = []
       end.

Lemma pass_advance n self e k l todo done_ : inv self -> order self = k :: l -> wanted self e k = false ->
  (forall self', claims self self' (fun _ => 0) -> turned self self' -> order self' = l ++ [k] ->
    passed self' e todo done_ (pass_over n self' e)) ->
  passed self e todo done_ (pass_over (Datatypes.S n) self e).
Proof.
  intros Hi Hkl Hw Hrest. destruct (advance_spec self k l Hi Hkl) as (Hc & Ht & Ho).
  destruct (Hrest _ Hc Ht Ho) as (rest & self' & E & Hc' & Ht' & Hm).
  assert (Hlive : is_Some (get self k)).
  { apply rs_order_live; [apply Hi|]. change (k ∈ order self). rewrite Hkl. set_solver. }
  destruct Hlive as [r Hg]. unfold wanted in Hw. rewrite Hg in Hw.
  exists rest, self'. split.
  - cbn [pass_over]. rewrite rs_turn_head by apply Hi. change (rs_order (records self)) with (order self).
    rewrite Hkl. cbn [head]. rewrite (resident_get _ _ _ Hg). cbn [bind]. by rewrite Hw.
  - split; [by eapply claims_ext; [eapply claims_trans; eauto|]|]. split; [by eapply turned_trans|].
    rewrite (list_find_ext _ (fun k => wanted self e k = true)) in Hm; [done|].
    intros x. by rewrite (turned_wanted _ _ _ _ Ht).
Qed.

Lemma pass_stop n self e todo done_ : inv self -> order self = todo ++ done_ ->
  (match todo with [] => done_ = [] \/ n = O | k :: _ => wanted self e k = true /\ n <> O end) ->
  passed self e todo done_ (pass_over n self e).
Proof.
  intros Hi Hl Hk. exists n, self.
  assert (Hsame : claims self self (fun _ => 0) /\ turned self self) by (split; [by apply claims_refl|by split]).
  destruct todo as [|k todo]; simpl in *.
  - split; [|destruct Hsame; naive_solver]. destruct n as [|n]; [done|]. simpl.
    destruct Hk as [->|]; [|done]. rewrite rs_turn_head by apply Hi.
    change (rs_order (records self)) with (order self). by rewrite Hl.
  - destruct Hk as [Hw Hn]. split; [|destruct Hsame; do 2 (split; [done|])].
    + destruct n as [|n]; [done|]. cbn [pass_over]. rewrite rs_turn_head by apply Hi.
      change (rs_order (records self)) with (order self). rewrite Hl. cbn [app head].
      unfold wanted in Hw. destruct (get self k) as [r|] eqn:Hg; [|done].
      rewrite (resident_get _ _ _ Hg). cbn [bind]. by rewrite Hw.
    + rewrite decide_True by done. split; [done|]. by rewrite Hl, app_nil_r.
Qed.

Lemma pass_over_gen e n : forall todo done_ self, inv self -> order self = todo ++ done_ ->
  (forall k, k ∈ done_ -> wanted self e k = false) -> (length todo <= n)%nat ->
  passed self e todo done_ (pass_over n self e).
Proof.
  induction n as [|n IH]; intros todo done_ self Hi Hl Hdone Hn.
  { destruct todo; [|simpl in Hn; lia]. apply pass_stop; auto. }
  destruct todo as [|k todo].
  - destruct done_ as [|k l]; [apply pass_stop; auto|].
    eapply pass_advance; [done|exact Hl|apply Hdone; set_solver|]. intros self' Hc Ht Ho.
    destruct (IH [] (l ++ [k]) self' (c_inv _ _ _ Hc)) as (rest & self2 & ? & ? & ? & ?); [done| |simpl; lia|by exists rest, self2].
    intros x Hx. rewrite (turned_wanted _ _ _ _ Ht). apply Hdone. set_solver.
  - destruct (wanted self e k) eqn:Hw; [by apply pass_stop|].
    eapply pass_advance; [done|exact Hl|done|]. intros self' Hc Ht Ho.
    destruct (IH todo (done_ ++ [k]) self' (c_inv _ _ _ Hc)) as (rest & self2 & E & Hc' & Ht' & Hm).
    + by rewrite Ho, app_assoc.
    + intros x [Hx|Hx]%elem_of_app; rewrite (turned_wanted _ _ _ _ Ht); [by apply Hdone|].
      by apply list_elem_of_singleton in Hx as ->.
    + simpl in Hn. lia.
    + exists rest, self2. do 3 (split; [done|]). simpl.
      rewrite decide_False by (by rewrite (turned_wanted _ _ _ _ Ht), Hw).
      destruct (list_find _ todo) as [[i x]|]; simpl; [|done]. destruct Hm as [? ->]. split; [done|].
      by rewrite <- !app_assoc.
Qed.

Lemma pass_over_spec n self e : inv self -> (length (order self) <= n)%nat ->
  exists rest self', pass_over n self e = Ok (rest, self') /\ claims self self' (fun _ => 0)
    /\ turned self self'
    /\ match from_first self e with
       | Some l => rest <> O /\ order self' = l
       | None => rest = O \/ order self' = []
       end.
Proof.
  intros Hi Hn. destruct (pass_over_gen e n (order self) [] self Hi) as (rest & self' & ? & ? & ? & Hm);
    [by rewrite app_nil_r|set_solver|done|].
  exists rest, self'. do 3 (split; [done|]). unfold from_first.
  destruct (list_find _ _) as [[i k]|]; simpl; [by destruct Hm as [? ->]|done].
Qed.

Lemma order_live self k : inv self -> k ∈ order self -> exists r, get self k = Some r /\ is_desired r = true
  /\ idle (r_health r) = Spent /\ heap self k = None.
Proof.
  intros Hi Hk. destruct (rs_order_live (records self) k (i_ok _ Hi) Hk) as [r Hg]. exists r.
  pose proof (i_member _ Hi _ _ Hg) as Hm. destruct (m_ready _ _ _ Hm) as [? Hid]; [by apply ready_true; [apply Hi|]|].
  split; [done|]. split; [done|]. split; [done|]. eapply heap_free; [apply Hi|eauto|congruence].
Qed.
Lemma order_short self : inv self -> (length (order self) <= Z.to_nat (desired self))%nat.
Proof.
  intros Hi. destruct (i_desired _ Hi) as (l & Hl & Hin & ->). rewrite Nat2Z.id.
  apply submseteq_length, NoDup_submseteq; [apply rs_order_NoDup, Hi|].
  intros k Hk. apply Hin. destruct (order_live self k Hi Hk) as (r & ? & ? & _). by exists r.
Qed.

(** The record of a member whose turn is taken. *)
Definition taken_record r : Rec :=
  let r := match ready (r_health r) with
           | Healthy => r
           | Probe => on_health (fun h => with_idle h Probing) r
           end in
  if AUTH then r else on_health (fun h => with_owners h (owners h + 1)) r.

Lemma taken_ok r b : member_ok r true None -> (AUTH = false -> owners (r_health r) < 2 ^ 32 - 1) ->
  (b = true -> ready (r_health r) = Healthy) -> member_ok (taken_record r) b None.
Proof.
  intros [(Hw1 & Hw2 & Hw3) Hr Hh _ _ Ho] Hmax Hb. destruct (Hr eq_refl) as [Hd Hid]. unfold taken_record.
  destruct (ready (r_health r)) eqn:E, AUTH eqn:Ha; split; simpl; rewrite ?Hid; try done;
    try (by repeat split; simpl; try lia); try (intros; congruence); try (by intros ->%Hb);
    try (split; [by intros []|done]); try (specialize (Hmax eq_refl); repeat split; simpl; lia).
  all: intros E'; first [change (is_desired r = false) in E'; congruence | by apply Hb in E'].
Qed.

(** The turn itself, before the claim is counted. *)
Lemma turn_spec self k l r : inv self -> order self = k :: l -> get self k = Some r ->
  let b := bool_decide (ready (r_health r) = Healthy) in
  exists r1 self1, match ready (r_health r) with
    | Healthy => (r, with_records self (rs_advance (records self)))
    | Probe => let self := with_records self (rs_remove (records self) k) in
               let r := on_health (fun h => with_idle h Probing) r in (r, put self k r)
    end = (r1, self1)
  /\ step self self1 k (Some r1) b None /\ order self1 = l ++ (if b then [k] else [])
  /\ owners (r_health r1) = owners (r_health r) /\ addr r1 = addr r
  /\ taken_record r = if AUTH then r1 else on_health (fun h => with_owners h (owners h + 1)) r1.
Proof.
  intros Hi Hl Hg b. assert (Hk : k ∈ order self) by (rewrite Hl; set_solver).
  destruct (order_live self k Hi Hk) as (r0 & Hg0 & Hd & Hid & Hh). simplify_eq.
  assert (Hr : rs_ready (records self) k = true) by (by apply ready_true; [apply Hi|]).
  assert (Hnd : k ∉ l).
  { pose proof (rs_order_NoDup _ (i_ok _ Hi)) as Hn. change (NoDup (order self)) in Hn. rewrite Hl in Hn.
    apply NoDup_cons in Hn. by destruct Hn. }
  unfold b, taken_record. destruct (ready (r_health r)) eqn:Erdy; simpl.
  - exists r. eexists. split; [done|]. split; [|split; [|done]].
    + rewrite <- Hh. apply step_advance; [apply Hi|done|]. rewrite rs_turn_head by apply Hi.
      change (head (order self) = Some k). by rewrite Hl.
    + by apply (advance_spec self k l Hi Hl).
  - pose proof (step_remove self k r (i_ok _ Hi) Hg Hr) as Hs1. rewrite Hh in Hs1.
    destruct (step_here _ _ _ _ _ _ Hs1) as (Hg1 & Hr1 & Hh1).
    pose proof (step_put _ k r (on_health (fun h => with_idle h Probing) r) (s_ok Hs1) Hg1) as Hs2.
    rewrite Hr1, Hh1 in Hs2. eexists _, _. split; [done|].
    split; [eapply step_trans; [exact Hs1|exact Hs2]|]. split; [|done].
    destruct (rs_removes (records self) k (i_ok _ Hi)) as (Hok & _ & Hmv); [done|].
    destruct (rs_puts (rs_remove (records self) k) k (on_health (fun h => with_idle h Probing) r) Hok) as (_ & _ & Hmv').
    { exists r. exact Hg1. }
    transitivity (rs_order (rs_remove (records self) k)); [apply Hmv'|].
    transitivity (without k (order self)); [apply Hmv|]. rewrite Hl, app_nil_r. by apply without_head.
Qed.

Lemma take_turn_spec self k l r : inv self -> order self = k :: l -> get self k = Some r ->
  (AUTH = false -> owners (r_health r) < 2 ^ 32 - 1) ->
  let b := bool_decide (ready (r_health r) = Healthy) in
  exists self', take_turn AUTH self k = Ok (SelReady (health_target (r_health r) k) (addr r), self')
    /\ settles self self' k (-1) /\ step self self' k (Some (taken_record r)) b None
    /\ order self' = l ++ (if b then [k] else []).
Proof.
  intros Hi Hl Hg Hmax b. assert (Hk : k ∈ order self) by (rewrite Hl; set_solver).
  destruct (order_live self k Hi Hk) as (r0 & Hg0 & Hd & Hid & Hh). simplify_eq.
  pose proof (i_member _ Hi _ _ Hg) as Hm. rewrite Hh, (proj2 (ready_true self k (i_ok _ Hi)) Hk) in Hm.
  destruct (turn_spec self k l r Hi Hl Hg) as (r1 & self1 & E & Hs1 & Ho1 & Hown1 & Haddr & Htk). fold b in Hs1, Ho1.
  destruct (step_here _ _ _ _ _ _ Hs1) as (Hg1 & Hr1 & Hh1).
  assert (Hfin : forall self', step self self' k (Some (taken_record r)) b None -> settles self self' k (-1)).
  { intros self' Hs. eapply settles_step; [apply Hi|exact Hs| |].
    - eapply inv_step; [exact Hi|exact Hg|exact Hs|by unfold taken_record; destruct AUTH, (ready (r_health r))..|].
      apply taken_ok; [done|done|]. intros Hb. by apply bool_decide_eq_true in Hb.
    - intros Ha. unfold owed. rewrite Hg, Htk, Ha. simpl. lia. }
  unfold take_turn. rewrite (resident_get _ _ _ Hg). cbn [bind]. cbv zeta in E |- *. rewrite E, Haddr, Hown1.
  destruct AUTH eqn:Ha.
  - exists self1. rewrite Htk in *. split; [done|]. split; [by apply Hfin|by split].
  - specialize (Hmax eq_refl). destruct (Z.eqb_spec (owners (r_health r)) (2 ^ 32 - 1)); [lia|].
    pose proof (step_put self1 k r1 (on_health (fun h => with_owners h (owners h + 1)) r1) (s_ok Hs1) Hg1) as Hs2.
    rewrite Hr1, Hh1, <- Htk in Hs2. pose proof (step_trans _ _ _ _ _ _ _ _ _ _ Hs1 Hs2) as Hs.
    eexists. split; [done|]. rewrite <- Htk. split; [by apply Hfin|]. split; [done|].
    destruct (rs_puts (records self1) k (taken_record r) (s_ok Hs1)) as (_ & _ & Hmv); [by exists r1|].
    rewrite <- Ho1. apply Hmv.
Qed.

(** The state [choose] selects from: at most one due retry was promoted. *)
Definition selects self1 self' (e : I -> bool) (sel : Selection K A) : Prop :=
  match from_first self1 e with
  | Some [] => False
  | Some (k :: l) => exists r, get self1 k = Some r
      /\ sel = SelReady (target k (generation (r_health r))) (addr r)
      /\ get self' k = Some (taken_record r)
      /\ order self' = l ++ (if bool_decide (ready (r_health r) = Healthy) then [k] else [])
  | None => order self' ≡ₚ order self1 /\ (forall x, get self' x = get self1 x)
      /\ match sel with
         | SelBackoff at_ => (exists k, heap self1 k = Some at_) /\ forall k p, heap self1 k = Some p -> at_ <= p
         | SelIdle => forall k, heap self1 k = None
         | _ => False
         end
  end.

Definition chosen (sel : Selection K A) : K -> Z :=
  fun x => match sel with SelReady t _ => if decide (x = member t) then -1 else 0 | _ => 0 end.

Lemma choose_spec self now e : inv self -> (AUTH = false -> forall k, owed self k < 2 ^ 32 - 1) ->
  exists sel self', choose AUTH self now e = Ok (sel, self') /\ claims self self' (chosen sel)
    /\ exists o self1, try_promote self now = Ok (o, self1)
      /\ match o with
         | Ok _ => selects self1 self' e sel
         | _ => sel = SelExhausted /\ self' = self1
         end.
Proof.
  intros Hi Hmax. unfold choose.
  destruct (try_promote_spec self now Hi) as (o & self1 & E1 & Hc1 & _). rewrite E1. cbn [bind].
  assert (Hi1 := c_inv _ _ _ Hc1).
  destruct o as [[]|[]|w].
  2: { exists SelExhausted, self1. split; [done|]. split; [done|]. by exists (Err exhausted), self1. }
  2: { exfalso. destruct (try_promote_spec self now Hi) as (? & ? & E & _ & [(-> & _)|(? & ? & ? & _ & _ & _ & _ & _ & Ho)]);
       rewrite E1 in E; [done|]. by injection E as <- <-. }
  destruct (pass_over_spec (Z.to_nat (desired self1)) self1 e Hi1 (order_short self1 Hi1))
    as (rest & self2 & -> & Hc2 & Ht & Hrest).
  cbn [bind]. assert (Hi2 := c_inv _ _ _ Hc2). destruct Ht as (Htg & Hth & Hto).
  assert (Hc12 : claims self self2 (fun _ => 0)) by (eapply claims_ext; [eapply claims_trans; eauto|done]).
  rewrite rs_turn_head by apply Hi2. change (rs_order (records self2)) with (order self2).
  unfold selects. destruct (from_first self1 e) as [l|] eqn:Hff.
  - destruct Hrest as [Hne Ho2]. rewrite Ho2. destruct rest as [|rest]; [done|].
    destruct l as [|k l].
    { exfalso. unfold from_first in Hff.
      destruct (list_find _ (order self1)) as [[i k]|] eqn:Hlf; simpl in Hff; [|done]. injection Hff as Hnil.
      apply list_find_Some in Hlf as (Hlk & _). apply lookup_lt_Some in Hlk.
      apply (f_equal length) in Hnil. rewrite length_app, length_drop, length_take in Hnil. simpl in Hnil. lia. }
    simpl head. destruct (order_live self2 k Hi2) as (r & Hg2 & _); [rewrite Ho2; set_solver|].
    destruct (take_turn_spec self2 k l r Hi2 Ho2 Hg2) as (self' & E3 & Hst & Hs & Hord).
    { intros Ha. specialize (Hmax Ha k). pose proof (c_owed _ _ _ Hc12 k Ha) as Hk. unfold owed in Hk at 1.
      rewrite Hg2 in Hk. lia. }
    destruct (step_here _ _ _ _ _ _ Hs) as (Hg' & _ & _).
    eexists _, self'. split; [exact E3|]. split.
    + eapply claims_ext; [eapply claims_trans; [exact Hc12|by apply settles_claims]|].
      intros x. simpl. by destruct (decide _).
    + exists (Ok tt), self1. rewrite Hff. split; [done|]. exists r. rewrite <- Htg. by repeat split.
  - assert (Hsel : match rest, head (order self2) with
                   | Datatypes.S _, Some k => take_turn AUTH self2 k
                   | _, _ => Ok (match retry_at self2 with Some at_ => SelBackoff at_ | None => SelIdle end, self2)
                   end = Ok (match retry_at self2 with Some at_ => SelBackoff at_ | None => SelIdle end, self2)).
    { destruct Hrest as [->| ->]; [done|]. by destruct rest. }
    rewrite Hsel. eexists _, _. split; [done|]. split.
    + eapply claims_ext; [exact Hc12|]. intros x. by destruct (retry_at self2).
    + exists (Ok tt), self1. rewrite Hff. split; [done|]. split; [done|]. split; [done|]. unfold retry_at.
      destruct (km_first (retries self2)) as [[k p]|] eqn:Hf; simpl.
      * apply km_first_Some in Hf as [Hk Hmin]. split.
        -- exists k. by rewrite <- Hth.
        -- intros k' p'. rewrite <- Hth. apply Hmin.
      * intros k. rewrite <- Hth. by apply km_first_None.
Qed.

(** ** Demand *)

(** A desired member's demand, and nothing else of it. *)
Lemma demand_step self k r d : inv self -> get self k = Some r -> is_desired r = true ->
  let self' := put self k (on_health (fun h => with_demand h (Some d)) r) in
  step self self' k (Some (on_health (fun h => with_demand h (Some d)) r)) (rs_ready (records self) k) (heap self k)
  /\ settles self self' k 0 /\ order self' = order self.
Proof.
  intros Hi Hg Hd self'. pose proof (i_member _ Hi _ _ Hg) as Hm.
  pose proof (step_put self k r (on_health (fun h => with_demand h (Some d)) r) (i_ok _ Hi) Hg) as Hs.
  split; [done|]. split.
  - eapply settles_step; [apply Hi|exact Hs| |intros _; unfold owed; rewrite Hg; simpl; lia].
    eapply inv_step; [exact Hi|exact Hg|exact Hs|done|by rewrite Hd|].
    destruct Hm as [Hw Hr ? ? ? ?]. split; try done; simpl. by intros [_ ?]%Hr.
  - destruct (rs_puts (records self) k (on_health (fun h => with_demand h (Some d)) r) (i_ok _ Hi)) as (_ & _ & Hmv);
      [by exists r|]. apply Hmv.
Qed.

Lemma set_is_retained_spec self k f : inv self ->
  let '(b, self') := set_is_retained self k f in
  settles self self' k 0 /\ order self' = order self
  /\ b = match get self k with Some r => f (id r) | None => false end
  /\ (b = true -> exists r', get self' k = Some r' /\ forall d, demand (r_health r') = Some d -> is_retained d = true)
  /\ (b = false -> self' = self).
Proof.
  intros Hi. unfold set_is_retained. fold (get self k). pose proof (settles_refl self k Hi) as Hno.
  destruct (get self k) as [r|] eqn:Hg; [|done]. destruct (f (id r)) eqn:Hf; simpl; [|done].
  destruct (demand (r_health r)) as [d|] eqn:Hd; [|do 3 (split; [done|]); split; [intros _; exists r; by rewrite Hg, Hd|done]].
  set (d' := match d with Absent => Retained | Eligible => Both | current => current end).
  destruct (demand_step self k r d' Hi Hg) as (Hs & Hst & Ho); [by unfold is_desired; rewrite Hd|].
  destruct (step_here _ _ _ _ _ _ Hs) as (Hg' & _ & _).
  split; [done|]. split; [done|]. split; [done|]. split; [|done]. intros _. eexists. split; [exact Hg'|].
  intros ? [= <-]. unfold d'. by destruct d.
Qed.

(** The record of a member once the demand [f] is installed. *)
Definition demanded (f : I -> Demand) r : Rec :=
  if is_desired r then on_health (fun h => with_demand h (Some (f (id r)))) r else r.
(** [f] withdraws a member that was retained. *)
Definition withdraws (f : I -> Demand) r : bool :=
  match demand (r_health r) with Some d => is_retained d && negb (is_retained (f (id r))) | None => false end.

(** The members [ks] have the demand [f]; the others and the order of turns
    are as they were. *)
Record redemanded self self' (ks : list K) (f : I -> Demand) : Prop := {
  rd_claims : claims self self' (fun _ => 0);
  rd_get x : get self' x = (if decide (x ∈ ks) then demanded f <$> get self x else get self x);
  rd_order : order self' = order self;
  rd_heap x : heap self' x = heap self x;
  rd_same : desired self' = desired self /\ revision self' = revision self;
}.

Lemma demand_loop_spec f ks : forall self w, inv self -> NoDup ks -> (forall k, k ∈ ks -> is_Some (get self k)) ->
  let '(w', self') := demand_loop ks self w f in
  redemanded self self' ks f
  /\ (w' = true <-> w = true \/ exists k r, k ∈ ks /\ get self k = Some r /\ withdraws f r = true).
Proof.
  induction ks as [|k ks IH]; intros self w Hi Hnd Hlive; cbn [demand_loop].
  { split; [|set_solver]. split; try done. by apply claims_refl. }
  apply NoDup_cons in Hnd as [Hk Hnd]. destruct (Hlive k) as [r Hg]; [set_solver|]. fold (get self k). rewrite Hg.
  destruct (demand (r_health r)) as [d|] eqn:Hd.
  - assert (Hdes : is_desired r = true) by (unfold is_desired; by rewrite Hd).
    destruct (demand_step self k r (f (id r)) Hi Hg Hdes) as (Hs & Hst & Ho). cbv zeta in Hs, Hst, Ho.
    set (self1 := put self k _) in *.
    assert (Hthere : forall x, x ∈ ks -> get self1 x = get self x).
    { intros x Hx. apply (st_frame _ _ _ _ Hst). by intros ->. }
    specialize (IH self1 (w || (is_retained d && negb (is_retained (f (id r))))) (st_inv _ _ _ _ Hst) Hnd).
    destruct (demand_loop ks self1 _ f) as [w' self']. destruct IH as [[Hc Hge Hor Hhe Hsa] Hw].
    { intros x Hx. rewrite Hthere by done. apply Hlive. set_solver. }
    split; [split|].
    + eapply claims_ext; [eapply claims_trans; [by eapply claims_settle_0|exact Hc]|done].
    + intros x. rewrite Hge. destruct (decide (x = k)) as [->|Hne].
      * rewrite decide_False by done. rewrite decide_True by set_solver. rewrite (s_get Hs), upd_eq, Hg. simpl.
        unfold demanded. by rewrite Hdes.
      * destruct (st_frame _ _ _ _ Hst x Hne) as (-> & _ & _). apply decide_ext. set_solver.
    + congruence.
    + intros x. rewrite Hhe, (s_heap Hs). by rewrite upd_id.
    + destruct (st_same _ _ _ _ Hst), Hsa. split; congruence.
    + rewrite Hw, orb_true_iff. assert (Hwk : withdraws f r = is_retained d && negb (is_retained (f (id r))))
        by (unfold withdraws; by rewrite Hd).
      rewrite <- Hwk. split.
      * intros [[?|?]|(x & rx & ? & Hx & ?)]; [by left|right; exists k, r; set_solver|right; exists x, rx].
        rewrite Hthere in Hx by done. set_solver.
      * intros [?|(x & rx & [->|Hx]%elem_of_cons & Hgx & ?)]; [naive_solver|left; right; congruence|].
        right. exists x, rx. by rewrite Hthere.
  - specialize (IH self w Hi Hnd). destruct (demand_loop ks self w f) as [w' self'].
    destruct IH as [[Hc Hge Hor Hhe Hsa] Hw]; [set_solver|].
    split; [split; try done|].
    + intros x. rewrite Hge. destruct (decide (x = k)) as [->|Hne]; [|apply decide_ext; set_solver].
      rewrite decide_False by done. rewrite decide_True by set_solver. rewrite Hg. simpl.
      unfold demanded, is_desired. by rewrite Hd.
    + rewrite Hw. split; [set_solver|]. intros [?|(x & rx & [->|Hx]%elem_of_cons & Hgx & Hwd)]; [by left| |naive_solver].
      exfalso. rewrite Hg in Hgx. injection Hgx as <-. unfold withdraws in Hwd. by rewrite Hd in Hwd.
Qed.
End facts.
