(* ===== verification/ReconcileFacts.v ===== *)
(** * Reconciling the members of a pool with a snapshot.

    [Members.try_apply] in three passes: the search for the entries to keep and
    the places to fill, the commit of every endpoint, and the removal of the
    members the snapshot does not name. *)

From S2P Require Import Prelude Depot Time Health Round Members MembersFacts.
Import Record_ Members.

Section reconcile.
Context {K I A S H : Type} `{EqDecision K} `{EqDecision I} {RS : RoundSet K (Rec I A) S}
  {RSL : RoundSetLaws K (Rec I A) S} {KM : KeyedMin K H} {KML : KeyedMinLaws K H} `{AverageLaws}.
Context (AUTH : bool).
Abbreviation Members := (Set_ S H).
Abbreviation Rec := (Rec I A).
Abbreviation Endpoint := (Service.Endpoint I A).
Implicit Types (self : Members) (k : K) (r : Rec).
Abbreviation core := (core AUTH).
Abbreviation inv := (inv AUTH).

Lemma core_live self k : core self -> is_Some (get self k) <-> Occupied k ∈ rs_entries (records self).
Proof. intros Hi. apply rs_entries_live, Hi. Qed.

(** ** Committing one endpoint *)

(** The entry a slot fills: a vacant position or a resident. *)
Definition handle (e : Slot K I A) : nat + K :=
  match e with
  | Keep k _ => inr k
  | New (Free i) _ => inl i
  | New (Reuse k) _ => inr k
  end.
Definition value (e : Slot K I A) : Endpoint := match e with Keep _ v => v | New _ v => v end.
Definition nobody self (i : I) : Prop := forall x r, get self x = Some r -> is_desired r = true -> id r <> i.

(** A slot that can be committed. *)
Definition valid self (e : Slot K I A) : Prop :=
  match e with
  | Keep k v => exists r, get self k = Some r /\ is_desired r = true /\ id r = Service.e_id v
  | New (Free i) v => rs_entries (records self) !! i = Some Vacant /\ nobody self (Service.e_id v)
  | New (Reuse k) v => nobody self (Service.e_id v) /\ rs_reusable k = true
      /\ exists r, get self k = Some r /\ (AUTH = false -> owners (r_health r) = 0)
  end.
(** The record a slot installs. *)
Definition installed self (e : Slot K I A) : option Rec :=
  match e with
  | Keep k v => (fun r => with_addr r (Service.e_addr v)) <$> get self k
  | New _ v => Some (record_new (Service.e_id v) (Service.e_addr v))
  end.

(** The key a slot ends under: the one kept, its turn and retry too, or a fresh
    one, in the round. *)
Definition kind self self' (e : Slot K I A) k : Prop :=
  match e with
  | Keep k0 _ => k = k0 /\ rs_ready (records self') k = rs_ready (records self) k /\ heap self' k = heap self k
  | New _ _ => ~ issued self k /\ rs_ready (records self') k = true
  end.

(** [self] after the commit of [e] under key [k]. *)
Record commits self self' (e : Slot K I A) k : Prop := {
  cm_core : core self';
  cm_here : get self' k = installed self e;
  cm_kind : kind self self' e k;
  cm_there x : x <> k -> get self' x = (if decide (handle e = inr x) then None else get self x);
  cm_frame x : x <> k -> handle e <> inr x -> rs_ready (records self') x = rs_ready (records self) x
    /\ heap self' x = heap self x;
  cm_order : order self' = filter (fun x => handle e <> inr x) (order self)
    ++ (if rs_ready (records self') k then [k] else []);
  cm_issued x : issued self x -> issued self' x;
  cm_entries i : handle e <> inl i ->
    rs_entries (records self) !! i = Some Vacant -> rs_entries (records self') !! i = Some Vacant;
  cm_room n : roomy n self -> roomy n self';
  cm_same : desired self' = desired self /\ revision self' = revision self;
}.

Lemma with_addr_ok r a b h : member_ok AUTH r b h -> member_ok AUTH (with_addr r a) b h.
Proof. by intros []. Qed.
Lemma record_new_ok (i : I) (a : A) : member_ok AUTH (record_new i a : Rec) true None.
Proof. by split. Qed.

(** Installing a record under a fresh key, where at most [gone] goes. *)
Lemma core_installed self self' k r (gone : option K) : core self -> rs_ok (records self') ->
  get self k = None -> nobody self (id r) -> member_ok AUTH r true None -> k ∈ order self' ->
  (forall x, get self' x = if decide (x = k) then Some r else if decide (gone = Some x) then None else get self x) ->
  (forall x, x <> k -> gone <> Some x -> x ∈ order self' <-> x ∈ order self) ->
  (forall x, heap self' x = if decide (gone = Some x) then None else heap self x) ->
  core self'.
Proof.
  intros Hi Hok Hk Hno Hr Hin Hget Hord Hheap.
  assert (Hold : forall x rx, get self' x = Some rx -> x <> k -> gone <> Some x /\ get self x = Some rx).
  { intros x rx. rewrite Hget. intros Hx Hne. rewrite decide_False in Hx by done.
    by destruct (decide (gone = Some x)). }
  split; [done| | |].
  - intros x rx Hx. destruct (decide (x = k)) as [->|Hne].
    + rewrite Hget, decide_True in Hx by done. injection Hx as <-.
      rewrite (proj2 (ready_true self' k Hok) Hin). rewrite Hheap. rewrite (i_heap _ _ Hi k Hk).
      by destruct (decide _).
    + destruct (Hold x rx Hx Hne) as [Hg Hx']. rewrite Hheap, decide_False by done.
      assert (Er : rs_ready (records self') x = rs_ready (records self) x).
      { rewrite !ready_order by (done || apply Hi). apply bool_decide_ext. by apply Hord. }
      rewrite Er. by apply (i_member _ _ Hi).
  - intros x. rewrite Hget, Hheap. destruct (decide (x = k)) as [->|]; [done|].
    destruct (decide (gone = Some x)); [done|]. apply (i_heap _ _ Hi).
  - intros x y rx ry Hx Hy E Dx Dy. destruct (decide (x = k)) as [->|Nx], (decide (y = k)) as [->|Ny]; [done|..].
    + exfalso. rewrite Hget, decide_True in Hx by done. injection Hx as <-.
      apply Hold in Hy as [_ Hy]; [|done]. by apply (Hno y ry).
    + exfalso. rewrite Hget, decide_True in Hy by done. injection Hy as <-.
      apply Hold in Hx as [_ Hx]; [|done]. by apply (Hno x rx).
    + apply Hold in Hx as [_ Hx], Hy as [_ Hy]; [|done..]. by eapply (i_ids _ _ Hi).
Qed.

Lemma commit_free self i v : core self -> valid self (New (Free i) v) ->
  exists k self', commit self (New (Free i) v) = Ok (k, self') /\ commits self self' (New (Free i) v) k.
Proof.
  intros Hi [Hvac Hno]. unfold commit, vacant_insert.
  set (r := record_new (Service.e_id v) (Service.e_addr v)).
  pose proof (rs_fills (records self) i r (i_ok _ _ Hi) Hvac) as Hf.
  destruct (rs_fill (records self) i r) as [k s]. destruct Hf as (Hok & Hiss & Hissx & Hmv).
  assert (Hk : get self k = None).
  { destruct (get self k) eqn:E; [|done]. destruct Hiss. apply rs_issued_live; [apply Hi|]. by eexists. }
  assert (Hg : rs_get s k = Some r) by (rewrite (mv_get Hmv); by rewrite upd_eq).
  assert (Hn : k ∉ rs_order s).
  { rewrite (mv_order Hmv). intros Hin. apply rs_order_live in Hin; [|apply Hi]. unfold get in Hk.
    rewrite Hk in Hin. by destruct Hin. }
  destruct (rs_inserts s k Hok) as (Hok' & Hiss' & Hmv'); [by eexists|done|].
  set (self' := with_records self (rs_insert s k)). exists k, self'. split; [done|].
  assert (Hget : forall x, get self' x = if decide (x = k) then Some r else get self x).
  { intros x. unfold get at 1. simpl. rewrite (mv_get Hmv'), (mv_get Hmv). reflexivity. }
  assert (Hord : order self' = order self ++ [k]).
  { unfold order at 1. simpl. by rewrite (mv_order Hmv'), (mv_order Hmv). }
  assert (Hready : rs_ready (records self') k = true) by (apply ready_true; [done|]; rewrite Hord; set_solver).
  assert (Hother : forall x, x <> k -> x ∈ order self' <-> x ∈ order self) by (rewrite Hord; set_solver).
  assert (Hent : rs_entries (records self') = <[i:=Occupied k]> (rs_entries (records self))).
  { simpl. by rewrite (mv_entries Hmv'), (mv_entries Hmv). }
  split; try done.
  - eapply (core_installed self self' k r None); try done.
    + rewrite Hord. set_solver.
    + intros x Hx _. by apply Hother.
  - by rewrite Hget, decide_True.
  - intros x Hx. by rewrite Hget, decide_False.
  - intros x Hx _. split; [|done]. rewrite !ready_order by (done || apply Hi). apply bool_decide_ext. by apply Hother.
  - rewrite Hready, Hord. f_equal. symmetry. by apply filter_all.
  - intros x Hx. apply Hiss', Hissx. by left.
  - intros j Hj Hv. rewrite Hent, list_lookup_insert_ne; [done|]. intros ->. by apply Hj.
  - intros n [Hl Hgone]. unfold roomy. rewrite Hent, length_insert. split; [done|]. intros Hall.
    intros [j Hj]%list_elem_of_lookup. destruct (decide (i = j)) as [<-|].
    + rewrite list_lookup_insert_eq in Hj by (by eapply lookup_lt_Some). done.
    + rewrite list_lookup_insert_ne in Hj by done. apply (Hgone Hall), list_elem_of_lookup. eauto.
Qed.

Lemma without_filter k l : without k l = filter (fun x => (inr k : nat + K) <> inr x) l.
Proof. apply list_filter_iff. intros x. naive_solver. Qed.

Lemma commit_keep self k v : core self -> valid self (Keep k v) ->
  exists k' self', commit self (Keep k v) = Ok (k', self') /\ commits self self' (Keep k v) k'.
Proof.
  intros Hi (r & Hg & Hd & Hid). unfold commit. rewrite (resident_get _ _ _ Hg). cbn [bind].
  set (r' := with_addr r (Service.e_addr v)).
  pose proof (step_put self k r r' (i_ok _ _ Hi) Hg) as Hs1.
  destruct (step_here _ _ _ _ _ _ Hs1) as (Hg1 & Hr1 & Hh1).
  pose proof (i_member _ _ Hi _ _ Hg) as Hm.
  destruct (rs_puts (records self) k r' (i_ok _ _ Hi)) as (Hok1 & _ & Hmv1); [by exists r|].
  assert (Ho1 : order (put self k r') = order self) by apply Hmv1.
  assert (He1 : rs_entries (records (put self k r')) = rs_entries (records self)) by apply Hmv1.
  set (b := rs_ready (records self) k) in *.
  assert (Hfin : exists self', reorder (put self k r') k = self' /\ step self self' k (Some r') b (heap self k)
    /\ order self' = without k (order self) ++ (if b then [k] else [])
    /\ rs_entries (records self') = rs_entries (records self)).
  { unfold reorder. rewrite Hr1. destruct b eqn:Eb.
    - pose proof (step_requeue _ k r' (s_ok _ _ _ _ _ _ Hs1) Hg1 Hr1) as Hs2. rewrite Hh1 in Hs2.
      assert (Hin : k ∈ rs_order (records (put self k r'))) by (by apply (ready_true (put self k r')); [apply Hs1|]).
      destruct (rs_requeues _ k (s_ok _ _ _ _ _ _ Hs1) Hin) as (_ & _ & Hmv2).
      eexists. split; [done|]. split; [eapply step_trans; [exact Hs1|exact Hs2]|].
      split; [|by etransitivity; [apply Hmv2|]].
      transitivity (without k (order (put self k r')) ++ [k]); [apply Hmv2|]. by rewrite Ho1.
    - eexists. split; [done|]. split; [done|]. split; [|done]. rewrite Ho1, app_nil_r.
      rewrite without_absent; [done|]. intros Hin. apply (ready_true self k (i_ok _ _ Hi)) in Hin. fold b in Hin. congruence. }
  destruct Hfin as (self' & -> & Hs & Hord & Hent). destruct (step_here _ _ _ _ _ _ Hs) as (Hg' & Hr' & Hh').
  exists k, self'. split; [done|]. split.
  - eapply core_step; [exact Hi|exact Hg|exact Hs|done|done|by apply with_addr_ok].
  - simpl. by rewrite Hg', Hg.
  - by split.
  - intros x Hx. rewrite decide_False by (simpl; congruence). by eapply step_there; [apply Hi|exact Hs|].
  - intros x Hx _. by eapply step_there; [apply Hi|exact Hs|].
  - rewrite Hord, Hr', without_filter. done.
  - intros x. by rewrite (s_issued _ _ _ _ _ _ Hs).
  - intros i _. by rewrite Hent.
  - intros n. apply (s_room _ _ _ _ _ _ Hs).
  - apply (s_same _ _ _ _ _ _ Hs).
Qed.

Lemma commit_reuse self k v : core self -> valid self (New (Reuse k) v) ->
  exists k' self', commit self (New (Reuse k) v) = Ok (k', self') /\ commits self self' (New (Reuse k) v) k'.
Proof.
  intros Hi (Hno & Hre & r0 & Hg0 & Hown). unfold commit, vacant_insert.
  set (r := record_new (Service.e_id v) (Service.e_addr v)).
  assert (Hocc : Occupied k ∈ rs_entries (records self)) by (apply core_live; [done|by exists r0]).
  apply list_elem_of_lookup in Hocc as [i He].
  set (self1 := with_retries self (km_retire (retries self) k)). change (records self1) with (records self).
  pose proof (rs_replaces (records self) i k r (i_ok _ _ Hi) He Hre) as Hf.
  destruct (rs_replace (records self) k r) as [k' s]. destruct Hf as (Hok & Hiss & Hissx & Hmv).
  assert (Hk' : get self k' = None).
  { destruct (get self k') eqn:E; [|done]. destruct Hiss. apply rs_issued_live; [apply Hi|]. by eexists. }
  assert (Hne : k' <> k) by (intros ->; congruence).
  assert (Hn : k' ∉ order self).
  { intros Hin. apply rs_order_live in Hin; [|apply Hi]. unfold get in Hk'. rewrite Hk' in Hin. by destruct Hin. }
  assert (Hg : rs_get s k' = Some r) by (rewrite (mv_get Hmv); by rewrite upd_eq).
  set (s' := if rs_ready s k' then rs_requeue s k' else rs_insert s k').
  assert (Hfin : rs_ok s' /\ (forall x, rs_issued s' x <-> rs_issued s x) /\ (forall x, rs_get s' x = rs_get s x)
    /\ rs_order s' = without k (order self) ++ [k'] /\ rs_entries s' = rs_entries s).
  { assert (Hw : without k' (rs_order s) = without k (order self)).
    { rewrite (mv_order Hmv). by apply without_renamed. }
    unfold s'. rewrite (rs_ready_order s k' Hok). case_bool_decide as Hin.
    - destruct (rs_requeues s k' Hok Hin) as (Hok' & Hiss' & Hmv'). split; [done|]. split; [done|].
      split; [apply Hmv'|]. split; [by rewrite (mv_order Hmv'), Hw|apply Hmv'].
    - destruct (rs_inserts s k' Hok) as (Hok' & Hiss' & Hmv'); [by eexists|done|]. split; [done|]. split; [done|].
      split; [apply Hmv'|]. split; [|apply Hmv']. rewrite (mv_order Hmv'), <- Hw. by rewrite without_absent. }
  destruct Hfin as (Hok' & Hiss' & Hget' & Hord & Hent').
  set (self' := with_records self1 s'). exists k', self'. split; [done|].
  assert (Hget : forall x, get self' x = if decide (x = k') then Some r else if decide (x = k) then None else get self x).
  { intros x. unfold get at 1. simpl. rewrite Hget', (mv_get Hmv). reflexivity. }
  assert (Hheap : forall x, heap self' x = if decide (x = k) then None else heap self x).
  { intros x. unfold heap at 1. simpl. rewrite km_get_retire. reflexivity. }
  assert (Hent : rs_entries (records self') = <[i:=Occupied k']> (rs_entries (records self))).
  { simpl. by rewrite Hent', (mv_entries Hmv). }
  assert (Hother : forall x, x <> k' -> x <> k -> x ∈ order self' <-> x ∈ order self).
  { intros x ? ?. change (order self') with (rs_order s'). rewrite Hord, elem_of_app, elem_without, list_elem_of_singleton.
    naive_solver. }
  assert (Hready : rs_ready (records self') k' = true).
  { apply ready_true; [done|]. change (order self') with (rs_order s'). rewrite Hord. set_solver. }
  split; try done.
  - eapply (core_installed self self' k' r (Some k)); try done.
    + change (order self') with (rs_order s'). rewrite Hord. set_solver.
    + intros x. rewrite Hget. destruct (decide (x = k')); [done|].
      destruct (decide (x = k)) as [->|]; [by rewrite decide_True|by rewrite decide_False by naive_solver].
    + intros x Hx Hx'. apply Hother; [done|]. naive_solver.
    + intros x. rewrite Hheap. destruct (decide (x = k)) as [->|]; [by rewrite decide_True|by rewrite decide_False by naive_solver].
  - by rewrite Hget, decide_True.
  - intros x Hx. rewrite Hget, decide_False by done. simpl.
    destruct (decide (x = k)) as [->|]; [by rewrite decide_True|by rewrite decide_False by naive_solver].
  - intros x Hx Hx'. assert (x <> k) by naive_solver. split; [|by rewrite Hheap, decide_False].
    rewrite !ready_order by (done || apply Hi). apply bool_decide_ext. by apply Hother.
  - rewrite Hready. change (order self') with (rs_order s'). rewrite Hord, without_filter. done.
  - intros x Hx. apply Hiss', Hissx. by left.
  - intros j _ Hv. rewrite Hent, list_lookup_insert_ne; [done|]. intros ->. congruence.
  - intros n [Hl Hgone]. unfold roomy. rewrite Hent, length_insert. split; [done|]. intros Hall.
    intros [j Hj]%list_elem_of_lookup. destruct (decide (i = j)) as [<-|].
    + rewrite list_lookup_insert_eq in Hj by (by eapply lookup_lt_Some). done.
    + rewrite list_lookup_insert_ne in Hj by done. apply (Hgone Hall), list_elem_of_lookup. eauto.
Qed.

Lemma commit_spec self e : core self -> valid self e ->
  exists k self', commit self e = Ok (k, self') /\ commits self self' e k.
Proof. destruct e as [k v|[i|k] v]; [apply commit_keep|apply commit_free|apply commit_reuse]. Qed.

(** ** Committing all endpoints *)

Lemma not_issued self k : core self -> ~ issued self k -> get self k = None.
Proof.
  intros Hi Hn. destruct (get self k) eqn:E; [|done]. destruct Hn. apply rs_issued_live; [apply Hi|]. by eexists.
Qed.
Lemma valid_handle self e k : valid self e -> handle e = inr k -> is_Some (get self k).
Proof. destruct e as [k0 v|[i|k0] v]; simpl; naive_solver. Qed.
Lemma installed_id self e : valid self e ->
  exists r, installed self e = Some r /\ id r = Service.e_id (value e) /\ is_desired r = true
    /\ addr r = Service.e_addr (value e).
Proof.
  destruct e as [k v|v0 v]; simpl; [|by eexists]. intros (r & Hg & Hd & Hid). rewrite Hg. simpl.
  by exists (with_addr r (Service.e_addr v)).
Qed.

(** Where a committed slot does not reach. *)
Lemma commits_apart self self' e k x : core self -> commits self self' e k -> is_Some (get self x) ->
  handle e <> inr x -> x <> k /\ get self' x = get self x
    /\ rs_ready (records self') x = rs_ready (records self) x /\ heap self' x = heap self x.
Proof.
  intros Hi Hc Hx Hne. assert (Hxk : x <> k).
  { intros ->. pose proof (cm_kind _ _ _ _ Hc) as Hk. destruct e as [k0 v|v0 v]; simpl in *.
    - destruct Hk as [-> _]. done.
    - destruct Hk as [Hn _]. apply (not_issued self k Hi) in Hn. rewrite Hn in Hx. by destruct Hx. }
  split; [done|]. rewrite (cm_there _ _ _ _ Hc x Hxk), decide_False by done. split; [done|].
  by apply (cm_frame _ _ _ _ Hc).
Qed.

Lemma commits_nobody self self' e k i : commits self self' e k -> valid self e ->
  Service.e_id (value e) <> i -> nobody self i -> nobody self' i.
Proof.
  intros Hc Hv Hne Hno x r Hx Hd. destruct (decide (x = k)) as [->|Hxk].
  - rewrite (cm_here _ _ _ _ Hc) in Hx. destruct (installed_id _ _ Hv) as (r' & E & Eid & _). congruence.
  - rewrite (cm_there _ _ _ _ Hc x Hxk) in Hx. destruct (decide _); [done|]. by eapply Hno.
Qed.

Lemma commits_valid self self' e k e2 : core self -> commits self self' e k -> valid self e -> valid self e2 ->
  handle e <> handle e2 -> Service.e_id (value e) <> Service.e_id (value e2) -> valid self' e2.
Proof.
  intros Hi Hc Hv Hv2 Hh Hid. destruct e2 as [k2 v2|[i|k2] v2]; simpl in *.
  - destruct Hv2 as (r & Hg & ? & ?). exists r.
    destruct (commits_apart _ _ _ _ k2 Hi Hc) as (_ & -> & _); [by exists r|done|done].
  - destruct Hv2 as [Hvac Hno]. split; [by apply (cm_entries _ _ _ _ Hc)|by eapply commits_nobody].
  - destruct Hv2 as (Hno & Hre & r & Hg & Hown). split; [by eapply commits_nobody|]. split; [done|]. exists r.
    destruct (commits_apart _ _ _ _ k2 Hi Hc) as (_ & -> & _); [by exists r|done|done].
Qed.

(** [self] after the commit of [es] under the keys [ks]. *)
Record installs self self' (es : list (Slot K I A)) (ks : list K) : Prop := {
  in_core : core self';
  in_here : Forall2 (fun e k => get self' k = installed self e) es ks;
  in_kind : Forall2 (kind self self') es ks;
  in_keys : NoDup ks;
  in_there x : x ∉ ks -> get self' x = (if decide (inr x ∈ (handle <$> es)) then None else get self x);
  in_frame x : x ∉ ks -> inr x ∉ (handle <$> es) ->
    rs_ready (records self') x = rs_ready (records self) x /\ heap self' x = heap self x;
  in_order : order self' = filter (fun x => inr x ∉ (handle <$> es)) (order self)
    ++ filter (fun k => rs_ready (records self') k = true) ks;
  in_issued x : issued self x -> issued self' x;
  in_room n : roomy n self -> roomy n self';
  in_same : desired self' = desired self /\ revision self' = revision self;
}.

Lemma installs_nil self : core self -> installs self self [] [].
Proof.
  intros Hi. split; try done; try constructor.
  rewrite app_nil_r. symmetry. apply filter_all. intros x _. apply not_elem_of_nil.
Qed.

Section cons.
Context (self self1 self' : Members) (e : Slot K I A) (k : K) (es : list (Slot K I A)) (ks : list K).
Context (Hi : core self) (Hc : commits self self1 e k) (Hin : installs self1 self' es ks)
  (Hv : valid self e) (Hvs : Forall (valid self) es) (Hh : handle e ∉ (handle <$> es)).

Lemma cons_fresh : (k ∉ ks) /\ (inr k ∉ (handle <$> es)).

Proof.
  assert (Hnk : inr k ∉ (handle <$> es)).
  { intros (e2 & E & He2)%list_elem_of_fmap. rewrite Forall_forall in Hvs.
    pose proof (valid_handle _ _ k (Hvs _ He2) (eq_sym E)) as Hk. pose proof (cm_kind _ _ _ _ Hc) as Hkd.
    destruct e as [k0 v|v0 v]; simpl in *.
    - destruct Hkd as [-> _]. apply Hh. rewrite E. by apply list_elem_of_fmap_2.
    - destruct Hkd as [Hn _]. apply (not_issued self k Hi) in Hn. rewrite Hn in Hk. by destruct Hk. }
  split; [|done]. intros [j Hj]%list_elem_of_lookup.
  destruct (Forall2_lookup_r _ _ _ _ _ (in_kind _ _ _ _ Hin) Hj) as (e2 & He2 & Hkd).
  destruct e2 as [k2 v2|v0 v2]; simpl in Hkd.
  - destruct Hkd as [-> _]. apply Hnk. apply list_elem_of_fmap. exists (Keep k2 v2). split; [done|].
    by eapply list_elem_of_lookup_2.
  - destruct Hkd as [Hn _]. apply (not_issued self1 k (cm_core _ _ _ _ Hc)) in Hn.
    rewrite (cm_here _ _ _ _ Hc) in Hn. destruct (installed_id _ _ Hv) as (r & E & _). congruence.
Qed.

Lemma cons_tail e2 : e2 ∈ es -> installed self1 e2 = installed self e2
  /\ forall k2, kind self1 self' e2 k2 -> kind self self' e2 k2.
Proof.
  intros He2. assert (Hne : handle e <> handle e2) by (intros E; apply Hh; rewrite E; by apply list_elem_of_fmap_2).
  rewrite Forall_forall in Hvs. pose proof (Hvs _ He2) as Hv2. destruct e2 as [k2 v2|v0 v2]; simpl in *.
  - destruct Hv2 as (r & Hg & _).
    destruct (commits_apart _ _ _ _ k2 Hi Hc) as (_ & Eg & Er & Eh); [by exists r|done|]. rewrite Eg. split; [done|].
    intros k3 (-> & ? & ?). split; [done|]. by rewrite <- Er, <- Eh.
  - split; [done|]. intros k2 [Hn ?]. split; [|done]. intros Hiss. by apply Hn, (cm_issued _ _ _ _ Hc).
Qed.

Lemma installs_cons : installs self self' (e :: es) (k :: ks).
Proof.
  destruct cons_fresh as [Hks Hhs].
  destruct (in_frame _ _ _ _ Hin k Hks Hhs) as [Hrk Hhk].
  assert (Hgk := in_there _ _ _ _ Hin k Hks). rewrite decide_False in Hgk by done.
  split.
  - apply Hin.
  - constructor; [by rewrite Hgk, (cm_here _ _ _ _ Hc)|].
    apply Forall2_same_length_lookup. split; [by eapply Forall2_length, Hin|]. intros j e2 k2 He2 Hk2.
    rewrite <- (proj1 (cons_tail e2 (list_elem_of_lookup_2 _ _ _ He2))).
    by eapply (Forall2_lookup_lr _ _ _ _ _ _ (in_here _ _ _ _ Hin)).
  - constructor.
    + pose proof (cm_kind _ _ _ _ Hc) as Hkd. destruct e as [k0 v|v0 v]; simpl in *; by rewrite Hrk, ?Hhk.
    + apply Forall2_same_length_lookup. split; [by eapply Forall2_length, Hin|]. intros j e2 k2 He2 Hk2.
      apply (cons_tail e2 (list_elem_of_lookup_2 _ _ _ He2)).
      by eapply (Forall2_lookup_lr _ _ _ _ _ _ (in_kind _ _ _ _ Hin)).
  - constructor; [done|apply Hin].
  - intros x [Hxk Hxs]%not_elem_of_cons. rewrite (in_there _ _ _ _ Hin x Hxs), (cm_there _ _ _ _ Hc x Hxk). simpl.
    destruct (decide (inr x ∈ (handle <$> es))), (decide (handle e = inr x)), (decide (inr x ∈ handle e :: _)); set_solver.
  - intros x [Hxk Hxs]%not_elem_of_cons. simpl. intros [Hxe Hxh]%not_elem_of_cons.
    destruct (in_frame _ _ _ _ Hin x Hxs Hxh) as [-> ->]. by apply (cm_frame _ _ _ _ Hc).
  - rewrite (in_order _ _ _ _ Hin), (cm_order _ _ _ _ Hc), filter_app, list_filter_filter. simpl.
    rewrite <- app_assoc. f_equal.
    + apply list_filter_iff. intros x. rewrite not_elem_of_cons. naive_solver.
    + rewrite filter_cons, Hrk. destruct (rs_ready (records self1) k); simpl; [|done].
      rewrite filter_cons, decide_True by done. done.
  - intros x Hx. by apply (in_issued _ _ _ _ Hin), (cm_issued _ _ _ _ Hc).
  - intros n Hn. by apply (in_room _ _ _ _ Hin), (cm_room _ _ _ _ Hc).
  - destruct (in_same _ _ _ _ Hin), (cm_same _ _ _ _ Hc). split; congruence.
Qed.
End cons.

Lemma commit_all_spec es : forall self, core self -> Forall (valid self) es -> NoDup (handle <$> es) ->
  NoDup ((fun e => Service.e_id (value e)) <$> es) ->
  exists ks self', commit_all self es = Ok (ks, self') /\ installs self self' es ks.
Proof.
  induction es as [|e es IH]; intros self Hi Hv Hh Hid; [by exists [], self; split; [|apply installs_nil]|].
  apply Forall_cons in Hv as [Hv Hvs]. apply NoDup_cons in Hh as [Hh Hhs]. apply NoDup_cons in Hid as [Hid Hids].
  destruct (commit_spec self e Hi Hv) as (k & self1 & E & Hc). simpl. rewrite E. cbn [bind].
  destruct (IH self1) as (ks & self' & E' & Hin); [apply Hc| |done|done|].
  - apply Forall_forall. intros e2 He2. rewrite Forall_forall in Hvs.
    eapply commits_valid; [done|exact Hc|done|by apply Hvs|..].
    + intros Eq. apply Hh. rewrite Eq. by apply list_elem_of_fmap_2.
    + intros Eq. apply Hid. cbv beta. rewrite Eq. by apply (list_elem_of_fmap_2 (fun e => Service.e_id (value e))).
  - rewrite E'. cbn [bind]. eexists _, _. split; [done|]. by eapply installs_cons.
Qed.
End reconcile.
