(* ===== verification/SnapshotFacts.v ===== *)
(** * A snapshot is installed exactly, or not at all.

    The search of [Members.entries_try_apply] (what it keeps, which places it
    finds), the removal of the members that are not named, and [try_apply] as a
    whole. *)

From S2P Require Import Prelude Depot Time Health Round Members MembersFacts ReconcileFacts.
Import Record_ Members.

Section search.
Context {K I A S H : Type} `{EqDecision K} `{EqDecision I} {RS : RoundSet K (Rec I A) S}
  {RSL : RoundSetLaws K (Rec I A) S} {KM : KeyedMin K H} {KML : KeyedMinLaws K H} `{AverageLaws}.
Context (AUTH : bool).
Abbreviation Members := (Set_ S H).
Abbreviation Rec := (Rec I A).
Abbreviation Endpoint := (Service.Endpoint I A).
Implicit Types (self : Members) (k : K) (r : Rec).
Abbreviation core := (core AUTH).
Abbreviation inv := (inv AUTH).

Lemma find_endpoint_Some (i : I) (l : list Endpoint) j : find_endpoint i l = Some j ->
  exists e, l !! j = Some e /\ Service.e_id e = i.
Proof.
  revert j. induction l as [|e l IH]; intros j; simpl; [done|].
  destruct (decide (i = Service.e_id e)) as [->|]; [intros [= <-]; by exists e|].
  destruct (find_endpoint i l) as [j'|]; simpl; [|done]. intros [= <-]. by apply IH.
Qed.
Lemma find_endpoint_None (i : I) (l : list Endpoint) : find_endpoint i l = None ->
  forall e, e ∈ l -> Service.e_id e <> i.
Proof.
  induction l as [|e l IH]; simpl; [set_solver|]. destruct (decide (i = Service.e_id e)); [done|].
  destruct (find_endpoint i l); simpl; [done|]. intros _ e' [->|He]%elem_of_cons; [congruence|]. by apply IH.
Qed.

Section pass.
Context (self : Members) (N : nat) (eps : list Endpoint).
Context (Hi : core self) (Hlen : (length eps <= N)%nat).

(** The endpoint a resident stays for. *)
Definition match_of k : option nat :=
  match get self k with
  | Some r => if is_desired r then find_endpoint (id r) eps else None
  | None => None
  end.
(** A resident that a dial still claims and the snapshot does not name. *)
Definition claimed_off k : bool :=
  match get self k with
  | Some r => negb AUTH && negb (owners (r_health r) =? 0)
  | None => false
  end.
(** The place an entry offers. *)
Definition place_of (i : nat) (e : Entry K) : option (Vacancy K) :=
  match e with
  | Vacant => Some (Free i)
  | Gone => None
  | Occupied k =>
      match get self k, match_of k with
      | Some _, None => if claimed_off k then None else if rs_reusable k then Some (Reuse k) else None
      | _, _ => None
      end
  end.
Fixpoint places (i : nat) (es : list (Entry K)) : list (Vacancy K) :=
  match es with [] => [] | e :: es => option_list (place_of i e) ++ places (i + 1) es end.

Lemma places_snoc i es e : places i (es ++ [e]) = places i es ++ option_list (place_of (i + length es) e).
Proof.
  revert i. induction es as [|e' es IH]; intros i; simpl.
  - by rewrite app_nil_r, Nat.add_0_r.
  - rewrite IH, <- app_assoc. by replace (i + 1 + length es)%nat with (i + Datatypes.S (length es))%nat by lia.
Qed.
Lemma elem_places i es v : v ∈ places i es <-> exists j e, es !! j = Some e /\ place_of (i + j) e = Some v.
Proof.
  revert i. induction es as [|e es IH]; intros i; simpl.
  - split; [set_solver|]. intros (j & e & Hj & _). by rewrite lookup_nil in Hj.
  - rewrite elem_of_app, IH. split.
    + intros [Hv|(j & e' & Hj & Hp)].
      * exists O, e. rewrite Nat.add_0_r. split; [done|]. destruct (place_of i e); simpl in Hv; set_solver.
      * exists (Datatypes.S j), e'. split; [done|]. by replace (i + Datatypes.S j)%nat with (i + 1 + j)%nat by lia.
    + intros ([|j] & e' & Hj & Hp); simpl in Hj.
      * left. injection Hj as ->. rewrite Nat.add_0_r in Hp. rewrite Hp. set_solver.
      * right. exists j, e'. split; [done|]. by replace (i + 1 + j)%nat with (i + Datatypes.S j)%nat by lia.
Qed.

(** What the pass has found after the entries [es]. *)
Record found (es : list (Entry K)) (p : Pass) : Prop := {
  f_spare : spare p = take N (places 0 es);
  f_len : length (keep p) = N;
  f_keep j k : keep p !! j = Some (Some k) <-> Occupied k ∈ es /\ match_of k = Some j;
  f_kept : kept p = length (omap (fun o => o) (keep p));
}.

Lemma take_snoc_place l (v : Vacancy K) : (if (length (take N l) <? N)%nat then take N l ++ [v] else take N l) = take N (l ++ [v]).
Proof.
  rewrite length_take. destruct (Nat.ltb_spec (N `min` length l) N).
  - rewrite !take_ge by (rewrite ?length_app; simpl; lia). done.
  - by rewrite take_app_le by lia.
Qed.

Lemma omap_insert_None (l : list (option K)) j k : l !! j = Some None ->
  length (omap (fun o => o) (<[j:=Some k]> l)) = Datatypes.S (length (omap (fun o => o) l)).
Proof.
  revert j. induction l as [|o l IH]; intros [|j] Hj; simpl in *; [done|done|by simplify_eq|].
  destruct o; simpl; by rewrite IH.
Qed.

Lemma match_of_lt k j : match_of k = Some j -> (j < N)%nat.
Proof.
  unfold match_of. destruct (get self k) as [r|]; [|done]. destruct (is_desired r); [|done].
  intros Hf. apply find_endpoint_Some in Hf as (e & He & _). apply lookup_lt_Some in He. lia.
Qed.
Lemma match_of_inj k k' j : match_of k = Some j -> match_of k' = Some j -> k = k'.
Proof.
  unfold match_of. destruct (get self k) as [r|] eqn:Hg, (get self k') as [r'|] eqn:Hg'; try done.
  destruct (is_desired r) eqn:Hd, (is_desired r') eqn:Hd'; try done.
  intros (e & He & Hid)%find_endpoint_Some (e' & He' & Hid')%find_endpoint_Some. simplify_eq.
  eapply (i_ids _ _ Hi); eauto; congruence.
Qed.

Lemma found_nil : found [] (pass (replicate N None) [] 0).
Proof.
  split; simpl; [by rewrite take_nil|by rewrite length_replicate| |].
  - intros j k. split; [intros [? ?]%lookup_replicate; done|set_solver].
  - clear Hlen; induction N as [|n IHn]; [done|exact IHn].
Qed.

Lemma found_step es e p : found es p -> rs_entries (records self) !! length es = Some e ->
  take (length es) (rs_entries (records self)) = es ->
  found (es ++ [e]) (pass_entry self N eps (negb AUTH) (length es) e p).
Proof.
  intros [Hs Hl Hk Hc] He Hpre.
  assert (Hskip : forall q, keep q = keep p -> kept q = kept p ->
    spare q = take N (places 0 es ++ option_list (place_of (length es) e)) ->
    (forall k, e = Occupied k -> match_of k = None) -> found (es ++ [e]) q).
  { intros q Eq1 Eq2 Eq3 Hno. split; [by rewrite places_snoc|by rewrite Eq1| |by rewrite Eq1, Eq2].
    intros j k. rewrite Eq1, Hk, elem_of_app, list_elem_of_singleton. split; [naive_solver|].
    intros [[?|E] ?]; [done|]. specialize (Hno k (eq_sym E)). congruence. }
  unfold pass_entry. destruct e as [|k|].
  - apply Hskip; [by destruct (_ <? _)%nat..| |done]. simpl.
    rewrite <- take_snoc_place, <- Hs. by destruct (_ <? _)%nat.
  - fold (get self k). destruct (get self k) as [r|] eqn:Hg.
    2: { apply Hskip; [done|done| |intros ? [= <-]; unfold match_of; by rewrite Hg].
         simpl. by rewrite Hg, app_nil_r. }
    destruct (if is_desired r then find_endpoint (id r) eps else None) as [j|] eqn:Hm.
    + assert (Hmk : match_of k = Some j) by (unfold match_of; by rewrite Hg).
      assert (Hj : keep p !! j = Some None).
      { destruct (keep p !! j) as [[k'|]|] eqn:E; [|done|].
        - apply Hk in E as [Hin Hm']. assert (k' = k) by (by eapply match_of_inj). subst k'.
          apply list_elem_of_lookup in Hin as [x Hx]. assert (x = length es).
          { eapply (rs_entries_inj (records self)); [apply Hi| |exact He].
            rewrite <- Hpre in Hx. by apply lookup_take_Some in Hx as [? _]. }
          subst x. apply lookup_lt_Some in Hx. lia.
        - apply lookup_ge_None in E. pose proof (match_of_lt _ _ Hmk). lia. }
      rewrite Hj. split; simpl.
      * rewrite places_snoc. simpl. by rewrite Hg, Hmk, app_nil_r, Hs.
      * by rewrite length_insert.
      * intros j' k'. destruct (decide (j = j')) as [<-|Hne].
        -- rewrite list_lookup_insert_eq by (by eapply lookup_lt_Some). split.
           ++ intros [= <-]. set_solver.
           ++ intros [_ Hm']. do 2 f_equal. by eapply match_of_inj.
        -- rewrite list_lookup_insert_ne, Hk by done. rewrite elem_of_app, list_elem_of_singleton.
           split; [naive_solver|]. intros [[?|[= ->]] ?]; [done|]. congruence.
      * rewrite omap_insert_None, Hc by done. lia.
    + assert (Hmk : match_of k = None) by (unfold match_of; by rewrite Hg).
      assert (Hno : forall k', Occupied k = Occupied k' -> match_of k' = None) by (intros ? [= <-]; done).
      assert (Hcl : claimed_off k = negb AUTH && negb (owners (r_health r) =? 0)) by (unfold claimed_off; by rewrite Hg).
      assert (Hp : place_of (length es) (Occupied k)
        = if negb AUTH && negb (owners (r_health r) =? 0) then None else if rs_reusable k then Some (Reuse k) else None)
        by (simpl; by rewrite Hg, Hmk, Hcl).
      rewrite Hp in Hskip. destruct (negb AUTH && _); [|destruct (rs_reusable k)].
      * apply Hskip; try done. simpl. by rewrite app_nil_r.
      * apply Hskip; [by destruct (_ <? _)%nat..| |done]. simpl.
        rewrite <- take_snoc_place, <- Hs. by destruct (_ <? _)%nat.
      * apply Hskip; try done. simpl. by rewrite app_nil_r.
  - apply Hskip; try done. simpl. by rewrite app_nil_r.
Qed.

Lemma found_loop es : forall pre p, found pre p -> rs_entries (records self) = pre ++ es ->
  found (rs_entries (records self)) (pass_loop self N eps (negb AUTH) (length pre) es p).
Proof.
  induction es as [|e es IH]; intros pre p Hf He; simpl; [by rewrite He, app_nil_r|].
  replace (length pre + 1)%nat with (length (pre ++ [e])) by (rewrite length_app; simpl; lia).
  apply IH; [|by rewrite He, <- app_assoc]. apply found_step; [done| |].
  - rewrite He, lookup_app_r, Nat.sub_diag by lia. done.
  - rewrite He. by rewrite take_app_length.
Qed.

Definition searched : Pass :=
  pass_loop self N eps (negb AUTH) 0 (rs_entries (records self)) (pass (replicate N None) [] 0).
Lemma search_spec : found (rs_entries (records self)) searched.
Proof. apply (found_loop _ [] _ found_nil eq_refl). Qed.

(** ** Giving every endpoint its entry *)

Lemma occupied_NoDup : NoDup (occupied self).
Proof.
  unfold occupied. assert (Hinj : forall i j k, rs_entries (records self) !! i = Some (Occupied k) ->
    rs_entries (records self) !! j = Some (Occupied k) -> i = j) by (intros; by eapply rs_entries_inj; [apply Hi|..]).
  revert Hinj. induction (rs_entries (records self)) as [|e es IH]; intros Hinj; simpl; [constructor|].
  assert (IH' : NoDup (omap (fun e : Entry K => match e with Occupied k => Some k | _ => None end) es)).
  { apply IH. intros i j k Hx Hy. by apply (Nat.succ_inj i j), (Hinj (Datatypes.S i) (Datatypes.S j) k). }
  destruct e as [|k|]; [done| |done]. constructor; [|done].
  intros (e & He & Hk)%list_elem_of_omap. destruct e as [|k'|]; simplify_eq.
  apply list_elem_of_lookup in He as [j Hj]. by pose proof (Hinj O (Datatypes.S j) k eq_refl Hj).
Qed.
Lemma elem_occupied k : k ∈ occupied self <-> is_Some (get self k).
Proof.
  rewrite (core_live AUTH self k Hi). unfold occupied. rewrite list_elem_of_omap. split.
  - intros ([|k'|] & He & ?); simplify_eq. done.
  - intros He. by exists (Occupied k).
Qed.

Lemma place_handle i e v : place_of i e = Some v ->
  match v with Free j => j = i /\ e = Vacant | Reuse k => e = Occupied k /\ match_of k = None
    /\ claimed_off k = false /\ rs_reusable k = true /\ is_Some (get self k) end.
Proof.
  destruct e as [|k|]; simpl; [by intros [= <-]| |done].
  destruct (get self k) as [r|] eqn:Hg; [|done]. destruct (match_of k) eqn:Hm; [done|].
  destruct (claimed_off k) eqn:Hc; [done|]. destruct (rs_reusable k) eqn:Hr; [|done].
  intros [= <-]. rewrite Hg. by repeat split.
Qed.
Lemma places_NoDup i es :
  (forall a b k, es !! a = Some (Occupied k) -> es !! b = Some (Occupied k) -> a = b) -> NoDup (places i es).
Proof.
  revert i. induction es as [|e es IH]; intros i Hinj; simpl; [constructor|].
  assert (IH' : NoDup (places (i + 1) es)).
  { apply IH. intros a b k Ha Hb. by apply (Nat.succ_inj a b), (Hinj (Datatypes.S a) (Datatypes.S b) k). }
  destruct (place_of i e) as [v|] eqn:Hp; simpl; [|done]. constructor; [|done].
  intros (j & e' & Hj & Hp')%elem_places. apply place_handle in Hp, Hp'.
  destruct v as [a|k]; [destruct Hp, Hp'; lia|].
  destruct Hp as [-> _], Hp' as [-> _]. by pose proof (Hinj O (Datatypes.S j) k eq_refl Hj).
Qed.

Definition new_of (e : Slot K I A) : option (Vacancy K) := match e with New v _ => Some v | Keep _ _ => None end.
Definition nones (l : list (option K)) : nat := length (filter (fun o => o = None) l).

Lemma assign_spec (l : list Endpoint) : forall keep spare, (length l <= length keep)%nat ->
  match assign (K := K) l keep spare with
  | Some es => value <$> es = l
      /\ (forall j e, es !! j = Some e -> keep !! j = Some (match e with Keep k _ => Some k | New _ _ => None end))
      /\ length (omap new_of es) = nones (take (length l) keep)
      /\ exists m, omap new_of es = take m spare
  | None => (length spare < nones (take (length l) keep))%nat
  end.
Proof.
  induction l as [|v l IH]; intros ks spare Hl; [by split; [|split; [|split; [|exists O]]]|].
  destruct ks as [|[k|] ks]; simpl in Hl; [lia|..]; simpl.
  - specialize (IH ks spare ltac:(lia)). destruct (assign l ks spare) as [es|]; simpl; [|done].
    destruct IH as (Hv & Hk & Hc & m & Hm). split; [by f_equal|]. split; [|split; [|by exists m]].
    + intros [|j] e Hj; simpl in *; [by simplify_eq|by apply Hk].
    + unfold nones. rewrite filter_cons, decide_False by done. exact Hc.
  - destruct spare as [|w spare]; [simpl; unfold nones; rewrite filter_cons, decide_True by done; simpl; lia|].
    specialize (IH ks spare ltac:(lia)). destruct (assign l ks spare) as [es|]; simpl.
    + destruct IH as (Hv & Hk & Hc & m & Hm). split; [by f_equal|].
      split; [|split; [|exists (Datatypes.S m); simpl; by f_equal]].
      * intros [|j] e Hj; simpl in *; [by simplify_eq|by apply Hk].
      * unfold nones. rewrite filter_cons, decide_True by done. simpl. f_equal. exact Hc.
    + unfold nones in *. rewrite filter_cons, decide_True by done. simpl. lia.
Qed.

Lemma omap_inj {X Y} (f : X -> option Y) l a b x y v : NoDup (omap f l) -> l !! a = Some x -> l !! b = Some y ->
  f x = Some v -> f y = Some v -> a = b.
Proof.
  revert a b. induction l as [|z l IH]; intros a b Hnd Ha Hb Hx Hy; [done|]. simpl in Hnd.
  destruct a as [|a], b as [|b]; simpl in *; simplify_eq; [done|..].
  - rewrite Hx in Hnd. apply NoDup_cons in Hnd as [Hn _]. destruct Hn. apply list_elem_of_omap.
    exists y. split; [by eapply list_elem_of_lookup_2|done].
  - rewrite Hy in Hnd. apply NoDup_cons in Hnd as [Hn _]. destruct Hn. apply list_elem_of_omap.
    exists x. split; [by eapply list_elem_of_lookup_2|done].
  - f_equal. apply (IH a b); try done. destruct (f z); [by apply NoDup_cons in Hnd as [_ ?]|done].
Qed.

Section slots.
Context (Hids : NoDup (Service.e_id <$> eps)) (es : list (Slot K I A)).
Context (Has : assign eps (keep searched) (spare searched) = Some es).

Lemma slots_keep j e : es !! j = Some e ->
  eps !! j = Some (value e)
  /\ match e with
     | Keep k _ => is_Some (get self k) /\ match_of k = Some j
     | New v _ => (forall k, is_Some (get self k) -> match_of k <> Some j) /\ v ∈ places 0 (rs_entries (records self))
     end.
Proof.
  intros Hj. destruct search_spec as [Hs Hl Hk _].
  pose proof (assign_spec eps (keep searched) (spare searched)) as Ha. rewrite Has, Hl in Ha.
  destruct (Ha Hlen) as (Hv & Hkeep & _ & m & Hm). split; [by rewrite <- Hv, list_lookup_fmap, Hj|].
  specialize (Hkeep j e Hj). destruct e as [k v|v ep].
  - apply Hk in Hkeep as [Ho ?]. split; [|done]. by apply (core_live AUTH self k Hi).
  - split.
    + intros k Hlive Hmk. assert (E : keep searched !! j = Some (Some k)).
      { apply Hk. split; [|done]. by apply (core_live AUTH self k Hi). }
      congruence.
    + assert (Hin : v ∈ omap new_of es).
      { apply list_elem_of_omap. exists (New v ep). split; [by eapply list_elem_of_lookup_2|done]. }
      rewrite Hm, Hs in Hin. apply list_elem_of_lookup in Hin as [x Hx].
      apply lookup_take_Some in Hx as [Hx _]. apply lookup_take_Some in Hx as [Hx _].
      by eapply list_elem_of_lookup_2.
Qed.

Lemma match_of_nobody j ep : eps !! j = Some ep -> (forall k, is_Some (get self k) -> match_of k <> Some j) ->
  nobody self (Service.e_id ep).
Proof.
  intros Hep Hno x r Hg Hd Hid. apply (Hno x); [by exists r|]. unfold match_of. rewrite Hg, Hd.
  destruct (find_endpoint (id r) eps) as [j'|] eqn:Hf.
  - apply find_endpoint_Some in Hf as (e & He & Hide). f_equal.
    eapply (NoDup_lookup (Service.e_id <$> eps)); [done|rewrite list_lookup_fmap, He; simpl; by rewrite Hide|].
    rewrite list_lookup_fmap, Hep. simpl. by rewrite Hid.
  - exfalso. eapply find_endpoint_None; [exact Hf|by eapply list_elem_of_lookup_2|done].
Qed.

Lemma slots_valid : Forall (valid AUTH self) es.
Proof.
  apply Forall_forall. intros e [j Hj]%list_elem_of_lookup. destruct (slots_keep j e Hj) as [Hep Hm].
  destruct e as [k v|v ep]; simpl in *.
  - destruct Hm as [[r Hg] Hm]. exists r. split; [done|]. unfold match_of in Hm. rewrite Hg in Hm.
    destruct (is_desired r); [|done]. split; [done|]. apply find_endpoint_Some in Hm as (e & He & Hid). congruence.
  - destruct Hm as [Hno Hv]. pose proof (match_of_nobody j ep Hep Hno) as Hn.
    apply elem_places in Hv as (x & e & Hx & Hp). apply place_handle in Hp. destruct v as [i|k].
    + simpl in Hp. destruct Hp as [-> ->]. by split.
    + destruct Hp as (-> & _ & Hc & Hr & [r Hg]). split; [done|]. split; [done|]. exists r. split; [done|].
      intros Ha. unfold claimed_off in Hc. rewrite Hg, Ha in Hc. simpl in Hc.
      by apply negb_false_iff, Z.eqb_eq in Hc.
Qed.

Lemma slots_handles : NoDup (handle <$> es).
Proof.
  apply NoDup_alt. intros a b h Ha Hb. rewrite list_lookup_fmap in Ha, Hb.
  destruct (es !! a) as [x|] eqn:Hx; [|done]. destruct (es !! b) as [y|] eqn:Hy; [|done]. simpl in *.
  assert (E : handle x = handle y) by congruence. clear Ha Hb. destruct (slots_keep a x Hx) as [_ Hkx], (slots_keep b y Hy) as [_ Hky].
  assert (Hnew : forall v w, new_of x = Some v -> new_of y = Some w -> v = w -> a = b).
  { intros v w Hv Hw ->. destruct search_spec as [Hs Hl _ _].
    pose proof (assign_spec eps (keep searched) (spare searched)) as Has'. rewrite Has, Hl in Has'.
    destruct (Has' Hlen) as (_ & _ & _ & m & Hm).
    eapply (omap_inj new_of es); [|exact Hx|exact Hy|exact Hv|exact Hw]. rewrite Hm, Hs.
    apply (sublist_NoDup _ (places 0 (rs_entries (records self)))).
    - apply places_NoDup. intros. by eapply rs_entries_inj; [apply Hi|..].
    - rewrite take_take. apply sublist_take. }
  assert (Hmix : forall k v j, v ∈ places 0 (rs_entries (records self)) -> v = Reuse k -> match_of k = Some j -> False).
  { intros k v j (i & e & He & Hp)%elem_places -> Hmk. apply place_handle in Hp. naive_solver. }
  destruct x as [k v|[i|k] v], y as [k' v'|[i'|k'] v']; simpl in E; simplify_eq;
    try (by eapply Hnew; simpl; eauto); try (exfalso; by eapply Hmix; naive_solver).
  destruct Hkx as [_ Hkx], Hky as [_ Hky]. congruence.
Qed.

Lemma slots_values : NoDup ((fun e => Service.e_id (value e)) <$> es).
Proof.
  destruct search_spec as [_ Hl _ _].
  pose proof (assign_spec eps (keep searched) (spare searched)) as Ha. rewrite Has, Hl in Ha.
  destruct (Ha Hlen) as (Hv & _). pose proof Hids as Hn. rewrite <- Hv, <- list_fmap_compose in Hn. exact Hn.
Qed.
End slots.

(** ** Room for every endpoint *)

(** Every position is kept, claimed, or offered. *)
Lemma positions_counted i es : (forall k, rs_reusable k = true) -> Gone ∉ es ->
  (forall k, Occupied k ∈ es -> is_Some (get self k)) ->
  let ks := omap (fun e : Entry K => match e with Occupied k => Some k | _ => None end) es in
  (length es <= length (places i es) + length (filter (fun k => match_of k <> None) ks)
     + length (filter (fun k => claimed_off k = true) ks))%nat.
Proof.
  intros Hre. revert i. induction es as [|e es IH]; intros i Hg Hlive; [simpl; lia|].
  rewrite not_elem_of_cons in Hg. specialize (IH (i + 1)%nat (proj2 Hg)).
  assert (Hl' : forall k, Occupied k ∈ es -> is_Some (get self k)) by (intros; apply Hlive; set_solver).
  specialize (IH Hl'). cbv zeta in *. set (f := fun e : Entry K => match e with Occupied k => Some k | _ => None end) in *.
  change (omap f (e :: es)) with (match f e with Some y => y :: omap f es | None => omap f es end).
  set (rest := omap f es) in *.
  cbn [places]. rewrite length_app. destruct e as [|k|]; simpl in *; [lia| |naive_solver].
  destruct (Hlive k) as [r Hk]; [set_solver|]. rewrite Hk, !filter_cons, (Hre k).
  destruct (match_of k) as [j|].
  - rewrite decide_True by done. simpl. destruct (decide _); simpl; lia.
  - rewrite decide_False by naive_solver. destruct (claimed_off k); simpl.
    + lia.
    + lia.
Qed.

Lemma matched_kept : (length (filter (fun k => match_of k <> None) (occupied self)) <= kept searched)%nat.
Proof.
  destruct search_spec as [_ _ Hk ->]. apply submseteq_length, NoDup_submseteq; [apply NoDup_filter, occupied_NoDup|].
  intros k [Hm Ho]%list_elem_of_filter. apply list_elem_of_omap. exists (Some k). split; [|done].
  destruct (match_of k) as [j|] eqn:E; [|done]. apply list_elem_of_lookup. exists j. apply Hk. split; [|done].
  by apply (core_live AUTH self k Hi), elem_occupied.
Qed.

Lemma nones_kept (l : list (option K)) n : (n <= length l)%nat -> (forall j k, l !! j = Some (Some k) -> (j < n)%nat) ->
  (nones (take n l) + length (omap (fun o => o) l) = n)%nat.
Proof.
  revert n. induction l as [|o l IH]; intros [|n] Hn Hk; cbn [length take] in *; [done|lia|..].
  - destruct o as [k|]; [specialize (Hk O k eq_refl); lia|]. specialize (IH O ltac:(lia)).
    rewrite take_0 in IH. apply IH. intros j k Hj. specialize (Hk (Datatypes.S j) k Hj). lia.
  - specialize (IH n ltac:(lia)). unfold nones in *. rewrite filter_cons.
    assert (E : (length (filter (fun o => o = None) (take n l)) + length (omap (fun o => o) l) = n)%nat).
    { apply IH. intros j k Hj. specialize (Hk (Datatypes.S j) k Hj). lia. }
    destruct o as [k|].
    + change (omap (fun o => o) (Some k :: l)) with (k :: omap (fun o => o) l). simpl. lia.
    + change (omap (fun o => o) (None :: l)) with (omap (fun o => o) l). simpl. lia.
Qed.

(** A table with a place for every endpoint and every claimed resident has room. *)
Lemma room_enough cap : (forall k, rs_reusable k = true) -> roomy (N + cap) self ->
  (length (filter (fun k => claimed_off k = true) (occupied self)) <= cap)%nat ->
  is_Some (assign eps (keep searched) (spare searched)).
Proof.
  intros Hre [Hn Hg] Hcap. destruct search_spec as [Hs Hl Hk Hc].
  pose proof (assign_spec eps (keep searched) (spare searched)) as Ha.
  destruct (assign eps _ _); [by eexists|]. exfalso. specialize (Ha ltac:(lia)).
  pose proof (nones_kept (keep searched) (length eps) ltac:(lia)) as Hnk. rewrite <- Hc in Hnk.
  assert (Hnk' : (nones (take (length eps) (keep searched)) + kept searched = length eps)%nat).
  { apply Hnk. intros j k [_ Hm]%Hk. unfold match_of in Hm. destruct (get self k) as [r|]; [|done].
    destruct (is_desired r); [|done]. apply find_endpoint_Some in Hm as (e & He & _). by eapply lookup_lt_Some. }
  pose proof (positions_counted 0 (rs_entries (records self)) Hre (Hg Hre)) as Hp.
  pose proof matched_kept as Hmk. rewrite Hs, length_take in Ha.
  assert (Hp' := Hp (fun k => proj2 (core_live AUTH self k Hi))). fold (occupied self) in Hp'. cbv zeta in Hp'. lia.
Qed.
End pass.

(** ** Removing the members that are not named *)

(** What is left of a member the snapshot does not name. *)
Definition retired_as (o : option Rec) r : Prop :=
  match o with
  | None => AUTH = true \/ owners (r_health r) = 0
  | Some r' => AUTH = false /\ is_desired r' = false /\ owners (r_health r') = owners (r_health r) /\ id r' = id r
      /\ owners (r_health r) <> 0
  end.

Lemma prune_one self k r : core self -> get self k = Some r -> is_desired r = true ->
  exists self1 self', queue_remove self k = Ok self1
  /\ (let! r := resident self1 k in
      Ok (if negb AUTH && negb (owners (r_health r) =? 0)
          then put self1 k (on_health (fun h => with_demand h None) r) else discard self1 k)) = Ok self'
  /\ core self' /\ exists o, step self self' k o false None /\ retired_as o r.
Proof.
  intros Hi Hg Hd. destruct (queue_remove_spec AUTH self k r Hi Hg)
    as (self1 & r1 & Hq & Hs1 & Ho1 & Hid1 & _ & Hd1 & Hidl & Hwf).
  destruct (step_here _ _ _ _ _ _ Hs1) as (Hg1 & Hr1 & Hh1). exists self1.
  rewrite (resident_get _ _ _ Hg1). cbn [bind].
  destruct (negb AUTH && negb (owners (r_health r1) =? 0)) eqn:Hc.
  - apply andb_true_iff in Hc as [Ha%negb_true_iff Hn%negb_true_iff]. apply Z.eqb_neq in Hn.
    set (r2 := on_health (fun h => with_demand h None) r1). eexists. split; [done|]. split; [done|].
    pose proof (step_put self1 k r1 r2 (s_ok _ _ _ _ _ _ Hs1) Hg1) as Hs2. rewrite Hr1, Hh1 in Hs2.
    pose proof (step_trans _ _ _ _ _ _ _ _ _ _ Hs1 Hs2) as Hs. split.
    + eapply core_step; [exact Hi|exact Hg|exact Hs|done|done|]. split; try done.
      congruence.
    + exists (Some r2). split; [exact Hs|]. do 2 (split; [done|]). split; [exact Ho1|]. split; [done|]. congruence.
  - eexists. split; [done|]. split; [done|].
    pose proof (step_discard self1 k r1 (s_ok _ _ _ _ _ _ Hs1) Hg1 Hr1) as Hs2. rewrite Hh1 in Hs2.
    pose proof (step_trans _ _ _ _ _ _ _ _ _ _ Hs1 Hs2) as Hs. split; [by eapply core_gone|].
    exists None. split; [exact Hs|]. simpl. destruct AUTH; [by left|right]. simpl in Hc.
    apply negb_false_iff, Z.eqb_eq in Hc. congruence.
Qed.

(** [self] after the removal, from the members [l], of those not in [current]. *)
Record pruned self self' (l current : list K) : Prop := {
  pr_core : core self';
  pr_gone k r : k ∈ l -> k ∉ current -> get self k = Some r -> is_desired r = true ->
    retired_as (get self' k) r /\ k ∉ order self';
  pr_kept k : (k ∉ l) \/ k ∈ current \/ (forall r, get self k = Some r -> is_desired r = false) ->
    get self' k = get self k /\ rs_ready (records self') k = rs_ready (records self) k
    /\ heap self' k = heap self k;
  pr_order : order self' = filter (fun k => k ∉ l \/ k ∈ current) (order self);
  pr_issued k : issued self' k <-> issued self k;
  pr_room n : roomy n self -> roomy n self';
  pr_same : desired self' = desired self /\ revision self' = revision self;
}.

Lemma order_desired self k : core self -> k ∈ order self -> exists r, get self k = Some r /\ is_desired r = true.
Proof.
  intros Hi Hk. destruct (rs_order_live (records self) k (i_ok _ _ Hi) Hk) as [r Hg]. exists r. split; [done|].
  apply (m_ready _ _ _ _ (i_member _ _ Hi _ _ Hg)). by apply ready_true; [apply Hi|].
Qed.

Lemma pruned_skip self self' k l current : core self -> k ∉ l ->
  k ∈ current \/ (forall r, get self k = Some r -> is_desired r = false) ->
  pruned self self' l current -> pruned self self' (k :: l) current.
Proof.
  intros Hi Hkl Hk []. split; try done.
  - intros x r [->|Hx]%elem_of_cons; [|by eauto]. intros Hc Hg Hd. destruct Hk as [|Hk]; [done|].
    rewrite (Hk r Hg) in Hd. done.
  - intros x Hx. apply pr_kept0. destruct Hx as [Hx|Hx]; [left; set_solver|by right].
  - rewrite pr_order0. apply filter_iff_in. intros x Hx. rewrite not_elem_of_cons.
    split; [intros [Hl|Hc]; [|by right]|naive_solver].
    destruct (decide (x = k)) as [->|]; [|by left].
    destruct Hk as [|Hk]; [by right|]. destruct (order_desired self k Hi Hx) as (r & Hg & Hd). by rewrite (Hk r Hg) in Hd.
Qed.

Lemma pruned_here self self1 self' k o r l current : core self -> core self1 -> get self k = Some r ->
  is_desired r = true -> k ∉ l -> k ∉ current -> step self self1 k o false None -> retired_as o r ->
  pruned self1 self' l current -> pruned self self' (k :: l) current.
Proof.
  intros Hi Hi1 Hg Hd Hkl Hkc Hs Ho Hp. destruct (step_here _ _ _ _ _ _ Hs) as (Hg1 & Hr1 & Hh1).
  assert (Hthere : forall x, x <> k -> get self1 x = get self x
    /\ rs_ready (records self1) x = rs_ready (records self) x /\ heap self1 x = heap self x)
    by (intros x Hx; by eapply step_there; [apply Hi|exact Hs|]).
  destruct (pr_kept _ _ _ _ Hp k (or_introl Hkl)) as (Ek & Rk & _).
  assert (Hko : k ∉ order self').
  { intros Hin. apply (ready_true self' k (i_ok _ _ (pr_core _ _ _ _ Hp))) in Hin. congruence. }
  split.
  - apply Hp.
  - intros x rx [->|Hx]%elem_of_cons Hxc Hgx Hdx.
    + split; [|done]. rewrite Ek, Hg1. by simplify_eq.
    + assert (Hne : x <> k) by (intros ->; done). eapply (pr_gone _ _ _ _ Hp); [done|done| |done].
      by rewrite (proj1 (Hthere x Hne)).
  - intros x Hx. destruct (decide (x = k)) as [->|Hne].
    + exfalso. destruct Hx as [Hx|[Hx|Hx]]; [set_solver|done|]. specialize (Hx r Hg). congruence.
    + destruct (Hthere x Hne) as (<- & <- & <-). apply (pr_kept _ _ _ _ Hp).
      destruct Hx as [Hx|[Hx|Hx]]; [left; set_solver|by right; left|right; right].
      intros rx Hrx. apply Hx. by rewrite <- (proj1 (Hthere x Hne)).
  - assert (Hk1 : k ∉ order self1) by (intros Hin; apply (ready_true self1 k (i_ok _ _ Hi1)) in Hin; congruence).
    assert (Ho1 : order self1 = without k (order self))
      by (rewrite <- (s_order _ _ _ _ _ _ Hs); symmetry; by apply without_absent).
    rewrite (pr_order _ _ _ _ Hp), Ho1. unfold without. rewrite list_filter_filter.
    apply list_filter_iff. intros x. rewrite not_elem_of_cons. split; [naive_solver|].
    intros [[? ?]|Hc]; [naive_solver|]. split; [by right|]. intros ->. done.
  - intros x. by rewrite (pr_issued _ _ _ _ Hp), (s_issued _ _ _ _ _ _ Hs).
  - intros n Hn. by apply (pr_room _ _ _ _ Hp), (s_room _ _ _ _ _ _ Hs).
  - destruct (pr_same _ _ _ _ Hp), (s_same _ _ _ _ _ _ Hs). split; congruence.
Qed.

Lemma prune_loop_spec l current : forall self, core self -> NoDup l -> (forall k, k ∈ l -> is_Some (get self k)) ->
  exists self', prune_loop AUTH l self current = Ok self' /\ pruned self self' l current.
Proof.
  induction l as [|k l IH]; intros self Hi Hnd Hlive.
  { exists self. split; [done|]. split; try done; [intros k r; set_solver|].
    symmetry. apply filter_all. intros x _. left. apply not_elem_of_nil. }
  apply NoDup_cons in Hnd as [Hkl Hnd]. destruct (Hlive k) as [r Hg]; [set_solver|].
  cbn [prune_loop]. rewrite (resident_get _ _ _ Hg). cbn [bind].
  destruct (is_desired r && negb (bool_decide (k ∈ current))) eqn:Hc.
  - apply andb_true_iff in Hc as [Hd Hkc%negb_true_iff%bool_decide_eq_false].
    destruct (prune_one self k r Hi Hg Hd) as (self1 & self2 & -> & E & Hi2 & o & Hs & Ho).
    cbn [bind]. destruct (resident self1 k) as [r1|[]|w]; [|done]. cbn [bind] in *. injection E as E. rewrite E.
    destruct (IH self2 Hi2 Hnd) as (self' & Hrun & Hp).
    { intros x Hx. destruct (step_there _ _ _ _ _ _ x (i_ok _ _ Hi) Hs) as (-> & _); [by intros ->|].
      apply Hlive. set_solver. }
    exists self'. split; [exact Hrun|]. by eapply (pruned_here self self2).
  - destruct (IH self Hi Hnd) as (self' & Hrun & Hp); [intros x Hx; apply Hlive; set_solver|].
    exists self'. split; [exact Hrun|]. apply pruned_skip; try done.
    apply andb_false_iff in Hc as [Hc|Hc].
    + right. intros r' Hg'. congruence.
    + left. by apply negb_false_iff, bool_decide_eq_true in Hc.
Qed.

Lemma prune_spec self current : core self ->
  exists self', prune AUTH self current = Ok self' /\ pruned self self' (occupied self) current.
Proof.
  intros Hi. apply prune_loop_spec; [done|by apply (occupied_NoDup _ Hi)|].
  intros k Hk. by apply (elem_occupied self Hi).
Qed.

Lemma find_duplicate_None (l : list Endpoint) : forall seen, find_duplicate seen l = None ->
  NoDup seen -> NoDup (seen ++ (Service.e_id <$> l)).
Proof.
  induction l as [|e l IH]; intros seen Hf Hs; simpl in *; [by rewrite app_nil_r|].
  destruct (list_find _ seen) as [[j i]|] eqn:E; [done|]. apply list_find_None in E.
  rewrite (cons_middle (Service.e_id e)), app_assoc. apply IH; [done|].
  apply NoDup_app. split; [done|]. split; [|apply NoDup_singleton].
  intros x Hx ->%list_elem_of_singleton. rewrite Forall_forall in E. by apply (E _ Hx).
Qed.
Lemma find_duplicate_Some (l : list Endpoint) a b : forall seen, find_duplicate seen l = Some (a, b) ->
  NoDup seen -> (a < b)%nat /\ exists i, (seen ++ (Service.e_id <$> l)) !! a = Some i
    /\ (seen ++ (Service.e_id <$> l)) !! b = Some i /\ NoDup (take b (seen ++ (Service.e_id <$> l))).
Proof.
  induction l as [|e l IH]; intros seen Hf Hs; simpl in *; [done|].
  destruct (list_find _ seen) as [[j i]|] eqn:E.
  - injection Hf as <- <-. apply list_find_Some in E as (Hj & -> & _). pose proof (lookup_lt_Some _ _ _ Hj).
    split; [done|]. exists (Service.e_id e). split; [by rewrite lookup_app_l|].
    split; [by rewrite lookup_app_r, Nat.sub_diag by lia|]. by rewrite take_app_length.
  - apply list_find_None in E. rewrite (cons_middle (Service.e_id e)), app_assoc. apply IH; [done|].
    apply NoDup_app. split; [done|]. split; [|apply NoDup_singleton].
    intros x Hx ->%list_elem_of_singleton. rewrite Forall_forall in E. by apply (E _ Hx).
Qed.

(** ** The whole of [try_apply] *)

(** [ks] are the members for [eps] in [self']: the ones [self] had, with their
    health and at their new address, and fresh ones. *)
Definition stands self self' (e : Endpoint) k : Prop :=
  (exists r, get self k = Some r /\ is_desired r = true /\ id r = Service.e_id e
    /\ get self' k = Some (with_addr r (Service.e_addr e))
    /\ rs_ready (records self') k = rs_ready (records self) k /\ heap self' k = heap self k)
  \/ (nobody self (Service.e_id e) /\ ~ issued self k
    /\ get self' k = Some (record_new (Service.e_id e) (Service.e_addr e))
    /\ rs_ready (records self') k = true).

Record synced self self' (eps : list Endpoint) (ks : list K) : Prop := {
  sy_core : core self';
  sy_each : Forall2 (stands self self') eps ks;
  sy_keys : NoDup ks;
  sy_only k : desires self' k <-> k ∈ ks;
  sy_order : order self' = filter (fun k => rs_ready (records self') k = true) ks;
  sy_owed k : AUTH = false -> owed self' k = owed self k;
  sy_issued k : issued self k -> issued self' k;
  sy_room n : roomy n self -> roomy n self';
}.

Lemma installs_stand self self1 self2 es ks : core self -> Forall (valid AUTH self) es -> installs AUTH self self1 es ks ->
  pruned self1 self2 (occupied self1) ks ->
  (forall j e k, es !! j = Some e -> (forall r, get self k = Some r -> is_desired r = true ->
     id r = Service.e_id (value e) -> match e with Keep k0 _ => k = k0 | New _ _ => False end)) ->
  Forall2 (stands self self2) (value <$> es) ks.
Proof.
  intros Hi Hv Hin Hp Hno. apply Forall2_same_length_lookup.
  split; [rewrite length_fmap; by eapply Forall2_length, Hin|]. intros j v k Hj Hk.
  rewrite list_lookup_fmap in Hj. destruct (es !! j) as [e|] eqn:He; [|done]. injection Hj as <-.
  pose proof (Forall2_lookup_lr _ _ _ _ _ _ (in_here _ _ _ _ _ Hin) He Hk) as Hhere.
  pose proof (Forall2_lookup_lr _ _ _ _ _ _ (in_kind _ _ _ _ _ Hin) He Hk) as Hkind.
  destruct (pr_kept _ _ _ _ Hp k) as (Eg & Er & Eh); [right; left; by eapply list_elem_of_lookup_2|].
  cbv beta in Hhere. rewrite Forall_forall in Hv. pose proof (Hv e (list_elem_of_lookup_2 _ _ _ He)) as Hve.
  unfold stands. rewrite Eg, Er, Eh, Hhere. destruct e as [k0 v|w v]; simpl in *.
  - left. destruct Hkind as (-> & -> & ->). destruct Hve as (r & Hg & Hd & Hid). exists r. rewrite Hg. by repeat split.
  - right. destruct Hkind as [Hn Hr]. split; [|by repeat split].
    intros x r Hg Hd Hid. by apply (Hno j (New w v) x He r).
Qed.

Lemma synced_intro self self1 self2 es ks : core self -> Forall (valid AUTH self) es -> installs AUTH self self1 es ks ->
  pruned self1 self2 (occupied self1) ks -> Forall2 (stands self self2) (value <$> es) ks ->
  synced self self2 (value <$> es) ks.
Proof.
  intros Hi Hv Hin Hp Hst. assert (Hi1 : core self1) by apply Hin.
  assert (Hks : forall k, k ∈ ks -> exists r, get self2 k = Some r /\ is_desired r = true).
  { intros k [j Hj]%list_elem_of_lookup. destruct (Forall2_lookup_r _ _ _ _ _ Hst Hj) as (e & _ & Hs).
    destruct Hs as [(r & _ & Hd & _ & Hg & _)|(_ & _ & Hg & _)]; by eexists. }
  assert (Hkept : forall k, k ∈ ks -> get self2 k = get self1 k /\ rs_ready (records self2) k = rs_ready (records self1) k
    /\ heap self2 k = heap self1 k) by (intros k Hk; apply (pr_kept _ _ _ _ Hp); by right; left).
  assert (Hkeep : forall k, k ∈ ks -> is_Some (get self k) -> inr k ∈ (handle <$> es)).
  { intros k [j Hj]%list_elem_of_lookup Hlive.
    destruct (Forall2_lookup_r _ _ _ _ _ (in_kind _ _ _ _ _ Hin) Hj) as (e & He & Hkd).
    apply list_elem_of_fmap. exists e. split; [|by eapply list_elem_of_lookup_2].
    destruct e as [k0 v|w v]; simpl in *; [by destruct Hkd as [-> _]|]. destruct Hkd as [Hn _].
    apply (not_issued _ _ _ Hi) in Hn. rewrite Hn in Hlive. by destruct Hlive. }
  split; try done.
  - apply Hp.
  - apply Hin.
  - intros k. split; [|by apply Hks]. intros (r & Hg & Hd). destruct (decide (k ∈ ks)) as [|Hk]; [done|exfalso].
    destruct (get self1 k) as [r1|] eqn:Hg1.
    + destruct (is_desired r1) eqn:Hd1.
      * destruct (pr_gone _ _ _ _ Hp k r1) as [Hret _]; [by apply (elem_occupied self1 Hi1); exists r1|done|done|done|].
        rewrite Hg in Hret. simpl in Hret. destruct Hret as (_ & ? & _). congruence.
      * destruct (pr_kept _ _ _ _ Hp k) as (E & _); [right; right; intros r' Hr'; congruence|]. congruence.
    + destruct (pr_kept _ _ _ _ Hp k) as (E & _); [right; right; intros r' Hr'; congruence|]. congruence.
  - rewrite (pr_order _ _ _ _ Hp), (in_order _ _ _ _ _ Hin), filter_app.
    replace (filter _ (filter (fun x => inr x ∉ (handle <$> es)) (order self))) with (@nil K).
    + simpl. rewrite list_filter_filter. apply filter_iff_in. intros k Hk.
      destruct (Hkept k Hk) as (_ & -> & _). naive_solver.
    + symmetry. rewrite list_filter_filter. apply filter_none. intros k Hk [Hor Hnh].
      destruct (order_desired self k Hi Hk) as (r & Hg & Hd).
      assert (Hnk : k ∉ ks) by (intros Hin'; apply Hnh, Hkeep; [done|by exists r]).
      destruct Hor as [Hocc|]; [|done]. apply Hocc, (elem_occupied self1 Hi1).
      rewrite (in_there _ _ _ _ _ Hin k Hnk), decide_False by done. by exists r.
  - intros k Ha. unfold owed. destruct (decide (k ∈ ks)) as [Hk|Hk].
    + pose proof Hk as [j Hj]%list_elem_of_lookup. destruct (Forall2_lookup_r _ _ _ _ _ Hst Hj) as (e & _ & Hs).
      destruct Hs as [(r & Hg & _ & _ & Hg2 & _)|(_ & Hn & Hg2 & _)]; rewrite Hg2; [by rewrite Hg|].
      by rewrite (not_issued _ _ _ Hi Hn).
    + pose proof (in_there _ _ _ _ _ Hin k Hk) as Hg1. destruct (decide (inr k ∈ (handle <$> es))) as [Hh|Hh].
      * destruct (pr_kept _ _ _ _ Hp k) as (-> & _); [right; right; congruence|]. rewrite Hg1.
        apply list_elem_of_fmap in Hh as (e & E & He). pose proof He as [j Hj]%list_elem_of_lookup.
        destruct (Forall2_lookup_l _ _ _ _ _ (in_kind _ _ _ _ _ Hin) Hj) as (k2 & Hk2 & Hkd).
        rewrite Forall_forall in Hv. specialize (Hv e He). destruct e as [k0 v|[i|k0] v]; simpl in *; simplify_eq.
        -- destruct Hkd as [-> _]. destruct Hk. by eapply list_elem_of_lookup_2.
        -- destruct Hv as (_ & _ & r & -> & Hown). by rewrite Hown.
      * destruct (get self k) as [r|] eqn:Hg.
        -- destruct (is_desired r) eqn:Hd.
           ++ destruct (pr_gone _ _ _ _ Hp k r) as [Hret _]; [by apply (elem_occupied self1 Hi1); rewrite Hg1|done|done|done|].
              destruct (get self2 k) as [r2|]; simpl in Hret; [by destruct Hret as (_ & _ & ? & _)|]. destruct Hret; congruence.
           ++ destruct (pr_kept _ _ _ _ Hp k) as (-> & _); [right; right; congruence|]. by rewrite Hg1.
        -- destruct (pr_kept _ _ _ _ Hp k) as (-> & _); [right; right; congruence|]. by rewrite Hg1.
  - intros k Hk. apply (pr_issued _ _ _ _ Hp). by apply (in_issued _ _ _ _ _ Hin).
  - intros n Hn. by apply (pr_room _ _ _ _ Hp), (in_room _ _ _ _ _ Hin).
Qed.

Lemma kept_alive self self1 es ks : core self -> Forall (valid AUTH self) es -> installs AUTH self self1 es ks ->
  (length (filter (fun k => contains self k = true) ks) + length (omap new_of es) = length es)%nat.
Proof.
  intros Hi Hv Hin. pose proof (in_kind _ _ _ _ _ Hin) as Hk. clear Hin.
  induction Hk as [|e k es ks He Hes IH]; [done|]. apply Forall_cons in Hv as [Hve Hv]. specialize (IH Hv).
  rewrite filter_cons. change (omap new_of (e :: es)) with (match new_of e with Some y => y :: omap new_of es | None => omap new_of es end).
  destruct e as [k0 v|w v]; simpl in *.
  - destruct He as [-> _]. destruct Hve as (r & Hg & _). rewrite contains_get, Hg. rewrite decide_True by done.
    simpl. lia.
  - destruct He as [Hn _]. rewrite contains_get, (not_issued _ _ _ Hi Hn). rewrite decide_False by done. simpl. lia.
Qed.

(** What [try_apply] does on every input. *)
Definition applies self (N : nat) (snap : Service.Snapshot I A) (m : run Service.Reconcile (Service.Change * Members)) : Prop :=
  let eps := Service.endpoints snap in
  let rev := Service.s_revision snap in
  match m with
  | Err (Service.Stale cur inc) => cur = revision self /\ inc = rev /\ inc <= cur
  | Err (Service.Duplicate a b) => revision self < rev /\ (a < b)%nat
      /\ (exists i, (Service.e_id <$> eps) !! a = Some i /\ (Service.e_id <$> eps) !! b = Some i)
      /\ NoDup (take b (Service.e_id <$> eps))
  | Err (Service.Capacity actual limit) => revision self < rev /\ NoDup (Service.e_id <$> eps)
      /\ actual = Z.of_nat (length eps) /\ limit < actual
      /\ forall cap, (forall k, rs_reusable k = true) -> roomy (N + cap) self ->
           (cap < length (filter (fun k => claimed_off self k = true) (occupied self)))%nat
  | Ok (c, self') => revision self < rev /\ NoDup (Service.e_id <$> eps)
      /\ revision self' = rev /\ inv self'
      /\ exists ks, synced self self' eps ks
      /\ let n := Z.of_nat (length (filter (fun k => contains self k = true) ks)) in
         c = Service.change (Z.of_nat (length eps) - n) n (desired self - n)
  | Stuck _ => False
  end.

Lemma kept_bounds self eps ks self' : inv self -> synced self self' eps ks ->
  let n := Z.of_nat (length (filter (fun k => contains self k = true) ks)) in
  n <= Z.of_nat (length eps) /\ n <= desired self.
Proof.
  intros Hi Hsy n. split.
  - unfold n. rewrite (Forall2_length _ _ _ (sy_each _ _ _ _ Hsy)). pose proof (length_filter (fun k => contains self k = true) ks). lia.
  - destruct (i_desired _ _ Hi) as (l & Hl & Hin & ->). unfold n. apply inj_le.
    apply submseteq_length, NoDup_submseteq; [apply NoDup_filter, Hsy|].
    intros k [Hc Hk]%list_elem_of_filter. apply Hin. pose proof Hk as [j Hj]%list_elem_of_lookup.
    destruct (Forall2_lookup_r _ _ _ _ _ (sy_each _ _ _ _ Hsy) Hj) as (e & _ & [(r & Hg & Hd & _)|(_ & Hn & _)]).
    + by exists r.
    + rewrite contains_get, (not_issued AUTH self k Hi Hn) in Hc. done.
Qed.

Lemma try_apply_spec self N snap : inv self -> (length (Service.endpoints snap) <= N)%nat ->
  applies self N snap (try_apply AUTH self N snap).
Proof.
  intros Hi Hlen. pose proof (Hi : core self) as Hco. set (eps := Service.endpoints snap) in *. unfold try_apply, applies. fold eps.
  destruct (Z.leb_spec (Service.s_revision snap) (revision self)); [done|].
  destruct (find_duplicate [] eps) as [[a b]|] eqn:Hdup.
  { apply find_duplicate_Some in Hdup as (Hab & i & Ha & Hb & Hn); [|constructor]. by eauto 10. }
  assert (Hids : NoDup (Service.e_id <$> eps)) by (apply (find_duplicate_None eps [] Hdup); constructor).
  unfold entries_try_apply. fold eps. fold (searched self N eps).
  pose proof (search_spec self N eps Hco Hlen) as [Hs Hl Hk Hc].
  pose proof (assign_spec N eps Hlen eps (keep (searched self N eps)) (spare (searched self N eps))) as Ha.
  rewrite Hl in Ha. specialize (Ha Hlen).
  assert (Hnk : (nones (take (length eps) (keep (searched self N eps))) + kept (searched self N eps) = length eps)%nat).
  { rewrite Hc. apply (nones_kept N eps Hlen); [by rewrite Hl|]. intros j k [_ Hm]%Hk. unfold match_of in Hm.
    destruct (get self k) as [r|]; [|done]. destruct (is_desired r); [|done].
    apply find_endpoint_Some in Hm as (e & He & _). by eapply lookup_lt_Some. }
  destruct (assign eps _ _) as [es|] eqn:Has; cycle 1.
  { cbn [bind]. repeat split; try done; [lia|]. intros cap Hre Hroom. apply Nat.lt_nge. intros Hle.
    destruct (room_enough self N eps Hco Hlen cap Hre Hroom Hle) as [? E]. congruence. }
  destruct Ha as (Hv & _ & Hnews & _).
  pose proof (slots_valid self N eps Hco Hlen Hids es Has) as Hval.
  destruct (commit_all_spec AUTH es self Hco Hval) as (ks & self1 & -> & Hin);
    [by eapply (slots_handles self N eps)|by eapply (slots_values self N eps)|].
  cbn [certain bind]. destruct (prune_spec self1 ks (in_core _ _ _ _ _ Hin)) as (self2 & -> & Hp). cbn [certain bind].
  assert (Hst : Forall2 (stands self self2) eps ks).
  { rewrite <- Hv. eapply installs_stand; [apply Hi|done|exact Hin|exact Hp|].
    intros j e k He r Hg Hd Hid. destruct (slots_keep self N eps Hco Hlen es Has j e He) as [Hep Hm].
    assert (Hmk : match_of self eps k = Some j).
    { unfold match_of. rewrite Hg, Hd. destruct (find_endpoint (id r) eps) as [j'|] eqn:Hf.
      - apply find_endpoint_Some in Hf as (e' & He' & Hide). f_equal.
        eapply (NoDup_lookup (Service.e_id <$> eps)); [done|by rewrite list_lookup_fmap, He'|].
        rewrite list_lookup_fmap, Hep. simpl. congruence.
      - exfalso. eapply find_endpoint_None; [exact Hf|by eapply list_elem_of_lookup_2|done]. }
    destruct e as [k0 v|w v].
    - eapply (match_of_inj self eps Hco); [exact Hmk|apply Hm].
    - destruct Hm as [Hno _]. by apply (Hno k); [exists r|]. }
  assert (Hsy : synced self self2 eps ks) by (rewrite <- Hv in Hst |- *; by eapply synced_intro; [apply Hi|..]).
  pose proof (kept_alive self self1 es ks Hi Hval Hin) as Halive.
  assert (Hlen_es : length es = length eps) by (rewrite <- Hv; by rewrite length_fmap).
  assert (Hkept : kept (searched self N eps) = length (filter (fun k => contains self k = true) ks)) by lia.
  rewrite Hkept. destruct (kept_bounds self eps ks self2 Hi Hsy) as [Hb1 Hb2]. cbv zeta in Hb1, Hb2.
  destruct (Z.ltb_spec (Z.of_nat (length eps)) (Z.of_nat (length (filter (fun k => contains self k = true) ks)))); [lia|].
  destruct (Z.ltb_spec (desired self) (Z.of_nat (length (filter (fun k => contains self k = true) ks)))); [lia|].
  simpl. split; [done|]. split; [done|]. split; [done|]. split.
  - split; [destruct (sy_core _ _ _ _ Hsy); by split|]. exists ks. split; [apply Hsy|]. split.
    + intros k. symmetry. apply (sy_only _ _ _ _ Hsy).
    + simpl. by rewrite (Forall2_length _ _ _ Hst).
  - exists ks. split; [|done]. destruct Hsy as [[]]. by split.
Qed.

(** ** Demand for the installed endpoints *)

Lemma set_demand_spec self f : inv self ->
  let '(w, self') := set_demand self f in
  claims AUTH self self' (fun _ => 0) /\ order self' = order self /\ (forall x, heap self' x = heap self x)
  /\ (desired self' = desired self /\ revision self' = revision self)
  /\ (forall x, get self' x = demanded f <$> get self x)
  /\ (w = true <-> exists k r, get self k = Some r /\ withdraws f r = true).
Proof.
  intros Hi. pose proof (demand_loop_spec AUTH f (occupied self) self false Hi (occupied_NoDup self Hi)) as Hd.
  unfold set_demand. destruct (demand_loop _ _ _ _) as [w self'].
  destruct Hd as [[Hc Hg Ho Hh Hsa] Hw]; [intros k Hk; by apply (elem_occupied self Hi)|].
  split; [done|]. split; [done|]. split; [done|]. split; [done|]. split.
  - intros x. rewrite Hg. destruct (decide (x ∈ occupied self)) as [|Hn]; [done|].
    rewrite (elem_occupied self Hi) in Hn. destruct (get self x); [|done]. by destruct Hn.
  - rewrite Hw. split.
    + intros [|(k & r & _ & ? & ?)]; [done|]. by exists k, r.
    + intros (k & r & Hk & ?). right. exists k, r. split; [|done]. apply (elem_occupied self Hi). by exists r.
Qed.

(** Some desired member has another demand than [f] asks for. *)
Lemma set_is_stale_spec self f : inv self ->
  set_is_stale self f = true <-> exists k r d, get self k = Some r /\ demand (r_health r) = Some d /\ d <> f (id r).
Proof.
  intros Hi. unfold set_is_stale. rewrite existsb_exists. split.
  - intros (k & _ & Hk). fold (get self k) in Hk. destruct (get self k) as [r|] eqn:Hg; [|done].
    apply andb_true_iff in Hk as [Hd Hne]. apply negb_true_iff, bool_decide_eq_false in Hne. unfold is_desired in Hd.
    destruct (demand (r_health r)) as [d|] eqn:E; [|done]. exists k, r, d. split; [done|]. split; [done|]. congruence.
  - intros (k & r & d & Hg & Hd & Hne). exists k. split.
    + apply list_elem_of_In, (elem_occupied self Hi). by exists r.
    + fold (get self k). rewrite Hg. unfold is_desired. rewrite Hd. simpl. apply negb_true_iff, bool_decide_eq_false. congruence.
Qed.

(** Once installed, a demand is not stale. *)
Lemma set_demand_settles self f : inv self -> set_is_stale (set_demand self f).2 f = false.
Proof.
  intros Hi. pose proof (set_demand_spec self f Hi) as Hd. destruct (set_demand self f) as [w self'].
  destruct Hd as (Hc & _ & _ & _ & Hg & _). apply not_true_is_false. intros (k & r & d & Hk & Hdm & Hne)%set_is_stale_spec;
    [|apply Hc].
  rewrite Hg in Hk. destruct (get self k) as [r0|]; [|done]. injection Hk as <-. unfold demanded in *.
  destruct (is_desired r0) eqn:E; simpl in *; [naive_solver|]. unfold is_desired in E. by rewrite Hdm in E.
Qed.
End search.
