(* ===== verification/Routes.v ===== *)
(** * Routes of the driver.

    Model of [src/layer0/core/src/driver/route]: slot positions and the edge of a
    segment (indices.rs), table capacities and their iteration (table/capacity.rs,
    table/mod.rs), segments that project local positions to physical ones
    (table/bounds.rs), the classes of operations (kind/mod.rs), and the words that
    pack a route, a class and a slot (token.rs, mod.rs). Machine integers are [Z]. *)

From S2P Require Import Prelude.

Module Route.
(** [FRAMEWORK], src/layer0/core/src/driver/route/mod.rs:17-17. *)
Definition FRAMEWORK : Z := 255.
(** [SHIFT], src/layer0/core/src/driver/route/mod.rs:20-20. *)
Definition SHIFT : Z := 56.
(** [KIND_SHIFT], src/layer0/core/src/driver/route/mod.rs:21-21. *)
Definition KIND_SHIFT : Z := 48.
(** [SLOT_BITS], src/layer0/core/src/driver/route/mod.rs:22-22. *)
Definition SLOT_BITS : Z := 24.
(** [SLOT_MASK], src/layer0/core/src/driver/route/mod.rs:23-23. *)
Definition SLOT_MASK : Z := Z.shiftl 1 SLOT_BITS - 1.

(** [Id], src/layer0/core/src/driver/route/mod.rs:33-33. A [u8]. *)
Record Id := id { id_raw : Z }.
(** [Route], src/layer0/core/src/driver/route/mod.rs:38-38. A [u8]. *)
Record Route := route { raw : Z }.
(** [Id::fixed], src/layer0/core/src/driver/route/mod.rs:41-44. [None] where it
    does not compile. *)
Definition id_fixed (ID : Z) : option Id := if ID =? FRAMEWORK then None else Some (id ID).
(** [Id::into_route], src/layer0/core/src/driver/route/mod.rs:51-53. *)
Definition into_route (self : Id) : Route := route (id_raw self).
(** [Route::is_framework], src/layer0/core/src/driver/route/mod.rs:71-73. *)
Definition is_framework (self : Route) : bool := raw self =? FRAMEWORK.
(** [Route::app], src/layer0/core/src/driver/route/mod.rs:59-65. *)
Definition app (self : Route) : option Id := if is_framework self then None else Some (id (raw self)).
(** [Route::from_bits], src/layer0/core/src/driver/route/mod.rs:67-69. *)
Definition from_bits (raw : Z) : Route := route raw.
(** [try_from], src/layer0/core/src/driver/route/mod.rs:89-91. *)
Definition id_try_from (r : Route) : run Route Id := ok_or (app r) r.

(** [OutboundKey], src/layer0/core/src/driver/route/token.rs:124-124. A [u8]. *)
Record OutboundKey := outbound { o_raw : Z }.
(** [OutboundKey::from_raw], src/layer0/core/src/driver/route/token.rs:131-137. *)
Definition outbound_from_raw (raw : Z) : option OutboundKey :=
  if raw <? FRAMEWORK then Some (outbound (wrap 8 raw)) else None.
End Route.

Module Slot.
Import Route.
(** [SlotIndex], src/layer0/core/src/driver/route/indices.rs:9-9. Its one-based
    encoding. *)
Record SlotIndex := slot_index { stored : Z }.
#[export] Instance slot_dec : EqDecision SlotIndex.
Proof. solve_decision. Defined.
(** [SlotIndex::ZERO], src/layer0/core/src/driver/route/indices.rs:28-28. *)
Definition ZERO : SlotIndex := slot_index 1.
(** [SlotIndex::MAX], src/layer0/core/src/driver/route/indices.rs:29-29. *)
Definition MAX : SlotIndex := slot_index (SLOT_MASK + 1).
(** [SlotIndex::encode], src/layer0/core/src/driver/route/indices.rs:78-81. *)
Definition encode (raw : Z) : SlotIndex := slot_index (Z.min (1 + raw) (2 ^ 32 - 1)).
(** [SlotIndex::raw], src/layer0/core/src/driver/route/indices.rs:66-68. *)
Definition raw (self : SlotIndex) : Z := stored self - 1.
(** [SlotIndex::fixed], src/layer0/core/src/driver/route/indices.rs:31-35. [None]
    where it does not compile. *)
Definition fixed (RAW : Z) : option SlotIndex := if RAW <=? SLOT_MASK then Some (encode RAW) else None.
(** [SlotIndex::into_le24], src/layer0/core/src/driver/route/indices.rs:41-44. *)
Definition into_le24 (self : SlotIndex) : bytes :=
  [wrap 8 (raw self); wrap 8 (Z.shiftr (raw self) 8); wrap 8 (Z.shiftr (raw self) 16)].
(** [SlotIndex::from_field], src/layer0/core/src/driver/route/indices.rs:52-55. *)
Definition from_field (bits : Z) : SlotIndex := encode (wrap 32 (Z.land bits SLOT_MASK)).
(** [SlotIndex::from_raw], src/layer0/core/src/driver/route/indices.rs:58-64. *)
Definition from_raw (raw : Z) : option SlotIndex :=
  if SLOT_MASK <? raw then None else Some (encode (wrap 32 raw)).
(** [SlotOverflow], src/layer0/core/src/driver/route/indices.rs:20-20. *)
Record SlotOverflow := slot_overflow { actual : Z }.
(** [SlotIndex::try_raw], src/layer0/core/src/driver/route/indices.rs:83-85. *)
Definition try_raw (raw actual : Z) : run SlotOverflow SlotIndex := ok_or (from_raw raw) (slot_overflow actual).
(** [try_from], src/layer0/core/src/driver/route/indices.rs:129-131. *)
Definition try_from_usize (raw : Z) : run SlotOverflow SlotIndex := try_raw raw raw.
(** [from], src/layer0/core/src/driver/route/indices.rs:141-145. From a [u16]. *)
Definition from_u16 (raw : Z) : SlotIndex := encode raw.

(** [Edge], src/layer0/core/src/driver/route/indices.rs:25-25. *)
Record Edge := edge { slot : SlotIndex }.
(** [Edge::raw], src/layer0/core/src/driver/route/indices.rs:107-109. *)
Definition edge_raw (self : Edge) : Z := raw (slot self).
(** [Edge::checked_add], src/layer0/core/src/driver/route/indices.rs:89-91. *)
Definition checked_add (self : Edge) (local : SlotIndex) : option SlotIndex :=
  from_raw (edge_raw self + raw local).
(** [Edge::offset], src/layer0/core/src/driver/route/indices.rs:95-101. *)
Definition edge_offset (self : Edge) (s : SlotIndex) : option SlotIndex :=
  if raw s <? edge_raw self then None else Some (from_field (raw s - edge_raw self)).
(** [from], src/layer0/core/src/driver/route/indices.rs:113-115. [raw] is the count
    of the connection capacity. *)
Definition edge_from (raw : Z) : Edge := edge (from_field raw).
End Slot.

Module Table.
Import Route Slot.
(** [Invalid], src/layer0/core/src/driver/route/table/mod.rs:27-31. *)
Record Invalid := invalid { actual : Z; minimum : Z; maximum : Z }.
(** [Capacity], src/layer0/core/src/driver/route/table/capacity.rs:19-19. *)
Record Capacity := capacity { count : Z }.
(** [Capacity::contains], src/layer0/core/src/driver/route/table/capacity.rs:43-45. *)
Definition contains (self : Capacity) (index : SlotIndex) : bool := raw index <? count self.
(** [Capacity::next], src/layer0/core/src/driver/route/table/capacity.rs:48-55. *)
Definition next (self : Capacity) (index : SlotIndex) : option SlotIndex :=
  let raw := raw index + 1 in
  if raw <? count self then Some (from_field raw) else None.
(** [try_from], src/layer0/core/src/driver/route/table/capacity.rs:89-95. *)
Definition try_from (actual : Z) : run Invalid Capacity :=
  let maximum := SLOT_MASK + 1 in
  if maximum <? actual then Err (invalid actual 0 maximum) else Ok (capacity (wrap 32 actual)).
(** [Capacity::try_nonzero], src/layer0/core/src/driver/route/table/capacity.rs:23-29. *)
Definition try_nonzero (count : Z) : run Invalid Z :=
  let! _ := try_from count in Ok count.
(** [Capacity::span], src/layer0/core/src/driver/route/table/capacity.rs:39-41. *)
Definition span (self : Capacity) : option Z := if count self =? 0 then None else Some (count self).

(** [Outside], src/layer0/core/src/driver/route/table/bounds.rs:6-9. *)
Record Outside := outside { o_actual : Z; o_limit : Z }.
(** [Excluded], src/layer0/core/src/driver/route/table/bounds.rs:14-17. *)
Record Excluded := excluded { e_actual : SlotIndex; e_capacity : Capacity }.
(** [Slot], src/layer0/core/src/driver/route/table/bounds.rs:20-23. *)
Inductive SlotError := Abi (e : Outside) | Beyond (e : Outside).
(** [Capacity::excludes], src/layer0/core/src/driver/route/table/capacity.rs:57-63. *)
Definition excludes (self : Capacity) (index : SlotIndex) : option Excluded :=
  if contains self index then None else Some (excluded index self).
(** [Capacity::slot], src/layer0/core/src/driver/route/table/capacity.rs:65-77. *)
Definition slot (self : Capacity) (index : Z) : run SlotError SlotIndex :=
  let! s := map_err (fun e => Abi (outside (Slot.actual e) (SLOT_MASK + 1))) (try_from_usize index) in
  if contains self s then Ok s else Err (Beyond (outside index (count self))).

(** [Iter], src/layer0/core/src/driver/route/table/mod.rs:119-119. A [Range<u32>]. *)
Record Iter := iter { start : Z; end_ : Z }.
(** [Iter::slot], src/layer0/core/src/driver/route/table/mod.rs:149-151. *)
Definition iter_slot (raw : Z) : SlotIndex := from_field raw.
(** [into_iter], src/layer0/core/src/driver/route/table/capacity.rs:102-104. *)
Definition into_iter (self : Capacity) : Iter := iter 0 (count self).
(** [next], src/layer0/core/src/driver/route/table/mod.rs:124-126. *)
Definition iter_next (self : Iter) : option SlotIndex * Iter :=
  if start self <? end_ self then (Some (iter_slot (start self)), iter (start self + 1) (end_ self)) else (None, self).
(** [next_back], src/layer0/core/src/driver/route/table/mod.rs:139-141. *)
Definition iter_next_back (self : Iter) : option SlotIndex * Iter :=
  if start self <? end_ self then (Some (iter_slot (end_ self - 1)), iter (start self) (end_ self - 1)) else (None, self).
(** [nth], src/layer0/core/src/driver/route/table/mod.rs:128-130. *)
Definition iter_nth (self : Iter) (n : Z) : option SlotIndex * Iter :=
  if start self + n <? end_ self then (Some (iter_slot (start self + n)), iter (start self + n + 1) (end_ self))
  else (None, iter (end_ self) (end_ self)).
(** [size_hint], src/layer0/core/src/driver/route/table/mod.rs:132-135. *)
Definition iter_size_hint (self : Iter) : Z * option Z :=
  let len := Z.max 0 (end_ self - start self) in (len, Some len).
(** The slots an iterator yields, by [next] until it yields none. *)
Fixpoint slots (fuel : nat) (self : Iter) : list SlotIndex :=
  match fuel with
  | O => []
  | S fuel => match iter_next self with (Some s, self) => s :: slots fuel self | (None, _) => [] end
  end.

(** [SegmentError], src/layer0/core/src/driver/route/table/bounds.rs:26-29. *)
Record SegmentError := segment_error { se_base : Edge; se_capacity : Capacity }.
(** [Offset], src/layer0/core/src/driver/route/table/bounds.rs:32-38. *)
Inductive Offset := Before (actual : SlotIndex) (base : Edge) | OCapacity (e : Excluded).
(** [Segment], src/layer0/core/src/driver/route/table/bounds.rs:42-45. *)
Record Segment := segment { base : Edge; s_capacity : Capacity }.
(** [Index], src/layer0/core/src/driver/route/table/bounds.rs:52-55. *)
Record Index := index { local : SlotIndex; physical : SlotIndex }.
(** [Segment::try_new], src/layer0/core/src/driver/route/table/bounds.rs:91-100. *)
Definition segment_try_new (base : Edge) (cap : Capacity) : run SegmentError Segment :=
  if match fst (iter_next_back (into_iter cap)) with
     | Some last => match checked_add base last with None => true | Some _ => false end
     | None => false
     end
  then Err (segment_error base cap)
  else Ok (segment base cap).
(** [Segment::project], src/layer0/core/src/driver/route/table/bounds.rs:119-125. *)
Definition project (self : Segment) (local : SlotIndex) : Index :=
  index local (from_field (edge_raw (base self) + raw local)).
(** [Segment::try_index], src/layer0/core/src/driver/route/table/bounds.rs:106-111. *)
Definition try_index (self : Segment) (local : SlotIndex) : run Excluded Index :=
  match excludes (s_capacity self) local with
  | Some e => Err e
  | None => Ok (project self local)
  end.
(** [Segment::indices], src/layer0/core/src/driver/route/table/bounds.rs:113-117. *)
Definition indices (self : Segment) : list Index :=
  map (project self) (slots (Z.to_nat (count (s_capacity self))) (into_iter (s_capacity self))).
(** [Segment::offset], src/layer0/core/src/driver/route/table/bounds.rs:127-138. *)
Definition offset (self : Segment) (physical : SlotIndex) : run Offset Index :=
  match edge_offset (base self) physical with
  | None => Err (Before physical (base self))
  | Some local =>
      if negb (contains (s_capacity self) local) then Err (OCapacity (excluded local (s_capacity self)))
      else Ok (index local physical)
  end.
End Table.

Module Kind.
(** [Kind], src/layer0/core/src/driver/route/kind/mod.rs:89-104. *)
Inductive Kind :=
  | Unspecified | Accept | Recv | Send | Socket | Connect | Shutdown | Open | OneShot | TaskQueue
  | Tuning | Write | Sync | Read.
#[export] Instance kind_dec : EqDecision Kind.
Proof. solve_decision. Defined.
(** [Kind], src/layer0/core/src/driver/route/kind/mod.rs:89-104. [self as u8]. *)
Definition code (self : Kind) : Z :=
  match self with
  | Unspecified => 0 | Accept => 1 | Recv => 2 | Send => 3 | Socket => 5 | Connect => 6 | Shutdown => 7
  | Open => 11 | OneShot => 19 | TaskQueue => 21 | Tuning => 25 | Write => 28 | Sync => 29 | Read => 30
  end.
(** [Native], src/layer0/core/src/driver/route/kind/mod.rs:30-41. *)
Inductive Native :=
  | NAccept | NRecv | NSend | NSocket | NConnect | NOpen | NTuning | NWrite | NSync | NRead.
(** [Native], src/layer0/core/src/driver/route/kind/mod.rs:30-41. [self as u8]. *)
Definition native_code (self : Native) : Z :=
  match self with
  | NAccept => 1 | NRecv => 2 | NSend => 3 | NSocket => 5 | NConnect => 6 | NOpen => 11 | NTuning => 25
  | NWrite => 28 | NSync => 29 | NRead => 30
  end.
(** [Unknown], src/layer0/core/src/driver/route/kind/mod.rs:108-108. *)
Record Unknown := unknown { u_raw : Z }.
End Kind.

Module Token.
Import Route Slot Table Kind.
(** [o3::base::num::Epoch], a nonzero [u64] bound to its thread. *)
Class Epochs (Epoch Thread : Type) := { into_parts : Epoch -> Z * Thread; epoch_new : Z -> Thread -> Epoch }.
Class EpochsLaws (Epoch Thread : Type) `{Epochs Epoch Thread} := {
  epoch_parts e : epoch_new (into_parts e).1 (into_parts e).2 = e;
}.

Section token.
Context {Epoch Thread : Type} `{Epochs Epoch Thread}.
(** [Token], src/layer0/core/src/driver/route/token.rs:12-16. *)
Record Token := token { t_epoch : Z; t_thread : Thread; meta : Z }.
(** [Parts], src/layer0/core/src/driver/route/table/mod.rs:35-39. *)
Record Parts := parts { p_epoch : Epoch; p_slot : SlotIndex }.
(** [Tag], src/layer0/core/src/driver/route/mod.rs:105-108. The two constants of a
    tag. *)
Record Tag := tag { ROUTE : Route; CLASS : Kind }.

(** [Token::pack], src/layer0/core/src/driver/route/token.rs:35-49. *)
Definition pack (r : Route) (kind : Z) (s : SlotIndex) (e : Epoch) : Token :=
  let '(e, thread) := into_parts e in
  token e thread (Z.lor (Z.lor (Z.shiftl (Route.raw r) SHIFT) (Z.shiftl kind KIND_SHIFT)) (Slot.raw s)).
(** [Token::from_flight], src/layer0/core/src/driver/route/token.rs:26-33. *)
Definition from_flight (e : Epoch) (s : SlotIndex) (kind : Native) (r : Route) : Token :=
  pack r (native_code kind) s e.
(** [Token::route], src/layer0/core/src/driver/route/token.rs:51-53. *)
Definition t_route (self : Token) : Route := Route.from_bits (wrap 8 (Z.shiftr (meta self) SHIFT)).
(** [Token::kind_raw], src/layer0/core/src/driver/route/token.rs:76-78. *)
Definition kind_raw (self : Token) : Z := wrap 8 (Z.shiftr (meta self) KIND_SHIFT).
(** [Token::kind], src/layer0/core/src/driver/route/token.rs:55-74. *)
Definition kind (self : Token) : run Unknown Kind :=
  match kind_raw self with
  | 0 => Ok Unspecified
  | 1 => Ok Accept
  | 2 => Ok Recv
  | 3 => Ok Send
  | 5 => Ok Socket
  | 6 => Ok Connect
  | 7 => Ok Shutdown
  | 11 => Ok Open
  | 19 => Ok OneShot
  | 21 => Ok TaskQueue
  | 25 => Ok Tuning
  | 28 => Ok Write
  | 29 => Ok Sync
  | 30 => Ok Read
  | u => Err (unknown u)
  end.
(** [Token::slot], src/layer0/core/src/driver/route/token.rs:80-82. *)
Definition t_slot (self : Token) : SlotIndex := from_field (meta self).
(** [Token::epoch], src/layer0/core/src/driver/route/token.rs:84-86. *)
Definition epoch (self : Token) : Epoch := epoch_new (t_epoch self) (t_thread self).
(** [Token::encode], src/layer0/core/src/driver/route/token.rs:88-94. *)
Definition encode_as (t : Tag) (class : Kind) (p : Parts) : Token := pack (ROUTE t) (code class) (p_slot p) (p_epoch p).
(** [Token::from_parts], src/layer0/core/src/driver/route/token.rs:97-104. *)
Definition from_parts (t : Tag) (p : Parts) : Token := pack (ROUTE t) (code (CLASS t)) (p_slot p) (p_epoch p).

(** [Operation], src/layer0/core/src/driver/route/mod.rs:195-199. *)
Record Operation := operation { op_token : Token }.
(** [Erased], src/layer0/core/src/driver/route/mod.rs:244-251. Without the flight
    that a completion adds. *)
Record Erased := erased { er_token : Token }.
(** [Mismatch], src/layer0/core/src/driver/route/mod.rs:303-306. *)
Record Mismatch := mismatch { target : Erased }.
(** [Target::operation], src/layer0/core/src/driver/route/mod.rs:451-457. *)
Definition target_operation (t : Tag) (class : Kind) (p : Parts) : Operation := operation (encode_as t class p).
(** [Target::dispatch], src/layer0/core/src/driver/route/mod.rs:459-462. *)
Definition dispatch (t : Tag) (p : Parts) : Operation := operation (from_parts t p).
(** [Operation::parts], src/layer0/core/src/driver/route/mod.rs:214-216. *)
Definition op_parts (self : Operation) : Parts := parts (epoch (op_token self)) (t_slot (op_token self)).
(** [Operation::erase_route], src/layer0/core/src/driver/route/mod.rs:218-220. *)
Definition erase_route (self : Operation) : Erased := erased (op_token self).
(** [Space::parse], src/layer0/core/src/driver/route/mod.rs:402-413. *)
Definition parse (t : Tag) (e : Erased) : run Mismatch Operation :=
  if negb (Route.raw (t_route (er_token e)) =? Route.raw (ROUTE t)) then Err (mismatch e)
  else Ok (operation (er_token e)).

(** [Control], src/layer0/core/src/driver/route/mod.rs:346-346. *)
Record Control := control { c_raw : Z }.
(** [Control::new], src/layer0/core/src/driver/route/mod.rs:355-361. *)
Definition control_new (kind : Z) (s : SlotIndex) : Control :=
  control (Z.lor (Z.lor (Z.shiftl FRAMEWORK SHIFT) (Z.shiftl kind KIND_SHIFT)) (Slot.raw s)).
(** [Control::slot], src/layer0/core/src/driver/route/mod.rs:363-365. *)
Definition control_slot (self : Control) : SlotIndex := from_field (c_raw self).
(** [try_from], src/layer0/core/src/driver/route/mod.rs:371-377. *)
Definition control_try_from (raw : Z) : run Z Control :=
  if negb (wrap 8 (Z.shiftr raw SHIFT) =? FRAMEWORK) then Err raw else Ok (control raw).
(** [SHUTDOWN], src/layer0/core/src/driver/route/mod.rs:323-323. *)
Definition SHUTDOWN : Control := control_new (code Shutdown) ZERO.
End token.
Arguments Token : clear implicits.
Arguments Parts : clear implicits.
Arguments Operation : clear implicits.
Arguments Erased : clear implicits.
Arguments Mismatch : clear implicits.
End Token.
