(* ===== verification/RoutesFacts.v ===== *)
(** * Routes: positions, segments and words are exact. *)

From S2P Require Import Prelude Routes.
Import Route Slot Table Kind Token.

(** ** Positions *)

Lemma SLOT_MASK_value : SLOT_MASK = 2 ^ 24 - 1.
Proof. done. Qed.
Definition slot_ok (s : SlotIndex) : Prop := 0 <= raw s <= SLOT_MASK.
Definition capacity_ok (c : Capacity) : Prop := 0 <= count c <= SLOT_MASK + 1.

Lemma encode_raw n : 0 <= n <= SLOT_MASK -> raw (encode n) = n.
Proof. rewrite SLOT_MASK_value. intros Hn. unfold raw, encode. simpl. lia. Qed.
Lemma raw_encode s : slot_ok s -> encode (raw s) = s.
Proof. unfold slot_ok. rewrite SLOT_MASK_value. intros Hs. destruct s as [n]. unfold encode, raw in *. simpl in *. f_equal. lia. Qed.
Lemma raw_inj s s' : raw s = raw s' -> s = s'.
Proof. destruct s, s'. unfold raw. simpl. intros. f_equal. lia. Qed.
Lemma land_mask n : Z.land n SLOT_MASK = n mod 2 ^ 24.
Proof. rewrite SLOT_MASK_value. replace (2 ^ 24 - 1) with (Z.ones 24) by done. by rewrite Z.land_ones. Qed.
Lemma from_field_raw n : raw (from_field n) = n mod 2 ^ 24.
Proof.
  unfold from_field. rewrite land_mask. pose proof (Z.mod_pos_bound n (2 ^ 24) ltac:(lia)).
  unfold wrap. rewrite (Z.mod_small (n mod 2 ^ 24) (2 ^ 32)) by lia. apply encode_raw. rewrite SLOT_MASK_value. lia.
Qed.
Lemma from_field_small n : 0 <= n <= SLOT_MASK -> raw (from_field n) = n.
Proof. rewrite SLOT_MASK_value. intros Hn. rewrite from_field_raw. apply Z.mod_small. lia. Qed.
Lemma from_field_ok n : slot_ok (from_field n).
Proof. unfold slot_ok. rewrite from_field_raw, SLOT_MASK_value. pose proof (Z.mod_pos_bound n (2 ^ 24) ltac:(lia)). lia. Qed.
Lemma from_field_of s : slot_ok s -> from_field (raw s) = s.
Proof. intros Hs. apply raw_inj. by apply from_field_small. Qed.
Lemma from_raw_spec n : 0 <= n -> from_raw n = if n <=? SLOT_MASK then Some (from_field n) else None.
Proof.
  intros Hn. unfold from_raw. destruct (Z.ltb_spec SLOT_MASK n), (Z.leb_spec n SLOT_MASK); try lia; [done|]. f_equal.
  apply raw_inj. rewrite from_field_small by lia. unfold wrap. rewrite SLOT_MASK_value in *.
  rewrite Z.mod_small by lia. apply encode_raw. rewrite SLOT_MASK_value. lia.
Qed.

(** ** Words *)

Lemma shiftr_lor_low a b n : 0 <= n -> 0 <= b < 2 ^ n -> Z.shiftr (Z.lor (Z.shiftl a n) b) n = a.
Proof.
  intros Hn Hb. rewrite Z.shiftr_lor, Z.shiftr_shiftl_l, Z.sub_diag by lia. simpl.
  rewrite (Z.shiftr_div_pow2 b), Z.div_small by lia. by rewrite Z.lor_0_r.
Qed.
Lemma lor_low_mod a b n : 0 <= n -> 0 <= b < 2 ^ n -> Z.lor (Z.shiftl a n) b mod 2 ^ n = b.
Proof.
  intros Hn Hb. rewrite <- Z.land_ones, Z.land_lor_distr_l by done. rewrite !Z.land_ones by done.
  rewrite Z.shiftl_mul_pow2, Z.mod_mul by lia. simpl. by apply Z.mod_small.
Qed.
Lemma lor_low_range a b n m : 0 <= n -> 0 <= m -> 0 <= a < 2 ^ m -> 0 <= b < 2 ^ n -> 0 <= Z.lor (Z.shiftl a n) b < 2 ^ (n + m).
Proof.
  intros Hn Hm Ha Hb. assert (Hs : Z.lor (Z.shiftl a n) b = a * 2 ^ n + b).
  { rewrite (Z.div_mod (Z.lor (Z.shiftl a n) b) (2 ^ n)) at 1 by lia.
    rewrite lor_low_mod, <- Z.shiftr_div_pow2, shiftr_lor_low by lia. lia. }
  rewrite Hs, Z.pow_add_r by lia. nia.
Qed.

(** The three fields of a word. *)
Definition word (r k s : Z) : Z := Z.lor (Z.lor (Z.shiftl r SHIFT) (Z.shiftl k KIND_SHIFT)) s.
Lemma word_nested r k s : word r k s = Z.lor (Z.shiftl (Z.lor (Z.shiftl r 8) k) KIND_SHIFT) s.
Proof. unfold word. rewrite Z.shiftl_lor, Z.shiftl_shiftl by done. done. Qed.
Lemma word_fields r k s : 0 <= r < 256 -> 0 <= k < 256 -> 0 <= s <= SLOT_MASK ->
  wrap 8 (Z.shiftr (word r k s) SHIFT) = r /\ wrap 8 (Z.shiftr (word r k s) KIND_SHIFT) = k
  /\ word r k s mod 2 ^ 24 = s /\ 0 <= word r k s < 2 ^ 64.
Proof.
  rewrite SLOT_MASK_value. intros Hr Hk Hs. rewrite word_nested.
  assert (Hlow : 0 <= s < 2 ^ KIND_SHIFT) by (unfold KIND_SHIFT; lia).
  assert (Hrk : 0 <= Z.lor (Z.shiftl r 8) k < 2 ^ (8 + 8)) by (apply lor_low_range; lia).
  split; [|split; [|split]].
  - change SHIFT with (KIND_SHIFT + 8). rewrite <- Z.shiftr_shiftr, shiftr_lor_low, shiftr_lor_low by (unfold KIND_SHIFT; lia).
    apply Z.mod_small. lia.
  - rewrite shiftr_lor_low by (unfold KIND_SHIFT; lia). unfold wrap. apply lor_low_mod; lia.
  - rewrite <- (Z.mod_small s (2 ^ KIND_SHIFT)) at 2 by done.
    transitivity ((Z.lor (Z.shiftl (Z.lor (Z.shiftl r 8) k) KIND_SHIFT) s mod 2 ^ KIND_SHIFT) mod 2 ^ 24).
    + rewrite Z.mod_mod_divide; [done|]. by exists (2 ^ 24).
    + rewrite lor_low_mod by (unfold KIND_SHIFT in *; lia). rewrite !Z.mod_small by (unfold KIND_SHIFT in *; lia). done.
  - change 64 with (48 + (8 + 8)). apply (lor_low_range _ _ 48 (8 + 8)); unfold KIND_SHIFT in *; lia.
Qed.

(** ** Tables *)

Definition from_nat (n : nat) : SlotIndex := from_field (Z.of_nat n).
Lemma slots_from fuel a b : (Z.to_nat (b - a) <= fuel)%nat -> 0 <= a ->
  slots fuel (iter a b) = map (fun n => from_field (a + Z.of_nat n)) (seq 0 (Z.to_nat (b - a))).
Proof.
  revert a. induction fuel as [|fuel IH]; intros a Hf Ha.
  { by replace (Z.to_nat (b - a)) with O by lia. }
  simpl. unfold iter_next. simpl. destruct (Z.ltb_spec a b).
  - rewrite IH by lia. replace (Z.to_nat (b - a)) with (S (Z.to_nat (b - (a + 1)))) by lia. simpl.
    unfold iter_slot. f_equal; [f_equal; lia|]. rewrite <- seq_shift, map_map. apply map_ext. intros n. f_equal. lia.
  - by replace (Z.to_nat (b - a)) with O by lia.
Qed.
Lemma slots_all c : capacity_ok c -> slots (Z.to_nat (count c)) (into_iter c) = map from_nat (seq 0 (Z.to_nat (count c))).
Proof. intros Hc. unfold into_iter. rewrite slots_from by lia. rewrite Z.sub_0_r. apply map_ext. intros n. by unfold from_nat. Qed.
Lemma elem_slots c s : capacity_ok c -> slot_ok s ->
  s ∈ map from_nat (seq 0 (Z.to_nat (count c))) <-> contains c s = true.
Proof.
  unfold capacity_ok, slot_ok. intros Hc Hs. rewrite list_elem_of_In, in_map_iff. unfold contains. rewrite Z.ltb_lt. split.
  - intros (n & <- & Hn%in_seq). unfold from_nat. rewrite from_field_small by lia. lia.
  - intros Hlt. exists (Z.to_nat (raw s)). split; [|apply in_seq; lia]. unfold from_nat. rewrite Z2Nat.id by lia. by apply from_field_of.
Qed.
Lemma next_spec c s : capacity_ok c -> slot_ok s ->
  next c s = if raw s + 1 <? count c then Some (from_field (raw s + 1)) else None.
Proof. done. Qed.

(** A table's iteration is exact. For every capacity, iterating yields each
    slot of the table once, in order, and no other; [contains] decides them;
    [next] is the successor inside of the table; and [slot] admits a position as
    a slot exactly when the table has it, and names the bound it breaks
    otherwise. *)
Theorem table_slots_exact c s n : capacity_ok c -> slot_ok s -> 0 <= n ->
  let l := slots (Z.to_nat (count c)) (into_iter c) in
  Z.of_nat (length l) = count c /\ NoDup l
  /\ (s ∈ l <-> contains c s = true)
  /\ (forall i, l !! i = Some s -> raw s = Z.of_nat i /\ Table.next c s = l !! (i + 1)%nat)
  /\ Table.slot c n = (if n <? count c then Ok (from_field n)
                       else if n <=? SLOT_MASK then Err (Beyond (outside n (count c)))
                       else Err (Abi (outside n (SLOT_MASK + 1)))).
Proof.
  intros Hc Hs Hn l. unfold l. rewrite slots_all by done. split; [by rewrite length_map, length_seq; unfold capacity_ok in Hc; lia|].
  assert (Hat : forall i s', map from_nat (seq 0 (Z.to_nat (count c))) !! i = Some s' -> raw s' = Z.of_nat i /\ (i < Z.to_nat (count c))%nat).
  { intros i s' Hi. rewrite list_lookup_fmap in Hi. destruct (seq _ _ !! i) as [m|] eqn:Hm; [|done]. injection Hi as <-.
    apply lookup_seq in Hm as [-> ?]. unfold capacity_ok in Hc. unfold from_nat. rewrite from_field_small by lia. lia. }
  split; [|split; [by apply elem_slots|split]].
  - apply NoDup_alt. intros i j x Hi Hj. apply Hat in Hi as [? _], Hj as [? _]. lia.
  - intros i Hi. destruct (Hat i s Hi) as [Hr Hlt]. split; [done|]. unfold Table.next. rewrite Hr. destruct (Z.ltb_spec (Z.of_nat i + 1) (count c)).
    + rewrite list_lookup_fmap, lookup_seq_lt by lia. simpl. unfold from_nat. do 2 f_equal. lia.
    + rewrite list_lookup_fmap, lookup_seq_ge by lia. done.
  - unfold Table.slot, try_from_usize, try_raw. rewrite from_raw_spec by done. unfold capacity_ok in Hc.
    destruct (Z.leb_spec n SLOT_MASK); simpl.
    + unfold contains. rewrite from_field_small by lia. by destruct (n <? count c).
    + destruct (Z.ltb_spec n (count c)); [lia|done].
Qed.
Lemma table_slots_exact_witness :
  let c := capacity 3 in let l := slots 3 (into_iter c) in
  Z.of_nat (length l) = 3 /\ NoDup l /\ (from_field 2 ∈ l <-> contains c (from_field 2) = true)
  /\ (forall i, l !! i = Some (from_field 2) -> raw (from_field 2) = Z.of_nat i /\ Table.next c (from_field 2) = l !! (i + 1)%nat)
  /\ Table.slot c 7 = Err (Beyond (outside 7 3)).
Proof. apply (table_slots_exact (capacity 3) (from_field 2) 7);
  [vm_compute; split; congruence|vm_compute; split; congruence|lia]. Defined.

(** ** Segments *)

Definition edge_ok (b : Edge) : Prop := slot_ok (Slot.slot b).
Lemma segment_new b c : edge_ok b -> capacity_ok c ->
  segment_try_new b c = if (count c =? 0) || (edge_raw b + (count c - 1) <=? SLOT_MASK) then Ok (segment b c)
                        else Err (segment_error b c).
Proof.
  unfold edge_ok, slot_ok, capacity_ok. intros Hb Hc. unfold segment_try_new, into_iter, iter_next_back. simpl.
  destruct (Z.ltb_spec 0 (count c)), (Z.eqb_spec (count c) 0); try lia; [|done]. simpl.
  unfold checked_add, iter_slot. rewrite from_field_small by lia. unfold edge_raw. rewrite from_raw_spec by lia.
  by destruct (Z.leb_spec (raw (Slot.slot b) + (count c - 1)) SLOT_MASK).
Qed.

(** A segment projects exactly. [Segment::try_new] admits a base and a
    capacity exactly when every physical position is a slot; then [try_index]
    and [offset] are inverse of each other on the slots of the segment, the
    physical position is the base plus the local one with no wrap-around,
    distinct local positions stay distinct, and a position outside of the
    segment is rejected, with the side it is on. *)
Theorem segment_projects_exactly b c s : edge_ok b -> capacity_ok c -> slot_ok s ->
  match segment_try_new b c with
  | Ok g =>
      try_index g s = (if raw s <? count c then Ok (index s (from_field (edge_raw b + raw s))) else Err (excluded s c))
      /\ (raw s < count c -> raw (from_field (edge_raw b + raw s)) = edge_raw b + raw s
          /\ offset g (from_field (edge_raw b + raw s)) = Ok (index s (from_field (edge_raw b + raw s))))
      /\ offset g s = (if raw s <? edge_raw b then Err (Before s b)
                       else if raw s - edge_raw b <? count c then Ok (index (from_field (raw s - edge_raw b)) s)
                       else Err (OCapacity (excluded (from_field (raw s - edge_raw b)) c)))
      /\ length (indices g) = Z.to_nat (count c)
  | Err e => e = segment_error b c /\ SLOT_MASK < edge_raw b + (count c - 1)
  | Stuck _ => False
  end.
Proof.
  intros Hb Hc Hs. rewrite segment_new by done. destruct (_ || _) eqn:Hfit; [|].
  - assert (Hroom : raw s < count c -> edge_raw b + raw s <= SLOT_MASK).
    { apply orb_true_iff in Hfit as [Hz%Z.eqb_eq|Hz%Z.leb_le]; unfold slot_ok in *; lia. }
    unfold edge_ok, slot_ok, capacity_ok, edge_raw in *.
    assert (Hoff : forall x, 0 <= raw x <= SLOT_MASK -> offset (segment b c) x =
      (if raw x <? edge_raw b then Err (Before x b) else if raw x - edge_raw b <? count c then Ok (index (from_field (raw x - edge_raw b)) x)
       else Err (OCapacity (excluded (from_field (raw x - edge_raw b)) c)))).
    { intros x Hx. unfold offset, edge_offset. simpl. unfold edge_raw in *. destruct (Z.ltb_spec (raw x) (raw (Slot.slot b))); [done|].
      unfold contains. rewrite from_field_small by lia. by destruct (_ <? count c). }
    split; [|split; [|split; [by apply Hoff|]]].
    + unfold try_index, excludes, contains. simpl. by destruct (raw s <? count c).
    + intros Hlt. specialize (Hroom Hlt). rewrite from_field_small by lia. split; [done|].
      rewrite Hoff, from_field_small by (rewrite ?from_field_small; lia). unfold edge_raw.
      destruct (Z.ltb_spec (raw (Slot.slot b) + raw s) (raw (Slot.slot b))); [lia|].
      replace (raw (Slot.slot b) + raw s - raw (Slot.slot b)) with (raw s) by lia. rewrite from_field_of by done.
      by destruct (Z.ltb_spec (raw s) (count c)); [|lia].
    + unfold indices. rewrite length_map, slots_all by done. by rewrite length_map, length_seq.
  - split; [done|]. apply orb_false_iff in Hfit as [_ Hz%Z.leb_gt]. lia.
Qed.
Lemma segment_projects_exactly_witness :
  segment_try_new (edge (from_field 5)) (capacity 3) = Ok (segment (edge (from_field 5)) (capacity 3))
  /\ offset (segment (edge (from_field 5)) (capacity 3)) (from_field 7) = Ok (index (from_field 2) (from_field 7)).
Proof.
  split; [done|].
  assert (Hs : slot_ok (from_field 7)) by apply from_field_ok.
  assert (Hb : edge_ok (edge (from_field 5))) by apply from_field_ok.
  assert (Hc : capacity_ok (capacity 3)) by (vm_compute; split; congruence).
  apply (segment_projects_exactly (edge (from_field 5)) (capacity 3) (from_field 7) Hb Hc Hs).
Defined.

(** ** Tokens *)

Lemma code_byte k : 0 <= code k < 256.
Proof. by destruct k. Qed.
Lemma native_kind n : exists k, native_code n = code k.
Proof.
  destruct n; [exists Accept|exists Recv|exists Send|exists Socket|exists Connect|exists Open|exists Tuning|exists Write|exists Sync|exists Read];
    done.
Qed.

Section token.
Context {Epoch Thread : Type} `{EpochsLaws Epoch Thread}.
Implicit Types (e : Epoch) (p : Parts Epoch).

Lemma pack_fields r k s e : 0 <= Route.raw r < 256 -> 0 <= k < 256 -> slot_ok s ->
  let t := pack r k s e in
  t_route t = r /\ kind_raw t = k /\ t_slot t = s /\ epoch t = e /\ 0 <= meta t < 2 ^ 64.
Proof.
  intros Hr Hk Hs. destruct (word_fields (Route.raw r) k (raw s) Hr Hk Hs) as (Er & Ek & Es & Hw).
  unfold pack. pose proof (epoch_parts e) as He. destruct (into_parts e) as [n th]. cbn zeta.
  unfold t_route, kind_raw, t_slot, epoch. simpl. fold (word (Route.raw r) k (raw s)). rewrite Er, Ek. split; [by destruct r|].
  split; [done|]. split; [|by split]. apply raw_inj. by rewrite from_field_raw, Es.
Qed.
Lemma kind_pack r k s e : 0 <= Route.raw r < 256 -> slot_ok s -> kind (pack r (code k) s e) = Ok k.
Proof. intros Hr Hs. unfold kind. destruct (pack_fields r (code k) s e Hr (code_byte k) Hs) as (_ & -> & _). by destruct k. Qed.

(** Tokens round-trip. For every route, class, slot and epoch, a packed
    token reads back exactly these four, whichever way it was made, so no two
    distinct identities share a token; its word fits 64 bits; an operation
    parsed by the space of its own tag keeps its target; and a space of another
    route rejects it with the target it was given. *)
Theorem token_roundtrip (t u : Tag) (class : Kind) p : 0 <= Route.raw (ROUTE t) < 256 -> slot_ok (p_slot p) ->
  let o := target_operation t class p in
  let k := op_token o in
  t_route k = ROUTE t /\ kind k = Ok class /\ op_parts o = p /\ 0 <= meta k < 2 ^ 64
  /\ kind (op_token (dispatch t p)) = Ok (CLASS t) /\ op_parts (dispatch t p) = p
  /\ parse u (erase_route o) = (if Route.raw (ROUTE t) =? Route.raw (ROUTE u) then Ok o else Err (mismatch (erase_route o))).
Proof.
  intros Hr Hs o k. destruct (pack_fields (ROUTE t) (code class) (p_slot p) (p_epoch p) Hr (code_byte class) Hs) as (E1 & _ & E3 & E4 & E5).
  destruct (pack_fields (ROUTE t) (code (CLASS t)) (p_slot p) (p_epoch p) Hr (code_byte (CLASS t)) Hs) as (_ & _ & F3 & F4 & _).
  assert (Hp : forall q, t_slot q = p_slot p -> epoch q = p_epoch p -> parts (epoch q) (t_slot q) = p).
  { intros q -> ->. by destruct p. }
  split; [exact E1|]. split; [by apply kind_pack|]. split; [exact (Hp _ E3 E4)|]. split; [exact E5|].
  split; [by apply kind_pack|]. split; [exact (Hp _ F3 F4)|].
  unfold parse. change (er_token (erase_route o)) with (pack (ROUTE t) (code class) (p_slot p) (p_epoch p)). rewrite E1.
  by destruct (_ =? _).
Qed.
(** A native flight's token names its class: its code is one of the classes
    that [kind] decodes, and the framework's route is no application's. *)
Theorem flight_token_kind e s (n : Native) r : 0 <= Route.raw r < 256 -> slot_ok s ->
  let t := from_flight e s n r in
  (exists k, kind t = Ok k /\ code k = native_code n) /\ t_slot t = s /\ epoch t = e
  /\ (app (t_route t) = None <-> Route.raw r = FRAMEWORK).
Proof.
  intros Hr Hs t. destruct (native_kind n) as [k Hk].
  destruct (pack_fields r (native_code n) s e Hr) as (E1 & _ & E3 & E4 & _); [rewrite Hk; apply code_byte|done|].
  split; [exists k; split; [|done]; unfold t, from_flight; rewrite Hk; by apply kind_pack|]. split; [done|]. split; [done|].
  unfold t, from_flight. rewrite E1. unfold app, is_framework. destruct (Z.eqb_spec (Route.raw r) FRAMEWORK); naive_solver.
Qed.
End token.

(** A token's parts on one thread. *)
#[export] Instance plain_epochs : Epochs Z unit := {| into_parts e := (e, tt); epoch_new e _ := e |}.
#[export] Instance plain_epochs_laws : EpochsLaws Z unit.
Proof. done. Qed.
Lemma token_roundtrip_witness :
  let t := tag (route 7) Unspecified in let p := parts (Epoch := Z) 99 (from_field 1234) in
  kind (op_token (target_operation t Send p)) = Ok Send /\ op_parts (target_operation t Send p) = p
  /\ parse (tag (route 8) Unspecified) (erase_route (target_operation t Send p)) = Err (mismatch (erase_route (target_operation t Send p))).
Proof.
  destruct (token_roundtrip (Epoch := Z) (Thread := unit) (tag (route 7) Unspecified) (tag (route 8) Unspecified) Send (parts 99 (from_field 1234)))
    as (_ & H1 & H2 & _ & _ & _ & H3); [simpl; lia|apply from_field_ok|]. by split; [|split].
Defined.
Lemma flight_token_kind_witness : exists k, kind (from_flight (Epoch := Z) 5 (from_field 9) NRead (route 3)) = Ok k /\ code k = 30.
Proof.
  destruct (flight_token_kind (Epoch := Z) (Thread := unit) 5 (from_field 9) NRead (route 3)) as (H1 & _); [simpl; lia|apply from_field_ok|exact H1].
Defined.

(** A control word round-trips: [Control::try_from] accepts exactly the
    words whose high byte is the framework's, a control that was made reads its
    slot back, and its word is not zero. *)
Theorem control_roundtrip k s n : 0 <= k < 256 -> slot_ok s -> 0 <= n < 2 ^ 64 ->
  control_try_from (c_raw (control_new k s)) = Ok (control_new k s)
  /\ control_slot (control_new k s) = s /\ 0 < c_raw (control_new k s) < 2 ^ 64
  /\ control_try_from n = (if n / 2 ^ 56 =? FRAMEWORK then Ok (control n) else Err n).
Proof.
  intros Hk Hs Hn. destruct (word_fields FRAMEWORK k (raw s) ltac:(done) Hk Hs) as (Er & Ek & Es & Hw).
  unfold control_try_from, control_new, control_slot. cbn [c_raw]. fold (word FRAMEWORK k (raw s)). rewrite Er. split; [done|].
  split; [apply raw_inj; by rewrite from_field_raw, Es|]. split.
  - split; [|lia]. destruct (Z.eq_dec (word FRAMEWORK k (raw s)) 0) as [E|]; [|lia]. rewrite E in Er. done.
  - unfold wrap. rewrite Z.shiftr_div_pow2 by done. unfold SHIFT.
    assert (0 <= n / 2 ^ 56 < 2 ^ 8) by (split; [apply Z.div_pos; lia|apply Z.div_lt_upper_bound; lia]).
    rewrite (Z.mod_small (n / 2 ^ 56)) by done. by destruct (_ =? _).
Qed.
Lemma control_roundtrip_witness : control_try_from (c_raw SHUTDOWN) = Ok SHUTDOWN /\ 0 < c_raw SHUTDOWN < 2 ^ 64.
Proof.
  destruct (control_roundtrip 7 ZERO 0) as (H1 & _ & H2 & _); [lia|vm_compute; split; congruence|lia|]. by split.
Defined.
