(* ===== verification/Dials.v ===== *)
(** * Dials of a service pool.

    Model of [src/layer1/manifold/src/service/pool/dials]: the fixed slice of
    dial slots, the chain of those ready to dial that is linked through the
    slots themselves, the attempt that was deferred, and the last failure. A
    reference to a slot, or to its [next] cell, is the slot's position, so that
    a chain and the slots share what the code lets them share. *)

From S2P Require Import Prelude Depot Time Health Round Members.
Import Members.

(** ** Outcomes of an opening *)

Module Opening.
(** [SubmitCause], src/layer0/core/src/driver/result/mod.rs:188-193. *)
Inductive SubmitCause := Full | IdentityExhausted.
(** [SubmitError], src/layer0/core/src/driver/result/mod.rs:185-185. *)
Record SubmitError := submit_error { cause : SubmitCause }.
(** [Exhaustion], src/layer1/net/src/link/pool/change/opening.rs:22-25. *)
Inductive Exhaustion := Identity | ESubmission (e : SubmitError).
(** [Failure], src/layer1/net/src/link/pool/change/opening.rs:14-18. *)
Inductive Failure (E : Type) := FIdentityExhausted | Submission (e : SubmitError) | Wire (e : E).
Arguments FIdentityExhausted {E}.
Arguments Submission {E}.
Arguments Wire {E}.
(** [Deferred], src/layer1/net/src/link/pool/change/opening.rs:49-53. *)
Inductive Deferral := DCapacity | WireBackpressure | DSubmission (e : SubmitError).
(** [Attempt], src/layer1/net/src/link/pool/change/opening.rs:6-10. The key and
    the output of a submission are of no use to a pool. *)
Inductive Attempt (P E : Type) :=
  | Submitted
  | Deferred (cause : Deferral) (input : P)
  | Failed (error : Failure E).
Arguments Submitted {P E}.
Arguments Deferred {P E}.
Arguments Failed {P E}.
(** [from], src/layer1/net/src/link/pool/change/opening.rs:28-33. *)
Definition from_exhaustion {E} (error : Exhaustion) : Failure E :=
  match error with Identity => FIdentityExhausted | ESubmission e => Submission e end.
(** [Failure::into_wire], src/layer1/net/src/link/pool/change/opening.rs:38-44. *)
Definition into_wire {E} (self : Failure E) : run Exhaustion E :=
  match self with
  | FIdentityExhausted => Err Identity
  | Submission e => Err (ESubmission e)
  | Wire cause => Ok cause
  end.

(** [Id], src/layer1/manifold/src/client/attempt/mod.rs:55-57. The position of its
    slot, and the slot's generation. *)
Record Id := id { index : nat; generation : Z }.
#[export] Instance id_dec : EqDecision Id.
Proof. solve_decision. Defined.
(** [Opening], src/layer1/manifold/src/service/opening.rs:6-18. *)
Inductive Opening (E : Type) :=
  | OSubmitted
  | ODeferred (attempt : Id) (cause : Deferral)
  | OFailed (attempt : Id) (error : Failure E)
  | OBackoff (at_ : Z)
  | OIdle.
Arguments OSubmitted {E}.
Arguments ODeferred {E}.
Arguments OFailed {E}.
Arguments OBackoff {E}.
Arguments OIdle {E}.
End Opening.

Module Dials.
Import Opening.

(** [State], src/layer1/manifold/src/service/pool/dials/mod.rs:32-37. *)
Inductive State (K : Type) := Ready | Submitted (t : Target K) | Connected (t : Target K) | Closed.
Arguments Ready {K}.
Arguments Submitted {K}.
Arguments Connected {K}.
Arguments Closed {K}.
(** [Dial], src/layer1/manifold/src/service/pool/dials/mod.rs:39-45. *)
Record Dial (K : Type) := dial { d_generation : Z; next : option nat; state : State K; slot : nat }.
Arguments dial {K}.
Arguments d_generation {K}.
Arguments next {K}.
Arguments state {K}.
Arguments slot {K}.
(** [Chain], src/layer1/manifold/src/service/pool/dials/mod.rs:49-52. *)
Record Chain := chain { front : nat; back : nat }.
(** [Held], src/layer1/manifold/src/service/pool/dials/mod.rs:54-58. *)
Record Held (K P : Type) := held { h_chain : Chain; h_target : Target K; plan : P }.
Arguments held {K P}.
Arguments h_chain {K P}.
Arguments h_target {K P}.
Arguments plan {K P}.
(** [Queue], src/layer1/manifold/src/service/pool/dials/mod.rs:60-64. *)
Inductive Queue (K P : Type) :=
  | Open (c : option Chain)
  | Deferred (h : Held K P)
  | Rejected (cause : option (Id * Exhaustion)).
Arguments Open {K P}.
Arguments Deferred {K P}.
Arguments Rejected {K P}.
(** [Tail], src/layer1/manifold/src/service/pool/dials/mod.rs:66-69. *)
Inductive Tail := First | Last (c : Chain).
(** [Dials], src/layer1/manifold/src/service/pool/dials/mod.rs:71-77. *)
Record Dials (K P : Type) := dials {
  records : list (Dial K); ready : Queue K P; active : Z; depleted : option Id; needs_poll : bool
}.
Arguments dials {K P}.
Arguments records {K P}.
Arguments ready {K P}.
Arguments active {K P}.
Arguments depleted {K P}.
Arguments needs_poll {K P}.

Section dials.
Context {K I A S H P E : Type} `{EqDecision K} `{EqDecision I} `{RS : !RoundSet K (Record_.Rec I A) S}
  `{KM : !KeyedMin K H} `{Average} `{SlotGeneration}.
(** [Policy::AUTHORITATIVE] of the pool, and [Plan::new], which prepares an
    address with the pool's socket options. *)
Context (AUTHORITATIVE : bool) (plan_new : A -> P).
Abbreviation Members := (Set_ S H).
Abbreviation Target := (Target K).
Abbreviation Dial := (Dial K).
Abbreviation Dials := (Dials K P).
Abbreviation Queue := (Queue K P).

(** The cell of a slot, through a reference to it. *)
Definition at_slot (l : list Dial) (i : nat) : run Empty_set Dial :=
  match l !! i with Some d => Ok d | None => Stuck Undefined end.
Definition set_state (l : list Dial) (i : nat) (s : State K) : list Dial :=
  alter (fun d => dial (d_generation d) (next d) s (slot d)) i l.
Definition set_next (l : list Dial) (i : nat) (n : option nat) : list Dial :=
  alter (fun d => dial (d_generation d) n (state d) (slot d)) i l.
Definition set_generation (l : list Dial) (i : nat) (g : Z) : list Dial :=
  alter (fun d => dial g (next d) (state d) (slot d)) i l.
(** [Dial::from_epoch] of a slot's current generation. *)
Definition key_of (d : Dial) : Id := id (slot d) (d_generation d).

Definition with_records (self : Dials) (l : list Dial) : Dials :=
  dials l (ready self) (active self) (depleted self) (needs_poll self).
Definition with_ready (self : Dials) (q : Queue) : Dials :=
  dials (records self) q (active self) (depleted self) (needs_poll self).
Definition with_active (self : Dials) (n : Z) : Dials :=
  dials (records self) (ready self) n (depleted self) (needs_poll self).
Definition with_depleted (self : Dials) (k : option Id) : Dials :=
  dials (records self) (ready self) (active self) k (needs_poll self).
Definition with_needs_poll (self : Dials) (b : bool) : Dials :=
  dials (records self) (ready self) (active self) (depleted self) b.

(** [Dial::default], src/layer1/manifold/src/service/pool/dials/mod.rs:80-88. *)
Definition dial_default : Dial := dial GEN_MIN None Ready O.
(** [Tail::from], src/layer1/manifold/src/service/pool/dials/mod.rs:133-138. *)
Definition tail_from (c : option Chain) : Tail :=
  match c with Some c => Last c | None => First end.
(** [Tail::push_back], src/layer1/manifold/src/service/pool/dials/mod.rs:142-153.
    The slots and the chain after it. *)
Definition push_back (self : Tail) (l : list Dial) (i : nat) : list Dial * Chain :=
  match self with
  | First => (l, chain i i)
  | Last c => (set_next l (back c) (Some i), chain (front c) i)
  end.

(** [Dial::try_requeue], src/layer1/manifold/src/service/pool/dials/mod.rs:92-103. *)
Definition try_requeue (l : list Dial) (i : nat) (d : Dial) (t : Tail) : run Id Chain * list Dial :=
  match gen_checked_add (d_generation d) 1 with
  | Some epoch =>
      let l := set_next (set_state (set_generation l i epoch) i Ready) i None in
      let '(l, c) := push_back t l i in (Ok c, l)
  | None => (Err (key_of d), set_state l i Closed)
  end.
(** [Dial::matches], src/layer1/manifold/src/service/pool/dials/mod.rs:105-107. *)
Definition matches (self : Dial) (key : Id) : bool := d_generation self =? generation key.
(** [Dial::active], src/layer1/manifold/src/service/pool/dials/mod.rs:109-114. *)
Definition dial_active (self : Dial) : option K :=
  match state self with Submitted t | Connected t => Some (member t) | _ => None end.

(** The slots with their positions, [n] of them from [i] on. *)
Definition numbered (n : nat) : list Dial :=
  (fun i => dial (d_generation dial_default) (next dial_default) (state dial_default) i) <$> seq 0 n.
(** [Dials::try_with], src/layer1/manifold/src/service/pool/dials/mod.rs:157-178,
    the loop that links the slots. *)
Fixpoint link_all (l : list Dial) (c : option Chain) (is_ : list nat) : list Dial * option Chain :=
  match is_ with
  | [] => (l, c)
  | i :: is_ => let '(l, c) := push_back (tail_from c) l i in link_all l (Some c) is_
  end.
(** [Dials::try_with], src/layer1/manifold/src/service/pool/dials/mod.rs:157-178.
    What it builds when its allocation succeeds. *)
Definition dials_new (cap : nat) : Dials :=
  let '(l, c) := link_all (numbered cap) None (seq 0 cap) in
  dials l (Open c) 0 None false.

(** [Dials::get], src/layer1/manifold/src/service/pool/dials/mod.rs:180-183. *)
Definition get (self : Dials) (key : Id) : option Dial :=
  match records self !! index key with
  | Some d => if matches d key then Some d else None
  | None => None
  end.
(** [Dials::capacity], src/layer1/manifold/src/service/pool/dials/mod.rs:185-188. *)
Definition capacity (self : Dials) : Z := wrap 32 (Z.of_nat (length (records self))).
(** [Dials::active], src/layer1/manifold/src/service/pool/dials/mod.rs:190-192. *)
Definition active_of (self : Dials) (key : Id) : option K :=
  match get self key with Some d => dial_active d | None => None end.

(** [Dials::refresh], src/layer1/manifold/src/service/pool/dials/mod.rs:376-389. *)
Definition refresh (self : Dials) (present : bool) : Dials :=
  let self := with_needs_poll self
    match ready self with
    | Open (Some _) | Deferred _ => present
    | Rejected (Some _) => active self =? 0
    | Open None | Rejected None => false
    end in
  match depleted self, ready self with
  | Some key, Open None =>
      if active self =? 0
      then with_needs_poll (with_ready self (Rejected (Some (key, Identity)))) true
      else self
  | _, _ => self
  end.
(** [Dials::resume_active], src/layer1/manifold/src/service/pool/dials/mod.rs:391-393. *)
Definition resume_active (self : Dials) : Dials :=
  with_needs_poll self match ready self with Open (Some _) | Deferred _ => true | _ => false end.
(** [Dials::is_deferred], src/layer1/manifold/src/service/pool/dials/mod.rs:429-431. *)
Definition is_deferred (self : Dials) : bool :=
  match ready self with Deferred _ => true | _ => false end.

(** [Dials::reject], src/layer1/manifold/src/service/pool/dials/mod.rs:396-409.
    [cancel] acts on the members [m]. *)
Definition reject {M} (self : Dials) (key : Id) (cause : Exhaustion) (m : M)
    (cancel : M -> Target -> run Empty_set M) : run Empty_set (M * Dials) :=
  match ready self with
  | Rejected _ => Ok (m, refresh self false)
  | q =>
      let self := with_ready self (Rejected (Some (key, cause))) in
      let! m := match q with Deferred h => cancel m (h_target h) | _ => Ok m end in
      Ok (m, refresh self false)
  end.
(** [Dials::terminal], src/layer1/manifold/src/service/pool/dials/mod.rs:412-427. *)
Definition terminal (self : Dials) : Opening E * Dials :=
  match ready self with
  | Rejected cause =>
      if needs_poll self then
        let self := with_ready (with_needs_poll self false) (Rejected None) in
        match cause with
        | Some (attempt, error) => (OFailed attempt (from_exhaustion error), self)
        | None => (OIdle, self)
        end
      else (OIdle, self)
  | _ => (OIdle, self)
  end.

(** The members once [t] is cancelled, for a caller that has no use of the
    update. *)
Definition cancelled (m : Members) (t : Target) : run Empty_set Members :=
  let! (_, m) := cancel AUTHORITATIVE m t in Ok m.

(** [Dials::poll], src/layer1/manifold/src/service/pool/dials/mod.rs:194-298, the
    dial itself, for the member [t]. [present] is the one of the caller. *)
Definition submit_dial (self : Dials) (m : Members) (present : bool) (c : Chain) (t : Target) (p : P)
    (submit : Id -> P -> Attempt P E) : run Empty_set (Opening E * Members * Dials) :=
  let! d := at_slot (records self) (front c) in
  let key := key_of d in
  match submit key p with
  | Opening.Submitted =>
      if active self =? 2 ^ 32 - 1 then Stuck Panic
      else
        let self := with_active (with_records self (set_state (records self) (front c) (Submitted t))) (active self + 1) in
        let nxt := (fun f => chain f (back c)) <$> next d in
        let self := with_records self (set_next (records self) (front c) None) in
        let self := with_needs_poll self (present && bool_decide (is_Some nxt)) in
        Ok (OSubmitted, m, with_ready self (Open nxt))
  | Opening.Deferred cause p =>
      let self := with_ready self (Deferred (held c t p)) in
      Ok (ODeferred key cause, m, with_needs_poll self (present || negb AUTHORITATIVE))
  | Failed error =>
      let self := with_records self (set_next (records self) (front c) None) in
      let! m := cancelled m t in
      let self := with_records self (set_state (records self) (front c) Closed) in
      match into_wire error with
      | Ok cause =>
          Ok (OFailed key (Wire cause), m, with_needs_poll (with_ready self (Rejected None)) false)
      | Err cause =>
          let! (m, self) := reject self key cause m cancelled in
          let '(o, self) := terminal self in Ok (o, m, self)
      | Stuck w => Stuck w
      end
  end.

(** [Dials::poll], src/layer1/manifold/src/service/pool/dials/mod.rs:194-298. *)
Definition poll (self : Dials) (m : Members) (now : Z) (eligible : I -> bool)
    (submit : Id -> P -> Attempt P E) : run Empty_set (Opening E * Members * Dials) :=
  let present := negb (is_empty m) in
  let q := ready self in
  let self := with_ready self (Open None) in
  match q with
  | Open None => Ok (OIdle, m, with_needs_poll self false)
  | Rejected cause => let '(o, self) := terminal (with_ready self (Rejected cause)) in Ok (o, m, self)
  | Open (Some c) =>
      let! (sel, m) := choose AUTHORITATIVE m now eligible in
      match sel with
      | SelReady t addr => submit_dial self m present c t (plan_new addr) submit
      | SelIdle => Ok (OIdle, m, with_needs_poll (with_ready self (Open (Some c))) false)
      | SelBackoff at_ => Ok (OBackoff at_, m, with_needs_poll (with_ready self (Open (Some c))) false)
      | SelExhausted =>
          let! d := at_slot (records self) (front c) in
          let! (m, self) := reject self (key_of d) Identity m cancelled in
          let '(o, self) := terminal self in Ok (o, m, self)
      end
  | Deferred h => submit_dial self m present (h_chain h) (h_target h) (plan h) submit
  end.

(** [Dials::connection], src/layer1/manifold/src/service/pool/dials/mod.rs:300-309,
    with [Connect], src/layer1/manifold/src/service/pool/dials/connect.rs:11-14: a
    submitted slot and its target. *)
Definition connection (self : Dials) (key : Id) : option (nat * Target) :=
  match get self key with
  | Some d => match state d with Submitted t => Some (index key, t) | _ => None end
  | None => None
  end.
(** [Connect::commit], src/layer1/manifold/src/service/pool/dials/connect.rs:21-23. *)
Definition commit (self : Dials) (connect : nat * Target) (t : Target) : Dials :=
  with_records self (set_state (records self) connect.1 (Connected t)).

(** [Dials::requeue], src/layer1/manifold/src/service/pool/dials/mod.rs:328-342. *)
Definition requeue (self : Dials) (i : nat) (present : bool) : run Empty_set Dials :=
  let! d := at_slot (records self) i in
  let pushed t (q : Chain -> Queue) :=
    let '(o, l) := try_requeue (records self) i d t in
    let self := with_records self l in
    let! self := match o with
                 | Ok c => Ok (with_ready self (q c))
                 | Err key => Ok (with_depleted self (Some key))
                 | Stuck w => Stuck w
                 end in
    Ok (refresh self present) in
  match ready self with
  | Open c => pushed (tail_from c) (fun c => Open (Some c))
  | Deferred h => pushed (Last (h_chain h)) (fun c => Deferred (held c (h_target h) (plan h)))
  | Rejected _ =>
      Ok (refresh (with_records self (set_state (records self) i Closed)) present)
  end.

(** [Dials::recycle], src/layer1/manifold/src/service/pool/dials/mod.rs:311-325. *)
Definition recycle {O} (self : Dials) (key : Id) (present : bool) (update : Target -> run Empty_set O)
    : run Empty_set (option O * Dials) :=
  match get self key with
  | Some d =>
      match state d with
      | Submitted t | Connected t =>
          let! output := update t in
          if active self =? 0 then Stuck Panic
          else
            let! self := requeue (with_active self (active self - 1)) (index key) present in
            Ok (Some output, self)
      | _ => Ok (None, self)
      end
  | None => Ok (None, self)
  end.
(** [Dials::close], src/layer1/manifold/src/service/pool/dials/mod.rs:345-353. *)
Definition close (self : Dials) (key : Id) : run Empty_set (option Target * Dials) :=
  match get self key with
  | Some d =>
      match state d with
      | Submitted t | Connected t =>
          if active self =? 0 then Stuck Panic
          else
            Ok (Some t, with_active (with_records self (set_state (records self) (index key) Closed)) (active self - 1))
      | _ => Ok (None, self)
      end
  | None => Ok (None, self)
  end.
(** [Dials::reset_front], src/layer1/manifold/src/service/pool/dials/mod.rs:355-374. *)
Definition reset_front {M} (self : Dials) (m : M) (removed : M -> Target -> run Empty_set (option Update * M))
    : run Empty_set (option Id * M * Dials) :=
  match ready self with
  | Deferred h =>
      let! (o, m) := removed m (h_target h) in
      match o with
      | Some UExhausted =>
          let! d := at_slot (records self) (front (h_chain h)) in
          Ok (Some (key_of d), m, with_ready self (Open (Some (h_chain h))))
      | Some _ => Ok (None, m, with_ready self (Open (Some (h_chain h))))
      | None => Ok (None, m, self)
      end
  | _ => Ok (None, m, self)
  end.
End dials.
End Dials.
