(* ===== verification/DialsFacts.v ===== *)
(** * What the dials of a pool keep.

    The chain that is linked through the slots is a queue of positions; [active]
    counts the slots that dial or are connected; and, when epochs are preserved,
    the claims on every member are the dials that hold it. *)

From S2P Require Import Prelude Depot Time Health Round Members MembersFacts ReconcileFacts SnapshotFacts Dials.
Import Members Opening Dials.

(** ** Sums over the slots *)

Section total.
Context {B : Type}.
Implicit Types (w : B -> Z) (l : list B).
Definition total w l : Z := foldr (fun d n => w d + n) 0 l.
Lemma total_insert w l i d d' : l !! i = Some d -> total w (<[i:=d']> l) = total w l - w d + w d'.
Proof.
  revert i. induction l as [|x l IH]; intros [|i] Hi; simplify_eq/=; [lia|]. rewrite (IH i) by done. lia.
Qed.
Lemma total_le w v l : (forall d, d ∈ l -> w d <= v d) -> total w l <= total v l.
Proof.
  induction l as [|x l IH]; intros Hw; simpl; [done|]. assert (w x <= v x) by (apply Hw; set_solver).
  assert (total w l <= total v l) by (apply IH; set_solver). lia.
Qed.
Lemma total_const n l : total (fun _ => n) l = n * Z.of_nat (length l).
Proof. induction l as [|x l IH]; simpl; [lia|]. rewrite IH. lia. Qed.
Lemma total_above w l i d : (forall d, 0 <= w d) -> l !! i = Some d -> w d <= total w l.
Proof.
  intros Hw. assert (Hp : forall l, 0 <= total w l).
  { intros l'. induction l' as [|x l' IH]; simpl; [done|]. specialize (Hw x). lia. }
  revert i. induction l as [|x l IH]; intros [|i] Hi; simplify_eq/=; [specialize (Hp l)|specialize (Hw x); specialize (IH i Hi)]; lia.
Qed.
Lemma total_zero w l : (forall d, d ∈ l -> w d = 0) -> total w l = 0.
Proof. induction l as [|x l IH]; intros Hw; simpl; [done|]. rewrite Hw, IH by set_solver. lia. Qed.
End total.

Lemma alter_at {B} (f : B -> B) (l : list B) i d : l !! i = Some d -> alter f i l = <[i:=f d]> l.
Proof. revert i. induction l as [|x l IH]; intros [|i] Hi; simplify_eq/=; [done|]. by rewrite <- IH. Qed.

Section facts.
Context {K I A S H P W : Type} `{EqDecision K} `{EqDecision I} {RS : RoundSet K (Record_.Rec I A) S}
  {RSL : RoundSetLaws K (Record_.Rec I A) S} {KM : KeyedMin K H} {KML : KeyedMinLaws K H} `{AverageLaws}
  `{SlotGenerationLaws}.
Context (AUTH : bool) (plan_new : A -> P).
Abbreviation Members := (Set_ S H).
Abbreviation Target := (Target K).
Abbreviation Dial := (Dial K).
Abbreviation Dials := (Dials K P).
Implicit Types (ds : Dials) (m : Members) (l : list Dial) (i : nat) (d : Dial) (t : Target) (q : list nat) (c : Chain).

(** ** Slots *)

Lemma set_state_at l i d s : l !! i = Some d ->
  set_state l i s = <[i:=dial (d_generation d) (next d) s (slot d)]> l.
Proof. intros Hi. unfold set_state. by rewrite (alter_at _ l i d Hi). Qed.
Lemma set_next_at l i d n : l !! i = Some d ->
  set_next l i n = <[i:=dial (d_generation d) n (state d) (slot d)]> l.
Proof. intros Hi. unfold set_next. by rewrite (alter_at _ l i d Hi). Qed.
Lemma set_generation_at l i d g : l !! i = Some d ->
  set_generation l i g = <[i:=dial g (next d) (state d) (slot d)]> l.
Proof. intros Hi. unfold set_generation. by rewrite (alter_at _ l i d Hi). Qed.

(** [q] is linked through the slots, in order. *)
Definition links l q : Prop := forall j i, q !! j = Some i -> exists d, l !! i = Some d /\ next d = q !! Datatypes.S j.
Definition chained l (o : option Chain) q : Prop :=
  links l q /\ match o with Some c => head q = Some (front c) /\ last q = Some (back c) | None => q = [] end.

Lemma links_other l q i d : links l q -> i ∉ q -> links (<[i:=d]> l) q.
Proof.
  intros Hl Hi j x Hx. destruct (Hl j x Hx) as (d0 & Hd & Hn). exists d0. split; [|done].
  rewrite list_lookup_insert_ne; [done|]. intros ->. apply Hi. by eapply list_elem_of_lookup_2.
Qed.
Lemma chained_other l o q i d : chained l o q -> i ∉ q -> chained (<[i:=d]> l) o q.
Proof. intros [Hl Ho] Hi. split; [by apply links_other|done]. Qed.

Lemma chained_pop l c q i d : chained l (Some c) (i :: q) -> l !! i = Some d ->
  chained l ((fun f => chain f (back c)) <$> next d) q.
Proof.
  intros (Hl & Hh & Hb) Hi. simpl in Hh. assert (Hn : next d = head q).
  { destruct (Hl O i eq_refl) as (d' & Hd' & Hn). simplify_eq. simpl in Hn. rewrite Hn. by destruct q. }
  rewrite Hn. split; [intros j x Hx; by apply (Hl (Datatypes.S j))|]. destruct q as [|y q]; [done|].
  simpl. split; [done|]. by rewrite last_cons_cons in Hb.
Qed.

(** Linking [i], which ends the chain, behind it. *)
Lemma chained_push l o q i d : chained l o q -> NoDup q -> i ∉ q -> l !! i = Some d -> next d = None ->
  let '(l', c) := push_back (tail_from o) l i in
  chained l' (Some c) (q ++ [i])
  /\ (forall x, match l !! x with
                | Some e => exists e', l' !! x = Some e' /\ d_generation e' = d_generation e
                    /\ state e' = state e /\ slot e' = slot e
                | None => l' !! x = None
                end)
  /\ (forall x, x ∉ q -> l' !! x = l !! x)
  /\ (forall w, (forall e n, w (dial (d_generation e) n (state e) (slot e)) = w e) -> total w l' = total w l)
  /\ length l' = length l.
Proof.
  intros [Hl Ho] Hnd Hi Hd Hn. destruct o as [c|]; simpl.
  - destruct Ho as [Hh Hb]. rewrite last_Some in Hb. destruct Hb as [q0 ->].
    assert (Hb : back c ∈ q0 ++ [back c]) by set_solver.
    destruct (Hl (length q0) (back c)) as (db & Hdb & Hnb); [by apply list_lookup_middle|].
    assert (Hne : back c <> i) by (intros Q; rewrite Q in *; done).
    rewrite (set_next_at l (back c) db _ Hdb). split; [split; [|split]|split; [|split; [|split]]].
    + intros j x Hx. destruct (decide (j < length q0)%nat) as [Hj|Hj].
      * rewrite <- app_assoc in Hx. rewrite lookup_app_l in Hx by lia.
        destruct (Hl j x) as (dx & Hdx & Hnx); [by rewrite lookup_app_l|].
        exists dx. split.
        -- rewrite list_lookup_insert_ne; [done|]. intros <-. apply NoDup_app in Hnd as (_ & Hnd & _).
           apply (Hnd (back c)); [by eapply list_elem_of_lookup_2|set_solver].
        -- rewrite Hnx. symmetry. apply lookup_app_l. rewrite length_app. simpl. lia.
      * destruct (decide (j = length q0)) as [->|Hj'].
        -- rewrite lookup_app_l, list_lookup_middle in Hx by (rewrite ?length_app; simpl; lia || done). injection Hx as <-.
           eexists. split; [by rewrite list_lookup_insert_eq by (by eapply lookup_lt_Some)|]. simpl.
           rewrite lookup_app_r by (rewrite length_app; simpl; lia). rewrite length_app. simpl.
           by replace (Datatypes.S (length q0) - (length q0 + 1))%nat with O by lia.
        -- assert (j = Datatypes.S (length q0)) as ->.
           { apply lookup_lt_Some in Hx. rewrite !length_app in Hx. simpl in Hx. lia. }
           rewrite lookup_app_r in Hx by (rewrite length_app; simpl; lia). rewrite length_app in Hx. simpl in Hx.
           replace (Datatypes.S (length q0) - (length q0 + 1))%nat with O in Hx by lia. injection Hx as <-.
           exists d. rewrite list_lookup_insert_ne by done. split; [done|]. rewrite Hn. symmetry.
           apply lookup_ge_None. rewrite !length_app. simpl. lia.
    + by destruct q0.
    + by rewrite last_snoc.
    + intros x. destruct (decide (x = back c)) as [->|Hx].
      * rewrite Hdb, list_lookup_insert_eq by (by eapply lookup_lt_Some). by eexists.
      * rewrite list_lookup_insert_ne by done. destruct (l !! x) as [e|]; [by exists e|done].
    + intros x Hx. apply list_lookup_insert_ne. by intros <-.
    + intros w Hw. rewrite (total_insert w l _ db) by done. rewrite Hw. lia.
    + apply length_insert.
  - subst q. split; [|split; [|done]].
    + split; [|done]. intros [|j] x Hx; [|done]. injection Hx as <-. by exists d.
    + intros x. destruct (l !! x) as [e|]; [by exists e|done].
Qed.

(** ** The invariant *)

Definition busy d : Z := match dial_active d with Some _ => 1 | None => 0 end.
Definition holds k d : Z := match dial_active d with Some k' => if decide (k' = k) then 1 else 0 | None => 0 end.
Definition on_held (r : Queue K P) k : Z :=
  match r with Deferred h => if decide (member (h_target h) = k) then 1 else 0 | _ => 0 end.
(** The claims on member [k]: the dials for it, under way or deferred. *)
Definition claims_on ds k : Z := total (holds k) (records ds) + on_held (ready ds) k.

Definition waits l i : Prop := exists d, l !! i = Some d /\ state d = Ready.
(** The queue that a dial waits in. *)
Definition queued ds q : Prop :=
  match ready ds with
  | Open o => chained (records ds) o q
  | Deferred h => chained (records ds) (Some (h_chain h)) q
  | Rejected _ => False
  end.
Definition line l q : Prop := NoDup q /\ forall i, i ∈ q <-> waits l i.
Definition slot_ok i d : Prop := slot d = i /\ GEN_MIN <= d_generation d <= GEN_MAX.

(** [n] dials have ended that the slots do not show yet. *)
Record settling (n : Z) ds : Prop := {
  di_slots i d : records ds !! i = Some d -> slot_ok i d;
  di_active : active ds = total busy (records ds) - n;
  di_room : Z.of_nat (length (records ds)) <= 2 ^ 24 - 1;
  di_queue : match ready ds with Rejected _ => True | _ => exists q, queued ds q /\ line (records ds) q end;
  di_depleted k : depleted ds = Some k ->
    exists d, records ds !! index k = Some d /\ key_of d = k /\ state d = Closed;
}.
Abbreviation di := (settling 0).
(** Whatever is left to report will be polled for. *)
Definition due ds : Prop :=
  match ready ds with
  | Open None => depleted ds = None \/ active ds <> 0
  | Rejected (Some _) => needs_poll ds = (active ds =? 0)
  | Rejected None => needs_poll ds = false
  | _ => True
  end.

(** Slots only grow older: a generation never comes back, and a closed slot
    stays closed. *)
Definition ages ds ds' : Prop :=
  length (records ds') = length (records ds)
  /\ forall i d, records ds !! i = Some d -> exists d', records ds' !! i = Some d'
       /\ (d_generation d < d_generation d'
           \/ d_generation d = d_generation d' /\ (state d = Closed -> state d' = Closed)).
(** The attempt of a key is over. *)
Definition spent ds key : Prop := forall d, records ds !! index key = Some d ->
  generation key < d_generation d \/ generation key = d_generation d /\ state d = Closed.

Lemma ages_refl ds ds' : records ds' = records ds -> ages ds ds'.
Proof. intros E. unfold ages. rewrite E. split; [done|]. intros i d Hd. exists d. naive_solver. Qed.
Lemma ages_trans ds0 ds1 ds2 : ages ds0 ds1 -> ages ds1 ds2 -> ages ds0 ds2.
Proof.
  intros [La Ha] [Lb Hb]. split; [congruence|]. intros i d Hd. destruct (Ha i d Hd) as (d' & Hd' & O).
  destruct (Hb i d' Hd') as (d'' & Hd'' & O'). exists d''. split; [done|]. destruct O as [?|[? ?]], O' as [?|[? ?]]; [left; lia..|right].
  split; [lia|auto].
Qed.
Lemma ages_insert ds l i d d' : records ds !! i = Some d ->
  l = <[i:=d']> (records ds) ->
  d_generation d < d_generation d' \/ d_generation d = d_generation d' /\ (state d = Closed -> state d' = Closed) ->
  forall ds', records ds' = l -> ages ds ds'.
Proof.
  intros Hd -> O ds' E. unfold ages. rewrite E. split; [apply length_insert|]. intros x e He.
  destruct (decide (i = x)) as [<-|Hne].
  - exists d'. rewrite list_lookup_insert_eq by (by eapply lookup_lt_Some). simplify_eq. by split.
  - exists e. rewrite list_lookup_insert_ne by done. naive_solver.
Qed.
Lemma spent_ages ds ds' key : ages ds ds' -> spent ds key -> spent ds' key.
Proof.
  intros [Hl Ha] Hs d' Hd'. destruct (lookup_lt_is_Some_2 (records ds) (index key)) as [d Hd].
  { rewrite <- Hl. by eapply lookup_lt_Some. }
  destruct (Ha _ _ Hd) as (e & He & O). rewrite Hd' in He. injection He as <-. destruct (Hs d Hd) as [?|[? ?]], O as [?|[? ?]];
    [left; lia..|right]. split; [lia|auto].
Qed.
Lemma spent_active ds key : spent ds key -> active_of ds key = None.
Proof.
  intros Hs. unfold active_of, get. destruct (records ds !! index key) as [d|] eqn:Hd; [|done].
  unfold matches. destruct (Z.eqb_spec (d_generation d) (generation key)); [|done].
  destruct (Hs d Hd) as [?|[_ Hc]]; [lia|]. unfold dial_active. by rewrite Hc.
Qed.
(** An attempt is at its slot, and its slot is active. *)
Lemma active_slot ds key k : active_of ds key = Some k ->
  exists d t, records ds !! index key = Some d /\ get ds key = Some d /\ d_generation d = generation key
    /\ member t = k /\ (state d = Submitted t \/ state d = Connected t).
Proof.
  unfold active_of, get. destruct (records ds !! index key) as [d|] eqn:Hd; [|done].
  unfold matches. destruct (Z.eqb_spec (d_generation d) (generation key)) as [Hg|]; [|done].
  unfold dial_active. destruct (state d) as [|t|t|] eqn:Hst; simplify_eq/=; intros [= <-]; exists d, t; naive_solver.
Qed.
Lemma inactive_state ds key : active_of ds key = None ->
  match get ds key with Some d => state d = Ready \/ state d = Closed | None => True end.
Proof. unfold active_of, dial_active. destruct (get ds key) as [d|]; [|done]. destruct (state d); naive_solver. Qed.

(** ** Polls and reports *)

(** [refresh] only looks, except that it turns the depletion of every slot into
    a failure. *)
Lemma refresh_fields ds b : records (refresh ds b) = records ds /\ active (refresh ds b) = active ds
  /\ depleted (refresh ds b) = depleted ds /\ (forall k, on_held (ready (refresh ds b)) k = on_held (ready ds) k)
  /\ (ready (refresh ds b) = ready ds \/ ready ds = Open None /\ active ds = 0
      /\ exists k, depleted ds = Some k /\ ready (refresh ds b) = Rejected (Some (k, Identity))).
Proof.
  unfold refresh.
  destruct (ready ds) as [[c|]|h|[[k e]|]] eqn:Hr, (depleted ds) as [k'|] eqn:Hd; simpl; rewrite ?Hr, ?Hd;
    try (destruct (Z.eqb_spec (active ds) 0); simpl; rewrite ?Hr, ?Hd); do 4 (split; [done|]); eauto 10.
Qed.
Lemma refresh_due ds b : due (refresh ds b).
Proof.
  unfold refresh, due.
  destruct (ready ds) as [[c|]|h|[[k e]|]] eqn:Hr, (depleted ds) as [k'|] eqn:Hd; simpl; rewrite ?Hr; simpl; rewrite ?Hd; auto;
    destruct (Z.eqb_spec (active ds) 0); simpl; rewrite ?Hr; simpl; auto.
  all: symmetry; by first [apply Z.eqb_eq|apply Z.eqb_neq].
Qed.
Lemma settling_same n ds ds' : settling n ds -> records ds' = records ds -> active ds' = active ds ->
  depleted ds' = depleted ds ->
  match ready ds' with Rejected _ => True | _ => exists q, queued ds' q /\ line (records ds) q end -> settling n ds'.
Proof. intros [] Er Ea Ed Hq. split; rewrite ?Er, ?Ea, ?Ed; done. Qed.
Lemma refresh_settling n ds b : settling n ds -> settling n (refresh ds b).
Proof.
  intros Hd. destruct (refresh_fields ds b) as (Er & Ea & Ed & _ & Hr). eapply settling_same; [done..|].
  destruct Hr as [Hr|(_ & _ & k & _ & ->)]; [|done]. pose proof (di_queue _ _ Hd) as Hq. unfold queued in *. rewrite Hr, Er.
  by destruct (ready ds).
Qed.

(** What an operation leaves of the dials: the invariant, slots that are not
    younger, and [n x] claims less on every member [x]. *)
Record moved ds ds' (n : K -> Z) : Prop := {
  mo_inv : di ds';
  mo_due : due ds';
  mo_ages : ages ds ds';
  mo_claims x : claims_on ds' x = claims_on ds x - n x;
}.
Lemma refresh_moved ds b : di ds -> moved ds (refresh ds b) (fun _ => 0).
Proof.
  intros Hd. destruct (refresh_fields ds b) as (Er & Ea & Ed & Eh & _).
  split; [by apply refresh_settling|apply refresh_due|by apply ages_refl|].
  intros x. unfold claims_on. rewrite Er, Eh. lia.
Qed.
Lemma moved_trans ds0 ds1 ds2 n k : moved ds0 ds1 n -> moved ds1 ds2 k -> moved ds0 ds2 (fun x => n x + k x).
Proof.
  intros Hab Hbc. split; try apply Hbc.
  - eapply ages_trans; [apply Hab|apply Hbc].
  - intros x. rewrite (mo_claims _ _ _ Hbc), (mo_claims _ _ _ Hab). lia.
Qed.
Lemma moved_ext ds ds' n k : moved ds ds' n -> (forall x, n x = k x) -> moved ds ds' k.
Proof. intros [] He. split; try done. intros x. rewrite <- He. done. Qed.
Definition one k : K -> Z := fun x => if decide (x = k) then 1 else 0.

(** ** Slots that change *)

(** A slot that does not wait changes into another that does not. *)
Lemma settling_slot n ds i d d' : settling n ds -> records ds !! i = Some d -> slot_ok i d' ->
  state d <> Ready -> state d' <> Ready -> (state d = Closed -> key_of d' = key_of d /\ state d' = Closed) ->
  settling (n + busy d' - busy d) (with_records ds (<[i:=d']> (records ds))).
Proof.
  intros [Hs Ha Hr Hq Hd] Hi Hok Hn Hn' Hc. assert (Hw : forall x, waits (<[i:=d']> (records ds)) x <-> waits (records ds) x).
  { intros x. unfold waits. destruct (decide (i = x)) as [<-|Hne].
    - rewrite list_lookup_insert_eq by (by eapply lookup_lt_Some). rewrite Hi. naive_solver.
    - by rewrite list_lookup_insert_ne. }
  split; simpl.
  - intros x e He. destruct (decide (i = x)) as [<-|Hne].
    + rewrite list_lookup_insert_eq in He by (by eapply lookup_lt_Some). by injection He as <-.
    + rewrite list_lookup_insert_ne in He by done. by apply Hs.
  - rewrite (total_insert _ _ _ d) by done. lia.
  - by rewrite length_insert.
  - unfold queued in *. simpl. destruct (ready ds); [..|done].
    all: destruct Hq as (q & Hq & Hnd & Hin); exists q; split; [apply chained_other; [done|]|].
    1,3: (intros Hx; apply Hin in Hx; destruct Hx as (e & He & ?); congruence).
    all: (split; [done|]; intros x; by rewrite Hin, Hw).
  - intros k Hk. destruct (Hd k Hk) as (e & He & Hke & Hce). destruct (decide (i = index k)) as [->|Hne].
    + rewrite He in Hi. injection Hi as ->. destruct (Hc Hce) as [E ?]. exists d'.
      rewrite list_lookup_insert_eq by (by eapply lookup_lt_Some). split; [done|]. split; [congruence|done].
    + exists e. by rewrite list_lookup_insert_ne.
Qed.

(** ** The operations *)

(** The slots as they are allocated: linked in order. *)
Lemma link_all_spec n : forall j l o, (j + n = length l)%nat -> chained l o (seq 0 j) ->
  (forall i, (j <= i < length l)%nat -> exists d, l !! i = Some d /\ next d = None) ->
  let '(l', o') := link_all l o (seq j n) in
  chained l' o' (seq 0 (j + n)) /\ length l' = length l
  /\ forall x d', l' !! x = Some d' -> exists d, l !! x = Some d /\ d_generation d' = d_generation d
       /\ state d' = state d /\ slot d' = slot d.
Proof.
  induction n as [|n IH]; intros j l o Hj Hc Hn; simpl.
  { rewrite Nat.add_0_r. split; [done|]. split; [done|]. intros x d' Hd. by exists d'. }
  destruct (Hn j) as (d & Hd & Hnd); [lia|].
  pose proof (chained_push l o (seq 0 j) j d Hc) as Hp. destruct (push_back (tail_from o) l j) as [l1 c1].
  destruct Hp as (Hc1 & Hf1 & Ho1 & _ & Hl1); [apply NoDup_seq|rewrite elem_of_seq; lia|done..|].
  specialize (IH (Datatypes.S j) l1 (Some c1)). destruct (link_all l1 (Some c1) (seq (Datatypes.S j) n)) as [l' o'].
  destruct IH as (Hc' & Hl' & Hf'); [lia|by rewrite seq_S| |].
  - intros i Hi. destruct (Hn i) as (e & He & ?); [lia|]. exists e. rewrite Ho1 by (rewrite elem_of_seq; lia). done.
  - split; [by rewrite <- Nat.add_succ_comm|]. split; [lia|]. intros x d' Hd'. destruct (Hf' x d' Hd') as (d1 & Hd1 & ? & ? & ?).
    specialize (Hf1 x). destruct (l !! x) as [e|]; [|congruence]. destruct Hf1 as (e' & He' & ? & ? & ?). exists e. simplify_eq. repeat split; congruence.
Qed.
Lemma numbered_at n i : (i < n)%nat -> numbered (K := K) n !! i = Some (dial GEN_MIN None Ready i).
Proof. intros Hi. unfold numbered. by rewrite list_lookup_fmap, lookup_seq_lt by done. Qed.
Lemma dials_new_spec cap : Z.of_nat cap <= 2 ^ 24 - 1 ->
  di (dials_new cap) /\ due (dials_new cap) /\ (forall k, claims_on (dials_new cap) k = 0)
  /\ queued (dials_new cap) (seq 0 cap).
Proof.
  intros Hcap. unfold dials_new. pose proof (link_all_spec cap 0 (numbered (K := K) cap) None) as Hl.
  assert (Hlen : length (numbered (K := K) cap) = cap) by (unfold numbered; by rewrite length_fmap, length_seq).
  destruct (link_all _ None (seq 0 cap)) as [l o]. simpl in Hl. destruct Hl as (Hc & Hll & Hf); [lia|done| |].
  { intros i Hi. rewrite numbered_at by lia. by eexists. }
  assert (Hslot : forall i d, l !! i = Some d -> d_generation d = GEN_MIN /\ state d = Ready /\ slot d = i).
  { intros i d Hd. destruct (Hf i d Hd) as (d0 & Hd0 & E1 & E2 & E3). rewrite E1, E2, E3.
    rewrite numbered_at in Hd0 by (apply lookup_lt_Some in Hd; lia). by injection Hd0 as <-. }
  assert (Hz : forall w, (forall d, state d = Ready -> w d = 0) -> total w l = 0).
  { intros w Hw. apply total_zero. intros d [i Hi]%list_elem_of_lookup. apply Hw. by apply (Hslot i d). }
  split; [split; simpl|split; [|split]].
  - intros i d Hd. destruct (Hslot i d Hd) as (Eg & _ & Es). split; [done|]. rewrite Eg. split; [done|apply gen_min_max].
  - rewrite Hz; [done|]. intros d. unfold busy, dial_active. by intros ->.
  - lia.
  - exists (seq 0 cap). split; [done|]. split; [apply NoDup_seq|]. intros i. rewrite elem_of_seq. split.
    + intros Hi. destruct (lookup_lt_is_Some_2 l i) as [d Hd]; [lia|]. exists d. split; [done|]. by apply (Hslot i d).
    + intros (d & Hd & _). apply lookup_lt_Some in Hd. lia.
  - done.
  - simpl. destruct o; [done|by left].
  - intros k. unfold claims_on. simpl. rewrite Hz; [done|]. intros d. unfold holds, dial_active. by intros ->.
  - done.
Qed.

Lemma holds_active d t k : state d = Submitted t \/ state d = Connected t -> holds k d = one (member t) k /\ busy d = 1.
Proof.
  unfold holds, busy, dial_active, one. intros [->| ->]; simpl; split; try done; apply decide_ext; naive_solver.
Qed.
Lemma holds_idle d k : state d = Ready \/ state d = Closed -> holds k d = 0 /\ busy d = 0.
Proof. unfold holds, busy, dial_active. by intros [->| ->]. Qed.
(** An active slot changes into one that does not wait. *)
Lemma slot_change n ds i d t s : settling n ds -> records ds !! i = Some d ->
  state d = Submitted t \/ state d = Connected t -> s <> Ready ->
  let d' := dial (d_generation d) (next d) s (slot d) in
  let ds' := with_records ds (<[i:=d']> (records ds)) in
  set_state (records ds) i s = <[i:=d']> (records ds)
  /\ settling (n + busy d' - 1) ds' /\ ages ds ds'
  /\ forall k, claims_on ds' k = claims_on ds k - one (member t) k + holds k d'.
Proof.
  intros Hd Hi Hst Hs d' ds'. split; [by apply set_state_at|]. split; [|split].
  - destruct (holds_active d t (member t) Hst) as [_ <-]. apply settling_slot; [done..| | |done|].
    + pose proof (di_slots _ _ Hd i d Hi) as [? ?]. by split.
    + destruct Hst; congruence.
    + destruct Hst; congruence.
  - eapply ages_insert; [done|done| |done]. right. split; [done|]. destruct Hst; congruence.
  - intros k. unfold claims_on. simpl. rewrite (total_insert _ _ _ d) by done.
    destruct (holds_active d t k Hst) as [-> _]. lia.
Qed.

Lemma connect_commit_spec ds key i t t' : di ds -> due ds -> connection ds key = Some (i, t) -> member t' = member t ->
  moved ds (commit ds (i, t) t') (fun _ => 0)
  /\ active_of ds key = Some (member t) /\ active_of (commit ds (i, t) t') key = Some (member t)
  /\ ready (commit ds (i, t) t') = ready ds.
Proof.
  intros Hd Hdue Hc Hm. assert (Hact : active_of ds key = Some (member t)).
  { unfold connection in Hc. unfold active_of, dial_active. destruct (get ds key) as [d|]; [|done]. destruct (state d); naive_solver. }
  destruct (active_slot ds key _ Hact) as (d & t0 & Hi & Hg & Hgen & Hm0 & Hst).
  assert (Hit : i = index key /\ t0 = t).
  { unfold connection in Hc. rewrite Hg in Hc. destruct Hst as [E|E]; rewrite E in Hc; by simplify_eq. }
  destruct Hit as [-> ->].
  destruct (slot_change 0 ds (index key) d t (Connected t') Hd Hi Hst) as (Es & Hd' & Ha & Hcl); [done|].
  unfold commit. simpl fst. rewrite Es. split; [split|split; [done|split; [|done]]].
  - by replace (0 + _ - 1) with 0 in Hd' by done.
  - exact Hdue.
  - done.
  - intros x. destruct (holds_active (dial (d_generation d) (next d) (Connected t') (slot d)) t' x) as [Hx _]; [by right|].
    rewrite Hcl, Hx, Hm. lia.
  - unfold active_of, get. simpl. rewrite list_lookup_insert_eq by (by eapply lookup_lt_Some).
    unfold matches. simpl. rewrite Hgen, Z.eqb_refl. unfold dial_active. simpl. by rewrite Hm.
Qed.

Lemma active_pos n ds i d k : settling n ds -> records ds !! i = Some d -> dial_active d = Some k -> 1 - n <= active ds.
Proof.
  intros Hd Hi Hk. rewrite (di_active _ _ Hd).
  assert (busy d <= total busy (records ds)).
  { eapply total_above; [|exact Hi]. intros e. unfold busy. by destruct (dial_active e). }
  unfold busy in *. rewrite Hk in *. lia.
Qed.
Lemma dial_active_at d t : state d = Submitted t \/ state d = Connected t -> dial_active d = Some (member t).
Proof. unfold dial_active. by intros [->| ->]. Qed.

Lemma settling_active n n' ds a : settling n ds -> a = active ds + n - n' -> settling n' (with_active ds a).
Proof. intros [] ->. split; simpl; try done. lia. Qed.

Lemma close_spec ds key : di ds ->
  match active_of ds key with
  | None => close ds key = Ok (None, ds)
  | Some k => exists t ds', close ds key = Ok (Some t, ds') /\ member t = k /\ di ds' /\ ages ds ds' /\ spent ds' key
      /\ (forall x, claims_on ds' x = claims_on ds x - one k x) /\ ready ds' = ready ds
  end.
Proof.
  intros Hd. destruct (active_of ds key) as [k|] eqn:Hact.
  - destruct (active_slot ds key _ Hact) as (d & t & Hi & Hg & Hgen & Hm & Hst).
    destruct (slot_change 0 ds (index key) d t Closed Hd Hi Hst) as (Es & Hd' & Ha & Hcl); [done|].
    pose proof (active_pos 0 ds _ d _ Hd Hi (dial_active_at d t Hst)) as Hpos.
    exists t, (with_active (with_records ds (set_state (records ds) (index key) Closed)) (active ds - 1)).
    split; [|split; [done|split; [|split; [|split; [|split; [|done]]]]]].
    + unfold close. rewrite Hg. destruct (Z.eqb_spec (active ds) 0); [lia|]. by destruct Hst as [-> | ->].
    + rewrite Es. eapply settling_active; [exact Hd'|]. simpl. unfold busy. simpl. lia.
    + rewrite Es. exact Ha.
    + rewrite Es. intros e. simpl. rewrite list_lookup_insert_eq by (by eapply lookup_lt_Some). intros [= <-]. right. by simpl.
    + rewrite Es. intros x. rewrite <- Hm. transitivity (claims_on ds x - one (member t) x + 0); [|lia].
      rewrite <- Hcl. done.
  - pose proof (inactive_state ds key Hact) as Hs. unfold close. destruct (get ds key) as [d|]; [|done]. by destruct Hs as [-> | ->].
Qed.

Lemma reset_slot l i d g : l !! i = Some d ->
  set_next (set_state (set_generation l i g) i Ready) i None = <[i:=dial g None Ready (slot d)]> l.
Proof.
  intros Hi. assert (Hlt := lookup_lt_Some _ _ _ Hi). rewrite (set_generation_at l i d g Hi).
  erewrite set_state_at by (by apply list_lookup_insert_eq). rewrite list_insert_insert_eq.
  erewrite set_next_at by (by apply list_lookup_insert_eq). by rewrite list_insert_insert_eq.
Qed.

(** An active slot goes back to the end of the line, one generation older. *)
Lemma rejoin ds i d t o q g : settling 1 ds -> records ds !! i = Some d ->
  state d = Submitted t \/ state d = Connected t -> chained (records ds) o q -> line (records ds) q ->
  d_generation d < g <= GEN_MAX ->
  let '(l', c) := push_back (tail_from o) (<[i:=dial g None Ready (slot d)]> (records ds)) i in
  chained l' (Some c) (q ++ [i]) /\ line l' (q ++ [i])
  /\ total busy l' = total busy (records ds) - 1
  /\ (forall k, total (holds k) l' = total (holds k) (records ds) - one (member t) k)
  /\ (forall ds', records ds' = l' -> ages ds ds')
  /\ (forall x e, l' !! x = Some e -> slot_ok x e)
  /\ (exists e, l' !! i = Some e /\ d_generation e = g)
  /\ (forall x e, records ds !! x = Some e -> state e = Closed -> exists e', l' !! x = Some e' /\ key_of e' = key_of e /\ state e' = Closed).
Proof.
  intros Hds Hi Hst Hc [Hnd Hin] Hg. assert (Hlt := lookup_lt_Some _ _ _ Hi).
  assert (Hq : i ∉ q) by (intros (e & He & ?)%Hin; destruct Hst; congruence).
  set (d1 := dial g None Ready (slot d)). set (l1 := <[i:=d1]> (records ds)).
  assert (Hd1 : l1 !! i = Some d1) by (by apply list_lookup_insert_eq).
  pose proof (chained_push l1 o q i d1 (chained_other _ _ _ _ _ Hc Hq) Hnd Hq Hd1 eq_refl) as Hp.
  destruct (push_back (tail_from o) l1 i) as [l' c]. destruct Hp as (Hc' & Hf & Ho & Ht & Hl).
  (* A slot of the new table, and the one it was. *)
  assert (Hback : forall x e, l' !! x = Some e -> x = i /\ d_generation e = g /\ state e = Ready /\ slot e = slot d
    \/ x <> i /\ exists e0, records ds !! x = Some e0 /\ d_generation e = d_generation e0 /\ state e = state e0 /\ slot e = slot e0).
  { intros x e He. specialize (Hf x). destruct (decide (x = i)) as [->|Hne]; [left|right].
    - rewrite Hd1 in Hf. destruct Hf as (e' & He' & ? & ? & ?). by simplify_eq/=.
    - split; [done|]. unfold l1 in Hf. rewrite list_lookup_insert_ne in Hf by done.
      destruct (records ds !! x) as [e0|]; [|congruence]. destruct Hf as (e' & He' & ? & ? & ?). exists e0. by simplify_eq. }
  assert (Hfwd : forall x e0, records ds !! x = Some e0 -> x <> i ->
    exists e, l' !! x = Some e /\ d_generation e = d_generation e0 /\ state e = state e0 /\ slot e = slot e0).
  { intros x e0 He0 Hne. specialize (Hf x). unfold l1 in Hf. rewrite list_lookup_insert_ne in Hf by done. by rewrite He0 in Hf. }
  split; [done|]. split; [|split; [|split; [|split; [|split; [|split]]]]].
  - split; [apply NoDup_app; split; [done|]; split; [set_solver|apply NoDup_singleton]|].
    intros x. rewrite elem_of_app, list_elem_of_singleton, Hin. split.
    + intros [(e0 & He0 & Hr)| ->].
      * destruct (Hfwd x e0 He0) as (e & He & _ & Hse & _); [intros ->; destruct Hst; congruence|]. exists e. split; [done|congruence].
      * specialize (Hf i). rewrite Hd1 in Hf. destruct Hf as (e & He & _ & Hse & _). by exists e.
    + intros (e & He & Hr). destruct (Hback x e He) as [(-> & _)|(Hne & e0 & He0 & _ & Hse & _)]; [by right|left].
      exists e0. split; [done|congruence].
  - rewrite Ht by done. unfold l1. rewrite (total_insert _ _ _ d) by done.
    destruct (holds_active d t (member t) Hst) as [_ ->]. unfold busy, d1, dial_active. simpl. lia.
  - intros k. rewrite Ht by done. unfold l1. rewrite (total_insert _ _ _ d) by done.
    destruct (holds_active d t k Hst) as [-> _]. unfold holds, d1, dial_active. simpl. lia.
  - intros ds' E. split; [rewrite E, Hl; apply length_insert|]. intros x e0 He0. destruct (decide (x = i)) as [->|Hne].
    + specialize (Hf i). rewrite Hd1 in Hf. destruct Hf as (e & He & Hge & _ & _). exists e. rewrite E. split; [done|].
      left. simplify_eq. rewrite Hge. simpl. lia.
    + destruct (Hfwd x e0 He0 Hne) as (e & He & ? & Hse & _). exists e. rewrite E. split; [done|]. right. rewrite Hse. by split.
  - intros x e He. destruct (Hback x e He) as [(-> & Eg & _ & Es)|(Hne & e0 & He0 & Eg & _ & Es)].
    + destruct (di_slots _ _ Hds i d Hi) as [? ?]. split; [congruence|lia].
    + destruct (di_slots _ _ Hds x e0 He0) as [? ?]. split; [congruence|lia].
  - specialize (Hf i). rewrite Hd1 in Hf. destruct Hf as (e & He & Hge & _ & _). by exists e.
  - intros x e0 He0 Hcl. destruct (Hfwd x e0 He0) as (e & He & Ege & Ese & Eso); [intros ->; destruct Hst; congruence|].
    exists e. split; [done|]. unfold key_of. rewrite Ege, Eso. split; [done|congruence].
Qed.

(** What [requeue] leaves of an attempt that ended at slot [i]. *)
Definition requeued ds ds' i d t : Prop :=
  moved ds ds' (one (member t)) /\ spent ds' (id i (d_generation d))
  /\ (d_generation d < GEN_MAX -> forall q, queued ds q -> line (records ds) q -> queued ds' (q ++ [i])).

(** A slot that ends for good. *)
Lemma retired_slot ds i d t b : settling 1 ds -> records ds !! i = Some d ->
  state d = Submitted t \/ state d = Connected t ->
  let ds1 := with_records ds (set_state (records ds) i Closed) in
  moved ds (refresh ds1 b) (one (member t))
  /\ moved ds (refresh (with_depleted ds1 (Some (key_of d))) b) (one (member t))
  /\ spent ds1 (id i (d_generation d)).
Proof.
  intros Hds Hi Hst ds1. destruct (slot_change 1 ds i d t Closed Hds Hi Hst) as (Es & Hd' & Ha & Hcl); [done|].
  subst ds1. cbv zeta in Hd', Hcl, Ha |- *. rewrite Es. set (ds2 := with_records ds (<[i:=_]> _)) in *.
  assert (Hd2 : di ds2) by exact Hd'.
  assert (Hnew : records ds2 !! i = Some (dial (d_generation d) (next d) Closed (slot d))).
  { unfold ds2. simpl. rewrite list_lookup_insert_eq; [done|]. by eapply lookup_lt_Some. }
  assert (Hcl2 : forall x, claims_on ds2 x = claims_on ds x - one (member t) x).
  { intros x. rewrite Hcl. unfold holds, dial_active. simpl. lia. }
  assert (Hgo : forall ds3, di ds3 -> records ds3 = records ds2 -> ready ds3 = ready ds2 -> moved ds (refresh ds3 b) (one (member t))).
  { intros ds3 D3 E3 R3. destruct (refresh_moved ds3 b D3) as [Hi3 Hu3 Hg3 Hc3]. split; [done|done| |].
    - eapply ages_trans; [|exact Hg3]. destruct Ha as [Hal Hag]. split; [by rewrite E3|]. by rewrite E3.
    - intros x. rewrite Hc3, Z.sub_0_r, <- Hcl2. unfold claims_on. by rewrite E3, R3. }
  split; [by apply Hgo|]. split; [|intros e He; simpl in He; unfold ds2 in Hnew; simpl in Hnew; right; rewrite Hnew in He; by injection He as <-].
  apply Hgo; [|done|done]. destruct Hd2 as [? ? ? ? Hdep]. split; try done. simpl. intros k [= <-].
  exists (dial (d_generation d) (next d) Closed (slot d)). split; [|done].
  replace (index (key_of d)) with i; [exact Hnew|]. symmetry. apply (di_slots _ _ Hds i d Hi).
Qed.

Lemma requeue_spec ds i d t b : settling 1 ds -> records ds !! i = Some d ->
  state d = Submitted t \/ state d = Connected t ->
  exists ds', requeue ds i b = Ok ds' /\ requeued ds ds' i d t.
Proof.
  intros Hds Hi Hst. destruct (retired_slot ds i d t b Hds Hi Hst) as (Hrej & Hdep & Hsp). cbv zeta in *.
  unfold requeue, at_slot. rewrite Hi. cbn [bind].
  assert (Hgo : forall o (qf : Chain -> Queue K P) q, queued ds q -> line (records ds) q -> chained (records ds) o q ->
    (forall k c, on_held (qf c) k = on_held (ready ds) k) ->
    (forall c, match qf c with Rejected _ => False | Open None => False | Open (Some c') => c' = c | Deferred h => h_chain h = c end) ->
    (match ready ds with Rejected _ => False | _ => True end) ->
    (forall q', queued ds q' -> chained (records ds) o q') ->
    exists ds', (let '(r, l) := try_requeue (records ds) i d (tail_from o) in
      let self := with_records ds l in
      let! self := match r with Ok c => Ok (with_ready self (qf c)) | Err key => Ok (with_depleted self (Some key)) | Stuck w => Stuck w end in
      Ok (refresh self b)) = Ok (E := Empty_set) ds' /\ requeued ds ds' i d t).
  { intros o qf q Hq Hline Hc Hheld Hqf Hready Hsame. unfold try_requeue, gen_checked_add.
    destruct (Z.leb_spec (d_generation d + 1) GEN_MAX) as [Hg|Hg].
    - rewrite (reset_slot _ _ d _ Hi).
      pose proof (rejoin ds i d t o q (d_generation d + 1) Hds Hi Hst Hc Hline ltac:(lia)) as Hr.
      assert (Hall : forall q', queued ds q' -> line (records ds) q' ->
        let '(l', c) := push_back (tail_from o) (<[i:=dial (d_generation d + 1) None Ready (slot d)]> (records ds)) i in
        chained l' (Some c) (q' ++ [i])).
      { intros q' Hq' Hl'. pose proof (rejoin ds i d t o q' (d_generation d + 1) Hds Hi Hst (Hsame _ Hq') Hl' ltac:(lia)) as Hr'.
        destruct (push_back _ _ i). by apply Hr'. }
      destruct (push_back (tail_from o) _ i) as [l' c]. destruct Hr as (Hc' & Hl' & Hb & Hh & Hag & Hok & (e & He & Hge) & Hcl).
      eexists. split; [done|]. set (ds1 := with_ready (with_records ds l') (qf c)).
      assert (Hq1 : forall q', chained l' (Some c) q' -> queued ds1 q').
      { intros q' Hq'. unfold queued, ds1. simpl. specialize (Hqf c). destruct (qf c) as [[c'|]|h|]; [|done| |done]; by subst. }
      assert (Hd1 : di ds1).
      { split; simpl; [done| | | |].
        - rewrite Hb, (di_active _ _ Hds). lia.
        - destruct (Hag ds1 eq_refl) as [E _]. simpl in E. rewrite E. apply Hds.
        - specialize (Hq1 _ Hc'). destruct (qf c) eqn:Eq; [..|done]; exists (q ++ [i]); by split.
        - intros k Hk. destruct (di_depleted _ _ Hds k Hk) as (e0 & He0 & Hke & Hce).
          destruct (Hcl _ _ He0 Hce) as (e' & He' & ? & ?). exists e'. split; [done|]. split; [congruence|done]. }
      destruct (refresh_moved ds1 b Hd1) as [R1 R2 R3 R4]. split; [split; [exact R1|exact R2| |]|split].
      + apply (ages_trans _ ds1); [by apply Hag|exact R3].
      + intros x. rewrite R4. unfold claims_on, ds1. simpl. rewrite Hh, Hheld. lia.
      + eapply (spent_ages ds1); [exact R3|]. intros e' He'. left. simpl in *. simplify_eq. rewrite Hge. lia.
      + intros _ q' Hq' Hlq'. specialize (Hall q' Hq' Hlq'). destruct (refresh_fields ds1 b) as (Er & _ & _ & _ & Hrd).
        unfold queued. rewrite Er. pose proof (Hq1 _ Hall) as Hq2. unfold queued in Hq2.
        destruct Hrd as [-> |(Ho & _)]; [exact Hq2|]. unfold ds1 in Ho. simpl in Ho. specialize (Hqf c). by rewrite Ho in Hqf.
    - eexists. split; [done|]. split; [exact Hdep|]. split; [|lia].
      eapply spent_ages; [|exact Hsp]. apply ages_refl. by destruct (refresh_fields (with_depleted (with_records ds (set_state (records ds) i Closed)) (Some (key_of d))) b) as (-> & _). }
  pose proof (di_queue _ _ Hds) as Hq. unfold queued in Hgo, Hq. destruct (ready ds) as [o|h|c] eqn:Hr.
  - destruct Hq as (q & Hq & Hl). eapply (Hgo o (fun c => Open (Some c)) q); done.
  - destruct Hq as (q & Hq & Hl).
    eapply (Hgo (Some (h_chain h)) (fun c => Deferred (held c (h_target h) (plan h))) q); done.
  - eexists. split; [done|]. split; [exact Hrej|]. split.
    + eapply spent_ages; [|exact Hsp]. apply ages_refl. by destruct (refresh_fields (with_records ds (set_state (records ds) i Closed)) b) as (-> & _).
    + intros _ q Hq'. unfold queued in Hq'. by rewrite Hr in Hq'.
Qed.

Lemma recycle_spec {O} ds key b (update : Target -> run Empty_set O) : di ds ->
  match active_of ds key with
  | None => recycle ds key b update = Ok (None, ds)
  | Some k => exists t, member t = k /\ forall o, update t = Ok o ->
      exists ds', recycle ds key b update = Ok (Some o, ds') /\ moved ds ds' (one k) /\ spent ds' key
        /\ (generation key < GEN_MAX -> forall q, queued ds q -> line (records ds) q -> queued ds' (q ++ [index key]))
  end.
Proof.
  intros Hd. destruct (active_of ds key) as [k|] eqn:Hact.
  - destruct (active_slot ds key _ Hact) as (d & t & Hi & Hg & Hgen & Hm & Hst). exists t. split; [done|]. intros o Ho.
    pose proof (active_pos 0 ds _ d _ Hd Hi (dial_active_at d t Hst)) as Hpos.
    assert (Hs1 : settling 1 (with_active ds (active ds - 1))) by (eapply settling_active; [exact Hd|lia]).
    destruct (requeue_spec (with_active ds (active ds - 1)) (index key) d t b Hs1 Hi Hst) as (ds' & E & Hmv & Hsp & Hq).
    exists ds'. split.
    { unfold recycle. rewrite Hg.
      assert (Hrun : (let! output := update t in if active ds =? 0 then Stuck Panic else
        let! self := requeue (with_active ds (active ds - 1)) (index key) b in Ok (Some output, self)) = Ok (Some o, ds')).
      { rewrite Ho. cbn [bind]. destruct (Z.eqb_spec (active ds) 0); [lia|]. by rewrite E. }
      by destruct Hst as [-> | ->]. }
    rewrite <- Hm. split; [|split].
    + destruct Hmv as [? ? ? ?]. by split.
    + intros e He. destruct (Hsp e He) as [?|[? ?]]; simpl in *; rewrite <- Hgen; auto.
    + rewrite <- Hgen. exact Hq.
  - pose proof (inactive_state ds key Hact) as Hs. unfold recycle. destruct (get ds key) as [d|]; [|done]. by destruct Hs as [-> | ->].
Qed.

(** Rejecting gives back the claim of a deferred dial, once; the first cause
    stays. *)
Lemma reject_spec {M} ds key e (x : M) (f : M -> Target -> run Empty_set M) : di ds ->
  (forall h, ready ds = Deferred h -> exists x', f x (h_target h) = Ok x') ->
  exists x' ds', reject ds key e x f = Ok (x', ds') /\ moved ds ds' (on_held (ready ds)) /\ records ds' = records ds
    /\ match ready ds with Deferred h => f x (h_target h) = Ok x' | _ => x' = x end
    /\ ready ds' = (match ready ds with Rejected c => Rejected c | _ => Rejected (Some (key, e)) end).
Proof.
  intros Hd Hf. assert (Hrej : forall c : option (Id * Exhaustion), let ds1 := with_ready ds (Rejected c) in
    moved ds (refresh ds1 false) (on_held (ready ds)) /\ records (refresh ds1 false) = records ds /\ ready (refresh ds1 false) = Rejected c).
  { intros c ds1. assert (Hd1 : di ds1) by (by eapply settling_same; [exact Hd|..]).
    destruct (refresh_moved ds1 false Hd1) as [R1 R2 R3 R4]. destruct (refresh_fields ds1 false) as (Er & _ & _ & _ & Hr).
    split; [split; [done|done|exact R3|]|split; [done|destruct Hr as [Hr1|[Hr1 _]]; [exact Hr1|discriminate Hr1]]].
    intros y. rewrite R4. unfold claims_on. simpl. lia. }
  unfold reject. destruct (ready ds) as [o|h|c] eqn:Hr.
  - exists x. eexists. split; [done|]. by destruct (Hrej (Some (key, e))) as (? & ? & ?).
  - destruct (Hf h eq_refl) as [x' E]. rewrite E. cbn [bind]. exists x'. eexists. split; [done|].
    by destruct (Hrej (Some (key, e))) as (? & ? & ?).
  - exists x, (refresh ds false). split; [done|]. destruct (Hrej c) as (Hm & ? & ?).
    replace (with_ready ds (Rejected c)) with ds in * by (rewrite <- Hr; by destruct ds). done.
Qed.

(** What [terminal] reports of a line that is closed: the failure, once every
    attempt is over, and once. *)
Lemma terminal_spec {E} ds : di ds -> due ds ->
  let '(o, ds') := terminal (E := E) ds in
  moved ds ds' (fun _ => 0) /\ records ds' = records ds
  /\ match ready ds with
     | Rejected (Some (key, e)) =>
         if needs_poll ds then o = OFailed key (from_exhaustion e) /\ ready ds' = Rejected None
         else o = OIdle /\ ds' = ds
     | _ => o = OIdle /\ ds' = ds
     end.
Proof.
  intros Hd Hdue. assert (Hno : moved ds ds (fun _ => 0)).
  { split; [done|done|by apply ages_refl|intros; lia]. }
  unfold terminal. unfold due in Hdue. destruct (ready ds) as [o|h|[[key e]|]] eqn:Hr; [done|done| |by rewrite Hdue].
  destruct (needs_poll ds) eqn:Hn; [|done]. split; [|done]. split; [|done|by apply ages_refl|].
  - by eapply settling_same; [exact Hd|..].
  - intros x. unfold claims_on. simpl. rewrite Hr. simpl. lia.
Qed.

Lemma front_waits ds h : di ds -> ready ds = Deferred h ->
  exists d, records ds !! front (h_chain h) = Some d /\ state d = Ready.
Proof.
  intros Hd Hr. pose proof (di_queue _ _ Hd) as Hq. rewrite Hr in Hq. destruct Hq as (q & Hc & Hl).
  unfold queued in Hc. rewrite Hr in Hc. destruct Hc as (_ & Hh & _). apply Hl. destruct q; [done|]. simpl in Hh. simplify_eq. set_solver.
Qed.

(** A deferred attempt that is taken back leaves its place at the head. *)
Lemma reset_front_spec {M} ds (x : M) (f : M -> Target -> run Empty_set (option Update * M)) : di ds -> due ds ->
  (forall h, ready ds = Deferred h -> exists r, f x (h_target h) = Ok r) ->
  exists o x' ds', reset_front ds x f = Ok (o, x', ds') /\ records ds' = records ds
    /\ match ready ds with
       | Deferred h => exists u, f x (h_target h) = Ok (u, x')
           /\ match u with
              | None => ds' = ds /\ o = None
              | Some _ => moved ds ds' (on_held (ready ds)) /\ ready ds' = Open (Some (h_chain h))
              end
       | _ => o = None /\ x' = x /\ ds' = ds
       end.
Proof.
  intros Hd Hdue Hf. unfold reset_front. destruct (ready ds) as [c|h|c] eqn:Hr; [by eexists _, _, _|..|by eexists _, _, _].
  destruct (Hf h eq_refl) as [[u x'] E]. rewrite E. cbn [bind].
  assert (Hgo : moved ds (with_ready ds (Open (Some (h_chain h)))) (on_held (Deferred h))).
  { split; [|done|by apply ages_refl|].
    - eapply settling_same; [exact Hd|done..|]. pose proof (di_queue _ _ Hd) as Hq. unfold queued in *. by rewrite Hr in Hq.
    - intros y. unfold claims_on. simpl. rewrite Hr. simpl. lia. }
  destruct (front_waits ds h Hd Hr) as (d & Hfr & _). unfold at_slot. rewrite Hfr. cbn [bind].
  destruct u as [[]|]; cbn [bind]; (eexists _, x', _; split; [done|]; split; [done|]; eexists; split; [done|]; by split).
Qed.

(** ** Dialling *)

(** The members and the dials agree. *)
Record books ds m : Prop := {
  bk_members : inv AUTH m;
  bk_dials : di ds;
  bk_owed : AUTH = false -> forall k, owed m k = claims_on ds k;
}.

Lemma total_busy_le l : total busy l <= Z.of_nat (length l).
Proof.
  transitivity (total (fun _ => 1) l); [|rewrite total_const; lia]. apply total_le. intros d _. unfold busy. by destruct (dial_active d).
Qed.
Lemma total_holds_nonneg l k : 0 <= total (holds k) l <= Z.of_nat (length l).
Proof.
  split.
  - transitivity (total (fun _ : Dial => 0) l); [rewrite total_const; lia|]. apply total_le. intros d _. unfold holds.
    destruct (dial_active d); [|done]. by case_decide.
  - etransitivity; [|apply total_busy_le]. apply total_le. intros d _. unfold holds, busy. destruct (dial_active d); [|done]. by case_decide.
Qed.
Lemma on_held_bound (r : Queue K P) k : 0 <= on_held r k <= 1.
Proof. unfold on_held. destruct r; [done| |done]. by case_decide. Qed.
Lemma claims_bound ds k : di ds -> 0 <= claims_on ds k < 2 ^ 32 - 1.
Proof.
  intros Hd. unfold claims_on. pose proof (total_holds_nonneg (records ds) k). pose proof (on_held_bound (ready ds) k).
  pose proof (di_room _ _ Hd). lia.
Qed.
(** A member that a dial is for, or that one is deferred for, is claimed. *)
Lemma active_claimed ds m key k : books ds m -> active_of ds key = Some k -> claimed AUTH m k.
Proof.
  intros Hb Hact Ha. rewrite (bk_owed _ _ Hb Ha). destruct (active_slot ds key k Hact) as (d & t & Hi & _ & _ & Hm & Hst).
  destruct (holds_active d t k Hst) as [Hh _]. unfold one in Hh. rewrite decide_True in Hh by done.
  assert (holds k d <= total (holds k) (records ds)).
  { eapply total_above; [|exact Hi]. intros e. unfold holds. destruct (dial_active e); [|done]. by case_decide. }
  unfold claims_on. pose proof (on_held_bound (ready ds) k). lia.
Qed.
Lemma held_claimed ds m h : books ds m -> ready ds = Deferred h -> claimed AUTH m (member (h_target h)).
Proof.
  intros Hb Hr Ha. rewrite (bk_owed _ _ Hb Ha). unfold claims_on. rewrite Hr. simpl. rewrite decide_True by done.
  pose proof (total_holds_nonneg (records ds) (member (h_target h))). lia.
Qed.
Lemma books_moved ds ds' m m' n : books ds m -> moved ds ds' n -> claims AUTH m m' n -> books ds' m'.
Proof.
  intros [Hm Hd Ho] Hmv [Hi Ho' _ _]. split; [done|apply Hmv|]. intros Ha k. rewrite Ho', Ho, (mo_claims _ _ _ Hmv) by done. done.
Qed.
Lemma settles_one m m' k : settles AUTH m m' k 1 -> claims AUTH m m' (one k).
Proof. intros Hs. by apply settles_claims in Hs. Qed.

(** All of the invariant but the line. *)
Abbreviation loose ds := (di (with_ready ds (Rejected None))).

(** The head of the line is taken out of it. *)
Lemma leave ds i q d d' : loose ds -> line (records ds) (i :: q) -> records ds !! i = Some d -> slot_ok i d' ->
  state d' <> Ready ->
  let l' := <[i:=d']> (records ds) in
  loose (with_active (with_records ds l') (active ds + busy d')) /\ line l' q
  /\ (forall k, total (holds k) l' = total (holds k) (records ds) + holds k d')
  /\ (d_generation d <= d_generation d' -> forall ds', records ds' = l' -> ages ds ds').
Proof.
  intros [Hs Ha Hr _ Hdep] [Hnd Hin] Hi Hok Hn l'. simpl in *. assert (Hlt := lookup_lt_Some _ _ _ Hi).
  assert (Hready : state d = Ready). { destruct (proj1 (Hin i)) as (e & He & ?); [set_solver|]. congruence. }
  apply NoDup_cons in Hnd as [Hni Hnd]. split; [split; simpl|split; [split; [done|]|split]].
  - intros x e He. unfold l' in He. destruct (decide (i = x)) as [<-|Hne].
    + rewrite list_lookup_insert_eq in He by done. by injection He as <-.
    + rewrite list_lookup_insert_ne in He by done. by apply Hs.
  - unfold l'. rewrite (total_insert _ _ _ d) by done. assert (busy d = 0) by (unfold busy, dial_active; by rewrite Hready). lia.
  - unfold l'. by rewrite length_insert.
  - done.
  - intros k Hk. destruct (Hdep k Hk) as (e & He & Hke & Hce). exists e. unfold l'. rewrite list_lookup_insert_ne; [done|].
    intros ->. congruence.
  - intros x. unfold waits, l'. destruct (decide (i = x)) as [<-|Hne].
    + rewrite list_lookup_insert_eq by done. naive_solver.
    + rewrite list_lookup_insert_ne by done. fold (waits (records ds) x). rewrite <- Hin. set_solver.
  - intros k. unfold l'. rewrite (total_insert _ _ _ d) by done. assert (holds k d = 0) by (unfold holds, dial_active; by rewrite Hready). lia.
  - intros Hg ds' E. eapply ages_insert; [done|reflexivity| |done]. rewrite Hready. destruct (Z.eq_dec (d_generation d) (d_generation d')); [by right|left; lia].
Qed.

Lemma loose_any ds (c : option (Id * Exhaustion)) : loose ds -> di (with_ready ds (Rejected c)).
Proof. by intros []. Qed.
Lemma di_loose ds : di ds -> loose ds.
Proof. by intros []. Qed.

(** Giving up while the line is in hand. *)
Lemma give_up_spec ds (o : option Chain) key e m : loose ds -> ready ds = Open o ->
  exists r ds', (let! (m, self) := reject ds key e m (cancelled AUTH) in
      let '(o, self) := terminal (E := W) self in Ok (o, m, self)) = Ok (r, m, ds')
    /\ di ds' /\ due ds' /\ records ds' = records ds /\ (exists c : option (Id * Exhaustion), ready ds' = Rejected c)
    /\ r = if active ds =? 0 then OFailed key (from_exhaustion e) else OIdle.
Proof.
  intros Hd Hr. unfold reject. rewrite Hr. cbn [bind]. set (ds1 := with_ready ds (Rejected (Some (key, e)))).
  assert (Hd1 : di ds1) by by apply loose_any.
  assert (E1 : refresh ds1 false = with_needs_poll ds1 (active ds =? 0)).
  { unfold refresh, ds1. simpl. by destruct (depleted ds). }
  pose proof (refresh_moved ds1 false Hd1) as R. rewrite E1 in R |- *.
  pose proof (terminal_spec (E := W) _ (mo_inv _ _ _ R) (mo_due _ _ _ R)) as Ht.
  destruct (terminal _) as [r ds']. destruct Ht as (Ht & Er & Hr'). cbn [bind]. exists r, ds'. split; [done|].
  split; [apply Ht|]. split; [apply Ht|]. split; [exact Er|]. simpl in Hr'.
  destruct (active ds =? 0); destruct Hr' as [-> Hr']; (split; [|done]); [by exists None|subst; by exists (Some (key, e))].
Qed.

(** What becomes of the dial for [t] at the head of the line. *)
Definition dialled ds m c t p (submit : Id -> P -> Attempt P W) (o : Opening.Opening W) ds' m' : Prop :=
  exists d, records ds !! front c = Some d /\ match submit (key_of d) p with
    | Opening.Submitted => o = OSubmitted /\ m' = m /\ active_of ds' (key_of d) = Some (member t)
        /\ forall q, chained (records ds) (Some c) (front c :: q) -> line (records ds) (front c :: q) -> queued ds' q /\ line (records ds') q
    | Opening.Deferred cause p' => o = ODeferred (key_of d) cause /\ m' = m /\ records ds' = records ds
        /\ ready ds' = Deferred (held c t p')
    | Failed error => spent ds' (key_of d) /\ (exists c' : option (Id * Exhaustion), ready ds' = Rejected c')
        /\ (exists u, cancel AUTH m t = Ok (u, m'))
        /\ o = match into_wire error with
               | Ok cause => OFailed (key_of d) (Wire cause)
               | Err e => if active ds =? 0 then OFailed (key_of d) (from_exhaustion e) else OIdle
               | Stuck _ => OIdle
               end
    end.

Lemma total_busy_nonneg l : 0 <= total busy l.
Proof.
  transitivity (total (fun _ : Dial => 0) l); [rewrite total_const; lia|]. apply total_le. intros d _. unfold busy. by destruct (dial_active d).
Qed.

Section submit.
Context ds m c t (p : P) (present : bool) (submit : Id -> P -> Attempt P W) q.
Context (Hd : loose ds) (Hready : ready ds = Open None) (Hc : chained (records ds) (Some c) (front c :: q))
  (Hl : line (records ds) (front c :: q)) (Hm : inv AUTH m)
  (Ho : AUTH = false -> forall k, owed m k = total (holds k) (records ds) + one (member t) k).
Context d (Hf : records ds !! front c = Some d) (Hst : state d = Ready).

Lemma submit_slot s : s <> Ready ->
  set_next (set_state (records ds) (front c) s) (front c) None = <[front c:=dial (d_generation d) None s (slot d)]> (records ds)
  /\ set_state (set_next (records ds) (front c) None) (front c) s = <[front c:=dial (d_generation d) None s (slot d)]> (records ds)
  /\ slot_ok (front c) (dial (d_generation d) None s (slot d)).
Proof.
  intros Hs. assert (Hlt := lookup_lt_Some _ _ _ Hf). split; [|split].
  - rewrite (set_state_at _ _ d) by done. erewrite set_next_at by (by apply list_lookup_insert_eq). by rewrite list_insert_insert_eq.
  - rewrite (set_next_at _ _ d) by done. erewrite set_state_at by (by apply list_lookup_insert_eq). by rewrite list_insert_insert_eq.
  - exact (di_slots _ _ Hd _ _ Hf).
Qed.
Lemma submit_slots_end : forall s, s <> Ready -> forall ds', records ds' = <[front c:=dial (d_generation d) None s (slot d)]> (records ds) -> ages ds ds'.
Proof.
  intros s Hs ds' E. destruct (submit_slot s Hs) as (_ & _ & Hok).
  destruct (leave ds (front c) q d _ Hd Hl Hf Hok Hs) as (_ & _ & _ & Ha). apply Ha; [done|exact E].
Qed.

Lemma submit_Submitted : submit (key_of d) p = Opening.Submitted ->
  exists o m' ds', submit_dial AUTH ds m present c t p submit = Ok (o, m', ds')
    /\ books ds' m' /\ due ds' /\ ages ds ds' /\ (forall n, roomy n m -> roomy n m')
    /\ dialled ds m c t p submit o ds' m'.
Proof.
  intros Hsub. destruct (submit_slot (Submitted t)) as (E1 & _ & Hok); [done|].
  destruct (leave ds (front c) q d _ Hd Hl Hf Hok) as (Hd' & Hl' & Hh' & Ha'); [done|]. cbv zeta in *.
  unfold submit_dial, at_slot. rewrite Hf. cbn [bind]. rewrite Hsub.
  pose proof (total_busy_le (records ds)). pose proof (total_busy_nonneg (records ds)). pose proof (di_room _ _ Hd) as Hroom.
  pose proof (di_active _ _ Hd) as Hac. simpl in Hroom, Hac.
  destruct (Z.eqb_spec (active ds) (2 ^ 32 - 1)); [lia|]. eexists _, _, _. split; [done|]. simpl. rewrite E1.
  set (l' := <[front c:=_]> (records ds)) in *.
  assert (Hq : chained l' ((fun f => chain f (back c)) <$> next d) q).
  { apply chained_other; [by eapply chained_pop|]. destruct Hl as [Hnd _]. by apply NoDup_cons in Hnd as [? _]. }
  split; [|split; [|split; [|split; [done|]]]].
  - split; [done| |].
    + destruct Hd' as [Hs' Ha2 Hr' _ Hdep']. split; try done. exists q. split; [exact Hq|exact Hl'].
    + intros Ha k. rewrite (Ho Ha). unfold claims_on. simpl. rewrite Hh'.
      rewrite (proj1 (holds_active (dial (d_generation d) None (Submitted t) (slot d)) t k (or_introl eq_refl))). lia.
  - unfold due. simpl. destruct (next d); simpl; [done|]. right. lia.
  - by apply Ha'.
  - exists d. split; [done|]. rewrite Hsub. split; [done|]. split; [done|]. split.
    + unfold active_of, get. simpl. destruct (di_slots _ _ Hd _ _ Hf) as [-> _]. unfold l'.
      rewrite list_lookup_insert_eq by (by eapply lookup_lt_Some). unfold matches. simpl. by rewrite Z.eqb_refl.
    + intros q' Hc' Hq'. unfold queued. simpl. split.
      * apply chained_other; [by eapply chained_pop|]. destruct Hq' as [Hnd _]. by apply NoDup_cons in Hnd as [? _].
      * by apply (leave ds (front c) q' d _ Hd Hq' Hf Hok).
Qed.

Lemma submit_Deferred cause p' : submit (key_of d) p = Opening.Deferred cause p' ->
  exists o m' ds', submit_dial AUTH ds m present c t p submit = Ok (o, m', ds')
    /\ books ds' m' /\ due ds' /\ ages ds ds' /\ (forall n, roomy n m -> roomy n m')
    /\ dialled ds m c t p submit o ds' m'.
Proof.
  intros Hsub. unfold submit_dial, at_slot. rewrite Hf. cbn [bind]. rewrite Hsub. eexists _, _, _. split; [done|].
  split; [|split; [done|split; [by apply ages_refl|split; [done|]]]].
  - split; [done| |].
    + destruct Hd as [Hs' Ha2 Hr' _ Hdep']. split; try done. exists (front c :: q). split; [exact Hc|exact Hl].
    + intros Ha k. rewrite (Ho Ha). unfold claims_on, one. simpl. f_equal. apply decide_ext. naive_solver.
  - exists d. split; [done|]. by rewrite Hsub.
Qed.

Lemma submit_Failed error : submit (key_of d) p = Failed error ->
  exists o m' ds', submit_dial AUTH ds m present c t p submit = Ok (o, m', ds')
    /\ books ds' m' /\ due ds' /\ ages ds ds' /\ (forall n, roomy n m -> roomy n m')
    /\ dialled ds m c t p submit o ds' m'.
Proof.
  intros Hsub. destruct (submit_slot Closed) as (_ & E1 & Hok); [done|].
  destruct (leave ds (front c) q d _ Hd Hl Hf Hok) as (Hd' & Hl' & Hh' & Ha'); [done|]. cbv zeta in *.
  unfold submit_dial, at_slot. rewrite Hf. cbn [bind]. rewrite Hsub.
  destruct (cancel_spec AUTH m t Hm) as (u & m' & Ec & Hset & _).
  { intros Ha. rewrite (Ho Ha). unfold one. rewrite decide_True by done.
    pose proof (total_holds_nonneg (records ds) (member t)). lia. }
  unfold cancelled. rewrite Ec. cbn [bind]. simpl. rewrite E1. set (l' := <[front c:=_]> (records ds)) in *.
  assert (Hpost : forall ds', records ds' = l' -> di ds' -> (exists c' : option (Id * Exhaustion), ready ds' = Rejected c') ->
    books ds' m' /\ ages ds ds' /\ spent ds' (key_of d)).
  { intros ds' E Hds' [c' Hr]. split; [split; [apply Hset|done|]|split; [by apply Ha'|]].
    - intros Ha k. rewrite (st_owed _ _ _ _ _ Hset k Ha), (Ho Ha). unfold claims_on. rewrite E, Hr, Hh'.
      replace (holds k (dial (d_generation d) None Closed (slot d))) with 0 by done. unfold one. simpl on_held. lia.
    - intros e He. rewrite E in He. simpl in He. destruct (di_slots _ _ Hd _ _ Hf) as [Es _]. rewrite Es in He. unfold l' in He.
      rewrite list_lookup_insert_eq in He by (by eapply lookup_lt_Some). injection He as <-. by right. }
  destruct (into_wire error) as [cause|e|w] eqn:Hw.
  - set (ds' := with_needs_poll _ false).
    assert (Hds' : di ds'). { destruct Hd' as [Hs' Ha2 Hr' _ Hdep']. split; try done. simpl in *. unfold busy at 1 in Ha2. simpl in Ha2. lia. }
    destruct (Hpost ds' eq_refl Hds') as (? & ? & ?); [by exists None|]. eexists _, _, _. split; [done|].
    split; [done|]. split; [done|]. split; [done|]. split; [apply Hset|]. exists d. split; [done|]. rewrite Hsub, Hw. split; [done|].
    split; [by exists None|]. split; [by exists u|done].
  - set (ds1 := with_records (with_records ds _) l').
    assert (Hds1 : loose ds1).
    { destruct Hd' as [Hs' Ha2 Hr' _ Hdep']. split; try done. simpl in *. unfold busy at 1 in Ha2. simpl in Ha2. lia. }
    destruct (give_up_spec ds1 None (key_of d) e m' Hds1 Hready) as (r & ds' & Eg & Hd2 & Hdue & Er & Hrj & Ho2).
    destruct (Hpost ds' Er Hd2 Hrj) as (? & ? & ?). exists r, m', ds'. split; [exact Eg|].
    split; [done|]. split; [done|]. split; [done|]. split; [apply Hset|]. exists d. split; [done|]. rewrite Hsub, Hw. split; [done|].
    split; [done|]. split; [by exists u|done].
  - by destruct error.
Qed.

Lemma submit_dial_spec : exists o m' ds', submit_dial AUTH ds m present c t p submit = Ok (o, m', ds')
    /\ books ds' m' /\ due ds' /\ ages ds ds' /\ (forall n, roomy n m -> roomy n m')
    /\ dialled ds m c t p submit o ds' m'.
Proof.
  destruct (submit (key_of d) p) as [|cause p'|error] eqn:Hsub;
    [by apply submit_Submitted|by eapply submit_Deferred|by eapply submit_Failed].
Qed.
End submit.

(** What one poll does, by the state of the line. *)
Definition polled ds m now (e : I -> bool) (submit : Id -> P -> Attempt P W) (o : Opening.Opening W) ds' m' : Prop :=
  let ds0 := with_ready ds (Open None) in
  match ready ds with
  | Open None => o = OIdle /\ m' = m /\ records ds' = records ds
  | Rejected c => m' = m /\ records ds' = records ds
      /\ o = match c with Some (k, x) => if needs_poll ds then OFailed k (from_exhaustion x) else OIdle | None => OIdle end
  | Open (Some c) => exists sel m1, choose AUTH m now e = Ok (sel, m1) /\ match sel with
      | SelReady t a => dialled ds0 m1 c t (plan_new a) submit o ds' m'
      | SelIdle => o = OIdle /\ m' = m1 /\ records ds' = records ds /\ ready ds' = ready ds
      | SelBackoff at_ => o = OBackoff at_ /\ m' = m1 /\ records ds' = records ds /\ ready ds' = ready ds
      | SelExhausted => m' = m1 /\ records ds' = records ds /\ (exists c' : option (Id * Exhaustion), ready ds' = Rejected c')
          /\ match o with OFailed _ _ | OIdle => True | _ => False end
      end
  | Deferred h => dialled ds0 m (h_chain h) (h_target h) (plan h) submit o ds' m'
  end.

Lemma queue_head ds c : di ds -> (ready ds = Open (Some c) \/ exists t p, ready ds = Deferred (held c t p)) ->
  exists q d, chained (records ds) (Some c) (front c :: q) /\ line (records ds) (front c :: q)
    /\ records ds !! front c = Some d /\ state d = Ready.
Proof.
  intros Hd Hr. pose proof (di_queue _ _ Hd) as Hq. assert (Hq' : exists q, chained (records ds) (Some c) q /\ line (records ds) q).
  { unfold queued in Hq. destruct Hr as [E|(t & p & E)]; rewrite E in Hq; exact Hq. }
  destruct Hq' as (q & Hc & Hl). destruct q as [|i q]; [by destruct Hc as (_ & ? & _)|].
  assert (i = front c) as ->. { destruct Hc as (_ & Hh & _). simpl in Hh. congruence. }
  exists q. destruct (proj1 (proj2 Hl (front c))) as (d & ? & ?); [set_solver|]. by exists d.
Qed.

Lemma books_claims ds ds' m m' : books ds m -> di ds' -> (forall k, claims_on ds' k = claims_on ds k) ->
  claims AUTH m m' (fun _ => 0) -> books ds' m'.
Proof.
  intros [Hm Hd Ho] Hd' Hc [Hi Ho' _ _]. split; [done..|]. intros Ha k. rewrite Ho', Ho, Hc by done. lia.
Qed.

Lemma poll_spec ds m now e submit : books ds m -> due ds ->
  exists o m' ds', poll AUTH plan_new ds m now e submit = Ok (o, m', ds')
    /\ books ds' m' /\ due ds' /\ ages ds ds' /\ (forall n, roomy n m -> roomy n m')
    /\ polled ds m now e submit o ds' m'.
Proof.
  intros Hb Hdue. destruct Hb as [Hm Hd Ho] eqn:Eb. clear Eb. pose proof (di_loose _ Hd) as Hloose.
  assert (Hb' : books ds m) by done. unfold poll, polled. destruct (ready ds) as [[c|]|h|c] eqn:Hr.
  - destruct (queue_head ds c Hd (or_introl Hr)) as (q & d & Hc & Hl & Hf & Hst).
    destruct (choose_spec AUTH m now e Hm) as (sel & m1 & Ec & Hcl & _).
    { intros Ha k. rewrite Ho by done. by apply claims_bound. }
    rewrite Ec. cbn [bind]. destruct sel as [t a| |at_|].
    + destruct (submit_dial_spec (with_ready ds (Open None)) m1 c t (plan_new a) (negb (is_empty m)) submit q)
        with (d := d) as (o & m' & ds' & Es & ? & ? & Hag & Hroom & Hdl); try done; [apply Hcl| |].
      * intros Ha k. rewrite (c_owed _ _ _ _ Hcl k Ha), Ho by done. unfold claims_on. rewrite Hr. simpl. unfold one. case_decide; lia.
      * exists o, m', ds'. split; [exact Es|]. split; [done|]. split; [done|]. split; [done|].
        split; [intros n Hn; by apply Hroom, Hcl|by exists (SelReady t a), m1].
    + eexists _, _, _. split; [done|]. split; [|split; [|split; [by apply ages_refl|split; [apply Hcl|by exists SelIdle, m1]]]].
      * eapply books_claims; [exact Hb'| | |exact Hcl].
        -- eapply settling_same; [exact Hd|done..|]. exists (front c :: q). by split.
        -- intros k. unfold claims_on. simpl. by rewrite Hr.
      * done.
    + eexists _, _, _. split; [done|]. split; [|split; [|split; [by apply ages_refl|split; [apply Hcl|by exists (SelBackoff at_), m1]]]].
      * eapply books_claims; [exact Hb'| | |exact Hcl].
        -- eapply settling_same; [exact Hd|done..|]. exists (front c :: q). by split.
        -- intros k. unfold claims_on. simpl. by rewrite Hr.
      * done.
    + unfold at_slot. simpl records. rewrite Hf. cbn [bind].
      destruct (give_up_spec (with_ready ds (Open None)) None (key_of d) Identity m1 Hloose eq_refl)
        as (r & ds' & Eg & Hd2 & Hdue2 & Er & Hrj & Hro).
      assert (Hro' : match r with OFailed _ _ | OIdle => True | _ => False end) by (rewrite Hro; by destruct (_ =? 0)). clear Hro.
      exists r, m1, ds'. split; [exact Eg|]. split; [|split; [done|split; [by apply ages_refl|split; [apply Hcl|by exists SelExhausted, m1]]]].
      eapply books_claims; [exact Hb'|done| |exact Hcl]. intros k. unfold claims_on. rewrite Er, Hr. destruct Hrj as [? ->]. done.
  - eexists _, _, _. split; [done|]. split; [|split; [|split; [by apply ages_refl|by split]]].
    + eapply books_claims; [exact Hb'| | |by apply claims_refl].
      * eapply settling_same; [exact Hd|done..|]. pose proof (di_queue _ _ Hd) as Hq. unfold queued in *. by rewrite Hr in Hq.
      * intros k. unfold claims_on. simpl. by rewrite Hr.
    + unfold due in *. by rewrite Hr in Hdue.
  - destruct (queue_head ds (h_chain h) Hd) as (q & d & Hc & Hl & Hf & Hst).
    { right. exists (h_target h), (plan h). rewrite Hr. by destruct h. }
    destruct (submit_dial_spec (with_ready ds (Open None)) m (h_chain h) (h_target h) (plan h) (negb (is_empty m)) submit q)
      with (d := d) as (o & m' & ds' & Es & ? & ? & Hag & Hroom & Hdl); try done; [|by exists o, m', ds'].
    intros Ha k. rewrite Ho by done. unfold claims_on. rewrite Hr. simpl. unfold one. f_equal. apply decide_ext. naive_solver.
  - replace (with_ready (with_ready ds (Open None)) (Rejected c)) with ds by (rewrite <- Hr; by destruct ds).
    pose proof (terminal_spec (E := W) ds Hd Hdue) as Ht. destruct (terminal ds) as [o ds'].
    destruct Ht as (Hmv & Er & Ht). exists o, m, ds'. split; [done|]. split; [|split; [apply Hmv|split; [apply Hmv|split; [done|]]]].
    + eapply books_moved; [exact Hb'|exact Hmv|by apply claims_refl].
    + split; [done|]. split; [done|]. rewrite Hr in Ht. destruct c as [[k x]|]; [|apply Ht]. destruct (needs_poll ds); apply Ht.
Qed.

(** ** Counting claims *)

Lemma total_add {B} (w v : B -> Z) (l : list B) : total (fun x => w x + v x) l = total w l + total v l.
Proof. induction l as [|x l IH]; simpl; [done|]. rewrite IH. lia. Qed.
Lemma holds_distinct (L : list K) d : NoDup L -> total (fun k => holds k d) L <= busy d.
Proof.
  intros Hnd. unfold holds, busy. destruct (dial_active d) as [k0|]; [|by rewrite total_const].
  induction Hnd as [|k L Hk Hnd IH]; simpl; [done|]. destruct (decide (k0 = k)) as [->|]; [|lia].
  rewrite total_zero; [lia|]. intros x Hx. rewrite decide_False; [done|]. by intros ->.
Qed.
Lemma held_distinct (L : list K) (r : Queue K P) : NoDup L ->
  total (on_held r) L <= match r with Deferred _ => 1 | _ => 0 end.
Proof.
  intros Hnd. unfold on_held. destruct r as [|h|]; [by rewrite total_const| |by rewrite total_const].
  induction Hnd as [|k L Hk Hnd IH]; simpl; [done|]. destruct (decide (member (h_target h) = k)) as [Hm|]; [|lia].
  rewrite total_zero; [lia|]. intros x Hx. rewrite decide_False; [done|]. congruence.
Qed.
(** Distinct members have no more claims than there are slots. *)
Lemma claims_distinct ds (L : list K) : di ds -> NoDup L -> total (claims_on ds) L <= Z.of_nat (length (records ds)).
Proof.
  intros Hd Hnd.
  assert (Hsum : total (fun k => total (holds k) (records ds)) L <= total busy (records ds)).
  { transitivity (total (fun d => total (fun k => holds k d) L) (records ds)).
    - generalize (records ds) as l. intros l. apply Z.eq_le_incl. induction l as [|d l IH]; simpl; [by rewrite total_const|].
      rewrite total_add. by rewrite IH.
    - apply total_le. intros d _. by apply holds_distinct. }
  pose proof (held_distinct L (ready ds) Hnd) as Hh.
  assert (Hall : total (claims_on ds) L <= total busy (records ds) + match ready ds with Deferred _ => 1 | _ => 0 end).
  { unfold claims_on. rewrite total_add. lia. }
  destruct (ready ds) as [o|h|c] eqn:Hr; try (pose proof (total_busy_le (records ds)); lia).
  destruct (front_waits ds h Hd Hr) as (d & Hf & Hst).
  pose proof (total_busy_le (<[front (h_chain h):=dial (d_generation d) (next d) (Submitted (h_target h)) (slot d)]> (records ds))) as Hb.
  rewrite length_insert, (total_insert busy _ _ d _ Hf) in Hb. assert (busy d = 0) by (unfold busy, dial_active; by rewrite Hst).
  unfold busy at 3, dial_active in Hb. simpl in Hb. lia.
Qed.

(** ** The line, as a list *)

Lemma chained_unique l o q q' : chained l o q -> chained l o q' -> q = q'.
Proof.
  intros [Hl Ho] [Hl' Ho']. destruct o as [c|]; [|congruence]. destruct Ho as [Hh _], Ho' as [Hh' _].
  apply list_eq. intros i. induction i as [|i IH]; [by rewrite <- !head_lookup, Hh, Hh'|].
  destruct (q !! i) as [x|] eqn:Hx.
  - destruct (Hl i x Hx) as (d & Hd & <-). symmetry in IH. by destruct (Hl' i x IH) as (d' & Hd' & <-); simplify_eq.
  - rewrite !lookup_ge_None_2; [done| |]; apply lookup_ge_None in Hx; [symmetry in IH; apply lookup_ge_None in IH|]; lia.
Qed.
Lemma queued_unique ds q q' : queued ds q -> queued ds q' -> q = q'.
Proof. unfold queued. destruct (ready ds); [apply chained_unique..|done]. Qed.
End facts.
