(* ===== verification/Pool.v ===== *)
(** * Service pools.

    Model of [src/layer1/manifold/src/service]: what tells a pool that it is
    needed and which endpoints it may use (discover.rs), how it treats epochs of
    an older snapshot (sync.rs), why connections end (client/close.rs), and the
    pool itself (pool/mod.rs, pool/control.rs, pool/peer.rs), which composes the
    members and the dials. *)

From S2P Require Import Prelude Depot Time Health Round Members Routes Dials.
Import Members.

(** ** Retirement *)

Module Sync.
(** [Scan], src/layer1/manifold/src/service/sync.rs:18-21. *)
Record Scan := scan { next : Slot.SlotIndex; remaining : option (Table.Capacity * Z) }.
Definition scan_default : Scan := scan Slot.ZERO None.
(** [Scan::arm], src/layer1/manifold/src/service/sync.rs:43-46. *)
Definition arm (self : Scan) (cap : Table.Capacity) : Scan :=
  scan (next self) (if Table.count cap =? 0 then None else Some (cap, Table.count cap)).
(** [next], src/layer1/manifold/src/service/sync.rs:68-74. *)
Definition scan_next (self : Scan) : option Slot.SlotIndex * Scan :=
  match remaining self with
  | None => (None, self)
  | Some (cap, owed) =>
      let slot := next self in
      (Some slot, scan (default Slot.ZERO (Table.next cap slot)) (if owed - 1 =? 0 then None else Some (cap, owed - 1)))
  end.
(** [is_pending], src/layer1/manifold/src/service/sync.rs:76-78. *)
Definition scan_is_pending (self : Scan) : bool := bool_decide (is_Some (remaining self)).

(** [Policy], src/layer1/manifold/src/service/sync.rs:6-10. With [State],
    src/layer1/manifold/src/service/sync.rs:24-33: [scan] is a place that holds a
    scan, if there is one. *)
Class Policy (R St : Type) := {
  AUTHORITATIVE : bool;
  st_default : St;
  st_scan : St -> option (Scan * (Scan -> St));
  st_next : St -> option Slot.SlotIndex * St;
  st_is_pending : St -> bool;
}.
(** [Frozen], src/layer1/manifold/src/service/sync.rs:14-14. *)
Inductive Frozen := frozen.
(** [Preserve], src/layer1/manifold/src/service/sync.rs:84-84. *)
Inductive Preserve := .
(** [impl Policy for Preserve], src/layer1/manifold/src/service/sync.rs:86-90. *)
Definition preserve : Policy Preserve Frozen := {|
  AUTHORITATIVE := false;
  st_default := frozen;
  st_scan _ := None;
  st_next s := (None, s);
  st_is_pending _ := false;
|}.
#[export] Existing Instance preserve.
(** [Replace], src/layer1/manifold/src/service/sync.rs:96-96. *)
Inductive Replace := .
(** [impl Policy for Replace], src/layer1/manifold/src/service/sync.rs:98-102. *)
Definition replace : Policy Replace Scan := {|
  AUTHORITATIVE := true;
  st_default := scan_default;
  st_scan s := Some (s, fun s => s);
  st_next := scan_next;
  st_is_pending := scan_is_pending;
|}.
#[export] Existing Instance replace.
End Sync.

(** ** Reasons *)

Module Close.
(** [Kind], src/layer1/manifold/src/client/deadline/mod.rs:6-11. *)
Inductive Deadline := DConnect | DInbound | DSend | DLifetime.
(** [LocalOrigin], src/layer1/manifold/src/client/close.rs:48-56. *)
Inductive LocalOrigin :=
  | ApiRequest | SideComplete | OperationCancelled | Superseded | ScheduledRotation | RuntimeShutdown | ResourceFailure.
(** [Capacity], src/layer1/manifold/src/client/close.rs:40-45. *)
Inductive Capacity := IngressStaging | IngressRetention | CTransport | CIdentityExhausted.
(** [o3::buffer::hold::Error], of which only a range is told from the rest. *)
Inductive HoldError (X : Type) := Range (x : X) | OtherHold (x : X).
Arguments Range {X}.
Arguments OtherHold {X}.
(** [Failure], src/layer1/manifold/src/app/receive/failure.rs:8-16. [X] stands
    for the payloads of other crates. *)
Inductive Ingress (X : Type) :=
  | Input (x : X) | Staging (x : X) | Hold (e : HoldError X) | Accept (x : X) | FinishCapacity | ParseCapacity | Contract.
Arguments Input {X}.
Arguments Staging {X}.
Arguments Hold {X}.
Arguments Accept {X}.
Arguments FinishCapacity {X}.
Arguments ParseCapacity {X}.
Arguments Contract {X}.
(** [Reason], src/layer1/manifold/src/client/close.rs:8-20. *)
Inductive Reason (X : Type) :=
  | Local (o : LocalOrigin)
  | RCapacity (c : Capacity)
  | EndpointRetired
  | Transport
  | Timeout (k : Deadline)
  | Protocol
  | Remote
  | Receive (x : X)
  | RIngress (f : Ingress X)
  | Egress (x : X).
Arguments Local {X}.
Arguments RCapacity {X}.
Arguments EndpointRetired {X}.
Arguments Transport {X}.
Arguments Timeout {X}.
Arguments Protocol {X}.
Arguments Remote {X}.
Arguments Receive {X}.
Arguments RIngress {X}.
Arguments Egress {X}.
(** [ConnectError], src/layer1/net/src/link/event.rs:19-26. *)
Inductive ConnectError (X : Type) :=
  | Create (x : X) | COption (errno : Z) | Admission (e : Opening.SubmitError) | Connect (errno : Z)
  | CState (x : X) | CReceive (errno : Z).
Arguments Create {X}.
Arguments COption {X}.
Arguments Admission {X}.
Arguments Connect {X}.
Arguments CState {X}.
Arguments CReceive {X}.
(** [Cause], src/layer1/manifold/src/service/health.rs:22-29. *)
Inductive Cause (X : Type) :=
  | HConnect (e : ConnectError X) | HConnectTimeout | HTransport | HIdle | HProtocol | HRemote.
Arguments HConnect {X}.
Arguments HConnectTimeout {X}.
Arguments HTransport {X}.
Arguments HIdle {X}.
Arguments HProtocol {X}.
Arguments HRemote {X}.
(** [Connection], src/layer1/manifold/src/client/attempt/mod.rs:135-141. *)
Inductive Connection (R : Type) := Applied (r : R) | Stale | Disabled | Retired | Exhausted.
Arguments Applied {R}.
Arguments Stale {R}.
Arguments Disabled {R}.
Arguments Retired {R}.
Arguments Exhausted {R}.
End Close.

(** ** Feedback *)

Module Discover.
(** [Demand], src/layer1/manifold/src/service/discover.rs:49-65. The source of a
    gate, from the state of the driver. *)
Class Demand (D I Tok : Type) := {
  is_needed : D -> Tok -> bool;
  d_is_eligible : D -> I -> Tok -> bool;
  d_is_retained : D -> I -> Tok -> bool;
}.
(** [Access], src/layer1/manifold/src/service/discover.rs:109-111. *)
Class Access (F : Type) := is_enabled : F -> bool.
(** [Eligibility], src/layer1/manifold/src/service/discover.rs:113-122. *)
Class Eligibility (F I Tok : Type) := {
  WATCHED : bool;
  is_eligible : F -> I -> Tok -> bool;
  is_retained : F -> I -> Tok -> bool;
}.
(** [Feedback], src/layer1/manifold/src/service/discover.rs:124-126. The place for
    a cause, if there is one. *)
Class Feedback (F X : Type) := cause_mut : F -> option (option (Close.Cause X) -> F).

(** [Silent], src/layer1/manifold/src/service/discover.rs:85-85. *)
Inductive Silent := silent.
(** [Notify], src/layer1/manifold/src/service/discover.rs:87-89. *)
Record Notify (X : Type) := notify { cause : option (Close.Cause X) }.
Arguments notify {X}.
Arguments cause {X}.
(** [Gate], src/layer1/manifold/src/service/discover.rs:92-95. *)
Record Gate (D : Type) := gate { enabled : bool; source : D }.
Arguments gate {D}.
Arguments enabled {D}.
Arguments source {D}.

(** [Notify::new], src/layer1/manifold/src/service/discover.rs:129-131. *)
Definition notify_new {X} : Notify X := notify None.
(** [Notify::take], src/layer1/manifold/src/service/discover.rs:133-135. *)
Definition take {X} (self : Notify X) : option (Close.Cause X) * Notify X := (cause self, notify None).
(** [Notify::is_ready], src/layer1/manifold/src/service/discover.rs:137-139. *)
Definition is_ready {X} (self : Notify X) : bool := bool_decide (is_Some (cause self)).
(** [Gate::new], src/layer1/manifold/src/service/discover.rs:143-148. *)
Definition gate_new {D} (source : D) : Gate D := gate false source.
(** [Gate::set], src/layer1/manifold/src/service/discover.rs:154-156. *)
Definition gate_set {D} (self : Gate D) (enabled : bool) : Gate D := gate enabled (source self).

(** [impl Access for Silent], src/layer1/manifold/src/service/discover.rs:201-205. *)
Definition silent_access : Access Silent := fun _ => true.
#[export] Existing Instance silent_access.
(** [impl Access for Notify], src/layer1/manifold/src/service/discover.rs:219-223. *)
Definition notify_access {X} : Access (Notify X) := fun _ => true.
#[export] Existing Instance notify_access.
(** [impl Access for Gate], src/layer1/manifold/src/service/discover.rs:225-229. *)
Definition gate_access {D} : Access (Gate D) := enabled.
#[export] Existing Instance gate_access.
(** [impl Feedback for Silent], src/layer1/manifold/src/service/discover.rs:207-211. *)
Definition silent_feedback {X} : Feedback Silent X := fun _ => None.
#[export] Existing Instance silent_feedback.
(** [impl Feedback for Notify], src/layer1/manifold/src/service/discover.rs:213-217. *)
Definition notify_feedback {X} : Feedback (Notify X) X := fun _ => Some notify.
#[export] Existing Instance notify_feedback.
(** [impl Feedback for Gate], src/layer1/manifold/src/service/discover.rs:231-235. *)
Definition gate_feedback {D X} : Feedback (Gate D) X := fun _ => None.
#[export] Existing Instance gate_feedback.
(** [impl Eligibility for Silent], src/layer1/manifold/src/service/discover.rs:237-243. *)
Definition silent_eligibility {I Tok} : Eligibility Silent I Tok := {|
  WATCHED := false;
  is_eligible _ _ _ := true;
  is_retained self _ _ := is_enabled self;
|}.
#[export] Existing Instance silent_eligibility.
(** [impl Eligibility for Notify], src/layer1/manifold/src/service/discover.rs:245-251. *)
Definition notify_eligibility {X I Tok} : Eligibility (Notify X) I Tok := {|
  WATCHED := false;
  is_eligible _ _ _ := true;
  is_retained self _ _ := is_enabled self;
|}.
#[export] Existing Instance notify_eligibility.
(** [impl Eligibility for Gate], src/layer1/manifold/src/service/discover.rs:253-263. *)
Definition gate_eligibility {D I Tok} `{Demand D I Tok} : Eligibility (Gate D) I Tok := {|
  WATCHED := true;
  is_eligible self endpoint token := d_is_eligible (source self) endpoint token;
  is_retained self endpoint token := is_needed (source self) token && d_is_retained (source self) endpoint token;
|}.
#[export] Existing Instance gate_eligibility.
End Discover.

Module Pool.
Import Sync Discover Close Opening.

(** [Pool], src/layer1/manifold/src/service/pool/mod.rs:43-62. *)
Record Pool (S H K P Opt F St : Type) := pool {
  membership : Set_ S H; dials : Dials.Dials K P; options : Opt; backoff : Health.Backoff;
  feedback : F; retirements : St
}.
Arguments pool {S H K P Opt F St}.
Arguments membership {S H K P Opt F St}.
Arguments dials {S H K P Opt F St}.
Arguments options {S H K P Opt F St}.
Arguments backoff {S H K P Opt F St}.
Arguments feedback {S H K P Opt F St}.
Arguments retirements {S H K P Opt F St}.

Section pool.
Context {K I A S H P Opt F R St X Tok E : Type} `{EqDecision K} `{EqDecision I} `{RS : !RoundSet K (Record_.Rec I A) S}
  `{KM : !KeyedMin K H} `{Average} `{SlotGeneration} `{Policy R St} `{Access F}.
(** [Plan::new]: prepares an address with socket options. [N] is the endpoint
    capacity of a snapshot. *)
Context (plan_new : A -> Opt -> P) (N : nat).
Abbreviation AUTH := (AUTHORITATIVE (R := R)).
Abbreviation Members := (Set_ S H).
Abbreviation Dials := (Dials.Dials K P).
Abbreviation Target := (Target K).
Abbreviation Pool := (Pool S H K P Opt F St).
Abbreviation Reason := (Reason X).
Abbreviation ConnectError := (ConnectError X).

Definition with_membership (self : Pool) (m : Members) : Pool :=
  pool m (dials self) (options self) (backoff self) (feedback self) (retirements self).
Definition with_dials (self : Pool) (d : Dials) : Pool :=
  pool (membership self) d (options self) (backoff self) (feedback self) (retirements self).
Definition with_backoff (self : Pool) (b : Health.Backoff) : Pool :=
  pool (membership self) (dials self) (options self) b (feedback self) (retirements self).
Definition with_feedback (self : Pool) (f : F) : Pool :=
  pool (membership self) (dials self) (options self) (backoff self) f (retirements self).
Definition with_retirements (self : Pool) (s : St) : Pool :=
  pool (membership self) (dials self) (options self) (backoff self) (feedback self) s.

(** [Pool::try_with], src/layer1/manifold/src/service/pool/mod.rs:80-110. What it
    builds when its allocations succeed. *)
Definition pool_new (cap : nat) (retry : Health.Backoff) (opts : Opt) (f : F) : Pool :=
  let retained := if negb AUTH then Z.of_nat cap else 0 in
  pool (members_new (Z.of_nat N + retained)) (Dials.dials_new cap) opts retry f (st_default (R := R)).

(** [Pool::is_present], src/layer1/manifold/src/service/pool/mod.rs:170-173. *)
Definition is_present (self : Pool) : bool :=
  is_enabled (feedback self)
  && (negb (is_empty (membership self)) || (negb AUTH && Dials.is_deferred (dials self))).
(** [Pool::refresh], src/layer1/manifold/src/service/pool/mod.rs:175-177. *)
Definition refresh (self : Pool) : Pool := with_dials self (Dials.refresh (dials self) (is_present self)).
(** [Pool::reject], src/layer1/manifold/src/service/pool/mod.rs:293-297. *)
Definition reject (self : Pool) (key : Id) (cause : Exhaustion) : run Empty_set Pool :=
  let! (m, d) := Dials.reject (dials self) key cause (membership self) (Dials.cancelled AUTH) in
  Ok (with_dials (with_membership self m) d).
Definition reject_some (self : Pool) (key : option Id) : run Empty_set Pool :=
  match key with Some key => reject self key Identity | None => Ok self end.
(** [Pool::set_demand], src/layer1/manifold/src/service/pool/mod.rs:351-374, the
    scan: arms it, if the policy has one. *)
Definition arm_scan (self : Pool) (cap : Table.Capacity) : Pool :=
  match st_scan (R := R) (retirements self) with
  | Some (s, put) => with_retirements self (put (arm s cap))
  | None => self
  end.

(** [Pool::poll], src/layer1/manifold/src/service/pool/mod.rs:112-146. [token] is
    the state of the driver, [submit] its answer to one submission. *)
Definition poll `{Eligibility F I Tok} (self : Pool) (now : Z) (token : Tok) (submit : Id -> P -> Attempt P E)
    : run Empty_set (Opening.Opening E * Pool) :=
  if negb (is_enabled (feedback self)) then
    let '(o, d) := Dials.terminal (Dials.refresh (dials self) false) in Ok (o, with_dials self d)
  else
    let! self :=
      if WATCHED (F := F) (I := I) (Tok := Tok) then
        let! (key, m, d) := Dials.reset_front (dials self) (membership self)
          (fun m t => cancel_if AUTH m t (fun endpoint => negb (is_eligible (feedback self) endpoint token))) in
        reject_some (with_dials (with_membership self m) d) key
      else Ok self in
    let! (o, m, d) := Dials.poll AUTH (fun a => plan_new a (options self)) (dials self) (membership self) now
      (fun endpoint => is_eligible (feedback self) endpoint token) submit in
    Ok (o, with_dials (with_membership self m) d).

(** [Pool::try_sync], src/layer1/manifold/src/service/pool/mod.rs:148-168. *)
Definition try_sync (self : Pool) (set : Service.Snapshot I A) (cap : Table.Capacity)
    : run Service.Reconcile (Service.Change * Pool) :=
  let! (change, m) := try_apply AUTH (membership self) N set in
  let self := with_membership self m in
  let! self :=
    if AUTH then
      certain (
        let! (key, m, d) := Dials.reset_front (dials self) (membership self)
          (fun m t => let! (u, m) := cancel AUTH m t in Ok (Some u, m)) in
        reject_some (with_dials (with_membership self m) d) key)
    else Ok self in
  let self := if negb (Service.retired change =? 0) then arm_scan self cap else self in
  Ok (change, refresh self).

(** [Pool::is_retiring], src/layer1/manifold/src/service/pool/mod.rs:179-181. *)
Definition is_retiring (self : Pool) : bool := AUTH && st_is_pending (R := R) (retirements self).
(** [Pool::next_retirement], src/layer1/manifold/src/service/pool/mod.rs:183-188. *)
Definition next_retirement (self : Pool) : option Slot.SlotIndex * Pool :=
  if negb AUTH then (None, self)
  else let '(o, s) := st_next (R := R) (retirements self) in (o, with_retirements self s).
(** [Pool::try_retain], src/layer1/manifold/src/service/pool/mod.rs:190-196. *)
Definition try_retain (self : Pool) (incoming : Service.Revision) : run Service.Reconcile unit :=
  let current := revision (membership self) in
  if negb (incoming =? current) then Err (Service.Stale current incoming) else Ok tt.
(** [Pool::is_current], src/layer1/manifold/src/service/pool/mod.rs:198-201. *)
Definition is_current (self : Pool) (key : Id) : option bool :=
  match Dials.active_of (dials self) key with
  | Some member => Some (is_enabled (feedback self) && contains (membership self) member)
  | None => None
  end.

(** [Pool::retire], src/layer1/manifold/src/service/pool/mod.rs:205-260: the
    failure of health that a reason stands for, [None] for one that is neutral. *)
Definition cause_of (reason : Reason) : option (Cause X) :=
  match reason with
  | Transport | Timeout DSend => Some HTransport
  | Timeout DConnect => Some HConnectTimeout
  | Timeout DInbound => Some HIdle
  | Protocol | RIngress (Contract | Hold (Range _)) => Some HProtocol
  | Remote => Some HRemote
  | Local (ApiRequest | SideComplete | OperationCancelled | Superseded | ScheduledRotation | RuntimeShutdown | ResourceFailure)
  | RCapacity (IngressStaging | IngressRetention | CTransport | CIdentityExhausted)
  | EndpointRetired | Timeout DLifetime | Receive _ | RIngress _ | Egress _ => None
  end.
(** What a dial that ended leaves of the members and of the backoff. *)
Definition fail_target (m : Members) (b : Health.Backoff) (now : Z) (t : Target) : run Empty_set (Update * Members * Health.Backoff) :=
  fail AUTH m t b now.
Definition cancel_target (m : Members) (b : Health.Backoff) (t : Target) : run Empty_set (Update * Members * Health.Backoff) :=
  let! (u, m) := cancel AUTH m t in Ok (u, m, b).
(** A dial that ends: its member's update, and the pool with it. *)
Definition recycled (self : Pool) (key : Id)
    (update : Members -> Health.Backoff -> Target -> run Empty_set (Update * Members * Health.Backoff))
    : run Empty_set (option Update * Pool) :=
  let! (o, d) := Dials.recycle (dials self) key (is_present self) (update (membership self) (backoff self)) in
  match o with
  | Some (u, m, b) => Ok (Some u, with_backoff (with_membership (with_dials self d) m) b)
  | None => Ok (None, with_dials self d)
  end.
(** [Pool::retire], src/layer1/manifold/src/service/pool/mod.rs:205-260. *)
Definition retire (self : Pool) (key : Id) (reason : Reason) (now : Z) : run Empty_set (option (Cause X) * Pool) :=
  let! (update, self) := recycled self key
    (fun m b t => match cause_of reason with Some _ => fail_target m b now t | None => cancel_target m b t end) in
  let cause := match update with Some Members.Applied => cause_of reason | _ => None end in
  let! self := match update with Some UExhausted => reject self key Identity | _ => Ok self end in
  Ok (cause, self).

(** [Pool::exhaust], src/layer1/manifold/src/service/pool/mod.rs:282-291. *)
Definition exhaust (self : Pool) (key : Id) (cause : Exhaustion) : run Empty_set (option Update * Pool) :=
  let! (closed, d) := Dials.close (dials self) key in
  let self := with_dials self d in
  match closed with
  | None => Ok (None, self)
  | Some t =>
      let! m := Dials.cancelled AUTH (membership self) t in
      let! self := reject (with_membership self m) key cause in
      Ok (Some Members.Applied, self)
  end.
(** [Pool::failed], src/layer1/manifold/src/service/pool/mod.rs:265-280. *)
Definition failed (self : Pool) (key : Id) (cause : ConnectError) (now : Z) : run Empty_set (option Update * Pool) :=
  let other := recycled self key (fun m b t => fail_target m b now t) in
  match cause with
  | Admission error =>
      match Opening.cause error with
      | IdentityExhausted => exhaust self key (ESubmission error)
      | Full => other
      end
  | _ => other
  end.
(** Leaves a cause where the feedback has a place for one. *)
Definition report `{Feedback F X} (self : Pool) (cause : Cause X) : Pool :=
  match cause_mut (feedback self) with Some put => with_feedback self (put (Some cause)) | None => self end.
(** [Pool::disconnect], src/layer1/manifold/src/service/pool/mod.rs:299-312. *)
Definition disconnect `{Feedback F X} (self : Pool) (key : Id) (reason : Reason) (now : Z) : run Empty_set Pool :=
  let! (cause, self) := retire self key reason now in
  Ok (match cause with Some cause => report self cause | None => self end).
(** [Pool::fail], src/layer1/manifold/src/service/pool/mod.rs:314-327. *)
Definition pool_fail `{Feedback F X} (self : Pool) (key : Id) (cause : ConnectError) (now : Z) : run Empty_set Pool :=
  let! (update, self) := failed self key cause now in
  Ok (match update with Some Members.Applied => report self (HConnect cause) | _ => self end).

(** [ResizeError], src/layer1/manifold/src/client/attempt/mod.rs:144-147. *)
Record ResizeError := resize_error { requested : Z; available : Z }.
(** [resize], src/layer1/manifold/src/service/pool/control.rs:23-29. *)
Definition resize (self : Pool) (cap : Z) : run ResizeError unit :=
  let avail := Dials.capacity (dials self) in
  if avail <? cap then Err (resize_error cap avail) else Ok tt.
(** [is_pending], src/layer1/manifold/src/service/pool/control.rs:31-33. *)
Definition is_pending (self : Pool) : bool := Dials.needs_poll (dials self).
(** [rejected], src/layer1/manifold/src/service/pool/control.rs:35-46. *)
Definition rejected (self : Pool) (key : Id) (error : SubmitError) : run Empty_set (SubmitError * Pool) :=
  let! self :=
    match Opening.cause error, Dials.active_of (dials self) key with
    | IdentityExhausted, Some _ => reject self key (ESubmission error)
    | _, _ => Ok self
    end in
  Ok (error, self).
(** [kill], src/layer1/manifold/src/service/pool/control.rs:48-67. *)
Definition kill (self : Pool) (key : Id) (cause : option Exhaustion) : run Empty_set Pool :=
  match cause with
  | Some cause => let! (_, self) := exhaust self key cause in Ok self
  | None =>
      let! (closed, d) := Dials.close (dials self) key in
      let self := with_dials self d in
      let! (update, self) :=
        match closed with
        | Some t => let! (u, m) := cancel AUTH (membership self) t in Ok (Some u, with_membership self m)
        | None => Ok (None, self)
        end in
      match update with
      | Some UExhausted => reject self key Identity
      | _ => Ok (refresh self)
      end
  end.

(** [attach], src/layer1/manifold/src/service/pool/peer.rs:19-44. *)
Definition attach `{Eligibility F I Tok} {O} (self : Pool) (key : Id) (token : Tok) (map : I -> O)
    : run Empty_set (Connection O * Pool) :=
  match Dials.connection (dials self) key with
  | None => Ok (Stale, self)
  | Some connect =>
      let! (p, m) := recover (membership self) connect.2 (fun endpoint => is_retained (feedback self) endpoint token) in
      let self := with_membership self m in
      match p with
      | PeerReady t output =>
          let output := map output in
          let self := with_dials self (Dials.commit (dials self) connect t) in
          Ok (Applied output, refresh self)
      | PeerMissing => Ok (Retired, self)
      | PeerDisabled => Ok (Disabled, self)
      | PeerExhausted => Ok (Exhausted, self)
      end
  end.
(** [connected], src/layer1/manifold/src/service/pool/control.rs:78-84. *)
Definition connected `{Eligibility F I Tok} (self : Pool) (key : Id) (token : Tok) : run Empty_set (Connection unit * Pool) :=
  attach self key token (fun _ => tt).
End pool.

(** ** Gated pools *)

Section gate.
Context {K I A S H P Opt D R St Tok : Type} `{EqDecision K} `{EqDecision I} `{RS : !RoundSet K (Record_.Rec I A) S}
  `{KM : !KeyedMin K H} `{Average} `{SlotGeneration} `{Policy R St} `{Demand D I Tok}.
Abbreviation GatePool := (Pool.Pool S H K P Opt (Gate D) St).

(** [Pool::set_demand], src/layer1/manifold/src/service/pool/mod.rs:351-374, the
    closure: the demand of a gate's source for an endpoint. *)
Definition demanded_by (source : D) (token : Tok) (endpoint : I) : Record_.Demand :=
  Record_.demand_new (d_is_eligible source endpoint token) (d_is_retained source endpoint token).
(** [Pool::is_stale], src/layer1/manifold/src/service/pool/mod.rs:338-349. *)
Definition is_stale (self : GatePool) (token : Tok) : bool :=
  let src := source (feedback self) in
  negb (Bool.eqb (is_enabled (feedback self)) (is_needed src token))
  || set_is_stale (membership self) (demanded_by src token).
(** [Pool::set_demand], src/layer1/manifold/src/service/pool/mod.rs:351-374. *)
Definition set_demand (self : GatePool) (token : Tok) (cap : Table.Capacity) : GatePool :=
  let enabled := is_needed (source (feedback self)) token in
  let disabled := is_enabled (feedback self) && negb enabled in
  let self := with_feedback self (gate_set (feedback self) enabled) in
  let '(withdrawn, m) := Members.set_demand (membership self) (demanded_by (source (feedback self)) token) in
  let self := with_membership self m in
  let self := if disabled || withdrawn then arm_scan (R := R) self cap else self in
  refresh (R := R) self.
(** [Pool::is_retired_at], src/layer1/manifold/src/service/pool/mod.rs:376-394. *)
Definition is_retired_at (self : GatePool) (key : Id) (token : Tok) : bool * GatePool :=
  match Dials.active_of (dials self) key with
  | None => (false, self)
  | Some member =>
      let '(retained, m) := set_is_retained (membership self) member (fun endpoint => is_retained (feedback self) endpoint token) in
      let self := with_membership self m in
      let self := if retained && negb (is_enabled (feedback self))
                  then with_dials (with_feedback self (gate_set (feedback self) true)) (Dials.resume_active (dials self))
                  else self in
      (negb retained, self)
  end.
End gate.
End Pool.
