(* ===== verification/PoolFacts.v ===== *)
(** * What a pool keeps, whatever happens.

    Every operation of [Pool] returns, and keeps the invariant that joins the
    members and the dials. *)

From S2P Require Import Prelude Depot Time Health Round Members MembersFacts ReconcileFacts SnapshotFacts.
From S2P Require Import Routes Dials DialsFacts Pool.
Import Record_ Members Opening Sync Discover Close Pool.

Section facts.
Context {K I A S H P Opt F R St X Tok W : Type} `{EqDecision K} `{EqDecision I} {RS : RoundSet K (Rec I A) S}
  {RSL : RoundSetLaws K (Rec I A) S} {KM : KeyedMin K H} {KML : KeyedMinLaws K H} `{AverageLaws}
  `{SlotGenerationLaws} `{Policy R St} `{Access F}.
Context (plan_new : A -> Opt -> P) (N : nat).
Abbreviation AUTH := (AUTHORITATIVE (R := R)).
Abbreviation Members := (Set_ S H).
Abbreviation Dials := (Dials.Dials K P).
Abbreviation Target := (Target K).
Abbreviation Pool := (Pool.Pool S H K P Opt F St).
Implicit Types (p : Pool) (key : Id) (m : Members) (ds : Dials) (t : Target).

(** The table of members has room for a snapshot, and for every member that a
    dial keeps. *)
Definition spacious ds m : Prop := roomy (N + (if AUTH then O else length (Dials.records ds))) m.
(** The members and the dials agree. *)
Record solid p : Prop := {
  so_books : books AUTH (dials p) (membership p);
  so_room : spacious (dials p) (membership p);
}.
(** A pool between two events. *)
Record pinv p : Prop := { pi_solid :> solid p; pi_due : due (dials p) }.

Lemma solid_intro p p' n : solid p -> ages (dials p) (dials p') -> claims AUTH (membership p) (membership p') n ->
  books AUTH (dials p') (membership p') -> solid p'.
Proof.
  intros Hp [Hl _] Hc Hb. split; [done|]. unfold spacious. rewrite Hl. apply (c_room _ _ _ _ Hc), Hp.
Qed.
Lemma solid_moved p p' n : solid p -> moved (dials p) (dials p') n -> claims AUTH (membership p) (membership p') n -> pinv p'.
Proof.
  intros Hp Hm Hc. split; [|apply Hm]. eapply solid_intro; [done|apply Hm|exact Hc|]. eapply books_moved; [apply Hp|done..].
Qed.

(** ** A new pool *)

Lemma members_new_inv n : 0 <= n -> inv AUTH (members_new n) /\ roomy (Z.to_nat n) (members_new n : Members)
  /\ forall k, owed (members_new n) k = 0.
Proof.
  intros Hn. destruct (rs_news (S := S) n Hn) as (Hok & Hord & Hent).
  assert (Hget : forall k, MembersFacts.get (members_new n) k = None).
  { intros k. destruct (MembersFacts.get (members_new n) k) as [r|] eqn:Hg; [|done]. exfalso.
    assert (Hocc : Occupied k ∈ rs_entries (rs_new (S := S) n)) by (apply rs_entries_live; [done|by exists r]).
    rewrite Hent in Hocc. by apply elem_of_replicate in Hocc as [? _]. }
  split; [|split].
  - split; [split; simpl|].
    + done.
    + intros k r Hk. by rewrite Hget in Hk.
    + intros k _. apply km_get_new.
    + intros k k' r r' Hk. by rewrite Hget in Hk.
    + exists []. split; [constructor|]. split; [|done]. intros k. split; [set_solver|]. intros (r & Hk & _). by rewrite Hget in Hk.
  - unfold roomy. simpl. rewrite Hent. split; [apply length_replicate|]. intros _ Hg%elem_of_replicate. by destruct Hg.
  - intros k. unfold owed. by rewrite Hget.
Qed.

Lemma pool_new_inv cap retry opts (f : F) : Z.of_nat cap <= 2 ^ 24 - 1 ->
  let p := pool_new (R := R) N cap retry opts f : Pool in
  pinv p /\ length (Dials.records (dials p)) = cap.
Proof.
  intros Hcap. destruct (dials_new_spec (K := K) (P := P) cap Hcap) as (Hd & Hdue & Hcl & _).
  assert (Hlen : length (Dials.records (Dials.dials_new (K := K) (P := P) cap)) = cap).
  { unfold Dials.dials_new. pose proof (link_all_spec cap 0 (Dials.numbered (K := K) cap) None) as Hl.
    assert (Hn : length (Dials.numbered (K := K) cap) = cap) by (unfold Dials.numbered; by rewrite length_fmap, length_seq).
    destruct (Dials.link_all _ None (seq 0 cap)) as [l o]. simpl in *. destruct Hl as (_ & Hll & _); [lia|done| |lia].
    intros i Hi. rewrite numbered_at by lia. by eexists. }
  intros p. unfold p, pool_new. simpl. set (n := Z.of_nat N + _). assert (Hn : 0 <= n) by (unfold n; destruct AUTH; simpl; lia).
  destruct (members_new_inv n Hn) as (Hi & Hr & Ho). split; [split; [split; simpl|done]|done].
  - split; [done..|]. intros _ k. by rewrite Ho, Hcl.
  - unfold spacious. rewrite Hlen. replace (N + _)%nat with (Z.to_nat n); [done|]. unfold n. destruct AUTH; simpl; lia.
Qed.

(** ** Refusals and reports *)

Lemma cancelled_one m t : inv AUTH m -> claimed AUTH m (member t) ->
  exists m', Dials.cancelled AUTH m t = Ok m' /\ claims AUTH m m' (one (member t)).
Proof.
  intros Hi Hc. destruct (cancel_spec AUTH m t Hi Hc) as (u & m' & E & Hs & _). exists m'. unfold Dials.cancelled. rewrite E.
  split; [done|]. by apply settles_one.
Qed.
Lemma refresh_pinv p : solid p -> pinv (refresh (R := R) p) /\ ages (dials p) (dials (refresh (R := R) p)).
Proof.
  intros Hp. pose proof (refresh_moved (dials p) (is_present (R := R) p) (bk_dials _ _ _ (so_books _ Hp))) as Hm.
  split; [|apply Hm]. eapply solid_moved; [exact Hp|exact Hm|]. apply claims_refl, Hp.
Qed.
Lemma reject_pinv p key cause : solid p ->
  exists p', reject (R := R) p key cause = Ok p' /\ pinv p' /\ ages (dials p) (dials p')
    /\ (exists c : option (Id * Exhaustion), Dials.ready (dials p') = Dials.Rejected c).
Proof.
  intros Hp. destruct (so_books _ Hp) as [Hm Hd Ho]. unfold reject.
  assert (Hcan : forall h, Dials.ready (dials p) = Dials.Deferred h ->
    exists m', Dials.cancelled AUTH (membership p) (Dials.h_target h) = Ok m'
      /\ claims AUTH (membership p) m' (one (member (Dials.h_target h)))).
  { intros h Hh. apply cancelled_one; [done|]. eapply held_claimed; [apply Hp|done]. }
  destruct (reject_spec (dials p) key cause (membership p) (Dials.cancelled AUTH) Hd) as (m' & d' & -> & Hmv & _ & Hm' & Hr).
  { intros h Hh. destruct (Hcan h Hh) as (m' & ? & _). by exists m'. }
  cbn [bind]. eexists. split; [done|]. split; [|split; [apply Hmv|]].
  - eapply solid_moved; [exact Hp|exact Hmv|]. simpl. destruct (Dials.ready (dials p)) as [o|h|c] eqn:Hrd; simpl.
    + subst m'. by apply claims_refl.
    + destruct (Hcan h eq_refl) as (m2 & E & Hc). rewrite Hm' in E. injection E as ->. eapply claims_ext; [exact Hc|].
      intros x. unfold one. apply decide_ext. naive_solver.
    + subst m'. by apply claims_refl.
  - simpl. rewrite Hr. destruct (Dials.ready (dials p)); eauto.
Qed.
Lemma reject_some_pinv p o : solid p -> (o = None -> due (dials p)) ->
  exists p', reject_some (R := R) p o = Ok p' /\ pinv p' /\ ages (dials p) (dials p').
Proof.
  intros Hp Hdue. destruct o as [key|]; simpl.
  - destruct (reject_pinv p key Identity Hp) as (p' & ? & ? & ? & _). by exists p'.
  - exists p. split; [done|]. split; [split; auto|]. by apply ages_refl.
Qed.

(** ** Attempts that end *)

Lemma with_dials_id p : with_dials p (dials p) = p.
Proof. by destruct p. Qed.

(** From [p] to [p'] by way of what a pool does. *)
Record after p p' : Prop := { af_inv : pinv p'; af_ages : ages (dials p) (dials p') }.
Lemma after_refl p : pinv p -> after p p.
Proof. intros Hp. split; [done|by apply ages_refl]. Qed.
Lemma after_ages p p1 p2 : ages (dials p) (dials p1) -> after p1 p2 -> after p p2.
Proof. intros Ha [Hp Hb]. split; [done|by eapply ages_trans]. Qed.

(** An update that gives back the claim of its target. *)
Definition gives_back (update : Members -> Health.Backoff -> Target -> run Empty_set (Update * Members * Health.Backoff)) : Prop :=
  forall m b t, inv AUTH m -> claimed AUTH m (member t) ->
    exists u m' b', update m b t = Ok (u, m', b') /\ claims AUTH m m' (one (member t)).
Lemma fail_gives_back now : gives_back (fun m b t => fail_target (R := R) m b now t).
Proof.
  intros m b t Hi Hc. destruct (fail_spec AUTH m t b now Hi Hc) as (u & m' & b' & E & Hs & _).
  exists u, m', b'. split; [exact E|by apply settles_one].
Qed.
Lemma cancel_gives_back : gives_back (cancel_target (R := R)).
Proof.
  intros m b t Hi Hc. destruct (cancel_spec AUTH m t Hi Hc) as (u & m' & E & Hs & _).
  exists u, m', b. split; [unfold cancel_target; by rewrite E|by apply settles_one].
Qed.

Lemma recycled_pinv p key update : pinv p -> gives_back update ->
  match Dials.active_of (dials p) key with
  | None => recycled (R := R) p key update = Ok (None, p)
  | Some k => exists u p', recycled (R := R) p key update = Ok (Some u, p') /\ after p p' /\ spent (dials p') key
      /\ feedback p' = feedback p
      /\ exists t m' b', member t = k /\ update (membership p) (backoff p) t = Ok (u, m', b') /\ membership p' = m' /\ backoff p' = b'
  end.
Proof.
  intros Hp Hu. destruct (so_books _ Hp) as [Hm Hd Ho]. unfold recycled.
  pose proof (recycle_spec (dials p) key (is_present (R := R) p) (update (membership p) (backoff p)) Hd) as Hr.
  destruct (Dials.active_of (dials p) key) as [k|] eqn:Hact.
  - destruct Hr as (t & Ht & Hr). destruct (Hu (membership p) (backoff p) t Hm) as (u & m' & b' & E & Hc).
    { rewrite Ht. eapply active_claimed; [apply Hp|done]. }
    destruct (Hr _ E) as (d' & -> & Hmv & Hsp & _). cbn [bind]. exists u. eexists. split; [done|].
    split; [split; [|apply Hmv]|split; [done|split; [done|by exists t, m', b']]].
    eapply solid_moved; [apply Hp|exact Hmv|]. by rewrite <- Ht.
  - rewrite Hr. cbn [bind]. f_equal. by destruct p.
Qed.

Lemma retire_pinv p key reason now : pinv p ->
  match Dials.active_of (dials p) key with
  | None => retire (R := R) (X := X) p key reason now = Ok (None, p)
  | Some k => exists o p', retire (R := R) (X := X) p key reason now = Ok (o, p') /\ after p p' /\ spent (dials p') key
      /\ feedback p' = feedback p /\ (o = None \/ o = cause_of reason)
  end.
Proof.
  intros Hp. unfold retire. set (update := fun m b t => _).
  assert (Hu : gives_back update).
  { unfold update. destruct (cause_of reason); [apply fail_gives_back|apply cancel_gives_back]. }
  pose proof (recycled_pinv p key update Hp Hu) as Hr. destruct (Dials.active_of (dials p) key) as [k|].
  - destruct Hr as (u & p1 & -> & Ha & Hsp & Hf & _). cbn [bind].
    assert (Hx : exists p', match u with UExhausted => reject (R := R) p1 key Identity | _ => Ok p1 end = Ok p'
      /\ after p1 p' /\ feedback p' = feedback p1).
    { destruct u; try (exists p1; split; [done|]; split; [apply after_refl, Ha|done]).
      destruct (reject_pinv p1 key Identity (pi_solid _ (af_inv _ _ Ha))) as (p' & E & ? & ? & _). exists p'. split; [done|]. split; [done|].
      unfold reject in E. destruct (Dials.reject _ _ _ _ _) as [[? ?]| |]; simpl in E; by simplify_eq. }
    destruct Hx as (p' & E' & Ha' & Hf'). exists (match u with Members.Applied => cause_of reason | _ => None end), p'.
    split; [by destruct u; rewrite E'|]. split; [eapply after_ages; [apply Ha|done]|].
    split; [eapply spent_ages; [apply Ha'|done]|]. split; [congruence|]. destruct u; auto.
  - rewrite Hr. done.
Qed.

Lemma exhaust_pinv p key cause : pinv p ->
  match Dials.active_of (dials p) key with
  | None => exhaust (R := R) p key cause = Ok (None, p)
  | Some k => exists p', exhaust (R := R) p key cause = Ok (Some Members.Applied, p') /\ after p p' /\ spent (dials p') key
      /\ (exists c : option (Id * Exhaustion), Dials.ready (dials p') = Dials.Rejected c)
  end.
Proof.
  intros Hp. destruct (so_books _ Hp) as [Hm Hd Ho]. unfold exhaust. pose proof (close_spec (dials p) key Hd) as Hc.
  destruct (Dials.active_of (dials p) key) as [k|] eqn:Hact.
  - destruct Hc as (t & d' & -> & Ht & Hd' & Hag & Hsp & Hcl & _). cbn [bind].
    destruct (cancelled_one (membership p) t Hm) as (m' & E & Hcm); [rewrite Ht; by eapply active_claimed; [apply Hp|]|].
    simpl membership. rewrite E. cbn [bind]. set (p1 := with_membership _ m').
    assert (Hs1 : solid p1).
    { eapply solid_intro; [apply Hp|exact Hag|exact Hcm|]. split; [apply Hcm|done|].
      intros Ha x. simpl. rewrite (c_owed _ _ _ _ Hcm x Ha), Ho, Hcl, Ht by done. done. }
    destruct (reject_pinv p1 key cause Hs1) as (p' & -> & Hp' & Hag' & Hr). cbn [bind]. exists p'. split; [done|].
    split; [split; [done|by eapply ages_trans]|]. split; [by eapply spent_ages; [exact Hag'|]|done].
  - rewrite Hc. cbn [bind]. f_equal. f_equal. by destruct p.
Qed.

Lemma failed_pinv p key (cause : ConnectError X) now : pinv p ->
  match Dials.active_of (dials p) key with
  | None => failed (R := R) p key cause now = Ok (None, p)
  | Some k => exists u p', failed (R := R) p key cause now = Ok (Some u, p') /\ after p p' /\ spent (dials p') key
  end.
Proof.
  intros Hp. pose proof (recycled_pinv p key _ Hp (fail_gives_back now)) as Hr. pose proof (fun c => exhaust_pinv p key c Hp) as Hx.
  assert (Hother : match Dials.active_of (dials p) key with
    | None => recycled (R := R) p key (fun m b t => fail_target (R := R) m b now t) = Ok (None, p)
    | Some k => exists u p', recycled (R := R) p key (fun m b t => fail_target (R := R) m b now t) = Ok (Some u, p') /\ after p p' /\ spent (dials p') key
    end).
  { destruct (Dials.active_of (dials p) key); [|done]. destruct Hr as (u & p' & ? & ? & ? & _). by exists u, p'. }
  unfold failed. destruct cause as [|?|[[|]]| | |]; try exact Hother.
  specialize (Hx (ESubmission (submit_error IdentityExhausted))). simpl Opening.cause. cbv iota.
  destruct (Dials.active_of (dials p) key); [|done]. destruct Hx as (p' & ? & ? & ? & _). by exists Members.Applied, p'.
Qed.

(** A cause that is reported changes the feedback, and nothing else. *)
Lemma report_pinv `{Feedback F X} p cause : pinv p -> pinv (report (X := X) p cause) /\ dials (report (X := X) p cause) = dials p
  /\ membership (report (X := X) p cause) = membership p.
Proof.
  intros [[Hb Hr] Hd]. unfold report. destruct (cause_mut (feedback p)); (split; [|done]); (split; [|exact Hd]);
    (split; [exact Hb|exact Hr]).
Qed.
Lemma after_report `{Feedback F X} p p' cause : after p p' -> after p (report (X := X) p' cause).
Proof. intros [Hp Ha]. destruct (report_pinv p' cause Hp) as (? & E & _). split; [done|by rewrite E]. Qed.

Lemma disconnect_pinv `{Feedback F X} p key reason now : pinv p ->
  match Dials.active_of (dials p) key with
  | None => disconnect (R := R) (X := X) p key reason now = Ok p
  | Some k => exists p', disconnect (R := R) (X := X) p key reason now = Ok p' /\ after p p' /\ spent (dials p') key
  end.
Proof.
  intros Hp. pose proof (retire_pinv p key reason now Hp) as Hr. unfold disconnect.
  destruct (Dials.active_of (dials p) key) as [k|]; [|by rewrite Hr].
  destruct Hr as (o & p' & -> & Ha & Hsp & _). cbn [bind]. eexists. split; [done|].
  destruct o as [c|]; [|done]. split; [by apply after_report|]. destruct (report_pinv p' c (af_inv _ _ Ha)) as (_ & -> & _). done.
Qed.
Lemma pool_fail_pinv `{Feedback F X} p key (cause : ConnectError X) now : pinv p ->
  match Dials.active_of (dials p) key with
  | None => pool_fail (R := R) p key cause now = Ok p
  | Some k => exists p', pool_fail (R := R) p key cause now = Ok p' /\ after p p' /\ spent (dials p') key
  end.
Proof.
  intros Hp. pose proof (failed_pinv p key cause now Hp) as Hr. unfold pool_fail.
  destruct (Dials.active_of (dials p) key) as [k|]; [|by rewrite Hr].
  destruct Hr as (u & p' & -> & Ha & Hsp). cbn [bind]. eexists. split; [done|].
  destruct u; try done. split; [by apply after_report|]. destruct (report_pinv p' (HConnect cause) (af_inv _ _ Ha)) as (_ & -> & _). done.
Qed.

Lemma rejected_pinv p key error : pinv p ->
  exists p', rejected (R := R) p key error = Ok (error, p') /\ after p p' /\ (Dials.active_of (dials p) key = None -> p' = p).
Proof.
  intros Hp. unfold rejected. destruct (Opening.cause error); [exists p; split; [done|]; split; [by apply after_refl|done]|].
  destruct (Dials.active_of (dials p) key) as [k|]; [|exists p; split; [done|]; split; [by apply after_refl|done]].
  destruct (reject_pinv p key (ESubmission error) Hp) as (p' & -> & ? & ? & _). by exists p'.
Qed.

Lemma kill_pinv p key cause : pinv p ->
  exists p', kill (R := R) p key cause = Ok p' /\ after p p'
    /\ match Dials.active_of (dials p) key with
       | Some _ => spent (dials p') key
       | None => p' = match cause with Some _ => p | None => refresh (R := R) p end
       end.
Proof.
  intros Hp. unfold kill. destruct cause as [cause|].
  - pose proof (exhaust_pinv p key cause Hp) as Hx. destruct (Dials.active_of (dials p) key) as [k|].
    + destruct Hx as (p' & -> & ? & ? & _). by exists p'.
    + rewrite Hx. exists p. split; [done|]. split; [by apply after_refl|done].
  - destruct (so_books _ Hp) as [Hm Hd Ho]. pose proof (close_spec (dials p) key Hd) as Hc.
    destruct (Dials.active_of (dials p) key) as [k|] eqn:Hact.
    + destruct Hc as (t & d' & -> & Ht & Hd' & Hag & Hsp & Hcl & _). cbn [bind].
      destruct (cancel_spec AUTH (membership p) t Hm) as (u & m' & E & Hs & _); [rewrite Ht; by eapply active_claimed; [apply Hp|]|].
      simpl membership. rewrite E. cbn [bind]. apply settles_one in Hs. set (p1 := with_membership _ m').
      assert (Hs1 : solid p1).
      { eapply solid_intro; [apply Hp|exact Hag|exact Hs|]. split; [apply Hs|done|].
        intros Ha x. simpl. rewrite (c_owed _ _ _ _ Hs x Ha), Ho, Hcl, Ht by done. done. }
      assert (Hx : exists p', match u with UExhausted => reject (R := R) p1 key Identity | _ => Ok (refresh (R := R) p1) end = Ok p' /\ after p1 p').
      { destruct (refresh_pinv p1 Hs1) as [? ?]. destruct u; try by eexists.
        destruct (reject_pinv p1 key Identity Hs1) as (p' & -> & ? & ? & _). by exists p'. }
      destruct Hx as (p' & -> & Ha'). exists p'. split; [done|]. split; [exact (after_ages p p1 p' Hag Ha')|]. by eapply spent_ages; [apply Ha'|].
    + rewrite Hc. cbn [bind]. rewrite with_dials_id. eexists. split; [done|].
      destruct (refresh_pinv p Hp) as [? ?]. by split.
Qed.

(** ** Connections *)

Lemma peer_member self self' t (f : I -> bool) t' (i : I) : peer_post self self' t f (PeerReady t' i) -> member t' = member t.
Proof.
  unfold peer_post. destruct (MembersFacts.get self (member t)) as [r|]; [|done]. destruct (negb (f (Record_.id r))); [done|].
  destruct (is_desired r); [by intros (? & _)|]. by intros [= -> _].
Qed.

Lemma with_membership_pinv p m : pinv p -> claims AUTH (membership p) m (fun _ => 0) -> after p (with_membership p m).
Proof.
  intros Hp Hc. split; [|by apply ages_refl]. split; [|apply Hp]. eapply solid_intro; [apply Hp|by apply ages_refl|exact Hc|].
  eapply books_claims; [apply Hp|apply Hp|done|exact Hc].
Qed.

Lemma attach_pinv `{Eligibility F I Tok} {O} p key (tok : Tok) (g : I -> O) : pinv p ->
  exists c p', attach p key tok g = Ok (c, p') /\ after p p' /\ feedback p' = feedback p
    /\ match Dials.connection (dials p) key with
       | None => c = Stale /\ p' = p
       | Some (i, t) => exists q m', recover (membership p) t (fun e => is_retained (feedback p) e tok) = Ok (q, m')
           /\ peer_post (membership p) m' t (fun e => is_retained (feedback p) e tok) q
           /\ c = match q with PeerReady _ o => Close.Applied (g o) | PeerMissing => Retired | PeerDisabled => Disabled | PeerExhausted => Exhausted end
           /\ membership p' = m' /\ Dials.active_of (dials p') key = Some (member t)
       end.
Proof.
  intros Hp. destruct (so_books _ Hp) as [Hm Hd Ho]. unfold attach.
  destruct (Dials.connection (dials p) key) as [[i t]|] eqn:Hc; [|by exists Stale, p; split; [|split; [apply after_refl|]]].
  destruct (recover_spec AUTH (membership p) t (fun e => is_retained (feedback p) e tok) Hm) as (q & m' & E & Hs & Hpost).
  simpl snd. rewrite E. cbn [bind]. apply claims_settle_0 in Hs.
  pose proof (with_membership_pinv p m' Hp Hs) as Ha1. set (p1 := with_membership p m') in *.
  assert (Hact : Dials.active_of (dials p) key = Some (member t)).
  { unfold Dials.connection in Hc. unfold Dials.active_of, Dials.dial_active. destruct (Dials.get (dials p) key) as [d|]; [|done].
    destruct (Dials.state d); naive_solver. }
  destruct q as [t' o| | |]; try (eexists _, p1; split; [done|]; split; [done|]; split; [done|]; eexists _, m'; by split).
  destruct (connect_commit_spec (dials p1) key i t t') as (Hmv & _ & Hact' & _); [apply Ha1|apply Ha1|done|by eapply peer_member|].
  set (p2 := with_dials p1 _). assert (Hs2 : solid p2).
  { eapply (solid_moved p1); [apply Ha1|exact Hmv|]. apply claims_refl, Ha1. }
  destruct (refresh_pinv p2 Hs2) as [Hp3 Hag3]. exists (Close.Applied (g o)), (refresh (R := R) p2). split; [done|].
  split; [split; [done|eapply ages_trans; [apply Hmv|exact Hag3]]|]. split; [done|]. exists (PeerReady t' o), m'.
  split; [done|]. split; [done|]. split; [done|]. split; [done|]. unfold refresh. simpl.
  destruct (refresh_fields (Dials.commit (dials p) (i, t) t') (is_present (R := R) p2)) as (Er & _).
  unfold Dials.active_of, Dials.get in *. simpl in *. by rewrite Er.
Qed.

(** ** Polls *)

(** Taking a deferred attempt back, when [f] gives up its claim or leaves the
    members as they are. *)
Lemma reset_pinv p (f : Members -> Target -> run Empty_set (option Update * Members)) : pinv p ->
  (forall m t, inv AUTH m -> claimed AUTH m (member t) -> exists u m', f m t = Ok (u, m')
     /\ match u with Some _ => claims AUTH m m' (one (member t)) | None => m' = m end) ->
  exists p', (let! (key, m, d) := Dials.reset_front (dials p) (membership p) f in
      reject_some (R := R) (with_dials (with_membership p m) d) key) = Ok p'
    /\ after p p' /\ feedback p' = feedback p /\ retirements p' = retirements p.
Proof.
  intros Hp Hf. destruct (so_books _ Hp) as [Hm Hd Ho].
  assert (Hcan : forall h, Dials.ready (dials p) = Dials.Deferred h -> claimed AUTH (membership p) (member (Dials.h_target h)))
    by (intros; by eapply held_claimed; [apply Hp|]).
  destruct (reset_front_spec (dials p) (membership p) f) as (o & m' & d' & -> & Er & Hpost); [done|apply Hp| |].
  { intros h Hh. destruct (Hf (membership p) (Dials.h_target h) Hm (Hcan h Hh)) as (u & m' & E & _). by exists (u, m'). }
  cbn [bind]. set (p1 := with_dials _ d').
  assert (Ha1 : after p p1).
  { destruct (Dials.ready (dials p)) as [c|h|c] eqn:Hr.
    - destruct Hpost as (_ & -> & ->). unfold p1. destruct p. by apply after_refl.
    - destruct (Hf (membership p) (Dials.h_target h) Hm (Hcan h eq_refl)) as (u & m2 & E & Hu).
      destruct Hpost as (u' & E' & Hu'). rewrite E in E'. injection E' as <- <-. destruct u as [u|].
      + destruct Hu' as [Hmv _]. split; [|apply Hmv]. eapply solid_moved; [apply Hp|exact Hmv|].
        eapply claims_ext; [exact Hu|]. intros x. unfold one. simpl. apply decide_ext. naive_solver.
      + destruct Hu' as [-> _]. subst m2. unfold p1. destruct p. by apply after_refl.
    - destruct Hpost as (_ & -> & ->). unfold p1. destruct p. by apply after_refl. }
  destruct (reject_some_pinv p1 o (pi_solid _ (af_inv _ _ Ha1)) (fun _ => pi_due _ (af_inv _ _ Ha1))) as (p2 & E & Hp2 & Hag2).
  exists p2. split; [done|]. split; [eapply after_ages; [apply Ha1|by split]|].
  unfold reject_some, reject in E. destruct o; simpl in E; [|by injection E as <-].
  destruct (Dials.reject _ _ _ _ _) as [[? ?]| |]; simpl in E; by simplify_eq.
Qed.

Lemma poll_pinv `{Eligibility F I Tok} p now (tok : Tok) submit : pinv p ->
  exists o p', poll (E := W) (R := R) plan_new p now tok submit = Ok (o, p') /\ after p p' /\ feedback p' = feedback p.
Proof.
  intros Hp. unfold poll. destruct (is_enabled (feedback p)); simpl negb; cbv iota.
  - assert (Hwatch : exists p1, (if WATCHED (F := F) (I := I) (Tok := Tok) then
        let! (key, m, d) := Dials.reset_front (dials p) (membership p)
          (fun m t => cancel_if AUTH m t (fun endpoint => negb (is_eligible (feedback p) endpoint tok))) in
        reject_some (R := R) (with_dials (with_membership p m) d) key
      else Ok p) = Ok p1 /\ after p p1 /\ feedback p1 = feedback p).
    { destruct (WATCHED (F := F)); [|exists p; split; [done|]; split; [by apply after_refl|done]].
      destruct (reset_pinv p (fun m t => cancel_if AUTH m t (fun endpoint => negb (is_eligible (feedback p) endpoint tok))) Hp)
        as (p1 & -> & ? & ? & _); [|by exists p1].
      intros m t Hi Hc. destruct (cancel_if_spec AUTH m t (fun endpoint => negb (is_eligible (feedback p) endpoint tok)) Hi Hc)
        as (u & m' & E & Hu). exists u, m'. split; [exact E|]. destruct u; [|apply Hu]. apply settles_one, Hu. }
    destruct Hwatch as (p1 & -> & Ha1 & Hf1). cbn [bind].
    destruct (poll_spec (W := W) AUTH (fun a => plan_new a (options p1)) (dials p1) (membership p1) now (fun e => is_eligible (feedback p1) e tok) submit)
      as (o & m' & d' & -> & Hb' & Hdue' & Hag' & Hroom' & _); [apply Ha1|apply Ha1|]. cbn [bind]. eexists _, _. split; [done|].
    split; [|done]. eapply after_ages; [apply Ha1|]. split; [|exact Hag']. split; [|done].
    split; [done|]. unfold spacious. simpl. destruct Hag' as [-> _]. apply Hroom', Ha1.
  - pose proof (refresh_moved (dials p) false (bk_dials _ _ _ (so_books _ Hp))) as Hm1.
    pose proof (terminal_spec (E := W) _ (mo_inv _ _ _ Hm1) (mo_due _ _ _ Hm1)) as Ht.
    destruct (Dials.terminal _) as [o d']. destruct Ht as (Hm2 & _). eexists _, _. split; [done|]. split; [|done].
    pose proof (moved_trans _ _ _ _ _ Hm1 Hm2) as Hm. split; [|apply Hm]. eapply solid_moved; [apply Hp|exact Hm|].
    eapply claims_ext; [apply claims_refl, Hp|done].
Qed.

(** ** Snapshots *)

Lemma arm_scan_same p cap : dials (arm_scan (R := R) p cap) = dials p /\ membership (arm_scan (R := R) p cap) = membership p
  /\ feedback (arm_scan (R := R) p cap) = feedback p.
Proof. unfold arm_scan. by destruct (st_scan _) as [[? ?]|]. Qed.
Lemma solid_same p p' : dials p' = dials p -> membership p' = membership p -> solid p -> solid p'.
Proof. intros Ed Em [Hb Hr]. split; by rewrite Ed, Em. Qed.

Lemma synced_claims m m' eps ks : inv AUTH m' -> synced AUTH m m' eps ks -> claims AUTH m m' (fun _ => 0).
Proof.
  intros Hi Hs. split; [done| |apply (sy_issued _ _ _ _ _ Hs)|apply (sy_room _ _ _ _ _ Hs)].
  intros x Ha. rewrite (sy_owed _ _ _ _ _ Hs x Ha). lia.
Qed.

Lemma try_sync_pinv p set cap : pinv p -> (length (Service.endpoints set) <= N)%nat ->
  match try_apply AUTH (membership p) N set with
  | Ok (c, m1) => exists p', try_sync (R := R) N p set cap = Ok (c, p') /\ after p p' /\ feedback p' = feedback p
  | Err e => try_sync (R := R) N p set cap = Err e
  | Stuck _ => False
  end.
Proof.
  intros Hp Hlen. pose proof (try_apply_spec AUTH (membership p) N set (bk_members _ _ _ (so_books _ Hp)) Hlen) as Hap.
  unfold try_sync. destruct (try_apply AUTH (membership p) N set) as [[c m1]|e|w]; cbn [bind]; [|done|done].
  destruct Hap as (_ & _ & _ & Hi & ks & Hsy & _). pose proof (with_membership_pinv p m1 Hp (synced_claims _ _ _ _ Hi Hsy)) as Ha1.
  set (p1 := with_membership p m1) in *.
  assert (Hreset : exists p2, (if AUTH then certain (let! (key, m, d) := Dials.reset_front (dials p1) (membership p1)
      (fun m t => let! (u, m) := cancel AUTH m t in Ok (Some u, m)) in reject_some (R := R) (with_dials (with_membership p1 m) d) key)
      else Ok p1) = Ok (E := Service.Reconcile) p2 /\ after p p2 /\ feedback p2 = feedback p).
  { destruct AUTH eqn:EA; [|by exists p1]. rewrite <- EA.
    destruct (reset_pinv p1 (fun m t => let! (u, m) := cancel AUTH m t in Ok (Some u, m)) (af_inv _ _ Ha1)) as (p2 & E & Ha2 & Hf & _).
    - intros m t Hm Hc. destruct (cancel_spec AUTH m t Hm Hc) as (u & m' & E & Hs & _). exists (Some u), m'. rewrite E. split; [done|].
      by apply settles_one.
    - rewrite E. exists p2. split; [done|]. split; [by eapply after_ages; [apply Ha1|]|done]. }
  destruct Hreset as (p2 & -> & Ha2 & Hf2). cbn [bind]. eexists. split; [done|].
  set (p3 := if negb (Service.retired c =? 0) then arm_scan (R := R) p2 cap else p2).
  assert (Hp3e : dials p3 = dials p2 /\ membership p3 = membership p2 /\ feedback p3 = feedback p2)
    by (unfold p3; destruct (negb _); [apply arm_scan_same|done]).
  destruct Hp3e as (E1 & E2 & E3). destruct (refresh_pinv p3) as [? Hag]; [eapply solid_same; [exact E1|exact E2|apply Ha2]|].
  split; [split; [done|]|by transitivity (feedback p3); [|congruence]].
  eapply ages_trans; [apply Ha2|]. by rewrite E1 in Hag.
Qed.

Lemma next_retirement_pinv p : pinv p -> after p (next_retirement (R := R) p).2.
Proof.
  intros Hp. unfold next_retirement. destruct (negb AUTH); [by apply after_refl|]. destruct (st_next (retirements p)) as [o s]. simpl.
  split; [split; [by eapply solid_same; [..|apply Hp]|apply Hp]|by apply ages_refl].
Qed.
End facts.

(** ** Gated pools *)

Section gate.
Context {K I A S H P Opt D R St Tok : Type} `{EqDecision K} `{EqDecision I} {RS : RoundSet K (Rec I A) S}
  {RSL : RoundSetLaws K (Rec I A) S} {KM : KeyedMin K H} {KML : KeyedMinLaws K H} `{AverageLaws}
  `{SlotGenerationLaws} `{Policy R St} `{Demand D I Tok}.
Context (N : nat).
Abbreviation AUTH := (AUTHORITATIVE (R := R)).
Abbreviation GatePool := (Pool.Pool S H K P Opt (Gate D) St).
Implicit Types (p : GatePool) (key : Id) (tok : Tok).
Abbreviation pinv := (pinv (R := R) N).
Abbreviation after := (after (R := R) N).

Lemma set_demand_pinv p tok cap : pinv p ->
  let p' := set_demand (R := R) p tok cap in after p p' /\ is_stale p' tok = false.
Proof.
  intros Hp p'. set (f := demanded_by (source (feedback p)) tok).
  pose proof (set_demand_spec AUTH (membership p) f (bk_members _ _ _ (so_books _ _ Hp))) as Hs.
  pose proof (set_demand_settles AUTH (membership p) f (bk_members _ _ _ (so_books _ _ Hp))) as Hst.
  unfold p', set_demand. set (p1 := with_feedback p _).
  change (demanded_by (source (feedback p1)) tok) with f. change (membership p1) with (membership p).
  destruct (Members.set_demand (membership p) f) as [w m'] eqn:Em. destruct Hs as (Hc & _).
  destruct (with_membership_pinv N p m' Hp Hc) as [Hp2 _].
  set (p2 := with_membership p1 m'). set (p3 := if _ || w then arm_scan p2 cap else p2).
  assert (Hp3e : dials p3 = dials p /\ membership p3 = m' /\ feedback p3 = feedback p1)
    by (unfold p3; destruct (_ || w); [apply (arm_scan_same p2)|done]).
  destruct Hp3e as (E1 & E2 & E3).
  destruct (refresh_pinv N p3) as [Hp3 Hag].
  { eapply (solid_same N (with_membership p m')); [exact E1|exact E2|apply Hp2]. }
  split; [split; [exact Hp3|by rewrite E1 in Hag]|].
  unfold is_stale. apply orb_false_iff. unfold refresh. simpl. rewrite E2, E3. simpl. split; [|exact Hst].
  unfold is_enabled, gate_access. simpl. by rewrite eqb_reflx.
Qed.

Lemma is_retired_at_pinv p key tok : pinv p ->
  let '(b, p') := is_retired_at p key tok in after p p'
  /\ match Dials.active_of (dials p) key with
     | None => b = false /\ p' = p
     | Some k => b = negb (match MembersFacts.get (membership p) k with
                           | Some r => is_retained (feedback p) (Record_.id r) tok | None => false end)
         /\ (b = true -> p' = p)
     end.
Proof.
  intros Hp. unfold is_retired_at. destruct (Dials.active_of (dials p) key) as [k|] eqn:Hact; [|by split; [apply after_refl|]].
  pose proof (set_is_retained_spec AUTH (membership p) k (fun e => is_retained (feedback p) e tok) (bk_members _ _ _ (so_books _ _ Hp))) as Hs.
  destruct (set_is_retained _ _ _) as [b m']. destruct Hs as (Hs & _ & -> & _ & Hsame).
  set (b := match MembersFacts.get _ _ with Some _ => _ | None => false end) in *.
  apply claims_settle_0 in Hs. pose proof (with_membership_pinv N p m' Hp Hs) as Ha1.
  split; [|split; [done|intros Hb%negb_true_iff; rewrite Hb; simpl; rewrite (Hsame Hb); by destruct p]].
  destruct (b && negb (is_enabled (feedback (with_membership p m')))) eqn:Eb; [|done].
  set (p1 := with_membership p m') in *. split; [split; [|]|by apply ages_refl].
  - destruct (pi_solid _ _ (af_inv _ _ _ Ha1)) as [[Hm Hd Ho] Hr]. split; [split; [done| |]|done].
    + destruct Hd. by split.
    + intros Ha x. by rewrite Ho.
  - pose proof (pi_due _ _ (af_inv _ _ _ Ha1)) as Hdue. simpl in *. unfold due in *. simpl.
    destruct (Dials.ready (dials p)) as [[c|]|h|[[k' e]|]] eqn:Hr; try done. symmetry. apply Z.eqb_neq.
    destruct (active_slot (dials p) key k Hact) as (d & t & Hi & _ & _ & _ & Hst).
    pose proof (active_pos 0 (dials p) _ d _ (bk_dials _ _ _ (so_books _ _ Hp)) Hi (dial_active_at d t Hst)). lia.
Qed.
End gate.
