(* ===== verification/PoolRuns.v ===== *)
(** * Histories of a pool.

    A pool from its construction on, through every sequence of events that its
    owner can feed it: what holds of all of them. *)

From stdpp Require Import gmap.
From S2P Require Import Prelude Depot Time Health Round Members MembersFacts ReconcileFacts SnapshotFacts.
From S2P Require Import Routes RoutesFacts Dials DialsFacts Pool PoolFacts.
Import Record_ Members Opening Sync Discover Close Pool.

(** ** Events *)

Section events.
Context {K I A S H P Opt F R St X Tok W : Type} `{EqDecision K} `{EqDecision I} {RS : RoundSet K (Rec I A) S}
  {KM : KeyedMin K H} `{Average} `{SlotGeneration} `{Policy R St} `{Access F} `{Eligibility F I Tok} `{Feedback F X}.
Context (plan_new : A -> Opt -> P) (N : nat).
Abbreviation Pool := (Pool.Pool S H K P Opt F St).

(** What the owner of a pool may ask of it. [Poll] comes with the answer to a
    submission. *)
Inductive event :=
  | Poll (now : Z) (token : Tok) (submit : Id -> P -> Attempt P W)
  | TrySync (set : Service.Snapshot I A) (cap : Table.Capacity)
  | NextRetirement
  | Disconnect (key : Id) (reason : Reason X) (now : Z)
  | Fail (key : Id) (cause : ConnectError X) (now : Z)
  | Reject (key : Id) (error : SubmitError)
  | Kill (key : Id) (cause : option Exhaustion)
  | Attach (key : Id) (token : Tok).
(** A snapshot holds at most [N] endpoints. *)
Definition fits (e : event) : Prop :=
  match e with TrySync set _ => (length (Service.endpoints set) <= N)%nat | _ => True end.

(** The pool after an event; a snapshot that is refused leaves it as it is. *)
Definition exec (p : Pool) (e : event) : run Empty_set Pool :=
  match e with
  | Poll now token submit => let! (_, p) := poll (R := R) plan_new p now token submit in Ok p
  | TrySync set cap =>
      match try_sync (R := R) N p set cap with Ok (_, p) => Ok p | Err _ => Ok p | Stuck w => Stuck w end
  | NextRetirement => Ok (next_retirement (R := R) p).2
  | Disconnect key reason now => disconnect (R := R) (X := X) p key reason now
  | Fail key cause now => pool_fail (R := R) p key cause now
  | Reject key error => let! (_, p) := rejected (R := R) p key error in Ok p
  | Kill key cause => kill (R := R) p key cause
  | Attach key token => let! (_, p) := connected (R := R) p key token in Ok p
  end.
Fixpoint history (p : Pool) (es : list event) : run Empty_set Pool :=
  match es with [] => Ok p | e :: es => let! p := exec p e in history p es end.
End events.
Arguments event I A P X Tok W : clear implicits.

Section runs.
Context {K I A S H P Opt F R St X Tok W : Type} `{EqDecision K} `{EqDecision I} {RS : RoundSet K (Rec I A) S}
  {RSL : RoundSetLaws K (Rec I A) S} {KM : KeyedMin K H} {KML : KeyedMinLaws K H} `{AverageLaws}
  `{SlotGenerationLaws} `{Policy R St} `{Access F} `{Eligibility F I Tok} `{Feedback F X}.
Context (plan_new : A -> Opt -> P) (N : nat).
Abbreviation AUTH := (AUTHORITATIVE (R := R)).
Abbreviation Pool := (Pool.Pool S H K P Opt F St).
Abbreviation event := (event I A P X Tok W).
Abbreviation exec := (exec (R := R) (X := X) (W := W) plan_new N).
Abbreviation history := (history (R := R) (X := X) (W := W) plan_new N).
Abbreviation pinv := (pinv (R := R) N).
Abbreviation after := (after (R := R) N).
Implicit Types (p : Pool) (es : list event) (key : Id).

Lemma exec_pinv p (e : event) : pinv p -> fits N e -> exists p', exec p e = Ok p' /\ after p p'.
Proof.
  intros Hp He. destruct e as [now tok submit|set cap| |key reason now|key cause now|key error|key cause|key tok]; simpl in *.
  - destruct (poll_pinv plan_new N p now tok submit Hp) as (o & p' & -> & Ha & _). by exists p'.
  - pose proof (try_sync_pinv N p set cap Hp He) as Hs. destruct (try_apply _ _ _ _) as [[c m]|e|w]; [| |done].
    + destruct Hs as (p' & -> & Ha & _). by exists p'.
    + rewrite Hs. exists p. split; [done|by apply after_refl].
  - eexists. split; [done|by apply next_retirement_pinv].
  - pose proof (disconnect_pinv N p key reason now Hp) as Hd. destruct (Dials.active_of _ _).
    + destruct Hd as (p' & -> & Ha & _). by exists p'.
    + rewrite Hd. exists p. split; [done|by apply after_refl].
  - pose proof (pool_fail_pinv N p key cause now Hp) as Hd. destruct (Dials.active_of _ _).
    + destruct Hd as (p' & -> & Ha & _). by exists p'.
    + rewrite Hd. exists p. split; [done|by apply after_refl].
  - destruct (rejected_pinv N p key error Hp) as (p' & -> & Ha & _). by exists p'.
  - destruct (kill_pinv N p key cause Hp) as (p' & -> & Ha & _). by exists p'.
  - destruct (attach_pinv N p key tok (fun _ => tt) Hp) as (c & p' & E & Ha & _). unfold connected. rewrite E. by exists p'.
Qed.
Lemma history_pinv es : forall p, pinv p -> Forall (fits N) es -> exists p', history p es = Ok p' /\ after p p'.
Proof.
  induction es as [|e es IH]; intros p Hp Hes; cbn [PoolRuns.history].
  - exists p. split; [done|by apply after_refl].
  - apply Forall_cons in Hes as [He Hes]. destruct (exec_pinv p e Hp He) as (p1 & -> & Ha). cbn [bind].
    destruct (IH p1 (af_inv _ _ _ Ha) Hes) as (p' & -> & Ha'). exists p'. split; [done|].
    eapply after_ages; [apply Ha|exact Ha'].
Qed.

(** The pools that a history leads to. *)
Definition reachable (cap : nat) p : Prop :=
  exists retry opts f es, Z.of_nat cap <= 2 ^ 24 - 1 /\ Forall (fits N) es
    /\ history (pool_new (R := R) N cap retry opts f) es = Ok p.
Lemma reachable_pinv cap p : reachable cap p -> pinv p /\ length (Dials.records (dials p)) = cap.
Proof.
  intros (retry & opts & f & es & Hcap & Hes & Hrun). destruct (pool_new_inv (P := P) (R := R) N cap retry opts f Hcap) as [Hp Hl].
  destruct (history_pinv es _ Hp Hes) as (p' & E & [Hp' [Hl' _]]). rewrite Hrun in E. injection E as <-.
  split; [done|]. by rewrite Hl', Hl.
Qed.

(** C2. No history breaks a pool. From a new pool of any admitted number of
    connections, through any sequence of polls, snapshots, retirements,
    disconnections, failures, rejections, kills and connections, on any keys and
    in any order, every operation returns: no counter of claims or of active
    dials overflows or goes below zero, no member or dial is reached through a
    stale reference, no member is linked twice; and the result satisfies the
    invariant that joins members and dials. *)
Theorem pool_never_fails cap retry opts f es : Z.of_nat cap <= 2 ^ 24 - 1 -> Forall (fits N) es ->
  exists p, history (pool_new (R := R) N cap retry opts f) es = Ok p /\ pinv p.
Proof.
  intros Hcap Hes. destruct (pool_new_inv (P := P) (R := R) N cap retry opts f Hcap) as [Hp _].
  destruct (history_pinv es _ Hp Hes) as (p & E & [? _]). by exists p.
Qed.

(** C15. Claims are exact. In every pool that a history leads to, and that
    preserves its epochs, a member's count of owners is the number of dials that
    are submitted or connected for it plus the one that is deferred for it; so
    the member of a live attempt is still there, and the pool calls the attempt
    current whenever it is enabled. *)
Theorem claims_are_dials cap p : reachable cap p -> AUTH = false ->
  (forall k, owed (membership p) k = claims_on (dials p) k)
  /\ forall key k, Dials.active_of (dials p) key = Some k -> is_current p key = Some (is_enabled (feedback p)).
Proof.
  intros Hr Ha. destruct (reachable_pinv cap p Hr) as [Hp _]. destruct (so_books _ _ Hp) as [Hm Hd Ho]. split; [by apply Ho|].
  intros key k Hk. unfold is_current. rewrite Hk. pose proof (active_claimed AUTH (dials p) (membership p) key k (so_books _ _ Hp) Hk Ha) as Hc.
  unfold owed, MembersFacts.get in Hc. unfold contains. destruct (rs_get (records (membership p)) k); [by rewrite andb_true_r|done].
Qed.

(** A snapshot always finds room. In every pool that a history leads to, over
    a table whose entries may all be reused, a snapshot of at most [N]
    endpoints is never refused for want of capacity, whatever members the live
    dials still keep: it is refused only for its revision or a repeated
    identity, and with exactly that. *)
Theorem snapshot_finds_room cap p set c : reachable cap p -> (length (Service.endpoints set) <= N)%nat ->
  (forall k : K, rs_reusable k = true) ->
  match try_sync (R := R) N p set c with
  | Ok _ => revision (membership p) < Service.s_revision set /\ NoDup (Service.e_id <$> Service.endpoints set)
  | Err (Service.Stale cur inc) => cur = revision (membership p) /\ inc = Service.s_revision set /\ inc <= cur
  | Err (Service.Duplicate a b) => revision (membership p) < Service.s_revision set /\ (a < b)%nat
      /\ (exists i, (Service.e_id <$> Service.endpoints set) !! a = Some i /\ (Service.e_id <$> Service.endpoints set) !! b = Some i)
  | _ => False
  end.
Proof.
  intros Hr Hlen Hre. destruct (reachable_pinv cap p Hr) as [Hp Hl]. destruct (so_books _ _ Hp) as [Hm Hd Ho].
  pose proof (try_apply_spec AUTH (membership p) N set Hm Hlen) as Hap.
  pose proof (try_sync_pinv N p set c Hp Hlen) as Hs. destruct (try_apply AUTH (membership p) N set) as [[ch m]|e|w]; [| |done].
  - destruct Hs as (p' & -> & _). by destruct Hap as (? & ? & _).
  - rewrite Hs. destruct e as [cur inc|a b|actual limit]; [done|by destruct Hap as (? & ? & ? & _)|].
    destruct Hap as (_ & _ & _ & _ & Hno). specialize (Hno _ Hre (so_room _ _ Hp)). revert Hno. apply Nat.le_ngt.
    set (L := filter _ (occupied (membership p))).
    assert (HL : forall k, k ∈ L -> AUTH = false /\ 1 <= owed (membership p) k).
    { intros k [Hk _]%list_elem_of_filter. unfold claimed_off in Hk. unfold owed. destruct (MembersFacts.get (membership p) k) as [r|] eqn:Hg; [|done].
      apply andb_true_iff in Hk as [Ha%negb_true_iff Hne%negb_true_iff%Z.eqb_neq]. split; [done|].
      destruct (m_wf _ _ _ _ (i_member _ _ Hm k r Hg)) as (_ & _ & ?). lia. }
    destruct AUTH eqn:EA.
    + destruct L as [|k L']; [simpl; lia|]. destruct (HL k) as [? _]; [set_solver|done].
    + assert (HndL : NoDup L) by (by eapply NoDup_filter, occupied_NoDup, Hm).
      pose proof (claims_distinct (dials p) L Hd HndL) as Hsum.
      assert (Hlow : total (fun _ : K => 1) L <= total (claims_on (dials p)) L).
      { apply total_le. intros k Hk. rewrite <- Ho by done. by apply HL. }
      rewrite total_const in Hlow. lia.
Qed.

(** ** Attempts that are over *)

Lemma spent_connection (ds : Dials.Dials K P) key : spent ds key -> Dials.connection ds key = None.
Proof.
  intros Hs. apply spent_active in Hs. unfold Dials.connection, Dials.active_of, Dials.dial_active in *.
  destruct (Dials.get ds key) as [d|]; [|done]. by destruct (Dials.state d).
Qed.

(** Where whatever is left to report is polled for, a refresh only sets the mark. *)
Lemma refresh_only_asks (ds : Dials.Dials K P) b : due ds -> exists ask, Dials.refresh ds b = Dials.with_needs_poll ds ask.
Proof.
  intros Hd. unfold due in Hd. unfold Dials.refresh. cbn zeta. cbn [Dials.with_needs_poll Dials.depleted Dials.ready Dials.active].
  destruct (Dials.depleted ds); [|eauto]. destruct (Dials.ready ds) as [[]| |]; try (by eauto). destruct Hd as [?|Hd]; [done|].
  apply Z.eqb_neq in Hd. rewrite Hd. eauto.
Qed.

(** C26. Late events are ignored. Once an attempt has ended, by any of the ways
    that a pool ends one, its key never comes back: after every further history,
    a disconnection, a failure, a rejection, a kill for a cause and a connection on
    that key leave the pool exactly as it is, a kill without a cause changes nothing
    but the mark that asks for a poll, and the key is no longer current. *)
Theorem late_events_ignored cap p p1 p2 es key k reason cause now : reachable cap p ->
  Dials.active_of (dials p) key = Some k ->
  disconnect (R := R) (X := X) p key reason now = Ok p1 \/ pool_fail (R := R) (X := X) p key cause now = Ok p1
    \/ (exists c, kill (R := R) p key c = Ok p1) ->
  Forall (fits N) es -> history p1 es = Ok p2 ->
  (forall r n, disconnect (R := R) (X := X) p2 key r n = Ok p2) /\ (forall c n, pool_fail (R := R) (X := X) p2 key c n = Ok p2)
  /\ (forall e, rejected (R := R) p2 key e = Ok (e, p2)) /\ (forall c, kill (R := R) p2 key (Some c) = Ok p2)
  /\ (exists ask, kill (R := R) p2 key None = Ok (with_dials p2 (Dials.with_needs_poll (dials p2) ask)))
  /\ (forall tok, connected (R := R) p2 key tok = Ok (Stale, p2)) /\ is_current p2 key = None.
Proof.
  intros Hr Hact Hend Hes Hrun. destruct (reachable_pinv cap p Hr) as [Hp _].
  assert (Hone : pinv p1 /\ spent (dials p1) key).
  { pose proof (disconnect_pinv N p key reason now Hp) as Hd. pose proof (pool_fail_pinv N p key cause now Hp) as Hf.
    rewrite Hact in Hd, Hf. destruct Hend as [E|[E|[c E]]].
    - destruct Hd as (p' & E' & Ha & ?). rewrite E in E'. injection E' as <-. split; [apply Ha|done].
    - destruct Hf as (p' & E' & Ha & ?). rewrite E in E'. injection E' as <-. split; [apply Ha|done].
    - destruct (kill_pinv N p key c Hp) as (p' & E' & Ha & Hk). rewrite E in E'. injection E' as <-. rewrite Hact in Hk.
      split; [apply Ha|done]. }
  destruct Hone as [Hp1 Hsp]. destruct (history_pinv es p1 Hp1 Hes) as (p2' & E & [Hp2 Hag]). rewrite Hrun in E. injection E as <-.
  pose proof (spent_ages _ _ _ Hag Hsp) as Hsp2. pose proof (spent_active _ _ Hsp2) as Ha2.
  split; [|split; [|split; [|split; [|split; [|split]]]]].
  - intros r n. pose proof (disconnect_pinv N p2 key r n Hp2) as Hd. by rewrite Ha2 in Hd.
  - intros c n. pose proof (pool_fail_pinv N p2 key c n Hp2) as Hd. by rewrite Ha2 in Hd.
  - intros e. destruct (rejected_pinv N p2 key e Hp2) as (p' & E & _ & Hsame). by rewrite E, (Hsame Ha2).
  - intros c. destruct (kill_pinv N p2 key (Some c) Hp2) as (p' & E & _ & Hk). rewrite Ha2 in Hk. by rewrite E, Hk.
  - destruct (kill_pinv N p2 key None Hp2) as (p' & E & _ & Hk). rewrite Ha2 in Hk. rewrite E, Hk. unfold refresh.
    destruct (refresh_only_asks (dials p2) (is_present (R := R) p2) (pi_due _ _ Hp2)) as [ask ->]. by exists ask.
  - intros tok. unfold connected, attach. by rewrite (spent_connection _ _ Hsp2).
  - unfold is_current. by rewrite Ha2.
Qed.

(** ** The last failure *)

(** The line of the pool is closed, by the failure that no poll has reported yet. *)
Abbreviation closed c p := (Dials.ready (dials p) = Dials.Rejected c).
Abbreviation over p := (closed None p).
Lemma refresh_closed c0 (ds : Dials.Dials K P) b : Dials.ready ds = Dials.Rejected c0 ->
  Dials.ready (Dials.refresh ds b) = Dials.Rejected c0.
Proof. intros Hr. unfold Dials.refresh. rewrite Hr. simpl. rewrite Hr. by destruct (Dials.depleted ds). Qed.
Lemma reject_closed c0 p key c p' : closed c0 p -> reject (R := R) p key c = Ok p' -> closed c0 p'.
Proof. intros Ho. unfold reject, Dials.reject. rewrite Ho. cbn [bind]. intros [= <-]. by apply refresh_closed. Qed.
Lemma recycle_closed c0 {O} (ds : Dials.Dials K P) key b (u : Target K -> run Empty_set O) o ds' : Dials.ready ds = Dials.Rejected c0 ->
  Dials.recycle ds key b u = Ok (o, ds') -> Dials.ready ds' = Dials.Rejected c0.
Proof.
  intros Ho. unfold Dials.recycle. destruct (Dials.get ds key) as [d|]; [|by intros [= <- <-]].
  assert (Hgo : forall t, (let! output := u t in if Dials.active ds =? 0 then Stuck Panic else
      let! self := Dials.requeue (Dials.with_active ds (Dials.active ds - 1)) (index key) b in Ok (Some output, self)) = Ok (o, ds') ->
    Dials.ready ds' = Dials.Rejected c0).
  { intros t. destruct (u t) as [x| |]; cbn [bind]; [|done|done]. destruct (_ =? 0); [done|].
    unfold Dials.requeue. destruct (Dials.at_slot _ _) as [d0| |]; cbn [bind]; [|done|done]. simpl. rewrite Ho. simpl. intros [= <- <-].
    by apply refresh_closed. }
  destruct (Dials.state d); [by intros [= <- <-]|apply Hgo..|by intros [= <- <-]].
Qed.
Lemma recycled_closed c0 p key u o p' : closed c0 p -> recycled (R := R) p key u = Ok (o, p') -> closed c0 p'.
Proof.
  intros Ho. unfold recycled. destruct (Dials.recycle _ _ _ _) as [[x d]| |] eqn:E; cbn [bind]; [|done|done].
  eapply recycle_closed in E; [|done]. destruct x as [[[? ?] ?]|]; by intros [= <- <-].
Qed.
Lemma close_closed c0 (ds : Dials.Dials K P) key t ds' : Dials.ready ds = Dials.Rejected c0 -> Dials.close ds key = Ok (t, ds') ->
  Dials.ready ds' = Dials.Rejected c0.
Proof.
  intros Ho. unfold Dials.close. destruct (Dials.get ds key) as [d|]; [|by intros [= <- <-]].
  destruct (Dials.state d); try (by intros [= <- <-]); (destruct (_ =? 0); [done|]); by intros [= <- <-].
Qed.
Lemma exhaust_closed c0 p key c o p' : closed c0 p -> exhaust (R := R) p key c = Ok (o, p') -> closed c0 p'.
Proof.
  intros Ho. unfold exhaust. destruct (Dials.close _ _) as [[t d]| |] eqn:E; cbn [bind]; [|done|done]. eapply close_closed in E; [|done].
  destruct t as [t|]; [|by intros [= <- <-]]. destruct (Dials.cancelled _ _ _) as [m| |]; cbn [bind]; [|done|done].
  destruct (reject _ _ _) as [p1| |] eqn:Er; cbn [bind]; [|done|done]. intros [= <- <-]. by eapply reject_closed in Er.
Qed.
Lemma report_closed c0 p cause : closed c0 p -> closed c0 (report (X := X) p cause).
Proof. unfold report. by destruct (cause_mut _). Qed.
Lemma poll_over p now tok submit o p' : over p -> poll (R := R) (E := W) plan_new p now tok submit = Ok (o, p') -> o = OIdle /\ over p'.
Proof.
  intros Ho. unfold poll.
  assert (Hterm : forall ds : Dials.Dials K P, Dials.ready ds = Dials.Rejected None ->
    let '(o, d) := Dials.terminal (E := W) ds in o = OIdle /\ Dials.ready d = Dials.Rejected None).
  { intros ds Hr. unfold Dials.terminal. rewrite Hr. by destruct (Dials.needs_poll ds). }
  destruct (is_enabled (feedback p)); simpl negb; cbv iota.
  - assert (Hw : forall p1, (if WATCHED (F := F) (I := I) (Tok := Tok) then
        let! (key, m, d) := Dials.reset_front (dials p) (membership p)
          (fun m t => cancel_if AUTH m t (fun endpoint => negb (is_eligible (feedback p) endpoint tok))) in
        reject_some (R := R) (with_dials (with_membership p m) d) key
      else Ok p) = Ok p1 -> over p1).
    { intros p1. destruct (WATCHED (F := F)); [|by intros [= <-]]. unfold Dials.reset_front. rewrite Ho. cbn [bind]. by intros [= <-]. }
    destruct (if WATCHED (F := F) then _ else _) as [p1| |]; cbn [bind]; [|done|done]. specialize (Hw p1 eq_refl).
    unfold Dials.poll. rewrite Hw. specialize (Hterm (Dials.with_ready (Dials.with_ready (dials p1) (Dials.Open None)) (Dials.Rejected None)) eq_refl).
    destruct (Dials.terminal _) as [o' d]. cbn [bind]. intros [= <- <-]. exact Hterm.
  - specialize (Hterm (Dials.refresh (dials p) false) (refresh_closed None _ false Ho)). destruct (Dials.terminal _) as [o' d].
    intros [= <- <-]. exact Hterm.
Qed.
Lemma try_sync_closed c0 p set c o p' : closed c0 p -> try_sync (R := R) N p set c = Ok (o, p') -> closed c0 p'.
Proof.
  intros Ho. unfold try_sync. destruct (try_apply _ _ _ _) as [[ch m]| |]; cbn [bind]; [|done|done].
  assert (Hx : forall p2, (if AUTH then certain (let! (key, m, d) := Dials.reset_front (dials p) m
      (fun m t => let! (u, m) := cancel AUTH m t in Ok (Some u, m)) in reject_some (R := R) (with_dials (with_membership p m) d) key)
      else Ok (with_membership p m)) = Ok (E := Service.Reconcile) p2 -> closed c0 p2).
  { intros p2. destruct AUTH; [|by intros [= <-]]. unfold Dials.reset_front. rewrite Ho. cbn [bind]. by intros [= <-]. }
  intros E. apply bind_Ok in E as (p2 & E2 & [= <- <-]). specialize (Hx p2 E2). apply refresh_closed.
  destruct (negb _); [|done]. by rewrite (proj1 (arm_scan_same p2 c)).
Qed.
Lemma attach_closed c0 p key tok o p' : closed c0 p -> connected (R := R) p key tok = Ok (o, p') -> closed c0 p'.
Proof.
  intros Ho. unfold connected, attach. destruct (Dials.connection _ _) as [c|]; [|by intros [= <- <-]].
  destruct (recover _ _ _) as [[q m]| |]; cbn [bind]; [|done|done]. destruct q; intros [= <- <-]; try done. by apply refresh_closed.
Qed.
Lemma kill_closed c0 p key c p' : closed c0 p -> kill (R := R) p key c = Ok p' -> closed c0 p'.
Proof.
  intros Ho. unfold kill. destruct c as [c|].
  - intros E. apply bind_Ok in E as ([o p1] & E & [= <-]). by eapply exhaust_closed in E.
  - intros E. apply bind_Ok in E as ([t d] & Ec & E). eapply close_closed in Ec; [|done]. apply bind_Ok in E as ([u p1] & E1 & E).
    assert (Ho1 : closed c0 p1).
    { destruct t as [t|]; [|by injection E1 as _ <-]. apply bind_Ok in E1 as ([u1 m] & _ & [= _ <-]). done. }
    destruct u as [[]|]; try (injection E as <-; by apply refresh_closed). by eapply reject_closed in E.
Qed.
(** No event but a poll takes the failure, and no later one takes its place. *)
Definition polls (e : event) : Prop := match e with Poll _ _ _ => True | _ => False end.
Lemma exec_closed c0 p e p' : closed c0 p -> ~ polls e -> exec p e = Ok p' -> closed c0 p'.
Proof.
  intros Ho He. destruct e as [now tok submit|set cap| |key reason now|key cause now|key error|key cause|key tok]; cbn [PoolRuns.exec].
  - by destruct He.
  - destruct (try_sync _ _ _ _) as [[c p1]| |] eqn:E; [|by intros [= <-]|done]. intros [= <-]. by eapply try_sync_closed in E.
  - intros [= <-]. unfold next_retirement. destruct (negb AUTH); [done|]. by destruct (st_next _).
  - unfold disconnect, retire. intros E. apply bind_Ok in E as ([c p1] & E & [= <-]). apply bind_Ok in E as ([u p2] & E2 & E).
    apply bind_Ok in E as (p3 & E3 & [= <- <-]). eapply recycled_closed in E2; [|done].
    assert (Ho3 : closed c0 p3) by (destruct u as [[]|]; try (by injection E3 as <-); by eapply reject_closed in E3).
    match goal with |- context [match ?o with Some _ => _ | None => _ end] => destruct o end; [by apply report_closed|done].
  - unfold pool_fail. intros E. apply bind_Ok in E as ([u p1] & E & [= <-]).
    assert (Ho1 : closed c0 p1) by (unfold failed in E; destruct cause as [|?|[[|]]| | |]; by first [eapply recycled_closed in E|eapply exhaust_closed in E]).
    destruct u as [[]|]; [by apply report_closed|done..].
  - unfold rejected. intros E. apply bind_Ok in E as ([x p1] & E & [= <-]). apply bind_Ok in E as (p2 & E & [= <- <-]).
    destruct (Opening.cause error); [by injection E as <-|]. destruct (Dials.active_of _ _); [by eapply reject_closed in E|by injection E as <-].
  - by apply kill_closed.
  - intros E. apply bind_Ok in E as ([o p1] & E & [= <-]). by eapply attach_closed in E.
Qed.
Lemma exec_over p e p' : over p -> exec p e = Ok p' -> over p'.
Proof.
  intros Ho E. destruct e as [now tok submit|set cap| |key reason now|key cause now|key error|key cause|key tok]; try (by eapply exec_closed; [exact Ho| |exact E]; intros []).
  cbn [PoolRuns.exec] in E. apply bind_Ok in E as ([o p1] & E & [= <-]). by apply poll_over in E as [_ ?].
Qed.
Lemma history_over es : forall p p', over p -> history p es = Ok p' -> over p'.
Proof.
  induction es as [|e es IH]; intros p p' Ho; cbn [PoolRuns.history]; [by intros [= <-]|].
  intros E. apply bind_Ok in E as (p1 & E1 & E). apply exec_over in E1; [|done]. by eapply IH.
Qed.
Lemma history_closed c0 es : forall p p', closed c0 p -> Forall (fun e => ~ polls e) es -> history p es = Ok p' -> closed c0 p'.
Proof.
  induction es as [|e es IH]; intros p p' Ho Hes; cbn [PoolRuns.history]; [by intros [= <-]|]. apply Forall_cons in Hes as [He Hes].
  intros E. apply bind_Ok in E as (p1 & E1 & E). eapply exec_closed in E1; [|done..]. by eapply IH.
Qed.

(** C27. A permanent failure is reported, once, and last. In every pool that a
    history leads to whose line is closed by a failure: through any further events
    other than polls, whatever failures they bring, this first failure is kept;
    while an attempt is live, polls report nothing and keep it too; as soon as
    none is, the pool asks for a poll and that poll reports exactly this failure, to
    the attempt it belongs to; and after the report, through every further history,
    no poll ever reports anything again and the pool never asks for one. *)
Theorem failure_reported_once cap p key e now tok submit : reachable cap p ->
  Dials.ready (dials p) = Dials.Rejected (Some (key, e)) ->
  (forall es p', Forall (fun ev => match ev with Poll _ _ _ => False | _ => True end) es -> history p es = Ok p' ->
     Dials.ready (dials p') = Dials.Rejected (Some (key, e)))
  /\ if Dials.active (dials p) =? 0 then
    is_pending p = true
    /\ exists p1, poll (R := R) (E := W) plan_new p now tok submit = Ok (OFailed key (from_exhaustion e), p1)
    /\ forall es p2 n tk sub, Forall (fits N) es -> history p1 es = Ok p2 ->
         is_pending p2 = false /\ exists p3, poll (R := R) (E := W) plan_new p2 n tk sub = Ok (OIdle, p3)
  else is_pending p = false
    /\ exists p1, poll (R := R) (E := W) plan_new p now tok submit = Ok (OIdle, p1) /\ Dials.ready (dials p1) = Dials.ready (dials p).
Proof.
  intros Hr Hrej. split.
  { intros es p' Hes. apply history_closed; [done|]. eapply Forall_impl; [exact Hes|]. intros [] He Hp; solve [exact He | exact Hp]. }
  destruct (reachable_pinv cap p Hr) as [Hp _].
  destruct (poll_pinv (W := W) plan_new N p now tok submit Hp) as (o & p1 & E & Ha & _).
  pose proof (pi_due _ _ Hp) as Hdue. unfold due in Hdue. rewrite Hrej in Hdue.
  assert (Hterm : exists ds, Dials.ready ds = Dials.Rejected (Some (key, e)) /\ Dials.needs_poll ds = (Dials.active (dials p) =? 0)
    /\ (o, dials p1) = Dials.terminal (E := W) ds).
  { revert E. unfold poll. destruct (is_enabled (feedback p)); simpl negb; cbv iota.
    - intros E. apply bind_Ok in E as (p0 & E0 & E).
      assert (Hp0 : dials p0 = dials p).
      { destruct (WATCHED (F := F)); [|by injection E0 as <-]. unfold Dials.reset_front in E0. rewrite Hrej in E0. cbn [bind] in E0. by injection E0 as <-. }
      apply bind_Ok in E as ([[o' m'] d'] & E & [= <- <-]). unfold Dials.poll in E. rewrite Hp0, Hrej in E.
      exists (Dials.with_ready (Dials.with_ready (dials p) (Dials.Open None)) (Dials.Rejected (Some (key, e)))).
      split; [done|]. split; [done|]. destruct (Dials.terminal _) as [o2 d2]. by injection E as -> _ ->.
    - intros E. exists (Dials.refresh (dials p) false). assert (Hrf : Dials.refresh (dials p) false = Dials.with_needs_poll (dials p) (Dials.active (dials p) =? 0)).
      { unfold Dials.refresh. rewrite Hrej. simpl. rewrite Hrej. by destruct (Dials.depleted _). }
      rewrite Hrf in E |- *. split; [done|]. split; [done|]. destruct (Dials.terminal _) as [o2 d2]. by injection E as -> <-. }
  destruct Hterm as (ds & Hds & Hn & Ht). unfold Dials.terminal in Ht. rewrite Hds, Hn in Ht. unfold is_pending. rewrite Hdue.
  destruct (Dials.active (dials p) =? 0); injection Ht as -> Ht.
  - split; [done|]. exists p1. split; [exact E|]. intros es p2 n tk sub Hes Hrun.
    assert (Ho1 : over p1) by (by rewrite Ht). pose proof (history_over es p1 p2 Ho1 Hrun) as Ho2.
    destruct (history_pinv es p1 (af_inv _ _ _ Ha) Hes) as (p2' & E2 & [Hp2 _]). rewrite Hrun in E2. injection E2 as <-.
    pose proof (pi_due _ _ Hp2) as Hd2. unfold due in Hd2. rewrite Ho2 in Hd2. split; [done|].
    destruct (poll_pinv (W := W) plan_new N p2 n tk sub Hp2) as (o3 & p3 & E3 & _). destruct (poll_over _ _ _ _ _ _ Ho2 E3) as [-> _]. by exists p3.
  - split; [done|]. exists p1. split; [exact E|]. by rewrite Ht, Hds.
Qed.
End runs.
