(* ===== verification/PoolLaws.v ===== *)
(** * What the parts of a pool promise.

    Members are chosen in turns, fail and recover exactly; a snapshot is
    installed exactly; the dials wait in one line; a retirement scan covers its
    table; a gate's demand settles. *)

From stdpp Require Import gmap.
From S2P Require Import Prelude Depot Time Health Round Members MembersFacts ReconcileFacts SnapshotFacts.
From S2P Require Import Routes RoutesFacts Dials DialsFacts Pool PoolFacts.
Import Record_ Members.

Section members.
Context {K I A S H : Type} `{EqDecision K} `{EqDecision I} {RS : RoundSet K (Rec I A) S}
  {RSL : RoundSetLaws K (Rec I A) S} {KM : KeyedMin K H} {KML : KeyedMinLaws K H} `{AverageLaws}.
Context (AUTH : bool).
Abbreviation Members := (Set_ S H).
Implicit Types (self : Members) (k : K) (r : Rec I A) (t : Target K).


(** Members are chosen in turns. [choose] first brings back the earliest
    retry that is due, to the end of the round and as a probe, unless it has used
    up its generations; then it gives the turn to the first member of the round
    that the caller accepts: it returns that member's address and generation, and
    the round goes on after it, the refused ones behind; a probe leaves the round
    until its outcome. When no member of the round is accepted it reports the
    earliest retry there is. The choice is the only claim it adds. *)
Theorem choice_takes_turns self now (e : I -> bool) : inv AUTH self -> (AUTH = false -> forall k, owed self k < 2 ^ 32 - 1) ->
  exists self1 sel self', choose AUTH self now e = Ok (sel, self') /\ inv AUTH self'
    /\ (AUTH = false -> forall x, owed self' x = owed self x + match sel with SelReady t _ => if decide (x = member t) then 1 else 0 | _ => 0 end)
    /\ ((self1 = self /\ forall k p, heap self k = Some p -> now < p)
        \/ exists k p r, heap self k = Some p /\ p <= now /\ (forall k' p', heap self k' = Some p' -> p <= p') /\ get self k = Some r
             /\ (generation (r_health r) < Health.LAST -> order self1 = order self ++ [k] /\ heap self1 k = None)
             /\ (generation (r_health r) = Health.LAST -> sel = SelExhausted))
    /\ (sel = SelExhausted \/ selects AUTH self1 self' e sel).
Proof.
  intros Hi Hmax. destruct (choose_spec AUTH self now e Hi Hmax) as (sel & self' & E & Hc & o & self1 & Ep & Hsel).
  exists self1, sel, self'. split; [done|]. split; [apply Hc|]. split.
  { intros Ha x. rewrite (c_owed _ _ _ _ Hc x Ha). destruct sel as [t a| | |]; simpl; [case_decide; lia|lia..]. }
  destruct (try_promote_spec AUTH self now Hi) as (o' & self1' & Ep' & _ & Hp). rewrite Ep in Ep'. injection Ep' as <- <-.
  destruct Hp as [(-> & -> & Hlt)|(k & p & r & Hk & Hle & Hg & Hd & Hmin & Ho)].
  - split; [by left|]. by right.
  - assert (Hgen : generation (r_health r) <= Health.LAST) by (by apply (m_wf _ _ _ _ (i_member _ _ Hi k r Hg))).
    destruct o as [[]|[]|w]; [| |done].
    + split; [|by right]. right. exists k, p, r. do 4 (split; [done|]). destruct Ho as (Hs & Hord & Hlt). split; [|lia].
      intros _. split; [done|]. by destruct (step_here _ _ _ _ _ _ Hs) as (_ & _ & ->).
    + destruct Hsel as [-> ->]. split; [|by left]. right. exists k, p, r. do 4 (split; [done|]). split; [lia|done].
Qed.
End members.

Section events.
Context {K I A S H : Type} `{EqDecision K} `{EqDecision I} {RS : RoundSet K (Rec I A) S}
  {RSL : RoundSetLaws K (Rec I A) S} {KM : KeyedMin K H} {KML : KeyedMinLaws K H} `{AverageLaws}.
Context (AUTH : bool).
Abbreviation Members := (Set_ S H).
Implicit Types (self : Members) (k : K) (r : Rec I A) (t : Target K).

(** A failure counts once. On a claimed member, [fail] gives the claim back
    whatever else it does. The failure counts exactly when the member is still
    desired, its generation is the one that was dialled, and it is either healthy
    in the round or out of it as a probe: then the member leaves the round, one
    failure more on its count, with a retry at the instant the backoff computes.
    Otherwise, a second failure of the same generation included, the update is
    ignored, and the backoff's generator and the member's health stay as they are. *)
Theorem failure_counts_once self t b now : inv AUTH self -> claimed AUTH self (member t) ->
  exists u self' b', fail AUTH self t b now = Ok (u, self', b') /\ inv AUTH self'
    /\ (AUTH = false -> forall x, owed self' x = owed self x - (if decide (x = member t) then 1 else 0))
    /\ (forall x, x <> member t -> get self' x = get self x)
    /\ match get self (member t) with
       | None => u = Missing
       | Some r =>
           if is_desired r && admits self t r then
             u = Applied /\ exists at_ f r', Health.retry_at b (failures (r_health r)) now = (at_, f, b')
               /\ get self' (member t) = Some r' /\ heap self' (member t) = Some at_ /\ (member t ∉ order self')
               /\ failures (r_health r') = f /\ generation (r_health r') = generation (r_health r)
               /\ admits self' t r' = false
           else u = Ignored /\ b' = b
             /\ (is_desired r = true -> heap self' (member t) = heap self (member t)
                 /\ rs_ready (records self') (member t) = rs_ready (records self) (member t))
       end.
Proof.
  intros Hi Hc. destruct (fail_spec AUTH self t b now Hi Hc) as (u & self' & b' & E & Hs & Hmiss & Hpost).
  exists u, self', b'. split; [done|]. split; [apply Hs|]. split; [intros Ha x; by apply (st_owed _ _ _ _ _ Hs)|].
  split; [intros x Hx; by apply (st_frame _ _ _ _ _ Hs)|].
  destruct (get self (member t)) as [r|] eqn:Hg; [|by apply Hmiss]. specialize (Hpost r eq_refl).
  destruct (is_desired r && admits self t r) eqn:Had.
  - destruct Hpost as [-> (at_ & f & Hat & Hst)]. split; [done|]. destruct (step_here _ _ _ _ _ _ Hst) as (Hg' & Hr' & Hh').
    eexists at_, f, _. split; [done|]. split; [exact Hg'|]. split; [exact Hh'|].
    split; [by rewrite (s_ready _ _ _ _ _ _ Hst)|]. split; [by destruct AUTH|]. split; [by destruct AUTH|].
    unfold admits. rewrite Hr'. apply andb_false_iff. right. by destruct AUTH.
  - destruct Hpost as (-> & -> & Hd). split; [done|]. split; [done|]. intros Hdes.
    by destruct (step_here _ _ _ _ _ _ (Hd Hdes)) as (_ & ? & ?).
Qed.

(** A connection restores its member. [recover] refuses a member that is gone
    or that the caller no longer retains, and changes nothing then. A member that
    left the snapshot is served as it was selected. Any other is back in the round
    and healthy, its retry withdrawn, its claims kept, and the target returned has
    its current generation, unless its generations are used up: then it is out of
    the round for good, and the caller is told. *)
Theorem connection_restores_member self t (f : I -> bool) : inv AUTH self ->
  exists q self', recover self t f = Ok (q, self') /\ inv AUTH self'
    /\ (AUTH = false -> forall x, owed self' x = owed self x) /\ (forall x, x <> member t -> get self' x = get self x)
    /\ match get self (member t) with
       | None => q = PeerMissing
       | Some r =>
           if negb (f (id r)) then q = PeerDisabled
           else if negb (is_desired r) then q = PeerReady t (id r)
           else match q with
                | PeerReady t' i => member t' = member t /\ i = id r /\ member t ∈ order self' /\ heap self' (member t) = None
                    /\ exists r', get self' (member t) = Some r' /\ t_health t' = generation (r_health r') /\ ready (r_health r') = Healthy
                | PeerExhausted => (member t ∉ order self') /\ heap self' (member t) = None
                | _ => False
                end
       end.
Proof.
  intros Hi. destruct (recover_spec AUTH self t f Hi) as (q & self' & E & Hs & Hpost). exists q, self'. split; [done|].
  split; [apply Hs|]. split; [intros Ha x; rewrite (st_owed _ _ _ _ _ Hs x Ha); case_decide; lia|].
  split; [intros x Hx; by apply (st_frame _ _ _ _ _ Hs)|]. unfold peer_post in Hpost.
  destruct (get self (member t)) as [r|]; [|done]. destruct (negb (f (id r))); [done|].
  destruct (is_desired r); [|done]. simpl negb. cbv iota. pose proof (st_inv _ _ _ _ _ Hs) as Hi'.
  destruct q as [t' i| | |]; [|done|done|]; simpl in Hpost.
  - destruct Hpost as (? & ? & r' & Hg' & ? & Hr' & ?). assert (Hin : member t ∈ order self') by (by apply ready_true; [apply Hi'|]).
    do 3 (split; [done|]). split; [|by exists r'].
    destruct (order_live AUTH self' (member t) Hi' Hin) as (r2 & _ & _ & _ & ?). done.
  - destruct Hpost as (r' & Hg' & _ & Hr' & Hh'). split; [|done]. intros Hin. apply ready_true in Hin; [congruence|apply Hi'].
Qed.
End events.

(** ** Dials *)

Import Opening.

Section line.
Context {K I A S H P W : Type} `{EqDecision K} `{EqDecision I} {RS : RoundSet K (Rec I A) S}
  {RSL : RoundSetLaws K (Rec I A) S} {KM : KeyedMin K H} {KML : KeyedMinLaws K H} `{AverageLaws} `{SlotGenerationLaws}.
Context (AUTH : bool) (plan_new : A -> P).
Abbreviation Members := (Set_ S H).
Abbreviation Dials := (Dials.Dials K P).

(** C28. The dials wait in one line. The chain that is linked through the slots
    is a queue: it is the whole of the slots, in order, at first; it is one list
    and no other; a poll that submits takes the slot at its head, whose key
    becomes live, and leaves the rest; a poll that is deferred keeps the head and
    tries the same target and plan again; and a slot whose attempt ends goes to
    the end, also while the line is held by a deferred attempt. *)
Theorem line_is_fifo (ds : Dials) (m : Members) q : books AUTH ds m -> due ds -> queued ds q -> line (Dials.records ds) q ->
  (forall q', queued ds q' -> q' = q)
  /\ (forall now e (submit : Id -> P -> Attempt P W) o m' ds', Dials.poll AUTH plan_new ds m now e submit = Ok (o, m', ds') ->
       match o with
       | OSubmitted => exists i q1 d, q = i :: q1 /\ queued ds' q1 /\ Dials.records ds !! i = Some d
            /\ is_Some (Dials.active_of ds' (Dials.key_of d))
       | ODeferred key _ => exists i q1 d h, q = i :: q1 /\ queued ds' q /\ Dials.records ds !! i = Some d /\ key = Dials.key_of d
            /\ Dials.ready ds' = Dials.Deferred h
            /\ (forall h0, Dials.ready ds = Dials.Deferred h0 -> Dials.h_target h = Dials.h_target h0)
       | _ => True
       end)
  /\ (forall O key b (update : Target K -> O) o ds', generation key < GEN_MAX ->
       Dials.recycle ds key b (fun t => Ok (update t)) = Ok (Some o, ds') -> queued ds' (q ++ [index key])).
Proof.
  intros Hb Hdue Hq Hl. split; [intros q' Hq'; by eapply queued_unique|]. split.
  - intros now e submit o m' ds' E. destruct (poll_spec (W := W) AUTH plan_new ds m now e submit Hb Hdue) as (o2 & m2 & ds2 & E2 & _ & _ & _ & _ & Hp).
    rewrite E in E2. injection E2 as <- <- <-.
    assert (Hdial : forall m1 c t p, (Dials.ready ds = Dials.Open (Some c) \/ Dials.ready ds = Dials.Deferred (Dials.held c t p)) ->
      dialled AUTH (Dials.with_ready ds (Dials.Open None)) m1 c t p submit o ds' m' ->
      (forall h0, Dials.ready ds = Dials.Deferred h0 -> t = Dials.h_target h0) ->
      match o with
       | OSubmitted => exists i q1 d, q = i :: q1 /\ queued ds' q1 /\ Dials.records ds !! i = Some d
            /\ is_Some (Dials.active_of ds' (Dials.key_of d))
       | ODeferred key _ => exists i q1 d h, q = i :: q1 /\ queued ds' q /\ Dials.records ds !! i = Some d /\ key = Dials.key_of d
            /\ Dials.ready ds' = Dials.Deferred h
            /\ (forall h0, Dials.ready ds = Dials.Deferred h0 -> Dials.h_target h = Dials.h_target h0)
       | _ => True
       end).
    { intros m1 c t p Hr (d & Hf & Hd) Ht. simpl in Hf.
      assert (Hc : chained (Dials.records ds) (Some c) q).
      { unfold queued in Hq. by destruct Hr as [Hr|Hr]; rewrite Hr in Hq. }
      assert (Hq1 : exists q1, q = Dials.front c :: q1).
      { destruct q as [|i q1]; [by destruct Hc as (_ & ? & _)|]. exists q1. destruct Hc as (_ & Hh & _). simpl in Hh. congruence. }
      destruct Hq1 as [q1 ->]. destruct (submit (Dials.key_of d) p) as [|cause p'|error].
      - destruct Hd as (-> & _ & Hact & Hpop). exists (Dials.front c), q1, d. split; [done|]. destruct (Hpop q1 Hc Hl) as [? _].
        split; [done|]. split; [done|]. by eexists.
      - destruct Hd as (-> & _ & Er & Hr'). exists (Dials.front c), q1, d, (Dials.held c t p'). split; [done|].
        split; [unfold queued; rewrite Hr', Er; exact Hc|]. split; [done|]. split; [done|]. split; [done|]. exact Ht.
      - destruct Hd as (_ & _ & _ & ->). destruct error as [|e0|w]; simpl; try done; by destruct (_ =? 0). }
    unfold polled in Hp. destruct (Dials.ready ds) as [[c|]|h|c] eqn:Hr.
    + destruct Hp as (sel & m1 & _ & Hsel). destruct sel as [t a| |at_|]; [|by destruct Hsel as (-> & _)..|].
      * eapply Hdial; [by left|exact Hsel|by intros].
      * destruct Hsel as (_ & _ & _ & Ho). by destruct o.
    + by destruct Hp as (-> & _).
    + eapply (Hdial m (Dials.h_chain h) (Dials.h_target h) (Dials.plan h)); [right; by destruct h|exact Hp|]. by intros h0 [= ->].
    + destruct Hp as (_ & _ & ->). destruct c as [[k x]|]; [|done]. by destruct (Dials.needs_poll ds).
  - intros O key b update o ds' Hg E. pose proof (recycle_spec ds key b (fun t => Ok (update t)) (bk_dials _ _ _ Hb)) as Hr.
    destruct (Dials.active_of ds key) as [k|]; [|by rewrite E in Hr]. destruct Hr as (t & Ht & Hr).
    destruct (Hr _ eq_refl) as (ds2 & E2 & _ & _ & Happ). rewrite E in E2. injection E2 as _ <-. by apply Happ.
Qed.
End line.

(** ** The scan for retirements *)

Section scan.
Import Sync Slot.
Implicit Types (sc : Scan) (cap : Table.Capacity).

(** [n] calls of [next] in a row. *)
Fixpoint sweep (n : nat) sc : list SlotIndex * Scan :=
  match n with
  | O => ([], sc)
  | S n => let '(o, sc1) := scan_next sc in let '(l, sc2) := sweep n sc1 in (option_list o ++ l, sc2)
  end.
(** The slot [j] steps after position [a] of a table of [c] entries. *)
Definition around (c a : Z) (j : nat) : SlotIndex := from_field ((a + Z.of_nat j) mod c).

Lemma around_next cap a j : capacity_ok cap -> 0 < Table.count cap ->
  default ZERO (Table.next cap (around (Table.count cap) a j)) = around (Table.count cap) a (S j).
Proof.
  unfold capacity_ok. rewrite SLOT_MASK_value. intros Hc Hpos. set (c := Table.count cap) in *. unfold around. set (q := a + Z.of_nat j).
  assert (Hq : 0 <= q mod c < c) by (by apply Z.mod_pos_bound).
  unfold Table.next. fold c. rewrite from_field_small by (rewrite SLOT_MASK_value; lia). replace (a + Z.of_nat (S j)) with (q + 1) by lia.
  rewrite <- Zplus_mod_idemp_l. destruct (Z.ltb_spec (q mod c + 1) c); simpl.
  - by rewrite (Z.mod_small (q mod c + 1)) by lia.
  - replace (q mod c + 1) with c by lia. rewrite Z_mod_same_full. apply raw_inj. by rewrite from_field_small.
Qed.
Lemma sweep_from cap a n : capacity_ok cap -> 0 < Table.count cap -> forall j m, Z.of_nat n <= m ->
  sweep n (scan (around (Table.count cap) a j) (if m =? 0 then None else Some (cap, m)))
  = (map (around (Table.count cap) a) (seq j n),
     scan (around (Table.count cap) a (j + n)) (if m - Z.of_nat n =? 0 then None else Some (cap, m - Z.of_nat n))).
Proof.
  intros Hc Hpos. induction n as [|n IH]; intros j m Hm; [by rewrite Nat.add_0_r, Z.sub_0_r|].
  cbn [sweep]. unfold scan_next. simpl remaining. destruct (Z.eqb_spec m 0); [lia|]. simpl Sync.next.
  rewrite around_next by done. rewrite IH by lia. replace (m - 1 - Z.of_nat n) with (m - Z.of_nat (S n)) by lia.
  by replace (j + S n)%nat with (S j + n)%nat by lia.
Qed.
Lemma around_inj cap a i j : capacity_ok cap -> Z.of_nat i < Table.count cap -> Z.of_nat j < Table.count cap ->
  around (Table.count cap) a i = around (Table.count cap) a j -> i = j.
Proof.
  unfold capacity_ok, around. set (c := Table.count cap). intros Hc Hi Hj E. apply (f_equal raw) in E.
  pose proof (Z.mod_pos_bound (a + Z.of_nat i) c ltac:(lia)). pose proof (Z.mod_pos_bound (a + Z.of_nat j) c ltac:(lia)).
  rewrite !from_field_small in E by lia.
  pose proof (Z.div_mod (a + Z.of_nat i) c ltac:(lia)). pose proof (Z.div_mod (a + Z.of_nat j) c ltac:(lia)).
  assert ((a + Z.of_nat i) / c = (a + Z.of_nat j) / c) by nia. nia.
Qed.
(** The steps of a full lap reach every slot of the table and no other. *)
Lemma lap_covers cap a s : capacity_ok cap -> RoutesFacts.slot_ok s -> 0 <= a < Table.count cap ->
  s ∈ map (around (Table.count cap) a) (seq 0 (Z.to_nat (Table.count cap))) <-> Table.contains cap s = true.
Proof.
  unfold capacity_ok, RoutesFacts.slot_ok, Table.contains, around. set (c := Table.count cap). intros Hc Hs Ha.
  rewrite list_elem_of_In, in_map_iff, Z.ltb_lt. split.
  - intros (j & <- & _). pose proof (Z.mod_pos_bound (a + Z.of_nat j) c ltac:(lia)). rewrite from_field_small by lia. lia.
  - intros Hlt. pose proof (Z.mod_pos_bound (raw s - a) c ltac:(lia)).
    exists (Z.to_nat ((raw s - a) mod c)). split; [|apply in_seq; lia]. rewrite Z2Nat.id by lia.
    rewrite Zplus_mod_idemp_r. replace (a + (raw s - a)) with (raw s) by lia. rewrite Z.mod_small by lia. by apply from_field_of.
Qed.

(** A retirement scan covers its table. From any slot of the table, a scan
    that is armed, again or for the first time, yields in as many calls as the
    table has entries every slot of it exactly once, cyclically from the current
    one; it is pending until then, and not after; and it ends where it began, so
    that the next one starts there. A scan armed over an empty table is over at
    once. *)
Theorem retirement_scan_covers sc cap n : capacity_ok cap -> RoutesFacts.slot_ok (Sync.next sc) ->
  (0 < Table.count cap -> Table.contains cap (Sync.next sc) = true) -> (n <= Z.to_nat (Table.count cap))%nat ->
  let '(l, sc') := sweep n (arm sc cap) in
  l = map (around (Table.count cap) (raw (Sync.next sc))) (seq 0 n) /\ NoDup l
  /\ scan_is_pending sc' = negb (n =? Z.to_nat (Table.count cap))%nat
  /\ (n = Z.to_nat (Table.count cap) -> (forall s, RoutesFacts.slot_ok s -> s ∈ l <-> Table.contains cap s = true)
       /\ Sync.next sc' = Sync.next sc /\ scan_next sc' = (None, sc')).
Proof.
  intros Hc Hs Hin Hn. pose proof Hc as Hc'. unfold capacity_ok in Hc'. set (c := Table.count cap) in *. set (a := raw (Sync.next sc)).
  assert (Hend : forall sc', remaining sc' = None -> scan_next sc' = (None, sc')) by (intros sc'; unfold scan_next; by intros ->).
  destruct (Z.eqb_spec c 0) as [Hz|Hz].
  { assert (n = O) as -> by lia. unfold arm. fold c. rewrite Hz. simpl. split; [done|]. split; [constructor|]. split; [done|].
    intros _. split; [|split; [done|by apply Hend]]. intros s Hs'. unfold Table.contains, RoutesFacts.slot_ok in *. fold c. rewrite Hz.
    split; [by intros ?%elem_of_nil|]. intros ?%Z.ltb_lt. lia. }
  assert (Ha : 0 <= a < c) by (unfold Table.contains in Hin; rewrite Z.ltb_lt in Hin; unfold RoutesFacts.slot_ok in Hs; unfold a; fold c in Hin; lia).
  assert (Hcur : forall j, (j = O \/ Z.of_nat j = c) -> around c a j = Sync.next sc).
  { intros j Hj. unfold around. assert ((a + Z.of_nat j) mod c = a) as ->; [|by apply from_field_of].
    destruct Hj as [-> | ->]; [rewrite Z.add_0_r|rewrite <- (Z.mul_1_l c) at 1; rewrite Z_mod_plus_full]; by apply Z.mod_small. }
  assert (Hnd : NoDup (map (around c a) (seq 0 n))).
  { apply NoDup_fmap_2_strong; [|apply NoDup_seq]. intros i j Hi%elem_of_seq Hj%elem_of_seq. apply around_inj; [done|fold c; lia..]. }
  assert (Harm : arm sc cap = scan (around c a 0) (if c =? 0 then None else Some (cap, c))) by (rewrite Hcur by (by left); done).
  rewrite Harm. unfold c. rewrite sweep_from by (fold c; lia || done). fold c.
  split; [done|]. split; [done|]. split.
  { unfold scan_is_pending. simpl. destruct (Z.eqb_spec (c - Z.of_nat n) 0), (Nat.eqb_spec n (Z.to_nat c)); try lia; done. }
  intros ->. rewrite Z2Nat.id by lia. rewrite Z.sub_diag. simpl. split; [intros s Hs'; by apply lap_covers|].
  split; [apply Hcur; right; lia|by apply Hend].
Qed.
Lemma retirement_scan_covers_witness :
  sweep 3 (arm (scan (from_field 1) None) (Table.capacity 3))
  = ([from_field 1; from_field 2; from_field 0], scan (from_field 1) None)
  /\ NoDup [from_field 1; from_field 2; from_field 0].
Proof.
  assert (Hc : capacity_ok (Table.capacity 3)) by (vm_compute; split; congruence).
  assert (Hs : RoutesFacts.slot_ok (from_field 1)) by apply from_field_ok.
  pose proof (retirement_scan_covers (scan (from_field 1) None) (Table.capacity 3) 3 Hc Hs ltac:(done) ltac:(vm_compute; lia)) as Hw.
  split; [done|]. apply Hw.
Defined.
End scan.

(** ** The demand of a gate *)

Section demand.
Import Discover Pool.
Context {K I A S H P Opt D R St Tok : Type} `{EqDecision K} `{EqDecision I} {RS : RoundSet K (Rec I A) S}
  {RSL : RoundSetLaws K (Rec I A) S} {KM : KeyedMin K H} {KML : KeyedMinLaws K H} `{AverageLaws}
  `{SlotGenerationLaws} `{Sync.Policy R St} `{Demand D I Tok}.
Context (N : nat).
Abbreviation AUTH := (Sync.AUTHORITATIVE (R := R)).
Abbreviation GatePool := (Pool.Pool S H K P Opt (Gate D) St).
Implicit Types (p : GatePool).

(** A gate's demand settles. [set_demand] opens the gate exactly when its
    source is needed and gives each member of the snapshot the demand that the
    source has for its endpoint, and no other member: right after it the pool is
    no longer stale. Turns, retries, claims and the dials' slots stay as they
    are, and the retirement scan is armed exactly when the gate closed or a
    member lost its retention. *)
Theorem demand_settles p tok cap : pinv (R := R) N p ->
  let f := demanded_by (source (feedback p)) tok in
  let needed := is_needed (source (feedback p)) tok in
  let p' := set_demand (R := R) p tok cap in
  pinv (R := R) N p' /\ is_stale p' tok = false /\ is_enabled (feedback p') = needed
  /\ (forall k, MembersFacts.get (membership p') k = demanded f <$> MembersFacts.get (membership p) k)
  /\ order (membership p') = order (membership p) /\ (forall k, heap (membership p') k = heap (membership p) k)
  /\ (AUTH = false -> forall k, owed (membership p') k = owed (membership p) k)
  /\ Dials.records (dials p') = Dials.records (dials p)
  /\ exists w, (w = true <-> exists k r, MembersFacts.get (membership p) k = Some r /\ withdraws f r = true)
     /\ retirements p' = retirements (if (is_enabled (feedback p) && negb needed) || w then arm_scan (R := R) p cap else p).
Proof.
  intros Hp f needed p'. destruct (set_demand_pinv (R := R) N p tok cap Hp) as [Ha Hst].
  pose proof (set_demand_spec AUTH (membership p) f (bk_members _ _ _ (so_books _ _ Hp))) as Hs.
  split; [apply Ha|]. split; [exact Hst|]. clear Ha Hst.
  destruct (Members.set_demand (membership p) f) as [w m'] eqn:Em. destruct Hs as (Hc & Hord & Hheap & _ & Hget & Hw).
  set (p2 := with_membership (with_feedback p (gate_set (feedback p) needed)) m').
  set (armed := is_enabled (feedback p) && negb needed || w). set (p3 := if armed then arm_scan (R := R) p2 cap else p2).
  assert (Hp' : p' = refresh (R := R) p3).
  { unfold p3, p', armed, set_demand. change (membership (with_feedback p _)) with (membership p).
    change (demanded_by (source (feedback (with_feedback p _))) tok) with f. by rewrite Em. }
  assert (E : dials p3 = dials p /\ membership p3 = m' /\ feedback p3 = gate_set (feedback p) needed
    /\ retirements p3 = retirements (if armed then arm_scan (R := R) p cap else p)).
  { unfold p3. destruct armed; [|done]. destruct (arm_scan_same p2 cap) as (-> & -> & ->). do 3 (split; [done|]).
    unfold arm_scan. change (retirements p2) with (retirements p). by destruct (Sync.st_scan _) as [[s put]|]. }
  destruct E as (E1 & E2 & E3 & E4). rewrite Hp'. unfold refresh. simpl. rewrite E1, E2, E3, E4.
  split; [done|]. split; [exact Hget|]. split; [exact Hord|]. split; [exact Hheap|].
  split; [intros HA k; rewrite (c_owed _ _ _ _ Hc k HA); lia|].
  split; [by destruct (refresh_fields (dials p) (is_present (R := R) p3)) as (-> & _)|]. by exists w.
Qed.
End demand.
