(* ===== verification/PoolExamples.v ===== *)
(** * A pool at work.

    One concrete pool, over the executable tables of [Round.Cells]: two
    connections, at most four endpoints, endpoints and addresses that are
    numbers. The theorems about pools are applied along its history. *)

From stdpp Require Import gmap.
From S2P Require Import Prelude Depot Time Health Round Members MembersFacts ReconcileFacts SnapshotFacts.
From S2P Require Import Routes RoutesFacts Dials DialsFacts Pool PoolFacts PoolRuns PoolLaws.
Import Record_ Members Opening Sync Discover Close Pool.

#[local] Existing Instances Cells.cell_set Cells.cell_set_laws Cells.map_min Cells.map_min_laws
  Cells.wide_generation Cells.wide_generation_laws Concrete.average_floor Concrete.average_floor_laws.

Abbreviation CellSet := (Cells.Table (Rec nat nat)).
Abbreviation MapHeap := (gmap nat Z).
Abbreviation ToyPool := (Pool.Pool CellSet MapHeap nat nat unit (Notify unit) Frozen).
Abbreviation toy_event := (event nat nat nat unit unit unit).

Definition toy_plan (a : nat) (_ : unit) : nat := a.
Definition toy_backoff : Health.Backoff := Health.backoff (Health.plan 1000 8000) 1.
Definition toy_new : ToyPool := pool_new (I := nat) (A := nat) (R := Preserve) 4 2 toy_backoff tt notify_new.
Definition toy_set (r : Z) (l : list nat) : Service.Snapshot nat nat :=
  Service.snapshot r ((fun i => Service.endpoint i (100 + i)%nat) <$> l).
Definition toy_table : Table.Capacity := Table.capacity 8.
Definition accept : Id -> nat -> Attempt nat unit := fun _ _ => Submitted.
Definition refuse : Id -> nat -> Attempt nat unit := fun _ p => Deferred DCapacity p.
(** The history of the toy pool with policy [Preserve]. *)
Abbreviation toy_history es := (history (R := Preserve) (X := unit) (W := unit) toy_plan 4 toy_new es).
Definition toy_after (es : list toy_event) : ToyPool := match toy_history es with Ok p => p | _ => toy_new end.
Abbreviation toy_reachable p := (reachable (R := Preserve) (X := unit) (Tok := unit) (W := unit) toy_plan 4 2 p).

(** Two endpoints, the first dialled and connected, the second deferred. *)
Definition busy : list toy_event :=
  [TrySync (toy_set 1 [7; 8]%nat) toy_table; Poll 10 tt accept; Attach (Opening.id 0 1) tt; Poll 20 tt refuse].
(** The first attempt fails for good. *)
Definition broken : list toy_event :=
  [TrySync (toy_set 1 [7; 8]%nat) toy_table; Poll 10 tt accept; Kill (Opening.id 0 1) (Some Identity)].

Ltac toy_fits := repeat (apply Forall_cons; split; [simpl; (lia || done)|]); apply Forall_nil_2.

Lemma toy_pinv : pinv (R := Preserve) 4 toy_new.
Proof. apply (pool_new_inv (P := nat) (F := Notify unit) (R := Preserve) 4 2). lia. Qed.
Lemma toy_reach es : Forall (fits 4) es -> toy_reachable (toy_after es).
Proof.
  intros Hes. exists toy_backoff, tt, notify_new, es. split; [lia|]. split; [done|].
  destruct (history_pinv (R := Preserve) (X := unit) (Tok := unit) (W := unit) toy_plan 4 es toy_new toy_pinv Hes) as (p & E & _).
  unfold toy_after. by rewrite E.
Qed.
Lemma toy_after_pinv es : Forall (fits 4) es -> pinv (R := Preserve) 4 (toy_after es).
Proof. intros Hes. by apply (reachable_pinv (X := unit) (Tok := unit) (W := unit) toy_plan 4 2), toy_reach. Qed.
Lemma busy_fits : Forall (fits 4) busy.
Proof. toy_fits. Qed.
Lemma broken_fits : Forall (fits 4) broken.
Proof. toy_fits. Qed.
Abbreviation busy_pool := (toy_after busy).
Abbreviation broken_pool := (toy_after broken).

(** ** Histories *)

Lemma pool_never_fails_witness : exists p, toy_history busy = Ok p /\ pinv (R := Preserve) 4 p.
Proof.
  apply (pool_never_fails (R := Preserve) toy_plan 4 2 toy_backoff tt notify_new busy); [lia|apply busy_fits].
Defined.
Lemma claims_are_dials_witness :
  claims_on (dials busy_pool) 0%nat = 1 /\ claims_on (dials busy_pool) 1%nat = 1
  /\ (forall k, owed (membership busy_pool) k = claims_on (dials busy_pool) k)
  /\ is_current busy_pool (Opening.id 0 1) = Some true.
Proof.
  destruct (claims_are_dials (R := Preserve) (W := unit) (Tok := unit) (X := unit) toy_plan 4 2 busy_pool (toy_reach busy busy_fits) eq_refl) as [Ho Hc].
  split; [by vm_compute|]. split; [by vm_compute|]. split; [exact Ho|]. apply (Hc _ 0%nat). by vm_compute.
Defined.
Lemma snapshot_finds_room_witness :
  (exists c p, try_sync (R := Preserve) 4 busy_pool (toy_set 2 [1; 2; 3; 4]%nat) toy_table = Ok (c, p))
  /\ revision (membership busy_pool) < 2.
Proof.
  assert (E : exists c p, try_sync (R := Preserve) 4 busy_pool (toy_set 2 [1; 2; 3; 4]%nat) toy_table = Ok (c, p)) by (do 2 eexists; by vm_compute).
  split; [exact E|]. destruct E as (c & p & E).
  pose proof (snapshot_finds_room (R := Preserve) (W := unit) (Tok := unit) (X := unit) toy_plan 4 2 busy_pool
    (toy_set 2 [1; 2; 3; 4]%nat) toy_table (toy_reach busy busy_fits) ltac:(simpl; lia) ltac:(done)) as Hs.
  rewrite E in Hs. apply Hs.
Defined.
Lemma late_events_ignored_witness : exists p1 p2,
  disconnect (R := Preserve) busy_pool (Opening.id 0 1) Protocol 30 = Ok p1
  /\ history (R := Preserve) (X := unit) (W := unit) toy_plan 4 p1 [Poll 40 tt accept] = Ok p2
  /\ disconnect (R := Preserve) p2 (Opening.id 0 1) Remote 50 = Ok p2 /\ is_current p2 (Opening.id 0 1) = None.
Proof.
  destruct (disconnect (R := Preserve) busy_pool (Opening.id 0 1) (Protocol : Reason unit) 30) as [p1| |] eqn:E1; [|by vm_compute in E1..].
  destruct (history (R := Preserve) (X := unit) (W := unit) toy_plan 4 p1 [Poll 40 tt accept]) as [p2| |] eqn:E2;
    [|vm_compute in E1; injection E1 as <-; by vm_compute in E2..].
  exists p1, p2. split; [done|]. split; [done|].
  destruct (late_events_ignored (R := Preserve) (W := unit) (Tok := unit) (X := unit) toy_plan 4 2 busy_pool p1 p2 [Poll 40 tt accept]
    (Opening.id 0 1) 0%nat Protocol (CState tt) 30 (toy_reach busy busy_fits)) as (Hd & _ & _ & _ & _ & _ & Hc).
  - by vm_compute.
  - by left.
  - toy_fits.
  - done.
  - by split.
Defined.
Lemma failure_reported_once_witness :
  Dials.ready (dials broken_pool) = Dials.Rejected (Some (Opening.id 0 1, Identity)) /\ is_pending broken_pool = true
  /\ exists p1, poll (R := Preserve) (E := unit) toy_plan broken_pool 20 tt accept = Ok (OFailed (Opening.id 0 1) FIdentityExhausted, p1)
     /\ exists p3, poll (R := Preserve) (E := unit) toy_plan p1 30 tt accept = Ok (OIdle, p3).
Proof.
  assert (Hr : Dials.ready (dials broken_pool) = Dials.Rejected (Some (Opening.id 0 1, Identity))) by (by vm_compute).
  split; [done|].
  pose proof (failure_reported_once (R := Preserve) (W := unit) (Tok := unit) (X := unit) toy_plan 4 2 broken_pool (Opening.id 0 1) Identity 20 tt accept
    (toy_reach broken broken_fits) Hr) as Hf.
  assert (Ha : Dials.active (dials broken_pool) = 0) by (by vm_compute). rewrite Ha in Hf. destruct Hf as (_ & Hp & p1 & E & Hlast).
  split; [done|]. exists p1. split; [exact E|]. apply (Hlast [] p1 30 tt accept); [constructor|done].
Defined.

(** ** Members *)

Abbreviation busy_members := (membership busy_pool).
Lemma busy_inv : inv false busy_members.
Proof. exact (bk_members _ _ _ (so_books _ _ (toy_after_pinv busy busy_fits))). Qed.

Lemma choice_takes_turns_witness : exists self1 sel self',
  choose false busy_members 30 (fun _ => true) = Ok (sel, self') /\ inv false self' /\ (sel = SelExhausted \/ selects false self1 self' (fun _ => true) sel).
Proof.
  destruct (choice_takes_turns false busy_members 30 (fun _ => true) busy_inv) as (self1 & sel & self' & E & Hi & _ & _ & Hs).
  - intros _ k. destruct k as [|[|k]]; [by vm_compute..|]. unfold owed, MembersFacts.get.
    change (rs_get (records busy_members) (Datatypes.S (Datatypes.S k))) with (Cells.residents (records busy_members) !! Datatypes.S (Datatypes.S k)).
    assert (En : Cells.residents (records busy_members) !! Datatypes.S (Datatypes.S k) = None); [|by rewrite En].
    apply eq_None_not_Some. intros Hk. apply (rs_entries_live (records busy_members) _ (i_ok _ _ busy_inv)) in Hk.
    change (rs_entries (records busy_members)) with (Cells.positions (records busy_members)) in Hk.
    assert (He : Cells.positions (records busy_members) = [Occupied 0; Occupied 1; Vacant; Vacant; Vacant; Vacant]%nat) by (by vm_compute).
    rewrite He, !elem_of_cons, elem_of_nil in Hk. clear -Hk. do 6 (destruct Hk as [Hk|Hk]; [discriminate|]). exact Hk.
  - exists self1, sel, self'. split; [exact E|]. split; [exact Hi|exact Hs].
Defined.
Lemma failure_counts_once_witness : exists u self' b',
  fail false busy_members (target 0%nat 1) toy_backoff 30 = Ok (u, self', b') /\ inv false self' /\ u = Members.Applied /\ owed self' 0%nat = 0.
Proof.
  destruct (failure_counts_once false busy_members (target 0%nat 1) toy_backoff 30 busy_inv) as (u & self' & b' & E & Hi & Ho & _).
  - intros _. by vm_compute.
  - exists u, self', b'. split; [done|]. split; [done|]. split; [by vm_compute in E; injection E as <- _ _|]. rewrite Ho by done. by vm_compute.
Defined.
Lemma connection_restores_member_witness : exists q self',
  recover busy_members (target 1%nat 0) (fun _ => true) = Ok (q, self') /\ inv false self' /\ get self' 0%nat = get busy_members 0%nat.
Proof.
  destruct (connection_restores_member (A := nat) false busy_members (target 1%nat 0) (fun _ => true) busy_inv) as (q & self' & E & Hi & _ & Hf & _).
  exists q, self'. split; [done|]. split; [done|]. by apply Hf.
Defined.

(** ** Dials *)

Lemma line_is_fifo_witness : let ds := dials toy_new in
  queued ds [0; 1]%nat /\ forall q, queued ds q -> q = [0; 1]%nat.
Proof.
  intros ds. destruct toy_pinv as [[Hb _] Hd].
  destruct (dials_new_spec (K := nat) (P := nat) 2) as (_ & _ & _ & Hq); [lia|].
  destruct (di_queue 0 ds (bk_dials _ _ _ Hb)) as (q & Hq' & Hl). rewrite (queued_unique ds _ _ Hq' Hq) in Hl.
  split; [exact Hq|]. apply (line_is_fifo (W := unit) false (fun a => a) ds (membership toy_new) [0; 1]%nat Hb Hd Hq Hl).
Defined.

(** ** A gated pool *)

#[local] Instance toy_demand : Demand nat nat unit := {|
  is_needed d _ := (0 <? d)%nat;
  d_is_eligible d i _ := (i <? d)%nat;
  d_is_retained d i _ := (i <? d)%nat;
|}.
Definition gated : Pool.Pool CellSet MapHeap nat nat unit (Gate nat) Scan :=
  pool_new (I := nat) (A := nat) (R := Replace) 4 2 toy_backoff tt (gate_new 8%nat).
Definition gated_after : Pool.Pool CellSet MapHeap nat nat unit (Gate nat) Scan :=
  match try_sync (R := Replace) 4 gated (toy_set 1 [7; 8]%nat) toy_table with Ok (_, p) => p | _ => gated end.
Lemma gated_pinv : pinv (R := Replace) 4 gated_after.
Proof.
  destruct (pool_new_inv (I := nat) (A := nat) (P := nat) (F := Gate nat) (R := Replace) 4 2 toy_backoff tt (gate_new 8%nat)) as [Hp _]; [lia|].
  pose proof (try_sync_pinv (R := Replace) 4 gated (toy_set 1 [7; 8]%nat) toy_table Hp ltac:(simpl; lia)) as Hs.
  unfold gated_after. destruct (try_apply _ _ _ _) as [[c m]| |]; [|by rewrite Hs|done]. by destruct Hs as (p & -> & [? _] & _).
Qed.
Lemma demand_settles_witness :
  is_stale gated_after tt = true /\ is_stale (set_demand (R := Replace) gated_after tt toy_table) tt = false
  /\ is_enabled (feedback (set_demand (R := Replace) gated_after tt toy_table)) = true
  /\ is_pending (set_demand (R := Replace) gated_after tt toy_table) = true.
Proof.
  destruct (demand_settles (R := Replace) 4 gated_after tt toy_table gated_pinv) as (_ & Hs & He & _).
  split; [by vm_compute|]. split; [exact Hs|]. split; [exact He|by vm_compute].
Defined.
