(* ===== verification/Resident.v ===== *)
(** * Minimum heaps with residents, as an interface.

    Deadline books keep one entry per connection in
    [o3::depot::heap::resident::Min], a minimum heap addressed by an exact key,
    whose entries carry a resident beside their priority. It is not part of this
    repository: here are its operations, what the books rely on, what follows
    for a book whose priorities are the least of its residents' deadlines, and a
    concrete heap. *)

From stdpp Require Import gmap.
From S2P Require Import Prelude.

(** A priority is an instant, and a rank that breaks ties; [before] is the
    derived order [<] of such a pair. *)
Class Priority (P : Type) := { p_at : P -> Z; p_rank : P -> Z }.
Definition before {P} `{Priority P} (p q : P) : bool :=
  (p_at p <? p_at q) || ((p_at p =? p_at q) && (p_rank p <? p_rank q)).

Section before.
Context {P : Type} `{Priority P}.
Implicit Types (p q r : P).
Lemma before_spec p q : before p q = true <-> p_at p < p_at q \/ p_at p = p_at q /\ p_rank p < p_rank q.
Proof. unfold before. rewrite orb_true_iff, andb_true_iff, !Z.ltb_lt, Z.eqb_eq. done. Qed.
Lemma before_not p q : before p q = false <-> p_at q < p_at p \/ p_at q = p_at p /\ p_rank q <= p_rank p.
Proof. rewrite <- not_true_iff_false, before_spec. lia. Qed.
Lemma before_irrefl p : before p p = false.
Proof. apply before_not. lia. Qed.
Lemma before_not_trans p q r : before q p = false -> before r q = false -> before r p = false.
Proof. rewrite !before_not. lia. Qed.
Lemma before_total p q : before p q = true -> before q p = false.
Proof. rewrite before_spec, before_not. lia. Qed.
End before.

(** What [entry(key)] finds at the key's position: the entry of this key,
    nothing, or the entry of another key. *)
Inductive Found (R P : Type) := Occupied (r : R) (p : P) | Vacant | Conflict.
Arguments Occupied {R P}.
Arguments Vacant {R P}.
Arguments Conflict {R P}.

(** [resident::Min<K, P, R>]. [rm_new] is [try_repeat], [rm_entry] the lookup,
    [rm_first] is [peek] and [first_entry_if]. On an entry: [rm_update] is
    [update], for a vacant and for an occupied one, [rm_put] writes through
    [resident_mut], [rm_set] changes the priority, [rm_retire] is [retire] and
    [remove], [rm_reinsert] is [Removed::reinsert], [rm_clear] is [clear]. Keys
    are those of the positions the heap has. *)
Class ResidentMin (K R P M : Type) := {
  rm_new : Z -> R -> M;
  rm_entry : M -> K -> Found R P;
  rm_first : M -> option (K * P);
  rm_update : M -> K -> R * P -> (R -> R * P) -> M;
  rm_put : M -> K -> R -> M;
  rm_set : M -> K -> P -> M;
  rm_retire : M -> K -> M;
  rm_reinsert : M -> K -> R -> P -> M;
  rm_clear : M -> K -> R -> M;
}.
Definition rm_get {K R P M} `{ResidentMin K R P M} (m : M) (k : K) : option (R * P) :=
  match rm_entry m k with Occupied r p => Some (r, p) | _ => None end.

(** What one operation does to the entries of a heap, that of [k] being [o]
    after it. *)
Record writes {K R P M} `{EqDecision K} `{ResidentMin K R P M} (ok : M -> Prop) (m : M) (k : K) (o : option (R * P))
    (m' : M) : Prop := {
  wr_ok : ok m';
  wr_here : rm_get m' k = o;
  wr_other x : x <> k -> rm_get m' x = rm_get m x;
  wr_free : rm_entry m' k <> Conflict;
}.
Arguments wr_ok {K R P M _ _ ok m k o m'}.
Arguments wr_here {K R P M _ _ ok m k o m'}.
Arguments wr_other {K R P M _ _ ok m k o m'}.
Arguments wr_free {K R P M _ _ ok m k o m'}.

(** The promise. [rm_ok] holds of the heaps a sequence of operations yields,
    [rm_keys] are the keys that have an entry. Nothing is promised for an
    operation on a key in conflict. *)
Class ResidentMinLaws (K R P M : Type) `{EqDecision K} `{Priority P} `{ResidentMin K R P M} := {
  rm_ok : M -> Prop;
  rm_keys : M -> list K;
  rm_keys_NoDup m : rm_ok m -> NoDup (rm_keys m);
  rm_keys_get m k : rm_ok m -> k ∈ rm_keys m <-> is_Some (rm_get m k);
  rm_first_None m : rm_ok m -> rm_first m = None -> forall k, rm_get m k = None;
  rm_first_Some m k p : rm_ok m -> rm_first m = Some (k, p) ->
    (exists r, rm_get m k = Some (r, p)) /\ forall k' r' p', rm_get m k' = Some (r', p') -> before p' p = false;
  rm_news n r : 0 <= n -> rm_ok (rm_new n r) /\ forall k, rm_entry (rm_new n r) k = Vacant;
  rm_updates m k v f : rm_ok m -> rm_entry m k <> Conflict ->
    writes rm_ok m k (Some match rm_get m k with Some (r, _) => f r | None => v end) (rm_update m k v f);
  rm_puts m k r0 p r : rm_ok m -> rm_get m k = Some (r0, p) -> writes rm_ok m k (Some (r, p)) (rm_put m k r);
  rm_sets m k r p0 p : rm_ok m -> rm_get m k = Some (r, p0) -> writes rm_ok m k (Some (r, p)) (rm_set m k p);
  rm_retires m k : rm_ok m -> is_Some (rm_get m k) -> writes rm_ok m k None (rm_retire m k);
  rm_reinserts m k r p : rm_ok m -> rm_get m k = None -> rm_entry m k <> Conflict ->
    writes rm_ok m k (Some (r, p)) (rm_reinsert m k r p);
  rm_clears m k r : rm_ok m -> rm_entry m k <> Conflict -> writes rm_ok m k None (rm_clear m k r);
}.

(** ** Books of deadlines *)

(** The first of the cells [cell t], as a loop over [t] finds it. *)
Section first.
Context {T P : Type} `{Priority P} (cell : T -> option P).
Definition first_step (o : option P) (t : T) : option P :=
  match cell t with
  | None => o
  | Some e => match o with
              | None => Some e
              | Some c => if before e c then Some e else o
              end
  end.
Lemma first_of l : forall o,
  match fold_left first_step l o with
  | Some p => (o = Some p \/ exists t, t ∈ l /\ cell t = Some p)
      /\ forall q, (o = Some q \/ exists t, t ∈ l /\ cell t = Some q) -> before q p = false
  | None => o = None /\ forall t, t ∈ l -> cell t = None
  end.
Proof.
  induction l as [|t l IH]; intros o; simpl.
  - destruct o as [p|]; [|split; [done|]; by intros t ?%elem_of_nil].
    split; [by left|]. intros q [[= ->]|(t & ?%elem_of_nil & _)]; [apply before_irrefl|done].
  - specialize (IH (first_step o t)).
    assert (Hstep : match first_step o t with
      | Some p => (o = Some p \/ cell t = Some p) /\ forall q, (o = Some q \/ cell t = Some q) -> before q p = false
      | None => o = None /\ cell t = None end).
    { unfold first_step. destruct (cell t) as [e|], o as [c|]; [|naive_solver (apply before_irrefl)..|done].
      destruct (before e c) eqn:E; [|naive_solver (apply before_irrefl)].
      split; [by right|]. intros q [[= ->]|[= ->]]; [by apply before_total|apply before_irrefl]. }
    destruct (fold_left first_step l (first_step o t)) as [p|].
    + destruct IH as [Hp Hmin]. split.
      * destruct Hp as [Hp|(t' & ? & ?)]; [|set_solver]. rewrite Hp in Hstep. set_solver.
      * intros q Hq. destruct (first_step o t) as [p1|] eqn:Ef.
        -- destruct Hstep as [_ Hs]. pose proof (Hmin p1 (or_introl eq_refl)) as H1.
           destruct Hq as [Hq|(t' & [->|Ht]%elem_of_cons & Hq)]; [| |apply Hmin; right; by exists t'];
             (eapply before_not_trans; [exact H1|apply Hs; by auto]).
        -- destruct Hstep as [-> Ht0]. destruct Hq as [Hq|(t' & [->|Ht]%elem_of_cons & Hq)]; [done|congruence|].
           apply Hmin. right. by exists t'.
    + destruct IH as [E Hn]. rewrite E in Hstep. destruct Hstep as [-> Ht]. split; [done|]. intros t' [->|?]%elem_of_cons; auto.
Qed.
End first.

(** A lane: a resident that holds the instants of some kinds of deadlines.
    [l_cell] is the instant of a kind, [l_due] its priority, [l_next] the first;
    [l_empty] is the lane of [l_ok] that has none. *)
Class Lanes (C R P : Type) := {
  l_cell : R -> C -> option Z;
  l_due : C -> Z -> P;
  l_next : R -> option P;
  l_ok : R -> Prop;
  l_empty : R;
}.
Class LanesLaws (C R P : Type) `{EqDecision C} `{Priority P} `{Lanes C R P} := {
  l_due_at c t : p_at (l_due c t) = t;
  l_due_inj c t c' t' : l_due c t = l_due c' t' -> c = c';
  l_due_order c t c' t' : before (l_due c t) (l_due c' t') = false -> before (l_due c' t') (l_due c t) = false -> c = c' /\ t = t';
  l_empty_next : l_next l_empty = None;
  l_empty_only r : l_ok r -> l_next r = None -> r = l_empty;
  l_next_spec r : match l_next r with
                  | Some p => (exists c t, l_cell r c = Some t /\ p = l_due c t)
                      /\ forall c t, l_cell r c = Some t -> before (l_due c t) p = false
                  | None => forall c, l_cell r c = None
                  end;
}.

Section books.
Context {C K R P M : Type} `{EqDecision K} `{EqDecision C} `{Priority P} `{RM : !ResidentMin K R P M}
  `{RML : !ResidentMinLaws K R P M} `{L : !Lanes C R P} `{LL : !LanesLaws C R P}.
Implicit Types (m : M) (k : K) (r : R) (p q : P) (c : C) (f : C -> option Z).

(** The priority of every entry is the first of its lane. *)
Record keeps m : Prop := {
  kp_ok : rm_ok m;
  kp_first k r p : rm_get m k = Some (r, p) -> l_next r = Some p;
  kp_lane k r p : rm_get m k = Some (r, p) -> l_ok r;
}.
(** The lane a book holds for [k]: the book as a map. *)
Definition held m k : R := match rm_get m k with Some (r, _) => r | None => l_empty end.
(** The instant a book holds for a kind of deadline of [k]. *)
Definition due_at m k c : option Z := match rm_get m k with Some (r, _) => l_cell r c | None => None end.
(** An operation on [k] leaves it the lane [r], and the other keys theirs. *)
Record becomes m k r m' : Prop := {
  bc_keeps : keeps m';
  bc_here : held m' k = r;
  bc_other x : x <> k -> held m' x = held m x;
  bc_free : rm_entry m' k <> Conflict;
}.
(** The same of its deadlines. *)
Record edited m k f m' : Prop := {
  ed_keeps : keeps m';
  ed_here c : due_at m' k c = f c;
  ed_other x c : x <> k -> due_at m' x c = due_at m x c;
  ed_free : rm_entry m' k <> Conflict;
}.

Lemma due_at_held m k c : due_at m k c = l_cell (held m k) c.
Proof.
  unfold due_at, held. destruct (rm_get m k) as [[r p]|]; [done|]. pose proof (l_next_spec (C := C) l_empty) as Hs.
  by rewrite l_empty_next, Hs in *.
Qed.
Lemma becomes_edited m k r m' : becomes m k r m' -> edited m k (l_cell r) m'.
Proof.
  intros [? Hh Ho ?]. split; [done|..|done].
  - intros c. by rewrite due_at_held, Hh.
  - intros x c Hx. by rewrite !due_at_held, Ho.
Qed.
Lemma edited_ext m k f g m' : edited m k f m' -> (forall c, f c = g c) -> edited m k g m'.
Proof. intros [? Hh ? ?] He. split; [done| |done..]. intros c. by rewrite Hh, He. Qed.
Lemma becomes_refl m k : keeps m -> rm_entry m k <> Conflict -> becomes m k (held m k) m.
Proof. by split. Qed.
Lemma edited_refl m k : keeps m -> rm_entry m k <> Conflict -> edited m k (due_at m k) m.
Proof. by split. Qed.
Lemma keeps_held m k : keeps m -> l_ok l_empty -> l_ok (held m k).
Proof. intros Hm He. unfold held. destruct (rm_get m k) as [[r p]|] eqn:E; [by apply (kp_lane m Hm k r p)|done]. Qed.

Lemma keeps_new n r : 0 <= n -> keeps (rm_new n r) /\ (forall k, held (rm_new n r) k = l_empty)
  /\ forall k, rm_entry (rm_new n r) k = Vacant.
Proof.
  intros Hn. destruct (rm_news n r Hn) as [Hok Hv].
  assert (Hg : forall k, rm_get (rm_new n r) k = None) by (intros k; unfold rm_get; by rewrite Hv).
  split; [split; [done|..]|].
  - intros k r0 p. by rewrite Hg.
  - intros k r0 p. by rewrite Hg.
  - split; [|done]. intros k. unfold held. by rewrite Hg.
Qed.
(** An entry whose priority is its first deadline keeps a book. *)
Lemma becomes_writes m k o m' : keeps m -> writes rm_ok m k o m' -> (forall r p, o = Some (r, p) -> l_next r = Some p /\ l_ok r) ->
  becomes m k (match o with Some (r, _) => r | None => l_empty end) m'.
Proof.
  intros Hm Hw Ho. assert (Hall : forall x r p, rm_get m' x = Some (r, p) -> l_next r = Some p /\ l_ok r).
  { intros x r p Hx. destruct (decide (x = k)) as [->|Hne].
    - apply Ho. by rewrite <- Hx, (wr_here Hw).
    - rewrite (wr_other Hw x Hne) in Hx. split; [by apply (kp_first m Hm) in Hx|by apply (kp_lane m Hm) in Hx]. }
  split; [split; [apply Hw|by apply Hall|by apply Hall]| | |apply Hw].
  - unfold held. by rewrite (wr_here Hw).
  - intros x Hx. unfold held. by rewrite (wr_other Hw x Hx).
Qed.

Lemma entry_get m k r p : rm_entry m k = Occupied r p <-> rm_get m k = Some (r, p).
Proof. unfold rm_get. destruct (rm_entry m k); naive_solver. Qed.
(** The order of two writes to one key does not matter to the others. *)
Lemma writes_trans m k o1 o2 m1 m2 : writes rm_ok m k o1 m1 -> writes rm_ok m1 k o2 m2 -> writes rm_ok m k o2 m2.
Proof.
  intros H1 H2. split; [apply H2|apply H2| |apply H2]. intros x Hx. by rewrite (wr_other H2 x Hx), (wr_other H1 x Hx).
Qed.

(** [update]: [v] for a vacant position, [f] for an occupied one. *)
Lemma update_becomes m k (v : R * P) (g : R -> R * P) r p : keeps m -> rm_entry m k <> Conflict ->
  match rm_get m k with Some (r0, _) => g r0 | None => v end = (r, p) -> l_next r = Some p -> l_ok r ->
  becomes m k r (rm_update m k v g).
Proof.
  intros Hm Hc E Hn Hl. pose proof (rm_updates m k v g (kp_ok m Hm) Hc) as Hw. rewrite E in Hw.
  apply (becomes_writes m k _ _ Hm Hw). by intros r' p' [= <- <-].
Qed.
(** A lane that is written back under its next deadline, or retired. *)
Definition recommit m k r : M :=
  let m := rm_put m k r in
  match l_next r with Some d => rm_set m k d | None => rm_retire m k end.
Lemma recommit_becomes m k r0 p0 r : keeps m -> rm_get m k = Some (r0, p0) -> l_ok r -> becomes m k r (recommit m k r).
Proof.
  intros Hm Hg Hl. pose proof (rm_puts m k r0 p0 r (kp_ok m Hm) Hg) as Hw. unfold recommit.
  pose proof (l_next_spec r) as Hn. destruct (l_next r) as [d|] eqn:E.
  - pose proof (rm_sets _ k r p0 d (wr_ok Hw) (wr_here Hw)) as Hs. pose proof (writes_trans _ _ _ _ _ _ Hw Hs) as Ht.
    apply (becomes_writes m k _ _ Hm Ht). by intros r' p' [= <- <-].
  - assert (Hsome : is_Some (rm_get (rm_put m k r) k)) by (rewrite (wr_here Hw); by eexists).
    pose proof (rm_retires _ k (wr_ok Hw) Hsome) as Hs. pose proof (writes_trans _ _ _ _ _ _ Hw Hs) as Ht.
    rewrite (l_empty_only r Hl E) at 1. by apply (becomes_writes m k _ _ Hm Ht).
Qed.
(** A kind that is cancelled and was not the first leaves the first in place. *)
Lemma put_becomes m k r0 c0 t0 r c : keeps m -> rm_get m k = Some (r0, l_due c0 t0) -> l_ok r ->
  (forall x, l_cell r x = if decide (x = c) then None else l_cell r0 x) -> c0 <> c ->
  becomes m k r (rm_put m k r).
Proof.
  intros Hm Hg Hl Hr Hne. pose proof (rm_puts m k r0 _ r (kp_ok m Hm) Hg) as Hw.
  apply (becomes_writes m k _ _ Hm Hw). intros r' p' [= <- <-]. split; [|done].
  pose proof (l_next_spec r0) as Hs. rewrite (kp_first m Hm k _ _ Hg) in Hs. destruct Hs as [(c1 & t1 & H1 & Ed) Hmin].
  pose proof (l_next_spec r) as Hs. pose proof (l_due_inj _ _ _ _ Ed) as <-.
  assert (E1 : t1 = t0) by (rewrite <- (l_due_at c0 t1), <- Ed; apply l_due_at). subst t1.
  assert (Hc0 : l_cell r c0 = Some t0) by (rewrite Hr, decide_False by done; done).
  destruct (l_next r) as [p|]; [|by rewrite Hs in Hc0]. destruct Hs as [(c2 & t2 & H2 & ->) Hmin2]. f_equal.
  rewrite Hr in H2. destruct (decide (c2 = c)); [done|]. destruct (l_due_order c2 t2 c0 t0) as [-> ->]; [by apply Hmin|by apply Hmin2|done].
Qed.
(** The first entry of a book is the first of all its deadlines. *)
Lemma first_least m : keeps m ->
  match rm_first m with
  | Some (k, p) => (exists r c t, rm_get m k = Some (r, p) /\ p = l_due c t /\ due_at m k c = Some t)
      /\ forall k' c t, due_at m k' c = Some t -> before (l_due c t) p = false
  | None => forall k c, due_at m k c = None
  end.
Proof.
  intros Hm. destruct (rm_first m) as [[k p]|] eqn:Hf.
  - destruct (rm_first_Some m k p (kp_ok m Hm) Hf) as ([r Hr] & Hmin). pose proof (kp_first m Hm k r p Hr) as Hn.
    pose proof (l_next_spec r) as Hs. rewrite Hn in Hs. destruct Hs as [(c & t & Hc & ->) _].
    split; [exists r, c, t; split; [done|]; split; [done|]; unfold due_at; by rewrite Hr|].
    intros k' c' t' Hd. unfold due_at in Hd. destruct (rm_get m k') as [[r' p']|] eqn:Hg; [|done].
    pose proof (l_next_spec r') as Hs. rewrite (kp_first m Hm k' r' p' Hg) in Hs.
    eapply before_not_trans; [by eapply Hmin|by apply Hs].
  - intros k c. unfold due_at. by rewrite (rm_first_None m (kp_ok m Hm) Hf).
Qed.
End books.

(** ** A concrete heap *)

Module Planes.
Section planes.
Context {R P : Type} `{Priority P}.
Abbreviation Key := (nat * Z)%type.
(** A position holds the generation of its key, the resident and the priority. *)
Abbreviation Plane := (gmap nat (Z * R * P)).
Implicit Types (m : Plane) (k : Key) (r : R) (p : P).

Definition entry m k : Found R P :=
  match m !! k.1 with
  | Some (g, r, p) => if decide (g = k.2) then Occupied r p else Conflict
  | None => Vacant
  end.
Definition at_key m k (o : option (R * P)) : Plane :=
  match o with Some (r, p) => <[k.1:=(k.2, r, p)]> m | None => delete k.1 m end.
Definition pairs m : list (Key * P) := (fun x => (x.1, x.2.1.1, x.2.2)) <$> map_to_list m.
Definition least (l : list (Key * P)) : option (Key * P) :=
  foldr (fun x o => match o with Some y => if before y.2 x.2 then Some y else Some x | None => Some x end) None l.

#[export] Instance plane_min : ResidentMin Key R P Plane := {|
  rm_new _ _ := ∅;
  rm_entry := entry;
  rm_first m := least (pairs m);
  rm_update m k v f := match entry m k with
                       | Occupied r _ => at_key m k (Some (f r))
                       | Vacant => at_key m k (Some v)
                       | Conflict => m
                       end;
  rm_put m k r := match entry m k with Occupied _ p => at_key m k (Some (r, p)) | _ => m end;
  rm_set m k p := match entry m k with Occupied r _ => at_key m k (Some (r, p)) | _ => m end;
  rm_retire m k := at_key m k None;
  rm_reinsert m k r p := at_key m k (Some (r, p));
  rm_clear m k _ := match entry m k with Occupied _ _ => at_key m k None | _ => m end;
|}.

Lemma get_plane m k : rm_get m k = match m !! k.1 with
  | Some (g, r, p) => if decide (g = k.2) then Some (r, p) else None | None => None end.
Proof. unfold rm_get. simpl. unfold entry. destruct (m !! k.1) as [[[g r] p]|]; [by destruct (decide _)|done]. Qed.
Lemma writes_at m k o : entry m k <> Conflict -> writes (fun _ => True) m k o (at_key m k o).
Proof.
  intros Hc. assert (Hh : rm_get (at_key m k o) k = o).
  { rewrite get_plane. destruct o as [[r p]|]; simpl; rewrite ?lookup_insert_eq, ?lookup_delete_eq; [by rewrite decide_True|done]. }
  split; [done|exact Hh| |].
  - intros x Hx. rewrite !get_plane. destruct (decide (x.1 = k.1)) as [E|Hne].
    + unfold entry in Hc. rewrite E. destruct x as [i g], k as [i' g']; simpl in *. subst i'.
      destruct (m !! i) as [[[g0 r0] p0]|] eqn:Hm.
      * destruct (decide (g0 = g')) as [->|]; [|done]. destruct (decide (g' = g)) as [->|Hg]; [congruence|].
        destruct o as [[r p]|]; simpl; rewrite ?lookup_insert_eq, ?lookup_delete_eq; [by destruct (decide (g' = g))|done].
      * destruct o as [[r p]|]; simpl; rewrite ?lookup_insert_eq, ?lookup_delete_eq; [destruct (decide (g' = g)); congruence|done].
    + destruct o as [[r p]|]; simpl; rewrite ?lookup_insert_ne, ?lookup_delete_ne by congruence; done.
  - simpl. unfold entry. destruct o as [[r p]|]; simpl; rewrite ?lookup_insert_eq, ?lookup_delete_eq; [by rewrite decide_True|done].
Qed.
Lemma least_in l : match least l with
  | Some x => x ∈ l /\ forall y, y ∈ l -> before y.2 x.2 = false
  | None => l = [] end.
Proof.
  induction l as [|x l IH]; simpl; [done|]. destruct (least l) as [y|].
  - destruct IH as [Hy Hmin]. destruct (before y.2 x.2) eqn:E.
    + split; [set_solver|]. intros z [->|Hz]%elem_of_cons; [by apply before_total|by apply Hmin].
    + split; [set_solver|]. intros z [->|Hz]%elem_of_cons; [by apply before_irrefl|].
      eapply before_not_trans; [exact E|by apply Hmin].
  - subst. split; [set_solver|]. intros z ->%list_elem_of_singleton. by apply before_irrefl.
Qed.
Lemma elem_pairs m k p : (k, p) ∈ pairs m <-> exists r, rm_get m k = Some (r, p).
Proof.
  unfold pairs. rewrite list_elem_of_fmap. setoid_rewrite get_plane. split.
  - intros ([i [[g r] p']] & E & Hi%elem_of_map_to_list). simpl in *. injection E as -> ->. simpl. rewrite Hi.
    exists r. by rewrite decide_True.
  - intros (r & E). destruct (m !! k.1) as [[[g r'] p']|] eqn:Hm; [|done]. destruct (decide (g = k.2)) as [->|]; [|done].
    injection E as -> ->. exists (k.1, (k.2, r, p)). split; [by destruct k|]. by apply elem_of_map_to_list.
Qed.
Lemma occupied_entry m k r p : rm_get m k = Some (r, p) -> entry m k = Occupied r p.
Proof. unfold rm_get. simpl. destruct (entry m k); congruence. Qed.

#[export] Instance plane_min_laws : ResidentMinLaws Key R P Plane.
Proof.
  refine {| rm_ok := fun _ => True; rm_keys := fun m => (pairs m).*1 |}.
  - intros m _. unfold pairs. rewrite <- list_fmap_compose. apply NoDup_fmap_2_strong; [|apply NoDup_map_to_list].
    intros [i [[g r] p]] [i' [[g' r'] p']] Hx%elem_of_map_to_list Hy%elem_of_map_to_list [= -> ->]. congruence.
  - intros m k _. rewrite list_elem_of_fmap. split.
    + intros ([k' p] & -> & Hk). apply elem_pairs in Hk as [r Hk]. by exists (r, p).
    + intros [[r p] Hk]. exists (k, p). split; [done|]. apply elem_pairs. by exists r.
  - intros m _ Hf k. simpl in Hf. pose proof (least_in (pairs m)) as Hl. rewrite Hf in Hl.
    destruct (rm_get m k) as [[r p]|] eqn:Hg; [|done].
    assert (Hin : (k, p) ∈ pairs m) by (apply elem_pairs; by exists r). rewrite Hl in Hin. by apply elem_of_nil in Hin.
  - intros m k p _ Hf. simpl in Hf. pose proof (least_in (pairs m)) as Hl. rewrite Hf in Hl. destruct Hl as [Hin Hmin].
    split; [by apply elem_pairs|]. intros k' r' p' Hg. apply (Hmin (k', p')), elem_pairs. by exists r'.
  - intros n r _. split; [done|]. intros k. simpl. unfold entry. by rewrite lookup_empty.
  - intros m k v f _ Hc. simpl in *. pose proof (writes_at m k) as Hw. unfold rm_get. simpl.
    destruct (entry m k); [by apply Hw..|done].
  - intros m k r0 p r _ Hg. apply occupied_entry in Hg. simpl. pose proof (writes_at m k) as Hw. rewrite Hg in *. by apply Hw.
  - intros m k r p0 p _ Hg. apply occupied_entry in Hg. simpl. pose proof (writes_at m k) as Hw. rewrite Hg in *. by apply Hw.
  - intros m k _ [[r p] Hg]. apply occupied_entry in Hg. apply writes_at. by rewrite Hg.
  - intros m k r p _ _ Hc. by apply writes_at.
  - intros m k r _ Hc. simpl in *. pose proof (writes_at m k None Hc) as Hw. destruct (entry m k) eqn:E; [exact Hw| |done].
    split; [done| |done|simpl; by rewrite E]. unfold rm_get. simpl. by rewrite E.
Defined.
End planes.
End Planes.
