(* ===== verification/Deadlines.v ===== *)
(** * Deadlines of connections.

    Model of the books that keep every deadline of every connection in one heap:
    [src/layer1/manifold/src/network/listener/writer/deadline.rs] with its policy
    from [listener/handler/mod.rs] (Module [Listener]), and
    [src/layer1/manifold/src/client/deadline] with its alarm and its turn from
    [client/conn/engine/liveness] (Modules [Book] and [Liveness]). A connection
    has one lane of deadlines, one per kind; the heap holds the lane as the
    resident of the connection's key, under its first deadline. *)

From S2P Require Import Prelude Depot Time Pool Resident.

(** ** Policy of a listener *)

Module Handler.
(** [Root], src/layer1/manifold/src/network/listener/handler/mod.rs:63-68. With
    [Timing], src/layer1/manifold/src/network/listener/handler/mod.rs:60-60. *)
Inductive Timing := Disabled | Timeout (delay : Z) | Managed.
(** [Termination], src/layer1/manifold/src/network/listener/handler/mod.rs:71-77. *)
Inductive Termination := Persistent | Graceful (absolute_age drain_timeout : Z).
(** [Lifetime], src/layer1/manifold/src/network/listener/handler/mod.rs:53-55. *)
Record Lifetime := lifetime { termination : Termination }.
(** [Lifetime::persistent], src/layer1/manifold/src/network/listener/handler/mod.rs:82-86. *)
Definition persistent : Lifetime := lifetime Persistent.
(** [Lifetime::graceful], src/layer1/manifold/src/network/listener/handler/mod.rs:88-95. *)
Definition graceful (age drain : Z) : Lifetime := lifetime (Graceful age drain).
(** [Timing::combine], src/layer1/manifold/src/network/listener/handler/mod.rs:116-124. *)
Definition combine (self other : Timing) : Timing :=
  match self, other with
  | Timeout l, Timeout r => Timeout (Z.min l r)
  | Timeout delay, _ | _, Timeout delay => Timeout delay
  | Managed, _ | _, Managed => Managed
  | Disabled, Disabled => Disabled
  end.
(** [Timing::delay], src/layer1/manifold/src/network/listener/handler/mod.rs:126-131. *)
Definition delay (self : Timing) : option Z :=
  match self with Timeout delay => Some delay | Disabled | Managed => None end.
(** [Timing::is_managed], src/layer1/manifold/src/network/listener/handler/mod.rs:133-135. *)
Definition is_managed (self : Timing) : bool := match self with Disabled => false | _ => true end.
(** [Deadline], src/layer1/manifold/src/network/listener/handler/mod.rs:145-149. *)
Inductive Deadline := Ensure (since : Z) | Arm (at_ : Z) | Clear.
End Handler.

(** ** The schedule of a listener *)

Module Listener.

(** [Kind], src/layer1/manifold/src/network/listener/writer/deadline.rs:39-45. *)
Inductive Kind := Inbound | Send | Absolute | Drain | Application.
#[export] Instance kind_dec : EqDecision Kind.
Proof. solve_decision. Defined.
(** [Kind::COUNT], src/layer1/manifold/src/network/listener/writer/deadline.rs:48-48. *)
Definition COUNT : nat := 5.
(** [Kind::ALL], src/layer1/manifold/src/network/listener/writer/deadline.rs:49-55. *)
Definition ALL : list Kind := [Inbound; Send; Absolute; Drain; Application].
(** [Kind::index], src/layer1/manifold/src/network/listener/writer/deadline.rs:57-59. *)
Definition index (self : Kind) : nat :=
  match self with Inbound => 0 | Send => 1 | Absolute => 2 | Drain => 3 | Application => 4 end.

(** [Deadline], src/layer1/manifold/src/network/listener/writer/deadline.rs:32-35. *)
Record Deadline := deadline { at_ : Z; kind : Kind }.
#[export] Instance deadline_priority : Priority Deadline :=
  {| p_at := at_; p_rank d := Z.of_nat (index (kind d)) |}.

(** [Lane], src/layer1/manifold/src/network/listener/writer/deadline.rs:63-65. An
    array of [COUNT] cells, which [index] never leaves. *)
Record Lane := lane { deadlines : list (option Z) }.
Definition lane_at (self : Lane) (k : Kind) : option Z :=
  match deadlines self !! index k with Some o => o | None => None end.
Definition lane_put (self : Lane) (k : Kind) (o : option Z) : Lane := lane (<[index k:=o]> (deadlines self)).
(** [Lane::EMPTY], src/layer1/manifold/src/network/listener/writer/deadline.rs:68-70. *)
Definition EMPTY : Lane := lane (replicate COUNT None).
(** [Lane::next], src/layer1/manifold/src/network/listener/writer/deadline.rs:72-84,
    one turn of its loop. *)
Definition next_step (self : Lane) (next : option Deadline) (k : Kind) : option Deadline :=
  match lane_at self k with
  | None => next
  | Some at_ =>
      let armed := deadline at_ k in
      match next with
      | None => Some armed
      | Some current => if before armed current then Some armed else next
      end
  end.
(** [Lane::next], src/layer1/manifold/src/network/listener/writer/deadline.rs:72-84. *)
Definition next (self : Lane) : option Deadline := fold_left (next_step self) ALL None.
(** [Lane::set], src/layer1/manifold/src/network/listener/writer/deadline.rs:86-90. *)
Definition lane_set (self : Lane) (k : Kind) (at_ : Z) : Deadline * Lane :=
  let armed := deadline at_ k in
  let self := lane_put self k (Some at_) in
  (default armed (next self), self).

(** [Policy], src/layer1/manifold/src/network/listener/writer/deadline.rs:93-98. *)
Record Policy := policy { inbound : Z; send : Z; application : Handler.Timing; p_termination : Handler.Termination }.
(** [Schedule], src/layer1/manifold/src/network/listener/writer/deadline.rs:100-103. *)
Record Schedule (M : Type) := schedule { entries : M; s_policy : Policy }.
Arguments schedule {M}.
Arguments entries {M}.
Arguments s_policy {M}.
(** [Slot], src/layer1/manifold/src/network/listener/writer/deadline.rs:225-240. The
    key of its connection, and its schedule unless it is sealed. *)
Record Slot (K M : Type) := slot { key : K; s_schedule : option (Schedule M) }.
Arguments slot {K M}.
Arguments key {K M}.
Arguments s_schedule {K M}.
(** [Error], src/layer1/manifold/src/network/listener/conn/deadline.rs:9-13. *)
Inductive Error := Disabled | Sealed | Overflow (r : Clock.Range).

Section schedule.
Context {K M : Type} `{RM : !ResidentMin K Lane Deadline M} `{Average}.
Abbreviation Schedule := (Schedule M).
Abbreviation Slot := (Slot K M).

Definition with_entries (self : Schedule) (m : M) : Schedule := schedule m (s_policy self).

(** [Schedule::try_new], src/layer1/manifold/src/network/listener/writer/deadline.rs:106-120,
    when its allocation succeeds. The first two arguments are the constants of
    [timing::Policy]. *)
Definition schedule_new (IDLE_WINDOW SEND_DEADLINE cap : Z) (life : Handler.Lifetime) (times : Handler.Timing) : Schedule :=
  schedule (rm_new cap EMPTY) (policy IDLE_WINDOW SEND_DEADLINE times (Handler.termination life)).
(** [Schedule::earliest], src/layer1/manifold/src/network/listener/writer/deadline.rs:122-124. *)
Definition earliest (self : Schedule) : option Z := (fun x => at_ x.2) <$> rm_first (entries self).
(** [Schedule::drain], src/layer1/manifold/src/network/listener/writer/deadline.rs:126-134. *)
Definition drain (self : Schedule) : option Z :=
  match p_termination (s_policy self) with
  | Handler.Graceful _ drain => Some drain
  | Handler.Persistent => None
  end.
(** The entry of a key after a change of its lane: the next deadline of the
    lane, or none. *)
Definition commit (m : M) (k : K) (l : Lane) : M :=
  let m := rm_put m k l in
  match next l with Some d => rm_set m k d | None => rm_retire m k end.
(** [Schedule::pop], src/layer1/manifold/src/network/listener/writer/deadline.rs:136-155.
    [None] inside is the entry of a resident that is not there. *)
Definition pop (self : Schedule) (now : Z) : option (K * Kind) * Schedule :=
  match rm_first (entries self) with
  | Some (k, due) =>
      if negb (now <? at_ due) then
        match rm_entry (entries self) k with
        | Occupied l _ => (Some (k, kind due), with_entries self (commit (entries self) k (lane_put l (kind due) None)))
        | _ => (None, self)
        end
      else (None, self)
  | None => (None, self)
  end.

(** [Entry::open], src/layer1/manifold/src/network/listener/writer/deadline.rs:164-177. *)
Definition entry_open (m : M) (k : K) (idle : Z) (limit : option Z) : M :=
  let '(next, l) := lane_set EMPTY Inbound idle in
  let '(next, l) := match limit with Some limit => lane_set l Absolute limit | None => (next, l) end in
  rm_update m k (l, next) (fun _ => (l, next)).
(** [Entry::is_armed], src/layer1/manifold/src/network/listener/writer/deadline.rs:179-184. *)
Definition is_armed (m : M) (k : K) (kd : Kind) : bool :=
  match rm_entry m k with Occupied l _ => bool_decide (is_Some (lane_at l kd)) | _ => false end.
(** [Entry::arm_at], src/layer1/manifold/src/network/listener/writer/deadline.rs:186-200. *)
Definition arm_at (m : M) (k : K) (kd : Kind) (at_ : Z) : M :=
  let update := rm_update m k
    (let '(next, l) := lane_set EMPTY kd at_ in (l, next))
    (fun l => let '(next, l) := lane_set l kd at_ in (l, next)) in
  match rm_entry m k with
  | Occupied l _ => if bool_decide (lane_at l kd = Some at_) then m else update
  | _ => update
  end.
(** [Entry::cancel], src/layer1/manifold/src/network/listener/writer/deadline.rs:202-220. *)
Definition entry_cancel (m : M) (k : K) (kd : Kind) : M :=
  match rm_entry m k with
  | Occupied l p =>
      let l := lane_put l kd None in
      if bool_decide (kind p <> kd) then rm_put m k l else commit m k l
  | _ => m
  end.

(** [Slot::with], src/layer1/manifold/src/network/listener/writer/deadline.rs:430-444.
    What [run] answers, and the heap it leaves. *)
Definition with_ {O} (self : Slot) (sealed : O) (run : M -> K -> Policy -> O * M) : O * Slot :=
  match s_schedule self with
  | None => (sealed, self)
  | Some book =>
      let '(o, m) := run (entries book) (key self) (s_policy book) in
      (o, slot (key self) (Some (with_entries book m)))
  end.
Definition edit (self : Slot) (run : M -> K -> Policy -> M) : Slot :=
  (with_ self tt (fun m k p => (tt, run m k p))).2.
(** [Slot::sealed], src/layer1/manifold/src/network/listener/writer/deadline.rs:251-255. *)
Definition sealed (self : Slot) : Slot := slot (key self) None.

(** [Slot::open], src/layer1/manifold/src/network/listener/writer/deadline.rs:269-281. *)
Definition open (self : Slot) (now : Z) : Slot :=
  edit self (fun m k policy =>
    let idle := Clock.clamp_add now (inbound policy) in
    let limit := match p_termination policy with
                 | Handler.Graceful age _ => Some (Clock.clamp_add now age)
                 | Handler.Persistent => None
                 end in
    entry_open m k idle limit).
(** [Slot::is_due], src/layer1/manifold/src/network/listener/writer/deadline.rs:283-287. *)
Definition is_due (self : Slot) (now : Z) : bool :=
  (with_ self false (fun m k _ =>
    (match rm_entry m k with Occupied _ p => at_ p <=? now | _ => false end, m))).1.
(** [Slot::progress], src/layer1/manifold/src/network/listener/writer/deadline.rs:289-294. *)
Definition progress (self : Slot) (now : Z) : Slot :=
  edit self (fun m k policy => arm_at m k Inbound (Clock.clamp_add now (inbound policy))).
(** [Slot::ensure_send], src/layer1/manifold/src/network/listener/writer/deadline.rs:296-303. *)
Definition ensure_send (self : Slot) (now : Z) : Slot :=
  edit self (fun m k policy =>
    if negb (is_armed m k Send) then arm_at m k Send (Clock.clamp_add now (send policy)) else m).
(** [Slot::cancel_send], src/layer1/manifold/src/network/listener/writer/deadline.rs:305-309. *)
Definition cancel_send (self : Slot) : Slot := edit self (fun m k _ => entry_cancel m k Send).
(** [Slot::cancel_idle], src/layer1/manifold/src/network/listener/writer/deadline.rs:311-318.
    [clear] tells that the flow of the connection is [Flow::Clear]. *)
Definition cancel_idle (self : Slot) (clear : bool) : Slot := if clear then cancel_send self else self.
(** [Slot::try_ensure], src/layer1/manifold/src/network/listener/writer/deadline.rs:320-336. *)
Definition try_ensure (self : Slot) (now : Z) : run Error unit * Slot :=
  with_ self (Err Sealed) (fun m k policy =>
    match Handler.delay (application policy) with
    | None => (Err Disabled, m)
    | Some window =>
        if is_armed m k Application then (Ok tt, m)
        else match map_err Overflow (Clock.try_add now window) with
             | Ok at_ => (Ok tt, arm_at m k Application at_)
             | Err e => (Err e, m)
             | Stuck w => (Stuck w, m)
             end
    end).
(** [Slot::try_arm], src/layer1/manifold/src/network/listener/writer/deadline.rs:338-350. *)
Definition try_arm (self : Slot) (at_ : Z) : run Error unit * Slot :=
  with_ self (Err Sealed) (fun m k policy =>
    if negb (Handler.is_managed (application policy)) then (Err Disabled, m)
    else (Ok tt, arm_at m k Application at_)).
(** [Slot::cancel_app], src/layer1/manifold/src/network/listener/writer/deadline.rs:352-356. *)
Definition cancel_app (self : Slot) : Slot := edit self (fun m k _ => entry_cancel m k Application).
(** [Slot::apply], src/layer1/manifold/src/network/listener/writer/deadline.rs:358-389. *)
Definition apply (self : Slot) (update : Handler.Deadline) (now : Z) : run Error unit * Slot :=
  match update with
  | Handler.Ensure since =>
      with_ self (Err Sealed) (fun m k policy =>
        match Handler.delay (application policy) with
        | None => (Err Disabled, m)
        | Some window =>
            let stored := match rm_entry m k with Occupied l _ => lane_at l Application | _ => None end in
            match match stored with
                  | Some at_ => Ok at_
                  | None => map_err Overflow (Clock.try_add since window)
                  end with
            | Ok at_ => (Ok tt, arm_at m k Application (Z.max at_ now))
            | Err e => (Err e, m)
            | Stuck w => (Stuck w, m)
            end
        end)
  | Handler.Arm at_ => try_arm self (Z.max at_ now)
  | Handler.Clear => (Ok tt, cancel_app self)
  end.
(** [Slot::ensure_drain], src/layer1/manifold/src/network/listener/writer/deadline.rs:391-401. *)
Definition ensure_drain (self : Slot) (now drain : Z) : Slot :=
  edit self (fun m k _ =>
    if negb (is_armed m k Drain) then arm_at m k Drain (Clock.clamp_add now drain) else m).
(** [Slot::closing], src/layer1/manifold/src/network/listener/writer/deadline.rs:403-422. *)
Definition closing (self : Slot) (now : Z) : Slot :=
  edit self (fun m k policy =>
    let l := match rm_entry m k with
             | Occupied active _ =>
                 lane_put (lane_put EMPTY Send (lane_at active Send)) Drain (lane_at active Drain)
             | _ => EMPTY
             end in
    let at_ := match lane_at l Send with Some at_ => at_ | None => Clock.clamp_add now (send policy) end in
    let '(next, l) := lane_set l Send at_ in
    rm_update m k (l, next) (fun _ => (l, next))).
(** [Slot::clear], src/layer1/manifold/src/network/listener/writer/deadline.rs:424-428. *)
Definition clear (self : Slot) : Slot := edit self (fun m k _ => rm_clear m k EMPTY).
End schedule.
End Listener.

(** ** The book of a connector *)

Module Book.
Import Close.

Definition Kind := Close.Deadline.
#[export] Instance kind_dec : EqDecision Kind.
Proof. unfold Kind. solve_decision. Defined.
Definition rank (k : Kind) : Z := match k with DConnect => 0 | DInbound => 1 | DSend => 2 | DLifetime => 3 end.
(** [Fixed], src/layer1/manifold/src/client/deadline/mod.rs:14-18. *)
Inductive Fixed := Connect | Send | Lifetime.
#[export] Instance fixed_dec : EqDecision Fixed.
Proof. solve_decision. Defined.
(** [Fixed::COUNT], src/layer1/manifold/src/client/deadline/mod.rs:21-21. *)
Definition COUNT : nat := 3.
(** [Fixed::ALL], src/layer1/manifold/src/client/deadline/mod.rs:22-23. *)
Definition ALL : list Fixed := [Connect; Send; Lifetime].
(** [Fixed::index], src/layer1/manifold/src/client/deadline/mod.rs:25-27. *)
Definition index (self : Fixed) : nat := match self with Connect => 0 | Send => 1 | Lifetime => 2 end.
(** [Fixed::kind], src/layer1/manifold/src/client/deadline/mod.rs:29-35. *)
Definition fixed_kind (self : Fixed) : Kind :=
  match self with Connect => DConnect | Send => DSend | Lifetime => DLifetime end.

(** [Entry], src/layer1/manifold/src/client/deadline/book.rs:19-22. *)
Record Entry := entry { at_ : Z; kind : Kind }.
#[export] Instance entry_priority : Priority Entry := {| p_at := at_; p_rank e := rank (kind e) |}.
(** [Reception], src/layer1/manifold/src/client/deadline/book.rs:31-34. *)
Record Reception := reception_ { r_at : Z; since : Z }.
#[export] Instance reception_dec : EqDecision Reception.
Proof. solve_decision. Defined.
(** [Lane], src/layer1/manifold/src/client/deadline/book.rs:25-28. [fixed] is an
    array of [COUNT] cells, which [index] never leaves. *)
Record Lane := lane { fixed : list (option Z); reception : option Reception }.
Definition fixed_at (self : Lane) (k : Fixed) : option Z :=
  match fixed self !! index k with Some o => o | None => None end.
Definition fixed_put (self : Lane) (k : Fixed) (o : option Z) : Lane := lane (<[index k:=o]> (fixed self)) (reception self).
Definition with_reception (self : Lane) (r : option Reception) : Lane := lane (fixed self) r.
(** [Lane::EMPTY], src/layer1/manifold/src/client/deadline/book.rs:37-40. *)
Definition EMPTY : Lane := lane (replicate COUNT None) None.
(** [Lane::next], src/layer1/manifold/src/client/deadline/book.rs:42-60, one turn of
    its loop. *)
Definition next_step (self : Lane) (next : option Entry) (k : Fixed) : option Entry :=
  match fixed_at self k with
  | None => next
  | Some at_ =>
      let e := entry at_ (fixed_kind k) in
      match next with
      | None => Some e
      | Some n => if before e n then Some e else next
      end
  end.
(** [Lane::next], src/layer1/manifold/src/client/deadline/book.rs:42-60. *)
Definition next (self : Lane) : option Entry :=
  fold_left (next_step self) ALL ((fun recv => entry (r_at recv) DInbound) <$> reception self).
(** [Lane::set], src/layer1/manifold/src/client/deadline/book.rs:83-90. *)
Definition lane_set (self : Lane) (k : Fixed) (at_ : Z) : Entry * Lane :=
  let armed := entry at_ (fixed_kind k) in
  let self := fixed_put self k (Some at_) in
  (default armed (next self), self).
(** [Lane::cancel], src/layer1/manifold/src/client/deadline/book.rs:92-99. *)
Definition lane_cancel (self : Lane) (k : Kind) : Lane :=
  match k with
  | DConnect => fixed_put self Connect None
  | DInbound => with_reception self None
  | DSend => fixed_put self Send None
  | DLifetime => fixed_put self Lifetime None
  end.
(** [Lane::is_armed], src/layer1/manifold/src/client/deadline/book.rs:101-103. *)
Definition is_armed (self : Lane) (k : Fixed) : bool := bool_decide (is_Some (fixed_at self k)).
(** [Lane::recv_since], src/layer1/manifold/src/client/deadline/book.rs:105-117. *)
Definition recv_since (self : Lane) (now : Z) (seen : option Z) : Z :=
  match reception self with
  | Some recv => match seen with
                 | Some seen => if since recv <? seen then seen else since recv
                 | None => since recv
                 end
  | None => now
  end.
(** [Lane::arm_recv], src/layer1/manifold/src/client/deadline/book.rs:119-121. *)
Definition lane_arm_recv (self : Lane) (since at_ : Z) : Lane := with_reception self (Some (reception_ at_ since)).

(** [Rearm], src/layer1/manifold/src/client/deadline/book.rs:138-141. *)
Inductive Rearm := Future | RExpired.
(** [Expired], src/layer1/manifold/src/client/deadline/book.rs:130-132. An entry
    that is taken out of its book [x_book]. *)
Record Expired (K M : Type) := expired { x_key : K; x_entry : Entry; x_lane : Lane; x_book : M }.
Arguments expired {K M}.
Arguments x_key {K M}.
Arguments x_entry {K M}.
Arguments x_lane {K M}.
Arguments x_book {K M}.

Section book.
Context {K M : Type} `{RM : !ResidentMin K Lane Entry M} `{Average}.
Abbreviation Expired := (Expired K M).
(* The struct [Book] is its one field, the heap. *)
Abbreviation Book := M.

(** [Book::try_new], src/layer1/manifold/src/client/deadline/book.rs:144-148, when its
    allocation succeeds. *)
Definition book_new (capacity : Z) : Book := rm_new capacity EMPTY.
(** [Book::earliest], src/layer1/manifold/src/client/deadline/book.rs:150-152. *)
Definition earliest (self : Book) : option Z := (fun x => at_ x.2) <$> rm_first self.
(** [Book::pop_expired], src/layer1/manifold/src/client/deadline/book.rs:154-163. *)
Definition pop_expired (self : Book) (now : Z) : option Expired :=
  match rm_first self with
  | Some (k, e) =>
      if negb (now <? at_ e) then
        match rm_entry self k with
        | Occupied l _ => Some (expired k e l (rm_retire self k))
        | _ => None
        end
      else None
  | None => None
  end.

(** [Expired::classify], src/layer1/manifold/src/client/deadline/book.rs:171-181. *)
Definition classify {O} (self : Expired) (inbound : Expired -> O) (other : Expired -> Kind -> O) : O :=
  match kind (x_entry self) with
  | DInbound => inbound self
  | k => other self k
  end.
(** [Expired::clear], src/layer1/manifold/src/client/deadline/book.rs:184-186. The lane
    of an entry that is out of its book is of no use. *)
Definition expired_clear (self : Expired) : Book := x_book self.
(** [Expired::commit_next], src/layer1/manifold/src/client/deadline/book.rs:196-200. *)
Definition commit_next (self : Expired) (l : Lane) : Book :=
  match next l with Some n => rm_reinsert (x_book self) (x_key self) l n | None => x_book self end.
(** [Inbound::cancel_recv], src/layer1/manifold/src/client/deadline/book.rs:205-210. *)
Definition cancel_recv (self : Expired) : Book := commit_next self (with_reception (x_lane self) None).
(** [Inbound::rearm_recv], src/layer1/manifold/src/client/deadline/book.rs:215-232. *)
Definition rearm_recv (self : Expired) (now : Z) (seen : option Z) (window : Z) : Rearm * Book :=
  let since := recv_since (x_lane self) now seen in
  let at_ := Clock.clamp_add since window in
  if at_ <=? now then (RExpired, x_book self)
  else (Future, commit_next self (lane_arm_recv (x_lane self) since at_)).

(** [Lane::arm], src/layer1/manifold/src/client/deadline/book.rs:62-81. *)
Definition arm (self : Book) (k : K) (kd : Fixed) (t : Z) : Book :=
  rm_update self k (fixed_put EMPTY kd (Some t), entry t (fixed_kind kd))
    (fun l => let '(n, l) := lane_set l kd t in (l, n)).
(** [Slot::closing], src/layer1/manifold/src/client/deadline/book.rs:251-271. *)
Definition closing (self : Book) (k : K) (now window : Z) : Book :=
  let t := match match rm_entry self k with Occupied l _ => fixed_at l Send | _ => None end with
           | Some t => t
           | None => Clock.clamp_add now window
           end in
  let '(n, l) := lane_set EMPTY Send t in
  rm_update self k (l, n) (fun _ => (l, n)).
(** [Slot::arm_at], src/layer1/manifold/src/client/deadline/book.rs:368-371. *)
Definition arm_at (self : Book) (k : K) (kd : Fixed) (t : Z) : Book := arm self k kd t.
(** [Slot::arm_after], src/layer1/manifold/src/client/deadline/book.rs:273-280. *)
Definition arm_after (self : Book) (k : K) (kd : Fixed) (now window : Z) : Book :=
  arm_at self k kd (Clock.clamp_add now window).
(** [Slot::ensure_after], src/layer1/manifold/src/client/deadline/book.rs:282-298. *)
Definition ensure_after (self : Book) (k : K) (kd : Fixed) (now window : Z) : Book :=
  match rm_entry self k with
  | Occupied l _ => if is_armed l kd then self else arm self k kd (Clock.clamp_add now window)
  | _ => arm self k kd (Clock.clamp_add now window)
  end.
(** [Slot::cancel], src/layer1/manifold/src/client/deadline/book.rs:300-325. *)
Definition cancel (self : Book) (k : K) (kd : Kind) : Book :=
  match rm_entry self k with
  | Occupied l p =>
      let l := lane_cancel l kd in
      let self := rm_put self k l in
      if bool_decide (kind p <> kd) then self
      else match next l with Some n => rm_set self k n | None => rm_retire self k end
  | _ => self
  end.
(** [Slot::arm_inbound], src/layer1/manifold/src/client/deadline/book.rs:327-361. *)
Definition arm_inbound (self : Book) (k : K) (now : Z) (seen : option Z) (window : Z) : Book :=
  let since := match rm_entry self k with Occupied l _ => recv_since l now seen | _ => now end in
  let t := Clock.clamp_add since window in
  let deadline := entry t DInbound in
  let update := rm_update self k (lane_arm_recv EMPTY since t, deadline)
    (fun l => let l := lane_arm_recv l since t in (l, default deadline (next l))) in
  match rm_entry self k with
  | Occupied l _ => if bool_decide (reception l = Some (reception_ t since)) then self else update
  | _ => update
  end.
(** [Slot::clear], src/layer1/manifold/src/client/deadline/book.rs:363-366. *)
Definition clear (self : Book) (k : K) : Book := rm_clear self k EMPTY.
End book.
End Book.

(** ** Its alarm and its turn *)

Module Liveness.
Import Close Book.

(** [Deadlines], src/layer1/manifold/src/client/conn/engine/liveness/mod.rs:44-47. The
    alarm as its holder sees it. *)
Record Deadlines (M : Type) := deadlines { book : M; alarm : Alarm.State }.
Arguments deadlines {M}.
Arguments book {M}.
Arguments alarm {M}.
(** [Observation], src/layer1/manifold/src/client/conn/engine/liveness/mod.rs:49-55. *)
Inductive Observation := Quiescent | Awaiting (window seen : Z).
(** [Expiry], src/layer1/manifold/src/client/conn/engine/liveness/turn.rs:32-35. *)
Inductive Expiry (K : Type) := Ignore | Close (k : K) (kd : Kind).
Arguments Ignore {K}.
Arguments Close {K}.
(** [Deadline], src/layer1/manifold/src/client/conn/engine/transfer/send/deadline.rs:12-17. *)
Inductive SendDeadline := SNone | SEnsure | SProgress | SCancel.

Section liveness.
Context {K M : Type} `{RM : !ResidentMin K Lane Entry M} `{Average}.
Abbreviation Deadlines := (Deadlines M).
Definition with_book (self : Deadlines) (b : M) : Deadlines := deadlines b (alarm self).
Definition with_alarm (self : Deadlines) (a : Alarm.State) : Deadlines := deadlines (book self) a.

(** [Deadlines::try_new], src/layer1/manifold/src/client/conn/engine/liveness/mod.rs:147-155,
    when its heap and its alarm are granted. *)
Definition deadlines_new (capacity : Z) : Deadlines := deadlines (book_new (K := K) capacity) Alarm.Idle.
(** [Deadlines::poll], src/layer1/manifold/src/client/conn/engine/liveness/mod.rs:157-163. *)
Definition poll (self : Deadlines) (now : Z) : bool * Deadlines :=
  let '(ready, a) := Alarm.poll (alarm self) now in (ready, with_alarm self a).
(** [Deadlines::set], src/layer1/manifold/src/client/conn/engine/liveness/mod.rs:176-184. *)
Definition set (self : Deadlines) (deadline : option Z) : Deadlines :=
  match deadline with
  | Some deadline => with_alarm self (Alarm.arm (alarm self) deadline)
  | None => with_alarm self (Alarm.clear (alarm self))
  end.
(** [Deadlines::sync], src/layer1/manifold/src/client/conn/engine/liveness/mod.rs:165-174. *)
Definition sync (self : Deadlines) (before after : option Z) : Deadlines :=
  if bool_decide (before <> after) then set self after else self.
(** [State::rearm], src/layer1/manifold/src/client/conn/engine/liveness/mod.rs:135-138, without
    side connections: [earliest] is the book's. *)
Definition rearm (self : Deadlines) : Deadlines := set self (earliest (K := K) (book self)).
(** [Change::edit], src/layer1/manifold/src/client/conn/engine/liveness/change.rs:77-85, with
    [State::sync], src/layer1/manifold/src/client/conn/engine/liveness/mod.rs:140-143. *)
Definition edit (self : Deadlines) (f : M -> M) : Deadlines :=
  let before := earliest (K := K) (book self) in
  let self := with_book self (f (book self)) in
  sync self before (earliest (K := K) (book self)).
(** [Deadline::apply], src/layer1/manifold/src/client/conn/engine/transfer/send/deadline.rs:20-36. *)
Definition apply (d : SendDeadline) (self : Deadlines) (k : K) (now window : Z) : Deadlines :=
  match d with
  | SNone => self
  | SEnsure => edit self (fun b => ensure_after b k Send now window)
  | SProgress => edit self (fun b => arm_after b k Send now window)
  | SCancel => edit self (fun b => cancel b k DSend)
  end.

(** [Turn::expire_book], src/layer1/manifold/src/client/conn/engine/liveness/turn.rs:82-148, one
    step of its loop up to the close. [look] is what the pool and the application
    say of a key: no slot, a slot that is not active, or an observation. *)
Definition expire_step (self : Deadlines) (now : Z) (look : K -> option (option Observation))
    : option (Expiry K * Deadlines) :=
  match pop_expired (book self) now with
  | None => None
  | Some item =>
      let key := x_key item in
      let '(done, b) :=
        match look key with
        | Some watch =>
            classify item
              (fun item =>
                 match watch with
                 | None | Some Quiescent => (Ignore, cancel_recv item)
                 | Some (Awaiting window seen) =>
                     match rearm_recv item now (Some seen) window with
                     | (Future, b) => (Ignore, b)
                     | (RExpired, b) => (Close key DInbound, b)
                     end
                 end)
              (fun item kind => (Close key kind, expired_clear item))
        | None => (Ignore, expired_clear item)
        end in
      Some (done, with_book self b)
  end.
(** [refresh::run], src/layer1/manifold/src/client/conn/engine/liveness/refresh.rs:20-62. [look]:
    no slot, a slot whose close is sealed, one that is not active, or an observation. *)
Definition refresh (self : Deadlines) (k : K) (now : Z) (look : option (option (option Observation))) : Deadlines :=
  match look with
  | None => self
  | Some None => edit self (fun b => cancel b k DInbound)
  | Some (Some None) => self
  | Some (Some (Some Quiescent)) => edit self (fun b => cancel b k DInbound)
  | Some (Some (Some (Awaiting window seen))) => edit self (fun b => arm_inbound b k now (Some seen) window)
  end.
End liveness.

(** ** Retries of side connections *)

(** [Attempts], src/layer1/manifold/src/client/conn/engine/drive/cycle.rs:24-24. A [u8]. *)
Record Attempts := attempts_of { count : Z }.
(** [Attempts::INITIAL], src/layer1/manifold/src/client/conn/engine/drive/cycle.rs:27-27. *)
Definition INITIAL : Attempts := attempts_of 0.
(** [Attempts::MAX_SHIFT], src/layer1/manifold/src/client/conn/engine/drive/cycle.rs:28-28. *)
Definition MAX_SHIFT : Z := 10.
(** [Attempts::retry_millis], src/layer1/manifold/src/client/conn/engine/drive/cycle.rs:30-32. *)
Definition retry_millis (self : Attempts) : Z := wrap 64 (Z.shiftl 1 (count self)).
(** [Attempts::advance], src/layer1/manifold/src/client/conn/engine/drive/cycle.rs:41-45. *)
Definition advance (self : Attempts) : Attempts :=
  if count self <? MAX_SHIFT then attempts_of (count self + 1) else self.
Section attempts.
Context `{Average}.
(** [Attempts::defer], src/layer1/manifold/src/client/conn/engine/drive/cycle.rs:35-39. *)
Definition defer (self : Attempts) (now : Z) : Z * Attempts :=
  (Clock.clamp_add now (retry_millis self * (NANOS / 1000)), advance self).
End attempts.

(** [Transport], src/layer1/manifold/src/client/side/mode.rs:13-17. What side
    connections add to the state, with the state's own deadlines; the pool of side
    connections is seen through its earliest deadline, an argument. *)
Record Side (M : Type) := side { primary : Deadlines M; retry : option Z; attempts : Attempts }.
Arguments side {M}.
Arguments primary {M}.
Arguments retry {M}.
Arguments attempts {M}.
Section side.
Context {K M : Type} `{RM : !ResidentMin K Lane Entry M} `{Average}.
Abbreviation Side := (Side M).
Definition omin (a b : option Z) : option Z :=
  match a, b with Some x, Some y => Some (Z.min x y) | Some x, None => Some x | None, o => o end.
(** [earliest], src/layer1/manifold/src/client/conn/engine/liveness/mod.rs:210-221. [io] is the
    earliest deadline of the side connections. *)
Definition side_earliest (self : Side) (io : option Z) : option Z :=
  omin (omin (earliest (K := K) (book (primary self))) io) (retry self).
Definition with_retry (self : Side) (r : option Z) (a : Attempts) : Side := side (primary self) r a.
(** [State::sync], src/layer1/manifold/src/client/conn/engine/liveness/mod.rs:140-143. *)
Definition side_sync (self : Side) (io before : option Z) : Side :=
  side (sync (primary self) before (side_earliest self io)) (retry self) (attempts self).
(** [State::retry_ready], src/layer1/manifold/src/client/conn/engine/liveness/mod.rs:255-270. *)
Definition retry_ready (self : Side) (io : option Z) (now : Z) : bool * Side :=
  match retry self with
  | None => (true, self)
  | Some at_ =>
      if now <? at_ then (false, self)
      else
        let before := side_earliest self io in
        (true, side_sync (with_retry self None (attempts self)) io before)
  end.
(** [State::defer_retry], src/layer1/manifold/src/client/conn/engine/liveness/mod.rs:272-283. *)
Definition defer_retry (self : Side) (io : option Z) (now : Z) : Side :=
  match retry self with
  | Some _ => self
  | None =>
      let before := side_earliest self io in
      let '(at_, a) := defer (attempts self) now in
      side_sync (with_retry self (Some at_) a) io before
  end.
(** [State::resume_retry], src/layer1/manifold/src/client/conn/engine/liveness/mod.rs:292-300. *)
Definition resume_retry (self : Side) (io : option Z) : Side :=
  let self := with_retry self (retry self) INITIAL in
  match retry self with
  | None => self
  | Some _ =>
      let before := side_earliest self io in
      side_sync (with_retry self None (attempts self)) io before
  end.
(** [State::finish_retry], src/layer1/manifold/src/client/conn/engine/liveness/mod.rs:285-290. *)
Definition finish_retry (self : Side) (io : option Z) (deferred has_retries : bool) : Side :=
  if deferred || has_retries then self else resume_retry self io.
End side.
End Liveness.
