(* ===== verification/DeadlinesFacts.v ===== *)
(** * What the deadline books promise.

    Every operation of a listener's schedule and of a connector's book does to
    the deadlines of one connection exactly what it says, and nothing to the
    others; the first deadline is the least; deadlines fire in order, each once;
    and the alarm of a connector follows its book. *)

From Stdlib Require Import Sorted.
From stdpp Require Import gmap.
From S2P Require Import Prelude Depot Time Pool Resident Deadlines.

(** ** Lanes of a listener *)

Module ListenerFacts.
Import Listener.

Definition lane_ok (l : Lane) : Prop := length (deadlines l) = COUNT.
Lemma lane_at_put l k k' o : lane_ok l -> lane_at (lane_put l k o) k' = if decide (k' = k) then o else lane_at l k'.
Proof.
  unfold lane_ok, lane_at, lane_put. simpl. intros Hl. destruct (decide (k' = k)) as [->|Hne].
  - rewrite list_lookup_insert_eq; [done|]. rewrite Hl. destruct k; simpl; unfold COUNT; lia.
  - rewrite list_lookup_insert_ne; [done|]. by destruct k, k'.
Qed.
Lemma lane_put_ok l k o : lane_ok l -> lane_ok (lane_put l k o).
Proof. unfold lane_ok, lane_put. simpl. by rewrite length_insert. Qed.
Lemma EMPTY_ok : lane_ok EMPTY.
Proof. done. Qed.
Lemma EMPTY_at k : lane_at EMPTY k = None.
Proof. by destruct k. Qed.
Lemma elem_ALL k : k ∈ ALL.
Proof. destruct k; unfold ALL; set_solver. Qed.

(** What the loop of [next] looks at. *)
Definition cell (l : Lane) (k : Kind) : option Deadline := (fun t => deadline t k) <$> lane_at l k.
Lemma next_first l : next l = fold_left (first_step (cell l)) ALL None.
Proof.
  unfold next. generalize (@None Deadline). induction ALL as [|k ks IH]; intros o; simpl; [done|]. rewrite IH. f_equal.
  unfold next_step, first_step, cell. by destruct (lane_at l k).
Qed.
Lemma kind_of_index i : (i < COUNT)%nat -> exists k, index k = i.
Proof.
  unfold COUNT. intros Hi. destruct i as [|[|[|[|[|i]]]]]; [by exists Inbound|by exists Send|by exists Absolute|by exists Drain|by exists Application|lia].
Qed.
#[export] Instance lane_lanes : Lanes Kind Lane Deadline := {|
  l_cell := lane_at; l_due k t := deadline t k; l_next := next; l_ok := lane_ok;
  l_empty := EMPTY |}.
#[export] Instance lane_lanes_laws : LanesLaws Kind Lane Deadline.
Proof.
  split; [done|by intros ? ? ? ? [= _ ->]| |done|..].
  - intros c t c' t'. rewrite !before_not. simpl. intros ? ?. assert (t = t') as -> by lia. split; [|done].
    assert (index c = index c') as E by lia. by destruct c, c'.
  - intros r Hl Hn. rewrite next_first in Hn. pose proof (first_of (cell r) ALL None) as Hf. rewrite Hn in Hf. destruct Hf as [_ Hf].
    destruct r as [l]. simpl in *. unfold EMPTY. f_equal. apply list_eq. intros i. destruct (decide (i < COUNT)%nat) as [Hi|Hi].
    + rewrite lookup_replicate_2 by done. assert (exists k, index k = i) as [k <-] by (by apply kind_of_index).
      specialize (Hf k (elem_ALL k)). unfold cell, lane_at in Hf. simpl in *. unfold lane_ok in Hl. simpl in Hl.
      destruct (l !! index k) as [[t|]|] eqn:E; [done|done|]. apply lookup_ge_None in E. lia.
    + rewrite !(proj2 (lookup_ge_None _ _)); [done|rewrite length_replicate; lia|]. unfold lane_ok in Hl. simpl in Hl. lia.
  - intros r. simpl. rewrite next_first. pose proof (first_of (cell r) ALL None) as Hf. destruct (fold_left _ _ _) as [p|].
    + destruct Hf as [[|(k & _ & Hk)] Hmin]; [done|]. split.
      * unfold cell in Hk. destruct (lane_at r k) as [t|] eqn:Hl; [|done]. injection Hk as <-. by exists k, t.
      * intros c t Ht. apply Hmin. right. exists c. split; [apply elem_ALL|]. unfold cell. by rewrite Ht.
    + intros c. destruct Hf as [_ Hn]. specialize (Hn c (elem_ALL c)). unfold cell in Hn. by destruct (lane_at r c).
Qed.

Lemma lane_set_spec l k t : lane_ok l ->
  let '(n, l') := lane_set l k t in
  next l' = Some n /\ lane_ok l' /\ forall x, lane_at l' x = if decide (x = k) then Some t else lane_at l x.
Proof.
  intros Hl. unfold lane_set. set (l' := lane_put l k (Some t)).
  assert (Hat : forall x, lane_at l' x = if decide (x = k) then Some t else lane_at l x) by (intros x; by apply lane_at_put).
  split; [|split; [by apply lane_put_ok|exact Hat]].
  pose proof (l_next_spec l') as Hs. simpl in Hs. destruct (next l') as [p|]; [done|]. specialize (Hs k). rewrite Hat in Hs.
  by rewrite decide_True in Hs.
Qed.

Section ops.
Context {K M : Type} `{EqDecision K} `{RM : !ResidentMin K Lane Deadline M} `{RML : !ResidentMinLaws K Lane Deadline M} `{AverageLaws}.
Abbreviation Slot := (Slot K M).
Abbreviation edited := (edited (C := Kind) (R := Lane) (P := Deadline)).
Abbreviation keeps := (keeps (C := Kind) (K := K) (R := Lane) (P := Deadline)).
Abbreviation due_at := (due_at (C := Kind) (R := Lane) (P := Deadline)).
Implicit Types (m : M) (k : K) (s : Schedule M) (self : Slot).

Lemma commit_edited m k l0 p0 l : keeps m -> rm_get m k = Some (l0, p0) -> lane_ok l -> edited m k (lane_at l) (commit m k l).
Proof. intros Hm Hg Hl. exact (becomes_edited _ _ _ _ (recommit_becomes m k l0 p0 l Hm Hg Hl)). Qed.

(** One kind is armed at [t]. *)
Definition arms (f : Kind -> option Z) (kd : Kind) (o : option Z) : Kind -> option Z :=
  fun x => if decide (x = kd) then o else f x.

Lemma arm_at_edited m k kd t : keeps m -> rm_entry m k <> Conflict -> edited m k (arms (due_at m k) kd (Some t)) (arm_at m k kd t).
Proof.
  intros Hm Hc. unfold arm_at.
  assert (Hu : edited m k (arms (due_at m k) kd (Some t))
    (rm_update m k (let '(next, l) := lane_set EMPTY kd t in (l, next)) (fun l => let '(next, l) := lane_set l kd t in (l, next)))).
  { set (l0 := match rm_get m k with Some (l, _) => l | None => EMPTY end).
    assert (Hl0 : lane_ok l0) by (unfold l0; destruct (rm_get m k) as [[l p]|] eqn:E; [by apply (kp_lane m Hm k l p)|done]).
    pose proof (lane_set_spec l0 kd t Hl0) as Hs. destruct (lane_set l0 kd t) as [n l'] eqn:Es. destruct Hs as (Hn & Hl' & Hat).
    eapply edited_ext; [apply (becomes_edited _ _ l'), (update_becomes m k _ _ l' n Hm Hc); [|exact Hn|exact Hl']|].
    - unfold l0 in Es. destruct (rm_get m k) as [[l p]|]; by rewrite Es.
    - intros x. simpl. rewrite Hat. unfold arms, Resident.due_at, l0. destruct (decide (x = kd)); [done|].
      destruct (rm_get m k) as [[l p]|]; [done|apply EMPTY_at]. }
  destruct (rm_entry m k) as [l p| |] eqn:E; [|exact Hu..]. case_bool_decide as Hsame; [|exact Hu].
  eapply edited_ext; [by apply edited_refl; [|congruence]|]. intros x. unfold arms. destruct (decide (x = kd)) as [->|]; [|done].
  unfold Resident.due_at. apply entry_get in E. by rewrite E.
Qed.
Lemma cancel_edited m k kd : keeps m -> rm_entry m k <> Conflict -> edited m k (arms (due_at m k) kd None) (entry_cancel m k kd).
Proof.
  intros Hm Hc. unfold entry_cancel. destruct (rm_entry m k) as [l p| |] eqn:E; [|..].
  - apply entry_get in E. assert (Hl : lane_ok l) by (by apply (kp_lane m Hm k l p)).
    set (l' := lane_put l kd None). assert (Hl' : lane_ok l') by (by apply lane_put_ok).
    assert (Hat : forall x, lane_at l' x = if decide (x = kd) then None else lane_at l x) by (intros x; by apply lane_at_put).
    assert (Hd : forall x, lane_at l' x = arms (due_at m k) kd None x).
    { intros x. rewrite Hat. unfold arms, Resident.due_at. by rewrite E. }
    case_bool_decide as Hne.
    + eapply edited_ext; [|exact Hd]. destruct p as [t0 c0]. simpl in Hne.
      exact (becomes_edited _ _ _ _ (put_becomes m k l c0 t0 l' kd Hm E Hl' Hat Hne)).
    + eapply edited_ext; [by apply (commit_edited m k l p)|exact Hd].
  - eapply edited_ext; [by apply edited_refl; [|congruence]|]. intros x. unfold arms, Resident.due_at, rm_get. rewrite E.
    by destruct (decide _).
  - done.
Qed.
Lemma is_armed_due m k kd : is_armed m k kd = bool_decide (is_Some (due_at m k kd)).
Proof.
  unfold is_armed, Resident.due_at, rm_get. destruct (rm_entry m k); [done|..]; symmetry; by apply bool_decide_eq_false, is_Some_None.
Qed.
(** A lane given whole. *)
Lemma whole_edited m k l n : keeps m -> rm_entry m k <> Conflict -> next l = Some n -> lane_ok l ->
  edited m k (lane_at l) (rm_update m k (l, n) (fun _ => (l, n))).
Proof. intros Hm Hc Hn Hl. refine (becomes_edited m k l _ (update_becomes m k _ _ l n Hm Hc _ Hn Hl)). by destruct (rm_get m k) as [[? ?]|]. Qed.

(** [self'] is [self] with the deadlines [f] in its schedule [s]. *)
Definition shows s self (f : Kind -> option Z) self' : Prop :=
  key self' = key self /\ exists m, s_schedule self' = Some (with_entries s m) /\ edited (entries s) (key self) f m.
Lemma with_shows {O} s self (sealed : O) run f o : s_schedule self = Some s ->
  edited (entries s) (key self) f (run (entries s) (key self) (s_policy s)).2 ->
  (run (entries s) (key self) (s_policy s)).1 = o ->
  (with_ self sealed run).1 = o /\ shows s self f (with_ self sealed run).2.
Proof.
  intros Hs He Ho. unfold with_. rewrite Hs. destruct (run _ _ _) as [o' m]. simpl in *. split; [done|]. split; [done|]. by exists m.
Qed.
Lemma edit_shows s self run f : s_schedule self = Some s ->
  edited (entries s) (key self) f (run (entries s) (key self) (s_policy s)) -> shows s self f (edit self run).
Proof. intros Hs He. unfold edit. by apply (with_shows s self tt _ f tt Hs). Qed.

(** The deadlines of a listener's connection are exact. On a schedule whose
    entries stand under their first deadlines, each operation leaves exactly these
    deadlines to its connection, keeps every other connection's, and keeps the
    schedule so: opening sets the idle bound and, for a graceful lifetime, the
    absolute one, and no other; progress moves the idle bound; a send bound and a
    drain bound are set unless they are there; closing keeps the drain bound and
    the send bound, which it sets if there is none, and drops the others; clearing
    drops all; and the connection is due exactly when one of its deadlines is. *)
Theorem listener_deadlines_exact s self now drain : s_schedule self = Some s -> keeps (entries s) ->
  rm_entry (entries s) (key self) <> Conflict ->
  let d := due_at (entries s) (key self) in
  let p := s_policy s in
  shows s self (fun kd => match kd with
      | Inbound => Some (Clock.clamp_add now (inbound p))
      | Absolute => match p_termination p with Handler.Graceful age _ => Some (Clock.clamp_add now age) | _ => None end
      | _ => None end) (open self now)
  /\ shows s self (arms d Inbound (Some (Clock.clamp_add now (inbound p)))) (progress self now)
  /\ shows s self (arms d Send (Some (default (Clock.clamp_add now (send p)) (d Send)))) (ensure_send self now)
  /\ shows s self (arms d Send None) (cancel_send self)
  /\ shows s self (arms d Drain (Some (default (Clock.clamp_add now drain) (d Drain)))) (ensure_drain self now drain)
  /\ shows s self (fun kd => match kd with
      | Send => Some (default (Clock.clamp_add now (send p)) (d Send)) | Drain => d Drain | _ => None end) (closing self now)
  /\ shows s self (fun _ => None) (clear self)
  /\ (is_due self now = true <-> exists kd t, d kd = Some t /\ t <= now).
Proof.
  intros Hs Hm Hc d p.
  assert (Hensure : forall kd t, edited (entries s) (key self) (arms d kd (Some (default t (d kd))))
    (if negb (is_armed (entries s) (key self) kd) then arm_at (entries s) (key self) kd t else entries s)).
  { intros kd t. rewrite is_armed_due. fold d. case_bool_decide as Hk; simpl.
    - eapply edited_ext; [by apply edited_refl|]. intros x. fold d. unfold arms. destruct Hk as [t0 Hk].
      destruct (decide (x = kd)) as [->|]; [by rewrite Hk|done].
    - apply eq_None_not_Some in Hk. rewrite Hk. by apply arm_at_edited. }
  split; [|split; [|split; [|split; [|split; [|split; [|split]]]]]].
  - apply edit_shows; [done|]. unfold entry_open. pose proof (lane_set_spec EMPTY Inbound (Clock.clamp_add now (inbound p)) EMPTY_ok) as H1.
    fold p. destruct (lane_set EMPTY Inbound _) as [n1 l1]. destruct H1 as (Hn1 & Ho1 & Ha1).
    destruct (p_termination p) as [|age dr].
    + eapply edited_ext; [by apply whole_edited|]. intros x. simpl. rewrite Ha1, EMPTY_at. by destruct x.
    + pose proof (lane_set_spec l1 Absolute (Clock.clamp_add now age) Ho1) as H2.
      destruct (lane_set l1 Absolute _) as [n2 l2]. destruct H2 as (Hn2 & Ho2 & Ha2).
      eapply edited_ext; [by apply whole_edited|]. intros x. simpl. rewrite Ha2, Ha1, EMPTY_at. by destruct x.
  - apply edit_shows; [done|]. by apply arm_at_edited.
  - apply edit_shows; [done|]. apply Hensure.
  - apply edit_shows; [done|]. by apply cancel_edited.
  - apply edit_shows; [done|]. apply Hensure.
  - apply edit_shows; [done|]. fold p.
    set (l := match rm_entry (entries s) (key self) with
              | Occupied active _ => lane_put (lane_put EMPTY Send (lane_at active Send)) Drain (lane_at active Drain)
              | _ => EMPTY end).
    cbv beta zeta.
    assert (Hl : lane_ok l /\ forall x, lane_at l x = match x with Send => d Send | Drain => d Drain | _ => None end).
    { unfold l, d, Resident.due_at, rm_get. destruct (rm_entry (entries s) (key self)) as [a q| |]; [|split; [done|intros x; by destruct x]..].
      split; [by do 2 apply lane_put_ok|]. intros x. rewrite !lane_at_put by (by try apply lane_put_ok). rewrite EMPTY_at. by destruct x. }
    destruct Hl as [Hl Hat]. rewrite (Hat Send).
    pose proof (lane_set_spec l Send (match d Send with Some t => t | None => Clock.clamp_add now (send p) end) Hl) as H1.
    destruct (lane_set l Send _) as [n1 l1]. destruct H1 as (Hn1 & Ho1 & Ha1).
    eapply edited_ext; [by apply whole_edited|]. intros x. simpl. rewrite Ha1, Hat. destruct x; [done|by destruct (d Send)|done..].
  - apply edit_shows; [done|]. pose proof (rm_clears (entries s) (key self) EMPTY (kp_ok _ Hm) Hc) as Hw.
    eapply edited_ext; [by apply (becomes_edited _ _ EMPTY), (becomes_writes _ _ _ _ Hm Hw)|]. intros x. apply EMPTY_at.
  - unfold is_due, with_. rewrite Hs. simpl. unfold d, Resident.due_at, rm_get.
    destruct (rm_entry (entries s) (key self)) as [l q| |] eqn:E; [|split; [done|by intros (? & ? & ? & _)]..].
    apply entry_get in E. pose proof (l_next_spec l) as Hn. simpl in Hn. pose proof (kp_first _ Hm _ _ _ E) as Hq. simpl in Hq.
    rewrite Hq in Hn. destruct Hn as [(c & t & Hct & ->) Hmin]. simpl. rewrite Z.leb_le. split; [by exists c, t|].
    intros (k & t' & Ht & Hle). specialize (Hmin k t' Ht). apply before_not in Hmin. simpl in Hmin. lia.
Qed.

(** An application's deadline is exact. A listener that leaves its application
    no deadline refuses every update as disabled, and a sealed slot as sealed,
    with nothing changed; an instant that no clock can show is an overflow, with
    its range. Otherwise ensuring keeps the instant that is set, and else sets the
    window's; arming sets the given one where the application manages its own; an
    update after an expiry never lies in the past, so that every other bound of
    the connection that is due by now comes before it, in time or by its kind. *)
Theorem application_deadline_exact s self now since t : s_schedule self = Some s -> keeps (entries s) ->
  rm_entry (entries s) (key self) <> Conflict ->
  let d := due_at (entries s) (key self) in
  let policy := application (s_policy s) in
  let ensured from floor (r : run Error unit * Slot) :=
    match Handler.delay policy with
    | None => r.1 = Err Disabled /\ shows s self d r.2
    | Some window =>
        match d Application, Clock.try_add from window with
        | Some a, _ | None, Ok a => r.1 = Ok tt /\ shows s self (arms d Application (Some (floor a))) r.2
        | None, Err e => r.1 = Err (Overflow e) /\ shows s self d r.2
        | None, Stuck _ => False
        end
    end in
  let armed a (r : run Error unit * Slot) :=
    if Handler.is_managed policy then r.1 = Ok tt /\ shows s self (arms d Application (Some a)) r.2
    else r.1 = Err Disabled /\ shows s self d r.2 in
  ensured now (fun a => a) (try_ensure self now)
  /\ armed t (try_arm self t)
  /\ shows s self (arms d Application None) (cancel_app self)
  /\ ensured since (fun a => Z.max a now) (apply self (Handler.Ensure since) now)
  /\ armed (Z.max t now) (apply self (Handler.Arm t) now)
  /\ (apply self Handler.Clear now).1 = Ok tt /\ shows s self (arms d Application None) (apply self Handler.Clear now).2
  /\ (forall a kd u, kd <> Application -> u <= now -> before (deadline u kd) (deadline (Z.max a now) Application) = true)
  /\ (try_ensure (sealed self) now).1 = Err Sealed /\ (try_arm (sealed self) t).1 = Err Sealed
  /\ (apply (sealed self) (Handler.Ensure since) now).1 = Err Sealed /\ s_schedule (progress (sealed self) now) = None.
Proof.
  intros Hs Hm Hc d policy ensured armed.
  assert (Hsame : edited (entries s) (key self) d (entries s)) by (by apply edited_refl).
  assert (Harm : forall a, edited (entries s) (key self) (arms d Application (Some a)) (arm_at (entries s) (key self) Application a))
    by (intros a; by apply arm_at_edited).
  assert (Hclear : shows s self (arms d Application None) (cancel_app self)) by (apply edit_shows; [done|by apply cancel_edited]).
  assert (Htry : forall a, armed a (try_arm self a)).
  { intros a. unfold armed, try_arm. destruct (Handler.is_managed policy) eqn:E;
      (apply with_shows; [done|cbv beta; fold policy; rewrite E; first [apply Harm|exact Hsame]|cbv beta; fold policy; by rewrite E]). }
  assert (Hkeep : forall a, d Application = Some a -> edited (entries s) (key self) (arms d Application (Some a)) (entries s)).
  { intros a Ha. eapply edited_ext; [exact Hsame|]. intros x. unfold arms. by destruct (decide (x = Application)) as [->|]. }
  assert (Hset : is_armed (entries s) (key self) Application = bool_decide (is_Some (d Application))) by apply is_armed_due.
  assert (Hst : match rm_entry (entries s) (key self) with Occupied l _ => lane_at l Application | _ => None end = d Application).
  { unfold d, Resident.due_at, rm_get. by destruct (rm_entry _ _). }
  assert (Hadd : forall from window w, Clock.try_add from window <> Stuck w)
    by (intros from window w; unfold Clock.try_add; by destruct (checked_add from window)).
  split; [|split; [apply Htry|split; [exact Hclear|split; [|split; [apply Htry|split; [done|split; [exact Hclear|split; [|done]]]]]]]].
  - unfold ensured, try_ensure. destruct (Handler.delay policy) as [w|] eqn:E;
      [|apply with_shows; [done|cbv beta; fold policy; by rewrite E..]].
    destruct (d Application) as [a|] eqn:Hd; [|destruct (Clock.try_add now w) as [a|e|u] eqn:Ea; [..|by apply Hadd in Ea]];
      (apply with_shows; [done|cbv beta; fold policy; rewrite E, Hset; simpl; rewrite ?Ea; auto|cbv beta; fold policy; rewrite E, Hset; simpl; by rewrite ?Ea]).
  - unfold ensured, apply. destruct (Handler.delay policy) as [w|] eqn:E;
      [|apply with_shows; [done|cbv beta; fold policy; by rewrite E..]].
    destruct (d Application) as [a|] eqn:Hd; [|destruct (Clock.try_add since w) as [a|e|u] eqn:Ea; [..|by apply Hadd in Ea]];
      (apply with_shows; [done|cbv beta zeta; fold policy; rewrite E, Hst; simpl; rewrite ?Ea; auto|cbv beta zeta; fold policy; rewrite E, Hst; simpl; by rewrite ?Ea]).
  - intros a kd u Hk Hu. apply before_spec. simpl. destruct kd; simpl; try done; lia.
Qed.

(** ** The order of expiry *)

Lemma earliest_least s : keeps (entries s) ->
  match earliest s with
  | Some t => (exists k kd, due_at (entries s) k kd = Some t) /\ forall k kd u, due_at (entries s) k kd = Some u -> t <= u
  | None => forall k kd, due_at (entries s) k kd = None
  end.
Proof.
  intros Hm. pose proof (first_least (entries s) Hm) as Hf. unfold earliest. destruct (rm_first (entries s)) as [[k p]|]; [|exact Hf].
  destruct Hf as [(r & c & t & Hg & -> & Hd) Hmin]. simpl. split; [by exists k, c|].
  intros k' c' u Hu. specialize (Hmin k' c' u Hu). apply before_not in Hmin. simpl in Hmin. lia.
Qed.
Lemma pop_spec s now : keeps (entries s) ->
  let '(o, s') := pop s now in
  match o with
  | None => s' = s /\ forall k kd t, due_at (entries s) k kd = Some t -> now < t
  | Some (k, kd) => exists t, due_at (entries s) k kd = Some t /\ t <= now
      /\ (forall k' kd' t', due_at (entries s) k' kd' = Some t' -> before (deadline t' kd') (deadline t kd) = false)
      /\ edited (entries s) k (arms (due_at (entries s) k) kd None) (entries s') /\ s_policy s' = s_policy s
  end.
Proof.
  intros Hm. pose proof (first_least (entries s) Hm) as Hf. unfold pop.
  destruct (rm_first (entries s)) as [[k p]|]; [|split; [done|]; intros k kd t; by rewrite Hf].
  destruct Hf as [(l & c & t & Hg & -> & Hd) Hmin]. simpl in *. destruct (Z.ltb_spec now t); simpl.
  - split; [done|]. intros k' kd u Hu. specialize (Hmin k' kd u Hu). apply before_not in Hmin. simpl in Hmin. lia.
  - apply entry_get in Hg as He. rewrite He. exists t. split; [done|]. split; [lia|]. split; [exact Hmin|]. split; [|done].
    assert (Hl : lane_ok l) by (by apply (kp_lane _ Hm k l _ Hg)). simpl.
    eapply edited_ext; [apply (commit_edited _ k l _ _ Hm Hg); by apply lane_put_ok|].
    intros x. rewrite lane_at_put by done. unfold arms, Resident.due_at. by rewrite Hg.
Qed.

(** [n] pops in a row, until one finds nothing due. *)
Fixpoint pops (n : nat) s (now : Z) : list (K * Kind) * Schedule M :=
  match n with
  | O => ([], s)
  | Datatypes.S n =>
      match pop s now with
      | (Some x, s) => let '(l, s) := pops n s now in (x :: l, s)
      | (None, s) => ([], s)
      end
  end.
(** [a] fires before [b], or at the same instant and kind. *)
Definition in_turn m (a b : K * Kind) : Prop := exists t u, due_at m a.1 a.2 = Some t /\ due_at m b.1 b.2 = Some u
  /\ before (deadline u b.2) (deadline t a.2) = false.
Definition is_set m (x : K * Kind) : bool := bool_decide (is_Some (due_at m x.1 x.2)).
Definition set_among m (U : list (K * Kind)) : nat := length (filter (fun x => is_set m x = true) U).

(** What is left after some deadlines fired. *)
Lemma edited_arms m k kd m' k' kd' : edited m k (arms (due_at m k) kd None) m' ->
  due_at m' k' kd' = if decide ((k', kd') = (k, kd)) then None else due_at m k' kd'.
Proof.
  intros He. destruct (decide (k' = k)) as [->|Hk].
  - rewrite (ed_here _ _ _ _ He). unfold arms. destruct (decide (kd' = kd)) as [->|Hkd]; [by rewrite decide_True|].
    rewrite decide_False by congruence. done.
  - rewrite (ed_other _ _ _ _ He) by done. by rewrite decide_False by congruence.
Qed.
Lemma filter_shrinks {X} (f g : X -> bool) l x : x ∈ l -> f x = true -> g x = false -> (forall y, g y = true -> f y = true) ->
  (length (filter (fun y => g y = true) l) < length (filter (fun y => f y = true) l))%nat.
Proof.
  intros Hx Hf Hg Hsub. induction l as [|y l IH]; [by apply elem_of_nil in Hx|]. rewrite !filter_cons.
  assert (Hle : (length (filter (fun y => g y = true) l) <= length (filter (fun y => f y = true) l))%nat).
  { clear -Hsub. induction l as [|y l IH]; [done|]. rewrite !filter_cons. destruct (decide (g y = true)) as [E|];
      [rewrite decide_True by auto; simpl; lia|]. destruct (decide _); simpl; lia. }
  apply elem_of_cons in Hx as [<-|Hx].
  - rewrite decide_False by congruence. rewrite decide_True by done. simpl. lia.
  - specialize (IH Hx). destruct (decide (g y = true)) as [E|]; [rewrite decide_True by auto; simpl; lia|].
    destruct (decide _); simpl; lia.
Qed.
Lemma pops_spec now U n : forall s, keeps (entries s) -> (forall x, is_set (entries s) x = true -> x ∈ U) ->
  (set_among (entries s) U <= n)%nat ->
  let '(l, s') := pops n s now in
  keeps (entries s') /\ s_policy s' = s_policy s
  /\ NoDup l /\ (forall k kd, (k, kd) ∈ l <-> exists t, due_at (entries s) k kd = Some t /\ t <= now)
  /\ StronglySorted (in_turn (entries s)) l
  /\ (forall k kd, due_at (entries s') k kd = if decide ((k, kd) ∈ l) then None else due_at (entries s) k kd).
Proof.
  induction n as [|n IH]; intros s Hm HU Hn; cbn [pops].
  - assert (Hnone : forall k kd, due_at (entries s) k kd = None).
    { intros k kd. apply eq_None_not_Some. intros Hk. assert (Hset : is_set (entries s) (k, kd) = true) by (by apply bool_decide_eq_true).
      assert (Hin : (k, kd) ∈ filter (fun x => is_set (entries s) x = true) U) by (apply list_elem_of_filter; auto).
      unfold set_among in Hn. destruct (filter _ U); [by apply elem_of_nil in Hin|simpl in Hn; lia]. }
    do 2 (split; [done|]). split; [constructor|]. split; [|split; [constructor|]].
    + intros k kd. rewrite Hnone. split; [by intros ?%elem_of_nil|by intros (? & ? & _)].
    + intros k kd. by rewrite decide_False by (by apply not_elem_of_nil).
  - pose proof (pop_spec s now Hm) as Hp. destruct (pop s now) as [[[k kd]|] s1]; simpl in Hp.
    + destruct Hp as (t & Hd & Ht & Hmin & He & Hpol).
      assert (Hdue1 : forall k' kd', due_at (entries s1) k' kd' = if decide ((k', kd') = (k, kd)) then None else due_at (entries s) k' kd')
        by (intros; by apply edited_arms).
      assert (Hsub : forall y, is_set (entries s1) y = true -> is_set (entries s) y = true).
      { intros [k' kd']. unfold is_set. rewrite !bool_decide_eq_true. simpl. rewrite Hdue1. by destruct (decide _); [intros []|]. }
      assert (Hlt : (set_among (entries s1) U < set_among (entries s) U)%nat).
      { apply (filter_shrinks _ _ U (k, kd)); [|unfold is_set; simpl; rewrite Hd; by apply bool_decide_eq_true| |exact Hsub].
        - apply HU. unfold is_set. simpl. rewrite Hd. by apply bool_decide_eq_true.
        - unfold is_set. simpl. rewrite Hdue1, decide_True by done. by apply bool_decide_eq_false, is_Some_None. }
      specialize (IH s1 (ed_keeps _ _ _ _ He) (fun x Hx => HU x (Hsub x Hx)) ltac:(lia)).
      destruct (pops n s1 now) as [l s']. destruct IH as (Hm' & Hpol' & Hnd & Hin & Hst & Hd').
      assert (Hnew : (k, kd) ∉ l).
      { intros Hk. apply Hin in Hk as (u & Hu & _). by rewrite Hdue1, decide_True in Hu. }
      split; [done|]. split; [congruence|]. split; [by constructor|]. split; [|split].
      * intros k' kd'. rewrite elem_of_cons, Hin. setoid_rewrite Hdue1. destruct (decide ((k', kd') = (k, kd))) as [E|E]; [|naive_solver].
        injection E as -> ->. split; [intros _; by exists t|by left].
      * constructor.
        -- eapply StronglySorted_ind; [..|exact Hst]; [constructor|]. intros a l0 Hl IHl Ha. constructor; [exact IHl|].
           eapply Forall_impl; [exact Ha|]. intros b (u & v & Hu & Hv & Hb). exists u, v. rewrite Hdue1 in Hu, Hv.
           destruct a as [k1 kd1], b as [k2 kd2]. simpl in *. destruct (decide _); [done|]. by destruct (decide _).
        -- apply Forall_forall. intros [k' kd'] (u & Hu & _)%Hin. rewrite Hdue1 in Hu. destruct (decide _); [done|].
           exists t, u. split; [done|]. split; [done|]. by eapply Hmin.
      * intros k' kd'. rewrite Hd', Hdue1. destruct (decide ((k', kd') = (k, kd))) as [E|E].
        -- rewrite E, (decide_True (P := (k, kd) ∈ _ :: _)) by set_solver. by destruct (decide _).
        -- destruct (decide ((k', kd') ∈ l)); [rewrite decide_True by set_solver; done|rewrite decide_False by set_solver; done].
    + destruct Hp as [-> Hnone]. do 2 (split; [done|]). split; [constructor|]. split; [|split; [constructor|]].
      * intros k kd. split; [by intros ?%elem_of_nil|]. intros (t & Ht & ?). apply Hnone in Ht. lia.
      * intros k kd. by rewrite decide_False by (by apply not_elem_of_nil).
Qed.

(** C29. Deadlines fire in order, each once. Popping a schedule at an instant, at
    most as often as its connections have deadlines, yields exactly the deadlines
    that are due, each once, earlier ones first and at one instant in the order
    of the kinds; what is left is exactly the deadlines that are not due, the
    earliest of which [earliest] reports; and a further pop finds nothing. *)
Theorem deadlines_fire_in_order s now n : keeps (entries s) -> (COUNT * length (rm_keys (entries s)) <= n)%nat ->
  let '(l, s') := pops n s now in
  NoDup l /\ (forall k kd, (k, kd) ∈ l <-> exists t, due_at (entries s) k kd = Some t /\ t <= now)
  /\ StronglySorted (in_turn (entries s)) l
  /\ (forall k kd t, due_at (entries s') k kd = Some t <-> due_at (entries s) k kd = Some t /\ now < t)
  /\ pop s' now = (None, s')
  /\ match earliest s' with
     | Some t => now < t /\ (exists k kd, due_at (entries s) k kd = Some t)
         /\ forall k kd u, due_at (entries s) k kd = Some u -> now < u -> t <= u
     | None => forall k kd u, due_at (entries s) k kd = Some u -> u <= now
     end.
Proof.
  intros Hm Hn. set (U := list_prod (rm_keys (entries s)) ALL).
  assert (HU : forall x, is_set (entries s) x = true -> x ∈ U).
  { intros [k kd] Hx. apply bool_decide_eq_true in Hx. simpl in Hx. apply list_elem_of_In, in_prod.
    - apply list_elem_of_In, (rm_keys_get _ _ (kp_ok _ Hm)). unfold Resident.due_at in Hx. destruct (rm_get (entries s) k); [by eexists|by destruct Hx].
    - apply list_elem_of_In, elem_ALL. }
  assert (Hlen : (set_among (entries s) U <= n)%nat).
  { etrans; [apply length_filter|]. unfold U. rewrite length_prod. unfold COUNT in Hn. simpl. lia. }
  pose proof (pops_spec now U n s Hm HU Hlen) as Hp. destruct (pops n s now) as [l s'].
  destruct Hp as (Hm' & _ & Hnd & Hin & Hst & Hd). do 2 (split; [done|]). split; [done|].
  assert (Hleft : forall k kd t, due_at (entries s') k kd = Some t <-> due_at (entries s) k kd = Some t /\ now < t).
  { intros k kd t. rewrite Hd. destruct (decide ((k, kd) ∈ l)) as [Hl|Hl].
    - apply Hin in Hl as (u & Hu & Hle). split; [done|]. intros [Ht Hlt]. rewrite Hu in Ht. injection Ht as ->. lia.
    - split; [|by intros [? _]]. intros Ht. split; [done|]. apply Z.nle_gt. intros Hle. apply Hl, Hin. by exists t. }
  split; [exact Hleft|]. split.
  - pose proof (pop_spec s' now Hm') as Hp. destruct (pop s' now) as [[[k kd]|] s2]; [|by destruct Hp as [-> _]].
    destruct Hp as (t & Ht & Hle & _). apply Hleft in Ht as [_ ?]. lia.
  - pose proof (earliest_least s' Hm') as He. destruct (earliest s') as [t|].
    + destruct He as [(k & kd & Ht) Hmin]. apply Hleft in Ht as [Ht Hlt]. split; [done|]. split; [by exists k, kd|].
      intros k' kd' u Hu Hlt'. by apply (Hmin k' kd'), Hleft.
    + intros k kd u Hu. apply Z.nlt_ge. intros Hlt. assert (Hs : due_at (entries s') k kd = Some u) by (by apply Hleft).
      by rewrite He in Hs.
Qed.
End ops.
End ListenerFacts.

(** ** The book of a connector *)

Module BookFacts.
Import Close Book.

Definition lane_ok (l : Lane) : Prop := length (fixed l) = COUNT.
Lemma fixed_at_put l k k' o : lane_ok l -> fixed_at (fixed_put l k o) k' = if decide (k' = k) then o else fixed_at l k'.
Proof.
  unfold lane_ok, fixed_at, fixed_put. simpl. intros Hl. destruct (decide (k' = k)) as [->|Hne].
  - rewrite list_lookup_insert_eq; [done|]. rewrite Hl. destruct k; simpl; unfold COUNT; lia.
  - rewrite list_lookup_insert_ne; [done|]. by destruct k, k'.
Qed.
Lemma fixed_put_ok l k o : lane_ok l -> lane_ok (fixed_put l k o).
Proof. unfold lane_ok, fixed_put. simpl. by rewrite length_insert. Qed.
Lemma fixed_index i : (i < COUNT)%nat -> exists k, index k = i.
Proof. unfold COUNT. intros Hi. destruct i as [|[|[|i]]]; [by exists Connect|by exists Send|by exists Lifetime|lia]. Qed.
Lemma book_elem_ALL k : k ∈ ALL.
Proof. destruct k; unfold ALL; set_solver. Qed.
Lemma rank_inj k k' : rank k = rank k' -> k = k'.
Proof. by destruct k, k'. Qed.
Lemma fixed_kind_inj k k' : fixed_kind k = fixed_kind k' -> k = k'.
Proof. by destruct k, k'. Qed.

(** The instant of a kind: a fixed one, or the reception's. *)
Definition cell (l : Lane) (k : Kind) : option Z :=
  match k with
  | DConnect => fixed_at l Connect
  | DInbound => r_at <$> reception l
  | DSend => fixed_at l Send
  | DLifetime => fixed_at l Lifetime
  end.
Lemma cell_fixed l k : cell l (fixed_kind k) = fixed_at l k.
Proof. by destruct k. Qed.
Definition fixed_cell (l : Lane) (k : Fixed) : option Entry := (fun t => entry t (fixed_kind k)) <$> fixed_at l k.
Lemma book_next_first l : next l = fold_left (first_step (fixed_cell l)) ALL ((fun r => entry (r_at r) DInbound) <$> reception l).
Proof.
  unfold next. generalize ((fun r => entry (r_at r) DInbound) <$> reception l). induction ALL as [|k ks IH]; intros o; simpl; [done|].
  rewrite IH. f_equal. unfold next_step, first_step, fixed_cell. by destruct (fixed_at l k).
Qed.
(** What the loop of [next] meets is every kind that is set. *)
Lemma next_meets l k t : cell l k = Some t <->
  (fun r => entry (r_at r) DInbound) <$> reception l = Some (entry t k) \/ exists x, x ∈ ALL /\ fixed_cell l x = Some (entry t k).
Proof.
  split.
  - destruct k; simpl; intros Hk.
    + right. exists Connect. split; [apply book_elem_ALL|]. unfold fixed_cell. by rewrite Hk.
    + left. destruct (reception l); [|done]. simpl in *. congruence.
    + right. exists Send. split; [apply book_elem_ALL|]. unfold fixed_cell. by rewrite Hk.
    + right. exists Lifetime. split; [apply book_elem_ALL|]. unfold fixed_cell. by rewrite Hk.
  - intros [Hr|(x & _ & Hx)].
    + destruct (reception l) as [r|] eqn:E; [|done]. injection Hr as <- <-. simpl. by rewrite E.
    + unfold fixed_cell in Hx. destruct (fixed_at l x) as [u|] eqn:E; [|done]. injection Hx as <- <-. by rewrite cell_fixed.
Qed.

#[export] Instance lane_lanes : Lanes Kind Lane Entry := {|
  l_cell := cell; l_due k t := entry t k; l_next := next; l_ok := lane_ok; l_empty := EMPTY |}.
#[export] Instance lane_lanes_laws : LanesLaws Kind Lane Entry.
Proof.
  split; [done|by intros ? ? ? ? [= _ ->]| |done|..].
  - intros c t c' t'. rewrite !before_not. simpl. intros ? ?. assert (t = t') as -> by lia. split; [|done].
    apply rank_inj. lia.
  - intros l Hl Hn. simpl in *. rewrite book_next_first in Hn. pose proof (first_of (fixed_cell l) ALL ((fun r => entry (r_at r) DInbound) <$> reception l)) as Hf.
    rewrite Hn in Hf. destruct Hf as [Hr Hf]. destruct l as [f r]. simpl in *. destruct r; [done|]. unfold EMPTY. f_equal.
    apply list_eq. intros i. unfold lane_ok in Hl. simpl in Hl. destruct (decide (i < COUNT)%nat) as [Hi|Hi].
    + rewrite lookup_replicate_2 by done. destruct (fixed_index i Hi) as [k <-]. specialize (Hf k (book_elem_ALL k)).
      unfold fixed_cell, fixed_at in Hf. simpl in Hf. destruct (f !! index k) as [[t|]|] eqn:E; [done|done|]. apply lookup_ge_None in E. lia.
    + rewrite !(proj2 (lookup_ge_None _ _)); [done|rewrite length_replicate; lia|lia].
  - intros l. simpl. rewrite book_next_first. pose proof (first_of (fixed_cell l) ALL ((fun r => entry (r_at r) DInbound) <$> reception l)) as Hf.
    destruct (fold_left _ _ _) as [[t k]|].
    + destruct Hf as [Hin Hmin]. split; [exists k, t; split; [by apply next_meets|done]|]. intros c u Hc. by apply Hmin, next_meets.
    + intros c. destruct (cell l c) as [t|] eqn:E; [|done]. apply next_meets in E. destruct Hf as [Hr Hf].
      destruct E as [E|(x & Hx & E)]; [congruence|]. by rewrite Hf in E.
Qed.

Lemma book_lane_set_spec l k t : lane_ok l -> let '(n, l') := lane_set l k t in next l' = Some n /\ l' = fixed_put l k (Some t) /\ lane_ok l'.
Proof.
  intros Hl. unfold lane_set. set (l' := fixed_put l k (Some t)). split; [|by split; [|apply fixed_put_ok]].
  pose proof (l_next_spec l') as Hs. simpl in Hs. destruct (next l') as [p|]; [done|]. specialize (Hs (fixed_kind k)).
  rewrite cell_fixed in Hs. unfold l' in Hs. by rewrite fixed_at_put, decide_True in Hs.
Qed.
Lemma arm_recv_spec l s t : lane_ok l -> let l' := lane_arm_recv l s t in
  next l' = Some (default (entry t DInbound) (next l')) /\ lane_ok l'.
Proof.
  intros Hl l'. split; [|exact Hl]. pose proof (l_next_spec l') as Hs. simpl in Hs. destruct (next l'); [done|]. by specialize (Hs DInbound).
Qed.
Lemma lane_cancel_ok l k : lane_ok l -> lane_ok (lane_cancel l k).
Proof. destruct k; simpl; by auto using fixed_put_ok. Qed.
Lemma lane_cancel_cell l k x : lane_ok l -> cell (lane_cancel l k) x = if decide (x = k) then None else cell l x.
Proof.
  intros Hl. destruct k, x; simpl; rewrite ?fixed_at_put by done; done.
Qed.

Section ops.
Context {K M : Type} `{EqDecision K} `{RM : !ResidentMin K Lane Entry M} `{RML : !ResidentMinLaws K Lane Entry M} `{AverageLaws}.
Abbreviation keeps := (keeps (C := Kind) (K := K) (R := Lane) (P := Entry)).
Abbreviation held := (held (C := Kind) (K := K) (R := Lane) (P := Entry)).
Abbreviation due_at := (due_at (C := Kind) (R := Lane) (P := Entry)).
Abbreviation becomes := (becomes (C := Kind) (R := Lane) (P := Entry)).
Implicit Types (b : M) (k : K) (l : Lane).

Lemma held_ok b k : keeps b -> lane_ok (held b k).
Proof. intros Hb. by apply (keeps_held b k Hb). Qed.
Lemma held_entry b k : keeps b -> rm_entry b k <> Conflict ->
  (exists p, rm_entry b k = Occupied (held b k) p /\ rm_get b k = Some (held b k, p) /\ next (held b k) = Some p)
  \/ rm_entry b k = Vacant /\ held b k = EMPTY.
Proof.
  intros Hb Hc. unfold Resident.held. destruct (rm_entry b k) as [l p| |] eqn:E; [left|right|done].
  - apply entry_get in E. rewrite E. exists p. split; [done|]. split; [done|]. by apply (kp_first b Hb) in E.
  - unfold rm_get. by rewrite E.
Qed.
Lemma update_held b k v g l p : keeps b -> rm_entry b k <> Conflict ->
  (rm_entry b k = Vacant -> v = (l, p)) -> (g (held b k) = (l, p)) -> next l = Some p -> lane_ok l -> becomes b k l (rm_update b k v g).
Proof.
  intros Hb Hc Hv Hg Hn Hl. apply (update_becomes b k v g l p Hb Hc); [|done..].
  destruct (held_entry b k Hb Hc) as [(q & _ & -> & _)|[E _]]; [done|]. unfold rm_get. rewrite E. by apply Hv.
Qed.
Lemma arm_becomes b k kd t : keeps b -> rm_entry b k <> Conflict -> becomes b k (fixed_put (held b k) kd (Some t)) (arm b k kd t).
Proof.
  intros Hb Hc. pose proof (book_lane_set_spec (held b k) kd t (held_ok b k Hb)) as Hs. unfold arm.
  destruct (lane_set (held b k) kd t) as [n l'] eqn:E. destruct Hs as (Hn & -> & Hl).
  apply (update_held b k _ _ _ n Hb Hc); [|by rewrite E|done..].
  intros Hv. destruct (held_entry b k Hb Hc) as [(p & E' & _)|[_ E']]; [congruence|]. rewrite E' in *. f_equal.
  pose proof (l_next_spec (fixed_put EMPTY kd (Some t))) as Hs. simpl in Hs. rewrite Hn in Hs. destruct Hs as [(c & u & Hcu & ->) _].
  destruct kd, c; vm_compute in Hcu; by simplify_eq.
Qed.
Lemma cancel_becomes b k kd : keeps b -> rm_entry b k <> Conflict -> becomes b k (lane_cancel (held b k) kd) (cancel b k kd).
Proof.
  intros Hb Hc. unfold cancel. destruct (held_entry b k Hb Hc) as [(p & -> & Hg & Hn)|[E Hh]].
  - pose proof (held_ok b k Hb) as Hl. pose proof (lane_cancel_ok _ kd Hl) as Hl'. case_bool_decide as Hne.
    + destruct p as [t0 c0]. apply (put_becomes b k (held b k) c0 t0 _ kd Hb Hg Hl'); [|done]. intros x. by apply lane_cancel_cell.
    + exact (recommit_becomes b k _ p _ Hb Hg Hl').
  - rewrite E, Hh. replace (lane_cancel EMPTY kd) with EMPTY by (by destruct kd). rewrite <- Hh. apply becomes_refl; [done|congruence].
Qed.
Lemma clear_becomes b k : keeps b -> rm_entry b k <> Conflict -> becomes b k EMPTY (clear b k).
Proof. intros Hb Hc. by apply (becomes_writes b k _ _ Hb (rm_clears b k EMPTY (kp_ok b Hb) Hc)). Qed.
Lemma closing_becomes b k now window : keeps b -> rm_entry b k <> Conflict ->
  becomes b k (fixed_put EMPTY Send (Some (default (Clock.clamp_add now window) (fixed_at (held b k) Send)))) (closing b k now window).
Proof.
  intros Hb Hc. unfold closing.
  assert (E : match rm_entry b k with Occupied l _ => fixed_at l Send | _ => None end = fixed_at (held b k) Send).
  { by destruct (held_entry b k Hb Hc) as [(p & -> & _)|[-> ->]]. }
  rewrite E. assert (Ed : forall o d : option Z, forall t : Z, match o with Some t => t | None => t end = default t o) by (by intros []).
  rewrite (Ed (fixed_at (held b k) Send) None). clear E Ed.
  pose proof (book_lane_set_spec EMPTY Send (default (Clock.clamp_add now window) (fixed_at (held b k) Send)) eq_refl) as Hs.
  destruct (lane_set EMPTY Send _) as [n l']. destruct Hs as (Hn & -> & Hl). by apply (update_held b k _ _ _ n Hb Hc).
Qed.
Lemma ensure_after_becomes b k kd now window : keeps b -> rm_entry b k <> Conflict ->
  becomes b k (fixed_put (held b k) kd (Some (default (Clock.clamp_add now window) (fixed_at (held b k) kd)))) (ensure_after b k kd now window).
Proof.
  intros Hb Hc. unfold ensure_after. destruct (held_entry b k Hb Hc) as [(p & -> & _ & _)|[-> Hh]].
  - unfold is_armed. case_bool_decide as Hk.
    + destruct Hk as [t Hk]. rewrite Hk. simpl. replace (fixed_put (held b k) kd (Some t)) with (held b k); [by apply becomes_refl|].
      unfold fixed_put. destruct (held b k) as [f r] eqn:Eh. simpl. f_equal. unfold fixed_at in Hk. simpl in Hk.
      symmetry. apply list_insert_id. by destruct (f !! index kd) as [[u|]|]; simplify_eq.
    + apply eq_None_not_Some in Hk. rewrite Hk. by apply arm_becomes.
  - rewrite Hh at 2. replace (fixed_at EMPTY kd) with (@None Z) by (by destruct kd). by apply arm_becomes.
Qed.
Lemma arm_inbound_becomes b k now seen window : keeps b -> rm_entry b k <> Conflict ->
  let s := recv_since (held b k) now seen in
  becomes b k (lane_arm_recv (held b k) s (Clock.clamp_add s window)) (arm_inbound b k now seen window).
Proof.
  intros Hb Hc s. unfold arm_inbound.
  assert (E : match rm_entry b k with Occupied l _ => recv_since l now seen | _ => now end = s).
  { unfold s. by destruct (held_entry b k Hb Hc) as [(p & -> & _)|[-> ->]]. }
  rewrite E. set (t := Clock.clamp_add s window).
  pose proof (arm_recv_spec (held b k) s t (held_ok b k Hb)) as [Hn Hl]. cbv zeta in Hn.
  assert (Hu : becomes b k (lane_arm_recv (held b k) s t)
    (rm_update b k (lane_arm_recv EMPTY s t, entry t DInbound)
      (fun l => (lane_arm_recv l s t, default (entry t DInbound) (next (lane_arm_recv l s t)))))).
  { apply (update_held b k _ _ _ (default (entry t DInbound) (next (lane_arm_recv (held b k) s t))) Hb Hc); [|done..].
    intros Hv. destruct (held_entry b k Hb Hc) as [(p & E' & _)|[_ ->]]; [congruence|]. done. }
  destruct (rm_entry b k) as [l p| |] eqn:Ee; [|exact Hu..]. case_bool_decide as Hr; [|exact Hu].
  apply entry_get in Ee as Hg. assert (Hh : held b k = l) by (unfold Resident.held; by rewrite Hg).
  rewrite Hh. replace (lane_arm_recv l s t) with l; [rewrite <- Hh; apply becomes_refl; [done|congruence]|].
  destruct l as [f r]. simpl in *. by rewrite Hr.
Qed.

(** ** What a connection's deadlines are *)

(** The instant since which a connection's inbound deadline counts. *)
Definition origin b k : option Z := since <$> reception (held b k).
Definition arms (f : Kind -> option Z) (kd : Kind) (o : option Z) : Kind -> option Z := fun x => if decide (x = kd) then o else f x.
(** An operation on [k] leaves it the deadlines [f] and the origin [o], and the
    other keys theirs. *)
Definition shows b k (f : Kind -> option Z) (o : option Z) b' : Prop :=
  keeps b' /\ rm_entry b' k <> Conflict /\ (forall c, due_at b' k c = f c) /\ origin b' k = o
  /\ forall x, x <> k -> held b' x = held b x.
Lemma becomes_shows b k l b' f o : becomes b k l b' -> (forall c, cell l c = f c) -> since <$> reception l = o -> shows b k f o b'.
Proof.
  intros [? Hh ? ?] Hf Ho. do 2 (split; [done|]). split; [intros c; by rewrite due_at_held, Hh, <- Hf|].
  split; [unfold origin; by rewrite Hh|done].
Qed.
Lemma due_cell b k c : due_at b k c = cell (held b k) c.
Proof. exact (due_at_held b k c). Qed.
Lemma cell_put l (kd : Fixed) o x : lane_ok l -> cell (fixed_put l kd o) x = if decide (x = fixed_kind kd) then o else cell l x.
Proof. intros Hl. destruct kd, x; simpl; rewrite ?fixed_at_put by done; done. Qed.

(** The deadlines of a connector's connection are exact. On a book whose
    entries stand under their first deadlines, each operation leaves exactly these
    deadlines to its connection, keeps every other connection's, and keeps the
    book so. Arming sets one kind, ensuring sets it unless it is set, cancelling
    drops it, closing drops all but the send bound, which it sets if there is
    none. An inbound deadline counts the window from its origin: the latest
    receipt, and never an instant earlier than the origin it had. *)
Theorem connector_deadlines_exact b k kd kd' t now window seen : keeps b -> rm_entry b k <> Conflict ->
  let d := due_at b k in
  let o := origin b k in
  let after := Clock.clamp_add now window in
  shows b k (arms d (fixed_kind kd) (Some t)) o (arm_at b k kd t)
  /\ shows b k (arms d (fixed_kind kd) (Some after)) o (arm_after b k kd now window)
  /\ shows b k (arms d (fixed_kind kd) (Some (default after (d (fixed_kind kd))))) o (ensure_after b k kd now window)
  /\ shows b k (arms d kd' None) (if decide (kd' = DInbound) then None else o) (cancel b k kd')
  /\ shows b k (fun c => if decide (c = DSend) then Some (default after (d DSend)) else None) None (closing b k now window)
  /\ (let s := match o, seen with Some s, Some v => Z.max s v | Some s, None => s | None, _ => now end in
      shows b k (arms d DInbound (Some (Clock.clamp_add s window))) (Some s) (arm_inbound b k now seen window))
  /\ shows b k (fun _ => None) None (clear b k).
Proof.
  intros Hb Hc d o after. pose proof (held_ok b k Hb) as Hl.
  assert (Hd : forall c, d c = cell (held b k) c) by apply due_cell.
  assert (Harm : forall u, shows b k (arms d (fixed_kind kd) (Some u)) o (arm b k kd u)).
  { intros u. eapply becomes_shows; [by apply arm_becomes| |done]. intros c. rewrite cell_put by done. unfold arms. by rewrite Hd. }
  split; [apply Harm|]. split; [apply Harm|]. split; [|split; [|split; [|split]]].
  - eapply becomes_shows; [by apply ensure_after_becomes| |done]. intros c. rewrite cell_put by done. unfold arms.
    by rewrite !Hd, cell_fixed.
  - eapply becomes_shows; [by apply cancel_becomes|intros c; rewrite lane_cancel_cell by done; unfold arms; by rewrite Hd|].
    unfold o, origin. by destruct kd'.
  - eapply becomes_shows; [by apply closing_becomes| |done]. intros c. rewrite cell_put by done. simpl. rewrite Hd.
    destruct (decide (c = DSend)); [done|]. by destruct c.
  - cbv zeta. assert (E : recv_since (held b k) now seen = match o, seen with Some s, Some v => Z.max s v | Some s, None => s | None, _ => now end).
    { unfold recv_since, o, origin. destruct (reception (held b k)) as [r|]; simpl; [|done]. destruct seen as [v|]; [|done].
      destruct (Z.ltb_spec (since r) v); lia. }
    rewrite <- E. eapply becomes_shows; [by apply arm_inbound_becomes| |done]. intros c. unfold arms. rewrite Hd. by destruct c.
  - eapply becomes_shows; [by apply clear_becomes| |done]. intros c. by destruct c.
Qed.

Lemma book_earliest_least b : keeps b ->
  match earliest b with
  | Some t => (exists k c, due_at b k c = Some t) /\ forall k c u, due_at b k c = Some u -> t <= u
  | None => forall k c, due_at b k c = None
  end.
Proof.
  intros Hb. pose proof (first_least b Hb) as Hf. unfold earliest. destruct (rm_first b) as [[k p]|]; [|exact Hf].
  destruct Hf as [(r & c & t & Hg & -> & Hd) Hmin]. simpl. split; [by exists k, c|].
  intros k' c' u Hu. specialize (Hmin k' c' u Hu). apply before_not in Hmin. simpl in Hmin. lia.
Qed.
(** What [pop_expired] takes out: the first of all deadlines, with its lane. *)
Lemma pop_expired_spec b now : keeps b ->
  match pop_expired b now with
  | None => forall k c t, due_at b k c = Some t -> now < t
  | Some x => exists t, x_entry x = entry t (kind (x_entry x)) /\ due_at b (x_key x) (kind (x_entry x)) = Some t /\ t <= now
      /\ (forall k c u, due_at b k c = Some u -> before (entry u c) (x_entry x) = false)
      /\ x_lane x = held b (x_key x) /\ becomes b (x_key x) EMPTY (x_book x) /\ rm_get (x_book x) (x_key x) = None
  end.
Proof.
  intros Hb. pose proof (first_least b Hb) as Hf. unfold pop_expired. destruct (rm_first b) as [[k p]|]; [|intros k c t; by rewrite Hf].
  destruct Hf as [(l & c & t & Hg & -> & Hd) Hmin]. simpl. destruct (Z.ltb_spec now t); simpl.
  - intros k' c' u Hu. specialize (Hmin k' c' u Hu). apply before_not in Hmin. simpl in Hmin. lia.
  - apply entry_get in Hg as He. rewrite He. simpl. exists t. do 2 (split; [done|]). split; [lia|]. split; [exact Hmin|].
    split; [unfold Resident.held; by rewrite Hg|]. pose proof (rm_retires b k (kp_ok b Hb) (ex_intro _ _ Hg)) as Hw.
    split; [by apply (becomes_writes b k _ _ Hb Hw)|apply (wr_here Hw)].
Qed.
(** Its lane, put back under what is left of it. *)
Lemma commit_next_becomes b k x l : becomes b k EMPTY (x_book x) -> rm_get (x_book x) (x_key x) = None -> x_key x = k -> lane_ok l ->
  becomes b k l (commit_next x l).
Proof.
  intros [Hk Hh Ho Hf] Hg <- Hl. unfold commit_next. pose proof (l_empty_only l Hl) as He. simpl in He.
  destruct (next l) as [n|] eqn:E.
  - pose proof (rm_reinserts (x_book x) (x_key x) l n (kp_ok _ Hk) Hg Hf) as Hw.
    destruct (becomes_writes _ _ _ _ Hk Hw) as [? Hh' Ho' ?]; [by intros r p [= <- <-]|]. split; [done|done| |done].
    intros y Hy. by rewrite Ho', Ho.
  - rewrite (He eq_refl). by split.
Qed.
End ops.
End BookFacts.

(** ** The turn of a connector's deadlines *)

Module LivenessFacts.
Import Close Book Liveness BookFacts.

Section ops.
Context {K M : Type} `{EqDecision K} `{RM : !ResidentMin K Lane Entry M} `{RML : !ResidentMinLaws K Lane Entry M} `{AverageLaws}.
Abbreviation keeps := (keeps (C := Kind) (K := K) (R := Lane) (P := Entry)).
Abbreviation held := (held (C := Kind) (K := K) (R := Lane) (P := Entry)).
Abbreviation due_at := (due_at (C := Kind) (R := Lane) (P := Entry)).
Abbreviation Deadlines := (Deadlines M).
Abbreviation Side := (Side M).
Implicit Types (d : Deadlines) (k : K).

Lemma expired_deadline_step d now (look : K -> option (option Observation)) : keeps (book d) -> expire_step d now look = None ->
  forall k c t, due_at (book d) k c = Some t -> now < t.
Proof.
  intros Hb. unfold expire_step. pose proof (pop_expired_spec (book d) now Hb) as Hp. destruct (pop_expired (book d) now) as [x|]; [|done].
  destruct (look (x_key x)); [|done]. by destruct (classify _ _ _).
Qed.
(** An expired deadline is resolved. A step of the expiry loop takes the
    first deadline of all that are due, and finds none exactly when none is. A
    connection that is gone leaves the book. A connect, send or lifetime bound
    closes its connection and drops its other bounds. An inbound bound is dropped
    when nothing is awaited; else it counts the window anew from the latest
    receipt: it closes the connection exactly when the window has passed since,
    and is set to that later instant otherwise. The other connections keep their
    deadlines, and no step makes a deadline due that was not: the deadlines that
    are due strictly decrease. *)
Theorem expired_deadline_resolved d now (look : K -> option (option Observation)) : keeps (book d) ->
  match expire_step d now look with
  | None => forall k c t, due_at (book d) k c = Some t -> now < t
  | Some (done, d') => exists k kd t, due_at (book d) k kd = Some t /\ t <= now
      /\ (forall k' c u, due_at (book d) k' c = Some u -> before (entry u c) (entry t kd) = false)
      /\ alarm d' = alarm d
      /\ (let gone := shows (book d) k (fun _ => None) None (book d') in
          let keep o r := shows (book d) k (arms (due_at (book d) k) DInbound o) r (book d') in
          match look k, kd with
          | None, _ => done = Ignore /\ gone
          | Some (Some (Awaiting window seen)), DInbound =>
              let s := match origin (book d) k with Some s => Z.max s seen | None => now end in
              let a := Clock.clamp_add s window in
              if a <=? now then done = Close k DInbound /\ gone else done = Ignore /\ keep (Some a) (Some s)
          | Some _, DInbound => done = Ignore /\ keep None None
          | Some _, _ => done = Close k kd /\ gone
          end)
      /\ (forall k' c u, due_at (book d') k' c = Some u -> u <= now -> due_at (book d) k' c = Some u)
      /\ (forall u, due_at (book d') k kd = Some u -> now < u)
  end.
Proof.
  intros Hb. unfold expire_step. pose proof (pop_expired_spec (book d) now Hb) as Hp. destruct (pop_expired (book d) now) as [x|]; [|exact Hp].
  destruct Hp as (t & He & Hd & Ht & Hmin & Hl & Hbc & Hg). set (k := x_key x) in *. set (kd := kind (x_entry x)) in *.
  pose proof (held_ok (book d) k Hb) as Hlo.
  (* The three ways to leave the lane. *)
  assert (Hgone : shows (book d) k (fun _ => None) None (x_book x)) by (eapply becomes_shows; [exact Hbc|by intros []|done]).
  assert (Hcancel : shows (book d) k (arms (due_at (book d) k) DInbound None) None (cancel_recv x)).
  { unfold cancel_recv. rewrite Hl. eapply becomes_shows; [by apply commit_next_becomes| |done].
    intros c. unfold arms. rewrite due_cell. by destruct c. }
  assert (Hre : forall window seen, let s := match origin (book d) k with Some s => Z.max s seen | None => now end in
    let a := Clock.clamp_add s window in
    rearm_recv x now (Some seen) window = (if a <=? now then (RExpired, x_book x) else (Future, commit_next x (lane_arm_recv (x_lane x) s a)))
    /\ shows (book d) k (arms (due_at (book d) k) DInbound (Some a)) (Some s) (commit_next x (lane_arm_recv (x_lane x) s a))).
  { intros window seen s a. rewrite Hl. split.
    - unfold rearm_recv. rewrite Hl.
      assert (Es : recv_since (held (book d) k) now (Some seen) = s).
      { unfold recv_since, s, origin. destruct (reception (held (book d) k)) as [r|]; [|done]. simpl. destruct (Z.ltb_spec (since r) seen); lia. }
      rewrite Es. done.
    - eapply becomes_shows; [by apply commit_next_becomes| |done]. intros c. unfold arms. rewrite due_cell. by destruct c. }
  (* What a lane that only loses deadlines, or moves them later, leaves due. *)
  assert (Hfin : forall f r b', shows (book d) k f r b' ->
      (forall c u, f c = Some u -> u <= now -> due_at (book d) k c = Some u) -> (forall u, f kd = Some u -> now < u) ->
    (forall k' c u, due_at b' k' c = Some u -> u <= now -> due_at (book d) k' c = Some u) /\ (forall u, due_at b' k kd = Some u -> now < u)).
  { intros f r b' (_ & _ & Hf & _ & Ho) Hsub Hkd. split.
    - intros k' c u Hu Hle. destruct (decide (k' = k)) as [->|Hne]; [rewrite Hf in Hu; by apply Hsub|].
      rewrite due_cell in *. by rewrite <- Ho.
    - intros u Hu. rewrite Hf in Hu. by apply Hkd. }
  assert (Hnone : forall r b', shows (book d) k (fun _ => None) r b' ->
      (forall k' c u, due_at b' k' c = Some u -> u <= now -> due_at (book d) k' c = Some u) /\ (forall u, due_at b' k kd = Some u -> now < u))
    by (intros r b' Hs; by apply (Hfin _ _ _ Hs)).
  assert (Harms : forall o r b', kd = DInbound -> shows (book d) k (arms (due_at (book d) k) DInbound o) r b' -> (forall u, o = Some u -> now < u) ->
      (forall k' c u, due_at b' k' c = Some u -> u <= now -> due_at (book d) k' c = Some u) /\ (forall u, due_at b' k kd = Some u -> now < u)).
  { intros o r b' Ek Hs Ho. apply (Hfin _ _ _ Hs).
    - intros c u. unfold arms. destruct (decide (c = DInbound)); [|done]. intros Hu. apply Ho in Hu. lia.
    - intros u. unfold arms. rewrite Ek. by apply Ho. }
  rewrite He in Hmin. unfold classify. fold kd.
  destruct (look k) as [watch|] eqn:Elook; [|destruct (Hnone _ _ Hgone); exists k, kd, t; rewrite Elook; by auto 10].
  destruct (decide (kd = DInbound)) as [Ekd|Ekd].
  - rewrite Ekd in *. destruct watch as [[|window seen]|].
    + destruct (Harms _ _ _ eq_refl Hcancel) as [? ?]; [done|]. exists k, DInbound, t. rewrite Elook. by auto 10.
    + destruct (Hre window seen) as [-> Hs]. cbv zeta in Hs. destruct (Z.leb_spec (Clock.clamp_add (match origin (book d) k with Some s => Z.max s seen | None => now end) window) now) as [Hle|Hlt].
      * destruct (Hnone _ _ Hgone). exists k, DInbound, t. rewrite Elook. cbv zeta. rewrite (proj2 (Z.leb_le _ _) Hle). by auto 10.
      * destruct (Harms _ _ _ eq_refl Hs) as [? ?]; [by intros u [= <-]|]. exists k, DInbound, t. rewrite Elook. cbv zeta.
        rewrite (proj2 (Z.leb_gt _ _) Hlt). by auto 10.
    + destruct (Harms _ _ _ eq_refl Hcancel) as [? ?]; [done|]. exists k, DInbound, t. rewrite Elook. by auto 10.
  - destruct (Hnone _ _ Hgone). clearbody kd. destruct kd as [| | |] eqn:Ek; [|done|..]; exists k, kd, t; rewrite Elook, Ek;
      destruct watch as [[]|]; by auto 10.
Qed.

(** ** Its alarm *)

(** The alarm that stands for the earliest of some deadlines. *)
Definition set_for (o : option Z) : Alarm.State := match o with Some t => Alarm.Armed t | None => Alarm.Idle end.
Definition tracks d : Prop := alarm d = set_for (earliest (K := K) (book d)).
Definition side_tracks (io : option Z) (s : Side) : Prop := alarm (primary s) = set_for (side_earliest (K := K) s io).

Lemma set_alarm d o : alarm (set d o) = set_for o.
Proof. by destruct o. Qed.
Lemma set_book d o : book (set d o) = book d.
Proof. by destruct o. Qed.
Lemma sync_alarm d before after : alarm d = set_for before -> alarm (sync d before after) = set_for after.
Proof. intros Hd. unfold sync. case_bool_decide as E; [apply set_alarm|]. assert (before = after) as <- by (by destruct (decide (before = after))). done. Qed.
Lemma sync_book d before after : book (sync d before after) = book d.
Proof. unfold sync. case_bool_decide; [apply set_book|done]. Qed.
Lemma edit_tracks d f : tracks d -> tracks (edit (K := K) d f).
Proof. intros Hd. unfold tracks, edit. rewrite sync_book. by apply sync_alarm. Qed.

(** The alarm follows the book. Whenever a connector's alarm stands for the
    earliest deadline of its book, it does so after every edit of the book, after
    an update of a send bound, after a refresh of an inbound one; and it does so
    after every rearm. A poll of such an alarm is ready exactly when a deadline is
    due; the expiry loop then has a step to make; and a poll that is not ready
    leaves the alarm in place. *)
Theorem alarm_follows_book d (f : M -> M) (u : SendDeadline) k now window look looks : tracks d -> keeps (book d) ->
  tracks (edit (K := K) d f) /\ tracks (apply u d k now window) /\ tracks (refresh d k now look)
  /\ (forall a b, tracks (rearm (K := K) (deadlines b a)))
  /\ let '(ready, d') := poll d now in
     book d' = book d
     /\ (ready = true <-> exists x c t, due_at (book d) x c = Some t /\ t <= now)
     /\ (ready = true -> expire_step d' now looks <> None)
     /\ (ready = false -> tracks d').
Proof.
  intros Hd Hb. split; [by apply edit_tracks|]. split; [destruct u; [done|by apply edit_tracks..]|].
  split; [destruct look as [[[[]|]|]|]; try done; by apply edit_tracks|]. split; [intros a b; unfold tracks, rearm; by rewrite set_alarm, set_book|].
  unfold poll. pose proof (book_earliest_least (book d) Hb) as He. unfold tracks in Hd. rewrite Hd.
  assert (Hstep : (exists x c t, due_at (book d) x c = Some t /\ t <= now) -> expire_step (with_alarm d Alarm.Idle) now looks <> None).
  { intros (x & c & t & Ht & Hle) E. pose proof (expired_deadline_step (with_alarm d Alarm.Idle) now looks Hb E x c t Ht). lia. }
  destruct (earliest (book d)) as [t|] eqn:E; simpl.
  - destruct He as [(x & c & Ht) Hmin]. destruct (Z.leb_spec t now) as [Hle|Hlt]; simpl.
    + split; [done|]. split; [split; [intros _; by exists x, c, t|done]|]. split; [|done]. intros _. apply Hstep. by exists x, c, t.
    + split; [done|]. split; [|split; [done|]]; [split; [done|]|].
      * intros (x' & c' & t' & Ht' & ?). apply Hmin in Ht'. lia.
      * intros _. unfold tracks. simpl. by rewrite E.
  - split; [done|]. split; [|split; [done|]]; [split; [done|]|].
    + intros (x & c & t & Ht & _). by rewrite He in Ht.
    + intros _. unfold tracks. simpl. by rewrite E.
Qed.

(** ** Retries of side connections *)

Lemma retry_millis_small a : 0 <= count a <= MAX_SHIFT -> retry_millis a = 2 ^ count a.
Proof.
  unfold MAX_SHIFT, retry_millis. intros Ha. rewrite Z.shiftl_mul_pow2 by lia. rewrite Z.mul_1_l. apply wrap_small.
  assert (2 ^ count a <= 2 ^ 10) by (apply Z.pow_le_mono_r; lia). assert (0 < 2 ^ count a) by (apply Z.pow_pos_nonneg; lia). lia.
Qed.

(** Side connections retry with growing delays. For a count of attempts that
    stays within its bound, deferring sets a retry after [2^n] milliseconds, where
    [n] is the count so far, unless one is set, and counts up to ten; a retry
    becomes ready at its instant and not before, and is withdrawn then; resuming
    withdraws it and starts the count over; and through all of them the alarm
    stands for the earliest of the book's, the side connections' and the retry's
    instants. *)
Theorem side_retries_back_off (s : Side) io now deferred has_retries : side_tracks io s -> 0 <= count (attempts s) <= MAX_SHIFT ->
  let d := defer_retry (K := K) s io now in
  let '(ready, r) := retry_ready (K := K) s io now in
  let e := resume_retry (K := K) s io in
  side_tracks io d /\ side_tracks io r /\ side_tracks io e /\ side_tracks io (finish_retry (K := K) s io deferred has_retries)
  /\ match retry s with
     | Some t => d = s /\ (ready = true <-> t <= now) /\ retry r = (if t <=? now then None else Some t)
     | None => retry d = Some (Clock.clamp_add now (2 ^ count (attempts s) * 1000000))
         /\ count (attempts d) = Z.min MAX_SHIFT (count (attempts s) + 1) /\ ready = true /\ r = s
     end
  /\ retry e = None /\ attempts e = INITIAL /\ attempts r = attempts s
  /\ book (primary d) = book (primary s) /\ book (primary r) = book (primary s) /\ book (primary e) = book (primary s).
Proof.
  intros Hs Ha d. unfold side_tracks in *.
  assert (Hsync : forall r a, let s' := side_sync (K := K) (with_retry s r a) io (side_earliest (K := K) s io) in
    alarm (primary s') = set_for (side_earliest (K := K) s' io) /\ book (primary s') = book (primary s)).
  { intros r a s'. unfold s', side_sync. simpl. split; [|by rewrite sync_book]. unfold side_earliest. simpl. rewrite sync_book. simpl.
    by apply sync_alarm. }
  assert (Hres : alarm (primary (resume_retry (K := K) s io)) = set_for (side_earliest (K := K) (resume_retry (K := K) s io) io)
    /\ book (primary (resume_retry (K := K) s io)) = book (primary s) /\ retry (resume_retry (K := K) s io) = None
    /\ attempts (resume_retry (K := K) s io) = INITIAL).
  { assert (Er : resume_retry (K := K) s io = match retry s with
      | Some _ => side_sync (K := K) (with_retry s None INITIAL) io (side_earliest (K := K) s io)
      | None => with_retry s None INITIAL end) by (destruct s as [p [t|] a]; done).
    rewrite Er. destruct (Hsync None INITIAL) as [G1 G2]. destruct (retry s) as [t|] eqn:E; [done|].
    split; [|done]. simpl. rewrite Hs. unfold side_earliest. simpl. by rewrite E. }
  destruct Hres as (Hr1 & Hr2 & Hr3 & Hr4).
  assert (Hfin : alarm (primary (finish_retry (K := K) s io deferred has_retries)) = set_for (side_earliest (K := K) (finish_retry (K := K) s io deferred has_retries) io))
    by (unfold finish_retry; by destruct (_ || _)).
  unfold d, defer_retry, retry_ready. destruct (retry s) as [t|] eqn:E.
  - destruct (Z.ltb_spec now t), (Z.leb_spec t now); try lia.
    + cbv zeta. do 4 (split; [done|]). split; [by split; [done|split; [split; [done|lia]|]]|]. done.
    + cbv zeta. destruct (Hsync None (attempts s)) as [G1 G2]. do 4 (split; [done|]). split; [by split; [done|split]|]. done.
  - unfold defer. cbv zeta. rewrite retry_millis_small by done. change (NANOS / 1000) with 1000000.
    match goal with |- context [with_retry s ?r ?a] => destruct (Hsync r a) as [G1 G2] end.
    do 4 (split; [done|]). split; [|done]. split; [done|]. split; [|done]. simpl. unfold advance, MAX_SHIFT in *.
    destruct (Z.ltb_spec (count (attempts s)) 10); simpl; lia.
Qed.
End ops.
End LivenessFacts.

(** ** Two books at work *)

Module Examples.
#[local] Existing Instances Planes.plane_min Planes.plane_min_laws Concrete.average_floor Concrete.average_floor_laws.
Abbreviation Key := (nat * Z)%type.

(** A listener with a graceful lifetime and a timeout of its application: two
    connections. *)
Module Listening.
Import Listener ListenerFacts.
Abbreviation Heap := (gmap nat (Z * Lane * Deadline)).
Definition terms : Policy := policy 30 5 (Handler.Timeout 12) (Handler.Graceful 100 7).
Definition armed_heap : Heap :=
  arm_at (arm_at (arm_at (rm_new 8 EMPTY) (0%nat, 1) Inbound 40) (1%nat, 4) Send 20) (0%nat, 1) Send 20.
Definition busy : Schedule Heap := schedule armed_heap terms.
Definition first_slot : Slot Key Heap := slot (0%nat, 1) (Some busy).
Lemma busy_keeps : keeps (C := Kind) (K := Key) (entries busy).
Proof. do 3 (eapply ed_keeps, arm_at_edited; [|by vm_compute]). by apply keeps_new. Qed.

Lemma listener_deadlines_exact_witness :
  shows busy first_slot (fun k => match k with Send => Some 20 | _ => None end) (closing first_slot 30)
  /\ is_due first_slot 19 = false /\ is_due first_slot 20 = true.
Proof.
  destruct (listener_deadlines_exact busy first_slot 30 7 eq_refl busy_keeps ltac:(by vm_compute)) as (_ & _ & _ & _ & _ & Hc & _).
  split; [|by vm_compute]. destruct Hc as (Hk & m & Hm & He). split; [exact Hk|]. exists m. split; [exact Hm|].
  eapply edited_ext; [exact He|]. intros []; by vm_compute.
Defined.
Lemma application_deadline_exact_witness :
  (apply first_slot (Handler.Ensure 3) 20).1 = Ok tt
  /\ before (deadline 20 Send) (deadline (Z.max 15 20) Application) = true
  /\ (try_arm (sealed first_slot) 50).1 = Err Sealed.
Proof.
  destruct (application_deadline_exact busy first_slot 20 3 50 eq_refl busy_keeps ltac:(by vm_compute))
    as (_ & _ & _ & He & _ & _ & _ & Hb & _ & Ht & _).
  split; [|split; [by apply Hb|exact Ht]]. cbv zeta in He. revert He. set (r := apply first_slot (Handler.Ensure 3) 20).
  intros He. exact (proj1 He).
Defined.
Lemma deadlines_fire_in_order_witness : exists s', pops 10 busy 30 = ([((1%nat, 4), Send); ((0%nat, 1), Send)], s')
  /\ NoDup [((1%nat, 4), Send); ((0%nat, 1), Send)] /\ pop s' 30 = (None, s').
Proof.
  pose proof (deadlines_fire_in_order busy 30 10 busy_keeps ltac:(vm_compute; lia)) as Hw.
  destruct (pops 10 busy 30) as [l s'] eqn:E. exists s'.
  assert (Hl : l = [((1%nat, 4), Send); ((0%nat, 1), Send)]) by (by vm_compute in E; injection E as <- _). rewrite Hl in *.
  destruct Hw as (Hn & _ & _ & _ & Hp & _). by split; [|split].
Defined.
End Listening.

(** A connector: one connection that waits for input and is bound to send. *)
Module Connecting.
Import Close Book BookFacts Liveness LivenessFacts.
Abbreviation Heap := (gmap nat (Z * Lane * Entry)).
Definition waiting : Heap :=
  arm (arm_inbound (rm_new 4 EMPTY) (2%nat, 9) 10 None 30) (2%nat, 9) Lifetime 500.
Lemma waiting_keeps : keeps (C := Kind) (K := Key) waiting.
Proof.
  eapply bc_keeps, arm_becomes; [|by vm_compute]. eapply bc_keeps, arm_inbound_becomes; [|by vm_compute]. by apply keeps_new.
Qed.
Definition watched : Deadlines Heap := deadlines waiting (Alarm.Armed 40).
(** Input was seen at 25, and 30 more are granted. *)
Definition seen_late (_ : Key) : option (option Observation) := Some (Some (Awaiting 30 25)).

Lemma connector_deadlines_exact_witness :
  shows waiting (2%nat, 9) (arms (due_at waiting (2%nat, 9)) DInbound (Some 50)) (Some 20) (arm_inbound waiting (2%nat, 9) 20 (Some 20) 30)
  /\ shows waiting (2%nat, 9) (fun _ => None) None (clear waiting (2%nat, 9)).
Proof.
  destruct (connector_deadlines_exact waiting (2%nat, 9) Send DInbound 60 20 30 (Some 20) waiting_keeps ltac:(by vm_compute))
    as (_ & _ & _ & _ & _ & Hi & Hc). by split.
Defined.
Lemma expired_deadline_resolved_witness : exists d',
  expire_step watched 40 seen_late = Some (Ignore, d') /\ due_at (book d') (2%nat, 9) DInbound = Some 55.
Proof.
  pose proof (expired_deadline_resolved watched 40 seen_late waiting_keeps) as Hw.
  destruct (expire_step watched 40 seen_late) as [[done d']|] eqn:E; [|by vm_compute in E]. exists d'.
  assert (done = Ignore) as -> by (by vm_compute in E; injection E as <- _). split; [done|].
  destruct Hw as (k & kd & t & Hd & Ht & _ & _ & Hr & _).
  by vm_compute in E; injection E as <-.
Defined.
Lemma alarm_follows_book_witness :
  (poll watched 39).1 = false /\ (poll watched 40).1 = true
  /\ tracks (K := Key) (edit (K := Key) watched (fun b => cancel b (2%nat, 9) DInbound))
  /\ alarm (edit (K := Key) watched (fun b => cancel b (2%nat, 9) DInbound)) = Alarm.Armed 500.
Proof.
  assert (Ht : tracks (K := Key) watched) by (by vm_compute).
  destruct (alarm_follows_book watched (fun b => cancel b (2%nat, 9) DInbound) SCancel (2%nat, 9) 40 5 None seen_late Ht waiting_keeps)
    as (He & _ & _ & _ & _).
  split; [by vm_compute|]. split; [by vm_compute|]. split; [exact He|by vm_compute].
Defined.
Lemma side_retries_back_off_witness : exists s,
  s = defer_retry (K := Key) (side watched None (attempts_of 3)) (Some 90) 10
  /\ retry s = Some (Clock.clamp_add 10 8000000) /\ side_tracks (K := Key) (Some 90) s.
Proof.
  pose proof (side_retries_back_off (K := Key) (side watched None (attempts_of 3)) (Some 90) 10 false false) as Hw.
  eexists. split; [done|]. destruct Hw as (Hs & _ & _ & _ & Hd & _); [by vm_compute|vm_compute; split; congruence|].
  split; [apply Hd|exact Hs].
Defined.
End Connecting.
End Examples.
