(* ===== verification/ReadySet.v ===== *)
(** * The ready set of the driver.

    Model of [src/layer0/core/src/driver/schedule/ready/arena/set]: the indices
    that are ready to run, packed two bits to an index into words of 64 bits. An
    index is ready on one of two sides; one side is drained as a batch that no
    activation joins, while activations go to the other. A summary of each side,
    one bit to a word, is the bitmap of the crate [o3], an interface here. *)

From S2P Require Import Prelude.

(** ** The bitmaps of the o3 crate, as an interface *)

(** One plane of [o3::depot::index::bitmap] over a number of rows: [bm_find] is
    [Access::find], the first row at or after a position; [bm_update v] is
    [Row::update::<v>], an insertion or a removal. *)
Class Bitmap (B : Type) := {
  bm_new : Z -> B;
  bm_is_empty : B -> bool;
  bm_find : B -> Z -> option Z;
  bm_update : bool -> B -> Z -> B;
}.

(** The promise, for the rows a plane has: [bm_rows] of them, each set or not. *)
Class BitmapLaws (B : Type) `{Bitmap B} := {
  bm_rows : B -> Z;
  bm_at : B -> Z -> bool;
  bm_new_rows n : 0 <= n -> bm_rows (bm_new n) = n /\ forall r, bm_at (bm_new n) r = false;
  bm_update_at v b r : 0 <= r < bm_rows b ->
    bm_rows (bm_update v b r) = bm_rows b
    /\ forall q, bm_at (bm_update v b r) q = if bool_decide (q = r) then v else bm_at b q;
  bm_empty b : bm_is_empty b = true <-> forall r, 0 <= r < bm_rows b -> bm_at b r = false;
  bm_finds b from : 0 <= from ->
    match bm_find b from with
    | Some r => from <= r < bm_rows b /\ bm_at b r = true /\ forall q, from <= q < r -> bm_at b q = false
    | None => forall r, from <= r < bm_rows b -> bm_at b r = false
    end;
}.

(** ** Words *)

Module Word.
Definition WORD_MAX : Z := 2 ^ 64 - 1.
(** [!w], [w << n] and [w.trailing_zeros()] of a [usize]. *)
Definition not (w : Z) : Z := Z.lxor w WORD_MAX.
Definition shl (w n : Z) : Z := Z.land (Z.shiftl w n) WORD_MAX.
Fixpoint low_zeros (p : positive) : Z := match p with xO p => 1 + low_zeros p | _ => 0 end.
Definition trailing_zeros (w : Z) : Z := match w with Zpos p => low_zeros p | _ => 64 end.
End Word.

Module ReadySet.
Import Word.

(** [Side], src/layer0/core/src/driver/schedule/ready/arena/set/state.rs:5-8. *)
Inductive Side := A | B.
#[export] Instance side_dec : EqDecision Side.
Proof. solve_decision. Defined.
(** [Phase], src/layer0/core/src/driver/schedule/ready/arena/set/state.rs:11-15. *)
Inductive Phase := Idle | Draining | Paused (side : Side).
(** [Mode], src/layer0/core/src/driver/schedule/ready/arena/set/state.rs:19-26. *)
Inductive Mode := IdleA | IdleB | DrainingA | DrainingB | PausedA | PausedB.
(** [Side::index], src/layer0/core/src/driver/schedule/ready/arena/set/state.rs:33-38. *)
Definition index (self : Side) : Z := match self with A => 0 | B => 1 end.
(** [Side::other], src/layer0/core/src/driver/schedule/ready/arena/set/state.rs:40-45. *)
Definition other (self : Side) : Side := match self with A => B | B => A end.
(** [State::active], src/layer0/core/src/driver/schedule/ready/arena/set/state.rs:55-62. *)
Definition active (self : Mode) : Side :=
  match self with
  | IdleA => A
  | IdleB => B
  | DrainingA | PausedA => B
  | DrainingB | PausedB => A
  end.
(** [State::phase], src/layer0/core/src/driver/schedule/ready/arena/set/state.rs:64-71. *)
Definition phase (self : Mode) : Phase :=
  match self with
  | IdleA | IdleB => Idle
  | DrainingA | DrainingB => Draining
  | PausedA => Paused A
  | PausedB => Paused B
  end.
(** [State::idle], src/layer0/core/src/driver/schedule/ready/arena/set/state.rs:73-78. *)
Definition idle (active : Side) : Mode := match active with A => IdleA | B => IdleB end.
(** [State::draining], src/layer0/core/src/driver/schedule/ready/arena/set/state.rs:80-85. *)
Definition draining (side : Side) : Mode := match side with A => DrainingA | B => DrainingB end.
(** [State::paused], src/layer0/core/src/driver/schedule/ready/arena/set/state.rs:87-92. *)
Definition paused (side : Side) : Mode := match side with A => PausedA | B => PausedB end.

(** [WORD_BITS], src/layer0/core/src/driver/schedule/ready/arena/set/mod.rs:126-126. *)
Definition WORD_BITS : Z := 64.
(** [ENTRIES_PER_WORD], src/layer0/core/src/driver/schedule/ready/arena/set/mod.rs:127-127. *)
Definition ENTRIES_PER_WORD : Z := WORD_BITS / 2.
(** [LOW_MASK], src/layer0/core/src/driver/schedule/ready/arena/set/mod.rs:128-128. *)
Definition LOW_MASK : Z := WORD_MAX / 3.
(** [SIDE_MASKS], src/layer0/core/src/driver/schedule/ready/arena/set/mod.rs:129-129. *)
Definition side_mask (side : Side) : Z := match side with A => LOW_MASK | B => Z.shiftl LOW_MASK 1 end.

(** [Extent::words], src/layer0/core/src/driver/schedule/ready/arena/set/mod.rs:147-150. *)
Definition words (capacity : Z) : Z := 1 + (capacity - 1) / ENTRIES_PER_WORD.

(** [Store], src/layer0/core/src/driver/schedule/ready/arena/set/mod.rs:131-133. The
    allocation in its parts: the packed words, the summaries of the two sides, the
    mode and the two cursors, each a [u16]. An index is the dense number of a
    [DynamicIndex]. *)
Record Store (P : Type) := store {
  capacity : Z; base : list Z; planes : Side -> P; mode : Mode; cursors : Side -> Z
}.
Arguments store {P}.
Arguments capacity {P}.
Arguments base {P}.
Arguments planes {P}.
Arguments mode {P}.
Arguments cursors {P}.

Section set.
Context {P : Type} `{BM : Bitmap P} {E : Type}.
Abbreviation Store := (Store P).

Definition with_base (s : Store) (b : list Z) : Store := store (capacity s) b (planes s) (mode s) (cursors s).
Definition with_plane (s : Store) (side : Side) (p : P) : Store :=
  store (capacity s) (base s) (fun x => if bool_decide (x = side) then p else planes s x) (mode s) (cursors s).
Definition with_mode (s : Store) (m : Mode) : Store := store (capacity s) (base s) (planes s) m (cursors s).
Definition with_cursor (s : Store) (side : Side) (c : Z) : Store :=
  store (capacity s) (base s) (planes s) (mode s) (fun x => if bool_decide (x = side) then c else cursors s x).

(** [Set::try_new], src/layer0/core/src/driver/schedule/ready/arena/set/mod.rs:32-38, with
    [Store::try_new], when its allocation succeeds. *)
Definition try_new (cap : Z) : Store :=
  store cap (replicate (Z.to_nat (words cap)) 0) (fun _ => bm_new (words cap)) IdleA (fun _ => 0).

(** [get_unchecked]: a row outside the words is undefined behaviour. *)
Definition word (s : Store) (row : Z) : run E Z :=
  match base s !! Z.to_nat row with Some w => Ok w | None => Stuck Undefined end.

(** [Store::publish], src/layer0/core/src/driver/schedule/ready/arena/set/mod.rs:212-225. *)
Definition publish (SET : bool) (s : Store) (row : Z) (side : Side) (before after : Z) : run E Store :=
  let! _ := word s row in
  let s := with_base s (<[Z.to_nat row := after]> (base s)) in
  let stable := if SET then before else after in
  Ok (if Z.land stable (side_mask side) =? 0
      then with_plane s side (bm_update SET (planes s side) row)
      else s).

(** [Store::insert], src/layer0/core/src/driver/schedule/ready/arena/set/mod.rs:227-242. *)
Definition store_insert (s : Store) (side : Side) (i : Z) : run E Store :=
  let row := i / ENTRIES_PER_WORD in
  let shift := (i mod ENTRIES_PER_WORD) * 2 in
  let! current := word s row in
  if negb (Z.land current (shl 3 shift) =? 0) then Ok s
  else publish true s row side current (Z.lor current (shl 1 (shift + index side))).

(** [Store::remove], src/layer0/core/src/driver/schedule/ready/arena/set/mod.rs:245-262. *)
Definition store_remove {R} (s : Store) (i : Z) (removed absent : R) : run E (R * Store) :=
  let row := i / ENTRIES_PER_WORD in
  let shift := (i mod ENTRIES_PER_WORD) * 2 in
  let! current := word s row in
  let bits := Z.land current (shl 3 shift) in
  if bits =? 0 then Ok (absent, s)
  else
    let side := if negb (Z.land bits LOW_MASK =? 0) then A else B in
    let! s := publish false s row side current (Z.land current (not bits)) in
    Ok (removed, s).

(** [Store::take], src/layer0/core/src/driver/schedule/ready/arena/set/mod.rs:281-321. *)
Definition take (s : Store) (side : Side) (start : Z) : run E (option Z * Store) :=
  if capacity s <=? start then Ok (None, s)
  else
    let shift := (start mod ENTRIES_PER_WORD) * 2 + index side in
    let first := start / ENTRIES_PER_WORD in
    let! current := word s first in
    let selected := Z.land (Z.land current (side_mask side)) (shl WORD_MAX shift) in
    let! found :=
      (if negb (selected =? 0) then Ok (Some (first, current, selected))
       else match bm_find (planes s side) (first + 1) with
            | None => Ok None
            | Some row =>
                let! current := word s row in
                Ok (Some (row, current, Z.land current (side_mask side)))
            end) in
    match found with
    | None => Ok (None, s)
    | Some (row, current, bits) =>
        let bit := trailing_zeros bits in
        let! s := publish false s row side current (Z.land current (not (shl 1 bit))) in
        let i := row * ENTRIES_PER_WORD + bit / 2 in
        let s := with_cursor s side (if i + 1 =? capacity s then 0 else as_u16 i + 1) in
        if as_u16 i + 1 <? 65536 then Ok (Some i, s) else Stuck Panic
    end.

(** [Store::next], src/layer0/core/src/driver/schedule/ready/arena/set/mod.rs:264-270. *)
Definition next (s : Store) (side : Side) : run E (option Z * Store) :=
  let start := cursors s side in
  let! (item, s) := take s side start in
  match item with
  | None => if negb (start =? 0) then take s side 0 else Ok (None, s)
  | Some i => Ok (Some i, s)
  end.

(** [Set::is_empty], src/layer0/core/src/driver/schedule/ready/arena/set/mod.rs:40-44. *)
Definition is_empty (s : Store) : bool := bm_is_empty (planes s A) && bm_is_empty (planes s B).
(** [Readiness], src/layer0/core/src/driver/schedule/ready/mod.rs:41-44. *)
Inductive Readiness := RIdle | Ready.
(** [Set::insert], src/layer0/core/src/driver/schedule/ready/arena/set/mod.rs:70-72. *)
Definition insert (s : Store) (i : Z) : run E Store := store_insert s (active (mode s)) i.
(** [Set::remove], src/layer0/core/src/driver/schedule/ready/arena/set/mod.rs:74-80. *)
Definition remove (s : Store) (i : Z) : run E (Readiness * Store) := store_remove s i Ready RIdle.
(** [Set::clear], src/layer0/core/src/driver/schedule/ready/arena/set/mod.rs:82-84. *)
Definition clear (s : Store) (i : Z) : run E Store := let! (_, s) := store_remove s i tt tt in Ok s.

(** [Set::start], src/layer0/core/src/driver/schedule/ready/arena/set/mod.rs:86-99. *)
Definition start (s : Store) : option Side :=
  match phase (mode s) with
  | Draining => None
  | Paused side => Some (if bm_is_empty (planes s side) then active (mode s) else side)
  | Idle => Some (active (mode s))
  end.
(** [Set::seal], src/layer0/core/src/driver/schedule/ready/arena/set/mod.rs:111-121. *)
Definition seal (s : Store) (side : Side) : Store :=
  let pending := other side in
  if bm_is_empty (planes s pending) then with_mode s (idle pending) else with_mode s (paused pending).
(** [Set::pause], src/layer0/core/src/driver/schedule/ready/arena/set/mod.rs:101-109. *)
Definition pause (s : Store) (side : Side) : Store :=
  if bm_is_empty (planes s side) then seal s side else with_mode s (paused side).

(** [Set::drain], src/layer0/core/src/driver/schedule/ready/arena/set/mod.rs:46-68,
    the rest of its loop after [i] was taken: [i] is activated, and
    with a permit of the budget the next index is taken. [activate] is the
    caller's closure with its state. A budget is its number of permits: without
    one nothing is taken, and a permit is kept when nothing is there. *)
Fixpoint drain_loop {C} (activate : C -> Z -> Store -> run E (C * Store)) (side : Side)
    (work : nat) (drained : Z) (c : C) (s : Store) (i : Z) : run E (Z * nat * C * Store) :=
  let drained := drained + 1 in
  let! (c, s) := activate c i s in
  match work with
  | O => Ok (drained, O, c, s)
  | S rest =>
      let! (item, s) := next s side in
      match item with
      | None => Ok (drained, S rest, c, s)
      | Some i => drain_loop activate side rest drained c s i
      end
  end.
(** [Set::drain], src/layer0/core/src/driver/schedule/ready/arena/set/mod.rs:46-68. How many it
    drained, and the permits it left. *)
Definition drain {C} (activate : C -> Z -> Store -> run E (C * Store)) (work : nat) (c : C) (s : Store)
    : run E (Z * nat * C * Store) :=
  match start s with
  | None => Ok (0, work, c, s)
  | Some side =>
      let! (drained, work, c, s) :=
        match work with
        | O => Ok (0, O, c, s)
        | S rest =>
            let! (item, s) := next s side in
            match item with
            | None => Ok (0, S rest, c, s)
            | Some i => drain_loop activate side rest 0 c (with_mode s (draining side)) i
            end
        end in
      Ok (drained, work, c, pause s side)
  end.
End set.
End ReadySet.

(** ** An executable plane *)

Module Planes64.
(** A plane as the bits of one number. *)
Record Plane := plane { rows : Z; bits : Z }.
Fixpoint first_from (fuel : nat) (b : Z) (from : Z) : option Z :=
  match fuel with
  | O => None
  | S fuel => if Z.testbit b from then Some from else first_from fuel b (from + 1)
  end.
#[export] Instance plane_bitmap : Bitmap Plane := {|
  bm_new n := plane n 0;
  bm_is_empty p := negb (bool_decide (is_Some (first_from (Z.to_nat (rows p)) (bits p) 0)));
  bm_find p from := first_from (Z.to_nat (rows p - from)) (bits p) from;
  bm_update v p r := plane (rows p) (if v then Z.setbit (bits p) r else Z.clearbit (bits p) r);
|}.

Lemma first_from_spec fuel b from : 0 <= from ->
  match first_from fuel b from with
  | Some r => from <= r < from + Z.of_nat fuel /\ Z.testbit b r = true /\ forall q, from <= q < r -> Z.testbit b q = false
  | None => forall r, from <= r < from + Z.of_nat fuel -> Z.testbit b r = false
  end.
Proof.
  revert from. induction fuel as [|fuel IH]; intros from Hf; cbn [first_from]; [lia|].
  destruct (Z.testbit b from) eqn:Eb.
  - split; [lia|]. split; [done|lia].
  - specialize (IH (from + 1) ltac:(lia)). destruct (first_from fuel b (from + 1)) as [r|].
    + destruct IH as (H1 & H2 & H3). split; [lia|]. split; [done|]. intros q Hq.
      destruct (decide (q = from)) as [->|]; [done|]. apply H3. lia.
    + intros r Hr. destruct (decide (r = from)) as [->|]; [done|]. apply IH. lia.
Qed.

#[export] Instance plane_laws : BitmapLaws Plane.
Proof.
  refine {| bm_rows := rows; bm_at p r := Z.testbit (bits p) r && (0 <=? r) |}.
  - intros n Hn. split; [done|]. intros r. simpl. by rewrite Z.bits_0.
  - intros v p r Hr. split; [done|]. intros q. simpl. destruct v; case_bool_decide as Hq; subst.
    + rewrite Z.setbit_eq by lia. apply Z.leb_le. lia.
    + destruct (Z.leb_spec 0 q); [by rewrite Z.setbit_neq by lia|by rewrite !andb_false_r].
    + by rewrite Z.clearbit_eq.
    + by rewrite Z.clearbit_neq by done.
  - intros p. pose proof (first_from_spec (Z.to_nat (rows p)) (bits p) 0 ltac:(lia)) as Hs. simpl.
    destruct (first_from _ _ _) as [r|].
    + split; [done|]. intros Ha. destruct Hs as (H1 & H2 & _). specialize (Ha r ltac:(lia)). rewrite H2 in Ha. destruct (Z.leb_spec 0 r); [done|lia].
    + split; [|done]. intros _ r Hr. rewrite Hs by lia. done.
  - intros p from Hf. pose proof (first_from_spec (Z.to_nat (rows p - from)) (bits p) from Hf) as Hs. simpl.
    destruct (first_from _ _ _) as [r|].
    + destruct Hs as (H1 & H2 & H3). split; [lia|]. rewrite H2. split; [by apply Z.leb_le; lia|]. intros q Hq. by rewrite H3.
    + intros r Hr. rewrite Hs by lia. done.
Defined.
End Planes64.
