(* ===== verification/ReadySetFacts.v ===== *)
(** * The ready set is two sets of indices.

    The packed words and summaries of [ReadySet] seen as a map from an index to
    the side it is ready on; what each operation does to that map; the batches a
    drain yields; and that no ready index waits forever. *)

From Stdlib Require Import Sorting.Sorted.
From S2P Require Import Prelude ReadySet.

(** Linear arithmetic with quotients and remainders. *)
Ltac zdiv := Z.div_mod_to_equations; lia.

Module WordFacts.
Import Word ReadySet.

Lemma testbit_high w n : 0 <= w < 2 ^ 64 -> 64 <= n -> Z.testbit w n = false.
Proof.
  intros Hw Hn. destruct (decide (w = 0)) as [->|Hz]; [apply Z.bits_0|].
  apply Z.bits_above_log2; [lia|]. apply Z.log2_lt_pow2; [lia|].
  assert (2 ^ 64 <= 2 ^ n) by (apply Z.pow_le_mono_r; lia). lia.
Qed.
Lemma testbit_max n : 0 <= n -> Z.testbit WORD_MAX n = (n <? 64).
Proof.
  intros Hn. change WORD_MAX with (Z.ones 64).
  destruct (Z.ltb_spec n 64); [apply Z.ones_spec_low; lia|apply Z.ones_spec_high; lia].
Qed.
Lemma testbit_not w n : 0 <= n -> Z.testbit (not w) n = xorb (Z.testbit w n) (n <? 64).
Proof. intros Hn. unfold not. by rewrite Z.lxor_spec, testbit_max. Qed.
Lemma testbit_shl w k n : 0 <= n -> Z.testbit (shl w k) n = Z.testbit w (n - k) && (n <? 64).
Proof. intros Hn. unfold shl. by rewrite Z.land_spec, Z.shiftl_spec, testbit_max. Qed.
Lemma testbit_1 n : Z.testbit 1 n = (n =? 0).
Proof. destruct n as [|[]|]; done. Qed.
Lemma testbit_3 n : Z.testbit 3 n = (n =? 0) || (n =? 1).
Proof. destruct n as [|[[]|[]|]|]; done. Qed.
(** A word without a set bit is zero. *)
Lemma word_zero w : 0 <= w -> w = 0 <-> forall n, 0 <= n -> Z.testbit w n = false.
Proof.
  intros Hw. split; [intros -> n _; apply Z.bits_0|]. intros Hb. apply Z.bits_inj'. intros n Hn. rewrite Z.bits_0. by apply Hb.
Qed.
Lemma testbit_mask side n : 0 <= n -> Z.testbit (side_mask side) n = (n <? 64) && (n mod 2 =? index side).
Proof.
  intros Hn. destruct (Z.ltb_spec n 64) as [Hlt|Hge].
  - assert (Hall : forallb (fun k => Bool.eqb (Z.testbit (side_mask side) (Z.of_nat k)) (Z.of_nat k mod 2 =? index side)) (seq 0 64) = true)
      by (by destruct side).
    rewrite forallb_forall in Hall. specialize (Hall (Z.to_nat n)). rewrite Z2Nat.id in Hall by lia.
    apply Bool.eqb_prop. apply Hall. apply in_seq. lia.
  - apply testbit_high; [destruct side; vm_compute; split; congruence|done].
Qed.

Lemma low_zeros_spec p : 0 <= low_zeros p /\ Z.testbit (Zpos p) (low_zeros p) = true
  /\ forall n, 0 <= n < low_zeros p -> Z.testbit (Zpos p) n = false.
Proof.
  induction p as [p IH|p IH|]; cbn [low_zeros]; [split; [lia|split; [done|lia]]| |split; [lia|split; [done|lia]]].
  destruct IH as (H1 & H2 & H3). rewrite (Pos2Z.inj_xO p). split; [lia|]. split.
  - rewrite Z.add_1_l. by rewrite Z.testbit_even_succ by done.
  - intros n Hn. destruct (decide (n = 0)) as [->|]; [by rewrite Z.testbit_even_0|].
    replace n with (Z.succ (n - 1)) by lia. rewrite Z.testbit_even_succ by lia. apply H3. lia.
Qed.
Lemma trailing_zeros_spec w : 0 < w < 2 ^ 64 -> 0 <= trailing_zeros w < 64
  /\ Z.testbit w (trailing_zeros w) = true /\ forall n, 0 <= n < trailing_zeros w -> Z.testbit w n = false.
Proof.
  intros Hw. destruct w as [|p|p]; [lia| |lia]. destruct (low_zeros_spec p) as (H1 & H2 & H3). cbn [trailing_zeros].
  split; [|done]. split; [done|]. destruct (Z.lt_ge_cases (low_zeros p) 64) as [|Hge]; [done|].
  rewrite testbit_high in H2 by (done || lia). done.
Qed.
(** Words from their bits. *)
Lemma word_range w : 0 <= w -> (forall n, 64 <= n -> Z.testbit w n = false) -> 0 <= w < 2 ^ 64.
Proof.
  intros H0 Hb. split; [done|]. destruct (decide (w = 0)) as [->|Hz]; [lia|].
  apply Z.log2_lt_pow2; [lia|]. destruct (Z.lt_ge_cases (Z.log2 w) 64) as [|Hge]; [done|].
  specialize (Hb _ Hge). rewrite Z.bit_log2 in Hb by lia. done.
Qed.
Lemma land_range v w : 0 <= v < 2 ^ 64 -> 0 <= Z.land v w < 2 ^ 64.
Proof.
  intros Hv. apply word_range; [apply Z.land_nonneg; lia|]. intros n Hn. rewrite Z.land_spec, testbit_high by (done || lia). done.
Qed.
Lemma shl_range v k : 0 <= shl v k < 2 ^ 64.
Proof. unfold shl. rewrite Z.land_comm. apply land_range. vm_compute. split; congruence. Qed.
Lemma set_bit w k n : 0 <= k < 64 -> 0 <= n -> Z.testbit (Z.lor w (shl 1 k)) n = if bool_decide (n = k) then true else Z.testbit w n.
Proof.
  intros Hk Hn. rewrite Z.lor_spec, testbit_shl, testbit_1 by done. case_bool_decide as He.
  - subst. rewrite Z.sub_diag. simpl. destruct (Z.ltb_spec k 64); [|lia]. by rewrite orb_true_r.
  - destruct (Z.eqb_spec (n - k) 0); [lia|]. by rewrite orb_false_r.
Qed.
Lemma clear_bit w k n : 0 <= w < 2 ^ 64 -> 0 <= k < 64 -> 0 <= n ->
  Z.testbit (Z.land w (not (shl 1 k))) n = if bool_decide (n = k) then false else Z.testbit w n.
Proof.
  intros Hw Hk Hn. rewrite Z.land_spec, testbit_not, testbit_shl, testbit_1 by done. destruct (Z.ltb_spec n 64) as [Hlt|Hge].
  - case_bool_decide as He; [subst; by rewrite Z.sub_diag, andb_false_r|]. destruct (Z.eqb_spec (n - k) 0); [lia|]. by rewrite andb_true_r.
  - rewrite (testbit_high w) by done. by case_bool_decide.
Qed.

(** The two bits of a slot. *)
Lemma slot_bits w p n : 0 <= p < 32 -> 0 <= n ->
  Z.testbit (Z.land w (shl 3 (p * 2))) n = Z.testbit w n && ((n =? p * 2) || (n =? p * 2 + 1)).
Proof.
  intros Hp Hn. rewrite Z.land_spec, testbit_shl, testbit_3 by done. f_equal.
  destruct (Z.eqb_spec (n - p * 2) 0), (Z.eqb_spec (n - p * 2) 1), (Z.eqb_spec n (p * 2)), (Z.eqb_spec n (p * 2 + 1)), (Z.ltb_spec n 64); simpl; lia.
Qed.
Lemma slot_zero w p : 0 <= w < 2 ^ 64 -> 0 <= p < 32 ->
  (Z.land w (shl 3 (p * 2)) =? 0) = negb (Z.testbit w (p * 2)) && negb (Z.testbit w (p * 2 + 1)).
Proof.
  intros Hw Hp. apply Bool.eq_iff_eq_true. rewrite Z.eqb_eq, andb_true_iff, !negb_true_iff.
  rewrite word_zero by (apply Z.land_nonneg; lia). split.
  - intros Hz. pose proof (Hz (p * 2) ltac:(lia)) as H1. pose proof (Hz (p * 2 + 1) ltac:(lia)) as H2.
    rewrite slot_bits, Z.eqb_refl in H1, H2 by lia. rewrite orb_true_l, andb_true_r in H1. by rewrite orb_true_r, andb_true_r in H2.
  - intros [H1 H2] n Hn. rewrite slot_bits by lia.
    destruct (Z.eqb_spec n (p * 2)) as [->|]; [by rewrite H1|]. destruct (Z.eqb_spec n (p * 2 + 1)) as [->|]; [by rewrite H2|]. by rewrite andb_false_r.
Qed.
Lemma mask_zero w side : 0 <= w < 2 ^ 64 ->
  Z.land w (side_mask side) = 0 <-> forall p, 0 <= p < 32 -> Z.testbit w (2 * p + index side) = false.
Proof.
  intros Hw. rewrite word_zero by (apply Z.land_nonneg; lia). split.
  - intros Hz p Hp. specialize (Hz (2 * p + index side) ltac:(destruct side; simpl; lia)).
    rewrite Z.land_spec, testbit_mask in Hz by (destruct side; simpl; lia).
    rewrite Z.add_comm, Z.mul_comm, Z.mod_add, (Z.mod_small (index side)) in Hz by (destruct side; simpl; lia).
    rewrite Z.eqb_refl, andb_true_r in Hz. destruct (Z.ltb_spec (index side + p * 2) 64); [|destruct side; simpl in *; lia].
    rewrite andb_true_r in Hz. by rewrite Z.add_comm, Z.mul_comm.
  - intros Hz n Hn. rewrite Z.land_spec, testbit_mask by done. destruct (Z.ltb_spec n 64); [|by rewrite andb_false_r].
    destruct (Z.eqb_spec (n mod 2) (index side)) as [He|]; [|by rewrite andb_false_r].
    specialize (Hz (n / 2) ltac:(zdiv)). replace (2 * (n / 2) + index side) with n in Hz by (rewrite <- He; zdiv). by rewrite Hz.
Qed.
End WordFacts.

Module SetFacts.
Import Word WordFacts ReadySet.

Section facts.
Context {P : Type} `{BL : BitmapLaws P} {E : Type}.
Abbreviation Store := (Store P).
Implicit Types s : Store.

(** The word of a row, the bit of an index on a side, and the side an index is
    ready on. *)
Definition w_at s r : Z := default 0 (base s !! Z.to_nat r).
Definition bit s side i : bool := Z.testbit (w_at s (i / 32)) (2 * (i mod 32) + index side).
Definition view s i : option Side := if bit s A i then Some A else if bit s B i then Some B else None.
Definition rows s : Z := words (capacity s).

(** A well-formed store: as many words as its extent says, each of 64 bits; no
    index on both sides and none beyond the capacity; summaries that show which
    words have an index of a side; cursors within the capacity. *)
Record sound s : Prop := {
  so_cap : 0 < capacity s < 65536;
  so_len : Z.of_nat (length (base s)) = rows s;
  so_word r : 0 <= w_at s r < 2 ^ 64;
  so_one i : 0 <= i -> ~ (bit s A i = true /\ bit s B i = true);
  so_out side i : capacity s <= i -> i < 32 * rows s -> bit s side i = false;
  so_rows side : bm_rows (planes s side) = rows s;
  so_plane side r : 0 <= r < rows s -> bm_at (planes s side) r = true <-> exists i, i / 32 = r /\ bit s side i = true;
  so_cursor side : 0 <= cursors s side < capacity s;
}.

Lemma rows_cap s i : 0 < capacity s -> 0 <= i < capacity s -> 0 <= i / 32 < rows s.
Proof. unfold rows, words. change ENTRIES_PER_WORD with 32. intros. zdiv. Qed.
Lemma cap_rows s : 0 < capacity s -> capacity s <= 32 * rows s.
Proof. unfold rows, words. change ENTRIES_PER_WORD with 32. intros. zdiv. Qed.
Lemma sides_differ side side' : side <> side' -> side' = other side.
Proof. by destruct side, side'. Qed.
Lemma view_bit s i side : sound s -> 0 <= i -> view s i = Some side <-> bit s side i = true.
Proof.
  intros Hs Hi. unfold view. pose proof (so_one s Hs i Hi) as Hone.
  destruct (bit s A i) eqn:EA, (bit s B i) eqn:EB, side; split; intros; try congruence; by destruct Hone.
Qed.
Lemma view_none s i : view s i = None <-> bit s A i = false /\ bit s B i = false.
Proof. unfold view. destruct (bit s A i), (bit s B i); naive_solver. Qed.
Lemma view_cap s i side : sound s -> 0 <= i -> view s i = Some side -> i < capacity s.
Proof.
  intros Hs Hi Hv. apply view_bit in Hv; [|done..]. destruct (Z.lt_ge_cases i (capacity s)) as [|Hge]; [done|].
  destruct (Z.lt_ge_cases i (32 * rows s)) as [Hlt|Hout]; [by rewrite (so_out s Hs side i) in Hv|].
  unfold bit, w_at in Hv. rewrite lookup_ge_None_2 in Hv; [by rewrite Z.bits_0 in Hv|].
  pose proof (so_len s Hs). apply Nat2Z.inj_le. rewrite Z2Nat.id; zdiv.
Qed.
Lemma word_ok s r : sound s -> 0 <= r < rows s -> word (E := E) s r = Ok (w_at s r).
Proof.
  intros Hs Hr. unfold word, w_at. pose proof (so_len s Hs) as Hl.
  destruct (lookup_lt_is_Some_2 (base s) (Z.to_nat r)) as [w ->]; [lia|done].
Qed.

(** [s'] is [s] with [o] for the side of [i]. *)
Record sets s i (o : option Side) s' : Prop := {
  st_sound : sound s';
  st_cap : capacity s' = capacity s;
  st_mode : mode s' = mode s;
  st_cursors : cursors s' = cursors s;
  st_view j : 0 <= j -> view s' j = if bool_decide (j = i) then o else view s j;
}.

(** [s'] is [s] with the bit of [i] on [side] turned to [v], and the summary of
    [side] brought up to date when no other index of the word is on [side]. *)
Record flips s i side (v : bool) s' : Prop := {
  fl_cap : capacity s' = capacity s;
  fl_mode : mode s' = mode s;
  fl_cursors : cursors s' = cursors s;
  fl_len : length (base s') = length (base s);
  fl_word r : 0 <= w_at s' r < 2 ^ 64;
  fl_bit sd j : 0 <= j -> bit s' sd j = if bool_decide (j = i /\ sd = side) then v else bit s sd j;
  fl_planes : (forall sd, planes s' sd = if bool_decide (sd = side) then bm_update v (planes s side) (i / 32) else planes s sd)
      /\ (forall j, j / 32 = i / 32 -> j <> i -> bit s side j = false)
    \/ planes s' = planes s /\ (exists j, j / 32 = i / 32 /\ j <> i /\ bit s side j = true);
}.

(** Whether a word has an index of [side] besides [i]. *)
Lemma alone_or_not s i side : 0 <= i ->
  (forall j, j / 32 = i / 32 -> j <> i -> bit s side j = false) \/ (exists j, j / 32 = i / 32 /\ j <> i /\ bit s side j = true).
Proof.
  intros Hi. set (at_ p := i / 32 * 32 + Z.of_nat p).
  destruct (decide (Exists (fun p => at_ p <> i /\ bit s side (at_ p) = true) (seq 0 32))) as [Hx|Hx].
  - right. apply Exists_exists in Hx as (p & Hp%elem_of_seq & Hne & Hb). exists (at_ p). unfold at_. split; [zdiv|done].
  - left. intros j Hj Hne. destruct (bit s side j) eqn:Eb; [|done]. destruct Hx. apply Exists_exists.
    assert (Ha : at_ (Z.to_nat (j mod 32)) = j) by (unfold at_; rewrite Z2Nat.id by zdiv; zdiv).
    exists (Z.to_nat (j mod 32)). rewrite Ha, elem_of_seq. split; [zdiv|done].
Qed.

(** Masking the stable word tells which. *)
Lemma stable_alone s i side w : 0 <= i -> 0 <= w < 2 ^ 64 ->
  (forall n, 0 <= n -> Z.testbit w n = if bool_decide (n = 2 * (i mod 32) + index side) then false else Z.testbit (w_at s (i / 32)) n) ->
  Z.land w (side_mask side) = 0 <-> forall j, j / 32 = i / 32 -> j <> i -> bit s side j = false.
Proof.
  intros Hi Hw Hb. rewrite mask_zero by done. split.
  - intros Hz j Hj Hne. specialize (Hz (j mod 32) ltac:(zdiv)). rewrite Hb in Hz by (destruct side; simpl; zdiv).
    rewrite bool_decide_eq_false_2 in Hz by zdiv. unfold bit. by rewrite Hj.
  - intros Hz p Hp. rewrite Hb by (destruct side; simpl; lia). case_bool_decide as He; [done|].
    assert (Hq : (i / 32 * 32 + p) / 32 = i / 32 /\ (i / 32 * 32 + p) mod 32 = p) by zdiv. destruct Hq as [Hq Hm].
    specialize (Hz (i / 32 * 32 + p) Hq ltac:(zdiv)). unfold bit in Hz. by rewrite Hq, Hm in Hz.
Qed.

(** Replacing a word by one that differs in the bit of [i] on [side]. *)
Lemma publish_flips s i side (v : bool) after : sound s -> 0 <= i < capacity s ->
  bit s side i = negb v -> 0 <= after < 2 ^ 64 ->
  (forall n, 0 <= n -> Z.testbit after n
     = if bool_decide (n = 2 * (i mod 32) + index side) then v else Z.testbit (w_at s (i / 32)) n) ->
  exists s', publish (E := E) v s (i / 32) side (w_at s (i / 32)) after = Ok s' /\ flips s i side v s'.
Proof.
  intros Hs Hi Hold Hrange Hafter. pose proof (so_cap s Hs) as Hc. pose proof (rows_cap s i ltac:(lia) Hi) as Hr.
  pose proof (so_len s Hs) as Hl. unfold publish. rewrite word_ok by done. simpl.
  set (t := with_base s (<[Z.to_nat (i / 32):=after]> (base s))).
  set (stable := if v then w_at s (i / 32) else after).
  set (s' := if Z.land stable (side_mask side) =? 0 then _ else t). exists s'. split; [done|].
  assert (Hst : Z.land stable (side_mask side) = 0 <-> forall j, j / 32 = i / 32 -> j <> i -> bit s side j = false).
  { apply stable_alone; [lia|unfold stable; destruct v; [apply (so_word s Hs)|done]|].
    intros n Hn. unfold stable. destruct v; [|by apply Hafter]. case_bool_decide; [subst; apply Hold|done]. }
  assert (Hb : base s' = base t) by (unfold s'; by destruct (_ =? _)).
  assert (Hw : forall r, 0 <= r -> w_at s' r = if bool_decide (r = i / 32) then after else w_at s r).
  { intros r Hr0. unfold w_at. rewrite Hb. unfold t. simpl.
    case_bool_decide as He; [subst r; by rewrite list_lookup_insert_eq by lia|]. rewrite list_lookup_insert_ne; [done|]. lia. }
  assert (Hw0 : forall r, 0 <= r -> 0 <= w_at s' r < 2 ^ 64) by (intros; rewrite Hw by done; case_bool_decide; [done|apply (so_word s Hs)]).
  split.
  - unfold s'. by destruct (_ =? _).
  - unfold s'. by destruct (_ =? _).
  - unfold s'. by destruct (_ =? _).
  - rewrite Hb. apply length_insert.
  - intros r. destruct (Z.lt_ge_cases r 0) as [Hneg|]; [|by apply Hw0].
    assert (w_at s' r = w_at s' 0) as -> by (unfold w_at; by rewrite Z2Nat.nonpos by lia). by apply Hw0.
  - intros sd j Hj. unfold bit. rewrite Hw by zdiv. case_bool_decide as He.
    + rewrite He, Hafter by (destruct sd; simpl; zdiv). case_bool_decide as Hn; case_bool_decide as Ha; try done.
      * destruct Ha. destruct sd, side; simpl in *; split; try done; zdiv.
      * by destruct Ha as [-> ->].
    + rewrite bool_decide_eq_false_2; [done|]. by intros [-> _].
  - destruct (alone_or_not s i side ltac:(lia)) as [Ha|Ha].
    + left. split; [|done]. intros sd. unfold s'. rewrite (proj2 Hst Ha). simpl. by case_bool_decide.
    + right. split; [|done]. unfold s'. destruct (Z.eqb_spec (Z.land stable (side_mask side)) 0) as [Hz|]; [|done].
      destruct Ha as (j & Hj & Hne & Hbj). by rewrite (proj1 Hst Hz) in Hbj.
Qed.

(** After a flip, the words of a side that have an index of it. *)
Lemma flips_occupied s i side v s' sd r : flips s i side v s' -> 0 <= i -> 0 <= r ->
  (exists j, j / 32 = r /\ bit s' sd j = true) <->
  if bool_decide (r = i / 32 /\ sd = side) then v = true \/ exists j, j / 32 = i / 32 /\ j <> i /\ bit s side j = true
  else exists j, j / 32 = r /\ bit s sd j = true.
Proof.
  intros Hf Hi Hr. case_bool_decide as He.
  - destruct He as [-> ->]. split.
    + intros (j & Hj & Hb). rewrite (fl_bit _ _ _ _ _ Hf) in Hb by zdiv. case_bool_decide as Hc'; [by left|].
      right. exists j. split; [done|]. split; [|done]. naive_solver.
    + intros [-> | (j & Hj & Hne & Hb)].
      * exists i. split; [done|]. rewrite (fl_bit _ _ _ _ _ Hf) by lia. by rewrite bool_decide_eq_true_2.
      * exists j. split; [done|]. rewrite (fl_bit _ _ _ _ _ Hf) by zdiv. rewrite bool_decide_eq_false_2 by tauto. done.
  - split; intros (j & Hj & Hb); exists j; (split; [done|]).
    + rewrite (fl_bit _ _ _ _ _ Hf) in Hb by zdiv. rewrite bool_decide_eq_false_2 in Hb by naive_solver. done.
    + rewrite (fl_bit _ _ _ _ _ Hf) by zdiv. rewrite bool_decide_eq_false_2 by naive_solver. done.
Qed.

(** Its summaries show them. *)
Lemma flips_planes s i side v s' sd : sound s -> 0 <= i < capacity s -> flips s i side v s' ->
  bm_rows (planes s' sd) = rows s
  /\ forall r, 0 <= r < rows s -> bm_at (planes s' sd) r = true <-> exists j, j / 32 = r /\ bit s' sd j = true.
Proof.
  intros Hs Hi Hf. pose proof (rows_cap s i ltac:(pose proof (so_cap s Hs); lia) Hi) as Hri.
  pose proof (bm_update_at v (planes s side) (i / 32)) as Hu. rewrite (so_rows s Hs) in Hu. specialize (Hu Hri) as [Hu1 Hu2].
  destruct (fl_planes _ _ _ _ _ Hf) as [[Hp Hnone]|[Hp Hsome]].
  - rewrite Hp. case_bool_decide as Hsd.
    + subst sd. split; [done|]. intros r Hr. rewrite Hu2, (flips_occupied s i side v s') by (done || lia).
      case_bool_decide as Hre.
      * rewrite bool_decide_eq_true_2 by done. split; [by left|]. intros [?|(j & Hj & Hne & Hb)]; [done|]. by rewrite Hnone in Hb.
      * rewrite bool_decide_eq_false_2 by tauto. by apply (so_plane s Hs).
    + split; [apply (so_rows s Hs)|]. intros r Hr. rewrite (flips_occupied s i side v s') by (done || lia).
      rewrite bool_decide_eq_false_2 by tauto. by apply (so_plane s Hs).
  - rewrite Hp. split; [apply (so_rows s Hs)|]. intros r Hr. rewrite (flips_occupied s i side v s') by (done || lia).
    rewrite (so_plane s Hs) by done. case_bool_decide as He; [|done]. destruct He as [-> ->].
    split; [by right|]. intros _. destruct Hsome as (j & Hj & _ & Hb). by exists j.
Qed.

Lemma flips_view s i side v s' : sound s -> 0 <= i -> flips s i side v s' -> bit s side i = negb v -> (v = true -> view s i = None) ->
  forall j, 0 <= j -> view s' j = if bool_decide (j = i) then (if v then Some side else None) else view s j.
Proof.
  intros Hs Hi Hf Hold Hfree j Hj. unfold view at 1. rewrite !(fl_bit _ _ _ _ _ Hf) by done. destruct (decide (j = i)) as [->|He].
  - assert (Ho : bit s (other side) i = false).
    { destruct v; [destruct (proj1 (view_none s i) (Hfree eq_refl)); by destruct side|].
      pose proof (so_one s Hs i Hi) as Ho. simpl in Hold. apply not_true_iff_false. intros Ht. apply Ho. by destruct side. }
    rewrite (bool_decide_eq_true_2 (i = i)) by done.
    destruct side; simpl in Ho; rewrite ?Ho.
    + rewrite (bool_decide_eq_true_2 (i = i /\ A = A)), (bool_decide_eq_false_2 (i = i /\ B = A)) by naive_solver. by destruct v.
    + rewrite (bool_decide_eq_true_2 (i = i /\ B = B)), (bool_decide_eq_false_2 (i = i /\ A = B)) by naive_solver. by destruct v.
  - rewrite !bool_decide_eq_false_2 by tauto. done.
Qed.

Lemma flips_sets s i side v s' : sound s -> 0 <= i < capacity s -> flips s i side v s' ->
  bit s side i = negb v -> (v = true -> view s i = None) -> sets s i (if v then Some side else None) s'.
Proof.
  intros Hs Hi Hf Hold Hfree. pose proof (flips_view s i side v s' Hs ltac:(lia) Hf Hold Hfree) as Hv.
  pose proof (fl_cap _ _ _ _ _ Hf) as Hcap. assert (Hrows : rows s' = rows s) by (unfold rows; by rewrite Hcap).
  split; try done; [|apply (fl_mode _ _ _ _ _ Hf)|apply (fl_cursors _ _ _ _ _ Hf)].
  split; rewrite ?Hcap, ?Hrows.
  - apply (so_cap s Hs).
  - rewrite (fl_len _ _ _ _ _ Hf). apply (so_len s Hs).
  - apply (fl_word _ _ _ _ _ Hf).
  - intros j Hj [HA HB]. rewrite !(fl_bit _ _ _ _ _ Hf) in HA, HB by done.
    case_bool_decide as H1; case_bool_decide as H2; [naive_solver| | |by apply (so_one s Hs j Hj)];
      match goal with G : _ /\ _ |- _ => destruct G as [-> <-] end;
      destruct (proj1 (view_none s i) (Hfree ltac:(assumption))); congruence.
  - intros sd j Hj Hlt. rewrite (fl_bit _ _ _ _ _ Hf) by lia. rewrite bool_decide_eq_false_2 by lia. by apply (so_out s Hs).
  - intros sd. by apply (flips_planes s i side v s').
  - intros sd r Hr. by apply (flips_planes s i side v s').
  - intros sd. rewrite (fl_cursors _ _ _ _ _ Hf). apply (so_cursor s Hs).
Qed.

Lemma publish_sets s i side (v : bool) after : sound s -> 0 <= i < capacity s ->
  bit s side i = negb v -> (v = true -> view s i = None) -> 0 <= after < 2 ^ 64 ->
  (forall n, 0 <= n -> Z.testbit after n
     = if bool_decide (n = 2 * (i mod 32) + index side) then v else Z.testbit (w_at s (i / 32)) n) ->
  exists s', publish (E := E) v s (i / 32) side (w_at s (i / 32)) after = Ok s' /\ sets s i (if v then Some side else None) s'.
Proof.
  intros Hs Hi Hold Hfree Hr Hafter. destruct (publish_flips s i side v after Hs Hi Hold Hr Hafter) as (s' & He & Hf).
  exists s'. split; [done|by apply flips_sets].
Qed.
Lemma sets_refl s i : sound s -> sets s i (view s i) s.
Proof. intros Hs. split; try done. intros j Hj. case_bool_decide; by subst. Qed.

Lemma index_range side : 0 <= index side < 2.
Proof. destruct side; simpl; lia. Qed.
Lemma slot_view s i : sound s -> 0 <= i -> (Z.land (w_at s (i / 32)) (shl 3 ((i mod 32) * 2)) =? 0) = bool_decide (view s i = None).
Proof.
  intros Hs Hi. rewrite slot_zero by (try apply (so_word s Hs); zdiv). apply Bool.eq_iff_eq_true.
  rewrite bool_decide_eq_true, view_none, andb_true_iff, !negb_true_iff. unfold bit. simpl.
  by rewrite Z.add_0_r, (Z.mul_comm 2).
Qed.

(** An insertion: an index that is ready stays where it is. *)
Lemma store_insert_sets s side i : sound s -> 0 <= i < capacity s ->
  exists s', store_insert (E := E) s side i = Ok s'
    /\ sets s i (match view s i with None => Some side | o => o end) s'.
Proof.
  intros Hs Hi. pose proof (rows_cap s i ltac:(pose proof (so_cap s Hs); lia) Hi) as Hr. pose proof (index_range side) as Hix.
  unfold store_insert. change ENTRIES_PER_WORD with 32. rewrite word_ok by done. cbn [bind]. rewrite slot_view by (done || lia).
  destruct (view s i) as [sd|] eqn:Ev; [exists s; split; [done|rewrite <- Ev; by apply sets_refl]|]. rewrite bool_decide_eq_true_2 by done. simpl.
  pose proof (so_word s Hs (i / 32)) as Hw. replace (i mod 32 * 2 + index side) with (2 * (i mod 32) + index side) by lia.
  apply (publish_sets s i side true); try done.
  - apply view_none in Ev as [? ?]. by destruct side.
  - apply word_range; [apply Z.lor_nonneg; split; [lia|apply shl_range]|]. intros n Hn.
    rewrite set_bit by zdiv. case_bool_decide; [zdiv|by apply testbit_high].
  - intros n Hn. apply set_bit; [zdiv|done].
Qed.

(** The bits of a ready index are its one bit, and tell its side. *)
Lemma slot_one s i sd n : sound s -> 0 <= i -> view s i = Some sd -> 0 <= n ->
  Z.testbit (Z.land (w_at s (i / 32)) (shl 3 (i mod 32 * 2))) n = bool_decide (n = 2 * (i mod 32) + index sd).
Proof.
  intros Hs Hi Ev Hn. rewrite slot_bits by zdiv. apply view_bit in Ev; [|done..].
  pose proof (so_one s Hs i Hi) as Hone. unfold bit in Ev, Hone. simpl in Hone. rewrite Z.add_0_r in Hone.
  rewrite (Z.mul_comm (i mod 32)). set (a := 2 * (i mod 32)) in *. set (w := w_at s (i / 32)) in *.
  destruct (Z.eqb_spec n a) as [->|Na]; [|destruct (Z.eqb_spec n (a + 1)) as [->|Nb]]; rewrite ?andb_true_r, ?andb_false_r; simpl.
  - destruct sd; simpl in *; [rewrite Z.add_0_r in *; by rewrite bool_decide_eq_true_2|].
    rewrite bool_decide_eq_false_2 by lia. apply not_true_iff_false. tauto.
  - destruct sd; simpl in *; [|by rewrite bool_decide_eq_true_2].
    rewrite Z.add_0_r in *. rewrite bool_decide_eq_false_2 by lia. apply not_true_iff_false. tauto.
  - rewrite bool_decide_eq_false_2; [done|]. destruct sd; simpl; lia.
Qed.
Lemma slot_side s i sd : sound s -> 0 <= i -> view s i = Some sd ->
  (if negb (Z.land (Z.land (w_at s (i / 32)) (shl 3 (i mod 32 * 2))) LOW_MASK =? 0) then A else B) = sd.
Proof.
  intros Hs Hi Ev. pose proof (fun n => slot_one s i sd n Hs Hi Ev) as Hbits.
  assert (Hz : (Z.land (Z.land (w_at s (i / 32)) (shl 3 (i mod 32 * 2))) LOW_MASK =? 0) = bool_decide (sd = B)).
  { apply Bool.eq_iff_eq_true. rewrite Z.eqb_eq, bool_decide_eq_true. change LOW_MASK with (side_mask A).
    rewrite mask_zero by (apply land_range, (so_word s Hs)). split.
    - intros Hz. specialize (Hz (i mod 32) ltac:(zdiv)). rewrite Hbits in Hz by (simpl; zdiv). destruct sd; simpl in Hz; [|done].
      by rewrite bool_decide_eq_true_2 in Hz.
    - intros -> p Hp. rewrite Hbits by (simpl; lia). rewrite bool_decide_eq_false_2; [done|simpl; lia]. }
  rewrite Hz. destruct sd; [by rewrite bool_decide_eq_false_2|by rewrite bool_decide_eq_true_2].
Qed.

(** A removal, from whichever side. *)
Lemma store_remove_sets {R} s i (removed absent : R) : sound s -> 0 <= i < capacity s ->
  exists s', store_remove (E := E) s i removed absent = Ok (match view s i with Some _ => removed | None => absent end, s')
    /\ sets s i None s'.
Proof.
  intros Hs Hi. pose proof (rows_cap s i ltac:(pose proof (so_cap s Hs); lia) Hi) as Hr.
  unfold store_remove. change ENTRIES_PER_WORD with 32. rewrite word_ok by done. cbn [bind]. rewrite slot_view by (done || lia).
  destruct (view s i) as [sd|] eqn:Ev; [|exists s; split; [done|rewrite <- Ev; by apply sets_refl]].
  rewrite bool_decide_eq_false_2 by done. pose proof (index_range sd) as Hix. rewrite (slot_side s i sd) by (done || lia).
  pose proof (fun n => slot_one s i sd n Hs (proj1 Hi) Ev) as Hbits.
  pose proof (so_word s Hs (i / 32)) as Hw. set (w := w_at s (i / 32)) in *. set (bits := Z.land w (shl 3 (i mod 32 * 2))) in *.
  apply view_bit in Ev; [|done|lia].
  assert (Hafter : forall n, 0 <= n -> Z.testbit (Z.land w (not bits)) n = if bool_decide (n = 2 * (i mod 32) + index sd) then false else Z.testbit w n).
  { intros n Hn. rewrite Z.land_spec, testbit_not, Hbits by done. case_bool_decide as He.
    - destruct (Z.ltb_spec n 64); [by rewrite andb_false_r|zdiv].
    - destruct (Z.ltb_spec n 64); [by rewrite andb_true_r|by rewrite (testbit_high w) by done]. }
  destruct (publish_sets s i sd false (Z.land w (not bits)) Hs Hi Ev ltac:(done) ltac:(by apply land_range) Hafter) as (s' & He & Hset).
  exists s'. fold w in He. by rewrite He.
Qed.

(** ** The next index of a side *)

(** [s'] is [s] without [i], and with the cursor of [side] after it. *)
Record taken s side i s' : Prop := {
  tk_sound : sound s';
  tk_cap : capacity s' = capacity s;
  tk_mode : mode s' = mode s;
  tk_cursor sd : cursors s' sd = if bool_decide (sd = side) then (if i + 1 =? capacity s then 0 else i + 1) else cursors s sd;
  tk_view j : 0 <= j -> view s' j = if bool_decide (j = i) then None else view s j;
}.

(** The lowest bit of a masked word is the first index of the side in it. *)
Lemma lowest_index s r side lo bits : 0 <= r -> 0 <= lo -> 0 < bits < 2 ^ 64 ->
  (forall n, 0 <= n -> Z.testbit bits n = Z.testbit (w_at s r) n && (n mod 2 =? index side) && (lo <=? n)) ->
  let i := r * 32 + trailing_zeros bits / 2 in
  i / 32 = r /\ 2 * (i mod 32) + index side = trailing_zeros bits /\ bit s side i = true /\ lo <= trailing_zeros bits
  /\ forall j, j / 32 = r -> lo <= 2 * (j mod 32) + index side -> bit s side j = true -> i <= j.
Proof.
  intros Hr Hlo Hb Hbits i. destruct (trailing_zeros_spec bits Hb) as (H1 & H2 & H3). set (z := trailing_zeros bits) in *.
  rewrite Hbits in H2 by lia. apply andb_true_iff in H2 as [[H2 Hm]%andb_true_iff Hl]. apply Z.eqb_eq in Hm. apply Z.leb_le in Hl.
  assert (Hq : i / 32 = r /\ i mod 32 = z / 2) by (unfold i; zdiv). destruct Hq as [Hq Hi].
  assert (Hz : 2 * (i mod 32) + index side = z) by (rewrite Hi, <- Hm; zdiv).
  split; [done|]. split; [done|]. split; [unfold bit; by rewrite Hq, Hz|]. split; [done|].
  intros j Hj Hjl Hbj. destruct (Z.le_gt_cases i j) as [|Hlt]; [done|]. exfalso. pose proof (index_range side) as Hix.
  specialize (H3 (2 * (j mod 32) + index side) ltac:(zdiv)). rewrite Hbits in H3 by zdiv.
  unfold bit in Hbj. rewrite Hj in Hbj. rewrite Hbj in H3.
  destruct (Z.eqb_spec ((2 * (j mod 32) + index side) mod 2) (index side)); [|zdiv].
  destruct (Z.leb_spec lo (2 * (j mod 32) + index side)); [done|lia].
Qed.

Lemma with_cursor_taken s side i t : sets s i None t -> 0 <= i < capacity s ->
  taken s side i (with_cursor t side (if i + 1 =? capacity t then 0 else as_u16 i + 1)).
Proof.
  intros [Hs Hc Hm Hcu Hv] Hi. pose proof (so_cap t Hs) as Hcap. rewrite as_u16_small by lia.
  split; try done; [|intros sd; simpl; case_bool_decide; [by rewrite Hc|by rewrite Hcu]].
  destruct Hs. split; try done. intros sd. simpl. case_bool_decide; [|done]. destruct (Z.eqb_spec (i + 1) (capacity t)); lia.
Qed.

(** Taking what the selected bits of a row show. *)
Lemma take_row s r side lo bits (R : option Z * Store -> Prop) : sound s -> 0 <= r < rows s -> 0 <= lo -> 0 < bits < 2 ^ 64 ->
  (forall n, 0 <= n -> Z.testbit bits n = Z.testbit (w_at s r) n && (n mod 2 =? index side) && (lo <=? n)) ->
  (forall i s', 0 <= i < capacity s -> i / 32 = r -> view s i = Some side -> lo <= 2 * (i mod 32) + index side ->
     (forall j, j / 32 = r -> lo <= 2 * (j mod 32) + index side -> bit s side j = true -> i <= j) -> taken s side i s' -> R (Some i, s')) ->
  yields (let bit := trailing_zeros bits in
    let! s := publish (E := E) false s r side (w_at s r) (Z.land (w_at s r) (not (shl 1 bit))) in
    let i := r * ENTRIES_PER_WORD + bit / 2 in
    let s := with_cursor s side (if i + 1 =? capacity s then 0 else as_u16 i + 1) in
    if as_u16 i + 1 <? 65536 then Ok (Some i, s) else Stuck Panic) R.
Proof.
  intros Hs Hr Hlo Hb Hbits HR. destruct (lowest_index s r side lo bits ltac:(lia) Hlo Hb Hbits) as (Hq & Hz & Hbi & Hl & Hmin).
  cbv zeta. change ENTRIES_PER_WORD with 32. set (i := r * 32 + trailing_zeros bits / 2) in *.
  destruct (trailing_zeros_spec bits Hb) as (Hz1 & _ & _).
  assert (Hv : view s i = Some side) by (apply view_bit; [done|unfold i; zdiv|done]).
  assert (Hi : 0 <= i < capacity s) by (split; [unfold i; zdiv|apply (view_cap s i side); [done|unfold i; zdiv|done]]).
  pose proof (so_cap s Hs) as Hcap. pose proof (so_word s Hs r) as Hw.
  destruct (publish_sets s i side false (Z.land (w_at s r) (not (shl 1 (trailing_zeros bits)))) Hs Hi Hbi ltac:(done)) as (t & He & Ht).
  - by apply land_range.
  - intros n Hn. rewrite Hz, Hq. apply clear_bit; [done|lia|done].
  - rewrite Hq in He. rewrite He. cbn [bind]. pose proof (st_cap _ _ _ _ Ht) as Hct.
    pose proof (with_cursor_taken s side i t Ht Hi) as Htk.
    destruct (Z.ltb_spec (as_u16 i + 1) 65536) as [|Hbad]; [|rewrite as_u16_small in Hbad by lia; lia].
    eexists. split; [done|]. apply HR; try done. by rewrite Hz.
Qed.

(** A word masked to a side, when the side has an index in it. *)
Lemma masked_row s r side k : sound s -> k / 32 = r -> bit s side k = true ->
  0 < Z.land (w_at s r) (side_mask side) < 2 ^ 64
  /\ forall n, 0 <= n -> Z.testbit (Z.land (w_at s r) (side_mask side)) n = Z.testbit (w_at s r) n && (n mod 2 =? index side) && (0 <=? n).
Proof.
  intros Hs Hk Hbk. pose proof (index_range side) as Hix.
  assert (Hb : forall n, 0 <= n -> Z.testbit (Z.land (w_at s r) (side_mask side)) n = Z.testbit (w_at s r) n && (n mod 2 =? index side) && (0 <=? n)).
  { intros n Hn. rewrite Z.land_spec, testbit_mask by done. destruct (Z.leb_spec 0 n); [|lia]. rewrite andb_true_r.
    destruct (Z.ltb_spec n 64); [done|]. by rewrite (testbit_high (w_at s r)) by (apply (so_word s Hs) || lia). }
  split; [|done]. pose proof (land_range (w_at s r) (side_mask side) (so_word s Hs r)) as Hlr. split; [|lia].
  destruct (decide (Z.land (w_at s r) (side_mask side) = 0)) as [H0|]; [|lia].
  specialize (Hb (2 * (k mod 32) + index side) ltac:(zdiv)). rewrite H0, Z.bits_0 in Hb. unfold bit in Hbk. rewrite Hk in Hbk.
  rewrite Hbk in Hb. destruct (Z.eqb_spec ((2 * (k mod 32) + index side) mod 2) (index side)); [|zdiv].
  destruct (Z.leb_spec 0 (2 * (k mod 32) + index side)); [done|zdiv].
Qed.

(** [take] yields the first index of the side at or after [st]. *)
Lemma take_first s side st : sound s -> 0 <= st ->
  yields (take (E := E) s side st) (fun '(item, s') =>
    match item with
    | Some i => st <= i < capacity s /\ view s i = Some side /\ (forall j, st <= j < i -> view s j <> Some side) /\ taken s side i s'
    | None => s' = s /\ forall j, st <= j -> view s j <> Some side
    end).
Proof.
  intros Hs Hst. pose proof (so_cap s Hs) as Hcap. pose proof (index_range side) as Hix. unfold take.
  destruct (Z.leb_spec (capacity s) st) as [Hout|Hin].
  { apply yields_Ok. split; [done|]. intros j Hj Hv. apply view_cap in Hv; [lia|done|lia]. }
  change ENTRIES_PER_WORD with 32. pose proof (rows_cap s st ltac:(lia) ltac:(lia)) as Hr.
  rewrite word_ok by done. cbn [bind]. pose proof (so_word s Hs (st / 32)) as Hw.
  set (lo := st mod 32 * 2 + index side). set (sel := Z.land _ (shl WORD_MAX lo)).
  assert (Hsel : forall n, 0 <= n -> Z.testbit sel n = Z.testbit (w_at s (st / 32)) n && (n mod 2 =? index side) && (lo <=? n)).
  { intros n Hn. unfold sel. rewrite !Z.land_spec, testbit_mask, testbit_shl by done. destruct (Z.ltb_spec n 64); [|by rewrite testbit_high].
    rewrite andb_true_r, andb_true_l. f_equal. destruct (Z.leb_spec lo n); [rewrite testbit_max by lia; apply Z.ltb_lt; unfold lo in *; zdiv|].
    apply Z.testbit_neg_r. lia. }
  assert (Hsr : 0 <= sel < 2 ^ 64) by (by apply land_range, land_range).
  destruct (Z.eqb_spec sel 0) as [Hz|Hnz]; simpl.
  - assert (Hnone : forall j, j / 32 = st / 32 -> st <= j -> bit s side j = false).
    { intros j Hj Hle. destruct (bit s side j) eqn:Eb; [|done]. unfold bit in Eb. rewrite Hj in Eb.
      pose proof (Hsel (2 * (j mod 32) + index side) ltac:(zdiv)) as Hs2. rewrite Hz, Z.bits_0, Eb in Hs2.
      destruct (Z.eqb_spec ((2 * (j mod 32) + index side) mod 2) (index side)); [|zdiv].
      destruct (Z.leb_spec lo (2 * (j mod 32) + index side)); [done|]. unfold lo in *. zdiv. }
    pose proof (bm_finds (planes s side) (st / 32 + 1) ltac:(lia)) as Hf. rewrite (so_rows s Hs) in Hf.
    destruct (bm_find (planes s side) (st / 32 + 1)) as [r|]; simpl.
    + destruct Hf as (Hrr & Hat & Hbefore). rewrite word_ok by (done || lia). cbn [bind].
      apply (so_plane s Hs) in Hat as (k & Hk & Hbk); [|lia].
      destruct (masked_row s r side k Hs ltac:(done) Hbk) as [Hm1 Hm2].
      apply (take_row s r side 0); try done; [lia|].
      intros i s' Hi Hq Hv _ Hmin Ht. split; [zdiv|]. split; [done|]. split; [|done]. intros j Hj Hvj.
      apply view_bit in Hvj; [|done|lia]. destruct (decide (j / 32 = st / 32)); [by rewrite Hnone in Hvj by (done || lia)|].
      destruct (decide (j / 32 = r)); [specialize (Hmin j ltac:(done) ltac:(zdiv) Hvj); lia|].
      specialize (Hbefore (j / 32) ltac:(zdiv)). assert (bm_at (planes s side) (j / 32) = true) by (apply (so_plane s Hs); [zdiv|by exists j]). congruence.
    + apply yields_Ok. split; [done|]. intros j Hj Hv. pose proof (view_cap s j side Hs ltac:(lia) Hv) as Hjc. apply view_bit in Hv; [|done|lia].
      destruct (decide (j / 32 = st / 32)); [by rewrite Hnone in Hv by (done || lia)|].
      pose proof (rows_cap s j ltac:(lia) ltac:(lia)) as Hrj. specialize (Hf (j / 32) ltac:(zdiv)).
      assert (bm_at (planes s side) (j / 32) = true) by (apply (so_plane s Hs); [done|by exists j]). congruence.
  - apply (take_row s (st / 32) side lo); try done; [unfold lo; zdiv|lia|].
    intros i s' Hi Hq Hv Hl Hmin Ht. split; [unfold lo in *; zdiv|]. split; [done|]. split; [|done]. intros j Hj Hvj.
    apply view_bit in Hvj; [|done|lia]. specialize (Hmin j ltac:(zdiv) ltac:(unfold lo; zdiv) Hvj). lia.
Qed.

(** The place of an index in the cycle of a capacity that starts at a cursor. *)
Definition turn (cap cursor j : Z) : Z := (j - cursor) mod cap.
Lemma turn_cases cap cursor j : 0 <= cursor < cap -> 0 <= j < cap ->
  turn cap cursor j = if cursor <=? j then j - cursor else j - cursor + cap.
Proof.
  intros Hc Hj. unfold turn. destruct (Z.leb_spec cursor j); [by rewrite Z.mod_small by lia|].
  rewrite <- (Z.mod_add _ 1) by lia. rewrite Z.mod_small; lia.
Qed.
(** Moving the start past [i] keeps the order of those after it. *)
Lemma turn_shift cap c i j : 0 <= c < cap -> 0 <= i < cap -> 0 <= j < cap -> turn cap c i < turn cap c j ->
  turn cap (if i + 1 =? cap then 0 else i + 1) j = turn cap c j - turn cap c i - 1.
Proof.
  intros Hc Hi Hj. destruct (Z.eqb_spec (i + 1) cap); rewrite !turn_cases by lia;
    repeat match goal with |- context [?a <=? ?b] => destruct (Z.leb_spec a b) end; lia.
Qed.

(** [next] yields the index of the side whose turn is next after the cursor. *)
Lemma set_next_first s side : sound s ->
  yields (next (E := E) s side) (fun '(item, s') =>
    match item with
    | Some i => 0 <= i < capacity s /\ view s i = Some side /\ taken s side i s'
        /\ forall j, 0 <= j -> view s j = Some side -> turn (capacity s) (cursors s side) i <= turn (capacity s) (cursors s side) j
    | None => s' = s /\ forall j, 0 <= j -> view s j <> Some side
    end).
Proof.
  intros Hs. pose proof (so_cursor s Hs side) as Hc. unfold next. set (c := cursors s side) in *.
  destruct (take_first s side c Hs ltac:(lia)) as ([[i|] s'] & He & Hp); rewrite He; cbn [bind].
  - apply yields_Ok. destruct Hp as (Hi & Hv & Hmin & Ht). split; [lia|]. split; [done|]. split; [done|]. intros j Hj Hvj.
    pose proof (view_cap s j side Hs Hj Hvj). rewrite !turn_cases by lia.
    destruct (Z.leb_spec c i), (Z.leb_spec c j); try lia. destruct (Z.lt_ge_cases j i); [|lia]. by destruct (Hmin j ltac:(lia)).
  - destruct Hp as [-> Hn]. destruct (Z.eqb_spec c 0) as [Hz|Hz]; simpl.
    + apply yields_Ok. split; [done|]. intros j Hj. apply Hn. lia.
    + eapply yields_impl; [apply (take_first s side 0 Hs); lia|]. intros [[i|] s'].
      * intros (Hi & Hv & Hmin & Ht). split; [lia|]. split; [done|]. split; [done|]. intros j Hj Hvj.
        pose proof (view_cap s j side Hs Hj Hvj). rewrite !turn_cases by lia.
        destruct (Z.leb_spec c i) as [Hci|]; [by destruct (Hn i Hci)|]. destruct (Z.leb_spec c j) as [Hcj|]; [by destruct (Hn j Hcj)|].
        destruct (Z.lt_ge_cases j i); [|lia]. by destruct (Hmin j ltac:(lia)).
      * intros [-> Hn']. split; [done|]. intros j Hj. by apply Hn'.
Qed.

Lemma plane_empty s side : sound s -> bm_is_empty (planes s side) = true <-> forall i, 0 <= i -> view s i <> Some side.
Proof.
  intros Hs. rewrite bm_empty, (so_rows s Hs). split.
  - intros Ha i Hi Hv. pose proof (view_cap s i side Hs Hi Hv) as Hic. apply view_bit in Hv; [|done..].
    pose proof (rows_cap s i ltac:(pose proof (so_cap s Hs); lia) ltac:(lia)) as Hr. specialize (Ha _ Hr).
    assert (bm_at (planes s side) (i / 32) = true) by (apply (so_plane s Hs); [done|by exists i]). congruence.
  - intros Hn r Hr. destruct (bm_at (planes s side) r) eqn:Eb; [|done]. apply (so_plane s Hs) in Eb as (i & Hi & Hb); [|done].
    destruct (Hn i ltac:(zdiv)). apply view_bit; [done|zdiv|done].
Qed.
Lemma new_sound cap : 0 < cap < 65536 -> sound (try_new cap) /\ forall i, view (try_new cap) i = None.
Proof.
  intros Hc. assert (Hw : forall r, w_at (try_new cap) r = 0).
  { intros r. unfold w_at. simpl. destruct (_ !! _) as [w|] eqn:E0; [|done]. by apply lookup_replicate in E0 as [-> _]. }
  assert (Hb : forall sd i, bit (try_new cap) sd i = false) by (intros; unfold bit; by rewrite Hw, Z.bits_0).
  assert (H0 : 0 <= words cap) by (unfold words; change ENTRIES_PER_WORD with 32; zdiv).
  destruct (bm_new_rows (words cap) H0) as [H1 H2]. split.
  - split; try done.
    + simpl. rewrite length_replicate. unfold rows. simpl. lia.
    + intros r. rewrite Hw. lia.
    + intros i _. rewrite !Hb. by intros [].
    + intros sd r _. simpl. rewrite H2. split; [done|]. intros (i & _ & Hbi). by rewrite Hb in Hbi.
    + intros sd. simpl. lia.
  - intros i. apply view_none. by rewrite !Hb.
Qed.
End facts.
End SetFacts.

(** ** Drains *)

Module DrainFacts.
Import ReadySet SetFacts.

(** What code does to the set from outside a drain, or from the closure of one. *)
Inductive Cmd := Insert (i : Z) | Remove (i : Z).
Definition target (c : Cmd) : Z := match c with Insert i | Remove i => i end.
Definition admitted (cap : Z) (cs : list Cmd) : Prop := Forall (fun c => 0 <= target c < cap) cs.

Section drains.
Context {P : Type} `{BL : BitmapLaws P} {E C : Type}.
Abbreviation Store := (Store P).
Implicit Types s : Store.

Definition exec (s : Store) (c : Cmd) : run E Store := match c with Insert i => insert s i | Remove i => clear s i end.
Fixpoint exec_all (s : Store) (cs : list Cmd) : run E Store :=
  match cs with [] => Ok s | c :: cs => let! s := exec s c in exec_all s cs end.

(** A closure that logs what it is given and reacts to it with commands. *)
Context (react : C -> Z -> Store -> list Cmd * C).
Definition logged (c : list Z * C) (i : Z) (s : Store) : run E (list Z * C * Store) :=
  let '(cs, c') := react c.2 i s in
  let! s := exec_all s cs in Ok (c.1 ++ [i], c', s).
Definition reacts_within (cap : Z) : Prop := forall c i s, admitted cap (react c i s).1.
Definition never_removes (j : Z) : Prop := forall c i s, Remove j ∉ (react c i s).1.

(** What commands leave: the side under way only loses indices, and an index that
    is ready stays on its side unless it is removed. *)
Record meanwhile (cs : list Cmd) s s' : Prop := {
  mw_sound : sound s';
  mw_cap : capacity s' = capacity s;
  mw_mode : mode s' = mode s;
  mw_cursors : cursors s' = cursors s;
  mw_batch j : 0 <= j -> view s' j = Some (other (active (mode s))) -> view s j = Some (other (active (mode s)));
  mw_keep j : 0 <= j -> Remove j ∉ cs -> is_Some (view s j) -> view s' j = view s j;
}.

Lemma insert_sets s i : sound s -> 0 <= i < capacity s ->
  exists s', insert (E := E) s i = Ok s' /\ sets s i (Some (default (active (mode s)) (view s i))) s'.
Proof.
  intros Hs Hi. destruct (store_insert_sets (E := E) s (active (mode s)) i Hs Hi) as (s' & He & Hset).
  exists s'. split; [done|]. by destruct (view s i).
Qed.
Lemma clear_sets s i : sound s -> 0 <= i < capacity s -> exists s', clear (E := E) s i = Ok s' /\ sets s i None s'.
Proof.
  intros Hs Hi. unfold clear. destruct (store_remove_sets (E := E) s i tt tt Hs Hi) as (s' & He & Hset). exists s'. by rewrite He.
Qed.
Lemma other_active m : other (active m) <> active m.
Proof. by destruct m. Qed.

Lemma exec_meanwhile s c : sound s -> 0 <= target c < capacity s -> yields (exec s c) (meanwhile [c] s).
Proof.
  intros Hs Hc. destruct c as [i|i]; simpl in Hc.
  - destruct (insert_sets s i Hs Hc) as (s' & He & [H1 H2 H3 H4 Hv]). exists s'. split; [done|]. split; try done.
    + intros j Hj. rewrite Hv by done. case_bool_decide as Hji; [|done]. subst. intros [= Hd].
      destruct (view s i); simpl in Hd; [by subst|]. by destruct (other_active (mode s)).
    + intros j Hj _ Hsome. rewrite Hv by done. case_bool_decide; [|done]. subst. by destruct Hsome as [? ->].
  - destruct (clear_sets s i Hs Hc) as (s' & He & [H1 H2 H3 H4 Hv]). exists s'. split; [done|]. split; try done.
    + intros j Hj. rewrite Hv by done. by case_bool_decide.
    + intros j Hj Hn _. rewrite Hv by done. case_bool_decide; [|done]. subst. destruct Hn. by left.
Qed.
Lemma meanwhile_refl s : sound s -> meanwhile [] s s.
Proof. by split. Qed.
Lemma meanwhile_trans cs cs' s1 s2 s3 : meanwhile cs s1 s2 -> meanwhile cs' s2 s3 -> meanwhile (cs ++ cs') s1 s3.
Proof.
  intros [A1 A2 A3 A4 A5 A6] [B1 B2 B3 B4 B5 B6]. split; try congruence.
  - intros j Hj Hv. rewrite <- A3 in Hv. apply B5 in Hv; [|done]. rewrite A3 in Hv. by apply A5.
  - intros j Hj Hn Hs. rewrite elem_of_app in Hn. assert (Hk : view s2 j = view s1 j) by (apply A6; tauto).
    rewrite B6; [done..|tauto|by rewrite Hk].
Qed.
Lemma exec_all_meanwhile s cs : sound s -> admitted (capacity s) cs -> yields (exec_all s cs) (meanwhile cs s).
Proof.
  revert s. induction cs as [|c cs IH]; intros s Hs Hc; [by exists s; split; [|apply meanwhile_refl]|].
  apply Forall_cons in Hc as [Hc Hcs]. cbn [exec_all]. eapply yields_bind; [by apply exec_meanwhile|]. intros t Ht.
  eapply yields_impl; [apply IH; [apply Ht|by rewrite (mw_cap _ _ _ Ht)]|]. intros u Hu. by apply (meanwhile_trans [c] cs s t u).
Qed.

Lemma logged_meanwhile c i s : sound s -> reacts_within (capacity s) ->
  yields (logged c i s) (fun '(c', s') => c'.1 = c.1 ++ [i] /\ exists cs, meanwhile cs s s' /\ forall j, never_removes j -> Remove j ∉ cs).
Proof.
  intros Hs Hr. unfold logged. specialize (Hr c.2 i s). destruct (react c.2 i s) as [cs c'] eqn:Er.
  destruct (exec_all_meanwhile s cs Hs Hr) as (s' & -> & Hm). cbn [bind]. apply yields_Ok. split; [done|].
  exists cs. split; [done|]. intros j Hj. specialize (Hj c.2 i s). by rewrite Er in Hj.
Qed.

(** The order in which a drain takes the indices of a side. *)
Definition earlier (cap cursor a b : Z) : Prop := turn cap cursor a < turn cap cursor b.
Lemma earlier_nodup cap cursor l : StronglySorted (earlier cap cursor) l -> NoDup l.
Proof.
  induction 1 as [|a l Hl IH Ha]; constructor; [|done]. intros Hin. rewrite Forall_forall in Ha. specialize (Ha a Hin). unfold earlier in Ha. lia.
Qed.

(** What a batch of a side leaves of [s], with [l] taken. *)
Record batch side (l : list Z) s s' : Prop := {
  ba_sound : sound s';
  ba_cap : capacity s' = capacity s;
  ba_taken j : j ∈ l -> 0 <= j /\ view s j = Some side;
  ba_side j : 0 <= j -> view s' j = Some side -> view s j = Some side /\ j ∉ l;
  ba_keep j : 0 <= j -> never_removes j -> is_Some (view s j) -> j ∉ l -> view s' j = view s j;
}.

Lemma batch_nil side s s' cs : meanwhile cs s s' -> (forall j, never_removes j -> Remove j ∉ cs) ->
  other (active (mode s)) = side -> batch side [] s s'.
Proof.
  intros Hm Hr <-. split; [apply Hm|apply Hm|by intros j ?%elem_of_nil| |].
  - intros j Hj Hv. split; [by apply (mw_batch _ _ _ Hm)|apply not_elem_of_nil].
  - intros j Hj Hn Hs _. apply (mw_keep _ _ _ Hm); auto.
Qed.
Lemma batch_after side l cs s u s' : meanwhile cs s u -> (forall j, never_removes j -> Remove j ∉ cs) ->
  other (active (mode s)) = side -> batch side l u s' -> batch side l s s'.
Proof.
  intros Hm Hr Hside Hb. assert (Hback : forall j, 0 <= j -> view u j = Some side -> view s j = Some side).
  { intros j Hj. rewrite <- Hside. by apply (mw_batch _ _ _ Hm). }
  split; [apply Hb|by rewrite (ba_cap _ _ _ _ Hb), (mw_cap _ _ _ Hm)|..].
  - intros j Hj. apply (ba_taken _ _ _ _ Hb) in Hj as [H0 Hv]. split; [done|]. by apply Hback.
  - intros j Hj Hv. apply (ba_side _ _ _ _ Hb) in Hv as [Hv Hn]; [|done]. split; [by apply Hback|done].
  - intros j Hj Hn Hs Hl. rewrite <- (mw_keep _ _ _ Hm j) in Hs |- *; auto. by apply (ba_keep _ _ _ _ Hb).
Qed.
Lemma batch_taken side i l m s t s' : 0 <= i -> view s i = Some side -> taken s side i t ->
  batch side l (with_mode t m) s' -> batch side (i :: l) s s'.
Proof.
  intros Hi Hvi Ht Hb. assert (Hback : forall j, 0 <= j -> view t j = Some side -> view s j = Some side /\ j <> i).
  { intros j Hj. rewrite (tk_view _ _ _ _ Ht) by done. by case_bool_decide. }
  split; [apply Hb|rewrite (ba_cap _ _ _ _ Hb); apply (tk_cap _ _ _ _ Ht)|..].
  - intros j [->|Hj]%elem_of_cons; [done|]. apply (ba_taken _ _ _ _ Hb) in Hj as [H0 Hv]. split; [done|]. by apply Hback.
  - intros j Hj Hv. apply (ba_side _ _ _ _ Hb) in Hv as [Hv Hn]; [|done]. apply Hback in Hv as [Hv Hne]; [|done].
    split; [done|]. rewrite elem_of_cons. tauto.
  - intros j Hj Hn Hs Hl. rewrite elem_of_cons in Hl. assert (Hvt : view t j = view s j).
    { rewrite (tk_view _ _ _ _ Ht) by done. rewrite bool_decide_eq_false_2; [done|tauto]. }
    rewrite (ba_keep _ _ _ _ Hb j); [exact Hvt|done|done| |tauto]. change (is_Some (view t j)). by rewrite Hvt.
Qed.
Lemma with_mode_sound s m : sound s -> sound (with_mode s m).
Proof. by intros []. Qed.
Lemma active_draining side : other (active (draining side)) = side.
Proof. by destruct side. Qed.

(** What taking [l] of a side in order does to its cursor: what is left on the side
    comes after all of [l], and all of it moves up alike. *)
Definition moved side c0 (l : list Z) s s' : Prop :=
  cursors s' (other side) = cursors s (other side) /\ exists p, forall k, 0 <= k -> view s' k = Some side ->
    turn (capacity s) (cursors s' side) k = turn (capacity s) c0 k - p /\ forall x, x ∈ l -> earlier (capacity s) c0 x k.
(** Nothing more is taken after [i]. *)
Lemma moved_last side c0 s u i : sound s -> capacity u = capacity s -> cursors u = cursors s ->
  (forall j, 0 <= j -> view u j = Some side -> view s j = Some side) -> 0 <= c0 < capacity s -> 0 <= i < capacity s ->
  cursors s side = (if i + 1 =? capacity s then 0 else i + 1) ->
  (forall j, 0 <= j -> view s j = Some side -> earlier (capacity s) c0 i j) -> moved side c0 [i] s u.
Proof.
  intros Hs Hcap Hcu Hback Hc0 Hi Hcur Hlater. split; [by rewrite Hcu|]. exists (turn (capacity s) c0 i + 1). intros k Hk Hv.
  apply Hback in Hv; [|done]. pose proof (view_cap s k side Hs Hk Hv). pose proof (Hlater k Hk Hv) as He. split.
  - rewrite Hcu, Hcur. unfold earlier in He. rewrite (turn_shift (capacity s) c0 i k) by lia. lia.
  - by intros x ->%list_elem_of_singleton.
Qed.

(** The loop of a drain, once [i] is taken. *)
Lemma drain_loop_batch side c0 work drained c s i : sound s -> mode s = draining side -> reacts_within (capacity s) ->
  0 <= c0 < capacity s -> 0 <= i < capacity s -> cursors s side = (if i + 1 =? capacity s then 0 else i + 1) ->
  (forall j, 0 <= j -> view s j = Some side -> earlier (capacity s) c0 i j) ->
  yields (drain_loop logged side work drained c s i) (fun '(drained', rest, c', s') => exists l,
    c'.1 = c.1 ++ i :: l /\ drained' = drained + 1 + Z.of_nat (length l) /\ (length l + rest = work)%nat
    /\ batch side l s s' /\ StronglySorted (earlier (capacity s) c0) (i :: l)
    /\ ((0 < rest)%nat -> forall j, 0 <= j -> view s' j <> Some side) /\ moved side c0 (i :: l) s s').
Proof.
  revert drained c s i. induction work as [|work IH]; intros drained c s i Hs Hm Hr Hc0 Hi Hcur Hlater; cbn [drain_loop];
    (eapply yields_bind; [by apply logged_meanwhile|]); intros [c1 u] (Hlog & cs & Hmw & Hrm);
    assert (Hside : other (active (mode s)) = side) by (rewrite Hm; apply active_draining).
  - apply yields_Ok. exists []. simpl. split; [done|]. split; [lia|]. split; [done|]. split; [by eapply batch_nil|].
    split; [repeat constructor|]. split; [lia|]. apply moved_last; try done; [apply Hmw|apply Hmw|]. rewrite <- Hside. apply (mw_batch _ _ _ Hmw).
  - eapply yields_bind; [apply set_next_first, Hmw|]. intros [[i2|] t].
    + rewrite (mw_cap _ _ _ Hmw), (mw_cursors _ _ _ Hmw), Hcur. intros (Hi2 & Hv & Ht & Hmin).
      assert (Hback : forall j, 0 <= j -> view u j = Some side -> view s j = Some side).
      { intros j Hj. rewrite <- Hside. by apply (mw_batch _ _ _ Hmw). }
      assert (Hct : capacity t = capacity s) by (by rewrite (tk_cap _ _ _ _ Ht), (mw_cap _ _ _ Hmw)).
      assert (Hmt : mode t = draining side) by (by rewrite (tk_mode _ _ _ _ Ht), (mw_mode _ _ _ Hmw)).
      assert (Hback2 : forall j, 0 <= j -> view t j = Some side -> view u j = Some side /\ j <> i2).
      { intros j Hj. rewrite (tk_view _ _ _ _ Ht) by done. by case_bool_decide. }
      assert (Hii : earlier (capacity s) c0 i i2) by (apply Hlater; [lia|apply Hback; [lia|done]]).
      eapply yields_impl; [apply IH; rewrite ?Hct; try done; [apply Ht|..]|].
      * rewrite (tk_cursor _ _ _ _ Ht), (mw_cap _ _ _ Hmw). by rewrite bool_decide_eq_true_2.
      * intros j Hj Hvj. apply Hback2 in Hvj as [Hvj Hne]; [|done]. specialize (Hmin j Hj Hvj).
        pose proof (view_cap u j side (mw_sound _ _ _ Hmw) Hj Hvj) as Hjc. rewrite (mw_cap _ _ _ Hmw) in Hjc.
        pose proof (Hlater j Hj (Hback j Hj Hvj)) as Hij. unfold earlier in *.
        rewrite !(turn_shift (capacity s) c0 i) in Hmin by lia. revert Hne Hmin. rewrite !turn_cases by lia.
        destruct (Z.leb_spec c0 i2), (Z.leb_spec c0 j); lia.
      * intros [[[d' rest] c'] s'] (l & Hl1 & Hl2 & Hl3 & Hb & Hsort & Hend & Hmv). exists (i2 :: l). rewrite Hl1, Hlog, Hct in *. rewrite <- app_assoc.
        split; [done|]. simpl. split; [lia|]. split; [lia|]. split.
        { eapply (batch_after _ _ cs s u); try done. eapply (batch_taken _ i2 l (mode t) u t); try done; [lia|]. destruct Hb. by split. }
        split; [constructor; [done|]; constructor; [done|]; apply StronglySorted_inv in Hsort as [_ Hf];
          eapply Forall_impl; [exact Hf|]; unfold earlier in *; lia|]. split; [done|].
        destruct Hmv as [Ho (p & Hp)]. rewrite Hct in Hp. split.
        { rewrite Ho, (tk_cursor _ _ _ _ Ht), bool_decide_eq_false_2 by (by destruct side). by rewrite (mw_cursors _ _ _ Hmw). }
        exists p. intros k Hk Hvk. destruct (Hp k Hk Hvk) as [Hturn Hall]. split; [done|].
        intros x [->|Hx]%elem_of_cons; [|by apply Hall]. pose proof (Hall i2 ltac:(left)). unfold earlier in *. lia.
    + intros [-> Hn]. apply yields_Ok. exists []. simpl. split; [done|]. split; [lia|]. split; [done|].
      split; [by eapply batch_nil|]. split; [repeat constructor|]. split; [done|].
      apply moved_last; try done; [apply Hmw|apply Hmw|]. rewrite <- Hside. apply (mw_batch _ _ _ Hmw).
Qed.

(** Where a drain of [side] leaves the set: on the rest of its batch, on what
    became ready meanwhile, or idle. *)
Definition after (side : Side) s : Prop :=
  (exists j, 0 <= j /\ view s j = Some side) /\ mode s = paused side
  \/ (forall j, 0 <= j -> view s j <> Some side) /\ (exists j, 0 <= j /\ view s j = Some (other side)) /\ mode s = paused (other side)
  \/ (forall j, 0 <= j -> view s j = None) /\ mode s = idle (other side).

Lemma plane_occupied s side : sound s -> bm_is_empty (planes s side) = false -> exists j, 0 <= j /\ view s j = Some side.
Proof.
  intros Hs He. destruct (decide (Exists (fun j => view s j = Some side) (seqZ 0 (capacity s)))) as [Hx|Hx].
  - apply Exists_exists in Hx as (j & Hj%elem_of_seqZ & Hv). exists j. split; [lia|done].
  - assert (bm_is_empty (planes s side) = true); [|congruence]. apply plane_empty; [done|]. intros j Hj Hv. apply Hx, Exists_exists.
    exists j. split; [|done]. apply elem_of_seqZ. pose proof (view_cap s j side Hs Hj Hv). lia.
Qed.
Lemma pause_after s side : sound s -> exists m, pause s side = with_mode s m /\ after side (pause s side).
Proof.
  intros Hs. unfold pause, seal. destruct (bm_is_empty (planes s side)) eqn:E1.
  - rewrite plane_empty in E1 by done. destruct (bm_is_empty (planes s (other side))) eqn:E2; eexists; (split; [done|]).
    + rewrite plane_empty in E2 by done. right. right. split; [|done]. intros j Hj. change (view s j = None).
      destruct (view s j) as [sd|] eqn:Ev; [|done]. destruct (decide (sd = side)) as [->|]; [by destruct (E1 j Hj)|].
      destruct (E2 j Hj). rewrite Ev. f_equal. by destruct sd, side.
    + right. left. split; [done|]. split; [exact (plane_occupied s _ Hs ltac:(eassumption))|done].
  - eexists. split; [done|]. left. split; [exact (plane_occupied s _ Hs ltac:(eassumption))|done].
Qed.

(** A drain takes a batch of the side it starts, in order. *)
Lemma drain_batch work c s side : sound s -> start s = Some side -> reacts_within (capacity s) ->
  yields (drain logged work c s) (fun '(drained, rest, c', s') => exists l,
    c'.1 = c.1 ++ l /\ drained = Z.of_nat (length l) /\ (length l + rest = work)%nat
    /\ batch side l s s' /\ StronglySorted (earlier (capacity s) (cursors s side)) l
    /\ ((0 < rest)%nat -> forall j, 0 <= j -> view s' j <> Some side) /\ after side s'
    /\ ((0 < work)%nat -> l = [] -> forall j, 0 <= j -> view s j <> Some side) /\ moved side (cursors s side) l s s').
Proof.
  intros Hs Hst Hr. unfold drain. rewrite Hst.
  assert (Hpause : forall l t, batch side l s t -> exists m, pause t side = with_mode t m /\ batch side l s (pause t side) /\ after side (pause t side)).
  { intros l t Hb. destruct (pause_after t side (ba_sound _ _ _ _ Hb)) as (m & Hm & Ha). exists m. split; [done|]. split; [|done].
    rewrite Hm. destruct Hb. split; try done. by apply with_mode_sound. }
  assert (Hmoved : forall m, moved side (cursors s side) [] s (with_mode s m)).
  { intros m. split; [done|]. exists 0. intros k _ _. split; [simpl; lia|]. by intros x ?%elem_of_nil. }
  assert (Hempty : batch side [] s s).
  { split; [done|done|intros j Hj; by apply elem_of_nil in Hj| |done]. intros j Hj Hv. split; [done|apply not_elem_of_nil]. }
  destruct work as [|work].
  - cbn [bind]. apply yields_Ok. exists []. destruct (Hpause [] s Hempty) as (m & Hm & Hb & Ha). rewrite app_nil_r.
    split; [done|]. split; [done|]. split; [done|]. split; [done|]. split; [constructor|]. split; [lia|]. split; [done|].
    split; [lia|]. by rewrite Hm.
  - destruct (set_next_first (E := E) s side Hs) as ([[i|] t] & He & Hp); rewrite He; cbn [bind].
    + destruct Hp as (Hi & Hv & Ht & Hmin). pose proof (so_cursor s Hs side) as Hc0.
      eapply yields_bind.
      * eapply (drain_loop_batch side (cursors s side) work 0 c (with_mode t (draining side)) i); simpl; try done;
          rewrite ?(tk_cap _ _ _ _ Ht); try done.
        -- apply with_mode_sound, Ht.
        -- rewrite (tk_cursor _ _ _ _ Ht). by rewrite bool_decide_eq_true_2.
        -- intros j Hj. change (view t j = Some side -> earlier (capacity s) (cursors s side) i j). rewrite (tk_view _ _ _ _ Ht) by done.
           case_bool_decide as Hji; [done|]. intros Hvj. specialize (Hmin j Hj Hvj). pose proof (view_cap s j side Hs Hj Hvj).
           unfold earlier. revert Hmin. rewrite !turn_cases by lia. repeat match goal with |- context [?a <=? ?b] => destruct (Z.leb_spec a b) end; lia.
      * intros [[[d rest] c'] u] (l & Hl1 & Hl2 & Hl3 & Hb & Hsort & Hend & Hmv). simpl in Hsort. rewrite (tk_cap _ _ _ _ Ht) in Hsort.
        assert (Hbs : batch side (i :: l) s u) by (eapply batch_taken; [|done|exact Ht|exact Hb]; lia).
        destruct (Hpause _ _ Hbs) as (m & Hm & Hb' & Ha). apply yields_Ok. exists (i :: l). split; [done|]. split; [simpl; lia|].
        split; [simpl; lia|]. split; [done|]. split; [done|]. split; [rewrite Hm; exact Hend|]. split; [done|]. split; [done|].
        rewrite Hm. destruct Hmv as [Ho Hp]. cbn [with_mode capacity cursors] in Ho, Hp. rewrite (tk_cap _ _ _ _ Ht) in Hp.
        split; [|exact Hp]. cbn [with_mode cursors]. rewrite Ho, (tk_cursor _ _ _ _ Ht). by rewrite bool_decide_eq_false_2 by (by destruct side).
    + destruct Hp as [-> Hn]. apply yields_Ok. exists []. destruct (Hpause [] s Hempty) as (m & Hm & Hb & Ha). rewrite app_nil_r.
      split; [done|]. split; [done|]. split; [done|]. split; [done|]. split; [constructor|]. split; [by rewrite Hm|]. split; [done|]. split; [done|]. by rewrite Hm.
Qed.
End drains.
End DrainFacts.

(** ** What the set promises *)

Module SetLaws.
Import ReadySet SetFacts DrainFacts.

Section laws.
Context {P : Type} `{BL : BitmapLaws P} {E C : Type}.
Abbreviation Store := (Store P).
Implicit Types s : Store.

(** While no drain is under way or owed, no index is on the side that is not
    filled. *)
Definition settled s : Prop := phase (mode s) = Idle -> forall j, 0 <= j -> view s j <> Some (other (active (mode s))).

Lemma meanwhile_settled cs s s' : settled s -> meanwhile cs s s' -> settled s'.
Proof.
  intros Hst Hm. unfold settled. rewrite (mw_mode _ _ _ Hm). intros Hp j Hj Hv. apply (Hst Hp j Hj). by apply (mw_batch _ _ _ Hm).
Qed.
Lemma after_settled side s : after side s -> settled s.
Proof.
  intros [[_ Hm]|[(_ & _ & Hm)|[Hn Hm]]]; unfold settled; rewrite Hm; [by destruct side..|]. intros _ j Hj. by rewrite Hn.
Qed.

(** ** Fairness *)

Definition count s (b : Side) : Z := Z.of_nat (length (filter (fun j => view s j = Some b) (seqZ 0 (capacity s)))).
Lemma elem_ready s b j : sound s -> j ∈ filter (fun j => view s j = Some b) (seqZ 0 (capacity s)) <-> 0 <= j /\ view s j = Some b.
Proof.
  intros Hs. rewrite list_elem_of_filter, elem_of_seqZ. split; [intros (? & ?); split; [lia|done]|].
  intros [Hj Hv]. pose proof (view_cap s j b Hs Hj Hv). split; [done|lia].
Qed.
Lemma count_drops s s' b l : sound s -> sound s' -> NoDup l -> (forall j, j ∈ l -> 0 <= j /\ view s j = Some b) ->
  (forall j, 0 <= j -> view s' j = Some b -> view s j = Some b /\ j ∉ l) -> count s' b + Z.of_nat (length l) <= count s b.
Proof.
  intros Hs Hs' Hnd Hl Hv. unfold count. rewrite <- Nat2Z.inj_add, <- length_app. apply Nat2Z.inj_le, submseteq_length, NoDup_submseteq.
  - apply NoDup_app. split; [apply NoDup_filter, NoDup_seqZ|]. split; [|done]. intros j Hj. apply elem_ready in Hj as [H0 Hj]; [|done].
    by apply Hv.
  - intros j [Hj|Hj]%elem_of_app; apply elem_ready; try done; [|by apply Hl]. apply elem_ready in Hj as [H0 Hj]; [|done]. split; [done|]. by apply Hv.
Qed.
Lemma count_range s b : sound s -> 0 <= count s b <= capacity s.
Proof.
  intros Hs. unfold count. split; [lia|]. pose proof (so_cap s Hs). etransitivity; [apply inj_le, length_filter|]. rewrite length_seqZ. lia.
Qed.

(** The indices of [side] that come no later than [j] from its cursor, [j] with
    them. *)
Definition ahead s (side : Side) (j : Z) : Z :=
  Z.of_nat (length (filter (fun k => view s k = Some side /\ turn (capacity s) (cursors s side) k <= turn (capacity s) (cursors s side) j)
    (seqZ 0 (capacity s)))).
(** How many yields a ready index may wait for, when a drain may begin: those ahead
    of it where its side is drained next; otherwise all of that side, then whatever
    may come before it in the cycle of its own, where indices still join. *)
Definition wait s (j : Z) : Z :=
  match start s with
  | Some side =>
      if bool_decide (view s j = Some side) then ahead s side j
      else count s side + turn (capacity s) (cursors s (other side)) j + 1
  | None => 0
  end.

Lemma elem_ahead s side j k : sound s -> k ∈ filter (fun k => view s k = Some side /\ turn (capacity s) (cursors s side) k <= turn (capacity s) (cursors s side) j)
    (seqZ 0 (capacity s)) <-> 0 <= k /\ view s k = Some side /\ turn (capacity s) (cursors s side) k <= turn (capacity s) (cursors s side) j.
Proof.
  intros Hs. rewrite list_elem_of_filter, elem_of_seqZ. split; [intros ((? & ?) & ?); split; [lia|done]|].
  intros (Hk & Hv & Ht). pose proof (view_cap s k side Hs Hk Hv). split; [done|lia].
Qed.
Lemma ahead_pos s side j : sound s -> 0 <= j -> view s j = Some side -> 1 <= ahead s side j.
Proof.
  intros Hs Hj Hv. unfold ahead. assert (Hin : j ∈ filter (fun k => view s k = Some side /\ turn (capacity s) (cursors s side) k <= turn (capacity s) (cursors s side) j)
    (seqZ 0 (capacity s))) by (by apply elem_ahead).
  destruct (filter _ _); [by apply elem_of_nil in Hin|]. rewrite length_cons. lia.
Qed.
(** There are no more of them than places before [j] in the cycle. *)
Lemma ahead_turn s side j : sound s -> 0 <= j < capacity s -> ahead s side j <= turn (capacity s) (cursors s side) j + 1.
Proof.
  intros Hs Hj. pose proof (so_cursor s Hs side) as Hc. unfold ahead.
  match goal with |- context [filter ?P ?L] => set (l := filter P L) end.
  assert (Hinj : forall x y, x ∈ l -> y ∈ l -> turn (capacity s) (cursors s side) x = turn (capacity s) (cursors s side) y -> x = y).
  { intros x y [_ Hx%elem_of_seqZ]%list_elem_of_filter [_ Hy%elem_of_seqZ]%list_elem_of_filter. rewrite !turn_cases by lia.
    destruct (Z.leb_spec (cursors s side) x), (Z.leb_spec (cursors s side) y); lia. }
  assert (Hnd : NoDup (turn (capacity s) (cursors s side) <$> l)).
  { apply NoDup_fmap_2_strong; [exact Hinj|]. apply NoDup_filter, NoDup_seqZ. }
  assert (Hsub : forall x, x ∈ (turn (capacity s) (cursors s side) <$> l) -> x ∈ seqZ 0 (turn (capacity s) (cursors s side) j + 1)).
  { intros x (k & -> & [[_ Ht] _]%list_elem_of_filter)%list_elem_of_fmap. apply elem_of_seqZ.
    pose proof (Z.mod_pos_bound (k - cursors s side) (capacity s) ltac:(lia)). unfold turn in *. lia. }
  pose proof (submseteq_length _ _ (NoDup_submseteq _ _ Hnd Hsub)) as Hlen. rewrite length_fmap, length_seqZ in Hlen.
  pose proof (Z.mod_pos_bound (j - cursors s side) (capacity s) ltac:(lia)). unfold turn in *. lia.
Qed.
(** Taking [l] in order brings what is left nearer by as much. *)
Lemma ahead_drops s s' side l j p : sound s -> sound s' -> capacity s' = capacity s -> NoDup l -> 0 <= j -> view s' j = Some side ->
  (forall k, k ∈ l -> 0 <= k /\ view s k = Some side) -> (forall k, 0 <= k -> view s' k = Some side -> view s k = Some side /\ k ∉ l) ->
  (forall k, 0 <= k -> view s' k = Some side -> turn (capacity s) (cursors s' side) k = turn (capacity s) (cursors s side) k - p
    /\ forall x, x ∈ l -> earlier (capacity s) (cursors s side) x k) ->
  ahead s' side j + Z.of_nat (length l) <= ahead s side j.
Proof.
  intros Hs Hs' Hcap Hnd Hj Hvj Hl Hback Hp. destruct (Hp j Hj Hvj) as [Htj Hej]. unfold ahead.
  rewrite <- Nat2Z.inj_add, <- length_app. apply Nat2Z.inj_le, submseteq_length, NoDup_submseteq.
  - apply NoDup_app. split; [apply NoDup_filter, NoDup_seqZ|]. split; [|done]. intros k (Hk & Hv & _)%elem_ahead; [|done]. by apply Hback.
  - intros k Hk. apply elem_ahead; [done|]. apply elem_of_app in Hk as [Hk|Hk].
    + apply (elem_ahead s' side j k Hs') in Hk as (Hk & Hv & Ht). split; [done|]. split; [by apply Hback|]. destruct (Hp k Hk Hv) as [Htk _]. rewrite Hcap in Ht. lia.
    + destruct (Hl k Hk) as [H0 Hv]. split; [done|]. split; [done|]. specialize (Hej k Hk). unfold earlier in Hej. lia.
Qed.

Lemma start_paused s b : sound s -> phase (mode s) = Paused b -> (exists j, 0 <= j /\ view s j = Some b) -> start s = Some b.
Proof.
  intros Hs Hp (j & Hj & Hv). unfold start. rewrite Hp. destruct (bm_is_empty (planes s b)) eqn:Eb; [|done].
  rewrite plane_empty in Eb by done. by destruct (Eb j Hj).
Qed.
Lemma other_side (a b : Side) : a <> b -> a = other b.
Proof. by destruct a, b. Qed.
Lemma wait_pos s j side : sound s -> start s = Some side -> 0 <= j -> is_Some (view s j) -> 1 <= wait s j.
Proof.
  intros Hs Hst Hj [b Hv]. unfold wait. rewrite Hst. case_bool_decide; [by apply ahead_pos|].
  pose proof (count_range s side Hs). pose proof (so_cap s Hs). unfold turn.
  pose proof (Z.mod_pos_bound (j - cursors s (other side)) (capacity s) ltac:(lia)). lia.
Qed.
(** Between drains no index comes in ahead: what becomes ready joins the other side. *)
Lemma wait_meanwhile cs s s' b j : sound s -> phase (mode s) = Paused b -> (exists k, 0 <= k /\ view s k = Some b) ->
  0 <= j -> meanwhile cs s s' -> Remove j ∉ cs -> is_Some (view s j) -> wait s' j <= wait s j.
Proof.
  intros Hs Hp Hx Hj Hm Hn Hv. pose proof (mw_keep _ _ _ Hm j Hj Hn Hv) as Hk. pose proof (mw_sound _ _ _ Hm) as Hs'.
  assert (Hb : other (active (mode s)) = b) by (destruct (mode s); by inversion Hp).
  assert (Hback : forall k, 0 <= k -> view s' k = Some b -> view s k = Some b) by (rewrite <- Hb; apply (mw_batch _ _ _ Hm)).
  assert (Hp' : phase (mode s') = Paused b) by (by rewrite (mw_mode _ _ _ Hm)).
  unfold wait at 2. rewrite (start_paused s b Hs Hp Hx). destruct Hv as [a Hv]. rewrite Hv in Hk. case_bool_decide as Hab.
  - assert (a = b) as -> by congruence. unfold wait. rewrite (start_paused s' b Hs' Hp') by eauto. rewrite Hk, bool_decide_eq_true_2 by done.
    pose proof (ahead_drops s s' b [] j 0 Hs Hs' (mw_cap _ _ _ Hm) (NoDup_nil_2) Hj Hk) as Hd. simpl in Hd.
    assert (ahead s' b j + 0 <= ahead s b j); [|lia]. apply Hd; [by intros k ?%elem_of_nil|intros k H1 H2; split; [by apply Hback|apply not_elem_of_nil]|].
    intros k _ _. rewrite (mw_cursors _ _ _ Hm). split; [lia|]. by intros x ?%elem_of_nil.
  - assert (a = other b) as -> by (apply other_side; congruence).
    pose proof (count_drops s s' b [] Hs Hs' (NoDup_nil_2)) as Hc. simpl in Hc.
    assert (count s' b + 0 <= count s b).
    { apply Hc; [by intros ? ?%elem_of_nil|]. intros k H1 H2. split; [by apply Hback|apply not_elem_of_nil]. }
    pose proof (count_range s' b Hs'). pose proof (view_cap s' j _ Hs' Hj Hk) as Hjc. pose proof (ahead_turn s' (other b) j Hs' ltac:(lia)) as Hat.
    unfold wait, start. rewrite Hp', Hk. rewrite (mw_cursors _ _ _ Hm), (mw_cap _ _ _ Hm) in Hat |- *.
    destruct (bm_is_empty (planes s' b)).
    + assert (active (mode s') = other b) as -> by (destruct (mode s'); by inversion Hp'). rewrite bool_decide_eq_true_2 by done. lia.
    + rewrite bool_decide_eq_false_2 by (by destruct b). lia.
Qed.

Lemma start_side s : sound s -> settled s -> phase (mode s) <> Draining -> exists side, start s = Some side
  /\ (phase (mode s) = Idle /\ side = active (mode s) /\ (forall j, 0 <= j -> view s j <> Some (other side))
      \/ phase (mode s) = Paused side /\ (exists j, 0 <= j /\ view s j = Some side)
      \/ phase (mode s) = Paused (other side) /\ forall j, 0 <= j -> view s j <> Some (other side)).
Proof.
  intros Hs Hst Hd. unfold start. destruct (phase (mode s)) as [| |b] eqn:Ep; [|done|].
  - eexists. split; [done|]. left. split; [done|]. split; [done|]. by apply Hst.
  - destruct (bm_is_empty (planes s b)) eqn:Eb; eexists; (split; [done|]); [|right; left; split; [done|by apply plane_occupied]].
    right. right. assert (Ho : other (active (mode s)) = b) by (destruct (mode s); by inversion Ep). rewrite Ho.
    split; [done|]. by apply plane_empty.
Qed.

(** A drain with a permit brings every ready index nearer by what it yields. *)
Lemma drain_closer (react : C -> Z -> Store -> list Cmd * C) work c s j : sound s -> settled s -> phase (mode s) <> Draining ->
  reacts_within react (capacity s) -> 0 <= j -> never_removes react j -> (0 < work)%nat ->
  yields (drain (E := E) (logged react) work c s) (fun '(_, _, c', s') => exists l, c'.1 = c.1 ++ l
    /\ sound s' /\ settled s' /\ capacity s' = capacity s /\ phase (mode s') <> Draining
    /\ (is_Some (view s j) -> j ∈ l \/ is_Some (view s' j) /\ (0 < length l)%nat /\ wait s' j + Z.of_nat (length l) <= wait s j
        /\ exists b, phase (mode s') = Paused b /\ exists k, 0 <= k /\ view s' k = Some b)).
Proof.
  intros Hs Hst Hd Hr Hj Hn Hw. destruct (start_side s Hs Hst Hd) as (side & Hside & Hcase).
  eapply yields_impl; [by apply (drain_batch react)|]. intros [[[d rest] c'] s'] (l & Hl & _ & _ & Hb & Hsort & _ & Ha & Hempty & Hother & p & Hp).
  exists l. split; [done|]. split; [apply Hb|]. split; [by eapply after_settled|]. split; [apply Hb|].
  split; [destruct Ha as [[_ ->]|[(_ & _ & ->)|[_ ->]]]; by destruct side|]. intros Hv.
  destruct (decide (j ∈ l)) as [Hin|Hout]; [by left|right].
  pose proof (ba_keep _ _ _ _ _ Hb j Hj Hn Hv Hout) as Hk. pose proof (ba_sound _ _ _ _ _ Hb) as Hs'. pose proof (ba_cap _ _ _ _ _ Hb) as Hcap.
  rewrite Hk. split; [done|]. destruct Hv as [b Hvj]. rewrite Hvj in Hk.
  assert (Hll : (exists k, 0 <= k /\ view s k = Some side) -> (0 < length l)%nat).
  { intros (k & Hk0 & Hvk). destruct l; [by destruct (Hempty Hw eq_refl k Hk0)|simpl; lia]. }
  unfold wait at 2. rewrite Hside, Hvj. case_bool_decide as Hbs.
  - assert (b = side) as -> by congruence. split; [apply Hll; eauto|].
    destruct Ha as [[Hx Hm]|[(Hno & _)|[Hno _]]]; [|by destruct (Hno j Hj)|by rewrite Hno in Hk].
    assert (Hph : phase (mode s') = Paused side) by (rewrite Hm; by destruct side). split; [|eauto].
    unfold wait. rewrite (start_paused s' side Hs' Hph Hx), Hk, bool_decide_eq_true_2 by done.
    eapply ahead_drops; try done; [by eapply earlier_nodup|apply Hb|apply Hb].
  - assert (b = other side) as -> by (apply other_side; congruence).
    destruct Hcase as [(_ & _ & Ho)|[[_ Hx]|[_ Ho]]]; [by destruct (Ho j Hj)| |by destruct (Ho j Hj)].
    split; [by apply Hll|].
    pose proof (count_drops s s' side l Hs Hs' (earlier_nodup _ _ _ Hsort) (ba_taken _ _ _ _ _ Hb) (ba_side _ _ _ _ _ Hb)) as Hcd.
    pose proof (count_range s' side Hs'). pose proof (view_cap s' j _ Hs' Hj Hk). pose proof (ahead_turn s' (other side) j Hs' ltac:(lia)) as Hat.
    rewrite Hother, Hcap in Hat. destruct Ha as [[Hx' Hm]|[(_ & Hx' & Hm)|[Hno _]]]; [| |by rewrite Hno in Hk].
    + assert (Hph : phase (mode s') = Paused side) by (rewrite Hm; by destruct side). split; [|eauto].
      unfold wait. rewrite (start_paused s' side Hs' Hph Hx'), Hk, bool_decide_eq_false_2, Hother, Hcap by (by destruct side). lia.
    + assert (Hph : phase (mode s') = Paused (other side)) by (rewrite Hm; by destruct side). split; [|eauto].
      unfold wait. rewrite (start_paused s' (other side) Hs' Hph Hx'), Hk, bool_decide_eq_true_2 by done. lia.
Qed.

(** Drains, each with its permits, and the commands from outside after each. *)
Fixpoint drains (react : C -> Z -> Store -> list Cmd * C) (rs : list (nat * list Cmd)) (c : list Z * C) s : run E (list Z * C * Store) :=
  match rs with
  | [] => Ok (c, s)
  | (work, cs) :: rs =>
      let! (_, _, c, s) := drain (logged react) work c s in
      let! s := exec_all s cs in
      drains react rs c s
  end.

Lemma drains_log react rs c s j : sound s -> settled s -> phase (mode s) <> Draining -> reacts_within react (capacity s) ->
  0 <= j -> never_removes react j -> Forall (fun r => (0 < r.1)%nat /\ admitted (capacity s) r.2 /\ Remove j ∉ r.2) rs ->
  yields (drains react rs c s) (fun '(c', s') => exists l, c'.1 = c.1 ++ l
    /\ (is_Some (view s j) -> j ∈ l \/ is_Some (view s' j) /\ (length rs <= length l)%nat /\ Z.of_nat (length l) < wait s j)).
Proof.
  intros Hs Hst Hd Hr Hj Hn Hrs. revert c s Hs Hst Hd Hr Hrs. induction rs as [|[work cs] rs IH]; intros c s Hs Hst Hd Hr Hrs; cbn [drains].
  { apply yields_Ok. exists []. rewrite app_nil_r. split; [done|]. intros Hv. right. split; [done|]. split; [done|]. simpl.
    destruct (start_side s Hs Hst Hd) as (side & Hside & _). pose proof (wait_pos s j side Hs Hside Hj Hv). lia. }
  apply Forall_cons in Hrs as [(Hw & Hcs & Hncs) Hrs]. simpl in Hw, Hcs, Hncs.
  eapply yields_bind; [by apply (drain_closer react work c s j)|]. intros [[[d rest] c1] s1] (l1 & Hl1 & Hs1 & Hst1 & Hc1 & Hd1 & Hcase).
  rewrite <- Hc1 in Hcs. eapply yields_bind; [by apply exec_all_meanwhile|]. intros t Ht. pose proof (mw_cap _ _ _ Ht) as Hct.
  rewrite <- Hc1, <- Hct in Hr, Hrs. eapply yields_impl; [apply IH; try done; [apply Ht|by eapply meanwhile_settled|by rewrite (mw_mode _ _ _ Ht)]|].
  intros [c2 s2] (l2 & Hl2 & Hcase2). exists (l1 ++ l2). rewrite Hl2, Hl1, app_assoc. split; [done|]. intros Hv. rewrite elem_of_app, length_app.
  destruct (Hcase Hv) as [?|(Hv1 & Hpos & Hlt & b & Hp & Hx)]; [auto|].
  pose proof (wait_meanwhile cs s1 t b j Hs1 Hp Hx Hj Ht Hncs Hv1) as Hwt. rewrite <- (mw_keep _ _ _ Ht j Hj Hncs Hv1) in Hv1.
  destruct (Hcase2 Hv1) as [?|(Hv2 & Hlen & Hlt2)]; [auto|]. right. split; [done|]. simpl. lia.
Qed.

(** C6. The packed ready set is two sets of indices. A new set has none. An
    insertion makes an index ready on the side that is filled unless it is ready
    already; a removal tells whether it was ready and makes it not so; clearing
    too; taking the next index of a side yields the first in the cycle that
    starts at the side's cursor, or none when the side is empty, and moves the
    cursor past it; the set is empty exactly when no index is ready. None of them
    touches any other index, panics, or reads outside the packed words. *)
Theorem ready_set_refines s i side : sound s -> settled s -> 0 <= i < capacity s ->
  (forall cap, 0 < cap < 65536 -> sound (try_new cap) /\ settled (try_new cap) /\ forall j, view (try_new cap) j = None)
  /\ (exists s', insert (E := E) s i = Ok s' /\ sets s i (Some (default (active (mode s)) (view s i))) s' /\ settled s')
  /\ (exists s', remove (E := E) s i = Ok (match view s i with Some _ => Ready | None => RIdle end, s') /\ sets s i None s' /\ settled s')
  /\ (exists s', clear (E := E) s i = Ok s' /\ sets s i None s')
  /\ yields (next (E := E) s side) (fun '(item, s') =>
       match item with
       | Some i => 0 <= i < capacity s /\ view s i = Some side /\ taken s side i s'
           /\ forall j, 0 <= j -> view s j = Some side -> turn (capacity s) (cursors s side) i <= turn (capacity s) (cursors s side) j
       | None => s' = s /\ forall j, 0 <= j -> view s j <> Some side
       end)
  /\ (is_empty s = true <-> forall j, 0 <= j -> view s j = None).
Proof.
  intros Hs Hst Hi. split; [|split; [|split; [|split; [by apply clear_sets|split; [by apply set_next_first|]]]]].
  - intros cap Hc. destruct (new_sound (P := P) cap Hc) as [H1 H2]. split; [done|]. split; [|done]. intros _ j _. by rewrite H2.
  - destruct (insert_sets (E := E) s i Hs Hi) as (s' & He & Hset). exists s'. split; [done|]. split; [done|].
    unfold settled. rewrite (st_mode _ _ _ _ Hset). intros Hp j Hj. rewrite (st_view _ _ _ _ Hset) by done. case_bool_decide; [|by apply Hst].
    subst. intros [= Hd]. destruct (view s i) as [sd|] eqn:Ev; simpl in Hd; [by destruct (Hst Hp i Hj); rewrite Ev, Hd|].
    by destruct (other_active (mode s)).
  - destruct (store_remove_sets (E := E) s i Ready RIdle Hs Hi) as (s' & He & Hset). exists s'. split; [done|]. split; [done|].
    unfold settled. rewrite (st_mode _ _ _ _ Hset). intros Hp j Hj. rewrite (st_view _ _ _ _ Hset) by done. case_bool_decide; [done|by apply Hst].
  - unfold is_empty. rewrite andb_true_iff, !plane_empty by done. split.
    + intros [HA HB] j Hj. destruct (view s j) as [[]|] eqn:Ev; [by destruct (HA j Hj)|by destruct (HB j Hj)|done].
    + intros Hn. split; intros j Hj; by rewrite Hn.
Qed.

(** C24. A drain yields one stable batch. While a drain is under way another one
    does nothing. Otherwise a drain takes, for each permit, one index of the side
    it starts, in the order of the cycle from that side's cursor, whatever the
    closure it calls inserts, removes or clears: it never yields an index twice,
    nor one that was not ready when it began; with a permit left the batch is
    over. An index that nobody removes is yielded or stays where it was, and what
    becomes ready meanwhile waits for the other side's batch. The set then rests
    on the rest of the batch, on the other side, or idle. *)
Theorem drain_yields_batch (react : C -> Z -> Store -> list Cmd * C) work c s : sound s -> reacts_within react (capacity s) ->
  match start s with
  | None => drain (E := E) (logged react) work ([], c) s = Ok (0, work, ([], c), s)
  | Some side => yields (drain (E := E) (logged react) work ([], c) s) (fun '(drained, rest, (l, _), s') =>
      sound s' /\ settled s' /\ drained = Z.of_nat (length l) /\ (length l + rest = work)%nat
      /\ StronglySorted (earlier (capacity s) (cursors s side)) l
      /\ (forall j, j ∈ l -> 0 <= j /\ view s j = Some side)
      /\ (forall j, 0 <= j -> view s' j = Some side -> view s j = Some side /\ j ∉ l)
      /\ ((0 < rest)%nat -> forall j, 0 <= j -> view s' j <> Some side)
      /\ (forall j, 0 <= j -> never_removes react j -> is_Some (view s j) -> j ∉ l -> view s' j = view s j)
      /\ after side s')
  end.
Proof.
  intros Hs Hr. destruct (start s) as [side|] eqn:Est; [|unfold drain; by rewrite Est].
  eapply yields_impl; [by apply (drain_batch react)|]. intros [[[d rest] [lg c']] s'] (l & Hl & Hd & Hlen & Hb & Hsort & Hend & Ha & _).
  simpl in Hl. subst lg. destruct Hb as [B1 B2 B3 B4 B5]. split; [done|]. split; [by eapply after_settled|]. by do 7 (split; [done|]).
Qed.

(** C7. A ready index never starves. Take any sequence of drains, each with at
    least one permit, with any activations and removals by the closure, and any
    between the drains. Until an index that is ready and that nobody removes is
    yielded, it stays ready, each drain yields an index at least, and all of them
    together fewer than those it has to wait for: the ready indices ahead of it in
    the cycle of its side where that side is drained next, and otherwise those of
    the side under way and the places before it in the cycle of its own. So it is
    yielded within as many drains. *)
Theorem ready_never_starves (react : C -> Z -> Store -> list Cmd * C) rs c s j : sound s -> settled s -> phase (mode s) <> Draining ->
  reacts_within react (capacity s) -> 0 <= j -> is_Some (view s j) -> never_removes react j ->
  Forall (fun r => (0 < r.1)%nat /\ admitted (capacity s) r.2 /\ Remove j ∉ r.2) rs ->
  yields (drains react rs ([], c) s) (fun '((log, _), s') =>
    (j ∈ log \/ is_Some (view s' j) /\ (length rs <= length log)%nat /\ Z.of_nat (length log) < wait s j)
    /\ (wait s j <= Z.of_nat (length rs) -> j ∈ log)).
Proof.
  intros Hs Hst Hd Hr Hj Hv Hn Hrs. eapply yields_impl; [by apply (drains_log react rs ([], c) s j)|].
  intros [[log c'] s'] (l & Hl & Hcase). simpl in Hl. subst log. destruct (Hcase Hv) as [?|(? & ? & ?)]; [auto|].
  split; [by right|]. lia.
Qed.
End laws.
End SetLaws.

(** ** A set at work *)

Module SetExamples.
Import ReadySet SetFacts DrainFacts SetLaws.
#[local] Existing Instances Planes64.plane_bitmap Planes64.plane_laws.
Abbreviation Plane := Planes64.Plane.
Abbreviation Store := (Store Plane).

(** Forty indices, three of them ready; the closure makes the one it is given
    ready again, and its neighbour. *)
Definition first_cmds : list Cmd := [Insert 35; Insert 3; Insert 7].
Definition started : Store := match exec_all (E := Empty_set) (try_new 40) first_cmds with Ok s => s | _ => try_new 40 end.
Definition again (c : unit) (i : Z) (_ : Store) : list Cmd * unit := ([Insert i; Insert (i / 2)], c).

Lemma started_ok : sound started /\ settled started /\ capacity started = 40 /\ mode started = IdleA.
Proof.
  destruct (new_sound (P := Plane) 40 ltac:(lia)) as [Hs Hn].
  assert (Hst : settled (try_new (P := Plane) 40)) by (intros _ j _; by rewrite Hn).
  destruct (exec_all_meanwhile (E := Empty_set) (try_new 40) first_cmds Hs) as (s & He & Hm); [by repeat constructor|].
  unfold started. rewrite He. split; [apply Hm|]. split; [by eapply meanwhile_settled|]. split; [apply Hm|]. by rewrite (mw_mode _ _ _ Hm).
Qed.
(* The closure halves an index, which keeps it within the capacity only when
   it was: the reactions of [again] are kept within. *)
Definition within (c : unit) (i : Z) (s : Store) : list Cmd * unit :=
  (filter (fun x => 0 <= target x < 40) (again c i s).1, c).
Lemma within_ok : reacts_within within (capacity started).
Proof.
  destruct started_ok as (_ & _ & -> & _). intros c i s. unfold within, admitted. cbn [fst]. apply Forall_forall. by intros x [? _]%list_elem_of_filter.
Qed.

Lemma ready_set_refines_witness : exists s',
  remove (E := Empty_set) started 7 = Ok (Ready, s') /\ view s' 7 = None /\ view s' 35 = Some A.
Proof.
  destruct started_ok as (Hs & Hst & Hc & _).
  destruct (ready_set_refines (E := Empty_set) started 7 A Hs Hst ltac:(rewrite Hc; lia)) as (_ & _ & (s' & He & Hset & _) & _).
  exists s'. assert (Hv : view started 7 = Some A) by (by vm_compute). rewrite Hv in He. split; [exact He|].
  rewrite !(st_view _ _ _ _ Hset) by lia. split; [done|by vm_compute].
Defined.
Lemma drain_yields_batch_witness : exists s', drain (E := Empty_set) (logged within) 2 ([], tt) started = Ok (2, 0%nat, ([3; 7], tt), s')
  /\ view s' 35 = Some A /\ view s' 3 = Some B.
Proof.
  destruct started_ok as (Hs & _ & _ & Hm).
  pose proof (drain_yields_batch (E := Empty_set) within 2 tt started Hs within_ok) as Hw.
  assert (Hst : start started = Some A) by (by vm_compute). rewrite Hst in Hw.
  destruct Hw as ([[[d rest] [l []]] s'] & He & _).
  assert (Hx : (d, rest, l) = (2, 0%nat, [3; 7])) by (vm_compute in He; congruence).
  injection Hx as -> -> ->. exists s'. split; [exact He|]. vm_compute in He. injection He as <-. by vm_compute.
Defined.
(** With one permit a drain, the third ready index is yielded by the third. *)
Lemma ready_never_starves_witness : wait started 35 = 3
  /\ yields (drains (E := Empty_set) within (replicate 3 (1%nat, [Insert 1])) ([], tt) started) (fun '((log, _), _) => 35 ∈ log).
Proof.
  assert (Hwait : wait started 35 = 3) by (vm_compute; reflexivity). split; [exact Hwait|].
  destruct started_ok as (Hs & Hst & Hc & Hm).
  eapply yields_impl; [apply (ready_never_starves (E := Empty_set) within (replicate 3 (1%nat, [Insert 1])) tt started 35 Hs Hst)|].
  - by rewrite Hm.
  - exact within_ok.
  - lia.
  - by exists A.
  - intros c i s [_ Hin]%list_elem_of_filter. simpl in Hin. rewrite !elem_of_cons in Hin. destruct Hin as [?|[?|?%elem_of_nil]]; done.
  - rewrite Hc. apply Forall_replicate. split; [simpl; lia|]. split; [by repeat constructor|]. cbn [snd]. rewrite elem_of_cons. intros [?|?%elem_of_nil]; done.
  - intros [[log c] s'] [_ Hin]. apply Hin. rewrite Hwait, length_replicate. lia.
Defined.
End SetExamples.
