(* ===== verification/ReadyArena.v ===== *)
(** * The ready arena of the driver.

    Model of [src/layer0/core/src/driver/schedule/ready]: one table of cells for
    everything that can be woken besides descriptors. A cell is free, reserved, a
    dispatch target, a task, or the topology that tasks queue in; a key is the
    index of a cell and its generation. Free cells are chained ([pool]), ready
    tasks are linked into the two lanes of their topology ([topology]), and a wake
    climbs from a task to its parent until it reaches a dispatch target, which
    joins the ready set. The payload of a cell is three words, packed as the code
    packs them. *)

From S2P Require Import Prelude Routes ReadySet.

(** ** Generations, of the o3 crate *)

(** [o3::base::num::Generation], 32 bits wide: [from_raw] of a [u32] restores it. *)
Class Generations := { GEN_INITIAL : Z; gen_next : Z -> option Z }.
Class GenerationsLaws `{Generations} := {
  gen_initial : 0 <= GEN_INITIAL < 2 ^ 32;
  gen_next_more g g' : 0 <= g < 2 ^ 32 -> gen_next g = Some g' -> g < g' < 2 ^ 32;
}.

Module Cells.
Import Word.

(** [Kind], src/layer0/core/src/driver/schedule/ready/kind.rs:3-10. *)
Inductive Kind := Free | Reserved | Dispatch | Task | Topology | Retired.
#[export] Instance kind_dec : EqDecision Kind.
Proof. solve_decision. Defined.
(** [Lane], src/layer0/core/src/driver/schedule/ready/state.rs:9-12. *)
Inductive Lane := First | Second.
#[export] Instance lane_dec : EqDecision Lane.
Proof. solve_decision. Defined.
(** [Lane::index], src/layer0/core/src/driver/schedule/ready/state.rs:43-45. *)
Definition lane_index (self : Lane) : nat := match self with First => 0 | Second => 1 end.
(** [Lane::raw], src/layer0/core/src/driver/schedule/ready/state.rs:47-49. *)
Definition lane_raw (self : Lane) : Z := match self with First => 0 | Second => 1 end.
(** [Lane::flip], src/layer0/core/src/driver/schedule/ready/state.rs:51-56. *)
Definition flip (self : Lane) : Lane := match self with First => Second | Second => First end.
(** [Lane::from_bit], src/layer0/core/src/driver/schedule/ready/state.rs:58-60. *)
Definition from_bit (second : bool) : Lane := if second then Second else First.

(** [Value], src/layer0/core/src/driver/schedule/ready/state.rs:16-21. *)
Record State := state { generation : Z; kind : Kind; queue : option Lane }.
(** [State::set_epoch], src/layer0/core/src/driver/schedule/ready/state.rs:81-85. *)
Definition set_epoch (epoch : Z) (v : State) : State := state epoch (kind v) (queue v).
(** [State::set_kind], src/layer0/core/src/driver/schedule/ready/state.rs:87-92. *)
Definition set_kind (k : Kind) (v : State) : State := state (generation v) k None.
(** [Vacant::queue], src/layer0/core/src/driver/schedule/ready/state.rs:108-112. *)
Definition set_queue (lane : Lane) (v : State) : State := state (generation v) (kind v) (Some lane).
(** [Queued::clear], src/layer0/core/src/driver/schedule/ready/state.rs:120-124. *)
Definition clear_queue (v : State) : State := state (generation v) (kind v) None.

(** [Value], src/layer0/core/src/driver/schedule/ready/key/stored.rs:15-18. A stored
    key: the one-based index of a cell or descriptor and its generation. The owned
    keys of a cell ([ReservedKey], [DispatchKey], [TaskKey], [TopologyKey],
    [Staged]) are this value under a type that only one holder has. *)
Record Stored := stored { index : Z; epoch : Z }.
#[export] Instance stored_dec : EqDecision Stored.
Proof. solve_decision. Defined.
(** [Stored::identity], src/layer0/core/src/driver/schedule/ready/key/stored.rs:44-47. *)
Definition identity (self : Stored) : Z := Z.lor (Z.shiftl (epoch self) 32) (index self).

(** [Link], src/layer0/core/src/driver/schedule/ready/arena/payload.rs:12-15. *)
Record Link := link { next : option Z; prev : option Z }.
(** [Link::EMPTY], src/layer0/core/src/driver/schedule/ready/arena/payload.rs:18-21. *)
Definition EMPTY : Link := link None None.
(** [NonZero::new]. *)
Definition nonzero (z : Z) : option Z := if z =? 0 then None else Some z.
(** [Link::from_word], src/layer0/core/src/driver/schedule/ready/arena/payload.rs:23-30. *)
Definition from_word (word : Z) : Link := link (nonzero (wrap 16 word)) (nonzero (wrap 16 (Z.shiftr word 16))).
(** [Link::word], src/layer0/core/src/driver/schedule/ready/arena/payload.rs:32-36. *)
Definition link_word (self : Link) : Z := Z.lor (default 0 (next self)) (Z.shiftl (default 0 (prev self)) 16).

(** [Payload], src/layer0/core/src/driver/schedule/ready/arena/payload.rs:41-44. *)
Record Payload := payload { word0 : Z; word1 : Z; word2 : Z }.
(** [Payload::word], src/layer0/core/src/driver/schedule/ready/arena/payload.rs:108-110. *)
Definition word (self : Payload) (i : nat) : Z := match i with O => word0 self | 1%nat => word1 self | _ => word2 self end.
(** [Payload::set_word], src/layer0/core/src/driver/schedule/ready/arena/payload.rs:112-114. *)
Definition set_word (self : Payload) (i : nat) (v : Z) : Payload :=
  match i with
  | O => payload v (word1 self) (word2 self)
  | 1%nat => payload (word0 self) v (word2 self)
  | _ => payload (word0 self) (word1 self) v
  end.
(** [Payload::free], src/layer0/core/src/driver/schedule/ready/arena/payload.rs:57-66. *)
Definition payload_free (next : Z) : Payload := payload (next - 1) 0 0.
(** [Payload::retired], src/layer0/core/src/driver/schedule/ready/arena/payload.rs:68-73. *)
Definition payload_retired : Payload := payload 0 0 0.
(** [Payload::set_free], src/layer0/core/src/driver/schedule/ready/arena/payload.rs:75-77. *)
Definition set_free (self : Payload) (next : Z) : Payload := set_word self 0 (next - 1).
(** [Payload::reserve], src/layer0/core/src/driver/schedule/ready/arena/payload.rs:80-84. *)
Definition free_next (self : Payload) : Z := Z.min (1 + wrap 16 (word0 self)) 65535.

(** [AUX_MASK], src/layer0/core/src/driver/route/mod.rs:27-27. With [AUX_BITS] and
    [AUX_SHIFT]. *)
Definition AUX_MASK : Z := Z.shiftl (Z.shiftl 1 (Route.KIND_SHIFT - Route.SLOT_BITS) - 1) Route.SLOT_BITS.
(** [Packed::new], src/layer0/core/src/driver/route/raw.rs:156-167. Its words. *)
Definition packed (t : Token.Token unit) (aux : Z) : Z * Z :=
  (Token.t_epoch t, Z.lor (Z.land (Token.meta t) (not AUX_MASK)) (Z.shiftl aux Route.SLOT_BITS)).
(** [Packed::target], src/layer0/core/src/driver/route/raw.rs:195-201. *)
Definition packed_target (words : Z * Z) : Token.Token unit := Token.token words.1 tt (Z.land words.2 (not AUX_MASK)).
(** [Payload::set_dispatch], src/layer0/core/src/driver/schedule/ready/arena/payload.rs:86-91. *)
Definition set_dispatch (self : Payload) (t : Token.Token unit) : Payload :=
  let '(first, second) := packed t 0 in set_word (set_word self 0 first) 1 second.
(** [Payload::dispatch], src/layer0/core/src/driver/schedule/ready/arena/payload.rs:93-100. *)
Definition dispatch (self : Payload) : Token.Token unit := packed_target (word0 self, word1 self).

(** [Record], src/layer0/core/src/driver/schedule/ready/record.rs:4-8. *)
Record Record_ := record { parent : Stored; topology : Z; local : Z }.
(** [Task::new], src/layer0/core/src/driver/schedule/ready/arena/payload.rs:118-136. *)
Definition task_new (parent : Stored) (topology : Stored) (local : Z) : Payload :=
  payload (identity parent) (Z.lor (index topology) (Z.shiftl local 32)) (link_word EMPTY).
(** [Bound::record], src/layer0/core/src/driver/schedule/ready/arena/payload.rs:148-164. *)
Definition task_record (self : Payload) : Record_ :=
  record (stored (wrap 16 (word0 self)) (wrap 32 (Z.shiftr (word0 self) 32)))
    (wrap 16 (word1 self)) (wrap 32 (Z.shiftr (word1 self) 32)).
(** [Bound::link], src/layer0/core/src/driver/schedule/ready/arena/payload.rs:166-168. *)
Definition task_link (self : Payload) : Link := from_word (word2 self).
(** [Bound::set_link], src/layer0/core/src/driver/schedule/ready/arena/payload.rs:170-172. *)
Definition set_link (self : Payload) (l : Link) : Payload := set_word self 2 (link_word l).

(** [Cell], src/layer0/core/src/driver/schedule/ready/arena/cells.rs:44-47. *)
Record Cell := cell { c_payload : Payload; c_state : State }.
Definition on_payload (f : Payload -> Payload) (c : Cell) : Cell := cell (f (c_payload c)) (c_state c).
Definition on_state (f : State -> State) (c : Cell) : Cell := cell (c_payload c) (f (c_state c)).

(** [Slots], src/layer0/core/src/driver/schedule/ready/arena/cells.rs:140-142. Its
    header and the cells of its tiles, two to a tile. *)
Record Slots := slots { descriptor_end : Z; capacity : Z; cells : list Cell }.
(** [Renewal], src/layer0/core/src/driver/schedule/ready/arena/cells.rs:26-29. *)
Inductive Renewal := Reusable (key : Stored) | RRetired.

(** [Layout], src/layer0/core/src/driver/schedule/ready/arena/layout.rs:8-12. *)
Record Layout := layout { descriptors : Z; dynamic : Z; l_capacity : Z }.
(** [TILE_SLOTS], src/layer0/core/src/driver/schedule/ready/arena/layout.rs:5-5. *)
Definition TILE_SLOTS : Z := 2.
(** [Plan::new], src/layer0/core/src/driver/settings/config/plan.rs:38-57, for the counts
    of descriptors and ready slots of a configuration, with [Layout::new],
    src/layer0/core/src/driver/schedule/ready/arena/layout.rs:15-22. The error is
    [errors::Config::ReadyCapacity]. *)
Definition layout_new (files ready : Z) : run (Z * Z) Layout :=
  let count := files + ready in
  if 65535 <? count then Err (files, ready)
  else if count =? 0 then Stuck Panic
  else Ok (layout files ready (1 + (count - 1))).
(** [Layout::tile_count], src/layer0/core/src/driver/schedule/ready/arena/layout.rs:24-26. *)
Definition tile_count (self : Layout) : Z := (dynamic self + TILE_SLOTS - 1) / TILE_SLOTS.
(** [Layout::free_index], src/layer0/core/src/driver/schedule/ready/arena/layout.rs:44-49. *)
Definition free_index (i : Z) : Z := wrap 16 i + 1.
(** [Layout::available], src/layer0/core/src/driver/schedule/ready/arena/layout.rs:28-33. *)
Definition l_available (self : Layout) : option (Z * Z) :=
  if dynamic self =? 0 then None else Some (free_index (descriptors self), dynamic self).
(** [Layout::next_free], src/layer0/core/src/driver/schedule/ready/arena/layout.rs:35-42. *)
Definition next_free (self : Layout) (i : Z) : Z :=
  let next := i + 1 in if next =? l_capacity self then free_index i else free_index next.

Section slots.
Context `{Generations} {E : Type}.

(** [Tile::new], src/layer0/core/src/driver/schedule/ready/arena/cells.rs:50-66. The cell
    at an offset of the tiles. *)
Definition cell_new (l : Layout) (offset : Z) : Cell :=
  let i := descriptors l + offset in
  let '(p, k) := if l_capacity l <=? i then (payload_retired, Retired) else (payload_free (next_free l i), Free) in
  cell p (state GEN_INITIAL k None).
(** [Table::try_new], src/layer0/core/src/driver/schedule/ready/arena/cells.rs:150-162. The
    slots, when their allocation succeeds. *)
Definition slots_new (l : Layout) : Slots :=
  slots (descriptors l) (l_capacity l) ((fun n => cell_new l (Z.of_nat n)) <$> seq 0 (Z.to_nat (TILE_SLOTS * tile_count l))).

(** [Slots::resident], src/layer0/core/src/driver/schedule/ready/arena/cells.rs:170-188. An
    index outside the cells is undefined behaviour. *)
Definition resident (s : Slots) (code : Z) : run E Cell :=
  let dynamic := code - 1 - descriptor_end s in
  if dynamic <? 0 then Stuck Undefined
  else match cells s !! Z.to_nat dynamic with Some c => Ok c | None => Stuck Undefined end.
(** A write through the cells of a resident. *)
Definition edit (s : Slots) (code : Z) (f : Cell -> Cell) : run E Slots :=
  let! c := resident s code in
  Ok (slots (descriptor_end s) (capacity s) (<[Z.to_nat (code - 1 - descriptor_end s) := f c]> (cells s))).

(** [Slots::next], src/layer0/core/src/driver/schedule/ready/arena/cells.rs:190-192. *)
Definition slots_next (s : Slots) (i : Z) : run E Z := let! c := resident s i in Ok (free_next (c_payload c)).
(** [Slots::link], src/layer0/core/src/driver/schedule/ready/arena/cells.rs:194-196. *)
Definition slots_link (s : Slots) (i next : Z) : run E Slots := edit s i (on_payload (fun p => set_free p next)).
(** [Slots::reserve], src/layer0/core/src/driver/schedule/ready/arena/cells.rs:198-203. *)
Definition reserve (s : Slots) (i : Z) : run E (Stored * Slots) :=
  let! c := resident s i in
  let! s := edit s i (on_state (set_kind Reserved)) in
  Ok (stored i (generation (c_state c)), s).
(** [Slots::dispatch], src/layer0/core/src/driver/schedule/ready/arena/cells.rs:205-214. *)
Definition slots_dispatch (s : Slots) (key : Stored) (t : Token.Token unit) : run E (Stored * Slots) :=
  let! s := edit s (index key) (fun c => on_state (set_kind Dispatch) (on_payload (fun p => set_dispatch p t) c)) in
  Ok (key, s).
(** [Slots::task], src/layer0/core/src/driver/schedule/ready/arena/cells.rs:216-225. *)
Definition slots_task (s : Slots) (key : Stored) (t : Payload) : run E (Stored * Slots) :=
  let! s := edit s (index key) (fun c => on_state (set_kind Task) (on_payload (fun _ => t) c)) in
  Ok (key, s).
(** [Slots::topology], src/layer0/core/src/driver/schedule/ready/arena/cells.rs:227-235. *)
Definition slots_topology (s : Slots) (key : Stored) : run E (Stored * Slots) :=
  let! s := edit s (index key) (fun c => on_state (set_kind Topology) (on_payload (fun _ => payload_retired) c)) in
  Ok (key, s).
(** [Slots::unroute], src/layer0/core/src/driver/schedule/ready/arena/cells.rs:237-244. The same
    body as [Slots::untask]. *)
Definition unroute (s : Slots) (key : Stored) : run E (Stored * Slots) :=
  let! s := edit s (index key) (on_state (set_kind Reserved)) in Ok (key, s).
(** [Slots::untask], src/layer0/core/src/driver/schedule/ready/arena/cells.rs:246-253. *)
Definition untask (s : Slots) (key : Stored) : run E (Stored * Slots) :=
  let! s := edit s (index key) (on_state (set_kind Reserved)) in Ok (key, s).
(** [Slots::renew], src/layer0/core/src/driver/schedule/ready/arena/cells.rs:255-271. *)
Definition renew (s : Slots) (key : Stored) : run E (Renewal * Slots) :=
  let! c := resident s (index key) in
  match gen_next (generation (c_state c)) with
  | Some next => let! s := edit s (index key) (on_state (set_epoch next)) in Ok (Reusable (stored (index key) next), s)
  | None => let! s := edit s (index key) (on_state (set_kind Retired)) in Ok (RRetired, s)
  end.
(** [Slots::publish], src/layer0/core/src/driver/schedule/ready/arena/cells.rs:273-281. *)
Definition publish (s : Slots) (key : Stored) (next : Z) : run E Slots :=
  edit s (index key) (fun c => on_state (set_kind Free) (on_payload (fun p => set_free p next) c)).
End slots.
End Cells.

(** ** Free chains *)

Module FreePool.
Import Cells.

(** [Available], src/layer0/core/src/driver/schedule/ready/arena/pool/mod.rs:16-19. *)
Record Available := available { head : Z; count : Z }.
(** [State], src/layer0/core/src/driver/schedule/ready/arena/pool/mod.rs:12-12. With
    [Pool], src/layer0/core/src/driver/schedule/ready/arena/pool/mod.rs:127-129. *)
Definition Pool := option Available.
(** [Detached], src/layer0/core/src/driver/schedule/ready/arena/pool/mod.rs:23-27. *)
Record Detached := detached { d_head : Z; d_tail : Z; d_count : Z }.
(** [Chain], src/layer0/core/src/driver/schedule/ready/arena/pool/mod.rs:30-32. *)
Definition Chain := option Detached.

(** [Error], src/layer0/core/src/driver/schedule/ready/task/error.rs:4-14. *)
Inductive Error := ParentStale | WakeHopCeiling (minimum maximum : Z) | Capacity (requested available : Z).
(** [Capacity], src/layer0/core/src/driver/schedule/ready/mod.rs:49-51. *)
Record Full := full { free : Z }.

(** [State::from_layout], src/layer0/core/src/driver/schedule/ready/arena/pool/mod.rs:88-93. *)
Definition from_layout (l : Layout) : Pool :=
  match l_available l with Some (head, count) => Some (available head count) | None => None end.
(** [State::available], src/layer0/core/src/driver/schedule/ready/arena/pool/mod.rs:103-108. *)
Definition pool_count (self : Pool) : Z := match self with Some st => count st | None => 0 end.
(** [State::link], src/layer0/core/src/driver/schedule/ready/arena/pool/mod.rs:110-115. *)
Definition pool_link (self : Pool) (tail : Z) : Z := match self with Some st => head st | None => tail end.
(** [State::prepend], src/layer0/core/src/driver/schedule/ready/arena/pool/mod.rs:117-123. Counts
    saturate at [u16::MAX]. *)
Definition prepend (self : Pool) (h n : Z) : Pool :=
  Some (available h (match self with None => n | Some st => Z.min (count st + n) 65535 end)).

Section pool.
Context `{Generations} {E : Type}.

(** [Chain::try_claim], src/layer0/core/src/driver/schedule/ready/arena/pool/mod.rs:41-60. *)
Definition chain_claim (self : Chain) (s : Slots) : run E (option Stored * Chain * Slots) :=
  match self with
  | None => Ok (None, self, s)
  | Some st =>
      let! rest :=
        (if d_count st - 1 =? 0 then Ok None
         else let! head := slots_next s (d_head st) in Ok (Some (detached head (d_tail st) (d_count st - 1)))) in
      let! (key, s) := reserve s (d_head st) in
      Ok (Some key, rest, s)
  end.
(** [Chain::restore], src/layer0/core/src/driver/schedule/ready/arena/pool/mod.rs:62-80. *)
Definition chain_restore (self : Chain) (s : Slots) (key : Stored) : run E (Chain * Slots) :=
  let i := index key in
  let count := match self with None => 1 | Some st => Z.min (d_count st + 1) 65535 end in
  let head := match self with Some st => d_head st | None => i end in
  let! s := publish s key head in
  Ok (Some (detached i (match self with Some st => d_tail st | None => i end) count), s).

(** [Pool::claim], src/layer0/core/src/driver/schedule/ready/arena/pool/mod.rs:138-150. *)
Definition claim (self : Pool) (s : Slots) : run E (option Stored * Pool * Slots) :=
  match self with
  | None => Ok (None, self, s)
  | Some st =>
      let! rest :=
        (if count st - 1 =? 0 then Ok None
         else let! head := slots_next s (head st) in Ok (Some (available head (count st - 1)))) in
      let! (key, s) := reserve s (head st) in
      Ok (Some key, rest, s)
  end.

(** [Pool::try_take], src/layer0/core/src/driver/schedule/ready/arena/pool/mod.rs:179-211, the links that
    its loop follows from [tail], [n] of them. *)
Fixpoint follow (s : Slots) (tail : Z) (n : nat) : run E Z :=
  match n with O => Ok tail | S n => let! tail := slots_next s tail in follow s tail n end.
End pool.

Section pool.
Context `{Generations}.
(** [Pool::try_dispatch], src/layer0/core/src/driver/schedule/ready/arena/pool/mod.rs:152-159. *)
Definition try_dispatch (self : Pool) (s : Slots) (t : Token.Token unit) : run Full (Stored * Pool * Slots) :=
  let! (held, self, s) := claim self s in
  let! held := ok_or held (full 0) in
  let! (key, s) := slots_dispatch s held t in Ok (key, self, s).
(** [Pool::try_topology], src/layer0/core/src/driver/schedule/ready/arena/pool/mod.rs:161-167. *)
Definition try_topology (self : Pool) (s : Slots) : run Full (Stored * Pool * Slots) :=
  let! (held, self, s) := claim self s in
  let! held := ok_or held (full 0) in
  let! (key, s) := slots_topology s held in Ok (key, self, s).
(** [Pool::try_task], src/layer0/core/src/driver/schedule/ready/arena/pool/mod.rs:169-177. *)
Definition try_task (self : Pool) (s : Slots) : run Error (Stored * Pool * Slots) :=
  let! (held, self, s) := claim self s in
  let! held := ok_or held (Capacity 1 0) in
  Ok (held, self, s).
(** [Pool::try_take], src/layer0/core/src/driver/schedule/ready/arena/pool/mod.rs:179-211. *)
Definition try_take (self : Pool) (s : Slots) (n : Z) : run Error (Chain * Pool * Slots) :=
  match self with
  | Some st =>
      if n <=? count st then
        let wanted := wrap 16 n in
        let! tail := follow s (head st) (Z.to_nat (wanted - 1)) in
        let rest := count st - wanted in
        let! next :=
          (if rest =? 0 then Ok None
           else let! head := slots_next s tail in Ok (Some (available head rest))) in
        let! s := slots_link s tail tail in
        Ok (Some (detached (head st) tail wanted), next, s)
      else Err (Capacity n (pool_count self))
  | None => Err (Capacity n (pool_count self))
  end.
End pool.

Section pool.
Context `{Generations} {E : Type}.
(** [Pool::recycle], src/layer0/core/src/driver/schedule/ready/arena/pool/mod.rs:235-249. *)
Definition recycle (self : Pool) (s : Slots) (held : Stored) : run E (Pool * Slots) :=
  let! (renewed, s) := renew s held in
  match renewed with
  | RRetired => Ok (self, s)
  | Reusable key =>
      let i := index key in
      let! s := publish s key (pool_link self i) in
      Ok (prepend self i 1, s)
  end.
(** [Pool::restore], src/layer0/core/src/driver/schedule/ready/arena/pool/mod.rs:251-258. The chain
    is left empty. *)
Definition restore (self : Pool) (s : Slots) (chain : Chain) : run E (Pool * Slots) :=
  match chain with
  | None => Ok (self, s)
  | Some c =>
      let! s := slots_link s (d_tail c) (pool_link self (d_tail c)) in
      Ok (prepend self (d_head c) (d_count c), s)
  end.
End pool.
End FreePool.

(** ** Topologies *)

Module Topo.
Import Word Cells FreePool.

(** [ACTIVE_SHIFT], src/layer0/core/src/driver/schedule/ready/arena/topology.rs:8-8. *)
Definition ACTIVE_SHIFT : Z := 32.
(** [PAUSED_SHIFT], src/layer0/core/src/driver/schedule/ready/arena/topology.rs:9-9. *)
Definition PAUSED_SHIFT : Z := 33.
(** [PAUSED_MASK], src/layer0/core/src/driver/schedule/ready/arena/topology.rs:10-10. *)
Definition PAUSED_MASK : Z := Z.shiftl 3 PAUSED_SHIFT.
(** [CLOSED_MASK], src/layer0/core/src/driver/schedule/ready/arena/topology.rs:11-11. *)
Definition CLOSED_MASK : Z := Z.shiftl 1 35.
(** [DRAINING_MASK], src/layer0/core/src/driver/schedule/ready/arena/topology.rs:12-12. *)
Definition DRAINING_MASK : Z := Z.shiftl 1 36.
(** [Activation], src/layer0/core/src/driver/schedule/ready/task/mod.rs:21-24. *)
Inductive Activation := Queued | Coalesced.

(** ** The state word of a topology *)

(** [Lanes::active], src/layer0/core/src/driver/schedule/ready/arena/topology.rs:243-246. *)
Definition word_active (state : Z) : Lane := from_bit (negb (Z.land (Z.shiftr state ACTIVE_SHIFT) 1 =? 0)).
(** [Lanes::set_active], src/layer0/core/src/driver/schedule/ready/arena/topology.rs:248-252. *)
Definition word_set_active (state : Z) (side : Lane) : Z :=
  Z.lor (Z.land state (not (Z.shiftl 1 ACTIVE_SHIFT))) (Z.shiftl (lane_raw side) ACTIVE_SHIFT).
(** [Lanes::paused], src/layer0/core/src/driver/schedule/ready/arena/topology.rs:254-257. *)
Definition word_paused (state : Z) : option Lane :=
  let raw := wrap 8 (Z.shiftr (Z.land state PAUSED_MASK) PAUSED_SHIFT) in
  if negb (Z.land raw 1 =? 0) then Some (from_bit (negb (Z.land raw 2 =? 0))) else None.
(** [Lanes::set_paused], src/layer0/core/src/driver/schedule/ready/arena/topology.rs:259-268. *)
Definition word_set_paused (state : Z) (side : option Lane) : Z :=
  let raw := match side with None => 0 | Some side => Z.lor 1 (Z.shiftl (lane_raw side) 1) end in
  Z.lor (Z.land state (not PAUSED_MASK)) (Z.shiftl raw PAUSED_SHIFT).
(** The low half of the word, where the attachments are counted. *)
Definition word_count (state n : Z) : Z := Z.lor (Z.land state (not (2 ^ 32 - 1))) n.

Section topology.
Context `{Generations} {E : Type}.
(* A topology is the slots with the index of its cell. *)

Definition state_word (s : Slots) (root : Z) : run E Z := let! c := resident s root in Ok (word (c_payload c) 2).
Definition set_state (s : Slots) (root : Z) (v : Z) : run E Slots := edit s root (on_payload (fun p => set_word p 2 v)).
Definition bound_link (s : Slots) (i : Z) : run E Link := let! c := resident s i in Ok (task_link (c_payload c)).
Definition bound_set_link (s : Slots) (i : Z) (l : Link) : run E Slots := edit s i (on_payload (fun p => set_link p l)).

(** [Lanes::links], src/layer0/core/src/driver/schedule/ready/arena/topology.rs:231-233. *)
Definition links (s : Slots) (root : Z) (side : Lane) : run E Link :=
  let! c := resident s root in Ok (from_word (word (c_payload c) (lane_index side))).
(** [Lanes::set_links], src/layer0/core/src/driver/schedule/ready/arena/topology.rs:235-237. *)
Definition set_links (s : Slots) (root : Z) (side : Lane) (l : Link) : run E Slots :=
  edit s root (on_payload (fun p => set_word p (lane_index side) (link_word l))).
(** [Lanes::head], src/layer0/core/src/driver/schedule/ready/arena/topology.rs:239-241. *)
Definition lane_head (s : Slots) (root : Z) (side : Lane) : run E (option Z) := let! l := links s root side in Ok (next l).
(** [Lanes::claim], src/layer0/core/src/driver/schedule/ready/arena/topology.rs:209-212. *)
Definition lanes_claim (s : Slots) (root : Z) : run E Slots :=
  let! st := state_word s root in set_state s root (Z.lor st DRAINING_MASK).
(** [Lanes::attach], src/layer0/core/src/driver/schedule/ready/arena/topology.rs:217-224. With
    [Topology::attach]. *)
Definition attach (s : Slots) (root : Z) (staged : Stored) : run E (Stored * Slots) :=
  let! st := state_word s root in
  let! s := set_state s root (word_count st (wrap 16 st + 1)) in
  Ok (staged, s).
(** [Lanes::close], src/layer0/core/src/driver/schedule/ready/arena/topology.rs:226-229. *)
Definition lanes_close (s : Slots) (root : Z) : run E Slots :=
  let! st := state_word s root in set_state s root (Z.lor st CLOSED_MASK).

(** [Topology::push], src/layer0/core/src/driver/schedule/ready/arena/topology.rs:155-178. *)
Definition push (s : Slots) (root i : Z) (side : Lane) : run E Slots :=
  let! l := links s root side in
  let! s := bound_set_link s i (link None (prev l)) in
  let! (l, s) :=
    match prev l with
    | Some p => let! tl := bound_link s p in
                let! s := bound_set_link s p (link (Some i) (prev tl)) in Ok (l, s)
    | None => Ok (link (Some i) (prev l), s)
    end in
  let l := link (next l) (Some i) in
  let! s := set_links s root side l in
  edit s i (on_state (set_queue side)).
(** [Topology::remove], src/layer0/core/src/driver/schedule/ready/arena/topology.rs:180-205. *)
Definition remove (s : Slots) (root i : Z) (side : Lane) : run E Slots :=
  let! l := bound_link s i in
  let! r := links s root side in
  let! (r, s) :=
    match prev l with
    | Some p => let! k := bound_link s p in
                let! s := bound_set_link s p (link (next l) (prev k)) in Ok (r, s)
    | None => Ok (link (next l) (prev r), s)
    end in
  let! (r, s) :=
    match next l with
    | Some n => let! k := bound_link s n in
                let! s := bound_set_link s n (link (next k) (prev l)) in Ok (r, s)
    | None => Ok (link (next r) (prev l), s)
    end in
  let! s := set_links s root side r in
  let! s := edit s i (on_state clear_queue) in
  let! st := state_word s root in
  if bool_decide (next r = None) && bool_decide (word_paused st = Some side) then set_state s root (word_set_paused st None)
  else Ok s.
(** [Topology::activate], src/layer0/core/src/driver/schedule/ready/arena/topology.rs:95-106. *)
Definition activate (s : Slots) (root i : Z) : run E (Activation * Slots) :=
  let! c := resident s i in
  match queue (c_state c) with
  | Some _ => Ok (Coalesced, s)
  | None =>
      let! st := state_word s root in
      let! s := push s root i (word_active st) in
      Ok (Queued, s)
  end.
(** [Topology::begin], src/layer0/core/src/driver/schedule/ready/arena/topology.rs:108-124. *)
Definition begin_ (s : Slots) (root : Z) : run E (option Lane * Slots) :=
  let! st := state_word s root in
  if negb (Z.land st DRAINING_MASK =? 0) then Ok (None, s)
  else
    let! resumed :=
      match word_paused st with
      | Some side => let! h := lane_head s root side in Ok (match h with Some _ => Some side | None => None end)
      | None => Ok None
      end in
    match resumed with
    | Some side => let! s := lanes_claim s root in Ok (Some side, s)
    | None =>
        let side := word_active st in
        let! h := lane_head s root side in
        match h with
        | None => Ok (None, s)
        | Some _ =>
            let! s := set_state s root (word_set_active st (flip side)) in
            let! st := state_word s root in
            let! s := set_state s root (word_set_paused st (Some side)) in
            let! s := lanes_claim s root in
            Ok (Some side, s)
        end
    end.
(** [Topology::finish], src/layer0/core/src/driver/schedule/ready/arena/topology.rs:126-129. *)
Definition finish (s : Slots) (root : Z) : run E Slots :=
  let! st := state_word s root in set_state s root (Z.land st (not DRAINING_MASK)).
(** [Topology::peek_side], src/layer0/core/src/driver/schedule/ready/arena/topology.rs:138-141. *)
Definition peek_side (s : Slots) (root : Z) (side : Lane) : run E (option Z) :=
  let! h := lane_head s root side in
  match h with
  | None => Ok None
  | Some i => let! c := resident s i in Ok (Some (local (task_record (c_payload c))))
  end.
(** [Topology::peek], src/layer0/core/src/driver/schedule/ready/arena/topology.rs:131-136. *)
Definition peek (s : Slots) (root : Z) : run E (option Z) :=
  let! st := state_word s root in
  let! first := match word_paused st with Some side => peek_side s root side | None => Ok None end in
  match first with Some i => Ok (Some i) | None => peek_side s root (word_active st) end.
(** [Topology::pop], src/layer0/core/src/driver/schedule/ready/arena/topology.rs:143-149. *)
Definition pop (s : Slots) (root : Z) (side : Lane) : run E (option Z * Slots) :=
  let! h := lane_head s root side in
  match h with
  | None => Ok (None, s)
  | Some i =>
      let! c := resident s i in
      let! s := remove s root i side in
      Ok (Some (local (task_record (c_payload c))), s)
  end.
(** [Endpoint::pop], src/layer0/core/src/driver/schedule/ready/task/topology/mod.rs:77-79. The drain
    is dropped at the end, which finishes it. *)
Definition endpoint_pop (s : Slots) (root : Z) : run E (option Z * Slots) :=
  let! (side, s) := begin_ s root in
  match side with
  | None => Ok (None, s)
  | Some side =>
      let! (x, s) := pop s root side in
      let! s := finish s root in
      Ok (x, s)
  end.
(** [Lanes::is_empty], src/layer0/core/src/driver/schedule/ready/arena/topology.rs:270-272. *)
Definition is_empty (s : Slots) (root : Z) : run E bool :=
  let! a := lane_head s root First in
  let! b := lane_head s root Second in
  Ok (bool_decide (a = None) && bool_decide (b = None)).

(** [Resident::unroot], src/layer0/core/src/driver/schedule/ready/arena/cells.rs:125-131. *)
Definition unroot (s : Slots) (root : Z) (key : Stored) : run E (Stored * Slots) :=
  let! s := edit s root (on_state (set_kind Reserved)) in Ok (key, s).
(** [Topology::detach], src/layer0/core/src/driver/schedule/ready/arena/topology.rs:54-79. A count
    of zero is undefined behaviour. *)
Definition detach (s : Slots) (key : Stored) : run E (option Stored * Slots) :=
  let i := index key in
  let! t := resident s i in
  let root := topology (task_record (c_payload t)) in
  let! s := match queue (c_state t) with Some side => remove s root i side | None => Ok s end in
  let! r := resident s root in
  let st := word (c_payload r) 2 in
  let count := wrap 32 st in
  if count =? 0 then Stuck Undefined
  else
    let next := count - 1 in
    let! s := set_state s root (word_count st next) in
    if (next =? 0) && negb (Z.land st CLOSED_MASK =? 0) then
      let! (key, s) := unroot s root (stored root (generation (c_state r))) in Ok (Some key, s)
    else Ok (None, s).
(** [Topology::close], src/layer0/core/src/driver/schedule/ready/arena/topology.rs:83-93. *)
Definition close (s : Slots) (key : Stored) : run E (option Stored * Slots) :=
  let root := index key in
  let! st := state_word s root in
  if wrap 16 st =? 0 then let! (key, s) := unroot s root key in Ok (Some key, s)
  else let! s := lanes_close s root in Ok (None, s).
(** [Detached], src/layer0/core/src/driver/schedule/ready/key/mod.rs:32-35, and
    [TaskKey::detach], src/layer0/core/src/driver/schedule/ready/key/mod.rs:243-250. *)
Definition task_detach (s : Slots) (key : Stored) : run E (Stored * option Stored * Slots) :=
  let! (root, s) := detach s key in
  let! (task, s) := untask s key in
  Ok (task, root, s).
(** [Pool::free_task], src/layer0/core/src/driver/schedule/ready/arena/pool/mod.rs:213-223. *)
Definition free_task (self : Pool) (s : Slots) (key : Stored) : run E (Pool * Slots) :=
  let! (task, root, s) := task_detach s key in
  let! (self, s) := recycle self s task in
  match root with Some root => recycle self s root | None => Ok (self, s) end.
(** [Pool::release_root], src/layer0/core/src/driver/schedule/ready/arena/pool/mod.rs:225-233. *)
Definition release_root (self : Pool) (s : Slots) (key : Stored) : run E (Pool * Slots) :=
  let! (held, s) := close s key in
  match held with Some held => recycle self s held | None => Ok (self, s) end.
End topology.
End Topo.

(** ** The arena *)

Module Arena.
Import Cells FreePool Topo.

(** [Arena], src/layer0/core/src/driver/schedule/ready/arena/mod.rs:26-30. With [Table],
    src/layer0/core/src/driver/schedule/ready/arena/cells.rs:144-147. The domain of
    descriptors is seen through the target it gives a slot, an argument. *)
Record Arena (P : Type) := arena { ready : ReadySet.Store P; table : Slots; pool : Pool }.
Arguments arena {P}.
Arguments ready {P}.
Arguments table {P}.
Arguments pool {P}.
(** [Entry], src/layer0/core/src/driver/schedule/ready/arena/cells.rs:134-137. A task with its
    record. *)
Inductive Entry := EDispatch (i : Z) | ETask (r : Record_) (i : Z).
(** [TaskParent], src/layer0/core/src/driver/schedule/ready/mod.rs:90-94. *)
Inductive TaskParent := PRoot | PTask (key : Stored) | PStale.
(** [MAX_WAKE_HOPS], src/layer0/core/src/driver/schedule/ready/task/mod.rs:16-16. *)
Definition MAX_WAKE_HOPS : Z := 16.

Section arena.
Context {P : Type} `{Bitmap P} `{Generations} {E : Type}.
Abbreviation Arena := (Arena P).
(* What the domain of descriptors answers: the target of a slot, of the given
   generation or of the present one. *)
Context (target_for : Z -> Z -> option (Token.Token unit)) (target_at : Z -> option (Token.Token unit)).

Definition with_ready (a : Arena) (r : ReadySet.Store P) : Arena := arena r (table a) (pool a).
Definition with_table (a : Arena) (s : Slots) : Arena := arena (ready a) s (pool a).
Definition with_pool (a : Arena) (s : Slots) (p : Pool) : Arena := arena (ready a) s p.

(** [Arena::new], src/layer0/core/src/driver/schedule/ready/arena/mod.rs:33-40, when its allocations
    succeed. *)
Definition arena_new (l : Layout) : Arena := arena (ReadySet.try_new (l_capacity l)) (slots_new l) (from_layout l).

(** [Arena::resolve], src/layer0/core/src/driver/schedule/ready/arena/mod.rs:76-106. *)
Definition resolve (a : Arena) (key : Stored) : run E (option Entry) :=
  let i := index key - 1 in
  if i <? descriptor_end (table a) then
    match target_for i (epoch key) with
    | None => Ok None
    | Some _ => Ok (Some (EDispatch i))
    end
  else if capacity (table a) <=? i then Ok None
  else
    let! c := resident (table a) (index key) in
    if negb (generation (c_state c) =? epoch key) then Ok None
    else match kind (c_state c) with
         | Dispatch => Ok (Some (EDispatch i))
         | Task => Ok (Some (ETask (task_record (c_payload c)) (index key)))
         | Free | Reserved | Topology | Retired => Ok None
         end.
(** [Arena::complete], src/layer0/core/src/driver/schedule/ready/arena/mod.rs:238-249, with
    [Arena::queue_entry], src/layer0/core/src/driver/schedule/ready/arena/mod.rs:108-124, whose
    activation of the parent is the next turn. [fuel] bounds the turns. *)
Fixpoint complete (fuel : nat) (a : Arena) (key : Stored) : run E Arena :=
  match fuel with
  | O => Stuck Fuel
  | S fuel =>
      let! entry := resolve a key in
      match entry with
      | None => Ok a
      | Some (ETask r i) =>
          let! (activation, s) := activate (table a) (topology r) i in
          let a := with_table a s in
          match activation with
          | Queued => complete fuel a (parent r)
          | Coalesced => Ok a
          end
      | Some (EDispatch i) => let! r := ReadySet.insert (ready a) i in Ok (with_ready a r)
      end
  end.
(** [Arena::activate], src/layer0/core/src/driver/schedule/ready/arena/mod.rs:66-74. *)
Definition arena_activate (fuel : nat) (a : Arena) (key : Stored) : run E Arena := complete fuel a key.

(** [Arena::try_index], src/layer0/core/src/driver/schedule/ready/arena/mod.rs:251-256. *)
Definition try_index (a : Arena) (key : Stored) : run E (option Z) :=
  let! entry := resolve a key in
  match entry with Some (EDispatch i) => Ok (Some i) | _ => Ok None end.
(** [Arena::try_retained], src/layer0/core/src/driver/schedule/ready/arena/mod.rs:226-235. [false] is
    [Err(Stale)]. *)
Definition try_retained (a : Arena) (key : Stored) : run E (bool * Arena) :=
  let! i := try_index a key in
  match i with
  | None => Ok (false, a)
  | Some i => let! r := ReadySet.insert (ready a) i in Ok (true, with_ready a r)
  end.
(** [Arena::task_parent], src/layer0/core/src/driver/schedule/ready/arena/mod.rs:174-191. *)
Definition task_parent (a : Arena) (key : Stored) : run E TaskParent :=
  let! entry := resolve a key in
  match entry with
  | None => Ok PStale
  | Some (ETask r _) => Ok (PTask (parent r))
  | Some (EDispatch _) => Ok PRoot
  end.
(** [Arena::activate_slot], src/layer0/core/src/driver/schedule/ready/arena/mod.rs:193-195. *)
Definition activate_slot (a : Arena) (key : Stored) : run E Arena :=
  let! r := ReadySet.insert (ready a) (index key - 1) in Ok (with_ready a r).
(** [Arena::take], src/layer0/core/src/driver/schedule/ready/arena/mod.rs:197-202. *)
Definition take (a : Arena) (key : Stored) : run E (ReadySet.Readiness * Arena) :=
  let! (x, r) := ReadySet.remove (ready a) (index key - 1) in Ok (x, with_ready a r).
(** [Arena::activate_fd], src/layer0/core/src/driver/schedule/ready/arena/mod.rs:50-52, of a
    descriptor's index. *)
Definition activate_fd (a : Arena) (i : Z) : run E Arena := let! r := ReadySet.insert (ready a) i in Ok (with_ready a r).
(** [Arena::unqueue_fd], src/layer0/core/src/driver/schedule/ready/arena/mod.rs:46-48. *)
Definition unqueue_fd (a : Arena) (i : Z) : run E Arena := let! r := ReadySet.clear (ready a) i in Ok (with_ready a r).
(** [Arena::has_ready], src/layer0/core/src/driver/schedule/ready/arena/mod.rs:170-172. *)
Definition has_ready (a : Arena) : bool := negb (ReadySet.is_empty (ready a)).
(** [Arena::free_route], src/layer0/core/src/driver/schedule/ready/arena/mod.rs:126-131. *)
Definition free_route (a : Arena) (key : Stored) : run E Arena :=
  let! (held, s) := unroute (table a) key in
  let! r := ReadySet.clear (ready a) (index key - 1) in
  let! (p, s) := recycle (pool a) s held in
  Ok (arena r s p).
(** [Arena::reclaim_task], src/layer0/core/src/driver/schedule/ready/arena/mod.rs:133-139. *)
Definition reclaim_task (a : Arena) (key : Stored) : run E (Renewal * Arena) :=
  let! (task, root, s) := task_detach (table a) key in
  let! (p, s) := match root with Some root => recycle (pool a) s root | None => Ok (pool a, s) end in
  let! (renewed, s) := renew s task in
  Ok (renewed, with_pool a s p).
(** [Arena::drain], src/layer0/core/src/driver/schedule/ready/arena/mod.rs:141-168,
    the target of a drained index in its closure; [None] where that returns at once. *)
Definition drain_target (a : Arena) (i : Z) : run E (option (Token.Token unit)) :=
  if i <? descriptor_end (table a) then Ok (target_at i)
  else let! c := resident (table a) (i + 1) in Ok (Some (dispatch (c_payload c))).
(** [Arena::drain], src/layer0/core/src/driver/schedule/ready/arena/mod.rs:141-168. How many it drained, the
    permits left, and the state of [activate], the caller's closure, which may use
    the arena. *)
Definition drain {C} (activate : C -> Token.Token unit -> Arena -> run E (C * Arena)) (work : nat) (c : C) (a : Arena)
    : run E (Z * nat * C * Arena) :=
  let! (drained, work, (c, s, p), r) :=
    ReadySet.drain (fun '(c, s, p) i r =>
      let a := arena r s p in
      let! t := drain_target a i in
      match t with
      | None => Ok (c, s, p, r)
      | Some t => let! (c, a) := activate c t a in Ok (c, table a, pool a, ready a)
      end) work (c, table a, pool a) (ready a) in
  Ok (drained, work, c, arena r s p).
(** [Arena::is_dispatch], src/layer0/core/src/driver/schedule/ready/arena/mod.rs:204-206, of the proof's key. *)
Definition is_dispatch (a : Arena) (key : Stored) : run E bool :=
  let! i := try_index a key in Ok (match i with Some _ => true | None => false end).
(** [Arena::credit_ready], src/layer0/core/src/driver/schedule/ready/arena/mod.rs:208-212. *)
Definition credit_ready (a : Arena) (key : Stored) : run E Arena :=
  let! i := try_index a key in
  match i with Some i => let! r := ReadySet.insert (ready a) i in Ok (with_ready a r) | None => Ok a end.
(** [Arena::try_receive], src/layer0/core/src/driver/schedule/ready/arena/mod.rs:214-224. [false] gives the proof
    back. *)
Definition try_receive (a : Arena) (key : Stored) : run E (bool * Arena) :=
  let! i := try_index a key in
  match i with
  | None => Ok (false, a)
  | Some i => let! r := ReadySet.insert (ready a) i in Ok (true, with_ready a r)
  end.
End arena.

Section tasks.
Context {P : Type} `{Bitmap P} `{Generations}.
Abbreviation Arena := (Arena P).
Context (target_for : Z -> Z -> option (Token.Token unit)).

(** [Arena::make_slot], src/layer0/core/src/driver/schedule/ready/arena/mod.rs:54-64. *)
Definition make_slot (a : Arena) (t : Token.Token unit) : run Full (Stored * Arena) :=
  let! (key, p, s) := try_dispatch (pool a) (table a) t in Ok (key, with_pool a s p).

(** [Parent::validate], src/layer0/core/src/driver/schedule/ready/task/parent.rs:33-59, its loop
    with [hops] to go; [max] is where it started. *)
Fixpoint validate_loop (a : Arena) (max : Z) (key : Stored) (hops : nat) : run Error unit :=
  let! p := task_parent target_for a key in
  match p with
  | PRoot => Ok tt
  | PTask parent =>
      match hops with
      | O => Err (WakeHopCeiling (max + 1) max)
      | S hops => validate_loop a max parent hops
      end
  | PStale => Err ParentStale
  end.
(** [Parent::validate], src/layer0/core/src/driver/schedule/ready/task/parent.rs:33-59. *)
Definition validate (a : Arena) (key : Stored) (max : Z) : run Error unit := validate_loop a max key (Z.to_nat max).
(** [Parent::try_admit], src/layer0/core/src/driver/schedule/ready/task/parent.rs:62-67. The key the
    admission holds. *)
Definition try_admit (a : Arena) (parent : Stored) : run Error (Stored * Arena) :=
  let! _ := validate a parent (MAX_WAKE_HOPS - 1) in
  let! (child, p, s) := try_task (pool a) (table a) in
  Ok (child, with_pool a s p).
(** [Endpoint::try_new], src/layer0/core/src/driver/schedule/ready/task/topology/mod.rs:43-59. *)
Definition endpoint_new (a : Arena) : run Error (Stored * Arena) :=
  match try_topology (pool a) (table a) with
  | Ok (key, p, s) => Ok (key, with_pool a s p)
  | Err e => Err (Capacity 1 (free e))
  | Stuck w => Stuck w
  end.
(** [State::bind], src/layer0/core/src/driver/schedule/ready/task/raw/mod.rs:24-36. *)
Definition bind_task (a : Arena) (parent held root : Stored) (local : Z) : run Error (Stored * Arena) :=
  let! (staged, s) := slots_task (table a) held (task_new parent root local) in
  let! (child, s) := attach s (index root) staged in
  Ok (child, with_table a s).
(** [Pool::try_new], src/layer0/core/src/driver/schedule/ready/task/pool.rs:41-56. A lease of [n]
    admissions. *)
Definition lease_new (a : Arena) (n : Z) : run Error (Chain * Arena) :=
  if n =? 0 then Err (Capacity 1 0)
  else let! (chain, p, s) := try_take (pool a) (table a) n in Ok (chain, with_pool a s p).
(** [Pool::try_admit], src/layer0/core/src/driver/schedule/ready/task/pool.rs:66-78. *)
Definition lease_admit (a : Arena) (chain : Chain) : run Error (Stored * Chain * Arena) :=
  let! (child, chain, s) := chain_claim chain (table a) in
  let! child := ok_or child (Capacity 1 0) in
  Ok (child, chain, with_table a s).
(** [Pool::reclaim], src/layer0/core/src/driver/schedule/ready/task/pool.rs:80-94. *)
Definition lease_reclaim {R} (a : Arena) (chain : Chain) (child : Renewal) (reusable retired : R) : run Error (R * Chain * Arena) :=
  match child with
  | Reusable child => let! (chain, s) := chain_restore chain (table a) child in Ok (reusable, chain, with_table a s)
  | RRetired => Ok (retired, chain, a)
  end.
(** [impl Drop for Pool], src/layer0/core/src/driver/schedule/ready/task/pool.rs:97-102. *)
Definition lease_drop (a : Arena) (chain : Chain) : run Error Arena :=
  let! (p, s) := restore (pool a) (table a) chain in Ok (with_pool a s p).
(** [impl Return for State], src/layer0/core/src/driver/schedule/ready/task/raw/mod.rs:43-50. *)
Definition drop_task (a : Arena) (child : Stored) : run Error Arena :=
  let! (p, s) := free_task (pool a) (table a) child in Ok (with_pool a s p).
(** [impl Return for TopologyKey], src/layer0/core/src/driver/schedule/ready/key/mod.rs:219-226. *)
Definition drop_endpoint (a : Arena) (key : Stored) : run Error Arena :=
  let! (p, s) := release_root (pool a) (table a) key in Ok (with_pool a s p).
(** [impl Return for Release], src/layer0/core/src/driver/schedule/ready/task/raw/mod.rs:72-79. *)
Definition drop_admission (a : Arena) (child : Stored) : run Error Arena :=
  let! (p, s) := recycle (pool a) (table a) child in Ok (with_pool a s p).
End tasks.
End Arena.

(** ** Executable generations *)

Module Generation32.
#[export] Instance generations : Generations :=
  {| GEN_INITIAL := 0; gen_next g := if g + 1 <? 2 ^ 32 then Some (g + 1) else None |}.
#[export] Instance generations_laws : GenerationsLaws.
Proof. split; [done|]. intros g g' Hg. simpl. destruct (Z.ltb_spec (g + 1) (2 ^ 32)); [intros [= <-]; lia|done]. Qed.
End Generation32.
