(* ===== verification/ArenaFacts.v ===== *)
(** * Cells, free chains and keys of the ready arena.

    The packed words of [ReadyArena] read back what was written; the free chains
    are lists of cells that the pool and the leases hand out and take back; and a
    key whose cell was freed never names anything again. *)

From S2P Require Import Prelude Routes ReadySet ReadySetFacts ReadyArena.

Module CellFacts.
Import Word WordFacts Cells.

(** ** Packed words *)

Lemma testbit_wrap w z n : 0 <= w -> 0 <= n -> Z.testbit (wrap w z) n = Z.testbit z n && (n <? w).
Proof.
  intros Hw Hn. unfold wrap. destruct (Z.ltb_spec n w); [by rewrite Z.mod_pow2_bits_low, andb_true_r by lia|].
  by rewrite Z.mod_pow2_bits_high, andb_false_r by lia.
Qed.
Lemma high_zero w z n : 0 <= z < 2 ^ w -> 0 <= w <= n -> Z.testbit z n = false.
Proof.
  intros Hz Hn. destruct (decide (z = 0)) as [->|]; [apply Z.bits_0|]. apply Z.bits_above_log2; [lia|].
  apply Z.log2_lt_pow2; [lia|]. pose proof (Z.pow_le_mono_r 2 w n). lia.
Qed.
(** Two fields in one word, the second at bit [k]. *)
Lemma field_low w k lo hi : 0 <= w <= k -> 0 <= lo < 2 ^ w -> wrap w (Z.lor lo (Z.shiftl hi k)) = lo.
Proof.
  intros Hw Hlo. apply Z.bits_inj'. intros n Hn. rewrite testbit_wrap, Z.lor_spec, Z.shiftl_spec by lia. destruct (Z.ltb_spec n w).
  - rewrite (Z.testbit_neg_r hi) by lia. by rewrite orb_false_r, andb_true_r.
  - rewrite andb_false_r. symmetry. apply (high_zero w); lia.
Qed.
Lemma field_high w k v lo hi : 0 <= w <= k -> 0 <= v -> 0 <= lo < 2 ^ w -> 0 <= hi < 2 ^ v -> wrap v (Z.shiftr (Z.lor lo (Z.shiftl hi k)) k) = hi.
Proof.
  intros Hw Hv Hlo Hhi. apply Z.bits_inj'. intros n Hn.
  rewrite testbit_wrap, Z.shiftr_spec, Z.lor_spec, Z.shiftl_spec by lia. replace (n + k - k) with n by lia.
  rewrite (high_zero w) by lia. rewrite orb_false_l. destruct (Z.ltb_spec n v); [by rewrite andb_true_r|]. rewrite andb_false_r. symmetry. apply (high_zero v); lia.
Qed.

(** The index of a cell, a nonzero [u16], and an end of a link. *)
Definition is_code (i : Z) : Prop := 0 < i < 65536.
Definition end_ok (o : option Z) : Prop := match o with Some i => is_code i | None => True end.
Lemma end_word o : end_ok o -> 0 <= default 0 o < 2 ^ 16 /\ nonzero (default 0 o) = o.
Proof.
  destruct o as [i|]; simpl; [|done]. unfold is_code, nonzero. intros. destruct (Z.eqb_spec i 0); [lia|]. split; [lia|done].
Qed.
Lemma link_round_trip l : end_ok (next l) -> end_ok (prev l) -> from_word (link_word l) = l.
Proof.
  intros Hn Hp. destruct (end_word _ Hn) as [Hn1 Hn2], (end_word _ Hp) as [Hp1 Hp2]. unfold from_word, link_word.
  rewrite field_low, (field_high 16) by (done || lia). rewrite Hn2, Hp2. by destruct l.
Qed.
Lemma task_round_trip p t l : is_code (index p) -> 0 <= epoch p < 2 ^ 32 -> is_code (index t) -> 0 <= l < 2 ^ 32 ->
  task_record (task_new p t l) = record p (index t) l /\ task_link (task_new p t l) = EMPTY.
Proof.
  unfold is_code. intros Hp He Ht Hl. split; [|done]. unfold task_record, task_new, identity. cbn [word0 word1].
  rewrite !(Z.lor_comm (Z.shiftl (epoch p) 32)), !field_low, !(field_high 16) by lia. by destruct p.
Qed.
(** A token without auxiliary bits is restored exactly; a packed one has none. *)
Lemma dispatch_round_trip p t : 0 <= Token.meta t -> Z.land (Token.meta t) AUX_MASK = 0 -> Token.meta t < 2 ^ 64 -> dispatch (set_dispatch p t) = t.
Proof.
  intros H0 Ha Hm. unfold dispatch, set_dispatch, packed, packed_target. cbn [word0 word1 set_word fst snd].
  destruct t as [e [] m]. cbn [Token.t_epoch Token.meta] in *. f_equal. rewrite Z.shiftl_0_l, Z.lor_0_r.
  apply Z.bits_inj'. intros n Hn. rewrite !Z.land_spec, testbit_not by done.
  assert (Hb : Z.testbit (Z.land m AUX_MASK) n = false) by (by rewrite Ha, Z.bits_0). rewrite Z.land_spec in Hb.
  destruct (Z.ltb_spec n 64); [|by rewrite (testbit_high m) by lia].
  destruct (Z.testbit m n), (Z.testbit AUX_MASK n); done.
Qed.
Lemma free_next_set p n : 0 < n < 65536 -> free_next (set_free p n) = n.
Proof. intros Hn. unfold free_next, set_free. cbn [word0 set_word]. rewrite wrap_small by lia. lia. Qed.

(** ** Cells *)

Section cells.
Context `{GL : GenerationsLaws} {E : Type}.
Implicit Types s : Slots.

(** The cell of an index. *)
Definition at_ s code : option Cell :=
  let d := code - 1 - descriptor_end s in if d <? 0 then None else cells s !! Z.to_nat d.
Definition put s code c : Slots := slots (descriptor_end s) (capacity s) (<[Z.to_nat (code - 1 - descriptor_end s) := c]> (cells s)).

Lemma resident_at s code : resident (E := E) s code = match at_ s code with Some c => Ok c | None => Stuck Undefined end.
Proof. unfold resident, at_. destruct (_ <? 0); [done|]. by destruct (_ !! _). Qed.
Lemma edit_at s code f : edit (E := E) s code f = match at_ s code with Some c => Ok (put s code (f c)) | None => Stuck Undefined end.
Proof. unfold edit. rewrite resident_at. by destruct (at_ s code). Qed.
Lemma at_put s i c c' j : at_ s i = Some c -> at_ (put s i c') j = if bool_decide (j = i) then Some c' else at_ s j.
Proof.
  unfold at_, put. cbn [descriptor_end cells]. intros Hi. destruct (Z.ltb_spec (i - 1 - descriptor_end s) 0) as [|Hd]; [done|].
  apply lookup_lt_Some in Hi as Hlt. case_bool_decide as Hj.
  - subst. destruct (Z.ltb_spec (i - 1 - descriptor_end s) 0); [lia|]. by rewrite list_lookup_insert_eq.
  - destruct (Z.ltb_spec (j - 1 - descriptor_end s) 0); [done|]. rewrite list_lookup_insert_ne; [done|]. lia.
Qed.
Lemma at_put_eq s i c c' : at_ s i = Some c -> at_ (put s i c') i = Some c'.
Proof. intros Hi. rewrite (at_put s i c) by done. by rewrite bool_decide_eq_true_2. Qed.
Lemma at_put_ne s i c c' j : at_ s i = Some c -> j <> i -> at_ (put s i c') j = at_ s j.
Proof. intros Hi Hj. rewrite (at_put s i c) by done. by rewrite bool_decide_eq_false_2. Qed.
End cells.
End CellFacts.

Create Rewrite HintDb arena.
#[export] Hint Rewrite @CellFacts.resident_at @CellFacts.edit_at : arena.

(** ** Free chains *)

Module ChainFacts.
Import Cells CellFacts FreePool.

Section chains.
Context `{GL : GenerationsLaws} {E : Type}.
Implicit Types s : Slots.

(** A well-formed table: within the indices of a [u16], and nothing but retired
    padding beyond the capacity. *)
Record wf s : Prop := {
  wf_range : 0 <= descriptor_end s /\ capacity s < 65536;
  wf_pad i c : at_ s i = Some c -> capacity s < i -> kind (c_state c) = Retired;
}.
Lemma wf_code s i c : wf s -> at_ s i = Some c -> kind (c_state c) <> Retired -> is_code i /\ descriptor_end s < i <= capacity s.
Proof.
  intros Hw Hi Hk. pose proof (wf_range s Hw). assert (descriptor_end s < i).
  { unfold at_ in Hi. destruct (Z.ltb_spec (i - 1 - descriptor_end s) 0); [done|lia]. }
  assert (i <= capacity s) by (destruct (Z.le_gt_cases i (capacity s)); [done|]; destruct Hk; by eapply wf_pad).
  unfold is_code. lia.
Qed.

(** [s'] is [s] with the cell of [i] changed, which is not retired padding. *)
Lemma wf_put s i c c' : wf s -> at_ s i = Some c -> kind (c_state c) <> Retired -> wf (put s i c').
Proof.
  intros Hw Hi Hk. split; [apply (wf_range s Hw)|]. intros j d Hj Hc. destruct (wf_code s i c Hw Hi Hk) as [_ Hic].
  change (capacity s < j) in Hc. rewrite (at_put_ne s i c) in Hj by (done || lia). by eapply wf_pad.
Qed.

(** Free cells, each chained to the next, the last to itself. *)
Fixpoint chained s (l : list Z) : Prop :=
  match l with
  | [] => True
  | i :: l => (exists c, at_ s i = Some c /\ kind (c_state c) = Free /\ free_next (c_payload c) = match l with j :: _ => j | [] => i end) /\ chained s l
  end.
Lemma chained_frame s s' l : (forall i, i ∈ l -> at_ s' i = at_ s i) -> chained s l -> chained s' l.
Proof.
  induction l as [|i l IH]; [done|]. intros Hf [Hi Hl]. split; [|apply IH; [|done]; intros j Hj; apply Hf; by right].
  rewrite Hf by (by left). done.
Qed.
Lemma chained_at s l i : chained s l -> i ∈ l -> exists c, at_ s i = Some c /\ kind (c_state c) = Free.
Proof.
  induction l as [|j l IH]; [by intros _ ?%elem_of_nil|]. intros [(c & Hc & Hk & _) Hl] [->|Hi]%elem_of_cons; [by exists c|by apply IH].
Qed.
Lemma chained_code s l i : wf s -> chained s l -> i ∈ l -> is_code i.
Proof. intros Hw Hl Hi. destruct (chained_at s l i Hl Hi) as (c & Hc & Hk). eapply wf_code; [done..|]. by rewrite Hk. Qed.
Lemma chained_length s l : wf s -> chained s l -> NoDup l -> Z.of_nat (length l) <= 65535.
Proof.
  intros Hw Hl Hnd. assert (Hsub : l ⊆+ seqZ 1 65535).
  { apply NoDup_submseteq; [done|]. intros i Hi. apply elem_of_seqZ. pose proof (chained_code s l i Hw Hl Hi) as Hc. unfold is_code in Hc. lia. }
  apply submseteq_length in Hsub. rewrite length_seqZ in Hsub. lia.
Qed.

(** The pool, or a lease, that stands for a list of free cells. *)
Definition pool_of (l : list Z) : Pool := match l with [] => None | i :: _ => Some (available i (Z.of_nat (length l))) end.
Definition chain_of (l : list Z) : Chain :=
  match l with [] => None | i :: _ => Some (detached i (default i (last l)) (Z.of_nat (length l))) end.

(** Taking the head of a chain: its cell becomes reserved. *)
Definition reserved_of (c : Cell) : Cell := on_state (set_kind Reserved) c.
Lemma chain_head s i l : wf s -> chained s (i :: l) -> NoDup (i :: l) -> exists c, at_ s i = Some c /\ kind (c_state c) = Free
  /\ slots_next (E := E) s i = Ok (match l with j :: _ => j | [] => i end)
  /\ reserve (E := E) s i = Ok (stored i (generation (c_state c)), put s i (reserved_of c))
  /\ wf (put s i (reserved_of c)) /\ chained (put s i (reserved_of c)) l.
Proof.
  intros Hw [(c & Hc & Hk & Hn) Hl] [Hi Hnd]%NoDup_cons. exists c. split; [done|]. split; [done|].
  unfold slots_next, reserve. autorewrite with arena. rewrite Hc. cbn [bind]. rewrite Hn. split; [done|]. split; [done|].
  split; [eapply wf_put; [done..|by rewrite Hk]|]. eapply chained_frame; [|done]. intros j Hj. eapply at_put_ne; [done|]. by intros ->.
Qed.

Lemma pool_claim_spec s l : wf s -> chained s l -> NoDup l ->
  match l with
  | [] => claim (E := E) (pool_of l) s = Ok (None, None, s)
  | i :: l' => exists c, at_ s i = Some c /\ kind (c_state c) = Free
      /\ claim (E := E) (pool_of l) s = Ok (Some (stored i (generation (c_state c))), pool_of l', put s i (reserved_of c))
      /\ wf (put s i (reserved_of c)) /\ chained (put s i (reserved_of c)) l'
  end.
Proof.
  intros Hw Hl Hnd. destruct l as [|i l]; [done|]. destruct (chain_head s i l Hw Hl Hnd) as (c & Hc & Hk & Hn & Hr & Hw' & Hl').
  exists c. split; [done|]. split; [done|]. split; [|done]. unfold claim. cbn [pool_of count head]. rewrite Hn, Hr. cbn [length].
  destruct l as [|j l]; [done|]. assert (Hlen : Z.of_nat (S (length (j :: l))) - 1 = Z.of_nat (length (j :: l))) by lia. rewrite Hlen.
  by destruct (Z.eqb_spec (Z.of_nat (length (j :: l))) 0).
Qed.
Lemma chain_claim_spec s l : wf s -> chained s l -> NoDup l ->
  match l with
  | [] => chain_claim (E := E) (chain_of l) s = Ok (None, None, s)
  | i :: l' => exists c, at_ s i = Some c /\ kind (c_state c) = Free
      /\ chain_claim (E := E) (chain_of l) s = Ok (Some (stored i (generation (c_state c))), chain_of l', put s i (reserved_of c))
      /\ wf (put s i (reserved_of c)) /\ chained (put s i (reserved_of c)) l'
  end.
Proof.
  intros Hw Hl Hnd. destruct l as [|i l]; [done|]. destruct (chain_head s i l Hw Hl Hnd) as (c & Hc & Hk & Hn & Hr & Hw' & Hl').
  exists c. split; [done|]. split; [done|]. split; [|done]. unfold chain_claim. cbn [chain_of d_count d_head d_tail]. rewrite Hn, Hr. cbn [length].
  destruct l as [|j l]; [done|]. assert (Hlen : Z.of_nat (S (length (j :: l))) - 1 = Z.of_nat (length (j :: l))) by lia. rewrite Hlen.
  destruct (Z.eqb_spec (Z.of_nat (length (j :: l))) 0); [done|]. cbn [bind chain_of].
  rewrite last_cons_cons. by destruct (last (j :: l)) as [t|] eqn:El; [|apply last_None in El].
Qed.

(** Publishing a reserved cell before the head of a chain. *)
Definition freed_of (next : Z) (c : Cell) : Cell := on_state (set_kind Free) (on_payload (fun p => set_free p next) c).
Lemma publish_spec s key c l : wf s -> at_ s (index key) = Some c -> kind (c_state c) <> Retired -> chained s l -> index key ∉ l ->
  let next := match l with j :: _ => j | [] => index key end in
  publish (E := E) s key next = Ok (put s (index key) (freed_of next c))
  /\ wf (put s (index key) (freed_of next c)) /\ chained (put s (index key) (freed_of next c)) (index key :: l).
Proof.
  intros Hw Hc Hk Hl Hi next. unfold publish. autorewrite with arena. rewrite Hc. split; [done|]. split; [by eapply wf_put|].
  split; [|eapply chained_frame; [|done]; intros j Hj; eapply at_put_ne; [done|by intros ->]].
  exists (freed_of next c). split; [by eapply at_put_eq|]. split; [done|]. cbn [freed_of on_state on_payload c_payload]. apply free_next_set.
  unfold next. destruct l as [|j l].
  - destruct (wf_code s _ c Hw Hc Hk) as [Hcode _]. exact Hcode.
  - apply (chained_code s (j :: l) j Hw Hl). by left.
Qed.

(** Recycling: the next generation of the cell is the head, or the cell is
    retired with its last generation. *)
Lemma chain_recycle_spec s key c l : wf s -> at_ s (index key) = Some c -> kind (c_state c) = Reserved -> chained s l -> NoDup l ->
  (index key ∉ l) /\
  match gen_next (generation (c_state c)) with
  | Some g => exists c', recycle (E := E) (pool_of l) s key = Ok (pool_of (index key :: l), put s (index key) c')
      /\ c_state c' = state g Free None /\ wf (put s (index key) c') /\ chained (put s (index key) c') (index key :: l)
  | None => exists c', recycle (E := E) (pool_of l) s key = Ok (pool_of l, put s (index key) c')
      /\ c_state c' = state (generation (c_state c)) Retired None /\ wf (put s (index key) c') /\ chained (put s (index key) c') l
  end.
Proof.
  intros Hw Hc Hk Hl Hnd.
  assert (Hi : index key ∉ l) by (intros Hi; destruct (chained_at s l _ Hl Hi) as (d & Hd & Hdk); congruence).
  split; [done|]. unfold recycle, renew. autorewrite with arena. rewrite Hc. cbn [bind]. destruct (gen_next _) as [g|] eqn:Eg.
  - rewrite edit_at, Hc. cbn [bind]. set (c1 := on_state (set_epoch g) c). set (s1 := put s (index key) c1).
    assert (Hc1 : at_ s1 (index key) = Some c1) by (by eapply at_put_eq).
    assert (Hw1 : wf s1) by (eapply wf_put; [done..|by rewrite Hk]).
    assert (Hl1 : chained s1 l) by (eapply chained_frame; [|done]; intros j Hj; eapply at_put_ne; [done|by intros ->]).
    destruct (publish_spec s1 (stored (index key) g) c1 l Hw1 Hc1 ltac:(cbn; by rewrite Hk) Hl1 Hi) as (Hp & Hw2 & Hl2). cbn [index] in *.
    assert (Hlink : pool_link (pool_of l) (index key) = match l with j :: _ => j | [] => index key end) by (by destruct l).
    cbn [index]. rewrite Hlink, Hp. cbn [bind]. exists (freed_of (match l with j :: _ => j | [] => index key end) c1).
    assert (Hss : put s1 (index key) (freed_of (match l with j :: _ => j | [] => index key end) c1)
      = put s (index key) (freed_of (match l with j :: _ => j | [] => index key end) c1)).
    { unfold s1, put. cbn [descriptor_end capacity cells]. by rewrite list_insert_insert_eq. }
    rewrite Hss in *. split; [|done]. f_equal. f_equal. unfold prepend, pool_of. destruct l as [|j l]; [done|]. cbn [count]. f_equal. f_equal.
    pose proof (chained_length _ _ Hw2 Hl2 ltac:(by apply NoDup_cons)) as Hlen. simpl in *. lia.
  - cbn [bind]. eexists. split; [done|]. split; [done|]. split; [eapply wf_put; [done..|by rewrite Hk]|].
    eapply chained_frame; [|done]; intros j Hj; eapply at_put_ne; [done|by intros ->].
Qed.
Lemma chain_restore_spec s key c l : wf s -> at_ s (index key) = Some c -> kind (c_state c) = Reserved -> chained s l -> NoDup l ->
  (index key ∉ l) /\ exists c', chain_restore (E := E) (chain_of l) s key = Ok (chain_of (index key :: l), put s (index key) c')
    /\ c_state c' = state (generation (c_state c)) Free None /\ wf (put s (index key) c') /\ chained (put s (index key) c') (index key :: l).
Proof.
  intros Hw Hc Hk Hl Hnd.
  assert (Hi : index key ∉ l) by (intros Hi; destruct (chained_at s l _ Hl Hi) as (d & Hd & Hdk); congruence).
  split; [done|]. destruct (publish_spec s key c l Hw Hc ltac:(by rewrite Hk) Hl Hi) as (Hp & Hw2 & Hl2).
  exists (freed_of (match l with j :: _ => j | [] => index key end) c). split; [|done]. unfold chain_restore.
  assert (Hh : match chain_of l with Some st => d_head st | None => index key end = match l with j :: _ => j | [] => index key end) by (by destruct l).
  rewrite Hh, Hp. cbn [bind]. do 2 f_equal. destruct l as [|j l]; [done|]. cbn [chain_of d_tail d_count]. rewrite last_cons_cons.
  pose proof (chained_length _ _ Hw2 Hl2 ltac:(by apply NoDup_cons)) as Hlen.
  destruct (last (j :: l)) as [t|] eqn:El; [|by apply last_None in El]. cbn [default]. do 2 f_equal. simpl in *. lia.
Qed.

(** Cutting a chain after [t], and joining one to the end of another. *)
Lemma chained_skip s l l2 : chained s (l ++ l2) -> chained s l2.
Proof. induction l as [|i l IH]; [done|]. intros [_ Hl]. by apply IH. Qed.
Lemma chained_cut s l t l2 c c' : chained s (l ++ t :: l2) -> NoDup (l ++ t :: l2) -> at_ s t = Some c ->
  kind (c_state c') = Free -> free_next (c_payload c') = t ->
  chained (put s t c') (l ++ [t]) /\ chained (put s t c') l2.
Proof.
  intros Hl Hnd Hc Hk Hn. assert (H2 : chained (put s t c') l2).
  { eapply chained_frame; [|eapply chained_skip with (l := l ++ [t]); by rewrite <- app_assoc]. intros j Hj. eapply at_put_ne; [done|].
    intros ->. apply NoDup_app in Hnd as (_ & _ & [Hnt _]%NoDup_cons). done. }
  split; [|done]. induction l as [|i l IH]; simpl in *.
  - split; [|done]. exists c'. split; [by eapply at_put_eq|done].
  - destruct Hl as [(d & Hd & Hdk & Hdn) Hl]. apply NoDup_cons in Hnd as [Hi Hnd]. split; [|by apply IH].
    exists d. split; [erewrite at_put_ne; [done..|]; intros ->; apply Hi; apply elem_of_app; right; by left|]. split; [done|]. rewrite Hdn. by destruct l.
Qed.
Lemma chained_join s l t l2 c c' : chained s (l ++ [t]) -> chained s l2 -> NoDup (l ++ t :: l2) -> at_ s t = Some c ->
  kind (c_state c') = Free -> free_next (c_payload c') = match l2 with j :: _ => j | [] => t end ->
  chained (put s t c') (l ++ t :: l2).
Proof.
  intros Hl H2 Hnd Hc Hk Hn. induction l as [|i l IH]; simpl in *.
  - apply NoDup_cons in Hnd as [Ht Hnd]. split; [exists c'; split; [by eapply at_put_eq|done]|].
    eapply chained_frame; [|done]. intros j Hj. eapply at_put_ne; [done|]. by intros ->.
  - destruct Hl as [(d & Hd & Hdk & Hdn) Hl]. apply NoDup_cons in Hnd as [Hi Hnd]. split; [|by apply IH].
    exists d. split; [erewrite at_put_ne; [done..|]; intros ->; apply Hi; apply elem_of_app; right; by left|]. split; [done|]. rewrite Hdn. by destruct l.
Qed.

Lemma follow_spec s l n i : chained s l -> l !! n = Some i -> forall h, l !! 0%nat = Some h -> follow (E := E) s h n = Ok i.
Proof.
  revert l. induction n as [|n IH]; intros l Hl Hi h Hh; (destruct l as [|j l]; [done|]); injection Hh as <-; [by injection Hi as ->|].
  cbn [follow]. destruct Hl as [(c & Hc & _ & Hn) Hl]. unfold slots_next. rewrite resident_at, Hc. cbn [bind]. rewrite Hn.
  destruct l as [|k l]; [done|]. by apply (IH (k :: l)).
Qed.

(** A link from the last cell of a chain. *)
Lemma relink s l t next : wf s -> chained s (l ++ [t]) -> 0 < next < 65536 -> exists c c', at_ s t = Some c /\ c_state c' = c_state c
  /\ kind (c_state c') = Free /\ free_next (c_payload c') = next /\ slots_link (E := E) s t next = Ok (put s t c') /\ wf (put s t c').
Proof.
  intros Hw Hl Hnext. destruct (chained_at s (l ++ [t]) t Hl) as (c & Hc & Hk); [apply elem_of_app; right; by left|].
  exists c, (on_payload (fun p => set_free p next) c). split; [done|]. split; [done|]. split; [done|].
  split; [by apply free_next_set|]. unfold slots_link. rewrite edit_at, Hc. split; [done|]. eapply wf_put; [done..|by rewrite Hk].
Qed.

(** At most the link of one free cell has changed. *)
Definition relinks s s' : Prop :=
  s' = s \/ exists t c c', at_ s t = Some c /\ s' = put s t c' /\ kind (c_state c) = Free /\ c_state c' = c_state c.
Lemma restore_spec s l1 l2 : wf s -> chained s l1 -> chained s l2 -> NoDup (l1 ++ l2) ->
  exists s', restore (E := E) (pool_of l2) s (chain_of l1) = Ok (pool_of (l1 ++ l2), s') /\ wf s' /\ chained s' (l1 ++ l2)
    /\ (forall i, option_map c_state (at_ s' i) = option_map c_state (at_ s i)) /\ (forall i, i ∉ l1 -> at_ s' i = at_ s i) /\ relinks s s'.
Proof.
  intros Hw H1 H2 Hnd. destruct l1 as [|t l1 _] using rev_ind.
  { exists s. split; [done|]. split; [done|]. split; [done|]. split; [done|]. split; [done|by left]. }
  assert (Hco : chain_of (l1 ++ [t]) = Some (detached (List.hd t l1) t (Z.of_nat (length (l1 ++ [t]))))).
  { destruct l1 as [|i l1]; [done|]. cbn [app chain_of List.hd]. by rewrite app_comm_cons, last_snoc. }
  rewrite Hco. unfold restore. cbn [d_tail d_head d_count].
  assert (Hcodes : forall i, i ∈ (l1 ++ [t]) \/ i ∈ l2 -> is_code i) by (intros i [Hi|Hi]; [exact (chained_code s _ i Hw H1 Hi)|exact (chained_code s _ i Hw H2 Hi)]).
  set (next := pool_link (pool_of l2) t). assert (Hnx : next = match l2 with j :: _ => j | [] => t end) by (by destruct l2).
  destruct (relink s l1 t next Hw H1) as (c & c' & Hc & Hst & Hk & Hfn & Hlk & Hw').
  { rewrite Hnx. destruct l2 as [|j l2]; apply Hcodes; [left; apply elem_of_app; right; by left|right; by left]. }
  rewrite Hlk. cbn [bind]. rewrite <- app_assoc in Hnd |- *. simpl in Hnd |- *.
  pose proof (chained_join s l1 t l2 c c' H1 H2 Hnd Hc Hk ltac:(congruence)) as Hj. exists (put s t c').
  split; [|split; [done|split; [done|split; [|split]]]].
  - do 2 f_equal. pose proof (chained_length _ _ Hw' Hj Hnd) as Hlen.
    assert (Hh : pool_of (l1 ++ t :: l2) = Some (available (List.hd t l1) (Z.of_nat (length (l1 ++ t :: l2))))) by (by destruct l1).
    rewrite Hh. unfold prepend. f_equal. f_equal. rewrite !length_app in *. simpl in *. destruct l2 as [|j l2]; simpl in *; lia.
  - intros i. rewrite (at_put s t c) by done. case_bool_decide; [|done]. subst. rewrite Hc. simpl. by rewrite Hst.
  - intros i Hi. eapply at_put_ne; [done|]. intros ->. apply Hi, elem_of_app. right. by left.
  - right. exists t, c, c'. split; [done|]. split; [done|]. split; [by rewrite <- Hst|done].
Qed.
End chains.

Section takes.
Context `{GL : GenerationsLaws}.
Lemma try_take_spec s l n : wf s -> chained s l -> NoDup l -> (0 < n)%nat ->
  if bool_decide (n <= length l)%nat then
    exists s', try_take (pool_of l) s (Z.of_nat n) = Ok (chain_of (take n l), pool_of (drop n l), s') /\ wf s'
      /\ chained s' (take n l) /\ chained s' (drop n l)
      /\ (forall i, option_map c_state (at_ s' i) = option_map c_state (at_ s i)) /\ (forall i, i ∉ l -> at_ s' i = at_ s i)
      /\ relinks s s'
  else try_take (pool_of l) s (Z.of_nat n) = Err (Capacity (Z.of_nat n) (Z.of_nat (length l))).
Proof.
  intros Hw Hl Hnd Hn. unfold try_take. destruct l as [|h l0] eqn:El.
  { rewrite bool_decide_eq_false_2 by (simpl; lia). done. }
  rewrite <- El in *. assert (Hp : pool_of l = Some (available h (Z.of_nat (length l)))) by (by subst). rewrite Hp. cbn [count head pool_count].
  destruct (Z.leb_spec (Z.of_nat n) (Z.of_nat (length l))) as [Hle|Hgt]; [rewrite bool_decide_eq_true_2 by lia|by rewrite bool_decide_eq_false_2 by lia].
  pose proof (chained_length s l Hw Hl Hnd) as Hlen. rewrite wrap_small by lia.
  destruct (lookup_lt_is_Some_2 l (n - 1)) as [t Ht]; [lia|]. replace (Z.to_nat (Z.of_nat n - 1)) with (n - 1)%nat by lia.
  rewrite (follow_spec s l (n - 1) t Hl Ht) by (by subst). cbn [bind].
  assert (Hsplit : l = take (n - 1) l ++ t :: drop n l).
  { rewrite <- (take_drop_middle l (n - 1) t Ht) at 1. by replace (S (n - 1)) with n by lia. }
  assert (Htake : take n l = take (n - 1) l ++ [t]) by (replace n with (S (n - 1)) at 1 by lia; by apply take_S_r).
  assert (Hct : is_code t) by (apply (chained_code s l t Hw Hl); by eapply list_elem_of_lookup_2).
  assert (Hrest : (if Z.of_nat (length l) - Z.of_nat n =? 0 then Ok None
      else let! head := slots_next (E := Error) s t in Ok (Some (available head (Z.of_nat (length l) - Z.of_nat n)))) = Ok (pool_of (drop n l))).
  { pose proof (length_drop l n) as Hdl. rewrite Hsplit in Hl. apply chained_skip in Hl as [(c & Hc & _ & Hnx) _].
    destruct (Z.eqb_spec (Z.of_nat (length l) - Z.of_nat n) 0) as [Hz|Hz].
    - destruct (drop n l); [done|simpl in Hdl; lia].
    - unfold slots_next. rewrite resident_at, Hc. cbn [bind]. rewrite Hnx. destruct (drop n l) as [|j r]; [simpl in Hdl; lia|].
      cbn [pool_of]. do 3 f_equal. lia. }
  rewrite Hrest. cbn [bind].
  destruct (chained_at s l t Hl) as (c & Hc & Hk); [by eapply list_elem_of_lookup_2|].
  set (c' := on_payload (fun p => set_free p t) c). pose proof Hl as Hl2. pose proof Hnd as Hnd2. rewrite Hsplit in Hl2, Hnd2.
  destruct (chained_cut s _ t _ c c' Hl2 Hnd2 Hc Hk ltac:(by apply free_next_set)) as [Hc1 Hc2].
  exists (put s t c'). unfold slots_link. rewrite edit_at, Hc. cbn [bind]. rewrite Htake.
  split; [|split; [eapply wf_put; [done..|by rewrite Hk]|split; [done|split; [done|split; [|split]]]]].
  - f_equal. f_equal. f_equal. unfold chain_of. destruct (take (n - 1) l ++ [t]) as [|i r] eqn:Er; [by destruct (take (n - 1) l)|].
    rewrite <- Er, last_snoc. cbn [default]. f_equal. f_equal.
    + assert (Hh : take n l !! 0%nat = l !! 0%nat) by (apply lookup_take_lt; lia). rewrite Htake, El in Hh. by injection Hh.
    + rewrite length_app, length_take. simpl. lia.
  - intros i. rewrite (at_put s t c) by done. case_bool_decide; [|done]. subst i. by rewrite Hc.
  - intros i Hi. eapply at_put_ne; [done|]. intros ->. apply Hi. by eapply list_elem_of_lookup_2.
  - right. by exists t, c, c'.
Qed.
End takes.
End ChainFacts.

(** ** The age of a cell *)

Module Ages.
Import Cells CellFacts ChainFacts.

(** A generation that never falls, within its width; a retired cell stays so. *)
Record ages (v v' : State) : Prop := {
  ag_more : generation v <= generation v';
  ag_range : 0 <= generation v < 2 ^ 32 -> generation v' < 2 ^ 32;
  ag_retired : kind v = Retired -> kind v' = Retired /\ generation v' = generation v;
}.
Lemma word_ages_refl v : ages v v.
Proof. by split; [lia|tauto|]. Qed.
Lemma word_ages_trans v v' v'' : ages v v' -> ages v' v'' -> ages v v''.
Proof.
  intros [H1 H2 H3] [K1 K2 K3]. split; [lia|intros Hr; apply K2; specialize (H2 Hr); lia|]. intros Hk. destruct (H3 Hk) as [Hk' ?], (K3 Hk'). split; [done|congruence].
Qed.
Lemma ages_same v v' : generation v' = generation v -> kind v <> Retired -> ages v v'.
Proof. intros Hg Hk. split; [lia|intros; lia|done]. Qed.

(** The same cells, each of its age or older. *)
Record evolves (s s' : Slots) : Prop := {
  ev_end : descriptor_end s' = descriptor_end s;
  ev_capacity : capacity s' = capacity s;
  ev_cell i : match at_ s i with Some c => exists c', at_ s' i = Some c' /\ ages (c_state c) (c_state c') | None => at_ s' i = None end;
}.
Lemma evolves_refl s : evolves s s.
Proof. split; try done. intros i. destruct (at_ s i) as [c|]; [|done]. exists c. split; [done|apply word_ages_refl]. Qed.
Lemma evolves_trans s s' s'' : evolves s s' -> evolves s' s'' -> evolves s s''.
Proof.
  intros [H1 H2 H3] [K1 K2 K3]. split; [congruence..|]. intros i. specialize (H3 i). specialize (K3 i). destruct (at_ s i) as [c|]; [|by rewrite H3 in K3].
  destruct H3 as (c' & Hc' & Ha). rewrite Hc' in K3. destruct K3 as (c'' & Hc'' & Ha'). exists c''. split; [done|by eapply word_ages_trans].
Qed.
Lemma evolves_put s i c c' : at_ s i = Some c -> ages (c_state c) (c_state c') -> evolves s (put s i c').
Proof.
  intros Hc Ha. split; [done..|]. intros j. rewrite (at_put s i c) by done. case_bool_decide as Hj.
  - subst. rewrite Hc. by exists c'.
  - destruct (at_ s j) as [d|]; [|done]. exists d. split; [done|apply word_ages_refl].
Qed.
Lemma relinks_evolves s s' : relinks s s' -> evolves s s'.
Proof.
  intros [->|(t & c & c' & Hc & -> & _ & Hst)]; [apply evolves_refl|]. eapply evolves_put; [done|]. rewrite Hst. apply word_ages_refl.
Qed.
End Ages.

(** ** Every free cell is in one chain *)

Module PoolLaw.
Import Cells CellFacts FreePool ChainFacts.

Section law.
Context `{GL : GenerationsLaws}.
Implicit Types s : Slots.

Definition free_at s i : Prop := exists c, at_ s i = Some c /\ kind (c_state c) = Free.
(** The pool [p] stands for the free cells [l], one lease [c] for [lc], the other
    leases for [others]; these are all free cells, each in one of them once. *)
Record accounts s (p : Pool) (l : list Z) (c : Chain) (lc : list Z) (others : list (list Z)) : Prop := {
  ac_wf : wf s;
  ac_pool : p = pool_of l;
  ac_lease : c = chain_of lc;
  ac_l : chained s l;
  ac_lc : chained s lc;
  ac_others : Forall (chained s) others;
  ac_nodup : NoDup (l ++ lc ++ concat others);
  ac_free i : free_at s i <-> i ∈ l ++ lc ++ concat others;
}.

Lemma others_frame s s' others : (forall i, i ∈ concat others -> at_ s' i = at_ s i) -> Forall (chained s) others -> Forall (chained s') others.
Proof.
  intros Hf Ho. apply Forall_forall. intros l Hl. rewrite Forall_forall in Ho. eapply chained_frame; [|by apply Ho].
  intros i Hi. apply Hf. apply list_elem_of_In, in_concat. exists l. by rewrite <- !list_elem_of_In.
Qed.
(** A change of one cell outside the leases, which is free after it or not. *)
Lemma accounts_put s p l c lc others i d d' l' lc' : accounts s p l c lc others -> at_ s i = Some d -> i ∉ concat others ->
  wf (put s i d') -> chained (put s i d') l' -> chained (put s i d') lc' ->
  (kind (c_state d') = Free /\ kind (c_state d) <> Free /\ l' ++ lc' ≡ₚ i :: l ++ lc
   \/ kind (c_state d') <> Free /\ kind (c_state d) = Free /\ i :: l' ++ lc' ≡ₚ l ++ lc
   \/ kind (c_state d') <> Free /\ kind (c_state d) <> Free /\ l' ++ lc' ≡ₚ l ++ lc) ->
  accounts (put s i d') (pool_of l') l' (chain_of lc') lc' others.
Proof.
  intros Ha Hd Hi Hw Hl Hlc Hcase. pose proof (ac_nodup _ _ _ _ _ _ Ha) as Hnd. pose proof (ac_free _ _ _ _ _ _ Ha) as Hf.
  assert (Hfree : forall j, free_at (put s i d') j <-> (j = i /\ kind (c_state d') = Free) \/ (j <> i /\ free_at s j)).
  { intros j. unfold free_at. rewrite (at_put s i d) by done. case_bool_decide; naive_solver. }
  assert (Hfi : free_at s i <-> kind (c_state d) = Free) by (unfold free_at; naive_solver).
  split; try done.
  - eapply (others_frame s); [|apply Ha]. intros j Hj. eapply at_put_ne; [done|]. by intros ->.
  - rewrite app_assoc in Hnd |- *. destruct Hcase as [(_ & Hk & Hp)|[(_ & _ & Hp)|(_ & _ & Hp)]].
    + rewrite Hp. simpl. constructor; [|done]. rewrite <- app_assoc, <- Hf. tauto.
    + rewrite <- Hp in Hnd. by apply NoDup_cons in Hnd as [_ ?].
    + by rewrite Hp.
  - intros j. rewrite Hfree, Hf, !app_assoc. destruct Hcase as [(Hk' & Hk & Hp)|[(Hk' & Hk & Hp)|(Hk' & Hk & Hp)]].
    + rewrite Hp. simpl. rewrite elem_of_cons. destruct (decide (j = i)); [naive_solver|]. tauto.
    + rewrite <- Hp. simpl. rewrite elem_of_cons. destruct (decide (j = i)) as [->|]; [|tauto].
      split; [naive_solver|]. intros Hj. rewrite app_assoc, <- Hp in Hnd. simpl in Hnd. by apply NoDup_cons in Hnd as [? _].
    + rewrite Hp. destruct (decide (j = i)) as [->|]; [|tauto]. split; [naive_solver|]. rewrite <- app_assoc, <- Hf. tauto.
Qed.
(** A relinking of chains that frees and reserves nothing. *)
Lemma accounts_relink s s' p l c lc others l' lc' others' : accounts s p l c lc others -> wf s' -> chained s' l' -> chained s' lc' ->
  Forall (chained s') others' -> (forall i, option_map c_state (at_ s' i) = option_map c_state (at_ s i)) ->
  l' ++ lc' ++ concat others' ≡ₚ l ++ lc ++ concat others -> accounts s' (pool_of l') l' (chain_of lc') lc' others'.
Proof.
  intros Ha Hw Hl Hlc Ho Hst Hp. split; try done; [by rewrite Hp; apply Ha|]. intros i. rewrite Hp, <- (ac_free _ _ _ _ _ _ Ha).
  unfold free_at. specialize (Hst i). destruct (at_ s' i) as [d|], (at_ s i) as [e|]; simpl in Hst; try done.
  injection Hst as Hst. split; intros (x & [= <-] & Hk); eexists; (split; [done|]); congruence.
Qed.
Lemma accounts_parts s p l c lc others : accounts s p l c lc others ->
  NoDup l /\ NoDup lc /\ (forall i, i ∈ l -> i ∉ lc) /\ (forall i, i ∈ l -> i ∉ concat others) /\ (forall i, i ∈ lc -> i ∉ concat others).
Proof.
  intros Ha. pose proof (ac_nodup _ _ _ _ _ _ Ha) as Hnd. apply NoDup_app in Hnd as (H1 & H2 & Hnd). apply NoDup_app in Hnd as (H3 & H4 & _).
  split; [done|]. split; [done|]. split; [|split; [|done]]; intros i Hi Hi'; apply (H2 i Hi), elem_of_app; tauto.
Qed.
(** A cell that is not free is in no chain. *)
Lemma not_free s p l c lc others i d : accounts s p l c lc others -> at_ s i = Some d -> kind (c_state d) <> Free ->
  (i ∉ l) /\ (i ∉ lc) /\ (i ∉ concat others).
Proof.
  intros Ha Hd Hk. assert (Hn : i ∉ l ++ lc ++ concat others); [|rewrite !elem_of_app in Hn; tauto].
  rewrite <- (ac_free _ _ _ _ _ _ Ha). intros (e & He & Hke). congruence.
Qed.

(** What each operation does to the account. *)
Lemma accounts_reserve s p l c lc others l' lc' i e : accounts s p l c lc others -> at_ s i = Some e -> kind (c_state e) = Free ->
  wf (put s i (reserved_of e)) -> chained (put s i (reserved_of e)) l' -> chained (put s i (reserved_of e)) lc' -> i :: l' ++ lc' ≡ₚ l ++ lc ->
  accounts (put s i (reserved_of e)) (pool_of l') l' (chain_of lc') lc' others.
Proof.
  intros Ha He Hk Hw Hl Hlc Hp. pose proof (ac_nodup _ _ _ _ _ _ Ha) as Hnd.
  eapply accounts_put; try done; [|by right; left]. rewrite app_assoc, <- Hp in Hnd. apply NoDup_app in Hnd as (_ & Hd & _). apply Hd. by left.
Qed.
Lemma accounts_claim {E} s p l c lc others : accounts s p l c lc others ->
  match l with
  | [] => claim (E := E) p s = Ok (None, p, s)
  | i :: l' => exists e p' s', claim (E := E) p s = Ok (Some (stored i (generation (c_state e))), p', s') /\ at_ s i = Some e
      /\ kind (c_state e) = Free /\ s' = put s i (reserved_of e) /\ accounts s' p' l' c lc others
  end.
Proof.
  intros Ha. destruct (accounts_parts _ _ _ _ _ _ Ha) as (N1 & N2 & N3 & N4 & N5).
  pose proof (pool_claim_spec (E := E) s l (ac_wf _ _ _ _ _ _ Ha) (ac_l _ _ _ _ _ _ Ha) N1) as Hc.
  rewrite (ac_pool _ _ _ _ _ _ Ha), (ac_lease _ _ _ _ _ _ Ha). destruct l as [|i l]; [done|].
  destruct Hc as (e & He & Hk & Hcl & Hw & Hl). exists e, (pool_of l), (put s i (reserved_of e)). do 4 (split; [done|]).
  eapply accounts_reserve; try done. eapply chained_frame; [|apply Ha]. intros j Hj. eapply at_put_ne; [done|]. intros ->. by apply (N3 i); [left|].
Qed.
Lemma accounts_chain_claim {E} s p l c lc others : accounts s p l c lc others ->
  match lc with
  | [] => chain_claim (E := E) c s = Ok (None, c, s)
  | i :: lc' => exists e c' s', chain_claim (E := E) c s = Ok (Some (stored i (generation (c_state e))), c', s') /\ at_ s i = Some e
      /\ kind (c_state e) = Free /\ s' = put s i (reserved_of e) /\ accounts s' p l c' lc' others
  end.
Proof.
  intros Ha. destruct (accounts_parts _ _ _ _ _ _ Ha) as (N1 & N2 & N3 & N4 & N5).
  pose proof (chain_claim_spec (E := E) s lc (ac_wf _ _ _ _ _ _ Ha) (ac_lc _ _ _ _ _ _ Ha) N2) as Hc.
  rewrite (ac_pool _ _ _ _ _ _ Ha), (ac_lease _ _ _ _ _ _ Ha). destruct lc as [|i lc]; [done|].
  destruct Hc as (e & He & Hk & Hcl & Hw & Hl). exists e, (chain_of lc), (put s i (reserved_of e)). do 4 (split; [done|]).
  eapply accounts_reserve; try done; [|by rewrite Permutation_middle].
  eapply chained_frame; [|apply Ha]. intros j Hj. eapply at_put_ne; [done|]. intros ->. apply (N3 i); [done|by left].
Qed.
Lemma accounts_recycle {E} s p l c lc others key d : accounts s p l c lc others -> at_ s (index key) = Some d -> kind (c_state d) = Reserved ->
  exists p' s' d', recycle (E := E) p s key = Ok (p', s') /\ s' = put s (index key) d'
  /\ match gen_next (generation (c_state d)) with
     | Some g => c_state d' = state g Free None /\ accounts s' p' (index key :: l) c lc others
     | None => c_state d' = state (generation (c_state d)) Retired None /\ accounts s' p' l c lc others
     end.
Proof.
  intros Ha Hd Hk. destruct (accounts_parts _ _ _ _ _ _ Ha) as (N1 & N2 & N3 & N4 & N5).
  destruct (not_free _ _ _ _ _ _ _ _ Ha Hd ltac:(by rewrite Hk)) as (K1 & K2 & K3).
  destruct (chain_recycle_spec (E := E) s key d l (ac_wf _ _ _ _ _ _ Ha) Hd Hk (ac_l _ _ _ _ _ _ Ha) N1) as [_ Hr].
  assert (Hlc : forall d', chained (put s (index key) d') lc).
  { intros d'. eapply chained_frame; [|apply Ha]. intros j Hj. eapply at_put_ne; [done|]. by intros ->. }
  rewrite (ac_pool _ _ _ _ _ _ Ha), (ac_lease _ _ _ _ _ _ Ha). destruct (gen_next _) as [g|]; destruct Hr as (d' & Hr & Hst & Hw & Hl).
  - exists (pool_of (index key :: l)), (put s (index key) d'), d'. split; [done|]. split; [done|]. split; [done|].
    eapply accounts_put; try done. left. by rewrite Hst, Hk.
  - exists (pool_of l), (put s (index key) d'), d'. split; [done|]. split; [done|]. split; [done|].
    eapply accounts_put; try done. right. right. by rewrite Hst, Hk.
Qed.
Lemma accounts_chain_restore {E} s p l c lc others key d : accounts s p l c lc others -> at_ s (index key) = Some d -> kind (c_state d) = Reserved ->
  exists c' s' d', chain_restore (E := E) c s key = Ok (c', s') /\ s' = put s (index key) d'
  /\ c_state d' = state (generation (c_state d)) Free None /\ accounts s' p l c' (index key :: lc) others.
Proof.
  intros Ha Hd Hk. destruct (accounts_parts _ _ _ _ _ _ Ha) as (N1 & N2 & N3 & N4 & N5).
  destruct (not_free _ _ _ _ _ _ _ _ Ha Hd ltac:(by rewrite Hk)) as (K1 & K2 & K3).
  destruct (chain_restore_spec (E := E) s key d lc (ac_wf _ _ _ _ _ _ Ha) Hd Hk (ac_lc _ _ _ _ _ _ Ha) N2) as (_ & d' & Hr & Hst & Hw & Hl).
  rewrite (ac_pool _ _ _ _ _ _ Ha), (ac_lease _ _ _ _ _ _ Ha).
  exists (chain_of (index key :: lc)), (put s (index key) d'), d'. split; [done|]. split; [done|]. split; [done|].
  eapply accounts_put; try done; [|left; rewrite Hst, Hk; split; [done|split; [done|by rewrite Permutation_middle]]].
  eapply chained_frame; [|apply Ha]. intros j Hj. eapply at_put_ne; [done|]. by intros ->.
Qed.
Lemma accounts_take s p l c lc others n : accounts s p l c lc others -> (0 < n)%nat ->
  if bool_decide (n <= length l)%nat
  then exists c' p' s', try_take p s (Z.of_nat n) = Ok (c', p', s') /\ accounts s' p' (drop n l) c' (take n l) (lc :: others)
    /\ relinks s s'
  else try_take p s (Z.of_nat n) = Err (Capacity (Z.of_nat n) (Z.of_nat (length l))).
Proof.
  intros Ha Hn. destruct (accounts_parts _ _ _ _ _ _ Ha) as (N1 & N2 & N3 & N4 & N5).
  pose proof (try_take_spec s l n (ac_wf _ _ _ _ _ _ Ha) (ac_l _ _ _ _ _ _ Ha) N1 Hn) as Ht.
  rewrite (ac_pool _ _ _ _ _ _ Ha). case_bool_decide; [|done]. destruct Ht as (s' & Ht & Hw & H1 & H2 & Hst & Hf & Hrl).
  exists (chain_of (take n l)), (pool_of (drop n l)), s'. split; [done|]. split; [|done]. eapply accounts_relink; try done.
  - constructor.
    + eapply chained_frame; [|apply Ha]. intros i Hi. apply Hf. intros Hi'. by apply (N3 i).
    + eapply (others_frame s); [|apply Ha]. intros i Hi. apply Hf. intros Hi'. by apply (N4 i).
  - cbn [concat]. rewrite !app_assoc. apply Permutation_app; [|done]. apply Permutation_app; [|done].
    rewrite Permutation_app_comm. by rewrite take_drop.
Qed.
Lemma accounts_restore {E} s p l c lc others : accounts s p l c lc others ->
  exists p' s', restore (E := E) p s c = Ok (p', s') /\ accounts s' p' (lc ++ l) None [] others
    /\ relinks s s'.
Proof.
  intros Ha. destruct (accounts_parts _ _ _ _ _ _ Ha) as (N1 & N2 & N3 & N4 & N5).
  assert (Hnd : NoDup (lc ++ l)) by (apply NoDup_app; split; [done|]; split; [|done]; intros i Hi Hi'; by apply (N3 i)).
  destruct (restore_spec (E := E) s lc l (ac_wf _ _ _ _ _ _ Ha) (ac_lc _ _ _ _ _ _ Ha) (ac_l _ _ _ _ _ _ Ha) Hnd) as (s' & Hr & Hw & Hl & Hst & Hf & Hrl).
  rewrite (ac_pool _ _ _ _ _ _ Ha), (ac_lease _ _ _ _ _ _ Ha). exists (pool_of (lc ++ l)), s'. split; [done|]. split; [|done].
  change None with (chain_of []). eapply accounts_relink; try done.
  - eapply (others_frame s); [|apply Ha]. intros i Hi. apply Hf. intros Hi'. by apply (N5 i).
  - simpl. rewrite !app_assoc. apply Permutation_app; [|done]. apply Permutation_app_comm.
Qed.

(** A new table: every cell of the layout is free, chained in order. *)
Lemma new_at files ready l i : layout_new files ready = Ok l -> 0 <= files -> 0 <= ready ->
  exists c, at_ (slots_new l) i = (if (files <? i) && (i <=? files + 2 * ((ready + 1) / 2)) then Some c else None)
  /\ c_state c = state GEN_INITIAL (if i <=? files + ready then Free else Retired) None
  /\ (files < i <= files + ready -> free_next (c_payload c) = if i =? files + ready then i else i + 1).
Proof.
  unfold layout_new. destruct (Z.ltb_spec 65535 (files + ready)) as [|Hle]; [done|]. destruct (Z.eqb_spec (files + ready) 0); [done|].
  intros [= <-] Hf Hr. set (l := layout files ready _). exists (cell_new l (i - 1 - files)). split; [|split].
  - unfold at_, slots_new. cbn [descriptor_end cells]. change (descriptors l) with files. unfold tile_count. change (dynamic l) with ready.
    unfold TILE_SLOTS. replace (ready + 2 - 1) with (ready + 1) by lia.
    destruct (Z.ltb_spec (i - 1 - files) 0) as [|Hd], (Z.ltb_spec files i); try lia; [done|]. cbn [andb]. rewrite list_lookup_fmap.
    destruct (Z.leb_spec i (files + 2 * ((ready + 1) / 2))).
    + rewrite lookup_seq_lt by zdiv. cbn [fmap option_fmap option_map]. do 2 f_equal. lia.
    + by rewrite lookup_seq_ge by zdiv.
  - unfold cell_new. change (descriptors l + _) with (files + (i - 1 - files)). change (l_capacity l) with (1 + (files + ready - 1)).
    destruct (Z.leb_spec (1 + (files + ready - 1)) (files + (i - 1 - files))), (Z.leb_spec i (files + ready)); try lia; done.
  - intros Hi. unfold cell_new, next_free. change (descriptors l + _) with (files + (i - 1 - files)). change (l_capacity l) with (1 + (files + ready - 1)).
    destruct (Z.leb_spec (1 + (files + ready - 1)) (files + (i - 1 - files))); [lia|]. cbn [c_payload]. unfold free_next, payload_free, free_index. cbn [word0].
    destruct (Z.eqb_spec (files + (i - 1 - files) + 1) (1 + (files + ready - 1))), (Z.eqb_spec i (files + ready)); try lia;
      unfold wrap; change (2 ^ 16) with 65536; zdiv.
Qed.
Lemma new_accounts files ready l : layout_new files ready = Ok l -> 0 <= files -> 0 <= ready ->
  accounts (slots_new l) (from_layout l) (seqZ (files + 1) ready) None [] [].
Proof.
  intros Hl Hf Hr. pose proof (fun i => new_at files ready l i Hl Hf Hr) as Hat.
  assert (Hll : l = layout files ready (files + ready) /\ files + ready <= 65535).
  { unfold layout_new in Hl. destruct (Z.ltb_spec 65535 (files + ready)); [done|]. destruct (_ =? 0); [done|]. injection Hl as <-.
    split; [f_equal; lia|lia]. }
  destruct Hll as [-> Hcap]. set (l := layout files ready (files + ready)) in *.
  assert (Hfree : forall i, free_at (slots_new l) i <-> files < i <= files + ready).
  { intros i. destruct (Hat i) as (c & Hc & Hst & _). unfold free_at. rewrite Hc. clear Hat Hc.
    assert (Hb : files < i <= files + ready -> (files <? i) && (i <=? files + 2 * ((ready + 1) / 2)) = true).
    { intros. apply andb_true_iff. rewrite Z.ltb_lt, Z.leb_le. zdiv. }
    split.
    - intros (d & Hd & Hk). destruct (Z.ltb_spec files i); [|done]. cbn [andb] in Hd. destruct (_ <=? _) in Hd; [|done]. injection Hd as <-.
      rewrite Hst in Hk. by destruct (Z.leb_spec i (files + ready)).
    - intros Hi. exists c. rewrite Hb by done. split; [done|]. rewrite Hst. by destruct (Z.leb_spec i (files + ready)); [|lia]. }
  split.
  - split; [cbn; lia|]. intros i c Hc Hi. change (capacity (slots_new l)) with (files + ready) in Hi. destruct (Hat i) as (d & Hd & Hst & _).
    rewrite Hd in Hc. destruct (_ && _); [|done]. injection Hc as <-. rewrite Hst. by destruct (Z.leb_spec i (files + ready)); [lia|].
  - unfold from_layout, l_available. cbn [dynamic descriptors l]. destruct (Z.eqb_spec ready 0) as [->|]; [done|].
    rewrite seqZ_cons by lia. cbn [pool_of length]. rewrite length_seqZ. do 2 f_equal; [|lia]. unfold free_index. by rewrite wrap_small by lia.
  - done.
  - assert (Hgen : forall n a, files < a -> a + Z.of_nat n = files + ready + 1 -> chained (slots_new l) (seqZ a (Z.of_nat n))).
    { induction n as [|n IH]; [done|]. intros a Ha Hn. rewrite seqZ_cons by lia. replace (Z.pred (Z.of_nat (S n))) with (Z.of_nat n) by lia.
      split; [|apply IH; lia]. destruct (Hat a) as (c & Hc & Hst & Hnx). exists c. rewrite Hc, Hst.
      assert (Hb : (files <? a) && (a <=? files + 2 * ((ready + 1) / 2)) = true) by (apply andb_true_iff; rewrite Z.ltb_lt, Z.leb_le; zdiv).
      rewrite Hb. split; [done|]. split; [by destruct (Z.leb_spec a (files + ready)); [|lia]|]. rewrite Hnx by lia.
      destruct n as [|n]; [by destruct (Z.eqb_spec a (files + ready)); [|lia]|]. rewrite seqZ_cons by lia.
      by destruct (Z.eqb_spec a (files + ready)); [lia|]. }
    pose proof (Hgen (Z.to_nat ready) (files + 1)) as Hg. rewrite Z2Nat.id in Hg by lia. apply Hg; lia.
  - done.
  - done.
  - rewrite app_nil_r. apply NoDup_seqZ.
  - intros i. rewrite Hfree. rewrite app_nil_r, elem_of_seqZ. lia.
Qed.

(** No free cell is changed, and none is made. *)
Definition spares s s' : Prop := forall i, (free_at s i -> at_ s' i = at_ s i) /\ (free_at s' i -> free_at s i).
Lemma spares_refl s : spares s s.
Proof. done. Qed.
Lemma spares_trans s s' s'' : spares s s' -> spares s' s'' -> spares s s''.
Proof.
  intros H1 H2 i. specialize (H1 i). specialize (H2 i). destruct H1 as [H1 H1'], H2 as [H2 H2']. split; [|tauto]. intros Hf.
  rewrite H2; [by apply H1|]. unfold free_at. by rewrite H1.
Qed.
Lemma spares_put s i c c' : at_ s i = Some c -> kind (c_state c) <> Free -> kind (c_state c') <> Free -> spares s (put s i c').
Proof.
  intros Hc Hk Hk' j. unfold free_at. rewrite (at_put s i c) by done. case_bool_decide as Hj; [|done]. subst. rewrite Hc.
  split; intros (d & [= <-] & ?); done.
Qed.
Lemma accounts_spares s s' p l c lc others : accounts s p l c lc others -> spares s s' -> wf s' -> accounts s' p l c lc others.
Proof.
  intros Ha Hs Hw. assert (Hfr : forall i, i ∈ l ++ lc ++ concat others -> at_ s' i = at_ s i).
  { intros i Hi. by apply Hs, (ac_free _ _ _ _ _ _ Ha). }
  split; try done; try apply Ha.
  - eapply chained_frame; [|apply Ha]. intros i Hi. apply Hfr. rewrite !elem_of_app. tauto.
  - eapply chained_frame; [|apply Ha]. intros i Hi. apply Hfr. rewrite !elem_of_app. tauto.
  - eapply (others_frame s); [|apply Ha]. intros i Hi. apply Hfr. rewrite !elem_of_app. tauto.
  - intros i. rewrite <- (ac_free _ _ _ _ _ _ Ha). split; [apply Hs|]. intros Hf. unfold free_at. by rewrite (proj1 (Hs i) Hf).
Qed.
(** The leases in another order. *)
Lemma accounts_perm s p l c lc others others' : others ≡ₚ others' -> accounts s p l c lc others -> accounts s p l c lc others'.
Proof.
  intros Hp Ha. assert (Hc : concat others ≡ₚ concat others') by (clear Ha; induction Hp; simpl; [done|by rewrite IHHp|rewrite !app_assoc; by rewrite (Permutation_app_comm y x)|by etrans]).
  split; try apply Ha; [by rewrite <- Hp; apply Ha|by rewrite <- Hc; apply Ha|]. intros i. rewrite <- Hc. apply Ha.
Qed.
(** A lease among the others is the one that is used. *)
Lemma accounts_pick s p l lc others : accounts s p l None [] (lc :: others) <-> accounts s p l (chain_of lc) lc others.
Proof.
  split; intros Ha; destruct Ha as [H1 H2 H3 H4 H5 H6 H7 H8].
  - apply Forall_cons in H6 as [H6 H6']. split; try done.
  - subst. split; try done. by constructor.
Qed.

(** C22. Every free cell is in one free chain. The pool of a new table holds every
    cell of the layout, in order. Let the pool and the leases stand for lists of
    cells that hold every free cell once. Claiming from the pool or
    from a lease takes the head of its list, with its present generation, and
    fails when the list is empty. Recycling a reserved cell puts it in front of
    the pool under its next generation, or retires it with its last. A reserved
    cell goes back in front of its lease. A lease of [n] takes the first [n] of
    the pool, or names what was asked and what there is; dropping it puts them in
    front of the pool. In every case the lists again hold every free cell once,
    the other leases are left alone, and at most one cell is written. *)
Theorem free_slots_accounted s p l c lc others key d n : accounts s p l c lc others ->
  at_ s (index key) = Some d -> kind (c_state d) = Reserved -> (0 < n)%nat ->
  (forall files ready y, layout_new files ready = Ok y -> 0 <= files -> 0 <= ready ->
     accounts (slots_new y) (from_layout y) (seqZ (files + 1) ready) None [] [])
  /\ (forall E, match l with
   | [] => claim (E := E) p s = Ok (None, p, s)
   | i :: l' => exists e p' s', claim (E := E) p s = Ok (Some (stored i (generation (c_state e))), p', s') /\ at_ s i = Some e
       /\ kind (c_state e) = Free /\ s' = put s i (reserved_of e) /\ accounts s' p' l' c lc others
   end)
  /\ (forall E, match lc with
   | [] => chain_claim (E := E) c s = Ok (None, c, s)
   | i :: lc' => exists e c' s', chain_claim (E := E) c s = Ok (Some (stored i (generation (c_state e))), c', s') /\ at_ s i = Some e
       /\ kind (c_state e) = Free /\ s' = put s i (reserved_of e) /\ accounts s' p l c' lc' others
   end)
  /\ (forall E, exists p' s' d', recycle (E := E) p s key = Ok (p', s') /\ s' = put s (index key) d'
       /\ match gen_next (generation (c_state d)) with
          | Some g => c_state d' = state g Free None /\ accounts s' p' (index key :: l) c lc others
          | None => c_state d' = state (generation (c_state d)) Retired None /\ accounts s' p' l c lc others
          end)
  /\ (forall E, exists c' s' d', chain_restore (E := E) c s key = Ok (c', s') /\ s' = put s (index key) d'
       /\ c_state d' = state (generation (c_state d)) Free None /\ accounts s' p l c' (index key :: lc) others)
  /\ (if bool_decide (n <= length l)%nat
      then exists c' p' s', try_take p s (Z.of_nat n) = Ok (c', p', s') /\ accounts s' p' (drop n l) c' (take n l) (lc :: others)
           /\ relinks s s'
      else try_take p s (Z.of_nat n) = Err (Capacity (Z.of_nat n) (Z.of_nat (length l))))
  /\ (forall E, exists p' s', restore (E := E) p s c = Ok (p', s') /\ accounts s' p' (lc ++ l) None [] others
      /\ relinks s s').
Proof.
  intros Ha Hd Hk Hn. split; [apply new_accounts|]. split; [intros E; by eapply accounts_claim|]. split; [intros E; by eapply accounts_chain_claim|].
  split; [intros E; by eapply accounts_recycle|]. split; [intros E; by eapply accounts_chain_restore|].
  split; [by eapply accounts_take|]. intros E. by eapply accounts_restore.
Qed.
End law.

Import Generation32.
(** Two descriptors and three cells, one of them claimed: recycling it puts it in
    front of the two others. *)
Lemma free_slots_accounted_witness : exists s p d, accounts s p [4; 5] None [] [] /\ at_ s 3 = Some d /\ kind (c_state d) = Reserved
  /\ exists p' s', recycle (E := Error) p s (stored 3 0) = Ok (p', s') /\ accounts s' p' [3; 4; 5] None [] [].
Proof.
  pose proof (new_accounts 2 3 (layout 2 3 5) ltac:(reflexivity) ltac:(lia) ltac:(lia)) as Ha.
  change (seqZ (2 + 1) 3) with [3; 4; 5] in Ha.
  destruct (accounts_claim (E := Error) _ _ _ _ _ _ Ha) as (e & p & s & Hc & He & Hk & Hs & Ha').
  assert (Hd : at_ s 3 = Some (reserved_of e)) by (subst s; eapply at_put_eq; exact He).
  exists s, p, (reserved_of e). split; [exact Ha'|]. split; [exact Hd|]. split; [reflexivity|].
  destruct (free_slots_accounted s p [4; 5] None [] [] (stored 3 0) (reserved_of e) 1 Ha' Hd ltac:(reflexivity) ltac:(lia)) as (_ & _ & _ & Hr & _).
  destruct (Hr Error) as (p' & s' & d' & Hr' & _ & Hcase). vm_compute in He. injection He as <-. exists p', s'. split; [exact Hr'|]. apply Hcase.
Defined.
End PoolLaw.
