(* ===== verification/LanesFacts.v ===== *)
(** * The topologies of the ready arena are pairs of queues.

    The flags and the count in the state word of a topology; the doubly linked
    lanes of its tasks as lists; and what activating, draining, detaching and
    closing do to the two queues a topology stands for. *)

From S2P Require Import Prelude Routes ReadySet ReadySetFacts ReadyArena ArenaFacts.

(** ** The state word *)

Module StateWord.
Import Word WordFacts Cells CellFacts Topo.

Lemma testbit_at k n : 0 <= n -> Z.testbit (Z.shiftl 1 k) n = (n =? k).
Proof. intros Hn. rewrite Z.shiftl_spec, testbit_1 by done. destruct (Z.eqb_spec (n - k) 0), (Z.eqb_spec n k); lia || done. Qed.
Lemma masked st k : 0 <= k -> negb (Z.land st (Z.shiftl 1 k) =? 0) = Z.testbit st k.
Proof.
  intros Hk. assert (Hb : forall n, 0 <= n -> Z.testbit (Z.land st (Z.shiftl 1 k)) n = Z.testbit st n && (n =? k)).
  { intros n Hn. by rewrite Z.land_spec, testbit_at. }
  destruct (Z.eqb_spec (Z.land st (Z.shiftl 1 k)) 0) as [Hz|Hz]; cbn [negb].
  - specialize (Hb k Hk). by rewrite Hz, Z.bits_0, Z.eqb_refl, andb_true_r in Hb.
  - destruct (Z.testbit st k) eqn:Hs; [done|]. exfalso. apply Hz. apply Z.bits_inj'. intros n Hn. rewrite Hb, Z.bits_0 by done.
    destruct (Z.eqb_spec n k) as [->|]; [by rewrite Hs|by rewrite andb_false_r].
Qed.

Definition draining st : bool := Z.testbit st 36.
Definition closed st : bool := Z.testbit st 35.
Lemma draining_spec st : negb (Z.land st DRAINING_MASK =? 0) = draining st.
Proof. by apply masked. Qed.
Lemma closed_spec st : negb (Z.land st CLOSED_MASK =? 0) = closed st.
Proof. by apply masked. Qed.
Lemma word_active_bit st : word_active st = from_bit (Z.testbit st 32).
Proof. unfold word_active, ACTIVE_SHIFT. change 1 with (Z.shiftl 1 0). by rewrite masked, Z.shiftr_spec. Qed.
Lemma word_paused_bit st : word_paused st = if Z.testbit st 33 then Some (from_bit (Z.testbit st 34)) else None.
Proof.
  unfold word_paused. set (raw := wrap 8 _). pose proof (masked raw 0 ltac:(done)) as H0. pose proof (masked raw 1 ltac:(done)) as H1.
  change (Z.shiftl 1 0) with 1 in H0. change (Z.shiftl 1 1) with 2 in H1. rewrite H0, H1.
  assert (Hr : forall n, 0 <= n < 2 -> Z.testbit raw n = Z.testbit st (n + 33)).
  { intros n Hn. unfold raw, PAUSED_MASK, PAUSED_SHIFT. rewrite testbit_wrap, Z.shiftr_spec, Z.land_spec, Z.shiftl_spec, testbit_3 by lia.
    destruct (Z.ltb_spec n 8); [|lia]. destruct (Z.eqb_spec (n + 33 - 33) 0), (Z.eqb_spec (n + 33 - 33) 1); try lia; by rewrite !andb_true_r. }
  by rewrite !Hr by done.
Qed.

(** The bits of a word after each update. *)
Ltac bits := repeat first [rewrite Z.lor_spec | rewrite Z.land_spec | rewrite testbit_not by lia | rewrite testbit_at by lia | rewrite Z.shiftl_spec by lia].
Ltac eqbs := repeat match goal with |- context [?a =? ?b] => destruct (Z.eqb_spec a b); try lia end.
Lemma bit_set_active st side n : 0 <= n < 64 ->
  Z.testbit (word_set_active st side) n = if n =? 32 then bool_decide (side = Second) else Z.testbit st n.
Proof.
  intros Hn. unfold word_set_active, ACTIVE_SHIFT. bits. destruct (Z.ltb_spec n 64); [|lia].
  destruct side; cbn [lane_raw]; rewrite ?Z.bits_0, ?testbit_1; eqbs; destruct (Z.testbit st n); done.
Qed.
Lemma bit_set_paused st o n : 0 <= n < 64 -> Z.testbit (word_set_paused st o) n =
  if n =? 33 then bool_decide (o <> None) else if n =? 34 then bool_decide (o = Some Second) else Z.testbit st n.
Proof.
  intros Hn. unfold word_set_paused, PAUSED_MASK, PAUSED_SHIFT. bits. destruct (Z.ltb_spec n 64); [|lia]. rewrite testbit_3.
  destruct o as [[]|]; cbn [lane_raw Z.shiftl Z.lor]; rewrite ?Z.bits_0, ?testbit_1, ?testbit_3; eqbs; destruct (Z.testbit st n); done.
Qed.
Lemma bit_set_count st k n : 0 <= k < 2 ^ 32 -> 0 <= n < 64 ->
  Z.testbit (word_count st k) n = if n <? 32 then Z.testbit k n else Z.testbit st n.
Proof.
  intros Hk Hn. unfold word_count. bits. change (2 ^ 32 - 1) with (Z.ones 32). destruct (Z.ltb_spec n 64); [|lia].
  destruct (Z.ltb_spec n 32).
  - rewrite Z.ones_spec_low by lia. by destruct (Z.testbit st n).
  - rewrite Z.ones_spec_high by lia. rewrite (high_zero 32 k) by lia. by destruct (Z.testbit st n).
Qed.
Lemma bit_claim st n : 0 <= n -> Z.testbit (Z.lor st DRAINING_MASK) n = Z.testbit st n || (n =? 36).
Proof. intros Hn. unfold DRAINING_MASK. by bits. Qed.
Lemma bit_close st n : 0 <= n -> Z.testbit (Z.lor st CLOSED_MASK) n = Z.testbit st n || (n =? 35).
Proof. intros Hn. unfold CLOSED_MASK. by bits. Qed.
Lemma bit_finish st n : 0 <= n < 64 -> Z.testbit (Z.land st (not DRAINING_MASK)) n = Z.testbit st n && negb (n =? 36).
Proof. intros Hn. unfold DRAINING_MASK. bits. destruct (Z.ltb_spec n 64); [|lia]. by destruct (n =? 36). Qed.
(** The count is in the lowest bits. *)
Lemma wrap_bits w a b : 0 <= w -> (forall n, 0 <= n < w -> Z.testbit a n = Z.testbit b n) -> wrap w a = wrap w b.
Proof.
  intros Hw Hb. apply Z.bits_inj'. intros n Hn. rewrite !testbit_wrap by lia. destruct (Z.ltb_spec n w); [by rewrite Hb by lia|by rewrite !andb_false_r].
Qed.
Lemma wrap_wrap16 st n : wrap 32 st = n -> 0 <= n < 65536 -> wrap 16 st = n.
Proof.
  intros Hn Hr. rewrite <- (wrap_small 16 n) by lia. apply wrap_bits; [done|]. intros k Hk. rewrite <- Hn, testbit_wrap by lia.
  destruct (Z.ltb_spec k 32); [by rewrite andb_true_r|lia].
Qed.

(** What a state word says, in one record. *)
Record Flags := flags { f_active : Lane; f_paused : option Lane; f_closed : bool; f_draining : bool; f_count : Z }.
Definition read st : Flags := flags (word_active st) (word_paused st) (closed st) (draining st) (wrap 32 st).
Ltac reads H := unfold read, closed, draining; rewrite ?word_active_bit, ?word_paused_bit; rewrite ?H by lia.
Lemma read_set_active st side : read (word_set_active st side) = flags side (word_paused st) (closed st) (draining st) (wrap 32 st).
Proof.
  reads (fun n => bit_set_active st side n). f_equal; [by destruct side|]. apply wrap_bits; [done|]. intros n Hn. rewrite bit_set_active by lia.
  by destruct (Z.eqb_spec n 32); [lia|].
Qed.
Lemma read_set_paused st o : read (word_set_paused st o) = flags (word_active st) o (closed st) (draining st) (wrap 32 st).
Proof.
  reads (fun n => bit_set_paused st o n). f_equal; [by destruct o as [[]|]|]. apply wrap_bits; [done|]. intros n Hn. rewrite bit_set_paused by lia.
  by eqbs.
Qed.
Lemma read_count st k : 0 <= k < 2 ^ 32 -> read (word_count st k) = flags (word_active st) (word_paused st) (closed st) (draining st) k.
Proof.
  intros Hk. reads (fun n => bit_set_count st k n Hk). f_equal. rewrite <- (wrap_small 32 k) at 2 by lia. apply wrap_bits; [done|]. intros n Hn.
  rewrite bit_set_count by lia. by destruct (Z.ltb_spec n 32); [|lia].
Qed.
Lemma read_claim st : read (Z.lor st DRAINING_MASK) = flags (word_active st) (word_paused st) (closed st) true (wrap 32 st).
Proof.
  reads (bit_claim st). rewrite !orb_false_r, orb_true_r. f_equal. apply wrap_bits; [done|]. intros n Hn. rewrite bit_claim by lia.
  by eqbs; rewrite orb_false_r.
Qed.
Lemma read_close st : read (Z.lor st CLOSED_MASK) = flags (word_active st) (word_paused st) true (draining st) (wrap 32 st).
Proof.
  reads (bit_close st). rewrite !orb_false_r, orb_true_r. f_equal. apply wrap_bits; [done|]. intros n Hn. rewrite bit_close by lia.
  by eqbs; rewrite orb_false_r.
Qed.
Lemma read_finish st : read (Z.land st (not DRAINING_MASK)) = flags (word_active st) (word_paused st) (closed st) false (wrap 32 st).
Proof.
  reads (bit_finish st). rewrite !andb_true_r, andb_false_r. f_equal. apply wrap_bits; [done|]. intros n Hn. rewrite bit_finish by lia.
  by eqbs; rewrite andb_true_r.
Qed.
End StateWord.

(** ** Linked lanes *)

Module LaneFacts.
Import Word Cells CellFacts ChainFacts Topo StateWord.

Section lanes.
Context `{GL : GenerationsLaws} {E : Type}.
Implicit Types s : Slots.

(** A task of a topology, and the cell that differs from it in its links only. *)
Definition task_of (root : Z) (c : Cell) : Prop := kind (c_state c) = Task /\ topology (task_record (c_payload c)) = root.
Definition relinked (l : Link) (c : Cell) : Cell := on_payload (fun p => set_link p l) c.
(** What no operation on a topology changes in one of its tasks. *)
Record alike (c c' : Cell) : Prop := {
  al_generation : generation (c_state c') = generation (c_state c);
  al_kind : kind (c_state c') = kind (c_state c);
  al_record : task_record (c_payload c') = task_record (c_payload c);
}.
Lemma alike_refl c : alike c c.
Proof. done. Qed.
Lemma alike_trans c c' c'' : alike c c' -> alike c' c'' -> alike c c''.
Proof. intros [] []. split; congruence. Qed.
Lemma alike_task root c c' : alike c c' -> task_of root c <-> task_of root c'.
Proof. intros [_ Hk Hr]. unfold task_of. by rewrite Hk, Hr. Qed.

(** [s'] is [s] but for the cell of [root] and the links and queue marks of its tasks. *)
Definition change (root : Z) (c c' : Cell) : Prop := c' = c \/ task_of root c /\ alike c c'.
Record within root s s' : Prop := {
  wi_end : descriptor_end s' = descriptor_end s;
  wi_capacity : capacity s' = capacity s;
  wi_cell j : j <> root -> match at_ s j with Some c => exists c', at_ s' j = Some c' /\ change root c c' | None => at_ s' j = None end;
}.
Lemma within_refl root s : within root s s.
Proof. split; try done. intros j _. destruct (at_ s j) as [c|]; [|done]. exists c. split; [done|]. by left. Qed.
Lemma within_trans root s s' s'' : within root s s' -> within root s' s'' -> within root s s''.
Proof.
  intros [H1 H2 H3] [K1 K2 K3]. split; [congruence..|]. intros j Hj. specialize (H3 j Hj). specialize (K3 j Hj).
  destruct (at_ s j) as [c|]; [|by rewrite H3 in K3]. destruct H3 as (c' & Hc' & Hch). rewrite Hc' in K3. destruct K3 as (c'' & Hc'' & Hch').
  exists c''. split; [done|]. destruct Hch as [->|[Ht Ha]]; [done|]. right. split; [done|]. destruct Hch' as [->|[_ Ha']]; [done|by eapply alike_trans].
Qed.
Lemma within_put root s i c c' : at_ s i = Some c -> i = root \/ task_of root c /\ alike c c' -> within root s (put s i c').
Proof.
  intros Hc Hi. split; [done..|]. intros j Hj. rewrite (at_put s i c) by done. case_bool_decide.
  - subst j. rewrite Hc. exists c'. split; [done|]. right. by destruct Hi.
  - destruct (at_ s j) as [d|]; [|done]. exists d. split; [done|]. by left.
Qed.
(** A cell of a task that keeps its place. *)
Lemma within_task root s s' i c : within root s s' -> i <> root -> at_ s i = Some c -> exists c', at_ s' i = Some c' /\ alike c c'.
Proof. intros [_ _ Hw] Hi Hc. specialize (Hw i Hi). rewrite Hc in Hw. destruct Hw as (d & Hd & Hch). exists d. split; [done|]. by destruct Hch as [->|[_ ?]]. Qed.
Lemma within_back root s s' i c' : within root s s' -> i <> root -> at_ s' i = Some c' -> exists c, at_ s i = Some c /\ alike c c'.
Proof.
  intros [_ _ Hw] Hi Hc. specialize (Hw i Hi). destruct (at_ s i) as [c|]; [|congruence]. destruct Hw as (d & Hd & Hch). exists c. split; [done|].
  rewrite Hc in Hd. injection Hd as <-. by destruct Hch as [->|[_ ?]].
Qed.

Definition first_of (l : list Z) (n : option Z) : option Z := match l with j :: _ => Some j | [] => n end.
Definition last_of (p : option Z) (l : list Z) : option Z := match last l with Some j => Some j | None => p end.
Lemma last_of_cons p i l : last_of p (i :: l) = last_of (Some i) l.
Proof. unfold last_of. destruct l as [|j l]; [done|]. rewrite last_cons_cons. by destruct (last (j :: l)) eqn:El; [|apply last_None in El]. Qed.
Lemma last_of_snoc p l i : last_of p (l ++ [i]) = Some i.
Proof. unfold last_of. by rewrite last_snoc. Qed.

(** Tasks of [root] queued on a side, linked in order: the first has [p] before
    it, the last [n] after it. *)
Fixpoint seg s root side (p : option Z) (l : list Z) (n : option Z) : Prop :=
  match l with
  | [] => True
  | i :: l => (exists c, at_ s i = Some c /\ task_of root c /\ queue (c_state c) = Some side /\ task_link (c_payload c) = link (first_of l n) p)
      /\ seg s root side (Some i) l n
  end.
Lemma seg_frame s s' root side p l n : (forall i, i ∈ l -> at_ s' i = at_ s i) -> seg s root side p l n -> seg s' root side p l n.
Proof.
  revert p. induction l as [|i l IH]; [done|]. intros p Hf [Hi Hl]. split; [by rewrite Hf by (by left)|]. apply IH; [|done].
  intros j Hj. apply Hf. by right.
Qed.
Lemma seg_app s root side p l1 l2 n : seg s root side p (l1 ++ l2) n <-> seg s root side p l1 (first_of l2 n) /\ seg s root side (last_of p l1) l2 n.
Proof.
  revert p. induction l1 as [|i l1 IH]; intros p; simpl; [tauto|]. rewrite IH, last_of_cons.
  replace (first_of (l1 ++ l2) n) with (first_of l1 (first_of l2 n)) by (by destruct l1). tauto.
Qed.
Lemma seg_task s root side p l n i : seg s root side p l n -> i ∈ l ->
  exists c, at_ s i = Some c /\ task_of root c /\ queue (c_state c) = Some side.
Proof.
  revert p. induction l as [|j l IH]; [by intros p _ ?%elem_of_nil|]. intros p [(c & Hc & Ht & Hq & _) Hl] [->|Hi]%elem_of_cons; [by exists c|by eapply IH].
Qed.
Lemma seg_code s root side p l n i : wf s -> seg s root side p l n -> i ∈ l -> is_code i.
Proof. intros Hw Hl Hi. destruct (seg_task s root side p l n i Hl Hi) as (c & Hc & [Hk _] & _). eapply wf_code; [done..|]. by rewrite Hk. Qed.
Lemma last_code s root side p l n : wf s -> seg s root side p l n -> end_ok p -> end_ok (last_of p l).
Proof.
  intros Hw Hl Hp. unfold last_of. destruct (last l) as [i|] eqn:El; [|done]. apply last_Some in El as [l' ->].
  eapply seg_code; [done..|]. apply elem_of_app. right. by left.
Qed.
Lemma first_code s root side p l n : wf s -> seg s root side p l n -> end_ok n -> end_ok (first_of l n).
Proof. intros Hw Hl Hn. destruct l as [|i l]; [done|]. eapply seg_code; [done..|]. by left. Qed.
(** Queued on one side, a task is not on the other. *)
Lemma seg_disjoint s root l1 l2 p1 p2 n1 n2 i : seg s root First p1 l1 n1 -> seg s root Second p2 l2 n2 -> i ∈ l1 -> i ∉ l2.
Proof.
  intros H1 H2 Hi Hi'. destruct (seg_task _ _ _ _ _ _ _ H1 Hi) as (c & Hc & _ & Hq), (seg_task _ _ _ _ _ _ _ H2 Hi') as (d & Hd & _ & Hq').
  congruence.
Qed.

Lemma relinked_alike l c : alike c (relinked l c).
Proof. by split. Qed.
Lemma relinked_link l c : end_ok (next l) -> end_ok (prev l) -> task_link (c_payload (relinked l c)) = l.
Proof. intros Hn Hp. by apply link_round_trip. Qed.

(** What follows the last task of a lane is changed. *)
Lemma write_last s root side l n n' : wf s -> seg s root side None l n -> NoDup l -> end_ok n' -> root ∉ l -> exists s',
  match last l with
  | Some p => exists k, bound_link (E := E) s p = Ok k /\ bound_set_link (E := E) s p (link n' (prev k)) = Ok s'
  | None => s' = s
  end /\ seg s' root side None l n' /\ wf s' /\ within root s s' /\ (forall j, j ∉ l -> at_ s' j = at_ s j).
Proof.
  intros Hw Hl Hnd Hn Hr. destruct l as [|x l _] using rev_ind; [exists s; split; [done|]; split; [done|]; split; [done|]; split; [apply within_refl|done]|].
  rewrite last_snoc. apply seg_app in Hl as [Hl [(c & Hc & Ht & Hq & Hlk) _]]. cbn [first_of] in *.
  assert (Hp : end_ok (last_of None l)) by (by eapply last_code). set (c' := relinked (link n' (last_of None l)) c).
  assert (Hlx : x ∉ l) by (apply NoDup_app in Hnd as (_ & Hd & _); intros Hx; apply (Hd x Hx); by left).
  exists (put s x c'). split; [|split; [|split; [|split]]].
  - exists (link n (last_of None l)). unfold bound_link, bound_set_link. rewrite resident_at, edit_at, Hc. cbn [bind]. by rewrite Hlk.
  - apply seg_app. cbn [first_of]. split; [eapply seg_frame; [|done]; intros j Hj; eapply at_put_ne; [done|by intros ->]|].
    split; [|done]. exists c'. split; [by eapply at_put_eq|]. split; [by apply (alike_task root c)|]. split; [done|]. by apply relinked_link.
  - eapply wf_put; [done..|]. destruct Ht as [Hk _]. by rewrite Hk.
  - eapply within_put; [done|]. right. split; [done|apply relinked_alike].
  - intros j Hj. eapply at_put_ne; [done|]. intros ->. apply Hj, elem_of_app. right. by left.
Qed.
(** What precedes the first. *)
Lemma write_first s root side l p p' : wf s -> seg s root side p l None -> NoDup l -> end_ok p' -> root ∉ l -> exists s',
  match l with
  | x :: _ => exists k, bound_link (E := E) s x = Ok k /\ bound_set_link (E := E) s x (link (next k) p') = Ok s'
  | [] => s' = s
  end /\ seg s' root side p' l None /\ wf s' /\ within root s s' /\ (forall j, j ∉ l -> at_ s' j = at_ s j).
Proof.
  intros Hw Hl Hnd Hp Hr. destruct l as [|x l]; [exists s; split; [done|]; split; [done|]; split; [done|]; split; [apply within_refl|done]|].
  destruct Hl as [(c & Hc & Ht & Hq & Hlk) Hl]. set (c' := relinked (link (first_of l None) p') c). apply NoDup_cons in Hnd as [Hx Hnd].
  exists (put s x c'). split; [|split; [|split; [|split]]].
  - exists (link (first_of l None) p). unfold bound_link, bound_set_link. rewrite resident_at, edit_at, Hc. cbn [bind]. by rewrite Hlk.
  - split; [|eapply seg_frame; [|done]; intros j Hj; eapply at_put_ne; [done|by intros ->]].
    exists c'. split; [by eapply at_put_eq|]. split; [by apply (alike_task root c)|]. split; [done|]. apply relinked_link; [|done].
    by eapply (first_code s root side (Some x)).
  - eapply wf_put; [done..|]. destruct Ht as [Hk _]. by rewrite Hk.
  - eapply within_put; [done|]. right. split; [done|apply relinked_alike].
  - intros j Hj. eapply at_put_ne; [done|]. intros ->. apply Hj. by left.
Qed.

(** The two lanes of a topology whose cell is [r]. *)
Record lanes_at s root (r : Cell) (f : Lane -> list Z) : Prop := {
  la_root : at_ s root = Some r;
  la_kind : kind (c_state r) = Topology;
  la_word side : from_word (word (c_payload r) (lane_index side)) = link (List.hd_error (f side)) (last (f side));
  la_seg side : seg s root side None (f side) None;
  la_nodup side : NoDup (f side);
}.
Lemma root_out s root r f side : lanes_at s root r f -> root ∉ f side.
Proof. intros [Hr Hk _ Hs _] Hi. destruct (seg_task _ _ _ _ _ _ _ (Hs side) Hi) as (c & Hc & [Ht _] & _). congruence. Qed.
Lemma lanes_disjoint s root r f i side : lanes_at s root r f -> i ∈ f side -> i ∉ f (flip side).
Proof.
  intros [_ _ _ Hs _] Hi Hi'. destruct side; [exact (seg_disjoint _ _ _ _ _ _ _ _ _ (Hs First) (Hs Second) Hi Hi')|exact (seg_disjoint _ _ _ _ _ _ _ _ _ (Hs First) (Hs Second) Hi' Hi)].
Qed.
Definition upd (f : Lane -> list Z) (side : Lane) (l : list Z) : Lane -> list Z := fun x => if bool_decide (x = side) then l else f x.
Lemma cell_upd_eq f side l : upd f side l side = l.
Proof. unfold upd. by rewrite bool_decide_eq_true_2. Qed.
Lemma cell_upd_ne f side l x : x <> side -> upd f side l x = f x.
Proof. intros Hx. unfold upd. by rewrite bool_decide_eq_false_2. Qed.
Lemma set_word_same p i v : (i < 3)%nat -> word (set_word p i v) i = v.
Proof. destruct i as [|[|[|i]]]; done || lia. Qed.
Lemma set_word_other p i j v : (i < 3)%nat -> (j < 3)%nat -> i <> j -> word (set_word p i v) j = word p j.
Proof. destruct i as [|[|[|i]]], j as [|[|[|j]]]; done || lia. Qed.
Lemma lane_index_lt side : (lane_index side < 2)%nat.
Proof. destruct side; simpl; lia. Qed.
Lemma lane_index_ne side side' : side' <> side -> lane_index side <> lane_index side'.
Proof. by destruct side, side'. Qed.

(** The lanes after one of them was rewritten, cell and links. *)
Lemma lanes_rewrite s s' root r f side l : lanes_at s root r f -> (forall j, j ∉ f side -> j ∉ l -> at_ s' j = at_ s j) ->
  seg s' root side None l None -> NoDup l -> (forall i, i ∈ l -> i ∉ f (flip side)) -> root ∉ l -> wf s' ->
  end_ok (List.hd_error l) -> end_ok (last l) ->
  let r' := on_payload (fun p => set_word p (lane_index side) (link_word (link (List.hd_error l) (last l)))) r in
  set_links (E := E) s' root side (link (List.hd_error l) (last l)) = Ok (put s' root r')
  /\ lanes_at (put s' root r') root r' (upd f side l) /\ wf (put s' root r') /\ within root s' (put s' root r')
  /\ (forall j, j <> root -> at_ (put s' root r') j = at_ s' j) /\ c_state r' = c_state r /\ word (c_payload r') 2 = word (c_payload r) 2.
Proof.
  intros Hf Hfr Hl Hnd Hd Hrl Hw He1 He2 r'. pose proof (lane_index_lt side) as Hlt.
  assert (Hr' : at_ s' root = Some r) by (rewrite Hfr by (done || by eapply root_out); apply Hf).
  assert (Hne : forall j, j <> root -> at_ (put s' root r') j = at_ s' j) by (intros j Hj; by eapply at_put_ne).
  unfold set_links. rewrite edit_at, Hr'. split; [done|]. split; [|split; [|split; [|split; [done|split; [done|]]]]].
  - split; [by eapply at_put_eq|apply Hf| | |].
    + intros x. unfold r', on_payload. cbn [c_payload]. destruct (decide (x = side)) as [->|Hx].
      * rewrite cell_upd_eq, set_word_same by lia. by apply link_round_trip.
      * rewrite cell_upd_ne, set_word_other by (done || (pose proof (lane_index_lt x); lia) || by apply lane_index_ne). apply Hf.
    + intros x. destruct (decide (x = side)) as [->|Hx]; [rewrite cell_upd_eq|rewrite cell_upd_ne by done].
      * eapply seg_frame; [|done]. intros j Hj. apply Hne. by intros ->.
      * assert (x = flip side) as -> by (by destruct x, side). eapply seg_frame; [|apply Hf]. intros j Hj.
        rewrite Hne by (intros ->; by eapply root_out). apply Hfr.
        { intros Hj'. by apply (lanes_disjoint s root r f j side Hf). } { intros Hj'. by apply (Hd j). }
    + intros x. destruct (decide (x = side)) as [->|Hx]; [by rewrite cell_upd_eq|rewrite cell_upd_ne by done; apply Hf].
  - eapply wf_put; [done..|]. by rewrite (la_kind _ _ _ _ Hf).
  - eapply within_put; [done|]. by left.
  - unfold r', on_payload. cbn [c_payload]. rewrite set_word_other; lia || done.
Qed.

Lemma put_comm s i j c d ci cj : at_ s i = Some ci -> at_ s j = Some cj -> i <> j -> put (put s i c) j d = put (put s j d) i c.
Proof.
  unfold at_, put. cbn [descriptor_end capacity cells]. intros Hi Hj Hij. destruct (Z.ltb_spec (i - 1 - descriptor_end s) 0); [done|].
  destruct (Z.ltb_spec (j - 1 - descriptor_end s) 0); [done|]. f_equal. apply list_insert_insert_ne. lia.
Qed.
Lemma lanes_frame s s' root r f : (forall j, j = root \/ (exists side, j ∈ f side) -> at_ s' j = at_ s j) -> lanes_at s root r f -> lanes_at s' root r f.
Proof.
  intros Hf [H1 H2 H3 H4 H5]. split; try done; [rewrite Hf by (by left); done|]. intros side. eapply seg_frame; [|done].
  intros j Hj. apply Hf. right. by exists side.
Qed.
(** A task with no queue mark is in no lane. *)
Lemma unqueued_out s root r f i c side : lanes_at s root r f -> at_ s i = Some c -> queue (c_state c) = None -> i ∉ f side.
Proof. intros Hf Hc Hq Hi. destruct (seg_task _ _ _ _ _ _ _ (la_seg _ _ _ _ Hf side) Hi) as (d & Hd & _ & Hqd). congruence. Qed.
Lemma queued_in s root r f i c side side' : lanes_at s root r f -> at_ s i = Some c -> queue (c_state c) = Some side' -> i ∈ f side -> side = side'.
Proof. intros Hf Hc Hq Hi. destruct (seg_task _ _ _ _ _ _ _ (la_seg _ _ _ _ Hf side) Hi) as (d & Hd & _ & Hqd). congruence. Qed.

Lemma last_of_None l : last_of None l = last l.
Proof. unfold last_of. by destruct (last l). Qed.
Lemma first_of_None l : first_of l None = List.hd_error l.
Proof. by destruct l. Qed.

(** [push] queues a task behind the others. *)
Lemma push_spec s root r f i c side : wf s -> lanes_at s root r f -> at_ s i = Some c -> task_of root c -> queue (c_state c) = None ->
  exists s' r', push (E := E) s root i side = Ok s' /\ lanes_at s' root r' (upd f side (f side ++ [i])) /\ wf s' /\ within root s s'
  /\ c_state r' = c_state r /\ word (c_payload r') 2 = word (c_payload r) 2
  /\ (forall j, j <> root -> j <> i -> j ∉ f side -> at_ s' j = at_ s j).
Proof.
  intros Hw Hf Hc Ht Hq. pose proof (fun x => unqueued_out s root r f i c x Hf Hc Hq) as Hout. set (l := f side).
  assert (Hir : i <> root) by (intros ->; pose proof (la_root _ _ _ _ Hf); pose proof (la_kind _ _ _ _ Hf); destruct Ht; congruence).
  pose proof (la_seg _ _ _ _ Hf side) as Hl. fold l in Hl. pose proof (la_nodup _ _ _ _ Hf side) as Hnd. fold l in Hnd.
  assert (Hci : is_code i) by (eapply wf_code; [done..|]; by rewrite (proj1 Ht)).
  assert (Hlast : end_ok (last l)) by (rewrite <- last_of_None; by eapply last_code).
  set (c1 := relinked (link None (last l)) c). set (s1 := put s i c1).
  assert (H1 : forall j, j <> i -> at_ s1 j = at_ s j) by (intros j Hj; by eapply at_put_ne).
  assert (Hw1 : wf s1) by (eapply wf_put; [done..|]; by rewrite (proj1 Ht)).
  assert (Hwi1 : within root s s1) by (eapply within_put; [done|]; right; split; [done|apply relinked_alike]).
  assert (Hf1 : lanes_at s1 root r f) by (eapply lanes_frame; [|done]; intros j [->|[x Hx]]; apply H1; [done|by intros ->; apply (Hout x)]).
  destruct (write_last s1 root side l None (Some i) Hw1 (la_seg _ _ _ _ Hf1 side) Hnd Hci) as (s2 & Hs2 & Hl2 & Hw2 & Hwi2 & Hfr2); [by eapply root_out|].
  assert (Hi2 : at_ s2 i = Some c1) by (rewrite Hfr2 by apply Hout; by eapply at_put_eq).
  set (c4 := on_state (set_queue side) c1). set (s3 := put s2 i c4).
  assert (Hfr3 : forall j, j <> i -> j ∉ l -> at_ s3 j = at_ s j).
  { intros j Hj Hjl. unfold s3. rewrite (at_put_ne s2 i c1) by done. rewrite Hfr2 by done. by apply H1. }
  assert (Ha4 : alike c1 c4) by (by split).
  assert (Hw3 : wf s3) by (eapply wf_put; [done..|]; cbn; by rewrite (proj1 Ht)).
  assert (Hl3 : seg s3 root side None (l ++ [i]) None).
  { apply seg_app. split; [eapply seg_frame; [|exact Hl2]; intros j Hj; eapply at_put_ne; [done|intros ->; by apply (Hout side)]|].
    split; [|done]. exists c4. split; [by eapply at_put_eq|]. split; [by apply (alike_task root c1), (alike_task root c)|]. split; [done|].
    rewrite last_of_None. by apply relinked_link. }
  destruct (lanes_rewrite s s3 root r f side (l ++ [i]) Hf) as (Hset & Hl4 & Hw4 & Hwi4 & Hfr4 & Hst & Hwd); try done.
  { intros j Hj Hj'. apply Hfr3; [|done]. intros ->. apply Hj', elem_of_app. right. by left. }
  { apply NoDup_app. split; [done|]. split; [|apply NoDup_singleton]. intros j Hj ->%list_elem_of_singleton. by apply (Hout side). }
  { intros j [Hj| ->%list_elem_of_singleton]%elem_of_app; [by eapply lanes_disjoint|apply Hout]. }
  { rewrite elem_of_app. intros [Hr| ->%list_elem_of_singleton]; [by eapply root_out|done]. }
  { destruct l as [|j l0]; [done|]. eapply seg_code; [exact Hw|exact Hl|by left]. }
  { by rewrite last_snoc. }
  set (r' := on_payload _ r) in *. exists (put s3 root r'), r'. split; [|split; [done|split; [done|split; [|split; [done|split; [done|]]]]]].
  - unfold push, links, bound_set_link. rewrite resident_at, (la_root _ _ _ _ Hf). cbn [bind]. rewrite (la_word _ _ _ _ Hf). fold l. cbn [prev next].
    rewrite edit_at, Hc. cbn [bind]. fold (relinked (link None (last l)) c). fold c1 s1.
    assert (Hlk : set_links (E := E) s2 root side (link (List.hd_error (l ++ [i])) (Some i)) = Ok (put s2 root r')).
    { revert Hset. unfold set_links. rewrite !edit_at. unfold s3. rewrite (at_put_ne s2 i c1) by done. rewrite last_snoc.
      destruct (at_ s2 root) as [rr|] eqn:Er; [|done]. intros _. do 2 f_equal.
      assert (Some rr = Some r) as [= ->]; [|unfold r'; by rewrite last_snoc].
      rewrite <- Er, Hfr2 by (by eapply root_out). by rewrite (la_root _ _ _ _ Hf1). }
    assert (Hedit : edit (E := E) (put s2 root r') i (on_state (set_queue side)) = Ok (put s3 root r')).
    { assert (Hr2 : at_ s2 root = Some r) by (rewrite Hfr2 by (by eapply root_out); apply Hf1).
      rewrite edit_at, (at_put_ne s2 root r) by done. rewrite Hi2. f_equal. by eapply put_comm. }
    destruct (last l) as [x|] eqn:El.
    + destruct Hs2 as (k & Hk & Hk'). rewrite Hk. cbn [bind]. unfold bound_set_link in Hk'. rewrite Hk'. cbn [bind next].
      replace (List.hd_error l) with (List.hd_error (l ++ [i])) by (by destruct l). by rewrite Hlk.
    + apply last_None in El. subst s2. rewrite El in Hlk. cbn [app List.hd_error] in Hlk. cbn [bind next]. by rewrite Hlk.
  - eapply within_trans; [|exact Hwi4]. eapply within_trans; [exact Hwi1|]. eapply within_trans; [exact Hwi2|].
    eapply within_put; [done|]. right. split; [by apply (alike_task root c)|done].
  - intros j Hjr Hji Hjl. rewrite Hfr4 by done. by apply Hfr3.
Qed.

(** Writing the state word leaves the lanes. *)
Definition with_state (v : Z) (r : Cell) : Cell := on_payload (fun p => set_word p 2 v) r.
Lemma state_write s root r f v : wf s -> lanes_at s root r f ->
  set_state (E := E) s root v = Ok (put s root (with_state v r)) /\ lanes_at (put s root (with_state v r)) root (with_state v r) f
  /\ wf (put s root (with_state v r)) /\ within root s (put s root (with_state v r))
  /\ (forall j, j <> root -> at_ (put s root (with_state v r)) j = at_ s j).
Proof.
  intros Hw Hf. pose proof (la_root _ _ _ _ Hf) as Hr. unfold set_state. rewrite edit_at, Hr.
  assert (Hne : forall j, j <> root -> at_ (put s root (with_state v r)) j = at_ s j) by (intros; by eapply at_put_ne).
  split; [done|]. split; [|split; [|split; [|done]]].
  - destruct Hf as [_ H2 H3 H4 H5]. split; [by eapply at_put_eq|done| | |done].
    + intros side. cbn [with_state on_payload c_payload]. pose proof (lane_index_lt side). by rewrite set_word_other by lia.
    + intros side. eapply seg_frame; [|apply H4]. intros j Hj. apply Hne. intros ->.
      destruct (seg_task _ _ _ _ _ _ _ (H4 side) Hj) as (c & Hc & [Ht _] & _). congruence.
  - eapply wf_put; [done..|]. by rewrite (la_kind _ _ _ _ Hf).
  - eapply within_put; [done|]. by left.
Qed.
Lemma state_read s root r f : lanes_at s root r f -> state_word (E := E) s root = Ok (word (c_payload r) 2).
Proof. intros Hf. unfold state_word. rewrite resident_at, (la_root _ _ _ _ Hf). done. Qed.

(** Taking a task out of the middle of its lane. *)
Lemma unlink s root r f side l1 i l2 : wf s -> lanes_at s root r f -> f side = l1 ++ i :: l2 -> exists c s2,
  at_ s i = Some c /\ task_of root c /\ queue (c_state c) = Some side
  /\ (let! l := bound_link (E := E) s i in
     let! r := links s root side in
     let! (r, s) :=
       match prev l with
       | Some p => let! k := bound_link s p in
                   let! s := bound_set_link s p (link (next l) (prev k)) in Ok (r, s)
       | None => Ok (link (next l) (prev r), s)
       end in
     match next l with
     | Some n => let! k := bound_link s n in
                 let! s := bound_set_link s n (link (next k) (prev l)) in Ok (r, s)
     | None => Ok (link (next r) (prev l), s)
     end) = Ok (link (List.hd_error (l1 ++ l2)) (last (l1 ++ l2)), s2)
  /\ seg s2 root side None (l1 ++ l2) None /\ wf s2 /\ within root s s2 /\ (forall j, j ∉ l1 -> j ∉ l2 -> at_ s2 j = at_ s j).
Proof.
  intros Hw Hf El. pose proof (la_seg _ _ _ _ Hf side) as Hl. pose proof (la_nodup _ _ _ _ Hf side) as Hnd. pose proof (root_out _ _ _ _ side Hf) as Hroot.
  rewrite El in Hl, Hnd, Hroot. apply seg_app in Hl as [H1 [(c & Hc & Ht & Hq & Hlk) H2]]. cbn [first_of] in H1. rewrite first_of_None, last_of_None in Hlk.
  apply NoDup_app in Hnd as (N1 & N12 & N2). apply NoDup_cons in N2 as [Ni N2]. rewrite elem_of_app, elem_of_cons in Hroot.
  assert (Hh2 : end_ok (List.hd_error l2)) by (rewrite <- first_of_None; by eapply first_code).
  destruct (write_last s root side l1 (Some i) (List.hd_error l2) Hw H1 N1 Hh2 ltac:(tauto)) as (s1 & Hs1 & H1' & Hw1 & Hwi1 & Hfr1).
  assert (H2' : seg s1 root side (Some i) l2 None).
  { eapply seg_frame; [|exact H2]. intros j Hj. apply Hfr1. intros Hj'. apply (N12 j Hj'). by right. }
  assert (Hl1 : end_ok (last l1)) by (rewrite <- last_of_None; by eapply last_code).
  destruct (write_first s1 root side l2 (Some i) (last l1) Hw1 H2' N2 Hl1 ltac:(tauto)) as (s2 & Hs2 & H2'' & Hw2 & Hwi2 & Hfr2).
  exists c, s2. split; [done|]. split; [done|]. split; [done|]. split; [|split; [|split; [done|split; [by eapply within_trans|]]]].
  - unfold bound_link at 1. unfold links. rewrite !resident_at, Hc, (la_root _ _ _ _ Hf). cbn [bind]. rewrite (la_word _ _ _ _ Hf), El, Hlk. cbn [prev next].
    assert (Hlast : forall x, last l2 = Some x -> last (l1 ++ i :: l2) = Some x /\ last (l1 ++ l2) = Some x).
    { intros x [l3 ->]%last_Some. by rewrite app_comm_cons, !app_assoc, !last_snoc. }
    assert (Hdone : forall r1 s1', s1' = s1 -> r1 = (match last l1 with Some _ => link (List.hd_error (l1 ++ i :: l2)) (last (l1 ++ i :: l2))
        | None => link (List.hd_error l2) (last (l1 ++ i :: l2)) end) ->
      match List.hd_error l2 with
      | Some n => let! k := bound_link (E := E) s1' n in let! s := bound_set_link s1' n (link (next k) (last l1)) in Ok (r1, s)
      | None => Ok (link (next r1) (last l1), s1')
      end = Ok (link (List.hd_error (l1 ++ l2)) (last (l1 ++ l2)), s2)).
    { intros r1 s1' -> ->. destruct l2 as [|x l2]; cbn [List.hd_error].
      - subst s2. rewrite app_nil_r. do 3 f_equal. by destruct l1 as [|y l1] using rev_ind; [|rewrite last_snoc; cbn [next]; destruct l1].
      - destruct Hs2 as (k & Hk & Hs2). rewrite Hk. cbn [bind]. rewrite Hs2. cbn [bind]. do 2 f_equal.
        destruct (last (x :: l2)) as [z|] eqn:Ez; [|by apply last_None in Ez]. destruct (Hlast z eq_refl) as [-> ->].
        by destruct l1 as [|y l1] using rev_ind; [|rewrite last_snoc; destruct l1]. }
    destruct (last l1) as [x|] eqn:Ex.
    + destruct Hs1 as (k & Hk & Hs1). rewrite Hk. cbn [bind]. rewrite Hs1. cbn [bind]. by apply Hdone.
    + cbn [bind]. by apply Hdone.
  - apply seg_app. rewrite first_of_None. split; [|by rewrite last_of_None]. eapply seg_frame; [|exact H1'].
    intros j Hj. apply Hfr2. intros Hj'. apply (N12 j Hj). by right.
  - intros j Hj1 Hj2. by rewrite Hfr2, Hfr1.
Qed.

(** The state word after the last task of the paused lane has left. *)
Definition drained (st : Z) (side : Lane) (l : list Z) : Z :=
  if bool_decide (l = []) && bool_decide (word_paused st = Some side) then word_set_paused st None else st.
(** [remove] takes a task out of its lane. *)
Lemma remove_spec s root r f side l1 i l2 : wf s -> lanes_at s root r f -> f side = l1 ++ i :: l2 ->
  exists s' r' c c', remove (E := E) s root i side = Ok s' /\ lanes_at s' root r' (upd f side (l1 ++ l2)) /\ wf s' /\ within root s s'
  /\ c_state r' = c_state r /\ word (c_payload r') 2 = drained (word (c_payload r) 2) side (l1 ++ l2)
  /\ at_ s i = Some c /\ at_ s' i = Some c' /\ alike c c' /\ queue (c_state c') = None
  /\ (forall j, j <> root -> j ∉ f side -> at_ s' j = at_ s j).
Proof.
  intros Hw Hf El. destruct (unlink s root r f side l1 i l2 Hw Hf El) as (c & s2 & Hc & Ht & Hq & Hcode & Hl & Hw2 & Hwi2 & Hfr2).
  pose proof (la_nodup _ _ _ _ Hf side) as Hnd. pose proof (root_out _ _ _ _ side Hf) as Hroot. rewrite El in Hnd, Hroot.
  assert (Hnd' : NoDup (l1 ++ l2) /\ i ∉ l1 ++ l2) by (rewrite <- Permutation_middle in Hnd; apply NoDup_cons in Hnd; tauto).
  destruct Hnd' as [Hnd' Hi]. rewrite elem_of_app, elem_of_cons in Hroot. assert (Hir : i <> root) by (intros ->; tauto).
  destruct (lanes_rewrite s s2 root r f side (l1 ++ l2) Hf) as (Hset & Hl3 & Hw3 & Hwi3 & Hfr3 & Hst & Hwd); try done.
  { intros j Hj _. rewrite El, elem_of_app, elem_of_cons in Hj. apply Hfr2; tauto. }
  { intros j Hj. eapply lanes_disjoint; [done|]. rewrite El. rewrite elem_of_app, elem_of_cons. rewrite elem_of_app in Hj. tauto. }
  { rewrite elem_of_app. tauto. }
  { rewrite <- first_of_None. by eapply first_code. }
  { rewrite <- last_of_None. by eapply last_code. }
  set (r3 := on_payload _ r) in *. set (s3 := put s2 root r3) in *.
  assert (Hi3 : at_ s3 i = Some c) by (rewrite Hfr3 by done; rewrite Hfr2; [done|rewrite elem_of_app in Hi; tauto..]).
  set (c4 := on_state clear_queue c). set (s4 := put s3 i c4).
  assert (Hfr4 : forall j, j <> i -> at_ s4 j = at_ s3 j) by (intros j Hj; by eapply at_put_ne).
  assert (Hw4 : wf s4) by (eapply wf_put; [done..|]; by rewrite (proj1 Ht)).
  assert (Hwi4 : within root s s4).
  { eapply within_trans; [exact Hwi2|]. eapply within_trans; [exact Hwi3|]. eapply within_put; [done|]. right. by split. }
  assert (Hf4 : lanes_at s4 root r3 (upd f side (l1 ++ l2))).
  { eapply lanes_frame; [|exact Hl3]. intros j [->|[x Hx]]; apply Hfr4; [done|]. intros ->. destruct (decide (x = side)) as [->|Hx'].
    - by rewrite cell_upd_eq in Hx.
    - rewrite cell_upd_ne in Hx by done. assert (x = flip side) as -> by (by destruct x, side). eapply (lanes_disjoint s root r f i side); [done| |done].
      rewrite El, elem_of_app, elem_of_cons. tauto. }
  assert (Hfr : forall j, j <> root -> j ∉ f side -> at_ s4 j = at_ s j).
  { intros j Hjr Hj. rewrite El, elem_of_app, elem_of_cons in Hj. rewrite Hfr4 by tauto. rewrite Hfr3 by done. apply Hfr2; tauto. }
  assert (Hremove : remove (E := E) s root i side = if bool_decide (List.hd_error (l1 ++ l2) = None) && bool_decide (word_paused (word (c_payload r) 2) = Some side)
      then set_state s4 root (word_set_paused (word (c_payload r) 2) None) else Ok s4).
  { assert (Hbind : forall (m : run E (Link * Slots)), m = Ok (link (List.hd_error (l1 ++ l2)) (last (l1 ++ l2)), s2) ->
      (let! (r, s) := m in let! s := set_links s root side r in let! s := edit s i (on_state clear_queue) in
       let! st := state_word s root in
       if bool_decide (next r = None) && bool_decide (word_paused st = Some side) then set_state s root (word_set_paused st None) else Ok s)
      = if bool_decide (List.hd_error (l1 ++ l2) = None) && bool_decide (word_paused (word (c_payload r) 2) = Some side)
        then set_state s4 root (word_set_paused (word (c_payload r) 2) None) else Ok s4).
    { intros m ->. cbn [bind]. rewrite Hset. cbn [bind]. rewrite edit_at, Hi3. cbn [bind]. fold c4 s4.
      rewrite (state_read _ _ _ _ Hf4). cbn [bind next]. by rewrite Hwd. }
    rewrite <- (Hbind _ Hcode). unfold remove. destruct (bound_link s i) as [l| |]; cbn [bind]; try done.
    destruct (links s root side) as [r0| |]; cbn [bind]; try done. by destruct (match prev l with Some _ => _ | None => _ end) as [[]| |]. }
  assert (Hempty : bool_decide (List.hd_error (l1 ++ l2) = None) = bool_decide (l1 ++ l2 = [])) by (apply bool_decide_ext; by destruct (l1 ++ l2)).
  rewrite Hempty in Hremove. rewrite Hremove. unfold drained. destruct (_ && _).
  - destruct (state_write s4 root r3 _ (word_set_paused (word (c_payload r) 2) None) Hw4 Hf4) as (Hs5 & Hf5 & Hw5 & Hwi5 & Hfr5).
    rewrite Hs5. eexists _, _, c, c4. split; [done|]. split; [exact Hf5|]. split; [done|]. split; [by eapply within_trans|]. split; [done|].
    split; [done|]. split; [done|]. split; [by rewrite Hfr5 by done; eapply at_put_eq|]. split; [done|]. split; [done|].
    intros j Hj Hj'. by rewrite Hfr5, Hfr.
  - exists s4, r3, c, c4. split; [done|]. split; [done|]. split; [done|]. split; [done|]. split; [done|].
    split; [done|]. split; [done|]. split; [by eapply at_put_eq|]. done.
Qed.
End lanes.
End LaneFacts.
