(* ===== verification/TopologyFacts.v ===== *)
(** * A topology is a batch and a queue behind it.

    What the cells of a topology and of its tasks stand for: the tasks of the
    batch that is drained, those that wait behind it, and the tasks attached to
    it; and what each operation of [ReadyArena.Topo] does to these lists. *)

From S2P Require Import Prelude Routes ReadySet ReadySetFacts ReadyArena ArenaFacts LanesFacts.

Module QueueFacts.
Import Word Cells CellFacts ChainFacts Topo StateWord LaneFacts.

(** The queue of a topology: tasks that wait, on the open side; the batch, on the
    other; and every task attached to it. *)
Record Queue := mk_queue { waiting : list Z; batch : list Z; side : Lane; q_draining : bool; q_closed : bool; members : list Z }.

(** ** What each operation means *)

Definition queued (q : Queue) (i : Z) : Prop := i ∈ waiting q \/ i ∈ batch q.
#[export] Instance queued_dec q i : Decision (queued q i) := _.
Definition q_activate (q : Queue) (i : Z) : Activation * Queue :=
  if decide (queued q i) then (Coalesced, q)
  else (Queued, mk_queue (waiting q ++ [i]) (batch q) (side q) (q_draining q) (q_closed q) (members q)).
(** The batch is resumed, or what waits becomes the batch; one drain at a time. *)
Definition q_begin (q : Queue) : bool * Queue :=
  if q_draining q then (false, q)
  else match batch q, waiting q with
       | _ :: _, _ => (true, mk_queue (waiting q) (batch q) (side q) true (q_closed q) (members q))
       | [], _ :: _ => (true, mk_queue [] (waiting q) (flip (side q)) true (q_closed q) (members q))
       | [], [] => (false, q)
       end.
Definition q_pop (q : Queue) : option Z * Queue :=
  match batch q with
  | i :: b => (Some i, mk_queue (waiting q) b (side q) (q_draining q) (q_closed q) (members q))
  | [] => (None, q)
  end.
Definition q_finish (q : Queue) : Queue := mk_queue (waiting q) (batch q) (side q) false (q_closed q) (members q).
Definition q_peek (q : Queue) : option Z := List.hd_error (batch q ++ waiting q).
Definition without (i : Z) (l : list Z) : list Z := filter (fun j => j <> i) l.
Definition q_unqueue (q : Queue) (i : Z) : Queue :=
  mk_queue (without i (waiting q)) (without i (batch q)) (side q) (q_draining q) (q_closed q) (members q).
Definition q_members (q : Queue) (m : list Z) : Queue := mk_queue (waiting q) (batch q) (side q) (q_draining q) (q_closed q) m.
Definition q_close (q : Queue) : Queue := mk_queue (waiting q) (batch q) (side q) (q_draining q) true (members q).

(** ** The cells of a topology stand for a queue *)

Definition lane (q : Queue) (x : Lane) : list Z := if bool_decide (x = side q) then waiting q else batch q.
Definition paused_of (q : Queue) : option Lane := match batch q with [] => None | _ => Some (flip (side q)) end.
Definition flags_of (q : Queue) : Flags := flags (side q) (paused_of q) (q_closed q) (q_draining q) (Z.of_nat (length (members q))).

Lemma flip_ne x : flip x <> x.
Proof. by destruct x. Qed.
Lemma flip_flip x : flip (flip x) = x.
Proof. by destruct x. Qed.
Lemma lane_side q : lane q (side q) = waiting q.
Proof. unfold lane. by rewrite bool_decide_eq_true_2. Qed.
Lemma lane_flip q : lane q (flip (side q)) = batch q.
Proof. unfold lane. rewrite bool_decide_eq_false_2; [done|apply flip_ne]. Qed.
Lemma lane_queued q i : queued q i <-> exists x, i ∈ lane q x.
Proof.
  unfold queued. split.
  - intros [Hi|Hi]; [exists (side q); by rewrite lane_side|exists (flip (side q)); by rewrite lane_flip].
  - intros [x Hx]. unfold lane in Hx. case_bool_decide; tauto.
Qed.

Section queues.
Context `{GL : GenerationsLaws} {E : Type}.
Implicit Types s : Slots.

Record holds s root (r : Cell) (q : Queue) : Prop := {
  ho_lanes : lanes_at s root r (lane q);
  ho_flags : read (word (c_payload r) 2) = flags_of q;
  ho_members : NoDup (members q) /\ forall i, i ∈ members q <-> exists c, at_ s i = Some c /\ task_of root c;
  ho_queued i c : at_ s i = Some c -> task_of root c -> queue (c_state c) <> None -> queued q i;
}.

(** [lanes_at] for lists that are the same on both sides. *)
Lemma lanes_ext s root r f g : (forall x, f x = g x) -> lanes_at s root r f -> lanes_at s root r g.
Proof.
  intros Hfg [H1 H2 H3 H4 H5]. split; try done; intros x; rewrite <- Hfg; done.
Qed.
(** The attached tasks of a topology are those before the change. *)
Lemma within_members s s' root r r' f f' i : within root s s' -> lanes_at s root r f -> lanes_at s' root r' f' ->
  (exists c, at_ s i = Some c /\ task_of root c) <-> (exists c, at_ s' i = Some c /\ task_of root c).
Proof.
  intros Hw Hf Hf'. split; intros (c & Hc & Ht).
  - assert (i <> root) by (intros ->; pose proof (la_root _ _ _ _ Hf); pose proof (la_kind _ _ _ _ Hf); destruct Ht; congruence).
    destruct (within_task root s s' i c) as (c' & Hc' & Ha); [done..|]. exists c'. split; [done|]. by apply (alike_task root c).
  - assert (i <> root) by (intros ->; pose proof (la_root _ _ _ _ Hf'); pose proof (la_kind _ _ _ _ Hf'); destruct Ht; congruence).
    destruct (within_back root s s' i c) as (c' & Hc' & Ha); [done..|]. exists c'. split; [done|]. by apply (alike_task root c' c).
Qed.
Lemma members_count s root r q : wf s -> holds s root r q -> Z.of_nat (length (members q)) < 65536.
Proof.
  intros Hw [_ _ [Hnd Hm] _]. assert (Hsub : members q ⊆+ seqZ 1 65535).
  { apply NoDup_submseteq; [done|]. intros i (c & Hc & [Hk _])%Hm. apply elem_of_seqZ.
    destruct (wf_code s i c Hw Hc) as [Hi _]; [by rewrite Hk|]. unfold is_code in Hi. lia. }
  apply submseteq_length in Hsub. rewrite length_seqZ in Hsub. lia.
Qed.
(** The queue mark of an attached task says whether it is queued. *)
Lemma mark_queued s root r q i c : holds s root r q -> at_ s i = Some c -> task_of root c ->
  match queue (c_state c) with
  | Some x => i ∈ lane q x /\ queued q i
  | None => ~ queued q i
  end.
Proof.
  intros Hh Hc Ht. destruct (queue (c_state c)) as [x|] eqn:Hq.
  - assert (Hi : queued q i) by (eapply ho_queued; [done..|congruence]). split; [|done]. apply lane_queued in Hi as [y Hy].
    by rewrite <- (queued_in _ _ _ _ _ _ y x (ho_lanes _ _ _ _ Hh) Hc Hq Hy).
  - intros [x Hx]%lane_queued. by apply (unqueued_out _ _ _ _ _ _ x (ho_lanes _ _ _ _ Hh) Hc Hq).
Qed.
(** A new queue of the same members on the same topology. *)
Lemma holds_step s s' root r r' q q' : holds s root r q -> within root s s' -> lanes_at s' root r' (lane q') ->
  read (word (c_payload r') 2) = flags_of q' -> members q' = members q ->
  (forall i c, at_ s' i = Some c -> task_of root c -> queue (c_state c) <> None -> queued q' i) -> holds s' root r' q'.
Proof.
  intros Hh Hw Hl Hf Hm Hq. split; [done|done| |done]. rewrite Hm. destruct (ho_members _ _ _ _ Hh) as [Hnd Hms]. split; [done|].
  intros i. rewrite Hms. by apply (within_members s s' root r r' (lane q) (lane q')); [|apply Hh|].
Qed.
(** Only the state word has changed. *)
Lemma holds_state s root r q q' v : wf s -> holds s root r q -> (forall x, lane q' x = lane q x) -> members q' = members q -> read v = flags_of q' ->
  set_state (E := E) s root v = Ok (put s root (with_state v r)) /\ holds (put s root (with_state v r)) root (with_state v r) q'
  /\ wf (put s root (with_state v r)) /\ within root s (put s root (with_state v r)).
Proof.
  intros Hw Hh Hl Hm Hv. destruct (state_write (E := E) s root r (lane q) v Hw (ho_lanes _ _ _ _ Hh)) as (H1 & H2 & H3 & H4 & H5).
  split; [done|]. split; [|done]. eapply holds_step; try done.
  - eapply lanes_ext; [|done]. intros x. by rewrite Hl.
  - intros i c Hc Ht Hq. assert (i <> root) by (intros ->; pose proof (la_root _ _ _ _ H2); pose proof (la_kind _ _ _ _ H2); destruct Ht; congruence).
    rewrite H5 in Hc by done. apply lane_queued. destruct (proj1 (lane_queued q i)) as [x Hx]; [by eapply ho_queued|]. exists x. by rewrite Hl.
Qed.

(** The fields of the flags, one by one. *)
Lemma flags_fields s root r q : holds s root r q -> let st := word (c_payload r) 2 in
  word_active st = side q /\ word_paused st = paused_of q /\ closed st = q_closed q /\ draining st = q_draining q
  /\ wrap 32 st = Z.of_nat (length (members q)).
Proof. intros Hh st. pose proof (ho_flags _ _ _ _ Hh) as Hf. unfold read in Hf. fold st in Hf. by injection Hf. Qed.
Lemma not_root s root r f i c : lanes_at s root r f -> at_ s i = Some c -> task_of root c -> i <> root.
Proof. intros Hf Hc Ht ->. pose proof (la_root _ _ _ _ Hf). pose proof (la_kind _ _ _ _ Hf). destruct Ht. congruence. Qed.

Lemma activate_spec s root r q i c : wf s -> holds s root r q -> at_ s i = Some c -> task_of root c ->
  exists s' r', activate (E := E) s root i = Ok ((q_activate q i).1, s') /\ holds s' root r' (q_activate q i).2 /\ wf s' /\ within root s s'
  /\ c_state r' = c_state r.
Proof.
  intros Hw Hh Hc Ht. pose proof (mark_queued s root r q i c Hh Hc Ht) as Hm. unfold activate, q_activate. rewrite resident_at, Hc. cbn [bind].
  destruct (queue (c_state c)) as [x|] eqn:Hq.
  { rewrite decide_True by tauto. exists s, r. split; [done|]. split; [done|]. split; [done|]. split; [apply within_refl|done]. }
  rewrite decide_False by done. rewrite (state_read _ _ _ _ (ho_lanes _ _ _ _ Hh)). cbn [bind fst snd].
  destruct (flags_fields _ _ _ _ Hh) as (Ha & _). rewrite Ha.
  destruct (push_spec (E := E) s root r (lane q) i c (side q) Hw (ho_lanes _ _ _ _ Hh) Hc Ht Hq) as (s' & r' & Hp & Hl & Hw' & Hwi & Hst & Hwd & Hfr).
  rewrite Hp. exists s', r'. split; [done|]. split; [|done]. set (q' := mk_queue _ _ _ _ _ _).
  assert (Hlq : forall x, upd (lane q) (side q) (lane q (side q) ++ [i]) x = lane q' x).
  { intros x. unfold upd. case_bool_decide as Hx; [by subst; rewrite lane_side; unfold lane; rewrite bool_decide_eq_true_2|].
    unfold lane. by rewrite !bool_decide_eq_false_2. }
  eapply holds_step; try done; [by eapply lanes_ext|by rewrite Hwd, (ho_flags _ _ _ _ Hh)|].
  intros j d Hd Htd Hqd. destruct (decide (j = i)) as [->|Hji]; [left; apply elem_of_app; right; by left|].
  assert (Hmore : queued q j -> queued q' j) by (intros [Hj|Hj]; [left; apply elem_of_app; by left|by right]).
  destruct (decide (j ∈ lane q (side q))) as [Hj|Hj]; [apply Hmore, lane_queued; by exists (side q)|].
  rewrite Hfr in Hd; [by apply Hmore; eapply ho_queued| |done..]. by eapply not_root.
Qed.

Lemma without_out i l : i ∉ l -> without i l = l.
Proof.
  unfold without. induction l as [|j l IH]; [done|]. rewrite not_elem_of_cons. intros [Hij Hi]. rewrite filter_cons_True by done. by rewrite IH.
Qed.
Lemma without_mid i l1 l2 : NoDup (l1 ++ i :: l2) -> without i (l1 ++ i :: l2) = l1 ++ l2.
Proof.
  intros Hnd. rewrite <- Permutation_middle in Hnd. apply NoDup_cons in Hnd as [Hi _]. rewrite elem_of_app in Hi.
  unfold without. rewrite filter_app, filter_cons_False by tauto. f_equal; apply without_out; tauto.
Qed.
Lemma elem_of_without i j l : j ∈ without i l <-> j ∈ l /\ j <> i.
Proof. unfold without. rewrite list_elem_of_filter. tauto. Qed.
Lemma lane_unqueue q i x : lane (q_unqueue q i) x = without i (lane q x).
Proof. unfold lane. cbn [side q_unqueue waiting batch]. by case_bool_decide. Qed.
Lemma nodup_lane s root r q x : holds s root r q -> NoDup (lane q x).
Proof. intros Hh. apply (la_nodup _ _ _ _ (ho_lanes _ _ _ _ Hh)). Qed.

(** Removing a queued task. *)
Lemma remove_queue s root r q x i : wf s -> holds s root r q -> i ∈ lane q x ->
  exists s' r' c', remove (E := E) s root i x = Ok s' /\ holds s' root r' (q_unqueue q i) /\ wf s' /\ within root s s' /\ c_state r' = c_state r
  /\ at_ s' i = Some c' /\ queue (c_state c') = None.
Proof.
  intros Hw Hh Hi. apply list_elem_of_split in Hi as (l1 & l2 & El). pose proof (nodup_lane s root r q x Hh) as Hnd.
  destruct (remove_spec (E := E) s root r (lane q) x l1 i l2 Hw (ho_lanes _ _ _ _ Hh) El)
    as (s' & r' & c & c' & Hr & Hl & Hw' & Hwi & Hst & Hwd & Hc & Hc' & Hal & Hq & Hfr).
  assert (Hmid : without i (lane q x) = l1 ++ l2) by (rewrite El in Hnd |- *; by apply without_mid).
  assert (Hother : without i (lane q (flip x)) = lane q (flip x)).
  { apply without_out. eapply lanes_disjoint; [apply Hh|]. rewrite El. apply elem_of_app. right. by left. }
  exists s', r', c'. split; [done|]. split; [|done]. destruct (flags_fields _ _ _ _ Hh) as (Fa & Fp & Fc & Fd & Fn).
  eapply holds_step; try done.
  - eapply lanes_ext; [|exact Hl]. intros y. rewrite lane_unqueue. unfold upd. case_bool_decide as Hy; [by subst|].
    assert (y = flip x) as -> by (by destruct y, x). done.
  - rewrite Hwd. unfold drained. rewrite Fp. unfold flags_of. cbn [side q_unqueue q_closed q_draining members].
    assert (Hpa : paused_of (q_unqueue q i) = if bool_decide (l1 ++ l2 = []) && bool_decide (paused_of q = Some x) then None else paused_of q).
    { unfold paused_of. cbn [batch q_unqueue side]. destruct (decide (x = side q)) as [->|Hx].
      - rewrite lane_flip in Hother. rewrite Hother. rewrite (bool_decide_eq_false_2 (_ = Some (side q))), andb_false_r; [done|].
        destruct (batch q); [done|]. intros [= Hf]. by apply (flip_ne (side q)).
      - assert (x = flip (side q)) as -> by (by destruct x, (side q)). rewrite lane_flip in El, Hmid. rewrite Hmid, El.
        destruct (l1 ++ l2) eqn:E2; destruct (l1 ++ i :: l2) eqn:E3; try done; try (by destruct l1).
        rewrite !bool_decide_eq_true_2 by done. done. }
    rewrite Hpa. destruct (_ && _); [rewrite read_set_paused; by rewrite Fa, Fc, Fd, Fn|]. unfold read. by rewrite Fa, Fp, Fc, Fd, Fn.
  - intros j d Hd Htd Hqd. assert (Hji : j <> i) by (intros ->; congruence).
    assert (Hless : queued q j -> queued (q_unqueue q i) j).
    { rewrite !lane_queued. intros [y Hy]. exists y. rewrite lane_unqueue. by apply elem_of_without. }
    destruct (decide (j ∈ lane q x)) as [Hj|Hj]; [apply Hless, lane_queued; by exists x|].
    rewrite Hfr in Hd; [by apply Hless; eapply ho_queued| |done]. by eapply not_root.
Qed.

Lemma lane_head_spec s root r q x : holds s root r q -> lane_head (E := E) s root x = Ok (List.hd_error (lane q x)).
Proof.
  intros Hh. unfold lane_head, links. rewrite resident_at, (la_root _ _ _ _ (ho_lanes _ _ _ _ Hh)). cbn [bind].
  by rewrite (la_word _ _ _ _ (ho_lanes _ _ _ _ Hh)).
Qed.
Lemma state_word_spec s root r q : holds s root r q -> state_word (E := E) s root = Ok (word (c_payload r) 2).
Proof. intros Hh. eapply state_read, Hh. Qed.
Lemma word_with_state v r : word (c_payload (with_state v r)) 2 = v.
Proof. done. Qed.
(** The local index of a task. *)
Definition local_of s (i : Z) : Z := match at_ s i with Some c => local (task_record (c_payload c)) | None => 0 end.
Lemma within_local root s s' i c : within root s s' -> i <> root -> at_ s i = Some c -> local_of s' i = local_of s i.
Proof.
  intros Hw Hi Hc. destruct (within_task root s s' i c) as (c' & Hc' & Ha); [done..|]. unfold local_of. rewrite Hc, Hc'. by rewrite (al_record _ _ Ha).
Qed.

Lemma lanes_claim_spec s root r q : wf s -> holds s root r q -> let q' := mk_queue (waiting q) (batch q) (side q) true (q_closed q) (members q) in
  exists s' r', lanes_claim (E := E) s root = Ok s' /\ holds s' root r' q' /\ wf s' /\ within root s s' /\ c_state r' = c_state r.
Proof.
  intros Hw Hh q'. unfold lanes_claim. rewrite (state_word_spec _ _ _ _ Hh). cbn [bind]. destruct (flags_fields _ _ _ _ Hh) as (Fa & Fp & Fc & Fd & Fn).
  destruct (holds_state s root r q q' (Z.lor (word (c_payload r) 2) DRAINING_MASK) Hw Hh) as (H1 & H2 & H3 & H4); [done..| |].
  { rewrite read_claim. by rewrite Fa, Fp, Fc, Fn. }
  rewrite H1. by eexists _, _.
Qed.
Lemma finish_spec s root r q : wf s -> holds s root r q ->
  exists s' r', finish (E := E) s root = Ok s' /\ holds s' root r' (q_finish q) /\ wf s' /\ within root s s' /\ c_state r' = c_state r.
Proof.
  intros Hw Hh. unfold finish. rewrite (state_word_spec _ _ _ _ Hh). cbn [bind]. destruct (flags_fields _ _ _ _ Hh) as (Fa & Fp & Fc & Fd & Fn).
  destruct (holds_state s root r q (q_finish q) (Z.land (word (c_payload r) 2) (not DRAINING_MASK)) Hw Hh) as (H1 & H2 & H3 & H4); [done..| |].
  { rewrite read_finish. by rewrite Fa, Fp, Fc, Fn. }
  rewrite H1. by eexists _, _.
Qed.
(** The sides are swapped: what waited is the batch. *)
Lemma holds_swap s root r q st : wf s -> holds s root r q -> batch q = [] -> waiting q <> [] ->
  let q' := mk_queue [] (waiting q) (flip (side q)) (q_draining q) (q_closed q) (members q) in read st = flags_of q' ->
  set_state (E := E) s root st = Ok (put s root (with_state st r)) /\ holds (put s root (with_state st r)) root (with_state st r) q'
  /\ wf (put s root (with_state st r)) /\ within root s (put s root (with_state st r)).
Proof.
  intros Hw Hh Hb Hne q' Hst. apply (holds_state s root r q q'); try done. intros x. unfold lane. cbn [side waiting batch q']. rewrite Hb.
  by destruct x, (side q).
Qed.
Lemma begin_spec s root r q : wf s -> holds s root r q -> exists s' r', let '(b, q') := q_begin q in
  begin_ (E := E) s root = Ok ((if b then Some (flip (side q')) else None), s') /\ holds s' root r' q' /\ wf s' /\ within root s s' /\ c_state r' = c_state r.
Proof.
  intros Hw Hh. destruct (flags_fields _ _ _ _ Hh) as (Fa & Fp & Fc & Fd & Fn). unfold begin_. rewrite (state_word_spec _ _ _ _ Hh). cbn [bind].
  rewrite draining_spec, Fd, Fp, Fa. unfold q_begin. pose proof (within_refl root s) as Hrefl. destruct (q_draining q) eqn:Ed; [by exists s, r|].
  unfold paused_of. destruct (batch q) as [|b bs] eqn:Eb.
  - cbn [bind]. rewrite (lane_head_spec _ _ _ _ _ Hh), lane_side. cbn [bind]. destruct (waiting q) as [|w ws] eqn:Ew; [by exists s, r|].
    set (st1 := word_set_active (word (c_payload r) 2) (flip (side q))). set (st2 := word_set_paused st1 (Some (side q))).
    (* The word is written twice; the lanes are those of [q] until it is read again. *)
    destruct (state_write (E := E) s root r (lane q) st1 Hw (ho_lanes _ _ _ _ Hh)) as (Hs1 & Hl1 & Hw1 & Hwi1 & Hfr1).
    rewrite Hs1. cbn [bind]. rewrite (state_read _ _ _ _ Hl1). cbn [bind]. rewrite word_with_state. fold st2.
    assert (Hput : forall s' c d, put (put s root c) root d = put s root d) by (intros; unfold put; cbn [descriptor_end capacity cells]; by rewrite list_insert_insert_eq).
    assert (Hs2 : set_state (E := E) (put s root (with_state st1 r)) root st2 = set_state s root st2).
    { unfold set_state. rewrite !edit_at, (at_put_eq s root r) by apply Hh. rewrite (la_root _ _ _ _ (ho_lanes _ _ _ _ Hh)), Hput by done. done. }
    rewrite Hs2. destruct (holds_swap s root r q st2 Hw Hh Eb ltac:(congruence)) as (Hs3 & Hh3 & Hw3 & Hwi3).
    { pose proof (read_set_active (word (c_payload r) 2) (flip (side q))) as Hra. fold st1 in Hra. unfold st2. rewrite read_set_paused.
      pose proof (f_equal f_active Hra) as R1. pose proof (f_equal f_closed Hra) as R2. pose proof (f_equal f_draining Hra) as R3.
      pose proof (f_equal f_count Hra) as R4. cbn [f_active f_closed f_draining f_count read] in R1, R2, R3, R4.
      rewrite R1, R2, R3, R4, Fc, Fd, Fn. unfold flags_of, paused_of. cbn [side batch q_closed q_draining members]. by rewrite Ew, flip_flip, Ed. }
    rewrite Hs3. cbn [bind]. destruct (lanes_claim_spec _ _ _ _ Hw3 Hh3) as (s4 & r4 & Hc4 & Hh4 & Hw4 & Hwi4 & Hst4).
    rewrite Hc4. cbn [bind]. exists s4, r4. cbn [side]. rewrite flip_flip. cbn [side waiting batch q_closed members] in Hh4. rewrite Ew in Hh4.
    split; [done|]. split; [done|]. split; [done|]. split; [by eapply within_trans|done].
  - rewrite (lane_head_spec _ _ _ _ _ Hh), lane_flip, Eb. cbn [bind List.hd_error].
    destruct (lanes_claim_spec _ _ _ _ Hw Hh) as (s4 & r4 & Hc4 & Hh4 & Hw4 & Hwi4 & Hst4). rewrite Eb in Hh4. rewrite Hc4. cbn [bind].
    by exists s4, r4.
Qed.
Lemma topo_pop_spec s root r q : wf s -> holds s root r q -> exists s' r', let '(o, q') := q_pop q in
  Topo.pop (E := E) s root (flip (side q)) = Ok (local_of s <$> o, s') /\ holds s' root r' q' /\ wf s' /\ within root s s' /\ c_state r' = c_state r.
Proof.
  intros Hw Hh. unfold Topo.pop, q_pop. rewrite (lane_head_spec _ _ _ _ _ Hh), lane_flip. cbn [bind]. pose proof (within_refl root s) as Hrefl.
  destruct (batch q) as [|i b] eqn:Eb; cbn [List.hd_error]; [by exists s, r|].
  assert (Hi : i ∈ lane q (flip (side q))) by (rewrite lane_flip, Eb; by left).
  destruct (remove_queue s root r q (flip (side q)) i Hw Hh Hi) as (s' & r' & c' & Hr & Hh' & Hw' & Hwi & Hst & _).
  destruct (seg_task _ _ _ _ _ _ _ (la_seg _ _ _ _ (ho_lanes _ _ _ _ Hh) _) Hi) as (c & Hc & Ht & _).
  rewrite resident_at, Hc. cbn [bind]. rewrite Hr. cbn [bind]. exists s', r'. split; [cbn; unfold local_of; by rewrite Hc|]. split; [|done].
  assert (Hq : q_unqueue q i = mk_queue (waiting q) b (side q) (q_draining q) (q_closed q) (members q)); [|by rewrite <- Hq].
  unfold q_unqueue. f_equal.
  - apply without_out. rewrite <- lane_side, <- (flip_flip (side q)). by eapply lanes_disjoint; [apply Hh|].
  - pose proof (nodup_lane _ _ _ _ (flip (side q)) Hh) as Hnd. rewrite lane_flip, Eb in Hnd. rewrite Eb. by apply (without_mid i [] b).
Qed.
Lemma peek_side_spec s root r q x : holds s root r q -> peek_side (E := E) s root x = Ok (local_of s <$> List.hd_error (lane q x)).
Proof.
  intros Hh. unfold peek_side. rewrite (lane_head_spec _ _ _ _ _ Hh). cbn [bind]. destruct (lane q x) as [|i l] eqn:El; [done|]. cbn [List.hd_error].
  destruct (seg_task _ _ _ _ _ _ _ (la_seg _ _ _ _ (ho_lanes _ _ _ _ Hh) x) ltac:(rewrite El; by left)) as (c & Hc & _).
  rewrite resident_at, Hc. cbn. unfold local_of. by rewrite Hc.
Qed.
Lemma peek_spec s root r q : holds s root r q -> Topo.peek (E := E) s root = Ok (local_of s <$> q_peek q).
Proof.
  intros Hh. destruct (flags_fields _ _ _ _ Hh) as (Fa & Fp & _). unfold Topo.peek, q_peek. rewrite (state_word_spec _ _ _ _ Hh). cbn [bind]. rewrite Fp, Fa.
  unfold paused_of. destruct (batch q) as [|b bs] eqn:Eb; cbn [bind].
  - by rewrite (peek_side_spec _ _ _ _ _ Hh), lane_side.
  - by rewrite (peek_side_spec _ _ _ _ _ Hh), lane_flip, Eb.
Qed.
Lemma is_empty_spec s root r q : holds s root r q -> Topo.is_empty (E := E) s root = Ok (bool_decide (batch q ++ waiting q = [])).
Proof.
  intros Hh. unfold Topo.is_empty. rewrite !(lane_head_spec _ _ _ _ _ Hh). cbn [bind]. f_equal. rewrite <- (lane_side q), <- (lane_flip q).
  destruct (side q); cbn [flip]; destruct (lane q First), (lane q Second); done.
Qed.
(** One task at a time: the head of the batch, or of a new one. *)
Definition q_next (q : Queue) : option Z * Queue :=
  let '(b, q) := q_begin q in if b then let '(o, q) := q_pop q in (o, q_finish q) else (None, q).
Lemma endpoint_pop_spec s root r q : wf s -> holds s root r q -> exists s' r', let '(o, q') := q_next q in
  endpoint_pop (E := E) s root = Ok (local_of s <$> o, s') /\ holds s' root r' q' /\ wf s' /\ within root s s' /\ c_state r' = c_state r.
Proof.
  intros Hw Hh. destruct (begin_spec s root r q Hw Hh) as (s1 & r1 & H1). unfold endpoint_pop, q_next. destruct (q_begin q) as [b q1] eqn:Eq1.
  destruct H1 as (Hb & Hh1 & Hw1 & Hwi1 & Hst1). rewrite Hb. cbn [bind]. destruct b; [|by exists s1, r1].
  destruct (topo_pop_spec s1 root r1 q1 Hw1 Hh1) as (s2 & r2 & H2). destruct (q_pop q1) as [o q2] eqn:Eq2. destruct H2 as (Hp & Hh2 & Hw2 & Hwi2 & Hst2).
  rewrite Hp. cbn [bind]. destruct (finish_spec s2 root r2 q2 Hw2 Hh2) as (s3 & r3 & Hf & Hh3 & Hw3 & Hwi3 & Hst3). rewrite Hf. cbn [bind].
  exists s3, r3. split; [|split; [done|split; [done|split; [eapply within_trans; [exact Hwi1|by eapply within_trans]|congruence]]]].
  do 2 f_equal. destruct o as [i|]; [|done]. cbn. f_equal. unfold q_pop in Eq2. destruct (batch q1) as [|j bs] eqn:Eb; [done|]. injection Eq2 as -> _.
  destruct (seg_task _ _ _ _ _ _ _ (la_seg _ _ _ _ (ho_lanes _ _ _ _ Hh1) (flip (side q1))) ltac:(rewrite lane_flip, Eb; by left)) as (c & Hc & Ht & _).
  pose proof (not_root _ _ _ _ _ _ (ho_lanes _ _ _ _ Hh1) Hc Ht) as Hi. destruct (within_back root s s1 i c) as (c0 & Hc0 & _); [done..|].
  by eapply within_local.
Qed.

(** ** Other topologies *)

(** A queue depends on the cell of its topology and on its tasks only. *)
Lemma holds_same s s' root r q : holds s root r q -> at_ s' root = at_ s root ->
  (forall j d, task_of root d -> at_ s' j = Some d <-> at_ s j = Some d) -> holds s' root r q.
Proof.
  intros Hh Hr Htask. pose proof (ho_lanes _ _ _ _ Hh) as Hl. split; [|apply Hh| |].
  - eapply lanes_frame; [|done]. intros j [->|[x Hx]]; [done|].
    destruct (seg_task _ _ _ _ _ _ _ (la_seg _ _ _ _ Hl x) Hx) as (d & Hd & Htd & _). rewrite Hd. by apply Htask.
  - destruct (ho_members _ _ _ _ Hh) as [Hnd Hm]. split; [done|]. intros j. rewrite Hm. split; intros (d & Hd & Htd); exists d; (split; [|done]); by apply Htask.
  - intros j d Hd Htd Hq. apply Htask in Hd; [|done]. by eapply ho_queued.
Qed.
Lemma holds_put s i c c' root r q : holds s root r q -> at_ s i = Some c -> i <> root -> ~ task_of root c -> ~ task_of root c' ->
  holds (put s i c') root r q.
Proof.
  intros Hh Hc Hi Ht Ht'. eapply holds_same; [done|eapply at_put_ne; [done|congruence]|]. intros j d Hd. rewrite (at_put s i c) by done.
  case_bool_decide; [|done]. subst j. rewrite Hc. split; intros [= ->]; done.
Qed.
Lemma holds_elsewhere root s s' root' r q : within root s s' -> (forall c', at_ s' root = Some c' -> ~ task_of root' c') ->
  (forall c, at_ s root = Some c -> ~ task_of root' c) -> root' <> root -> holds s root' r q -> holds s' root' r q.
Proof.
  intros Hw Hr' Hr Hne Hh. pose proof (ho_lanes _ _ _ _ Hh) as Hl. eapply holds_same; [done| |].
  - pose proof (wi_cell _ _ _ Hw root' Hne) as Hc. rewrite (la_root _ _ _ _ Hl) in Hc |- *. destruct Hc as (c' & Hc' & [->|[[Hk _] _]]); [done|].
    pose proof (la_kind _ _ _ _ Hl). congruence.
  - intros j d Hd. destruct (decide (j = root)) as [->|Hj]; [split; intros He; exfalso; [by eapply Hr'|by eapply Hr]|].
    pose proof (wi_cell _ _ _ Hw j Hj) as Hc. destruct (at_ s j) as [c|]; [|by rewrite Hc]. destruct Hc as (c' & Hc' & [->|[Ht Ha]]); [by rewrite Hc'|].
    rewrite Hc'. apply (alike_task root) in Ha as Hta. split; intros [= ->]; exfalso; apply Hne; [apply Hta in Ht|]; destruct Ht, Hd; congruence.
Qed.

(** ** Attaching, detaching and closing *)

(** A reserved cell becomes a task of [root]. *)
Lemma attach_spec s root r q i d t : wf s -> holds s root r q -> at_ s i = Some d -> kind (c_state d) = Reserved ->
  topology (task_record t) = root -> forall key, exists s' r',
  (let! (staged, s) := slots_task (E := E) s (stored i (epoch key)) t in attach s root staged) = Ok (stored i (epoch key), s')
  /\ holds s' root r' (q_members q (i :: members q)) /\ wf s' /\ c_state r' = c_state r
  /\ at_ s' i = Some (cell t (state (generation (c_state d)) Task None)) /\ (forall j, j <> root -> j <> i -> at_ s' j = at_ s j)
  /\ descriptor_end s' = descriptor_end s /\ capacity s' = capacity s.
Proof.
  intros Hw Hh Hd Hk Ht key. pose proof (ho_lanes _ _ _ _ Hh) as Hl. set (d' := cell t (state (generation (c_state d)) Task None)).
  assert (Hir : i <> root) by (intros ->; pose proof (la_root _ _ _ _ Hl); pose proof (la_kind _ _ _ _ Hl); congruence).
  set (s1 := put s i d'). assert (Hs1 : slots_task (E := E) s (stored i (epoch key)) t = Ok (stored i (epoch key), s1)).
  { unfold slots_task. rewrite edit_at. cbn [index]. by rewrite Hd. }
  rewrite Hs1. cbn [bind]. assert (Hw1 : wf s1) by (eapply wf_put; [done..|by rewrite Hk]).
  assert (Hfr1 : forall j, j <> i -> at_ s1 j = at_ s j) by (intros; by eapply at_put_ne).
  assert (Hl1 : lanes_at s1 root r (lane q)).
  { eapply lanes_frame; [|done]. intros j [->|[x Hx]]; apply Hfr1; [done|]. intros ->.
    destruct (seg_task _ _ _ _ _ _ _ (la_seg _ _ _ _ Hl x) Hx) as (e & He & [Hke _] & _). congruence. }
  destruct (flags_fields _ _ _ _ Hh) as (Fa & Fp & Fc & Fd & Fn). pose proof (members_count _ _ _ _ Hw Hh) as Hcount.
  unfold attach. rewrite (state_read _ _ _ _ Hl1). cbn [bind]. rewrite (wrap_wrap16 _ _ Fn) by lia.
  destruct (state_write (E := E) s1 root r (lane q) (word_count (word (c_payload r) 2) (Z.of_nat (length (members q)) + 1)) Hw1 Hl1) as (H1 & H2 & H3 & H4 & H5).
  rewrite H1. cbn [bind]. set (r' := with_state _ r) in *. exists (put s1 root r'), r'. split; [done|].
  assert (Hi : at_ (put s1 root r') i = Some d') by (rewrite H5 by done; by eapply at_put_eq).
  split; [|split; [done|split; [done|split; [done|split; [intros j Hj Hji; rewrite H5 by done; by apply Hfr1|done]]]]].
  assert (Htask : forall j e, at_ (put s1 root r') j = Some e -> task_of root e -> j = i /\ e = d' \/ j <> i /\ at_ s j = Some e).
  { intros j e He Hte. destruct (decide (j = i)) as [->|Hj]; [left; split; congruence|]. right. split; [done|].
    pose proof (not_root _ _ _ _ _ _ H2 He Hte). rewrite H5 in He by done. by rewrite Hfr1 in He. }
  split; [done| | |].
  - unfold r'. rewrite word_with_state, read_count by lia. unfold flags_of. cbn [q_members side members q_closed q_draining length].
    rewrite Fa, Fp, Fc, Fd. f_equal. lia.
  - cbn [members q_members]. destruct (ho_members _ _ _ _ Hh) as [Hnd Hm]. split.
    + constructor; [|done]. intros (e & He & [Hke _])%Hm. congruence.
    + intros j. rewrite elem_of_cons, Hm. split.
      * intros [->|(e & He & Hte)]; [exists d'; by split|]. exists e. split; [|done]. pose proof (not_root _ _ _ _ _ _ Hl He Hte).
        rewrite H5 by done. rewrite Hfr1; [done|]. intros ->. destruct Hte. congruence.
      * intros (e & He & Hte). destruct (Htask j e He Hte) as [[-> _]|[_ ?]]; [by left|right; by exists e].
  - intros j e He Hte Hq. destruct (Htask j e He Hte) as [[-> ->]|[_ He']]; [done|]. by eapply (ho_queued _ _ _ _ Hh).
Qed.

(** A task that is in no lane leaves its topology. *)
Lemma leave_spec s root r q i c c' v : wf s -> holds s root r q -> at_ s i = Some c -> task_of root c -> ~ queued q i -> ~ task_of root c' ->
  read v = flags (side q) (paused_of q) (q_closed q) (q_draining q) (Z.of_nat (length (members q)) - 1) ->
  holds (put (put s root (with_state v r)) i c') root (with_state v r) (q_members q (without i (members q))).
Proof.
  intros Hw Hh Hc Ht Hnq Ht' Hv. pose proof (ho_lanes _ _ _ _ Hh) as Hl. pose proof (not_root _ _ _ _ _ _ Hl Hc Ht) as Hir.
  destruct (state_write (E := E) s root r (lane q) v Hw Hl) as (_ & H2 & H3 & H4 & H5). set (s1 := put s root (with_state v r)) in *.
  assert (Hc1 : at_ s1 i = Some c) by (by rewrite H5).
  assert (Hfr : forall j, j <> i -> at_ (put s1 i c') j = at_ s1 j) by (intros; by eapply at_put_ne).
  assert (Htask : forall j e, task_of root e -> at_ (put s1 i c') j = Some e <-> j <> i /\ at_ s j = Some e).
  { intros j e Hte. destruct (decide (j = i)) as [->|Hj].
    - rewrite (at_put_eq s1 i c) by done. split; [intros [= ->]; done|tauto].
    - rewrite Hfr by done. destruct (decide (j = root)) as [->|Hjr]; [|rewrite H5 by done; tauto].
      rewrite (la_root _ _ _ _ H2), (la_root _ _ _ _ Hl). destruct Hte as [Hke _]. pose proof (la_kind _ _ _ _ Hl). pose proof (la_kind _ _ _ _ H2).
      split; [intros [= <-]; congruence|intros [_ [= <-]]; congruence]. }
  destruct (ho_members _ _ _ _ Hh) as [Hnd Hm]. assert (Hi : i ∈ members q) by (apply Hm; by exists c). split.
  - eapply lanes_frame; [|eapply lanes_ext; [|exact H2]; done]. intros j [->|[x Hx]]; apply Hfr; [done|]. intros ->. apply Hnq, lane_queued. by exists x.
  - rewrite word_with_state, Hv. unfold flags_of. cbn [q_members side members q_closed q_draining]. f_equal.
    apply list_elem_of_split in Hi as (l1 & l2 & El). rewrite El in Hnd |- *. rewrite without_mid by done. rewrite !length_app. simpl. lia.
  - cbn [members q_members]. split; [by apply NoDup_filter|]. intros j. rewrite elem_of_without, Hm. split.
    + intros [(e & He & Hte) Hj]. exists e. split; [|done]. by apply Htask.
    + intros (e & He & Hte). apply Htask in He as [Hj He]; [|done]. split; [by exists e|done].
  - intros j e He Hte Hq. apply Htask in He as [Hj He]; [|done]. by eapply (ho_queued _ _ _ _ Hh).
Qed.
Lemma members_pos s root r q i c : holds s root r q -> at_ s i = Some c -> task_of root c -> (0 < length (members q))%nat.
Proof. intros Hh Hc Ht. destruct (members q) eqn:Em; [|simpl; lia]. destruct (ho_members _ _ _ _ Hh) as [_ Hm]. rewrite Em in Hm. exfalso.
  apply (not_elem_of_nil i), Hm. by exists c. Qed.

(** The queue of the topology without the task, and whether the topology goes
    with it: the last task of a closed topology takes it along. *)
Definition q_detach (q : Queue) (i : Z) : Queue := q_members (q_unqueue q i) (without i (members q)).
Definition last_out (q : Queue) (i : Z) : bool := q_closed q && bool_decide (without i (members q) = []).

Lemma unqueue_spec s root r q i c : wf s -> holds s root r q -> at_ s i = Some c -> task_of root c -> exists s' r' c',
  match queue (c_state c) with Some x => remove (E := E) s root i x | None => Ok s end = Ok s'
  /\ holds s' root r' (q_unqueue q i) /\ wf s' /\ within root s s' /\ c_state r' = c_state r /\ at_ s' i = Some c' /\ alike c c' /\ queue (c_state c') = None.
Proof.
  intros Hw Hh Hc Ht. pose proof (mark_queued s root r q i c Hh Hc Ht) as Hm. destruct (queue (c_state c)) as [x|] eqn:Eq.
  - destruct Hm as [Hi _]. destruct (remove_queue s root r q x i Hw Hh Hi) as (s' & r' & c' & H1 & H2 & H3 & H4 & H5 & H6 & H7).
    exists s', r', c'. split; [done|]. split; [done|]. split; [done|]. split; [done|]. split; [done|]. split; [done|]. split; [|done].
    destruct (within_task root s s' i c) as (d & Hd & Ha); [done|by eapply not_root; [apply Hh|..]|done|]. congruence.
  - exists s, r, c. split; [done|]. split; [|split; [done|split; [apply within_refl|done]]]. unfold q_unqueue. unfold queued in Hm.
    rewrite !without_out by tauto. by destruct q.
Qed.

Lemma detach_spec s root r q i c : wf s -> holds s root r q -> at_ s i = Some c -> task_of root c -> forall key, index key = i -> exists s1 r1 s' c',
  task_detach (E := E) s key = Ok (key, (if last_out q i then Some (stored root (generation (c_state r))) else None), s')
  /\ holds s1 root r1 (q_detach q i) /\ wf s1 /\ c_state r1 = c_state r /\ s' = (if last_out q i then put s1 root (on_state (set_kind Reserved) r1) else s1)
  /\ at_ s1 i = Some c' /\ c_state c' = state (generation (c_state c)) Reserved None /\ (exists s0, within root s s0 /\ descriptor_end s1 = descriptor_end s0 /\ capacity s1 = capacity s0 /\ (forall j, j <> root -> j <> i -> at_ s1 j = at_ s0 j)).
Proof.
  intros Hw Hh Hc Ht key <-. destruct (unqueue_spec s root r q (index key) c Hw Hh Hc Ht) as (s0 & r0 & c0 & Hun & Hh0 & Hw0 & Hwi & Hst & Hc0 & Ha & Hq0).
  pose proof (not_root _ _ _ _ _ _ (ho_lanes _ _ _ _ Hh) Hc Ht) as Hir. destruct (flags_fields _ _ _ _ Hh0) as (Fa & Fp & Fc & Fd & Fn).
  pose proof (members_pos _ _ _ _ _ _ Hh Hc Ht) as Hpos. pose proof (members_count _ _ _ _ Hw Hh) as Hcnt. cbn [members q_unqueue] in Fn.
  set (st := word (c_payload r0) 2) in *. set (v := word_count st (wrap 32 st - 1)).
  assert (Hv : read v = flags (side q) (paused_of (q_unqueue q (index key))) (q_closed q) (q_draining q) (Z.of_nat (length (members q)) - 1)).
  { unfold v. rewrite read_count by (rewrite Fn; lia). by rewrite Fa, Fp, Fc, Fd, Fn. }
  assert (Ht0 : task_of root c0) by (by apply (alike_task root c)). set (c1 := on_state (set_kind Reserved) c0).
  pose proof (leave_spec s0 root r0 _ (index key) c0 c1 v Hw0 Hh0 Hc0 Ht0) as Hleave.
  assert (Hnq : ~ queued (q_unqueue q (index key)) (index key)).
  { intros Hx. pose proof (mark_queued _ _ _ _ _ _ Hh0 Hc0 Ht0) as Hm. by rewrite Hq0 in Hm. }
  specialize (Hleave Hnq ltac:(intros [? _]; done) Hv).
  destruct (state_write (E := E) s0 root r0 _ v Hw0 (ho_lanes _ _ _ _ Hh0)) as (W1 & W2 & W3 & W4 & W5). set (s2 := put s0 root (with_state v r0)) in *.
  assert (Hi2 : at_ s2 (index key) = Some c0) by (by rewrite W5).
  assert (Hlast : (wrap 32 st - 1 =? 0) && closed st = last_out q (index key)).
  { unfold last_out. rewrite Fn, Fc. cbn [q_closed q_unqueue]. rewrite andb_comm. f_equal. apply Bool.eq_iff_eq_true. rewrite Z.eqb_eq, bool_decide_eq_true.
    pose proof (ho_members _ _ _ _ Hh) as [Hnd Hm]. assert (Hi : index key ∈ members q) by (apply Hm; by exists c).
    apply list_elem_of_split in Hi as (l1 & l2 & El). rewrite El in Hnd |- *. rewrite without_mid by done. rewrite <- length_zero_iff_nil, !length_app. simpl. lia. }
  exists (put s2 (index key) c1), (with_state v r0), (if last_out q (index key) then put (put s2 (index key) c1) root (on_state (set_kind Reserved) (with_state v r0)) else put s2 (index key) c1), c1.
  split; [|split; [exact Hleave|split; [eapply wf_put; [done..|by rewrite (proj1 Ht0)]|split; [done|split; [done|split; [by eapply at_put_eq|split]]]]]].
  - unfold task_detach, detach. rewrite resident_at, Hc. cbn [bind]. rewrite (proj2 Ht), Hun. cbn [bind].
    rewrite resident_at, (la_root _ _ _ _ (ho_lanes _ _ _ _ Hh0)). cbn [bind]. fold st. destruct (Z.eqb_spec (wrap 32 st) 0); [lia|]. fold v. rewrite W1. cbn [bind].
    rewrite closed_spec, Hlast. rewrite Hst. unfold unroot, untask. destruct (last_out q (index key)).
    + rewrite edit_at, (la_root _ _ _ _ W2). cbn [bind]. rewrite edit_at, (at_put_ne s2 root (with_state v r0)) by (done || apply W2). rewrite Hi2. cbn [bind]. do 2 f_equal.
      eapply put_comm; [apply W2|done|done].
    + cbn [bind]. rewrite edit_at, Hi2. done.
  - unfold c1, on_state, set_kind. cbn [c_state]. by rewrite (al_generation _ _ Ha).
  - exists s0. split; [done|]. split; [done|]. split; [done|]. intros j Hj Hji. rewrite (at_put_ne s2 (index key) c0) by done. by apply W5.
Qed.
Lemma topo_close_spec s root r q key : wf s -> holds s root r q -> index key = root -> exists s',
  Topo.close (E := E) s key = Ok ((if bool_decide (members q = []) then Some key else None), s')
  /\ (if bool_decide (members q = []) then s' = put s root (on_state (set_kind Reserved) r)
      else exists r', holds s' root r' (q_close q) /\ wf s' /\ within root s s' /\ c_state r' = c_state r).
Proof.
  intros Hw Hh <-. destruct (flags_fields _ _ _ _ Hh) as (Fa & Fp & Fc & Fd & Fn). pose proof (members_count _ _ _ _ Hw Hh) as Hcnt.
  unfold Topo.close. rewrite (state_word_spec _ _ _ _ Hh). cbn [bind]. rewrite (wrap_wrap16 _ _ Fn) by lia.
  destruct (Z.eqb_spec (Z.of_nat (length (members q))) 0) as [Hz|Hz].
  - rewrite bool_decide_eq_true_2 by (by apply length_zero_iff_nil; lia). unfold unroot. rewrite edit_at, (la_root _ _ _ _ (ho_lanes _ _ _ _ Hh)).
    by eexists.
  - rewrite bool_decide_eq_false_2 by (intros E0; rewrite E0 in Hz; done). unfold lanes_close. rewrite (state_word_spec _ _ _ _ Hh). cbn [bind].
    destruct (holds_state s (index key) r q (q_close q) (Z.lor (word (c_payload r) 2) CLOSED_MASK) Hw Hh) as (H1 & H2 & H3 & H4); [done..| |].
    { rewrite read_close. by rewrite Fa, Fp, Fd, Fn. }
    rewrite H1. cbn [bind]. eexists. split; [done|]. by eexists.
Qed.
End queues.
End QueueFacts.

Module TopologyLaws.
Import Cells CellFacts ChainFacts Topo LaneFacts QueueFacts.

Section laws.
Context `{GL : GenerationsLaws} {E : Type}.
Implicit Types s : Slots.

(** [s'] is [s] but for the topology [root], which has become [q']. *)
Definition becomes root s s' (q' : Queue) : Prop := wf s' /\ within root s s' /\ exists r', holds s' root r' q'.

(** What a drain is interleaved with: wake-ups of tasks of the topology. *)
Inductive Cmd := Wake (i : Z) | Pop.
Definition exec (root : Z) (x : Lane) (s : Slots) (c : Cmd) : run E (list Z * Slots) :=
  match c with
  | Wake i => let! (_, s) := activate s root i in Ok ([], s)
  | Pop => let! (o, s) := Topo.pop s root x in Ok (option_list o, s)
  end.
Fixpoint exec_all (root : Z) (x : Lane) (s : Slots) (cs : list Cmd) : run E (list Z * Slots) :=
  match cs with
  | [] => Ok ([], s)
  | c :: cs => let! (out, s) := exec root x s c in let! (out', s) := exec_all root x s cs in Ok (out ++ out', s)
  end.
Fixpoint pops (cs : list Cmd) : nat := match cs with [] => 0 | Pop :: cs => S (pops cs) | Wake _ :: cs => pops cs end.

Lemma topo_becomes_refl root s r q : wf s -> holds s root r q -> becomes root s s q.
Proof. intros Hw Hh. split; [done|]. split; [apply within_refl|]. by exists r. Qed.
Lemma member_task s root r q i : holds s root r q -> i ∈ members q -> exists c, at_ s i = Some c /\ task_of root c.
Proof. intros Hh Hi. by apply (ho_members _ _ _ _ Hh). Qed.
Lemma batch_local root s s' r q : holds s root r q -> within root s s' -> local_of s' <$> batch q = local_of s <$> batch q.
Proof.
  intros Hh Hw. apply list_fmap_ext. intros k i Hi. apply list_elem_of_lookup_2 in Hi. rewrite <- lane_flip in Hi.
  destruct (seg_task _ _ _ _ _ _ _ (la_seg _ _ _ _ (ho_lanes _ _ _ _ Hh) _) Hi) as (c & Hc & Ht & _).
  eapply within_local; [done| |done]. by eapply not_root; [apply Hh|..].
Qed.
Lemma pop_members q : members (q_pop q).2 = members q /\ side (q_pop q).2 = side q /\ waiting (q_pop q).2 = waiting q /\ batch (q_pop q).2 = drop 1 (batch q)
  /\ option_list (q_pop q).1 = take 1 (batch q).
Proof. unfold q_pop. destruct (batch q) eqn:Eb; cbn [fst snd]; [by rewrite Eb|]. simpl. by rewrite drop_0, take_0. Qed.
Lemma activate_queue q i : members (q_activate q i).2 = members q /\ side (q_activate q i).2 = side q /\ batch (q_activate q i).2 = batch q
  /\ waiting q `prefix_of` waiting (q_activate q i).2 /\ queued (q_activate q i).2 i.
Proof.
  unfold q_activate. destruct (decide (queued q i)); [done|]. split; [done|]. split; [done|]. split; [done|]. split; [by eexists|].
  left. apply elem_of_app. right. by left.
Qed.

(** During a drain: what is popped is the batch, in order. *)
Lemma exec_all_batch root cs s r q : wf s -> holds s root r q -> (forall i, Wake i ∈ cs -> i ∈ members q) ->
  exists s' q', exec_all root (flip (side q)) s cs = Ok (local_of s <$> take (pops cs) (batch q), s') /\ becomes root s s' q'
  /\ batch q' = drop (pops cs) (batch q) /\ waiting q `prefix_of` waiting q' /\ members q' = members q /\ side q' = side q
  /\ (forall i, Wake i ∈ cs -> i ∈ take (pops cs) (batch q) \/ queued q' i).
Proof.
  revert s r q. induction cs as [|c cs IH]; intros s r q Hw Hh Hcs.
  { exists s, q. split; [done|]. split; [by eapply topo_becomes_refl|]. split; [done|]. split; [done|]. split; [done|]. split; [done|]. by intros i ?%elem_of_nil. }
  cbn [exec_all]. destruct c as [i|]; cbn [exec].
  - destruct (member_task s root r q i Hh) as (c & Hc & Ht); [apply Hcs; by left|].
    destruct (activate_spec (E := E) s root r q i c Hw Hh Hc Ht) as (s1 & r1 & Ha & Hh1 & Hw1 & Hwi1 & _). rewrite Ha. cbn [bind].
    destruct (activate_queue q i) as (A1 & A2 & A3 & A4 & A5). set (q1 := (q_activate q i).2) in *.
    destruct (IH s1 r1 q1 Hw1 Hh1) as (s2 & q2 & He & (Hw2 & Hwi2 & r2 & Hh2) & B1 & B2 & B3 & B4 & B5).
    { intros j Hj. rewrite A1. apply Hcs. by right. }
    rewrite A2 in He. rewrite He. cbn [bind app]. exists s2, q2. change (pops (Wake i :: cs)) with (pops cs). rewrite A3 in *.
    split; [do 2 f_equal; by rewrite !fmap_take, (batch_local root s s1 r q) by done|].
    split; [split; [done|split; [by eapply within_trans|by exists r2]]|]. split; [done|]. split; [by etrans|]. split; [congruence|]. split; [congruence|].
    intros j [[= ->]|Hj]%elem_of_cons; [|by apply B5]. destruct A5 as [Hq|Hq].
    + right. left. destruct B2 as [l ->]. apply elem_of_app. by left.
    + rewrite A3 in Hq. rewrite <- (take_drop (pops cs) (batch q)) in Hq. apply elem_of_app in Hq as [Hq|Hq]; [by left|]. right. right. by rewrite B1.
  - destruct (topo_pop_spec (E := E) s root r q Hw Hh) as (s1 & r1 & Hp). destruct (pop_members q) as (A1 & A2 & A3 & A4 & A5).
    destruct (q_pop q) as [o q1]. destruct Hp as (Hp & Hh1 & Hw1 & Hwi1 & _). cbn [fst snd] in *. rewrite Hp. cbn [bind].
    destruct (IH s1 r1 q1 Hw1 Hh1) as (s2 & q2 & He & (Hw2 & Hwi2 & r2 & Hh2) & B1 & B2 & B3 & B4 & B5).
    { intros j Hj. rewrite A1. apply Hcs. by right. }
    rewrite A2 in He. rewrite He. cbn [bind]. exists s2, q2. change (pops (Pop :: cs)) with (1 + pops cs)%nat. rewrite A4 in B1, B5.
    split; [|split; [split; [done|split; [by eapply within_trans|by exists r2]]|split; [by rewrite B1, drop_drop|split; [by rewrite <- A3|split; [congruence|split; [congruence|]]]]]].
    + do 2 f_equal. assert (Hol : option_list (local_of s <$> o) = local_of s <$> option_list o) by (by destruct o).
      assert (Hb : local_of s1 <$> take (pops cs) (drop 1 (batch q)) = local_of s <$> take (pops cs) (drop 1 (batch q))).
      { rewrite !fmap_take, !fmap_drop. by rewrite (batch_local root s s1 r q). }
      rewrite Hol, A5, A4, Hb, <- fmap_app. f_equal. by rewrite take_take_drop.
    + intros j [?|Hj]%elem_of_cons; [done|]. destruct (B5 j Hj) as [Hq|Hq]; [left|by right].
      rewrite <- take_take_drop. apply elem_of_app. by right.
Qed.
End laws.

Section theorems.
Context `{GL : GenerationsLaws}.
Implicit Types s : Slots.

(** C8. The lanes of a topology are a batch and a queue behind it. Activating a
    task that is queued is coalesced; any other joins the end of the waiting
    queue. A drain begins only when none is under way: it resumes the batch if
    one is left, or else what waits becomes the batch, and reports the lane when
    there is a task. Popping that lane takes the first task of the batch and
    yields its local index; finishing ends the drain; popping from the endpoint
    is the three together. Peeking shows the first task of the batch, or of the
    queue behind it, and the topology is empty when both are. Nothing but the
    cell of the topology and the links and queue marks of its own tasks changes,
    and no branch reads outside the cells. *)
Theorem topology_refines_queues E s root r q : wf s -> holds s root r q ->
  (forall i, i ∈ members q -> exists s', activate (E := E) s root i = Ok ((q_activate q i).1, s') /\ becomes root s s' (q_activate q i).2)
  /\ (exists s', begin_ (E := E) s root = Ok ((if (q_begin q).1 then Some (flip (side (q_begin q).2)) else None), s') /\ becomes root s s' (q_begin q).2)
  /\ (exists s', Topo.pop (E := E) s root (flip (side q)) = Ok (local_of s <$> (q_pop q).1, s') /\ becomes root s s' (q_pop q).2)
  /\ (exists s', finish (E := E) s root = Ok s' /\ becomes root s s' (q_finish q))
  /\ (exists s', endpoint_pop (E := E) s root = Ok (local_of s <$> (q_next q).1, s') /\ becomes root s s' (q_next q).2)
  /\ Topo.peek (E := E) s root = Ok (local_of s <$> q_peek q)
  /\ Topo.is_empty (E := E) s root = Ok (bool_decide (batch q ++ waiting q = [])).
Proof.
  intros Hw Hh. split; [|split; [|split; [|split; [|split; [|split]]]]].
  - intros i Hi. destruct (member_task s root r q i Hh Hi) as (c & Hc & Ht).
    destruct (activate_spec (E := E) s root r q i c Hw Hh Hc Ht) as (s' & r' & Ha & Hh' & Hw' & Hwi & _). exists s'. split; [done|]. split; [done|]. split; [done|by exists r'].
  - destruct (begin_spec (E := E) s root r q Hw Hh) as (s' & r' & Hb). destruct (q_begin q) as [b q']. destruct Hb as (Hb & Hh' & Hw' & Hwi & _).
    exists s'. split; [done|]. split; [done|]. split; [done|by exists r'].
  - destruct (topo_pop_spec (E := E) s root r q Hw Hh) as (s' & r' & Hp). destruct (q_pop q) as [o q']. destruct Hp as (Hp & Hh' & Hw' & Hwi & _).
    exists s'. split; [done|]. split; [done|]. split; [done|by exists r'].
  - destruct (finish_spec (E := E) s root r q Hw Hh) as (s' & r' & Hf & Hh' & Hw' & Hwi & _). exists s'. split; [done|]. split; [done|]. split; [done|by exists r'].
  - destruct (endpoint_pop_spec (E := E) s root r q Hw Hh) as (s' & r' & Hp). destruct (q_next q) as [o q']. destruct Hp as (Hp & Hh' & Hw' & Hwi & _).
    exists s'. split; [done|]. split; [done|]. split; [done|by exists r'].
  - by eapply peek_spec.
  - by eapply is_empty_spec.
Qed.

(** A drain of a topology yields one stable batch. Once a drain has begun,
    whatever wake-ups of tasks come between its pops, the pops yield the local
    indices of the batch in its order, and nothing once it is used up: a task
    that was not in the batch when it began, or that was popped already, waits
    for the next one. No wake-up is lost, the tasks that waited before keep
    their places, and every task woken is popped or queued in the end. *)
Theorem topology_drain_stable E s root r q cs : wf s -> holds s root r q -> (q_begin q).1 = true -> (forall i, Wake i ∈ cs -> i ∈ members q) ->
  let q1 := (q_begin q).2 in exists s1 s' q', begin_ (E := E) s root = Ok (Some (flip (side q1)), s1)
  /\ exec_all (E := E) root (flip (side q1)) s1 cs = Ok (local_of s <$> take (pops cs) (batch q1), s') /\ becomes root s s' q'
  /\ batch q1 = (match batch q with [] => waiting q | b => b end) /\ batch q' = drop (pops cs) (batch q1)
  /\ waiting q1 `prefix_of` waiting q' /\ (forall i, Wake i ∈ cs -> i ∈ take (pops cs) (batch q1) \/ queued q' i).
Proof.
  intros Hw Hh Hb Hcs q1. destruct (begin_spec (E := E) s root r q Hw Hh) as (s1 & r1 & H1). destruct (q_begin q) as [b q1'] eqn:Eq. cbn [fst snd] in *.
  subst q1 b. destruct H1 as (H1 & Hh1 & Hw1 & Hwi1 & _).
  assert (Hq1 : batch q1' = (match batch q with [] => waiting q | b => b end) /\ members q1' = members q).
  { unfold q_begin in Eq. destruct (q_draining q); [done|]. destruct (batch q) eqn:Eb; [destruct (waiting q) eqn:Ew; [done|]|]; injection Eq as <-; done. }
  destruct Hq1 as [Hq1 Hm]. destruct (exec_all_batch (E := E) root cs s1 r1 q1' Hw1 Hh1) as (s2 & q2 & He & (Hw2 & Hwi2 & r2 & Hh2) & B1 & B2 & B3 & B4 & B5).
  { by rewrite Hm. }
  exists s1, s2, q2. split; [done|]. split; [|split; [split; [done|split; [by eapply within_trans|by exists r2]]|done]].
  rewrite He. do 2 f_equal. rewrite !fmap_take. f_equal. apply list_fmap_ext. intros k i Hi. apply list_elem_of_lookup_2 in Hi. rewrite <- lane_flip in Hi.
  destruct (seg_task _ _ _ _ _ _ _ (la_seg _ _ _ _ (ho_lanes _ _ _ _ Hh1) _) Hi) as (c & Hc & Ht & _).
  pose proof (not_root _ _ _ _ _ _ (ho_lanes _ _ _ _ Hh1) Hc Ht) as Hir. destruct (within_back root s s1 i c) as (c0 & Hc0 & _); [done..|]. by eapply within_local.
Qed.

(** C23. A topology lives until it is closed and its last task has left. A reserved
    cell that is bound to the topology joins its tasks, queued nowhere. A task
    that leaves is taken out of its lane, wherever it is in it, and its cell is
    reserved again under the same generation. Closing a topology without tasks
    gives its cell back at once; one with tasks stays, and is given back exactly
    by the last task that leaves. The count never meets zero before that. *)
Theorem topology_outlives_tasks E s root r q : wf s -> holds s root r q ->
  (forall i d t epoch, at_ s i = Some d -> kind (c_state d) = Reserved -> topology (task_record t) = root -> exists s' r',
     (let! (staged, s) := slots_task (E := E) s (stored i epoch) t in attach s root staged) = Ok (stored i epoch, s')
     /\ wf s' /\ holds s' root r' (q_members q (i :: members q)))
  /\ (forall key, index key ∈ members q -> exists c s1 r1 s' c', at_ s (index key) = Some c
     /\ task_detach (E := E) s key = Ok (key, (if last_out q (index key) then Some (stored root (generation (c_state r))) else None), s')
     /\ at_ s' (index key) = Some c' /\ c_state c' = state (generation (c_state c)) Reserved None
     /\ wf s1 /\ holds s1 root r1 (q_detach q (index key))
     /\ (if last_out q (index key) then exists r', at_ s' root = Some r' /\ c_state r' = state (generation (c_state r)) Reserved None else s' = s1))
  /\ (forall key, index key = root -> exists s', Topo.close (E := E) s key = Ok ((if bool_decide (members q = []) then Some key else None), s')
     /\ if bool_decide (members q = []) then exists r', at_ s' root = Some r' /\ c_state r' = state (generation (c_state r)) Reserved None
        else becomes root s s' (q_close q)).
Proof.
  intros Hw Hh. split; [|split].
  - intros i d t epoch Hd Hk Ht. destruct (attach_spec (E := E) s root r q i d t Hw Hh Hd Hk Ht (stored i epoch)) as (s' & r' & Ha & Hh' & Hw' & _).
    by exists s', r'.
  - intros key Hi. destruct (member_task s root r q _ Hh Hi) as (c & Hc & Ht).
    destruct (detach_spec (E := E) s root r q (index key) c Hw Hh Hc Ht key eq_refl) as (s1 & r1 & s' & c' & Hd & Hh1 & Hw1 & Hst & -> & Hc' & Hst' & _).
    eexists c, s1, r1, _, c'. split; [done|]. split; [exact Hd|]. pose proof (la_root _ _ _ _ (ho_lanes _ _ _ _ Hh1)) as Hr1.
    assert (Hir : index key <> root) by (eapply not_root; [apply Hh|..]; done). destruct (last_out q (index key)).
    + rewrite (at_put_ne s1 root r1) by done. split; [done|]. split; [done|]. split; [done|]. split; [done|]. eexists. split; [by eapply at_put_eq|].
      cbn. by rewrite Hst.
    + done.
  - intros key Hk. destruct (topo_close_spec (E := E) s root r q key Hw Hh Hk) as (s' & Hc & Hcase). exists s'. split; [done|]. case_bool_decide.
    + subst s'. eexists. split; [eapply at_put_eq; apply Hh|]. done.
    + destruct Hcase as (r' & Hh' & Hw' & Hwi & _). split; [done|]. split; [done|by exists r'].
Qed.
End theorems.
End TopologyLaws.
