(* ===== verification/WakeFacts.v ===== *)
(** * Every topology of the ready arena, and the wakes that climb through them.

    A table of cells is sound when each of its topologies stands for a queue and
    each of its tasks is attached to one; every operation keeps it so. A wake
    ends, and when it has ended nothing on its way is left asleep. *)

From stdpp Require Import gmap.
From S2P Require Import Prelude Routes ReadySet ReadySetFacts ReadyArena ArenaFacts LanesFacts TopologyFacts.

Module Tables.
Import Word Cells CellFacts ChainFacts Ages PoolLaw Topo StateWord LaneFacts QueueFacts.

Section tables.
Context `{GL : GenerationsLaws} {E : Type}.
Implicit Types (s : Slots) (Q : gmap Z Queue).

Record sound s Q : Prop := {
  so_wf : wf s;
  so_queue root q : Q !! root = Some q -> exists r, holds s root r q;
  so_topology root c : at_ s root = Some c -> kind (c_state c) = Topology -> is_Some (Q !! root);
  so_task i c : at_ s i = Some c -> kind (c_state c) = Task -> is_Some (Q !! topology (task_record (c_payload c)));
}.

Definition plain (c : Cell) : Prop := kind (c_state c) <> Task /\ kind (c_state c) <> Topology.
Lemma plain_task root c : plain c -> ~ task_of root c.
Proof. intros [? _] [? _]. done. Qed.
Lemma queue_kind s root r q : holds s root r q -> at_ s root = Some r /\ kind (c_state r) = Topology.
Proof. intros [Hl _ _ _]. split; apply Hl. Qed.
Lemma holds_cell s root r q c : holds s root r q -> at_ s root = Some c -> c = r.
Proof. intros Hh Hc. destruct (queue_kind _ _ _ _ Hh) as [Hr _]. congruence. Qed.

(** Only tasks and their topology change: cells age, and no free one is touched. *)
Lemma alike_ages c c' : alike c c' -> ages (c_state c) (c_state c').
Proof. intros [Hg Hk _]. split; [lia|intros; lia|]. intros Hr. split; congruence. Qed.
Lemma change_ages root c c' : change root c c' -> ages (c_state c) (c_state c').
Proof. intros [->|[_ Ha]]; [apply word_ages_refl|by apply alike_ages]. Qed.
Lemma change_free root c c' : change root c c' -> (kind (c_state c) = Free -> c' = c) /\ (kind (c_state c') = Free -> kind (c_state c) = Free).
Proof. intros [->|[[Hk _] Ha]]; [done|]. pose proof (al_kind _ _ Ha). split; congruence. Qed.
Lemma changed_spares s s' (P : Z -> Prop) root : (forall i, P i \/ ~ P i) ->
  (forall i, P i -> (exists c, at_ s i = Some c /\ kind (c_state c) <> Free) /\ exists c, at_ s' i = Some c /\ kind (c_state c) <> Free) ->
  (forall i, ~ P i -> match at_ s i with Some c => exists c', at_ s' i = Some c' /\ change root c c' | None => at_ s' i = None end) -> spares s s'.
Proof.
  intros Hdec HP Hn i. unfold free_at. destruct (Hdec i) as [Hi|Hi].
  - destruct (HP i Hi) as [(c & -> & Hc) (c' & -> & Hc')]. split; intros (d & [= <-] & ?); done.
  - specialize (Hn i Hi). destruct (at_ s i) as [c|]; [|by rewrite Hn; split; intros (d & ? & _)]. destruct Hn as (c' & -> & Hch).
    destruct (change_free _ _ _ Hch) as [H1 H2]. split; intros (d & [= <-] & Hk); [by rewrite H1|exists c; by split; [|apply H2]].
Qed.
Lemma within_evolves root s s' r r' : within root s s' -> at_ s root = Some r -> at_ s' root = Some r' -> c_state r' = c_state r -> evolves s s'.
Proof.
  intros Hw Hr Hr' Hst. split; [apply Hw..|]. intros i. destruct (decide (i = root)) as [->|Hi].
  - rewrite Hr. exists r'. split; [done|]. rewrite Hst. apply word_ages_refl.
  - pose proof (wi_cell _ _ _ Hw i Hi) as Hc. destruct (at_ s i) as [c|]; [|done]. destruct Hc as (c' & Hc' & Hch). exists c'. split; [done|by eapply change_ages].
Qed.
Lemma within_spares root s s' r r' : within root s s' -> at_ s root = Some r -> at_ s' root = Some r' -> c_state r' = c_state r ->
  kind (c_state r) <> Free -> spares s s'.
Proof.
  intros Hw Hr Hr' Hst Hk. apply (changed_spares s s' (fun i => i = root) root).
  - intros i. destruct (decide (i = root)); tauto.
  - intros i ->. split; [by exists r|exists r'; split; [done|congruence]].
  - intros i Hi. by apply Hw.
Qed.

(** A change of a cell that is no task and no topology. *)
Lemma sound_put s Q i c c' : sound s Q -> at_ s i = Some c -> plain c -> kind (c_state c) <> Retired -> plain c' -> sound (put s i c') Q.
Proof.
  intros Hs Hc Hp Hk Hp'. split.
  - eapply wf_put; [apply Hs|done..].
  - intros root q Hq. destruct (so_queue s Q Hs root q Hq) as (r & Hh). exists r. apply (holds_put s i c); try done; [|by apply plain_task..].
    intros ->. destruct (queue_kind _ _ _ _ Hh) as [Hr Hkr]. destruct Hp. congruence.
  - intros root d Hd Hkd. rewrite (at_put s i c) in Hd by done. case_bool_decide; [injection Hd as <-; by destruct Hp'|by eapply so_topology].
  - intros j d Hd Hkd. rewrite (at_put s i c) in Hd by done. case_bool_decide; [injection Hd as <-; by destruct Hp'|by eapply so_task].
Qed.
(** A step of one topology. *)
Lemma sound_within s s' Q root q q' r' : sound s Q -> Q !! root = Some q -> wf s' -> within root s s' -> holds s' root r' q' -> sound s' (<[root := q']> Q).
Proof.
  intros Hs Hq Hw Hwi Hh'. destruct (so_queue s Q Hs root q Hq) as (r & Hh). destruct (queue_kind _ _ _ _ Hh) as [Hr Hk], (queue_kind _ _ _ _ Hh') as [Hr' Hk'].
  assert (Hdom : forall j, is_Some (Q !! j) -> is_Some (<[root := q']> Q !! j)).
  { intros j Hj. destruct (decide (j = root)) as [->|]; [rewrite lookup_insert_eq; by eexists|by rewrite lookup_insert_ne]. }
  split; [done| | |].
  - intros root0 q0 Hq0. destruct (decide (root0 = root)) as [->|Hne].
    + rewrite lookup_insert_eq in Hq0. injection Hq0 as <-. by exists r'.
    + rewrite lookup_insert_ne in Hq0 by done. destruct (so_queue s Q Hs root0 q0 Hq0) as (r0 & Hh0). exists r0.
      eapply (holds_elsewhere root s); try done; intros d Hd [Hkd _]; congruence.
  - intros j d Hd Hkd. apply Hdom. destruct (decide (j = root)) as [->|Hj]; [by eexists|]. destruct (within_back root s s' j d) as (d0 & Hd0 & Ha); [done..|].
    eapply so_topology; [done..|]. by rewrite <- (al_kind _ _ Ha).
  - intros j d Hd Hkd. apply Hdom. destruct (decide (j = root)) as [->|Hj]; [congruence|]. destruct (within_back root s s' j d) as (d0 & Hd0 & Ha); [done..|].
    rewrite (al_record _ _ Ha). eapply so_task; [done..|]. by rewrite <- (al_kind _ _ Ha).
Qed.

(** A reserved cell becomes a topology without tasks. *)
Definition new_queue : Queue := mk_queue [] [] First false false [].
Lemma sound_topology s Q key d : sound s Q -> at_ s (index key) = Some d -> kind (c_state d) = Reserved -> exists s' r',
  slots_topology (E := E) s key = Ok (key, s') /\ sound s' (<[index key := new_queue]> Q) /\ holds s' (index key) r' new_queue
  /\ generation (c_state r') = generation (c_state d) /\ s' = put s (index key) r' /\ evolves s s' /\ spares s s'.
Proof.
  intros Hs Hd Hk. set (root := index key) in *. set (r' := cell payload_retired (state (generation (c_state d)) Topology None)).
  assert (Hp : slots_topology (E := E) s key = Ok (key, put s root r')) by (unfold slots_topology; rewrite edit_at; fold root; by rewrite Hd).
  assert (Hfr : forall j, j <> root -> at_ (put s root r') j = at_ s j) by (intros; by eapply at_put_ne).
  assert (Hr : at_ (put s root r') root = Some r') by (by eapply at_put_eq).
  assert (Hnone : forall j c, at_ (put s root r') j = Some c -> ~ task_of root c).
  { intros j c Hc [Hkc Ht]. destruct (decide (j = root)) as [->|Hj]; [rewrite Hr in Hc; by injection Hc as <-|]. rewrite Hfr in Hc by done.
    destruct (so_task s Q Hs j c Hc Hkc) as [q Hq]. rewrite Ht in Hq. destruct (so_queue s Q Hs root q Hq) as (r & Hh).
    destruct (queue_kind _ _ _ _ Hh) as [Hr0 Hk0]. congruence. }
  assert (Hh : holds (put s root r') root r' new_queue).
  { split; [|done| |intros i c Hc Ht; by destruct (Hnone i c)].
    - split; [done|done| | |]; intros x; unfold lane; case_bool_decide; (done || by constructor || by destruct x).
    - split; [constructor|]. intros i. split; [by intros ?%elem_of_nil|]. intros (c & Hc & Ht). by destruct (Hnone i c). }
  exists (put s root r'), r'. split; [done|]. split; [|split; [done|split; [done|split; [done|split]]]].
  2: { eapply evolves_put; [done|]. apply ages_same; [done|by rewrite Hk]. }
  2: { eapply spares_put; [done|by rewrite Hk|done]. }
  assert (Hdom : forall j, is_Some (Q !! j) -> is_Some (<[root := new_queue]> Q !! j)).
  { intros j Hj. destruct (decide (j = root)) as [->|]; [rewrite lookup_insert_eq; by eexists|by rewrite lookup_insert_ne]. }
  split.
  - eapply wf_put; [apply Hs|done|]. by rewrite Hk.
  - intros j q Hq. destruct (decide (j = root)) as [->|Hj]; [rewrite lookup_insert_eq in Hq; injection Hq as <-; by exists r'|].
    rewrite lookup_insert_ne in Hq by done. destruct (so_queue s Q Hs j q Hq) as (r & Hr0). exists r.
    apply (holds_put s root d); try done; intros [Hkx _]; [congruence|done].
  - intros j c Hc Hkc. destruct (decide (j = root)) as [->|Hj]; [rewrite lookup_insert_eq; by eexists|]. rewrite Hfr in Hc by done.
    apply Hdom. by eapply so_topology.
  - intros j c Hc Hkc. destruct (decide (j = root)) as [->|Hj]; [rewrite Hr in Hc; by injection Hc as <-|]. rewrite Hfr in Hc by done.
    apply Hdom. by eapply so_task.
Qed.
(** A reserved cell becomes a task. *)
Lemma sound_attach s Q root q i d t epoch : sound s Q -> Q !! root = Some q -> at_ s i = Some d -> kind (c_state d) = Reserved ->
  topology (task_record t) = root -> exists s',
  (let! (staged, s) := slots_task (E := E) s (stored i epoch) t in attach s root staged) = Ok (stored i epoch, s')
  /\ sound s' (<[root := q_members q (i :: members q)]> Q) /\ at_ s' i = Some (cell t (state (generation (c_state d)) Task None))
  /\ (forall j, j <> root -> j <> i -> at_ s' j = at_ s j)
  /\ (exists r r', at_ s root = Some r /\ at_ s' root = Some r' /\ c_state r' = c_state r) /\ evolves s s' /\ spares s s'.
Proof.
  intros Hs Hq Hd Hk Ht. destruct (so_queue s Q Hs root q Hq) as (r & Hh).
  destruct (attach_spec (E := E) s root r q i d t (so_wf _ _ Hs) Hh Hd Hk Ht (stored i epoch)) as (s' & r' & Ha & Hh' & Hw' & Hst & Hi & Hfr & He1 & He2).
  exists s'. split; [done|]. destruct (queue_kind _ _ _ _ Hh) as [Hr Hkr], (queue_kind _ _ _ _ Hh') as [Hr' Hkr'].
  split; [|split; [done|split; [done|split; [by exists r, r'|split]]]].
  2: { split; [done..|]. intros j. destruct (decide (j = root)) as [->|Hj]; [rewrite Hr; exists r'; split; [done|rewrite Hst; apply word_ages_refl]|].
    destruct (decide (j = i)) as [->|Hji]; [rewrite Hd; eexists; split; [done|]; apply ages_same; [done|by rewrite Hk]|]. rewrite Hfr by done.
    destruct (at_ s j) as [e|]; [|done]. exists e. split; [done|apply word_ages_refl]. }
  2: { apply (changed_spares s s' (fun j => j = root \/ j = i) root).
    - intros j. destruct (decide (j = root)), (decide (j = i)); tauto.
    - intros j [->| ->]; [split; [exists r|exists r']; (split; [done|congruence])|]. split; [exists d; split; [done|congruence]|]. by eexists.
    - intros j Hj. rewrite Hfr by tauto. destruct (at_ s j) as [e|]; [|done]. exists e. split; [done|by left]. }
  assert (Hir : i <> root) by (intros ->; congruence).
  assert (Hdom : forall j q', is_Some (Q !! j) -> is_Some (<[root := q']> Q !! j)).
  { intros j q' Hj. destruct (decide (j = root)) as [->|]; [rewrite lookup_insert_eq; by eexists|by rewrite lookup_insert_ne]. }
  split; [done| | |].
  - intros j q' Hq'. destruct (decide (j = root)) as [->|Hj]; [rewrite lookup_insert_eq in Hq'; injection Hq' as <-; by exists r'|].
    rewrite lookup_insert_ne in Hq' by done. destruct (so_queue s Q Hs j q' Hq') as (r0 & Hh0). exists r0.
    destruct (queue_kind _ _ _ _ Hh0) as [Hr0 Hk0]. eapply holds_same; [done|apply Hfr; [done|intros ->; congruence]|].
    intros k e [Hke Hte]. destruct (decide (k = root)) as [->|Hkr0]; [split; congruence|].
    destruct (decide (k = i)) as [->|Hki]; [|by rewrite Hfr]. rewrite Hi, Hd. split; intros [= <-]; [|congruence].
    change (topology (task_record t) = j) in Hte. congruence.
  - intros j c Hc Hkc. apply Hdom. destruct (decide (j = root)) as [->|Hj]; [by eexists|]. destruct (decide (j = i)) as [->|Hji]; [rewrite Hi in Hc; by injection Hc as <-|].
    rewrite Hfr in Hc by done. by eapply so_topology.
  - intros j c Hc Hkc. apply Hdom. destruct (decide (j = root)) as [->|Hj]; [congruence|]. destruct (decide (j = i)) as [->|Hji].
    + rewrite Hi in Hc. injection Hc as <-. cbn [c_payload]. rewrite Ht. by eexists.
    + rewrite Hfr in Hc by done. by eapply so_task.
Qed.

(** A topology without tasks becomes a reserved cell. *)
Lemma sound_unroot s Q root q c' : sound s Q -> Q !! root = Some q -> members q = [] -> plain c' -> sound (put s root c') (delete root Q).
Proof.
  intros Hs Hq Hm Hp. destruct (so_queue s Q Hs root q Hq) as (r & Hh). destruct (queue_kind _ _ _ _ Hh) as [Hr Hk].
  assert (Hfr : forall j, j <> root -> at_ (put s root c') j = at_ s j) by (intros; by eapply at_put_ne).
  assert (Hr' : at_ (put s root c') root = Some c') by (by eapply at_put_eq). split.
  - eapply wf_put; [apply Hs|done|by rewrite Hk].
  - intros j q' Hq'. apply lookup_delete_Some in Hq' as [Hj Hq']. destruct (so_queue s Q Hs j q' Hq') as (r0 & Hh0). exists r0.
    apply (holds_put s root r); try done; [intros [Hkx _]; congruence|by apply plain_task].
  - intros j d Hd Hkd. destruct (decide (j = root)) as [->|Hj]; [rewrite Hr' in Hd; injection Hd as <-; by destruct Hp|]. rewrite Hfr in Hd by done.
    rewrite lookup_delete_ne by done. by eapply so_topology.
  - intros j d Hd Hkd. destruct (decide (j = root)) as [->|Hj]; [rewrite Hr' in Hd; injection Hd as <-; by destruct Hp|]. rewrite Hfr in Hd by done.
    rewrite lookup_delete_ne; [by eapply so_task|]. intros Ht. destruct (ho_members _ _ _ _ Hh) as [_ Hms]. rewrite Hm in Hms.
    apply (not_elem_of_nil j), Hms. exists d. by split.
Qed.
(** The table after a task has left its topology, and the topology with it. *)
Definition after_detach Q (root : Z) (q : Queue) (i : Z) : gmap Z Queue := if last_out q i then delete root Q else <[root := q_detach q i]> Q.
Lemma sound_detach s Q root q key c : sound s Q -> Q !! root = Some q -> at_ s (index key) = Some c -> task_of root c -> exists r s' c',
  at_ s root = Some r /\ kind (c_state r) = Topology
  /\ task_detach (E := E) s key = Ok (key, (if last_out q (index key) then Some (stored root (generation (c_state r))) else None), s')
  /\ sound s' (after_detach Q root q (index key)) /\ at_ s' (index key) = Some c' /\ c_state c' = state (generation (c_state c)) Reserved None
  /\ (exists r', at_ s' root = Some r' /\ generation (c_state r') = generation (c_state r) /\ kind (c_state r') = (if last_out q (index key) then Reserved else Topology))
  /\ (forall j, j <> root -> j <> index key -> match at_ s j with Some d => exists d', at_ s' j = Some d' /\ change root d d' | None => at_ s' j = None end)
  /\ evolves s s' /\ spares s s'.
Proof.
  intros Hs Hq Hc Ht. destruct (so_queue s Q Hs root q Hq) as (r & Hh). destruct (queue_kind _ _ _ _ Hh) as [Hr Hk].
  destruct (detach_spec (E := E) s root r q (index key) c (so_wf _ _ Hs) Hh Hc Ht key eq_refl) as (s1 & r1 & s' & c' & Hd & Hh1 & Hw1 & Hst & Hs' & Hc' & Hstc & s0 & Hwi & He1 & He2 & Hfr).
  destruct (queue_kind _ _ _ _ Hh1) as [Hr1 Hk1]. assert (Hir : index key <> root) by (intros Hx; rewrite Hx in Hc; destruct Ht; congruence).
  assert (Hpc : plain c') by (unfold plain; by rewrite Hstc).
  assert (Hfr1 : forall j, j <> root -> j <> index key -> match at_ s j with Some d => exists d', at_ s1 j = Some d' /\ change root d d' | None => at_ s1 j = None end).
  { intros j Hj Hj'. pose proof (wi_cell _ _ _ Hwi j Hj) as Hx. rewrite Hfr by done. by destruct (at_ s j). }
  assert (Hs1 : sound s1 (<[root := q_detach q (index key)]> Q)).
  { assert (Hdom : forall j, is_Some (Q !! j) -> is_Some (<[root := q_detach q (index key)]> Q !! j)).
    { intros j Hj. destruct (decide (j = root)) as [->|]; [rewrite lookup_insert_eq; by eexists|by rewrite lookup_insert_ne]. }
    split; [done| | |].
    - intros j q' Hq'. destruct (decide (j = root)) as [->|Hj]; [rewrite lookup_insert_eq in Hq'; injection Hq' as <-; by exists r1|].
      rewrite lookup_insert_ne in Hq' by done. destruct (so_queue s Q Hs j q' Hq') as (r0 & Hh0). exists r0. destruct (queue_kind _ _ _ _ Hh0) as [Hr0 Hk0].
      eapply holds_same; [done| |].
      + specialize (Hfr1 j Hj ltac:(intros ->; destruct Ht; congruence)). rewrite Hr0 in Hfr1 |- *. destruct Hfr1 as (d' & Hd' & [->|[[Hkx _] _]]); [done|congruence].
      + intros k d [Hkd Htd]. destruct (decide (k = root)) as [->|Hkr]; [split; congruence|]. destruct (decide (k = index key)) as [->|Hki].
        { rewrite Hc, Hc'. split; intros [= <-]; [rewrite Hstc in Hkd; done|destruct Ht; congruence]. }
        specialize (Hfr1 k Hkr Hki). destruct (at_ s k) as [e|]; [|by rewrite Hfr1]. destruct Hfr1 as (e' & He' & Hch). rewrite He'.
        destruct Hch as [->|[[_ Hte] Ha]]; [done|]. rewrite <- (al_record _ _ Ha) in Hte. pose proof (al_record _ _ Ha). split; intros [= <-]; congruence.
    - intros j d Hjd Hkd. apply Hdom. destruct (decide (j = root)) as [->|Hj]; [by eexists|]. destruct (decide (j = index key)) as [->|Hji]; [destruct Hpc; congruence|].
      specialize (Hfr1 j Hj Hji). destruct (at_ s j) as [e|] eqn:Ee; [|congruence]. destruct Hfr1 as (e' & He' & Hch). rewrite He' in Hjd. injection Hjd as <-.
      eapply so_topology; [done..|]. destruct Hch as [->|[_ Ha]]; [done|]. by rewrite <- (al_kind _ _ Ha).
    - intros j d Hjd Hkd. apply Hdom. destruct (decide (j = root)) as [->|Hj]; [congruence|]. destruct (decide (j = index key)) as [->|Hji]; [destruct Hpc; congruence|].
      specialize (Hfr1 j Hj Hji). destruct (at_ s j) as [e|] eqn:Ee; [|congruence]. destruct Hfr1 as (e' & He' & Hch). rewrite He' in Hjd. injection Hjd as <-.
      destruct Hch as [->|[_ Ha]]; [by eapply so_task|]. rewrite (al_record _ _ Ha). eapply so_task; [done..|]. by rewrite <- (al_kind _ _ Ha). }
  assert (Hall : forall s2 r2, at_ s2 root = Some r2 -> generation (c_state r2) = generation (c_state r) -> kind (c_state r2) <> Free ->
    (forall j, j <> root -> at_ s2 j = at_ s1 j) -> descriptor_end s2 = descriptor_end s1 -> capacity s2 = capacity s1 -> at_ s2 (index key) = Some c' /\
    (forall j, j <> root -> j <> index key -> match at_ s j with Some d => exists d', at_ s2 j = Some d' /\ change root d d' | None => at_ s2 j = None end)
    /\ evolves s s2 /\ spares s s2).
  { intros s2 r2 Hr2 Hg2 Hk2 Hfr2 Hde Hca. split; [by rewrite Hfr2|].
    assert (Hch : forall j, j <> root -> j <> index key -> match at_ s j with Some d => exists d', at_ s2 j = Some d' /\ change root d d' | None => at_ s2 j = None end).
    { intros j Hj Hj'. rewrite Hfr2 by done. by apply Hfr1. }
    split; [done|]. split.
    - split; [rewrite Hde, He1; apply Hwi|rewrite Hca, He2; apply Hwi|]. intros j. destruct (decide (j = root)) as [->|Hj].
      + rewrite Hr. exists r2. split; [done|]. by apply ages_same; [|rewrite Hk].
      + destruct (decide (j = index key)) as [->|Hj']; [rewrite Hc, Hfr2 by done; exists c'; split; [done|]; rewrite Hstc; apply ages_same; [done|destruct Ht; congruence]|].
        specialize (Hch j Hj Hj'). destruct (at_ s j) as [d|]; [|done]. destruct Hch as (d' & Hd' & Hcg). exists d'. split; [done|by eapply change_ages].
    - apply (changed_spares s s2 (fun j => j = root \/ j = index key) root).
      + intros j. destruct (decide (j = root)), (decide (j = index key)); tauto.
      + intros j [->| ->]; [split; [exists r; split; [done|congruence]|by exists r2]|]. rewrite Hfr2 by done.
        split; [exists c; split; [done|destruct Ht; congruence]|exists c'; split; [done|by rewrite Hstc]].
      + intros j Hj. apply Hch; tauto. }
  exists r, s', c'. split; [done|]. split; [done|]. split; [done|]. unfold after_detach. subst s'. destruct (last_out q (index key)) eqn:El.
  - set (r2 := on_state (set_kind Reserved) r1). assert (Hr2 : at_ (put s1 root r2) root = Some r2) by (by eapply at_put_eq).
    destruct (Hall (put s1 root r2) r2 Hr2) as (Hc2 & Hch & Hev & Hsp); [cbn; by rewrite Hst|done|intros; by eapply at_put_ne|done|done|].
    split; [|split; [done|split; [done|split; [exists r2; split; [done|split; [cbn; by rewrite Hst|done]]|done]]]].
    rewrite <- (delete_insert_eq Q root (q_detach q (index key))). eapply sound_unroot; [done|by rewrite lookup_insert_eq| |by split].
    unfold last_out in El. apply andb_true_iff in El as [_ Hm%bool_decide_eq_true]. done.
  - destruct (Hall s1 r1 Hr1) as (Hc2 & Hch & Hev & Hsp); [by rewrite Hst|by rewrite Hk1|done..|]. split; [done|]. split; [done|]. split; [done|].
    split; [|done]. exists r1. split; [done|]. by rewrite Hst.
Qed.
Lemma sound_close s Q key q : sound s Q -> Q !! index key = Some q -> exists s',
  Topo.close (E := E) s key = Ok ((if bool_decide (members q = []) then Some key else None), s')
  /\ sound s' (if bool_decide (members q = []) then delete (index key) Q else <[index key := q_close q]> Q)
  /\ (exists r r', at_ s (index key) = Some r /\ at_ s' (index key) = Some r' /\ generation (c_state r') = generation (c_state r)
      /\ kind (c_state r') = (if bool_decide (members q = []) then Reserved else Topology))
  /\ (forall j, j <> index key -> match at_ s j with Some d => exists d', at_ s' j = Some d' /\ change (index key) d d' | None => at_ s' j = None end)
  /\ evolves s s' /\ spares s s'.
Proof.
  intros Hs Hq. destruct (so_queue s Q Hs _ q Hq) as (r & Hh). destruct (queue_kind _ _ _ _ Hh) as [Hr Hk].
  destruct (topo_close_spec (E := E) s (index key) r q key (so_wf _ _ Hs) Hh eq_refl) as (s' & Hc & Hcase). exists s'. split; [done|]. case_bool_decide as Hm.
  - subst s'. split; [by eapply sound_unroot|]. split; [|split; [|split]].
    + eexists r, _. split; [done|]. split; [by eapply at_put_eq|]. done.
    + intros j Hj. rewrite (at_put_ne s (index key) r) by done. destruct (at_ s j) as [d|]; [|done]. exists d. split; [done|by left].
    + eapply evolves_put; [done|]. apply ages_same; [done|by rewrite Hk].
    + eapply spares_put; [done|by rewrite Hk|done].
  - destruct Hcase as (r' & Hh' & Hw' & Hwi & Hst). split; [by eapply sound_within|]. destruct (queue_kind _ _ _ _ Hh') as [Hr' Hk']. split; [|split; [|split]].
    + exists r, r'. split; [done|]. split; [done|]. split; [congruence|done].
    + intros j Hj. by apply Hwi.
    + by eapply within_evolves.
    + eapply within_spares; [done..|by rewrite Hk].
Qed.
End tables.
End Tables.
