(* ===== verification/ArenaLaws.v ===== *)
(** * The ready arena as a whole.

    The invariant that ties its parts together - every free cell in one chain,
    every task in the queue of its topology, the ready set of the same capacity -
    and what a wake does under it: it ends, it leaves nothing asleep on its way to
    the root, and no other wake is lost. *)

From stdpp Require Import gmap.
From S2P Require Import Prelude Routes ReadySet ReadySetFacts ReadyArena ArenaFacts LanesFacts TopologyFacts WakeFacts.

Module Wakes.
Import Cells CellFacts ChainFacts Ages PoolLaw FreePool Topo LaneFacts QueueFacts Tables Arena.

Section wakes.
Context {P : Type} `{BL : BitmapLaws P} `{GL : GenerationsLaws} {E : Type}.
Context (target_for : Z -> Z -> option (Token.Token unit)).
Implicit Types (a : Arena P) (Q : gmap Z Queue).

Abbreviation view := SetFacts.view.
Definition size a : Z := ReadySet.capacity (ready a).

(** The free cells [l], the leases [ls] and the queues [Q] of an arena. *)
Record Inv a Q (l : list Z) (ls : list (list Z)) : Prop := {
  in_accounts : accounts (table a) (pool a) l None [] ls;
  in_sound : sound (table a) Q;
  in_range i c : at_ (table a) i = Some c -> 0 <= generation (c_state c) < 2 ^ 32;
  in_cover i : descriptor_end (table a) < i <= capacity (table a) -> is_Some (at_ (table a) i);
  in_ends : 0 <= descriptor_end (table a) <= capacity (table a);
  in_parent i c : at_ (table a) i = Some c -> kind (c_state c) = Task -> is_code (index (parent (task_record (c_payload c))));
  in_ready : SetFacts.sound (ready a);
  in_size : size a = capacity (table a);
}.

(** A step of the table under the invariant. *)
Lemma wake_inv_step a Q l ls r' s' p' Q' l' ls' : Inv a Q l ls -> evolves (table a) s' -> accounts s' p' l' None [] ls' -> sound s' Q' ->
  (forall i c, at_ s' i = Some c -> kind (c_state c) = Task -> is_code (index (parent (task_record (c_payload c))))) ->
  SetFacts.sound r' -> ReadySet.capacity r' = size a -> Inv (arena r' s' p') Q' l' ls'.
Proof.
  intros [H1 H2 H3 H4 H5 H6 H7 H8] He Ha Hs Hp Hr Hc. split; cbn [table pool ready]; try done.
  - intros i c Hi. pose proof (ev_cell _ _ He i) as Hx. destruct (at_ (table a) i) as [d|] eqn:Ed; [|congruence]. destruct Hx as (c' & Hc' & Hag).
    rewrite Hi in Hc'. injection Hc' as <-. specialize (H3 i d Ed). pose proof (ag_more _ _ Hag). pose proof (ag_range _ _ Hag H3). lia.
  - intros i Hi. rewrite (ev_end _ _ He), (ev_capacity _ _ He) in Hi. destruct (H4 i Hi) as [c Hc']. pose proof (ev_cell _ _ He i) as Hx.
    rewrite Hc' in Hx. destruct Hx as (c' & Hc'' & _). by exists c'.
  - by rewrite (ev_end _ _ He), (ev_capacity _ _ He).
  - unfold size. cbn [ready]. rewrite Hc, (ev_capacity _ _ He). done.
Qed.
(** The parents are those of before where every task is. *)
Lemma parents_kept s s' : (forall i c, at_ s i = Some c -> kind (c_state c) = Task -> is_code (index (parent (task_record (c_payload c))))) ->
  (forall i c', at_ s' i = Some c' -> kind (c_state c') = Task -> exists c, at_ s i = Some c /\ alike c c') ->
  forall i c, at_ s' i = Some c -> kind (c_state c) = Task -> is_code (index (parent (task_record (c_payload c)))).
Proof.
  intros Hp Hk i c' Hc' Hk'. destruct (Hk i c' Hc' Hk') as (c & Hc & Ha). rewrite (al_record _ _ Ha). eapply Hp; [done|]. by rewrite <- (al_kind _ _ Ha).
Qed.

(** ** Resolving a key *)

(** What a key names: nothing, a dispatch target of the ready set, or a task. *)
Definition names a (key : Stored) (o : option Entry) : Prop := resolve (E := E) target_for a key = Ok o.
Definition entry_ok a (key : Stored) (o : option Entry) : Prop :=
  match o with
  | None => True
  | Some (EDispatch i) => i = index key - 1 /\ 0 <= i < size a
  | Some (ETask r i) => i = index key /\ exists c, at_ (table a) i = Some c /\ kind (c_state c) = Task /\ generation (c_state c) = epoch key
      /\ r = task_record (c_payload c)
  end.
Lemma resolve_spec a Q l ls key : Inv a Q l ls -> 0 < index key -> exists o, names a key o /\ entry_ok a key o.
Proof.
  intros Hi Hk. unfold names, resolve. pose proof (in_ends _ _ _ _ Hi) as He. pose proof (in_size _ _ _ _ Hi) as Hsz.
  destruct (Z.ltb_spec (index key - 1) (descriptor_end (table a))) as [Hd|Hd].
  { destruct (target_for _ _); [eexists; split; [done|]; split; [done|lia]|by exists None]. }
  destruct (Z.leb_spec (capacity (table a)) (index key - 1)) as [Hc|Hc]; [by exists None|].
  destruct (in_cover _ _ _ _ Hi (index key)) as [c Hcell]; [lia|].
  assert (Hres : resident (E := E) (table a) (index key) = Ok c) by (rewrite resident_at; by rewrite Hcell).
  rewrite Hres. cbn [bind].
  destruct (generation (c_state c) =? epoch key) eqn:Eg.
  - exists (match kind (c_state c) with Dispatch => Some (EDispatch (index key - 1)) | Task => Some (ETask (task_record (c_payload c)) (index key)) | _ => None end).
    split; [cbn [negb]; by destruct (kind (c_state c))|].
    apply Z.eqb_eq in Eg. destruct (kind (c_state c)) eqn:Ek; try done; [split; [done|lia]|]. split; [done|]. by exists c.
  - by exists None.
Qed.
Lemma names_unique a key o o' : names a key o -> names a key o' -> o = o'.
Proof. unfold names. congruence. Qed.
(** Two cells that a key cannot tell apart. *)
Record similar (c c' : Cell) : Prop := {
  si_generation : generation (c_state c') = generation (c_state c);
  si_kind : kind (c_state c') = kind (c_state c);
  si_record : kind (c_state c) = Task -> task_record (c_payload c') = task_record (c_payload c);
}.
Definition similarly s s' : Prop := descriptor_end s' = descriptor_end s /\ capacity s' = capacity s
  /\ forall i, match at_ s i with Some c => exists c', at_ s' i = Some c' /\ similar c c' | None => at_ s' i = None end.
Lemma within_similarly root s s' r r' : within root s s' -> at_ s root = Some r -> at_ s' root = Some r' -> c_state r' = c_state r ->
  kind (c_state r) <> Task -> similarly s s'.
Proof.
  intros Hw Hr Hr' Hst Hk. split; [apply Hw|]. split; [apply Hw|]. intros i. destruct (decide (i = root)) as [->|Hi].
  - rewrite Hr. exists r'. split; [done|]. by split; rewrite ?Hst.
  - pose proof (wi_cell _ _ _ Hw i Hi) as Hc. destruct (at_ s i) as [c|]; [|done]. destruct Hc as (c' & Hc' & Hch). exists c'. split; [done|].
    destruct Hch as [->|[_ []]]; by split.
Qed.
(** Keys name what they did when headers, kinds, generations and records are kept. *)
Lemma names_similar a a' key o : similarly (table a) (table a') -> names a key o -> names a' key o.
Proof.
  intros (Hd & Hc & Hcell) Hn. unfold names. rewrite <- Hn. unfold resolve. rewrite Hd, Hc. rewrite !resident_at. specialize (Hcell (index key)).
  destruct (at_ (table a) (index key)) as [c|]; [|by rewrite Hcell].
  destruct Hcell as (c' & -> & [Hg Hk Hr]). cbn [bind]. rewrite Hg, Hk. destruct (kind (c_state c)) eqn:Ek; try done. by rewrite Hr.
Qed.

(** ** Waking *)

(** Nothing there to be woken, or woken: a dispatch target in the ready set, a
    task in the queue of its topology. *)
Definition awake a Q (key : Stored) : Prop := exists o, names a key o /\
  match o with
  | None => True
  | Some (EDispatch i) => is_Some (view (ready a) i)
  | Some (ETask r i) => exists q, Q !! topology r = Some q /\ queued q i
  end.
(** A queued task has a parent that is awake: the wake has gone on from it. *)
Definition propagated a Q : Prop := forall root q i c, Q !! root = Some q -> queued q i -> at_ (table a) i = Some c -> awake a Q (parent (task_record (c_payload c))).

(** [a'] is [a] with more awake. *)
Record wakes a Q a' Q' : Prop := {
  wk_table : similarly (table a) (table a');
  wk_ready i : 0 <= i -> is_Some (view (ready a) i) -> is_Some (view (ready a') i);
  wk_queued root q i : Q !! root = Some q -> queued q i -> exists q', Q' !! root = Some q' /\ queued q' i;
}.
Lemma similarly_refl s : similarly s s.
Proof. split; [done|]. split; [done|]. intros i. destruct (at_ s i) as [c|]; [|done]. by exists c. Qed.
Lemma similarly_trans s s' s'' : similarly s s' -> similarly s' s'' -> similarly s s''.
Proof.
  intros (H1 & H2 & H3) (K1 & K2 & K3). split; [congruence|]. split; [congruence|]. intros i. specialize (H3 i). specialize (K3 i).
  destruct (at_ s i) as [c|]; [|by rewrite H3 in K3]. destruct H3 as (c' & Hc' & [A1 A2 A3]). rewrite Hc' in K3. destruct K3 as (c'' & Hc'' & [B1 B2 B3]).
  exists c''. split; [done|]. split; [congruence..|]. intros Hk. rewrite B3, A3; congruence.
Qed.
Lemma wakes_refl a Q : wakes a Q a Q.
Proof. split; try done; [apply similarly_refl|by intros; exists q]. Qed.
Lemma wakes_trans a Q a1 Q1 a2 Q2 : wakes a Q a1 Q1 -> wakes a1 Q1 a2 Q2 -> wakes a Q a2 Q2.
Proof.
  intros [H1 H2 H3] [K1 K2 K3]. split; [by eapply similarly_trans|auto|]. intros root q i Hq Hi. destruct (H3 root q i Hq Hi) as (q' & Hq' & Hi'). by eapply K3.
Qed.
Lemma wakes_awake a Q l ls a' Q' key : Inv a Q l ls -> wakes a Q a' Q' -> 0 < index key -> awake a Q key -> awake a' Q' key.
Proof.
  intros Hi Hw Hk (o & Hn & Ho). exists o. split; [by eapply names_similar; [apply Hw|]|]. destruct (resolve_spec a Q l ls key Hi Hk) as (o' & Hn' & Hok).
  rewrite (names_unique _ _ _ _ Hn' Hn) in Hok. destruct o as [[i|r i]|]; [|destruct Ho as (q & Hq & Hqi); by eapply wk_queued|done].
  eapply wk_ready; [done| |done]. destruct Hok. lia.
Qed.

(** The tasks that are not queued, which bound the climb. *)
Definition idle (s : Slots) (d : list Z) : Prop := forall i c, at_ s i = Some c -> kind (c_state c) = Task -> queue (c_state c) = None -> i ∈ d.
Definition codes (s : Slots) : list Z := seqZ (descriptor_end s + 1) (Z.of_nat (length (cells s))).
Lemma idle_codes s : idle s (codes s).
Proof.
  intros i c Hc _ _. apply elem_of_seqZ. unfold at_ in Hc. destruct (Z.ltb_spec (i - 1 - descriptor_end s) 0); [done|]. apply lookup_lt_Some in Hc. lia.
Qed.

(** One turn of the climb: the task joins its queue. *)
Lemma wake_task a Q l ls key r i d : Inv a Q l ls -> names a key (Some (ETask r i)) -> 0 < index key -> idle (table a) d -> exists q s',
  Q !! topology r = Some q /\ activate (E := E) (table a) (topology r) i = Ok ((q_activate q i).1, s')
  /\ let a' := with_table a s' in let Q' := <[topology r := (q_activate q i).2]> Q in
     Inv a' Q' l ls /\ wakes a Q a' Q' /\ awake a' Q' key /\ is_code (index (parent r))
     /\ ((q_activate q i).1 = Queued -> i ∈ d /\ idle s' (without i d))
     /\ (forall root q' j, Q' !! root = Some q' -> queued q' j -> (exists q, Q !! root = Some q /\ queued q j) \/ j = i)
     /\ (exists c', at_ s' i = Some c' /\ kind (c_state c') = Task /\ task_record (c_payload c') = r).
Proof.
  intros Hi Hn Hk Hd. destruct (resolve_spec a Q l ls key Hi Hk) as (o & Hn' & Hok). rewrite (names_unique _ _ _ _ Hn' Hn) in Hok.
  destruct Hok as (Hik & c & Hc & Hkind & Hgen & Hr). pose proof (in_sound _ _ _ _ Hi) as Hs.
  destruct (so_task _ Q Hs i c Hc Hkind) as [q Hq]. rewrite <- Hr in Hq. destruct (so_queue _ Q Hs _ q Hq) as (rc & Hh).
  assert (Ht : task_of (topology r) c) by (split; [done|by rewrite Hr]).
  destruct (activate_spec (E := E) (table a) (topology r) rc q i c (so_wf _ _ Hs) Hh Hc Ht) as (s' & r' & Ha & Hh' & Hw' & Hwi & Hst).
  exists q, s'. split; [done|]. split; [done|]. intros a' Q'. destruct (queue_kind _ _ _ _ Hh) as [Hrc Hkc], (queue_kind _ _ _ _ Hh') as [Hr' Hk'].
  assert (Hsim : similarly (table a) s') by (eapply within_similarly; [done..|congruence]).
  assert (Hir : i <> topology r) by (intros Hx; rewrite Hx in Hc; congruence).
  destruct (within_task _ _ _ i c Hwi Hir Hc) as (c' & Hc' & Hal).
  assert (Hi' : Inv a' Q' l ls).
  { eapply wake_inv_step; [done|by eapply within_evolves| |by eapply sound_within| |apply Hi|done].
    - eapply accounts_spares; [apply Hi|eapply within_spares; [done..|congruence]|done].
    - eapply parents_kept; [apply Hi|]. intros j e He Hke. assert (j <> topology r) by (intros ->; congruence). by eapply within_back. }
  assert (Hmono : forall j, queued q j -> queued (q_activate q i).2 j).
  { intros j. unfold q_activate. destruct (decide _); [done|]. intros [Hj|Hj]; [left; apply elem_of_app; by left|by right]. }
  assert (Hqi : queued (q_activate q i).2 i) by (unfold q_activate; destruct (decide _); [done|]; left; apply elem_of_app; right; by left).
  split; [done|]. split; [|split; [|split; [|split; [|split]]]].
  - split; [done|done|]. intros root q0 j Hq0 Hj. destruct (decide (root = topology r)) as [->|Hne].
    + exists (q_activate q i).2. split; [apply lookup_insert_eq|]. apply Hmono. congruence.
    + exists q0. split; [unfold Q'; by rewrite lookup_insert_ne|done].
  - exists (Some (ETask r i)). split; [by eapply names_similar|]. exists (q_activate q i).2. split; [apply lookup_insert_eq|done].
  - rewrite Hr. by eapply (in_parent _ _ _ _ Hi).
  - intros Hqd. assert (Hnq : ~ queued q i) by (unfold q_activate in Hqd; by destruct (decide (queued q i))).
    split.
    + apply (Hd i c Hc Hkind). pose proof (mark_queued _ _ _ _ _ _ Hh Hc Ht) as Hm. destruct (queue (c_state c)); [tauto|done].
    + intros j e He Hke Hqe. apply elem_of_without. assert (Hji : j <> i).
      { intros ->. rewrite Hc' in He. injection He as <-. pose proof (mark_queued _ _ _ _ _ _ Hh' Hc' (proj1 (alike_task _ _ _ Hal) Ht)) as Hm. by rewrite Hqe in Hm. }
      split; [|done]. assert (Hjr : j <> topology r) by (intros ->; congruence).
      pose proof (wi_cell _ _ _ Hwi j Hjr) as Hx. destruct (at_ (table a) j) as [e0|] eqn:Ee; [|congruence]. destruct Hx as (e1 & He1 & Hch).
      rewrite He in He1. injection He1 as <-. destruct Hch as [->|[Hte Hae]]; [by eapply Hd|]. eapply Hd; [done|by destruct Hte|].
      pose proof (mark_queued _ _ _ _ _ _ Hh Ee Hte) as Hm. destruct (queue (c_state e0)) as [x|]; [|done]. destruct Hm as [_ Hm]. apply Hmono in Hm.
      pose proof (mark_queued _ _ _ _ _ _ Hh' He (proj1 (alike_task _ _ _ Hae) Hte)) as Hm'. by rewrite Hqe in Hm'.
  - intros root q' j Hq' Hj. destruct (decide (root = topology r)) as [->|Hne].
    + unfold Q' in Hq'. rewrite lookup_insert_eq in Hq'. injection Hq' as <-. unfold q_activate in Hj. destruct (decide (queued q i)); [left; by exists q|].
      destruct Hj as [[Hj|Hj%list_elem_of_singleton]%elem_of_app|Hj]; [left; exists q; by split; [|left]|by right|left; exists q; by split; [|right]].
    + left. exists q'. split; [|done]. unfold Q' in Hq'. by rewrite lookup_insert_ne in Hq'.
  - exists c'. split; [done|]. split; [by rewrite (al_kind _ _ Hal)|by rewrite (al_record _ _ Hal)].
Qed.

(** A wake ends. *)
Lemma complete_spec fuel a Q l ls key d : Inv a Q l ls -> is_code (index key) -> idle (table a) d -> (length d < fuel)%nat ->
  exists a' Q', complete (E := E) target_for fuel a key = Ok a' /\ Inv a' Q' l ls /\ wakes a Q a' Q' /\ awake a' Q' key
  /\ (forall root q' i c, Q' !! root = Some q' -> queued q' i -> at_ (table a') i = Some c -> kind (c_state c) = Task ->
       (exists q, Q !! root = Some q /\ queued q i) \/ awake a' Q' (parent (task_record (c_payload c)))).
Proof.
  revert a Q key d. induction fuel as [|fuel IH]; intros a Q key d Hi Hk Hd Hlen; [lia|]. assert (Hk0 : 0 < index key) by (unfold is_code in Hk; lia).
  destruct (resolve_spec a Q l ls key Hi Hk0) as (o & Hn & Hok). cbn [complete]. rewrite Hn. cbn [bind]. destruct o as [[i|r i]|].
  - destruct Hok as [-> Hb]. destruct (DrainFacts.insert_sets (E := E) (ready a) (index key - 1) (in_ready _ _ _ _ Hi) Hb) as (r' & Hr' & Hset).
    rewrite Hr'. cbn [bind]. exists (with_ready a r'), Q. split; [done|].
    assert (Hv : forall j, 0 <= j -> is_Some (view (ready a) j) \/ j = index key - 1 -> is_Some (view r' j)).
    { intros j Hj Hor. rewrite (SetFacts.st_view _ _ _ _ Hset) by done. case_bool_decide; [by eexists|]. by destruct Hor. }
    split; [|split; [|split]].
    + eapply (wake_inv_step a Q l ls r' (table a) (pool a)); [done|apply evolves_refl|apply Hi|apply Hi|apply Hi|apply Hset|apply Hset].
    + split; [apply similarly_refl|intros j Hj Hs; apply Hv; tauto|]. intros root q j Hq Hj. by exists q.
    + exists (Some (EDispatch (index key - 1))). split; [done|]. apply Hv; [lia|tauto].
    + intros root q' j c Hq' Hj _ _. left. by exists q'.
  - destruct (wake_task a Q l ls key r i d Hi Hn Hk0 Hd) as (q & s' & Hq & Ha & Hi' & Hw & Haw & Hp & Hidle & Hnew & c' & Hc' & Hkc & Hrc). rewrite Ha. cbn [bind].
    set (a1 := with_table a s') in *. set (Q1 := <[topology r := (q_activate q i).2]> Q) in *. destruct (q_activate q i).1 eqn:Eact.
    + destruct (Hidle eq_refl) as [Hid Hd']. destruct (IH a1 Q1 (parent r) (without i d) Hi' Hp Hd') as (a2 & Q2 & Hc2 & Hi2 & Hw2 & Haw2 & Hnew2).
      { apply list_elem_of_split in Hid as (d1 & d2 & ->). unfold without. rewrite filter_app, filter_cons_False by tauto. rewrite !length_app in *. simpl in Hlen.
        pose proof (length_filter (fun j => j <> i) d1). pose proof (length_filter (fun j => j <> i) d2). lia. }
      rewrite Hc2. exists a2, Q2. split; [done|]. split; [done|]. split; [by eapply wakes_trans|]. split; [by eapply (wakes_awake a1 Q1 l ls)|].
      intros root q' j c Hq' Hj Hc Hkj. destruct (Hnew2 root q' j c Hq' Hj Hc Hkj) as [(q1 & Hq1 & Hj1)|?]; [|by right].
      destruct (Hnew root q1 j Hq1 Hj1) as [?| ->]; [by left|]. right. destruct (wk_table _ _ _ _ Hw2) as (_ & _ & Hcell). specialize (Hcell i).
      change (table a1) with s' in Hcell. rewrite Hc' in Hcell. destruct Hcell as (c2 & Hc2' & Hsim). rewrite Hc in Hc2'. injection Hc2' as <-.
      by rewrite (si_record _ _ Hsim Hkc), Hrc.
    + exists a1, Q1. split; [done|]. split; [done|]. split; [done|]. split; [done|]. intros root q' j c Hq' Hj Hc Hkj.
      assert (HQ : (q_activate q i).2 = q /\ queued q i) by (unfold q_activate in Eact |- *; by destruct (decide (queued q i))).
      destruct HQ as [HQ Hqi]. destruct (Hnew root q' j Hq' Hj) as [?| ->]; [by left|]. left. unfold Q1 in Hq'. rewrite HQ in Hq'.
      exists q'. split; [|done]. destruct (decide (root = topology r)) as [->|]; [rewrite lookup_insert_eq in Hq'; congruence|by rewrite lookup_insert_ne in Hq'].
  - exists a, Q. split; [done|]. split; [done|]. split; [apply wakes_refl|]. split; [by exists None|]. intros root q' j c Hq' Hj _ _. left. by exists q'.
Qed.

(** ** Climbing to the root *)

(** From a key, [n] parents up, there is a dispatch target or nothing. *)
Inductive climbs a : Stored -> nat -> option Z -> Prop :=
| climbs_root key i : names a key (Some (EDispatch i)) -> climbs a key 0 (Some i)
| climbs_stale key : names a key None -> climbs a key 0 None
| climbs_up key r i n o : names a key (Some (ETask r i)) -> climbs a (parent r) n o -> climbs a key (S n) o.

Lemma climbs_similar a a' key n o : similarly (table a) (table a') -> climbs a key n o -> climbs a' key n o.
Proof.
  intros Hs. induction 1 as [key i Hn|key Hn|key r i n o Hn Hc IH]; [apply climbs_root|apply climbs_stale|eapply climbs_up; [|exact IH]];
    by eapply names_similar.
Qed.
Lemma climbs_unique a key n n' o o' : climbs a key n o -> climbs a key n' o' -> n = n' /\ o = o'.
Proof.
  intros H1. revert n' o'. induction H1 as [key i Hn|key Hn|key r i n o Hn Hc IH]; intros n' o' H2; destruct H2 as [key' j Hn'|key' Hn'|key' r' j n2 o2 Hn' Hc'];
    pose proof (names_unique _ _ _ _ Hn Hn') as Heq; try done; [injection Heq as ->; done|]. injection Heq as -> _. by destruct (IH _ _ Hc') as [-> ->].
Qed.
Lemma queued_task a Q l ls root q i : Inv a Q l ls -> Q !! root = Some q -> queued q i -> exists c, at_ (table a) i = Some c /\ task_of root c.
Proof.
  intros Hi Hq [x Hx]%lane_queued. destruct (so_queue _ _ (in_sound _ _ _ _ Hi) root q Hq) as (r & Hh).
  destruct (seg_task _ _ _ _ _ _ _ (la_seg _ _ _ _ (ho_lanes _ _ _ _ Hh) x) Hx) as (c & Hc & Ht & _). by exists c.
Qed.
(** Where every wake has gone on, the root of what is awake is ready. *)
Lemma awake_ready a Q l ls key n o : Inv a Q l ls -> propagated a Q -> climbs a key n o -> 0 < index key -> awake a Q key ->
  match o with Some i => is_Some (view (ready a) i) | None => True end.
Proof.
  intros Hi Hp. induction 1 as [key i Hn|key Hn|key r i n o Hn Hc IH]; intros Hk (e & Hn' & He); [|done|].
  - by rewrite (names_unique _ _ _ _ Hn' Hn) in He.
  - rewrite (names_unique _ _ _ _ Hn' Hn) in He. destruct He as (q & Hq & Hqi). destruct (queued_task a Q l ls _ q i Hi Hq Hqi) as (c & Hcell & Ht).
    destruct (resolve_spec a Q l ls key Hi Hk) as (e' & Hn2 & Hok). rewrite (names_unique _ _ _ _ Hn2 Hn) in Hok. destruct Hok as (_ & c' & Hc' & Hkc & _ & Hr).
    rewrite Hcell in Hc'. injection Hc' as <-. pose proof (in_parent _ _ _ _ Hi i c Hcell Hkc) as Hpar. rewrite <- Hr in Hpar. unfold is_code in Hpar.
    apply IH; [lia|]. rewrite Hr. by eapply Hp.
Qed.
End wakes.

Lemma parents_validate_spec {P : Type} `{BL : BitmapLaws P} `{GL : GenerationsLaws} target_for (a : Arena P) Q l ls max hops key : Inv a Q l ls -> is_code (index key) ->
  (exists n i, climbs (E := Error) target_for a key n (Some i) /\ (n <= hops)%nat /\ validate_loop target_for a max key hops = Ok tt)
  \/ (exists n, climbs (E := Error) target_for a key n None /\ (n <= hops)%nat /\ validate_loop target_for a max key hops = Err ParentStale)
  \/ ((forall n o, climbs (E := Error) target_for a key n o -> (hops < n)%nat) /\ validate_loop target_for a max key hops = Err (WakeHopCeiling (max + 1) max)).
Proof.
  intros Hi Hk.
  revert key Hk. induction hops as [|hops IH]; intros key Hk; assert (Hk0 : 0 < index key) by (unfold is_code in Hk; lia);
    destruct (resolve_spec (E := Error) target_for a Q l ls key Hi Hk0) as (o & Hn & Hok).
  - assert (Hv : validate_loop target_for a max key 0 = match o with None => Err ParentStale | Some (EDispatch _) => Ok tt
        | Some (ETask _ _) => Err (WakeHopCeiling (max + 1) max) end).
    { cbn [validate_loop]. unfold task_parent. rewrite Hn. by destruct o as [[i|r i]|]. }
    rewrite Hv. destruct o as [[i|r i]|].
    + left. exists 0%nat, i. split; [by apply climbs_root|]. split; [lia|done].
    + right. right. split; [|done]. intros n o Hc. destruct Hc as [key' j Hn'|key' Hn'|key' r' j n o Hn' Hc]; [..|lia]; by pose proof (names_unique _ _ _ _ _ Hn Hn').
    + right. left. exists 0%nat. split; [by apply climbs_stale|]. split; [lia|done].
  - assert (Hv : validate_loop target_for a max key (S hops) = match o with None => Err ParentStale | Some (EDispatch _) => Ok tt
        | Some (ETask r _) => validate_loop target_for a max (parent r) hops end).
    { cbn [validate_loop]. unfold task_parent. rewrite Hn. by destruct o as [[i|r i]|]. }
    rewrite Hv. destruct o as [[i|r i]|].
    + left. exists 0%nat, i. split; [by apply climbs_root|]. split; [lia|done].
    + destruct Hok as (_ & c & Hc & Hkc & _ & Hr). assert (Hpar : is_code (index (parent r))) by (rewrite Hr; by eapply (in_parent _ _ _ _ Hi)).
      destruct (IH (parent r) Hpar) as [(n & j & Hcl & Hle & ->)|[(n & Hcl & Hle & ->)|[Hno ->]]].
      * left. exists (S n), j. split; [by eapply climbs_up|]. split; [lia|done].
      * right. left. exists (S n). split; [by eapply climbs_up|]. split; [lia|done].
      * right. right. split; [|done]. intros n o Hcl. destruct Hcl as [key' j Hn'|key' Hn'|key' r' j n o Hn' Hcl];
          pose proof (names_unique _ _ _ _ _ Hn Hn') as Heq; try done. injection Heq as <- _. specialize (Hno n o Hcl). lia.
    + right. left. exists 0%nat. split; [by apply climbs_stale|]. split; [lia|done].
Qed.

Section theorems.
Context {P : Type} `{BL : BitmapLaws P} `{GL : GenerationsLaws}.
Context (target_for : Z -> Z -> option (Token.Token unit)).
Implicit Types (a : Arena P) (Q : gmap Z Queue).

(** C4. A wake reaches its root and no wake is lost. Completing a key of a sound
    arena ends - one turn more than there are cells is enough, even if the parents
    of tasks run in a circle - and keeps the arena sound. Afterwards the key is
    awake: it names nothing any more, or its dispatch target is in the ready set,
    or its task is queued; whatever was awake is so still. If every queued task
    had its parent awake before, every one has it after, and then the dispatch
    target at the root above the key is in the ready set. *)
Theorem no_wake_lost E a Q l ls key fuel : Inv a Q l ls -> is_code (index key) -> (length (cells (table a)) < fuel)%nat ->
  exists a' Q', complete (E := E) target_for fuel a key = Ok a' /\ Inv a' Q' l ls
  /\ awake (E := E) target_for a' Q' key /\ (forall k, 0 < index k -> awake (E := E) target_for a Q k -> awake (E := E) target_for a' Q' k)
  /\ (propagated (E := E) target_for a Q -> propagated (E := E) target_for a' Q'
      /\ forall n i, climbs (E := E) target_for a key n (Some i) -> is_Some (SetFacts.view (ready a') i)).
Proof.
  intros Hi Hk Hf. destruct (complete_spec (E := E) target_for fuel a Q l ls key (codes (table a)) Hi Hk (idle_codes _)) as (a' & Q' & Hc & Hi' & Hw & Haw & Hnew).
  { unfold codes. by rewrite length_seqZ, Nat2Z.id. }
  exists a', Q'. split; [done|]. split; [done|]. split; [done|]. split; [intros k Hk0; by apply (wakes_awake target_for a Q l ls)|]. intros Hp.
  assert (Hp' : propagated (E := E) target_for a' Q').
  { intros root q j c Hq Hj Hcell. destruct (queued_task a' Q' l ls root q j Hi' Hq Hj) as (c0 & Hc0 & Ht). rewrite Hcell in Hc0. injection Hc0 as <-.
    destruct (Hnew root q j c Hq Hj Hcell (proj1 Ht)) as [(q0 & Hq0 & Hj0)|?]; [|done].
    destruct (queued_task a Q l ls root q0 j Hi Hq0 Hj0) as (c0 & Hc0 & Ht0). destruct (wk_table _ _ _ _ Hw) as (_ & _ & Hsim). specialize (Hsim j).
    rewrite Hc0 in Hsim. destruct Hsim as (c1 & Hc1 & Hs). rewrite Hcell in Hc1. injection Hc1 as <-. rewrite (si_record _ _ Hs (proj1 Ht0)).
    pose proof (in_parent _ _ _ _ Hi j c0 Hc0 (proj1 Ht0)) as Hpar. unfold is_code in Hpar. apply (wakes_awake target_for a Q l ls); [done|done|lia|]. by eapply Hp. }
  split; [done|]. intros n i Hcl. unfold is_code in Hk. eapply (awake_ready target_for a' Q' l ls key n (Some i)); [done|done| |lia|done].
  eapply climbs_similar; [apply Hw|done].
Qed.

(** C25. A parent is validated exactly. Validating a parent accepts it when a
    dispatch target is at most [max] parents above it, refuses it as stale when
    what names nothing is met first, and otherwise - also when the parents run in
    a circle - with the ceiling and one more as what is needed. *)
Theorem parents_validated_exactly a Q l ls key max : Inv a Q l ls -> is_code (index key) -> 0 <= max ->
  (exists n i, climbs (E := Error) target_for a key n (Some i) /\ Z.of_nat n <= max /\ validate target_for a key max = Ok tt)
  \/ (exists n, climbs (E := Error) target_for a key n None /\ Z.of_nat n <= max /\ validate target_for a key max = Err ParentStale)
  \/ ((forall n o, climbs (E := Error) target_for a key n o -> max < Z.of_nat n) /\ validate target_for a key max = Err (WakeHopCeiling (max + 1) max)).
Proof.
  intros Hi Hk Hm. unfold validate. destruct (parents_validate_spec target_for a Q l ls max (Z.to_nat max) key Hi Hk) as [(n & i & Hc & Hn & ->)|[(n & Hc & Hn & ->)|[Hno ->]]].
  - left. exists n, i. split; [done|]. split; [lia|done].
  - right. left. exists n. split; [done|]. split; [lia|done].
  - right. right. split; [|done]. intros n o Hc. specialize (Hno n o Hc). lia.
Qed.
End theorems.
End Wakes.
