(* ===== verification/ArenaRuns.v ===== *)
(** * Histories of the ready arena.

    What the owners of keys, endpoints and leases may do to an arena, as steps;
    that no step gets stuck and every one keeps the invariant of [ArenaLaws]; and
    that a key whose cell was freed never names anything again. *)

From stdpp Require Import gmap.
From S2P Require Import Prelude Routes ReadySet ReadySetFacts ReadyArena ArenaFacts LanesFacts TopologyFacts WakeFacts ArenaLaws.

Module Steps.
Import Cells CellFacts ChainFacts Ages PoolLaw FreePool Topo LaneFacts QueueFacts Tables Arena Wakes.

(** ** The steps *)

(** What can be done to an arena with its leases. Keys are owned: the type of a key
    tells what its cell is, and only its owner holds it. *)
Inductive Op :=
| OSlot (t : Token.Token unit) | OEndpoint | OAdmit (parent : Stored) | OBind (parent held root : Stored) (local : Z)
| OWake (key : Stored) | OActivate (key : Stored) | OTake (key : Stored)
| OFreeSlot (key : Stored) | ODropTask (key : Stored) | ODropEndpoint (key : Stored) | ODropAdmission (key : Stored)
| OLease (n : Z) | OLeaseAdmit (k : nat) | OLeaseReturn (k : nat) (key : Stored) | OReclaim (k : nat) (key : Stored) | OLeaseDrop (k : nat)
| OBegin (root : Stored) | OPop (root : Stored) (side : Lane) | OFinish (root : Stored).

Section steps.
Context {P : Type} `{BL : BitmapLaws P} `{GL : GenerationsLaws}.
Context (target_for : Z -> Z -> option (Token.Token unit)).
Implicit Types (a : Arena P) (Q : gmap Z Queue) (cs : list Chain).

Definition owns (s : Slots) (key : Stored) (k : Kind) : Prop := exists c, at_ s (index key) = Some c /\ generation (c_state c) = epoch key /\ kind (c_state c) = k.
Definition allowed (o : Op) (a : Arena P) : Prop :=
  let own := owns (table a) in
  match o with
  | OSlot _ | OEndpoint => True
  | OAdmit parent => is_code (index parent)
  | OBind parent held root local => is_code (index parent) /\ 0 <= epoch parent < 2 ^ 32 /\ own held Reserved /\ own root Topology /\ 0 <= local < 2 ^ 32
  | OWake key => is_code (index key)
  | OActivate key | OTake key | OFreeSlot key => own key Dispatch
  | ODropTask key | OReclaim _ key => own key Task
  | ODropEndpoint key => own key Topology
  | ODropAdmission key | OLeaseReturn _ key => own key Reserved
  | OLease n => 0 <= n
  | OLeaseAdmit _ | OLeaseDrop _ => True
  | OBegin root | OPop root _ | OFinish root => own root Topology
  end.

(** The arena and the leases after a step; a lease that does not exist is not
    touched. *)
Definition on_lease cs (k : nat) (f : Chain -> run Error (Chain * Arena P)) a : run Error (Arena P * list Chain) :=
  match cs !! k with
  | Some c => let! (c, a) := f c in Ok (a, <[k := c]> cs)
  | None => Ok (a, cs)
  end.
Definition on_table a cs (m : run Error Slots) : run Error (Arena P * list Chain) := let! s := m in Ok (with_table a s, cs).
Definition run_op (o : Op) a cs : run Error (Arena P * list Chain) :=
  match o with
  | OSlot t => match make_slot a t with Ok (_, a) => Ok (a, cs) | Err e => Err (Capacity 1 (free e)) | Stuck w => Stuck w end
  | OEndpoint => let! (_, a) := endpoint_new a in Ok (a, cs)
  | OAdmit parent => let! (_, a) := try_admit target_for a parent in Ok (a, cs)
  | OBind parent held root local => let! (_, a) := bind_task a parent held root local in Ok (a, cs)
  | OWake key => let! a := complete target_for (S (length (cells (table a)))) a key in Ok (a, cs)
  | OActivate key => let! a := activate_slot a key in Ok (a, cs)
  | OTake key => let! (_, a) := Arena.take a key in Ok (a, cs)
  | OFreeSlot key => let! a := free_route a key in Ok (a, cs)
  | ODropTask key => let! a := drop_task a key in Ok (a, cs)
  | ODropEndpoint key => let! a := drop_endpoint a key in Ok (a, cs)
  | ODropAdmission key => let! a := drop_admission a key in Ok (a, cs)
  | OLease n => let! (c, a) := lease_new a n in Ok (a, c :: cs)
  | OLeaseAdmit k => on_lease cs k (fun c => let! (_, c, a) := lease_admit a c in Ok (c, a)) a
  | OLeaseReturn k key => on_lease cs k (fun c => let! (c, s) := chain_restore c (table a) key in Ok (c, with_table a s)) a
  | OReclaim k key =>
      on_lease cs k (fun c => let! (renewed, a) := reclaim_task a key in let! (_, c, a) := lease_reclaim a c renewed tt tt in Ok (c, a)) a
  | OLeaseDrop k => on_lease cs k (fun c => let! a := lease_drop a c in Ok (None, a)) a
  | OBegin root => on_table a cs (let! (_, s) := begin_ (table a) (index root) in Ok s)
  | OPop root side => on_table a cs (let! (_, s) := Topo.pop (table a) (index root) side in Ok s)
  | OFinish root => on_table a cs (finish (table a) (index root))
  end.

(** ** Parts of steps *)

Section parts.
Context {E : Type}.

(** A cell that is no task, no topology and not free becomes another such. *)
Lemma inv_put a Q l ls i c c' : Inv a Q l ls -> at_ (table a) i = Some c -> plain c -> kind (c_state c) <> Free -> kind (c_state c) <> Retired ->
  plain c' -> kind (c_state c') <> Free -> ages (c_state c) (c_state c') ->
  Inv (with_table a (put (table a) i c')) Q l ls /\ evolves (table a) (put (table a) i c').
Proof.
  intros Hi Hc Hp Hf Hr Hp' Hf' Ha. assert (He : evolves (table a) (put (table a) i c')) by (by eapply evolves_put). split; [|done].
  assert (Hs : sound (put (table a) i c') Q) by (eapply sound_put; try done; apply Hi).
  eapply wake_inv_step; [done|done|eapply accounts_spares; [apply Hi|by eapply spares_put|apply Hs]|done| |apply Hi|done].
  eapply parents_kept; [apply Hi|]. intros j d Hd Hk. rewrite (at_put _ i c) in Hd by done. case_bool_decide; [injection Hd as <-; by destruct Hp'|].
  by exists d.
Qed.
(** A free cell becomes reserved, or a reserved one free. *)
Lemma inv_pool a Q l ls l' ls' i c c' p' : Inv a Q l ls -> at_ (table a) i = Some c -> plain c -> kind (c_state c) <> Retired -> plain c' ->
  ages (c_state c) (c_state c') -> accounts (put (table a) i c') p' l' None [] ls' ->
  Inv (with_pool a (put (table a) i c') p') Q l' ls' /\ evolves (table a) (put (table a) i c').
Proof.
  intros Hi Hc Hp Hr Hp' Ha Hacc. assert (He : evolves (table a) (put (table a) i c')) by (by eapply evolves_put). split; [|done].
  eapply wake_inv_step; [done|done|done|eapply sound_put; try done; apply Hi| |apply Hi|done].
  eapply parents_kept; [apply Hi|]. intros j d Hd Hk. rewrite (at_put _ i c) in Hd by done. case_bool_decide; [injection Hd as <-; by destruct Hp'|].
  by exists d.
Qed.
Lemma plain_kind c k : kind (c_state c) = k -> k <> Task -> k <> Topology -> plain c.
Proof. intros <-. by split. Qed.
Lemma free_plain c : kind (c_state c) = Free -> plain c.
Proof. intros Hk. by apply (plain_kind c Free). Qed.
Lemma reserved_plain c : kind (c_state c) = Reserved -> plain c.
Proof. intros Hk. by apply (plain_kind c Reserved). Qed.

Lemma inv_claim a Q l ls : Inv a Q l ls ->
  match l with
  | [] => claim (E := E) (pool a) (table a) = Ok (None, pool a, table a)
  | i :: l' => exists e p', let s' := put (table a) i (reserved_of e) in claim (E := E) (pool a) (table a) = Ok (Some (stored i (generation (c_state e))), p', s')
      /\ Inv (with_pool a s' p') Q l' ls /\ evolves (table a) s' /\ at_ s' i = Some (reserved_of e)
  end.
Proof.
  intros Hi. pose proof (accounts_claim (E := E) _ _ _ _ _ _ (in_accounts _ _ _ _ Hi)) as Hc. destruct l as [|i l']; [done|].
  destruct Hc as (e & p' & s' & Hc & He & Hk & -> & Ha). exists e, p'. split; [done|].
  destruct (inv_pool a Q (i :: l') ls l' ls i e (reserved_of e) p' Hi He) as [H1 H2]; [by apply free_plain|by rewrite Hk|by apply reserved_plain| |done|].
  { apply ages_same; [done|by rewrite Hk]. }
  split; [done|]. split; [done|]. by eapply at_put_eq.
Qed.
(** The generation of a cell that was recycled, or its retirement. *)
Definition recycled (v v' : State) : Prop :=
  (kind v' = Free /\ generation v < generation v') \/ (kind v' = Retired /\ generation v' = generation v).
Lemma recycled_next v v' : 0 <= generation v < 2 ^ 32 -> kind v <> Retired ->
  match gen_next (generation v) with Some g => v' = state g Free None | None => v' = state (generation v) Retired None end -> ages v v' /\ recycled v v'.
Proof.
  intros Hg Hk Hv. destruct (gen_next (generation v)) as [g|] eqn:Eg; subst v'.
  - pose proof (gen_next_more _ _ Hg Eg) as Hlt. split; [split; cbn; [lia|lia|done]|]. left. cbn. split; [done|lia].
  - split; [by apply ages_same|]. right. done.
Qed.
Lemma inv_recycle a Q l ls key d : Inv a Q l ls -> at_ (table a) (index key) = Some d -> kind (c_state d) = Reserved ->
  exists p' d' l', let s' := put (table a) (index key) d' in recycle (E := E) (pool a) (table a) key = Ok (p', s')
  /\ Inv (with_pool a s' p') Q l' ls /\ evolves (table a) s' /\ at_ s' (index key) = Some d' /\ recycled (c_state d) (c_state d').
Proof.
  intros Hi Hd Hk. destruct (accounts_recycle (E := E) _ _ _ _ _ _ key d (in_accounts _ _ _ _ Hi) Hd Hk) as (p' & s' & d' & Hr & -> & Hcase).
  destruct (recycled_next (c_state d) (c_state d') (in_range _ _ _ _ Hi _ _ Hd)) as [Hag Hrec]; [by rewrite Hk|by destruct (gen_next _); apply Hcase|].
  assert (Hp' : plain d') by (destruct Hrec as [[Hx _]|[Hx _]]; by eapply plain_kind).
  assert (Hacc : exists l', accounts (put (table a) (index key) d') p' l' None [] ls).
  { destruct (gen_next _); destruct Hcase as [_ Hacc]; by eexists. }
  destruct Hacc as [l' Hacc]. exists p', d', l'. split; [done|].
  destruct (inv_pool a Q l ls l' ls (index key) d d' p' Hi Hd) as [H1 H2]; [by apply reserved_plain|by rewrite Hk|done..|].
  split; [done|]. split; [done|]. split; [by eapply at_put_eq|done].
Qed.
End parts.

(** ** Each step *)

(** A step ends, in an arena that keeps the invariant, or is refused. *)
Definition kept a (m : run Error (Arena P * list Chain)) : Prop :=
  match m with
  | Ok (a', cs') => exists Q' l' ls', Inv a' Q' l' ls' /\ cs' = chain_of <$> ls' /\ evolves (table a) (table a')
  | Err _ => True
  | Stuck _ => False
  end.
Lemma kept_ok a Q' l' ls' a' : Inv a' Q' l' ls' -> evolves (table a) (table a') -> kept a (Ok (a', chain_of <$> ls')).
Proof. intros Hi He. by exists Q', l', ls'. Qed.

Lemma keep_slot a Q l ls t : Inv a Q l ls -> kept a (run_op (OSlot t) a (chain_of <$> ls)).
Proof.
  intros Hi. cbn [run_op]. unfold make_slot, try_dispatch. pose proof (inv_claim (E := Full) a Q l ls Hi) as Hc. destruct l as [|i l']; [by rewrite Hc|].
  destruct Hc as (e & p' & Hc & Hi' & He & Hat). rewrite Hc. cbn [bind ok_or]. unfold slots_dispatch. rewrite edit_at. cbn [index]. rewrite Hat. cbn [bind].
  set (a1 := with_pool a _ p') in *. set (d := on_state (set_kind Dispatch) _).
  destruct (inv_put a1 Q l' ls i (reserved_of e) d Hi' Hat) as [H1 H2]; [by apply reserved_plain|done|done|by apply (plain_kind d Dispatch)|done|by apply ages_same|].
  eapply kept_ok; [exact H1|]. by eapply evolves_trans.
Qed.
Lemma keep_endpoint a Q l ls : Inv a Q l ls -> kept a (run_op OEndpoint a (chain_of <$> ls)).
Proof.
  intros Hi. cbn [run_op]. unfold endpoint_new, try_topology. pose proof (inv_claim (E := Full) a Q l ls Hi) as Hc. destruct l as [|i l']; [by rewrite Hc|].
  destruct Hc as (e & p' & Hc & Hi' & He & Hat). rewrite Hc. cbn [bind ok_or]. set (a1 := with_pool a _ p') in *.
  destruct (sound_topology (E := Full) (table a1) Q (stored i (generation (c_state e))) (reserved_of e) (in_sound _ _ _ _ Hi') Hat eq_refl)
    as (s' & r' & Ht & Hs & Hh & Hg & -> & Hev & Hsp). change (put (table a) i (reserved_of e)) with (table a1). rewrite Ht. cbn [bind].
  eapply kept_ok; [|by eapply evolves_trans]. eapply (wake_inv_step a1); try done; [eapply accounts_spares; [apply Hi'|done|apply Hs]| |apply Hi'].
  eapply parents_kept; [apply Hi'|]. intros j c Hj Hk. cbn [index] in Hj. rewrite (at_put _ i (reserved_of e)) in Hj by done. case_bool_decide; [|by exists c].
  injection Hj as <-. destruct (queue_kind _ _ _ _ Hh) as [_ Hkr]. congruence.
Qed.
Lemma keep_admit a Q l ls parent : Inv a Q l ls -> is_code (index parent) -> kept a (run_op (OAdmit parent) a (chain_of <$> ls)).
Proof.
  intros Hi Hp. cbn [run_op]. unfold try_admit, validate. destruct (parents_validate_spec target_for a Q l ls (MAX_WAKE_HOPS - 1) (Z.to_nat (MAX_WAKE_HOPS - 1)) parent Hi Hp)
    as [(n & i & _ & _ & ->)|[(n & _ & _ & ->)|[_ ->]]]; cbn [bind]; [|done..].
  unfold try_task. pose proof (inv_claim (E := Error) a Q l ls Hi) as Hc. destruct l as [|j l']; [by rewrite Hc|].
  destruct Hc as (e & p' & Hc & Hi' & He & Hat). rewrite Hc. cbn [bind ok_or]. by eapply kept_ok.
Qed.
Lemma keep_bind a Q l ls parent held root local : Inv a Q l ls -> allowed (OBind parent held root local) a ->
  kept a (run_op (OBind parent held root local) a (chain_of <$> ls)).
Proof.
  intros Hi (Hp & Hep & (d & Hd & Hg & Hk) & (r & Hr & Hgr & Hkr) & Hl). cbn [run_op]. unfold bind_task. pose proof (in_sound _ _ _ _ Hi) as Hs.
  destruct (so_topology _ _ Hs _ r Hr Hkr) as [q Hq]. assert (Hcr : is_code (index root)) by (eapply wf_code; [apply Hs|done|by rewrite Hkr]).
  destruct (task_round_trip parent root local Hp Hep Hcr Hl) as [Hrec _]. set (t := task_new parent root local) in *.
  destruct (sound_attach (E := Error) (table a) Q (index root) q (index held) d t (epoch held) Hs Hq Hd Hk ltac:(by rewrite Hrec))
    as (s' & Ha & Hs' & Hi' & Hfr & (r0 & r1 & Hr0 & Hr1 & Hst) & Hev & Hsp).
  assert (Hheld : held = stored (index held) (epoch held)) by (by destruct held). rewrite <- Hheld in Ha.
  assert (Hbind : (let! (staged, s) := slots_task (E := Error) (table a) held t in let! (child, s) := attach s (index root) staged in Ok (child, with_table a s)) = Ok (held, with_table a s')).
  { destruct (slots_task (table a) held t) as [[staged s1]| |]; cbn [bind] in Ha |- *; [|done..]. by rewrite Ha. }
  rewrite Hbind. cbn [bind]. eapply kept_ok; [|done]. eapply (wake_inv_step a); try done; [eapply accounts_spares; [apply Hi|done|apply Hs']| |apply Hi].
  intros j c Hj Hkc. destruct (decide (j = index held)) as [->|Hjh]; [rewrite Hi' in Hj; injection Hj as <-; cbn [c_payload]; by rewrite Hrec|].
  destruct (decide (j = index root)) as [->|Hjr]; [congruence|]. rewrite Hfr in Hj by done. by eapply (in_parent _ _ _ _ Hi).
Qed.
Lemma keep_wake a Q l ls key : Inv a Q l ls -> is_code (index key) -> kept a (run_op (OWake key) a (chain_of <$> ls)).
Proof.
  intros Hi Hk. cbn [run_op].
  destruct (complete_spec (E := Error) target_for (S (length (cells (table a)))) a Q l ls key (codes (table a)) Hi Hk (idle_codes _)) as (a' & Q' & Hc & Hi' & Hw & _).
  { unfold codes. rewrite length_seqZ, Nat2Z.id. lia. }
  rewrite Hc. cbn [bind]. eapply kept_ok; [done|]. destruct (wk_table _ _ _ _ Hw) as (H1 & H2 & H3). split; [done|done|]. intros i. specialize (H3 i).
  destruct (at_ (table a) i) as [c|]; [|done]. destruct H3 as (c' & Hc' & [Hg Hkd _]). exists c'. split; [done|]. split; [lia|intros; lia|]. intros Hr. split; congruence.
Qed.
(** The ready set alone. *)
Lemma inv_ready a Q l ls r' : Inv a Q l ls -> SetFacts.sound r' -> ReadySet.capacity r' = size a -> Inv (with_ready a r') Q l ls.
Proof. intros Hi Hr Hc. eapply (wake_inv_step a Q l ls r' (table a) (pool a)); [done|apply evolves_refl|apply Hi|apply Hi|apply Hi|done|done]. Qed.
Lemma slot_range a Q l ls key : Inv a Q l ls -> owns (table a) key Dispatch -> 0 <= index key - 1 < size a.
Proof.
  intros Hi (c & Hc & _ & Hk). destruct (wf_code _ _ c (so_wf _ _ (in_sound _ _ _ _ Hi)) Hc) as [H1 H2]; [by rewrite Hk|]. rewrite (in_size _ _ _ _ Hi). unfold is_code in H1. lia.
Qed.
Lemma keep_activate a Q l ls key : Inv a Q l ls -> owns (table a) key Dispatch -> kept a (run_op (OActivate key) a (chain_of <$> ls)).
Proof.
  intros Hi Ho. cbn [run_op]. unfold activate_slot.
  destruct (DrainFacts.insert_sets (E := Error) (ready a) (index key - 1) (in_ready _ _ _ _ Hi) (slot_range a Q l ls key Hi Ho)) as (r' & Hr & Hset).
  rewrite Hr. cbn [bind]. eapply kept_ok; [eapply inv_ready; [done|apply Hset|apply Hset]|apply evolves_refl].
Qed.
Lemma keep_take a Q l ls key : Inv a Q l ls -> owns (table a) key Dispatch -> kept a (run_op (OTake key) a (chain_of <$> ls)).
Proof.
  intros Hi Ho. cbn [run_op]. unfold Arena.take, ReadySet.remove.
  destruct (SetFacts.store_remove_sets (E := Error) (ready a) (index key - 1) ReadySet.Ready ReadySet.RIdle (in_ready _ _ _ _ Hi) (slot_range a Q l ls key Hi Ho)) as (r' & Hr & Hset).
  rewrite Hr. cbn [bind]. eapply kept_ok; [eapply inv_ready; [done|apply Hset|apply Hset]|apply evolves_refl].
Qed.

(** The cell of a key has moved on: to a later generation, or out of use. *)
Definition gone (s : Slots) (key : Stored) : Prop := exists c, at_ s (index key) = Some c /\ (epoch key < generation (c_state c) \/ kind (c_state c) = Retired).
Lemma gone_evolves s s' key : evolves s s' -> gone s key -> gone s' key.
Proof.
  intros He (c & Hc & Hcase). pose proof (ev_cell _ _ He (index key)) as Hx. rewrite Hc in Hx. destruct Hx as (c' & Hc' & Ha). exists c'. split; [done|].
  destruct Hcase as [Hlt|Hr]; [left; pose proof (ag_more _ _ Ha); lia|right; by apply (ag_retired _ _ Ha)].
Qed.
Lemma recycled_gone s key v c : at_ s (index key) = Some c -> recycled v (c_state c) -> generation v = epoch key -> gone s key.
Proof. intros Hc Hr Hg. exists c. split; [done|]. destruct Hr as [[_ Hr]|[Hr _]]; [left; lia|by right]. Qed.

Lemma free_spec a Q l ls key : Inv a Q l ls -> owns (table a) key Dispatch -> exists a' l', free_route (E := Error) a key = Ok a'
  /\ Inv a' Q l' ls /\ evolves (table a) (table a') /\ gone (table a') key.
Proof.
  intros Hi Ho. pose proof (slot_range a Q l ls key Hi Ho) as Hb. destruct Ho as (c & Hc & Hg & Hk). set (c1 := on_state (set_kind Reserved) c).
  destruct (inv_put a Q l ls (index key) c c1 Hi Hc) as [Hi1 He1]; [by apply (plain_kind c Dispatch)|by rewrite Hk|by rewrite Hk|by apply reserved_plain|done| |].
  { apply ages_same; [done|by rewrite Hk]. }
  set (s1 := put (table a) (index key) c1) in *. unfold free_route, unroute. rewrite edit_at, Hc. cbn [bind]. fold c1 s1.
  destruct (DrainFacts.clear_sets (E := Error) (ready a) (index key - 1) (in_ready _ _ _ _ Hi) Hb) as (r' & Hr & Hset). rewrite Hr. cbn [bind].
  pose proof (inv_ready (with_table a s1) Q l ls r' Hi1 (SetFacts.st_sound _ _ _ _ Hset) (SetFacts.st_cap _ _ _ _ Hset)) as Hi2.
  assert (Hc1 : at_ s1 (index key) = Some c1) by (by eapply at_put_eq).
  destruct (inv_recycle (E := Error) (with_ready (with_table a s1) r') Q l ls key c1 Hi2 Hc1 eq_refl) as (p' & d' & l' & Hrec & Hi3 & He3 & Hd' & Hrc).
  change (recycle (E := Error) (pool a) s1 key = Ok (p', put s1 (index key) d')) in Hrec. rewrite Hrec. cbn [bind]. eexists _, l'. split; [done|].
  split; [exact Hi3|]. split; [by eapply evolves_trans|]. by eapply recycled_gone.
Qed.
Lemma drop_admission_spec a Q l ls key : Inv a Q l ls -> owns (table a) key Reserved -> exists a' l', drop_admission a key = Ok a'
  /\ Inv a' Q l' ls /\ evolves (table a) (table a').
Proof.
  intros Hi (c & Hc & Hg & Hk). destruct (inv_recycle (E := Error) a Q l ls key c Hi Hc Hk) as (p' & d' & l' & Hrec & Hi' & He & _).
  unfold drop_admission. rewrite Hrec. cbn [bind]. by eexists _, l'.
Qed.

(** A task leaves its topology. *)
Lemma inv_detach a Q l ls key : Inv a Q l ls -> owns (table a) key Task -> exists Q' held s' c', task_detach (E := Error) (table a) key = Ok (key, held, s')
  /\ Inv (with_table a s') Q' l ls /\ evolves (table a) s' /\ at_ s' (index key) = Some c' /\ kind (c_state c') = Reserved /\ generation (c_state c') = epoch key
  /\ match held with Some k => index k <> index key /\ exists r, at_ s' (index k) = Some r /\ kind (c_state r) = Reserved | None => True end.
Proof.
  intros Hi (c & Hc & Hg & Hk). pose proof (in_sound _ _ _ _ Hi) as Hs. destruct (so_task _ _ Hs _ c Hc Hk) as [q Hq]. set (root := topology (task_record (c_payload c))) in *.
  destruct (sound_detach (E := Error) (table a) Q root q key c Hs Hq Hc ltac:(done)) as (r & s' & c' & Hr & Hkr & Hd & Hs' & Hc' & Hst & (r' & Hr' & Hgr & Hkr') & Hfr & Hev & Hsp).
  eexists _, _, s', c'. split; [exact Hd|]. split; [|split; [done|split; [done|split; [by rewrite Hst|split; [by rewrite Hst|]]]]].
  - eapply (wake_inv_step a Q l ls); [done|done|eapply accounts_spares; [apply Hi|done|apply Hs']|exact Hs'| |apply Hi|done].
    eapply parents_kept; [apply Hi|]. intros j d Hj Hkd. destruct (decide (j = root)) as [->|Hjr]; [rewrite Hr' in Hj; injection Hj as <-; rewrite Hkr' in Hkd; by destruct (last_out _ _)|].
    destruct (decide (j = index key)) as [->|Hjk]; [rewrite Hc' in Hj; injection Hj as <-; by rewrite Hst in Hkd|].
    specialize (Hfr j Hjr Hjk). destruct (at_ (table a) j) as [e|]; [|congruence]. destruct Hfr as (e' & He' & Hch). rewrite Hj in He'. injection He' as <-.
    exists e. split; [done|]. by destruct Hch as [->|[_ ?]].
  - destruct (last_out q (index key)); [|done]. cbn [index]. split; [intros Hx; rewrite Hx in Hr; congruence|by exists r'].
Qed.
(** Where a topology came free, it is recycled. *)
Lemma inv_root a Q l ls held i c : Inv a Q l ls -> at_ (table a) i = Some c ->
  match held with Some k => index k <> i /\ exists r, at_ (table a) (index k) = Some r /\ kind (c_state r) = Reserved | None => True end -> exists p' s' l',
  match held with Some root => recycle (E := Error) (pool a) (table a) root | None => Ok (pool a, table a) end = Ok (p', s')
  /\ Inv (with_pool a s' p') Q l' ls /\ evolves (table a) s' /\ at_ s' i = Some c.
Proof.
  intros Hi Hc Hh. destruct held as [k|].
  - destruct Hh as [Hne (r & Hr & Hk)]. destruct (inv_recycle (E := Error) a Q l ls k r Hi Hr Hk) as (p' & d' & l' & Hrec & Hi' & He & _).
    exists p', (put (table a) (index k) d'), l'. split; [done|]. split; [done|]. split; [done|]. by rewrite (at_put_ne _ (index k) r).
  - exists (pool a), (table a), l. split; [done|]. split; [by destruct a|]. split; [apply evolves_refl|done].
Qed.
Lemma drop_task_spec a Q l ls key : Inv a Q l ls -> owns (table a) key Task -> exists a' Q' l', drop_task a key = Ok a'
  /\ Inv a' Q' l' ls /\ evolves (table a) (table a') /\ gone (table a') key.
Proof.
  intros Hi Ho. destruct (inv_detach a Q l ls key Hi Ho) as (Q' & held & s1 & c1 & Hd & Hi1 & He1 & Hc1 & Hk1 & Hg1 & Hheld).
  destruct (inv_recycle (E := Error) (with_table a s1) Q' l ls key c1 Hi1 Hc1 Hk1) as (p2 & d2 & l2 & Hrec & Hi2 & He2 & Hd2 & Hrc2).
  unfold drop_task, free_task. rewrite Hd. cbn [bind]. change (recycle (E := Error) (pool a) s1 key = Ok (p2, put s1 (index key) d2)) in Hrec. rewrite Hrec. cbn [bind].
  set (a2 := with_pool (with_table a s1) _ p2) in *.
  destruct (inv_root a2 Q' l2 ls held (index key) d2 Hi2 Hd2) as (p3 & s3 & l3 & Hr3 & Hi3 & He3 & Hd3).
  { destruct held as [k|]; [|done]. destruct Hheld as [Hne (r & Hr & Hk)]. split; [done|]. exists r. split; [|done]. change (at_ (put s1 (index key) d2) (index k) = Some r).
    by rewrite (at_put_ne _ (index key) c1). }
  change (match held with Some root => recycle (E := Error) p2 (put s1 (index key) d2) root | None => Ok (p2, put s1 (index key) d2) end = Ok (p3, s3)) in Hr3. rewrite Hr3. cbn [bind].
  eexists _, Q', l3. split; [done|]. split; [exact Hi3|]. split; [by eapply evolves_trans; [|eapply evolves_trans]|]. by eapply recycled_gone.
Qed.
Lemma drop_endpoint_spec a Q l ls key : Inv a Q l ls -> owns (table a) key Topology -> exists a' Q' l', drop_endpoint a key = Ok a'
  /\ Inv a' Q' l' ls /\ evolves (table a) (table a').
Proof.
  intros Hi (c & Hc & Hg & Hk). pose proof (in_sound _ _ _ _ Hi) as Hs. destruct (so_topology _ _ Hs _ c Hc Hk) as [q Hq].
  destruct (sound_close (E := Error) (table a) Q key q Hs Hq) as (s1 & Hcl & Hs1 & (r & r' & Hr & Hr' & Hgr & Hkr) & Hfr & He1 & Hsp).
  unfold drop_endpoint, release_root. rewrite Hcl. cbn [bind]. set (Q1 := if bool_decide (members q = []) then delete (index key) Q else <[index key := q_close q]> Q) in *.
  assert (Hi1 : Inv (with_table a s1) Q1 l ls).
  { eapply (wake_inv_step a Q l ls); [done|done|eapply accounts_spares; [apply Hi|done|apply Hs1]|exact Hs1| |apply Hi|done].
    eapply parents_kept; [apply Hi|]. intros j d Hj Hkd. destruct (decide (j = index key)) as [->|Hjr]; [rewrite Hr' in Hj; injection Hj as <-; rewrite Hkr in Hkd; by case_bool_decide|].
    specialize (Hfr j Hjr). destruct (at_ (table a) j) as [e|]; [|congruence]. destruct Hfr as (e' & He' & Hch). rewrite Hj in He'. injection He' as <-.
    exists e. split; [done|]. by destruct Hch as [->|[_ ?]]. }
  case_bool_decide.
  - destruct (inv_recycle (E := Error) (with_table a s1) Q1 l ls key r' Hi1 Hr' Hkr) as (p2 & d2 & l2 & Hrec & Hi2 & He2 & _).
    change (recycle (E := Error) (pool a) s1 key = Ok (p2, put s1 (index key) d2)) in Hrec. rewrite Hrec. cbn [bind]. eexists _, Q1, l2. split; [done|].
    split; [exact Hi2|by eapply evolves_trans].
  - eexists _, Q1, l. split; [done|]. by split.
Qed.

(** *** Leases *)

Lemma insert_perm {A} (xs : list A) k x y : xs !! k = Some x -> <[k := y]> xs ≡ₚ y :: delete k xs.
Proof.
  intros Hk. rewrite (delete_Permutation (<[k := y]> xs) k y) by (apply list_lookup_insert_eq; by eapply lookup_lt_Some).
  assert (Hd : delete k (<[k := y]> xs) = delete k xs); [|by rewrite Hd]. revert k Hk. induction xs as [|z xs IH]; intros [|k] Hk; try done. simpl. f_equal. by apply IH.
Qed.
(** The lease that is used, and putting it back. *)
Lemma lease_out a Q l ls k lc : Inv a Q l ls -> ls !! k = Some lc -> accounts (table a) (pool a) l (chain_of lc) lc (delete k ls).
Proof. intros Hi Hk. apply accounts_pick. eapply accounts_perm; [|apply Hi]. by apply delete_Permutation. Qed.
Lemma lease_in s p l ls k lc lc' : ls !! k = Some lc -> accounts s p l (chain_of lc') lc' (delete k ls) -> accounts s p l None [] (<[k := lc']> ls).
Proof. intros Hk Ha. eapply accounts_perm; [symmetry; by eapply insert_perm|]. by apply accounts_pick. Qed.
Lemma on_lease_kept a Q l ls k (f : Chain -> run Error (Chain * Arena P)) : Inv a Q l ls ->
  (forall lc, ls !! k = Some lc -> match f (chain_of lc) with
     | Ok (c, a') => exists Q' l' lc', c = chain_of lc' /\ Inv a' Q' l' (<[k := lc']> ls) /\ evolves (table a) (table a')
     | Err _ => True
     | Stuck _ => False
     end) -> kept a (on_lease (chain_of <$> ls) k f a).
Proof.
  intros Hi Hf. unfold on_lease. rewrite list_lookup_fmap. destruct (ls !! k) as [lc|] eqn:Ek; cbn [fmap option_fmap option_map].
  - specialize (Hf lc eq_refl). destruct (f (chain_of lc)) as [[c a']| |]; [|done..]. destruct Hf as (Q' & l' & lc' & -> & Hi' & He). cbn [bind].
    rewrite <- list_fmap_insert. by eapply kept_ok.
  - eapply kept_ok; [done|apply evolves_refl].
Qed.
Lemma inv_relinks a Q l ls l' ls' s' p' : Inv a Q l ls -> relinks (table a) s' -> accounts s' p' l' None [] ls' ->
  Inv (with_pool a s' p') Q l' ls' /\ evolves (table a) s'.
Proof.
  intros Hi Hr Ha. assert (He : evolves (table a) s') by (by apply relinks_evolves). split; [|done]. destruct Hr as [->|(t & c & c' & Hc & -> & Hk & Hst)].
  - eapply (wake_inv_step a Q l ls); [done|done|done|apply Hi|apply Hi|apply Hi|done].
  - destruct (inv_pool a Q l ls l' ls' t c c' p' Hi Hc) as [H1 _]; [by apply free_plain|by rewrite Hk|by apply (plain_kind c' Free); [rewrite Hst|..]| |done|done].
    rewrite Hst. apply word_ages_refl.
Qed.
Lemma keep_lease a Q l ls n : Inv a Q l ls -> 0 <= n -> kept a (run_op (OLease n) a (chain_of <$> ls)).
Proof.
  intros Hi Hn. cbn [run_op]. unfold lease_new. destruct (Z.eqb_spec n 0); [done|].
  pose proof (accounts_take _ _ _ _ _ _ (Z.to_nat n) (in_accounts _ _ _ _ Hi) ltac:(lia)) as Ht. rewrite Z2Nat.id in Ht by lia.
  case_bool_decide; [|by rewrite Ht]. destruct Ht as (c' & p' & s' & Ht & Ha & Hrl). rewrite Ht. cbn [bind].
  pose proof (ac_lease _ _ _ _ _ _ Ha) as ->. change (chain_of ?x :: (chain_of <$> ls)) with (chain_of <$> (x :: ls)).
  assert (Ha' : accounts s' p' (drop (Z.to_nat n) l) None [] (list.take (Z.to_nat n) l :: ls)).
  { apply accounts_pick in Ha. eapply (accounts_perm _ _ _ _ _ _ (([] : list Z) :: list.take (Z.to_nat n) l :: ls)) in Ha; [|apply Permutation_swap].
    by apply accounts_pick in Ha. }
  destruct (inv_relinks a Q l ls _ _ s' p' Hi Hrl Ha') as [Hi' He]. by eapply kept_ok.
Qed.
Lemma keep_lease_admit a Q l ls k : Inv a Q l ls -> kept a (run_op (OLeaseAdmit k) a (chain_of <$> ls)).
Proof.
  intros Hi. cbn [run_op]. eapply on_lease_kept; [done|]. intros lc Hk. pose proof (lease_out a Q l ls k lc Hi Hk) as Ha. unfold lease_admit.
  pose proof (accounts_chain_claim (E := Error) _ _ _ _ _ _ Ha) as Hc. destruct lc as [|i lc']; [by rewrite Hc|].
  destruct Hc as (e & c' & s' & Hc & He & Hke & -> & Ha'). rewrite Hc. cbn [bind ok_or]. exists Q, l, lc'. split; [apply Ha'|].
  eapply inv_pool; [done|done|by apply free_plain|by rewrite Hke|by apply reserved_plain|by apply ages_same; [|rewrite Hke]|].
  eapply lease_in; [done|]. by rewrite <- (ac_lease _ _ _ _ _ _ Ha').
Qed.
(** A reserved cell goes back to its lease. *)
Lemma lease_back a Q l ls k lc key : Inv a Q l ls -> ls !! k = Some lc -> owns (table a) key Reserved -> exists s' lc',
  chain_restore (E := Error) (chain_of lc) (table a) key = Ok (chain_of lc', s') /\ Inv (with_table a s') Q l (<[k := lc']> ls) /\ evolves (table a) s'.
Proof.
  intros Hi Hk (d & Hd & Hg & Hkd). pose proof (lease_out a Q l ls k lc Hi Hk) as Ha.
  destruct (accounts_chain_restore (E := Error) _ _ _ _ _ _ key d Ha Hd Hkd) as (c' & s' & d' & Hr & -> & Hst & Ha').
  pose proof (ac_lease _ _ _ _ _ _ Ha') as ->. eexists _, _. split; [exact Hr|].
  apply (inv_pool a Q l ls l _ (index key) d d' (pool a) Hi Hd); [by apply reserved_plain|by rewrite Hkd|by apply free_plain; rewrite Hst| |by eapply lease_in].
  apply ages_same; [by rewrite Hst|by rewrite Hkd].
Qed.
Lemma reclaim_spec a Q l ls key : Inv a Q l ls -> owns (table a) key Task -> exists x a' Q' l', reclaim_task (E := Error) a key = Ok (x, a')
  /\ Inv a' Q' l' ls /\ evolves (table a) (table a') /\ gone (table a') key /\ match x with Reusable k => owns (table a') k Reserved | RRetired => True end.
Proof.
  intros Hi Ho. destruct (inv_detach a Q l ls key Hi Ho) as (Q' & held & s1 & c1 & Hd & Hi1 & He1 & Hc1 & Hk1 & Hg1 & Hheld).
  destruct (inv_root (with_table a s1) Q' l ls held (index key) c1 Hi1 Hc1 Hheld) as (p2 & s2 & l2 & Hr2 & Hi2 & He2 & Hc2).
  change (match held with Some root => recycle (E := Error) (pool a) s1 root | None => Ok (pool a, s1) end = Ok (p2, s2)) in Hr2.
  unfold reclaim_task. rewrite Hd. cbn [bind]. rewrite Hr2. cbn [bind]. unfold renew. rewrite resident_at, Hc2. cbn [bind].
  change (with_pool (with_table a s1) s2 p2) with (with_pool a s2 p2) in Hi2. pose proof (in_range _ _ _ _ Hi2 (index key) c1 Hc2) as Hrange.
  destruct (gen_next (generation (c_state c1))) as [g|] eqn:Eg; rewrite edit_at, Hc2; cbn [bind].
  - pose proof (gen_next_more _ _ Hrange Eg) as Hlt. set (c3 := on_state (set_epoch g) c1).
    destruct (inv_put (with_pool a s2 p2) Q' l2 ls (index key) c1 c3 Hi2 Hc2) as [Hi3 He3]; [by apply reserved_plain|by rewrite Hk1|by rewrite Hk1|by apply reserved_plain|cbn; by rewrite Hk1| |].
    { split; cbn; [lia|lia|by rewrite Hk1]. }
    eexists _, _, Q', l2. split; [done|]. split; [exact Hi3|]. split; [by eapply evolves_trans; [|eapply evolves_trans]|].
    assert (Hc3 : at_ (put s2 (index key) c3) (index key) = Some c3) by (by eapply at_put_eq).
    split; [exists c3; split; [done|left; cbn; lia]|]. exists c3. by split.
  - set (c3 := on_state (set_kind Retired) c1).
    destruct (inv_put (with_pool a s2 p2) Q' l2 ls (index key) c1 c3 Hi2 Hc2) as [Hi3 He3]; [by apply reserved_plain|by rewrite Hk1|by rewrite Hk1|by apply (plain_kind c3 Retired)|done| |].
    { apply ages_same; [done|by rewrite Hk1]. }
    eexists _, _, Q', l2. split; [done|]. split; [exact Hi3|]. split; [by eapply evolves_trans; [|eapply evolves_trans]|].
    split; [|done]. exists c3. split; [by eapply at_put_eq|]. by right.
Qed.
Lemma keep_lease_drop a Q l ls k : Inv a Q l ls -> kept a (run_op (OLeaseDrop k) a (chain_of <$> ls)).
Proof.
  intros Hi. cbn [run_op]. eapply on_lease_kept; [done|]. intros lc Hk. unfold lease_drop.
  destruct (accounts_restore (E := Error) _ _ _ _ _ _ (lease_out a Q l ls k lc Hi Hk)) as (p' & s' & Hr & Ha & Hrl). rewrite Hr. cbn [bind].
  exists Q, (lc ++ l), []. split; [done|]. eapply inv_relinks; [done|done|]. by eapply (lease_in _ _ _ _ _ lc []).
Qed.

(** *** Drains of a topology *)

Lemma keep_table a Q l ls root (m : run Error Slots) : Inv a Q l ls -> owns (table a) root Topology ->
  (forall q r, holds (table a) (index root) r q -> exists s' r' q', m = Ok s' /\ holds s' (index root) r' q' /\ wf s' /\ within (index root) (table a) s' /\ c_state r' = c_state r) ->
  kept a (on_table a (chain_of <$> ls) m).
Proof.
  intros Hi (c & Hc & Hg & Hk) Hm. pose proof (in_sound _ _ _ _ Hi) as Hs. destruct (so_topology _ _ Hs _ c Hc Hk) as [q Hq].
  destruct (so_queue _ _ Hs _ q Hq) as (r & Hh). destruct (Hm q r Hh) as (s' & r' & q' & -> & Hh' & Hw' & Hwi & Hst).
  destruct (queue_kind _ _ _ _ Hh) as [Hr Hkr], (queue_kind _ _ _ _ Hh') as [Hr' Hkr'].
  assert (He : evolves (table a) s') by (by eapply within_evolves). unfold on_table. cbn [bind]. eapply kept_ok; [|done].
  eapply (wake_inv_step a Q l ls); [done|done| |by eapply sound_within| |apply Hi|done].
  - eapply accounts_spares; [apply Hi|eapply within_spares; [done..|by rewrite Hkr]|done].
  - eapply parents_kept; [apply Hi|]. intros j d Hj Hkd. assert (j <> index root) by (intros ->; congruence). by eapply within_back.
Qed.
Lemma pop_any s root r q x : wf s -> holds s root r q -> exists o s' r' q', Topo.pop (E := Error) s root x = Ok (o, s') /\ holds s' root r' q' /\ wf s'
  /\ within root s s' /\ c_state r' = c_state r.
Proof.
  intros Hw Hh. unfold Topo.pop. rewrite (lane_head_spec _ _ _ _ _ Hh). cbn [bind]. destruct (lane q x) as [|i b] eqn:El; cbn [List.hd_error].
  { exists None, s, r, q. split; [done|]. split; [done|]. split; [done|]. split; [apply within_refl|done]. }
  assert (Hi : i ∈ lane q x) by (rewrite El; by left). destruct (remove_queue (E := Error) s root r q x i Hw Hh Hi) as (s' & r' & c' & Hr & Hh' & Hw' & Hwi & Hst & _).
  destruct (seg_task _ _ _ _ _ _ _ (la_seg _ _ _ _ (ho_lanes _ _ _ _ Hh) _) Hi) as (c & Hc & Ht & _).
  rewrite resident_at, Hc. cbn [bind]. rewrite Hr. cbn [bind]. by eexists _, s', r', _.
Qed.
Lemma keep_drain a Q l ls root : Inv a Q l ls -> owns (table a) root Topology -> kept a (run_op (OBegin root) a (chain_of <$> ls))
  /\ (forall x, kept a (run_op (OPop root x) a (chain_of <$> ls))) /\ kept a (run_op (OFinish root) a (chain_of <$> ls)).
Proof.
  intros Hi Ho. pose proof (so_wf _ _ (in_sound _ _ _ _ Hi)) as Hw. split; [|split; [intros x|]]; cbn [run_op]; (eapply keep_table; [done|done|]); intros q r Hh.
  - destruct (begin_spec (E := Error) _ _ _ _ Hw Hh) as (s' & r' & Hb). destruct (q_begin q) as [b q']. destruct Hb as (Hb & Hh' & Hw' & Hwi & Hst).
    rewrite Hb. by exists s', r', q'.
  - destruct (pop_any _ _ _ _ x Hw Hh) as (o & s' & r' & q' & Hp & Hrest). rewrite Hp. by exists s', r', q'.
  - destruct (finish_spec (E := Error) _ _ _ _ Hw Hh) as (s' & r' & Hf & Hrest). rewrite Hf. by exists s', r', (q_finish q).
Qed.

(** ** Every step *)

Lemma keep_all a Q l ls o : Inv a Q l ls -> allowed o a -> kept a (run_op o a (chain_of <$> ls)).
Proof.
  intros Hi Ha. destruct o as [t| |parent|parent held root local|key|key|key|key|key|key|key|n|k|k key|k key|k|root|root side|root].
  - by eapply keep_slot.
  - by eapply keep_endpoint.
  - by eapply keep_admit.
  - by eapply keep_bind.
  - by eapply keep_wake.
  - by eapply keep_activate.
  - by eapply keep_take.
  - cbn [run_op]. destruct (free_spec a Q l ls key Hi Ha) as (a' & l' & Hf & Hi' & He & _). rewrite Hf. by eapply kept_ok.
  - cbn [run_op]. destruct (drop_task_spec a Q l ls key Hi Ha) as (a' & Q' & l' & Hf & Hi' & He & _). rewrite Hf. by eapply kept_ok.
  - cbn [run_op]. destruct (drop_endpoint_spec a Q l ls key Hi Ha) as (a' & Q' & l' & Hf & Hi' & He). rewrite Hf. by eapply kept_ok.
  - cbn [run_op]. destruct (drop_admission_spec a Q l ls key Hi Ha) as (a' & l' & Hf & Hi' & He). rewrite Hf. by eapply kept_ok.
  - by eapply keep_lease.
  - by eapply keep_lease_admit.
  - cbn [run_op]. eapply on_lease_kept; [done|]. intros lc Hk. destruct (lease_back a Q l ls k lc key Hi Hk Ha) as (s' & lc' & Hr & Hi' & He).
    rewrite Hr. cbn [bind]. by exists Q, l, lc'.
  - cbn [run_op]. eapply on_lease_kept; [done|]. intros lc Hk. destruct (reclaim_spec a Q l ls key Hi Ha) as (x & a1 & Q1 & l1 & Hr & Hi1 & He1 & _ & Hx).
    rewrite Hr. cbn [bind]. unfold lease_reclaim. destruct x as [held|].
    + destruct (lease_back a1 Q1 l1 ls k lc held Hi1 Hk Hx) as (s' & lc' & Hr' & Hi' & He'). rewrite Hr'. cbn [bind]. exists Q1, l1, lc'.
      split; [done|]. split; [done|by eapply evolves_trans].
    + exists Q1, l1, lc. split; [done|]. split; [by rewrite list_insert_id|done].
  - by eapply keep_lease_drop.
  - by eapply keep_drain.
  - by eapply keep_drain.
  - by eapply keep_drain.
Qed.

(** Histories of allowed steps; a step that is refused changes nothing. *)
Inductive reaches : Arena P * list Chain -> Arena P * list Chain -> Prop :=
| reaches_refl x : reaches x x
| reaches_step o a cs a' cs' x : allowed o a -> run_op o a cs = Ok (a', cs') -> reaches (a', cs') x -> reaches (a, cs) x.
Lemma reaches_inv x y : reaches x y -> forall Q l ls, Inv x.1 Q l ls -> x.2 = chain_of <$> ls ->
  exists Q' l' ls', Inv y.1 Q' l' ls' /\ y.2 = chain_of <$> ls' /\ evolves (table x.1) (table y.1).
Proof.
  induction 1 as [x|o a cs a' cs' x Ha Hr Hx IH]; intros Q l ls Hi Hcs; cbn [fst snd] in *.
  - exists Q, l, ls. split; [done|]. split; [done|apply evolves_refl].
  - subst cs. pose proof (keep_all a Q l ls o Hi Ha) as Hk. rewrite Hr in Hk. destruct Hk as (Q1 & l1 & ls1 & Hi1 & -> & He1).
    destruct (IH Q1 l1 ls1 Hi1 eq_refl) as (Q2 & l2 & ls2 & Hi2 & Hcs2 & He2). exists Q2, l2, ls2. split; [done|]. split; [done|by eapply evolves_trans].
Qed.
Lemma new_inv files ready y : layout_new files ready = Ok y -> 0 <= files -> 0 <= ready -> Inv (arena_new y) ∅ (seqZ (files + 1) ready) [].
Proof.
  intros Hy Hf Hr. pose proof (new_accounts files ready y Hy Hf Hr) as Ha. pose proof (fun i => new_at files ready y i Hy Hf Hr) as Hat.
  assert (Hl : y = layout files ready (files + ready) /\ 0 < files + ready <= 65535).
  { unfold layout_new in Hy. destruct (Z.ltb_spec 65535 (files + ready)); [done|]. destruct (Z.eqb_spec (files + ready) 0); [done|]. injection Hy as <-. split; [f_equal; lia|lia]. }
  destruct Hl as [-> Hcap]. assert (Hst : forall i c, at_ (slots_new (layout files ready (files + ready))) i = Some c ->
    exists k, c_state c = state GEN_INITIAL k None /\ (k = Free \/ k = Retired)).
  { intros i c Hc. destruct (Hat i) as (c0 & Hc0 & Hs0 & _). rewrite Hc0 in Hc. destruct (_ && _) in Hc; [|done]. injection Hc as <-. eexists. split; [exact Hs0|].
    destruct (i <=? files + ready); [by left|by right]. }
  destruct (SetFacts.new_sound (P := P) (files + ready)) as [Hset _]; [lia|]. split; cbn [table pool ReadyArena.Arena.ready arena_new]; try done.
  - split; [apply Ha|done| |]; intros i c Hc Hk; destruct (Hst i c Hc) as (k & Hs & [-> | ->]); by rewrite Hs in Hk.
  - intros i c Hc. destruct (Hst i c Hc) as (k & -> & _). apply gen_initial.
  - intros i Hi. cbn [descriptor_end capacity slots_new descriptors l_capacity] in Hi. destruct (Hat i) as (c & Hc & _). rewrite Hc.
    assert (Hb : (files <? i) && (i <=? files + 2 * ((ready + 1) / 2)) = true) by (apply andb_true_iff; rewrite Z.ltb_lt, Z.leb_le; zdiv). rewrite Hb. by eexists.
  - cbn. lia.
  - intros i c Hc Hk. destruct (Hst i c Hc) as (k & Hs & [-> | ->]); by rewrite Hs in Hk.
Qed.
(** A key that is gone names nothing. *)
Lemma gone_nothing a Q l ls key : Inv a Q l ls -> is_code (index key) -> descriptor_end (table a) < index key <= capacity (table a) -> gone (table a) key ->
  forall E, resolve (E := E) target_for a key = Ok None.
Proof.
  intros Hi Hk Hb (c & Hc & Hcase) E. unfold resolve. destruct (Z.ltb_spec (index key - 1) (descriptor_end (table a))); [lia|].
  destruct (Z.leb_spec (capacity (table a)) (index key - 1)); [lia|]. rewrite resident_at, Hc. cbn [bind].
  destruct (Z.eqb_spec (generation (c_state c)) (epoch key)) as [Hg|Hg]; [|done]. cbn [negb]. destruct Hcase as [Hlt|Hr]; [lia|by rewrite Hr].
Qed.
End steps.

Section theorems.
Context {P : Type} `{BL : BitmapLaws P} `{GL : GenerationsLaws}.
Context (target_for : Z -> Z -> option (Token.Token unit)).
Implicit Types (a : Arena P) (Q : gmap Z Queue) (cs : list Chain).

(** C3. No history of the arena gets stuck. From a new arena of any layout, after
    any steps that the owners of keys can take - making slots, topologies and
    tasks, waking, draining, freeing, leasing, in any order - the arena is sound:
    the pool and the leases hold every free cell once, every topology stands for
    a queue of its own tasks, every task belongs to one, the ready set is as
    large as the table. And whatever is done next ends in such an arena again or
    is refused; it never panics, reads outside the cells, or runs out of fuel. *)
Theorem arena_never_stuck files ready y a cs : layout_new files ready = Ok y -> 0 <= files -> 0 <= ready ->
  reaches target_for (arena_new y, []) (a, cs) ->
  (exists Q l ls, Inv a Q l ls /\ cs = chain_of <$> ls)
  /\ forall o, allowed o a -> match run_op target_for o a cs with
     | Ok (a', cs') => exists Q l ls, Inv a' Q l ls /\ cs' = chain_of <$> ls
     | Err _ => True
     | Stuck _ => False
     end.
Proof.
  intros Hy Hf Hr Hre. destruct (reaches_inv target_for _ _ Hre _ _ [] (new_inv target_for files ready y Hy Hf Hr) eq_refl) as (Q & l & ls & Hi & Hcs & _).
  cbn [fst snd] in Hi, Hcs. split; [by exists Q, l, ls|]. intros o Ho. subst cs. pose proof (keep_all target_for a Q l ls o Hi Ho) as Hk.
  destruct (run_op target_for o a (chain_of <$> ls)) as [[a' cs']| |]; [|done..]. destruct Hk as (Q' & l' & ls' & Hi' & Hcs' & _). by exists Q', l', ls'.
Qed.

(** Steps that give up the key they are given. *)
Definition releases (o : Op) (cs : list Chain) (key : Stored) : Prop :=
  match o with
  | OFreeSlot k | ODropTask k => k = key
  | OReclaim i k => k = key /\ (i < length cs)%nat
  | _ => False
  end.

(** C5. A key that was given up never names anything again. Once a dispatch slot
    is freed, or a task is dropped or reclaimed, its key resolves to nothing,
    after any later history - even when its cell is handed out again and again,
    and even when its generations are used up. So a late wake with the key leaves
    the arena as it is, a retained activation is refused, and a task is not
    admitted below it. *)
Theorem stale_keys_ignored a Q l ls o key a1 cs1 a2 cs2 : Inv a Q l ls -> allowed o a -> releases o (chain_of <$> ls) key ->
  run_op target_for o a (chain_of <$> ls) = Ok (a1, cs1) -> reaches target_for (a1, cs1) (a2, cs2) ->
  (forall E, resolve (E := E) target_for a2 key = Ok None)
  /\ (forall E fuel, complete (E := E) target_for (S fuel) a2 key = Ok a2)
  /\ (forall E, try_retained (E := E) target_for a2 key = Ok (false, a2))
  /\ (forall max, validate target_for a2 key max = Err ParentStale).
Proof.
  intros Hi Ha Hrel Hrun Hre. pose proof (keep_all target_for a Q l ls o Hi Ha) as Hk. rewrite Hrun in Hk. destruct Hk as (Q1 & l1 & ls1 & Hi1 & -> & He1).
  assert (Hcell : exists c, at_ (table a) (index key) = Some c /\ kind (c_state c) <> Retired).
  { destruct o; cbn in Hrel; try done; [subst; destruct Ha as (c & Hc & _ & Hkc); exists c; by rewrite Hkc..|].
    destruct Hrel as [-> _]. destruct Ha as (c & Hc & _ & Hkc). exists c. by rewrite Hkc. }
  assert (Hgone : gone (table a1) key).
  { destruct o as [| | | | | | |k|k| | | | | |i k| | | |]; cbn [releases] in Hrel; try done.
    - subst k. destruct (free_spec a Q l ls key Hi Ha) as (a' & l' & Hf & _ & _ & Hg). cbn [run_op] in Hrun. rewrite Hf in Hrun. by injection Hrun as <- _.
    - subst k. destruct (drop_task_spec a Q l ls key Hi Ha) as (a' & Q' & l' & Hf & _ & _ & Hg). cbn [run_op] in Hrun. rewrite Hf in Hrun. by injection Hrun as <- _.
    - destruct Hrel as [-> Hlt]. destruct (reclaim_spec a Q l ls key Hi Ha) as (x & a' & Q' & l' & Hf & Hi' & He' & Hg & Hx). cbn [run_op] in Hrun. unfold on_lease in Hrun.
      destruct (lookup_lt_is_Some_2 (chain_of <$> ls) i Hlt) as [c Hc]. rewrite Hc, Hf in Hrun. cbn [bind] in Hrun. rewrite list_lookup_fmap in Hc.
      destruct (ls !! i) as [lc|] eqn:El; [|done]. injection Hc as <-. unfold lease_reclaim in Hrun. destruct x as [held|].
      + destruct (lease_back a' Q' l' ls i lc held Hi' El Hx) as (s' & lc' & Hr' & _ & He''). rewrite Hr' in Hrun. injection Hrun as <- _. by eapply gone_evolves.
      + by injection Hrun as <- _. }
  destruct (reaches_inv target_for _ _ Hre Q1 l1 ls1 Hi1 eq_refl) as (Q2 & l2 & ls2 & Hi2 & _ & He2). cbn [fst snd] in *.
  destruct Hcell as (c & Hc & Hkc). destruct (wf_code _ _ c (so_wf _ _ (in_sound _ _ _ _ Hi)) Hc Hkc) as [Hcode Hbound].
  assert (Hnone : forall E, resolve (E := E) target_for a2 key = Ok None).
  { eapply gone_nothing; [done|done| |by eapply gone_evolves].
    rewrite (ev_end _ _ He2), (ev_capacity _ _ He2), (ev_end _ _ He1), (ev_capacity _ _ He1). done. }
  split; [done|]. split; [intros E fuel; cbn [complete]; by rewrite Hnone|]. split; [intros E; unfold try_retained, try_index; by rewrite Hnone|].
  intros max. unfold validate. destruct (Z.to_nat max); cbn [validate_loop]; unfold task_parent; by rewrite Hnone.
Qed.
End theorems.
End Steps.
