(* ===== verification/ArenaExamples.v ===== *)
(** * The ready arena on small inputs.

    The theorems on topologies, wakes, parents and histories applied to a table of
    one descriptor and five cells: a topology, a task below the descriptor, and a
    task below that task. *)

From stdpp Require Import gmap.
From S2P Require Import Prelude Routes ReadySet ReadySetFacts ReadyArena ArenaFacts LanesFacts TopologyFacts WakeFacts ArenaLaws ArenaRuns.

Module ArenaExamples.
Import Cells CellFacts ChainFacts FreePool Topo LaneFacts QueueFacts Arena Tables Wakes Steps Planes64 Generation32 TopologyLaws.

Definition tok : Token.Token unit := Token.token 0 tt 0.
Definition target (i g : Z) : option (Token.Token unit) := if (i =? 0) && (g =? 0) then Some tok else None.
Definition lay : Layout := layout 1 5 6.
Definition new : Arena Plane := arena_new lay.
Definition key (i : Z) : Stored := stored i 0.

Definition setup : list Op := [OEndpoint; OAdmit (key 1); OBind (key 1) (key 3) (key 2) 7; OAdmit (key 3); OBind (key 3) (key 4) (key 2) 9].
Fixpoint play (os : list Op) (x : Arena Plane * list Chain) : run Error (Arena Plane * list Chain) :=
  match os with [] => Ok x | o :: os => let! x := run_op target o x.1 x.2 in play os x end.
Definition after (os : list Op) : Arena Plane * list Chain := match play os (new, []) with Ok x => x | _ => (new, []) end.
Definition ready_up : Arena Plane := (after setup).1.
Definition woken : Arena Plane := (after (setup ++ [OWake (key 4)])).1.

(** What is allowed, decided. *)
Definition ownsb (s : Slots) (k : Stored) (kd : Kind) : bool :=
  match at_ s (index k) with Some c => (generation (c_state c) =? epoch k) && bool_decide (kind (c_state c) = kd) | None => false end.
Lemma ownsb_owns s k kd : ownsb s k kd = true -> owns s k kd.
Proof.
  unfold ownsb, owns. destruct (at_ s (index k)) as [c|]; [|done]. rewrite andb_true_iff, Z.eqb_eq, bool_decide_eq_true. intros [? ?]. by exists c.
Qed.
Definition code (k : Stored) : bool := (0 <? index k) && (index k <? 65536).
Definition u32 (z : Z) : bool := (0 <=? z) && (z <? 2 ^ 32).
Definition allowedb (o : Op) (a : Arena Plane) : bool :=
  let own := ownsb (table a) in
  match o with
  | OSlot _ | OEndpoint => true
  | OAdmit parent => code parent
  | OBind parent held root local => code parent && u32 (epoch parent) && own held Reserved && own root Topology && u32 local
  | OWake key => code key
  | OActivate key | OTake key | OFreeSlot key => own key Dispatch
  | ODropTask key | OReclaim _ key => own key Task
  | ODropEndpoint key => own key Topology
  | ODropAdmission key | OLeaseReturn _ key => own key Reserved
  | OLease n => 0 <=? n
  | OLeaseAdmit _ | OLeaseDrop _ => true
  | OBegin root | OPop root _ | OFinish root => own root Topology
  end.
Lemma code_ok k : code k = true -> is_code (index k).
Proof. unfold code, is_code. lia. Qed.
Lemma u32_ok z : u32 z = true -> 0 <= z < 2 ^ 32.
Proof. unfold u32. lia. Qed.
Lemma allowedb_allowed o a : allowedb o a = true -> allowed o a.
Proof.
  destruct o; cbn [allowedb allowed]; rewrite ?andb_true_iff; intros; repeat match goal with H : _ /\ _ |- _ => destruct H end;
    repeat split; auto using ownsb_owns, code_ok, u32_ok; try (by apply u32_ok); try (by apply code_ok); lia.
Qed.
(** A history whose steps are all allowed. *)
Fixpoint checked (os : list Op) (x : Arena Plane * list Chain) : bool :=
  match os with
  | [] => true
  | o :: os => allowedb o x.1 && match run_op target o x.1 x.2 with Ok x => checked os x | _ => false end
  end.
Lemma checked_reaches os x : checked os x = true -> reaches target x (match play os x with Ok y => y | _ => x end).
Proof.
  revert x. induction os as [|o os IH]; intros [a cs]; cbn [checked play fst snd]; [intros _; apply reaches_refl|].
  rewrite andb_true_iff. intros [Ha Hc]. destruct (run_op target o a cs) as [[a' cs']| |] eqn:Er; [|done..]. cbn [bind].
  specialize (IH (a', cs') Hc). eapply reaches_step; [by apply allowedb_allowed|done|]. destruct (play os (a', cs')) as [y| |] eqn:Ep; [done|..].
  all: exfalso; clear IH Er Ha; revert a' cs' Hc Ep; induction os as [|o' os IH']; intros a' cs'; cbn [checked play fst snd]; [done|];
    rewrite andb_true_iff; intros [_ Hc] Ep; destruct (run_op target o' a' cs') as [[a'' cs'']| |]; [by eapply IH'|done..].
Qed.

Lemma after_reached os : checked os (new, []) = true -> reaches target (new, []) ((after os).1, (after os).2).
Proof.
  intros Hc. pose proof (checked_reaches os (new, []) Hc) as Hr. rewrite <- surjective_pairing. unfold after. by destruct (play os (new, [])).
Qed.
Lemma lay_ok : layout_new 1 5 = Ok lay.
Proof. reflexivity. Qed.
Lemma after_inv os : checked os (new, []) = true -> exists Q l ls, Inv (after os).1 Q l ls /\ (after os).2 = chain_of <$> ls.
Proof.
  intros Hc. pose proof (checked_reaches os (new, []) Hc) as Hr. pose proof (new_inv (P := Plane) target 1 5 lay lay_ok ltac:(lia) ltac:(lia)) as Hi.
  assert (Hr' : reaches target (new, []) (after os)) by (unfold after; by destruct (play os (new, []))).
  destruct (reaches_inv target _ _ Hr' _ _ [] Hi eq_refl) as (Q & l & ls & H1 & H2 & _). by exists Q, l, ls.
Qed.

(** The queue of the topology once both tasks were woken. *)
Definition both : Queue := mk_queue [4; 3] [] First false false [3; 4].
Definition root_cell : Cell := default (cell payload_retired (state 0 Retired None)) (at_ (table woken) 2).
Lemma at_cases (s : Slots) i c : descriptor_end s = 1 -> length (cells s) = 6%nat -> at_ s i = Some c -> i ∈ [2; 3; 4; 5; 6; 7].
Proof.
  intros Hd Hl Hi. unfold at_ in Hi. rewrite Hd in Hi. destruct (Z.ltb_spec (i - 1 - 1) 0); [done|]. apply lookup_lt_Some in Hi. rewrite Hl in Hi.
  assert (Hc : i = 2 \/ i = 3 \/ i = 4 \/ i = 5 \/ i = 6 \/ i = 7) by lia. clear -Hc. rewrite !elem_of_cons. tauto.
Qed.
Ltac decided := refine (bool_decide_eq_true_1 _ _); vm_compute; reflexivity.
Ltac each Hi := repeat (apply elem_of_cons in Hi as [->|Hi]); [..|by apply not_elem_of_nil in Hi].
Lemma woken_wf : wf (table woken).
Proof.
  split; [vm_compute; split; congruence|]. intros i c Hi Hc. pose proof (at_cases (table woken) i c ltac:(reflexivity) ltac:(reflexivity) Hi) as Hin.
  change (capacity (table woken)) with 6 in Hc. each Hin; try lia. vm_compute in Hi. by injection Hi as <-.
Qed.
Lemma woken_both : holds (table woken) 2 root_cell both.
Proof.
  assert (Htask : forall i c, at_ (table woken) i = Some c -> task_of 2 c -> i ∈ [3; 4]).
  { intros i c Hi [Hk _]. pose proof (at_cases (table woken) i c ltac:(reflexivity) ltac:(reflexivity) Hi) as Hin. each Hin; first [decided|vm_compute in Hi; injection Hi as <-; discriminate Hk]. }
  split.
  - split; [reflexivity|reflexivity| | |]; intros x.
    + by destruct x.
    + destruct x; [|done]. split; [eexists; split; [vm_compute; reflexivity|done]|]. split; [|done]. eexists. split; [vm_compute; reflexivity|done].
    + destruct x; cbn; [|constructor]. decided.
  - vm_compute. reflexivity.
  - cbn [members both]. split; [decided|]. intros i. split.
    + intros Hi. each Hi; (eexists; split; [vm_compute; reflexivity|done]).
    + intros (c & Hc & Ht). by eapply Htask.
  - intros i c Hc Ht _. left. pose proof (Htask i c Hc Ht) as Hin. each Hin; decided.
Qed.

(** Both tasks are queued: a drain makes them the batch. *)
Lemma topology_refines_queues_witness : exists s', begin_ (E := Error) (table woken) 2 = Ok (Some First, s')
  /\ becomes 2 (table woken) s' (mk_queue [] [4; 3] Second true false [3; 4]).
Proof. exact (proj1 (proj2 (topology_refines_queues Error (table woken) 2 root_cell both woken_wf woken_both))). Defined.
(** A task that is woken again during the drain waits for the next. *)
Lemma topology_drain_stable_witness : exists s1 s' q', begin_ (E := Error) (table woken) 2 = Ok (Some First, s1)
  /\ exec_all (E := Error) 2 First s1 [Pop; Wake 4; Pop; Pop] = Ok ([9; 7], s') /\ becomes 2 (table woken) s' q' /\ batch q' = [].
Proof.
  destruct (topology_drain_stable Error (table woken) 2 root_cell both [Pop; Wake 4; Pop; Pop] woken_wf woken_both eq_refl) as (s1 & s' & q' & H1 & H2 & H3 & _ & H5 & _).
  { intros i Hi. repeat (apply elem_of_cons in Hi as [Hi|Hi]; [try discriminate Hi|]); [injection Hi as ->; decided|by apply not_elem_of_nil in Hi]. }
  exists s1, s', q'. split; [exact H1|]. split; [exact H2|]. split; [exact H3|]. exact H5.
Defined.
(** The second task leaves; the first keeps its place. *)
Lemma topology_outlives_tasks_witness : exists s1 r1 s', task_detach (E := Error) (table woken) (key 4) = Ok (key 4, None, s')
  /\ holds s1 2 r1 (mk_queue [3] [] First false false [3]) /\ s' = s1.
Proof.
  destruct (proj1 (proj2 (topology_outlives_tasks Error (table woken) 2 root_cell both woken_wf woken_both)) (key 4) ltac:(decided))
    as (c & s1 & r1 & s' & c' & _ & H1 & _ & _ & _ & H2 & H3).
  exists s1, r1, s'. split; [exact H1|]. split; [exact H2|exact H3].
Defined.

(** Waking the lower task makes the descriptor ready. *)
Lemma idle_propagated Q l ls : Inv ready_up Q l ls -> propagated (E := Error) target ready_up Q.
Proof.
  intros Hi root q i c Hq Hqi Hc. exfalso. apply lane_queued in Hqi as [x Hx]. destruct (so_queue _ _ (in_sound _ _ _ _ Hi) root q Hq) as (r & Hh).
  destruct (seg_task _ _ _ _ _ _ _ (la_seg _ _ _ _ (ho_lanes _ _ _ _ Hh) x) Hx) as (d & Hd & _ & Hqd).
  pose proof (at_cases (table ready_up) i d ltac:(reflexivity) ltac:(reflexivity) Hd) as Hin. each Hin; vm_compute in Hd; injection Hd as <-; done.
Qed.
Lemma no_wake_lost_witness : exists a', complete (E := Error) target 7 ready_up (key 4) = Ok a' /\ is_Some (SetFacts.view (ready a') 0).
Proof.
  destruct (after_inv setup ltac:(vm_compute; reflexivity)) as (Q & l & ls & Hi & _).
  destruct (no_wake_lost target Error ready_up Q l ls (key 4) 7 Hi ltac:(done) ltac:(vm_compute; lia)) as (a' & Q' & Hc & _ & _ & _ & Hp).
  exists a'. split; [exact Hc|]. apply (proj2 (Hp (idle_propagated Q l ls Hi)) 2%nat). eapply climbs_up; [vm_compute; reflexivity|].
  eapply climbs_up; [vm_compute; reflexivity|]. apply climbs_root. vm_compute. reflexivity.
Defined.
Lemma parents_validated_exactly_witness : (exists n i, climbs (E := Error) target ready_up (key 4) n (Some i) /\ Z.of_nat n <= 15)
  /\ forall n o, climbs (E := Error) target ready_up (key 4) n o -> 1 < Z.of_nat n.
Proof.
  destruct (after_inv setup ltac:(vm_compute; reflexivity)) as (Q & l & ls & Hi & _). split.
  - destruct (parents_validated_exactly target ready_up Q l ls (key 4) 15 Hi ltac:(done) ltac:(lia)) as [(n & i & Hc & Hn & _)|[(n & _ & _ & Hv)|[_ Hv]]];
      [exists n, i; split; [exact Hc|exact Hn]|vm_compute in Hv; discriminate Hv..].
  - destruct (parents_validated_exactly target ready_up Q l ls (key 4) 1 Hi ltac:(done) ltac:(lia)) as [(n & i & _ & _ & Hv)|[(n & _ & _ & Hv)|[Hno _]]];
      [vm_compute in Hv; discriminate Hv..|exact Hno].
Defined.

(** After the history the arena is sound, and the first task can be dropped. *)
Lemma arena_never_stuck_witness : (exists Q l ls, Inv woken Q l ls)
  /\ match run_op target (ODropTask (key 3)) woken [] with Ok _ => True | Err _ => True | Stuck _ => False end.
Proof.
  pose proof (after_reached (setup ++ [OWake (key 4)]) ltac:(vm_compute; reflexivity)) as Hr.
  change ((after (setup ++ [OWake (key 4)])).2) with ([] : list Chain) in Hr.
  destruct (arena_never_stuck target 1 5 lay woken [] lay_ok ltac:(lia) ltac:(lia) Hr) as [(Q & l & ls & Hi & _) Hrun]. split; [by exists Q, l, ls|].
  specialize (Hrun (ODropTask (key 3)) (allowedb_allowed (ODropTask (key 3)) woken ltac:(vm_compute; reflexivity))).
  destruct (run_op target (ODropTask (key 3)) woken []); [exact I|exact I|exact Hrun].
Defined.
(** The cell of the dropped task is handed out again: its old key is stale. *)
Definition dropped : Arena Plane := (after (setup ++ [OWake (key 4); ODropTask (key 3)])).1.
Definition reused : Arena Plane := (after (setup ++ [OWake (key 4); ODropTask (key 3); OAdmit (key 1)])).1.
Lemma stale_keys_ignored_witness : resolve (E := Error) target reused (key 3) = Ok None
  /\ option_map (fun c => generation (c_state c)) (at_ (table reused) 3) = Some 1.
Proof.
  destruct (after_inv (setup ++ [OWake (key 4)]) ltac:(vm_compute; reflexivity)) as (Q & l & ls & Hi & Hls).
  assert (Hnil : chain_of <$> ls = []) by (rewrite <- Hls; vm_compute; reflexivity).
  split; [|vm_compute; reflexivity].
  assert (Hr : reaches target (dropped, []) (reused, [])).
  { eapply (reaches_step target (OAdmit (key 1)) dropped [] reused []); [apply allowedb_allowed; vm_compute; reflexivity|vm_compute; reflexivity|apply reaches_refl]. }
  refine (proj1 (stale_keys_ignored target woken Q l ls (ODropTask (key 3)) (key 3) dropped [] reused [] Hi _ _ _ Hr) Error).
  - apply allowedb_allowed. vm_compute. reflexivity.
  - reflexivity.
  - rewrite Hnil. vm_compute. reflexivity.
Defined.
End ArenaExamples.
