(* ===== verification/Sequence.v ===== *)
(** * Identities of a driver, and the random roots they separate.

    Model of [src/layer0/core/src/driver/schedule/sequence.rs]: the identities a
    driver issues, one at a time or from blocks that schedulers reserve; of the
    roots of [src/layer1/runtime/src/random/mod.rs], each derived from an identity
    of its own; and of the progress reports of
    [src/layer0/core/src/driver/schedule/mod.rs]. *)

From S2P Require Import Prelude Random.

Module Sequence.

(** [LOCAL], src/layer0/core/src/driver/schedule/sequence.rs:7-7. *)
Definition LOCAL : Z := 2 ^ 32 - 1.
(** [BLOCK], src/layer0/core/src/driver/schedule/sequence.rs:8-8. *)
Definition BLOCK : Z := Z.shiftl 1 32.
Definition U64_MAX : Z := 2 ^ 64 - 1.
(** [NonZero::<u64>::checked_add]. *)
Definition checked_add (a b : Z) : option Z := if a + b <=? U64_MAX then Some (a + b) else None.

(** [Owner], src/layer0/core/src/driver/schedule/sequence.rs:10-10. Its cell: the next identity, if any is left. *)
Definition Owner : Type := option Z.
(** [Exhausted], src/layer0/core/src/driver/schedule/sequence.rs:33-33. *)
Inductive Exhausted := exhausted.
(** [Id], src/layer0/core/src/driver/schedule/sequence.rs:41-45. Its [raw]; the brand and the thread marker take no space. *)
Definition Id : Type := Z.
(** [Block], src/layer0/core/src/driver/schedule/sequence.rs:57-60. Its [next]; the driver is passed along. *)
Definition Block : Type := option Z.

(** [Owner::new], src/layer0/core/src/driver/schedule/sequence.rs:13-15. *)
Definition owner_new : Owner := Some 1.

(** [Owner::claim], src/layer0/core/src/driver/schedule/sequence.rs:17-23. *)
Definition claim (self : Owner) : option Z * Owner :=
  match self with
  | None => (None, self)
  | Some first =>
      let skip := wrap 32 (1 - wrap 32 first) in
      match checked_add first skip with
      | None => (None, self)
      | Some first => (Some first, checked_add first BLOCK)
      end
  end.

(** [Owner::next], src/layer0/core/src/driver/schedule/sequence.rs:25-29. *)
Definition next (self : Owner) : option Z * Owner :=
  match self with None => (None, self) | Some n => (Some n, checked_add n 1) end.

(** [Block::new], src/layer0/core/src/driver/schedule/sequence.rs:63-69. *)
Definition block_new (self : Owner) : Block * Owner := claim self.

(** [Block::try_next], src/layer0/core/src/driver/schedule/sequence.rs:71-85. *)
Definition try_next (b : Block) (self : Owner) : run Exhausted Id * Block * Owner :=
  let '(raw, owner) := match b with Some raw => (Some raw, self) | None => claim self end in
  match raw with
  | None => (Err exhausted, b, owner)
  | Some raw =>
      let next := match checked_add raw 1 with
        | Some next => if negb (Z.land next LOCAL =? 0) then Some next else None
        | None => None
        end in
      (Ok raw, next, owner)
  end.

(** [Reference::try_next_id], src/layer0/core/src/driver/mod.rs:126-134. *)
Definition try_next_id (self : Owner) : run Exhausted Id * Owner :=
  let '(raw, owner) := next self in (ok_or raw exhausted, owner).

End Sequence.

(** ** The roots of a driver *)

Module Roots.
Import Sip Key Sequence.

(** [Namespace::instance], src/layer1/runtime/src/random/mod.rs:323-328. *)
Definition Namespace_instance (name : bytes) (i : Z) : Domain := domain name i.
(** [derive_seed], src/layer1/runtime/src/random/mod.rs:18-20. The unit hashes nothing. *)
Definition derive_seed (seed : Key) (d : Domain) : Key := derive seed d (fun s => s).
(** [HashSeed::from_seed], src/layer1/runtime/src/random/mod.rs:33-40. *)
Definition hash_seed_from (seed : Key) (d : Domain) : Key := derive seed d (fun s => s).
(** [HashState::for_seed], src/layer1/runtime/src/random/mod.rs:71-78. *)
Definition hash_state_for (seed : Key) (d : Domain) : Key := derive seed d (fun s => s).
(** [Key::hasher], src/layer1/runtime/src/random/mod.rs:261-263. *)
Definition hasher (k : Key) : Sip := new (word0 k) (word1 k).
(** [HashSeed::hash], src/layer1/runtime/src/random/mod.rs:42-46. *)
Definition seed_hash (k : Key) (feed : Sip -> Sip) : Z := finish 1 3 (feed (hasher k)).
(** [HashSeed::hash_bytes], src/layer1/runtime/src/random/mod.rs:49-51. *)
Definition hash_bytes (k : Key) (l : bytes) : Z := Sip.hash 1 3 (hasher k) l.

Section roots.
(** The [Hash] implementation of the crate [o3]'s thread marker, the last field of
    an identity. *)
Context (thread_feed : Sip -> Sip).

(** [Id], src/layer0/core/src/driver/schedule/sequence.rs:41-45. Its derived [Hash]: the number, the brand, which hashes nothing, and the marker. *)
Definition id_feed (raw : Id) (s : Sip) : Sip := thread_feed (write_u64 2 s raw).

(** [Root::try_acquire], src/layer1/runtime/src/random/mod.rs:220-225. *)
Definition try_acquire (seed : Key) (purpose : Domain) (self : Owner) : run Exhausted Key * Owner :=
  let '(instance, owner) := try_next_id self in
  ((let! instance := instance in Ok (derive seed purpose (id_feed instance))), owner).
End roots.

(** [Process::random], src/layer1/runtime/src/random/mod.rs:181-186. On what [Seed::acquire] returned. *)
Definition process_random {Errno : Type} (acquired : run Errno Key) (purpose : Domain) : run Errno Key :=
  let! seed := acquired in Ok (derive seed purpose (fun s => s)).
End Roots.

(** ** Reports of progress *)

Module Progress.

(** [Wait], src/layer0/core/src/driver/schedule/mod.rs:176-178. *)
Inductive Wait := Event | Until (deadline : Z).
(** [Progress], src/layer0/core/src/driver/schedule/mod.rs:91-95. *)
Inductive Progress := Runnable | Waiting (w : Wait) | Quiescent.

(** [Wait::deadline], src/layer0/core/src/driver/schedule/mod.rs:193-198. *)
Definition wait_deadline (w : Wait) : option Z := match w with Event => None | Until d => Some d end.
(** [Wait::reduce], src/layer0/core/src/driver/schedule/mod.rs:200-212. *)
Definition wait_reduce (self other : Wait) : Wait :=
  match self, other with
  | Event, _ => other
  | Until lhs, Event => Until lhs
  | Until lhs, Until rhs => Until (Z.min lhs rhs)
  end.
(** [Progress::reduce], src/layer0/core/src/driver/schedule/mod.rs:106-116. *)
Definition reduce (self other : Progress) : Progress :=
  match self with
  | Runnable => Runnable
  | Waiting lhs =>
      match other with
      | Runnable => Runnable
      | Waiting rhs => Waiting (wait_reduce lhs rhs)
      | Quiescent => Waiting lhs
      end
  | Quiescent => other
  end.
(** [Reference::maintenance], src/layer0/core/src/driver/mod.rs:144-150. On whether retired storage is left to reclaim. *)
Definition maintenance (has_deferred : bool) : Progress := if has_deferred then Runnable else Quiescent.


(** Reports reduce in any order and grouping. *)
Lemma reduce_comm p q : reduce p q = reduce q p.
Proof. destruct p as [|[]|], q as [|[]|]; simpl; try done. by rewrite Z.min_comm. Qed.
Lemma reduce_assoc p q r : reduce p (reduce q r) = reduce (reduce p q) r.
Proof. destruct p as [|[]|], q as [|[]|], r as [|[]|]; simpl; try done. by rewrite Z.min_assoc. Qed.

(** What many reports reduce to: runnable when one is, quiescent when all are, and
    otherwise waiting, for the earliest deadline that one of them waits for. *)
Lemma reduce_all ps :
  match foldr reduce Quiescent ps with
  | Runnable => Runnable ∈ ps
  | Quiescent => Forall (eq Quiescent) ps
  | Waiting w => (Runnable ∉ ps) /\ (exists v, Waiting v ∈ ps)
      /\ match w with
         | Event => forall d, Waiting (Until d) ∉ ps
         | Until d => Waiting (Until d) ∈ ps /\ forall e, Waiting (Until e) ∈ ps -> d <= e
         end
  end.
Proof.
  induction ps as [|p ps IH]; [constructor|]. simpl.
  destruct p as [|v|]; [set_solver| |].
  - destruct (foldr reduce Quiescent ps) as [|w|]; simpl; [set_solver| |].
    + destruct IH as (Hr & Hv & Hw). split; [set_solver|]. split; [set_solver|].
      destruct v as [|d], w as [|e]; simpl.
      * set_solver.
      * destruct Hw as [? Hle]. split; [set_solver|]. intros x [?|?]%elem_of_cons; [congruence|auto].
      * split; [set_solver|]. intros x [[= ->]|Hx]%elem_of_cons; [lia|]. by destruct (Hw x).
      * destruct Hw as [He Hle]. split; [destruct (Z.min_spec d e) as [[_ ->]|[_ ->]]; set_solver|].
        intros x [[= ->]|Hx]%elem_of_cons; [lia|]. specialize (Hle x Hx). lia.
    + rewrite Forall_forall in IH.
      assert (Hq : forall q, q <> Quiescent -> q ∉ ps) by (intros q Hne Hin; by rewrite <- (IH q Hin) in Hne).
      split; [apply not_elem_of_cons; auto|]. split; [exists v; set_solver|].
      destruct v as [|d]; [intros d; apply not_elem_of_cons; auto|].
      split; [set_solver|]. intros e [[= ->]|He]%elem_of_cons; [lia|]. by apply Hq in He.
  - destruct (foldr reduce Quiescent ps) as [|w|]; simpl; [set_solver| |by constructor].
    destruct IH as (Hr & [v Hv] & Hw). split; [set_solver|]. split; [set_solver|].
    destruct w; [set_solver|]. destruct Hw as [? Hle]. split; [set_solver|].
    intros x [?|?]%elem_of_cons; [done|auto].
Qed.
End Progress.
