(* ===== verification/SequenceFacts.v ===== *)
(** * Identities never repeat.

    Histories of one driver: singles, reserved blocks, identities of any block in
    any interleaving, and random roots. *)

From S2P Require Import Prelude Random ReadySetFacts Sequence.

Module Issuing.
Import Key Sequence Roots.

Section histories.
Context (thread_feed : Sip.Sip -> Sip.Sip) (seed : Key).

(** What is done with a driver: [Single] is [try_next_id], [Reserve] is
    [Binding::sequence], [Local k] is [try_next] of the [k]-th block reserved, and
    [Acquire] is [Root::try_acquire] for a purpose. *)
Inductive Op := Single | Reserve | Local (k : nat) | Acquire (purpose : Domain).
Inductive Out := Issued (id : run Exhausted Id) | Reserved | Rooted (root : run Exhausted Key).

Record Driver := driver { owner : Owner; blocks : list Block }.
Definition driver_new : Driver := driver owner_new [].

(** None where the block was never reserved. *)
Definition step (d : Driver) (o : Op) : option (Out * Driver) :=
  match o with
  | Single => let '(id, ow) := try_next_id (owner d) in Some (Issued id, driver ow (blocks d))
  | Reserve => let '(b, ow) := block_new (owner d) in Some (Reserved, driver ow (blocks d ++ [b]))
  | Local k =>
      match blocks d !! k with
      | Some b => let '(id, b, ow) := try_next b (owner d) in Some (Issued id, driver ow (<[k := b]> (blocks d)))
      | None => None
      end
  | Acquire p => let '(root, ow) := try_acquire thread_feed seed p (owner d) in Some (Rooted root, driver ow (blocks d))
  end.
Fixpoint history (d : Driver) (os : list Op) : option (list Out * Driver) :=
  match os with
  | [] => Some ([], d)
  | o :: os =>
      match step d o with
      | Some (out, d) => match history d os with Some (outs, d) => Some (out :: outs, d) | None => None end
      | None => None
      end
  end.

(** What an operation gives out when it draws the identity [id], or none. *)
Definition gives (o : Op) (id : option Z) : Out :=
  match o, id with
  | (Single | Local _), Some i => Issued (Ok i)
  | (Single | Local _), None => Issued (Err exhausted)
  | Reserve, _ => Reserved
  | Acquire p, Some i => Rooted (Ok (derive seed p (id_feed thread_feed i)))
  | Acquire _, None => Rooted (Err exhausted)
  end.

(** ** The invariant *)

(** Everything the driver handed out or reserved lies below [limit]. *)
Definition limit (self : Owner) : Z := match self with Some n => n | None => 2 ^ 64 end.
(** A block gives out the numbers from its next one to the end of their chunk of
    2^32. *)
Definition chunk_end (r : Z) : Z := (r / 2 ^ 32 + 1) * 2 ^ 32.
Definition owner_ok (self : Owner) : Prop := match self with Some n => 1 <= n < 2 ^ 64 | None => True end.
Definition block_ok (lim r : Z) : Prop := 1 <= r /\ r mod 2 ^ 32 <> 0 /\ chunk_end r <= lim.

Record Sound (d : Driver) (ids : list Z) : Prop := {
  s_owner : owner_ok (owner d);
  s_ids : Forall (fun x => 1 <= x < limit (owner d)) ids;
  s_fresh : NoDup ids;
  s_blocks : forall k r, blocks d !! k = Some (Some r) -> block_ok (limit (owner d)) r;
  s_apart : forall k r x, blocks d !! k = Some (Some r) -> x ∈ ids -> r <= x < chunk_end r -> False;
  s_disjoint : forall k l r q, blocks d !! k = Some (Some r) -> blocks d !! l = Some (Some q) -> k <> l ->
    chunk_end r <> chunk_end q;
}.

Lemma local_spec n : Z.land n LOCAL = n mod 2 ^ 32.
Proof. by apply (Z.land_ones n 32). Qed.

Lemma checked_add_spec a b :
  match checked_add a b with Some c => c = a + b /\ c < 2 ^ 64 | None => 2 ^ 64 <= a + b end.
Proof. unfold checked_add, U64_MAX. destruct (Z.leb_spec (a + b) (2 ^ 64 - 1)); lia. Qed.

(** What a claim reserves: a chunk that begins at or after the limit. *)
Lemma block_claim_spec self r ow :
  owner_ok self -> claim self = (r, ow) ->
  owner_ok ow /\ limit self <= limit ow /\ limit ow <= limit self + 2 ^ 33 /\
  match r with
  | Some first => limit self <= first /\ block_ok (limit ow) first
  | None => ow = self /\ 2 ^ 64 - 2 ^ 32 < limit self
  end.
Proof.
  destruct self as [n|]; intros Hok; unfold claim; [|intros [= <- <-]; repeat split; simpl; lia].
  pose proof (checked_add_spec n (wrap 32 (1 - wrap 32 n))) as Hn.
  destruct (checked_add n _) as [first|].
  - pose proof (checked_add_spec first BLOCK) as Hf. intros [= <- <-].
    change BLOCK with (2 ^ 32) in *. unfold wrap, block_ok, chunk_end, owner_ok in *.
    destruct (checked_add first _); cbn [limit]; repeat split; zdiv.
  - intros [= <- <-]. unfold wrap, owner_ok in *. simpl in *. repeat split; zdiv.
Qed.

Lemma single_next_spec self r ow :
  owner_ok self -> next self = (r, ow) ->
  owner_ok ow /\ limit self <= limit ow /\ limit ow <= limit self + 1 /\
  match r with Some n => self = Some n /\ limit self < limit ow | None => ow = self /\ self = None end.
Proof.
  destruct self as [n|]; intros Hok; unfold next; [|intros [= <- <-]; repeat split; simpl; lia].
  pose proof (checked_add_spec n 1) as Hn. intros [= <- <-]. unfold owner_ok in *.
  destruct (checked_add n 1); simpl in *; repeat split; lia.
Qed.

(** What a number of a block leaves in it: the rest of its chunk, or nothing. *)
Definition leaves (r : Z) (b : Block) : Prop :=
  match b with Some n => n = r + 1 /\ chunk_end n = chunk_end r /\ n mod 2 ^ 32 <> 0 | None => True end.
Lemma block_try_next_spec b self id b' ow :
  owner_ok self -> try_next b self = (id, b', ow) ->
  match b with
  | Some raw => id = Ok raw /\ ow = self /\ (1 <= raw -> leaves raw b')
  | None => match claim self with
            | (Some raw, o) => id = Ok raw /\ ow = o /\ (1 <= raw -> leaves raw b')
            | (None, o) => id = Err exhausted /\ ow = o /\ b' = None
            end
  end.
Proof.
  intros Hok. assert (forall raw, 1 <= raw -> leaves raw (match checked_add raw 1 with
     | Some n => if negb (Z.land n LOCAL =? 0) then Some n else None | None => None end)) as Hl.
  { intros raw Hraw. pose proof (checked_add_spec raw 1) as Hn. destruct (checked_add raw 1) as [n|]; [|done].
    rewrite local_spec. destruct (Z.eqb_spec (n mod 2 ^ 32) 0); [done|]. simpl. unfold chunk_end. zdiv. }
  unfold try_next. destruct b as [raw|]; [intros [= <- <- <-]; auto|].
  destruct (claim self) as [[raw|] o]; intros [= <- <- <-]; auto.
Qed.

Lemma sound_new : Sound driver_new [].
Proof. split; simpl; try done; try constructor; try lia; intros; set_solver. Qed.

(** The owner moves on. *)
Lemma sound_grow ow d ids :
  Sound d ids -> owner_ok ow -> limit (owner d) <= limit ow -> Sound (driver ow (blocks d)) ids.
Proof.
  intros [] Hok Hle. split; simpl; try done.
  - eapply Forall_impl; [done|]. simpl. lia.
  - intros k r Hk. destruct (s_blocks0 k r Hk) as (? & ? & ?). repeat split; [done|done|lia].
Qed.

(** A claim puts its chunk, or nothing, in the place [k]. *)
Lemma sound_place d ids k r ow bs :
  Sound d ids -> claim (owner d) = (r, ow) ->
  (forall j x, bs !! j = Some (Some x) -> (j <> k /\ blocks d !! j = Some (Some x)) \/ (j = k /\ r = Some x)) ->
  Sound (driver ow bs) ids.
Proof.
  intros Hs Hc Hbs. pose proof (s_owner _ _ Hs) as Hok.
  destruct (block_claim_spec _ _ _ Hok Hc) as (Hok' & Hle & _ & Hr).
  destruct (sound_grow ow d ids Hs Hok' Hle). destruct Hs as [_ Hids _ Hbl _ _].
  assert (forall x, r = Some x -> limit (owner d) <= x /\ block_ok (limit ow) x) as Hx by (intros x ->; done).
  assert (forall j q x, blocks d !! j = Some (Some q) -> limit (owner d) <= x -> chunk_end q <> chunk_end x) as Hsep.
  { intros j q x Hj Hlx. destruct (Hbl j q Hj) as (_ & _ & Hq). unfold chunk_end in *. simpl in *. zdiv. }
  split; simpl in *; try done.
  - intros j x [[_ ?]|[_ ?]]%Hbs; [eauto|by apply Hx].
  - intros j q x [[_ ?]|[_ Hq]]%Hbs Hin Hrange; [eauto|].
    destruct (Hx q Hq) as [Hlq _]. rewrite Forall_forall in Hids. specialize (Hids x Hin). simpl in *. lia.
  - intros j l q q' Hj Hl Hne.
    apply Hbs in Hj as [[Hjk Hj]|[Hjk Hj]], Hl as [[Hlk Hl]|[Hlk Hl]]; [eauto| | |congruence].
    + eapply Hsep; [done|]. by apply Hx.
    + intros Heq. symmetry in Heq. revert Heq. eapply Hsep; [done|]. by apply Hx.
Qed.

(** A block gives out its next number. *)
Lemma sound_local d ids k raw b :
  Sound d ids -> blocks d !! k = Some (Some raw) -> leaves raw b ->
  Sound (driver (owner d) (<[k := b]> (blocks d))) (raw :: ids).
Proof.
  intros [] Hk Hb. destruct (s_blocks0 k raw Hk) as (Hpos & Hmod & Hend).
  assert (raw < chunk_end raw) as Hin by (unfold chunk_end; zdiv).
  assert (forall j x, <[k := b]> (blocks d) !! j = Some (Some x) ->
     (j <> k /\ blocks d !! j = Some (Some x)) \/ (j = k /\ leaves raw (Some x))) as Hbs.
  { intros j x. destruct (decide (j = k)) as [->|?]; [|rewrite list_lookup_insert_ne by done; auto].
    rewrite list_lookup_insert_eq by (by eapply lookup_lt_Some). intros [= ->]. auto. }
  split; simpl; try done.
  - constructor; [lia|done].
  - constructor; [|done]. intros Hr. by apply (s_apart0 k raw raw).
  - intros j x [[_ ?]|[-> (-> & Hc & Hm)]]%Hbs; [eauto|]. repeat split; [lia|done|congruence].
  - intros j q x [[Hne Hj]|[-> (-> & Hc & Hm)]]%Hbs [->|Hx]%elem_of_cons Hr; try lia.
    + apply (s_disjoint0 j k q raw Hj Hk Hne). unfold chunk_end in *. zdiv.
    + by apply (s_apart0 j q x).
    + apply (s_apart0 k raw x Hk Hx). rewrite Hc in Hr. lia.
  - intros j l q q' Hj Hl Hne.
    apply Hbs in Hj as [[Hjk Hj]|[-> (-> & Hc & _)]], Hl as [[Hlk Hl]|[-> (-> & Hc' & _)]]; [eauto| | |congruence].
    + rewrite Hc'. eauto.
    + rewrite Hc. eauto.
Qed.

Lemma sound_single d ids n ow :
  Sound d ids -> next (owner d) = (Some n, ow) -> Sound (driver ow (blocks d)) (n :: ids).
Proof.
  intros Hs Hn. pose proof (s_owner _ _ Hs) as Hok.
  destruct (single_next_spec _ _ _ Hok Hn) as (Hok' & Hle & _ & Heq & Hlt).
  assert (limit (owner d) = n) as Hl by (by rewrite Heq).
  destruct (sound_grow ow d ids Hs Hok' Hle). destruct Hs as [_ Hids _ Hbl _ _].
  rewrite Heq in Hok. simpl in *. split; simpl; try done.
  - constructor; [lia|done].
  - constructor; [|done]. rewrite Forall_forall in Hids. intros Hin. specialize (Hids n Hin). simpl in *. lia.
  - intros k r x Hk [->|Hx]%elem_of_cons Hr; [|eauto]. destruct (Hbl k r Hk) as (_ & _ & ?). lia.
Qed.

(** ** Every operation *)

(** One operation draws at most one number, moves the limit by less than 2^33, and
    is refused only near the end of the numbers. *)
Lemma step_sound d ids o out d' :
  Sound d ids -> step d o = Some (out, d') ->
  limit (owner d') <= limit (owner d) + 2 ^ 33 /\
  exists id, out = gives o id /\ Sound d' (from_option (fun i => i :: ids) ids id)
    /\ (id = None -> o = Reserve \/ 2 ^ 64 - 2 ^ 32 < limit (owner d)).
Proof.
  intros Hs. pose proof (s_owner _ _ Hs) as Hok.
  assert (forall r ow, next (owner d) = (r, ow) -> limit ow <= limit (owner d) + 2 ^ 33 /\
    Sound (driver ow (blocks d)) (from_option (fun i => i :: ids) ids r) /\ (r = None -> 2 ^ 64 - 2 ^ 32 < limit (owner d))) as Hnext.
  { intros r ow Hn. destruct (single_next_spec _ _ _ Hok Hn) as (? & ? & ? & Hr). split; [lia|]. destruct r as [n|]; simpl.
    - split; [by apply sound_single|done].
    - destruct Hr as [-> Hnone]. split; [by destruct d|]. rewrite Hnone. simpl. lia. }
  destruct o as [| |k|p]; simpl.
  - unfold try_next_id. destruct (next (owner d)) as [r ow] eqn:Hn. destruct (Hnext r ow eq_refl) as (? & ? & ?).
    intros [= <- <-]. split; [done|]. exists r. destruct r; simpl; auto.
  - unfold block_new. destruct (claim (owner d)) as [r ow] eqn:Hc. intros [= <- <-].
    destruct (block_claim_spec _ _ _ Hok Hc) as (? & ? & ? & _). split; [done|]. exists None. split; [done|]. split; [|auto].
    apply (sound_place d ids (length (blocks d)) r ow _ Hs Hc). intros j x.
    rewrite lookup_app_Some, list_lookup_singleton_Some. intros [Hj|(? & ? & ?)]; [left|right; unfold Block in *; split; [lia|congruence]].
    split; [|done]. apply lookup_lt_Some in Hj. unfold Block in *. lia.
  - destruct (blocks d !! k) as [b|] eqn:Hk; [|done]. destruct (try_next b (owner d)) as [[id b'] ow] eqn:Ht.
    intros [= <- <-]. pose proof (block_try_next_spec _ _ _ _ _ Hok Ht) as Hspec. simpl. destruct b as [raw|].
    + destruct Hspec as (-> & -> & Hl). split; [lia|]. exists (Some raw). split; [done|]. split; [|done].
      apply sound_local; [done|done|]. apply Hl. by apply (s_blocks _ _ Hs k raw).
    + destruct (claim (owner d)) as [r o] eqn:Hc.
      destruct (block_claim_spec _ _ _ Hok Hc) as (? & ? & ? & Hr).
      assert (Sound (driver o (<[k := r]> (blocks d))) ids) as Hp.
      { apply (sound_place d ids k r o _ Hs Hc). intros j x. destruct (decide (j = k)) as [->|?].
        - rewrite list_lookup_insert_eq by (by eapply lookup_lt_Some). intros [= ->]. auto.
        - rewrite list_lookup_insert_ne by done. auto. }
      destruct r as [raw|]; destruct Hspec as (-> & -> & Hl); (split; [done|]).
      * exists (Some raw). split; [done|]. split; [|done].
        rewrite <- (list_insert_insert_eq (blocks d) k b' (Some raw)).
        apply (sound_local (driver o (<[k := Some raw]> (blocks d)))); [done| |apply Hl, Hr].
        apply list_lookup_insert_eq. by eapply lookup_lt_Some.
      * subst b'. exists None. split; [done|]. split; [done|]. right. lia.
  - unfold try_acquire, try_next_id. destruct (next (owner d)) as [r ow] eqn:Hn. destruct (Hnext r ow eq_refl) as (? & ? & ?).
    intros [= <- <-]. split; [done|]. exists r. destruct r; simpl; auto.
Qed.

(** A history from a sound driver, with the numbers it draws. *)
Lemma history_sound os d ids outs d' :
  Sound d ids -> history d os = Some (outs, d') ->
  exists drawn, outs = zip_with gives os drawn /\ length drawn = length os
    /\ Sound d' (reverse (omap (fun x => x) drawn) ++ ids)
    /\ (limit (owner d) + 2 ^ 33 * Z.of_nat (length os) <= 2 ^ 64 - 2 ^ 32 ->
        Forall2 (fun o id => id = None -> o = Reserve) os drawn).
Proof.
  revert d ids outs d'. induction os as [|o os IH]; intros d ids outs d' Hs; simpl.
  - intros [= <- <-]. exists []. split; [done|]. split; [done|]. split; [exact Hs|constructor].
  - destruct (step d o) as [[out d1]|] eqn:Hst; [|done].
    destruct (history d1 os) as [[outs1 d2]|] eqn:Hh; [|done]. intros [= <- <-].
    destruct (step_sound _ _ _ _ _ Hs Hst) as (Hlim & id & -> & Hs1 & Hnone).
    destruct (IH _ _ _ _ Hs1 Hh) as (drawn & -> & Hlen & Hs2 & Hall).
    exists (id :: drawn). split; [done|]. split; [simpl; lia|]. split.
    + destruct id as [i|]; simpl in *; [|done]. by rewrite reverse_cons, <- (assoc_L app).
    + intros Hroom. constructor; [|apply Hall; lia].
      intros [->|?]%Hnone; [done|]. exfalso. clear - Hroom H. lia.
Qed.

(** C38. No two identities that a driver issues, singly or from any of its reserved
    blocks, however the calls come, are equal, and each is a nonzero number of 64
    bits; a random root is derived from such an identity of its own, so that no
    derivation input of a driver is used twice; and nothing is refused within
    2^30 operations. *)
Theorem identities_never_repeat os outs d :
  history driver_new os = Some (outs, d) ->
  exists drawn, outs = zip_with gives os drawn /\ length drawn = length os
    /\ NoDup (omap (fun x => x) drawn)
    /\ Forall (fun id => 1 <= id < 2 ^ 64) (omap (fun x => x) drawn)
    /\ (Z.of_nat (length os) <= 2 ^ 30 -> Forall2 (fun o id => id = None -> o = Reserve) os drawn).
Proof.
  intros Hh. destruct (history_sound _ _ _ _ _ sound_new Hh) as (drawn & Houts & Hlen & Hs & Hall).
  exists drawn. split; [done|]. split; [done|]. rewrite app_nil_r in Hs. split; [|split].
  - rewrite <- reverse_Permutation. apply (s_fresh _ _ Hs).
  - pose proof (s_ids _ _ Hs) as Hids. rewrite Forall_reverse in Hids.
    eapply Forall_impl; [exact Hids|]. simpl. pose proof (s_owner _ _ Hs) as Hok.
    destruct (owner d) as [n|]; simpl in *; lia.
  - intros Hn. apply Hall. simpl. lia.
Qed.
End histories.

(** Two blocks, singles and a root, interleaved. *)
Definition sample : list Op :=
  [Single; Reserve; Single; Reserve; Local 0; Local 1; Single; Acquire (domain [1; 2; 3; 4; 5; 6; 7; 8] 0); Local 0; Local 1].
Example sample_draws :
  omap (fun o => match o with Issued (Ok i) => Some i | _ => None end)
    (from_option fst [] (history (fun s => s) (key 1 2) driver_new sample))
  = [1; 2 * 2 ^ 32 + 1; 2 ^ 32 + 1; 3 * 2 ^ 32 + 1; 4 * 2 ^ 32 + 1; 2 ^ 32 + 2; 3 * 2 ^ 32 + 2].
Proof. vm_compute. reflexivity. Qed.

(** A block ends with its chunk and then reserves another one; a driver with no
    whole chunk left still issues its last single numbers. *)
Example block_ends : try_next (Some (2 ^ 32 - 1)) (Some (2 ^ 32 + 1)) = (Ok (2 ^ 32 - 1), None, Some (2 ^ 32 + 1))
  /\ try_next None (Some (2 ^ 32 + 1)) = (Ok (2 ^ 32 + 1), Some (2 ^ 32 + 2), Some (2 * 2 ^ 32 + 1)).
Proof. by vm_compute. Qed.
Example owner_ends : claim (Some (2 ^ 64 - 1)) = (None, Some (2 ^ 64 - 1))
  /\ try_next_id (Some (2 ^ 64 - 1)) = (Ok (2 ^ 64 - 1), None) /\ try_next_id None = (Err exhausted, None).
Proof. by vm_compute. Qed.

Lemma identities_never_repeat_witness :
  let outs := from_option fst [] (history (fun s => s) (key 1 2) driver_new sample) in
  exists drawn, outs = zip_with (gives (fun s => s) (key 1 2)) sample drawn /\ length drawn = length sample
    /\ NoDup (omap (fun x => x) drawn)
    /\ Forall (fun id => 1 <= id < 2 ^ 64) (omap (fun x => x) drawn)
    /\ (Z.of_nat (length sample) <= 2 ^ 30 -> Forall2 (fun o id => id = None -> o = Reserve) sample drawn).
Proof.
  eapply (identities_never_repeat (fun s => s) (key 1 2) sample _ (driver (Some (4 * 2 ^ 32 + 3)) [Some (2 ^ 32 + 3); Some (3 * 2 ^ 32 + 3)])).
  vm_compute. reflexivity.
Defined.
End Issuing.
