(* ===== verification/CreditTree.v ===== *)
(** * The waiting tree of egress credit.

    Model of [src/layer1/net/src/link/egress/load/credit/wait/tree]: lanes that wait
    for credit, in three balanced search trees over one table of nodes, by the
    entries they need beyond their protected credit. Each node links its children
    and its parent and keeps the oldest ticket below it, so that the oldest lane
    whose demand fits is found on one path. *)

From S2P Require Import Prelude.

Module Tree.

(** The position of a lane, from 1 ([Index]), and the number of a wait ([Ticket]). *)
Abbreviation Index := Z.
Abbreviation Ticket := Z.
(** [Index::offset], src/layer1/net/src/link/egress/load/credit/wait/tree/mod.rs:27-29. *)
Definition offset (i : Index) : Z := i - 1.
(** [FIRST], src/layer1/net/src/link/egress/load/credit/wait/tree/mod.rs:37-37. *)
Definition FIRST : Ticket := 0.
(** [Tickets], src/layer1/net/src/link/egress/mod.rs:245-245. *)
Inductive Tickets := tickets.
(** [Ticket::issue], src/layer1/net/src/link/egress/load/credit/wait/tree/mod.rs:39-45. The ticket issued and the next one. *)
Definition issue (self : Ticket) : run Tickets (Ticket * Ticket) :=
  if self + 1 <? 2 ^ 32 then Ok (self, self + 1) else Err tickets.

(** [Entries], src/layer1/net/src/link/egress/load/credit/wait/tree/mod.rs:79-83. *)
Inductive Entries := Zero | One | Two.
#[export] Instance entries_dec : EqDecision Entries.
Proof. solve_decision. Defined.
(** [Entries::from], src/layer1/net/src/link/egress/load/credit/wait/tree/mod.rs:86-92. On the entries of a demand. *)
Definition entries_from (bound : Z) : Entries := if bound =? 0 then Zero else if bound =? 1 then One else Two.

(** [Oldest], src/layer1/net/src/link/egress/load/credit/wait/tree/mod.rs:96-99. *)
Record Oldest := oldest_of { o_ticket : Ticket; o_lane : Index }.
(** [Oldest::best], src/layer1/net/src/link/egress/load/credit/wait/tree/mod.rs:102-108. *)
Definition best (l r : option Oldest) : option Oldest :=
  match l, r with
  | Some l, Some r => Some (if o_ticket l <=? o_ticket r then l else r)
  | Some l, None => Some l
  | None, r => r
  end.
(** [Oldest::available], src/layer1/net/src/link/egress/load/credit/wait/tree/mod.rs:110-112. *)
Definition available (o : option Oldest) : option Index := o_lane <$> o.

(** [Node], src/layer1/net/src/link/egress/load/credit/wait/tree/mod.rs:143-152. *)
Record Node := node {
  n_ticket : Ticket; n_oldest : option Oldest;
  n_left : option Index; n_right : option Index; n_parent : option Index;
  n_resident : Z; n_height : Z; n_entries : Entries }.
(** [Node::idle], src/layer1/net/src/link/egress/load/credit/wait/tree/mod.rs:155-166. *)
Definition idle : Node := node FIRST None None None None 0 1 Zero.
(** [Node::waiting], src/layer1/net/src/link/egress/load/credit/wait/tree/mod.rs:168-184. *)
Definition waiting (lane : Index) (resident : Z) (entries : Entries) (ticket : Ticket) : Node :=
  node ticket (Some (oldest_of ticket lane)) None None None resident 1 entries.

Definition with_left (n : Node) (c : option Index) : Node :=
  node (n_ticket n) (n_oldest n) c (n_right n) (n_parent n) (n_resident n) (n_height n) (n_entries n).
Definition with_right (n : Node) (c : option Index) : Node :=
  node (n_ticket n) (n_oldest n) (n_left n) c (n_parent n) (n_resident n) (n_height n) (n_entries n).
Definition with_parent (n : Node) (p : option Index) : Node :=
  node (n_ticket n) (n_oldest n) (n_left n) (n_right n) p (n_resident n) (n_height n) (n_entries n).
Definition with_summary (n : Node) (h : Z) (o : option Oldest) : Node :=
  node (n_ticket n) o (n_left n) (n_right n) (n_parent n) (n_resident n) h (n_entries n).

(** The table of nodes, one per lane. *)
Definition Nodes : Type := list Node.
Definition at_ (s : Nodes) (i : Index) : option Node := if 1 <=? i then s !! Z.to_nat (offset i) else None.
Definition put (s : Nodes) (i : Index) (n : Node) : Nodes := <[Z.to_nat (offset i) := n]> s.

Section edit.
Context {E : Type}.

(** [Nodes::get], src/layer1/net/src/link/egress/load/credit/wait/store/nodes.rs:16-23. Unchecked: an index outside the table is undefined. *)
Definition get (s : Nodes) (i : Index) : run E Node :=
  match at_ s i with Some n => Ok n | None => Stuck Undefined end.
(** [Nodes::get_mut], src/layer1/net/src/link/egress/load/credit/wait/store/nodes.rs:25-32. As an edit of the node. *)
Definition edit (s : Nodes) (i : Index) (f : Node -> Node) : run E Nodes :=
  let! n := get s i in Ok (put s i (f n)).

(** [Node::height], src/layer1/net/src/link/egress/load/credit/wait/tree/mod.rs:190-195. *)
Definition height (s : Nodes) (i : option Index) : run E Z :=
  match i with Some i => let! n := get s i in Ok (n_height n) | None => Ok 0 end.
(** [Oldest::at], src/layer1/net/src/link/egress/load/credit/wait/tree/mod.rs:114-116. *)
Definition oldest_at (s : Nodes) (i : option Index) : run E (option Oldest) :=
  match i with Some i => let! n := get s i in Ok (n_oldest n) | None => Ok None end.
(** Addition of heights, a [u8]. *)
Definition add8 (a b : Z) : run E Z := if a + b <=? 255 then Ok (a + b) else Stuck Panic.

(** [Edit::left], src/layer1/net/src/link/egress/load/credit/wait/tree/edit.rs:21-26. *)
Definition left (s : Nodes) (parent : Index) (child : option Index) : run E Nodes :=
  let! s := edit s parent (fun n => with_left n child) in
  match child with Some c => edit s c (fun n => with_parent n (Some parent)) | None => Ok s end.
(** [Edit::right], src/layer1/net/src/link/egress/load/credit/wait/tree/edit.rs:28-33. *)
Definition right (s : Nodes) (parent : Index) (child : option Index) : run E Nodes :=
  let! s := edit s parent (fun n => with_right n child) in
  match child with Some c => edit s c (fun n => with_parent n (Some parent)) | None => Ok s end.
(** [Edit::splice], src/layer1/net/src/link/egress/load/credit/wait/tree/edit.rs:35-41. *)
Definition splice (s : Nodes) (parent index : Index) (child : option Index) : run E Nodes :=
  let! n := get s parent in
  if bool_decide (n_left n = Some index) then left s parent child else right s parent child.

(** [Edit::update], src/layer1/net/src/link/egress/load/credit/wait/tree/edit.rs:43-58. *)
Definition update (s : Nodes) (i : Index) : run E Nodes :=
  let! n := get s i in
  let own := Some (oldest_of (n_ticket n) i) in
  let! l := oldest_at s (n_left n) in
  let! r := oldest_at s (n_right n) in
  let oldest := best (best l own) r in
  let! hl := height s (n_left n) in
  let! hr := height s (n_right n) in
  let! h := add8 (Z.max hl hr) 1 in
  edit s i (fun n => with_summary n h oldest).

(** [Tilt], src/layer1/net/src/link/egress/load/credit/wait/tree/edit.rs:8-12. *)
Inductive Tilt := TLeft (pivot : Index) | Level | TRight (pivot : Index).
(** [Edit::tilt], src/layer1/net/src/link/egress/load/credit/wait/tree/edit.rs:60-71. *)
Definition tilt (s : Nodes) (i : Index) : run E Tilt :=
  let! n := get s i in
  let! l := height s (n_left n) in
  let! r := height s (n_right n) in
  let! r1 := add8 r 1 in
  if r1 <? l then Ok (match n_left n with Some p => TLeft p | None => Level end)
  else
    let! l1 := add8 l 1 in
    if l1 <? r then Ok (match n_right n with Some p => TRight p | None => Level end) else Ok Level.

(** [Edit::rotate_left], src/layer1/net/src/link/egress/load/credit/wait/tree/edit.rs:73-82. *)
Definition rotate_left (s : Nodes) (index pivot : Index) : run E (Index * Nodes) :=
  let! n := get s index in
  let parent := n_parent n in
  let! p := get s pivot in
  let middle := n_left p in
  let! s := right s index middle in
  let! s := left s pivot (Some index) in
  let! s := edit s pivot (fun n => with_parent n parent) in
  let! s := update s index in
  let! s := update s pivot in
  Ok (pivot, s).
(** [Edit::rotate_right], src/layer1/net/src/link/egress/load/credit/wait/tree/edit.rs:84-93. *)
Definition rotate_right (s : Nodes) (index pivot : Index) : run E (Index * Nodes) :=
  let! n := get s index in
  let parent := n_parent n in
  let! p := get s pivot in
  let middle := n_right p in
  let! s := left s index middle in
  let! s := right s pivot (Some index) in
  let! s := edit s pivot (fun n => with_parent n parent) in
  let! s := update s index in
  let! s := update s pivot in
  Ok (pivot, s).

(** [Edit::rebalance], src/layer1/net/src/link/egress/load/credit/wait/tree/edit.rs:95-120. *)
Definition rebalance (s : Nodes) (index : Index) : run E (Index * Nodes) :=
  let! s := update s index in
  let! t := tilt s index in
  match t with
  | TLeft pivot =>
      let! n := get s pivot in
      let! hr := height s (n_right n) in
      let! hl := height s (n_left n) in
      let! (pivot, s) :=
        match n_right n with
        | Some child =>
            if hl <? hr then
              let! (pivot, s) := rotate_left s pivot child in
              let! s := left s index (Some pivot) in Ok (pivot, s)
            else Ok (pivot, s)
        | None => Ok (pivot, s)
        end in
      rotate_right s index pivot
  | TRight pivot =>
      let! n := get s pivot in
      let! hl := height s (n_left n) in
      let! hr := height s (n_right n) in
      let! (pivot, s) :=
        match n_left n with
        | Some child =>
            if hr <? hl then
              let! (pivot, s) := rotate_right s pivot child in
              let! s := right s index (Some pivot) in Ok (pivot, s)
            else Ok (pivot, s)
        | None => Ok (pivot, s)
        end in
      rotate_left s index pivot
  | Level => Ok (index, s)
  end.

(** The order of lanes: by resident bytes, then by position. *)
Definition before (a b : Z * Index) : bool := (a.1 <? b.1) || ((a.1 =? b.1) && (a.2 <? b.2)).

(** [Edit::insert], src/layer1/net/src/link/egress/load/credit/wait/tree/edit.rs:122-134. The fuel bounds the depth. *)
Fixpoint insert (fuel : nat) (s : Nodes) (root : option Index) (index : Index) : run E (Index * Nodes) :=
  match root, fuel with
  | None, _ => Ok (index, s)
  | Some _, O => Stuck Fuel
  | Some root, S fuel =>
      let! a := get s index in
      let! b := get s root in
      let! s :=
        if before (n_resident a, index) (n_resident b, root) then
          let! (l, s) := insert fuel s (n_left b) index in left s root (Some l)
        else
          let! (r, s) := insert fuel s (n_right b) index in right s root (Some r) in
      rebalance s root
  end.

(** [Edit::minimum], src/layer1/net/src/link/egress/load/credit/wait/tree/edit.rs:136-143. *)
Fixpoint minimum (fuel : nat) (s : Nodes) (root : Index) (parent : option Index) : run E (Index * option Index) :=
  match fuel with
  | O => Stuck Fuel
  | S fuel =>
      let! n := get s root in
      match n_left n with
      | Some l => minimum fuel s l (Some root)
      | None => Ok (root, parent)
      end
  end.

(** [Edit::replace], src/layer1/net/src/link/egress/load/credit/wait/tree/edit.rs:145-156. *)
Definition replace (s : Nodes) (root : option Index) (index : Index) (child : option Index) :
    run E (option Index * Nodes) :=
  let! n := get s index in
  match n_parent n with
  | Some parent => let! s := splice s parent index child in Ok (root, s)
  | None =>
      let! s := match child with Some c => edit s c (fun n => with_parent n None) | None => Ok s end in
      Ok (child, s)
  end.

(** [Edit::restore], src/layer1/net/src/link/egress/load/credit/wait/tree/edit.rs:158-171. *)
Fixpoint restore (fuel : nat) (s : Nodes) (root current : option Index) : run E (option Index * Nodes) :=
  match current, fuel with
  | None, _ => Ok (root, s)
  | Some _, O => Stuck Fuel
  | Some index, S fuel =>
      let! n := get s index in
      let parent := n_parent n in
      let! (balanced, s) := rebalance s index in
      match parent with
      | Some p => let! s := splice s p index (Some balanced) in restore fuel s root parent
      | None =>
          let! s := edit s balanced (fun n => with_parent n None) in
          restore fuel s (Some balanced) parent
      end
  end.

(** More turns than a path through the table has nodes. *)
Definition fuel_of (s : Nodes) : nat := S (length s).

(** [Edit::remove], src/layer1/net/src/link/egress/load/credit/wait/tree/edit.rs:173-202. *)
Definition remove (s : Nodes) (root : option Index) (index : Index) : run E (option Index * Nodes) :=
  let! n := get s index in
  match n_left n, n_right n with
  | None, child | child, None =>
      let parent := n_parent n in
      let! (root, s) := replace s root index child in
      restore (fuel_of s) s root parent
  | Some l, Some r =>
      let! (next, parent) := minimum (fuel_of s) s r None in
      match parent with
      | None =>
          let! (root, s) := replace s root index (Some next) in
          let! s := left s next (Some l) in
          restore (fuel_of s) s root (Some next)
      | Some parent =>
          let! m := get s next in
          let child := n_right m in
          let! s := left s parent child in
          let! (root, s) := replace s root index (Some next) in
          let! s := left s next (Some l) in
          let! s := right s next (Some r) in
          restore (fuel_of s) s root (Some parent)
      end
  end.

(** [Oldest::eligible], src/layer1/net/src/link/egress/load/credit/wait/tree/mod.rs:122-140. *)
Fixpoint eligible_below (fuel : nat) (s : Nodes) (i : option Index) (resident : Z) : run E (option Oldest) :=
  match i, fuel with
  | None, _ => Ok None
  | Some _, O => Stuck Fuel
  | Some i, S fuel =>
      let! n := get s i in
      if resident <? n_resident n then eligible_below fuel s (n_left n) resident
      else
        let! l := oldest_at s (n_left n) in
        let own := Some (oldest_of (n_ticket n) i) in
        let! r := eligible_below fuel s (n_right n) resident in
        Ok (best (best l own) r)
  end.
End edit.

(** ** The three trees *)

(** [State], src/layer1/net/src/link/egress/load/credit/wait/tree/mod.rs:198-202. The roots. *)
Record Roots := roots { r_zero : option Index; r_one : option Index; r_two : option Index }.
(** [State::new], src/layer1/net/src/link/egress/load/credit/wait/tree/mod.rs:205-211. *)
Definition roots_new : Roots := roots None None None.
(** [State::get], src/layer1/net/src/link/egress/load/credit/wait/tree/mod.rs:213-219. *)
Definition root_of (self : Roots) (e : Entries) : option Index :=
  match e with Zero => r_zero self | One => r_one self | Two => r_two self end.
(** [State::is_empty], src/layer1/net/src/link/egress/load/credit/wait/tree/mod.rs:221-223. *)
Definition is_empty (self : Roots) : bool :=
  match r_zero self, r_one self, r_two self with None, None, None => true | _, _, _ => false end.
(** [State::set], src/layer1/net/src/link/egress/load/credit/wait/tree/mod.rs:225-231. *)
Definition set_root (self : Roots) (e : Entries) (root : option Index) : Roots :=
  match e with
  | Zero => roots root (r_one self) (r_two self)
  | One => roots (r_zero self) root (r_two self)
  | Two => roots (r_zero self) (r_one self) root
  end.

Section state.
Context {E : Type}.

(** [State::insert_node], src/layer1/net/src/link/egress/load/credit/wait/tree/mod.rs:315-322. *)
Definition insert_node (self : Roots) (s : Nodes) (index : Index) (n : Node) : run E (Roots * Nodes) :=
  let entries := n_entries n in
  let! s := edit s index (fun _ => n) in
  let! (root, s) := insert (fuel_of s) s (root_of self entries) index in
  let! s := edit s root (fun n => with_parent n None) in
  Ok (set_root self entries (Some root), s).
(** [State::insert], src/layer1/net/src/link/egress/load/credit/wait/tree/mod.rs:240-254. *)
Definition state_insert (self : Roots) (s : Nodes) (index : Index) (demand : Z * Z) (ticket : Ticket) :
    run E (Roots * Nodes) :=
  insert_node self s index (waiting index demand.2 (entries_from demand.1) ticket).
(** [State::remove], src/layer1/net/src/link/egress/load/credit/wait/tree/mod.rs:256-265. *)
Definition state_remove (self : Roots) (s : Nodes) (index : Index) : run E (Roots * Nodes) :=
  let! n := get s index in
  let entries := n_entries n in
  let! (root, s) := remove s (root_of self entries) index in
  Ok (set_root self entries root, s).
(** [State::refresh], src/layer1/net/src/link/egress/load/credit/wait/tree/mod.rs:267-286. *)
Definition state_refresh (self : Roots) (s : Nodes) (index : Index) (demand : Z * Z) : run E (Roots * Nodes) :=
  let! n := get s index in
  let ticket := n_ticket n in
  let entries := entries_from demand.1 in
  if bool_decide (n_entries n = entries) && (n_resident n =? demand.2) then Ok (self, s)
  else
    let! (self, s) := state_remove self s index in
    insert_node self s index (waiting index demand.2 entries ticket).

(** [State::oldest_view], src/layer1/net/src/link/egress/load/credit/wait/tree/mod.rs:233-238. *)
Definition oldest_view (self : Roots) (s : Nodes) : run E (option Oldest) :=
  let! zero := oldest_at s (r_zero self) in
  let! one := oldest_at s (r_one self) in
  let! two := oldest_at s (r_two self) in
  Ok (best (best zero one) two).
(** [State::oldest], src/layer1/net/src/link/egress/load/credit/wait/tree/mod.rs:288-293. *)
Definition state_oldest (self : Roots) (s : Nodes) : run E (option Index) :=
  let! o := oldest_view self s in Ok (available o).
(** [State::eligible], src/layer1/net/src/link/egress/load/credit/wait/tree/mod.rs:295-313. *)
Definition state_eligible (self : Roots) (s : Nodes) (shared : Z * Z) : run E (option Index) :=
  let resident := shared.2 in
  let! zero := eligible_below (fuel_of s) s (r_zero self) resident in
  let entries := shared.1 in
  let! oldest :=
    if entries =? 0 then Ok zero
    else if entries =? 1 then
      let! one := eligible_below (fuel_of s) s (r_one self) resident in Ok (best zero one)
    else
      let! one := eligible_below (fuel_of s) s (r_one self) resident in
      let! two := eligible_below (fuel_of s) s (r_two self) resident in
      Ok (best (best zero one) two) in
  Ok (available oldest).
End state.
End Tree.
