(* ===== verification/CreditAvl.v ===== *)
(** * Balanced trees of waiting lanes.

    The trees that the table of [CreditTree] stands for: balancing, insertion,
    deletion from a path, their order and their height, and the oldest lane below a
    bound. *)

From Stdlib Require Import Sorted.
From stdpp Require Import sorting.
From S2P Require Import Prelude CreditTree.

Module Avl.
Import CreditTree.Tree.

(** A lane with its resident demand and its ticket. *)
Record Elem := elem { e_lane : Index; e_res : Z; e_tick : Ticket }.
#[export] Instance elem_dec : EqDecision Elem.
Proof. solve_decision. Defined.
Definition key (x : Elem) : Z * Index := (e_res x, e_lane x).
Definition own (x : Elem) : Oldest := oldest_of (e_tick x) (e_lane x).

Inductive tree := Leaf | T (l : tree) (x : Elem) (r : tree).
Fixpoint els (t : tree) : list Elem := match t with Leaf => [] | T l x r => els l ++ x :: els r end.
Fixpoint ht (t : tree) : Z := match t with Leaf => 0 | T l _ r => Z.max (ht l) (ht r) + 1 end.
Definition root (t : tree) : option Index := match t with Leaf => None | T _ x _ => Some (e_lane x) end.
Fixpoint old (t : tree) : option Oldest :=
  match t with Leaf => None | T l x r => best (best (old l) (Some (own x))) (old r) end.
Definition lanes (t : tree) : list Index := e_lane <$> els t.

(** ** The oldest of a list *)

Fixpoint oldest_in (l : list Elem) : option Oldest :=
  match l with [] => None | x :: l => best (Some (own x)) (oldest_in l) end.

Lemma best_assoc a b c : best (best a b) c = best a (best b c).
Proof.
  destruct a as [a|], b as [b|], c as [c|]; simpl; try done; f_equal.
  destruct (Z.leb_spec (o_ticket a) (o_ticket b)), (Z.leb_spec (o_ticket b) (o_ticket c)); simpl;
    try (destruct (Z.leb_spec (o_ticket a) (o_ticket c))); try (destruct (Z.leb_spec (o_ticket a) (o_ticket b)));
    try (destruct (Z.leb_spec (o_ticket b) (o_ticket c))); try done; lia.
Qed.
Lemma best_none a : best a None = a.
Proof. by destruct a. Qed.
Lemma oldest_app l k : oldest_in (l ++ k) = best (oldest_in l) (oldest_in k).
Proof. induction l as [|x l IH]; [done|]. cbn [app oldest_in]. by rewrite IH, best_assoc. Qed.
Lemma old_els t : old t = oldest_in (els t).
Proof.
  induction t as [|l IHl x r IHr]; [done|]. cbn [old els]. rewrite oldest_app. cbn [oldest_in].
  by rewrite best_assoc, IHl, IHr.
Qed.

(** It is one of them, and none has an earlier ticket. *)
Lemma oldest_in_spec l :
  match oldest_in l with
  | None => l = []
  | Some o => exists x, x ∈ l /\ o = own x /\ forall y, y ∈ l -> e_tick x <= e_tick y
  end.
Proof.
  induction l as [|x l IH]; [done|]. cbn [oldest_in]. destruct (oldest_in l) as [o|]; simpl.
  - destruct IH as (y & Hy & -> & Hle). simpl. destruct (Z.leb_spec (e_tick x) (e_tick y)).
    + exists x. split; [set_solver|]. split; [done|]. intros z [->|Hz]%elem_of_cons; [lia|]. specialize (Hle z Hz). lia.
    + exists y. split; [set_solver|]. split; [done|]. intros z [->|Hz]%elem_of_cons; [lia|auto].
  - subst l. exists x. split; [set_solver|]. split; [done|]. set_solver by lia.
Qed.

Lemma fmap_distinct {A B} (f : A -> B) l x y : NoDup (f <$> l) -> x ∈ l -> y ∈ l -> f x = f y -> x = y.
Proof.
  intros Hnd [i Hi]%list_elem_of_lookup [j Hj]%list_elem_of_lookup Heq.
  assert (i = j) as <-; [|congruence].
  eapply (NoDup_lookup (f <$> l)); [done|by rewrite list_lookup_fmap, Hi|by rewrite list_lookup_fmap, Hj, Heq].
Qed.

(** Where tickets are distinct the order of the list does not matter. *)
Lemma oldest_perm l k : NoDup (e_tick <$> l) -> l ≡ₚ k -> oldest_in l = oldest_in k.
Proof.
  intros Hnd Hp. pose proof (oldest_in_spec l) as Hl. pose proof (oldest_in_spec k) as Hk.
  destruct (oldest_in l) as [a|], (oldest_in k) as [b|]; try done.
  - destruct Hl as (x & Hx & -> & Hlx), Hk as (y & Hy & -> & Hky).
    assert (x = y) as ->; [|done]. rewrite <- Hp in Hy. apply (fmap_distinct e_tick l); [done..|].
    specialize (Hlx y Hy). rewrite Hp in Hx. specialize (Hky x Hx). lia.
  - subst k. destruct Hl as (x & Hx & _). rewrite Hp in Hx. by apply elem_of_nil in Hx.
  - subst l. destruct Hk as (x & Hx & _). rewrite <- Hp in Hx. by apply elem_of_nil in Hx.
Qed.

(** ** Balancing *)

Fixpoint avl (t : tree) : Prop :=
  match t with Leaf => True | T l _ r => avl l /\ avl r /\ -1 <= ht l - ht r <= 1 end.
Lemma ht_size t : ht t <= Z.of_nat (length (els t)).
Proof. induction t; simpl; [done|]. rewrite length_app. simpl. lia. Qed.
Lemma ht_nonneg t : 0 <= ht t.
Proof. induction t; simpl; lia. Qed.

Definition turn_right (l : tree) (x : Elem) (r : tree) : tree :=
  match l with T a y b => T a y (T b x r) | Leaf => T l x r end.
Definition turn_left (l : tree) (x : Elem) (r : tree) : tree :=
  match r with T a y b => T (T l x a) y b | Leaf => T l x r end.
(** The tree of a node whose subtrees may differ by two levels. *)
Definition bal (l : tree) (x : Elem) (r : tree) : tree :=
  if ht r + 1 <? ht l then
    match l with
    | T a y b => turn_right (if ht a <? ht b then turn_left a y b else l) x r
    | Leaf => T l x r
    end
  else if ht l + 1 <? ht r then
    match r with
    | T a y b => turn_left l x (if ht b <? ht a then turn_right a y b else r)
    | Leaf => T l x r
    end
  else T l x r.

Lemma els_turn_right l x r : els (turn_right l x r) = els l ++ x :: els r.
Proof. destruct l; simpl; [done|]. by rewrite <- (assoc_L app). Qed.
Lemma els_turn_left l x r : els (turn_left l x r) = els l ++ x :: els r.
Proof. destruct r; simpl; [done|]. by rewrite <- (assoc_L app). Qed.
Lemma els_bal l x r : els (bal l x r) = els l ++ x :: els r.
Proof.
  unfold bal. destruct (_ <? _); [|destruct (_ <? _); [|done]].
  - destruct l as [|a y b]; [done|]. rewrite els_turn_right. destruct (_ <? _); [|done]. by rewrite els_turn_left.
  - destruct r as [|a y b]; [done|]. rewrite els_turn_left. destruct (_ <? _); [|done]. by rewrite els_turn_right.
Qed.

(** Balancing restores balance, at the height of the taller side or one more. *)
Lemma avl_bal l x r : avl l -> avl r -> -2 <= ht l - ht r <= 2 ->
  avl (bal l x r) /\ Z.max (ht l) (ht r) <= ht (bal l x r) <= Z.max (ht l) (ht r) + 1
  /\ (-1 <= ht l - ht r <= 1 -> ht (bal l x r) = Z.max (ht l) (ht r) + 1).
Proof.
  intros Hl Hr Hd. unfold bal.
  pose proof (ht_nonneg l). pose proof (ht_nonneg r).
  destruct (Z.ltb_spec (ht r + 1) (ht l)); [|destruct (Z.ltb_spec (ht l + 1) (ht r)); [|simpl; repeat split; try done; lia]].
  - destruct l as [|a y b]; [simpl in *; lia|]. destruct Hl as (Ha & Hb & Hab). simpl in *.
    destruct (Z.ltb_spec (ht a) (ht b)); [|simpl; repeat split; try done; lia].
    destruct b as [|c z d]; [simpl in *; pose proof (ht_nonneg a); lia|].
    destruct Hb as (Hc & Hdd & Hcd). simpl in *. repeat split; try done; lia.
  - destruct r as [|a y b]; [simpl in *; lia|]. destruct Hr as (Ha & Hb & Hab). simpl in *.
    destruct (Z.ltb_spec (ht b) (ht a)); [|simpl; repeat split; try done; lia].
    destruct a as [|c z d]; [simpl in *; pose proof (ht_nonneg b); lia|].
    destruct Ha as (Hc & Hdd & Hcd). simpl in *. repeat split; try done; lia.
Qed.

(** A balanced tree of [h] levels has at least [2^(h/2) - 1] lanes. *)
Lemma avl_size t : avl t -> 2 ^ (ht t / 2) <= Z.of_nat (length (els t)) + 1.
Proof.
  induction t as [|l IHl x r IHr]; [done|]. intros (Hl & Hr & Hd). simpl.
  rewrite length_app. simpl. pose proof (ht_nonneg l). pose proof (ht_nonneg r).
  assert (Hm : (Z.max (ht l) (ht r) + 1) / 2 = (Z.max (ht l) (ht r) - 1) / 2 + 1) by (Z.div_mod_to_equations; lia).
  destruct (decide (Z.max (ht l) (ht r) = 0)) as [Hz|Hz].
  - rewrite Hz. change (2 ^ ((0 + 1) / 2)) with 1. lia.
  - rewrite Hm, Z.pow_add_r by (Z.div_mod_to_equations; lia).
    assert (forall h, Z.max (ht l) (ht r) - 1 <= h -> 2 ^ ((Z.max (ht l) (ht r) - 1) / 2) <= 2 ^ (h / 2)) as Hmono.
    { intros h Hh. apply Z.pow_le_mono_r; [lia|]. apply Z.div_le_mono; lia. }
    pose proof (Hmono (ht l) ltac:(lia)). pose proof (Hmono (ht r) ltac:(lia)).
    specialize (IHl Hl). specialize (IHr Hr). lia.
Qed.

(** No table of lanes holds a tree of more than 65 levels. *)
Lemma avl_height t : avl t -> Z.of_nat (length (els t)) < 2 ^ 32 -> ht t <= 65.
Proof.
  intros Ha Hn. pose proof (avl_size t Ha) as Hs. destruct (Z.le_gt_cases (ht t) 65); [done|].
  assert (2 ^ 33 <= 2 ^ (ht t / 2)); [|lia]. apply Z.pow_le_mono_r; [lia|]. Z.div_mod_to_equations; lia.
Qed.

(** ** Order and insertion *)

Definition lt_key (a b : Elem) : Prop := before (key a) (key b) = true.
Definition ordered (t : tree) : Prop := StronglySorted lt_key (els t).

Lemma elem_before_spec a b : before a b = true <-> a.1 < b.1 \/ (a.1 = b.1 /\ a.2 < b.2).
Proof. unfold before. rewrite orb_true_iff, andb_true_iff, !Z.ltb_lt, Z.eqb_eq. done. Qed.
#[export] Instance lt_key_trans : Transitive lt_key.
Proof. intros a b c. unfold lt_key. rewrite !elem_before_spec. lia. Qed.
Lemma lt_key_total a b : e_lane a <> e_lane b -> lt_key a b \/ lt_key b a.
Proof. unfold lt_key. rewrite !elem_before_spec. simpl. lia. Qed.

Lemma sorted_app l k : StronglySorted lt_key (l ++ k) <->
  StronglySorted lt_key l /\ StronglySorted lt_key k /\ forall a b, a ∈ l -> b ∈ k -> lt_key a b.
Proof. rewrite StronglySorted_app. tauto. Qed.

Fixpoint ins (t : tree) (x : Elem) : tree :=
  match t with
  | Leaf => T Leaf x Leaf
  | T l y r => if before (key x) (key y) then bal (ins l x) y r else bal l y (ins r x)
  end.

(** Insertion puts the lane in its place among the others. *)
Lemma els_ins t x : ordered t -> e_lane x ∉ lanes t ->
  exists l k, els t = l ++ k /\ els (ins t x) = l ++ x :: k
    /\ Forall (fun y => lt_key y x) l /\ Forall (lt_key x) k.
Proof.
  unfold ordered, lanes. induction t as [|l IHl y r IHr]; simpl.
  - intros _ _. exists [], []. repeat split; constructor.
  - rewrite sorted_app. intros (Hl & [Hr Hyr]%StronglySorted_inv & Hab) Hx.
    rewrite fmap_app, fmap_cons, not_elem_of_app, not_elem_of_cons in Hx. destruct Hx as (Hxl & Hxy & Hxr).
    rewrite Forall_forall in Hyr. destruct (before (key x) (key y)) eqn:Hb; rewrite els_bal.
    + destruct (IHl Hl Hxl) as (a & b & -> & -> & Ha & Hbb). exists a, (b ++ y :: els r).
      split; [by rewrite <- (assoc_L app)|]. split; [by rewrite <- (assoc_L app)|]. split; [done|].
      apply Forall_app. split; [done|]. constructor; [done|]. apply Forall_forall. intros z Hz.
      transitivity y; [done|auto].
    + destruct (IHr Hr Hxr) as (a & b & Her & -> & Ha & Hbb). exists (els l ++ y :: a), b.
      rewrite Her. split; [by rewrite <- (assoc_L app)|]. split; [by rewrite <- (assoc_L app)|]. split; [|done].
      assert (lt_key y x) as Hyx by (destruct (lt_key_total x y Hxy); [unfold lt_key in *; congruence|done]).
      apply Forall_app. split; [|by constructor]. apply Forall_forall. intros z Hz. transitivity y; [|done].
      apply Hab; set_solver.
Qed.
Lemma ins_perm t x : els (ins t x) ≡ₚ x :: els t.
Proof.
  induction t as [|l IHl y r IHr]; [done|]. simpl. destruct (before _ _); rewrite els_bal.
  - by rewrite IHl.
  - rewrite IHr, (perm_swap x y). symmetry. apply Permutation_middle.
Qed.
Lemma ordered_ins t x : ordered t -> e_lane x ∉ lanes t -> ordered (ins t x).
Proof.
  intros Ho Hx. destruct (els_ins t x Ho Hx) as (l & k & Ht & Hi & Hl & Hk). unfold ordered in *. rewrite Hi. rewrite Ht in Ho.
  apply sorted_app in Ho as (Hsl & Hsk & Hab). apply sorted_app. rewrite Forall_forall in Hl. split; [done|]. split; [by constructor|].
  intros a b Ha [->|Hb]%elem_of_cons; auto.
Qed.
Lemma avl_ins t x : avl t -> avl (ins t x) /\ ht t <= ht (ins t x) <= ht t + 1.
Proof.
  induction t as [|l IHl y r IHr]; [simpl; repeat split; lia|].
  intros (Hl & Hr & Hd). specialize (IHl Hl) as (Hal & Hhl). specialize (IHr Hr) as (Har & Hhr).
  pose proof (ht_nonneg l). pose proof (ht_nonneg r). cbn [ins ht].
  destruct (before _ _).
  - destruct (avl_bal (ins l x) y r Hal Hr) as (? & ? & Heq); [lia|]. split; [done|].
    destruct (decide (ht (ins l x) - ht r <= 1)); [rewrite Heq; lia|lia].
  - destruct (avl_bal l y (ins r x) Hl Har) as (? & ? & Heq); [lia|]. split; [done|].
    destruct (decide (-1 <= ht l - ht (ins r x))); [rewrite Heq; lia|lia].
Qed.

(** ** Paths and deletion *)

(** One step of a path from a subtree to the root: what lies on the other side. *)
Inductive frame := FL (x : Elem) (r : tree) | FR (l : tree) (x : Elem).
Definition plug (t : tree) (f : frame) : tree := match f with FL x r => T t x r | FR l x => T l x t end.
Definition plugs (t : tree) (fs : list frame) : tree := fold_left plug fs t.
Definition up (t : tree) (f : frame) : tree := match f with FL x r => bal t x r | FR l x => bal l x t end.
Definition ups (t : tree) (fs : list frame) : tree := fold_left up fs t.
Definition f_elem (f : frame) : Elem := match f with FL x _ | FR _ x => x end.
Definition f_side (f : frame) : tree := match f with FL _ t | FR t _ => t end.
Fixpoint pre (fs : list frame) : list Elem :=
  match fs with [] => [] | FL _ _ :: fs => pre fs | FR l x :: fs => pre fs ++ els l ++ [x] end.
Fixpoint post (fs : list frame) : list Elem :=
  match fs with [] => [] | FL x r :: fs => x :: els r ++ post fs | FR _ _ :: fs => post fs end.

Lemma els_plugs t fs : els (plugs t fs) = pre fs ++ els t ++ post fs.
Proof.
  revert t. induction fs as [|[x r|l x] fs IH]; intros t; simpl; [by rewrite app_nil_r| |];
    rewrite IH; simpl; by rewrite <- !(assoc_L app).
Qed.
Lemma els_ups t fs : els (ups t fs) = pre fs ++ els t ++ post fs.
Proof.
  revert t. induction fs as [|[x r|l x] fs IH]; intros t; simpl; [by rewrite app_nil_r| |];
    rewrite IH, els_bal; simpl; by rewrite <- !(assoc_L app).
Qed.

Lemma avl_plugs t fs : avl (plugs t fs) -> avl t.
Proof. revert t. induction fs as [|[x r|l x] fs IH]; intros t; simpl; [done|intros (? & ? & ?)%IH; done..]. Qed.

(** Where a subtree lost at most one level, balancing along its path restores the
    balance, and the whole loses at most one. *)
Lemma avl_ups t t0 fs : avl (plugs t0 fs) -> avl t -> ht t0 - 1 <= ht t <= ht t0 ->
  avl (ups t fs) /\ ht (plugs t0 fs) - 1 <= ht (ups t fs) <= ht (plugs t0 fs).
Proof.
  revert t t0. induction fs as [|f fs IH]; intros t t0 Hp Ht Hh; [done|].
  change (plugs t0 (f :: fs)) with (plugs (plug t0 f) fs) in *.
  change (ups t (f :: fs)) with (ups (up t f) fs).
  pose proof (avl_plugs _ _ Hp) as Hf. apply (IH _ (plug t0 f)); [done|..].
  - destruct f as [x r|l x]; simpl in *; destruct Hf as (? & ? & ?); apply avl_bal; try done; lia.
  - destruct f as [x r|l x]; simpl in *; destruct Hf as (? & ? & ?).
    + destruct (avl_bal t x r) as (_ & ? & Heq); [done|done|lia|].
      destruct (decide (-1 <= ht t - ht r)); [rewrite Heq|]; lia.
    + destruct (avl_bal l x t) as (_ & ? & Heq); [done|done|lia|].
      destruct (decide (ht l - ht t <= 1)); [rewrite Heq|]; lia.
Qed.

(** The path from the first lane of a tree, and what is to its right. *)
Fixpoint first (l : tree) (x : Elem) (r : tree) : Elem * tree * list frame :=
  match l with Leaf => (x, r, []) | T a y b => let '(m, k, fs) := first a y b in (m, k, fs ++ [FL x r]) end.
Lemma first_plugs l x r : let '(m, k, fs) := first l x r in plugs (T Leaf m k) fs = T l x r.
Proof.
  revert x r. induction l as [|a IHa y b _]; intros x r; simpl; [done|].
  specialize (IHa y b). destruct (first a y b) as [[m k] fs]. unfold plugs in *. rewrite fold_left_app. simpl. by rewrite IHa.
Qed.

(** The lane [x] taken out of [T l x r] at the end of a path. *)
Definition del (l : tree) (x : Elem) (r : tree) (fs : list frame) : tree :=
  match l, r with
  | Leaf, t | t, Leaf => ups t fs
  | _, T a y b => let '(m, k, gs) := first a y b in ups k (gs ++ FR l m :: fs)
  end.
Lemma pre_app gs fs : pre (gs ++ fs) = pre fs ++ pre gs.
Proof. induction gs as [|[x r|l x] gs IH]; simpl; [by rewrite app_nil_r|exact IH|]. by rewrite IH, <- !(assoc_L app). Qed.
Lemma post_app gs fs : post (gs ++ fs) = post gs ++ post fs.
Proof. induction gs as [|[x r|l x] gs IH]; simpl; [done| |exact IH]. by rewrite IH, <- !(assoc_L app). Qed.
Lemma first_pre l x r : pre (first l x r).2 = [].
Proof. revert x r. induction l as [|a IHa y b _]; intros x r; simpl; [done|]. specialize (IHa y b). destruct (first a y b) as [[m k] fs]. simpl in *. by rewrite pre_app, IHa. Qed.

Lemma els_del l x r fs : els (del l x r fs) = pre fs ++ (els l ++ els r) ++ post fs.
Proof.
  destruct l as [|la lx lb]; [simpl; by rewrite els_ups|].
  destruct r as [|a y b]; [simpl; by rewrite els_ups, app_nil_r|]. unfold del.
  pose proof (first_plugs a y b) as Hp. pose proof (first_pre a y b) as Hpre.
  destruct (first a y b) as [[m k] gs]. simpl in Hpre.
  assert (els (T a y b) = m :: els k ++ post gs) as Hr by (by rewrite <- Hp, els_plugs, Hpre).
  rewrite els_ups, pre_app, post_app, Hpre, Hr, app_nil_r. cbn [pre post]. rewrite <- !(assoc_L app). simpl. by rewrite <- !(assoc_L app).
Qed.
Lemma els_around l x r fs : els (plugs (T l x r) fs) = (pre fs ++ els l) ++ x :: (els r ++ post fs).
Proof. rewrite els_plugs. simpl. by rewrite <- !(assoc_L app). Qed.
Lemma del_perm l x r fs : els (plugs (T l x r) fs) ≡ₚ x :: els (del l x r fs).
Proof. rewrite els_around, els_del, <- Permutation_middle. by rewrite <- !(assoc_L app). Qed.
Lemma ordered_del l x r fs : ordered (plugs (T l x r) fs) -> ordered (del l x r fs).
Proof.
  unfold ordered. rewrite els_around, els_del, sorted_app. intros (Ha & [Hb _]%StronglySorted_inv & Hab).
  replace (pre fs ++ (els l ++ els r) ++ post fs) with ((pre fs ++ els l) ++ els r ++ post fs) by (by rewrite <- !(assoc_L app)).
  apply sorted_app. split; [done|]. split; [done|]. intros a b ? ?. apply Hab; set_solver.
Qed.
(** Another node in place of [x] leaves balance and height. *)
Lemma plugs_swap l x r y fs : avl (plugs (T l x r) fs) ->
  avl (plugs (T l y r) fs) /\ ht (plugs (T l y r) fs) = ht (plugs (T l x r) fs).
Proof.
  assert (forall u v, avl (plugs u fs) -> avl v -> ht v = ht u -> avl (plugs v fs) /\ ht (plugs v fs) = ht (plugs u fs)) as Hsame.
  { induction fs as [|f fs IH]; intros u v Hu Hv Huv; simpl in *; [done|].
    change (fold_left plug fs (plug u f)) with (plugs (plug u f) fs) in *. change (fold_left plug fs (plug v f)) with (plugs (plug v f) fs).
    apply IH; [done| |destruct f; simpl; lia].
    pose proof (avl_plugs _ _ Hu) as Hf. destruct f; simpl in *; destruct Hf as (? & ? & ?); repeat split; try done; lia. }
  intros Hp. pose proof (avl_plugs _ _ Hp) as Hx. by apply Hsame.
Qed.
(** The tree whose hole is where the successor of [x] was, with the successor in
    place of [x]. *)
Lemma avl_hole l x a y b fs m k gs : avl (plugs (T l x (T a y b)) fs) -> first a y b = (m, k, gs) ->
  avl (plugs (T Leaf m k) (gs ++ FR l m :: fs)) /\ ht (plugs (T Leaf m k) (gs ++ FR l m :: fs)) = ht (plugs (T l x (T a y b)) fs).
Proof.
  intros Hp Hf. pose proof (first_plugs a y b) as Hfp. rewrite Hf in Hfp.
  unfold plugs. rewrite fold_left_app. fold (plugs (T Leaf m k) gs). rewrite Hfp. simpl. by apply plugs_swap.
Qed.
Lemma avl_del l x r fs : avl (plugs (T l x r) fs) -> avl (del l x r fs).
Proof.
  intros Hp. pose proof (avl_plugs _ _ Hp) as (Hl & Hr & Hd).
  pose proof (ht_nonneg l). pose proof (ht_nonneg r).
  destruct l as [|la lx lb]; [apply (avl_ups r (T Leaf x r)); [done|done|simpl in *; lia]|].
  destruct r as [|a y b]; [apply (avl_ups (T la lx lb) (T (T la lx lb) x Leaf)); [done|done|simpl in *; lia]|].
  unfold del. destruct (first a y b) as [[m k] gs] eqn:Hf. destruct (avl_hole _ _ _ _ _ _ _ _ _ Hp Hf) as [Hg _].
  pose proof (avl_plugs _ _ Hg) as (_ & Hk & Hhk). simpl in Hhk. pose proof (ht_nonneg k).
  apply (avl_ups k (T Leaf m k)); [done|done|simpl; lia].
Qed.

(** ** The oldest lane below a bound *)

Fixpoint elig (t : tree) (resident : Z) : option Oldest :=
  match t with
  | Leaf => None
  | T l x r =>
      if resident <? e_res x then elig l resident
      else best (best (old l) (Some (own x))) (elig r resident)
  end.
Lemma elig_els t resident : ordered t -> elig t resident = oldest_in (filter (fun x => e_res x <= resident) (els t)).
Proof.
  unfold ordered. induction t as [|l IHl x r IHr]; [done|]. cbn [els elig]. rewrite sorted_app.
  intros (Hl & [Hr Hx]%StronglySorted_inv & Hab). rewrite Forall_forall in Hx. rewrite filter_app, oldest_app.
  destruct (Z.ltb_spec resident (e_res x)).
  - rewrite (filter_none _ (x :: els r)); [simpl; by rewrite best_none, IHl|].
    intros y [->|Hy]%elem_of_cons; [lia|]. specialize (Hx y Hy). unfold lt_key in Hx. rewrite elem_before_spec in Hx. simpl in Hx. lia.
  - rewrite filter_cons_True by lia. cbn [oldest_in]. rewrite best_assoc, (IHr Hr), old_els. f_equal. f_equal.
    symmetry. apply filter_all. intros y Hy. specialize (Hab y x Hy ltac:(set_solver)).
    unfold lt_key in Hab. rewrite elem_before_spec in Hab. simpl in Hab. lia.
Qed.
End Avl.
