(* ===== verification/CreditTreeFacts.v ===== *)
(** * The waiting tree refines balanced trees.

    What a table of nodes says of a tree ([rep]), and each edit of the table as the
    operation of [CreditAvl] on the tree: nothing outside the tree is touched. *)

From S2P Require Import Prelude CreditTree CreditAvl.

Module TreeFacts.
Import CreditTree.Tree Avl.

(** ** The table *)

Lemma at_inj i j : 1 <= i -> 1 <= j -> Z.to_nat (offset i) = Z.to_nat (offset j) -> i = j.
Proof. unfold offset. lia. Qed.
Lemma node_put s i n m j : at_ s i = Some m -> at_ (put s i n) j = if decide (j = i) then Some n else at_ s j.
Proof.
  unfold at_, put. destruct (Z.leb_spec 1 i) as [Hi|]; [|done]. intros Hm.
  destruct (decide (j = i)) as [->|Hne].
  - destruct (Z.leb_spec 1 i); [|lia]. apply list_lookup_insert_eq. by eapply lookup_lt_Some.
  - destruct (Z.leb_spec 1 j); [|done]. apply list_lookup_insert_ne. intros Heq. apply Hne. symmetry. by apply at_inj.
Qed.
Lemma length_put s i n : length (put s i n) = length s.
Proof. apply length_insert. Qed.
Lemma at_range s i n : at_ s i = Some n -> 1 <= i <= Z.of_nat (length s).
Proof. unfold at_, offset. destruct (Z.leb_spec 1 i); [|done]. intros Hl%lookup_lt_Some. lia. Qed.
Lemma at_some s i : 1 <= i <= Z.of_nat (length s) -> is_Some (at_ s i).
Proof. intros Hi. unfold at_, offset. destruct (Z.leb_spec 1 i); [|lia]. apply lookup_lt_is_Some. lia. Qed.

Lemma NoDup_T l x r : NoDup (lanes (T l x r)) <->
  NoDup (lanes l) /\ NoDup (lanes r) /\ (e_lane x ∉ lanes l) /\ (e_lane x ∉ lanes r) /\ (forall j, j ∈ lanes l -> j ∈ lanes r -> False).
Proof.
  unfold lanes. simpl. rewrite fmap_app, fmap_cons, NoDup_app, NoDup_cons. set_solver.
Qed.
Lemma lanes_T j l x r : j ∈ lanes (T l x r) <-> j ∈ lanes l \/ j = e_lane x \/ j ∈ lanes r.
Proof. unfold lanes. simpl. rewrite fmap_app, fmap_cons, elem_of_app, elem_of_cons. done. Qed.
Lemma root_lanes t i : root t = Some i -> i ∈ lanes t.
Proof. destruct t; [done|]. intros [= <-]. rewrite lanes_T. auto. Qed.

(** Everything off a set of lanes is as before. *)
Definition off (L : Index -> Prop) (s s' : Nodes) : Prop :=
  length s' = length s /\ forall j, ~ L j -> at_ s' j = at_ s j.
Definition on (t : tree) : Index -> Prop := fun j => j ∈ lanes t.
Lemma off_refl L s : off L s s.
Proof. done. Qed.
Lemma off_trans L s s1 s2 : off L s s1 -> off L s1 s2 -> off L s s2.
Proof. intros [H1 A1] [H2 A2]. split; [congruence|]. intros j Hj. by rewrite A2, A1. Qed.
Lemma off_weaken (L K : Index -> Prop) s s' : (forall j, L j -> K j) -> off L s s' -> off K s s'.
Proof. intros HL [? Ha]. split; [done|]. auto. Qed.
Lemma off_put L s i n m : at_ s i = Some m -> L i -> off L s (put s i n).
Proof.
  intros Hm Hi. split; [apply length_put|]. intros j Hj. rewrite (node_put _ _ _ _ _ Hm).
  destruct (decide (j = i)); [by subst|done].
Qed.

Section rep.
Context {E : Type} (c : Entries).

(** The cell of a lane of the class [c]. *)
Definition cell (x : Elem) (o : option Oldest) (l r p : option Index) (h : Z) : Node :=
  node (e_tick x) o l r p (e_res x) h c.
(** The table holds a tree, whose root names the parent [p]. *)
Fixpoint rep (s : Nodes) (t : tree) (p : option Index) : Prop :=
  match t with
  | Leaf => True
  | T l x r => at_ s (e_lane x) = Some (cell x (old t) (root l) (root r) p (ht t))
      /\ rep s l (Some (e_lane x)) /\ rep s r (Some (e_lane x))
  end.
(** The same, where the root's own summary may be out of date. *)
Definition loose (s : Nodes) (l : tree) (x : Elem) (r : tree) (p : option Index) : Prop :=
  (exists o h, at_ s (e_lane x) = Some (cell x o (root l) (root r) p h))
  /\ rep s l (Some (e_lane x)) /\ rep s r (Some (e_lane x)).
Lemma rep_loose s l x r p : rep s (T l x r) p -> loose s l x r p.
Proof. intros (? & ? & ?). split; eauto. Qed.

Lemma rep_ext s s' t p : rep s t p -> (forall j, j ∈ lanes t -> at_ s' j = at_ s j) -> rep s' t p.
Proof.
  revert p. induction t as [|l IHl x r IHr]; intros p; [done|]. intros (Hx & Hl & Hr) Heq. split; [|split].
  - rewrite Heq; [done|]. rewrite lanes_T. auto.
  - apply IHl; [done|]. intros j Hj. apply Heq. rewrite lanes_T. auto.
  - apply IHr; [done|]. intros j Hj. apply Heq. rewrite lanes_T. auto.
Qed.
Lemma rep_off L s s' t p : rep s t p -> off L s s' -> (forall j, j ∈ lanes t -> ~ L j) -> rep s' t p.
Proof. intros Hr [_ Ha] HL. eapply rep_ext; [done|]. intros j Hj. apply Ha. auto. Qed.
Lemma rep_at s t p i : rep s t p -> i ∈ lanes t -> is_Some (at_ s i).
Proof.
  revert p. induction t as [|l IHl x r IHr]; intros p; [intros _ []%elem_of_nil|]. intros (Hx & Hl & Hr).
  rewrite lanes_T. intros [?|[->|?]]; eauto.
Qed.

(** ** Single edits *)

Lemma get_ok s i n : at_ s i = Some n -> get (E := E) s i = Ok n.
Proof. unfold get. by intros ->. Qed.
Lemma edit_ok s i n f : at_ s i = Some n -> edit (E := E) s i f = Ok (put s i (f n)).
Proof. intros Hn. unfold edit. by rewrite (get_ok _ _ _ Hn). Qed.
Lemma height_ok s t p : rep s t p -> height (E := E) s (root t) = Ok (ht t).
Proof. destruct t as [|l x r]; [done|]. intros (Hx & _). simpl. by rewrite (get_ok _ _ _ Hx). Qed.
Lemma oldest_at_ok s t p : rep s t p -> oldest_at (E := E) s (root t) = Ok (old t).
Proof. destruct t as [|l x r]; [done|]. intros (Hx & _). simpl. by rewrite (get_ok _ _ _ Hx). Qed.

(** The root of a tree takes another parent. *)
Lemma reparent s t p q i : rep s t p -> NoDup (lanes t) -> root t = Some i ->
  exists n, at_ s i = Some n /\ rep (put s i (with_parent n q)) t q.
Proof.
  destruct t as [|l x r]; [done|]. intros (Hx & Hl & Hr) (_ & _ & Hxl & Hxr & _)%NoDup_T [= <-].
  eexists. split; [exact Hx|]. split; [|split].
  - rewrite (node_put _ _ _ _ _ Hx). by rewrite decide_True.
  - eapply rep_ext; [exact Hl|]. intros j Hj. rewrite (node_put _ _ _ _ _ Hx). rewrite decide_False; [done|]. by intros ->.
  - eapply rep_ext; [exact Hr|]. intros j Hj. rewrite (node_put _ _ _ _ _ Hx). rewrite decide_False; [done|]. by intros ->.
Qed.

(** Linking a tree below a node. *)
Lemma link_ok (f : Node -> option Index -> Node) s x n t p :
  at_ s x = Some n -> rep s t p -> NoDup (lanes t) -> x ∉ lanes t ->
  exists s', (let! s := edit (E := E) s x (fun n => f n (root t)) in
              match root t with Some c => edit s c (fun n => with_parent n (Some x)) | None => Ok s end) = Ok s'
    /\ at_ s' x = Some (f n (root t)) /\ rep s' t (Some x) /\ off (fun j => j = x \/ j ∈ lanes t) s s'.
Proof.
  intros Hx Ht Hnd Hout. rewrite (edit_ok _ _ _ _ Hx). cbn [bind]. set (s1 := put s x (f n (root t))).
  assert (rep s1 t p) as Ht1.
  { eapply rep_ext; [done|]. intros j Hj. unfold s1. rewrite (node_put _ _ _ _ _ Hx), decide_False; [done|]. by intros ->. }
  assert (at_ s1 x = Some (f n (root t))) as Hx1 by (unfold s1; by rewrite (node_put _ _ _ _ _ Hx), decide_True).
  assert (off (fun j => j = x \/ j ∈ lanes t) s s1) as Ho1 by (eapply off_put; eauto).
  destruct (root t) as [i|] eqn:Hr.
  - destruct (reparent s1 t p (Some x) i Ht1 Hnd Hr) as (m & Hm & Hrep).
    rewrite (edit_ok _ _ _ _ Hm). eexists. split; [done|]. pose proof (root_lanes _ _ Hr) as Hi. split; [|split].
    + rewrite (node_put _ _ _ _ _ Hm), decide_False; [done|]. by intros ->.
    + done.
    + eapply off_trans; [done|]. eapply off_put; eauto.
  - exists s1. split; [done|]. destruct t; done.
Qed.
Lemma left_ok s x n t p : at_ s x = Some n -> rep s t p -> NoDup (lanes t) -> x ∉ lanes t ->
  exists s', left (E := E) s x (root t) = Ok s' /\ at_ s' x = Some (with_left n (root t)) /\ rep s' t (Some x)
    /\ off (fun j => j = x \/ j ∈ lanes t) s s'.
Proof. apply (link_ok with_left). Qed.
Lemma right_ok s x n t p : at_ s x = Some n -> rep s t p -> NoDup (lanes t) -> x ∉ lanes t ->
  exists s', right (E := E) s x (root t) = Ok s' /\ at_ s' x = Some (with_right n (root t)) /\ rep s' t (Some x)
    /\ off (fun j => j = x \/ j ∈ lanes t) s s'.
Proof. apply (link_ok with_right). Qed.

(** A node's summary is brought up to date. *)
Lemma tree_update_ok s l x r p : loose s l x r p -> NoDup (lanes (T l x r)) -> ht (T l x r) <= 255 ->
  exists s', update (E := E) s (e_lane x) = Ok s' /\ rep s' (T l x r) p /\ off (fun j => j = e_lane x) s s'.
Proof.
  intros ((o & h & Hx) & Hl & Hr) (_ & _ & Hxl & Hxr & _)%NoDup_T Hh.
  unfold update. rewrite (get_ok _ _ _ Hx). cbn [bind cell n_left n_right n_ticket].
  rewrite (oldest_at_ok _ _ _ Hl), (oldest_at_ok _ _ _ Hr), (height_ok _ _ _ Hl), (height_ok _ _ _ Hr). cbn [bind].
  unfold add8. cbn [ht] in Hh. destruct (Z.leb_spec (Z.max (ht l) (ht r) + 1) 255); [|lia]. cbn [bind].
  rewrite (edit_ok _ _ _ _ Hx). eexists. split; [done|]. split; [|by eapply off_put].
  split; [|split].
  - by rewrite (node_put _ _ _ _ _ Hx), decide_True.
  - eapply rep_ext; [exact Hl|]. intros j Hj. rewrite (node_put _ _ _ _ _ Hx), decide_False; [done|]. by intros ->.
  - eapply rep_ext; [exact Hr|]. intros j Hj. rewrite (node_put _ _ _ _ _ Hx), decide_False; [done|]. by intros ->.
Qed.

(** ** Rotations *)

(** A put of a cell keeps the trees it is outside of. *)
Lemma rep_put s i n m t p : at_ s i = Some m -> rep s t p -> i ∉ lanes t -> rep (put s i n) t p.
Proof.
  intros Hm Ht Hi. eapply rep_ext; [done|]. intros j Hj. rewrite (node_put _ _ _ _ _ Hm), decide_False; [done|]. by intros ->.
Qed.
Lemma node_put_eq s i n m : at_ s i = Some m -> at_ (put s i n) i = Some n.
Proof. intros Hm. by rewrite (node_put _ _ _ _ _ Hm), decide_True. Qed.
Lemma node_put_ne s i n m j : at_ s i = Some m -> j <> i -> at_ (put s i n) j = at_ s j.
Proof. intros Hm Hj. by rewrite (node_put _ _ _ _ _ Hm), decide_False. Qed.

(** What both rotations end with: [y] takes [x] for a child, by [f], and the parent
    of [x]; then both are brought up to date, [x] first. *)
Definition settle (f : Node -> option Index -> Node) (s : Nodes) (x y : Index) (p : option Index) : run E (Index * Nodes) :=
  let! s := (let! s := edit s y (fun n => f n (Some x)) in edit s x (fun n => with_parent n (Some y))) in
  let! s := edit s y (fun n => with_parent n p) in
  let! s := update s x in
  let! s := update s y in
  Ok (y, s).

Lemma tree_settle_ok f s bl x br px y ny o h py l r p :
  loose s bl x br px -> at_ s (e_lane y) = Some ny -> f ny (Some (e_lane x)) = cell y o (root l) (root r) py h ->
  (forall t, t = l \/ t = r -> t = T bl x br \/ (rep s t (Some (e_lane y)) /\ (e_lane x ∉ lanes t))) ->
  l = T bl x br \/ r = T bl x br ->
  NoDup (lanes (T l y r)) -> ht (T l y r) <= 255 ->
  exists s', settle f s (e_lane x) (e_lane y) p = Ok (e_lane y, s') /\ rep s' (T l y r) p
    /\ off (fun j => j = e_lane x \/ j = e_lane y) s s'.
Proof.
  intros ((ox & hx & Hx) & Hbl & Hbr) Hy Hf Hother Hin Hnd Hh.
  pose proof Hnd as (Hnl & Hnr & Hyl & Hyr & Hlr)%NoDup_T.
  assert (Hti : NoDup (lanes (T bl x br)) /\ (e_lane y ∉ lanes (T bl x br)) /\ ht (T bl x br) <= 255).
  { pose proof (ht_nonneg l). pose proof (ht_nonneg r). cbn [ht] in Hh. destruct Hin as [Heq|Heq]; rewrite <- Heq; repeat split; try done; lia. }
  destruct Hti as (Hni & Hyi & Hhi). pose proof Hni as (_ & _ & Hxbl & Hxbr & _)%NoDup_T. rewrite lanes_T in Hyi.
  assert (Hxy : e_lane x <> e_lane y) by (intros Heq; apply Hyi; auto).
  unfold settle. rewrite (edit_ok _ _ _ _ Hy). cbn [bind]. set (s2 := put s (e_lane y) _).
  assert (Hx2 : at_ s2 (e_lane x) = at_ s (e_lane x)) by (eapply node_put_ne; eauto). rewrite Hx in Hx2.
  rewrite (edit_ok _ _ _ _ Hx2). cbn [bind]. set (s3 := put s2 (e_lane x) _).
  assert (Hy3 : at_ s3 (e_lane y) = Some (f ny (Some (e_lane x)))) by (unfold s3; rewrite (node_put_ne _ _ _ _ _ Hx2) by congruence; by eapply node_put_eq).
  rewrite (edit_ok _ _ _ _ Hy3). cbn [bind]. set (s4 := put s3 (e_lane y) _).
  assert (Hkeep : forall t q, rep s t q -> e_lane x ∉ lanes t -> e_lane y ∉ lanes t -> rep s4 t q).
  { intros t q Ht ? ?. unfold s4, s3, s2. repeat (eapply rep_put; [eassumption| |done]). done. }
  assert (Hl4 : loose s4 bl x br (Some (e_lane y))).
  { split; [|split; apply Hkeep; auto]. exists ox, hx. unfold s4. rewrite (node_put_ne _ _ _ _ _ Hy3) by done. by eapply node_put_eq. }
  destruct (tree_update_ok s4 bl x br _ Hl4 Hni Hhi) as (s5 & -> & Hi5 & Ho5). cbn [bind].
  assert (Hy4 : at_ s4 (e_lane y) = Some (with_parent (f ny (Some (e_lane x))) p)) by (by eapply node_put_eq).
  rewrite Hf in Hy4. assert (Hl6 : loose s5 l y r p).
  { assert (forall t, t = l \/ t = r -> e_lane y ∉ lanes t -> rep s5 t (Some (e_lane y))) as Hside.
    { intros t Ht Hyt. destruct (Hother t Ht) as [->|[? ?]]; [done|]. eapply rep_off; [by apply Hkeep|exact Ho5|intros j Hj ->; done]. }
    split; [|split; apply Hside; auto]. exists o, h. destruct Ho5 as [_ ->]; [exact Hy4|congruence]. }
  destruct (tree_update_ok s5 l y r p Hl6 Hnd Hh) as (s6 & -> & Hrep & Ho6).
  eexists. split; [done|]. split; [done|].
  eapply off_trans; [eapply off_put; [exact Hy|auto]|]. eapply off_trans; [eapply off_put; [exact Hx2|auto]|].
  eapply off_trans; [eapply off_put; [exact Hy3|auto]|].
  eapply off_trans; [eapply off_weaken; [|exact Ho5]; intros j ->; auto|]. eapply off_weaken; [|exact Ho6]; intros j ->; auto.
Qed.

Lemma rotate_right_ok s a y b x r p :
  loose s (T a y b) x r p -> NoDup (lanes (T (T a y b) x r)) -> ht (T a y (T b x r)) <= 255 ->
  exists s', rotate_right (E := E) s (e_lane x) (e_lane y) = Ok (e_lane y, s')
    /\ rep s' (T a y (T b x r)) p /\ off (on (T (T a y b) x r)) s s'.
Proof.
  intros ((o & h & Hx) & (Hy & Ha & Hb) & Hr) Hnd Hh.
  pose proof Hnd as (Hnl & Hnr & Hxl & Hxr & Hlr)%NoDup_T. pose proof Hnl as (Hna & Hnb & Hya & Hyb & Hab)%NoDup_T.
  rewrite lanes_T in Hxl. setoid_rewrite lanes_T in Hlr. apply Decidable.not_or in Hxl as [Hxa [Hxy Hxb]%Decidable.not_or].
  unfold rotate_right. rewrite (get_ok _ _ _ Hx), (get_ok _ _ _ Hy). cbn [bind cell n_right n_parent].
  destruct (left_ok s (e_lane x) _ b _ Hx Hb Hnb Hxb) as (s1 & -> & Hx1 & Hb1 & Ho1). cbn [bind].
  assert (Hy1 : at_ s1 (e_lane y) = at_ s (e_lane y)) by (apply Ho1; intros [?|?]; [congruence|done]). rewrite Hy in Hy1.
  pose proof (rep_off _ _ _ _ _ Ha Ho1) as Ha1. pose proof (rep_off _ _ _ _ _ Hr Ho1) as Hr1.
  ospecialize (Ha1 _); [intros j Hj [->|?]; [done|by apply (Hab j)]|].
  ospecialize (Hr1 _); [intros j Hj [->|?]; [done|apply (Hlr j); auto]|].
  destruct (tree_settle_ok with_right s1 b x r p y (cell y (old (T a y b)) (root a) (root b) (Some (e_lane x)) (ht (T a y b)))
    (old (T a y b)) (ht (T a y b)) (Some (e_lane x)) a (T b x r) p) as (s' & Hs & Hrep & Ho);
    [split; [eexists _, _; exact Hx1|done]|exact Hy1|done| |auto| |done|].
  { intros t [->| ->]; auto. }
  { apply NoDup_T. rewrite NoDup_T, lanes_T. setoid_rewrite lanes_T. clear -Hna Hnb Hnr Hya Hyb Hab Hxa Hxy Hxb Hxr Hlr. naive_solver. }
  exists s'. split; [exact Hs|]. split; [done|]. unfold on.
  eapply off_trans; eapply off_weaken; [|exact Ho1| |exact Ho]; intros j; rewrite !lanes_T; tauto.
Qed.

Lemma rotate_left_ok s l x a y b p :
  loose s l x (T a y b) p -> NoDup (lanes (T l x (T a y b))) -> ht (T (T l x a) y b) <= 255 ->
  exists s', rotate_left (E := E) s (e_lane x) (e_lane y) = Ok (e_lane y, s')
    /\ rep s' (T (T l x a) y b) p /\ off (on (T l x (T a y b))) s s'.
Proof.
  intros ((o & h & Hx) & Hl & (Hy & Ha & Hb)) Hnd Hh.
  pose proof Hnd as (Hnl & Hnr & Hxl & Hxr & Hlr)%NoDup_T. pose proof Hnr as (Hna & Hnb & Hya & Hyb & Hab)%NoDup_T.
  rewrite lanes_T in Hxr. setoid_rewrite lanes_T in Hlr. apply Decidable.not_or in Hxr as [Hxa [Hxy Hxb]%Decidable.not_or].
  unfold rotate_left. rewrite (get_ok _ _ _ Hx), (get_ok _ _ _ Hy). cbn [bind cell n_left n_parent].
  destruct (right_ok s (e_lane x) _ a _ Hx Ha Hna Hxa) as (s1 & -> & Hx1 & Ha1 & Ho1). cbn [bind].
  assert (Hy1 : at_ s1 (e_lane y) = at_ s (e_lane y)) by (apply Ho1; intros [?|?]; [congruence|done]). rewrite Hy in Hy1.
  pose proof (rep_off _ _ _ _ _ Hb Ho1) as Hb1. pose proof (rep_off _ _ _ _ _ Hl Ho1) as Hl1.
  ospecialize (Hb1 _); [intros j Hj [->|?]; [done|by apply (Hab j)]|].
  ospecialize (Hl1 _); [intros j Hj [->|?]; [done|apply (Hlr j); auto]|].
  destruct (tree_settle_ok with_left s1 l x a p y (cell y (old (T a y b)) (root a) (root b) (Some (e_lane x)) (ht (T a y b)))
    (old (T a y b)) (ht (T a y b)) (Some (e_lane x)) (T l x a) b p) as (s' & Hs & Hrep & Ho);
    [split; [eexists _, _; exact Hx1|done]|exact Hy1|done| |auto| |done|].
  { intros t [->| ->]; auto. }
  { apply NoDup_T. rewrite NoDup_T, lanes_T. setoid_rewrite lanes_T. clear -Hna Hnb Hnl Hya Hyb Hab Hxa Hxy Hxb Hxl Hlr. naive_solver. }
  exists s'. split; [exact Hs|]. split; [done|]. unfold on.
  eapply off_trans; eapply off_weaken; [|exact Ho1| |exact Ho]; intros j; rewrite !lanes_T; tauto.
Qed.

(** ** Rebalancing *)

Lemma lanes_turn_left l x r : lanes (turn_left l x r) = lanes (T l x r).
Proof. unfold lanes. by rewrite els_turn_left. Qed.
Lemma lanes_turn_right l x r : lanes (turn_right l x r) = lanes (T l x r).
Proof. unfold lanes. by rewrite els_turn_right. Qed.
Lemma lanes_bal l x r : lanes (bal l x r) = lanes (T l x r).
Proof. unfold lanes. by rewrite els_bal. Qed.
Lemma lanes_swap l l' r r' x : lanes l' = lanes l -> lanes r' = lanes r -> lanes (T l' x r') = lanes (T l x r).
Proof. unfold lanes. simpl. rewrite !fmap_app, !fmap_cons. by intros -> ->. Qed.

(** A subtree is replaced by another one, after edits on [L] outside the rest. *)
Lemma relink_left (L : Index -> Prop) s s1 l x r l' p q : rep s (T l x r) p -> NoDup (lanes (T l' x r)) ->
  off L s s1 -> rep s1 l' q -> ~ L (e_lane x) -> (forall j, L j -> j ∈ lanes r -> False) -> (forall j, j ∈ lanes l' -> L j) ->
  exists s2, left (E := E) s1 (e_lane x) (root l') = Ok s2 /\ loose s2 l' x r p /\ off (fun j => j = e_lane x \/ L j) s s2.
Proof.
  intros (Hx & Hl & Hr) (Hnl & Hnr & Hxl & Hxr & Hlr)%NoDup_T Ho Hl' HLx HLr HL.
  destruct (left_ok s1 (e_lane x) _ l' q ltac:(destruct Ho as [_ ->]; [exact Hx|exact HLx]) Hl' Hnl Hxl) as (s2 & He & Hx2 & Hl2 & Ho2).
  exists s2. split; [done|]. split.
  - split; [eexists _, _; exact Hx2|]. split; [done|].
    eapply rep_off; [eapply rep_off; [exact Hr|exact Ho|]|exact Ho2|]; [naive_solver|]. intros j Hj [->|?]; [done|by apply (Hlr j)].
  - eapply off_trans; eapply off_weaken; [|exact Ho| |exact Ho2]; naive_solver.
Qed.
Lemma relink_right (L : Index -> Prop) s s1 l x r r' p q : rep s (T l x r) p -> NoDup (lanes (T l x r')) ->
  off L s s1 -> rep s1 r' q -> ~ L (e_lane x) -> (forall j, L j -> j ∈ lanes l -> False) -> (forall j, j ∈ lanes r' -> L j) ->
  exists s2, right (E := E) s1 (e_lane x) (root r') = Ok s2 /\ loose s2 l x r' p /\ off (fun j => j = e_lane x \/ L j) s s2.
Proof.
  intros (Hx & Hl & Hr) (Hnl & Hnr & Hxl & Hxr & Hlr)%NoDup_T Ho Hr' HLx HLl HL.
  destruct (right_ok s1 (e_lane x) _ r' q ltac:(destruct Ho as [_ ->]; [exact Hx|exact HLx]) Hr' Hnr Hxr) as (s2 & He & Hx2 & Hr2 & Ho2).
  exists s2. split; [done|]. split.
  - split; [eexists _, _; exact Hx2|]. split; [|done].
    eapply rep_off; [eapply rep_off; [exact Hl|exact Ho|]|exact Ho2|]; [naive_solver|]. intros j Hj [->|?]; [done|by apply (Hlr j)].
  - eapply off_trans; eapply off_weaken; [|exact Ho| |exact Ho2]; naive_solver.
Qed.

(** The two ends of [rebalance]. *)
Lemma rotate_right_turn s l x r p i : loose s l x r p -> NoDup (lanes (T l x r)) -> root l = Some i ->
  Z.max (ht l) (ht r) <= 250 ->
  exists s', rotate_right (E := E) s (e_lane x) i = Ok (i, s') /\ root (turn_right l x r) = Some i
    /\ rep s' (turn_right l x r) p /\ off (on (T l x r)) s s'.
Proof.
  intros Hl Hnd Hi Hh. destruct l as [|a y b]; [done|]. injection Hi as <-.
  destruct (rotate_right_ok s a y b x r p Hl Hnd) as (s' & ? & ? & ?); [cbn [ht] in *; lia|]. by exists s'.
Qed.
Lemma rotate_left_turn s l x r p i : loose s l x r p -> NoDup (lanes (T l x r)) -> root r = Some i ->
  Z.max (ht l) (ht r) <= 250 ->
  exists s', rotate_left (E := E) s (e_lane x) i = Ok (i, s') /\ root (turn_left l x r) = Some i
    /\ rep s' (turn_left l x r) p /\ off (on (T l x r)) s s'.
Proof.
  intros Hl Hnd Hi Hh. destruct r as [|a y b]; [done|]. injection Hi as <-.
  destruct (rotate_left_ok s l x a y b p Hl Hnd) as (s' & ? & ? & ?); [cbn [ht] in *; lia|]. by exists s'.
Qed.
Lemma ht_turn_left l x r : ht (turn_left l x r) <= Z.max (ht l) (ht r) + 2.
Proof. pose proof (ht_nonneg l). destruct r; simpl; [lia|]. pose proof (ht_nonneg r1). pose proof (ht_nonneg r2). lia. Qed.
Lemma ht_turn_right l x r : ht (turn_right l x r) <= Z.max (ht l) (ht r) + 2.
Proof. pose proof (ht_nonneg r). destruct l; simpl; [lia|]. pose proof (ht_nonneg l1). pose proof (ht_nonneg l2). lia. Qed.

Definition rebalanced (s : Nodes) (l : tree) (x : Elem) (r : tree) (p : option Index) (m : run E (Index * Nodes)) : Prop :=
  exists i s', m = Ok (i, s') /\ root (bal l x r) = Some i /\ rep s' (bal l x r) p /\ off (on (T l x r)) s s'.

Lemma rebalance_left s a y b x r p : rep s (T (T a y b) x r) p -> NoDup (lanes (T (T a y b) x r)) ->
  Z.max (ht (T a y b)) (ht r) <= 200 -> ht r + 1 < ht (T a y b) ->
  rebalanced s (T a y b) x r p
    (let! n := get s (e_lane y) in
     let! hr := height s (n_right n) in
     let! hl := height s (n_left n) in
     let! (pivot, s) :=
       match n_right n with
       | Some child =>
           if hl <? hr then
             let! (pivot, s) := rotate_left s (e_lane y) child in
             let! s := left s (e_lane x) (Some pivot) in Ok (pivot, s)
           else Ok (e_lane y, s)
       | None => Ok (e_lane y, s)
       end in
     rotate_right s (e_lane x) pivot).
Proof.
  intros Hrep Hnd Hh Hlt. pose proof Hrep as (Hx & (Hy & Ha & Hb) & Hr). pose proof Hnd as (Hnl & _ & Hxl & _ & Hlr)%NoDup_T.
  rewrite (get_ok _ _ _ Hy). cbn [bind cell n_right n_left].
  rewrite (height_ok _ _ _ Hb), (height_ok _ _ _ Ha). cbn [bind].
  unfold rebalanced. assert (Hbal : bal (T a y b) x r = turn_right (if ht a <? ht b then turn_left a y b else T a y b) x r).
  { unfold bal. by destruct (Z.ltb_spec (ht r + 1) (ht (T a y b))); [|lia]. }
  rewrite Hbal. pose proof (ht_nonneg a) as H0. assert (Hn : root b = None -> (ht a <? ht b) = false).
  { destruct b; [|done]. intros _. apply Z.ltb_ge. simpl. lia. }
  assert (Hrl : loose s a y b (Some (e_lane x))) by exact (rep_loose _ _ _ _ _ (conj Hy (conj Ha Hb))).
  destruct (root b) as [i|] eqn:Hi; [|rewrite (Hn eq_refl)].
  - destruct (Z.ltb_spec (ht a) (ht b)).
    + destruct (rotate_left_turn s a y b _ i Hrl Hnl Hi) as (s1 & -> & Hroot & Hr1 & Ho1); [cbn [ht] in *; lia|]. cbn [bind].
      pose proof (lanes_swap _ _ _ _ x (lanes_turn_left a y b) (eq_refl (lanes r))) as Hls.
      destruct (relink_left (on (T a y b)) s s1 (T a y b) x r (turn_left a y b) p (Some (e_lane x)) Hrep) as (s2 & He & Hl2 & Ho2);
        [by rewrite Hls|done|exact Hr1|done|done|by rewrite lanes_turn_left|].
      rewrite Hroot in He. rewrite He. cbn [bind].
      destruct (rotate_right_turn s2 (turn_left a y b) x r p i Hl2) as (s3 & He3 & Hroot3 & Hr3 & Ho3);
        [by rewrite Hls|done|pose proof (ht_turn_left a y b); cbn [ht] in *; lia|].
      exists i, s3. split; [done|]. split; [done|]. split; [done|]. unfold on in *. rewrite Hls in Ho3.
      eapply off_trans; [|exact Ho3]. eapply off_weaken; [|exact Ho2]. intros j; rewrite !lanes_T; tauto.
    + cbn [bind]. destruct (rotate_right_turn s (T a y b) x r p (e_lane y)) as (s3 & ? & ? & ? & ?); [by apply rep_loose|done|done|lia|]. by exists (e_lane y), s3.
  - cbn [bind]. destruct (rotate_right_turn s (T a y b) x r p (e_lane y)) as (s3 & ? & ? & ? & ?); [by apply rep_loose|done|done|lia|]. by exists (e_lane y), s3.
Qed.

Lemma rebalance_right s l x a y b p : rep s (T l x (T a y b)) p -> NoDup (lanes (T l x (T a y b))) ->
  Z.max (ht l) (ht (T a y b)) <= 200 -> ht l + 1 < ht (T a y b) ->
  rebalanced s l x (T a y b) p
    (let! n := get s (e_lane y) in
     let! hl := height s (n_left n) in
     let! hr := height s (n_right n) in
     let! (pivot, s) :=
       match n_left n with
       | Some child =>
           if hr <? hl then
             let! (pivot, s) := rotate_right s (e_lane y) child in
             let! s := right s (e_lane x) (Some pivot) in Ok (pivot, s)
           else Ok (e_lane y, s)
       | None => Ok (e_lane y, s)
       end in
     rotate_left s (e_lane x) pivot).
Proof.
  intros Hrep Hnd Hh Hlt. pose proof Hrep as (Hx & Hl & (Hy & Ha & Hb)). pose proof Hnd as (_ & Hnr & _ & Hxr & Hlr)%NoDup_T.
  rewrite (get_ok _ _ _ Hy). cbn [bind cell n_right n_left].
  rewrite (height_ok _ _ _ Hb), (height_ok _ _ _ Ha). cbn [bind].
  unfold rebalanced. assert (Hbal : bal l x (T a y b) = turn_left l x (if ht b <? ht a then turn_right a y b else T a y b)).
  { unfold bal. destruct (Z.ltb_spec (ht (T a y b) + 1) (ht l)); [lia|]. by destruct (Z.ltb_spec (ht l + 1) (ht (T a y b))); [|lia]. }
  rewrite Hbal. pose proof (ht_nonneg b) as H0. assert (Hn : root a = None -> (ht b <? ht a) = false).
  { destruct a; [|done]. intros _. apply Z.ltb_ge. simpl. lia. }
  assert (Hrl : loose s a y b (Some (e_lane x))) by exact (rep_loose _ _ _ _ _ (conj Hy (conj Ha Hb))).
  destruct (root a) as [i|] eqn:Hi; [|rewrite (Hn eq_refl)].
  - destruct (Z.ltb_spec (ht b) (ht a)).
    + destruct (rotate_right_turn s a y b _ i Hrl Hnr Hi) as (s1 & -> & Hroot & Hr1 & Ho1); [cbn [ht] in *; lia|]. cbn [bind].
      pose proof (lanes_swap _ _ _ _ x (eq_refl (lanes l)) (lanes_turn_right a y b)) as Hls.
      destruct (relink_right (on (T a y b)) s s1 l x (T a y b) (turn_right a y b) p (Some (e_lane x)) Hrep) as (s2 & He & Hl2 & Ho2);
        [by rewrite Hls|done|exact Hr1|done|naive_solver|by rewrite lanes_turn_right|].
      rewrite Hroot in He. rewrite He. cbn [bind].
      destruct (rotate_left_turn s2 l x (turn_right a y b) p i Hl2) as (s3 & He3 & Hroot3 & Hr3 & Ho3);
        [by rewrite Hls|done|pose proof (ht_turn_right a y b); cbn [ht] in *; lia|].
      exists i, s3. split; [done|]. split; [done|]. split; [done|]. unfold on in *. rewrite Hls in Ho3.
      eapply off_trans; [|exact Ho3]. eapply off_weaken; [|exact Ho2]. intros j; rewrite !lanes_T; tauto.
    + cbn [bind]. destruct (rotate_left_turn s l x (T a y b) p (e_lane y)) as (s3 & ? & ? & ? & ?); [by apply rep_loose|done|done|lia|]. by exists (e_lane y), s3.
  - cbn [bind]. destruct (rotate_left_turn s l x (T a y b) p (e_lane y)) as (s3 & ? & ? & ? & ?); [by apply rep_loose|done|done|lia|]. by exists (e_lane y), s3.
Qed.

Lemma rebalance_ok s l x r p : loose s l x r p -> NoDup (lanes (T l x r)) -> Z.max (ht l) (ht r) <= 200 ->
  rebalanced s l x r p (rebalance s (e_lane x)).
Proof.
  intros Hl Hnd Hh. destruct (tree_update_ok s l x r p Hl Hnd) as (s1 & Hu & Hr1 & Ho1); [cbn [ht]; lia|].
  unfold rebalance. rewrite Hu. cbn [bind]. pose proof Hr1 as (Hx1 & Hll & Hrr).
  assert (Hstep : forall m, rebalanced s1 l x r p m -> rebalanced s l x r p m).
  { intros m (i & s2 & ? & ? & ? & ?). exists i, s2. split; [done|]. split; [done|]. split; [done|].
    eapply off_trans; [eapply off_weaken; [|exact Ho1]|done]. intros j ->. unfold on. rewrite lanes_T. auto. }
  apply Hstep. unfold tilt. rewrite (get_ok _ _ _ Hx1). cbn [bind cell n_left n_right].
  rewrite (height_ok _ _ _ Hll), (height_ok _ _ _ Hrr). cbn [bind]. unfold add8.
  pose proof (ht_nonneg l). pose proof (ht_nonneg r).
  destruct (Z.leb_spec (ht r + 1) 255); [|lia]. cbn [bind]. destruct (Z.ltb_spec (ht r + 1) (ht l)).
  - destruct l as [|a y b]; [simpl in *; lia|]. cbn [root bind]. by apply rebalance_left.
  - destruct (Z.leb_spec (ht l + 1) 255); [|lia]. cbn [bind]. destruct (Z.ltb_spec (ht l + 1) (ht r)).
    + destruct r as [|a y b]; [simpl in *; lia|]. cbn [root bind]. by apply rebalance_right.
    + cbn [bind]. exists (e_lane x), s1. assert (bal l x r = T l x r) as ->; [|done].
      unfold bal. destruct (Z.ltb_spec (ht r + 1) (ht l)); [lia|]. destruct (Z.ltb_spec (ht l + 1) (ht r)); [lia|done].
Qed.

(** ** Insertion *)

Lemma lanes_ins t x j : j ∈ lanes (ins t x) <-> j = e_lane x \/ j ∈ lanes t.
Proof. unfold lanes. rewrite ins_perm, fmap_cons, elem_of_cons. done. Qed.
Lemma NoDup_ins t x : NoDup (lanes (ins t x)) <-> (e_lane x ∉ lanes t) /\ NoDup (lanes t).
Proof. unfold lanes. rewrite ins_perm, fmap_cons, NoDup_cons. done. Qed.
Definition single (x : Elem) : tree := T Leaf x Leaf.

Lemma insert_ok fuel s t x p q : rep s t p -> rep s (single x) q -> NoDup (lanes (ins t x)) -> avl t ->
  ht t <= 190 -> ht t <= Z.of_nat fuel ->
  exists i s' p', insert (E := E) fuel s (root t) (e_lane x) = Ok (i, s') /\ root (ins t x) = Some i
    /\ rep s' (ins t x) p' /\ off (on (ins t x)) s s'.
Proof.
  revert fuel s p q. induction t as [|l IHl y r IHr]; intros fuel s p q Ht Hx Hnd Ha Hh Hf.
  { exists (e_lane x), s, q. simpl. by destruct fuel. }
  pose proof (avl_ins (T l y r) x Ha) as [_ Hht]. destruct Ha as (Hal & Har & Hd).
  pose proof (ht_nonneg l). pose proof (ht_nonneg r). cbn [ht] in Hh, Hf.
  destruct fuel as [|fuel]; [lia|].
  pose proof (proj1 (NoDup_ins _ _) Hnd) as [Hxt Hnt]. rewrite lanes_T in Hxt.
  pose proof Hnt as (Hnl & Hnr & Hyl & Hyr & Hlr)%NoDup_T. destruct Ht as (Hy & Hl & Hr). destruct Hx as (Hx & _).
  cbn [insert root]. rewrite (get_ok _ _ _ Hx), (get_ok _ _ _ Hy). cbn [bind cell n_resident n_left n_right].
  change (before (e_res x, e_lane x) (e_res y, e_lane y)) with (before (key x) (key y)). cbn [ins].
  destruct (before (key x) (key y)) eqn:Hb.
  - assert (Hxl : e_lane x ∉ lanes l) by tauto. assert (Hxr : e_lane x ∉ lanes r) by tauto.
    destruct (IHl fuel s _ q Hl) as (i & s1 & p1 & -> & Hi & Hr1 & Ho1); [by split|by apply NoDup_ins|done|lia|lia|].
    cbn [bind]. rewrite <- Hi. pose proof (avl_ins l x Hal) as [_ ?].
    assert (Hn' : NoDup (lanes (T (ins l x) y r))).
    { apply NoDup_T. rewrite NoDup_ins, lanes_ins. setoid_rewrite lanes_ins. naive_solver. }
    pose proof Hn' as (_ & _ & Hyi & _ & Hir)%NoDup_T.
    destruct (relink_left (on (ins l x)) s s1 l y r (ins l x) p p1 (conj Hy (conj Hl Hr)) Hn' Ho1 Hr1 Hyi Hir) as (s2 & -> & Hl2 & Ho2); [done|]. cbn [bind].
    destruct (rebalance_ok s2 (ins l x) y r p Hl2 Hn') as (i' & s3 & -> & Hroot & Hr3 & Ho3); [lia|].
    exists i', s3, p. split; [done|]. split; [done|]. split; [done|].
    unfold on. rewrite lanes_bal. eapply off_trans; [eapply off_weaken; [|exact Ho2]|exact Ho3]. unfold on. intros j. rewrite lanes_T. tauto.
  - assert (Hxl : e_lane x ∉ lanes l) by tauto. assert (Hxr : e_lane x ∉ lanes r) by tauto.
    destruct (IHr fuel s _ q Hr) as (i & s1 & p1 & -> & Hi & Hr1 & Ho1); [by split|by apply NoDup_ins|done|lia|lia|].
    cbn [bind]. rewrite <- Hi. pose proof (avl_ins r x Har) as [_ ?].
    assert (Hn' : NoDup (lanes (T l y (ins r x)))).
    { apply NoDup_T. rewrite NoDup_ins, lanes_ins. setoid_rewrite lanes_ins. naive_solver. }
    pose proof Hn' as (_ & _ & _ & Hyi & Hir)%NoDup_T.
    destruct (relink_right (on (ins r x)) s s1 l y r (ins r x) p p1 (conj Hy (conj Hl Hr)) Hn' Ho1 Hr1 Hyi) as (s2 & -> & Hl2 & Ho2); [naive_solver|done|]. cbn [bind].
    destruct (rebalance_ok s2 l y (ins r x) p Hl2 Hn') as (i' & s3 & -> & Hroot & Hr3 & Ho3); [lia|].
    exists i', s3, p. split; [done|]. split; [done|]. split; [done|].
    unfold on. rewrite lanes_bal. eapply off_trans; [eapply off_weaken; [|exact Ho2]|exact Ho3]. unfold on. intros j. rewrite lanes_T. tauto.
Qed.
End rep.
End TreeFacts.
