(* ===== verification/CreditRemoval.v ===== *)
(** * Removal from the waiting tree.

    A path from a subtree to the root in the table of nodes, and [remove] along it:
    the node is unlinked, its successor takes its place, and the path is balanced
    upwards. *)

From S2P Require Import Prelude CreditTree CreditAvl CreditTreeFacts.

Module Removal.
Import CreditTree.Tree Avl TreeFacts.

Section removal.
Context {E : Type} (c : Entries).
Abbreviation rep := (rep c).
Abbreviation loose := (loose c).
Abbreviation cell := (cell c).

(** ** Paths in the table *)

Definition f_lane (f : frame) : Index := e_lane (f_elem f).
Definition up_link (top : option Index) (fs : list frame) : option Index :=
  match fs with [] => top | f :: _ => Some (f_lane f) end.
Fixpoint top_of (fs : list frame) (child : option Index) : option Index :=
  match fs with [] => child | f :: fs => top_of fs (Some (f_lane f)) end.
(** A frame with the link [child] in its hole and the parent [p]; its own summary
    may be out of date. *)
Definition f_cell (f : frame) (o : option Oldest) (child p : option Index) (h : Z) : Node :=
  match f with FL x r => cell x o child (root r) p h | FR l x => cell x o (root l) child p h end.
Definition frame_at (s : Nodes) (f : frame) (child p : option Index) : Prop :=
  (exists o h, at_ s (f_lane f) = Some (f_cell f o child p h)) /\ rep s (f_side f) (Some (f_lane f)).
(** The path below the parent [top], whose innermost hole holds [child]. *)
Fixpoint path (top : option Index) (s : Nodes) (fs : list frame) (child : option Index) : Prop :=
  match fs with
  | [] => True
  | f :: fs => frame_at s f child (up_link top fs) /\ path top s fs (Some (f_lane f))
  end.
Fixpoint plane (fs : list frame) : list Index :=
  match fs with [] => [] | f :: fs => f_lane f :: lanes (f_side f) ++ plane fs end.

Lemma frame_off L s s' f child p : frame_at s f child p -> off L s s' ->
  ~ L (f_lane f) -> (forall j, j ∈ lanes (f_side f) -> ~ L j) -> frame_at s' f child p.
Proof.
  intros [(o & h & Hf) Hs] Ho Hl HL. split; [|by eapply rep_off]. exists o, h. destruct Ho as [_ ->]; done.
Qed.
Lemma path_off L top s s' fs child : path top s fs child -> off L s s' -> (forall j, j ∈ plane fs -> ~ L j) -> path top s' fs child.
Proof.
  revert child. induction fs as [|f fs IH]; intros child; [done|]. intros [Hf Hp] Ho HL. cbn [plane] in HL.
  split; [|apply IH; [done|done|set_solver]]. eapply frame_off; [done|done|apply HL; set_solver|set_solver].
Qed.
Lemma path_app top s gs fs child :
  path top s (gs ++ fs) child <-> path (up_link top fs) s gs child /\ path top s fs (top_of gs child).
Proof.
  revert child. induction gs as [|g gs IH]; intros child; simpl; [tauto|]. rewrite IH.
  assert (up_link top (gs ++ fs) = up_link (up_link top fs) gs) as -> by (by destruct gs). tauto.
Qed.
Lemma plane_app gs fs : plane (gs ++ fs) = plane gs ++ plane fs.
Proof. induction gs as [|g gs IH]; [done|]. simpl. by rewrite IH, <- (assoc_L app). Qed.

(** A tree in the table is a path with a subtree in its hole. *)
Lemma rep_plug s t f p : rep s (plug t f) p <->
  at_ s (f_lane f) = Some (f_cell f (old (plug t f)) (root t) p (ht (plug t f)))
  /\ rep s (f_side f) (Some (f_lane f)) /\ rep s t (Some (f_lane f)).
Proof. destruct f; simpl; tauto. Qed.
Lemma rep_path top s t fs : rep s (plugs t fs) top -> path top s fs (root t) /\ rep s t (up_link top fs).
Proof.
  revert t. induction fs as [|f fs IH]; intros t; [done|]. intros [Hp (Hf & Hs & Ht)%rep_plug]%(IH (plug t f)).
  split; [|done]. split; [|by destruct f]. split; [by eexists _, _|done].
Qed.
Lemma lanes_plugs t fs j : j ∈ lanes (plugs t fs) <-> j ∈ lanes t \/ j ∈ plane fs.
Proof.
  revert t. induction fs as [|f fs IH]; intros t; simpl; [set_solver|].
  change (fold_left plug fs (plug t f)) with (plugs (plug t f) fs). rewrite IH, elem_of_cons, elem_of_app.
  destruct f; simpl; rewrite lanes_T; unfold f_lane; simpl; tauto.
Qed.
Lemma plugs_perm t fs : lanes (plugs t fs) ≡ₚ lanes t ++ plane fs.
Proof.
  revert t. induction fs as [|f fs IH]; intros t; simpl; [by rewrite app_nil_r|].
  change (fold_left plug fs (plug t f)) with (plugs (plug t f) fs). rewrite IH.
  assert (lanes (plug t f) ≡ₚ lanes t ++ f_lane f :: lanes (f_side f)) as ->; [|by rewrite <- (assoc_L app)].
  destruct f as [x r|l x]; unfold lanes, f_lane; simpl; rewrite fmap_app, fmap_cons; [done|].
  rewrite <- !Permutation_middle. by rewrite (comm app).
Qed.
Lemma top_of_plugs t fs : top_of fs (root t) = root (plugs t fs).
Proof. revert t. induction fs as [|f fs IH]; intros t; simpl; [done|]. change (fold_left plug fs (plug t f)) with (plugs (plug t f) fs). rewrite <- IH. by destruct f. Qed.

(** ** Replacing what a path holds *)

Definition moved (s s' : Nodes) (child p : option Index) : Prop :=
  forall i n, child = Some i -> at_ s i = Some n -> at_ s' i = Some (with_parent n p).
(** A tree whose root alone changed, in its parent. *)
Lemma rep_moved (L : Index -> Prop) s s' t p q : rep s t p -> NoDup (lanes t) -> moved s s' (root t) q ->
  off L s s' -> (forall j, L j -> j ∈ lanes t -> root t = Some j) -> rep s' t q.
Proof.
  destruct t as [|l x r]; [done|]. intros (Hx & Hl & Hr) (_ & _ & Hxl & Hxr & _)%NoDup_T Hm Ho HL. split; [|split].
  - by rewrite (Hm (e_lane x) _ eq_refl Hx).
  - eapply rep_off; [done|exact Ho|]. intros j Hj Hin. specialize (HL j Hin). rewrite lanes_T in HL.
    specialize (HL ltac:(auto)). injection HL as <-. done.
  - eapply rep_off; [done|exact Ho|]. intros j Hj Hin. specialize (HL j Hin). rewrite lanes_T in HL.
    specialize (HL ltac:(auto)). injection HL as <-. done.
Qed.

Definition linked (child p : option Index) : Index -> Prop := fun j => child = Some j \/ p = Some j.
Lemma splice_ok s f x child p :
  frame_at s f (Some x) p -> x ∉ lanes (f_side f) ->
  (forall i, child = Some i -> is_Some (at_ s i) /\ i <> f_lane f /\ (i ∉ lanes (f_side f))) ->
  f_lane f ∉ lanes (f_side f) ->
  exists s', splice (E := E) s (f_lane f) x child = Ok s' /\ frame_at s' f child p
    /\ moved s s' child (Some (f_lane f)) /\ off (linked child (Some (f_lane f))) s s'.
Proof.
  intros [(o & h & Hf) Hs] Hx Hchild Hside. unfold splice. rewrite (get_ok _ _ _ Hf). cbn [bind].
  set (link := fun n => match f with FL _ _ => with_left n child | FR _ _ => with_right n child end).
  assert (Hlink : (if bool_decide (n_left (f_cell f o (Some x) p h) = Some x) then left (E := E) s (f_lane f) child
     else right s (f_lane f) child) =
    let! s := edit s (f_lane f) link in
    match child with Some i => edit s i (fun n => with_parent n (Some (f_lane f))) | None => Ok s end).
  { destruct f as [y r|l y]; cbn [f_cell cell n_left].
    - by rewrite bool_decide_true.
    - rewrite bool_decide_false; [done|]. intros Hroot. apply Hx. by apply root_lanes. }
  rewrite Hlink, (edit_ok _ _ _ _ Hf). cbn [bind]. clear Hlink. set (s1 := put s (f_lane f) _).
  assert (Hcell : link (f_cell f o (Some x) p h) = f_cell f o child p h) by (by destruct f).
  assert (Hf1 : at_ s1 (f_lane f) = Some (f_cell f o child p h)) by (rewrite <- Hcell; by eapply node_put_eq).
  assert (Ho1 : off (linked child (Some (f_lane f))) s s1) by (eapply off_put; [exact Hf|by right]).
  assert (Hs1 : rep s1 (f_side f) (Some (f_lane f))) by (by eapply rep_put).
  destruct child as [i|].
  - destruct (Hchild i eq_refl) as ([n Hn] & Hif & His).
    assert (Hn1 : at_ s1 i = Some n) by (unfold s1; by rewrite (node_put_ne _ _ _ _ _ Hf)).
    rewrite (edit_ok _ _ _ _ Hn1). eexists. split; [done|]. split; [|split].
    + split; [exists o, h; by rewrite (node_put_ne _ _ _ _ _ Hn1) by done|by eapply rep_put].
    + intros j m [= <-] Hm. assert (m = n) as -> by congruence. by eapply node_put_eq.
    + eapply off_trans; [exact Ho1|]. eapply off_put; [exact Hn1|by left].
  - exists s1. split; [done|]. split; [split; [by exists o, h|done]|]. done.
Qed.

(** [replace] puts another node in the hole of a path. *)
Lemma replace_ok s fs x n child rt :
  path None s fs (Some x) -> at_ s x = Some n -> n_parent n = up_link None fs ->
  NoDup (plane fs) -> x ∉ plane fs -> (forall i, child = Some i -> is_Some (at_ s i) /\ (i ∉ plane fs)) ->
  exists s' rt', replace (E := E) s rt x child = Ok (rt', s') /\ path None s' fs child
    /\ moved s s' child (up_link None fs) /\ off (linked child (up_link None fs)) s s'
    /\ rt' = match fs with [] => child | _ => rt end.
Proof.
  intros Hp Hn Hpar Hnd Hx Hchild. unfold replace. rewrite (get_ok _ _ _ Hn). cbn [bind]. rewrite Hpar.
  destruct fs as [|f fs]; cbn [up_link].
  - destruct child as [i|].
    + destruct (Hchild i eq_refl) as ([m Hm] & _). rewrite (edit_ok _ _ _ _ Hm). cbn [bind].
      eexists _, _. split; [done|]. split; [done|]. split; [|split; [eapply off_put; [exact Hm|by left]|done]].
      intros j m' [= <-] Hm'. assert (m' = m) as -> by congruence. by eapply node_put_eq.
    + exists s, None. done.
  - cbn [plane] in *. apply NoDup_cons in Hnd as [Hff (Hnd & Hdis & Hnp)%NoDup_app].
    rewrite not_elem_of_cons, not_elem_of_app in Hx. rewrite not_elem_of_app in Hff. destruct Hp as [Hf Hp].
    destruct (splice_ok s f x child (up_link None fs) Hf) as (s' & -> & Hf' & Hm & Ho);
      [tauto| |tauto|].
    { intros i Hi. destruct (Hchild i Hi) as [? Hip]. rewrite not_elem_of_cons, not_elem_of_app in Hip. tauto. }
    cbn [bind]. exists s', rt. split; [done|]. split; [|done]. split; [done|].
    eapply path_off; [done|exact Ho|]. intros j Hj [Hl|Hl].
    + destruct (Hchild j Hl) as [_ Hip]. set_solver.
    + injection Hl as <-. tauto.
Qed.

(** ** Balancing upwards *)

Lemma lanes_up t f : lanes (up t f) ≡ₚ lanes (plug t f).
Proof. destruct f; simpl; by rewrite lanes_bal. Qed.
Lemma frame_loose s f t p : frame_at s f (root t) p -> rep s t (Some (f_lane f)) ->
  match f with FL x r => loose s t x r p | FR l x => loose s l x t p end.
Proof. destruct f; intros [? ?] ?; split; done. Qed.
Lemma rebalance_frame s f t p : frame_at s f (root t) p -> rep s t (Some (f_lane f)) -> NoDup (lanes (plug t f)) ->
  Z.max (ht t) (ht (f_side f)) <= 200 ->
  exists i s', rebalance (E := E) s (f_lane f) = Ok (i, s') /\ root (up t f) = Some i /\ rep s' (up t f) p
    /\ off (fun j => j ∈ lanes (plug t f)) s s'.
Proof.
  intros Hf Ht Hnd Hh. pose proof (frame_loose _ _ _ _ Hf Ht) as Hl. destruct f; simpl in *.
  - by apply (rebalance_ok (E := E) c s t x r p).
  - apply (rebalance_ok (E := E) c s l x t p); [done|done|lia].
Qed.

Lemma ht_plugs t fs : ht t <= ht (plugs t fs).
Proof.
  revert t. induction fs as [|f fs IH]; intros t; [done|]. change (plugs t (f :: fs)) with (plugs (plug t f) fs).
  etrans; [|apply IH]. destruct f; simpl; lia.
Qed.
(** What was balanced is linked where the path goes on. *)
Lemma relink_ok fs f t fuel s1 rt i : path None s1 fs (Some (f_lane f)) -> rep s1 (up t f) (up_link None fs) -> root (up t f) = Some i ->
  NoDup (lanes (up t f)) -> (forall j, j ∈ lanes (plug t f) -> j ∉ plane fs) -> NoDup (plane fs) -> f_lane f ∈ lanes (plug t f) ->
  exists s2 rt2, (match up_link None fs with
      | Some p => let! s := splice s1 p (f_lane f) (Some i) in restore (E := E) fuel s rt (up_link None fs)
      | None => let! s := edit s1 i (fun n => with_parent n None) in restore fuel s (Some i) (up_link None fs) end)
      = restore fuel s2 rt2 (up_link None fs) /\ path None s2 fs (root (up t f)) /\ rep s2 (up t f) (up_link None fs)
      /\ (fs = [] -> rt2 = root (up t f)) /\ off (fun j => j ∈ lanes (plug t f) \/ j ∈ plane fs) s1 s2.
Proof.
  intros Hpath1 Hr1 Hroot Hnu Hdis Hnp Hfl.
  assert (Hi : i ∈ lanes (plug t f)) by (rewrite <- lanes_up; by apply root_lanes).
  destruct fs as [|g fs]; cbn [up_link].
  - destruct (reparent c s1 (up t f) _ None i Hr1 Hnu Hroot) as (n & Hn & Hrn). rewrite (edit_ok _ _ _ _ Hn). cbn [bind].
    eexists _, _. split; [done|]. split; [done|]. split; [done|]. split; [done|]. eapply off_put; [exact Hn|auto].
  - destruct Hpath1 as [Hg Hpath1]. cbn [plane] in *. apply NoDup_cons in Hnp as [Hgg (Hng & Hdg & Hnp)%NoDup_app].
    rewrite not_elem_of_app in Hgg. pose proof (rep_at _ _ _ _ i Hr1 (root_lanes _ _ Hroot)) as Hii.
    assert (Hout : forall j, j ∈ lanes (plug t f) -> j <> f_lane g /\ (j ∉ lanes (f_side g)) /\ (j ∉ plane fs)).
    { intros j Hj. specialize (Hdis j Hj). rewrite not_elem_of_cons, not_elem_of_app in Hdis. done. }
    destruct (splice_ok s1 g (f_lane f) (Some i) _ Hg) as (s2 & Hsp & Hg2 & Hm & Ho2);
      [by apply Hout| |tauto|].
    { intros j [= <-]. destruct (Hout i Hi) as (? & ? & ?). done. }
    rewrite Hsp. cbn [bind]. exists s2, rt. split; [done|]. rewrite Hroot. split; [|split; [|split; [done|]]].
    + split; [done|]. eapply path_off; [done|exact Ho2|]. intros j Hj [[= <-]|[= <-]]; [by apply (Hout i)|tauto].
    + eapply rep_moved; [exact Hr1|done|by rewrite Hroot|exact Ho2|]. intros j [<-|[= <-]] Hin; [done|].
      rewrite lanes_up in Hin. by destruct (Hout _ Hin).
    + eapply off_weaken; [|exact Ho2]. intros j [[= <-]|[= <-]]; [by left|]. right. set_solver.
Qed.
(** From a hole that lost at most one level, [restore] balances the whole path. *)
Lemma restore_ok fs : forall fuel s t t0 rt, path None s fs (root t) -> rep s t (up_link None fs) ->
  (fs = [] -> rt = root t) -> NoDup (lanes t ++ plane fs) ->
  avl (plugs t0 fs) -> avl t -> ht t0 - 1 <= ht t <= ht t0 -> ht (plugs t0 fs) <= 190 -> (length fs <= fuel)%nat ->
  exists s', restore (E := E) fuel s rt (up_link None fs) = Ok (root (ups t fs), s')
    /\ rep s' (ups t fs) None /\ off (fun j => j ∈ lanes t \/ j ∈ plane fs) s s'.
Proof.
  induction fs as [|f fs IH]; intros fuel s t t0 rt Hp Ht Hrt Hnd Ha0 Ha Hh Hsmall Hfuel.
  { exists s. rewrite Hrt by done. by destruct fuel. }
  destruct fuel as [|fuel]; [simpl in Hfuel; lia|].
  change (plugs t0 (f :: fs)) with (plugs (plug t0 f) fs) in *. change (ups t (f :: fs)) with (ups (up t f) fs).
  destruct Hp as [Hf Hp]. cbn [up_link] in *. pose proof (avl_plugs _ _ Ha0) as Haf. pose proof (ht_plugs (plug t0 f) fs) as Hhf.
  assert (Hup : avl (up t f) /\ ht (plug t0 f) - 1 <= ht (up t f) <= ht (plug t0 f)) by (apply (avl_ups t t0 [f]); done).
  assert (Hbound : Z.max (ht t) (ht (f_side f)) <= 200).
  { pose proof (ht_nonneg t0). pose proof (ht_nonneg (f_side f)). destruct f; simpl in *; lia. }
  assert (Hpl : NoDup (lanes (plug t f) ++ plane fs)).
  { rewrite <- (plugs_perm (plug t f) fs). change (plugs (plug t f) fs) with (plugs t (f :: fs)). by rewrite plugs_perm. }
  apply NoDup_app in Hpl as (Hnf & Hdis & Hnp).
  destruct (rebalance_frame s f t (up_link None fs) Hf Ht Hnf Hbound) as (i & s1 & Hreb & Hroot & Hr1 & Ho1).
  assert (Hnu : NoDup (lanes (up t f))) by (by rewrite lanes_up).
  assert (Hpath1 : path None s1 fs (Some (f_lane f))) by (eapply path_off; [done|exact Ho1|intros j Hj Hin; by apply (Hdis j)]).
  destruct Hf as [(o & h & Hf) _]. cbn [restore]. rewrite (get_ok _ _ _ Hf). cbn [bind].
  assert (n_parent (f_cell f o (root t) (up_link None fs) h) = up_link None fs) as -> by (by destruct f).
  rewrite Hreb. cbn [bind].
  assert (Hfl : f_lane f ∈ lanes (plug t f)) by (destruct f; simpl; rewrite lanes_T; auto).
  destruct (relink_ok fs f t fuel s1 rt i Hpath1 Hr1 Hroot Hnu Hdis Hnp Hfl) as (s2 & rt2 & -> & Hp2 & Hr2 & Hrt2 & Ho2).
  assert (Hnd2 : NoDup (lanes (up t f) ++ plane fs)) by (rewrite lanes_up; by apply NoDup_app).
  destruct (IH fuel s2 (up t f) (plug t0 f) rt2 Hp2 Hr2 Hrt2 Hnd2 Ha0 (proj1 Hup) (proj2 Hup) Hsmall ltac:(simpl in Hfuel; lia)) as (s3 & He & Hr3 & Ho3).
  exists s3. split; [done|]. split; [done|].
  assert (Hin : forall j, j ∈ lanes (plug t f) -> j ∈ lanes t \/ j ∈ plane (f :: fs)).
  { intros j Hj. cbn [plane]. rewrite elem_of_cons, elem_of_app. destruct f; simpl in Hj; rewrite lanes_T in Hj; unfold f_lane; simpl; tauto. }
  assert (Hin2 : forall j, j ∈ plane fs -> j ∈ plane (f :: fs)) by (cbn [plane]; set_solver).
  eapply off_trans; [eapply off_weaken; [|exact Ho1]; auto|]. eapply off_trans; [eapply off_weaken; [|exact Ho2]; naive_solver|].
  eapply off_weaken; [|exact Ho3]. intros j [Hj|Hj]; [rewrite lanes_up in Hj|]; naive_solver.
Qed.

(** ** The successor *)

Lemma minimum_ok fuel s a y b q par m k gs : rep s (T a y b) q -> first a y b = (m, k, gs) -> ht (T a y b) <= Z.of_nat fuel ->
  minimum (E := E) fuel s (e_lane y) par = Ok (e_lane m, up_link par gs).
Proof.
  revert y b q par gs fuel. induction a as [|a IHa y' b' _]; intros y b q par gs fuel (Hy & Ha & Hb) Hf Hh.
  - simpl in Hf. simplify_eq. pose proof (ht_nonneg k). destruct fuel; [cbn [ht] in Hh; lia|]. simpl. by rewrite (get_ok _ _ _ Hy).
  - cbn [first] in Hf. destruct (first a y' b') as [[m' k'] gs'] eqn:Hf'. simplify_eq.
    pose proof (ht_nonneg (T a y' b')). destruct fuel; [cbn [ht] in *; lia|]. cbn [minimum]. rewrite (get_ok _ _ _ Hy).
    cbn [bind cell n_left root]. rewrite (IHa y' b' _ (Some (e_lane y)) gs' fuel Ha Hf') by (cbn [ht] in *; lia).
    by destruct gs'.
Qed.
Lemma first_left a y b : Forall (fun f => exists x r, f = FL x r) (first a y b).2.
Proof.
  revert y b. induction a as [|a IHa y' b' _]; intros y b; simpl; [constructor|]. specialize (IHa y' b').
  destruct (first a y' b') as [[m k] gs]. simpl in *. apply Forall_app. split; [done|]. constructor; [eauto|constructor].
Qed.

(** The root at the top of a path takes another parent. *)
Lemma path_retop top top' s gs child y n : path top s gs child -> gs <> [] -> top_of gs child = Some y ->
  NoDup (plane gs) -> at_ s y = Some n -> path top' (put s y (with_parent n top')) gs child.
Proof.
  revert child. induction gs as [|g gs IH]; intros child; [done|]. intros [Hg Hp] _ Hy (Hgg & Hng)%NoDup_cons Hn.
  apply NoDup_app in Hng as (_ & Hdis & Hng). rewrite not_elem_of_app in Hgg.
  cbn [top_of] in Hy. destruct gs as [|g' gs].
  - injection Hy as <-. split; [|done]. destruct Hg as [(o & h & Hg) Hs]. split.
    + exists o, h. rewrite (node_put_eq _ _ _ _ Hg). rewrite Hg in Hn. injection Hn as <-. by destruct g.
    + eapply rep_put; [exact Hn|done|tauto].
  - assert (Hin : y ∈ plane (g' :: gs)).
    { clear -Hy. revert g' Hy. induction gs as [|g2 gs IH]; intros g' Hy; [injection Hy as <-; simpl; set_solver|].
      specialize (IH g2 Hy). cbn [plane] in *. set_solver. }
    split; [|by apply IH]. cbn [up_link] in *.
    eapply (frame_off (fun j => j = y)); [exact Hg|by eapply off_put| |].
    + intros Heq. destruct Hgg as [_ Hgg]. apply Hgg. rewrite Heq. exact Hin.
    + intros j Hj ->. by apply (Hdis y).
Qed.

Lemma plane_length fs : (length fs <= length (plane fs))%nat.
Proof. induction fs as [|f fs IH]; simpl; [lia|]. rewrite length_app. lia. Qed.

(** What [remove] leaves behind. *)
Definition removed (s : Nodes) (l : tree) (x : Elem) (r : tree) (fs : list frame) (m : run E (option Index * Nodes)) : Prop :=
  exists s', m = Ok (root (del l x r fs), s') /\ rep s' (del l x r fs) None /\ off (on (plugs (T l x r) fs)) s s'.
Definition roomy (s : Nodes) (t : tree) : Prop :=
  NoDup (lanes t) /\ avl t /\ ht t <= 190 /\ (length (lanes t) <= length s)%nat.

(** At most one child: it takes the place of the lane. *)
Lemma remove_one s l x r fs t rt : rep s (plugs (T l x r) fs) None -> roomy s (plugs (T l x r) fs) ->
  (l = Leaf /\ t = r) \/ (r = Leaf /\ t = l) -> del l x r fs = ups t fs ->
  removed s l x r fs
    (let! (root, s) := replace s rt (e_lane x) (root t) in restore (fuel_of s) s root (up_link None fs)).
Proof.
  intros Hrep (Hnd & Ha & Hh & Hlen) Ht Hdel. destruct (rep_path _ _ _ _ Hrep) as [Hp (Hx & Hl & Hr)].
  rewrite plugs_perm in Hnd, Hlen. rewrite length_app in Hlen. apply NoDup_app in Hnd as (Hnt & Hdis & Hnp).
  pose proof Hnt as (Hnl & Hnr & Hxl & Hxr & _)%NoDup_T. setoid_rewrite lanes_T in Hdis.
  assert (Ht' : rep s t (Some (e_lane x)) /\ NoDup (lanes t) /\ (e_lane x ∉ lanes t) /\ (forall j, j ∈ lanes t -> j ∉ plane fs)
    /\ avl t /\ ht (T l x r) - 1 <= ht t <= ht (T l x r)).
  { pose proof (avl_plugs _ _ Ha) as (Hal & Har & Hd). pose proof (ht_nonneg l). pose proof (ht_nonneg r).
    destruct Ht as [[-> ->]|[-> ->]]; simpl in *; repeat split; try done; try lia; intros j Hj; apply Hdis; auto. }
  destruct Ht' as (Htr & Hntt & Hxt & Htp & Hat & Hht). pose proof (Hdis (e_lane x) ltac:(auto)) as Hxp.
  destruct (replace_ok s fs (e_lane x) _ (root t) rt Hp Hx eq_refl Hnp Hxp) as (s1 & rt1 & -> & Hp1 & Hm1 & Ho1 & Hrt1).
  { intros i Hi. pose proof (root_lanes _ _ Hi). split; [by eapply rep_at|by apply Htp]. }
  assert (Hup : forall j, up_link None fs = Some j -> j ∈ plane fs) by (destruct fs; [done|intros j [= <-]; simpl; set_solver]).
  assert (Ht1 : rep s1 t (up_link None fs)).
  { eapply rep_moved; [exact Htr|done|done|exact Ho1|]. intros j [?|Hj] Hin; [done|]. by destruct (Htp j Hin (Hup j Hj)). }
  cbn [bind]. pose proof (plane_length fs). destruct Ho1 as [Hls Ho1].
  destruct (restore_ok fs (fuel_of s1) s1 t (T l x r) rt1 Hp1 Ht1) as (s2 & He & Hr2 & Ho2);
    [intros ->; done|by apply NoDup_app|done|done|done|done|unfold fuel_of; lia|].
  unfold removed. rewrite Hdel. exists s2. split; [done|]. split; [done|].
  assert (Hin : forall j, j ∈ lanes t \/ j ∈ plane fs -> j ∈ lanes (plugs (T l x r) fs)).
  { intros j. rewrite lanes_plugs, lanes_T. destruct Ht as [[-> ->]|[-> ->]]; tauto. }
  eapply (off_trans _ _ s1); [split; [done|]|eapply off_weaken; [|exact Ho2]; auto].
  intros j Hj. apply Ho1. intros [Hc|Hc]; apply Hj, Hin; [left; by apply root_lanes|right; auto].
Qed.

(** Both children, the successor being the right one. *)
Lemma remove_near s l x y b fs rt : rep s (plugs (T l x (T Leaf y b)) fs) None -> roomy s (plugs (T l x (T Leaf y b)) fs) ->
  l <> Leaf ->
  removed s l x (T Leaf y b) fs
    (let! (rt, s) := replace s rt (e_lane x) (Some (e_lane y)) in
     let! s := left s (e_lane y) (root l) in
     restore (fuel_of s) s rt (Some (e_lane y))).
Proof.
  intros Hrep (Hnd & Ha & Hh & Hlen) Hll. destruct (rep_path _ _ _ _ Hrep) as [Hp (Hx & Hl & Hr)].
  rewrite plugs_perm in Hnd, Hlen. rewrite length_app in Hlen. apply NoDup_app in Hnd as (Hnt & Hdis & Hnp).
  pose proof Hnt as (Hnl & Hnr & Hxl & Hxr & Hlr)%NoDup_T. pose proof Hnr as (_ & Hnb & _ & Hyb & _)%NoDup_T.
  repeat setoid_rewrite lanes_T in Hdis. setoid_rewrite lanes_T in Hlr. rewrite lanes_T in Hxr.
  destruct (replace_ok s fs (e_lane x) _ (Some (e_lane y)) rt Hp Hx eq_refl Hnp (Hdis (e_lane x) ltac:(auto))) as (s1 & rt1 & -> & Hp1 & Hm1 & Ho1 & Hrt1).
  { intros i [= <-]. split; [destruct Hr as [-> _]; eauto|apply Hdis; auto]. }
  assert (Hup : forall j, up_link None fs = Some j -> j ∈ plane fs) by (destruct fs; [done|intros j [= <-]; simpl; set_solver]).
  assert (Hr1 : rep s1 (T Leaf y b) (up_link None fs)).
  { eapply (rep_moved (linked (Some (e_lane y)) (up_link None fs))); [exact Hr|done|exact Hm1|exact Ho1|].
    intros j [?|Hj] Hin%lanes_T; [done|]. destruct (Hdis j ltac:(tauto) (Hup j Hj)). }
  assert (Hl1 : rep s1 l (Some (e_lane x))).
  { eapply rep_off; [exact Hl|exact Ho1|]. intros j Hj [[= <-]|Hc]; [apply (Hlr (e_lane y)); auto|by destruct (Hdis j ltac:(auto) (Hup j Hc))]. }
  destruct Hr1 as (Hy1 & _ & Hb1). cbn [bind].
  destruct (left_ok (E := E) c s1 (e_lane y) _ l _ Hy1 Hl1 Hnl) as (s2 & He2 & Hy2 & Hl2 & Ho2); [intros ?; apply (Hlr (e_lane y)); auto|].
  rewrite He2. cbn [bind].
  assert (Hpath2 : path None s2 (FR l y :: fs) (root b)).
  { split; [split; [eexists _, _; exact Hy2|exact Hl2]|]. eapply path_off; [exact Hp1|exact Ho2|].
    intros j Hj [->|?]; eapply Hdis; [|exact Hj| |exact Hj]; auto. }
  assert (Hb2 : rep s2 b (Some (e_lane y))).
  { eapply rep_off; [exact Hb1|exact Ho2|]. intros j Hj [->|?]; [done|apply (Hlr j); auto]. }
  assert (Hn2 : NoDup (lanes b ++ plane (FR l y :: fs))).
  { cbn [plane f_side]. change (f_lane (FR l y)) with (e_lane y). apply NoDup_app. split; [done|]. split.
    - intros j Hj. rewrite elem_of_cons, elem_of_app. intros [->|[?|?]]; [done|apply (Hlr j); auto|by apply (Hdis j); auto].
    - apply NoDup_cons. split; [rewrite elem_of_app; intros [?|?]; [apply (Hlr (e_lane y)); auto|by apply (Hdis (e_lane y)); auto]|].
      apply NoDup_app. split; [done|]. split; [intros j Hj; apply Hdis; auto|done]. }
  destruct (avl_hole l x Leaf y b fs y b [] Ha eq_refl) as [Hah Hhh]. rewrite app_nil_l in Hah, Hhh.
  pose proof (avl_plugs _ _ Hah) as (_ & Hab & Hd). pose proof (ht_nonneg b).
  destruct (restore_ok (FR l y :: fs) (fuel_of s2) s2 b (T Leaf y b) rt1 Hpath2 Hb2) as (s3 & He3 & Hr3 & Ho3);
    [done|done|done|done|simpl in *; lia|lia| |].
  { unfold fuel_of. destruct Ho1 as [Hs1 _], Ho2 as [-> _]. pose proof (plane_length fs). simpl. lia. }
  assert (Hdel : del l x (T Leaf y b) fs = ups b (FR l y :: fs)) by (by destruct l).
  unfold removed. rewrite Hdel. exists s3. split; [exact He3|]. split; [done|].
  assert (Hin : forall j, j = e_lane y \/ j ∈ lanes l \/ j ∈ lanes b \/ j ∈ plane fs -> on (plugs (T l x (T Leaf y b)) fs) j).
  { intros j. unfold on. rewrite lanes_plugs, !lanes_T. tauto. }
  eapply off_trans; [eapply off_weaken; [|exact Ho1]; intros j [[= <-]|?]; apply Hin; auto 6|].
  eapply off_trans; [eapply off_weaken; [|exact Ho2]; intros j [?|?]; apply Hin; auto|].
  eapply off_weaken; [|exact Ho3]. intros j Hj. apply Hin. cbn [plane f_side] in Hj. rewrite elem_of_cons, elem_of_app in Hj.
  change (f_lane (FR l y)) with (e_lane y) in Hj. tauto.
Qed.

(** The successor deeper down is unlinked from its parent. *)
Lemma unlink_ok s a y b q m k g gs : rep s (T a y b) q -> NoDup (lanes (T a y b)) -> first a y b = (m, k, g :: gs) ->
  exists s1 o h, left (E := E) s (f_lane g) (root k) = Ok s1 /\ path q s1 (g :: gs) (root k)
    /\ rep s1 k (Some (f_lane g)) /\ at_ s1 (e_lane m) = Some (cell m o None (root k) (Some (f_lane g)) h)
    /\ top_of (g :: gs) (root k) = Some (e_lane y)
    /\ lanes (T a y b) ≡ₚ e_lane m :: lanes k ++ plane (g :: gs) /\ off (fun j => j = f_lane g \/ j ∈ lanes k) s s1.
Proof.
  intros Hrep Hnd Hf. pose proof (first_plugs a y b) as Hpl. pose proof (first_left a y b) as Hleft. rewrite Hf in Hpl, Hleft.
  apply Forall_cons in Hleft as [(gx & gr & ->) _]. rewrite <- Hpl in Hrep.
  assert (Hperm : lanes (T a y b) ≡ₚ e_lane m :: lanes k ++ plane (FL gx gr :: gs)) by (by rewrite <- Hpl, plugs_perm).
  destruct (rep_path _ _ _ _ Hrep) as [Hp (Hm & _ & Hk)]. cbn [up_link] in Hm. destruct Hp as [[(o & h & Hg) Hgr] Hp].
  rewrite Hperm, NoDup_cons, NoDup_app in Hnd. destruct Hnd as (Hmout & Hnk & Hdk & Hng).
  cbn [plane] in Hmout, Hdk, Hng. apply NoDup_cons in Hng as [Hgg Hng]. apply NoDup_app in Hng as (_ & Hdg & _).
  change (f_lane (FL gx gr)) with (e_lane gx) in *. change (f_side (FL gx gr)) with gr in *.
  destruct (left_ok (E := E) c s (e_lane gx) _ k _ Hg Hk Hnk) as (s1 & He & Hg1 & Hk1 & Ho1); [set_solver|].
  exists s1, (old (T Leaf m k)), (ht (T Leaf m k)). split; [exact He|]. split; [|split; [exact Hk1|]].
  - split; [split; [eexists _, _; exact Hg1|]|].
    + eapply rep_off; [exact Hgr|exact Ho1|]. set_solver.
    + eapply path_off; [exact Hp|exact Ho1|]. set_solver.
  - split; [|split; [|split; [exact Hperm|exact Ho1]]].
    + destruct Ho1 as [_ ->]; [exact Hm|set_solver].
    + change (top_of (FL gx gr :: gs) (root k)) with (top_of (FL gx gr :: gs) (root (T Leaf m k))). by rewrite top_of_plugs, Hpl.
Qed.

(** The successor takes the children of the lane it replaces. *)
Lemma attach_ok s l m k g gs fs x y o h :
  path None s fs (Some (e_lane m)) -> path (Some x) s (g :: gs) (root k) -> rep s k (Some (f_lane g)) -> rep s l (Some x) ->
  at_ s (e_lane m) = Some (cell m o None (root k) (up_link None fs) h) ->
  top_of (g :: gs) (root k) = Some y -> y ∈ plane (g :: gs) -> is_Some (at_ s y) ->
  NoDup (e_lane m :: lanes l ++ lanes k ++ plane (g :: gs) ++ plane fs) ->
  exists s4, (let! s := left (E := E) s (e_lane m) (root l) in right s (e_lane m) (Some y)) = Ok s4
    /\ path None s4 ((g :: gs) ++ FR l m :: fs) (root k) /\ rep s4 k (Some (f_lane g))
    /\ off (fun j => j = e_lane m \/ j ∈ lanes l \/ j = y) s s4.
Proof.
  intros Hp Hg Hk Hl Hm Htop Hy [n Hn] Hnd. apply NoDup_cons in Hnd as [Hmout Hnd].
  apply NoDup_app in Hnd as (Hnl & Hdl & Hnd). apply NoDup_app in Hnd as (Hnk & Hdk & Hnd). apply NoDup_app in Hnd as (Hng & Hdg & Hnf).
  rewrite !not_elem_of_app in Hmout. destruct Hmout as (Hml & Hmk & Hmg & Hmf). repeat setoid_rewrite not_elem_of_app in Hdl. setoid_rewrite not_elem_of_app in Hdk.
  destruct (left_ok (E := E) c s (e_lane m) _ l _ Hm Hl Hnl Hml) as (s1 & -> & Hm1 & Hl1 & Ho1). cbn [bind].
  assert (Hkeep : forall j, j ∈ lanes k \/ j ∈ plane (g :: gs) \/ j ∈ plane fs -> ~ (j = e_lane m \/ j ∈ lanes l)).
  { intros j Hj [->|Hjl]; [tauto|]. specialize (Hdl j Hjl). tauto. }
  assert (Hn1 : at_ s1 y = Some n) by (destruct Ho1 as [_ ->]; [done|apply Hkeep; auto]).
  assert (Hym : y <> e_lane m) by (intros ->; done).
  unfold right. rewrite (edit_ok _ _ _ _ Hm1). cbn [bind]. set (s2 := put s1 (e_lane m) _).
  assert (Hn2 : at_ s2 y = Some n) by (unfold s2; by rewrite (node_put_ne _ _ _ _ _ Hm1)).
  rewrite (edit_ok _ _ _ _ Hn2). set (s3 := put s2 y _).
  assert (Ho2 : off (fun j => j = e_lane m) s1 s2) by (by eapply off_put). assert (Ho3 : off (fun j => j = y) s2 s3) by (by eapply off_put).
  assert (Hg2 : path (Some x) s2 (g :: gs) (root k)).
  { eapply path_off; [eapply path_off; [exact Hg|exact Ho1|intros j Hj; apply Hkeep; auto]|exact Ho2|]. intros j Hj ->. done. }
  exists s3. split; [done|]. split; [|split].
  - apply path_app. split; [by eapply path_retop|]. rewrite Htop. split; [split|].
    + eexists _, _. unfold s3. rewrite (node_put_ne _ _ _ _ _ Hn2) by done. by eapply node_put_eq.
    + cbn [f_side]. change (f_lane (FR l m)) with (e_lane m). unfold s3. eapply rep_put; [exact Hn2| |intros ?; specialize (Hdl y); tauto].
      unfold s2. by eapply rep_put.
    + eapply path_off; [eapply path_off; [eapply path_off; [exact Hp|exact Ho1|intros j Hj; apply Hkeep; auto]|exact Ho2|]|exact Ho3|].
      * intros j Hj ->. done.
      * intros j Hj ->. by apply (Hdg y).
  - unfold s3. eapply rep_put; [exact Hn2| |intros ?; specialize (Hdk y); tauto]. unfold s2. eapply rep_put; [exact Hm1| |done].
    eapply rep_off; [exact Hk|exact Ho1|]. intros j Hj. apply Hkeep; auto.
  - eapply off_trans; [eapply off_weaken; [|exact Ho1]; naive_solver|].
    eapply off_trans; [eapply off_weaken; [|exact Ho2]; naive_solver|eapply off_weaken; [|exact Ho3]; naive_solver].
Qed.

(** The lanes of a tree around the place of the successor. *)
Lemma around_perm l x r m (K G P : list Index) : lanes r ≡ₚ m :: K ++ G ->
  lanes (T l x r) ++ P ≡ₚ e_lane x :: m :: lanes l ++ K ++ G ++ P.
Proof.
  intros Hp. unfold lanes in *. simpl. rewrite fmap_app, fmap_cons, Hp. rewrite <- Permutation_middle. simpl. constructor.
  rewrite <- !(assoc_L app). simpl. rewrite <- Permutation_middle. constructor. by rewrite <- !(assoc_L app).
Qed.
Lemma top_in fs child y : fs <> [] -> top_of fs child = Some y -> y ∈ plane fs.
Proof.
  revert child. induction fs as [|f fs IH]; intros child; [done|]. intros _ Hy. cbn [plane top_of] in *.
  destruct fs as [|f' fs]; [injection Hy as <-; set_solver|]. specialize (IH _ ltac:(done) Hy). set_solver.
Qed.
Lemma up_link_in fs j : up_link None fs = Some j -> j ∈ plane fs.
Proof. destruct fs; [done|]. intros [= <-]. cbn [plane]. set_solver. Qed.

(** Once unlinked, the successor takes the lane's place in the table. *)
Lemma take_place s l x m k g gs fs y rt n o h :
  path None s fs (Some x) -> at_ s x = Some n -> n_parent n = up_link None fs ->
  path (Some x) s (g :: gs) (root k) -> rep s k (Some (f_lane g)) -> rep s l (Some x) ->
  at_ s (e_lane m) = Some (cell m o None (root k) (Some (f_lane g)) h) -> top_of (g :: gs) (root k) = Some y -> is_Some (at_ s y) ->
  NoDup (x :: e_lane m :: lanes l ++ lanes k ++ plane (g :: gs) ++ plane fs) ->
  exists s4 rt2, (let! (rt, s) := replace s rt x (Some (e_lane m)) in
     let! s := left s (e_lane m) (root l) in
     let! s := right s (e_lane m) (Some y) in Ok (rt, s)) = Ok (E := E) (rt2, s4)
    /\ path None s4 ((g :: gs) ++ FR l m :: fs) (root k) /\ rep s4 k (Some (f_lane g))
    /\ off (fun j => j = e_lane m \/ j ∈ lanes l \/ j ∈ plane (g :: gs) \/ j ∈ plane fs) s s4.
Proof.
  intros Hp Hx Hpar Hg Hk Hl Hm Htop [ny Hy] [Hxo Hnd]%NoDup_cons. pose proof (top_in (g :: gs) _ _ ltac:(done) Htop) as Hyin.
  rewrite not_elem_of_cons, !not_elem_of_app in Hxo. destruct Hxo as (Hxm & Hxl & Hxk & Hxg & Hxf).
  pose proof Hnd as [Hmo Hnd1]%NoDup_cons. rewrite !not_elem_of_app in Hmo.
  pose proof Hnd1 as (Hnl & Hdl & (Hnk & Hdk & (Hng & Hdg & Hnf)%NoDup_app)%NoDup_app)%NoDup_app.
  destruct (replace_ok s fs x n (Some (e_lane m)) rt Hp Hx Hpar Hnf Hxf) as (s2 & rt2 & -> & Hp2 & Hm2 & Ho2 & _).
  { intros i [= <-]. split; [eauto|tauto]. }
  cbn [bind]. specialize (Hm2 _ _ eq_refl Hm).
  assert (Hkeep : forall j, j ∈ lanes l \/ j ∈ lanes k \/ j ∈ plane (g :: gs) -> ~ linked (Some (e_lane m)) (up_link None fs) j).
  { intros j Hj [[= <-]|Hc%up_link_in]; [tauto|]. destruct Hj as [Hj|[Hj|Hj]]; [apply (Hdl j Hj)|apply (Hdk j Hj)|by apply (Hdg j)]; set_solver. }
  destruct (attach_ok s2 l m k g gs fs x y o h Hp2) as (s4 & (s3 & -> & He4)%bind_Ok & Hpath & Hk4 & Ho4); try done.
  - eapply path_off; [exact Hg|exact Ho2|auto].
  - eapply rep_off; [exact Hk|exact Ho2|auto].
  - eapply rep_off; [exact Hl|exact Ho2|auto].
  - destruct Ho2 as [_ ->]; [eauto|auto].
  - cbn [bind]. rewrite He4. cbn [bind]. exists s4, rt2. split; [done|]. split; [done|]. split; [done|].
    eapply off_trans; [eapply off_weaken; [|exact Ho2]; intros j [[= <-]|?%up_link_in]; tauto|].
    eapply off_weaken; [|exact Ho4]. intros j [?|[?| ->]]; tauto.
Qed.

(** Both children, the successor being deeper down. *)
Lemma remove_far s l x a y b fs rt m k g gs : rep s (plugs (T l x (T a y b)) fs) None -> roomy s (plugs (T l x (T a y b)) fs) ->
  l <> Leaf -> first a y b = (m, k, g :: gs) ->
  removed s l x (T a y b) fs
    (let! n := get s (e_lane m) in
     let child := n_right n in
     let! s := left s (f_lane g) child in
     let! (rt, s) := replace s rt (e_lane x) (Some (e_lane m)) in
     let! s := left s (e_lane m) (root l) in
     let! s := right s (e_lane m) (Some (e_lane y)) in
     restore (fuel_of s) s rt (Some (f_lane g))).
Proof.
  intros Hrep (Hnd & Ha & Hh & Hlen) Hll Hf. destruct (rep_path _ _ _ _ Hrep) as [Hp (Hx & Hl & Hr)].
  rewrite plugs_perm in Hnd, Hlen. pose proof Hnd as ((_ & Hnr & Hxl & Hxr & Hlr)%NoDup_T & Hdis & _)%NoDup_app.
  destruct (unlink_ok s a y b _ m k g gs Hr Hnr Hf) as (s1 & o & h & He1 & Hg1 & Hk1 & Hm1 & Htop & Hperm & Ho1).
  rewrite (around_perm _ _ _ _ _ _ (plane fs) Hperm) in Hnd, Hlen.
  assert (Hm : exists n, at_ s (e_lane m) = Some n /\ n_right n = root k).
  { pose proof (first_plugs a y b) as Hfp. rewrite Hf in Hfp. rewrite <- Hfp in Hr. destruct (rep_path _ _ _ _ Hr) as [_ (Hm & _)]. by eexists. }
  destruct Hm as (n & Hn & Hright). rewrite (get_ok _ _ _ Hn). cbn [bind]. rewrite Hright, He1. cbn [bind].
  assert (Hin : forall j, j = f_lane g \/ j ∈ lanes k \/ j ∈ plane (g :: gs) \/ j = e_lane m -> j ∈ lanes (T a y b)).
  { intros j Hj. rewrite Hperm, elem_of_cons, elem_of_app. cbn [plane] in *. set_solver. }
  assert (Ho1' : off (fun j => j ∈ lanes (T a y b)) s s1) by (eapply off_weaken; [|exact Ho1]; intros j [?|?]; apply Hin; auto).
  assert (Hx1 : at_ s1 (e_lane x) = at_ s (e_lane x)) by (by apply Ho1'). rewrite Hx in Hx1.
  assert (Hp1 : path None s1 fs (Some (e_lane x))).
  { eapply path_off; [exact Hp|exact Ho1'|]. intros j Hj Hc. apply (Hdis j); [rewrite lanes_T; auto|done]. }
  assert (Hl1 : rep s1 l (Some (e_lane x))) by (eapply rep_off; [exact Hl|exact Ho1'|intros j Hj Hc; by apply (Hlr j)]).
  assert (Hy1 : is_Some (at_ s1 (e_lane y))) by (apply at_some; rewrite (proj1 Ho1'); destruct Hr as [Hyr _]; by eapply at_range).
  destruct (take_place s1 l (e_lane x) m k g gs fs (e_lane y) rt _ o h Hp1 Hx1 eq_refl Hg1 Hk1 Hl1 Hm1 Htop Hy1 Hnd) as (s4 & rt4 & He4 & Hpath & Hk4 & Ho4).
  apply bind_Ok in He4 as ([rt2 s2] & -> & (s3 & He3 & (s5 & He5 & [= -> ->])%bind_Ok)%bind_Ok). cbn [bind]. rewrite He3. cbn [bind]. rewrite He5. cbn [bind].
  destruct (avl_hole _ _ _ _ _ _ _ _ _ Ha Hf) as [Hah Hhh]. pose proof (avl_plugs _ _ Hah) as (_ & Hak & Hd). pose proof (ht_nonneg k).
  destruct (restore_ok ((g :: gs) ++ FR l m :: fs) (fuel_of s4) s4 k (T Leaf m k) rt4 Hpath Hk4) as (s6 & He6 & Hr6 & Ho6);
    [done| |done|done|simpl in *; lia|lia| |].
  { rewrite plane_app. change (plane (FR l m :: fs)) with (e_lane m :: lanes l ++ plane fs). apply NoDup_cons in Hnd as [_ Hnd].
    revert Hnd. generalize (plane (g :: gs)), (plane fs), (lanes l), (lanes k). intros G P L K Hnd.
    assert (K ++ G ++ e_lane m :: L ++ P ≡ₚ e_lane m :: L ++ K ++ G ++ P) as ->; [solve_Permutation|done]. }
  { unfold fuel_of. rewrite (proj1 Ho4), (proj1 Ho1). pose proof (plane_length (g :: gs)). pose proof (plane_length fs).
    cbn [length] in Hlen. rewrite !length_app in *. cbn [length] in *. lia. }
  assert (Hdel : del l x (T a y b) fs = ups k ((g :: gs) ++ FR l m :: fs)) by (unfold del; rewrite Hf; by destruct l).
  unfold removed. rewrite Hdel. exists s6. split; [exact He6|]. split; [done|].
  assert (Hon : forall j, j ∈ lanes (T a y b) \/ j ∈ lanes l \/ j ∈ plane fs -> on (plugs (T l x (T a y b)) fs) j).
  { intros j. unfold on. rewrite lanes_plugs, (lanes_T _ l x). tauto. }
  eapply off_trans; [eapply off_weaken; [|exact Ho1']; auto|]. eapply off_trans; [eapply off_weaken; [|exact Ho4]|eapply off_weaken; [|exact Ho6]].
  - intros j [->|[?|[?|?]]]; apply Hon; [left; apply Hin; auto|auto|left; apply Hin; auto|auto].
  - intros j Hj. apply Hon. rewrite plane_app in Hj. change (plane (FR l m :: fs)) with (e_lane m :: lanes l ++ plane fs) in Hj.
    rewrite elem_of_app, elem_of_cons, elem_of_app in Hj.
    destruct Hj as [?|[?|[->|[?|?]]]]; [left; apply Hin; auto..|auto|auto].
Qed.

(** [remove] takes the lane out of its tree. *)
Theorem tree_remove_ok s l x r fs : rep s (plugs (T l x r) fs) None -> roomy s (plugs (T l x r) fs) ->
  removed s l x r fs (remove s (root (plugs (T l x r) fs)) (e_lane x)).
Proof.
  intros Hrep Hroom. destruct (rep_path _ _ _ _ Hrep) as [Hp (Hx & Hl & Hr)].
  unfold remove. rewrite (get_ok _ _ _ Hx). cbn [bind cell n_left n_right n_parent].
  destruct l as [|la lx lb].
  { cbn [root]. apply remove_one; [done|done|by left|done]. }
  destruct r as [|a y b].
  { cbn [root]. apply (remove_one s (T la lx lb) x Leaf fs (T la lx lb)); [done|done|by right|done]. }
  cbn [root]. destruct (first a y b) as [[m k] gs] eqn:Hf.
  destruct Hroom as (Hnd & Ha & Hh & Hlen). pose proof (avl_plugs _ _ Ha) as Hax. pose proof (ht_plugs (T (T la lx lb) x (T a y b)) fs) as Hhx.
  assert (Hy : ht (T a y b) <= Z.of_nat (length s)).
  { etrans; [|apply inj_le; exact Hlen]. unfold lanes. rewrite length_fmap. etrans; [apply ht_size|]. apply inj_le.
    rewrite els_plugs. cbn [els]. repeat (rewrite ?length_app; cbn [length]). lia. }
  rewrite (minimum_ok (fuel_of s) s a y b _ None m k gs Hr Hf) by (unfold fuel_of; lia). cbn [bind].
  destruct gs as [|g gs].
  - cbn [up_link]. destruct a as [|a z b']; [|cbn [first] in Hf; destruct (first a z b') as [[? ?] gs']; by destruct gs'].
    cbn [first] in Hf. injection Hf as <- <-. by apply remove_near.
  - cbn [up_link]. by apply (remove_far s (T la lx lb) x a y b fs _ m k g gs).
Qed.
End removal.
End Removal.
