(* ===== verification/CreditState.v ===== *)
(** * The waiting lanes as a finite map.

    The three trees of [CreditTree.Roots] over one table stand for a map from lanes
    to what they wait for; each operation of [State] is the operation on the map. *)

From stdpp Require Import gmap.
From S2P Require Import Prelude CreditTree CreditAvl CreditTreeFacts CreditRemoval.

Module Waiters.
Import CreditTree.Tree Avl TreeFacts Removal.

(** What a lane waits for: entries and bytes beyond its protected credit, and since
    when. *)
Record Waiter := waiter { w_entries : Entries; w_res : Z; w_tick : Ticket }.
Abbreviation Waits := (gmap Z Waiter).
(** The demand of a waiter is covered by what is shared. *)
Definition entry_count (e : Entries) : Z := match e with Zero => 0 | One => 1 | Two => 2 end.
Definition covers (shared : Z * Z) (w : Waiter) : Prop := entry_count (w_entries w) <= shared.1 /\ w_res w <= shared.2.
#[export] Instance covers_dec shared w : Decision (covers shared w).
Proof. apply _. Defined.

(** A choice of the waiter with the earliest ticket among those that satisfy [P]. *)
Definition earliest (P : Waiter -> Prop) (M : Waits) (choice : option Index) : Prop :=
  match choice with
  | Some i => exists w, M !! i = Some w /\ P w /\ forall j v, M !! j = Some v -> P v -> w_tick w <= w_tick v
  | None => forall j v, M !! j = Some v -> ~ P v
  end.

Section holds.
Context {E : Type}.

(** The tree of a class. *)
Definition Trees : Type := Entries -> tree.
Record Holds (s : Nodes) (r : Roots) (M : Waits) (tr : Trees) : Prop := {
  h_rep c : rep c s (tr c) None;
  h_root c : root_of r c = root (tr c);
  h_avl c : avl (tr c);
  h_ordered c : ordered (tr c);
  h_nodup c : NoDup (lanes (tr c));
  h_els c x : x ∈ els (tr c) <-> M !! e_lane x = Some (waiter c (e_res x) (e_tick x));
  h_table : Z.of_nat (length s) < 2 ^ 32;
}.
Definition holds (s : Nodes) (r : Roots) (M : Waits) : Prop := exists tr, Holds s r M tr.

Lemma waiters_new n : Z.of_nat n < 2 ^ 32 -> holds (replicate n idle) roots_new ∅.
Proof.
  intros Hn. exists (fun _ => Leaf). split; try done.
  - by intros [].
  - intros c. constructor.
  - intros c. constructor.
  - intros c x. by rewrite lookup_empty, elem_of_nil.
  - by rewrite length_replicate.
Qed.

Lemma rep_length c s t p : rep c s t p -> NoDup (lanes t) -> (length (lanes t) <= length s)%nat.
Proof.
  intros Hr Hnd. assert (Hin : forall j, j ∈ lanes t -> j ∈ seqZ 1 (Z.of_nat (length s))).
  { intros j Hj. destruct (rep_at _ _ _ _ _ Hr Hj) as [n Hn]. apply at_range in Hn. apply elem_of_seqZ. lia. }
  pose proof (submseteq_length _ _ (NoDup_submseteq _ _ Hnd Hin)) as Hl. rewrite length_seqZ in Hl. lia.
Qed.
Lemma holds_roomy s r M tr c : Holds s r M tr -> roomy s (tr c).
Proof.
  intros Hs. pose proof (rep_length _ _ _ _ (h_rep _ _ _ _ Hs c) (h_nodup _ _ _ _ Hs c)) as Hl.
  split; [apply Hs|]. split; [apply Hs|]. split; [|done].
  pose proof (avl_height (tr c) (h_avl _ _ _ _ Hs c)). pose proof (h_table _ _ _ _ Hs).
  unfold lanes in Hl. rewrite length_fmap in Hl. lia.
Qed.
Lemma holds_lanes s r M tr c i : Holds s r M tr -> i ∈ lanes (tr c) <-> exists w, M !! i = Some w /\ w_entries w = c.
Proof.
  intros Hs. unfold lanes. rewrite list_elem_of_fmap. split.
  - intros (x & -> & Hx). apply (h_els _ _ _ _ Hs) in Hx. eauto.
  - intros ([c' res tick] & Hw & <-). exists (elem i res tick). split; [done|]. by apply (h_els _ _ _ _ Hs).
Qed.
Lemma root_of_set r c o c' : root_of (set_root r c o) c' = if decide (c' = c) then o else root_of r c'.
Proof. destruct c, c', r; by case_decide. Qed.

(** One tree changes; the others are elsewhere in the table. *)
Lemma holds_change s s' r M M' tr c t' :
  Holds s r M tr -> rep c s' t' None -> avl t' -> ordered t' -> NoDup (lanes t') ->
  (forall c', c' <> c -> forall j, j ∈ lanes (tr c') -> at_ s' j = at_ s j) -> length s' = length s ->
  (forall x, x ∈ els t' <-> M' !! e_lane x = Some (waiter c (e_res x) (e_tick x))) ->
  (forall c' i res tick, c' <> c -> M' !! i = Some (waiter c' res tick) <-> M !! i = Some (waiter c' res tick)) ->
  Holds s' (set_root r c (root t')) M' (fun c' => if decide (c' = c) then t' else tr c').
Proof.
  intros Hs Hr Ha Ho Hn Hoff Hlen Hels Hother. split.
  - intros c'. case_decide; [by subst|]. eapply rep_ext; [apply Hs|]. by apply Hoff.
  - intros c'. rewrite root_of_set. case_decide; [done|apply Hs].
  - intros c'. case_decide; [done|apply Hs].
  - intros c'. case_decide; [done|apply Hs].
  - intros c'. case_decide; [done|apply Hs].
  - intros c' x. case_decide; [by subst|]. rewrite Hother by done. apply Hs.
  - rewrite Hlen. apply Hs.
Qed.

(** The place of a waiter in its tree. *)
Lemma tree_split t x : x ∈ els t -> exists l r fs, t = plugs (T l x r) fs.
Proof.
  induction t as [|l IHl y r IHr]; simpl; [set_solver|]. intros [Hx|[->|Hx]%elem_of_cons]%elem_of_app.
  - destruct (IHl Hx) as (a & b & fs & ->). exists a, b, (fs ++ [FL y r]). unfold plugs. by rewrite fold_left_app.
  - by exists l, r, [].
  - destruct (IHr Hx) as (a & b & fs & ->). exists a, b, (fs ++ [FR l y]). unfold plugs. by rewrite fold_left_app.
Qed.
Lemma els_lane_eq t x y : NoDup (lanes t) -> x ∈ els t -> y ∈ els t -> e_lane x = e_lane y -> x = y.
Proof. apply fmap_distinct. Qed.

(** The lanes of other classes are not touched by what is done within a tree. *)
Lemma other_class s r M tr c c' j : Holds s r M tr -> c' <> c -> j ∈ lanes (tr c') -> j ∉ lanes (tr c).
Proof.
  intros Hs Hne Hj Hc. apply (holds_lanes _ _ _ _ _ _ Hs) in Hj as (w & Hw & Hwc), Hc as (v & Hv & Hvc).
  apply Hne. rewrite <- Hwc, <- Hvc. f_equal. apply (inj Some). by rewrite <- Hw, <- Hv.
Qed.

(** ** The operations on the map *)

Theorem insert_node_ok s r M i res tick c : holds s r M -> M !! i = None -> 1 <= i <= Z.of_nat (length s) ->
  exists r' s', insert_node (E := E) r s i (waiting i res c tick) = Ok (r', s')
    /\ holds s' r' (<[i := waiter c res tick]> M) /\ length s' = length s.
Proof.
  intros [tr Hs] Hi Hrange. unfold insert_node, waiting. cbn [n_entries].
  destruct (at_some s i Hrange) as [n Hn]. rewrite (edit_ok _ _ _ _ Hn). cbn [bind]. set (s1 := put s i _).
  set (x := elem i res tick). assert (Hout : forall c', i ∉ lanes (tr c')).
  { intros c' (w & Hw & _)%(holds_lanes _ _ _ _ _ _ Hs). by rewrite Hi in Hw. }
  assert (Ho1 : off (fun j => j = i) s s1) by (by eapply off_put).
  assert (Hrep1 : forall c', rep c' s1 (tr c') None) by (intros c'; eapply rep_put; [exact Hn|apply Hs|done]).
  assert (Hx1 : rep c s1 (single x) None) by (split; [by eapply node_put_eq|done]).
  destruct (holds_roomy s r M tr c Hs) as (Hnd & Ha & Hh & Hlen). rewrite (h_root _ _ _ _ Hs).
  destruct (insert_ok (E := E) c (fuel_of s1) s1 (tr c) x None None (Hrep1 c) Hx1) as (i' & s2 & p' & He & Hroot & Hr2 & Ho2);
    [by apply NoDup_ins|done|lia| |].
  { unfold fuel_of. rewrite (proj1 Ho1). pose proof (ht_size (tr c)). unfold lanes in Hlen. rewrite length_fmap in Hlen. lia. }
  change (e_lane x) with i in He. rewrite He. cbn [bind].
  assert (Hn2 : NoDup (lanes (ins (tr c) x))) by (by apply NoDup_ins).
  destruct (reparent c s2 _ _ None i' Hr2 Hn2 Hroot) as (m & Hm & Hr3). rewrite (edit_ok _ _ _ _ Hm). cbn [bind].
  eexists _, _. split; [done|]. rewrite length_put, (proj1 Ho2), (proj1 Ho1). split; [|done]. rewrite <- Hroot.
  eexists. apply (holds_change s _ r M _ tr c); try done; try apply Hs.
  - by apply avl_ins.
  - by apply ordered_ins; [apply Hs|].
  - intros c' Hc' j Hj. pose proof (other_class _ _ _ _ _ _ _ Hs Hc' Hj) as Hjc.
    assert (Hji : j <> i) by (intros ->; by apply (Hout c')).
    assert (Hjt : ~ on (ins (tr c) x) j) by (intros [?|?]%lanes_ins; done).
    rewrite (node_put_ne _ _ _ _ _ Hm) by (intros ->; apply Hjt; by apply root_lanes).
    destruct Ho2 as [_ ->]; [|done]. by apply Ho1.
  - by rewrite length_put, (proj1 Ho2), (proj1 Ho1).
  - intros y. rewrite ins_perm, elem_of_cons, (h_els _ _ _ _ Hs). destruct (decide (e_lane y = i)) as [Hy|Hy].
    + rewrite Hy, lookup_insert_eq, Hi. split; [by intros [->|?]|]. intros [= Hyr Hyt]. left. destruct y. simpl in *. unfold x. by subst.
    + rewrite lookup_insert_ne by done. split; [intros [->|?]; done|auto].
  - intros c' j res' tick' Hc'. destruct (decide (j = i)) as [->|Hj].
    + rewrite lookup_insert_eq, Hi. split; [intros [= ? ? ?]; congruence|done].
    + by rewrite lookup_insert_ne.
Qed.

Theorem state_remove_ok s r M i w : holds s r M -> M !! i = Some w ->
  exists r' s', state_remove (E := E) r s i = Ok (r', s') /\ holds s' r' (delete i M) /\ length s' = length s.
Proof.
  intros [tr Hs] Hi. destruct w as [c res tick]. set (x := elem i res tick).
  assert (Hx : x ∈ els (tr c)) by (by apply (h_els _ _ _ _ Hs)).
  destruct (tree_split _ _ Hx) as (l & k & fs & Ht). pose proof (holds_roomy s r M tr c Hs) as Hroom. pose proof (h_rep _ _ _ _ Hs c) as Hr.
  rewrite Ht in Hroom, Hr. destruct (rep_path _ _ _ _ _ Hr) as [_ (Hn & _)].
  unfold state_remove. change (e_lane x) with i in Hn. rewrite (get_ok _ _ _ Hn). cbn [bind cell n_entries].
  destruct (tree_remove_ok (E := E) c s l x k fs Hr Hroom) as (s' & He & Hr' & Ho). rewrite (h_root _ _ _ _ Hs), Ht.
  change (e_lane x) with i in He. rewrite He. cbn [bind]. eexists _, _. split; [done|]. split; [|apply Ho].
  pose proof (del_perm l x k fs) as Hperm. pose proof (h_nodup _ _ _ _ Hs c) as Hnd. pose proof (h_avl _ _ _ _ Hs c) as Ha.
  pose proof (h_ordered _ _ _ _ Hs c) as Hord. rewrite Ht in Hnd, Ha, Hord.
  assert (Hnd' : (e_lane x ∉ lanes (del l x k fs)) /\ NoDup (lanes (del l x k fs))).
  { unfold lanes in *. rewrite Hperm, fmap_cons in Hnd. by apply NoDup_cons in Hnd. }
  eexists. apply (holds_change s _ r M _ tr c); try done.
  - by apply avl_del.
  - by apply ordered_del.
  - apply Hnd'.
  - intros c' Hc' j Hj. pose proof (other_class _ _ _ _ _ _ _ Hs Hc' Hj) as Hjc. apply Ho. unfold on. by rewrite <- Ht.
  - apply Ho.
  - intros y. pose proof (h_els _ _ _ _ Hs c y) as Hy. rewrite Ht, Hperm, elem_of_cons in Hy. destruct (decide (e_lane y = i)) as [Heq|Hne].
    + rewrite Heq, lookup_delete_eq. split; [|done]. intros Hin. destruct Hnd' as [Hout _]. exfalso. apply Hout.
      change (e_lane x) with i. rewrite <- Heq. unfold lanes. by apply list_elem_of_fmap_2.
    + rewrite lookup_delete_ne by done. rewrite <- Hy. split; [auto|]. intros [->|?]; done.
  - intros c' j res' tick' Hc'. destruct (decide (j = i)) as [->|Hj].
    + rewrite lookup_delete_eq, Hi. split; [done|]. intros [= ? ? ?]. congruence.
    + by rewrite lookup_delete_ne.
Qed.

Theorem state_refresh_ok s r M i w d : holds s r M -> M !! i = Some w ->
  exists r' s', state_refresh (E := E) r s i d = Ok (r', s')
    /\ holds s' r' (<[i := waiter (entries_from d.1) d.2 (w_tick w)]> M) /\ length s' = length s.
Proof.
  intros [tr Hs] Hi. destruct w as [c res tick]. set (x := elem i res tick).
  assert (Hx : x ∈ els (tr c)) by (by apply (h_els _ _ _ _ Hs)).
  destruct (tree_split _ _ Hx) as (l & k & fs & Ht). pose proof (h_rep _ _ _ _ Hs c) as Hr. rewrite Ht in Hr.
  destruct (rep_path _ _ _ _ _ Hr) as [_ (Hn & _)]. change (e_lane x) with i in Hn.
  unfold state_refresh. rewrite (get_ok _ _ _ Hn). cbn [bind cell n_entries n_ticket n_resident e_tick e_res x w_tick].
  destruct (bool_decide_reflect (c = entries_from d.1)) as [->|Hc]; [destruct (Z.eqb_spec res d.2) as [->|Hres]|]; cbn [andb].
  - exists r, s. split; [done|]. split; [|done]. rewrite insert_id by done. by exists tr.
  - destruct (state_remove_ok s r M i _ (ex_intro _ tr Hs) Hi) as (r1 & s1 & -> & Hs1 & Hl1). cbn [bind].
    destruct (insert_node_ok s1 r1 _ i d.2 tick (entries_from d.1) Hs1 (lookup_delete_eq M i)) as (r2 & s2 & -> & Hs2 & Hl2);
      [rewrite Hl1; by eapply at_range|]. rewrite insert_delete_eq in Hs2. exists r2, s2. split; [done|]. split; [done|congruence].
  - destruct (state_remove_ok s r M i _ (ex_intro _ tr Hs) Hi) as (r1 & s1 & -> & Hs1 & Hl1). cbn [bind].
    destruct (insert_node_ok s1 r1 _ i d.2 tick (entries_from d.1) Hs1 (lookup_delete_eq M i)) as (r2 & s2 & -> & Hs2 & Hl2);
      [rewrite Hl1; by eapply at_range|]. rewrite insert_delete_eq in Hs2. exists r2, s2. split; [done|]. split; [done|congruence].
Qed.

(** ** Choices *)

Lemma eligible_below_ok c fuel s t p resident : rep c s t p -> ht t <= Z.of_nat fuel ->
  eligible_below (E := E) fuel s (root t) resident = Ok (elig t resident).
Proof.
  revert fuel p. induction t as [|l IHl x r IHr]; intros fuel p; [by destruct fuel|]. intros (Hx & Hl & Hr) Hf.
  pose proof (ht_nonneg l). pose proof (ht_nonneg r). cbn [ht] in Hf. destruct fuel as [|fuel]; [lia|].
  cbn [eligible_below root elig]. rewrite (get_ok _ _ _ Hx). cbn [bind cell n_resident n_left n_right n_ticket].
  destruct (resident <? e_res x); [eapply IHl; [done|lia]|].
  rewrite (oldest_at_ok _ _ _ _ Hl). cbn [bind]. rewrite (IHr fuel _ Hr) by lia. done.
Qed.

(** All waiters of some classes, and the best of their choices. *)
Lemma best_lists l k : best (oldest_in l) (oldest_in k) = oldest_in (l ++ k).
Proof. by rewrite oldest_app. Qed.
Definition to_waiter (c : Entries) (x : Elem) : Waiter := waiter c (e_res x) (e_tick x).
(** The choice among a list of waiters that holds all that satisfy [P]. *)
Lemma earliest_list (P : Waiter -> Prop) (M : Waits) (l : list (Entries * Elem)) :
  (forall i w, M !! i = Some w /\ P w <-> exists c x, (c, x) ∈ l /\ e_lane x = i /\ to_waiter c x = w) ->
  earliest P M (available (oldest_in l.*2)).
Proof.
  intros HM. pose proof (oldest_in_spec l.*2) as Ho. destruct (oldest_in l.*2) as [o|]; simpl.
  - destruct Ho as (x & ([c x'] & -> & Hx)%list_elem_of_fmap & -> & Hmin). simpl in *.
    destruct (proj2 (HM (e_lane x') (to_waiter c x'))) as [Hw HP]; [eauto|]. exists (to_waiter c x'). split; [done|]. split; [done|].
    intros j v Hv HPv. destruct (proj1 (HM j v) (conj Hv HPv)) as (c' & y & Hy & _ & <-). apply Hmin. apply list_elem_of_fmap. by exists (c', y).
  - intros j v Hv HPv. destruct (proj1 (HM j v) (conj Hv HPv)) as (c' & y & Hy & _). apply fmap_nil_inv in Ho. subst l. by apply elem_of_nil in Hy.
Qed.
Definition tagged (c : Entries) (l : list Elem) : list (Entries * Elem) := pair c <$> l.
Lemma tagged_in c l c' x : (c', x) ∈ tagged c l <-> c' = c /\ x ∈ l.
Proof. unfold tagged. rewrite list_elem_of_fmap. naive_solver. Qed.
Lemma tagged_snd c l : (tagged c l).*2 = l.
Proof. unfold tagged. rewrite <- list_fmap_compose. by apply list_fmap_id. Qed.

Theorem state_oldest_ok s r M : holds s r M ->
  exists choice, state_oldest (E := E) r s = Ok choice /\ earliest (fun _ => True) M choice.
Proof.
  intros [tr Hs]. unfold state_oldest, oldest_view. pose proof (h_root _ _ _ _ Hs) as Hroot. pose proof (h_rep _ _ _ _ Hs) as Hrep.
  change (r_zero r) with (root_of r Zero). change (r_one r) with (root_of r One). change (r_two r) with (root_of r Two).
  rewrite !Hroot, (oldest_at_ok _ _ _ _ (Hrep Zero)), (oldest_at_ok _ _ _ _ (Hrep One)), (oldest_at_ok _ _ _ _ (Hrep Two)). cbn [bind].
  eexists. split; [done|]. rewrite !old_els, !best_lists.
  rewrite <- (tagged_snd Zero (els (tr Zero))), <- (tagged_snd One (els (tr One))), <- (tagged_snd Two (els (tr Two))), <- !fmap_app.
  apply earliest_list. intros i [c res tick]. repeat setoid_rewrite elem_of_app. repeat setoid_rewrite tagged_in.
  pose proof (h_els _ _ _ _ Hs) as Hels. split.
  - intros [Hw _]. exists c, (elem i res tick). split; [|done]. apply (Hels c (elem i res tick)) in Hw. destruct c; auto.
  - intros (c' & x & Hx & <- & Hw). split; [|done]. rewrite <- Hw. apply (Hels c' x). destruct Hx as [[[-> ?]|[-> ?]]|[-> ?]]; done.
Qed.

Theorem state_eligible_ok s r M shared : holds s r M -> 0 <= shared.1 ->
  exists choice, state_eligible (E := E) r s shared = Ok choice /\ earliest (covers shared) M choice.
Proof.
  intros [tr Hs] Hpos. unfold state_eligible. pose proof (h_root _ _ _ _ Hs) as Hroot.
  assert (Heq : forall c, eligible_below (E := E) (fuel_of s) s (root_of r c) shared.2
    = Ok (oldest_in (filter (fun x => e_res x <= shared.2) (els (tr c))))).
  { intros c. rewrite Hroot, (eligible_below_ok c _ _ _ None); [by rewrite elig_els by apply Hs|apply Hs|].
    destruct (holds_roomy s r M tr c Hs) as (_ & _ & _ & Hl). pose proof (ht_size (tr c)). unfold lanes, fuel_of in *. rewrite length_fmap in Hl. lia. }
  change (r_zero r) with (root_of r Zero). change (r_one r) with (root_of r One). change (r_two r) with (root_of r Two).
  rewrite !Heq. cbn [bind]. set (F := fun c => filter (fun x => e_res x <= shared.2) (els (tr c))).
  set (cs := if shared.1 =? 0 then [Zero] else if shared.1 =? 1 then [Zero; One] else [Zero; One; Two]).
  exists (available (oldest_in (cs ≫= fun c => tagged c (F c)).*2)). split.
  - assert (Hb : forall cs : list Entries, (cs ≫= fun c => tagged c (F c)).*2 = cs ≫= F).
    { induction cs0 as [|c cs0 IH]; [done|]. rewrite !bind_cons, fmap_app, tagged_snd. by rewrite IH. }
    rewrite Hb. unfold cs. destruct (shared.1 =? 0); [|destruct (shared.1 =? 1)]; cbn [bind]; simpl; rewrite ?app_nil_r;
      by rewrite ?best_lists, <- ?(assoc_L app).
  - apply earliest_list. intros i [c res tick]. pose proof (h_els _ _ _ _ Hs) as Hels.
    assert (Hcs : forall c, c ∈ cs <-> entry_count c <= shared.1).
    { intros c'. unfold cs. destruct (Z.eqb_spec shared.1 0); [|destruct (Z.eqb_spec shared.1 1)]; destruct c'; simpl;
        rewrite ?elem_of_cons, elem_of_nil; split; intros; try lia; naive_solver lia. }
    setoid_rewrite list_elem_of_bind. setoid_rewrite tagged_in. unfold F. setoid_rewrite list_elem_of_filter. unfold covers. split.
    + intros [Hw [He Hr]]. simpl in *. exists c, (elem i res tick). split; [|done]. exists c. split; [|by apply Hcs].
      split; [done|]. split; [done|]. by apply (Hels c (elem i res tick)).
    + intros (c' & x & (c'' & (-> & Hres & Hx) & Hc) & <- & Hw). rewrite <- Hw. split; [by apply (Hels c'' x)|].
      split; [by apply Hcs|done].
Qed.
End holds.
End Waiters.
