(* ===== verification/CreditQueue.v ===== *)
(** * The queue for egress credit.

    Model of [src/layer1/net/src/link/egress/load/credit]: amounts and demands, the
    records of lanes that wait for credit or hold a grant to be taken, the choice of
    the next lane, and the pool that hands out credit. *)

From S2P Require Import Prelude CreditTree.

(** ** Amounts *)

Module Amount.

(** [Entries], src/layer1/net/src/link/egress/reserve/bounds.rs:15-19. *)
Inductive Count := CZero | COne | CTwo.
#[export] Instance count_dec : EqDecision Count.
Proof. solve_decision. Defined.
(** [Entries::into_credit], src/layer1/net/src/link/egress/reserve/bounds.rs:22-24. *)
Definition into_credit (c : Count) : Z := match c with CZero => 0 | COne => 1 | CTwo => 2 end.

(** [Deficit], src/layer1/net/src/link/egress/mod.rs:145-148. *)
Record Deficit := deficit { d_available : Z; d_requested : Z }.
(** [Shortage], src/layer1/net/src/link/egress/mod.rs:162-165. *)
Inductive Shortage := SEntries (d : Deficit) | SResident (d : Deficit).
(** [Resident::checked_sub], src/layer1/net/src/link/egress/resident.rs:41-49. Also that of [Entries]. *)
Definition checked_sub32 (self removed : Z) : run Deficit Z :=
  if removed <=? self then Ok (self - removed) else Err (deficit self removed).

(** [Amount], src/layer1/net/src/link/egress/load/credit/amount.rs:9-9. A [u64], entries above bytes. *)
Definition Amount : Type := Z.
(** [SHIFT], src/layer1/net/src/link/egress/load/credit/amount.rs:12-12. *)
Definition SHIFT : Z := 32.
(** [ZERO], src/layer1/net/src/link/egress/load/credit/amount.rs:14-14. *)
Definition ZERO : Amount := 0.
(** [Amount::new], src/layer1/net/src/link/egress/load/credit/amount.rs:16-21. *)
Definition amount (entries resident : Z) : Amount := Z.lor (Z.shiftl entries SHIFT) resident.
(** [Amount::from_raw], src/layer1/net/src/link/egress/load/credit/amount.rs:23-25. *)
Definition from_raw (raw : Z * Z) : Amount := amount raw.1 raw.2.
(** [Amount::entries], src/layer1/net/src/link/egress/load/credit/amount.rs:27-29. *)
Definition entries (self : Amount) : Z := wrap 32 (Z.shiftr self SHIFT).
(** [Amount::resident], src/layer1/net/src/link/egress/load/credit/amount.rs:31-33. *)
Definition resident (self : Amount) : Z := wrap 32 self.
(** [Amount::get], src/layer1/net/src/link/egress/load/credit/amount.rs:63-65. *)
Definition get (self : Amount) : Z * Z := (wrap 32 (Z.shiftr self SHIFT), wrap 32 self).
(** [Amount::checked_sub], src/layer1/net/src/link/egress/load/credit/amount.rs:35-49. *)
Definition checked_sub (self removed : Amount) : run Shortage Amount :=
  let! e := map_err SEntries (checked_sub32 (entries self) (entries removed)) in
  let! r := map_err SResident (checked_sub32 (resident self) (resident removed)) in
  Ok (amount e r).
(** [Amount::sub], src/layer1/net/src/link/egress/load/credit/amount.rs:51-56. *)
Definition sub (self removed : Amount) : Amount :=
  amount (wrap 32 (entries self - entries removed)) (wrap 32 (resident self - resident removed)).

(** [Demand::fits], src/layer1/net/src/link/egress/load/credit/demand.rs:20-22. A demand is an amount. *)
Definition fits (demand free : Amount) : bool := (entries demand <=? entries free) && (resident demand <=? resident free).

(** [Queued], src/layer1/net/src/link/egress/load/credit/mod.rs:92-95. *)
Record Queued := queued { q_entries : Count; q_resident : Z }.
#[export] Instance queued_dec : EqDecision Queued.
Proof. solve_decision. Defined.
(** [Queued::one], src/layer1/net/src/link/egress/load/credit/mod.rs:98-103. *)
Definition queued_one (resident : Z) : Queued := queued COne resident.
(** [Queued::amount], src/layer1/net/src/link/egress/load/credit/mod.rs:112-114. *)
Definition charge (q : Queued) : Amount := amount (into_credit (q_entries q)) (q_resident q).
(** [Pair::parts], src/layer1/net/src/link/egress/load/credit/mod.rs:123-126. *)
Definition pair_parts (first : Z) (source : Amount) : Amount * Amount :=
  let first := amount 1 first in (sub source first, first).
End Amount.

(** ** The credit of the o3 crate, as an interface *)

(** [o3::mem::raw::Pool] with the lanes of its accounts: what is shared and free;
    what an amount demands of it beyond the lane's protected credit; acquisition
    ([acquire_raw], which relies on the demand being covered), the checked
    [Charge::try_new], and release. *)
Class Credits (C F : Type) := {
  cr_shared : C -> Z * Z;
  cr_demand : C -> Z -> Z * Z -> Z * Z;
  cr_acquire : C -> Z -> Z * Z -> C;
  cr_try : C -> Z -> Z * Z -> C + F;
  cr_release : C -> Z -> Z * Z -> C;
}.
(** The promise: components are [u32]s, a demand subtracts protected credit and
    saturates, it depends on what the same lane holds only, and what demands nothing
    takes nothing from the shared credit. *)
Class CreditLaws (C F : Type) `{Credits C F} := {
  cl_shared c : 0 <= (cr_shared c).1 < 2 ^ 32 /\ 0 <= (cr_shared c).2 < 2 ^ 32;
  cl_demand c i a : 0 <= a.1 -> 0 <= a.2 -> 0 <= (cr_demand c i a).1 <= a.1 /\ 0 <= (cr_demand c i a).2 <= a.2;
  cl_acquire c i a j b : j <> i -> cr_demand (cr_acquire c i a) j b = cr_demand c j b;
  cl_free c i a : cr_demand c i a = (0, 0) -> cr_shared (cr_acquire c i a) = cr_shared c;
  cl_try c i a c' j b : j <> i -> cr_try c i a = inl c' -> cr_demand c' j b = cr_demand c j b;
  cl_release c i a j b : j <> i -> cr_demand (cr_release c i a) j b = cr_demand c j b;
}.

Module Queue.
Import Tree Amount.

Section queue.
(** Keys of tasks, the driver's ready set with [try_activate], and the credit. *)
Context {K D C F : Type} `{EqDecision K} `{CR : Credits C F} (try_activate : D -> K -> option D).

(** [Waiting], src/layer1/net/src/link/egress/load/credit/wait/store/mod.rs:21-25. *)
Record Waiting := waiting_of { v_key : K; v_amount : Queued; v_bypasses : Z }.
(** [Granted], src/layer1/net/src/link/egress/load/credit/wait/store/mod.rs:27-30. The grant is its amount, held by the record's lane. *)
Record Granted := granted_of { g_key : K; g_amount : Amount }.
(** [Record], src/layer1/net/src/link/egress/load/credit/wait/store/mod.rs:45-48. The kind with its payload. *)
Inductive Record_ := RIdle | RWaiting (w : Waiting) | RGranted (g : Granted).

(** [Queue], src/layer1/net/src/link/egress/load/credit/wait/queue.rs:68-72. The store is its records and its nodes; beside it the pool's credit, [Ready::pending] and the driver's ready set. *)
Record State := state {
  records : list Record_; nodes : Nodes; roots_ : Roots; next_ticket : Ticket;
  credit : C; pending : bool; ready : D }.
Definition with_record (s : State) (i : Index) (r : Record_) : State :=
  state (<[Z.to_nat (offset i) := r]> (records s)) (nodes s) (roots_ s) (next_ticket s) (credit s) (pending s) (ready s).
Definition with_tree (s : State) (r : Roots) (n : Nodes) : State :=
  state (records s) n r (next_ticket s) (credit s) (pending s) (ready s).
Definition with_ticket (s : State) (t : Ticket) : State :=
  state (records s) (nodes s) (roots_ s) t (credit s) (pending s) (ready s).
Definition with_credit (s : State) (c : C) : State :=
  state (records s) (nodes s) (roots_ s) (next_ticket s) c (pending s) (ready s).
Definition with_pending (s : State) (p : bool) : State :=
  state (records s) (nodes s) (roots_ s) (next_ticket s) (credit s) p (ready s).
Definition with_ready (s : State) (d : D) : State :=
  state (records s) (nodes s) (roots_ s) (next_ticket s) (credit s) (pending s) d.

(** [Queue::try_new], src/layer1/net/src/link/egress/load/credit/wait/queue.rs:75-97. Once [Core::try_new] has its memory; with the [Ready] around it. *)
Definition try_new (lanes : nat) (c : C) (d : D) : State :=
  state (replicate lanes RIdle) (replicate lanes idle) roots_new FIRST c false d.

Section outcome.
Context {E : Type}.

(** [Records::state], src/layer1/net/src/link/egress/load/credit/wait/store/mod.rs:262-275. Unchecked: a lane outside the table is undefined. *)
Definition record_at (s : State) (i : Index) : option Record_ :=
  if 1 <=? i then records s !! Z.to_nat (offset i) else None.
Definition record_of (s : State) (i : Index) : run E Record_ :=
  match record_at s i with Some r => Ok r | None => Stuck Undefined end.

(** [Demand::queued], src/layer1/net/src/link/egress/load/credit/demand.rs:33-35. *)
Definition demand_queued (s : State) (i : Index) (a : Queued) : Amount :=
  from_raw (cr_demand (credit s) i (get (charge a))).
(** [Account::demand], src/layer1/net/src/link/egress/load/credit/mod.rs:190-192. *)
Definition account_demand (s : State) (i : Index) (a : Amount) : Amount := from_raw (cr_demand (credit s) i (get a)).
(** [Lane::is_covered], src/layer1/net/src/link/egress/load/credit/mod.rs:175-177. *)
Definition is_covered (s : State) (demand : Amount) : bool := fits demand (from_raw (cr_shared (credit s))).
(** [Account::acquire], src/layer1/net/src/link/egress/load/credit/mod.rs:194-200. Undefined where the shared credit does not cover the demand. *)
Definition acquire (s : State) (i : Index) (a : Amount) : run E State :=
  if is_covered s (account_demand s i a) then Ok (with_credit s (cr_acquire (credit s) i (get a))) else Stuck Undefined.
(** The release of a grant of the lane [i]. *)
Definition release_grant (s : State) (i : Index) (a : Amount) : State :=
  with_credit s (cr_release (credit s) i (get a)).

(** [Queue::is_busy], src/layer1/net/src/link/egress/load/credit/wait/queue.rs:99-104. With [Core::is_busy]. *)
Definition is_busy (s : State) (i : Index) : run E bool :=
  let! r := record_of s i in Ok (match r with RIdle => false | _ => true end).
(** [Queue::has_waiting], src/layer1/net/src/link/egress/load/credit/wait/queue.rs:106-108. *)
Definition has_waiting (s : State) : bool := negb (is_empty (roots_ s)).

(** The demand of a lane as its tree takes it. *)
Definition tree_demand (d : Amount) : Z * Z := (entries d, Amount.resident d).

(** [Queue::refresh], src/layer1/net/src/link/egress/load/credit/wait/queue.rs:110-123. *)
Definition refresh (s : State) (i : Index) : run E State :=
  let! r := record_of s i in
  match r with
  | RWaiting w =>
      let! (t, n) := state_refresh (roots_ s) (nodes s) i (tree_demand (demand_queued s i (v_amount w))) in
      Ok (with_tree s t n)
  | _ => Ok s
  end.

(** [Core::try_bypass], src/layer1/net/src/link/egress/load/credit/wait/store/mod.rs:244-258. A candidate's record is taken to be waiting. *)
Definition try_bypass (s : State) (i : Index) : run E (bool * State) :=
  let limit := Z.of_nat (length (records s)) - 1 in
  match record_at s i with
  | Some (RWaiting w) =>
      if limit <=? v_bypasses w then Ok (false, s)
      else Ok (true, with_record s i (RWaiting (waiting_of (v_key w) (v_amount w) (v_bypasses w + 1))))
  | _ => Stuck Undefined
  end.

(** [Queue::select], src/layer1/net/src/link/egress/load/credit/wait/queue.rs:125-140. The lane selected with its key and amount. *)
Definition select (s : State) (shared : Amount) : run E (option (Index * K * Queued) * State) :=
  let! oldest := state_oldest (roots_ s) (nodes s) in
  match oldest with
  | None => Ok (None, s)
  | Some oldest =>
      let! selected := state_eligible (roots_ s) (nodes s) (tree_demand shared) in
      match selected with
      | None => Ok (None, s)
      | Some selected =>
          let! (pass, s) := if bool_decide (selected = oldest) then Ok (true, s) else try_bypass s oldest in
          if pass then
            match record_at s selected with
            | Some (RWaiting w) =>
                let! (t, n) := state_remove (roots_ s) (nodes s) selected in
                Ok (Some (selected, v_key w, v_amount w), with_tree s t n)
            | _ => Stuck Undefined
            end
          else Ok (None, s)
      end
  end.

(** [Selected::activate], src/layer1/net/src/link/egress/load/credit/wait/store/mod.rs:174-191. *)
Definition activate (s : State) (i : Index) (key : K) (a : Queued) : run E State :=
  match try_activate (ready s) key with
  | Some d =>
      let! s := acquire (with_ready s d) i (charge a) in
      Ok (with_record s i (RGranted (granted_of key (charge a))))
  | None => Ok (with_record s i RIdle)
  end.

(** [Resume], src/layer1/net/src/link/egress/load/credit/wait/queue.rs:17-21. *)
Inductive Resume := Waiting_ | Queued_ | Granted_ (grant : Amount).

(** [Vacant::poll], src/layer1/net/src/link/egress/load/credit/wait/queue.rs:37-65. On the idle record of a lane; what is changed stays changed on an error. *)
Definition vacant_poll (s : State) (i : Index) (key : K) (a : Queued) : run E ((Resume + Tickets) * State) :=
  let charge := charge a in
  let demand := demand_queued s i a in
  if bool_decide (demand = ZERO) || (is_empty (roots_ s) && is_covered s demand) then
    let! s := acquire s i charge in Ok (inl (Granted_ charge), s)
  else
    let s := if is_empty (roots_ s) then with_ticket s FIRST else s in
    match issue (next_ticket s) with
    | Ok (ticket, next) =>
        let s := with_ticket s next in
        let s := with_record s i (RWaiting (waiting_of key a 0)) in
        let! (t, n) := state_insert (roots_ s) (nodes s) i (tree_demand demand) ticket in
        Ok (inl Queued_, with_tree s t n)
    | Err e => Ok (inr e, s)
    | Stuck w => Stuck w
    end.

(** [Queue::resume], src/layer1/net/src/link/egress/load/credit/wait/queue.rs:142-183. *)
Definition resume (s : State) (i : Index) (key : K) (a : Queued) : run E ((Resume + Tickets) * State) :=
  let! r := record_of s i in
  match r with
  | RIdle => vacant_poll s i key a
  | RWaiting w =>
      if bool_decide (v_key w = key) && bool_decide (v_amount w = a) then Ok (inl Waiting_, s)
      else
        let demand := demand_queued s i a in
        let s := with_record s i (RWaiting (waiting_of key a (v_bypasses w))) in
        let! (t, n) := state_refresh (roots_ s) (nodes s) i (tree_demand demand) in
        Ok (inl Queued_, with_tree s t n)
  | RGranted g =>
      if bool_decide (g_key g = key) && bool_decide (g_amount g = charge a) then
        Ok (inl (Granted_ (g_amount g)), with_record s i RIdle)
      else
        let s := with_record s i RIdle in
        let s := release_grant s i (g_amount g) in
        vacant_poll s i key a
  end.

(** [Cancelled], src/layer1/net/src/link/egress/load/credit/wait/queue.rs:23-26. *)
Inductive Cancelled := CIdle | CBusy.
(** [Queue::cancel], src/layer1/net/src/link/egress/load/credit/wait/queue.rs:185-203. *)
Definition queue_cancel (s : State) (i : Index) : run E (Cancelled * State) :=
  let! r := record_of s i in
  match r with
  | RIdle => Ok (CIdle, s)
  | RWaiting _ =>
      let s := with_record s i RIdle in
      let! (t, n) := state_remove (roots_ s) (nodes s) i in
      Ok (CBusy, with_tree s t n)
  | RGranted g => Ok (CBusy, release_grant (with_record s i RIdle) i (g_amount g))
  end.

(** ** The mode of the pool *)

(** [Admission], src/layer1/net/src/link/egress/mod.rs:250-274. Its variants that credit gives rise to, with the lane, the credit requested, and the demand or the cause. *)
Inductive Admission :=
  | Busy (lane : Index) (requested : Z * Z)
  | AQueued (lane : Index) (requested demand : Z * Z)
  | ACredit (lane : Index) (requested : Z * Z) (cause : F).

(** [Ready::cancel], src/layer1/net/src/link/egress/load/credit/ready.rs:31-40. *)
Definition cancel (s : State) (i : Index) : run E State :=
  let! (c, s) := queue_cancel s i in
  Ok (match c with CBusy => with_pending s (has_waiting s) | CIdle => s end).

(** [Lane::try_charge], src/layer1/net/src/link/egress/load/credit/mod.rs:154-169. *)
Definition try_charge (s : State) (i : Index) (a : Amount) : (Amount + Admission) * State :=
  match cr_try (credit s) i (get a) with
  | inl c => (inl a, with_credit s c)
  | inr cause => (inr (ACredit i (entries a, Amount.resident a) cause), s)
  end.
(** [Ready::try_acquire], src/layer1/net/src/link/egress/load/credit/ready.rs:44-71. *)
Definition try_acquire (s : State) (i : Index) (a : Amount) : run E ((Amount + Admission) * State) :=
  let! busy := is_busy s i in
  if busy then Ok (inr (Busy i (entries a, Amount.resident a)), s)
  else if has_waiting s then
    let demand := account_demand s i a in
    if negb (bool_decide (demand = ZERO)) then
      Ok (inr (AQueued i (entries a, Amount.resident a) (entries demand, Amount.resident demand)), s)
    else let! s := acquire s i a in Ok (inl a, s)
  else Ok (try_charge s i a).
(** [Ready::release], src/layer1/net/src/link/egress/load/credit/ready.rs:73-83. *)
Definition release (s : State) (i : Index) (a : Amount) : run E State :=
  let s := release_grant s i a in
  let! s := refresh s i in
  Ok (with_pending s (has_waiting s)).
(** [Ready::poll], src/layer1/net/src/link/egress/load/credit/ready.rs:88-105. [None] is pending. *)
Definition poll (s : State) (i : Index) (key : K) (a : Queued) : run E (option (Amount + Tickets) * State) :=
  let! (r, s) := resume s i key a in
  let s := match r with inl Waiting_ => s | _ => with_pending s (has_waiting s) end in
  Ok (match r with
      | inl (Waiting_ | Queued_) => None
      | inl (Granted_ g) => Some (inl g)
      | inr e => Some (inr e)
      end, s).

(** [Pool::maintain], src/layer1/net/src/link/egress/load/credit/mod.rs:278-298. With the permits there are; the lanes selected. *)
Fixpoint maintain (permits : nat) (s : State) : run E (list Index * State) :=
  if pending s then
    match permits with
    | O => Ok ([], s)
    | S permits =>
        let s := with_pending s false in
        let shared := from_raw (cr_shared (credit s)) in
        let! (selected, s) := select s shared in
        match selected with
        | None => maintain permits s
        | Some (i, key, a) =>
            let! s := activate s i key a in
            let s := with_pending s (has_waiting s) in
            let! (more, s) := maintain permits s in
            Ok (i :: more, s)
        end
    end
  else Ok ([], s).
End outcome.
End queue.
End Queue.
