(* ===== verification/CreditFacts.v ===== *)
(** * The queue for credit never gets stuck.

    The invariant of a queue: its records and its trees agree, every waiting lane
    with its present demand and a ticket of its own. Each operation keeps it, and
    credit is acquired only where the shared credit covers the demand. *)

From stdpp Require Import gmap.
From S2P Require Import Prelude Random ReadySetFacts CreditTree CreditAvl CreditTreeFacts CreditState CreditQueue.

Module AmountFacts.
Import Amount.

Definition u32 (z : Z) : Prop := 0 <= z < 2 ^ 32.
Lemma amount_add e r : u32 e -> u32 r -> amount e r = r + e * 2 ^ 32.
Proof. intros He Hr. unfold amount, SHIFT. rewrite Z.lor_comm. apply lor_shiftl; [done|exact Hr]. Qed.
Lemma entries_amount e r : u32 e -> u32 r -> entries (amount e r) = e.
Proof.
  intros He Hr. unfold entries, SHIFT. rewrite amount_add by done. rewrite Z.shiftr_div_pow2 by done.
  unfold u32, wrap in *. zdiv.
Qed.
Lemma resident_amount e r : u32 e -> u32 r -> resident (amount e r) = r.
Proof. intros He Hr. unfold resident. rewrite amount_add by done. unfold u32, wrap in *. zdiv. Qed.
Lemma get_u32 a : u32 (get a).1 /\ u32 (get a).2.
Proof. unfold get, u32. simpl. split; by apply wrap_range. Qed.
Lemma get_amount e r : u32 e -> u32 r -> get (amount e r) = (e, r).
Proof. intros He Hr. unfold get. f_equal; [by apply entries_amount|by apply resident_amount]. Qed.
Lemma amount_zero e r : u32 e -> u32 r -> amount e r = ZERO <-> e = 0 /\ r = 0.
Proof. intros He Hr. rewrite amount_add by done. unfold ZERO, u32 in *. lia. Qed.
Lemma count_u32 c : 0 <= into_credit c <= 2.
Proof. destruct c; simpl; lia. Qed.

(** Packing and unpacking amounts. *)
Theorem amount_round_trip e r : u32 e -> u32 r -> (entries (amount e r), resident (amount e r)) = (e, r)
  /\ from_raw (get (amount e r)) = amount e r.
Proof. intros He Hr. rewrite entries_amount, resident_amount, get_amount by done. done. Qed.
End AmountFacts.

Module QueueFacts.
Import Tree Waiters Amount AmountFacts Queue.

Section facts.
Context {K D C F : Type} `{EqDecision K} `{CR : CreditLaws C F} (try_activate : D -> K -> option D).
Abbreviation State := (@State K D C).
Abbreviation record_at := (@record_at K D C).

(** ** The state *)

Lemma record_with (s : State) i r r' j : record_at s i = Some r' ->
  record_at (with_record s i r) j = if decide (j = i) then Some r else record_at s j.
Proof.
  unfold Queue.record_at, with_record, offset. destruct (Z.leb_spec 1 i); [|done]. intros Hi. cbn [records].
  destruct (decide (j = i)) as [->|Hne].
  - destruct (Z.leb_spec 1 i); [|lia]. apply list_lookup_insert_eq. by eapply lookup_lt_Some.
  - destruct (Z.leb_spec 1 j); [|done]. apply list_lookup_insert_ne. lia.
Qed.
Lemma record_with_eq (s : State) i r r' : record_at s i = Some r' -> record_at (with_record s i r) i = Some r.
Proof. intros Hi. by rewrite (record_with _ _ _ _ _ Hi), decide_True. Qed.
Lemma record_with_ne (s : State) i r r' j : record_at s i = Some r' -> j <> i -> record_at (with_record s i r) j = record_at s j.
Proof. intros Hi Hj. by rewrite (record_with _ _ _ _ _ Hi), decide_False. Qed.

(** The lanes of a state. *)
Definition lanes_of (s : State) : Z := Z.of_nat (length (records s)).
Lemma record_range (s : State) i : is_Some (record_at s i) <-> 1 <= i <= lanes_of s.
Proof.
  unfold Queue.record_at, lanes_of, offset. destruct (Z.leb_spec 1 i).
  - rewrite lookup_lt_is_Some. lia.
  - split; [by intros []|lia].
Qed.

(** What a queued amount may ask for. *)
Definition queued_ok (a : Queued) : Prop := u32 (q_resident a).
Lemma charge_get a : queued_ok a -> get (charge a) = (into_credit (q_entries a), q_resident a).
Proof.
  intros Ha. unfold charge. rewrite get_amount; [done| |exact Ha]. pose proof (count_u32 (q_entries a)). unfold u32. lia.
Qed.

(** The demand of a lane, as a pair. *)
Definition demand_of (s : State) (i : Index) (a : Queued) : Z * Z := cr_demand (credit s) i (get (charge a)).
Lemma demand_range (s : State) i a : queued_ok a -> 0 <= (demand_of s i a).1 <= 2 /\ u32 (demand_of s i a).2.
Proof.
  intros Ha. unfold demand_of. rewrite charge_get by done. pose proof (count_u32 (q_entries a)). unfold queued_ok, u32 in *.
  destruct (cl_demand (credit s) i (into_credit (q_entries a), q_resident a)); simpl in *; lia.
Qed.
Lemma tree_demand_of (s : State) i a : queued_ok a -> tree_demand (demand_queued s i a) = demand_of s i a.
Proof.
  intros Ha. destruct (demand_range s i a Ha) as [He Hr]. unfold tree_demand, demand_queued, from_raw. fold (demand_of s i a).
  rewrite entries_amount, resident_amount by (done || unfold u32; lia). by destruct (demand_of s i a).
Qed.
Lemma shared_pair c : tree_demand (from_raw (cr_shared c)) = cr_shared c.
Proof.
  destruct (cl_shared c) as [He Hr]. unfold tree_demand, from_raw. rewrite entries_amount, resident_amount by done. by destruct (cr_shared c).
Qed.

(** ** The invariant *)

(** The waiter that a record stands for. *)
Definition stands (s : State) (i : Index) (v : @Waiting K) (w : Waiter) : Prop :=
  w_entries w = entries_from (demand_of s i (v_amount v)).1 /\ w_res w = (demand_of s i (v_amount v)).2.
Record Inv (s : State) (M : Waits) : Prop := {
  i_table : length (records s) = length (nodes s);
  i_holds : holds (nodes s) (roots_ s) M;
  i_lanes : 1 <= lanes_of s < 2 ^ 32;
  i_wait i v : record_at s i = Some (RWaiting v) ->
    (exists w, M !! i = Some w /\ stands s i v w) /\ queued_ok (v_amount v) /\ 0 <= v_bypasses v <= lanes_of s - 1;
  i_record i w : M !! i = Some w -> exists v, record_at s i = Some (RWaiting v);
  i_tick i w : M !! i = Some w -> 0 <= w_tick w < next_ticket s;
  i_order i j w v : M !! i = Some w -> M !! j = Some v -> w_tick w = w_tick v -> i = j;
  i_next : 0 <= next_ticket s < 2 ^ 32;
}.

(** The demands that an invariant speaks of are those of waiting lanes. *)
Lemma inv_credit s M c : Inv s M -> (forall j v a, record_at s j = Some (RWaiting v) -> cr_demand c j a = cr_demand (credit s) j a) ->
  Inv (with_credit s c) M.
Proof.
  intros [] Hc. split; try done. intros i v Hi. destruct (i_wait0 i v Hi) as ((w & Hw & Hst) & Hrest). split; [|done].
  exists w. split; [done|]. unfold stands, demand_of in *. cbn [with_credit credit]. by rewrite (Hc _ _ _ Hi).
Qed.
Lemma inv_pending s M p : Inv s M -> Inv (with_pending s p) M.
Proof. intros []. by split. Qed.
Lemma credit_inv_ready s M d : Inv s M -> Inv (with_ready s d) M.
Proof. intros []. by split. Qed.
Definition not_waiting (r : @Record_ K) : Prop := match r with RWaiting _ => False | _ => True end.
Lemma inv_record s M i r r' : Inv s M -> record_at s i = Some r' -> not_waiting r' -> not_waiting r -> Inv (with_record s i r) M.
Proof.
  intros [] Hi Hr' Hr. assert (Hl : lanes_of (with_record s i r) = lanes_of s) by (unfold lanes_of, with_record; cbn [records]; by rewrite length_insert).
  split; try done; try (rewrite Hl; done).
  - cbn [with_record records nodes]. by rewrite length_insert.
  - intros j v. rewrite Hl. rewrite (record_with _ _ _ _ _ Hi). destruct (decide (j = i)) as [->|]; [intros [= ->]; done|apply i_wait0].
  - intros j w Hj. rewrite (record_with _ _ _ _ _ Hi). destruct (i_record0 j w Hj) as [v Hv]. destruct (decide (j = i)) as [->|]; [|eauto].
    rewrite Hi in Hv. by injection Hv as ->.
Qed.

(** The map knows every waiting lane, and the queue has one when the map does. *)
Lemma holds_empty n r M : holds n r M -> is_empty r = true <-> M = ∅.
Proof.
  intros [tr Hs]. pose proof (h_root _ _ _ _ Hs) as Hroot.
  assert (Hr : forall c, root_of r c = None <-> tr c = Avl.Leaf) by (intros c; rewrite Hroot; by destruct (tr c)).
  assert (He : is_empty r = true <-> forall c, root_of r c = None).
  { split; [|intros Hc; unfold is_empty; by rewrite (Hc Zero : r_zero r = _), (Hc One : r_one r = _), (Hc Two : r_two r = _)].
    destruct r as [[] [] []]; try done. intros _ []; done. }
  rewrite He. setoid_rewrite Hr. split.
  - intros Hc. apply map_empty. intros i. destruct (M !! i) as [[c res tick]|] eqn:Hi; [|done].
    assert (Avl.elem i res tick ∈ Avl.els (tr c)) as Hin by (by apply (h_els _ _ _ _ Hs)). rewrite Hc in Hin. by apply elem_of_nil in Hin.
  - intros -> c. destruct (tr c) as [|l x k] eqn:Ht; [done|]. pose proof (h_els _ _ _ _ Hs c x) as Hx. rewrite Ht in Hx.
    simpl in Hx. assert (x ∈ Avl.els l ++ x :: Avl.els k) as Hin by set_solver. apply Hx in Hin. by rewrite lookup_empty in Hin.
Qed.

(** ** Acquiring *)

Lemma acquire_ok {E} (s : State) M i a : Inv s M -> (forall v, record_at s i <> Some (RWaiting v)) ->
  is_covered s (account_demand s i a) = true ->
  exists s', acquire (E := E) s i a = Ok s' /\ Inv s' M /\ s' = with_credit s (cr_acquire (credit s) i (get a)).
Proof.
  intros Hi Hw Hc. unfold acquire. rewrite Hc. eexists. split; [done|]. split; [|done].
  apply inv_credit; [done|]. intros j v b Hj. apply cl_acquire. intros ->. by apply (Hw v).
Qed.
Lemma zero_covered (s : State) i a : account_demand s i a = ZERO -> is_covered s (account_demand s i a) = true.
Proof.
  intros ->. unfold is_covered, fits. destruct (cl_shared (credit s)) as [He Hr]. unfold from_raw.
  rewrite entries_amount, resident_amount by done. apply andb_true_iff. split; apply Z.leb_le; [apply He|apply Hr].
Qed.
Lemma release_ok s M i a : Inv s M -> (forall v, record_at s i <> Some (RWaiting v)) -> Inv (release_grant s i a) M.
Proof. intros Hi Hw. apply inv_credit; [done|]. intros j v b Hj. apply cl_release. intros ->. by apply (Hw v). Qed.

(** ** What an operation does to the waiting lanes *)

(** Whoever waits afterwards waited before, with the same ticket and no fewer
    bypasses, or is new and younger than all that waited. *)
Definition follows (s : State) (M : Waits) (s' : State) (M' : Waits) : Prop :=
  lanes_of s' = lanes_of s /\ forall j w', M' !! j = Some w' ->
    (exists w v v', M !! j = Some w /\ w_tick w = w_tick w' /\ record_at s j = Some (RWaiting v)
       /\ record_at s' j = Some (RWaiting v') /\ v_bypasses v <= v_bypasses v')
    \/ (M !! j = None /\ forall k v, M !! k = Some v -> w_tick v < w_tick w').
Lemma follows_same s s' M M' : Inv s M -> lanes_of s' = lanes_of s -> M' ⊆ M ->
  (forall j, is_Some (M' !! j) -> record_at s' j = record_at s j) -> follows s M s' M'.
Proof.
  intros Hi Hl Hsub Hrec. split; [done|]. intros j w Hw. left. pose proof (lookup_weaken _ _ _ _ Hw Hsub) as Hj.
  destruct (i_record _ _ Hi j w Hj) as [v Hv]. exists w, v, v. rewrite Hrec by eauto. done.
Qed.

(** A lane joins the trees under the next ticket. *)
Lemma enqueue_ok {E} s M i r key a : Inv s M -> record_at s i = Some r -> not_waiting r -> queued_ok a -> next_ticket s + 1 < 2 ^ 32 ->
  let s1 := with_record (with_ticket s (next_ticket s + 1)) i (RWaiting (waiting_of key a 0)) in
  exists t n w, state_insert (E := E) (roots_ s1) (nodes s1) i (tree_demand (demand_queued s i a)) (next_ticket s) = Ok (t, n)
    /\ M !! i = None /\ Inv (with_tree s1 t n) (<[i := w]> M) /\ (forall k v, M !! k = Some v -> w_tick v < w_tick w)
    /\ follows s M (with_tree s1 t n) (<[i := w]> M).
Proof.
  intros Hi Hr Hnw Ha Hnext s1. assert (HM : M !! i = None).
  { destruct (M !! i) as [w|] eqn:Hw; [|done]. destruct (i_record _ _ Hi i w Hw) as [v Hv]. rewrite Hr in Hv. by injection Hv as ->. }
  pose proof (proj1 (record_range s i) (ex_intro _ r Hr)) as Hrange. unfold lanes_of in Hrange. rewrite (i_table _ _ Hi) in Hrange.
  rewrite tree_demand_of by done. set (d := demand_of s i a).
  destruct (insert_node_ok (E := E) (nodes s) (roots_ s) M i d.2 (next_ticket s) (entries_from d.1) (i_holds _ _ Hi) HM Hrange) as (t & n & He & Hh & Hl).
  exists t, n, (waiter (entries_from d.1) d.2 (next_ticket s)). split; [exact He|]. split; [done|].
  assert (Hlanes : lanes_of (with_tree s1 t n) = lanes_of s) by (unfold lanes_of, s1; cbn [with_tree with_record with_ticket records]; by rewrite length_insert).
  assert (Hrec : forall j, record_at (with_tree s1 t n) j = if decide (j = i) then Some (RWaiting (waiting_of key a 0)) else record_at s j).
  { intros j. apply (record_with (with_ticket s (next_ticket s + 1)) i _ r j Hr). }
  assert (Hinv : Inv (with_tree s1 t n) (<[i := waiter (entries_from d.1) d.2 (next_ticket s)]> M)).
  { pose proof (i_lanes _ _ Hi). pose proof (i_next _ _ Hi). destruct Hi. split; try (rewrite Hlanes; done); cbn [with_tree s1 with_record with_ticket records nodes roots_ next_ticket].
    - rewrite length_insert, Hl. done.
    - done.
    - intros j v. rewrite Hlanes, Hrec. destruct (decide (j = i)) as [->|Hj].
      + intros [= <-]. split; [|split; [done|simpl; lia]]. eexists. by rewrite lookup_insert_eq.
      + intros Hv. rewrite lookup_insert_ne by done. by apply i_wait0.
    - intros j w. rewrite Hrec. destruct (decide (j = i)) as [->|Hj]; [eauto|]. rewrite lookup_insert_ne by done. apply i_record0.
    - intros j w. destruct (decide (j = i)) as [->|Hj]; [rewrite lookup_insert_eq; intros [= <-]; simpl; lia|].
      rewrite lookup_insert_ne by done. intros Hw. specialize (i_tick0 j w Hw). lia.
    - intros j k w v. destruct (decide (j = i)) as [->|Hj], (decide (k = i)) as [->|Hk]; rewrite ?lookup_insert_eq, ?lookup_insert_ne by done; try done.
      + intros [= <-] Hv Heq. specialize (i_tick0 k v Hv). simpl in *. lia.
      + intros Hv [= <-] Heq. specialize (i_tick0 j w Hv). simpl in *. lia.
      + apply i_order0.
    - lia. }
  split; [done|]. assert (Hyoung : forall k v, M !! k = Some v -> w_tick v < next_ticket s) by (intros k v Hk; apply (i_tick _ _ Hi k v Hk)).
  split; [done|]. split; [done|]. intros j w Hj. destruct (decide (j = i)) as [->|Hne].
  - rewrite lookup_insert_eq in Hj. injection Hj as <-. by right.
  - rewrite lookup_insert_ne in Hj by done. left. destruct (i_record _ _ Hi j w Hj) as [v Hv]. exists w, v, v.
    rewrite Hrec, decide_False by done. done.
Qed.

(** A waiting lane is put where its present demand belongs. *)
Lemma requeue_ok {E} s M s2 i v v' w : Inv s M -> M !! i = Some w -> record_at s i = Some (RWaiting v) ->
  lanes_of s2 = lanes_of s -> (forall j, record_at s2 j = if decide (j = i) then Some (RWaiting v') else record_at s j) ->
  nodes s2 = nodes s -> roots_ s2 = roots_ s -> next_ticket s2 = next_ticket s ->
  (forall j b, j <> i -> cr_demand (credit s2) j b = cr_demand (credit s) j b) ->
  queued_ok (v_amount v') -> v_bypasses v' = v_bypasses v ->
  exists t n M', state_refresh (E := E) (roots_ s2) (nodes s2) i (tree_demand (demand_queued s2 i (v_amount v'))) = Ok (t, n)
    /\ Inv (with_tree s2 t n) M' /\ follows s M (with_tree s2 t n) M' /\ (forall j, is_Some (M' !! j) <-> is_Some (M !! j)).
Proof.
  intros Hi Hw Hv Hlanes Hrec Hnodes Hroots Hnext Hcr Ha Hby. rewrite tree_demand_of by done. set (d := demand_of s2 i (v_amount v')).
  rewrite Hnodes, Hroots. destruct (state_refresh_ok (E := E) (nodes s) (roots_ s) M i w d (i_holds _ _ Hi) Hw) as (t & n & He & Hh & Hl).
  set (w' := waiter (entries_from d.1) d.2 (w_tick w)) in *. exists t, n, (<[i := w']> M). split; [done|].
  assert (Htick : forall j u, <[i := w']> M !! j = Some u -> exists u0, M !! j = Some u0 /\ w_tick u0 = w_tick u).
  { intros j u. destruct (decide (j = i)) as [->|Hj]; [rewrite lookup_insert_eq; intros [= <-]; eauto|rewrite lookup_insert_ne by done; eauto]. }
  assert (Hrec' : forall j, record_at (with_tree s2 t n) j = if decide (j = i) then Some (RWaiting v') else record_at s j) by exact Hrec.
  assert (Hl' : lanes_of (with_tree s2 t n) = lanes_of s) by exact Hlanes.
  split; [|split].
  - pose proof (i_lanes _ _ Hi). destruct Hi. split; try (rewrite Hl'; done); cbn [with_tree records nodes roots_ next_ticket]; rewrite ?Hnext; try done.
    + unfold lanes_of in Hlanes. rewrite Hl, <- i_table0. lia.
    + intros j u. rewrite Hl', Hrec'. destruct (decide (j = i)) as [->|Hj].
      * intros [= <-]. rewrite Hby. split; [|split; [done|by apply (i_wait0 i v)]]. exists w'. by rewrite lookup_insert_eq.
      * intros Hu. rewrite lookup_insert_ne by done. destruct (i_wait0 j u Hu) as ((w0 & Hw0 & Hst) & ?). split; [|done].
        exists w0. split; [done|]. unfold stands, demand_of in *. cbn [with_tree credit]. by rewrite Hcr.
    + intros j u Hu. rewrite Hrec'. destruct (decide (j = i)) as [->|Hj]; [eauto|]. rewrite lookup_insert_ne in Hu by done. eauto.
    + intros j u (u0 & Hu0 & <-)%Htick. eauto.
    + intros j k u u' (u0 & Hu0 & <-)%Htick (u1 & Hu1 & <-)%Htick. eauto.
  - split; [done|]. intros j u Hu. destruct (Htick j u Hu) as (u0 & Hu0 & Heq). left. rewrite Hrec'.
    destruct (i_record _ _ Hi j u0 Hu0) as [v0 Hv0]. destruct (decide (j = i)) as [->|Hj].
    + rewrite Hv in Hv0. injection Hv0 as <-. exists u0, v, v'. rewrite Hby. done.
    + exists u0, v0, v0. done.
  - intros j. destruct (decide (j = i)) as [->|Hj]; [rewrite lookup_insert_eq, Hw; split; eauto|by rewrite lookup_insert_ne].
Qed.

(** A lane leaves the trees, and its record is taken from waiting. *)
Lemma leave_ok s M s3 i v w r t n : Inv s M -> M !! i = Some w -> record_at s i = Some (RWaiting v) ->
  holds n t (delete i M) -> length n = length (nodes s) ->
  lanes_of s3 = lanes_of s -> (forall j, record_at s3 j = if decide (j = i) then Some r else record_at s j) -> not_waiting r ->
  nodes s3 = n -> roots_ s3 = t -> next_ticket s3 = next_ticket s ->
  (forall j b, j <> i -> cr_demand (credit s3) j b = cr_demand (credit s) j b) ->
  Inv s3 (delete i M) /\ follows s M s3 (delete i M).
Proof.
  intros Hi Hw Hv Hh Hl Hlanes Hrec Hr Hnodes Hroots Hnext Hcr.
  assert (Hdel : forall j u, delete i M !! j = Some u -> j <> i /\ M !! j = Some u).
  { intros j u [? ?]%lookup_delete_Some. auto. }
  split.
  - pose proof (i_lanes _ _ Hi). destruct Hi. split; rewrite ?Hlanes, ?Hnodes, ?Hroots, ?Hnext; try done.
    + unfold lanes_of in Hlanes. rewrite Hl, <- i_table0. lia.
    + intros j u. rewrite Hrec. destruct (decide (j = i)) as [->|Hj]; [intros [= ->]; done|]. intros Hu.
      destruct (i_wait0 j u Hu) as ((w0 & Hw0 & Hst) & ?). split; [|done]. exists w0. rewrite lookup_delete_ne by done. split; [done|].
      unfold stands, demand_of in *. by rewrite Hcr.
    + intros j u [Hj Hu]%Hdel. rewrite Hrec, decide_False by done. eauto.
    + intros j u [Hj Hu]%Hdel. eauto.
    + intros j k u u' [Hj Hu]%Hdel [Hk Hu']%Hdel. eauto.
  - apply follows_same; [done|done|apply delete_subseteq|]. intros j [u [Hj Hu]%Hdel]. by rewrite Hrec, decide_False.
Qed.

(** ** The operations of a lane *)

Lemma inv_reset s : Inv s ∅ -> Inv (with_ticket s FIRST) ∅.
Proof. intros []. split; try done. Qed.

Lemma vacant_ok {E} s M i key a : Inv s M -> record_at s i = Some RIdle -> queued_ok a ->
  exists res s' M', vacant_poll (E := E) s i key a = Ok (res, s') /\ Inv s' M' /\ follows s M s' M'
    /\ (forall j, is_Some (M !! j) -> is_Some (M' !! j))
    /\ match res with
       | inl (Granted_ g) => g = charge a /\ M' = M
       | inl Queued_ => exists w, M' = <[i := w]> M /\ M !! i = None
       | inl Waiting_ => False
       | inr _ => M' = M /\ next_ticket s = 2 ^ 32 - 1
       end.
Proof.
  intros Hi Hr Ha. pose proof (holds_empty _ _ _ (i_holds _ _ Hi)) as Hempty. unfold vacant_poll.
  assert (Hnw : forall v, record_at s i <> Some (RWaiting v)) by (intros v; rewrite Hr; done).
  destruct (bool_decide (demand_queued s i a = ZERO) || (is_empty (roots_ s) && is_covered s (demand_queued s i a))) eqn:Hgrant.
  - assert (Hc : is_covered s (account_demand s i (charge a)) = true).
    { apply orb_true_iff in Hgrant as [Hz%bool_decide_eq_true|[_ Hc]%andb_true_iff]; [by apply zero_covered|done]. }
    destruct (acquire_ok (E := E) s M i (charge a) Hi Hnw Hc) as (s' & -> & Hi' & ->). cbn [bind].
    eexists _, _, M. split; [done|]. split; [done|]. split; [by apply follows_same|]. done.
  - set (s0 := if is_empty (roots_ s) then with_ticket s FIRST else s).
    assert (H0 : Inv s0 M /\ follows s M s0 M /\ record_at s0 i = Some RIdle /\ demand_queued s0 i a = demand_queued s i a
      /\ (next_ticket s0 = FIRST \/ next_ticket s0 = next_ticket s)).
    { unfold s0. destruct (is_empty (roots_ s)) eqn:He; [|split; [done|]; split; [by apply follows_same|auto]].
      rewrite (proj1 Hempty eq_refl) in *. split; [by apply inv_reset|]. split; [by apply follows_same|]. auto. }
    destruct H0 as (Hi0 & Hf0 & Hr0 & Hd0 & Hn0). unfold issue.
    destruct (Z.ltb_spec (next_ticket s0 + 1) (2 ^ 32)) as [Hlt|Hge].
    + destruct (enqueue_ok (E := E) s0 M i RIdle key a Hi0 Hr0 I Ha Hlt) as (t & n & w & He & HM & Hi' & Hyoung & Hf').
      rewrite <- Hd0. rewrite He. cbn [bind]. eexists _, _, _. split; [done|]. split; [done|]. split; [|split; [|eauto]].
      * destruct Hf' as [Hl Hf']. split; [rewrite Hl; apply Hf0|]. intros j w' Hj. destruct (Hf' j w' Hj) as [(u & v & v' & Hu & Ht & Hv & Hv' & Hby)|Hy]; [left|by right].
        exists u, v, v'. split; [done|]. split; [done|]. split; [|done]. unfold s0 in Hv. by destruct (is_empty (roots_ s)).
      * intros j Hj. destruct (decide (j = i)) as [->|?]; [by rewrite lookup_insert_eq|by rewrite lookup_insert_ne].
    + eexists _, s0, M. split; [done|]. split; [done|]. split; [done|]. split; [done|]. split; [done|].
      pose proof (i_next _ _ Hi0). destruct Hn0 as [Hn0|Hn0]; rewrite Hn0 in *; [unfold FIRST in *; lia|lia].
Qed.

Lemma record_of_ok {E} s M i : Inv s M -> 1 <= i <= lanes_of s ->
  exists r, record_of (E := E) s i = Ok r /\ record_at s i = Some r.
Proof. intros Hi [r Hr]%record_range. exists r. split; [|done]. unfold record_of. by rewrite Hr. Qed.
Lemma follows_trans_same s s1 s' M M' : follows s1 M s' M' -> lanes_of s1 = lanes_of s ->
  (forall j, is_Some (M !! j) -> record_at s1 j = record_at s j) -> follows s M s' M'.
Proof.
  intros [Hl Hf] Hl1 Hrec. split; [congruence|]. intros j w Hj. destruct (Hf j w Hj) as [(u & v & v' & Hu & Ht & Hv & Hrest)|Hy]; [left|by right].
  exists u, v, v'. rewrite <- Hrec by eauto. done.
Qed.

(** A lane with a grant gives it up before it asks again. *)
Lemma resume_ok {E} s M i key a : Inv s M -> 1 <= i <= lanes_of s -> queued_ok a ->
  exists res s' M', resume (E := E) s i key a = Ok (res, s') /\ Inv s' M' /\ follows s M s' M'
    /\ (forall j, is_Some (M !! j) -> is_Some (M' !! j)) /\ (res = inl Waiting_ -> s' = s /\ M' = M).
Proof.
  intros Hi Hrange Ha. unfold resume. destruct (record_of_ok (E := E) s M i Hi Hrange) as (r & -> & Hr). cbn [bind].
  destruct r as [|v|g].
  - destruct (vacant_ok (E := E) s M i key a Hi Hr Ha) as (res & s' & M' & ? & ? & ? & ? & Hres).
    exists res, s', M'. split; [done|]. split; [done|]. split; [done|]. split; [done|]. by intros ->.
  - destruct (bool_decide (v_key v = key) && bool_decide (v_amount v = a)).
    + eexists _, s, M. split; [done|]. split; [done|]. split; [by apply follows_same|]. done.
    + destruct (i_wait _ _ Hi i v Hr) as ((w & Hw & _) & _).
      destruct (requeue_ok (E := E) s M (with_record s i (RWaiting (waiting_of key a (v_bypasses v)))) i v (waiting_of key a (v_bypasses v)) w Hi Hw Hr)
        as (t & n & M' & He & Hi' & Hf & Hd); try done.
      { unfold lanes_of, with_record. cbn [records]. by rewrite length_insert. }
      { intros j. by apply record_with with (RWaiting v). }
      cbn [v_amount] in He. change (demand_queued s i a) with (demand_queued (with_record s i (RWaiting (waiting_of key a (v_bypasses v)))) i a).
      rewrite He. cbn [bind]. eexists _, _, M'. split; [done|]. split; [done|]. split; [done|]. split; [intros j Hj; by apply Hd|done].
  - destruct (bool_decide (g_key g = key) && bool_decide (g_amount g = charge a)).
    + eexists _, _, M. split; [done|]. assert (Hi' : Inv (with_record s i RIdle) M) by (by apply (inv_record s M i RIdle (RGranted g))).
      split; [done|]. split; [|done]. apply follows_same; [done| |done|].
      { unfold lanes_of, with_record. cbn [records]. by rewrite length_insert. }
      intros j [w Hw]. apply (record_with_ne s i RIdle (RGranted g)); [done|]. intros ->.
      destruct (i_record _ _ Hi i w Hw) as [v Hv]. by rewrite Hr in Hv.
    + set (s1 := release_grant (with_record s i RIdle) i (g_amount g)).
      assert (Hr1 : record_at s1 i = Some RIdle) by (by apply (record_with_eq s i RIdle (RGranted g))).
      assert (Hi1 : Inv s1 M).
      { apply release_ok; [by apply (inv_record s M i RIdle (RGranted g))|]. intros v Hv. by rewrite (record_with_eq s i RIdle (RGranted g)) in Hv. }
      destruct (vacant_ok (E := E) s1 M i key a Hi1 Hr1 Ha) as (res & s' & M' & ? & ? & Hf & ? & Hres). exists res, s', M'. split; [done|]. split; [done|].
      split; [|split; [done|by intros ->]]. eapply follows_trans_same; [exact Hf| |].
      { unfold lanes_of, s1, release_grant, with_credit, with_record. cbn [records]. by rewrite length_insert. }
      intros j [w Hw]. apply (record_with_ne s i RIdle (RGranted g)); [done|]. intros ->.
      destruct (i_record _ _ Hi i w Hw) as [v Hv]. by rewrite Hr in Hv.
Qed.

Lemma queue_cancel_ok {E} s M i : Inv s M -> 1 <= i <= lanes_of s ->
  exists c s', queue_cancel (E := E) s i = Ok (c, s') /\ Inv s' (delete i M) /\ follows s M s' (delete i M) /\ (c = CIdle -> s' = s /\ delete i M = M).
Proof.
  intros Hi Hrange. unfold queue_cancel. destruct (record_of_ok (E := E) s M i Hi Hrange) as (r & -> & Hr). cbn [bind].
  assert (Hnone : (forall v, r <> RWaiting v) -> delete i M = M).
  { intros Hne. apply delete_id. destruct (M !! i) as [w|] eqn:Hw; [|done].
    destruct (i_record _ _ Hi i w Hw) as [v Hv]. rewrite Hr in Hv. injection Hv as ->. by destruct (Hne v). }
  destruct r as [|v|g].
  - rewrite Hnone by done. eexists _, s. split; [done|]. split; [done|]. split; [by apply follows_same|done].
  - destruct (i_wait _ _ Hi i v Hr) as ((w & Hw & _) & _).
    destruct (state_remove_ok (E := E) (nodes s) (roots_ s) M i w (i_holds _ _ Hi) Hw) as (t & n & He & Hh & Hl).
    cbn [with_record roots_ nodes]. rewrite He. cbn [bind]. eexists _, _. split; [done|].
    rewrite (and_assoc (Inv _ _)). split; [|done]. eapply (leave_ok s M _ i v w RIdle t n); try done.
    + unfold lanes_of, with_tree, with_record. cbn [records]. by rewrite length_insert.
    + intros j. by apply record_with with (RWaiting v).
  - rewrite Hnone by done. eexists _, _. split; [done|].
    assert (Hr1 : forall v, record_at (with_record s i RIdle) i <> Some (RWaiting v)) by (intros v; by rewrite (record_with_eq s i RIdle (RGranted g))).
    split; [apply release_ok; [by apply (inv_record s M i RIdle (RGranted g))|done]|]. split; [|done]. apply follows_same; [done| |done|].
    + unfold lanes_of, release_grant, with_credit, with_record. cbn [records]. by rewrite length_insert.
    + intros j [w Hw]. apply (record_with_ne s i RIdle (RGranted g)); [done|]. intros ->.
      destruct (i_record _ _ Hi i w Hw) as [v Hv]. by rewrite Hr in Hv.
Qed.

Lemma release_all_ok {E} s M i a : Inv s M -> 1 <= i <= lanes_of s ->
  exists s' M', release (E := E) s i a = Ok s' /\ Inv s' M' /\ follows s M s' M' /\ (forall j, is_Some (M' !! j) <-> is_Some (M !! j)).
Proof.
  intros Hi Hrange. unfold release, refresh. destruct (proj2 (record_range s i) Hrange) as [r Hr].
  unfold record_of. change (Queue.record_at (release_grant s i a) i) with (record_at s i). rewrite Hr. cbn [bind].
  assert (Hother : not_waiting r -> exists s' M', Ok (E := E) (with_pending (release_grant s i a) (has_waiting (release_grant s i a))) = Ok s' /\ Inv s' M'
    /\ follows s M s' M' /\ (forall j, is_Some (M' !! j) <-> is_Some (M !! j))).
  { intros Hw. eexists _, M. split; [done|]. split; [apply inv_pending, release_ok; [done|]|split; [by apply follows_same|done]].
    intros v Hv. rewrite Hr in Hv. by injection Hv as ->. }
  destruct r as [|v|g]; [by apply Hother| |by apply Hother].
  destruct (i_wait _ _ Hi i v Hr) as ((w & Hw & _) & Ha & _).
  destruct (requeue_ok (E := E) s M (release_grant s i a) i v v w Hi Hw Hr) as (t & n & M' & He & Hi' & Hf & Hd); try done.
  { intros j. destruct (decide (j = i)) as [->|]; [exact Hr|done]. }
  { intros j b Hj. by apply cl_release. }
  rewrite He. cbn [bind]. eexists _, M'. split; [done|]. split; [by apply inv_pending|]. done.
Qed.

Lemma try_acquire_ok {E} s M i a : Inv s M -> 1 <= i <= lanes_of s ->
  exists res s', try_acquire (E := E) s i a = Ok (res, s') /\ Inv s' M /\ follows s M s' M
    /\ pending s' = pending s /\ records s' = records s /\ (M = ∅ \/ cr_shared (credit s') = cr_shared (credit s)).
Proof.
  intros Hi Hrange. unfold try_acquire, is_busy. destruct (record_of_ok (E := E) s M i Hi Hrange) as (r & -> & Hr). cbn [bind].
  assert (Hsame : forall c, Inv (with_credit s c) M -> M = ∅ \/ cr_shared c = cr_shared (credit s) ->
    Inv (with_credit s c) M /\ follows s M (with_credit s c) M /\ pending (with_credit s c) = pending s /\ records (with_credit s c) = records s
    /\ (M = ∅ \/ cr_shared (credit (with_credit s c)) = cr_shared (credit s))).
  { intros c Hc Hs. split; [done|]. split; [by apply follows_same|]. done. }
  assert (Hbusy : forall res : Amount + @Admission F, exists r s', Ok (E := E) (res, s) = Ok (r, s') /\ Inv s' M /\ follows s M s' M
    /\ pending s' = pending s /\ records s' = records s /\ (M = ∅ \/ cr_shared (credit s') = cr_shared (credit s))).
  { intros res. exists res, s. split; [done|]. split; [done|]. split; [by apply follows_same|]. auto. }
  destruct r as [|v|g]; [|apply Hbusy..].
  assert (Hnw : forall v, record_at s i <> Some (RWaiting v)) by (intros v; by rewrite Hr).
  destruct (has_waiting s) eqn:Hhas.
  - destruct (bool_decide_reflect (account_demand s i a = ZERO)) as [Hz|]; cbn [negb]; [|apply Hbusy].
    destruct (acquire_ok (E := E) s M i a Hi Hnw (zero_covered _ _ _ Hz)) as (s' & -> & Hi' & ->). cbn [bind]. eexists _, _. split; [done|]. apply Hsame; [done|]. right. apply cl_free.
    destruct (get_u32 a) as [H1 H2]. destruct (cl_demand (credit s) i (get a)) as [Hd1 Hd2]; [apply H1|apply H2|]. unfold account_demand, from_raw in Hz.
    apply amount_zero in Hz; [|unfold u32 in *; lia..]. destruct (cr_demand (credit s) i (get a)) as [x y]. simpl in Hz. by destruct Hz as [-> ->].
  - unfold try_charge. destruct (cr_try (credit s) i (get a)) as [c'|f] eqn:Ht; [|apply Hbusy].
    eexists _, _. split; [done|]. apply Hsame; [|left; apply (holds_empty _ _ _ (i_holds _ _ Hi)); unfold has_waiting in Hhas; by destruct (is_empty (roots_ s))].
    apply inv_credit; [done|]. intros j v b Hj. eapply cl_try; [|exact Ht]. intros ->. by apply (Hnw v).
Qed.

(** ** Selection *)

Lemma covers_demand (s : State) i v w shared : stands s i v w -> queued_ok (v_amount v) ->
  covers shared w <-> (demand_of s i (v_amount v)).1 <= shared.1 /\ (demand_of s i (v_amount v)).2 <= shared.2.
Proof.
  intros [He Hr] Ha. pose proof (demand_range s i _ Ha) as [Hd _]. unfold covers. rewrite He, Hr. unfold entries_from.
  destruct (Z.eqb_spec (demand_of s i (v_amount v)).1 0); [|destruct (Z.eqb_spec (demand_of s i (v_amount v)).1 1)]; simpl; lia.
Qed.
Lemma covers_acquire (s : State) i v w : stands s i v w -> queued_ok (v_amount v) -> covers (cr_shared (credit s)) w ->
  is_covered s (account_demand s i (charge (v_amount v))) = true.
Proof.
  intros Hst Ha Hc%(covers_demand s i v w _ Hst Ha). change (account_demand s i (charge (v_amount v))) with (demand_queued s i (v_amount v)).
  pose proof (tree_demand_of s i _ Ha) as Htd. pose proof (shared_pair (credit s)) as Hsh. unfold tree_demand in Htd, Hsh.
  unfold is_covered, fits. destruct (demand_of s i (v_amount v)) as [d1 d2]. destruct (cr_shared (credit s)) as [f1 f2] eqn:Hs. simpl in Hc.
  injection Htd as -> ->. injection Hsh as -> ->. apply andb_true_iff. rewrite !Z.leb_le. done.
Qed.

(** The step of [maintain] that selects a lane and activates it. *)
Definition turn {E} (s : State) : run E (option Index * State) :=
  let! (selected, s) := select s (from_raw (cr_shared (credit s))) in
  match selected with
  | None => Ok (None, s)
  | Some (i, key, a) => let! s := activate try_activate s i key a in Ok (Some i, s)
  end.
(** What became of a lane that left the queue in a turn: where its task is alive,
    the task is woken and the lane has a grant of its amount, charged to its
    account; otherwise it is idle and no credit is taken. *)
Definition settled (s s' : State) (i : Index) (v : @Waiting K) : Prop :=
  match try_activate (ready s) (v_key v) with
  | Some d =>
      record_at s' i = Some (RGranted (granted_of (v_key v) (charge (v_amount v)))) /\ ready s' = d
      /\ credit s' = cr_acquire (credit s) i (get (charge (v_amount v)))
  | None => record_at s' i = Some RIdle /\ ready s' = ready s /\ credit s' = credit s
  end.
(** A lane is passed over once more, and nothing else about it changes. *)
Definition passed (s s' : State) (k : Index) : Prop :=
  exists v, record_at s k = Some (RWaiting v) /\ record_at s' k = Some (RWaiting (waiting_of (v_key v) (v_amount v) (v_bypasses v + 1))).

Lemma leave_turn {E} s s1 M i v w t n : Inv s M -> Inv s1 M -> M !! i = Some w -> record_at s1 i = Some (RWaiting v) ->
  covers (cr_shared (credit s1)) w -> holds n t (delete i M) -> length n = length (nodes s1) ->
  exists s', activate (E := E) try_activate (with_tree s1 t n) i (v_key v) (v_amount v) = Ok s' /\ Inv s' (delete i M)
    /\ follows s1 M s' (delete i M) /\ settled s1 s' i v /\ (forall k, k <> i -> record_at s' k = record_at s1 k).
Proof.
  intros Hi Hi1 Hw Hv Hc Hh Hl. destruct (i_wait _ _ Hi1 i v Hv) as ((w' & Hw' & Hst) & Ha & _).
  assert (w' = w) as -> by (rewrite Hw in Hw'; by injection Hw').
  unfold activate, settled. cbn [with_tree ready]. destruct (try_activate (ready s1) (v_key v)) as [d|].
  - unfold acquire. change (account_demand (with_ready (with_tree s1 t n) d) i (charge (v_amount v))) with (account_demand s1 i (charge (v_amount v))).
    change (is_covered (with_ready (with_tree s1 t n) d)) with (is_covered s1). rewrite (covers_acquire s1 i v w Hst Ha Hc). cbn [bind].
    eexists. split; [done|].
    match goal with |- Inv ?s' _ /\ _ => assert (Hrec : forall j, record_at s' j = if decide (j = i) then Some (RGranted (granted_of (v_key v) (charge (v_amount v)))) else record_at s1 j) end.
    { intros j. by apply (record_with (with_credit (with_ready (with_tree s1 t n) d) _) i _ (RWaiting v)). }
    rewrite (and_assoc (Inv _ _)). split.
    + eapply (leave_ok s1 M _ i v w (RGranted (granted_of (v_key v) (charge (v_amount v))))); try done.
      * unfold lanes_of, with_tree, with_ready, with_credit, with_record. cbn [records]. by rewrite length_insert.
      * intros j b Hj. by apply cl_acquire.
    + split; [by rewrite Hrec, decide_True|]. intros k Hk. by rewrite Hrec, decide_False.
  - eexists. split; [done|].
    assert (Hrec : forall j, record_at (with_record (with_tree s1 t n) i RIdle) j = if decide (j = i) then Some RIdle else record_at s1 j).
    { intros j. by apply (record_with (with_tree s1 t n) i _ (RWaiting v)). }
    rewrite (and_assoc (Inv _ _)). split.
    + eapply (leave_ok s1 M _ i v w RIdle); try done. unfold lanes_of, with_tree, with_record. cbn [records]. by rewrite length_insert.
    + split; [by rewrite Hrec, decide_True|]. intros k Hk. by rewrite Hrec, decide_False.
Qed.

(** The oldest lane is passed over. *)
Lemma bypass_ok s M k v : Inv s M -> record_at s k = Some (RWaiting v) -> v_bypasses v < lanes_of s - 1 ->
  Inv (with_record s k (RWaiting (waiting_of (v_key v) (v_amount v) (v_bypasses v + 1)))) M.
Proof.
  intros Hi Hk Hlt. set (v' := waiting_of _ _ _). set (s1 := with_record _ _ _).
  assert (Hl : lanes_of s1 = lanes_of s) by (unfold lanes_of, s1, with_record; cbn [records]; by rewrite length_insert).
  assert (Hrec : forall j, record_at s1 j = if decide (j = k) then Some (RWaiting v') else record_at s j) by (intros j; by apply record_with with (RWaiting v)).
  destruct Hi. split; try done; try (rewrite Hl; done).
  - unfold lanes_of in Hl. cbn [s1 with_record nodes]. rewrite <- i_table0. lia.
  - intros j u. rewrite Hl, Hrec. destruct (decide (j = k)) as [->|Hj]; [|apply i_wait0]. intros [= <-].
    destruct (i_wait0 k v Hk) as (Hst & Ha & Hb). split; [exact Hst|]. split; [exact Ha|]. simpl. lia.
  - intros j w Hw. rewrite Hrec. destruct (decide (j = k)) as [->|Hj]; [eauto|by apply (i_record0 j w)].
Qed.

Theorem turn_ok {E} s M : Inv s M ->
  exists out s', turn (E := E) s = Ok (out, s') /\
  match out with
  | None => s' = s /\ (earliest (covers (cr_shared (credit s))) M None \/
      exists k v, earliest (fun _ => True) M (Some k) /\ record_at s k = Some (RWaiting v) /\ v_bypasses v = lanes_of s - 1
        /\ forall w, M !! k = Some w -> ~ covers (cr_shared (credit s)) w)
  | Some i => earliest (covers (cr_shared (credit s))) M (Some i) /\ Inv s' (delete i M) /\ follows s M s' (delete i M)
      /\ (exists v, record_at s i = Some (RWaiting v) /\ settled s s' i v)
      /\ (earliest (fun _ => True) M (Some i) /\ (forall j, j <> i -> record_at s' j = record_at s j)
          \/ exists k, earliest (fun _ => True) M (Some k) /\ k <> i /\ passed s s' k
              /\ forall j, j <> i -> j <> k -> record_at s' j = record_at s j)
  end.
Proof.
  intros Hi. unfold turn, select. pose proof (i_holds _ _ Hi) as Hh.
  destruct (state_oldest_ok (E := E) _ _ _ Hh) as (o & -> & Ho). cbn [bind]. destruct o as [k|].
  2: { eexists _, s. split; [done|]. split; [done|]. left. intros j v Hv _. by apply (Ho j v Hv). }
  destruct (cl_shared (credit s)) as [Hpos _]. rewrite shared_pair.
  destruct (state_eligible_ok (E := E) _ _ _ (cr_shared (credit s)) Hh (proj1 Hpos)) as (c & -> & Hc). cbn [bind]. destruct c as [i|].
  2: { eexists _, s. split; [done|]. split; [done|]. by left. }
  pose proof Ho as (wk & Hwk & _ & Hmin). pose proof Hc as (w & Hw & Hcov & Hfirst).
  destruct (i_record _ _ Hi i w Hw) as [v Hv]. destruct (i_record _ _ Hi k wk Hwk) as [vk Hvk].
  destruct (state_remove_ok (E := E) _ _ _ i w Hh Hw) as (t & n & He & Hh' & Hl).
  destruct (bool_decide_reflect (i = k)) as [->|Hne]; cbn [bind].
  - rewrite Hv, He. cbn [bind].
    destruct (leave_turn (E := E) s s M k v w t n Hi Hi Hw Hv Hcov Hh' Hl) as (s' & -> & Hi' & Hf & Hst & Hrest). cbn [bind].
    eexists _, s'. split; [done|]. split; [done|]. split; [done|]. split; [done|]. split; [eauto|]. by left.
  - unfold try_bypass. rewrite Hvk. fold (lanes_of s). destruct (i_wait _ _ Hi k vk Hvk) as (_ & _ & Hb).
    destruct (Z.leb_spec (lanes_of s - 1) (v_bypasses vk)); cbn [bind].
    { eexists _, s. split; [done|]. split; [done|]. right. exists k, vk. split; [done|]. split; [done|]. split; [lia|].
      intros u Hu Hcu. rewrite Hwk in Hu. injection Hu as <-. specialize (Hfirst k wk Hwk Hcu). specialize (Hmin i w Hw I).
      apply Hne. by apply (i_order _ _ Hi i k w wk); [..|lia]. }
    pose proof (bypass_ok s M k vk Hi Hvk ltac:(lia)) as Hi1. set (s1 := with_record s k _) in *.
    assert (Hv1 : record_at s1 i = Some (RWaiting v)) by (unfold s1; by rewrite (record_with_ne s k _ (RWaiting vk))).
    rewrite Hv1. change (roots_ s1) with (roots_ s). change (nodes s1) with (nodes s). rewrite He. cbn [bind].
    destruct (leave_turn (E := E) s s1 M i v w t n Hi Hi1 Hw Hv1 Hcov Hh' Hl) as (s' & -> & Hi' & Hf & Hst & Hrest). cbn [bind].
    eexists _, s'. split; [done|]. split; [done|]. split; [done|]. split; [|split; [eauto|]].
    + destruct Hf as [Hl1 Hf]. split; [rewrite Hl1; unfold lanes_of, s1, with_record; cbn [records]; by rewrite length_insert|].
      intros j w' Hj. destruct (Hf j w' Hj) as [(u & v0 & v1 & Hu & Ht & Hv0 & Hrec)|Hy]; [left|by right].
      unfold s1 in Hv0. rewrite (record_with s k _ (RWaiting vk)) in Hv0 by done. destruct (decide (j = k)) as [->|Hj'].
      * injection Hv0 as <-. exists u, vk, v1. simpl in Hrec. split; [done|]. split; [done|]. split; [done|]. split; [tauto|lia].
      * by exists u, v0, v1.
    + right. exists k. split; [done|]. split; [done|]. split.
      * exists vk. split; [done|]. rewrite Hrest by done. by apply (record_with_eq s k _ (RWaiting vk)).
      * intros j Hj Hjk. rewrite Hrest by done. by apply (record_with_ne s k _ (RWaiting vk)).
Qed.
End facts.
End QueueFacts.
