(* ===== verification/CreditRuns.v ===== *)
(** * Histories of the queue for credit.

    What lanes and the owner of the pool do with it, in any order: it never gets
    stuck, it selects exactly the lane it means to, no lane waits for ever, and
    credit that a lane could have is never left without pending work. *)

From stdpp Require Import gmap.
From S2P Require Import Prelude CreditTree CreditAvl CreditTreeFacts CreditState CreditQueue CreditFacts.

(** ** The trees of waiting lanes *)

Module TreesRefine.
Import Tree Waiters.

(** C10. The linked AVL trees of waiting lanes, one for each class of entries in one
    table, implement a map from lanes to what they wait for: insertion, removal and
    refresh return and act as on the map (a refresh keeps the ticket), the oldest
    lane is the one with the earliest ticket, and the lane eligible for some shared
    credit is the one with the earliest ticket among those it covers. *)
Theorem waiting_trees_refine E s r M : holds s r M ->
  (forall i res tick c, M !! i = None -> 1 <= i <= Z.of_nat (length s) ->
    exists r' s', insert_node (E := E) r s i (waiting i res c tick) = Ok (r', s') /\ holds s' r' (<[i := waiter c res tick]> M))
  /\ (forall i, is_Some (M !! i) -> exists r' s', state_remove (E := E) r s i = Ok (r', s') /\ holds s' r' (delete i M))
  /\ (forall i w d, M !! i = Some w ->
    exists r' s', state_refresh (E := E) r s i d = Ok (r', s') /\ holds s' r' (<[i := waiter (entries_from d.1) d.2 (w_tick w)]> M))
  /\ (exists choice, state_oldest (E := E) r s = Ok choice /\ earliest (fun _ => True) M choice)
  /\ (forall shared, 0 <= shared.1 -> exists choice, state_eligible (E := E) r s shared = Ok choice /\ earliest (covers shared) M choice).
Proof.
  intros Hh. split; [|split; [|split; [|split]]].
  - intros i res tick c Hi Hr. destruct (insert_node_ok (E := E) s r M i res tick c Hh Hi Hr) as (r' & s' & ? & ? & _). eauto.
  - intros i [w Hw]. destruct (state_remove_ok (E := E) s r M i w Hh Hw) as (r' & s' & ? & ? & _). eauto.
  - intros i w d Hw. destruct (state_refresh_ok (E := E) s r M i w d Hh Hw) as (r' & s' & ? & ? & _). eauto.
  - by apply state_oldest_ok.
  - intros shared Hs. by apply state_eligible_ok.
Qed.
End TreesRefine.

Module CreditRuns.
Import Tree Waiters Amount AmountFacts Queue QueueFacts.

Section runs.
Context {K D C F : Type} `{EqDecision K} `{CR : CreditLaws C F} (try_activate : D -> K -> option D).
Abbreviation State := (@State K D C).

(** ** Histories *)

(** A lane polls, cancels, tries to acquire or releases; the owner of the pool
    maintains it with some permits. *)
Inductive Op :=
  | OPoll (i : Index) (key : K) (a : Queued)
  | OCancel (i : Index)
  | OTry (i : Index) (a : Amount)
  | ORelease (i : Index) (a : Amount)
  | OMaintain (permits : nat).
(** Lanes are those of the table, and what they wait for has a [u32] of bytes. *)
Definition allowed (lanes : Z) (o : Op) : Prop :=
  match o with
  | OPoll i _ a => 1 <= i <= lanes /\ queued_ok a
  | OCancel i | OTry i _ | ORelease i _ => 1 <= i <= lanes
  | OMaintain _ => True
  end.
(** The lanes selected, and the state. *)
Definition step {E} (s : State) (o : Op) : run E (list Index * State) :=
  match o with
  | OPoll i key a => let! (_, s) := poll s i key a in Ok ([], s)
  | OCancel i => let! s := cancel s i in Ok ([], s)
  | OTry i a => let! (_, s) := try_acquire s i a in Ok ([], s)
  | ORelease i a => let! s := release s i a in Ok ([], s)
  | OMaintain permits => maintain try_activate permits s
  end.
Fixpoint history {E} (s : State) (os : list Op) : run E (list Index * State) :=
  match os with
  | [] => Ok ([], s)
  | o :: os =>
      let! (selected, s) := step s o in
      let! (more, s) := history s os in
      Ok (selected ++ more, s)
  end.

(** ** Pending work *)

(** Nothing can be selected: no waiting lane is covered, or the oldest is not and
    was passed over as often as there are other lanes. *)
Definition blocked (s : State) (M : Waits) : Prop :=
  earliest (covers (cr_shared (credit s))) M None \/
  exists k v, earliest (fun _ => True) M (Some k) /\ record_at s k = Some (RWaiting v) /\ v_bypasses v = lanes_of s - 1
    /\ forall w, M !! k = Some w -> ~ covers (cr_shared (credit s)) w.
Definition awake (s : State) (M : Waits) : Prop := pending s = true \/ blocked s M.
Lemma awake_published (s : State) M : Inv s M -> awake (with_pending s (has_waiting s)) M.
Proof.
  intros Hi. unfold awake, has_waiting. cbn [with_pending pending]. destruct (is_empty (roots_ s)) eqn:He; [|by left].
  apply (holds_empty _ _ _ (i_holds _ _ Hi)) in He. subst M. right. left. intros j v Hj. by rewrite lookup_empty in Hj.
Qed.

(** ** Waiting in turn *)

(** The turns that may pass before all lanes whose ticket is not after [T] are
    served: each may be passed over by each other lane, and then goes itself. *)
Definition left_of (s : State) (M : Waits) (T : Ticket) (j : Index) : Z :=
  match M !! j, record_at s j with
  | Some w, Some (RWaiting v) => if w_tick w <=? T then lanes_of s - v_bypasses v else 0
  | _, _ => 0
  end.
Definition turns_left (s : State) (M : Waits) (T : Ticket) : Z := foldr Z.add 0 (left_of s M T <$> seqZ 1 (lanes_of s)).
(** The lanes whose ticket is not after [T]. *)
Definition not_younger (s : State) (M : Waits) (T : Ticket) : list Index :=
  filter (fun j => from_option (fun w => bool_decide (w_tick w <= T)) false (M !! j) = true) (seqZ 1 (lanes_of s)).

(** ** Counting turns *)

Lemma sum_le (f g : Z -> Z) l : (forall j, j ∈ l -> f j <= g j) -> foldr Z.add 0 (f <$> l) <= foldr Z.add 0 (g <$> l).
Proof.
  induction l as [|j l IH]; intros Hle; [done|]. rewrite !fmap_cons. simpl. pose proof (Hle j ltac:(set_solver)).
  assert (foldr Z.add 0 (f <$> l) <= foldr Z.add 0 (g <$> l)) by (apply IH; set_solver). lia.
Qed.
Lemma sum_lt (f g : Z -> Z) l k : (forall j, j ∈ l -> f j <= g j) -> k ∈ l -> f k < g k -> foldr Z.add 0 (f <$> l) + 1 <= foldr Z.add 0 (g <$> l).
Proof.
  induction l as [|j l IH]; intros Hle Hk Hlt; [by apply elem_of_nil in Hk|]. rewrite !fmap_cons. simpl. pose proof (Hle j ltac:(set_solver)).
  apply elem_of_cons in Hk as [->|Hk].
  - pose proof (sum_le f g l ltac:(set_solver)). lia.
  - assert (foldr Z.add 0 (f <$> l) + 1 <= foldr Z.add 0 (g <$> l)) by (apply IH; [set_solver|done..]). lia.
Qed.
Lemma sum_count (f : Z -> Z) (b : Z) (p : Z -> bool) l : (forall j, f j <= if p j then b else 0) ->
  foldr Z.add 0 (f <$> l) <= b * Z.of_nat (length (filter (fun j => p j = true) l)).
Proof.
  intros Hf. induction l as [|j l IH]; [simpl; lia|]. specialize (Hf j). rewrite filter_cons, fmap_cons. cbn [foldr].
  destruct (p j); [rewrite decide_True by done|rewrite decide_False by done]; rewrite ?length_cons; lia.
Qed.

Lemma left_range (s : State) M T j : Inv s M -> 0 <= left_of s M T j <= lanes_of s.
Proof.
  intros Hi. unfold left_of. pose proof (i_lanes _ _ Hi). destruct (M !! j) as [w|]; [|lia].
  destruct (record_at s j) as [[|v|]|] eqn:Hv; try lia. destruct (i_wait _ _ Hi j v Hv) as (_ & _ & Hb). destruct (w_tick w <=? T); lia.
Qed.
(** A lane that waits with a ticket not after [T] counts at least one turn. *)
Lemma left_waiting (s : State) M T j w : Inv s M -> M !! j = Some w -> w_tick w <= T ->
  exists v, record_at s j = Some (RWaiting v) /\ left_of s M T j = lanes_of s - v_bypasses v /\ 1 <= left_of s M T j.
Proof.
  intros Hi Hw Ht. destruct (i_record _ _ Hi j w Hw) as [v Hv]. exists v. split; [done|]. unfold left_of. rewrite Hw, Hv.
  destruct (Z.leb_spec (w_tick w) T); [|lia]. destruct (i_wait _ _ Hi j v Hv) as (_ & _ & Hb). lia.
Qed.
Lemma waiting_lane (s : State) M j : Inv s M -> is_Some (M !! j) -> j ∈ seqZ 1 (lanes_of s).
Proof. intros Hi [w Hw]. destruct (i_record _ _ Hi j w Hw) as [v Hv]. pose proof (proj1 (record_range s j) (ex_intro _ _ Hv)). apply elem_of_seqZ. lia. Qed.
Lemma turns_bound (s : State) M T : Inv s M -> turns_left s M T <= lanes_of s * Z.of_nat (length (not_younger s M T)).
Proof.
  intros Hi. apply sum_count. intros j. pose proof (i_lanes _ _ Hi). unfold left_of.
  destruct (M !! j) as [w|]; simpl; [|lia]. destruct (Z.leb_spec (w_tick w) T).
  - rewrite bool_decide_eq_true_2 by done. destruct (record_at s j) as [[|v|]|] eqn:Hv; try lia.
    destruct (i_wait _ _ Hi j v Hv) as (_ & _ & Hb). lia.
  - rewrite bool_decide_eq_false_2 by lia. destruct (record_at s j) as [[|v|]|]; lia.
Qed.
Lemma turns_positive (s : State) M t w : Inv s M -> M !! t = Some w -> 1 <= turns_left s M (w_tick w).
Proof.
  intros Hi Hw. destruct (left_waiting s M _ t w Hi Hw (Z.le_refl _)) as (v & _ & _ & H1).
  pose proof (sum_lt (fun _ => 0) (left_of s M (w_tick w)) (seqZ 1 (lanes_of s)) t (fun j _ => proj1 (left_range s M _ j Hi))
    (waiting_lane s M t Hi ltac:(eauto)) ltac:(cbn beta; lia)) as Hs.
  assert (Hz : forall l : list Z, foldr Z.add 0 ((fun _ => 0) <$> l) = 0) by (induction l as [|? l IH]; [done|exact IH]).
  rewrite Hz in Hs. unfold turns_left. lia.
Qed.

(** While a lane keeps waiting, no turn before it is added. *)
Lemma follows_left (s : State) M s' M' t w : Inv s M -> follows s M s' M' -> M !! t = Some w ->
  (forall w', M' !! t = Some w' -> w_tick w' = w_tick w) /\ forall j, left_of s' M' (w_tick w) j <= left_of s M (w_tick w) j.
Proof.
  intros Hi [Hl Hf] Hw. split.
  - intros w' Hw'. destruct (Hf t w' Hw') as [(u & _ & _ & Hu & Ht & _)|[Hn _]]; congruence.
  - intros j. unfold left_of at 1. rewrite Hl. pose proof (left_range s M (w_tick w) j Hi). destruct (M' !! j) as [u'|] eqn:Hj; [|lia].
    destruct (record_at s' j) as [[|v'|]|] eqn:Hv'; try lia. destruct (Z.leb_spec (w_tick u') (w_tick w)); [|lia].
    destruct (Hf j u' Hj) as [(u & v & v1 & Hu & Ht & Hv & Hv1 & Hb)|[_ Hy]].
    + rewrite Hv' in Hv1. injection Hv1 as <-. unfold left_of. rewrite Hu, Hv, Ht. destruct (Z.leb_spec (w_tick u') (w_tick w)); lia.
    + specialize (Hy t w Hw). lia.
Qed.

(** Every lane that waited has been selected, or waits on with its ticket and at
    least as many turns nearer as there were selections. *)
Definition served (s : State) (M : Waits) (selected : list Index) (s' : State) (M' : Waits) (t : Index) : Prop :=
  forall w, M !! t = Some w -> t ∈ selected \/
    exists w', M' !! t = Some w' /\ w_tick w' = w_tick w
      /\ turns_left s' M' (w_tick w) + Z.of_nat (length selected) <= turns_left s M (w_tick w).
Lemma served_same (s : State) M t : served s M [] s M t.
Proof. intros w Hw. right. exists w. simpl. split; [done|]. split; [done|lia]. Qed.
Lemma served_trans (s : State) M l1 s1 M1 l2 s2 M2 t :
  served s M l1 s1 M1 t -> served s1 M1 l2 s2 M2 t -> served s M (l1 ++ l2) s2 M2 t.
Proof.
  intros H1 H2 w Hw. rewrite elem_of_app, length_app. destruct (H1 w Hw) as [?|(w1 & Hw1 & Ht1 & Hl1)]; [auto|].
  destruct (H2 w1 Hw1) as [?|(w2 & Hw2 & Ht2 & Hl2)]; [auto|]. right. exists w2. split; [done|]. split; [congruence|]. rewrite <- Ht1 in *. lia.
Qed.
Lemma served_follows (s : State) M s' M' t : Inv s M -> follows s M s' M' -> (is_Some (M !! t) -> is_Some (M' !! t)) -> served s M [] s' M' t.
Proof.
  intros Hi Hf Hd w Hw. right. destruct (follows_left s M s' M' t w Hi Hf Hw) as [Ht Hl]. destruct Hd as [w' Hw']; [eauto|].
  exists w'. split; [done|]. split; [by apply Ht|]. pose proof (proj1 Hf) as Hlanes. unfold turns_left. rewrite Hlanes.
  pose proof (sum_le _ _ (seqZ 1 (lanes_of s)) (fun j _ => Hl j)). simpl. lia.
Qed.

(** A selection is a turn nearer for every other lane. *)
Lemma served_turn (s : State) M s' i t : Inv s M -> Inv s' (delete i M) -> follows s M s' (delete i M) ->
  (earliest (fun _ => True) M (Some i) /\ (forall j, j <> i -> record_at s' j = record_at s j)
   \/ exists k, earliest (fun _ => True) M (Some k) /\ k <> i /\ passed s s' k /\ forall j, j <> i -> j <> k -> record_at s' j = record_at s j) ->
  served s M [i] s' (delete i M) t.
Proof.
  intros Hi Hi' Hf Hold w Hw. destruct (decide (t = i)) as [->|Hne]; [left; set_solver|]. right.
  destruct (follows_left s M s' _ t w Hi Hf Hw) as [_ Hl]. exists w. rewrite lookup_delete_ne by done. split; [done|]. split; [done|].
  pose proof (proj1 Hf) as Hlanes. unfold turns_left. rewrite Hlanes. cbn [length].
  assert (exists k, is_Some (M !! k) /\ left_of s' (delete i M) (w_tick w) k < left_of s M (w_tick w) k) as (k & Hk & Hlt).
  { destruct Hold as [[(wi & Hwi & _ & Hmin) _]|(k & (wk & Hwk & _ & Hmin) & Hki & (v & Hv & Hv') & _)].
    - exists i. split; [eauto|]. destruct (left_waiting s M (w_tick w) i wi Hi Hwi (Hmin t w Hw I)) as (v & _ & _ & H1).
      unfold left_of at 1. rewrite lookup_delete_eq. lia.
    - exists k. split; [eauto|]. destruct (left_waiting s M (w_tick w) k wk Hi Hwk (Hmin t w Hw I)) as (v0 & Hv0 & He & _).
      rewrite Hv in Hv0. injection Hv0 as <-. rewrite He. unfold left_of. rewrite lookup_delete_ne by done. rewrite Hwk, Hv', Hlanes.
      destruct (Z.leb_spec (w_tick wk) (w_tick w)); [cbn [v_bypasses]; lia|]. specialize (Hmin t w Hw I). lia. }
  pose proof (sum_lt _ _ (seqZ 1 (lanes_of s)) k (fun j _ => Hl j) (waiting_lane s M k Hi Hk) Hlt). lia.
Qed.

(** ** The operations in histories *)

(** What every step keeps. *)
Definition good (s : State) (M : Waits) (s' : State) (M' : Waits) : Prop :=
  Inv s' M' /\ lanes_of s' = lanes_of s /\ (awake s M -> awake s' M').

Lemma maintain_turn {E} permits (s : State) : pending s = true ->
  maintain try_activate (S permits) s =
  let! (out, s) := turn (E := E) try_activate (with_pending s false) in
  match out with
  | None => maintain try_activate permits s
  | Some i => let! (more, s) := maintain try_activate permits (with_pending s (has_waiting s)) in Ok (i :: more, s)
  end.
Proof.
  intros Hp. cbn [maintain]. rewrite Hp. unfold turn. destruct (select _ _) as [[[[[i key] a]|] s1]| |]; cbn [bind]; try done.
  by destruct (activate _ _ _ _ _).
Qed.
Lemma maintain_idle {E} permits (s : State) : pending s = false -> maintain (E := E) try_activate permits s = Ok ([], s).
Proof. intros Hp. destruct permits; cbn [maintain]; by rewrite Hp. Qed.

Lemma maintain_good {E} permits (s : State) M : Inv s M ->
  exists selected s' M', maintain (E := E) try_activate permits s = Ok (selected, s') /\ good s M s' M'
    /\ forall t, served s M selected s' M' t.
Proof.
  revert s M. induction permits as [|permits IH]; intros s M Hi.
  { exists [], s, M. split; [cbn [maintain]; by destruct (pending s)|]. split; [done|apply served_same]. }
  destruct (pending s) eqn:Hp.
  2: { rewrite maintain_idle by done. exists [], s, M. split; [done|]. split; [done|apply served_same]. }
  rewrite maintain_turn by done. pose proof (inv_pending s M false Hi) as Hi0.
  destruct (turn_ok (E := E) try_activate _ _ Hi0) as (out & s1 & -> & Hout). cbn [bind]. destruct out as [i|].
  - destruct Hout as (_ & Hi1 & Hf & _ & Hold). set (s2 := with_pending s1 (has_waiting s1)).
    destruct (IH s2 _ (inv_pending s1 _ (has_waiting s1) Hi1)) as (more & s' & M' & -> & (Hi' & Hl' & Ha') & Hs'). cbn [bind].
    exists (i :: more), s', M'. split; [done|]. split; [split; [done|]; split; [rewrite Hl'; apply (proj1 Hf)|]|].
    + intros _. apply Ha'. by apply awake_published.
    + intros t. apply (served_trans s M [i] s2 (delete i M) more); [|apply Hs']. by apply (served_turn (with_pending s false) M s1 i t).
  - destruct Hout as [-> Hb]. rewrite maintain_idle by done. exists [], (with_pending s false), M. split; [done|].
    split; [|intros t; exact (served_same s M t)]. split; [done|]. split; [done|]. intros _. by right.
Qed.

Lemma credit_poll_good {E} (s : State) M i key a : Inv s M -> 1 <= i <= lanes_of s -> queued_ok a ->
  exists res s' M', poll (E := E) s i key a = Ok (res, s') /\ good s M s' M' /\ forall t, served s M [] s' M' t.
Proof.
  intros Hi Hr Ha. unfold poll. destruct (resume_ok (E := E) s M i key a Hi Hr Ha) as (res & s1 & M' & -> & Hi' & Hf & Hd & Hw). cbn [bind].
  assert (res = inl Waiting_ \/ res <> inl Waiting_) as [->|Hne] by (destruct res as [[]|]; auto).
  - destruct (Hw eq_refl) as [-> ->]. eexists _, s, M. split; [done|]. split; [done|apply served_same].
  - assert (Hp : match res with inl Waiting_ => s1 | _ => with_pending s1 (has_waiting s1) end = with_pending s1 (has_waiting s1))
      by (destruct res as [[| |g]|e]; done).
    rewrite Hp. eexists _, (with_pending s1 (has_waiting s1)), M'. split; [done|]. split.
    + split; [by apply inv_pending|]. split; [apply Hf|]. intros _. by apply awake_published.
    + intros t. apply served_follows; [done|exact Hf|apply Hd].
Qed.
Lemma cancel_good {E} (s : State) M i : Inv s M -> 1 <= i <= lanes_of s ->
  exists s', cancel (E := E) s i = Ok s' /\ good s M s' (delete i M) /\ forall t, t <> i -> served s M [] s' (delete i M) t.
Proof.
  intros Hi Hr. unfold cancel. destruct (queue_cancel_ok (E := E) s M i Hi Hr) as (c & s1 & -> & Hi' & Hf & Hc). cbn [bind].
  eexists. split; [done|]. assert (Hl : lanes_of s1 = lanes_of s) by apply Hf. split.
  - split; [destruct c; [done|by apply inv_pending]|]. split; [by destruct c|]. destruct c; [|intros _; by apply awake_published].
    by destruct (Hc eq_refl) as [-> ->].
  - intros t Ht. apply served_follows; [done|by destruct c|]. by rewrite lookup_delete_ne.
Qed.
Lemma release_good {E} (s : State) M i a : Inv s M -> 1 <= i <= lanes_of s ->
  exists s' M', release (E := E) s i a = Ok s' /\ good s M s' M' /\ forall t, served s M [] s' M' t.
Proof.
  intros Hi Hr. destruct (release_all_ok (E := E) s M i a Hi Hr) as (s' & M' & He & Hi' & Hf & Hd). exists s', M'. split; [done|]. split.
  - split; [done|]. split; [apply Hf|]. intros _. unfold release in He. destruct (refresh _ _) as [s1| |]; [|done..]. cbn [bind] in He.
    injection He as <-. apply awake_published. pose proof (inv_pending _ _ (pending s1) Hi'). by destruct s1.
  - intros t. apply served_follows; [done..|]. apply Hd.
Qed.
Lemma try_good {E} (s : State) M i a : Inv s M -> 1 <= i <= lanes_of s ->
  exists res s', try_acquire (E := E) s i a = Ok (res, s') /\ good s M s' M /\ forall t, served s M [] s' M t.
Proof.
  intros Hi Hr. destruct (try_acquire_ok (E := E) s M i a Hi Hr) as (res & s' & He & Hi' & Hf & Hp & Hrec & Hs). exists res, s'. split; [done|].
  split; [|intros t; by apply served_follows]. split; [done|]. split; [apply Hf|]. unfold awake, blocked. rewrite Hp. intros [?|Hb]; [by left|right].
  destruct Hs as [->|Hs]; [left; intros j v Hj; by rewrite lookup_empty in Hj|]. rewrite Hs. unfold lanes_of, Queue.record_at in *. by rewrite Hrec.
Qed.

(** A lane asks to wait no more by cancelling only. *)
Definition cancels (t : Index) (o : Op) : Prop := match o with OCancel i => i = t | _ => False end.
Lemma step_good {E} (s : State) M o : Inv s M -> allowed (lanes_of s) o ->
  exists selected s' M', step (E := E) s o = Ok (selected, s') /\ good s M s' M' /\ forall t, ~ cancels t o -> served s M selected s' M' t.
Proof.
  intros Hi Ho. destruct o as [i key a|i|i a|i a|permits]; cbn [step].
  - destruct Ho as [Hr Ha]. destruct (credit_poll_good (E := E) s M i key a Hi Hr Ha) as (res & s' & M' & -> & Hg & Hs). exists [], s', M'. auto.
  - destruct (cancel_good (E := E) s M i Hi Ho) as (s' & -> & Hg & Hs). exists [], s', (delete i M). split; [done|]. split; [done|]. intros t Ht. apply Hs.
    intros ->. by apply Ht.
  - destruct (try_good (E := E) s M i a Hi Ho) as (res & s' & -> & Hg & Hs). exists [], s', M. auto.
  - destruct (release_good (E := E) s M i a Hi Ho) as (s' & M' & -> & Hg & Hs). exists [], s', M'. auto.
  - destruct (maintain_good (E := E) permits s M Hi) as (l & s' & M' & -> & Hg & Hs). exists l, s', M'. auto.
Qed.
Lemma history_good {E} os (s : State) M : Inv s M -> Forall (allowed (lanes_of s)) os ->
  exists selected s' M', history (E := E) s os = Ok (selected, s') /\ good s M s' M'
    /\ forall t, Forall (fun o => ~ cancels t o) os -> served s M selected s' M' t.
Proof.
  revert s M. induction os as [|o os IH]; intros s M Hi Hos.
  { exists [], s, M. split; [done|]. split; [done|]. intros t _. apply served_same. }
  apply Forall_cons in Hos as [Ho Hos]. destruct (step_good (E := E) s M o Hi Ho) as (l1 & s1 & M1 & He & (Hi1 & Hl1 & Ha1) & Hs1).
  rewrite <- Hl1 in Hos. destruct (IH s1 M1 Hi1 Hos) as (l2 & s2 & M2 & He2 & (Hi2 & Hl2 & Ha2) & Hs2).
  cbn [history]. rewrite He. cbn [bind]. rewrite He2. cbn [bind]. exists (l1 ++ l2), s2, M2. split; [done|]. split.
  - split; [done|]. split; [congruence|auto].
  - intros t [Ht Hts]%Forall_cons. by apply (served_trans s M l1 s1 M1); [apply Hs1|apply Hs2].
Qed.

(** A new queue. *)
Lemma inv_new lanes (c : C) (d : D) : 1 <= Z.of_nat lanes < 2 ^ 32 -> Inv (try_new lanes c d : State) ∅.
Proof.
  intros Hn. assert (Hrec : forall i v, Queue.record_at (K := K) (try_new lanes c d) i <> Some (RWaiting v)).
  { intros i v. unfold Queue.record_at. destruct (1 <=? i); [|done]. cbn [try_new records]. intros [Hx _]%lookup_replicate. done. }
  assert (Hl : lanes_of (K := K) (try_new lanes c d) = Z.of_nat lanes) by (unfold lanes_of; cbn [try_new records]; by rewrite length_replicate).
  split; try (rewrite Hl; lia).
  - cbn [try_new records nodes]. by rewrite !length_replicate.
  - apply waiters_new. lia.
  - intros i v Hv. by apply Hrec in Hv.
  - intros i w. by rewrite lookup_empty.
  - intros i w. by rewrite lookup_empty.
  - intros i j w v. by rewrite lookup_empty.
  - unfold try_new, FIRST. cbn [next_ticket]. lia.
Qed.

(** ** The theorems *)

(** C9. From a new queue of any number of lanes below 2^32, every history of polls,
    cancellations, acquisitions, releases and maintenance returns: no node outside
    the table is read, no loop through the trees runs out, no waiting lane lacks its
    record, and credit is taken unchecked only where the shared credit covers the
    demand. The queue stays sound: the trees hold exactly the lanes that wait, each
    with its present demand, a ticket of its own and fewer bypasses than lanes. *)
Theorem credit_queue_never_stuck E lanes (c : C) (d : D) os : 1 <= Z.of_nat lanes < 2 ^ 32 -> Forall (allowed (Z.of_nat lanes)) os ->
  exists selected s' M', history (E := E) (try_new lanes c d) os = Ok (selected, s') /\ lanes_of s' = Z.of_nat lanes /\ Inv s' M'.
Proof.
  intros Hn Hos. assert (Hl : lanes_of (K := K) (try_new lanes c d) = Z.of_nat lanes) by (unfold lanes_of; cbn [try_new records]; by rewrite length_replicate).
  rewrite <- Hl in Hos. destruct (history_good (E := E) os _ _ (inv_new lanes c d Hn) Hos) as (l & s' & M' & ? & (? & ? & _) & _).
  exists l, s', M'. split; [done|]. split; [congruence|done].
Qed.

(** C11. With work pending, a permit selects exactly the waiting lane with the
    earliest ticket among those whose demand the shared credit covers, and takes it
    out of the queue: where the driver wakes its task, the lane is granted its
    amount, charged to its account; where the task is gone, it is idle and no credit
    is taken. If it is not the oldest, the oldest is passed over once more; no other
    record changes. Nothing is selected, and nothing but the pending mark changes,
    only where no waiting lane is covered, or the oldest is not and was passed over
    as often as there are other lanes. *)
Theorem selection_is_exact E (s : State) M : Inv s M -> pending s = true ->
  (exists s', maintain (E := E) try_activate 1 s = Ok ([], s') /\ s' = with_pending s false /\ blocked s M)
  \/ (exists i s' v, maintain (E := E) try_activate 1 s = Ok ([i], s') /\ earliest (covers (cr_shared (credit s))) M (Some i)
      /\ Inv s' (delete i M) /\ follows s M s' (delete i M) /\ pending s' = has_waiting s'
      /\ record_at s i = Some (RWaiting v)
      /\ match try_activate (ready s) (v_key v) with
         | Some d => record_at s' i = Some (RGranted (granted_of (v_key v) (charge (v_amount v)))) /\ ready s' = d
             /\ credit s' = cr_acquire (credit s) i (get (charge (v_amount v)))
         | None => record_at s' i = Some RIdle /\ ready s' = ready s /\ credit s' = credit s
         end
      /\ (earliest (fun _ => True) M (Some i) /\ (forall j, j <> i -> record_at s' j = record_at s j)
          \/ exists k, earliest (fun _ => True) M (Some k) /\ k <> i /\ passed s s' k
              /\ forall j, j <> i -> j <> k -> record_at s' j = record_at s j)).
Proof.
  intros Hi Hp. rewrite maintain_turn by done.
  destruct (turn_ok (E := E) try_activate _ _ (inv_pending s M false Hi)) as (out & s1 & -> & Hout). cbn [bind]. destruct out as [i|].
  - destruct Hout as (He & Hi1 & Hf & (v & Hv & Hst) & Hold). right. exists i, (with_pending s1 (has_waiting s1)), v.
    split; [cbn [maintain]; by destruct (pending (with_pending s1 (has_waiting s1)))|]. split; [done|]. split; [by apply inv_pending|].
    split; [exact Hf|]. split; [done|]. split; [exact Hv|]. split; [exact Hst|exact Hold].
  - destruct Hout as [-> Hb]. left. eexists. split; [done|]. split; [done|exact Hb].
Qed.

(** C12. No lane waits for ever: whatever the other lanes do, until a waiting lane
    cancels or is selected, fewer lanes are selected than there are lanes times
    lanes whose ticket is not after its own; it waits on under its ticket. *)
Theorem waits_are_bounded E (s : State) M t w os : Inv s M -> M !! t = Some w -> Forall (allowed (lanes_of s)) os ->
  Forall (fun o => ~ cancels t o) os ->
  exists selected s' M', history (E := E) s os = Ok (selected, s') /\ Inv s' M'
    /\ (t ∈ selected \/ (exists w', M' !! t = Some w' /\ w_tick w' = w_tick w)
        /\ Z.of_nat (length selected) < lanes_of s * Z.of_nat (length (not_younger s M (w_tick w)))).
Proof.
  intros Hi Hw Hos Ht. destruct (history_good (E := E) os s M Hi Hos) as (l & s' & M' & He & (Hi' & _) & Hs).
  exists l, s', M'. split; [done|]. split; [done|]. destruct (Hs t Ht w Hw) as [?|(w' & Hw' & Htick & Hle)]; [by left|right].
  split; [eauto|]. pose proof (turns_positive s' M' t w' Hi' Hw') as H1. rewrite Htick in H1. pose proof (turns_bound s M (w_tick w) Hi). lia.
Qed.

(** C13. Credit is never left idle: after every history of a new queue, work is
    pending, so that the owner maintains the pool before it parks, or nothing can be
    selected: no waiting lane is covered by the shared credit, or the oldest is not
    and was passed over as often as there are other lanes. *)
Theorem credit_never_left_idle E lanes (c : C) (d : D) os selected (s' : State) : 1 <= Z.of_nat lanes < 2 ^ 32 ->
  Forall (allowed (Z.of_nat lanes)) os -> history (E := E) (try_new lanes c d) os = Ok (selected, s') ->
  exists M', Inv s' M' /\ (pending s' = true \/ blocked s' M').
Proof.
  intros Hn Hos He. assert (Hl : lanes_of (K := K) (try_new lanes c d) = Z.of_nat lanes) by (unfold lanes_of; cbn [try_new records]; by rewrite length_replicate).
  rewrite <- Hl in Hos. destruct (history_good (E := E) os _ _ (inv_new lanes c d Hn) Hos) as (l & s1 & M' & He1 & (Hi & _ & Ha) & _).
  rewrite He in He1. injection He1 as <- <-. exists M'. split; [done|]. apply Ha. right. left. intros j v Hj. by rewrite lookup_empty in Hj.
Qed.
End runs.
End CreditRuns.
