(* ===== verification/CreditExamples.v ===== *)
(** * The queue for credit on concrete inputs.

    A pool whose lanes each keep one entry and fifty bytes for themselves, and the
    theorems of [CreditRuns] on a history of three of its lanes. *)

From stdpp Require Import gmap.
From S2P Require Import Prelude CreditTree CreditAvl CreditTreeFacts CreditState CreditQueue CreditFacts CreditRuns.

Module CreditExamples.
Import Tree Waiters Amount AmountFacts Queue QueueFacts CreditRuns.

(** ** A pool of credit *)

(** What is free for all, and what each lane holds. *)
Record Bank := bank { b_free : Z * Z; b_held : gmap Z (Z * Z) }.
Definition held_of (b : Bank) (i : Z) : Z * Z := default (0, 0) (b_held b !! i).
(** A lane protects one entry and fifty bytes; it demands what goes beyond. *)
Definition beyond (p h : Z) : Z := Z.max 0 (h - p).
Definition demand1 (p h a : Z) : Z := beyond p (Z.max 0 h + a) - beyond p (Z.max 0 h).
Definition bank_demand (b : Bank) (i : Z) (a : Z * Z) : Z * Z := (demand1 1 (held_of b i).1 a.1, demand1 50 (held_of b i).2 a.2).
Definition clamp (z : Z) : Z := Z.max 0 (Z.min z (2 ^ 32 - 1)).
Definition bank_shared (b : Bank) : Z * Z := (clamp (b_free b).1, clamp (b_free b).2).
Definition bank_take (b : Bank) (i : Z) (a : Z * Z) : Bank :=
  let d := bank_demand b i a in
  bank ((b_free b).1 - d.1, (b_free b).2 - d.2) (<[i := ((held_of b i).1 + a.1, (held_of b i).2 + a.2)]> (b_held b)).
Definition bank_give (b : Bank) (i : Z) (a : Z * Z) : Bank :=
  let h := ((held_of b i).1 - a.1, (held_of b i).2 - a.2) in
  bank ((b_free b).1 + beyond 1 (held_of b i).1 - beyond 1 h.1, (b_free b).2 + beyond 50 (held_of b i).2 - beyond 50 h.2) (<[i := h]> (b_held b)).
#[export] Instance bank_credits : Credits Bank unit := {
  cr_shared := bank_shared;
  cr_demand := bank_demand;
  cr_acquire := bank_take;
  cr_try b i a := let d := bank_demand b i a in
    if (d.1 <=? (bank_shared b).1) && (d.2 <=? (bank_shared b).2) then inl (bank_take b i a) else inr ();
  cr_release := bank_give;
}.
Lemma held_other b f i j h : j <> i -> held_of (bank f (<[i := h]> (b_held b))) j = held_of b j.
Proof. intros Hj. unfold held_of. cbn [b_held]. by rewrite lookup_insert_ne. Qed.
#[export] Instance bank_laws : CreditLaws Bank unit.
Proof.
  assert (Htake : forall c i a j b, j <> i -> bank_demand (bank_take c i a) j b = bank_demand c j b).
  { intros c i a j b Hj. unfold bank_demand, bank_take. by rewrite held_other. }
  split.
  - intros c. simpl. unfold clamp. lia.
  - intros c i a H1 H2. simpl. unfold demand1, beyond. lia.
  - exact Htake.
  - intros c i a Hd. cbn [cr_shared cr_acquire cr_demand bank_credits] in *. unfold bank_shared, bank_take. rewrite Hd. cbn [b_free fst snd]. by rewrite !Z.sub_0_r.
  - intros c i a c' j b Hj. cbn [cr_try bank_credits]. destruct (_ && _); [|done]. intros [= <-]. by apply Htake.
  - intros c i a j b Hj. cbn [cr_demand cr_release bank_credits]. unfold bank_demand, bank_give. by rewrite held_other.
Qed.

(** ** A history *)

(** Tasks that live are in a list. *)
Definition wake_task (d : list Z) (k : Z) : option (list Z) := if bool_decide (k ∈ d) then Some d else None.
Definition start : @State Z (list Z) Bank := try_new 3 (bank (2, 100) ∅) [7; 8; 9].
(** Lane 1 asks for more than there is; lane 2 for less, behind it. *)
Definition polls : list (@Op Z) := [OPoll 1 7 (queued COne 200); OPoll 2 8 (queued COne 100)].
Definition after (os : list (@Op Z)) : @State Z (list Z) Bank :=
  match history (E := unit) wake_task start os with Ok (_, s) => s | _ => start end.
Definition queue2 : @State Z (list Z) Bank := after polls.
Lemma polls_allowed : Forall (allowed 3) polls.
Proof. repeat constructor; simpl; unfold queued_ok, u32; simpl; lia. Qed.
Lemma queue2_inv : exists M, Inv queue2 M.
Proof.
  destruct (history_good wake_task (E := unit) polls start ∅ (inv_new 3 _ _ ltac:(simpl; lia)) polls_allowed) as (l & s' & M & He & (Hi & _) & _).
  exists M. assert (Hq : queue2 = s') by (unfold queue2, after; by rewrite He). by rewrite Hq.
Qed.
Example queue2_waits : (pending queue2, lanes_of queue2, has_waiting queue2) = (true, 3, true).
Proof. vm_compute. reflexivity. Qed.
(** Lane 2 passes lane 1 once; then lane 1 waits for credit that is not there. *)
Example queue2_maintained :
  match maintain (E := unit) wake_task 5 queue2 with Ok (l, s) => (l, pending s, option_map (fun r => match r with RWaiting v => v_bypasses v | _ => -1 end) (record_at s 1)) | _ => ([], true, None) end
  = ([2], false, Some 1).
Proof. vm_compute. reflexivity. Qed.

(** ** The theorems on it *)

Lemma waiting_trees_refine_witness : exists r1 s1 r2 s2, insert_node (E := unit) roots_new (replicate 3 idle) 1 (waiting 1 40 One 1) = Ok (r1, s1)
  /\ state_remove (E := unit) r1 s1 1 = Ok (r2, s2) /\ holds s2 r2 (delete 1 (<[1 := waiter One 40 1]> ∅)).
Proof.
  destruct (TreesRefine.waiting_trees_refine unit (replicate 3 idle) roots_new ∅ (waiters_new 3 ltac:(simpl; lia))) as [Hins _].
  destruct (Hins 1 40 1 One (lookup_empty 1) ltac:(simpl; lia)) as (r1 & s1 & H1 & Hh1).
  destruct (TreesRefine.waiting_trees_refine unit s1 r1 _ Hh1) as (_ & Hrem & _).
  destruct (Hrem 1 ltac:(rewrite lookup_insert_eq; eauto)) as (r2 & s2 & H2 & Hh2). exists r1, s1, r2, s2. split; [exact H1|]. split; [exact H2|exact Hh2].
Defined.
Lemma credit_queue_never_stuck_witness : exists selected s' M',
  history (E := unit) wake_task start (polls ++ [OMaintain 5; ORelease 2 (amount 1 100); OCancel 1]) = Ok (selected, s') /\ lanes_of s' = 3 /\ Inv s' M'.
Proof.
  apply (credit_queue_never_stuck wake_task unit 3 (bank (2, 100) ∅) [7; 8; 9]); [simpl; lia|].
  apply Forall_app. split; [exact polls_allowed|]. repeat constructor; simpl; lia.
Defined.
Lemma selection_is_exact_witness : exists M s' v, maintain (E := unit) wake_task 1 queue2 = Ok ([2], s')
  /\ earliest (covers (cr_shared (credit queue2))) M (Some 2) /\ record_at queue2 2 = Some (RWaiting v)
  /\ record_at s' 2 = Some (RGranted (granted_of 8 (amount 1 100))) /\ held_of (credit s') 2 = (1, 100).
Proof.
  destruct queue2_inv as [M Hi].
  destruct (selection_is_exact wake_task unit queue2 M Hi ltac:(vm_compute; reflexivity))
    as [(s' & He & _)|(i & s' & v & He & Hc & _ & _ & _ & Hv & Hs & _)]; [exfalso; vm_compute in He; discriminate He|].
  assert (i = 2) as -> by (vm_compute in He; congruence).
  assert (v = waiting_of 8 (queued COne 100) 0) as -> by (vm_compute in Hv; congruence).
  change (wake_task (ready queue2) (v_key (waiting_of 8 (queued COne 100) 0))) with (Some [7; 8; 9]) in Hs. destruct Hs as (Hr & _ & Hcr).
  exists M, s', (waiting_of 8 (queued COne 100) 0). split; [exact He|]. split; [exact Hc|]. split; [exact Hv|]. split; [exact Hr|].
  rewrite Hcr. vm_compute. reflexivity.
Defined.
Lemma waits_are_bounded_witness : exists M w selected s', M !! 1 = Some w /\ Inv queue2 M
  /\ history (E := unit) wake_task queue2 [OMaintain 5; OTry 3 (amount 1 50); OPoll 2 8 (queued COne 10)] = Ok (selected, s')
  /\ (1 ∈ selected \/ Z.of_nat (length selected) < lanes_of queue2 * Z.of_nat (length (not_younger queue2 M (w_tick w)))).
Proof.
  destruct queue2_inv as [M Hi].
  assert (Hv : exists v, record_at queue2 1 = Some (RWaiting v)) by (eexists; vm_compute; reflexivity). destruct Hv as [v Hv].
  destruct (i_wait _ _ Hi 1 v Hv) as ((w & Hw & _) & _).
  destruct (waits_are_bounded wake_task unit queue2 M 1 w [OMaintain 5; OTry 3 (amount 1 50); OPoll 2 8 (queued COne 10)] Hi Hw) as (l & s' & M' & He & _ & Hb).
  - change (lanes_of queue2) with 3. repeat constructor; simpl; unfold queued_ok, u32; simpl; lia.
  - repeat constructor; simpl; tauto.
  - exists M, w, l, s'. split; [exact Hw|]. split; [exact Hi|]. split; [exact He|]. destruct Hb as [?|[_ ?]]; [left; assumption|right; assumption].
Defined.
Lemma credit_never_left_idle_witness : exists M', Inv (after (polls ++ [OMaintain 5])) M' /\ blocked (after (polls ++ [OMaintain 5])) M'.
Proof.
  destruct (credit_never_left_idle wake_task unit 3 (bank (2, 100) ∅) [7; 8; 9] (polls ++ [OMaintain 5]) [2] (after (polls ++ [OMaintain 5]))) as (M' & Hi & Hb).
  - simpl. lia.
  - apply Forall_app. split; [exact polls_allowed|]. repeat constructor.
  - vm_compute. reflexivity.
  - exists M'. split; [exact Hi|]. destruct Hb as [Hp|Hb]; [exfalso; vm_compute in Hp; discriminate Hp|exact Hb].
Defined.
End CreditExamples.
